(* ===== verification/_CoqProject ===== *)
-Q . S2P
Prelude.v
Calendar.v
Base.v
StdAlgo.v
IntFormat.v
Scan.v
TransportProfile.v
SessionCore.v
SessionStore.v
MemoryStore.v
ResendRecovery.v
FixTags.v
Wire.v
RawPassThrough.v
Message.v
Validation.v
Frame.v
AdminProtocol.v
AdminDemo.v
AdminProofs.v
AdminReplay.v
AdminGap.v
AdminLogout.v
Framing.v
Spsc.v
Heap.v
TimerWheel.v
Schedule.v
BitTable.v
SortSearch.v
NormalizedDictionary.v
ParsedMessage.v
Decoder.v
DecoderProofs.v
DecodeTree.v
DecodeFrame.v
Encoder.v
EncoderProofs.v
CodecRoundTrip.v
Router.v
RouterProofs.v
Ha.v
ConnectionStrategy.v
Peek.v
SessionRegistry.v
LiveInitiator.v
LiveTables.v
LiveInitiatorProofs.v
LiveRuns.v
Artifact.v
ArtifactProofs.v
Overlay.v
Disk.v
DurableStore.v
DurableProofs.v
DurableRep.v
DurableRefines.v
DurableCrash.v
MmapStore.v
MmapProofs.v
MmapRefines.v
