(* ===== verification/Prelude.v ===== *)
(** * A verification library for the NimbleFIX session engine

    NimbleFIX is a FIX protocol engine in C++20.  This library models the part of
    it that decides what is sent, stored and delivered: the session state machine,
    the store it persists to, the wire codecs of the resend path, and the admin
    protocol that ties them together.

    ** The program's parts and the files that model them

    The admin protocol ([src/src/session/admin_protocol.cpp]) owns one session
    object and borrows a store.  Inbound frames are decoded, checked and put in
    sequence with the session object, persisted, and turned into an event: frames
    to send, application messages to deliver, a disconnect.  A gap makes it ask the
    counterparty for a resend and keep the frame; a ResendRequest makes it read the
    store and re-encode the stored frames through the raw pass-through codec.

    - [Prelude] (this file): integer widths, the tactics and generic lemmas.
    - [Base] ([base/status.h], [base/result.h]): statuses, results and the
      state-and-error monad [SE] in which the stateful code is written.
    - [StdAlgo]: what the code uses of [std::lower_bound], [std::stable_sort] and
      [std::vector].
    - [IntFormat] ([codec/fast_int_format.h]), [Scan] ([codec/simd_scan.h]): the
      formatters and the vectorised scans, the vector instructions lane by lane.
    - [FixTags] ([codec/fix_tags.h]), [TransportProfile]
      ([session/transport_profile.cpp]).
    - [SessionCore] ([session/session_core.cpp]): the session object, a record with
      the members of the class, and one definition per method.
    - [SessionStore] ([store/session_store.h]): the virtual interface as the class
      [SessionStore], its contract as the class [SessionStoreSpec] over an abstract
      store of finite maps; [MemoryStore] ([store/memory_store.cpp]) implements it,
      sorted vectors and payload arena included, and is proved to keep it.
    - [ResendRecovery] ([session/resend_recovery.cpp]): replay plans and warm
      restart.
    - [Wire] ([session/encoded_frame.h] and the prefixes of the wire format),
      [RawPassThrough] ([codec/raw_passthrough.cpp]): scanning, decoding and the
      three encoders.
    - [Message] ([message/message.cpp]), [Validation] ([session/validation_policy.h]
      and the decision functions of [admin_protocol.cpp]), [Frame] (pre-encoded
      bodies and body offsets, [admin_protocol.cpp]).
    - [AdminProtocol] ([session/admin_protocol.cpp]): the handlers, over the classes
      [SessionStore] and [Codec]; [AdminDemo] is a concrete object they run on.
      [AdminProofs], [AdminReplay], [AdminGap] and [AdminLogout] hold its theorems.
    - [Framing] ([transport/tcp_transport.cpp]): frames cut from a byte stream, the read
      buffer and its compaction, both receive calls, [Send] and [SendGather], over a
      socket that delivers and accepts bytes as a script says.
    - [Spsc] ([base/spsc_queue.h]): the queue between two threads, one step per memory
      access, with release stores and acquire loads.
    - [Heap]: the heap algorithms of the standard library as the class
      [HeapAlgorithms], with a binary heap as its instance; [TimerWheel]
      ([runtime/timer_wheel.h]) is written over the class.
    - [Calendar]: civil dates, [gmtime] and [timegm]; [Schedule]
      ([runtime/session_schedule.cpp] and the schedule part of [runtime/config.cpp]):
      validation, windows, openings and closes, the status query, blackout dates.
    - [SortSearch]: [std::sort] and [std::lower_bound] by key, as a class and a search
      over it; [BitTable]: bitmaps of machine words; [NormalizedDictionary]
      ([profile/normalized_dictionary.cpp]): the dictionary view and its lookups.
    - [ParsedMessage] ([message/message_structs.h], [message/message.cpp] and the
      operations of [codec/fix_codec.cpp] on it): the zero-copy form of a decoded
      message and its accessors.
    - [Decoder] and [DecoderProofs] ([codec/fix_codec.cpp], [codec/compiled_decoder.cpp]):
      decoding against a dictionary, with and without precompiled decoders;
      [DecodeTree] and [DecodeFrame]: the decoders on a frame that renders a tree of
      fields and nested groups.
    - [Encoder] and [EncoderProofs] ([codec/fix_codec.cpp]): generic encoding and the
      frame templates; [CodecRoundTrip]: encoding followed by decoding.
    - [Router] and [RouterProofs] ([runtime/router.cpp]): routing expressions, field
      transformations, the routing table and its load balancers, over classes for
      regular expressions and doubles.
    - [Ha] ([runtime/ha.cpp]): roles and health of a pair of engines, snapshots, and the
      restoration of a session from one.
    - [ConnectionStrategy] ([runtime/connection_strategy.cpp]): the three strategies as
      instances of a class, with the accounting of attempts the three share.
    - [Peek] ([codec/fix_codec.cpp]): the look at a session header before decoding.
    - [SessionRegistry] ([runtime/live_session_registry.cpp]): active sessions, snapshots
      and subscriptions; a publication is the step under the mutex and then one push
      per stream outside it, interleaved with the other threads.
    - [LiveInitiator] ([runtime/live_initiator.cpp]): a worker of the live runtime, over
      classes for the network, the clocks and the application; [LiveTables]: the calls
      that leave its tables alone and the invariant of the tables;
      [LiveInitiatorProofs]: the calls that change them; [LiveRuns]: its runs.
    - [Artifact] and [ArtifactProofs] ([profile/artifact_builder.cpp],
      [profile/profile_loader.cpp], [profile/artifact.h]): a dictionary as a file of
      sections, its validation and its views; [Overlay] ([profile/overlay.cpp]): the
      merge of dictionaries.
    - [Disk]: files, positioned reads and writes that may be short, interrupted or fail,
      and what a loss of power leaves of them; [DurableStore]
      ([store/durable_batch_store.cpp]): the durable store over them; [DurableProofs]:
      names, file headers, logs and indices; [DurableRep]: the files and the object of a
      store that holds a list of entries, and every operation on them; [DurableRefines]:
      the store beside its specification; [DurableCrash]: flushes that are cut off.
    - [MmapStore] ([store/mmap_store.cpp]): the store over a mapped file; [MmapProofs]:
      the scan and every operation on the file of a list of entries; [MmapRefines]: the
      store beside the abstract one, appends that are cut off.

    ** What the theorems show

    - Session: an invariant of every reachable session object, the edges of its
      state machine, what each inbound number does, that a gap recovery ends, that
      allocated numbers are consecutive, when the day cut fires; and three corners
      the code does not handle (wrap of the inbound counter, recovery inside a
      resend, a day cut that falls while busy).
    - Store: refinement of the abstract store by any history of calls; compaction
      keeps every record.
    - Codecs: formatters and scans equal their references on every branch; decoding
      is total and stays in bounds under the stated delimiter; encoders round-trip,
      and the single-pass replay encoder writes what the simple one writes.
    - Protocol: messages are delivered once and in order, nothing is sent before it
      is stored and a restart resumes after it, a ResendRequest is answered without
      hole or overlap, a gap is answered with one ResendRequest, draining the kept
      frames ends, at most one Logout goes out per connection, the timer deadline is
      the first instant at which the timer acts.
    - Transport: whatever pieces a stream arrives in, the frames that come out are the
      frames that went in; the read buffer stays bounded; a gathered send writes
      exactly the bytes of its segments, in order, or reports an error.
    - Runtime: the queue loses, duplicates and reorders nothing and has no data race in
      any interleaving, and its calls complete; the timer wheel fires every timer once,
      at its latest schedule; the next opening of a schedule is its first open instant,
      the status query is consistent with the windows, the blackout calendar is a set.
    - Dictionary-driven codec: the indices and bitmaps of a dictionary find what a scan
      of its records finds; the scanner of a field is exact; both decoders terminate on
      any input and accept only well-framed messages; the index-linked form of a
      message shows what was put in; generic encoding writes the frame of the message,
      the templates write the same bytes.  A frame that renders a conforming tree of
      nested groups is decoded to a message object whose accessors show that tree, and
      a message comes back from the encoder and the decoder as it was.  Corners in which the code loses a field are
      theorems as well.
    - Routing and failover: a table routes by the first matching rule in priority order
      whatever the order of edits, printed expressions read back and mean AND before
      OR, transformations act on the list of fields, sticky bindings stay; roles change
      only by takeover, failover decides by the missed heartbeats, and a standby that
      applied the snapshot of the primary continues its sequence numbers.
    - Live runtime: in every reachable state of a worker, beside any behaviour of the
      other workers, no session is lost and none has two owners, the index maps find
      exactly the connections, the counters count; an attempt to connect keeps to its
      time and its logon window; the retries back off and end as configured; each of
      the three strategies gives up exactly when its budget is used; a subscriber gets every notification
      published while its queue has room, in order; the peek sees what the decoder sees.
    - Profiles: a dictionary that is written as an artifact and loaded again shows the
      same fields, messages, groups and rules; whatever bytes are loaded, a view of an
      accepted artifact stays within the file and the sections do not overlap; a merged
      dictionary has under each key what the overlay rules say, and an overlay is
      refused for the two documented reasons only.
    - Durable store: from an empty directory every sequence of calls is answered as the
      abstract history says; a restart loses at most the queue; a flush under any
      outcome of the system calls leaves each file, at any moment the power fails, with
      what it had committed before or what the flush commits.  What the order of the
      operations does not protect is shown on concrete runs.
    - Mmap store: every sequence of calls is answered exactly as the abstract store
      answers it, across restarts; an append is atomic behind whatever call the process
      ends.

    ** Conventions, bounds and fuel

    A machine integer is a [Z]; every operation that can leave its width is written
    with the wrapping of that width, and the hypotheses of a theorem say which values
    are in range.  Loops that are not structural take fuel that their callers
    compute: the length of the input for scans, the length of the range for replay,
    the length of the queue for the drain.  That it is enough is proved: running out
    is a distinct error, [diverges], which the theorems exclude (or, for the one loop
    that does not terminate in the code, state).  Undefined behaviour is a distinct
    error, [undefined_behaviour].  Arithmetic and the clock: the current time is an
    argument, or a field of the class [Codec].

    Where a message reference points is modelled ([RefStorage]), because a claim
    depends on it: moving a reference out of an event leaves it behind its storage.

    ** Not modelled

    To the admin protocol the codec is the class [Codec], a parameter: decoding gives
    a header, fields and a validation issue, encoding gives bytes or an error; its
    theorems use only what they state about it.  The codec itself is modelled in
    [Decoder] and [Encoder], over floating point conversions that are arguments
    ([FloatText], [FloatFormat]).  The peek at a session header, the text of a
    timestamp, the pool of replay frame buffers and the benchmark counters are
    left out.  TLS, threads, pollers, files and memory maps, code generation, the test
    harnesses and the command-line tools are input and output around the modelled
    logic; of the sockets, what they deliver and accept is an argument.

    ** Plan

    Not modelled are the live acceptor and the engine around it, the
    reading of configurations and of dictionary text, code generation, TLS,
    observability, harnesses and tools; the manifest gives the reason for each. *)
From Stdlib Require Export ZArith Lia.
From stdpp Require Export base tactics numbers strings gmap list.
Open Scope Z_scope.

(** ** Machine-width integers *)

Declare Scope nimble_scope.
Delimit Scope nimble_scope with nimble.

(** The C++ code computes on [std::uint32_t], [std::uint64_t], [std::uint16_t],
    [std::int32_t] and [std::int64_t].  A value is a [Z]; the width is written
    out at every operation that can leave it. *)
Definition UINT16_MAX : Z := 65535.
Definition UINT32_MAX : Z := 4294967295.
Definition UINT64_MAX : Z := 18446744073709551615.

Definition u16 (x : Z) : Z := x mod 65536.
Definition u32 (x : Z) : Z := x mod 4294967296.
Definition u64 (x : Z) : Z := x mod 18446744073709551616.

(** Two's complement reading of the low bits, as [static_cast] to a signed type. *)
Definition i32 (x : Z) : Z := (x + 2147483648) mod 4294967296 - 2147483648.
Definition i64 (x : Z) : Z :=
  (x + 9223372036854775808) mod 18446744073709551616 - 9223372036854775808.

Definition in_u16 (x : Z) : Prop := 0 <= x <= 65535.
Definition in_u32 (x : Z) : Prop := 0 <= x <= 4294967295.
Definition in_u64 (x : Z) : Prop := 0 <= x <= 18446744073709551615.

Arguments u16 : simpl never.
Arguments u32 : simpl never.
Arguments u64 : simpl never.
Arguments i32 : simpl never.
Arguments i64 : simpl never.

Notation "a '+u32' b" := (u32 (a + b)) (at level 50, left associativity) : nimble_scope.
Notation "a '-u32' b" := (u32 (a - b)) (at level 50, left associativity) : nimble_scope.
Notation "a '+u64' b" := (u64 (a + b)) (at level 50, left associativity) : nimble_scope.
Notation "a '-u64' b" := (u64 (a - b)) (at level 50, left associativity) : nimble_scope.
Notation "a '*u64' b" := (u64 (a * b)) (at level 40, left associativity) : nimble_scope.
Open Scope nimble_scope.

Lemma u16_small x : in_u16 x -> u16 x = x.
Proof. unfold in_u16, u16. intros. apply Z.mod_small. lia. Qed.
Lemma u32_small x : in_u32 x -> u32 x = x.
Proof. unfold in_u32, u32. intros. apply Z.mod_small. lia. Qed.
Lemma u64_small x : in_u64 x -> u64 x = x.
Proof. unfold in_u64, u64. intros. apply Z.mod_small. lia. Qed.
Lemma u16_range x : in_u16 (u16 x).
Proof. unfold in_u16, u16. pose proof (Z.mod_pos_bound x 65536). lia. Qed.
Lemma u32_range x : in_u32 (u32 x).
Proof. unfold in_u32, u32. pose proof (Z.mod_pos_bound x 4294967296). lia. Qed.
Lemma u64_range x : in_u64 (u64 x).
Proof. unfold in_u64, u64. pose proof (Z.mod_pos_bound x 18446744073709551616). lia. Qed.
Lemma i32_small x : -2147483648 <= x <= 2147483647 -> i32 x = x.
Proof. unfold i32. intros. rewrite Z.mod_small; lia. Qed.
Lemma i64_small x : -9223372036854775808 <= x <= 9223372036854775807 -> i64 x = x.
Proof. unfold i64. intros. rewrite Z.mod_small; lia. Qed.

(** The one successor that wraps. *)
Lemma u32_succ_wrap : u32 (UINT32_MAX + 1) = 0.
Proof. reflexivity. Qed.

Create HintDb nimble.
#[export] Hint Resolve u16_range u32_range u64_range : nimble.

(** ** Proof automation *)

(** Turns boolean tests of the code into the propositions they decide. *)
Ltac bool_to_prop :=
  repeat match goal with
  | H : negb _ = true |- _ => apply negb_true_iff in H
  | H : negb _ = false |- _ => apply negb_false_iff in H
  | H : _ && _ = true |- _ => apply andb_true_iff in H as [? ?]
  | H : _ || _ = false |- _ => apply orb_false_iff in H as [? ?]
  | H : (_ =? _)%Z = true |- _ => apply Z.eqb_eq in H
  | H : (_ =? _)%Z = false |- _ => apply Z.eqb_neq in H
  | H : (_ <? _)%Z = true |- _ => apply Z.ltb_lt in H
  | H : (_ <? _)%Z = false |- _ => apply Z.ltb_ge in H
  | H : (_ <=? _)%Z = true |- _ => apply Z.leb_le in H
  | H : (_ <=? _)%Z = false |- _ => apply Z.leb_gt in H
  | H : (_ >? _)%Z = true |- _ => rewrite Z.gtb_ltb in H; apply Z.ltb_lt in H
  | H : (_ >? _)%Z = false |- _ => rewrite Z.gtb_ltb in H; apply Z.ltb_ge in H
  | H : (_ >=? _)%Z = true |- _ => rewrite Z.geb_leb in H; apply Z.leb_le in H
  | H : (_ >=? _)%Z = false |- _ => rewrite Z.geb_leb in H; apply Z.leb_gt in H
  | H : bool_decide _ = true |- _ => apply bool_decide_eq_true in H
  | H : bool_decide _ = false |- _ => apply bool_decide_eq_false in H
  end.

(** Splits the innermost test of an [if] or [match] in the goal or a hypothesis. *)
Ltac split_if :=
  match goal with
  | |- context [if ?b then _ else _] =>
      lazymatch b with context [if _ then _ else _] => fail | context [match _ with _ => _ end] => fail | _ => destruct b eqn:? end
  | H : context [if ?b then _ else _] |- _ =>
      lazymatch b with context [if _ then _ else _] => fail | context [match _ with _ => _ end] => fail | _ => destruct b eqn:? end
  | |- context [match ?b with _ => _ end] =>
      lazymatch b with context [match _ with _ => _ end] => fail | _ => destruct b eqn:? end
  | H : context [match ?b with _ => _ end] |- _ =>
      lazymatch b with context [match _ with _ => _ end] => fail | _ => destruct b eqn:? end
  end.
Ltac split_ifs := repeat (split_if; simplify_eq/=).

(** Unfolds the range predicates so that [lia] sees the bounds. *)
Ltac ulia := unfold in_u16, in_u32, in_u64, UINT16_MAX, UINT32_MAX, UINT64_MAX in *; lia.

(** [lia] with the quotients and remainders by constants expanded. *)
Ltac dlia := unfold in_u16, in_u32, in_u64, UINT16_MAX, UINT32_MAX, UINT64_MAX in *;
  Z.to_euclidean_division_equations; lia.

(** ** Sequences of integers *)

(** [zseq b n] is [b; b+1; ...] with [n] elements. *)
Definition zseq (b : Z) (n : nat) : list Z := map (fun i => b + Z.of_nat i) (seq 0 n).

Arguments zseq : simpl never.

Lemma zseq_0 b : zseq b 0 = [].
Proof. reflexivity. Qed.
Lemma zseq_S b n : zseq b (S n) = b :: zseq (b + 1) n.
Proof.
  unfold zseq. cbn [seq map]. f_equal; [lia|].
  rewrite <- seq_shift, map_map. apply map_ext. intros; lia.
Qed.
Lemma zseq_1 b : zseq b 1 = [b].
Proof. by rewrite zseq_S, zseq_0. Qed.
Lemma length_zseq b n : length (zseq b n) = n.
Proof. unfold zseq. by rewrite length_map, length_seq. Qed.
Lemma elem_of_zseq b n x : x ∈ zseq b n <-> b <= x < b + Z.of_nat n.
Proof.
  revert b; induction n as [|n IH]; intros b.
  - rewrite zseq_0. set_unfold. lia.
  - rewrite zseq_S, elem_of_cons, IH. lia.
Qed.
Lemma zseq_app b n m : zseq b (n + m) = zseq b n ++ zseq (b + Z.of_nat n) m.
Proof.
  revert b; induction n as [|n IH]; intros b.
  - rewrite zseq_0. cbn [app Nat.add]. by replace (b + Z.of_nat 0) with b by lia.
  - cbn [Nat.add]. rewrite !zseq_S, IH. cbn [app]. replace (b + 1 + Z.of_nat n) with (b + Z.of_nat (S n)) by lia. reflexivity.
Qed.
Lemma zseq_snoc b n : zseq b (S n) = zseq b n ++ [b + Z.of_nat n].
Proof. replace (S n) with (n + 1)%nat by lia. rewrite zseq_app, zseq_S, zseq_0. reflexivity. Qed.
