(* ===== verification/Calendar.v ===== *)
(** * The civil calendar

    What the engine uses of [std::chrono] and of the C library: days since 1970 for
    a date and back, broken-down UTC time ([gmtime_r]) and its inverse
    ([timegm]), which normalises fields that are out of range. *)
From S2P Require Import Prelude.
Open Scope Z_scope.

Definition is_leap (y : Z) : bool := ((y mod 4 =? 0) && negb (y mod 100 =? 0)) || (y mod 400 =? 0).
Definition last_day (y m : Z) : Z :=
  if m =? 2 then (if is_leap y then 29 else 28)
  else if existsb (Z.eqb m) [4; 6; 9; 11] then 30 else 31.
Definition ymd_ok (y m d : Z) : bool := (1 <=? m) && (m <=? 12) && (1 <=? d) && (d <=? last_day y m).
Definition days_from_civil (y m d : Z) : Z :=
  let y' := if m <=? 2 then y - 1 else y in
  let era := y' / 400 in
  let yoe := y' - era * 400 in
  let doy := (153 * (if m >? 2 then m - 3 else m + 9) + 2) / 5 + d - 1 in
  let doe := yoe * 365 + yoe / 4 - yoe / 100 + doy in
  era * 146097 + doe - 719468.

(** Year, month and day of a day number. *)
Definition civil_from_days (days : Z) : Z * Z * Z :=
  let z := days + 719468 in
  let era := z / 146097 in
  let doe := z - era * 146097 in
  let yoe := (doe - doe / 1460 + doe / 36524 - doe / 146096) / 365 in
  let doy := doe - (365 * yoe + yoe / 4 - yoe / 100) in
  let mp := (5 * doy + 2) / 153 in
  let d := doy - (153 * mp + 2) / 5 + 1 in
  let m := if mp <? 10 then mp + 3 else mp - 9 in
  (yoe + era * 400 + (if m <=? 2 then 1 else 0), m, d).

(** [std::tm], without the fields the engine does not read. *)
Record tm := MkTm {
  tm_sec : Z;
  tm_min : Z;
  tm_hour : Z;
  tm_mday : Z;
  tm_mon : Z;
  tm_year : Z;
  tm_wday : Z;
  tm_isdst : Z;
}.

Definition kSecondsPerDay : Z := 86400.

Definition gmtime (t : Z) : tm :=
  let days := t / kSecondsPerDay in
  let s := t mod kSecondsPerDay in
  let '(y, m, d) := civil_from_days days in
  MkTm (s mod 60) ((s / 60) mod 60) (s / 3600) d (m - 1) (y - 1900) ((days + 4) mod 7) 0.

Definition timegm (c : tm) : Z :=
  let months := (tm_year c + 1900) * 12 + tm_mon c in
  let days := days_from_civil (months / 12) (months mod 12 + 1) 1 + (tm_mday c - 1) in
  ((days * 24 + tm_hour c) * 60 + tm_min c) * 60 + tm_sec c.

(** ** Lemmas *)

Lemma yoe_range doe : 0 <= doe < 146097 -> 0 <= (doe - doe / 1460 + doe / 36524 - doe / 146096) / 365 < 400.
Proof. intros H. Z.to_euclidean_division_equations. lia. Qed.

Lemma doy_range doe : 0 <= doe < 146097 ->
  let yoe := (doe - doe / 1460 + doe / 36524 - doe / 146096) / 365 in 0 <= doe - (365 * yoe + yoe / 4 - yoe / 100) <= 365.
Proof. intros H yoe. unfold yoe. Z.to_euclidean_division_equations. lia. Qed.

(** Going to the date and back is the identity. *)
Lemma days_civil days : let '(y, m, d) := civil_from_days days in days_from_civil y m d = days /\ 1 <= m <= 12 /\ 1 <= d <= 31.
Proof.
  unfold civil_from_days. set (z := days + 719468). set (era := z / 146097). set (doe := z - era * 146097).
  assert (Hdoe : 0 <= doe < 146097) by (unfold doe, era; Z.to_euclidean_division_equations; lia).
  pose proof (yoe_range doe Hdoe) as Hyoe. pose proof (doy_range doe Hdoe) as Hdoy. cbn zeta in Hdoy.
  set (yoe := (doe - doe / 1460 + doe / 36524 - doe / 146096) / 365) in *. set (doy := doe - (365 * yoe + yoe / 4 - yoe / 100)) in *.
  set (mp := (5 * doy + 2) / 153). assert (Hmp : 0 <= mp <= 11) by (unfold mp; Z.to_euclidean_division_equations; lia).
  assert (Hd : 1 <= doy - (153 * mp + 2) / 5 + 1 <= 31) by (unfold mp; Z.to_euclidean_division_equations; lia).
  unfold days_from_civil. assert (Hera : (yoe + era * 400) / 400 = era) by (Z.to_euclidean_division_equations; lia).
  destruct (Z.ltb_spec mp 10).
  - destruct (Z.leb_spec (mp + 3) 2); [lia|]. destruct (mp + 3 >? 2) eqn:E; bool_to_prop; [|lia].
    rewrite Z.add_0_r, Hera. replace (yoe + era * 400 - era * 400) with yoe by lia. replace (mp + 3 - 3) with mp by lia. lia.
  - destruct (Z.leb_spec (mp - 9) 2); [|lia]. destruct (mp - 9 >? 2) eqn:E; bool_to_prop; [lia|].
    replace (yoe + era * 400 + 1 - 1) with (yoe + era * 400) by lia. rewrite Hera.
    replace (yoe + era * 400 - era * 400) with yoe by lia. replace (mp - 9 + 9) with mp by lia. lia.
Qed.

Lemma days_from_civil_day y m d : days_from_civil y m d = days_from_civil y m 1 + (d - 1).
Proof. unfold days_from_civil. lia. Qed.

(** Moving the fields of a broken-down time moves the instant linearly. *)
Lemma timegm_gmtime t days h m s :
  let c := gmtime t in
  timegm (MkTm s m h (tm_mday c + days) (tm_mon c) (tm_year c) (tm_wday c) (tm_isdst c)) =
  (t / kSecondsPerDay + days) * kSecondsPerDay + h * 3600 + m * 60 + s.
Proof.
  unfold gmtime, timegm. pose proof (days_civil (t / kSecondsPerDay)) as Hc.
  destruct (civil_from_days (t / kSecondsPerDay)) as [[y mo] d]. destruct Hc as (Hc & Hm & Hd). cbn.
  replace ((y - 1900 + 1900) * 12 + (mo - 1)) with (y * 12 + (mo - 1)) by lia.
  assert ((y * 12 + (mo - 1)) / 12 = y) as -> by (Z.to_euclidean_division_equations; lia).
  assert ((y * 12 + (mo - 1)) mod 12 = mo - 1) as -> by (Z.to_euclidean_division_equations; lia).
  replace (mo - 1 + 1) with mo by lia. rewrite days_from_civil_day in Hc. unfold kSecondsPerDay in *. lia.
Qed.
