(* ===== verification/Base.v ===== *)
(** * Base: [Status], [Result] and the two effect shapes of the engine

    [include/public/nimblefix/base/status.h] and [result.h].  A [Status] is an
    error code with a message, a [Result<T>] a value or a non-ok status.
    Operations of the engine mutate an object and return a [Status] or a
    [Result]; a failed call keeps the mutations made before the failure, so the
    state-and-error monad below returns the state on both exits. *)
From S2P Require Import Prelude.

Inductive ErrorCode :=
  | kOk | kInvalidArgument | kIoError | kBusy | kFormatError
  | kVersionMismatch | kNotFound | kAlreadyExists.

#[export] Instance ErrorCode_eq_dec : EqDecision ErrorCode.
Proof. solve_decision. Defined.

Record Status := MkStatus { code : ErrorCode; message : string }.

#[export] Instance Status_eq_dec : EqDecision Status.
Proof. solve_decision. Defined.

Module status.
Definition Ok : Status := MkStatus kOk "".
Definition InvalidArgument (m : string) : Status := MkStatus kInvalidArgument m.
Definition IoError (m : string) : Status := MkStatus kIoError m.
Definition Busy (m : string) : Status := MkStatus kBusy m.
Definition FormatError (m : string) : Status := MkStatus kFormatError m.
Definition VersionMismatch (m : string) : Status := MkStatus kVersionMismatch m.
Definition NotFound (m : string) : Status := MkStatus kNotFound m.
Definition AlreadyExists (m : string) : Status := MkStatus kAlreadyExists m.
Definition ok (s : Status) : bool := bool_decide (code s = kOk).
End status.

(** [base::Result<T>]: constructed from a value, or from a status that the
    constructor asserts to be non-ok. *)
Inductive Result (A : Type) :=
  | Value (a : A)
  | Error (s : Status).
Arguments Value {A}.
Arguments Error {A}.

Definition result_ok {A} (r : Result A) : bool :=
  match r with Value _ => true | Error _ => false end.

(** Outcomes no status of the code stands for: undefined behaviour, and a loop
    that has used up its fuel. *)
Definition undefined_behaviour : Status := MkStatus kOk "undefined behaviour".
Definition diverges : Status := MkStatus kOk "no further fuel".

(** A call on an object of type [S]: the object afterwards and the outcome. *)
Definition SE (S A : Type) : Type := S -> S * Result A.

Definition ret {S A} (a : A) : SE S A := fun s => (s, Value a).
Definition fail {S A} (e : Status) : SE S A := fun s => (s, Error e).
Definition bind {S A B} (m : SE S A) (k : A -> SE S B) : SE S B :=
  fun s => match m s with
           | (s', Value a) => k a s'
           | (s', Error e) => (s', Error e)
           end.
Definition get {S} : SE S S := fun s => (s, Value s).
Definition modify {S} (f : S -> S) : SE S unit := fun s => (f s, Value tt).
(** A call whose outcome the caller inspects instead of propagating it. *)
Definition catch {S A} (m : SE S A) : SE S (Result A) :=
  fun s => let '(s', r) := m s in (s', Value r).

Notation "x <- m ;; k" := (bind m (fun x => k))
  (at level 100, m at next level, right associativity) : nimble_scope.
Notation "m ;;; k" := (bind m (fun _ => k))
  (at level 100, right associativity) : nimble_scope.

Lemma bind_ret {S A B} (a : A) (k : A -> SE S B) s : bind (ret a) k s = k a s.
Proof. reflexivity. Qed.
Lemma bind_get {S B} (k : S -> SE S B) s : bind get k s = k s s.
Proof. reflexivity. Qed.
Lemma bind_bind {S A B C} (m : SE S A) (k : A -> SE S B) (h : B -> SE S C) s :
  bind (bind m k) h s = bind m (fun a => bind (k a) h) s.
Proof. unfold bind. destruct (m s) as [s' [a|e]]; reflexivity. Qed.

(** An invariant kept by a call on both exits. *)
Definition preserves {S A} (I : S -> Prop) (m : SE S A) : Prop :=
  forall s, I s -> I (fst (m s)).

Lemma preserves_ret {S A} (I : S -> Prop) (a : A) : preserves I (ret a).
Proof. intros s H; exact H. Qed.
Lemma preserves_fail {S A} (I : S -> Prop) e : preserves (A:=A) I (fail e).
Proof. intros s H; exact H. Qed.
Lemma preserves_bind {S A B} (I : S -> Prop) (m : SE S A) (k : A -> SE S B) :
  preserves I m -> (forall a, preserves I (k a)) -> preserves I (bind m k).
Proof.
  intros Hm Hk s Hs. unfold bind. specialize (Hm s Hs).
  destruct (m s) as [s' [a|e]]; cbn in *; [by apply Hk | done].
Qed.
Lemma preserves_get {S} (I : S -> Prop) : preserves I (get (S:=S)).
Proof. intros s H; exact H. Qed.
Lemma preserves_modify {S} (I : S -> Prop) f :
  (forall s, I s -> I (f s)) -> preserves I (modify f).
Proof. intros H s Hs; by apply H. Qed.
Lemma preserves_catch {S A} (I : S -> Prop) (m : SE S A) :
  preserves I m -> preserves I (catch m).
Proof. intros H s Hs. unfold catch. specialize (H s Hs). by destruct (m s). Qed.
#[export] Hint Resolve preserves_ret preserves_fail preserves_get preserves_catch : nimble.
