(* ===== verification/StdAlgo.v ===== *)
(** * The standard-library algorithms the engine calls

    [std::lower_bound] as the halving loop over a random-access range and
    [std::stable_sort] as stable insertion, with the facts their callers rely
    on.  Sizes and offsets ([std::size_t]) are [nat]: they index memory that
    exists. *)
From Stdlib Require Import Sorting.Sorted.
From S2P Require Import Prelude.

Section LowerBound.
Context {A : Type} (p : A -> bool).

(** [first] and [len] as in the loop; [p] is the comparison with the key.
    The fuel is the length of the range: every round shrinks [len]. *)
Fixpoint lower_bound_loop (fuel : nat) (l : list A) (first len : nat) : nat :=
  match fuel with
  | O => first
  | S fuel =>
      if (len =? 0)%nat then first
      else
        let half := Nat.div2 len in
        match l !! (first + half)%nat with
        | Some x => if p x then lower_bound_loop fuel l (first + half + 1) (len - half - 1)
                    else lower_bound_loop fuel l first half
        | None => first
        end
  end.

Definition lower_bound (l : list A) : nat := lower_bound_loop (length l) l 0 (length l).

(** On a range partitioned by [p] the loop returns the partition point. *)
Lemma lower_bound_loop_spec fuel : forall pre post first len,
  (len <= fuel)%nat -> Forall (fun x => p x = true) pre -> Forall (fun x => p x = false) post ->
  (first <= length pre <= first + len)%nat -> (first + len <= length (pre ++ post))%nat ->
  lower_bound_loop fuel (pre ++ post) first len = length pre.
Proof.
  induction fuel as [|fuel IH]; intros pre post first len Hf Hpre Hpost H1 H2; cbn.
  { lia. }
  destruct (len =? 0)%nat eqn:E; [apply Nat.eqb_eq in E; lia|]. apply Nat.eqb_neq in E.
  pose proof (Nat.lt_div2 len ltac:(lia)) as Hh. set (half := Nat.div2 len) in *.
  destruct ((pre ++ post) !! (first + half)%nat) as [x|] eqn:Hx.
  - rewrite lookup_app in Hx. destruct (pre !! (first + half)%nat) as [y|] eqn:Hy.
    + injection Hx as ->. rewrite (Forall_lookup_1 _ _ _ _ Hpre Hy).
      apply lookup_lt_Some in Hy. apply IH; try done; lia.
    + rewrite (Forall_lookup_1 _ _ _ _ Hpost Hx). apply lookup_ge_None in Hy. apply IH; try done; lia.
  - apply lookup_ge_None in Hx. lia.
Qed.

Lemma lower_bound_app pre post :
  Forall (fun x => p x = true) pre -> Forall (fun x => p x = false) post ->
  lower_bound (pre ++ post) = length pre.
Proof. intros. unfold lower_bound. apply lower_bound_loop_spec; try done; rewrite length_app; lia. Qed.
End LowerBound.

(** Splitting a strictly increasing list at a key. *)
Section Sorted.
Context {A : Type} (key : A -> Z).

Definition increasing (l : list A) : Prop := StronglySorted (fun a b => key a < key b) l.

Lemma increasing_nil : increasing [].
Proof. constructor. Qed.

Lemma increasing_cons x l :
  increasing (x :: l) <-> increasing l /\ Forall (fun y => key x < key y) l.
Proof. split; [inversion 1; done | intros []; by constructor]. Qed.

Lemma increasing_app l1 l2 :
  increasing (l1 ++ l2) <->
  increasing l1 /\ increasing l2 /\ Forall (fun x => Forall (fun y => key x < key y) l2) l1.
Proof.
  induction l1 as [|x l1 IH]; cbn.
  - split; [intros; repeat split; [constructor|done|constructor] | tauto].
  - rewrite !increasing_cons, IH, Forall_app, (Forall_cons _ x l1). tauto.
Qed.

Lemma increasing_split l k :
  increasing l -> exists pre post, l = pre ++ post /\
    Forall (fun x => key x < k) pre /\ Forall (fun x => k <= key x) post.
Proof.
  induction l as [|x l IH]; intros Hl.
  - exists [], []. repeat split; constructor.
  - apply increasing_cons in Hl as [Hl Hx]. destruct (decide (key x < k)) as [Hk|Hk].
    + destruct (IH Hl) as (pre & post & -> & H1 & H2). exists (x :: pre), post.
      repeat split; try done. by constructor.
    + exists [], (x :: l). repeat split; [constructor|]. constructor; [lia|].
      eapply Forall_impl; [exact Hx|]. cbn. lia.
Qed.

Lemma increasing_nodup l : increasing l -> NoDup (map key l).
Proof.
  induction l as [|x l IH]; intros Hl; cbn; [constructor|].
  apply increasing_cons in Hl as [Hl Hx]. constructor; [|auto].
  intros (y & Hy & Hin)%list_elem_of_fmap. rewrite Forall_forall in Hx. specialize (Hx y Hin). lia.
Qed.

(** [std::stable_sort] by [key]: equal keys keep their order. *)
Fixpoint stable_insert (x : A) (l : list A) : list A :=
  match l with
  | [] => [x]
  | y :: l' => if key x <=? key y then x :: l else y :: stable_insert x l'
  end.

Fixpoint stable_sort (l : list A) : list A :=
  match l with
  | [] => []
  | x :: l' => stable_insert x (stable_sort l')
  end.

Definition nondecreasing (l : list A) : Prop := StronglySorted (fun a b => key a <= key b) l.

Lemma stable_insert_perm x l : stable_insert x l ≡ₚ x :: l.
Proof. induction l as [|y l IH]; cbn; [done|]. split_if; [done|]. rewrite IH. by constructor. Qed.

Lemma stable_sort_perm l : stable_sort l ≡ₚ l.
Proof. induction l as [|x l IH]; cbn; [done|]. by rewrite stable_insert_perm, IH. Qed.

Lemma stable_insert_sorted x l : nondecreasing l -> nondecreasing (stable_insert x l).
Proof.
  induction l as [|y l IH]; intros Hl; cbn; [by repeat constructor|].
  inversion Hl as [|? ? Hl' Hy]; subst. split_if; bool_to_prop.
  - constructor; [done|]. constructor; [done|]. eapply Forall_impl; [exact Hy|]. cbn. lia.
  - constructor; [by apply IH|]. rewrite stable_insert_perm. constructor; [lia|done].
Qed.

Lemma stable_sort_sorted l : nondecreasing (stable_sort l).
Proof. induction l; cbn; [constructor|]. by apply stable_insert_sorted. Qed.

Lemma stable_insert_filter x l k :
  filter (fun y => key y = k) (stable_insert x l) =
  filter (fun y => key y = k) (x :: l).
Proof.
  induction l as [|y l IH]; cbn [stable_insert]; [done|]. split_if; bool_to_prop; [done|].
  rewrite filter_cons, IH, !filter_cons. repeat case_decide; try done; lia.
Qed.

Lemma stable_sort_filter l k :
  filter (fun y => key y = k) (stable_sort l) = filter (fun y => key y = k) l.
Proof.
  induction l as [|x l IH]; cbn [stable_sort]; [done|].
  rewrite stable_insert_filter, !filter_cons, IH. done.
Qed.
End Sorted.
Arguments increasing {A}.
Arguments nondecreasing {A}.

(** A byte range of a buffer. *)
Definition slice {A} (l : list A) (offset size : nat) : list A := take size (drop offset l).
Arguments slice : simpl never.

Lemma slice_app_l {A} (l l' : list A) o n :
  (o + n <= length l)%nat -> slice (l ++ l') o n = slice l o n.
Proof. intros H. unfold slice. rewrite drop_app_le, take_app_le; rewrite ?length_drop; (done || lia). Qed.
Lemma slice_app_r {A} (l l' : list A) :
  slice (l ++ l') (length l) (length l') = l'.
Proof. unfold slice. by rewrite drop_app_length, firstn_all. Qed.
Lemma length_slice {A} (l : list A) o n : (o + n <= length l)%nat -> length (slice l o n) = n.
Proof. intros H. unfold slice. rewrite length_take, length_drop. lia. Qed.
