(* ===== verification/IntFormat.v ===== *)
(** * Decimal formatting of integers

    [include/internal/nimblefix/codec/fast_int_format.h].  A formatter writes a
    prefix of its buffer and returns the number of characters written; the model
    returns that prefix, so its length is the returned count.  The theorems show
    that every branch of the digit-pair decomposition writes the canonical
    decimal numeral and stays within the documented buffer sizes. *)
From S2P Require Import Prelude.

(** ** Model *)

Definition BuildDigitPairTable : list (Z * Z) :=
  map (fun i => (48 + i / 10, 48 + i mod 10)) (zseq 0 100).

Definition kDigitPairs : list (Z * Z) := Eval vm_compute in BuildDigitPairTable.

Definition digit_pair (i : Z) : list Z :=
  match kDigitPairs !! Z.to_nat i with
  | Some (tens, units) => [tens; units]
  | None => []
  end.

(** [while (v > 0) { tmp[len++] = '0' + v % 10; v /= 10; }] and the copy that
    reverses [tmp]; the fuel is the size of the [tmp] array. *)
Fixpoint digits_loop (fuel : nat) (v : Z) (tmp : list Z) : list Z :=
  match fuel with
  | O => tmp
  | S fuel => if v >? 0 then digits_loop fuel (v / 10) ((48 + v mod 10) :: tmp) else tmp
  end.

Definition FormatUint32 (value : Z) : list Z :=
  if value <? 10 then [48 + value]
  else if value <? 100 then digit_pair value
  else if value <? 1000 then [48 + value / 100] ++ digit_pair (value mod 100)
  else if value <? 10000 then digit_pair (value / 100) ++ digit_pair (value mod 100)
  else if value <? 100000 then
    let q := value / 100 in
    [48 + q / 100] ++ digit_pair (q mod 100) ++ digit_pair (value mod 100)
  else if value <? 1000000 then
    let q := value / 100 in
    digit_pair (q / 100) ++ digit_pair (q mod 100) ++ digit_pair (value mod 100)
  else if value <? 10000000 then
    let q := value / 10000 in
    let r := value mod 10000 in
    [48 + q / 100] ++ digit_pair (q mod 100) ++ digit_pair (r / 100) ++ digit_pair (r mod 100)
  else digits_loop 10 value [].

Definition FormatInt64 (value : Z) : list Z :=
  if value <? 0 then
    let uval := (u64 (- (value + 1))) +u64 1 in
    45 :: (if uval <=? UINT32_MAX then FormatUint32 (u32 uval) else digits_loop 20 uval [])
  else if value <=? UINT32_MAX then FormatUint32 (u32 value)
  else digits_loop 20 (u64 value) [].

(** ** Specification *)

Definition is_digit (c : Z) : Prop := 48 <= c <= 57.

(** The number a numeral denotes. *)
Definition numeral_value (l : list Z) : Z := fold_left (fun acc c => acc * 10 + (c - 48)) l 0.

(** The canonical numeral: digits only, no leading zero except in ["0"]. *)
Definition canonical (v : Z) (l : list Z) : Prop :=
  Forall is_digit l /\ numeral_value l = v /\
  match l with [] => False | c :: rest => c <> 48 \/ rest = [] end.

(** A signed decimal reader: an optional minus sign and a numeral. *)
Definition read_signed (l : list Z) : Z :=
  match l with
  | c :: rest => if c =? 45 then - numeral_value rest else numeral_value l
  | [] => 0
  end.

(** ** Lemmas *)

Lemma numeral_value_snoc l c : numeral_value (l ++ [c]) = numeral_value l * 10 + (c - 48).
Proof. unfold numeral_value. by rewrite fold_left_app. Qed.

Lemma canonical_snoc v l d :
  canonical v l -> 0 < v -> 0 <= d < 10 -> canonical (10 * v + d) (l ++ [48 + d]).
Proof.
  intros (Hd & Hv & Hz) Hp Hr. split; [|split].
  - apply Forall_app_2; [done|]. apply Forall_singleton. unfold is_digit. lia.
  - rewrite numeral_value_snoc. lia.
  - destruct l as [|c rest]; [done|]. cbn. destruct Hz as [?| ->]; [by left|].
    left. unfold numeral_value in Hv. cbn in Hv. lia.
Qed.

Lemma canonical_digit d : 0 <= d < 10 -> canonical d [48 + d].
Proof.
  intros. split; [apply Forall_singleton; unfold is_digit; lia|]. split; [unfold numeral_value; cbn; lia|by right].
Qed.

Lemma digit_pair_eq i : 0 <= i < 100 -> digit_pair i = [48 + i / 10; 48 + i mod 10].
Proof.
  intros. unfold digit_pair.
  change kDigitPairs with BuildDigitPairTable. unfold BuildDigitPairTable, zseq.
  rewrite !list_lookup_fmap, lookup_seq_lt by lia. cbn. by rewrite Z2Nat.id by lia.
Qed.

Lemma canonical_pair_snoc v l d :
  canonical v l -> 0 < v -> 0 <= d < 100 -> canonical (100 * v + d) (l ++ digit_pair d).
Proof.
  intros Hc Hv Hd. rewrite digit_pair_eq by done.
  change [48 + d / 10; 48 + d mod 10] with ([48 + d / 10] ++ [48 + d mod 10]). rewrite app_assoc.
  replace (100 * v + d) with (10 * (10 * v + d / 10) + d mod 10) by dlia.
  apply canonical_snoc; [apply canonical_snoc; [done..|dlia]|dlia|dlia].
Qed.

Lemma canonical_pair d : 10 <= d < 100 -> canonical d (digit_pair d).
Proof.
  intros Hd. rewrite digit_pair_eq by lia. change [48 + d / 10; 48 + d mod 10] with ([48 + d / 10] ++ [48 + d mod 10]).
  replace d with (10 * (d / 10) + d mod 10) at 1 by dlia.
  apply canonical_snoc; [apply canonical_digit|..]; dlia.
Qed.

(** The loop prepends the numeral of [v] to what [tmp] already holds. *)
Lemma digits_loop_app fuel : forall v tmp, digits_loop fuel v tmp = digits_loop fuel v [] ++ tmp.
Proof.
  induction fuel as [|fuel IH]; intros v tmp; cbn; [done|].
  destruct (v >? 0); [|done]. rewrite IH, (IH _ [_]), <- app_assoc. done.
Qed.

Lemma digits_loop_canonical fuel : forall v,
  0 < v < 10 ^ Z.of_nat fuel -> canonical v (digits_loop fuel v []).
Proof.
  induction fuel as [|fuel IH]; intros v Hv; [cbn in Hv; lia|].
  rewrite Nat2Z.inj_succ, Z.pow_succ_r in Hv by lia. cbn [digits_loop].
  destruct (v >? 0) eqn:E; bool_to_prop; [|lia]. rewrite digits_loop_app.
  destruct (Z.eq_dec (v / 10) 0) as [Hz|Hz].
  - rewrite Hz. destruct fuel; cbn -[Z.pow]; (replace (v mod 10) with v by dlia); apply canonical_digit; dlia.
  - replace v with (10 * (v / 10) + v mod 10) at 1 by dlia.
    apply canonical_snoc; [apply IH; dlia|dlia|dlia].
Qed.

Lemma digits_loop_length fuel : forall v tmp, (length (digits_loop fuel v tmp) <= fuel + length tmp)%nat.
Proof.
  induction fuel as [|fuel IH]; intros v tmp; cbn; [lia|].
  destruct (_ >? _); [|lia]. etrans; [apply IH|]. cbn. lia.
Qed.

Lemma digit_pair_length i : (length (digit_pair i) <= 2)%nat.
Proof. unfold digit_pair. destruct (_ !! _) as [[??]|]; cbn; lia. Qed.

Lemma FormatUint32_canonical v : in_u32 v -> canonical v (FormatUint32 v).
Proof.
  intros Hv. unfold FormatUint32. cbv zeta.
  destruct (v <? 10) eqn:?; bool_to_prop; [apply canonical_digit; ulia|].
  destruct (v <? 100) eqn:?; bool_to_prop; [apply canonical_pair; lia|].
  destruct (v <? 1000) eqn:?; bool_to_prop.
  { replace v with (100 * (v / 100) + v mod 100) at 1 by dlia.
    apply canonical_pair_snoc; [apply canonical_digit|..]; dlia. }
  destruct (v <? 10000) eqn:?; bool_to_prop.
  { replace v with (100 * (v / 100) + v mod 100) at 1 by dlia.
    apply canonical_pair_snoc; [apply canonical_pair|..]; dlia. }
  destruct (v <? 100000) eqn:?; bool_to_prop.
  { replace v with (100 * (100 * (v / 100 / 100) + (v / 100) mod 100) + v mod 100) at 1 by dlia.
    rewrite app_assoc. apply canonical_pair_snoc; [apply canonical_pair_snoc; [apply canonical_digit|..]|..]; dlia. }
  destruct (v <? 1000000) eqn:?; bool_to_prop.
  { replace v with (100 * (100 * (v / 100 / 100) + (v / 100) mod 100) + v mod 100) at 1 by dlia.
    rewrite app_assoc. apply canonical_pair_snoc; [apply canonical_pair_snoc; [apply canonical_pair|..]|..]; dlia. }
  destruct (v <? 10000000) eqn:?; bool_to_prop.
  { set (q := v / 10000). set (r := v mod 10000).
    replace v with (100 * (100 * (100 * (q / 100) + q mod 100) + r / 100) + r mod 100) at 1 by (subst q r; dlia).
    rewrite !app_assoc.
    apply canonical_pair_snoc; [apply canonical_pair_snoc; [apply canonical_pair_snoc; [apply canonical_digit|..]|..]|..];
      subst q r; dlia. }
  apply digits_loop_canonical. ulia.
Qed.

Lemma FormatUint32_length v : (1 <= length (FormatUint32 v) <= 10)%nat \/ ~ in_u32 v.
Proof.
  destruct (decide (0 <= v <= 4294967295)) as [Hv|]; [left|by right].
  destruct (FormatUint32_canonical v Hv) as (_ & _ & Hne). split.
  - destruct (FormatUint32 v); [done|]. cbn. lia.
  - clear Hne. pose proof digit_pair_length as Hp. pose proof (digits_loop_length 10 v []) as Hl.
    unfold FormatUint32. cbv zeta.
    repeat match goal with |- context [if ?b then _ else _] => destruct b end;
      rewrite ?length_app; cbn [length] in *;
      repeat match goal with |- context [length (digit_pair ?i)] =>
        lazymatch goal with H : (length (digit_pair i) <= 2)%nat |- _ => fail | _ => pose proof (Hp i) end end; lia.
Qed.

Lemma uval_eq v : - 2 ^ 63 <= v < 0 -> (u64 (- (v + 1))) +u64 1 = - v.
Proof. intros. rewrite (u64_small (- (v + 1))), u64_small; unfold in_u64; lia. Qed.

Lemma canonical_not_minus v l : canonical v l -> read_signed l = v.
Proof.
  intros (Hd & Hv & Hne). destruct l as [|c rest]; [done|]. unfold read_signed.
  apply Forall_cons in Hd as [Hc _]. unfold is_digit in Hc.
  destruct (c =? 45) eqn:E; bool_to_prop; [lia|done].
Qed.

(** The digits written after the sign, for a magnitude of at most 64 bits. *)
Definition magnitude (m : Z) : list Z := if m <=? UINT32_MAX then FormatUint32 (u32 m) else digits_loop 20 m [].

(** Once [v] is exhausted further fuel changes nothing. *)
Lemma digits_loop_enough k : forall j v tmp,
  0 <= v < 10 ^ Z.of_nat k -> digits_loop (k + j) v tmp = digits_loop k v tmp.
Proof.
  induction k as [|k IH]; intros j v tmp Hv.
  - cbn in Hv. assert (v = 0) as -> by lia. by destruct j.
  - rewrite Nat2Z.inj_succ, Z.pow_succ_r in Hv by lia. cbn. destruct (_ >? _); [|done].
    apply IH. dlia.
Qed.

Lemma magnitude_spec m : 0 <= m <= 2 ^ 63 ->
  canonical m (magnitude m) /\ (1 <= length (magnitude m) <= 19)%nat.
Proof.
  intros Hm. assert (Hc : canonical m (magnitude m) /\ (length (magnitude m) <= 19)%nat).
  { unfold magnitude. destruct (m <=? UINT32_MAX) eqn:E; bool_to_prop.
    - rewrite u32_small by ulia. split; [apply FormatUint32_canonical; ulia|].
      destruct (FormatUint32_length m) as [?|Hn]; [lia|]. destruct Hn. ulia.
    - split; [apply digits_loop_canonical; ulia|].
      change 20%nat with (19 + 1)%nat. rewrite digits_loop_enough by ulia.
      pose proof (digits_loop_length 19 m []). cbn [length] in *. lia. }
  destruct Hc as [Hc Hl]. split; [done|]. split; [|done].
  destruct Hc as (_ & _ & Hne). destruct (magnitude m); [done|]. cbn. lia.
Qed.

Lemma FormatInt64_magnitude v : - 2 ^ 63 <= v < 2 ^ 63 ->
  FormatInt64 v = if v <? 0 then 45 :: magnitude (- v) else magnitude v.
Proof.
  intros Hv. unfold FormatInt64, magnitude. destruct (v <? 0) eqn:E; bool_to_prop.
  - by rewrite uval_eq by lia.
  - by rewrite (u64_small v) by ulia.
Qed.

(** The two formatters agree where both apply. *)
Lemma format_int_uint n : 0 <= n <= UINT32_MAX -> FormatInt64 n = FormatUint32 (u32 n).
Proof.
  intros Hn. unfold UINT32_MAX in *. rewrite FormatInt64_magnitude by lia. destruct (Z.ltb_spec n 0); [lia|]. unfold magnitude, UINT32_MAX. destruct (Z.leb_spec n 4294967295); [done|lia].
Qed.

(** ** Properties *)

(** every branch of [FormatUint32] (one to seven digits by digit pairs,
    eight and more by the sequential loop) writes the canonical decimal numeral
    of its argument: digits only, no leading zero, between one and the
    documented ten characters. *)
Theorem format_uint32_correct v :
  in_u32 v -> canonical v (FormatUint32 v) /\ (1 <= length (FormatUint32 v) <= 10)%nat.
Proof.
  intros Hv. split; [by apply FormatUint32_canonical|].
  by destruct (FormatUint32_length v) as [?|[]].
Qed.

Lemma format_uint32_correct_witness :
  in_u32 4294967295 /\ FormatUint32 1234567 = [49; 50; 51; 52; 53; 54; 55] /\
  canonical 4294967295 (FormatUint32 4294967295).
Proof.
  split; [unfold in_u32; lia|]. split; [vm_compute; reflexivity|].
  exact (proj1 (format_uint32_correct 4294967295 ltac:(unfold in_u32; lia))).
Defined.

(** [FormatInt64] is the inverse of reading a signed decimal, for every
    64-bit value including the most negative one; its output fits the documented
    twenty characters, and it is a canonical numeral behind an optional minus
    sign. *)
Theorem format_int64_roundtrip v :
  - 2 ^ 63 <= v < 2 ^ 63 ->
  read_signed (FormatInt64 v) = v /\ (1 <= length (FormatInt64 v) <= 20)%nat /\
  (if v <? 0 then exists l, FormatInt64 v = 45 :: l /\ canonical (- v) l else canonical v (FormatInt64 v)).
Proof.
  intros Hv. rewrite FormatInt64_magnitude by done. destruct (v <? 0) eqn:E; bool_to_prop.
  - destruct (magnitude_spec (- v)) as [Hc Hl]; [lia|]. split; [|split; [cbn; lia|eauto]].
    cbn. destruct Hc as (_ & -> & _). lia.
  - destruct (magnitude_spec v) as [Hc Hl]; [lia|]. split; [by apply canonical_not_minus|]. split; [lia|done].
Qed.

Lemma format_int64_roundtrip_witness :
  read_signed (FormatInt64 (-9223372036854775808)) = -9223372036854775808 /\
  length (FormatInt64 (-9223372036854775808)) = 20%nat.
Proof.
  split; [|vm_compute; reflexivity].
  exact (proj1 (format_int64_roundtrip (-9223372036854775808) ltac:(lia))).
Defined.
