(* ===== verification/Scan.v ===== *)
(** * Byte scanning and the checksum sum

    [include/internal/nimblefix/codec/simd_scan.h].  A buffer is the list of its
    bytes ([0 <= b < 256]) and a returned pointer is the offset from the start of
    the buffer, so "not found" is the length.  The SSE2 intrinsics are modelled
    lane by lane; [has_sse2] is the compile-time switch [NIMBLEFIX_HAS_SSE2]. *)
From S2P Require Import Prelude.

(** ** SSE2 intrinsics on sixteen byte lanes *)

(** [_mm_loadu_si128] of the sixteen bytes at offset [i]. *)
Definition mm_loadu (data : list Z) (i : nat) : list Z := take 16 (drop i data).
(** [_mm_cmpeq_epi8] against a [_mm_set1_epi8] vector: 0xFF in equal lanes. *)
Definition mm_cmpeq (chunk : list Z) (needle : Z) : list Z := map (fun b => if b =? needle then 255 else 0) chunk.
Definition mm_or (a b : list Z) : list Z := zip_with Z.lor a b.
(** [_mm_movemask_epi8]: bit [k] of the result is the top bit of lane [k]. *)
Fixpoint mm_movemask (lanes : list Z) : Z :=
  match lanes with
  | [] => 0
  | b :: rest => (if Z.testbit b 7 then 1 else 0) + 2 * mm_movemask rest
  end.
(** [__builtin_ctz] of a nonzero 32-bit value. *)
Fixpoint ctz (fuel : nat) (mask : Z) : nat :=
  match fuel with
  | O => 0
  | S fuel => if Z.odd mask then 0 else S (ctz fuel (mask / 2))
  end.
(** [_mm_sad_epu8] against zero: the sum of each half, in 16-bit words 0 and 4. *)
Definition mm_sad (chunk : list Z) : Z * Z :=
  (u16 (foldr Z.add 0 (take 8 chunk)), u16 (foldr Z.add 0 (drop 8 chunk))).

(** ** The scanners *)

(** [for (i = 0; i < len; ++i) if (test(data[i])) return data + i;
    return data + len;], the loop of every scalar path. *)
Fixpoint scalar_loop (test : Z -> bool) (data : list Z) : nat :=
  match data with
  | [] => 0
  | b :: rest => if test b then 0 else S (scalar_loop test rest)
  end.

Definition FindByteShortScalar (data : list Z) (needle : Z) : nat := scalar_loop (fun b => b =? needle) data.

(** [memchr] with its null result replaced by the end of the buffer. *)
Definition memchr (data : list Z) (needle : Z) : option nat :=
  fst <$> list_find (fun b => b = needle) data.
Definition FindByteScalar (data : list Z) (needle : Z) : nat :=
  match memchr data needle with Some p => p | None => length data end.

(** [for (; i + 16 <= len; i += 16)] with the vector comparison [mask_of];
    inl: the position returned from the loop, inr: the offset it ends with. *)
Fixpoint sse_loop (fuel : nat) (mask_of : list Z -> Z) (data : list Z) (i : nat) : nat + nat :=
  match fuel with
  | O => inr i
  | S fuel =>
      if (i + 16 <=? length data)%nat then
        let mask := mask_of (mm_loadu data i) in
        if negb (mask =? 0) then inl (i + ctz 16 mask)%nat else sse_loop fuel mask_of data (i + 16)
      else inr i
  end.

Definition FindByteSse2 (data : list Z) (needle : Z) : nat :=
  match sse_loop (length data) (fun chunk => mm_movemask (mm_cmpeq chunk needle)) data 0 with
  | inl p => p
  | inr i => (i + FindByteShortScalar (drop i data) needle)%nat
  end.

Definition FindByte (has_sse2 : bool) (data : list Z) (needle : Z) : nat :=
  if has_sse2 then
    if (length data <? 16)%nat then FindByteShortScalar data needle else FindByteSse2 data needle
  else FindByteScalar data needle.

Definition FindEitherByte (has_sse2 : bool) (data : list Z) (a b : Z) : nat :=
  let test c := (c =? a) || (c =? b) in
  if has_sse2 then
    match sse_loop (length data) (fun chunk => mm_movemask (mm_or (mm_cmpeq chunk a) (mm_cmpeq chunk b))) data 0 with
    | inl p => p
    | inr i => (i + scalar_loop test (drop i data))%nat
    end
  else scalar_loop test data.

(** The vector part of the checksum: the running sum and the offset reached. *)
Fixpoint sum_sse (fuel : nat) (data : list Z) (i : nat) (sum : Z) : Z * nat :=
  match fuel with
  | O => (sum, i)
  | S fuel =>
      if (i + 16 <=? length data)%nat then
        let '(lo, hi) := mm_sad (mm_loadu data i) in
        sum_sse fuel data (i + 16) (sum +u32 (lo +u32 hi))
      else (sum, i)
  end.

Definition sum_scalar (data : list Z) (sum : Z) : Z := fold_left (fun s b => s +u32 b) data sum.

Definition ComputeChecksumSIMD (has_sse2 : bool) (data : list Z) : Z :=
  if has_sse2 then
    let '(sum, i) := sum_sse (length data) data 0 0 in sum_scalar (drop i data) sum
  else sum_scalar data 0.

(** ** Specification *)

(** [p] is the first position whose byte passes the test, or the length. *)
Definition first_match (test : Z -> bool) (data : list Z) (p : nat) : Prop :=
  (p <= length data)%nat /\
  (forall k b, (k < p)%nat -> data !! k = Some b -> test b = false) /\
  (forall b, data !! p = Some b -> test b = true).

Definition is_byte (b : Z) : Prop := 0 <= b <= 255.

(** ** Lemmas *)

Lemma scalar_loop_first test data : first_match test data (scalar_loop test data).
Proof.
  induction data as [|b rest (Hl & Hb & Ha)]; cbn.
  - repeat split; cbn; try lia; done.
  - destruct (test b) eqn:E.
    + repeat split; cbn; [lia|lia|]. intros ? [= <-]. done.
    + repeat split; cbn; [lia| |done]. intros [|k] c Hk Hc; cbn in *; [congruence|].
      apply (Hb k); [lia|done].
Qed.

Lemma first_match_unique test data p q : first_match test data p -> first_match test data q -> p = q.
Proof.
  assert (Hlt : forall p q, first_match test data p -> first_match test data q -> ~ (p < q)%nat).
  { intros p' q' (_ & _ & Hp) (Hq & Hb & _) Hlt.
    destruct (lookup_lt_is_Some_2 data p') as [b Hpb]; [lia|].
    specialize (Hp b Hpb). rewrite (Hb p' b) in Hp by done. done. }
  intros Hp Hq. pose proof (Hlt p q Hp Hq). pose proof (Hlt q p Hq Hp). lia.
Qed.

Lemma scalar_loop_app_false test l r :
  forallb (fun b => negb (test b)) l = true ->
  scalar_loop test (l ++ r) = (length l + scalar_loop test r)%nat.
Proof.
  induction l as [|b l IH]; cbn; [done|]. intros [Hb Hl]%andb_true_iff.
  apply negb_true_iff in Hb as ->. by rewrite IH.
Qed.

Lemma scalar_loop_app_true test l r :
  forallb (fun b => negb (test b)) l = false -> scalar_loop test (l ++ r) = scalar_loop test l.
Proof.
  induction l as [|b l IH]; cbn; [done|]. destruct (test b); cbn; [done|]. intros Hl. by rewrite IH.
Qed.

Lemma FindByteScalar_loop data needle : FindByteScalar data needle = FindByteShortScalar data needle.
Proof.
  unfold FindByteScalar, memchr, FindByteShortScalar.
  induction data as [|b rest IH]; [done|]. cbn. unfold decide.
  destruct (decide_rel _ _ _) as [->|Hb]; [by rewrite Z.eqb_refl|].
  apply Z.eqb_neq in Hb as ->. rewrite <- IH. by destruct (list_find _ rest) as [[]|].
Qed.

(** A mask describes a test lane by lane. *)
Definition lanes_of (test : Z -> bool) (chunk : list Z) : list Z := map (fun b => if test b then 255 else 0) chunk.

Lemma movemask_nonneg l : 0 <= mm_movemask l.
Proof. induction l as [|b l IH]; cbn -[Z.mul Z.testbit Z.add]; [lia|]. destruct (Z.testbit b 7); lia. Qed.

Lemma movemask_zero test chunk :
  (mm_movemask (lanes_of test chunk) =? 0) = forallb (fun b => negb (test b)) chunk.
Proof.
  induction chunk as [|b chunk IH]; [done|]. cbn -[Z.mul].
  fold (lanes_of test chunk). pose proof (movemask_nonneg (lanes_of test chunk)).
  destruct (test b); cbn -[Z.mul]; [apply Z.eqb_neq; lia|]. rewrite <- IH.
  destruct (Z.eqb_spec (mm_movemask (lanes_of test chunk)) 0) as [->|]; [done|].
  apply Z.eqb_neq. lia.
Qed.

Lemma ctz_movemask test chunk : forall fuel, (length chunk <= fuel)%nat ->
  mm_movemask (lanes_of test chunk) <> 0 ->
  ctz fuel (mm_movemask (lanes_of test chunk)) = scalar_loop test chunk.
Proof.
  induction chunk as [|b chunk IH]; intros fuel Hf Hm; [done|].
  destruct fuel as [|fuel]; cbn in Hf; [lia|]. cbn -[Z.mul Z.div] in *.
  destruct (test b); cbn -[Z.mul Z.div] in *.
  - rewrite Z.odd_add_mul_2. done.
  - rewrite Z.odd_add_mul_2. cbn -[Z.mul Z.div]. f_equal.
    fold (lanes_of test chunk) in *. set (m := mm_movemask (lanes_of test chunk)) in *.
    replace ((0 + 2 * m) / 2) with m by dlia. apply IH; lia.
Qed.

Lemma mm_cmpeq_lanes chunk n : mm_cmpeq chunk n = lanes_of (fun b => b =? n) chunk.
Proof. done. Qed.

Lemma mm_or_lanes chunk a b :
  mm_or (mm_cmpeq chunk a) (mm_cmpeq chunk b) = lanes_of (fun c => (c =? a) || (c =? b)) chunk.
Proof.
  induction chunk as [|c chunk IH]; [done|]. unfold mm_or, mm_cmpeq, lanes_of in *. cbn. rewrite IH.
  by destruct (c =? a), (c =? b).
Qed.

Lemma drop_chunk (data : list Z) i :
  drop i data = mm_loadu data i ++ drop (i + 16) data.
Proof. unfold mm_loadu. rewrite <- drop_drop. by rewrite take_drop. Qed.

Lemma length_mm_loadu data i : (i + 16 <= length data)%nat -> length (mm_loadu data i) = 16%nat.
Proof. intros. unfold mm_loadu. rewrite length_take, length_drop. lia. Qed.

(** The vector loop followed by the scalar tail is one scalar scan. *)
Lemma sse_loop_scan test mask_of data :
  (forall chunk, mask_of chunk = mm_movemask (lanes_of test chunk)) ->
  forall fuel i, (length data <= i + fuel)%nat ->
  match sse_loop fuel mask_of data i with
  | inl p => p
  | inr j => (j + scalar_loop test (drop j data))%nat
  end = (i + scalar_loop test (drop i data))%nat.
Proof.
  intros Hmask. induction fuel as [|fuel IH]; intros i Hf; cbn [sse_loop]; [done|].
  destruct (i + 16 <=? length data)%nat eqn:E; [|done]. apply Nat.leb_le in E.
  pose proof (length_mm_loadu data i E) as Hlen.
  rewrite Hmask, movemask_zero, (drop_chunk data i).
  destruct (forallb _ (mm_loadu data i)) eqn:Ef; cbn [negb].
  - rewrite IH by lia. rewrite scalar_loop_app_false, Hlen by done. lia.
  - rewrite scalar_loop_app_true by done. rewrite ctz_movemask; [done|lia|].
    intros H. apply Z.eqb_eq in H. rewrite movemask_zero in H. congruence.
Qed.

Lemma sum_scalar_eq data s : u32 (sum_scalar data s) = u32 (s + foldr Z.add 0 data).
Proof.
  revert s. induction data as [|b data IH]; intros s; unfold sum_scalar in *; cbn; [by rewrite Z.add_0_r|].
  rewrite IH. unfold u32. rewrite Zplus_mod_idemp_l. f_equal. lia.
Qed.

Lemma sum_scalar_range data s : in_u32 s -> in_u32 (sum_scalar data s).
Proof. revert s. induction data; intros s Hs; unfold sum_scalar in *; cbn; auto with nimble. Qed.

Lemma sum_bytes_bound l : Forall is_byte l -> 0 <= foldr Z.add 0 l <= 255 * Z.of_nat (length l).
Proof. induction 1 as [|b l Hb Hl IH]; cbn [foldr length]; unfold is_byte in *; lia. Qed.

Lemma foldr_add_app l r : foldr Z.add 0 (l ++ r) = foldr Z.add 0 l + foldr Z.add 0 r.
Proof. induction l as [|b l IH]; cbn; [done|]. rewrite IH. lia. Qed.

Lemma mm_sad_sum chunk : Forall is_byte chunk -> length chunk = 16%nat ->
  fst (mm_sad chunk) + snd (mm_sad chunk) = foldr Z.add 0 chunk /\
  in_u32 (fst (mm_sad chunk) + snd (mm_sad chunk)).
Proof.
  intros Hb Hl.
  assert (Ht : Forall is_byte (take 8 chunk)) by (by apply Forall_take).
  assert (Hd : Forall is_byte (drop 8 chunk)) by (by apply Forall_drop).
  apply sum_bytes_bound in Ht, Hd. rewrite length_take in Ht. rewrite length_drop in Hd.
  unfold mm_sad. cbn [fst snd]. rewrite !u16_small by ulia.
  split; [by rewrite <- foldr_add_app, take_drop|]. ulia.
Qed.

Lemma sum_sse_spec data : Forall is_byte data ->
  forall fuel i sum, in_u32 sum -> (i <= length data)%nat ->
  let '(s', j) := sum_sse fuel data i sum in
  in_u32 s' /\ u32 (s' + foldr Z.add 0 (drop j data)) = u32 (sum + foldr Z.add 0 (drop i data)).
Proof.
  intros Hb. induction fuel as [|fuel IH]; intros i sum Hs Hi; cbn [sum_sse]; [done|].
  destruct (i + 16 <=? length data)%nat eqn:E; [|done]. apply Nat.leb_le in E.
  assert (Hc : Forall is_byte (mm_loadu data i)) by (apply Forall_take, Forall_drop, Hb).
  destruct (mm_sad_sum _ Hc (length_mm_loadu data i E)) as [Hsum Hr].
  destruct (mm_sad (mm_loadu data i)) as [lo hi]. cbn [fst snd] in *.
  rewrite (u32_small (lo + hi)) by done.
  specialize (IH (i + 16)%nat (sum +u32 (lo + hi)) ltac:(auto with nimble) E).
  destruct (sum_sse fuel data (i + 16) _) as [s' j]. destruct IH as [Hr' IH].
  split; [done|]. rewrite IH, (drop_chunk data i), foldr_add_app, Hsum. unfold u32.
  rewrite Zplus_mod_idemp_l. f_equal. lia.
Qed.

Lemma ComputeChecksumSIMD_sum has_sse2 data :
  Forall is_byte data -> ComputeChecksumSIMD has_sse2 data = u32 (foldr Z.add 0 data).
Proof.
  intros Hb. assert (Hz : in_u32 0) by ulia. unfold ComputeChecksumSIMD. destruct has_sse2.
  - pose proof (sum_sse_spec data Hb (length data) 0 0 Hz ltac:(lia)) as Hs.
    destruct (sum_sse _ data 0 0) as [s j]. destruct Hs as [Hr Hs]. rewrite drop_0, Z.add_0_l in Hs.
    rewrite <- Hs, <- sum_scalar_eq. symmetry. apply u32_small, sum_scalar_range, Hr.
  - rewrite <- (Z.add_0_l (foldr Z.add 0 data)), <- sum_scalar_eq.
    symmetry. apply u32_small, sum_scalar_range, Hz.
Qed.

(** ** Properties *)

(** with and without SSE2, at every length, [FindByte] and
    [FindEitherByte] return the first position that holds one of the bytes
    searched for, or the length when there is none. *)
Theorem find_byte_correct has_sse2 data a b :
  first_match (fun c => c =? a) data (FindByte has_sse2 data a) /\
  first_match (fun c => (c =? a) || (c =? b)) data (FindEitherByte has_sse2 data a b).
Proof.
  pose proof (sse_loop_scan (fun c => c =? a) (fun c => mm_movemask (mm_cmpeq c a)) data
                (fun _ => eq_refl) (length data) 0 ltac:(lia)) as H1.
  pose proof (sse_loop_scan (fun c => (c =? a) || (c =? b)) _ data
                (fun c => f_equal mm_movemask (mm_or_lanes c a b)) (length data) 0 ltac:(lia)) as H2.
  cbn [Nat.add] in H1, H2. rewrite drop_0 in H1, H2.
  unfold FindByte, FindEitherByte, FindByteSse2. unfold FindByteShortScalar at 2. rewrite H1. cbv zeta. rewrite H2.
  rewrite FindByteScalar_loop. unfold FindByteShortScalar.
  destruct has_sse2; [destruct (_ <? _)%nat|]; split; apply scalar_loop_first.
Qed.

(** the vectorised byte sum equals the scalar one on every buffer, and
    both are the sum of the bytes modulo 2^32, so its low eight bits are the FIX
    checksum. *)
Theorem checksum_simd_correct has_sse2 data :
  Forall is_byte data ->
  ComputeChecksumSIMD has_sse2 data = u32 (foldr Z.add 0 data) /\
  ComputeChecksumSIMD has_sse2 data mod 256 = foldr Z.add 0 data mod 256.
Proof.
  intros Hb. rewrite ComputeChecksumSIMD_sum by done. split; [done|]. unfold u32. dlia.
Qed.

Definition demo_bytes : list Z := map (fun i => (i * 37 + 11) mod 256) (zseq 0 37).

Lemma checksum_simd_correct_witness :
  Forall is_byte demo_bytes /\
  ComputeChecksumSIMD true demo_bytes = u32 (foldr Z.add 0 demo_bytes) /\
  ComputeChecksumSIMD true demo_bytes = 4569.
Proof.
  assert (Hb : Forall is_byte demo_bytes).
  { apply Forall_forall. intros b Hb. apply list_elem_of_fmap in Hb as (i & -> & _). unfold is_byte. dlia. }
  split; [exact Hb|]. split; [exact (proj1 (checksum_simd_correct true demo_bytes Hb))|].
  vm_compute. reflexivity.
Defined.
