(* ===== verification/TransportProfile.v ===== *)
(** * Transport profiles

    [include/public/nimblefix/session/transport_profile.h] and
    [src/session/transport_profile.cpp]: the behaviour flags of a FIX transport
    version, and their lookup by the wire [BeginString(8)]. *)
From S2P Require Import Prelude Base.

Inductive TransportVersion := kFix40 | kFix41 | kFix42 | kFix43 | kFix44 | kFixT11.

#[export] Instance TransportVersion_eq_dec : EqDecision TransportVersion.
Proof. solve_decision. Defined.

Record TransportSessionProfile := MkProfile {
  version : TransportVersion;
  tp_begin_string : string;
  requires_default_appl_ver_id : bool;
  supports_reset_on_logon : bool;
  default_heartbeat_interval_seconds : Z;
  supports_next_expected_msg_seq_num : bool;
  supports_msg_seq_num_reset : bool;
  transport_and_app_version_decoupled : bool;
}.

#[export] Instance TransportSessionProfile_eq_dec : EqDecision TransportSessionProfile.
Proof. solve_decision. Defined.

Definition Fix40 : TransportSessionProfile := {|
  version := kFix40;
  tp_begin_string := "FIX.4.0";
  requires_default_appl_ver_id := false;
  supports_reset_on_logon := false;
  default_heartbeat_interval_seconds := 30;
  supports_next_expected_msg_seq_num := false;
  supports_msg_seq_num_reset := true;
  transport_and_app_version_decoupled := false;
|}.

Definition Fix41 : TransportSessionProfile := {|
  version := kFix41;
  tp_begin_string := "FIX.4.1";
  requires_default_appl_ver_id := false;
  supports_reset_on_logon := true;
  default_heartbeat_interval_seconds := 30;
  supports_next_expected_msg_seq_num := false;
  supports_msg_seq_num_reset := true;
  transport_and_app_version_decoupled := false;
|}.

Definition Fix42 : TransportSessionProfile := {|
  version := kFix42;
  tp_begin_string := "FIX.4.2";
  requires_default_appl_ver_id := false;
  supports_reset_on_logon := true;
  default_heartbeat_interval_seconds := 30;
  supports_next_expected_msg_seq_num := false;
  supports_msg_seq_num_reset := true;
  transport_and_app_version_decoupled := false;
|}.

Definition Fix43 : TransportSessionProfile := {|
  version := kFix43;
  tp_begin_string := "FIX.4.3";
  requires_default_appl_ver_id := false;
  supports_reset_on_logon := true;
  default_heartbeat_interval_seconds := 30;
  supports_next_expected_msg_seq_num := false;
  supports_msg_seq_num_reset := true;
  transport_and_app_version_decoupled := false;
|}.

Definition Fix44 : TransportSessionProfile := {|
  version := kFix44;
  tp_begin_string := "FIX.4.4";
  requires_default_appl_ver_id := false;
  supports_reset_on_logon := true;
  default_heartbeat_interval_seconds := 30;
  supports_next_expected_msg_seq_num := true;
  supports_msg_seq_num_reset := true;
  transport_and_app_version_decoupled := false;
|}.

Definition FixT11 : TransportSessionProfile := {|
  version := kFixT11;
  tp_begin_string := "FIXT.1.1";
  requires_default_appl_ver_id := true;
  supports_reset_on_logon := true;
  default_heartbeat_interval_seconds := 30;
  supports_next_expected_msg_seq_num := true;
  supports_msg_seq_num_reset := true;
  transport_and_app_version_decoupled := true;
|}.

Definition with_begin_string (p : TransportSessionProfile) (s : string) : TransportSessionProfile := {|
  version := version p;
  tp_begin_string := s;
  requires_default_appl_ver_id := requires_default_appl_ver_id p;
  supports_reset_on_logon := supports_reset_on_logon p;
  default_heartbeat_interval_seconds := default_heartbeat_interval_seconds p;
  supports_next_expected_msg_seq_num := supports_next_expected_msg_seq_num p;
  supports_msg_seq_num_reset := supports_msg_seq_num_reset p;
  transport_and_app_version_decoupled := transport_and_app_version_decoupled p;
|}.

Definition FromBeginString (begin_string : string) : TransportSessionProfile :=
  if decide (begin_string = "FIX.4.0"%string) then Fix40
  else if decide (begin_string = "FIX.4.1"%string) then Fix41
  else if decide (begin_string = "FIX.4.2"%string) then Fix42
  else if decide (begin_string = "FIX.4.3"%string) then Fix43
  else if decide (begin_string = "FIX.4.4"%string) then Fix44
  else if decide (begin_string = "FIXT.1.1"%string) then FixT11
  else with_begin_string Fix44 begin_string.

Definition known_begin_strings : list string :=
  ["FIX.4.0"; "FIX.4.1"; "FIX.4.2"; "FIX.4.3"; "FIX.4.4"; "FIXT.1.1"]%string.

(** The transport profile found for a wire [BeginString] always carries that
    very string back onto the wire; it requires [DefaultApplVerID] exactly when
    transport and application versions are decoupled, which is exactly the
    FIXT.1.1 string; an unknown string gets FIX.4.4 behaviour. *)
Theorem from_begin_string_spec (s : string) :
  let p := FromBeginString s in
  tp_begin_string p = s /\
  (requires_default_appl_ver_id p = true <-> s = "FIXT.1.1"%string) /\
  transport_and_app_version_decoupled p = requires_default_appl_ver_id p /\
  (supports_next_expected_msg_seq_num p = false <->
     s ∈ ["FIX.4.0"; "FIX.4.1"; "FIX.4.2"; "FIX.4.3"]%string) /\
  (s ∉ known_begin_strings -> p = with_begin_string Fix44 s).
Proof.
  unfold FromBeginString, known_begin_strings.
  repeat case_decide; subst; cbn; repeat split; intros; try done; try set_solver.
Qed.
