(* ===== verification/SessionCore.v ===== *)
(** * The session state machine

    [include/public/nimblefix/session/session_core.h],
    [session_snapshot.h] and [src/session/session_core.cpp].  One
    [SessionCore] object is a record; every public operation is a function that
    returns the object afterwards with the [Status] (or [Result]) of the call.
    The second half of the file is the sequence of calls as a transition
    system ([Op], [exec], [reachable]) with its invariants. *)
From S2P Require Import Prelude Base TransportProfile.

Inductive SessionState :=
  | kDisconnected | kConnecting | kConnected | kPendingLogon | kRecovering
  | kActive | kResendProcessing | kAwaitingLogout | kClosed.

#[export] Instance SessionState_eq_dec : EqDecision SessionState.
Proof. solve_decision. Defined.

Definition SessionState_eqb (a b : SessionState) : bool :=
  match a, b with
  | kDisconnected, kDisconnected | kConnecting, kConnecting | kConnected, kConnected
  | kPendingLogon, kPendingLogon | kRecovering, kRecovering | kActive, kActive
  | kResendProcessing, kResendProcessing | kAwaitingLogout, kAwaitingLogout
  | kClosed, kClosed => true
  | _, _ => false
  end.

Record ResendRange := MkRange { begin_seq : Z; end_seq : Z }.

#[export] Instance ResendRange_eq_dec : EqDecision ResendRange.
Proof. solve_decision. Defined.

Inductive DayCutMode := kNoAutoReset | kFixedLocalTime | kFixedUtcTime | kExternalControl.

#[export] Instance DayCutMode_eq_dec : EqDecision DayCutMode.
Proof. solve_decision. Defined.

Record DayCutConfig := MkDayCut {
  mode : DayCutMode;
  reset_hour : Z;
  reset_minute : Z;
  utc_offset_seconds : Z;
}.

Record SessionKey := MkKey {
  begin_string : string;
  sender_comp_id : string;
  target_comp_id : string;
  sender_location_id : option string;
  target_location_id : option string;
  session_qualifier : option string;
}.

Record SessionConfig := MkSessionConfig {
  session_id : Z;
  key : SessionKey;
  profile_id : Z;
  default_appl_ver_id : string;
  heartbeat_interval_seconds : Z;
  is_initiator : bool;
}.

Record SessionCore := MkCore {
  config : SessionConfig;
  state : SessionState;
  resume_state : SessionState;
  next_in_seq : Z;
  next_out_seq : Z;
  last_inbound_ns : Z;
  last_outbound_ns : Z;
  pending_resend : option ResendRange;
  resend_completed : bool;
  warmup_remaining : Z;
  warmup_total : Z;
  day_cut_config : DayCutConfig;
  last_day_cut_date : Z;
  transport_profile : option TransportSessionProfile;
}.

(** Assignments to one data member. *)
Definition set_state (s : SessionCore) (v : SessionState) : SessionCore :=
  MkCore (config s) v (resume_state s) (next_in_seq s) (next_out_seq s) (last_inbound_ns s) (last_outbound_ns s) (pending_resend s) (resend_completed s) (warmup_remaining s) (warmup_total s) (day_cut_config s) (last_day_cut_date s) (transport_profile s).
Definition set_resume_state (s : SessionCore) (v : SessionState) : SessionCore :=
  MkCore (config s) (state s) v (next_in_seq s) (next_out_seq s) (last_inbound_ns s) (last_outbound_ns s) (pending_resend s) (resend_completed s) (warmup_remaining s) (warmup_total s) (day_cut_config s) (last_day_cut_date s) (transport_profile s).
Definition set_next_in_seq (s : SessionCore) (v : Z) : SessionCore :=
  MkCore (config s) (state s) (resume_state s) v (next_out_seq s) (last_inbound_ns s) (last_outbound_ns s) (pending_resend s) (resend_completed s) (warmup_remaining s) (warmup_total s) (day_cut_config s) (last_day_cut_date s) (transport_profile s).
Definition set_next_out_seq (s : SessionCore) (v : Z) : SessionCore :=
  MkCore (config s) (state s) (resume_state s) (next_in_seq s) v (last_inbound_ns s) (last_outbound_ns s) (pending_resend s) (resend_completed s) (warmup_remaining s) (warmup_total s) (day_cut_config s) (last_day_cut_date s) (transport_profile s).
Definition set_last_inbound_ns (s : SessionCore) (v : Z) : SessionCore :=
  MkCore (config s) (state s) (resume_state s) (next_in_seq s) (next_out_seq s) v (last_outbound_ns s) (pending_resend s) (resend_completed s) (warmup_remaining s) (warmup_total s) (day_cut_config s) (last_day_cut_date s) (transport_profile s).
Definition set_last_outbound_ns (s : SessionCore) (v : Z) : SessionCore :=
  MkCore (config s) (state s) (resume_state s) (next_in_seq s) (next_out_seq s) (last_inbound_ns s) v (pending_resend s) (resend_completed s) (warmup_remaining s) (warmup_total s) (day_cut_config s) (last_day_cut_date s) (transport_profile s).
Definition set_pending_resend (s : SessionCore) (v : option ResendRange) : SessionCore :=
  MkCore (config s) (state s) (resume_state s) (next_in_seq s) (next_out_seq s) (last_inbound_ns s) (last_outbound_ns s) v (resend_completed s) (warmup_remaining s) (warmup_total s) (day_cut_config s) (last_day_cut_date s) (transport_profile s).
Definition set_resend_completed (s : SessionCore) (v : bool) : SessionCore :=
  MkCore (config s) (state s) (resume_state s) (next_in_seq s) (next_out_seq s) (last_inbound_ns s) (last_outbound_ns s) (pending_resend s) v (warmup_remaining s) (warmup_total s) (day_cut_config s) (last_day_cut_date s) (transport_profile s).
Definition set_warmup_remaining (s : SessionCore) (v : Z) : SessionCore :=
  MkCore (config s) (state s) (resume_state s) (next_in_seq s) (next_out_seq s) (last_inbound_ns s) (last_outbound_ns s) (pending_resend s) (resend_completed s) v (warmup_total s) (day_cut_config s) (last_day_cut_date s) (transport_profile s).
Definition set_warmup_total (s : SessionCore) (v : Z) : SessionCore :=
  MkCore (config s) (state s) (resume_state s) (next_in_seq s) (next_out_seq s) (last_inbound_ns s) (last_outbound_ns s) (pending_resend s) (resend_completed s) (warmup_remaining s) v (day_cut_config s) (last_day_cut_date s) (transport_profile s).
Definition set_day_cut_config (s : SessionCore) (v : DayCutConfig) : SessionCore :=
  MkCore (config s) (state s) (resume_state s) (next_in_seq s) (next_out_seq s) (last_inbound_ns s) (last_outbound_ns s) (pending_resend s) (resend_completed s) (warmup_remaining s) (warmup_total s) v (last_day_cut_date s) (transport_profile s).
Definition set_last_day_cut_date (s : SessionCore) (v : Z) : SessionCore :=
  MkCore (config s) (state s) (resume_state s) (next_in_seq s) (next_out_seq s) (last_inbound_ns s) (last_outbound_ns s) (pending_resend s) (resend_completed s) (warmup_remaining s) (warmup_total s) (day_cut_config s) v (transport_profile s).
Definition set_transport_profile (s : SessionCore) (v : option TransportSessionProfile) : SessionCore :=
  MkCore (config s) (state s) (resume_state s) (next_in_seq s) (next_out_seq s) (last_inbound_ns s) (last_outbound_ns s) (pending_resend s) (resend_completed s) (warmup_remaining s) (warmup_total s) (day_cut_config s) (last_day_cut_date s) v.
Definition default_day_cut : DayCutConfig := MkDayCut kNoAutoReset 0 0 0.

(** The constructor: the data members' default initialisers. *)
Definition NewSessionCore (c : SessionConfig) : SessionCore :=
  MkCore c kDisconnected kDisconnected 1 1 0 0 None false 0 0 default_day_cut (-1) None.

Definition BeginConnect (s : SessionCore) : SessionCore * Status :=
  if negb (SessionState_eqb (state s) kDisconnected)
  then (s, status.InvalidArgument "connect can only begin from the disconnected state")
  else (set_state s kConnecting, status.Ok).

Definition OnTransportConnected (s : SessionCore) : SessionCore * Status :=
  if negb (SessionState_eqb (state s) kDisconnected) && negb (SessionState_eqb (state s) kConnecting)
  then (s, status.InvalidArgument "transport can only connect from the disconnected or connecting state")
  else (set_state s kConnected, status.Ok).

Definition Close (s : SessionCore) : SessionCore * Status :=
  (set_state (set_pending_resend s None) kClosed, status.Ok).

Definition BeginRecovery (s : SessionCore) : SessionCore * Status :=
  if SessionState_eqb (state s) kRecovering
  then (s, status.InvalidArgument "session is already recovering")
  else (set_state (set_resume_state s (state s)) kRecovering, status.Ok).

Definition FinishRecovery (s : SessionCore) : SessionCore * Status :=
  if negb (SessionState_eqb (state s) kRecovering)
  then (s, status.InvalidArgument "session is not recovering")
  else (set_state s (resume_state s), status.Ok).

Definition BeginLogon (s : SessionCore) : SessionCore * Status :=
  if negb (SessionState_eqb (state s) kConnected)
  then (s, status.InvalidArgument "logon can only begin from the connected state")
  else (set_state s kPendingLogon, status.Ok).

Definition RestoreSequenceState (next_in next_out : Z) (s : SessionCore) : SessionCore * Status :=
  if negb (SessionState_eqb (state s) kDisconnected) && negb (SessionState_eqb (state s) kConnected) &&
     negb (SessionState_eqb (state s) kPendingLogon) && negb (SessionState_eqb (state s) kActive) &&
     negb (SessionState_eqb (state s) kRecovering)
  then (s, status.InvalidArgument "sequence state can only be restored before session activation")
  else if (next_in =? 0) || (next_out =? 0)
  then (s, status.InvalidArgument "sequence numbers must be positive")
  else (set_pending_resend (set_next_out_seq (set_next_in_seq s next_in) next_out) None, status.Ok).

(** The tail shared by [AdvanceInboundExpectedSeq] and [ObserveInboundSeq]:
    leave resend processing once the pending range is covered. *)
Definition finish_covered_resend (s : SessionCore) : SessionCore :=
  match pending_resend s with
  | Some r =>
      if SessionState_eqb (state s) kResendProcessing && (next_in_seq s >? end_seq r)
      then set_resend_completed (set_state (set_pending_resend s None) (resume_state s)) true
      else s
  | None => s
  end.

Definition AdvanceInboundExpectedSeq (next_in : Z) (s : SessionCore) : SessionCore * Status :=
  if next_in =? 0 then (s, status.InvalidArgument "sequence numbers must be positive")
  else if next_in <? next_in_seq s
  then (s, status.InvalidArgument "cannot move inbound sequence backwards")
  else (finish_covered_resend (set_next_in_seq s next_in), status.Ok).

Definition OnLogonAccepted (s : SessionCore) : SessionCore * Status :=
  if negb (SessionState_eqb (state s) kConnected) && negb (SessionState_eqb (state s) kPendingLogon)
  then (s, status.InvalidArgument "logon can only be accepted from the connected or pending-logon state")
  else (set_warmup_remaining (set_state s kActive) (warmup_total s), status.Ok).

Definition BeginLogout (s : SessionCore) : SessionCore * Status :=
  if negb (SessionState_eqb (state s) kActive) && negb (SessionState_eqb (state s) kResendProcessing)
  then (s, status.InvalidArgument "logout can only begin from the active or resend-processing state")
  else (set_state (set_pending_resend s None) kAwaitingLogout, status.Ok).

Definition OnTransportClosed (s : SessionCore) : SessionCore * Status :=
  ((if negb (SessionState_eqb (state s) kClosed) then set_state s kDisconnected else s), status.Ok).

(** The five states in which sequence numbers move. *)
Definition sequencing_state (st : SessionState) : bool :=
  negb (negb (SessionState_eqb st kConnected) && negb (SessionState_eqb st kPendingLogon) &&
        negb (SessionState_eqb st kActive) && negb (SessionState_eqb st kAwaitingLogout) &&
        negb (SessionState_eqb st kResendProcessing)).

Definition AllocateOutboundSeq (s : SessionCore) : SessionCore * Result Z :=
  if negb (sequencing_state (state s))
  then (s, Error (status.InvalidArgument "outbound sequence numbers can only be allocated for an active session"))
  else if next_out_seq s =? UINT32_MAX
  then (s, Error (status.InvalidArgument "outbound sequence number overflow; session reset required"))
  else (set_next_out_seq s (next_out_seq s +u32 1), Value (next_out_seq s)).

Definition ObserveInboundSeq (seq_num : Z) (s : SessionCore) : SessionCore * Status :=
  if negb (sequencing_state (state s))
  then (s, status.InvalidArgument "inbound sequence numbers can only be observed for an active session")
  else if seq_num <? next_in_seq s
  then (s, status.InvalidArgument "received a duplicate or stale inbound sequence number")
  else if seq_num >? next_in_seq s
  then
    let s' :=
      match pending_resend s with
      | Some r =>
          if SessionState_eqb (state s) kResendProcessing
          then (* already recovering: extend the range *)
            let new_end := seq_num -u32 1 in
            if new_end >? end_seq r
            then set_pending_resend s (Some (MkRange (begin_seq r) new_end))
            else s
          else
            set_state (set_resume_state
              (set_pending_resend s (Some (MkRange (next_in_seq s) (seq_num -u32 1)))) (state s))
              kResendProcessing
      | None =>
          set_state (set_resume_state
            (set_pending_resend s (Some (MkRange (next_in_seq s) (seq_num -u32 1)))) (state s))
            kResendProcessing
      end in
    (s', status.InvalidArgument "inbound sequence gap detected")
  else (finish_covered_resend (set_next_in_seq s (next_in_seq s +u32 1)), status.Ok).

Definition BeginResend (begin_ end_ : Z) (s : SessionCore) : SessionCore * Status :=
  if negb (SessionState_eqb (state s) kActive) && negb (SessionState_eqb (state s) kAwaitingLogout)
  then (s, status.InvalidArgument "resend can only begin from an active session")
  else if (begin_ =? 0) || (end_ =? 0) || (begin_ >? end_)
  then (s, status.InvalidArgument "invalid resend range")
  else (set_state (set_resume_state (set_pending_resend s (Some (MkRange begin_ end_))) (state s))
          kResendProcessing, status.Ok).

Definition CompleteResend (s : SessionCore) : SessionCore * Status :=
  if negb (SessionState_eqb (state s) kResendProcessing)
  then (s, status.InvalidArgument "session is not processing a resend")
  else (set_resend_completed (set_state (set_pending_resend s None) (resume_state s)) true, status.Ok).

Definition RecordInboundActivity (timestamp_ns : Z) (s : SessionCore) : SessionCore * Status :=
  (set_last_inbound_ns s timestamp_ns, status.Ok).

Definition RecordOutboundActivity (timestamp_ns : Z) (s : SessionCore) : SessionCore * Status :=
  (set_last_outbound_ns s timestamp_ns, status.Ok).

Definition SetWarmupCount (count : Z) (s : SessionCore) : SessionCore :=
  set_warmup_remaining (set_warmup_total s count) count.

Definition ConsumeWarmupMessage (s : SessionCore) : SessionCore * bool :=
  if warmup_remaining s >? 0
  then (set_warmup_remaining s (warmup_remaining s -u32 1), true)
  else (s, false).

Definition is_warmup (s : SessionCore) : bool := warmup_remaining s >? 0.

Definition ConsumeResendCompleted (s : SessionCore) : SessionCore * bool :=
  if resend_completed s then (set_resend_completed s false, true) else (s, false).

Record SessionSnapshot := MkSnapshot {
  snap_session_id : Z;
  snap_state : SessionState;
  snap_profile_id : Z;
  snap_next_in_seq : Z;
  snap_next_out_seq : Z;
  snap_last_inbound_ns : Z;
  snap_last_outbound_ns : Z;
  snap_has_pending_resend : bool;
  snap_pending_resend : ResendRange;
  snap_is_warmup : bool;
}.

Definition Snapshot (s : SessionCore) : SessionSnapshot := {|
  snap_session_id := session_id (config s);
  snap_state := state s;
  snap_profile_id := profile_id (config s);
  snap_next_in_seq := next_in_seq s;
  snap_next_out_seq := next_out_seq s;
  snap_last_inbound_ns := last_inbound_ns s;
  snap_last_outbound_ns := last_outbound_ns s;
  snap_has_pending_resend := bool_decide (is_Some (pending_resend s));
  snap_pending_resend := default (MkRange 0 0) (pending_resend s);
  snap_is_warmup := is_warmup s;
|}.

Definition TriggerDayCut (s : SessionCore) : SessionCore * Status :=
  if negb (SessionState_eqb (state s) kDisconnected) && negb (SessionState_eqb (state s) kActive)
  then (s, status.InvalidArgument "day-cut can only be triggered when session is disconnected or active")
  else (set_pending_resend (set_next_out_seq (set_next_in_seq s 1) 1) None, status.Ok).

(** The session day a wall-clock instant belongs to: the calendar day, or the
    day before while the reset time of the day has not been reached.  Division
    and remainder of C++ truncate toward zero. *)
Definition effective_date (c : DayCutConfig) (now_ns : Z) : Z :=
  let epoch_seconds := i64 (now_ns / 1000000000) in
  let adjusted_seconds :=
    match mode c with
    | kFixedLocalTime => i64 (epoch_seconds + utc_offset_seconds c)
    | _ => epoch_seconds
    end in
  let day_number := i32 (Z.quot adjusted_seconds 86400) in
  let time_of_day := Z.rem adjusted_seconds 86400 in
  let current_hour := i32 (Z.quot time_of_day 3600) in
  let current_minute := i32 (Z.quot (Z.rem time_of_day 3600) 60) in
  let past_reset :=
    (current_hour >? reset_hour c) ||
    ((current_hour =? reset_hour c) && (current_minute >=? reset_minute c)) in
  if past_reset then day_number else day_number - 1.

Definition timed_day_cut (m : DayCutMode) : bool :=
  match m with kFixedLocalTime | kFixedUtcTime => true | _ => false end.

Definition CheckDayCut (now_ns : Z) (s : SessionCore) : SessionCore :=
  if negb (timed_day_cut (mode (day_cut_config s))) then s
  else
    let d := effective_date (day_cut_config s) now_ns in
    if last_day_cut_date s <? 0 then set_last_day_cut_date s d
    else if d <=? last_day_cut_date s then s
    else fst (TriggerDayCut (set_last_day_cut_date s d)).

(** ** The calls on a session as a transition system *)

Inductive Op :=
  | OpBeginConnect | OpOnTransportConnected | OpClose | OpBeginRecovery | OpFinishRecovery
  | OpBeginLogon | OpRestoreSequenceState (next_in next_out : Z)
  | OpAdvanceInboundExpectedSeq (next_in : Z) | OpOnLogonAccepted | OpBeginLogout
  | OpOnTransportClosed | OpAllocateOutboundSeq | OpObserveInboundSeq (seq_num : Z)
  | OpBeginResend (begin_ end_ : Z) | OpCompleteResend
  | OpRecordInboundActivity (ts : Z) | OpRecordOutboundActivity (ts : Z)
  | OpSetWarmupCount (count : Z) | OpConsumeWarmupMessage | OpConsumeResendCompleted
  | OpSetDayCutConfig (c : DayCutConfig) | OpCheckDayCut (now_ns : Z) | OpTriggerDayCut
  | OpSetTransportProfile (p : option TransportSessionProfile).

Definition exec (op : Op) (s : SessionCore) : SessionCore :=
  match op with
  | OpBeginConnect => fst (BeginConnect s)
  | OpOnTransportConnected => fst (OnTransportConnected s)
  | OpClose => fst (Close s)
  | OpBeginRecovery => fst (BeginRecovery s)
  | OpFinishRecovery => fst (FinishRecovery s)
  | OpBeginLogon => fst (BeginLogon s)
  | OpRestoreSequenceState i o => fst (RestoreSequenceState i o s)
  | OpAdvanceInboundExpectedSeq i => fst (AdvanceInboundExpectedSeq i s)
  | OpOnLogonAccepted => fst (OnLogonAccepted s)
  | OpBeginLogout => fst (BeginLogout s)
  | OpOnTransportClosed => fst (OnTransportClosed s)
  | OpAllocateOutboundSeq => fst (AllocateOutboundSeq s)
  | OpObserveInboundSeq n => fst (ObserveInboundSeq n s)
  | OpBeginResend b e => fst (BeginResend b e s)
  | OpCompleteResend => fst (CompleteResend s)
  | OpRecordInboundActivity t => fst (RecordInboundActivity t s)
  | OpRecordOutboundActivity t => fst (RecordOutboundActivity t s)
  | OpSetWarmupCount n => SetWarmupCount n s
  | OpConsumeWarmupMessage => fst (ConsumeWarmupMessage s)
  | OpConsumeResendCompleted => fst (ConsumeResendCompleted s)
  | OpSetDayCutConfig c => set_day_cut_config s c
  | OpCheckDayCut n => CheckDayCut n s
  | OpTriggerDayCut => fst (TriggerDayCut s)
  | OpSetTransportProfile p => set_transport_profile s p
  end.

Definition run (ops : list Op) (s : SessionCore) : SessionCore :=
  fold_left (fun s op => exec op s) ops s.

(** The argument widths of the C++ signatures. *)
Definition op_width (op : Op) : Prop :=
  match op with
  | OpRestoreSequenceState i o => in_u32 i /\ in_u32 o
  | OpAdvanceInboundExpectedSeq i => in_u32 i
  | OpObserveInboundSeq n => in_u32 n
  | OpBeginResend b e => in_u32 b /\ in_u32 e
  | OpSetWarmupCount n => in_u32 n
  | _ => True
  end.

(** The two calls the invariant does not survive (shown below to be real
    hazards): recovering in the middle of a resend, and consuming inbound
    sequence number [UINT32_MAX]. *)
Definition op_safe (s : SessionCore) (op : Op) : Prop :=
  match op with
  | OpBeginRecovery => state s <> kResendProcessing
  | OpObserveInboundSeq n => n <> UINT32_MAX
  | _ => True
  end.

Inductive reachable (c : SessionConfig) : SessionCore -> Prop :=
  | reach_init : reachable c (NewSessionCore c)
  | reach_step s op : reachable c s -> op_width op -> op_safe s op -> reachable c (exec op s).

Definition live_state (st : SessionState) : Prop :=
  st = kConnected \/ st = kPendingLogon \/ st = kActive \/ st = kAwaitingLogout.

Definition range_ok (r : ResendRange) : Prop :=
  1 <= begin_seq r <= end_seq r /\ in_u32 (end_seq r).

Record core_inv (s : SessionCore) : Prop := {
  inv_in : 1 <= next_in_seq s <= UINT32_MAX;
  inv_out : 1 <= next_out_seq s <= UINT32_MAX;
  inv_pending : forall r, pending_resend s = Some r -> range_ok r;
  inv_resend : state s = kResendProcessing ->
               is_Some (pending_resend s) /\ live_state (resume_state s);
  inv_recovering : state s = kRecovering ->
               resume_state s <> kRecovering /\ resume_state s <> kResendProcessing;
  inv_warmup : 0 <= warmup_remaining s <= UINT32_MAX /\ 0 <= warmup_total s <= UINT32_MAX;
}.

(** The edges the architecture document draws between session states. *)
Inductive edge : SessionState -> SessionState -> Prop :=
  | edge_stay st : edge st st
  | edge_connect : edge kDisconnected kConnecting
  | edge_connected st : st = kDisconnected \/ st = kConnecting -> edge st kConnected
  | edge_logon : edge kConnected kPendingLogon
  | edge_active st : st = kConnected \/ st = kPendingLogon -> edge st kActive
  | edge_logout st : st = kActive \/ st = kResendProcessing -> edge st kAwaitingLogout
  | edge_gap st : live_state st -> edge st kResendProcessing
  | edge_resume st : live_state st -> edge kResendProcessing st
  | edge_recover st : edge st kRecovering
  | edge_recovered st : st <> kRecovering -> st <> kResendProcessing -> edge kRecovering st
  | edge_drop st : st <> kClosed -> edge st kDisconnected
  | edge_close st : edge st kClosed.

(** ** Lemmas *)

Create HintDb session.

Lemma SessionState_eqb_true a b : SessionState_eqb a b = true <-> a = b.
Proof. destruct a, b; cbn; split; congruence. Qed.

Lemma SessionState_eqb_false a b : SessionState_eqb a b = false <-> a <> b.
Proof. destruct a, b; cbn; split; congruence. Qed.

Lemma sequencing_state_spec st :
  sequencing_state st = true <-> live_state st \/ st = kResendProcessing.
Proof. unfold live_state. destruct st; cbn; split; intros; try done; try tauto; destruct_or?; done. Qed.

(** Decides every test on a concrete state. *)
Ltac on_state s :=
  cbn in *; destruct (state s) eqn:?Hst; cbn in *.

Lemma finish_covered_resend_seqs s :
  next_in_seq (finish_covered_resend s) = next_in_seq s /\
  next_out_seq (finish_covered_resend s) = next_out_seq s /\
  resume_state (finish_covered_resend s) = resume_state s /\
  warmup_remaining (finish_covered_resend s) = warmup_remaining s /\
  warmup_total (finish_covered_resend s) = warmup_total s.
Proof. unfold finish_covered_resend. repeat split_if; done. Qed.

Lemma finish_covered_resend_cases s :
  (finish_covered_resend s = s) \/
  (state s = kResendProcessing /\ state (finish_covered_resend s) = resume_state s /\
   pending_resend (finish_covered_resend s) = None).
Proof.
  unfold finish_covered_resend. destruct (pending_resend s); [|by left].
  destruct (SessionState_eqb _ _ && _) eqn:E; [right|by left].
  bool_to_prop. rewrite SessionState_eqb_true in *. done.
Qed.

Lemma finish_covered_resend_inv s : core_inv s -> core_inv (finish_covered_resend s).
Proof.
  intros [Hi Ho Hp Hr Hc Hw].
  destruct (finish_covered_resend_cases s) as [->|(Hs & Hst & Hpn)]; [by split|].
  destruct (finish_covered_resend_seqs s) as (E1 & E2 & E3 & E4 & E5).
  destruct (Hr Hs) as [_ Hl].
  split; rewrite ?E1, ?E2, ?E4, ?E5, ?Hpn; try done.
  - intros Hst'. rewrite Hst in Hst'. destruct Hl as [?|[?|[?|?]]]; congruence.
  - intros Hst'. rewrite Hst in Hst'. destruct Hl as [?|[?|[?|?]]]; congruence.
Qed.

(** A call that only overwrites fields the invariant does not read. *)
Lemma core_inv_ext s s' :
  next_in_seq s' = next_in_seq s -> next_out_seq s' = next_out_seq s ->
  pending_resend s' = pending_resend s -> state s' = state s ->
  resume_state s' = resume_state s -> warmup_remaining s' = warmup_remaining s ->
  warmup_total s' = warmup_total s -> core_inv s -> core_inv s'.
Proof. intros E1 E2 E3 E4 E5 E6 E7 []. split; rewrite ?E1, ?E2, ?E3, ?E4, ?E5, ?E6, ?E7; done. Qed.

Lemma set_state_inv s st :
  st <> kResendProcessing -> st <> kRecovering -> core_inv s -> core_inv (set_state s st).
Proof. intros H1 H2 []. split; cbn; done. Qed.

Lemma set_pending_none_inv s :
  state s <> kResendProcessing -> core_inv s -> core_inv (set_pending_resend s None).
Proof. intros H1 []. split; cbn; done. Qed.

Lemma set_next_in_inv s n : 1 <= n <= UINT32_MAX -> core_inv s -> core_inv (set_next_in_seq s n).
Proof. intros H1 []. split; cbn; done. Qed.

Lemma set_next_out_inv s n : 1 <= n <= UINT32_MAX -> core_inv s -> core_inv (set_next_out_seq s n).
Proof. intros H1 []. split; cbn; done. Qed.

Lemma leave_resend_inv s st :
  st <> kResendProcessing -> st <> kRecovering -> core_inv s ->
  core_inv (set_state (set_pending_resend s None) st).
Proof. intros H1 H2 []. split; cbn; done. Qed.

Lemma enter_resend_inv s r :
  live_state (state s) -> range_ok r -> core_inv s ->
  core_inv (set_state (set_resume_state (set_pending_resend s (Some r)) (state s)) kResendProcessing).
Proof. intros Hl Hr []. split; cbn; try done. by intros ? [= <-]. Qed.

Lemma extend_resend_inv s r :
  range_ok r -> core_inv s -> core_inv (set_pending_resend s (Some r)).
Proof.
  intros Hr [Hi Ho Hp Hx Hc Hw]. split; cbn; try done.
  - by intros ? [= <-].
  - intros Hs. destruct (Hx Hs). done.
Qed.

Lemma live_not_special st : live_state st -> st <> kResendProcessing /\ st <> kRecovering.
Proof. unfold live_state. intros; destruct_or?; subst; done. Qed.

Lemma resume_inv s :
  core_inv s -> state s = kResendProcessing ->
  core_inv (set_resend_completed (set_state (set_pending_resend s None) (resume_state s)) true).
Proof.
  intros H Hs. destruct (inv_resend s H Hs) as [_ [? ?]%live_not_special].
  apply (core_inv_ext (set_state (set_pending_resend s None) (resume_state s))); try done.
  by apply leave_resend_inv.
Qed.

Lemma ObserveInboundSeq_inv n s :
  in_u32 n -> n <> UINT32_MAX -> core_inv s -> core_inv (fst (ObserveInboundSeq n s)).
Proof.
  intros Hw Hm H. unfold ObserveInboundSeq.
  destruct (negb (sequencing_state (state s))) eqn:Hseq; [done|].
  apply negb_false_iff, sequencing_state_spec in Hseq.
  destruct (n <? next_in_seq s) eqn:Hlt; [done|]. bool_to_prop.
  pose proof (inv_in s H) as Hin.
  destruct (n >? next_in_seq s) eqn:Hgt; bool_to_prop; cbn [fst].
  - assert (Hu : u32 (n - 1) = n - 1) by (apply u32_small; ulia).
    assert (Hnew : range_ok (MkRange (next_in_seq s) (n - 1))) by (unfold range_ok; cbn; ulia).
    destruct Hseq as [Hl|Hr].
    + assert (SessionState_eqb (state s) kResendProcessing = false) as E.
      { apply SessionState_eqb_false. by apply live_not_special. }
      rewrite E, Hu. destruct (pending_resend s); by apply enter_resend_inv.
    + destruct (inv_resend s H Hr) as [[r Hp] _]. rewrite Hp, Hr, Hu. cbn.
      destruct (_ >? _) eqn:Hext; [|done]. bool_to_prop.
      apply extend_resend_inv; [|done]. pose proof (inv_pending s H r Hp) as [? ?].
      unfold range_ok; cbn; ulia.
  - apply finish_covered_resend_inv, set_next_in_inv; [|done].
    rewrite u32_small; ulia.
Qed.

Lemma TriggerDayCut_inv s : core_inv s -> core_inv (fst (TriggerDayCut s)).
Proof.
  intros H. unfold TriggerDayCut. split_if; [done|].
  apply set_pending_none_inv; [on_state s; done|].
  apply set_next_out_inv; [ulia|]. apply set_next_in_inv; [ulia|done].
Qed.

Lemma CheckDayCut_inv n s : core_inv s -> core_inv (CheckDayCut n s).
Proof.
  intros H. unfold CheckDayCut. set (d := effective_date _ _).
  assert (core_inv (set_last_day_cut_date s d)) by (by apply (core_inv_ext s)).
  do 3 (split_if; [done|]). by apply TriggerDayCut_inv.
Qed.

Lemma exec_inv s op : op_width op -> op_safe s op -> core_inv s -> core_inv (exec op s).
Proof.
  intros Hw Hs H. destruct op; cbn [exec op_width op_safe] in *.
  all: try solve [by apply (core_inv_ext s)].
  all: try by apply CheckDayCut_inv.
  all: try by apply ObserveInboundSeq_inv.
  all: try by apply TriggerDayCut_inv.
  - unfold BeginConnect. split_if; [done|]. by apply set_state_inv.
  - unfold OnTransportConnected. split_if; [done|]. by apply set_state_inv.
  - by apply leave_resend_inv.
  - unfold BeginRecovery. split_if; [done|]. destruct H. split; cbn; try done.
    split; [|done]. intros E. by rewrite E in *.
  - unfold FinishRecovery. split_if; [done|]. apply negb_false_iff, SessionState_eqb_true in Heqb.
    destruct (inv_recovering s H Heqb). by apply set_state_inv.
  - unfold BeginLogon. split_if; [done|]. by apply set_state_inv.
  - unfold RestoreSequenceState. split_if; [done|]. split_if; [done|]. bool_to_prop.
    apply set_pending_none_inv.
    + on_state s; done.
    + apply set_next_out_inv; [ulia|]. apply set_next_in_inv; [ulia|done].
  - unfold AdvanceInboundExpectedSeq. split_if; [done|]. split_if; [done|]. bool_to_prop.
    pose proof (inv_in s H). apply finish_covered_resend_inv, set_next_in_inv; [ulia|done].
  - unfold OnLogonAccepted. split_if; [done|]. destruct H. split; cbn; try done; naive_solver.
  - unfold BeginLogout. split_if; [done|]. by apply leave_resend_inv.
  - unfold OnTransportClosed. cbn. split_if; [|done]. by apply set_state_inv.
  - unfold AllocateOutboundSeq. split_if; [done|]. split_if; [done|]. bool_to_prop.
    pose proof (inv_out s H). apply set_next_out_inv; [|done]. rewrite u32_small; ulia.
  - unfold BeginResend. split_if; [done|]. split_if; [done|]. bool_to_prop.
    apply enter_resend_inv; [|unfold range_ok; cbn; ulia|done].
    unfold live_state. on_state s; try done; tauto.
  - unfold CompleteResend. split_if; [done|]. apply negb_false_iff, SessionState_eqb_true in Heqb.
    by apply resume_inv.
  - destruct H. split; cbn; done.
  - unfold ConsumeWarmupMessage. split_if; [|done]. bool_to_prop.
    destruct H. split; cbn; try done. rewrite u32_small; ulia.
  - unfold ConsumeResendCompleted. split_if; [|done]. by apply (core_inv_ext s).
Qed.

Lemma core_inv_init c : core_inv (NewSessionCore c).
Proof. split; cbn; try done; ulia. Qed.

Lemma reachable_inv c s : reachable c s -> core_inv s.
Proof. induction 1; eauto using core_inv_init, exec_inv. Qed.

Lemma finish_covered_resend_edge s :
  core_inv s -> edge (state s) (state (finish_covered_resend s)).
Proof.
  intros H. destruct (finish_covered_resend_cases s) as [->|(Hs & -> & _)]; [constructor|].
  rewrite Hs. apply edge_resume. by apply (inv_resend s H).
Qed.

Lemma CheckDayCut_state n s : state (CheckDayCut n s) = state s.
Proof.
  unfold CheckDayCut, TriggerDayCut. do 3 (split_if; [done|]). by split_if.
Qed.

Lemma exec_edge s op : core_inv s -> op_safe s op -> edge (state s) (state (exec op s)).
Proof.
  intros H Hs. destruct op; cbn [exec op_safe] in *; rewrite ?CheckDayCut_state;
    try solve [constructor].
  all: try (unfold BeginConnect, OnTransportConnected, BeginLogon, OnLogonAccepted, BeginResend,
              BeginLogout, OnTransportClosed, TriggerDayCut, ConsumeWarmupMessage,
              ConsumeResendCompleted, RestoreSequenceState, AllocateOutboundSeq;
            on_state s; repeat split_if; cbn; rewrite ?Hst;
            solve [constructor | constructor; naive_solver | constructor; unfold live_state; naive_solver]).
  - unfold BeginRecovery. split_if; constructor.
  - unfold FinishRecovery. split_if; [constructor|].
    apply negb_false_iff, SessionState_eqb_true in Heqb. rewrite Heqb.
    destruct (inv_recovering s H Heqb). by apply edge_recovered.
  - unfold AdvanceInboundExpectedSeq. split_if; [constructor|]. split_if; [constructor|]. bool_to_prop.
    cbn [fst]. destruct (finish_covered_resend_cases (set_next_in_seq s next_in)) as [->|(E & -> & _)];
      [constructor|]. cbn in *. rewrite E. apply edge_resume. by apply (inv_resend s H).
  - unfold ObserveInboundSeq. destruct (negb _) eqn:Hq; [constructor|].
    apply negb_false_iff, sequencing_state_spec in Hq.
    split_if; [constructor|]. split_if; cbn [fst].
    + destruct Hq as [Hl|Hr].
      * assert (SessionState_eqb (state s) kResendProcessing = false) as E.
        { apply SessionState_eqb_false. by apply live_not_special. }
        rewrite E. destruct (pending_resend s); by apply edge_gap.
      * rewrite Hr. repeat split_if; cbn; rewrite ?Hr; constructor.
    + destruct (finish_covered_resend_cases (set_next_in_seq s (next_in_seq s +u32 1))) as [->|(E & -> & _)];
      [constructor|]. cbn in *. rewrite E. apply edge_resume. by apply (inv_resend s H).
  - unfold CompleteResend. split_if; [constructor|].
    apply negb_false_iff, SessionState_eqb_true in Heqb. cbn. rewrite Heqb.
    apply edge_resume. by apply (inv_resend s H).
Qed.

(** Repeated allocation, as the encoder performs it for consecutive frames. *)
Fixpoint allocate_n (k : nat) (s : SessionCore) : SessionCore * list (Result Z) :=
  match k with
  | O => (s, [])
  | S k => let '(s1, r) := AllocateOutboundSeq s in
           let '(s2, rs) := allocate_n k s1 in (s2, r :: rs)
  end.

Lemma allocate_n_values k : forall s,
  sequencing_state (state s) = true -> 1 <= next_out_seq s ->
  next_out_seq s + Z.of_nat k <= UINT32_MAX ->
  allocate_n k s =
    (set_next_out_seq s (next_out_seq s + Z.of_nat k), map Value (zseq (next_out_seq s) k)).
Proof.
  induction k as [|k IH]; intros s Hs H1 Hk; cbn [allocate_n].
  - rewrite Z.add_0_r, zseq_0. by destruct s.
  - unfold AllocateOutboundSeq at 1. rewrite Hs. cbn [negb].
    destruct (next_out_seq s =? UINT32_MAX) eqn:E; bool_to_prop; [ulia|].
    rewrite u32_small by ulia. rewrite IH by (cbn; (done || ulia)). cbn.
    rewrite zseq_S. cbn [map]. f_equal. unfold set_next_out_seq; cbn. f_equal. lia.
Qed.

(** [observe k] consumes the next [k] expected inbound numbers. *)
Definition observe_expected (k : nat) (s : SessionCore) : SessionCore :=
  run (map OpObserveInboundSeq (zseq (next_in_seq s) k)) s.

Lemma observe_step s :
  core_inv s -> sequencing_state (state s) = true -> next_in_seq s < UINT32_MAX ->
  fst (ObserveInboundSeq (next_in_seq s) s) =
    finish_covered_resend (set_next_in_seq s (next_in_seq s + 1)).
Proof.
  intros H Hs Hm. pose proof (inv_in s H). unfold ObserveInboundSeq. rewrite Hs. cbn [negb].
  rewrite Z.ltb_irrefl, Z.gtb_ltb, Z.ltb_irrefl, u32_small by ulia. done.
Qed.

Lemma observe_expected_S k s :
  core_inv s -> sequencing_state (state s) = true -> next_in_seq s < UINT32_MAX ->
  observe_expected (S k) s =
    observe_expected k (finish_covered_resend (set_next_in_seq s (next_in_seq s + 1))).
Proof.
  intros H Hs Hm. unfold observe_expected. rewrite zseq_S. cbn [map run fold_left exec].
  rewrite observe_step by done. unfold run.
  destruct (finish_covered_resend_seqs (set_next_in_seq s (next_in_seq s + 1))) as (-> & _). done.
Qed.

(** While the gap is open every in-order message keeps the session in resend
    processing; the message that reaches the end of the range resumes it. *)
Lemma observe_gap k : forall s r,
  core_inv s -> state s = kResendProcessing -> pending_resend s = Some r ->
  next_in_seq s + Z.of_nat k <= end_seq r -> end_seq r < UINT32_MAX ->
  observe_expected k s = set_next_in_seq s (next_in_seq s + Z.of_nat k).
Proof.
  induction k as [|k IH]; intros s r H Hs Hp Hk Hm.
  - unfold observe_expected. rewrite Z.add_0_r. by destruct s.
  - assert (Hq : sequencing_state (state s) = true) by (by rewrite Hs).
    pose proof (inv_in s H). rewrite observe_expected_S by (done || ulia).
    assert (finish_covered_resend (set_next_in_seq s (next_in_seq s + 1)) =
            set_next_in_seq s (next_in_seq s + 1)) as ->.
    { unfold finish_covered_resend. cbn. rewrite Hp, Hs. cbn.
      destruct (_ >? _) eqn:E; bool_to_prop; [lia|done]. }
    erewrite IH; [|by apply set_next_in_inv; [ulia|]|done|exact Hp|cbn; lia|done].
    cbn. unfold set_next_in_seq. cbn. f_equal; lia.
Qed.

(** ** Properties *)

(** C11: Every sequence of calls that neither recovers in the middle of a resend
    nor consumes inbound number [UINT32_MAX] keeps both sequence counters in
    [1 .. UINT32_MAX]; while the session is processing a resend there is a
    well-formed pending range and the state to return to is one of the four
    live states. *)
Theorem session_invariant c s :
  reachable c s ->
  1 <= next_in_seq s <= UINT32_MAX /\ 1 <= next_out_seq s <= UINT32_MAX /\
  (state s = kResendProcessing ->
     exists r, pending_resend s = Some r /\ 1 <= begin_seq r <= end_seq r /\
               live_state (resume_state s)).
Proof.
  intros H%reachable_inv. pose proof (inv_in s H). pose proof (inv_out s H).
  repeat split; try lia. intros Hs. destruct (inv_resend s H Hs) as [[r Hr] Hl].
  exists r. destruct (inv_pending s H r Hr). done.
Qed.

Definition demo_config : SessionConfig :=
  MkSessionConfig 7 (MkKey "FIX.4.4" "ENGINE" "PEER" None None None) 44 "" 30 true.

(** Connect, log on, receive 1 and then 5: the session asks for 2..4. *)
Definition demo_ops : list Op :=
  [OpOnTransportConnected; OpBeginLogon; OpObserveInboundSeq 1; OpOnLogonAccepted; OpObserveInboundSeq 5].
Definition demo_gap : SessionCore := run demo_ops (NewSessionCore demo_config).

Lemma demo_gap_reachable : reachable demo_config demo_gap.
Proof.
  unfold demo_gap, demo_ops, run. cbn [fold_left].
  repeat (eapply reach_step; [|cbn; ulia|cbn; unfold UINT32_MAX; (done || lia)]). constructor.
Defined.

Lemma session_invariant_witness :
  pending_resend demo_gap = Some (MkRange 2 4) /\
  (1 <= next_in_seq demo_gap <= UINT32_MAX /\ 1 <= next_out_seq demo_gap <= UINT32_MAX /\
  (state demo_gap = kResendProcessing ->
     exists r, pending_resend demo_gap = Some r /\ 1 <= begin_seq r <= end_seq r /\
               live_state (resume_state demo_gap))).
Proof. split; [reflexivity|]. apply (session_invariant demo_config). apply demo_gap_reachable. Defined.

(** Every call moves the session only along an edge of the documented state
    diagram. *)
Theorem session_transitions c s op :
  reachable c s -> op_width op -> op_safe s op -> edge (state s) (state (exec op s)).
Proof. intros H%reachable_inv _ Hs. by apply exec_edge. Qed.

Lemma session_transitions_witness :
  edge (state demo_gap) (state (exec OpBeginLogout demo_gap)) /\
  state (exec OpBeginLogout demo_gap) = kAwaitingLogout.
Proof.
  split; [|reflexivity]. apply (session_transitions demo_config); [apply demo_gap_reachable|exact I|exact I].
Defined.

(** An inbound number below the expected one changes nothing; one above it
    leaves the expected number, enters (or stays in) resend processing and
    makes the pending range cover every missing number; the expected one
    advances the counter and resumes the session exactly when the pending range
    is covered. *)
Theorem observe_inbound_spec s n :
  core_inv s -> in_u32 n -> sequencing_state (state s) = true -> n < UINT32_MAX ->
  let s' := fst (ObserveInboundSeq n s) in
  let st := snd (ObserveInboundSeq n s) in
  (n < next_in_seq s -> s' = s /\ code st = kInvalidArgument) /\
  (next_in_seq s < n ->
     code st = kInvalidArgument /\ state s' = kResendProcessing /\ next_in_seq s' = next_in_seq s /\
     (state s = kResendProcessing ->
        exists r, pending_resend s = Some r /\ resume_state s' = resume_state s /\
          pending_resend s' = Some (MkRange (begin_seq r) (Z.max (end_seq r) (n - 1)))) /\
     (state s <> kResendProcessing ->
        resume_state s' = state s /\ pending_resend s' = Some (MkRange (next_in_seq s) (n - 1)))) /\
  (n = next_in_seq s ->
     st = status.Ok /\ next_in_seq s' = n + 1 /\ next_out_seq s' = next_out_seq s /\
     (forall r, state s = kResendProcessing -> pending_resend s = Some r ->
        if n >=? end_seq r
        then state s' = resume_state s /\ pending_resend s' = None /\ resend_completed s' = true
        else state s' = kResendProcessing /\ pending_resend s' = Some r) /\
     (state s <> kResendProcessing -> state s' = state s /\ pending_resend s' = pending_resend s)).
Proof.
  intros H Hw Hs Hm. pose proof (inv_in s H) as Hin. unfold ObserveInboundSeq. rewrite Hs. cbn [negb].
  destruct (n <? next_in_seq s) eqn:E1; bool_to_prop; cbn [fst snd].
  { repeat split; intros; try lia; done. }
  destruct (n >? next_in_seq s) eqn:E2; bool_to_prop; cbn [fst snd].
  - rewrite u32_small by ulia. split; [lia|]. split; [|lia]. intros _.
    destruct (decide (state s = kResendProcessing)) as [Hr|Hr].
    + destruct (inv_resend s H Hr) as [[r Hp] _]. rewrite Hp, Hr. cbn.
      split; [done|]. split; [by split_if|]. split; [by split_if|]. split; [|done].
      intros _. exists r. split; [done|]. split; [by split_if|].
      split_if; bool_to_prop; cbn; [|rewrite Hp; destruct r; cbn in *]; do 2 f_equal; lia.
    + rewrite (proj2 (SessionState_eqb_false _ _) Hr).
      destruct (pending_resend s); cbn; repeat split; done.
  - split; [lia|]. split; [lia|]. intros ->. rewrite u32_small by ulia. split; [done|].
    set (s1 := set_next_in_seq s (next_in_seq s + 1)).
    destruct (finish_covered_resend_seqs s1) as (-> & -> & _).
    split; [done|]. split; [done|]. split.
    + intros r Hr Hp. unfold finish_covered_resend, s1. cbn. rewrite Hp, Hr. cbn.
      repeat split_if; cbn; bool_to_prop; try lia; done.
    + intros Hr. unfold finish_covered_resend, s1. cbn.
      rewrite (proj2 (SessionState_eqb_false _ _) Hr). cbn. by destruct (pending_resend s) eqn:?.
Qed.

Lemma observe_inbound_spec_witness :
  code (snd (ObserveInboundSeq 9 demo_gap)) = kInvalidArgument /\
  (state demo_gap = kResendProcessing ->
     exists r, pending_resend demo_gap = Some r /\
       resume_state (fst (ObserveInboundSeq 9 demo_gap)) = resume_state demo_gap /\
       pending_resend (fst (ObserveInboundSeq 9 demo_gap)) =
         Some (MkRange (begin_seq r) (Z.max (end_seq r) (9 - 1)))).
Proof.
  destruct (observe_inbound_spec demo_gap 9 (reachable_inv _ _ demo_gap_reachable)
    ltac:(ulia) ltac:(vm_compute; reflexivity) ltac:(ulia)) as (_ & H & _).
  destruct (H ltac:(vm_compute; reflexivity)) as (H1 & _ & _ & H2 & _).
  split; [exact H1|exact H2].
Defined.

(** C38: Gap recovery completes: a session processing a resend that receives the
    numbers it still expects, in order, stays in resend processing up to the
    last of them, and on the last one returns to the state it was in before the
    gap, with the range cleared and the completion flag raised.  The session is
    one that satisfies [core_inv], the invariant every sequence of calls keeps
    that neither recovers in the middle of a resend nor consumes number
    UINT32_MAX: a session recovered inside a resend has no state to return to and
    is left out.  Its next expected number lies within the pending range, and the
    range ends below UINT32_MAX, because the counter behind the last number would
    otherwise wrap to 0 and the recovery never end. *)
Theorem gap_recovery_completes s r :
  core_inv s -> state s = kResendProcessing -> pending_resend s = Some r ->
  next_in_seq s <= end_seq r -> end_seq r < UINT32_MAX ->
  let missing := Z.to_nat (end_seq r - next_in_seq s + 1) in
  (forall k, (k < missing)%nat -> state (observe_expected k s) = kResendProcessing) /\
  state (observe_expected missing s) = resume_state s /\
  live_state (resume_state s) /\
  pending_resend (observe_expected missing s) = None /\
  resend_completed (observe_expected missing s) = true /\
  next_in_seq (observe_expected missing s) = end_seq r + 1.
Proof.
  intros H Hs Hp Hle Hm missing. pose proof (inv_in s H) as Hin.
  assert (Hgap : forall k, (k < missing)%nat ->
            observe_expected k s = set_next_in_seq s (next_in_seq s + Z.of_nat k)).
  { intros k Hk. eapply observe_gap; eauto. lia. }
  split; [intros k Hk; by rewrite Hgap|].
  assert (Hmis : missing = (pred missing + 1)%nat) by lia.
  set (s1 := set_next_in_seq s (end_seq r)).
  assert (Hlast : observe_expected missing s = observe_expected 1 s1).
  { rewrite Hmis. unfold observe_expected, run. rewrite zseq_app, map_app, fold_left_app.
    change (fold_left (fun s op => exec op s) (map OpObserveInboundSeq (zseq (next_in_seq s) (pred missing))) s)
      with (observe_expected (pred missing) s).
    rewrite Hgap by lia. unfold s1. by replace (next_in_seq s + Z.of_nat (pred missing)) with (end_seq r) by lia. }
  assert (core_inv s1) by (apply set_next_in_inv; [ulia|done]).
  rewrite Hlast, observe_expected_S by (unfold s1; cbn; rewrite ?Hs; (done || ulia)).
  unfold observe_expected. rewrite zseq_0. cbn [map run fold_left].
  unfold finish_covered_resend, s1. cbn. rewrite Hp, Hs. cbn.
  destruct (_ >? _) eqn:E; bool_to_prop; [|lia]. cbn.
  repeat split; try done. by apply (inv_resend s H).
Qed.

Lemma gap_recovery_completes_witness :
  state (observe_expected 3 demo_gap) = resume_state demo_gap /\
  next_in_seq (observe_expected 3 demo_gap) = 5.
Proof.
  destruct (gap_recovery_completes demo_gap (MkRange 2 4) (reachable_inv _ _ demo_gap_reachable)
    eq_refl eq_refl ltac:(vm_compute; discriminate) ltac:(vm_compute; reflexivity))
    as (_ & H1 & _ & _ & _ & H2).
  split; [exact H1|exact H2].
Defined.

(** [k] consecutive allocations of an outbound number return [k]
    consecutive numbers starting at the counter and change nothing but the
    counter; at [UINT32_MAX] every further allocation fails and leaves the
    session as it is, so no outbound number is ever used twice. *)
Theorem allocations_consecutive s :
  core_inv s -> sequencing_state (state s) = true ->
  (forall k, next_out_seq s + Z.of_nat k <= UINT32_MAX ->
     allocate_n k s =
       (set_next_out_seq s (next_out_seq s + Z.of_nat k), map Value (zseq (next_out_seq s) k))) /\
  (next_out_seq s = UINT32_MAX ->
     fst (AllocateOutboundSeq s) = s /\ result_ok (snd (AllocateOutboundSeq s)) = false).
Proof.
  intros H Hs. pose proof (inv_out s H). split.
  - intros k Hk. apply allocate_n_values; [done|lia|done].
  - intros E. unfold AllocateOutboundSeq. rewrite Hs, E. done.
Qed.

Lemma allocations_consecutive_witness :
  allocate_n 3 demo_gap =
    (set_next_out_seq demo_gap (next_out_seq demo_gap + 3), map Value (zseq (next_out_seq demo_gap) 3)).
Proof.
  refine (proj1 (allocations_consecutive demo_gap (reachable_inv _ _ demo_gap_reachable) _) 3%nat _).
  - reflexivity.
  - vm_compute; discriminate.
Defined.

(** The session day of an instant, as a rounding formula. *)
Lemma effective_date_formula c now :
  in_u64 now -> 0 <= reset_hour c < 24 -> 0 <= reset_minute c < 60 ->
  let offset := match mode c with kFixedLocalTime => utc_offset_seconds c | _ => 0 end in
  - 2147483648 <= offset <= 2147483647 -> 0 <= now / 1000000000 + offset ->
  effective_date c now =
    (now / 1000000000 + offset - (reset_hour c * 3600 + reset_minute c * 60)) / 86400.
Proof.
  intros Hn Hh Hm offset Ho Hp. unfold effective_date.
  assert (Hq : 0 <= now / 1000000000 <= 18446744073) by dlia.
  rewrite (i64_small (now / 1000000000)) by lia.
  assert (match mode c with kFixedLocalTime => i64 (now / 1000000000 + utc_offset_seconds c)
          | _ => now / 1000000000 end = now / 1000000000 + offset) as ->.
  { unfold offset in *. destruct (mode c); rewrite ?i64_small; lia. }
  set (a := now / 1000000000 + offset) in *.
  rewrite (Z.quot_div_nonneg a 86400), (Z.rem_mod_nonneg a 86400) by lia.
  assert (Ht : 0 <= a mod 86400 < 86400) by (apply Z.mod_pos_bound; lia).
  assert (Ha : a = 86400 * (a / 86400) + a mod 86400) by (apply Z.div_mod; lia).
  assert (Hr : - 4294967296 <= a <= 4294967296 * 10) by lia.
  set (t := a mod 86400) in *. set (d := a / 86400) in *. clearbody t d a. clear Hq Hn.
  rewrite (Z.quot_div_nonneg t 3600), (Z.rem_mod_nonneg t 3600) by lia.
  rewrite (Z.quot_div_nonneg (t mod 3600) 60) by dlia.
  rewrite !i32_small by dlia.
  destruct (_ || _) eqn:E.
  - apply Z.div_unique with (r := t - (reset_hour c * 3600 + reset_minute c * 60)); [|lia].
    apply orb_true_iff in E. rewrite andb_true_iff in E. left. destruct E as [E|[E1 E2]]; bool_to_prop; dlia.
  - apply Z.div_unique with (r := t + 86400 - (reset_hour c * 3600 + reset_minute c * 60)); [|lia].
    apply orb_false_iff in E as [E1 E2]. rewrite andb_false_iff in E2. left.
    destruct E2 as [E2|E2]; bool_to_prop; dlia.
Qed.

Lemma CheckDayCut_config now s : day_cut_config (CheckDayCut now s) = day_cut_config s.
Proof. unfold CheckDayCut, TriggerDayCut. repeat split_if; done. Qed.

Lemma CheckDayCut_date now s :
  timed_day_cut (mode (day_cut_config s)) = true ->
  last_day_cut_date (CheckDayCut now s) =
    if last_day_cut_date s <? 0 then effective_date (day_cut_config s) now
    else Z.max (last_day_cut_date s) (effective_date (day_cut_config s) now).
Proof.
  intros Ht. unfold CheckDayCut, TriggerDayCut. rewrite Ht. cbn [negb].
  destruct (last_day_cut_date s <? 0) eqn:?; [done|].
  destruct (_ <=? _) eqn:?; bool_to_prop; [lia|]. split_if; cbn; lia.
Qed.

Lemma CheckDayCut_stale now s :
  0 <= last_day_cut_date s -> effective_date (day_cut_config s) now <= last_day_cut_date s ->
  CheckDayCut now s = s.
Proof.
  intros H1 H2. unfold CheckDayCut. split_if; [done|].
  destruct (last_day_cut_date s <? 0) eqn:?; bool_to_prop; [lia|].
  destruct (_ <=? _) eqn:?; bool_to_prop; [done|lia].
Qed.

(** In the two timed modes with a reset time in [00:00 .. 23:59], an instant
    belongs to the session day that starts at the reset time; a check in a
    later session day than the last one resets both counters of a disconnected
    or active session to 1 and drops the pending range, and any further check
    up to the end of that session day changes nothing. *)
Theorem day_cut_once_per_day s now :
  let c := day_cut_config s in
  let offset := match mode c with kFixedLocalTime => utc_offset_seconds c | _ => 0 end in
  let day t := (t / 1000000000 + offset - (reset_hour c * 3600 + reset_minute c * 60)) / 86400 in
  timed_day_cut (mode c) = true -> 0 <= reset_hour c < 24 -> 0 <= reset_minute c < 60 ->
  - 2147483648 <= offset <= 2147483647 ->
  in_u64 now -> 0 <= now / 1000000000 + offset ->
  0 <= last_day_cut_date s < day now ->
  state s = kDisconnected \/ state s = kActive ->
  next_in_seq (CheckDayCut now s) = 1 /\ next_out_seq (CheckDayCut now s) = 1 /\
  pending_resend (CheckDayCut now s) = None /\ state (CheckDayCut now s) = state s /\
  forall now', in_u64 now' -> 0 <= now' / 1000000000 + offset -> day now' <= day now ->
    CheckDayCut now' (CheckDayCut now s) = CheckDayCut now s.
Proof.
  intros c offset day Ht Hh Hm Ho Hn Hp Hd Hs.
  assert (Hday : forall t, in_u64 t -> 0 <= t / 1000000000 + offset -> effective_date c t = day t)
    by (intros; by apply effective_date_formula).
  assert (Hcut : CheckDayCut now s = fst (TriggerDayCut (set_last_day_cut_date s (day now)))).
  { unfold CheckDayCut. fold c. rewrite Ht, Hday by done. cbn [negb].
    destruct (last_day_cut_date s <? 0) eqn:?; bool_to_prop; [lia|].
    destruct (_ <=? _) eqn:?; bool_to_prop; [lia|done]. }
  assert (Htr : CheckDayCut now s = set_pending_resend (set_next_out_seq (set_next_in_seq
                  (set_last_day_cut_date s (day now)) 1) 1) None).
  { rewrite Hcut. unfold TriggerDayCut. cbn. destruct Hs as [-> | ->]; done. }
  rewrite Htr. cbn. repeat split; try done.
  intros now' Hn' Hp' Hle. apply CheckDayCut_stale; cbn; [lia|].
  change (effective_date c now' <= day now). by rewrite Hday.
Qed.

Definition demo_daycut : SessionCore :=
  set_last_day_cut_date (set_day_cut_config
    (set_next_out_seq (set_next_in_seq (set_state (NewSessionCore demo_config) kActive) 40) 55)
    (MkDayCut kFixedUtcTime 17 30 0)) 19000.

Lemma day_cut_once_per_day_witness :
  next_in_seq (CheckDayCut 1700000000000000000 demo_daycut) = 1 /\
  next_out_seq (CheckDayCut 1700000000000000000 demo_daycut) = 1.
Proof.
  destruct (day_cut_once_per_day demo_daycut 1700000000000000000) as (H1 & H2 & _);
    [vm_compute; repeat split; (reflexivity || discriminate).. | by right | ].
  split; [exact H1|exact H2].
Defined.

(** A day cut that falls while the session is neither disconnected nor
    active is lost: the check records the new session day but keeps the
    counters, and no later check of that session day resets them, also when the
    session is active again. *)
Theorem day_cut_lost_while_busy s now :
  timed_day_cut (mode (day_cut_config s)) = true ->
  0 <= last_day_cut_date s < effective_date (day_cut_config s) now ->
  state s <> kDisconnected -> state s <> kActive ->
  next_in_seq (CheckDayCut now s) = next_in_seq s /\
  next_out_seq (CheckDayCut now s) = next_out_seq s /\
  forall now', effective_date (day_cut_config s) now' <= effective_date (day_cut_config s) now ->
    CheckDayCut now' (set_state (CheckDayCut now s) kActive) = set_state (CheckDayCut now s) kActive.
Proof.
  intros Ht Hd H1 H2.
  assert (Hcut : CheckDayCut now s = set_last_day_cut_date s (effective_date (day_cut_config s) now)).
  { unfold CheckDayCut. rewrite Ht. cbn [negb].
    destruct (last_day_cut_date s <? 0) eqn:?; bool_to_prop; [lia|].
    destruct (_ <=? _) eqn:?; bool_to_prop; [lia|].
    unfold TriggerDayCut. cbn. on_state s; done. }
  rewrite Hcut. repeat split; try done.
  intros now' Hle. apply CheckDayCut_stale; cbn; [lia|done].
Qed.

Lemma day_cut_lost_while_busy_witness :
  next_out_seq (CheckDayCut 1700000000000000000 (set_state demo_daycut kPendingLogon)) = 55.
Proof.
  destruct (day_cut_lost_while_busy (set_state demo_daycut kPendingLogon) 1700000000000000000)
    as (_ & H & _);
    [vm_compute; repeat split; (reflexivity || discriminate).. | discriminate | discriminate | exact H].
Defined.

(** The inbound counter has no overflow guard: consuming inbound number
    [UINT32_MAX] succeeds and wraps the expected number to 0, a value every
    other operation refuses as invalid; the next gap then asks for a resend
    that starts at number 0. *)
Theorem inbound_counter_wraps s n :
  sequencing_state (state s) = true -> next_in_seq s = UINT32_MAX -> pending_resend s = None ->
  0 < n <= UINT32_MAX ->
  snd (ObserveInboundSeq UINT32_MAX s) = status.Ok /\
  next_in_seq (fst (ObserveInboundSeq UINT32_MAX s)) = 0 /\
  (state s <> kResendProcessing ->
   pending_resend (fst (ObserveInboundSeq n (fst (ObserveInboundSeq UINT32_MAX s)))) =
     Some (MkRange 0 (n - 1))).
Proof.
  intros Hs Hin Hp Hn.
  assert (Ho : ObserveInboundSeq UINT32_MAX s = (set_next_in_seq s 0, status.Ok)).
  { unfold ObserveInboundSeq. rewrite Hs, Hin. cbn. unfold finish_covered_resend. cbn. by rewrite Hp. }
  rewrite Ho. repeat split. intros Hr. cbn [fst]. unfold ObserveInboundSeq. cbn. rewrite Hs. cbn [negb].
  destruct (n <? 0) eqn:?; bool_to_prop; [lia|]. destruct (n >? 0) eqn:?; bool_to_prop; [|lia].
  rewrite Hp. cbn. rewrite u32_small by ulia. done.
Qed.

Definition demo_wrap : SessionCore :=
  set_next_in_seq (set_state (NewSessionCore demo_config) kActive) UINT32_MAX.

Lemma inbound_counter_wraps_witness :
  next_in_seq (fst (ObserveInboundSeq UINT32_MAX demo_wrap)) = 0 /\
  (state demo_wrap <> kResendProcessing ->
   pending_resend (fst (ObserveInboundSeq 3 (fst (ObserveInboundSeq UINT32_MAX demo_wrap)))) =
     Some (MkRange 0 (3 - 1))).
Proof.
  destruct (inbound_counter_wraps demo_wrap 3 eq_refl eq_refl eq_refl ltac:(ulia)) as (_ & H1 & H2).
  split; [exact H1|exact H2].
Defined.

(** The calls that handle inbound traffic and resend progress. *)
Definition progress_op (op : Op) : bool :=
  match op with
  | OpObserveInboundSeq _ | OpAdvanceInboundExpectedSeq _ | OpCompleteResend
  | OpAllocateOutboundSeq | OpRecordInboundActivity _ | OpRecordOutboundActivity _
  | OpConsumeResendCompleted | OpConsumeWarmupMessage | OpBeginRecovery | OpFinishRecovery
  | OpOnLogonAccepted | OpTriggerDayCut | OpCheckDayCut _ => true
  | _ => false
  end.

Definition stuck_in_resend (s : SessionCore) : Prop :=
  (state s = kResendProcessing \/ state s = kRecovering) /\ resume_state s = kResendProcessing.

Lemma stuck_in_resend_step s op :
  progress_op op = true -> stuck_in_resend s -> stuck_in_resend (exec op s).
Proof.
  unfold stuck_in_resend. intros Hp [Hs Hr]. destruct op; try discriminate Hp; cbn [exec].
  all: unfold FinishRecovery, BeginRecovery, AdvanceInboundExpectedSeq, OnLogonAccepted,
    AllocateOutboundSeq, CompleteResend, RecordInboundActivity, RecordOutboundActivity,
    ConsumeWarmupMessage, ConsumeResendCompleted, CheckDayCut, TriggerDayCut, ObserveInboundSeq,
    finish_covered_resend.
  all: destruct Hs as [Hs|Hs]; cbn; rewrite ?Hs, ?Hr; cbn; repeat (split_if; cbn); rewrite ?Hs, ?Hr; auto.
Qed.

(** Recovering in the middle of a resend loses the state to resume: the
    saved state is overwritten by resend processing itself, and from then on
    no inbound message, sequence advance, resend completion or further
    recovery brings the session back to the active state. *)
Theorem recovery_during_resend_sticks s ops :
  state s = kResendProcessing -> forallb progress_op ops = true ->
  state (run ops (exec OpBeginRecovery s)) = kResendProcessing \/
  state (run ops (exec OpBeginRecovery s)) = kRecovering.
Proof.
  intros Hs Hops.
  assert (H0 : stuck_in_resend (exec OpBeginRecovery s)).
  { unfold stuck_in_resend. cbn. unfold BeginRecovery. rewrite Hs. cbn. auto. }
  revert H0. generalize (exec OpBeginRecovery s) as t. clear s Hs.
  induction ops as [|op ops IH]; intros t Ht; [apply Ht|].
  cbn in Hops. apply andb_true_iff in Hops as [H1 H2]. cbn [run fold_left].
  apply (IH H2). by apply stuck_in_resend_step.
Qed.

Lemma recovery_during_resend_sticks_witness :
  state (run [OpFinishRecovery; OpCompleteResend; OpObserveInboundSeq 2] (exec OpBeginRecovery demo_gap))
    = kResendProcessing \/
  state (run [OpFinishRecovery; OpCompleteResend; OpObserveInboundSeq 2] (exec OpBeginRecovery demo_gap))
    = kRecovering.
Proof. apply recovery_during_resend_sticks; reflexivity. Defined.
