(* ===== verification/SessionStore.v ===== *)
(** * The persistence contract

    [include/public/nimblefix/store/session_store.h]: message records, recovery
    snapshots and the virtual interface [SessionStore].  The interface is a
    class of operations ([SessionStore]); its default method bodies are
    functions over those operations; the contract the header states is a second
    class ([SessionStoreSpec]) whose laws speak about an abstract view of the
    store, one [AbsSession] per session id.  Clients ([ResendRecovery]) are
    verified against the laws; [MemoryStore] provides an instance. *)
From S2P Require Import Prelude Base StdAlgo.

Definition kAdmin : Z := 1.
Definition kPossDup : Z := 2.
Definition kGapFillRecord : Z := 4.

(** An owned record.  [flags] is a [uint16_t] bit set, the payload a byte list. *)
Record MessageRecord := MkRecord {
  rec_session_id : Z;
  rec_seq_num : Z;
  rec_timestamp_ns : Z;
  rec_flags : Z;
  rec_payload : list Z;
  rec_body_start_offset : Z;
}.

(** A borrowed record: the same members with a span into other storage.  Its
    payload is the bytes the span reads while the storage is alive. *)
Record MessageRecordView := MkView {
  v_session_id : Z;
  v_seq_num : Z;
  v_timestamp_ns : Z;
  v_flags : Z;
  v_payload : list Z;
  v_body_start_offset : Z;
}.

#[export] Instance MessageRecord_eq_dec : EqDecision MessageRecord.
Proof. solve_decision. Defined.
#[export] Instance MessageRecordView_eq_dec : EqDecision MessageRecordView.
Proof. solve_decision. Defined.

Definition is_admin (r : MessageRecordView) : bool := negb (Z.land (v_flags r) kAdmin =? 0).
Definition is_gap_fill (r : MessageRecordView) : bool := negb (Z.land (v_flags r) kGapFillRecord =? 0).

Definition ToOwned (v : MessageRecordView) : MessageRecord :=
  MkRecord (v_session_id v) (v_seq_num v) (v_timestamp_ns v) (v_flags v) (v_payload v)
    (v_body_start_offset v).

Definition record_view (r : MessageRecord) : MessageRecordView :=
  MkView (rec_session_id r) (rec_seq_num r) (rec_timestamp_ns r) (rec_flags r) (rec_payload r)
    (rec_body_start_offset r).

Record SessionRecoveryState := MkRecovery {
  r_session_id : Z;
  r_next_in_seq : Z;
  r_next_out_seq : Z;
  r_last_inbound_ns : Z;
  r_last_outbound_ns : Z;
  r_active : bool;
}.

#[export] Instance SessionRecoveryState_eq_dec : EqDecision SessionRecoveryState.
Proof. solve_decision. Defined.

(** The pure virtual methods and the overridable ones. *)
Class SessionStore (S : Type) := {
  Flush : S -> S * Status;
  Rollover : S -> S * Status;
  Refresh : S -> S * Status;
  ResetSession : Z -> S -> S * Status;
  SaveOutboundView : MessageRecordView -> S -> S * Status;
  SaveInboundView : MessageRecordView -> S -> S * Status;
  LoadOutboundRange : S -> Z -> Z -> Z -> Result (list MessageRecord);
  LoadOutboundRangeViews : S -> Z -> Z -> Z -> Result (list MessageRecordView);
  LoadInboundRange : S -> Z -> Z -> Z -> Result (list MessageRecord);
  SaveRecoveryState : SessionRecoveryState -> S -> S * Status;
  SaveInboundViewAndRecoveryState : MessageRecordView -> SessionRecoveryState -> S -> S * Status;
  SaveOutboundViewAndRecoveryState : MessageRecordView -> SessionRecoveryState -> S -> S * Status;
  LoadRecoveryState : S -> Z -> Result SessionRecoveryState;
}.

(** The default method bodies of the interface. *)
Section Defaults.
Context {S : Type}.

Definition default_ok (s : S) : S * Status := (s, status.Ok).

Definition default_LoadOutboundRangeViews
    (load : S -> Z -> Z -> Z -> Result (list MessageRecord)) (s : S) (id b e : Z)
    : Result (list MessageRecordView) :=
  match load s id b e with
  | Error st => Error st
  | Value owned => Value (map record_view owned)
  end.

Definition default_SaveViewAndRecoveryState
    (save : MessageRecordView -> S -> S * Status)
    (save_recovery : SessionRecoveryState -> S -> S * Status)
    (r : MessageRecordView) (st : SessionRecoveryState) (s : S) : S * Status :=
  let '(s1, status1) := save r s in
  if negb (status.ok status1) then (s1, status1) else save_recovery st s1.
End Defaults.

(** ** The contract *)

(** What a store remembers of one session. *)
Record AbsSession := MkAbs {
  a_outbound : gmap Z MessageRecord;
  a_inbound : list MessageRecord;
  a_recovery : option SessionRecoveryState;
}.

Definition abs_empty : AbsSession := MkAbs ∅ [] None.

Definition record_valid (v : MessageRecordView) : bool :=
  negb (v_session_id v =? 0) && negb (v_seq_num v =? 0).

Definition abs_save_outbound (v : MessageRecordView) (a : AbsSession) : AbsSession :=
  MkAbs (<[v_seq_num v := ToOwned v]> (a_outbound a)) (a_inbound a) (a_recovery a).
Definition abs_save_inbound (v : MessageRecordView) (a : AbsSession) : AbsSession :=
  MkAbs (a_outbound a) (a_inbound a ++ [ToOwned v]) (a_recovery a).
Definition abs_save_recovery (r : SessionRecoveryState) (a : AbsSession) : AbsSession :=
  MkAbs (a_outbound a) (a_inbound a) (Some r).

Definition range_valid (b e : Z) : bool := negb ((b =? 0) || (e =? 0) || (b >? e)).

(** The outbound records of an inclusive range, in sequence order. *)
Definition abs_outbound_range (a : AbsSession) (b e : Z) : list MessageRecord :=
  omap (fun q => a_outbound a !! q) (zseq b (Z.to_nat (e - b + 1))).

(** The inbound records of an inclusive range: by sequence number, those of one
    number in the order they were saved. *)
Definition abs_inbound_range (a : AbsSession) (b e : Z) : list MessageRecord :=
  stable_sort rec_seq_num (filter (fun r => b <= rec_seq_num r <= e) (a_inbound a)).

Definition upd (f : Z -> AbsSession) (id : Z) (a : AbsSession) : Z -> AbsSession :=
  fun id' => if decide (id' = id) then a else f id'.

Class SessionStoreSpec (S : Type) `{SessionStore S} := {
  store_ok : S -> Prop;
  store_view : S -> Z -> AbsSession;

  view_keys s id q r : store_ok s -> a_outbound (store_view s id) !! q = Some r -> rec_seq_num r = q;

  reset_spec s id : store_ok s ->
    store_ok (fst (ResetSession id s)) /\ snd (ResetSession id s) = status.Ok /\
    forall id', store_view (fst (ResetSession id s)) id' = upd (store_view s) id abs_empty id';

  save_outbound_spec s v : store_ok s ->
    let r := SaveOutboundView v s in
    store_ok (fst r) /\
    if record_valid v
    then snd r = status.Ok /\
         forall id, store_view (fst r) id =
           upd (store_view s) (v_session_id v) (abs_save_outbound v (store_view s (v_session_id v))) id
    else status.ok (snd r) = false /\ fst r = s;

  save_inbound_spec s v : store_ok s ->
    let r := SaveInboundView v s in
    store_ok (fst r) /\
    if record_valid v
    then snd r = status.Ok /\
         forall id, store_view (fst r) id =
           upd (store_view s) (v_session_id v) (abs_save_inbound v (store_view s (v_session_id v))) id
    else status.ok (snd r) = false /\ fst r = s;

  save_recovery_spec s rs : store_ok s ->
    let r := SaveRecoveryState rs s in
    store_ok (fst r) /\
    if negb (r_session_id rs =? 0)
    then snd r = status.Ok /\
         forall id, store_view (fst r) id =
           upd (store_view s) (r_session_id rs) (abs_save_recovery rs (store_view s (r_session_id rs))) id
    else status.ok (snd r) = false /\ fst r = s;

  load_outbound_spec s id b e : store_ok s ->
    if range_valid b e
    then LoadOutboundRange s id b e = Value (abs_outbound_range (store_view s id) b e)
    else result_ok (LoadOutboundRange s id b e) = false;

  load_outbound_views_spec s id b e : store_ok s ->
    if range_valid b e
    then LoadOutboundRangeViews s id b e =
           Value (map record_view (abs_outbound_range (store_view s id) b e))
    else result_ok (LoadOutboundRangeViews s id b e) = false;

  load_inbound_spec s id b e : store_ok s ->
    if range_valid b e
    then LoadInboundRange s id b e = Value (abs_inbound_range (store_view s id) b e)
    else result_ok (LoadInboundRange s id b e) = false;

  load_recovery_spec s id : store_ok s ->
    match a_recovery (store_view s id) with
    | Some r => LoadRecoveryState s id = Value r
    | None => exists m, LoadRecoveryState s id = Error (status.NotFound m)
    end;

  save_inbound_and_recovery_spec s v rs : store_ok s ->
    let r := SaveInboundViewAndRecoveryState v rs s in
    store_ok (fst r) /\
    (record_valid v = true -> r_session_id rs = v_session_id v ->
     snd r = status.Ok /\
     forall id, store_view (fst r) id =
       upd (store_view s) (v_session_id v)
         (abs_save_recovery rs (abs_save_inbound v (store_view s (v_session_id v)))) id);

  save_outbound_and_recovery_spec s v rs : store_ok s ->
    let r := SaveOutboundViewAndRecoveryState v rs s in
    store_ok (fst r) /\
    (record_valid v = true -> r_session_id rs = v_session_id v ->
     snd r = status.Ok /\
     forall id, store_view (fst r) id =
       upd (store_view s) (v_session_id v)
         (abs_save_recovery rs (abs_save_outbound v (store_view s (v_session_id v)))) id);

  rollover_spec s : store_ok s ->
    store_ok (fst (Rollover s)) /\ snd (Rollover s) = status.Ok /\
    forall id, store_view (fst (Rollover s)) id = store_view s id;
}.

(** ** Facts about the abstract view *)

Lemma upd_same f id a : upd f id a id = a.
Proof. unfold upd. by rewrite decide_True. Qed.
Lemma upd_other f id a id' : id' <> id -> upd f id a id' = f id'.
Proof. intros. unfold upd. by rewrite decide_False. Qed.
#[export] Hint Rewrite upd_same : nimble.

Lemma ToOwned_record_view r : ToOwned (record_view r) = r.
Proof. by destruct r. Qed.

Lemma abs_outbound_range_elem a b e q r :
  b <= q <= e -> a_outbound a !! q = Some r -> r ∈ abs_outbound_range a b e.
Proof.
  intros Hq Hr. unfold abs_outbound_range. apply list_elem_of_omap. exists q. split; [|done].
  apply elem_of_zseq. lia.
Qed.
