(* ===== verification/MemoryStore.v ===== *)
(** * The in-memory session store

    [include/public/nimblefix/store/memory_store.h] and
    [src/store/memory_store.cpp].  Per session: two vectors of stored records
    whose payloads are offset/size ranges of one append-only byte arena, and
    the recovery snapshot.  The file ends with the instance of
    [SessionStoreSpec]: the store implements the contract of [SessionStore.v],
    arena, offsets, ordered upsert and compaction included.  Vector capacities
    ([reserve]) have no observable effect and no model. *)
From S2P Require Import Prelude Base StdAlgo SessionStore.

Record StoredMessageRecord := MkStored {
  s_seq_num : Z;
  s_timestamp_ns : Z;
  s_flags : Z;
  s_payload_offset : nat;
  s_payload_size : nat;
  s_body_start_offset : Z;
}.

Record SessionData := MkData {
  outbound : list StoredMessageRecord;
  inbound : list StoredMessageRecord;
  payload_arena : list Z;
  recovery : SessionRecoveryState;
  has_recovery : bool;
}.

Definition default_recovery : SessionRecoveryState := MkRecovery 0 1 1 0 0 false.
Definition new_session_data : SessionData := MkData [] [] [] default_recovery false.

(** [MemorySessionStore]: its only member [sessions_]. *)
Record MemorySessionStore := MkMemory { sessions : gmap Z SessionData }.

Definition empty_memory_store : MemorySessionStore := MkMemory ∅.

Definition ValidateRecordView (v : MessageRecordView) : Status :=
  if v_session_id v =? 0 then status.InvalidArgument "message record is missing session_id"
  else if v_seq_num v =? 0 then status.InvalidArgument "message record is missing seq_num"
  else status.Ok.

(** Returns the grown arena with the offset and size of the appended bytes. *)
Definition AppendPayload (arena payload : list Z) : list Z * (nat * nat) :=
  (arena ++ payload, (length arena, length payload)).

Definition MakeStoredRecord (arena : list Z) (v : MessageRecordView) : list Z * StoredMessageRecord :=
  let '(arena', (offset, size)) := AppendPayload arena (v_payload v) in
  (arena', MkStored (v_seq_num v) (v_timestamp_ns v) (v_flags v) offset size (v_body_start_offset v)).

Definition MaterializeRecord (id : Z) (arena : list Z) (r : StoredMessageRecord) : MessageRecord :=
  MkRecord id (s_seq_num r) (s_timestamp_ns r) (s_flags r)
    (slice arena (s_payload_offset r) (s_payload_size r)) (s_body_start_offset r).

Definition ViewRecord (id : Z) (arena : list Z) (r : StoredMessageRecord) : MessageRecordView :=
  MkView id (s_seq_num r) (s_timestamp_ns r) (s_flags r)
    (slice arena (s_payload_offset r) (s_payload_size r)) (s_body_start_offset r).

(** [records.insert(it, x)]. *)
Definition vector_insert {A} (it : nat) (x : A) (l : list A) : list A := take it l ++ x :: drop it l.

Definition UpsertBySequence (records : list StoredMessageRecord) (arena : list Z) (v : MessageRecordView)
    : list StoredMessageRecord * list Z :=
  let it := lower_bound (fun existing => s_seq_num existing <? v_seq_num v) records in
  let '(arena', stored) := MakeStoredRecord arena v in
  match records !! it with
  | Some existing =>
      if s_seq_num existing =? v_seq_num v
      then (<[it := stored]> records, arena')
      else (vector_insert it stored records, arena')
  | None => (vector_insert it stored records, arena')
  end.

(** [sessions_[id]]: inserts a fresh entry when there is none. *)
Definition session_at (m : MemorySessionStore) (id : Z) : SessionData :=
  default new_session_data (sessions m !! id).
Definition put_session (m : MemorySessionStore) (id : Z) (d : SessionData) : MemorySessionStore :=
  MkMemory (<[id := d]> (sessions m)).

Definition mem_SaveOutboundView (v : MessageRecordView) (m : MemorySessionStore) : MemorySessionStore * Status :=
  let st := ValidateRecordView v in
  if negb (status.ok st) then (m, st)
  else
    let d := session_at m (v_session_id v) in
    let '(out, arena) := UpsertBySequence (outbound d) (payload_arena d) v in
    (put_session m (v_session_id v) (MkData out (inbound d) arena (recovery d) (has_recovery d)), status.Ok).

Definition mem_SaveInboundView (v : MessageRecordView) (m : MemorySessionStore) : MemorySessionStore * Status :=
  let st := ValidateRecordView v in
  if negb (status.ok st) then (m, st)
  else
    let d := session_at m (v_session_id v) in
    let '(arena, stored) := MakeStoredRecord (payload_arena d) v in
    (put_session m (v_session_id v)
       (MkData (outbound d) (inbound d ++ [stored]) arena (recovery d) (has_recovery d)), status.Ok).

Definition mem_SaveOutbound (r : MessageRecord) (m : MemorySessionStore) : MemorySessionStore * Status :=
  mem_SaveOutboundView (record_view r) m.
Definition mem_SaveInbound (r : MessageRecord) (m : MemorySessionStore) : MemorySessionStore * Status :=
  mem_SaveInboundView (record_view r) m.

(** The loop shared by the three outbound loads: [continue] below the range,
    [break] above it. *)
Fixpoint collect_range {B} (b e : Z) (f : StoredMessageRecord -> B) (l : list StoredMessageRecord) : list B :=
  match l with
  | [] => []
  | r :: l' =>
      if s_seq_num r <? b then collect_range b e f l'
      else if s_seq_num r >? e then []
      else f r :: collect_range b e f l'
  end.

Definition mem_LoadOutboundRange (m : MemorySessionStore) (id b e : Z) : Result (list MessageRecord) :=
  if (b =? 0) || (e =? 0) || (b >? e) then Error (status.InvalidArgument "invalid outbound load range")
  else match sessions m !! id with
       | None => Value []
       | Some d => Value (collect_range b e (MaterializeRecord id (payload_arena d)) (outbound d))
       end.

Definition mem_LoadOutboundRangeViews (m : MemorySessionStore) (id b e : Z) : Result (list MessageRecordView) :=
  if (b =? 0) || (e =? 0) || (b >? e) then Error (status.InvalidArgument "invalid outbound load range")
  else match sessions m !! id with
       | None => Value []
       | Some d => Value (collect_range b e (ViewRecord id (payload_arena d)) (outbound d))
       end.

Fixpoint collect_inbound (b e id : Z) (arena : list Z) (l : list StoredMessageRecord) : list MessageRecord :=
  match l with
  | [] => []
  | r :: l' =>
      if (s_seq_num r >=? b) && (s_seq_num r <=? e)
      then MaterializeRecord id arena r :: collect_inbound b e id arena l'
      else collect_inbound b e id arena l'
  end.

Definition mem_LoadInboundRange (m : MemorySessionStore) (id b e : Z) : Result (list MessageRecord) :=
  if (b =? 0) || (e =? 0) || (b >? e) then Error (status.InvalidArgument "invalid inbound load range")
  else match sessions m !! id with
       | None => Value []
       | Some d => Value (stable_sort rec_seq_num (collect_inbound b e id (payload_arena d) (inbound d)))
       end.

Definition ReserveAdditionalSessionStorage (id : Z) (m : MemorySessionStore) : MemorySessionStore :=
  put_session m id (session_at m id).

Definition mem_SaveRecoveryState (st : SessionRecoveryState) (m : MemorySessionStore) : MemorySessionStore * Status :=
  if r_session_id st =? 0 then (m, status.InvalidArgument "recovery state is missing session_id")
  else
    let d := session_at m (r_session_id st) in
    (put_session m (r_session_id st) (MkData (outbound d) (inbound d) (payload_arena d) st true), status.Ok).

Definition mem_SaveInboundViewAndRecoveryState (v : MessageRecordView) (rs : SessionRecoveryState)
    (m : MemorySessionStore) : MemorySessionStore * Status :=
  let st := ValidateRecordView v in
  if negb (status.ok st) then (m, st)
  else
    let d := session_at m (v_session_id v) in
    let '(arena, stored) := MakeStoredRecord (payload_arena d) v in
    (put_session m (v_session_id v) (MkData (outbound d) (inbound d ++ [stored]) arena rs true), status.Ok).

Definition mem_LoadRecoveryState (m : MemorySessionStore) (id : Z) : Result SessionRecoveryState :=
  match sessions m !! id with
  | None => Error (status.NotFound "recovery state not found")
  | Some d => if negb (has_recovery d) then Error (status.NotFound "recovery state not found")
              else Value (recovery d)
  end.

Definition mem_ResetSession (id : Z) (m : MemorySessionStore) : MemorySessionStore * Status :=
  (MkMemory (delete id (sessions m)), status.Ok).

(** The lambda [compact_records]: copies each live payload to the end of the
    new arena and repoints the record. *)
Fixpoint compact_records (arena new_arena : list Z) (records : list StoredMessageRecord)
    : list StoredMessageRecord * list Z :=
  match records with
  | [] => ([], new_arena)
  | r :: rs =>
      let r' := MkStored (s_seq_num r) (s_timestamp_ns r) (s_flags r) (length new_arena)
                  (s_payload_size r) (s_body_start_offset r) in
      let '(rs', final) :=
        compact_records arena (new_arena ++ slice arena (s_payload_offset r) (s_payload_size r)) rs in
      (r' :: rs', final)
  end.

Definition rollover_session (d : SessionData) : SessionData :=
  let '(out, arena1) := compact_records (payload_arena d) [] (outbound d) in
  let '(inb, arena2) := compact_records (payload_arena d) arena1 (inbound d) in
  MkData out inb arena2 (recovery d) (has_recovery d).

Definition mem_Rollover (m : MemorySessionStore) : MemorySessionStore * Status :=
  (MkMemory (rollover_session <$> sessions m), status.Ok).

#[export] Instance MemorySessionStore_ops : SessionStore MemorySessionStore := {|
  Flush := default_ok;
  Rollover := mem_Rollover;
  Refresh := default_ok;
  ResetSession := mem_ResetSession;
  SaveOutboundView := mem_SaveOutboundView;
  SaveInboundView := mem_SaveInboundView;
  LoadOutboundRange := mem_LoadOutboundRange;
  LoadOutboundRangeViews := mem_LoadOutboundRangeViews;
  LoadInboundRange := mem_LoadInboundRange;
  SaveRecoveryState := mem_SaveRecoveryState;
  SaveInboundViewAndRecoveryState := mem_SaveInboundViewAndRecoveryState;
  SaveOutboundViewAndRecoveryState :=
    default_SaveViewAndRecoveryState mem_SaveOutboundView mem_SaveRecoveryState;
  LoadRecoveryState := mem_LoadRecoveryState;
|}.

(** ** The invariant of the representation *)

Definition in_arena (arena : list Z) (r : StoredMessageRecord) : Prop :=
  (s_payload_offset r + s_payload_size r <= length arena)%nat.

Record data_ok (d : SessionData) : Prop := {
  ok_sorted : increasing s_seq_num (outbound d);
  ok_out : Forall (in_arena (payload_arena d)) (outbound d);
  ok_in : Forall (in_arena (payload_arena d)) (inbound d);
}.

Definition memory_ok (m : MemorySessionStore) : Prop := map_Forall (fun _ d => data_ok d) (sessions m).

Definition abs_out (id : Z) (arena : list Z) (l : list StoredMessageRecord) : gmap Z MessageRecord :=
  list_to_map (map (fun r => (s_seq_num r, MaterializeRecord id arena r)) l).

Definition abs_data (id : Z) (d : SessionData) : AbsSession :=
  MkAbs (abs_out id (payload_arena d) (outbound d))
        (map (MaterializeRecord id (payload_arena d)) (inbound d))
        (if has_recovery d then Some (recovery d) else None).

Definition memory_view (m : MemorySessionStore) (id : Z) : AbsSession := abs_data id (session_at m id).

(** ** Lemmas: the arena *)

Lemma in_arena_app arena p r : in_arena arena r -> in_arena (arena ++ p) r.
Proof. unfold in_arena. rewrite length_app. lia. Qed.

Lemma Forall_in_arena_app arena p l : Forall (in_arena arena) l -> Forall (in_arena (arena ++ p)) l.
Proof. intros H. eapply Forall_impl; [exact H|]. intros; by apply in_arena_app. Qed.

Lemma materialize_app id arena p r :
  in_arena arena r -> MaterializeRecord id (arena ++ p) r = MaterializeRecord id arena r.
Proof. intros H. unfold MaterializeRecord. by rewrite slice_app_l. Qed.

Lemma map_materialize_app id arena p l :
  Forall (in_arena arena) l ->
  map (MaterializeRecord id (arena ++ p)) l = map (MaterializeRecord id arena) l.
Proof. induction 1; cbn; [done|]. by rewrite materialize_app, IHForall. Qed.

Lemma abs_out_arena_app id arena p l :
  Forall (in_arena arena) l -> abs_out id (arena ++ p) l = abs_out id arena l.
Proof.
  intros H. unfold abs_out. f_equal. induction H; cbn; [done|].
  by rewrite materialize_app, IHForall.
Qed.

Lemma stored_in_arena arena v : in_arena (arena ++ v_payload v) (snd (MakeStoredRecord arena v)).
Proof. unfold in_arena. cbn. rewrite length_app. lia. Qed.

Lemma materialize_stored arena v :
  MaterializeRecord (v_session_id v) (arena ++ v_payload v) (snd (MakeStoredRecord arena v)) = ToOwned v.
Proof. unfold MaterializeRecord. cbn. by rewrite slice_app_r. Qed.

Lemma ViewRecord_materialize id arena r :
  ViewRecord id arena r = record_view (MaterializeRecord id arena r).
Proof. done. Qed.

(** ** Lemmas: the ordered upsert *)

Lemma abs_out_app id arena l1 l2 : abs_out id arena (l1 ++ l2) = abs_out id arena l1 ∪ abs_out id arena l2.
Proof. unfold abs_out. by rewrite map_app, list_to_map_app. Qed.

Lemma abs_out_cons id arena r l :
  abs_out id arena (r :: l) = <[s_seq_num r := MaterializeRecord id arena r]> (abs_out id arena l).
Proof. done. Qed.

Lemma abs_out_below id arena l q :
  Forall (fun r => s_seq_num r < q) l -> abs_out id arena l !! q = None.
Proof.
  intros H. unfold abs_out. apply not_elem_of_list_to_map_1.
  intros (kv & Hq & (r & -> & Hr)%list_elem_of_fmap)%list_elem_of_fmap. cbn in Hq.
  rewrite Forall_forall in H. specialize (H r Hr). lia.
Qed.

(** The shape of an upsert: everything below the key, the new record,
    everything above it. *)
Lemma upsert_shape l arena v :
  increasing s_seq_num l ->
  exists pre old post,
    l = pre ++ old ++ post /\ Forall (fun r => s_seq_num r < v_seq_num v) pre /\
    Forall (fun r => v_seq_num v < s_seq_num r) post /\
    (old = [] \/ exists x, old = [x] /\ s_seq_num x = v_seq_num v) /\
    UpsertBySequence l arena v =
      (pre ++ snd (MakeStoredRecord arena v) :: post, arena ++ v_payload v).
Proof.
  intros Hl. destruct (increasing_split _ _ (v_seq_num v) Hl) as (pre & post & -> & Hpre & Hpost).
  assert (Hlb : lower_bound (fun x => s_seq_num x <? v_seq_num v) (pre ++ post) = length pre).
  { apply lower_bound_app; eapply Forall_impl; eauto; cbn; intros; [by apply Z.ltb_lt | by apply Z.ltb_ge]. }
  unfold UpsertBySequence. rewrite Hlb. cbn [MakeStoredRecord AppendPayload].
  rewrite lookup_app_r, Nat.sub_diag by done.
  apply increasing_app in Hl as (_ & Hpost2 & _).
  destruct post as [|x post]; cbn [lookup list_lookup].
  - exists pre, [], []. repeat split; auto. unfold vector_insert. by rewrite take_app_length, drop_app_length.
  - inversion Hpost as [|? ? Hx Hpost']; subst. apply increasing_cons in Hpost2 as [_ Hgt].
    destruct (s_seq_num x =? v_seq_num v) eqn:E; bool_to_prop.
    + exists pre, [x], post. repeat split; eauto.
      * eapply Forall_impl; [exact Hgt|]. cbn; lia.
      * f_equal. rewrite insert_app_r_alt, Nat.sub_diag by done. done.
    + exists pre, [], (x :: post). repeat split; auto.
      * constructor; [lia|]. eapply Forall_impl; [exact Hgt|]. cbn; lia.
      * unfold vector_insert. by rewrite take_app_length, drop_app_length.
Qed.

Lemma upsert_spec d v :
  data_ok d ->
  let out := fst (UpsertBySequence (outbound d) (payload_arena d) v) in
  let arena := snd (UpsertBySequence (outbound d) (payload_arena d) v) in
  arena = payload_arena d ++ v_payload v /\ increasing s_seq_num out /\ Forall (in_arena arena) out /\
  abs_out (v_session_id v) arena out =
    <[v_seq_num v := ToOwned v]> (abs_out (v_session_id v) (payload_arena d) (outbound d)).
Proof.
  intros [Hs Ho _]. destruct (upsert_shape _ (payload_arena d) v Hs) as (pre & old & post & El & Hpre & Hpost & Hold & ->).
  rewrite El in *. cbn [fst snd]. set (st := snd (MakeStoredRecord _ v)).
  assert (Hkey : s_seq_num st = v_seq_num v) by done.
  rewrite !Forall_app in Ho. destruct Ho as (Ho1 & Ho2 & Ho3).
  split; [done|]. split; [|split].
  - apply increasing_app in Hs as (H1 & H2 & H3). apply increasing_app in H2 as (_ & H2 & _).
    apply increasing_app. split; [done|]. split.
    + apply increasing_cons. split; [done|]. by rewrite Hkey.
    + rewrite Forall_forall in *. intros x Hx. constructor; [rewrite Hkey; by apply Hpre|].
      specialize (H3 x Hx). rewrite Forall_app in H3. apply H3.
  - rewrite Forall_app, Forall_cons. repeat split; try (by apply Forall_in_arena_app).
    apply stored_in_arena.
  - rewrite !abs_out_app, abs_out_cons, Hkey, !abs_out_arena_app by done.
    unfold st. rewrite materialize_stored.
    rewrite <- insert_union_r by (by apply abs_out_below).
    destruct Hold as [->|(x & -> & Hx)].
    + replace (abs_out (v_session_id v) (payload_arena d) []) with (∅ : gmap Z MessageRecord) by done.
      by rewrite (left_id_L ∅ (∪)).
    + rewrite (abs_out_cons _ _ x []), Hx.
      replace (abs_out (v_session_id v) (payload_arena d) []) with (∅ : gmap Z MessageRecord) by done.
      rewrite <- insert_union_l, (left_id_L ∅ (∪)), <- insert_union_r by (by apply abs_out_below).
      by rewrite insert_insert_eq.
Qed.

(** ** Lemmas: range loads *)

(** Every later record lies above the first one. *)
Ltac above Hr := eapply Forall_impl; [exact Hr|]; cbn; intros; lia.

Lemma filter_none {A} (P : A -> Prop) `{!forall x, Decision (P x)} l :
  Forall (fun x => ~ P x) l -> filter P l = [].
Proof. induction 1; [done|]. by rewrite filter_cons_False. Qed.

Lemma collect_range_filter {B} b e (f : StoredMessageRecord -> B) l :
  increasing s_seq_num l ->
  collect_range b e f l = map f (filter (fun r => b <= s_seq_num r < e + 1) l).
Proof.
  induction l as [|r l IH]; intros Hl; [done|]. apply increasing_cons in Hl as [Hl Hr].
  cbn [collect_range]. destruct (_ <? _) eqn:E1; bool_to_prop.
  - rewrite filter_cons_False by lia. auto.
  - destruct (_ >? _) eqn:E2; bool_to_prop.
    + rewrite filter_cons_False, filter_none by first [lia | above Hr]. done.
    + rewrite filter_cons_True by lia. cbn. by rewrite IH.
Qed.

Lemma filter_range_split l b e :
  increasing s_seq_num l -> b < e ->
  filter (fun r => b <= s_seq_num r < e) l =
    filter (fun r => s_seq_num r = b) l ++ filter (fun r => b + 1 <= s_seq_num r < e) l.
Proof.
  induction l as [|r l IH]; intros Hl Hb; [done|]. apply increasing_cons in Hl as [Hl Hr].
  rewrite !filter_cons. destruct (decide (s_seq_num r = b)) as [E|E].
  - rewrite decide_True, (decide_False (P := b + 1 <= _ < _)) by lia. cbn. f_equal.
    rewrite (filter_none (fun r => s_seq_num r = b)); [cbn|above Hr].
    rewrite IH, (filter_none (fun r => s_seq_num r = b)) by first [done | above Hr].
    done.
  - destruct (decide (b <= s_seq_num r < e)).
    + rewrite decide_True by lia. rewrite IH by done.
      rewrite !(filter_none (fun r => s_seq_num r = b)) by above Hr. done.
    + rewrite decide_False by lia. by apply IH.
Qed.

Lemma filter_eq_lookup id arena l b :
  increasing s_seq_num l ->
  map (MaterializeRecord id arena) (filter (fun r => s_seq_num r = b) l) =
    option_list (abs_out id arena l !! b).
Proof.
  induction l as [|r l IH]; intros Hl; [done|]. apply increasing_cons in Hl as [Hl Hr].
  rewrite abs_out_cons, filter_cons. destruct (decide (s_seq_num r = b)) as [E|E].
  - rewrite filter_none by above Hr.
    rewrite E, lookup_insert_eq. done.
  - rewrite lookup_insert_ne by done. by apply IH.
Qed.

Lemma range_omap id arena l n : forall b,
  increasing s_seq_num l ->
  map (MaterializeRecord id arena) (filter (fun r => b <= s_seq_num r < b + Z.of_nat n) l) =
    omap (fun q => abs_out id arena l !! q) (zseq b n).
Proof.
  induction n as [|n IH]; intros b Hl.
  - rewrite filter_none; [done|]. apply Forall_forall. intros; lia.
  - rewrite zseq_S, filter_range_split, map_app, filter_eq_lookup by (done || lia).
    replace (b + Z.of_nat (S n)) with (b + 1 + Z.of_nat n) by lia. rewrite IH by done.
    cbn. by destruct (abs_out id arena l !! b).
Qed.

Lemma collect_range_spec id d b e :
  data_ok d -> b <= e ->
  collect_range b e (MaterializeRecord id (payload_arena d)) (outbound d) =
    abs_outbound_range (abs_data id d) b e.
Proof.
  intros [Hs _ _] Hb. rewrite collect_range_filter by done.
  unfold abs_outbound_range. cbn. rewrite <- range_omap by done.
  by replace (b + Z.of_nat (Z.to_nat (e - b + 1))) with (e + 1) by lia.
Qed.

Lemma collect_range_map {A B} b e (f : StoredMessageRecord -> A) (g : A -> B) l :
  collect_range b e (fun r => g (f r)) l = map g (collect_range b e f l).
Proof. induction l as [|r l IH]; [done|]. cbn. repeat split_if; cbn; by rewrite ?IH. Qed.

Lemma collect_inbound_filter b e id arena l :
  collect_inbound b e id arena l =
    filter (fun r => b <= rec_seq_num r <= e) (map (MaterializeRecord id arena) l).
Proof.
  induction l as [|r l IH]; [done|]. cbn [collect_inbound map]. rewrite filter_cons. cbn.
  destruct (_ && _) eqn:E; bool_to_prop.
  - rewrite decide_True by (cbn; lia). by rewrite IH.
  - rewrite decide_False; [done|]. apply andb_false_iff in E as [E|E]; bool_to_prop; lia.
Qed.

(** ** Lemmas: compaction *)

Lemma compact_records_spec id arena l : forall new_arena,
  Forall (in_arena arena) l ->
  let l' := fst (compact_records arena new_arena l) in
  let final := snd (compact_records arena new_arena l) in
  (exists ext, final = new_arena ++ ext /\ length ext = sum_list (map s_payload_size l)) /\
  map s_seq_num l' = map s_seq_num l /\ Forall (in_arena final) l' /\
  map (MaterializeRecord id final) l' = map (MaterializeRecord id arena) l.
Proof.
  induction l as [|r l IH]; intros new_arena Hl; cbn [compact_records].
  - cbn. split; [exists []; by rewrite app_nil_r|done].
  - inversion Hl as [|? ? Hr Hl']; subst.
    set (pay := slice arena (s_payload_offset r) (s_payload_size r)).
    assert (Hlen : length pay = s_payload_size r) by (by apply length_slice).
    destruct (IH (new_arena ++ pay) Hl') as ((ext & Hext & Hle) & Hk & Ha & Hm).
    destruct (compact_records arena (new_arena ++ pay) l) as [rs final]. cbn in *. subst final.
    set (r' := MkStored _ _ _ _ _ _).
    assert (Hin : in_arena ((new_arena ++ pay) ++ ext) r').
    { unfold in_arena. cbn. rewrite !length_app. lia. }
    split; [exists (pay ++ ext); rewrite app_assoc, length_app; split; [done|lia]|].
    split; [by f_equal|]. split; [by constructor|].
    f_equal; [|done]. unfold MaterializeRecord, r'. cbn. f_equal.
    rewrite slice_app_l by (rewrite length_app; lia).
    transitivity (slice (new_arena ++ pay) (length new_arena) (length pay)); [by rewrite Hlen|].
    apply slice_app_r.
Qed.

Lemma increasing_keys l l' :
  map s_seq_num l' = map s_seq_num l -> increasing s_seq_num l -> increasing s_seq_num l'.
Proof.
  revert l'. induction l as [|r l IH]; intros [|r' l'] E Hl; try discriminate; [done|].
  cbn in E. injection E as E1 E2. apply increasing_cons in Hl as [Hl Hr].
  apply increasing_cons. split; [by apply IH|].
  rewrite Forall_forall in *. intros x Hx.
  assert (s_seq_num x ∈ map s_seq_num l) as (y & -> & Hy)%list_elem_of_fmap.
  { rewrite <- E2. apply list_elem_of_fmap. eauto. }
  rewrite E1. by apply Hr.
Qed.

Lemma abs_out_from_keys id arena l :
  abs_out id arena l = list_to_map (zip (map s_seq_num l) (map (MaterializeRecord id arena) l)).
Proof. unfold abs_out. f_equal. induction l; cbn; by f_equal. Qed.

Lemma rollover_session_spec id d :
  data_ok d ->
  data_ok (rollover_session d) /\ abs_data id (rollover_session d) = abs_data id d /\
  length (payload_arena (rollover_session d)) =
    (sum_list (map s_payload_size (outbound d)) + sum_list (map s_payload_size (inbound d)))%nat.
Proof.
  intros [Hs Ho Hi]. unfold rollover_session.
  destruct (compact_records_spec id _ _ [] Ho) as ((e1 & E1 & L1) & K1 & A1 & M1).
  destruct (compact_records (payload_arena d) [] (outbound d)) as [out a1]. cbn in *. subst a1.
  destruct (compact_records_spec id _ _ e1 Hi) as ((e2 & E2 & L2) & K2 & A2 & M2).
  destruct (compact_records (payload_arena d) e1 (inbound d)) as [inb a2]. cbn in *. subst a2.
  split; [|split].
  - split; cbn; [by eapply increasing_keys|by apply Forall_in_arena_app|done].
  - unfold abs_data. cbn [outbound inbound payload_arena recovery has_recovery].
    assert (abs_out id (e1 ++ e2) out = abs_out id (payload_arena d) (outbound d)) as ->; [|by rewrite M2].
    rewrite abs_out_arena_app, !abs_out_from_keys by done. by rewrite K1, M1.
  - rewrite length_app. lia.
Qed.

(** ** The contract instance *)

Lemma validate_ok v : status.ok (ValidateRecordView v) = record_valid v.
Proof. unfold ValidateRecordView, record_valid. destruct (_ =? 0); [done|]. by destruct (_ =? 0). Qed.

Lemma session_at_ok m id : memory_ok m -> data_ok (session_at m id).
Proof.
  intros H. unfold session_at. destruct (sessions m !! id) as [d|] eqn:E; cbn; [by eapply H|].
  split; cbn; constructor.
Qed.

Lemma put_session_ok m id d : memory_ok m -> data_ok d -> memory_ok (put_session m id d).
Proof. intros H Hd. by apply map_Forall_insert_2. Qed.

Lemma put_session_view m id d id' :
  memory_view (put_session m id d) id' = upd (memory_view m) id (abs_data id d) id'.
Proof.
  unfold memory_view, session_at, put_session, upd. cbn. rewrite lookup_insert.
  case_decide; subst; [by rewrite decide_True | by rewrite decide_False].
Qed.

Lemma save_inbound_data_ok d v :
  data_ok d ->
  data_ok (MkData (outbound d) (inbound d ++ [snd (MakeStoredRecord (payload_arena d) v)])
             (payload_arena d ++ v_payload v) (recovery d) (has_recovery d)) /\
  map (MaterializeRecord (v_session_id v) (payload_arena d ++ v_payload v))
      (inbound d ++ [snd (MakeStoredRecord (payload_arena d) v)]) =
  map (MaterializeRecord (v_session_id v) (payload_arena d)) (inbound d) ++ [ToOwned v].
Proof.
  intros [Hs Ho Hi]. split.
  - split; cbn [outbound inbound payload_arena]; [done|by apply Forall_in_arena_app|].
    rewrite Forall_app, Forall_singleton. split; [by apply Forall_in_arena_app|apply stored_in_arena].
  - rewrite map_app, map_materialize_app by done. cbn [map]. by rewrite materialize_stored.
Qed.

Lemma mem_save_outbound m v : memory_ok m ->
  let r := mem_SaveOutboundView v m in
  memory_ok (fst r) /\
  if record_valid v
  then snd r = status.Ok /\
       forall id, memory_view (fst r) id =
         upd (memory_view m) (v_session_id v) (abs_save_outbound v (memory_view m (v_session_id v))) id
  else status.ok (snd r) = false /\ fst r = m.
Proof.
  intros Hm. unfold mem_SaveOutboundView. rewrite validate_ok.
  destruct (record_valid v) eqn:Hv; cbn [negb].
  - pose proof (session_at_ok m (v_session_id v) Hm) as Hd.
    destruct (upsert_spec _ v Hd) as (Ha & Hs & Hin & Habs).
    destruct (UpsertBySequence _ _ v) as [out arena]. cbn in *. subst arena.
    split; [apply put_session_ok; [done|]; split; cbn; [done|done|by apply Forall_in_arena_app, Hd]|].
    split; [done|]. intros id. rewrite put_session_view. f_equal.
    unfold abs_data, abs_save_outbound. cbn. rewrite Habs, map_materialize_app by apply Hd. done.
  - split; [done|]. split; [|done]. cbn. by rewrite validate_ok.
Qed.

Lemma mem_save_inbound m v : memory_ok m ->
  let r := mem_SaveInboundView v m in
  memory_ok (fst r) /\
  if record_valid v
  then snd r = status.Ok /\
       forall id, memory_view (fst r) id =
         upd (memory_view m) (v_session_id v) (abs_save_inbound v (memory_view m (v_session_id v))) id
  else status.ok (snd r) = false /\ fst r = m.
Proof.
  intros Hm. unfold mem_SaveInboundView. rewrite validate_ok.
  destruct (record_valid v) eqn:Hv; cbn [negb].
  - pose proof (session_at_ok m (v_session_id v) Hm) as Hd.
    destruct (save_inbound_data_ok _ v Hd) as [Hok Habs].
    unfold MakeStoredRecord, AppendPayload in *. cbn [fst snd] in *.
    split; [by apply put_session_ok|]. split; [done|]. intros id. rewrite put_session_view. f_equal.
    unfold abs_data, abs_save_inbound. cbn [outbound inbound payload_arena fst snd].
    rewrite abs_out_arena_app by apply Hd. f_equal. exact Habs.
  - split; [done|]. split; [|done]. cbn. by rewrite validate_ok.
Qed.

Lemma mem_save_recovery m rs : memory_ok m ->
  let r := mem_SaveRecoveryState rs m in
  memory_ok (fst r) /\
  if negb (r_session_id rs =? 0)
  then snd r = status.Ok /\
       forall id, memory_view (fst r) id =
         upd (memory_view m) (r_session_id rs) (abs_save_recovery rs (memory_view m (r_session_id rs))) id
  else status.ok (snd r) = false /\ fst r = m.
Proof.
  intros Hm. unfold mem_SaveRecoveryState. destruct (r_session_id rs =? 0); cbn; [done|].
  pose proof (session_at_ok m (r_session_id rs) Hm) as [].
  split; [by apply put_session_ok|]. split; [done|]. intros id. by rewrite put_session_view.
Qed.

Lemma mem_save_inbound_and_recovery m v rs : memory_ok m ->
  let r := mem_SaveInboundViewAndRecoveryState v rs m in
  memory_ok (fst r) /\
  (record_valid v = true -> r_session_id rs = v_session_id v ->
   snd r = status.Ok /\
   forall id, memory_view (fst r) id =
     upd (memory_view m) (v_session_id v)
       (abs_save_recovery rs (abs_save_inbound v (memory_view m (v_session_id v)))) id).
Proof.
  intros Hm. unfold mem_SaveInboundViewAndRecoveryState. rewrite validate_ok.
  destruct (record_valid v) eqn:Hv; cbn [negb]; [|done].
  pose proof (session_at_ok m (v_session_id v) Hm) as Hd.
  destruct (save_inbound_data_ok _ v Hd) as [[] Habs].
  unfold MakeStoredRecord, AppendPayload in *. cbn [fst snd] in *.
  split; [by apply put_session_ok|]. intros _ _. split; [done|]. intros id. rewrite put_session_view. f_equal.
  unfold abs_data, abs_save_recovery, abs_save_inbound. cbn [outbound inbound payload_arena fst snd has_recovery recovery].
  rewrite abs_out_arena_app by apply Hd. f_equal. exact Habs.
Qed.

Lemma upd_upd f id a b id' : upd (upd f id a) id b id' = upd f id b id'.
Proof. unfold upd. by case_decide. Qed.

Lemma save_then_recovery m v rs : memory_ok m ->
  let r := default_SaveViewAndRecoveryState mem_SaveOutboundView mem_SaveRecoveryState v rs m in
  memory_ok (fst r) /\
  (record_valid v = true -> r_session_id rs = v_session_id v ->
   snd r = status.Ok /\
   forall id, memory_view (fst r) id =
     upd (memory_view m) (v_session_id v)
       (abs_save_recovery rs (abs_save_outbound v (memory_view m (v_session_id v)))) id).
Proof.
  intros Hm. unfold default_SaveViewAndRecoveryState.
  destruct (mem_save_outbound m v Hm) as [H1 H2].
  destruct (mem_SaveOutboundView v m) as [m1 st1]. cbn [fst snd] in *.
  destruct (mem_save_recovery m1 rs H1) as [H3 H4].
  destruct (status.ok st1) eqn:Hok; cbn [negb].
  - split; [done|]. intros Hv Hid. rewrite Hv in H2. destruct H2 as [_ H2].
    assert (Hnz : r_session_id rs <> 0).
    { unfold record_valid in Hv. bool_to_prop. by rewrite Hid. }
    destruct (r_session_id rs =? 0) eqn:E; bool_to_prop; [done|]. cbn in H4. destruct H4 as [-> H4].
    split; [done|]. intros id. rewrite H4, Hid.
    destruct (decide (id = v_session_id v)) as [->|Hn].
    + by rewrite !upd_same, H2, upd_same.
    + by rewrite !upd_other, H2, upd_other.
  - split; [done|]. intros Hv _. rewrite Hv in H2. destruct H2 as [-> _]. done.
Qed.

Lemma range_valid_le b e : range_valid b e = true -> b <= e.
Proof. unfold range_valid. intros H. bool_to_prop. lia. Qed.

Lemma mem_load_outbound m id b e : memory_ok m ->
  if range_valid b e
  then mem_LoadOutboundRange m id b e = Value (abs_outbound_range (memory_view m id) b e)
  else result_ok (mem_LoadOutboundRange m id b e) = false.
Proof.
  intros Hm. unfold mem_LoadOutboundRange, memory_view, session_at.
  destruct (range_valid b e) eqn:Hr; unfold range_valid in Hr;
    [apply negb_true_iff in Hr | apply negb_false_iff in Hr]; rewrite Hr; [|done].
  assert (b <= e) by (bool_to_prop; lia).
  destruct (sessions m !! id) as [d|] eqn:E; cbn [default from_option].
  - f_equal. apply collect_range_spec; [by eapply Hm|done].
  - f_equal. unfold abs_outbound_range. cbn. induction (zseq _ _); [done|]. cbn. done.
Qed.

Lemma mem_load_outbound_views m id b e : memory_ok m ->
  if range_valid b e
  then mem_LoadOutboundRangeViews m id b e =
         Value (map record_view (abs_outbound_range (memory_view m id) b e))
  else result_ok (mem_LoadOutboundRangeViews m id b e) = false.
Proof.
  intros Hm. pose proof (mem_load_outbound m id b e Hm) as H. revert H.
  unfold mem_LoadOutboundRange, mem_LoadOutboundRangeViews, range_valid.
  destruct (_ || _ || _); cbn [negb]; [done|].
  destruct (sessions m !! id) as [d|]; intros [= <-]; [|done].
  f_equal. apply (collect_range_map b e (MaterializeRecord id (payload_arena d)) record_view).
Qed.

Lemma mem_load_inbound m id b e :
  if range_valid b e
  then mem_LoadInboundRange m id b e = Value (abs_inbound_range (memory_view m id) b e)
  else result_ok (mem_LoadInboundRange m id b e) = false.
Proof.
  unfold mem_LoadInboundRange, memory_view, session_at, abs_inbound_range, range_valid.
  destruct (_ || _ || _); cbn [negb]; [done|].
  destruct (sessions m !! id) as [d|]; cbn [default from_option]; [|done].
  by rewrite collect_inbound_filter.
Qed.

Lemma mem_load_recovery m id :
  match a_recovery (memory_view m id) with
  | Some r => mem_LoadRecoveryState m id = Value r
  | None => exists msg, mem_LoadRecoveryState m id = Error (status.NotFound msg)
  end.
Proof.
  unfold mem_LoadRecoveryState, memory_view, session_at.
  destruct (sessions m !! id) as [d|]; cbn; [|eauto]. destruct (has_recovery d); cbn; eauto.
Qed.

Lemma mem_reset m id : memory_ok m ->
  memory_ok (fst (mem_ResetSession id m)) /\ snd (mem_ResetSession id m) = status.Ok /\
  forall id', memory_view (fst (mem_ResetSession id m)) id' = upd (memory_view m) id abs_empty id'.
Proof.
  intros Hm. split; [by apply map_Forall_delete|]. split; [done|]. intros id'.
  unfold memory_view, session_at, upd. cbn. rewrite lookup_delete.
  case_decide; subst; [by rewrite decide_True|by rewrite decide_False].
Qed.

Lemma mem_rollover m : memory_ok m ->
  memory_ok (fst (mem_Rollover m)) /\ snd (mem_Rollover m) = status.Ok /\
  forall id, memory_view (fst (mem_Rollover m)) id = memory_view m id.
Proof.
  intros Hm. split; [|split; [done|]].
  - intros id d. cbn. rewrite lookup_fmap_Some. intros (d0 & <- & Hd).
    apply (rollover_session_spec id). by eapply Hm.
  - intros id. unfold memory_view, session_at. cbn. rewrite lookup_fmap.
    destruct (sessions m !! id) as [d|] eqn:E; cbn; [|done].
    apply rollover_session_spec. by eapply Hm.
Qed.

Lemma abs_out_keys id arena l q r : abs_out id arena l !! q = Some r -> rec_seq_num r = q.
Proof.
  induction l as [|x l IH]; [done|]. rewrite abs_out_cons, lookup_insert.
  case_decide; [intros [= <-]; done|auto].
Qed.

#[export] Instance MemorySessionStore_spec : SessionStoreSpec MemorySessionStore := {|
  store_ok := memory_ok;
  store_view := memory_view;
  view_keys := fun m id q r _ H => abs_out_keys _ _ _ q r H;
  reset_spec := mem_reset;
  save_outbound_spec := mem_save_outbound;
  save_inbound_spec := mem_save_inbound;
  save_recovery_spec := mem_save_recovery;
  load_outbound_spec := mem_load_outbound;
  load_outbound_views_spec := mem_load_outbound_views;
  load_inbound_spec := fun m id b e _ => mem_load_inbound m id b e;
  load_recovery_spec := fun m id _ => mem_load_recovery m id;
  save_inbound_and_recovery_spec := mem_save_inbound_and_recovery;
  save_outbound_and_recovery_spec := save_then_recovery;
  rollover_spec := mem_rollover;
|}.

(** ** Properties *)

(** A history of calls on the store, and the abstract sessions it leaves. *)
Inductive StoreOp :=
  | StSaveOutbound (v : MessageRecordView) | StSaveInbound (v : MessageRecordView)
  | StSaveRecovery (r : SessionRecoveryState) | StReset (id : Z) | StRollover
  | StReserve (id : Z)
  | StSaveInboundAndRecovery (v : MessageRecordView) (r : SessionRecoveryState)
  | StSaveOutboundAndRecovery (v : MessageRecordView) (r : SessionRecoveryState).

Definition store_exec (op : StoreOp) (m : MemorySessionStore) : MemorySessionStore :=
  match op with
  | StSaveOutbound v => fst (mem_SaveOutboundView v m)
  | StSaveInbound v => fst (mem_SaveInboundView v m)
  | StSaveRecovery r => fst (mem_SaveRecoveryState r m)
  | StReset id => fst (mem_ResetSession id m)
  | StRollover => fst (mem_Rollover m)
  | StReserve id => ReserveAdditionalSessionStorage id m
  | StSaveInboundAndRecovery v r => fst (mem_SaveInboundViewAndRecoveryState v r m)
  | StSaveOutboundAndRecovery v r => fst (default_SaveViewAndRecoveryState mem_SaveOutboundView mem_SaveRecoveryState v r m)
  end.

(** What a call means: a record goes to its session, a recovery state to the
    session it names; a refused record leaves everything as it is. *)
Definition abs_recovery (r : SessionRecoveryState) (f : Z -> AbsSession) : Z -> AbsSession :=
  if negb (r_session_id r =? 0) then upd f (r_session_id r) (abs_save_recovery r (f (r_session_id r))) else f.

Definition abs_record (save : MessageRecordView -> AbsSession -> AbsSession) (v : MessageRecordView) (f : Z -> AbsSession) : Z -> AbsSession :=
  upd f (v_session_id v) (save v (f (v_session_id v))).

Definition abs_exec (op : StoreOp) (f : Z -> AbsSession) : Z -> AbsSession :=
  match op with
  | StSaveOutbound v => if record_valid v then abs_record abs_save_outbound v f else f
  | StSaveInbound v => if record_valid v then abs_record abs_save_inbound v f else f
  | StSaveRecovery r => abs_recovery r f
  | StReset id => upd f id abs_empty
  | StRollover => f
  | StReserve _ => f
  | StSaveInboundAndRecovery v r => if record_valid v then abs_recovery r (abs_record abs_save_inbound v f) else f
  | StSaveOutboundAndRecovery v r => if record_valid v then abs_recovery r (abs_record abs_save_outbound v f) else f
  end.

(** A recovery state saved together with an inbound record is one of the record's
    session; the store puts it there whatever session it names. *)
Definition own_state (op : StoreOp) : Prop :=
  match op with StSaveInboundAndRecovery v r => r_session_id r = v_session_id v | _ => True end.

Definition store_run (ops : list StoreOp) : MemorySessionStore :=
  fold_left (fun m op => store_exec op m) ops empty_memory_store.
Definition abs_run (ops : list StoreOp) : Z -> AbsSession :=
  fold_left (fun f op => abs_exec op f) ops (fun _ => abs_empty).

Lemma abs_recovery_ext r f g : (forall id, f id = g id) -> forall id, abs_recovery r f id = abs_recovery r g id.
Proof. intros E id. unfold abs_recovery, upd. split_if; [|done]. by rewrite !E. Qed.
Lemma abs_record_ext save v f g : (forall id, f id = g id) -> forall id, abs_record save v f id = abs_record save v g id.
Proof. intros E id. unfold abs_record, upd. by rewrite !E. Qed.

Lemma abs_exec_ext op f g : (forall id, f id = g id) -> forall id, abs_exec op f id = abs_exec op g id.
Proof.
  intros E id. destruct op; cbn [abs_exec]; try (destruct (record_valid v); [|done]).
  all: repeat first [done|apply abs_recovery_ext|apply abs_record_ext|intros]. unfold upd. by rewrite E.
Qed.

Lemma record_valid_session v : record_valid v = true -> v_session_id v <> 0.
Proof. unfold record_valid. intros H. by bool_to_prop. Qed.

Lemma store_exec_refines op m :
  memory_ok m -> memory_ok (store_exec op m) /\
  (own_state op -> forall id, memory_view (store_exec op m) id = abs_exec op (memory_view m) id).
Proof.
  intros Hm. destruct op; cbn [store_exec abs_exec own_state].
  - destruct (mem_save_outbound m v Hm) as [H1 H2]. split; [done|]. intros _ id.
    destruct (record_valid v); [by apply H2|]. by destruct H2 as [_ ->].
  - destruct (mem_save_inbound m v Hm) as [H1 H2]. split; [done|]. intros _ id.
    destruct (record_valid v); [by apply H2|]. by destruct H2 as [_ ->].
  - destruct (mem_save_recovery m r Hm) as [H1 H2]. split; [done|]. intros _ id. unfold abs_recovery.
    destruct (negb _); [by apply H2|]. by destruct H2 as [_ ->].
  - destruct (mem_reset m id Hm) as (H1 & _ & H2). done.
  - destruct (mem_rollover m Hm) as (H1 & _ & H2). done.
  - split; [apply put_session_ok; [done|by apply session_at_ok]|]. intros _ id'.
    unfold ReserveAdditionalSessionStorage. rewrite put_session_view. unfold upd. by case_decide; subst.
  - destruct (mem_save_inbound_and_recovery m v r Hm) as [H1 H2]. split; [done|]. intros Hid id.
    destruct (record_valid v) eqn:Hv.
    + destruct (H2 eq_refl Hid) as [_ H3]. rewrite H3. unfold abs_recovery, abs_record. rewrite Hid.
      rewrite (proj2 (Z.eqb_neq _ _) (record_valid_session v Hv)). cbn [negb]. by rewrite upd_upd, upd_same.
    + unfold mem_SaveInboundViewAndRecoveryState. by rewrite validate_ok, Hv.
  - unfold default_SaveViewAndRecoveryState. destruct (mem_save_outbound m v Hm) as [H1 H2].
    destruct (mem_SaveOutboundView v m) as [m1 st1]. cbn [fst snd] in *.
    destruct (mem_save_recovery m1 r H1) as [H3 H4]. destruct (record_valid v).
    + destruct H2 as [-> H2]. change (negb (status.ok status.Ok)) with false. cbv iota. split; [done|]. intros _ id.
      transitivity (abs_recovery r (memory_view m1) id).
      * unfold abs_recovery. destruct (negb (r_session_id r =? 0)); [by apply H4|]. by destruct H4 as [_ ->].
      * by apply abs_recovery_ext.
    + destruct H2 as [-> ->]. done.
Qed.

Lemma store_fold_refines ops : forall f m,
  memory_ok m -> (forall id, memory_view m id = f id) ->
  memory_ok (fold_left (fun m op => store_exec op m) ops m) /\
  (Forall own_state ops -> forall id, memory_view (fold_left (fun m op => store_exec op m) ops m) id =
             fold_left (fun f op => abs_exec op f) ops f id).
Proof.
  induction ops as [|op ops IH]; intros f m Hm E; cbn; [done|].
  destruct (store_exec_refines op m Hm) as [H1 H2]. split; [by apply (IH (memory_view (store_exec op m)))|].
  intros [Ho Hos]%Forall_cons. apply (IH (abs_exec op f)); [done| |done].
  intros id. rewrite (H2 Ho). by apply abs_exec_ext.
Qed.

Lemma store_run_refines ops :
  memory_ok (store_run ops) /\ (Forall own_state ops -> forall id, memory_view (store_run ops) id = abs_run ops id).
Proof. apply store_fold_refines; [apply map_Forall_empty|done]. Qed.

(** C6: The memory store refines the abstract store.  After any history of
    saves (of records, of recovery states, and of a record together with a
    recovery state), resets, compactions and reservations, loading an outbound
    range returns exactly the records last saved under each sequence number of the
    range, in order and with the payload bytes that were saved, and loading an
    inbound range returns every saved record of the range ordered by sequence
    number; a session's recovery state is the last one saved for it since its last
    reset.  The one condition on the history: a recovery state saved together with
    an inbound record names the session of the record
    ([SaveInboundViewAndRecoveryState] does not look at the session it names).
    Records without a session or a number are refused and change nothing. *)
Theorem memory_store_refines ops id b e :
  Forall own_state ops -> range_valid b e = true ->
  mem_LoadOutboundRange (store_run ops) id b e = Value (abs_outbound_range (abs_run ops id) b e) /\
  mem_LoadOutboundRangeViews (store_run ops) id b e =
    Value (map record_view (abs_outbound_range (abs_run ops id) b e)) /\
  mem_LoadInboundRange (store_run ops) id b e = Value (abs_inbound_range (abs_run ops id) b e) /\
  (forall r, mem_LoadRecoveryState (store_run ops) id = Value r <-> a_recovery (abs_run ops id) = Some r).
Proof.
  intros Hown Hr. destruct (store_run_refines ops) as [Hm Hv]. specialize (Hv Hown). rewrite <- !Hv.
  pose proof (mem_load_outbound _ id b e Hm) as H1. rewrite Hr in H1.
  pose proof (mem_load_outbound_views _ id b e Hm) as H2. rewrite Hr in H2.
  pose proof (mem_load_inbound (store_run ops) id b e) as H3. rewrite Hr in H3.
  repeat split; try done.
  - intros H. pose proof (mem_load_recovery (store_run ops) id) as H4.
    destruct (a_recovery _); [congruence|]. destruct H4 as [? H4]. congruence.
  - intros H. pose proof (mem_load_recovery (store_run ops) id) as H4. by rewrite H in H4.
Qed.

Definition demo_rec (seq : Z) (bytes : list Z) : MessageRecordView := MkView 7 seq 100 0 bytes 0.
Definition demo_recovery (next_in : Z) : SessionRecoveryState := MkRecovery 7 next_in 4 100 100 true.
Definition demo_history : list StoreOp :=
  [StSaveOutbound (demo_rec 3 [33]); StSaveOutbound (demo_rec 1 [11; 12]); StRollover;
   StSaveOutbound (demo_rec 3 [34; 35; 36]); StSaveInboundAndRecovery (demo_rec 9 [99]) (demo_recovery 10);
   StSaveOutboundAndRecovery (demo_rec 4 [44]) (demo_recovery 11); StRollover].

Lemma memory_store_refines_witness :
  mem_LoadOutboundRange (store_run demo_history) 7 1 5 =
    Value (abs_outbound_range (abs_run demo_history 7) 1 5) /\
  map rec_payload (abs_outbound_range (abs_run demo_history 7) 1 5) = [[11; 12]; [34; 35; 36]; [44]] /\
  mem_LoadRecoveryState (store_run demo_history) 7 = Value (demo_recovery 11).
Proof.
  assert (Hown : Forall own_state demo_history) by (repeat constructor).
  destruct (memory_store_refines demo_history 7 1 5 Hown eq_refl) as (H1 & _ & _ & H2).
  split; [exact H1|]. split; [vm_compute; reflexivity|]. apply H2. vm_compute. reflexivity.
Defined.

(** Compaction keeps every record of every session byte for byte and
    leaves each arena exactly as long as its live payloads; the next compaction
    therefore finds nothing to reclaim. *)
Theorem rollover_compacts m id d :
  memory_ok m -> sessions m !! id = Some d ->
  (forall id', memory_view (fst (mem_Rollover m)) id' = memory_view m id') /\
  exists d', sessions (fst (mem_Rollover m)) !! id = Some d' /\
    length (payload_arena d') =
      (sum_list (map s_payload_size (outbound d)) + sum_list (map s_payload_size (inbound d)))%nat.
Proof.
  intros Hm Hd. destruct (mem_rollover m Hm) as (_ & _ & H). split; [done|].
  exists (rollover_session d). split; [cbn; by rewrite lookup_fmap, Hd|].
  apply (rollover_session_spec id). by eapply Hm.
Qed.

Definition demo_store : MemorySessionStore := store_run (take 4 demo_history).
Definition demo_data : SessionData := session_at demo_store 7.

Lemma rollover_compacts_witness :
  length (payload_arena demo_data) = 6%nat /\
  exists d', sessions (fst (mem_Rollover demo_store)) !! 7 = Some d' /\
    length (payload_arena d') =
      (sum_list (map s_payload_size (outbound demo_data)) + sum_list (map s_payload_size (inbound demo_data)))%nat.
Proof.
  split; [vm_compute; reflexivity|].
  refine (proj2 (rollover_compacts demo_store 7 demo_data (proj1 (store_run_refines _)) _)).
  vm_compute. reflexivity.
Defined.
