(* ===== verification/ResendRecovery.v ===== *)
(** * Replay planning and session recovery

    [include/public/nimblefix/session/resend_recovery.h] and
    [src/session/resend_recovery.cpp], over any store that implements the
    [SessionStore] operations; the theorems use only the laws of
    [SessionStoreSpec]. *)
From S2P Require Import Prelude Base StdAlgo TransportProfile SessionCore SessionStore MemoryStore.

Inductive RecoveryMode := kMemoryOnly | kWarmRestart | kColdStart | kNoRecovery.
Inductive ReplayActionKind := kReplay | kGapFill.

#[export] Instance RecoveryMode_eq_dec : EqDecision RecoveryMode.
Proof. solve_decision. Defined.
#[export] Instance ReplayActionKind_eq_dec : EqDecision ReplayActionKind.
Proof. solve_decision. Defined.

Definition kind_eqb (a b : ReplayActionKind) : bool :=
  match a, b with kReplay, kReplay | kGapFill, kGapFill => true | _, _ => false end.

Record ReplayChunk := MkChunk {
  kind : ReplayActionKind;
  c_begin_seq : Z;
  c_end_seq : Z;
  messages : list MessageRecord;
}.

Definition empty_chunk : ReplayChunk := MkChunk kGapFill 0 0 [].

Record ReplayPlan := MkPlan {
  p_session_id : Z;
  request_begin_seq : Z;
  request_end_seq : Z;
  chunks : list ReplayChunk;
}.

(** Pushes the chunk unless it is still empty, and resets it. *)
Definition FlushChunk (plan : list ReplayChunk) (chunk : ReplayChunk) : list ReplayChunk * ReplayChunk :=
  if (c_begin_seq chunk =? 0) || (c_end_seq chunk =? 0) then (plan, chunk)
  else (plan ++ [chunk], empty_chunk).

(** One round of the loop: the chunk list and current chunk after [seq_num]. *)
Definition extend_plan (seq_num : Z) (record : option MessageRecordView)
    (plan : list ReplayChunk) (current : ReplayChunk) : list ReplayChunk * ReplayChunk :=
  let should_gap_fill :=
    match record with None => true | Some r => is_admin r || is_gap_fill r end in
  let next_kind := if should_gap_fill then kGapFill else kReplay in
  let '(plan, current) :=
    if c_begin_seq current =? 0 then (plan, MkChunk next_kind seq_num seq_num (messages current))
    else if negb (kind_eqb (kind current) next_kind)
    then let '(plan, current) := FlushChunk plan current in
         (plan, MkChunk next_kind seq_num seq_num (messages current))
    else (plan, MkChunk (kind current) (c_begin_seq current) seq_num (messages current)) in
  match record with
  | Some r =>
      if should_gap_fill then (plan, current)
      else (plan, MkChunk (kind current) (c_begin_seq current) (c_end_seq current)
                    (messages current ++ [ToOwned r]))
  | None => (plan, current)
  end.

(** The [for] loop over [std::uint32_t seq_num]; [None] when the fuel runs out
    before the loop condition fails. *)
Fixpoint replay_loop (fuel : nat) (seq_num end_ : Z) (records : list MessageRecordView)
    (record_index : nat) (plan : list ReplayChunk) (current : ReplayChunk)
    : option (list ReplayChunk * ReplayChunk) :=
  match fuel with
  | O => None
  | S fuel =>
      if seq_num <=? end_ then
        let record :=
          match records !! record_index with
          | Some r => if v_seq_num r =? seq_num then Some r else None
          | None => None
          end in
        let '(plan, current) := extend_plan seq_num record plan current in
        replay_loop fuel (seq_num +u32 1) end_ records
          (match record with Some _ => S record_index | None => record_index end) plan current
      else Some (plan, current)
  end.

Section Plan.
Context {S : Type} `{SessionStore S}.

Definition BuildReplayPlan (fuel : nat) (store : S) (id begin_ end_ : Z) : option (Result ReplayPlan) :=
  if id =? 0 then Some (Error (status.InvalidArgument "replay plan requires a valid session id"))
  else if begin_ =? 0 then Some (Error (status.InvalidArgument "invalid replay range"))
  else
    let build (effective_end : Z) :=
      if begin_ >? effective_end then Some (Error (status.InvalidArgument "invalid replay range"))
      else match LoadOutboundRangeViews store id begin_ effective_end with
           | Error st => Some (Error st)
           | Value records =>
               match replay_loop fuel begin_ effective_end records 0 [] empty_chunk with
               | None => None
               | Some (plan, current) =>
                   Some (Value (MkPlan id begin_ effective_end (fst (FlushChunk plan current))))
               end
           end in
    if end_ =? 0 then
      match LoadRecoveryState store id with
      | Error st => Some (Error st)
      | Value r =>
          if r_next_out_seq r <=? 1 then Some (Value (MkPlan id begin_ 0 []))
          else build (r_next_out_seq r -u32 1)
      end
    else build end_.

Definition RecoverSession (store : S) (m : RecoveryMode) (session : SessionCore) : SessionCore * Status :=
  let '(s1, st) := BeginRecovery session in
  if negb (status.ok st) then (s1, st)
  else match m with
  | kMemoryOnly => FinishRecovery s1
  | kNoRecovery | kColdStart =>
      let '(s2, st) := RestoreSequenceState 1 1 s1 in
      if negb (status.ok st) then (s2, st)
      else
        let '(s3, st) := RecordInboundActivity 0 s2 in
        if negb (status.ok st) then (s3, st)
        else
          let '(s4, st) := RecordOutboundActivity 0 s3 in
          if negb (status.ok st) then (s4, st) else FinishRecovery s4
  | kWarmRestart =>
      match LoadRecoveryState store (session_id (config s1)) with
      | Error st => (s1, st)
      | Value r =>
          let '(s2, st) := RestoreSequenceState (r_next_in_seq r) (r_next_out_seq r) s1 in
          if negb (status.ok st) then (s2, st)
          else
            let '(s3, st) := RecordInboundActivity (r_last_inbound_ns r) s2 in
            if negb (status.ok st) then (s3, st)
            else
              let '(s4, st) := RecordOutboundActivity (r_last_outbound_ns r) s3 in
              if negb (status.ok st) then (s4, st) else FinishRecovery s4
      end
  end.
End Plan.

(** ** What a plan means *)

(** The reference: a number is replayed when the store has an application
    record for it, and gap-filled otherwise. *)
Definition replay_action (a : AbsSession) (q : Z) : option MessageRecord :=
  match a_outbound a !! q with
  | Some r => if is_admin (record_view r) || is_gap_fill (record_view r) then None else Some r
  | None => None
  end.

Definition chunk_seqs (c : ReplayChunk) : list Z :=
  zseq (c_begin_seq c) (Z.to_nat (c_end_seq c - c_begin_seq c + 1)).

Definition expand_chunk (c : ReplayChunk) : list (Z * option MessageRecord) :=
  match kind c with
  | kGapFill => map (fun q => (q, None)) (chunk_seqs c)
  | kReplay => zip (chunk_seqs c) (map Some (messages c))
  end.

Definition expand (cs : list ReplayChunk) : list (Z * option MessageRecord) := concat (map expand_chunk cs).

(** Neighbouring chunks differ in kind, so the plan is the shortest one. *)
Fixpoint alternating (cs : list ReplayChunk) : bool :=
  match cs with
  | c1 :: ((c2 :: _) as rest) => negb (kind_eqb (kind c1) (kind c2)) && alternating rest
  | _ => true
  end.

Definition chunk_ok (c : ReplayChunk) : Prop :=
  1 <= c_begin_seq c <= c_end_seq c /\
  match kind c with
  | kGapFill => messages c = []
  | kReplay => length (messages c) = Z.to_nat (c_end_seq c - c_begin_seq c + 1)
  end.

(** ** Lemmas: one round of the loop *)

Lemma kind_eqb_true a b : kind_eqb a b = true <-> a = b.
Proof. destruct a, b; cbn; split; congruence. Qed.
Lemma kind_eqb_false a b : kind_eqb a b = false <-> a <> b.
Proof. destruct a, b; cbn; split; congruence. Qed.

Lemma expand_app a b : expand (a ++ b) = expand a ++ expand b.
Proof. unfold expand. by rewrite map_app, concat_app. Qed.
Lemma expand_one c : expand [c] = expand_chunk c.
Proof. unfold expand. cbn. by rewrite app_nil_r. Qed.

Lemma alternating_kind plan c c' : kind c = kind c' -> alternating (plan ++ [c]) = alternating (plan ++ [c']).
Proof.
  intros E. induction plan as [|x [|y plan] IH]; cbn in *; [done|by rewrite E|].
  f_equal. exact IH.
Qed.

Lemma alternating_snoc plan c d :
  kind c <> kind d -> alternating (plan ++ [c]) = true -> alternating ((plan ++ [c]) ++ [d]) = true.
Proof.
  intros E. induction plan as [|x [|y plan] IH]; cbn in *; intros Ha.
  - apply kind_eqb_false in E. by rewrite E.
  - apply andb_true_iff in Ha as [-> _]. apply kind_eqb_false in E. by rewrite E.
  - apply andb_true_iff in Ha as [-> Ha]. cbn. by apply IH.
Qed.

(** The chunk under construction covers everything up to [seq - 1]. *)
Definition current_ok (seq : Z) (plan : list ReplayChunk) (cur : ReplayChunk) : Prop :=
  Forall chunk_ok plan /\
  ((cur = empty_chunk /\ plan = []) \/
   (chunk_ok cur /\ c_end_seq cur = seq - 1 /\ alternating (plan ++ [cur]) = true)).

Definition flushed (plan : list ReplayChunk) (cur : ReplayChunk) : list ReplayChunk :=
  fst (FlushChunk plan cur).

Lemma flushed_ok plan cur : chunk_ok cur -> flushed plan cur = plan ++ [cur].
Proof.
  intros [? _]. unfold flushed, FlushChunk.
  destruct (_ =? 0) eqn:?; bool_to_prop; [lia|]. destruct (_ =? 0) eqn:?; bool_to_prop; [lia|done].
Qed.

Definition action_of (record : option MessageRecordView) : option MessageRecord :=
  match record with
  | Some r => if is_admin r || is_gap_fill r then None else Some (ToOwned r)
  | None => None
  end.

(** The new chunk when a round opens one. *)
Definition opened (seq : Z) (act : option MessageRecord) : ReplayChunk :=
  match act with
  | Some r => MkChunk kReplay seq seq [r]
  | None => MkChunk kGapFill seq seq []
  end.

(** The chunk when a round extends it. *)
Definition extended (seq : Z) (act : option MessageRecord) (cur : ReplayChunk) : ReplayChunk :=
  match act with
  | Some r => MkChunk (kind cur) (c_begin_seq cur) seq (messages cur ++ [r])
  | None => MkChunk (kind cur) (c_begin_seq cur) seq (messages cur)
  end.

Definition kind_of (act : option MessageRecord) : ReplayActionKind :=
  match act with Some _ => kReplay | None => kGapFill end.

Lemma extend_plan_cases seq record plan cur :
  extend_plan seq record plan cur =
    if c_begin_seq cur =? 0 then
      (plan, MkChunk (kind_of (action_of record)) seq seq
               (messages cur ++ option_list (action_of record)))
    else if negb (kind_eqb (kind cur) (kind_of (action_of record))) then
      let '(plan', cur') := FlushChunk plan cur in
      (plan', MkChunk (kind_of (action_of record)) seq seq
                (messages cur' ++ option_list (action_of record)))
    else (plan, extended seq (action_of record) cur).
Proof.
  unfold extend_plan, action_of. destruct record as [r|]; cbn.
  - destruct (is_admin r || is_gap_fill r); cbn;
      destruct (_ =? 0); try (destruct (negb _); [destruct (FlushChunk plan cur)|]); cbn;
      rewrite ?app_nil_r; done.
  - destruct (_ =? 0); [|destruct (negb _); [destruct (FlushChunk plan cur)|]]; cbn; rewrite ?app_nil_r; done.
Qed.

Lemma opened_ok seq act : 1 <= seq -> chunk_ok (opened seq act) /\ expand_chunk (opened seq act) = [(seq, act)].
Proof.
  intros. unfold chunk_ok, expand_chunk, chunk_seqs.
  destruct act; cbn; replace (Z.to_nat (seq - seq + 1)) with 1%nat by lia; rewrite ?zseq_1; repeat split; try lia; done.
Qed.

Lemma extended_ok seq act cur :
  chunk_ok cur -> c_end_seq cur = seq - 1 -> kind cur = kind_of act ->
  chunk_ok (extended seq act cur) /\
  expand_chunk (extended seq act cur) = expand_chunk cur ++ [(seq, act)].
Proof.
  destruct cur as [k b e ms]. unfold chunk_ok, expand_chunk, chunk_seqs. cbn. intros [Hb Hk] -> ->.
  assert (Hn : Z.to_nat (seq - b + 1) = Datatypes.S (Z.to_nat (seq - 1 - b + 1))) by lia.
  destruct act as [r|]; cbn in *.
  - rewrite length_app, Hk, Hn. cbn. split; [split; lia|].
    rewrite zseq_snoc, map_app, zip_with_app by (by rewrite length_zseq, length_map).
    do 2 f_equal. cbn. do 2 f_equal. lia.
  - subst ms. split; [split; [lia|done]|]. rewrite Hn, zseq_snoc, map_app. cbn. do 3 f_equal. lia.
Qed.

Lemma extend_plan_spec seq record plan cur :
  1 <= seq -> current_ok seq plan cur ->
  let r := extend_plan seq record plan cur in
  current_ok (seq + 1) (fst r) (snd r) /\ chunk_ok (snd r) /\
  expand (fst r ++ [snd r]) = expand (flushed plan cur) ++ [(seq, action_of record)].
Proof.
  intros Hs [Hp Hc]. rewrite extend_plan_cases. set (act := action_of record). clearbody act. clear record.
  assert (Hopen : forall a, MkChunk (kind_of a) seq seq ([] ++ option_list a) = opened seq a) by (by intros []).
  destruct (opened_ok seq act Hs) as [Hok Hexp].
  destruct Hc as [[-> ->]|(Hcur & Hend & Halt)].
  - cbn [c_begin_seq empty_chunk messages]. rewrite Hopen. cbn [Z.eqb fst snd app].
    split; [|split; [done|by rewrite expand_one, Hexp]].
    split; [constructor|]. right. split; [done|]. split; [destruct act; cbn; lia|done].
  - rewrite (flushed_ok plan cur Hcur). unfold FlushChunk.
    destruct (c_begin_seq cur =? 0) eqn:E; bool_to_prop; [destruct Hcur; lia|].
    destruct (kind_eqb (kind cur) (kind_of act)) eqn:Ek; cbn [negb];
      [apply kind_eqb_true in Ek | apply kind_eqb_false in Ek].
    + destruct (extended_ok seq act cur Hcur Hend Ek) as [Hok' Hexp']. cbn [fst snd].
      split; [|split; [done|by rewrite !expand_app, !expand_one, Hexp', app_assoc]].
      split; [done|]. right. split; [done|]. split; [destruct act; cbn; lia|].
      rewrite (alternating_kind plan _ cur); [done|by destruct act].
    + destruct (c_end_seq cur =? 0) eqn:E2; bool_to_prop; [destruct Hcur; lia|].
      cbn [orb messages empty_chunk]. rewrite Hopen. cbn [fst snd].
      split; [|split; [done|by rewrite !expand_app, !expand_one, Hexp]].
      split; [by apply Forall_app_2; [|apply Forall_singleton]|]. right.
      split; [done|]. split; [destruct act; cbn; lia|]. apply alternating_snoc; [|done].
      by destruct act.
Qed.

(** ** Lemmas: the loop *)

Lemma drop_cons_lookup {A} (l : list A) i x rest :
  drop i l = x :: rest -> l !! i = Some x /\ drop (Datatypes.S i) l = rest.
Proof.
  intros E. assert (l !! i = Some x) as Hx.
  { rewrite <- (Nat.add_0_r i), <- lookup_drop, E. done. }
  split; [done|]. rewrite (drop_S _ _ _ Hx) in E. congruence.
Qed.

Lemma drop_nil_lookup {A} (l : list A) i : drop i l = [] -> l !! i = None.
Proof. intros E. by rewrite <- (Nat.add_0_r i), <- lookup_drop, E. Qed.

Section Loop.
Context (a : AbsSession) (records : list MessageRecordView).
Context (Hkeys : forall q r, a_outbound a !! q = Some r -> rec_seq_num r = q).

Definition pending_records (seq : Z) (n : nat) : list MessageRecordView :=
  map record_view (omap (fun q => a_outbound a !! q) (zseq seq n)).

(** What the test [records[record_index].seq_num == seq_num] finds. *)
Lemma round_record seq n idx :
  drop idx records = pending_records seq (Datatypes.S n) ->
  match a_outbound a !! seq with
  | Some r => records !! idx = Some (record_view r) /\ rec_seq_num r = seq /\
              drop (Datatypes.S idx) records = pending_records (seq + 1) n
  | None => drop idx records = pending_records (seq + 1) n /\
            forall v, records !! idx = Some v -> v_seq_num v <> seq
  end.
Proof.
  unfold pending_records. rewrite zseq_S. cbn [omap list_omap].
  destruct (a_outbound a !! seq) as [r|] eqn:Hr; intros E.
  - apply drop_cons_lookup in E as [E1 E2]. eauto.
  - split; [done|]. intros v Hv.
    assert (v ∈ drop idx records) as Hin.
    { apply list_elem_of_lookup. exists 0%nat. by rewrite lookup_drop, Nat.add_0_r. }
    rewrite E in Hin. apply list_elem_of_fmap in Hin as (r & -> & Hin).
    apply list_elem_of_omap in Hin as (q & Hq & Hqr). apply elem_of_zseq in Hq.
    cbn. rewrite (Hkeys _ _ Hqr). lia.
Qed.

Lemma replay_loop_spec n : forall fuel seq idx plan cur,
  1 <= seq -> seq + Z.of_nat n - 1 < UINT32_MAX -> (n < fuel)%nat ->
  drop idx records = pending_records seq n -> current_ok seq plan cur ->
  exists plan' cur',
    replay_loop fuel seq (seq + Z.of_nat n - 1) records idx plan cur = Some (plan', cur') /\
    current_ok (seq + Z.of_nat n) plan' cur' /\ ((0 < n)%nat -> chunk_ok cur') /\
    expand (flushed plan' cur') =
      expand (flushed plan cur) ++ map (fun q => (q, replay_action a q)) (zseq seq n).
Proof.
  induction n as [|n IH]; intros fuel seq idx plan cur H1 Hm Hf Hd Hc;
    (destruct fuel as [|fuel]; [lia|]); cbn [replay_loop].
  - destruct (_ <=? _) eqn:E; bool_to_prop; [lia|].
    exists plan, cur. rewrite Z.add_0_r, app_nil_r. repeat split; try apply Hc; try lia; done.
  - destruct (_ <=? _) eqn:E; bool_to_prop; [|lia].
    pose proof (round_record seq n idx Hd) as Hr.
    set (record := match records !! idx with Some r => if v_seq_num r =? seq then Some r else None | None => None end).
    assert (Hrec : action_of record = replay_action a seq /\
      drop (match record with Some _ => Datatypes.S idx | None => idx end) records = pending_records (seq + 1) n).
    { unfold replay_action, record. destruct (a_outbound a !! seq) as [r|].
      - destruct Hr as (-> & Hk & Hd'). cbn. rewrite Hk, Z.eqb_refl. split; [|done].
        cbn. rewrite ToOwned_record_view. done.
      - destruct Hr as [Hd' Hne]. destruct (records !! idx) as [v|]; [|done].
        destruct (v_seq_num v =? seq) eqn:Ev; bool_to_prop; [|done]. by destruct (Hne v). }
    destruct Hrec as [Hact Hd'].
    destruct (extend_plan_spec seq record plan cur H1 Hc) as (Hc' & Hok & Hexp).
    destruct (extend_plan seq record plan cur) as [plan1 cur1]. cbn [fst snd] in *.
    rewrite u32_small by ulia.
    replace (seq + Z.of_nat (Datatypes.S n) - 1) with (seq + 1 + Z.of_nat n - 1) by lia.
    destruct (IH fuel (seq + 1) _ plan1 cur1 ltac:(lia) ltac:(lia) ltac:(lia) Hd' Hc')
      as (plan' & cur' & -> & Hc2 & Hok2 & Hexp2).
    exists plan', cur'. split; [done|].
    split; [by replace (seq + Z.of_nat (Datatypes.S n)) with (seq + 1 + Z.of_nat n) by lia|].
    split.
    + intros _. destruct n; [|apply Hok2; lia].
      (* the loop stopped at once: the chunk is the one just extended *)
      destruct Hc2 as [_ [[-> Hnil]|(? & _ & _)]]; [|done].
      rewrite (flushed_ok plan1 cur1 Hok), zseq_0, app_nil_r in Hexp2.
      rewrite Hexp in Hexp2. subst plan'. by destruct (expand (flushed plan cur)).
    + rewrite Hexp2, (flushed_ok plan1 cur1 Hok), Hexp, Hact, zseq_S. cbn. by rewrite <- app_assoc.
Qed.

(** With the last sequence number as its end the loop condition
    [seq_num <= UINT32_MAX] can never fail. *)
Lemma replay_loop_diverges fuel : forall seq idx plan cur,
  in_u32 seq -> replay_loop fuel seq UINT32_MAX records idx plan cur = None.
Proof.
  induction fuel as [|fuel IH]; intros seq idx plan cur Hs; cbn [replay_loop]; [done|].
  destruct (_ <=? _) eqn:E; bool_to_prop; [|ulia].
  destruct (extend_plan _ _ _ _). apply IH. auto with nimble.
Qed.
End Loop.


(** ** Properties of [BuildReplayPlan] *)

(** The last sequence number a request asks for: [end_seq = 0] stands for the
    last number the store says was used. *)
Definition effective_end (a : AbsSession) (end_ : Z) : option Z :=
  if end_ =? 0 then
    match a_recovery a with
    | Some r => if r_next_out_seq r <=? 1 then None else Some (r_next_out_seq r -u32 1)
    | None => None
    end
  else Some end_.

Lemma range_valid_true b e : 1 <= b <= e -> range_valid b e = true.
Proof.
  intros. unfold range_valid. apply negb_true_iff. rewrite !orb_false_iff, Z.gtb_ltb.
  repeat split; [apply Z.eqb_neq|apply Z.eqb_neq|apply Z.ltb_ge]; lia.
Qed.

Section PlanLemmas.
Context {S : Type} `{SessionStoreSpec S}.

(** Both requests that reach the loop run it over the same records. *)
Lemma BuildReplayPlan_unfold fuel (store : S) id b e last :
  store_ok store -> id <> 0 -> effective_end (store_view store id) e = Some last -> 1 <= b <= last ->
  BuildReplayPlan fuel store id b e =
    match replay_loop fuel b last
            (map record_view (abs_outbound_range (store_view store id) b last)) 0 [] empty_chunk with
    | None => None
    | Some (plan, cur) => Some (Value (MkPlan id b last (flushed plan cur)))
    end.
Proof.
  intros Hok Hid He Hb. unfold BuildReplayPlan, effective_end in *.
  destruct (id =? 0) eqn:E1; bool_to_prop; [done|].
  destruct (b =? 0) eqn:E2; bool_to_prop; [lia|].
  assert (Hl : LoadOutboundRangeViews store id b last =
               Value (map record_view (abs_outbound_range (store_view store id) b last))).
  { pose proof (load_outbound_views_spec store id b last Hok) as Hv. by rewrite range_valid_true in Hv. }
  assert (Hgt : (b >? last) = false) by (rewrite Z.gtb_ltb; apply Z.ltb_ge; lia).
  destruct (e =? 0).
  - pose proof (load_recovery_spec store id Hok) as Hr.
    destruct (a_recovery (store_view store id)) as [r|]; [|done]. rewrite Hr.
    destruct (r_next_out_seq r <=? 1); [done|]. injection He as He. rewrite He, Hgt, Hl. done.
  - injection He as ->. rewrite Hgt, Hl. done.
Qed.
End PlanLemmas.

(** a resend request over [b .. last] (where [end_seq = 0] asks for
    everything the store recorded) yields, within [last - b + 2] tests of the
    loop condition, a plan that covers each requested number exactly once and in
    order; a number is replayed with its stored record exactly when the store
    has an application message for it and gap-filled otherwise; and the plan is
    the shortest one: neighbouring chunks differ in kind, none is empty and a
    replay chunk carries one message per number. *)
Theorem replay_plan_correct {S} `{SessionStoreSpec S} (store : S) id b e last fuel :
  store_ok store -> id <> 0 -> effective_end (store_view store id) e = Some last ->
  1 <= b <= last -> last < UINT32_MAX -> (Z.to_nat (last - b + 1) < fuel)%nat ->
  exists plan, BuildReplayPlan fuel store id b e = Some (Value plan) /\
    p_session_id plan = id /\ request_begin_seq plan = b /\ request_end_seq plan = last /\
    expand (chunks plan) =
      map (fun q => (q, replay_action (store_view store id) q)) (zseq b (Z.to_nat (last - b + 1))) /\
    alternating (chunks plan) = true /\ Forall chunk_ok (chunks plan).
Proof.
  intros Hok Hid He Hb Hm Hf. rewrite (BuildReplayPlan_unfold _ _ _ _ _ last) by done.
  set (n := Z.to_nat (last - b + 1)) in *.
  destruct (replay_loop_spec (store_view store id)
              (map record_view (abs_outbound_range (store_view store id) b last))
              (fun q r => view_keys store id q r Hok)
              n fuel b 0 [] empty_chunk ltac:(lia) ltac:(lia) Hf eq_refl) as (plan & cur & Hrun & Hc & Hcur & Hexp).
  { split; [constructor|by left]. }
  replace (b + Z.of_nat n - 1) with last in Hrun by lia. rewrite Hrun.
  eexists. split; [done|]. specialize (Hcur ltac:(lia)).
  destruct Hc as [Hplan [[Hcur0 _]|(_ & _ & Halt)]]; [subst cur; destruct Hcur as [? _]; cbn in *; lia|].
  cbn [chunks p_session_id request_begin_seq request_end_seq]. rewrite Hexp. rewrite (flushed_ok plan cur Hcur).
  repeat split; try done. by apply Forall_app_2; [|apply Forall_singleton].
Qed.

(** a request whose effective end is the last 32-bit sequence number makes
    the loop condition [seq_num <= UINT32_MAX] hold forever: no amount of fuel
    yields a plan. *)
Theorem replay_plan_diverges_at_max {S} `{SessionStoreSpec S} (store : S) id b e fuel :
  store_ok store -> id <> 0 -> effective_end (store_view store id) e = Some UINT32_MAX ->
  1 <= b <= UINT32_MAX -> BuildReplayPlan fuel store id b e = None.
Proof.
  intros Hok Hid He Hb. rewrite (BuildReplayPlan_unfold _ _ _ _ _ UINT32_MAX) by done.
  rewrite replay_loop_diverges by ulia. done.
Qed.

(** ** Properties of [RecoverSession] *)

(** The steps all modes but the memory-only one share. *)
Definition restore_and_finish (ni no li lo : Z) (s1 : SessionCore) : SessionCore * Status :=
  let '(s2, st) := RestoreSequenceState ni no s1 in
  if negb (status.ok st) then (s2, st)
  else FinishRecovery (set_last_outbound_ns (set_last_inbound_ns s2 li) lo).

Definition entered_recovery (s : SessionCore) : SessionCore := set_state (set_resume_state s (state s)) kRecovering.

Lemma BeginRecovery_enters s : state s <> kRecovering -> BeginRecovery s = (entered_recovery s, status.Ok).
Proof. intros Hst. unfold BeginRecovery. apply SessionState_eqb_false in Hst as ->. done. Qed.

Lemma RecoverSession_memory {S} `{SessionStore S} (store : S) s :
  state s <> kRecovering -> RecoverSession store kMemoryOnly s = (set_resume_state s (state s), status.Ok).
Proof. intros Hst. unfold RecoverSession. rewrite BeginRecovery_enters by done. by destruct s. Qed.

Lemma RecoverSession_warm {S} `{SessionStore S} (store : S) s :
  state s <> kRecovering ->
  RecoverSession store kWarmRestart s =
    match LoadRecoveryState store (session_id (config s)) with
    | Error st => (entered_recovery s, st)
    | Value r => restore_and_finish (r_next_in_seq r) (r_next_out_seq r) (r_last_inbound_ns r)
                   (r_last_outbound_ns r) (entered_recovery s)
    end.
Proof. intros Hst. unfold RecoverSession. rewrite BeginRecovery_enters by done. by destruct s. Qed.

Lemma RecoverSession_cold {S} `{SessionStore S} (store : S) s m :
  state s <> kRecovering -> m = kColdStart \/ m = kNoRecovery ->
  RecoverSession store m s = restore_and_finish 1 1 0 0 (entered_recovery s).
Proof.
  intros Hst [-> | ->]; unfold RecoverSession; rewrite BeginRecovery_enters by done;
    unfold restore_and_finish; destruct (RestoreSequenceState 1 1 (entered_recovery s)) as [s2 st];
    cbn; by destruct (status.ok st).
Qed.

Lemma restore_recovered ni no li lo s :
  restore_and_finish ni no li lo (entered_recovery s) =
    if (ni =? 0) || (no =? 0)
    then (entered_recovery s, status.InvalidArgument "sequence numbers must be positive")
    else (MkCore (config s) (state s) (state s) ni no li lo None (resend_completed s) (warmup_remaining s)
            (warmup_total s) (day_cut_config s) (last_day_cut_date s) (transport_profile s), status.Ok).
Proof.
  unfold restore_and_finish, RestoreSequenceState. cbn. destruct (_ || _); [done|]. by destruct s.
Qed.

(** recovering a session that is not already recovering.  A warm restart
    puts the store's counters and activity times into the session and hands it
    back in the state it came with, with no pending resend range, when the
    store has a snapshot with positive counters; without a snapshot (or with a
    zero counter) it fails and the session stays in the recovering state.  A
    cold start always succeeds with both counters at 1, a memory-only recovery
    changes neither counter. *)
Theorem recover_session_spec {S} `{SessionStoreSpec S} (store : S) s :
  store_ok store -> state s <> kRecovering ->
  match a_recovery (store_view store (session_id (config s))) with
  | Some r =>
      let '(s', st) := RecoverSession store kWarmRestart s in
      if (r_next_in_seq r =? 0) || (r_next_out_seq r =? 0)
      then status.ok st = false /\ state s' = kRecovering /\ next_in_seq s' = next_in_seq s
      else st = status.Ok /\ state s' = state s /\ pending_resend s' = None /\
           next_in_seq s' = r_next_in_seq r /\ next_out_seq s' = r_next_out_seq r /\
           last_inbound_ns s' = r_last_inbound_ns r /\ last_outbound_ns s' = r_last_outbound_ns r
  | None =>
      let '(s', st) := RecoverSession store kWarmRestart s in
      code st = kNotFound /\ state s' = kRecovering
  end /\
  (forall m, m = kColdStart \/ m = kNoRecovery ->
    let '(s', st) := RecoverSession store m s in
    st = status.Ok /\ state s' = state s /\ next_in_seq s' = 1 /\ next_out_seq s' = 1 /\
    pending_resend s' = None /\ last_inbound_ns s' = 0 /\ last_outbound_ns s' = 0) /\
  RecoverSession store kMemoryOnly s = (set_resume_state s (state s), status.Ok).
Proof.
  intros Hok Hst. split; [|split].
  - pose proof (load_recovery_spec store (session_id (config s)) Hok) as Hr.
    destruct (a_recovery (store_view store (session_id (config s)))) as [r|].
    + rewrite (RecoverSession_warm store s Hst), Hr.
      rewrite restore_recovered by done. destruct (_ || _); done.
    + destruct Hr as [m Hr]. rewrite (RecoverSession_warm store s Hst), Hr. done.
  - intros m Hm. rewrite (RecoverSession_cold store s m Hst Hm), restore_recovered by done. done.
  - apply RecoverSession_memory. done.
Qed.

(** ** Witnesses *)

Definition demo_view (seq flags : Z) : MessageRecordView := MkView 7 seq 0 flags [65] 0.

(** Numbers 2 and 3 hold application messages, 4 an admin one, 5 nothing. *)
Definition demo_plan_history : list StoreOp :=
  [StSaveOutbound (demo_view 3 0); StSaveOutbound (demo_view 2 0); StSaveOutbound (demo_view 4 kAdmin);
   StSaveRecovery (MkRecovery 7 9 6 11 12 true)].
Definition demo_plan_store : MemorySessionStore := store_run demo_plan_history.

Lemma demo_plan_store_ok : store_ok demo_plan_store.
Proof. exact (proj1 (store_run_refines demo_plan_history)). Qed.

Lemma replay_plan_correct_witness :
  exists plan, BuildReplayPlan 10 demo_plan_store 7 1 0 = Some (Value plan) /\
    map kind (chunks plan) = [kGapFill; kReplay; kGapFill] /\
    expand (chunks plan) =
      map (fun q => (q, replay_action (memory_view demo_plan_store 7) q)) (zseq 1 5).
Proof.
  destruct (replay_plan_correct demo_plan_store 7 1 0 5 10 demo_plan_store_ok
              ltac:(lia) ltac:(vm_compute; reflexivity) ltac:(lia) ltac:(unfold UINT32_MAX; lia)
              ltac:(vm_compute; lia)) as (plan & Hp & _ & _ & _ & Hexp & _ & _).
  exists plan. split; [exact Hp|]. split; [|exact Hexp].
  assert (E : BuildReplayPlan 10 demo_plan_store 7 1 0 =
    Some (Value (MkPlan 7 1 5 [MkChunk kGapFill 1 1 []; MkChunk kReplay 2 3 [ToOwned (demo_view 2 0); ToOwned (demo_view 3 0)];
                   MkChunk kGapFill 4 5 []]))) by (vm_compute; reflexivity).
  rewrite E in Hp. injection Hp as <-. reflexivity.
Defined.

Lemma replay_plan_diverges_at_max_witness :
  BuildReplayPlan 1000 demo_plan_store 7 1 UINT32_MAX = None.
Proof.
  exact (replay_plan_diverges_at_max demo_plan_store 7 1 UINT32_MAX 1000 demo_plan_store_ok
           ltac:(lia) ltac:(vm_compute; reflexivity) ltac:(unfold UINT32_MAX; lia)).
Defined.

Definition demo_recovering : SessionCore := NewSessionCore demo_config.

Lemma recover_session_spec_witness :
  state demo_recovering <> kRecovering /\
  RecoverSession demo_plan_store kMemoryOnly demo_recovering =
    (set_resume_state demo_recovering (state demo_recovering), status.Ok).
Proof.
  assert (Hst : state demo_recovering <> kRecovering) by discriminate.
  split; [exact Hst|].
  destruct (recover_session_spec demo_plan_store demo_recovering demo_plan_store_ok Hst) as (_ & _ & E).
  exact E.
Defined.
