(* ===== verification/FixTags.v ===== *)
(** * Tag numbers, tag classes and message types

    [include/public/nimblefix/codec/fix_tags.h].  The codec, the raw
    pass-through path and the admin protocol all decide by these classes which
    fields the session layer owns. *)
From S2P Require Import Prelude.

Module tags.
Definition kBeginString : Z := 8.
Definition kBodyLength : Z := 9.
Definition kCheckSum : Z := 10.
Definition kMsgSeqNum : Z := 34.
Definition kMsgType : Z := 35.
Definition kPossDupFlag : Z := 43.
Definition kSenderCompID : Z := 49.
Definition kSenderSubID : Z := 50.
Definition kSendingTime : Z := 52.
Definition kTargetCompID : Z := 56.
Definition kTargetSubID : Z := 57.
Definition kPossResend : Z := 97.
Definition kOrigSendingTime : Z := 122.
Definition kDefaultApplVerID : Z := 1137.
Definition kBeginSeqNo : Z := 7.
Definition kEndSeqNo : Z := 16.
Definition kNewSeqNo : Z := 36.
Definition kRefSeqNum : Z := 45.
Definition kText : Z := 58.
Definition kSignature : Z := 89.
Definition kSecureDataLen : Z := 90.
Definition kSecureData : Z := 91.
Definition kRawDataLength : Z := 95.
Definition kRawData : Z := 96.
Definition kEncryptMethod : Z := 98.
Definition kHeartBtInt : Z := 108.
Definition kTestReqID : Z := 112.
Definition kOnBehalfOfCompID : Z := 115.
Definition kGapFillFlag : Z := 123.
Definition kDeliverToCompID : Z := 128.
Definition kResetSeqNumFlag : Z := 141.
Definition kRefTagID : Z := 371.
Definition kRefMsgType : Z := 372.
Definition kRejectReason : Z := 373.
Definition kNextExpectedMsgSeqNum : Z := 789.
Definition kUsername : Z := 553.
Definition kPassword : Z := 554.
Definition kApplVerID : Z := 1128.

Inductive SessionHeaderTagClass := kNone | kStandard | kRouting.

#[export] Instance SessionHeaderTagClass_eq_dec : EqDecision SessionHeaderTagClass.
Proof. solve_decision. Defined.

(** A [switch] whose listed cases return true. *)
Definition one_of (cases : list Z) (tag : Z) : bool := existsb (Z.eqb tag) cases.

Definition IsFrameStructureTag : Z -> bool := one_of [kBeginString; kBodyLength; kCheckSum].

Definition IsStandardSessionHeaderTag : Z -> bool :=
  one_of [kMsgSeqNum; kMsgType; kPossDupFlag; kSenderCompID; kSenderSubID; kSendingTime; kTargetCompID;
          kTargetSubID; kPossResend; kOrigSendingTime; kApplVerID; kDefaultApplVerID].

Definition IsRoutingSessionHeaderTag : Z -> bool := one_of [kOnBehalfOfCompID; kDeliverToCompID].

Definition ClassifySessionHeaderTag (tag : Z) : SessionHeaderTagClass :=
  if IsStandardSessionHeaderTag tag then kStandard
  else if IsRoutingSessionHeaderTag tag then kRouting
  else kNone.

Definition IsAggregateSessionHeaderTag (tag : Z) : bool :=
  match ClassifySessionHeaderTag tag with kNone => false | _ => true end.

Definition IsCommonAdminTag : Z -> bool :=
  one_of [kBeginSeqNo; kEndSeqNo; kNewSeqNo; kRefSeqNum; kText; kRawDataLength; kRawData; kEncryptMethod;
          kHeartBtInt; kTestReqID; kGapFillFlag; kResetSeqNumFlag; kNextExpectedMsgSeqNum; kUsername;
          kPassword; kRefTagID; kRefMsgType; kRejectReason].

Definition IsSessionEnvelopeTag (tag : Z) : bool := IsFrameStructureTag tag || IsStandardSessionHeaderTag tag.

Definition IsAggregateSessionEnvelopeTag (tag : Z) : bool :=
  IsFrameStructureTag tag || IsAggregateSessionHeaderTag tag.

Definition IsTemplateManagedHeaderTag : Z -> bool :=
  one_of [kMsgSeqNum; kMsgType; kPossDupFlag; kSenderCompID; kSenderSubID; kSendingTime; kTargetCompID;
          kTargetSubID].

Definition IsEncodeManagedTag (tag : Z) : bool := IsFrameStructureTag tag || IsAggregateSessionHeaderTag tag.
End tags.

Module msg_types.
Definition kHeartbeat : string := "0".
Definition kTestRequest : string := "1".
Definition kResendRequest : string := "2".
Definition kReject : string := "3".
Definition kSequenceReset : string := "4".
Definition kLogout : string := "5".
Definition kLogon : string := "A".
End msg_types.

(** ** How the classes relate *)

Lemma one_of_elem cases tag : tags.one_of cases tag = true <-> tag ∈ cases.
Proof.
  unfold tags.one_of. rewrite existsb_exists, list_elem_of_In. split.
  - intros (x & Hx & E). apply Z.eqb_eq in E. by subst.
  - intros H. exists tag. by rewrite Z.eqb_refl.
Qed.

(** the tag classes partition what the session layer manages.  The
    template-managed tags are standard header tags; a standard tag is never a
    routing, structure or common admin tag; and the tags an encoder must not let
    a message body set are exactly the frame structure, standard and routing
    header tags. *)
Theorem tag_classes_partition tag :
  (tags.IsTemplateManagedHeaderTag tag = true -> tags.IsStandardSessionHeaderTag tag = true) /\
  (tags.IsStandardSessionHeaderTag tag = true ->
     tags.IsRoutingSessionHeaderTag tag = false /\ tags.IsFrameStructureTag tag = false /\
     tags.IsCommonAdminTag tag = false) /\
  (tags.IsRoutingSessionHeaderTag tag = true ->
     tags.IsFrameStructureTag tag = false /\ tags.IsCommonAdminTag tag = false) /\
  (tags.IsEncodeManagedTag tag = true <->
     tags.IsFrameStructureTag tag = true \/ tags.IsStandardSessionHeaderTag tag = true \/
     tags.IsRoutingSessionHeaderTag tag = true) /\
  tags.IsAggregateSessionEnvelopeTag tag = tags.IsEncodeManagedTag tag.
Proof.
  assert (Hcase : forall l, tags.one_of l tag = true ->
    exists t, t ∈ l /\ tag = t) by (intros l H; apply one_of_elem in H; eauto).
  split; [|split; [|split; [|split]]].
  - intros (t & Ht & ->)%Hcase. repeat (apply elem_of_cons in Ht as [->|Ht]; [reflexivity|]). by apply elem_of_nil in Ht.
  - intros (t & Ht & ->)%Hcase. repeat (apply elem_of_cons in Ht as [->|Ht]; [done|]). by apply elem_of_nil in Ht.
  - intros (t & Ht & ->)%Hcase. repeat (apply elem_of_cons in Ht as [->|Ht]; [done|]). by apply elem_of_nil in Ht.
  - unfold tags.IsEncodeManagedTag, tags.IsAggregateSessionHeaderTag, tags.ClassifySessionHeaderTag.
    destruct (tags.IsFrameStructureTag tag), (tags.IsStandardSessionHeaderTag tag), (tags.IsRoutingSessionHeaderTag tag);
      cbn; naive_solver.
  - done.
Qed.

Lemma tag_classes_partition_witness :
  tags.IsEncodeManagedTag tags.kDeliverToCompID = true /\ tags.IsEncodeManagedTag tags.kText = false.
Proof.
  split; [|reflexivity].
  apply (proj1 (proj2 (proj2 (proj2 (tag_classes_partition tags.kDeliverToCompID))))). right; right. reflexivity.
Defined.
