(* ===== verification/Wire.v ===== *)
(** * Text on the wire

    The pieces of the C++ standard library the codec reads and writes text with
    ([std::string_view] literals, [std::from_chars]), the literal field prefixes
    of [fix_tags.h] and the owned outbound frame of
    [include/public/nimblefix/session/encoded_frame.h]. *)
From S2P Require Import Prelude Base IntFormat Scan FixTags.
From Stdlib Require Import Ascii.

(** A text is the list of its bytes; [bytes] reads a literal. *)
Definition bytes (s : string) : list Z := map (fun c => Z.of_N (N_of_ascii c)) (String.list_ascii_of_string s).
(** The inverse reading, for texts that are compared with literals. *)
Definition text_of (l : list Z) : string := String.string_of_list_ascii (map (fun b => ascii_of_N (Z.to_N b)) l).

Definition kFixSoh : Z := 1.

Definition kBeginStringPrefix : list Z := Eval vm_compute in bytes "8=".
Definition kBodyLengthPrefix : list Z := Eval vm_compute in bytes "9=".
Definition kCheckSumPrefix : list Z := Eval vm_compute in bytes "10=".
Definition kMsgSeqNumPrefix : list Z := Eval vm_compute in bytes "34=".
Definition kMsgTypePrefix : list Z := Eval vm_compute in bytes "35=".
Definition kPossDupPrefix : list Z := Eval vm_compute in bytes "43=".
Definition kPossDupFlagYesField : list Z := Eval vm_compute in bytes "43=Y".
Definition kPossResendPrefix : list Z := Eval vm_compute in bytes "97=".
Definition kPossResendYesField : list Z := Eval vm_compute in bytes "97=Y".
Definition kSenderCompIDPrefix : list Z := Eval vm_compute in bytes "49=".
Definition kSenderSubIDPrefix : list Z := Eval vm_compute in bytes "50=".
Definition kSendingTimePrefix : list Z := Eval vm_compute in bytes "52=".
Definition kTargetCompIDPrefix : list Z := Eval vm_compute in bytes "56=".
Definition kTargetSubIDPrefix : list Z := Eval vm_compute in bytes "57=".
Definition kOnBehalfOfCompIDPrefix : list Z := Eval vm_compute in bytes "115=".
Definition kOrigSendingTimePrefix : list Z := Eval vm_compute in bytes "122=".
Definition kDeliverToCompIDPrefix : list Z := Eval vm_compute in bytes "128=".
Definition kApplVerIDPrefix : list Z := Eval vm_compute in bytes "1128=".
Definition kDefaultApplVerIDPrefix : list Z := Eval vm_compute in bytes "1137=".

(** ** [std::from_chars] for [std::uint32_t] *)

Definition digitb (c : Z) : bool := (48 <=? c) && (c <=? 57).

Fixpoint digit_prefix (l : list Z) : list Z :=
  match l with
  | c :: rest => if digitb c then c :: digit_prefix rest else []
  | [] => []
  end.

(** [Some (value, consumed)] on success; [None] when there is no digit
    ([std::errc::invalid_argument]) or the value does not fit
    ([std::errc::result_out_of_range]). *)
Definition from_chars_u32 (l : list Z) : option (Z * nat) :=
  match digit_prefix l with
  | [] => None
  | ds => if numeral_value ds <=? UINT32_MAX then Some (numeral_value ds, length ds) else None
  end.

(** ** Outbound frame storage *)

Definition kEncodedFrameInlineCapacity : nat := 768.

(** [inline_bytes] is the used prefix of [inline_storage]. *)
Record EncodedFrameBytes := MkFrameBytes {
  inline_bytes : list Z;
  overflow_storage : list Z;
  external_body : list Z;
  body_splice_offset : nat;
}.

Definition empty_frame_bytes : EncodedFrameBytes := MkFrameBytes [] [] [] 0.

Definition frame_assign (b : list Z) : EncodedFrameBytes :=
  if (length b <=? kEncodedFrameInlineCapacity)%nat
  then MkFrameBytes b [] [] 0
  else MkFrameBytes [] b [] 0.

Definition frame_view (f : EncodedFrameBytes) : list Z :=
  match overflow_storage f with [] => inline_bytes f | o => o end.

(** The splice the transport puts on the wire. *)
Definition frame_wire (f : EncodedFrameBytes) : list Z :=
  take (body_splice_offset f) (frame_view f) ++ external_body f ++ drop (body_splice_offset f) (frame_view f).

Record EncodedFrame := MkFrame {
  frame_bytes : EncodedFrameBytes;
  frame_msg_type : string;
  frame_admin : bool;
}.

(** ** Lemmas *)

Lemma frame_assign_view b : frame_view (frame_assign b) = b /\ frame_wire (frame_assign b) = b.
Proof.
  assert (Hv : frame_view (frame_assign b) = b).
  { unfold frame_assign, frame_view. destruct (_ <=? _)%nat; [done|]. by destruct b. }
  split; [done|]. unfold frame_wire. rewrite Hv. unfold frame_assign. by destruct (_ <=? _)%nat.
Qed.

Lemma digit_prefix_all l : Forall is_digit l -> digit_prefix l = l.
Proof.
  induction 1 as [|c l Hc Hl IH]; [done|]. cbn. unfold is_digit, digitb in *.
  destruct (48 <=? c) eqn:E1; bool_to_prop; [|lia]. destruct (c <=? 57) eqn:E2; bool_to_prop; [|lia].
  cbn. by rewrite IH.
Qed.

(** Parsing reads back what [FormatUint32] wrote. *)
Lemma from_chars_format v : in_u32 v -> from_chars_u32 (FormatUint32 v) = Some (v, length (FormatUint32 v)).
Proof.
  intros Hv. destruct (FormatUint32_canonical v Hv) as (Hd & Hn & Hne).
  unfold from_chars_u32. rewrite digit_prefix_all by done.
  destruct (FormatUint32 v) as [|c l]; [done|]. rewrite Hn. destruct (v <=? UINT32_MAX) eqn:E; bool_to_prop; [done|ulia].
Qed.

Lemma format_digits v : in_u32 v -> Forall is_digit (FormatUint32 v).
Proof. intros Hv. by destruct (FormatUint32_canonical v Hv). Qed.

Lemma format_nonempty v : in_u32 v -> (0 < length (FormatUint32 v))%nat.
Proof. intros Hv. destruct (FormatUint32_length v) as [?|[]]; [lia|done]. Qed.

(** A scan for a byte that the text does not contain runs past it. *)
Lemma scalar_loop_absent x l r :
  x ∉ l -> scalar_loop (fun b => b =? x) (l ++ x :: r) = length l.
Proof.
  intros Hx. induction l as [|b l IH]; cbn.
  - by rewrite Z.eqb_refl.
  - destruct (Z.eqb_spec b x) as [->|]; [destruct Hx; left|]. rewrite IH; [done|].
    intros Hin. apply Hx. by right.
Qed.

(** Both builds of [FindByte] are the scalar scan. *)
Lemma FindByte_scalar sse data n : FindByte sse data n = scalar_loop (fun b => b =? n) data.
Proof.
  unfold FindByte, FindByteSse2. rewrite FindByteScalar_loop.
  destruct sse; [|done]. destruct (_ <? _)%nat; [done|].
  pose proof (sse_loop_scan (fun c => c =? n) (fun c => mm_movemask (mm_cmpeq c n)) data
                (fun _ => eq_refl) (length data) 0 ltac:(lia)) as H1.
  cbn [Nat.add] in H1. rewrite drop_0 in H1. exact H1.
Qed.
