(* ===== verification/RawPassThrough.v ===== *)
(** * Raw pass-through frames

    [include/internal/nimblefix/codec/raw_passthrough.h] and
    [src/codec/raw_passthrough.cpp]: the header-only decoder, and the three
    encoders that put a new session header in front of an unchanged body
    (forwarding, replay into a string buffer, replay into frame storage with an
    incremental checksum).  The theorems show that the optimised replay encoder
    writes exactly the bytes of the simple one and fills exactly the buffer it
    sized, that decoding an encoded frame gives back the header and the body
    byte for byte, and that a decoder given the stored body offset agrees with
    the one that scans for it. *)
From S2P Require Import Prelude Base IntFormat Scan FixTags Wire.

Definition kBodyLengthPlaceholderWidth : nat := 7.

Definition ParseUint32 (text : list Z) : Z :=
  match from_chars_u32 text with
  | Some (value, n) => if (n =? length text)%nat then value else 0
  | None => 0
  end.

Definition bytes_eqb (a b : list Z) : bool := bool_decide (a = b).

Definition ParseBoolean (text : list Z) : bool := bytes_eqb text (bytes "Y").

Definition ValueView (data : list Z) (offset len : nat) : list Z := take len (drop offset data).

Record ScannedField := MkScanned {
  sf_tag : Z;
  sf_value_offset : nat;
  sf_value_length : nat;
  sf_next_pos : nat;
}.
Definition no_field : ScannedField := MkScanned 0 0 0 0.

(** The header fields the decoder extracts, and the body it leaves alone. *)
Record RawPassThroughView := MkRaw {
  rv_begin_string : list Z;
  rv_msg_type : list Z;
  rv_msg_seq_num : Z;
  rv_sender_comp_id : list Z;
  rv_sender_sub_id : list Z;
  rv_target_comp_id : list Z;
  rv_target_sub_id : list Z;
  rv_on_behalf_of_comp_id : list Z;
  rv_deliver_to_comp_id : list Z;
  rv_default_appl_ver_id : list Z;
  rv_appl_ver_id : list Z;
  rv_sending_time : list Z;
  rv_orig_sending_time : list Z;
  rv_poss_dup : bool;
  rv_poss_resend : bool;
  rv_raw_body : list Z;
  rv_body_start_offset : Z;
  rv_raw_message : list Z;
  rv_valid : bool;
}.

Record ForwardingOptions := MkForwarding {
  fo_sender_comp_id : list Z;
  fo_sender_sub_id : list Z;
  fo_target_comp_id : list Z;
  fo_target_sub_id : list Z;
  fo_msg_seq_num : Z;
  fo_sending_time : list Z;
  fo_begin_string : list Z;
  fo_on_behalf_of_comp_id : list Z;
  fo_deliver_to_comp_id : list Z;
  fo_poss_dup : bool;
  fo_poss_resend : bool;
  fo_orig_sending_time : list Z;
  fo_delimiter : Z;
}.

Record ReplayOptions := MkReplay {
  ro_sender_comp_id : list Z;
  ro_sender_sub_id : list Z;
  ro_target_comp_id : list Z;
  ro_target_sub_id : list Z;
  ro_begin_string : list Z;
  ro_default_appl_ver_id : list Z;
  ro_appl_ver_id : list Z;
  ro_on_behalf_of_comp_id : list Z;
  ro_deliver_to_comp_id : list Z;
  ro_msg_seq_num : Z;
  ro_sending_time : list Z;
  ro_orig_sending_time : list Z;
  ro_poss_resend : bool;
  ro_delimiter : Z;
  ro_zero_copy_body : bool;
}.

(** ** Decoding *)

Section Decode.
Context (has_sse2 : bool).

Definition ScanField (data : list Z) (pos : nat) (delim : Z) : ScannedField :=
  if (length data <=? pos)%nat then no_field
  else
    let soh_idx := (pos + FindByte has_sse2 (drop pos data) delim)%nat in
    if (length data <=? soh_idx)%nat || (soh_idx =? pos)%nat then no_field
    else
      let field_len := (soh_idx - pos)%nat in
      let eq_off := FindByte has_sse2 (take field_len (drop pos data)) 61 in
      if (field_len <=? eq_off)%nat || (eq_off =? 0)%nat then no_field
      else match from_chars_u32 (take eq_off (drop pos data)) with
           | Some (tag, n) =>
               if (n =? eq_off)%nat
               then MkScanned tag (pos + eq_off + 1) (field_len - eq_off - 1) (soh_idx + 1)
               else no_field
           | None => no_field
           end.

Definition IsSessionHeaderTag (tag : Z) : bool := tags.IsAggregateSessionEnvelopeTag tag.

(** The [switch] of the header loop: one field stored into the view. *)
Definition store_header_field (tag : Z) (val : list Z) (v : RawPassThroughView) : RawPassThroughView :=
  let 'MkRaw bs mt sn sc ss tc ts ob dt da av st os pd pr body off raw ok := v in
  if tag =? tags.kMsgType then MkRaw bs val sn sc ss tc ts ob dt da av st os pd pr body off raw ok
  else if tag =? tags.kMsgSeqNum then MkRaw bs mt (ParseUint32 val) sc ss tc ts ob dt da av st os pd pr body off raw ok
  else if tag =? tags.kSenderCompID then MkRaw bs mt sn val ss tc ts ob dt da av st os pd pr body off raw ok
  else if tag =? tags.kSenderSubID then MkRaw bs mt sn sc val tc ts ob dt da av st os pd pr body off raw ok
  else if tag =? tags.kTargetCompID then MkRaw bs mt sn sc ss val ts ob dt da av st os pd pr body off raw ok
  else if tag =? tags.kTargetSubID then MkRaw bs mt sn sc ss tc val ob dt da av st os pd pr body off raw ok
  else if tag =? tags.kOnBehalfOfCompID then MkRaw bs mt sn sc ss tc ts val dt da av st os pd pr body off raw ok
  else if tag =? tags.kDeliverToCompID then MkRaw bs mt sn sc ss tc ts ob val da av st os pd pr body off raw ok
  else if tag =? tags.kDefaultApplVerID then MkRaw bs mt sn sc ss tc ts ob dt val av st os pd pr body off raw ok
  else if tag =? tags.kApplVerID then MkRaw bs mt sn sc ss tc ts ob dt da val st os pd pr body off raw ok
  else if tag =? tags.kSendingTime then MkRaw bs mt sn sc ss tc ts ob dt da av val os pd pr body off raw ok
  else if tag =? tags.kOrigSendingTime then MkRaw bs mt sn sc ss tc ts ob dt da av st val pd pr body off raw ok
  else if tag =? tags.kPossDupFlag then MkRaw bs mt sn sc ss tc ts ob dt da av st os (ParseBoolean val) pr body off raw ok
  else if tag =? tags.kPossResend then MkRaw bs mt sn sc ss tc ts ob dt da av st os pd (ParseBoolean val) body off raw ok
  else v.

(** [while (pos < scan_end)]; [None] when the fuel runs out, otherwise the view
    and [last_header_end]. *)
Fixpoint header_loop (fuel : nat) (data : list Z) (known : bool) (delim : Z) (scan_end pos last_header_end : nat)
    (view : RawPassThroughView) : option (Result (RawPassThroughView * nat)) :=
  match fuel with
  | O => None
  | S fuel =>
      if (pos <? scan_end)%nat then
        let f := ScanField data pos delim in
        if (sf_tag f =? 0) && (sf_next_pos f =? 0)%nat
        then Some (Error (status.FormatError "malformed FIX field"))
        else if negb (IsSessionHeaderTag (sf_tag f)) then
          if known
          then Some (Error (status.FormatError "stored body_start_offset does not align with a FIX body boundary"))
          else Some (Value (view, last_header_end))
        else
          let val := ValueView data (sf_value_offset f) (sf_value_length f) in
          header_loop fuel data known delim scan_end (sf_next_pos f) (sf_next_pos f)
            (store_header_field (sf_tag f) val view)
      else Some (Value (view, last_header_end))
  end.

Definition empty_view (data : list Z) : RawPassThroughView :=
  MkRaw [] [] 0 [] [] [] [] [] [] [] [] [] [] false false [] 0 data false.

Definition set_begin_string (v : RawPassThroughView) (b : list Z) : RawPassThroughView :=
  let 'MkRaw _ mt sn sc ss tc ts ob dt da av st os pd pr body off raw ok := v in
  MkRaw b mt sn sc ss tc ts ob dt da av st os pd pr body off raw ok.

Definition finish_view (v : RawPassThroughView) (body : list Z) (off : Z) : RawPassThroughView :=
  let 'MkRaw bs mt sn sc ss tc ts ob dt da av st os pd pr _ _ raw _ := v in
  MkRaw bs mt sn sc ss tc ts ob dt da av st os pd pr body off raw true.

(** [data[i]], read only where the length test before it allows. *)
Definition byte_at (data : list Z) (i : nat) : Z := nth i data 0.

(** The result is [None] when the call has undefined behaviour: the final
    [data.subspan(body_start_offset, checksum_field_start - body_start_offset)]
    with an offset behind the checksum field.  Running out of fuel is reported
    with a code the function never returns; the fuel exceeds the length of the
    frame and every round advances. *)
Definition DecodeRawPassThroughImpl (data : list Z) (known_body_start_offset : option Z) (delimiter : Z)
    (verify_checksum : bool) : option (Result RawPassThroughView) :=
  let delim := if delimiter =? 0 then kFixSoh else delimiter in
  let f := ScanField data 0 delim in
  if negb (sf_tag f =? tags.kBeginString) then Some (Error (status.FormatError "FIX frame must begin with tag 8"))
  else
    let view := set_begin_string (empty_view data) (ValueView data (sf_value_offset f) (sf_value_length f)) in
    let f := ScanField data (sf_next_pos f) delim in
    if negb (sf_tag f =? tags.kBodyLength)
    then Some (Error (status.FormatError "FIX frame must have tag 9 after tag 8"))
    else
      let declared_body_length := ParseUint32 (ValueView data (sf_value_offset f) (sf_value_length f)) in
      let session_prefix_end := sf_next_pos f in
      let size := length data in
      if (size <? 7)%nat then Some (Error (status.FormatError "FIX frame too short for CheckSum"))
      else if negb (byte_at data (size - 7) =? 49) || negb (byte_at data (size - 6) =? 48) ||
              negb (byte_at data (size - 5) =? 61) || negb (byte_at data (size - 1) =? delim)
      then Some (Error (status.FormatError "FIX frame missing CheckSum (tag 10)"))
      else
        let checksum_field_start := (size - 7)%nat in
        if verify_checksum &&
           negb (sum_scalar (take checksum_field_start data) 0 mod 256 =? ParseUint32 (ValueView data (size - 4) 3))
        then Some (Error (status.FormatError "CheckSum mismatch"))
        else if negb (declared_body_length =? u64 (Z.of_nat checksum_field_start - Z.of_nat session_prefix_end))
        then Some (Error (status.FormatError "BodyLength mismatch"))
        else
          let scan_end := match known_body_start_offset with
                          | None => checksum_field_start
                          | Some off => Z.to_nat off
                          end in
          if (scan_end <? session_prefix_end)%nat || (checksum_field_start <? scan_end)%nat
          then Some (Error (status.FormatError "stored body_start_offset is outside the FIX body"))
          else
            match header_loop (S size) data (match known_body_start_offset with Some _ => true | None => false end)
                    delim scan_end session_prefix_end session_prefix_end view with
            | None => Some (Error (status.IoError "out of fuel"))
            | Some (Error st) => Some (Error st)
            | Some (Value (view, last_header_end)) =>
                let body_start_offset := match known_body_start_offset with
                                         | None => u32 (Z.of_nat last_header_end)
                                         | Some off => off
                                         end in
                let start := Z.to_nat body_start_offset in
                if (checksum_field_start <? start)%nat then None
                else Some (Value (finish_view view (ValueView data start (checksum_field_start - start))
                                    body_start_offset))
            end.

Definition DecodeRawPassThrough (data : list Z) (delimiter : Z) (verify_checksum : bool)
    : option (Result RawPassThroughView) :=
  DecodeRawPassThroughImpl data None delimiter verify_checksum.

Definition DecodeRawPassThroughAt (data : list Z) (body_start_offset delimiter : Z) (verify_checksum : bool)
    : option (Result RawPassThroughView) :=
  DecodeRawPassThroughImpl data (Some body_start_offset) delimiter verify_checksum.
End Decode.

(** ** Encoding *)

Definition AppendStringField (out prefix value : list Z) (delimiter : Z) : list Z :=
  out ++ prefix ++ value ++ [delimiter].

Definition AppendCountField (out prefix : list Z) (value delimiter : Z) : list Z :=
  out ++ prefix ++ FormatUint32 value ++ [delimiter].

Definition AppendOptionalFlagField (out prefix : list Z) (enabled : bool) (delimiter : Z) : list Z :=
  if negb enabled then out else out ++ prefix ++ [89] ++ [delimiter].

Definition text_empty (l : list Z) : bool := match l with [] => true | _ => false end.

(** [if (!value.empty()) AppendStringField(...)]. *)
Definition append_nonempty (out prefix value : list Z) (delimiter : Z) : list Z :=
  if negb (text_empty value) then AppendStringField out prefix value delimiter else out.

Definition ResolveReplayString (preferred fallback : list Z) : list Z :=
  if text_empty preferred then fallback else preferred.

Definition ResolveReplayDefaultApplVerID (stored : RawPassThroughView) (options : ReplayOptions) : list Z :=
  if negb (text_empty (ro_default_appl_ver_id options)) then ro_default_appl_ver_id options
  else if bytes_eqb (rv_msg_type stored) (bytes "A") then rv_default_appl_ver_id stored
  else [].

(** [out.replace(offset, width, digits)]. *)
Definition string_replace (out : list Z) (offset width : nat) (digits : list Z) : list Z :=
  take offset out ++ digits ++ drop (offset + width) out.

Definition checksum_digits (checksum : Z) : list Z :=
  [48 + (checksum / 100) mod 10; 48 + (checksum / 10) mod 10; 48 + checksum mod 10].

(** The common tail of the string encoders: backfill BodyLength, append the
    checksum field. *)
Definition backfill_and_checksum (out : list Z) (body_length_offset body_start : nat) (soh : Z) : Result (list Z) :=
  let body_length := u32 (Z.of_nat (length out - body_start)) in
  let digits := FormatUint32 body_length in
  if (kBodyLengthPlaceholderWidth <? length digits)%nat
  then Error (status.FormatError "BodyLength exceeds placeholder width")
  else
    let out := string_replace out body_length_offset kBodyLengthPlaceholderWidth digits in
    let checksum := sum_scalar out 0 mod 256 in
    Value (out ++ kCheckSumPrefix ++ checksum_digits checksum ++ [soh]).

Definition EncodeForwarded (inbound : RawPassThroughView) (options : ForwardingOptions) : Result (list Z) :=
  if negb (rv_valid inbound) then Error (status.InvalidArgument "inbound view is not valid")
  else
    let soh := if fo_delimiter options =? 0 then kFixSoh else fo_delimiter options in
    let begin_string := if text_empty (fo_begin_string options) then rv_begin_string inbound else fo_begin_string options in
    let out := kBeginStringPrefix ++ begin_string ++ [soh] in
    let out := out ++ kBodyLengthPrefix in
    let body_length_offset := length out in
    let out := out ++ repeat 48 kBodyLengthPlaceholderWidth ++ [soh] in
    let body_start := length out in
    let out := AppendStringField out kMsgTypePrefix (rv_msg_type inbound) soh in
    let out := AppendCountField out kMsgSeqNumPrefix (fo_msg_seq_num options) soh in
    let out := AppendStringField out kSenderCompIDPrefix (fo_sender_comp_id options) soh in
    let out := append_nonempty out kSenderSubIDPrefix (fo_sender_sub_id options) soh in
    let out := AppendStringField out kTargetCompIDPrefix (fo_target_comp_id options) soh in
    let out := append_nonempty out kTargetSubIDPrefix (fo_target_sub_id options) soh in
    let out := AppendStringField out kSendingTimePrefix (fo_sending_time options) soh in
    let out := AppendOptionalFlagField out kPossDupPrefix (fo_poss_dup options) soh in
    let out := AppendOptionalFlagField out kPossResendPrefix (fo_poss_resend options) soh in
    let out := append_nonempty out kOrigSendingTimePrefix (fo_orig_sending_time options) soh in
    let out := append_nonempty out kOnBehalfOfCompIDPrefix (fo_on_behalf_of_comp_id options) soh in
    let out := append_nonempty out kDeliverToCompIDPrefix (fo_deliver_to_comp_id options) soh in
    let out := if negb (text_empty (rv_raw_body inbound)) then out ++ rv_raw_body inbound else out in
    backfill_and_checksum out body_length_offset body_start soh.

Definition EncodeReplay (stored : RawPassThroughView) (options : ReplayOptions) : Result (list Z) :=
  if negb (rv_valid stored) then Error (status.InvalidArgument "stored view is not valid")
  else
    let soh := if ro_delimiter options =? 0 then kFixSoh else ro_delimiter options in
    let begin_string := if text_empty (ro_begin_string options) then rv_begin_string stored else ro_begin_string options in
    let out := kBeginStringPrefix ++ begin_string ++ [soh] in
    let out := out ++ kBodyLengthPrefix in
    let body_length_offset := length out in
    let out := out ++ repeat 48 kBodyLengthPlaceholderWidth ++ [soh] in
    let body_start := length out in
    let replay_default_appl_ver_id := ResolveReplayDefaultApplVerID stored options in
    let replay_sender_sub_id := ResolveReplayString (ro_sender_sub_id options) (rv_sender_sub_id stored) in
    let replay_target_sub_id := ResolveReplayString (ro_target_sub_id options) (rv_target_sub_id stored) in
    let replay_appl_ver_id := ResolveReplayString (ro_appl_ver_id options) (rv_appl_ver_id stored) in
    let replay_on_behalf_of := ResolveReplayString (ro_on_behalf_of_comp_id options) (rv_on_behalf_of_comp_id stored) in
    let replay_deliver_to := ResolveReplayString (ro_deliver_to_comp_id options) (rv_deliver_to_comp_id stored) in
    let out := AppendStringField out kMsgTypePrefix (rv_msg_type stored) soh in
    let out := AppendCountField out kMsgSeqNumPrefix (ro_msg_seq_num options) soh in
    let out := AppendStringField out kSenderCompIDPrefix (ro_sender_comp_id options) soh in
    let out := append_nonempty out kSenderSubIDPrefix replay_sender_sub_id soh in
    let out := AppendStringField out kTargetCompIDPrefix (ro_target_comp_id options) soh in
    let out := append_nonempty out kTargetSubIDPrefix replay_target_sub_id soh in
    let out := AppendStringField out kSendingTimePrefix (ro_sending_time options) soh in
    let out := append_nonempty out kDefaultApplVerIDPrefix replay_default_appl_ver_id soh in
    let out := append_nonempty out kApplVerIDPrefix replay_appl_ver_id soh in
    let out := AppendOptionalFlagField out kPossDupPrefix true soh in
    let out := AppendOptionalFlagField out kPossResendPrefix (ro_poss_resend options) soh in
    let out := append_nonempty out kOrigSendingTimePrefix (ro_orig_sending_time options) soh in
    let out := append_nonempty out kOnBehalfOfCompIDPrefix replay_on_behalf_of soh in
    let out := append_nonempty out kDeliverToCompIDPrefix replay_deliver_to soh in
    let out := if negb (text_empty (rv_raw_body stored)) then out ++ rv_raw_body stored else out in
    backfill_and_checksum out body_length_offset body_start soh.

(** ** The replay encoder that sizes its buffer first *)

Definition CountStringFieldBytes (prefix value : list Z) : nat := length prefix + length value + 1.
Definition CountLiteralFieldBytes (literal : list Z) : nat := length literal + 1.
Definition CountUintFieldBytes (prefix : list Z) (value : Z) : nat := length prefix + length (FormatUint32 value) + 1.

Definition count_nonempty (prefix value : list Z) : nat :=
  if text_empty value then 0 else CountStringFieldBytes prefix value.

(** The buffer written so far (its length is [pos]) and the running sum of its
    bytes. *)
Record Writer := MkWriter { w_buf : list Z; w_checksum : Z }.

Definition append_sv (sv : list Z) (w : Writer) : Writer :=
  MkWriter (w_buf w ++ sv) (sum_scalar sv (w_checksum w)).
Definition append_char (ch : Z) (w : Writer) : Writer :=
  MkWriter (w_buf w ++ [ch]) (w_checksum w +u32 ch).

Definition write_field (prefix value : list Z) (soh : Z) (w : Writer) : Writer :=
  append_char soh (append_sv value (append_sv prefix w)).
Definition write_nonempty (prefix value : list Z) (soh : Z) (w : Writer) : Writer :=
  if negb (text_empty value) then write_field prefix value soh w else w.
Definition write_literal (literal : list Z) (soh : Z) (w : Writer) : Writer := append_char soh (append_sv literal w).

(** [EncodeReplayInto] also reports [encoded_buffer_size], the capacity the
    bytes are written into. *)
Definition EncodeReplayInto (has_sse2 : bool) (stored : RawPassThroughView) (options : ReplayOptions)
    : Result (EncodedFrameBytes * Z) :=
  if negb (rv_valid stored) then Error (status.InvalidArgument "stored view is not valid")
  else
    let soh := if ro_delimiter options =? 0 then kFixSoh else ro_delimiter options in
    let replay_default_appl_ver_id := ResolveReplayDefaultApplVerID stored options in
    let replay_sender_sub_id := ResolveReplayString (ro_sender_sub_id options) (rv_sender_sub_id stored) in
    let replay_target_sub_id := ResolveReplayString (ro_target_sub_id options) (rv_target_sub_id stored) in
    let replay_appl_ver_id := ResolveReplayString (ro_appl_ver_id options) (rv_appl_ver_id stored) in
    let replay_on_behalf_of := ResolveReplayString (ro_on_behalf_of_comp_id options) (rv_on_behalf_of_comp_id stored) in
    let replay_deliver_to := ResolveReplayString (ro_deliver_to_comp_id options) (rv_deliver_to_comp_id stored) in
    let begin_string := if text_empty (ro_begin_string options) then rv_begin_string stored else ro_begin_string options in
    let body_bytes := length (rv_raw_body stored) in
    let body_length := u32 (Z.of_nat (
      CountStringFieldBytes kMsgTypePrefix (rv_msg_type stored) +
      CountUintFieldBytes kMsgSeqNumPrefix (ro_msg_seq_num options) +
      CountStringFieldBytes kSenderCompIDPrefix (ro_sender_comp_id options) +
      count_nonempty kSenderSubIDPrefix replay_sender_sub_id +
      CountStringFieldBytes kTargetCompIDPrefix (ro_target_comp_id options) +
      count_nonempty kTargetSubIDPrefix replay_target_sub_id +
      CountStringFieldBytes kSendingTimePrefix (ro_sending_time options) +
      count_nonempty kDefaultApplVerIDPrefix replay_default_appl_ver_id +
      count_nonempty kApplVerIDPrefix replay_appl_ver_id +
      CountLiteralFieldBytes kPossDupFlagYesField +
      (if ro_poss_resend options then CountLiteralFieldBytes kPossResendYesField else 0) +
      count_nonempty kOrigSendingTimePrefix (ro_orig_sending_time options) +
      count_nonempty kOnBehalfOfCompIDPrefix replay_on_behalf_of +
      count_nonempty kDeliverToCompIDPrefix replay_deliver_to + body_bytes)%nat) in
    let encoded_buffer_size :=
      u64 (Z.of_nat (CountStringFieldBytes kBeginStringPrefix begin_string) +
           Z.of_nat (CountUintFieldBytes kBodyLengthPrefix body_length) +
           (body_length -u64 Z.of_nat body_bytes) +
           (if ro_zero_copy_body options then 0 else Z.of_nat body_bytes) + 7) in
    let w := MkWriter [] 0 in
    let w := write_field kBeginStringPrefix begin_string soh w in
    let w := write_field kBodyLengthPrefix (FormatUint32 body_length) soh w in
    let w := write_field kMsgTypePrefix (rv_msg_type stored) soh w in
    let w := write_field kMsgSeqNumPrefix (FormatUint32 (ro_msg_seq_num options)) soh w in
    let w := write_field kSenderCompIDPrefix (ro_sender_comp_id options) soh w in
    let w := write_nonempty kSenderSubIDPrefix replay_sender_sub_id soh w in
    let w := write_field kTargetCompIDPrefix (ro_target_comp_id options) soh w in
    let w := write_nonempty kTargetSubIDPrefix replay_target_sub_id soh w in
    let w := write_field kSendingTimePrefix (ro_sending_time options) soh w in
    let w := write_nonempty kDefaultApplVerIDPrefix replay_default_appl_ver_id soh w in
    let w := write_nonempty kApplVerIDPrefix replay_appl_ver_id soh w in
    let w := write_literal kPossDupFlagYesField soh w in
    let w := if ro_poss_resend options then write_literal kPossResendYesField soh w else w in
    let w := write_nonempty kOrigSendingTimePrefix (ro_orig_sending_time options) soh w in
    let w := write_nonempty kOnBehalfOfCompIDPrefix replay_on_behalf_of soh w in
    let w := write_nonempty kDeliverToCompIDPrefix replay_deliver_to soh w in
    let body_checksum :=
      if (0 <? body_bytes)%nat then ComputeChecksumSIMD has_sse2 (rv_raw_body stored) else 0 in
    let '(buf, splice_offset) :=
      if ro_zero_copy_body options then (w_buf w, length (w_buf w))
      else (w_buf w ++ rv_raw_body stored, 0%nat) in
    let checksum := (w_checksum w +u32 body_checksum) mod 256 in
    let buf := buf ++ kCheckSumPrefix ++ checksum_digits checksum ++ [soh] in
    let spliced := ro_zero_copy_body options && (0 <? body_bytes)%nat in
    let external := if spliced then rv_raw_body stored else [] in
    let offset := if spliced then splice_offset else 0%nat in
    let frame :=
      if encoded_buffer_size <=? Z.of_nat kEncodedFrameInlineCapacity
      then MkFrameBytes buf [] external offset
      else MkFrameBytes [] buf external offset in
    Value (frame, encoded_buffer_size).

(** ** Reference description of a frame *)

Definition field_bytes (tag : Z) (value : list Z) (soh : Z) : list Z := FormatUint32 tag ++ [61] ++ value ++ [soh].

Definition render (fs : list (Z * list Z)) (soh : Z) : list Z :=
  concat (map (fun f => field_bytes (fst f) (snd f) soh) fs).

(** BeginString, BodyLength, the content and its checksum. *)
Definition frame_prefix (bs content : list Z) (soh : Z) : list Z :=
  field_bytes tags.kBeginString bs soh ++
  field_bytes tags.kBodyLength (FormatUint32 (Z.of_nat (length content))) soh ++ content.
Definition make_frame (bs content : list Z) (soh : Z) : list Z :=
  frame_prefix bs content soh ++
  kCheckSumPrefix ++ checksum_digits (sum_scalar (frame_prefix bs content soh) 0 mod 256) ++ [soh].

Definition opt_field (tag : Z) (value : list Z) : list (Z * list Z) := if text_empty value then [] else [(tag, value)].
Definition flag_field (tag : Z) (enabled : bool) : list (Z * list Z) := if enabled then [(tag, [89])] else [].

Definition effective_delimiter (d : Z) : Z := if d =? 0 then kFixSoh else d.

Definition replay_begin_string (stored : RawPassThroughView) (o : ReplayOptions) : list Z :=
  ResolveReplayString (ro_begin_string o) (rv_begin_string stored).

(** The session header of a replayed message, as tag/value pairs. *)
Definition replay_fields (stored : RawPassThroughView) (o : ReplayOptions) : list (Z * list Z) :=
  [(tags.kMsgType, rv_msg_type stored); (tags.kMsgSeqNum, FormatUint32 (ro_msg_seq_num o));
   (tags.kSenderCompID, ro_sender_comp_id o)] ++
  opt_field tags.kSenderSubID (ResolveReplayString (ro_sender_sub_id o) (rv_sender_sub_id stored)) ++
  [(tags.kTargetCompID, ro_target_comp_id o)] ++
  opt_field tags.kTargetSubID (ResolveReplayString (ro_target_sub_id o) (rv_target_sub_id stored)) ++
  [(tags.kSendingTime, ro_sending_time o)] ++
  opt_field tags.kDefaultApplVerID (ResolveReplayDefaultApplVerID stored o) ++
  opt_field tags.kApplVerID (ResolveReplayString (ro_appl_ver_id o) (rv_appl_ver_id stored)) ++
  flag_field tags.kPossDupFlag true ++ flag_field tags.kPossResend (ro_poss_resend o) ++
  opt_field tags.kOrigSendingTime (ro_orig_sending_time o) ++
  opt_field tags.kOnBehalfOfCompID (ResolveReplayString (ro_on_behalf_of_comp_id o) (rv_on_behalf_of_comp_id stored)) ++
  opt_field tags.kDeliverToCompID (ResolveReplayString (ro_deliver_to_comp_id o) (rv_deliver_to_comp_id stored)).

Definition forward_fields (inbound : RawPassThroughView) (o : ForwardingOptions) : list (Z * list Z) :=
  [(tags.kMsgType, rv_msg_type inbound); (tags.kMsgSeqNum, FormatUint32 (fo_msg_seq_num o));
   (tags.kSenderCompID, fo_sender_comp_id o)] ++
  opt_field tags.kSenderSubID (fo_sender_sub_id o) ++
  [(tags.kTargetCompID, fo_target_comp_id o)] ++
  opt_field tags.kTargetSubID (fo_target_sub_id o) ++
  [(tags.kSendingTime, fo_sending_time o)] ++
  flag_field tags.kPossDupFlag (fo_poss_dup o) ++ flag_field tags.kPossResend (fo_poss_resend o) ++
  opt_field tags.kOrigSendingTime (fo_orig_sending_time o) ++
  opt_field tags.kOnBehalfOfCompID (fo_on_behalf_of_comp_id o) ++
  opt_field tags.kDeliverToCompID (fo_deliver_to_comp_id o).

Definition replay_content (stored : RawPassThroughView) (o : ReplayOptions) : list Z :=
  render (replay_fields stored o) (effective_delimiter (ro_delimiter o)) ++ rv_raw_body stored.
Definition forward_content (inbound : RawPassThroughView) (o : ForwardingOptions) : list Z :=
  render (forward_fields inbound o) (effective_delimiter (fo_delimiter o)) ++ rv_raw_body inbound.

(** ** Lemmas: the encoders write [make_frame] *)

Lemma render_app a b soh : render (a ++ b) soh = render a soh ++ render b soh.
Proof. unfold render. by rewrite map_app, concat_app. Qed.

Lemma render_cons t v fs soh : render ((t, v) :: fs) soh = field_bytes t v soh ++ render fs soh.
Proof. done. Qed.

Lemma append_nonempty_render out p t v soh :
  p = FormatUint32 t ++ [61] -> append_nonempty out p v soh = out ++ render (opt_field t v) soh.
Proof.
  intros ->. unfold append_nonempty, opt_field, AppendStringField. destruct (text_empty v); cbn.
  - by rewrite app_nil_r.
  - unfold render. cbn. unfold field_bytes. by rewrite app_nil_r, <- !app_assoc.
Qed.

Lemma append_flag_render out p t b soh :
  p = FormatUint32 t ++ [61] -> AppendOptionalFlagField out p b soh = out ++ render (flag_field t b) soh.
Proof.
  intros ->. unfold AppendOptionalFlagField, flag_field. destruct b; cbn.
  - unfold render. cbn. unfold field_bytes. by rewrite app_nil_r, <- !app_assoc.
  - by rewrite app_nil_r.
Qed.

Lemma append_string_render out p t v soh :
  p = FormatUint32 t ++ [61] -> AppendStringField out p v soh = out ++ render [(t, v)] soh.
Proof.
  intros ->. unfold AppendStringField, render. cbn. unfold field_bytes. by rewrite app_nil_r, <- !app_assoc.
Qed.

Lemma append_count_render out p t n soh :
  p = FormatUint32 t ++ [61] -> AppendCountField out p n soh = out ++ render [(t, FormatUint32 n)] soh.
Proof. exact (append_string_render out p t (FormatUint32 n) soh). Qed.

Lemma append_body out body : (if negb (text_empty body) then out ++ body else out) = out ++ body.
Proof. destruct body; [by rewrite app_nil_r|done]. Qed.

(** Everything up to the placeholder, and what backfilling makes of it. *)
Definition frame_start (bs : list Z) (soh : Z) : list Z := (kBeginStringPrefix ++ bs ++ [soh]) ++ kBodyLengthPrefix.
Definition with_placeholder (bs content : list Z) (soh : Z) : list Z :=
  (frame_start bs soh ++ repeat 48 kBodyLengthPlaceholderWidth ++ [soh]) ++ content.

Lemma placeholder_length bs content soh :
  (length (with_placeholder bs content soh) -
   length (frame_start bs soh ++ repeat 48%Z kBodyLengthPlaceholderWidth ++ [soh]))%nat = length content.
Proof. unfold with_placeholder. rewrite length_app. lia. Qed.

Lemma backfill_replace bs content soh :
  string_replace (with_placeholder bs content soh) (length (frame_start bs soh)) kBodyLengthPlaceholderWidth
    (FormatUint32 (Z.of_nat (length content))) = frame_prefix bs content soh.
Proof.
  unfold string_replace, with_placeholder. set (P := frame_start bs soh).
  replace (take (length P) ((P ++ repeat 48 kBodyLengthPlaceholderWidth ++ [soh]) ++ content)) with P
    by (by rewrite <- app_assoc, take_app_length).
  replace (drop (length P + kBodyLengthPlaceholderWidth)
             ((P ++ repeat 48 kBodyLengthPlaceholderWidth ++ [soh]) ++ content)) with (soh :: content)
    by (rewrite <- !app_assoc, <- drop_drop, drop_app_length; done).
  unfold P, frame_start, frame_prefix, field_bytes. rewrite <- !app_assoc. done.
Qed.

Lemma backfill_frame bs content soh :
  in_u32 (Z.of_nat (length content)) ->
  backfill_and_checksum (with_placeholder bs content soh) (length (frame_start bs soh))
    (length (frame_start bs soh ++ repeat 48 kBodyLengthPlaceholderWidth ++ [soh])) soh =
  if (kBodyLengthPlaceholderWidth <? length (FormatUint32 (Z.of_nat (length content))))%nat
  then Error (status.FormatError "BodyLength exceeds placeholder width")
  else Value (make_frame bs content soh).
Proof.
  intros Hc. unfold backfill_and_checksum. rewrite placeholder_length, u32_small by done. cbv zeta.
  destruct (_ <? _)%nat; [done|]. by rewrite backfill_replace.
Qed.

(** Rewrites every append of the encoders into the rendering of its field. *)
Ltac appends_to_render :=
  repeat first
    [ rewrite append_body
    | rewrite (append_nonempty_render _ kDeliverToCompIDPrefix tags.kDeliverToCompID) by reflexivity
    | rewrite (append_nonempty_render _ kOnBehalfOfCompIDPrefix tags.kOnBehalfOfCompID) by reflexivity
    | rewrite (append_nonempty_render _ kOrigSendingTimePrefix tags.kOrigSendingTime) by reflexivity
    | rewrite (append_nonempty_render _ kApplVerIDPrefix tags.kApplVerID) by reflexivity
    | rewrite (append_nonempty_render _ kDefaultApplVerIDPrefix tags.kDefaultApplVerID) by reflexivity
    | rewrite (append_nonempty_render _ kTargetSubIDPrefix tags.kTargetSubID) by reflexivity
    | rewrite (append_nonempty_render _ kSenderSubIDPrefix tags.kSenderSubID) by reflexivity
    | rewrite (append_flag_render _ kPossResendPrefix tags.kPossResend) by reflexivity
    | rewrite (append_flag_render _ kPossDupPrefix tags.kPossDupFlag) by reflexivity
    | rewrite (append_string_render _ kSendingTimePrefix tags.kSendingTime) by reflexivity
    | rewrite (append_string_render _ kTargetCompIDPrefix tags.kTargetCompID) by reflexivity
    | rewrite (append_string_render _ kSenderCompIDPrefix tags.kSenderCompID) by reflexivity
    | rewrite (append_string_render _ kMsgTypePrefix tags.kMsgType) by reflexivity
    | rewrite (append_count_render _ kMsgSeqNumPrefix tags.kMsgSeqNum) by reflexivity ].

Definition fits_placeholder (content : list Z) : bool :=
  (length (FormatUint32 (Z.of_nat (length content))) <=? kBodyLengthPlaceholderWidth)%nat.

Lemma fits_placeholder_false content :
  (kBodyLengthPlaceholderWidth <? length (FormatUint32 (Z.of_nat (length content))))%nat = negb (fits_placeholder content).
Proof. unfold fits_placeholder. rewrite Nat.ltb_antisym. done. Qed.

Lemma EncodeReplay_frame stored o :
  rv_valid stored = true -> in_u32 (Z.of_nat (length (replay_content stored o))) ->
  EncodeReplay stored o =
    if fits_placeholder (replay_content stored o)
    then Value (make_frame (replay_begin_string stored o) (replay_content stored o) (effective_delimiter (ro_delimiter o)))
    else Error (status.FormatError "BodyLength exceeds placeholder width").
Proof.
  intros Hv Hc. unfold EncodeReplay. rewrite Hv. cbn [negb]. cbv zeta.
  fold (effective_delimiter (ro_delimiter o)). set (soh := effective_delimiter (ro_delimiter o)) in *.
  fold (ResolveReplayString (ro_begin_string o) (rv_begin_string stored)). fold (replay_begin_string stored o).
  fold (frame_start (replay_begin_string stored o) soh). set (P := frame_start (replay_begin_string stored o) soh).
  appends_to_render. rewrite <- !app_assoc.
  replace (P ++ repeat 48 kBodyLengthPlaceholderWidth ++ [soh] ++ _) with
    (with_placeholder (replay_begin_string stored o) (replay_content stored o) soh).
  - unfold P. rewrite (backfill_frame (replay_begin_string stored o)) by done. rewrite fits_placeholder_false.
    by destruct (fits_placeholder _).
  - unfold with_placeholder, replay_content, replay_fields. fold soh P.
    change ([(tags.kMsgType, rv_msg_type stored); (tags.kMsgSeqNum, FormatUint32 (ro_msg_seq_num o));
             (tags.kSenderCompID, ro_sender_comp_id o)]) with
      ([(tags.kMsgType, rv_msg_type stored)] ++ [(tags.kMsgSeqNum, FormatUint32 (ro_msg_seq_num o))] ++
       [(tags.kSenderCompID, ro_sender_comp_id o)]).
    rewrite !render_app, <- !app_assoc. done.
Qed.

Lemma EncodeForwarded_frame inbound o :
  rv_valid inbound = true -> in_u32 (Z.of_nat (length (forward_content inbound o))) ->
  EncodeForwarded inbound o =
    if fits_placeholder (forward_content inbound o)
    then Value (make_frame (ResolveReplayString (fo_begin_string o) (rv_begin_string inbound))
                  (forward_content inbound o) (effective_delimiter (fo_delimiter o)))
    else Error (status.FormatError "BodyLength exceeds placeholder width").
Proof.
  intros Hv Hc. unfold EncodeForwarded. rewrite Hv. cbn [negb]. cbv zeta.
  fold (effective_delimiter (fo_delimiter o)). set (soh := effective_delimiter (fo_delimiter o)) in *.
  fold (ResolveReplayString (fo_begin_string o) (rv_begin_string inbound)).
  set (bs := ResolveReplayString (fo_begin_string o) (rv_begin_string inbound)).
  fold (frame_start bs soh). set (P := frame_start bs soh).
  appends_to_render. rewrite <- !app_assoc.
  replace (P ++ repeat 48 kBodyLengthPlaceholderWidth ++ [soh] ++ _) with
    (with_placeholder bs (forward_content inbound o) soh).
  - unfold P. rewrite (backfill_frame bs) by done. rewrite fits_placeholder_false. by destruct (fits_placeholder _).
  - unfold with_placeholder, forward_content, forward_fields. fold soh P.
    change ([(tags.kMsgType, rv_msg_type inbound); (tags.kMsgSeqNum, FormatUint32 (fo_msg_seq_num o));
             (tags.kSenderCompID, fo_sender_comp_id o)]) with
      ([(tags.kMsgType, rv_msg_type inbound)] ++ [(tags.kMsgSeqNum, FormatUint32 (fo_msg_seq_num o))] ++
       [(tags.kSenderCompID, fo_sender_comp_id o)]).
    rewrite !render_app, <- !app_assoc. done.
Qed.

(** ** Lemmas: the sizing encoder *)

Definition put (l : list Z) (w : Writer) : Writer := MkWriter (w_buf w ++ l) (sum_scalar l (w_checksum w)).

Lemma sum_scalar_app a b s : sum_scalar (a ++ b) s = sum_scalar b (sum_scalar a s).
Proof. unfold sum_scalar. by rewrite fold_left_app. Qed.

Lemma put_put a b w : put b (put a w) = put (a ++ b) w.
Proof. unfold put. cbn. by rewrite sum_scalar_app, app_assoc. Qed.

Lemma write_field_put p t v soh w : p = FormatUint32 t ++ [61] -> write_field p v soh w = put (render [(t, v)] soh) w.
Proof.
  intros ->. unfold write_field, append_char, append_sv, put, render. cbn. unfold field_bytes.
  rewrite app_nil_r, !sum_scalar_app, <- !app_assoc. done.
Qed.

Lemma write_nonempty_put p t v soh w :
  p = FormatUint32 t ++ [61] -> write_nonempty p v soh w = put (render (opt_field t v) soh) w.
Proof.
  intros Hp. unfold write_nonempty, opt_field. destruct (text_empty v); cbn [negb]; [|by apply write_field_put].
  unfold put. cbn. destruct w. cbn. by rewrite app_nil_r.
Qed.

Lemma write_poss_dup_put soh w :
  write_literal kPossDupFlagYesField soh w = put (render (flag_field tags.kPossDupFlag true) soh) w.
Proof. unfold write_literal, append_char, append_sv, put, render. cbn. by rewrite <- !app_assoc. Qed.

Lemma write_poss_resend_put (b : bool) soh w :
  (if b then write_literal kPossResendYesField soh w else w) = put (render (flag_field tags.kPossResend b) soh) w.
Proof.
  destruct b; unfold write_literal, append_char, append_sv, put, render; cbn; [by rewrite <- !app_assoc|].
  destruct w. cbn. by rewrite app_nil_r.
Qed.

Lemma count_string_render p t v soh :
  p = FormatUint32 t ++ [61] -> CountStringFieldBytes p v = length (render [(t, v)] soh).
Proof.
  intros ->. unfold CountStringFieldBytes, render. cbn. unfold field_bytes. rewrite !length_app. cbn. lia.
Qed.

Lemma count_nonempty_render p t v soh :
  p = FormatUint32 t ++ [61] -> count_nonempty p v = length (render (opt_field t v) soh).
Proof.
  intros Hp. unfold count_nonempty, opt_field. destruct (text_empty v); [done|]. by apply count_string_render.
Qed.

Lemma count_poss_resend_render (b : bool) soh :
  (if b then CountLiteralFieldBytes kPossResendYesField else 0%nat) = length (render (flag_field tags.kPossResend b) soh).
Proof. by destruct b. Qed.

Lemma count_poss_dup_render soh :
  CountLiteralFieldBytes kPossDupFlagYesField = length (render (flag_field tags.kPossDupFlag true) soh).
Proof. done. Qed.

(** The header part of what [EncodeReplayInto] writes and sums. *)
Definition replay_header (stored : RawPassThroughView) (o : ReplayOptions) : list Z :=
  let soh := effective_delimiter (ro_delimiter o) in
  field_bytes tags.kBeginString (replay_begin_string stored o) soh ++
  field_bytes tags.kBodyLength (FormatUint32 (Z.of_nat (length (replay_content stored o)))) soh ++
  render (replay_fields stored o) soh.

Lemma replay_header_prefix stored o :
  replay_header stored o ++ rv_raw_body stored =
  frame_prefix (replay_begin_string stored o) (replay_content stored o) (effective_delimiter (ro_delimiter o)).
Proof. unfold replay_header, frame_prefix, replay_content. cbv zeta. by rewrite <- !app_assoc. Qed.

Lemma body_length_count stored o soh :
  soh = effective_delimiter (ro_delimiter o) ->
  (CountStringFieldBytes kMsgTypePrefix (rv_msg_type stored) +
   CountUintFieldBytes kMsgSeqNumPrefix (ro_msg_seq_num o) +
   CountStringFieldBytes kSenderCompIDPrefix (ro_sender_comp_id o) +
   count_nonempty kSenderSubIDPrefix (ResolveReplayString (ro_sender_sub_id o) (rv_sender_sub_id stored)) +
   CountStringFieldBytes kTargetCompIDPrefix (ro_target_comp_id o) +
   count_nonempty kTargetSubIDPrefix (ResolveReplayString (ro_target_sub_id o) (rv_target_sub_id stored)) +
   CountStringFieldBytes kSendingTimePrefix (ro_sending_time o) +
   count_nonempty kDefaultApplVerIDPrefix (ResolveReplayDefaultApplVerID stored o) +
   count_nonempty kApplVerIDPrefix (ResolveReplayString (ro_appl_ver_id o) (rv_appl_ver_id stored)) +
   CountLiteralFieldBytes kPossDupFlagYesField +
   (if ro_poss_resend o then CountLiteralFieldBytes kPossResendYesField else 0) +
   count_nonempty kOrigSendingTimePrefix (ro_orig_sending_time o) +
   count_nonempty kOnBehalfOfCompIDPrefix
     (ResolveReplayString (ro_on_behalf_of_comp_id o) (rv_on_behalf_of_comp_id stored)) +
   count_nonempty kDeliverToCompIDPrefix
     (ResolveReplayString (ro_deliver_to_comp_id o) (rv_deliver_to_comp_id stored)) +
   length (rv_raw_body stored))%nat = length (replay_content stored o).
Proof.
  intros Hs. unfold replay_content, replay_fields. rewrite <- Hs.
  change (CountUintFieldBytes kMsgSeqNumPrefix (ro_msg_seq_num o))
    with (CountStringFieldBytes kMsgSeqNumPrefix (FormatUint32 (ro_msg_seq_num o))).
  rewrite (count_string_render kMsgTypePrefix tags.kMsgType _ soh), (count_string_render kMsgSeqNumPrefix tags.kMsgSeqNum _ soh),
    (count_string_render kSenderCompIDPrefix tags.kSenderCompID _ soh),
    (count_string_render kTargetCompIDPrefix tags.kTargetCompID _ soh),
    (count_string_render kSendingTimePrefix tags.kSendingTime _ soh),
    (count_nonempty_render kSenderSubIDPrefix tags.kSenderSubID _ soh),
    (count_nonempty_render kTargetSubIDPrefix tags.kTargetSubID _ soh),
    (count_nonempty_render kDefaultApplVerIDPrefix tags.kDefaultApplVerID _ soh),
    (count_nonempty_render kApplVerIDPrefix tags.kApplVerID _ soh),
    (count_nonempty_render kOrigSendingTimePrefix tags.kOrigSendingTime _ soh),
    (count_nonempty_render kOnBehalfOfCompIDPrefix tags.kOnBehalfOfCompID _ soh),
    (count_nonempty_render kDeliverToCompIDPrefix tags.kDeliverToCompID _ soh),
    (count_poss_resend_render _ soh), (count_poss_dup_render soh) by reflexivity.
  rewrite !length_app.
  change (render ([(tags.kMsgType, rv_msg_type stored); (tags.kMsgSeqNum, FormatUint32 (ro_msg_seq_num o));
                   (tags.kSenderCompID, ro_sender_comp_id o)] ++ ?x) soh) with
    (render (([(tags.kMsgType, rv_msg_type stored)] ++ [(tags.kMsgSeqNum, FormatUint32 (ro_msg_seq_num o))] ++
              [(tags.kSenderCompID, ro_sender_comp_id o)]) ++ x) soh).
  rewrite !render_app, !length_app. lia.
Qed.

(** What the sizing encoder returns, in terms of the header and body bytes. *)
Lemma EncodeReplayInto_eq sse stored o :
  rv_valid stored = true -> in_u32 (Z.of_nat (length (replay_content stored o))) ->
  EncodeReplayInto sse stored o =
    let soh := effective_delimiter (ro_delimiter o) in
    let header := replay_header stored o in
    let body := rv_raw_body stored in
    let size := u64 (Z.of_nat (length header) + (if ro_zero_copy_body o then 0 else Z.of_nat (length body)) + 7) in
    let body_checksum := if (0 <? length body)%nat then ComputeChecksumSIMD sse body else 0 in
    let trailer := kCheckSumPrefix ++ checksum_digits ((sum_scalar header 0 +u32 body_checksum) mod 256) ++ [soh] in
    let spliced := ro_zero_copy_body o && (0 <? length body)%nat in
    let buf := (if ro_zero_copy_body o then header else header ++ body) ++ trailer in
    let external := if spliced then body else [] in
    let offset := if spliced then length header else 0%nat in
    Value (if size <=? Z.of_nat kEncodedFrameInlineCapacity then MkFrameBytes buf [] external offset
           else MkFrameBytes [] buf external offset, size).
Proof.
  intros Hv Hc. unfold EncodeReplayInto. rewrite Hv. cbn [negb]. cbv zeta.
  fold (effective_delimiter (ro_delimiter o)). set (soh := effective_delimiter (ro_delimiter o)).
  fold (ResolveReplayString (ro_begin_string o) (rv_begin_string stored)). fold (replay_begin_string stored o).
  rewrite (body_length_count stored o soh eq_refl), (u32_small _ Hc).
  rewrite !(write_field_put kBeginStringPrefix tags.kBeginString), !(write_field_put kBodyLengthPrefix tags.kBodyLength),
    !(write_field_put kMsgTypePrefix tags.kMsgType), !(write_field_put kMsgSeqNumPrefix tags.kMsgSeqNum),
    !(write_field_put kSenderCompIDPrefix tags.kSenderCompID), !(write_field_put kTargetCompIDPrefix tags.kTargetCompID),
    !(write_field_put kSendingTimePrefix tags.kSendingTime),
    !(write_nonempty_put kSenderSubIDPrefix tags.kSenderSubID), !(write_nonempty_put kTargetSubIDPrefix tags.kTargetSubID),
    !(write_nonempty_put kDefaultApplVerIDPrefix tags.kDefaultApplVerID), !(write_nonempty_put kApplVerIDPrefix tags.kApplVerID),
    !(write_nonempty_put kOrigSendingTimePrefix tags.kOrigSendingTime),
    !(write_nonempty_put kOnBehalfOfCompIDPrefix tags.kOnBehalfOfCompID),
    !(write_nonempty_put kDeliverToCompIDPrefix tags.kDeliverToCompID), !write_poss_resend_put, !write_poss_dup_put
    by reflexivity.
  rewrite !put_put.
  match goal with |- context [put ?h (MkWriter [] 0)] => assert (Hh : h = replay_header stored o) end.
  { unfold replay_header, replay_fields. fold soh.
    change (render ([(tags.kMsgType, rv_msg_type stored); (tags.kMsgSeqNum, FormatUint32 (ro_msg_seq_num o));
                     (tags.kSenderCompID, ro_sender_comp_id o)] ++ ?x) soh) with
      (render (([(tags.kMsgType, rv_msg_type stored)] ++ [(tags.kMsgSeqNum, FormatUint32 (ro_msg_seq_num o))] ++
                [(tags.kSenderCompID, ro_sender_comp_id o)]) ++ x) soh).
    rewrite !render_app. unfold render at 1 2. cbn [map concat fst snd]. rewrite !app_nil_r, <- !app_assoc. done. }
  rewrite Hh. unfold put. cbn [w_buf w_checksum app].
  assert (Hsize : Z.of_nat (CountStringFieldBytes kBeginStringPrefix (replay_begin_string stored o)) +
     Z.of_nat (CountUintFieldBytes kBodyLengthPrefix (Z.of_nat (length (replay_content stored o)))) +
     (Z.of_nat (length (replay_content stored o)) -u64 Z.of_nat (length (rv_raw_body stored))) =
     Z.of_nat (length (replay_header stored o))).
  { rewrite u64_small.
    - unfold replay_header, replay_content, field_bytes, CountStringFieldBytes, CountUintFieldBytes. cbv zeta. fold soh.
      rewrite !length_app. cbn [length kBeginStringPrefix kBodyLengthPrefix FormatUint32 Z.ltb Z.compare tags.kBeginString tags.kBodyLength Pos.compare Pos.compare_cont]. lia.
    - unfold replay_content in *. rewrite length_app in *. ulia. }
  rewrite Hsize. destruct (ro_zero_copy_body o); done.
Qed.

Lemma body_checksum_sum sse h body : Forall is_byte body ->
  (sum_scalar h 0 +u32 (if (0 <? length body)%nat then ComputeChecksumSIMD sse body else 0)) mod 256 =
  sum_scalar (h ++ body) 0 mod 256.
Proof.
  intros Hb.
  assert (Hs : (if (0 <? length body)%nat then ComputeChecksumSIMD sse body else 0) = u32 (foldr Z.add 0 body)).
  { destruct body as [|b body]; [done|]. cbn [length Nat.ltb Nat.leb]. by apply ComputeChecksumSIMD_sum. }
  rewrite Hs, sum_scalar_app. f_equal.
  rewrite <- (u32_small (sum_scalar body (sum_scalar h 0))).
  - rewrite sum_scalar_eq. unfold u32. by rewrite Zplus_mod_idemp_r.
  - apply sum_scalar_range, sum_scalar_range. ulia.
Qed.

(** What the sizing encoder puts on the wire, and that it fills its capacity. *)
Lemma EncodeReplayInto_frame sse stored o :
  rv_valid stored = true -> Forall is_byte (rv_raw_body stored) ->
  Z.of_nat (length (replay_header stored o) + length (rv_raw_body stored)) < UINT32_MAX - 7 ->
  exists frame size,
    EncodeReplayInto sse stored o = Value (frame, size) /\
    frame_wire frame = make_frame (replay_begin_string stored o) (replay_content stored o)
                         (effective_delimiter (ro_delimiter o)) /\
    size = Z.of_nat (length (frame_view frame)) /\
    (length (inline_bytes frame) <= kEncodedFrameInlineCapacity)%nat.
Proof.
  intros Hv Hb Hl.
  assert (Hc : in_u32 (Z.of_nat (length (replay_content stored o)))).
  { unfold replay_header, replay_content in *. cbv zeta in *. rewrite !length_app in *. ulia. }
  rewrite (EncodeReplayInto_eq sse stored o Hv Hc). cbv zeta.
  rewrite body_checksum_sum by done. unfold make_frame. rewrite <- replay_header_prefix.
  set (h := replay_header stored o) in *. set (body := rv_raw_body stored) in *.
  set (trailer := kCheckSumPrefix ++ _ ++ _).
  assert (Ht : length trailer = 7%nat) by done.
  set (size := u64 _).
  assert (Hsize : size = Z.of_nat (length ((if ro_zero_copy_body o then h else h ++ body) ++ trailer))).
  { unfold size. rewrite u64_small by (destruct (ro_zero_copy_body o); ulia).
    destruct (ro_zero_copy_body o); rewrite !length_app, Ht; lia. }
  do 2 eexists. split; [done|].
  assert (Hview : forall ext off, frame_view
     (if size <=? Z.of_nat kEncodedFrameInlineCapacity
      then MkFrameBytes ((if ro_zero_copy_body o then h else h ++ body) ++ trailer) [] ext off
      else MkFrameBytes [] ((if ro_zero_copy_body o then h else h ++ body) ++ trailer) ext off) =
     (if ro_zero_copy_body o then h else h ++ body) ++ trailer).
  { intros. destruct (_ <=? _); [done|]. unfold frame_view. cbn [overflow_storage].
    destruct (_ ++ trailer) eqn:E; [|done]. apply app_nil in E as [_ E]. rewrite E in Ht. done. }
  split; [|split; [by rewrite Hview|]].
  - unfold frame_wire. rewrite Hview.
    destruct (ro_zero_copy_body o); cbn [andb]; [|destruct (_ <=? _); cbn; done].
    destruct (0 <? length body)%nat eqn:E.
    + destruct (_ <=? _); cbn [body_splice_offset external_body];
        rewrite take_app_length, drop_app_length, <- app_assoc; done.
    + assert (body = []) as -> by (destruct body; done). rewrite app_nil_r. by destruct (_ <=? _).
  - destruct (_ <=? _) eqn:E; bool_to_prop; cbn [inline_bytes length]; lia.
Qed.

(** ** Properties *)

(** C13: the zero-rescan replay encoder is equivalent to the simple one.  For
    every stored message with a byte body whose encoded length fits the seven
    digit placeholder, [EncodeReplayInto] (with and without SSE2, with the body
    copied or spliced in by reference) puts on the wire exactly the bytes
    [EncodeReplay] produces, and the bytes it writes fill exactly the capacity it
    computed beforehand, so neither the inline array nor the resized vector is
    overrun. *)
Theorem replay_encoders_agree sse stored o :
  rv_valid stored = true -> Forall is_byte (rv_raw_body stored) ->
  fits_placeholder (replay_content stored o) = true ->
  Z.of_nat (length (replay_header stored o) + length (rv_raw_body stored)) < UINT32_MAX - 7 ->
  exists frame size,
    EncodeReplayInto sse stored o = Value (frame, size) /\
    EncodeReplay stored o = Value (frame_wire frame) /\
    size = Z.of_nat (length (frame_view frame)) /\
    (length (inline_bytes frame) <= kEncodedFrameInlineCapacity)%nat.
Proof.
  intros Hv Hb Hf Hl.
  destruct (EncodeReplayInto_frame sse stored o Hv Hb Hl) as (frame & size & -> & Hw & Hs & Hi).
  exists frame, size. rewrite EncodeReplay_frame, Hf, Hw; [done|done|].
  unfold replay_header, replay_content in *. cbv zeta in *. rewrite !length_app in *. ulia.
Qed.

(** ** Lemmas: scanning what was rendered *)

(** A delimiter that cannot be confused with a tag. *)
Definition delim_ok (soh : Z) : Prop := soh <> 0 /\ soh <> 61 /\ ~ is_digit soh.

(** A field whose value does not contain the delimiter. *)
Definition field_ok (soh : Z) (f : Z * list Z) : Prop := in_u32 (fst f) /\ soh ∉ snd f.

Lemma digits_not_elem x l : Forall is_digit l -> ~ is_digit x -> x ∉ l.
Proof. intros Hd Hx Hin. rewrite Forall_forall in Hd. by apply Hx, Hd. Qed.

Lemma scan_field_at sse pre t v soh post :
  delim_ok soh -> field_ok soh (t, v) ->
  let data := pre ++ field_bytes t v soh ++ post in
  let f := ScanField sse data (length pre) soh in
  sf_tag f = t /\ sf_next_pos f = (length pre + length (field_bytes t v soh))%nat /\
  ValueView data (sf_value_offset f) (sf_value_length f) = v /\
  sf_value_offset f = (length pre + length (FormatUint32 t) + 1)%nat.
Proof.
  intros (_ & Heq & Hdig) [Ht Hv] data f. cbn [fst snd] in *.
  pose proof (format_digits t Ht) as Htd. pose proof (format_nonempty t Ht) as Htl.
  assert (Hdrop : drop (length pre) data = (FormatUint32 t ++ 61 :: v) ++ soh :: post).
  { unfold data, field_bytes. rewrite drop_app_length, <- !app_assoc. done. }
  assert (Hsoh : FindByte sse (drop (length pre) data) soh = length (FormatUint32 t ++ 61 :: v)).
  { rewrite FindByte_scalar, Hdrop. apply scalar_loop_absent. rewrite elem_of_app, elem_of_cons.
    intros [Hin|[Hin|Hin]]; [by apply (digits_not_elem soh _ Htd Hdig)|done|done]. }
  assert (Hlen : length data = (length pre + length (FormatUint32 t ++ 61%Z :: v) + 1 + length post)%nat).
  { unfold data, field_bytes. rewrite !length_app. cbn. lia. }
  subst f. unfold ScanField. rewrite Hsoh.
  set (flen := length (FormatUint32 t ++ 61 :: v)) in *.
  assert (Hflen : flen = (length (FormatUint32 t) + 1 + length v)%nat) by (unfold flen; rewrite length_app; cbn; lia).
  rewrite (proj2 (Nat.leb_gt _ _)) by lia. rewrite (proj2 (Nat.leb_gt _ _)) by lia.
  rewrite (proj2 (Nat.eqb_neq _ _)) by lia. cbn [orb]. cbv zeta.
  replace (length pre + flen - length pre)%nat with flen by lia.
  assert (Htake : take flen (drop (length pre) data) = FormatUint32 t ++ 61 :: v)
    by (rewrite Hdrop; unfold flen; by rewrite take_app_length).
  assert (Heqp : FindByte sse (take flen (drop (length pre) data)) 61 = length (FormatUint32 t)).
  { rewrite FindByte_scalar, Htake. apply scalar_loop_absent. apply digits_not_elem; [done|]. unfold is_digit. lia. }
  rewrite Heqp. rewrite (proj2 (Nat.leb_gt _ _)) by lia. rewrite (proj2 (Nat.eqb_neq _ _)) by lia. cbn [orb].
  replace (take (length (FormatUint32 t)) (drop (length pre) data)) with (FormatUint32 t)
    by (by rewrite Hdrop, <- app_assoc, take_app_length).
  rewrite from_chars_format by done. rewrite Nat.eqb_refl. cbn [sf_tag sf_next_pos sf_value_offset sf_value_length].
  split; [done|]. split; [|split; [|done]].
  - unfold field_bytes. rewrite !length_app. cbn. lia.
  - unfold ValueView. rewrite <- !Nat.add_assoc, <- drop_drop, Hdrop.
    replace (drop (length (FormatUint32 t) + 1) ((FormatUint32 t ++ 61 :: v) ++ soh :: post)) with (v ++ soh :: post).
    + replace (flen - length (FormatUint32 t) - 1)%nat with (length v) by lia. by rewrite take_app_length.
    + rewrite <- app_assoc, <- drop_drop, drop_app_length. done.
Qed.

Definition store_fields (fs : list (Z * list Z)) (v : RawPassThroughView) : RawPassThroughView :=
  fold_left (fun acc f => store_header_field (fst f) (snd f) acc) fs v.

(** The loop walks over a rendered header field by field. *)
Lemma header_loop_fields sse known soh fs : delim_ok soh ->
  Forall (field_ok soh) fs -> Forall (fun f => IsSessionHeaderTag (fst f) = true) fs ->
  forall fuel pre post view scan_end last,
  (length (pre ++ render fs soh) <= scan_end)%nat ->
  header_loop sse (length fs + fuel) (pre ++ render fs soh ++ post) known soh scan_end (length pre) last view =
  header_loop sse fuel (pre ++ render fs soh ++ post) known soh scan_end (length (pre ++ render fs soh))
    (match fs with [] => last | _ => length (pre ++ render fs soh) end) (store_fields fs view).
Proof.
  intros Hd. induction fs as [|[t v] fs IH]; intros Hok Hh fuel pre post view scan_end last Hend.
  - cbn. by rewrite app_nil_r.
  - apply Forall_cons in Hok as [Hok1 Hok]. apply Forall_cons in Hh as [Hh1 Hh]. cbn [fst] in Hh1.
    rewrite render_cons in *. cbn [length Nat.add header_loop].
    assert (Hpos : (0 < length (field_bytes t v soh))%nat).
    { unfold field_bytes. rewrite !length_app. cbn. lia. }
    rewrite (proj2 (Nat.ltb_lt _ _)) by (rewrite !length_app in Hend; lia). cbv zeta.
    rewrite <- (app_assoc (field_bytes t v soh)).
    destruct (scan_field_at sse pre t v soh (render fs soh ++ post) Hd Hok1) as (Htag & Hnext & Hval & _).
    rewrite Hval, Htag, Hnext. rewrite (proj2 (Nat.eqb_neq _ 0)) by lia. rewrite andb_false_r, Hh1. cbn [negb].
    rewrite <- (length_app pre (field_bytes t v soh)).
    specialize (IH Hok Hh fuel (pre ++ field_bytes t v soh) post (store_header_field t v view) scan_end
                  (length (pre ++ field_bytes t v soh))).
    rewrite <- !app_assoc in IH. specialize (IH Hend).
    rewrite IH. f_equal. destruct fs; [|done]. rewrite !length_app. cbn. lia.
Qed.

(** ** Lemmas: decoding what was encoded *)

(** Empty, or starting with an application field. *)
Definition body_ok (soh : Z) (body : list Z) : Prop :=
  body = [] \/ exists t v rest, body = field_bytes t v soh ++ rest /\ field_ok soh (t, v) /\ IsSessionHeaderTag t = false.

Lemma ParseUint32_format v : in_u32 v -> ParseUint32 (FormatUint32 v) = v.
Proof. intros Hv. unfold ParseUint32. by rewrite from_chars_format, Nat.eqb_refl. Qed.

Lemma ParseUint32_checksum c : 0 <= c < 256 -> ParseUint32 (checksum_digits c) = c.
Proof.
  intros Hc. unfold ParseUint32, from_chars_u32. rewrite digit_prefix_all.
  - unfold checksum_digits. set (a := (c / 100) mod 10). set (b := (c / 10) mod 10). set (d := c mod 10).
    assert (Hv : numeral_value [48 + a; 48 + b; 48 + d] = c) by (unfold numeral_value, a, b, d; cbn [fold_left]; dlia).
    rewrite Hv. destruct (c <=? UINT32_MAX) eqn:E; bool_to_prop; [done|ulia].
  - unfold checksum_digits, is_digit. repeat constructor; dlia.
Qed.

Lemma byte_at_app P T k : byte_at (P ++ T) (length P + k) = nth k T 0.
Proof. unfold byte_at. rewrite app_nth2 by lia. f_equal. lia. Qed.

Lemma render_length fs soh : (length fs <= length (render fs soh))%nat.
Proof.
  induction fs as [|[t v] fs IH]; [done|]. rewrite render_cons. unfold field_bytes. rewrite !length_app. cbn. lia.
Qed.

(** The scan stops at the body. *)
Lemma header_loop_stop sse fuel soh pre body trailer last view :
  delim_ok soh -> body_ok soh body ->
  header_loop sse (S fuel) (pre ++ body ++ trailer) false soh (length (pre ++ body)) (length pre) last view =
  Some (Value (view, last)).
Proof.
  intros Hd Hb. cbn [header_loop]. destruct (_ <? _)%nat eqn:E; [|done]. apply Nat.ltb_lt in E.
  destruct Hb as [->|(t & v & rest & -> & Hok & Ht)]; [rewrite app_nil_r in E; lia|]. cbv zeta.
  rewrite <- (app_assoc (field_bytes t v soh)).
  destruct (scan_field_at sse pre t v soh (rest ++ trailer) Hd Hok) as (-> & -> & _ & _).
  assert ((0 < length (field_bytes t v soh))%nat) by (unfold field_bytes; rewrite !length_app; cbn; lia).
  rewrite (proj2 (Nat.eqb_neq _ 0)) by lia. rewrite andb_false_r, Ht. done.
Qed.

(** The header of a frame and where its body starts. *)
Definition frame_header (bs : list Z) (fs : list (Z * list Z)) (content : list Z) (soh : Z) : list Z :=
  field_bytes tags.kBeginString bs soh ++
  field_bytes tags.kBodyLength (FormatUint32 (Z.of_nat (length content))) soh ++ render fs soh.

Definition decoded_view (data bs : list Z) (fs : list (Z * list Z)) (body : list Z) (off : nat) : RawPassThroughView :=
  finish_view (store_fields fs (set_begin_string (empty_view data) bs)) body (Z.of_nat off).

(** What is left of the decoder once the frame checks have passed. *)
Definition after_checks (sse : bool) (data bs : list Z) (soh : Z) (prefix_end checksum_start : nat)
    : option (Result RawPassThroughView) :=
  match header_loop sse (S (length data)) data false soh checksum_start prefix_end prefix_end
          (set_begin_string (empty_view data) bs) with
  | None => Some (Error (status.IoError "out of fuel"))
  | Some (Error st) => Some (Error st)
  | Some (Value (view, last_header_end)) =>
      let start := Z.to_nat (u32 (Z.of_nat last_header_end)) in
      if (checksum_start <? start)%nat then None
      else Some (Value (finish_view view (ValueView data start (checksum_start - start)) (u32 (Z.of_nat last_header_end))))
  end.

Definition begin_field (bs : list Z) (soh : Z) : list Z := field_bytes tags.kBeginString bs soh.
Definition length_field (content : list Z) (soh : Z) : list Z :=
  field_bytes tags.kBodyLength (FormatUint32 (Z.of_nat (length content))) soh.
Definition check_field (P : list Z) (soh : Z) : list Z :=
  kCheckSumPrefix ++ checksum_digits (sum_scalar P 0 mod 256) ++ [soh].

(** The first two fields of a frame are found where they were written. *)
Lemma scan_frame_start sse bs content soh rest : delim_ok soh -> soh ∉ bs -> in_u32 (Z.of_nat (length content)) ->
  let data := begin_field bs soh ++ length_field content soh ++ rest in
  let f := ScanField sse data 0 soh in
  let g := ScanField sse data (sf_next_pos f) soh in
  sf_tag f = tags.kBeginString /\ ValueView data (sf_value_offset f) (sf_value_length f) = bs /\
  sf_tag g = tags.kBodyLength /\
  ParseUint32 (ValueView data (sf_value_offset g) (sf_value_length g)) = Z.of_nat (length content) /\
  sf_next_pos g = length (begin_field bs soh ++ length_field content soh).
Proof.
  intros Hd Hbs Hc data f g.
  assert (H8 : field_ok soh (tags.kBeginString, bs)) by (split; [unfold tags.kBeginString; cbn; ulia|done]).
  destruct (scan_field_at sse [] _ _ soh (length_field content soh ++ rest) Hd H8) as (E1 & E2 & E3 & _).
  cbn [app length Nat.add] in E1, E2, E3. change (ScanField sse _ 0 soh) with f in E1, E2, E3.
  assert (H9 : field_ok soh (tags.kBodyLength, FormatUint32 (Z.of_nat (length content)))).
  { split; [unfold tags.kBodyLength; cbn; ulia|]. apply digits_not_elem; [by apply format_digits|apply Hd]. }
  destruct (scan_field_at sse (begin_field bs soh) _ _ soh rest Hd H9) as (F1 & F2 & F3 & _).
  fold (begin_field bs soh) in E2. fold (length_field content soh) in F1, F2, F3. fold data in F1, F2, F3.
  unfold g. rewrite E2, F1, F2, F3. split; [done|]. split; [done|].
  split; [done|]. split; [by apply ParseUint32_format|by rewrite length_app].
Qed.

Lemma decode_reaches_scan sse verify bs content soh :
  delim_ok soh -> soh ∉ bs -> in_u32 (Z.of_nat (length content)) ->
  let data := make_frame bs content soh in
  DecodeRawPassThrough sse data soh verify =
    after_checks sse data bs soh (length (begin_field bs soh ++ length_field content soh))
      (length (frame_prefix bs content soh)).
Proof.
  intros Hd Hbs Hc data. set (P := frame_prefix bs content soh).
  assert (Hdata : data = P ++ check_field P soh) by done.
  assert (HP : P = begin_field bs soh ++ length_field content soh ++ content) by done.
  assert (Hsize : length data = (length P + 7)%nat) by (rewrite Hdata, length_app; done).
  assert (Hs0 : (if soh =? 0 then kFixSoh else soh) = soh).
  { destruct Hd as [Hz _]. by apply Z.eqb_neq in Hz as ->. }
  unfold DecodeRawPassThrough, DecodeRawPassThroughImpl, after_checks. rewrite Hs0. cbv zeta.
  pose proof (scan_frame_start sse bs content soh (content ++ check_field P soh) Hd Hbs Hc) as HS.
  replace (begin_field bs soh ++ length_field content soh ++ content ++ check_field P soh) with data in HS
    by (rewrite Hdata, HP, <- !app_assoc; done).
  cbv zeta in HS. destruct HS as (-> & -> & -> & -> & ->). rewrite !Z.eqb_refl. cbn [negb].
  rewrite (proj2 (Nat.ltb_ge _ _)) by lia. rewrite Hsize.
  replace (length P + 7 - 7)%nat with (length P + 0)%nat by lia.
  replace (length P + 7 - 6)%nat with (length P + 1)%nat by lia.
  replace (length P + 7 - 5)%nat with (length P + 2)%nat by lia.
  replace (length P + 7 - 1)%nat with (length P + 6)%nat by lia.
  replace (length P + 7 - 4)%nat with (length P + 3)%nat by lia.
  assert (Hat : forall k, byte_at data (length P + k) = nth k (check_field P soh) 0)
    by (intros; rewrite Hdata; apply byte_at_app).
  rewrite !Hat. cbn [nth check_field app kCheckSumPrefix checksum_digits]. rewrite !Z.eqb_refl. cbn [negb orb].
  rewrite Nat.add_0_r.
  assert (Hck : ValueView data (length P + 3) 3 = checksum_digits (sum_scalar P 0 mod 256)).
  { unfold ValueView. rewrite Hdata, <- drop_drop, drop_app_length. done. }
  replace (take (length P) data) with P by (by rewrite Hdata, take_app_length).
  rewrite Hck, ParseUint32_checksum by (apply Z.mod_pos_bound; lia). rewrite Z.eqb_refl, andb_false_r.
  replace (u64 _) with (Z.of_nat (length content)) by (rewrite u64_small; rewrite HP, !length_app; ulia).
  rewrite Z.eqb_refl. cbn [negb].
  rewrite (proj2 (Nat.ltb_ge (length P) _)) by (rewrite HP, !length_app; lia).
  rewrite Nat.ltb_irrefl. done.
Qed.

Lemma decode_make_frame sse verify bs fs body soh :
  delim_ok soh -> soh ∉ bs -> Forall (field_ok soh) fs -> Forall (fun f => IsSessionHeaderTag (fst f) = true) fs ->
  body_ok soh body ->
  let content := render fs soh ++ body in
  let data := make_frame bs content soh in
  Z.of_nat (length data) <= UINT32_MAX ->
  DecodeRawPassThrough sse data soh verify =
    Some (Value (decoded_view data bs fs body (length (frame_header bs fs content soh)))).
Proof.
  intros Hd Hbs Hok Hh Hb content data Hlen.
  set (f89 := begin_field bs soh ++ length_field content soh). set (P := frame_prefix bs content soh).
  set (pre := f89 ++ render fs soh).
  assert (HP : P = pre ++ body) by (unfold P, frame_prefix, pre, f89, content; rewrite <- !app_assoc; done).
  assert (Hdata : data = pre ++ body ++ check_field P soh) by (rewrite app_assoc, <- HP; done).
  assert (Hlp : length P = (length pre + length body)%nat) by (by rewrite HP, length_app).
  assert (Hsize : length data = (length P + 7)%nat).
  { rewrite Hdata, app_assoc, <- HP, length_app. done. }
  assert (Hc : in_u32 (Z.of_nat (length content))).
  { unfold content. unfold pre in Hlp. rewrite !length_app in *. ulia. }
  pose proof (decode_reaches_scan sse verify bs content soh Hd Hbs Hc) as HR. cbv zeta in HR.
  fold data P f89 in HR. rewrite HR. clear HR.
  unfold after_checks. pose proof (render_length fs soh) as Hfs.
  assert (Hfuel : S (length data) = (length fs + S (length data - length fs))%nat).
  { unfold pre in Hlp. rewrite length_app in Hlp. lia. }
  rewrite Hfuel. set (view := set_begin_string (empty_view data) bs).
  pose proof (header_loop_fields sse false soh fs Hd Hok Hh (S (length data - length fs)) f89 (body ++ check_field P soh)
                view (length P) (length f89)) as HL. fold pre in HL.
  replace (f89 ++ render fs soh ++ body ++ check_field P soh) with data in HL
    by (rewrite Hdata; unfold pre; rewrite <- !app_assoc; done).
  rewrite HL by lia. clear HL.
  replace (match fs with [] => length f89 | _ => length pre end) with (length pre)
    by (destruct fs; [unfold pre; cbn; by rewrite app_nil_r|done]).
  pose proof (header_loop_stop sse (length data - length fs) soh pre body (check_field P soh) (length pre)
                (store_fields fs view) Hd Hb) as HS.
  rewrite <- Hdata, <- HP in HS. rewrite HS. clear HS.
  cbv zeta. rewrite u32_small by ulia. rewrite Nat2Z.id. rewrite (proj2 (Nat.ltb_ge _ _)) by lia.
  unfold decoded_view, frame_header. fold (begin_field bs soh) (length_field content soh).
  replace (begin_field bs soh ++ length_field content soh ++ render fs soh) with pre by (unfold pre, f89; by rewrite <- app_assoc).
  do 3 f_equal. unfold ValueView. rewrite Hlp, Hdata, drop_app_length, Nat.add_comm, Nat.add_sub.
  by rewrite take_app_length.
Qed.

(** ** Lemmas: the view of a replayed header *)

Lemma store_fields_app a b v : store_fields (a ++ b) v = store_fields b (store_fields a v).
Proof. unfold store_fields. by rewrite fold_left_app. Qed.

Lemma header_tags_ok stored o : Forall (fun f => IsSessionHeaderTag (fst f) = true) (replay_fields stored o).
Proof.
  unfold replay_fields, opt_field, flag_field.
  repeat (apply Forall_app; split); repeat split_if; repeat constructor.
Qed.

Lemma forward_tags_ok inbound o : Forall (fun f => IsSessionHeaderTag (fst f) = true) (forward_fields inbound o).
Proof.
  unfold forward_fields, opt_field, flag_field.
  repeat (apply Forall_app; split); repeat split_if; repeat constructor.
Qed.

Lemma header_fields_ok soh fs :
  Forall (fun f => IsSessionHeaderTag (fst f) = true) fs -> Forall (fun f => soh ∉ snd f) fs -> Forall (field_ok soh) fs.
Proof.
  intros Ht Hv. apply Forall_forall. intros f Hf. rewrite Forall_forall in Ht, Hv. split; [|by apply Hv].
  specialize (Ht f Hf). unfold IsSessionHeaderTag, tags.IsAggregateSessionEnvelopeTag in Ht.
  assert (fst f ∈ [8; 9; 10; 34; 35; 43; 49; 50; 52; 56; 57; 97; 122; 1128; 1137; 115; 128]) as Hin.
  { apply orb_true_iff in Ht as [Ht|Ht].
    - apply one_of_elem in Ht. unfold tags.kBeginString, tags.kBodyLength, tags.kCheckSum in Ht. set_solver.
    - unfold tags.IsAggregateSessionHeaderTag, tags.ClassifySessionHeaderTag in Ht.
      destruct (tags.IsStandardSessionHeaderTag (fst f)) eqn:E1.
      + apply one_of_elem in E1. unfold tags.kMsgSeqNum, tags.kMsgType in E1. set_solver.
      + destruct (tags.IsRoutingSessionHeaderTag (fst f)) eqn:E2; [|done].
        apply one_of_elem in E2. set_solver. }
  set_unfold in Hin. ulia.
Qed.

(** An optional field stored into a slot that is still empty. *)
Section StoreOptional.
Context (bs mt : list Z) (sn : Z) (sc ss tc ts ob dt da av st os : list Z) (pd pr : bool) (body : list Z) (off : Z)
  (raw : list Z) (ok : bool).

Lemma store_sender_sub v :
  store_fields (opt_field tags.kSenderSubID v) (MkRaw bs mt sn sc [] tc ts ob dt da av st os pd pr body off raw ok) =
  MkRaw bs mt sn sc v tc ts ob dt da av st os pd pr body off raw ok.
Proof. by destruct v. Qed.
Lemma store_target_sub v :
  store_fields (opt_field tags.kTargetSubID v) (MkRaw bs mt sn sc ss tc [] ob dt da av st os pd pr body off raw ok) =
  MkRaw bs mt sn sc ss tc v ob dt da av st os pd pr body off raw ok.
Proof. by destruct v. Qed.
Lemma store_on_behalf v :
  store_fields (opt_field tags.kOnBehalfOfCompID v) (MkRaw bs mt sn sc ss tc ts [] dt da av st os pd pr body off raw ok) =
  MkRaw bs mt sn sc ss tc ts v dt da av st os pd pr body off raw ok.
Proof. by destruct v. Qed.
Lemma store_deliver_to v :
  store_fields (opt_field tags.kDeliverToCompID v) (MkRaw bs mt sn sc ss tc ts ob [] da av st os pd pr body off raw ok) =
  MkRaw bs mt sn sc ss tc ts ob v da av st os pd pr body off raw ok.
Proof. by destruct v. Qed.
Lemma store_default_appl v :
  store_fields (opt_field tags.kDefaultApplVerID v) (MkRaw bs mt sn sc ss tc ts ob dt [] av st os pd pr body off raw ok) =
  MkRaw bs mt sn sc ss tc ts ob dt v av st os pd pr body off raw ok.
Proof. by destruct v. Qed.
Lemma store_appl v :
  store_fields (opt_field tags.kApplVerID v) (MkRaw bs mt sn sc ss tc ts ob dt da [] st os pd pr body off raw ok) =
  MkRaw bs mt sn sc ss tc ts ob dt da v st os pd pr body off raw ok.
Proof. by destruct v. Qed.
Lemma store_orig_sending v :
  store_fields (opt_field tags.kOrigSendingTime v) (MkRaw bs mt sn sc ss tc ts ob dt da av st [] pd pr body off raw ok) =
  MkRaw bs mt sn sc ss tc ts ob dt da av st v pd pr body off raw ok.
Proof. by destruct v. Qed.
Lemma store_poss_dup b :
  store_fields (flag_field tags.kPossDupFlag b) (MkRaw bs mt sn sc ss tc ts ob dt da av st os false pr body off raw ok) =
  MkRaw bs mt sn sc ss tc ts ob dt da av st os b pr body off raw ok.
Proof. by destruct b. Qed.
Lemma store_poss_resend b :
  store_fields (flag_field tags.kPossResend b) (MkRaw bs mt sn sc ss tc ts ob dt da av st os pd false body off raw ok) =
  MkRaw bs mt sn sc ss tc ts ob dt da av st os pd b body off raw ok.
Proof. by destruct b. Qed.
Lemma store_target v :
  store_fields [(tags.kTargetCompID, v)] (MkRaw bs mt sn sc ss tc ts ob dt da av st os pd pr body off raw ok) =
  MkRaw bs mt sn sc ss v ts ob dt da av st os pd pr body off raw ok.
Proof. done. Qed.
Lemma store_sending v :
  store_fields [(tags.kSendingTime, v)] (MkRaw bs mt sn sc ss tc ts ob dt da av st os pd pr body off raw ok) =
  MkRaw bs mt sn sc ss tc ts ob dt da av v os pd pr body off raw ok.
Proof. done. Qed.
Lemma store_msg_type v :
  store_fields [(tags.kMsgType, v)] (MkRaw bs mt sn sc ss tc ts ob dt da av st os pd pr body off raw ok) =
  MkRaw bs v sn sc ss tc ts ob dt da av st os pd pr body off raw ok.
Proof. done. Qed.
Lemma store_seq_num v :
  store_fields [(tags.kMsgSeqNum, v)] (MkRaw bs mt sn sc ss tc ts ob dt da av st os pd pr body off raw ok) =
  MkRaw bs mt (ParseUint32 v) sc ss tc ts ob dt da av st os pd pr body off raw ok.
Proof. done. Qed.
Lemma store_opt_sender v :
  store_fields (opt_field tags.kSenderCompID v) (MkRaw bs mt sn [] ss tc ts ob dt da av st os pd pr body off raw ok) =
  MkRaw bs mt sn v ss tc ts ob dt da av st os pd pr body off raw ok.
Proof. by destruct v. Qed.
Lemma store_opt_target v :
  store_fields (opt_field tags.kTargetCompID v) (MkRaw bs mt sn sc ss [] ts ob dt da av st os pd pr body off raw ok) =
  MkRaw bs mt sn sc ss v ts ob dt da av st os pd pr body off raw ok.
Proof. by destruct v. Qed.
Lemma store_if_default_appl (b : bool) v :
  store_fields (if b then opt_field tags.kDefaultApplVerID v else [])
    (MkRaw bs mt sn sc ss tc ts ob dt [] av st os pd pr body off raw ok) =
  MkRaw bs mt sn sc ss tc ts ob dt (if b then v else []) av st os pd pr body off raw ok.
Proof. destruct b; [by destruct v|done]. Qed.
End StoreOptional.
#[export] Hint Rewrite store_msg_type store_seq_num store_opt_sender store_opt_target store_if_default_appl store_target store_sending store_sender_sub store_target_sub store_on_behalf store_deliver_to store_default_appl
  store_appl store_orig_sending store_poss_dup store_poss_resend : raw_view.

Lemma store_required mt sn sc v : in_u32 sn ->
  store_fields [(tags.kMsgType, mt); (tags.kMsgSeqNum, FormatUint32 sn); (tags.kSenderCompID, sc)] v =
  let 'MkRaw bs _ _ _ ss tc ts ob dt da av st os pd pr body off raw ok := v in
  MkRaw bs mt sn sc ss tc ts ob dt da av st os pd pr body off raw ok.
Proof. intros Hs. destruct v. cbn. by rewrite ParseUint32_format. Qed.

(** Values free of the delimiter, so that no field ends early. *)
Definition clean_fields (soh : Z) (bs : list Z) (fs : list (Z * list Z)) : Prop :=
  soh ∉ bs /\ Forall (fun f => soh ∉ snd f) fs.

Definition body_offset (bs : list Z) (fs : list (Z * list Z)) (content : list Z) (soh : Z) : nat :=
  length (frame_header bs fs content soh).

(** round trip.  Decoding a replayed frame gives back every header field
    the encoder was asked to write (with PossDupFlag set), the body byte for byte
    and its offset; the checksum and BodyLength checks pass.  The delimiter must
    not be a digit or an equals sign and must not occur in a field value, and the
    body must be empty or start with an application field. *)
Theorem replay_roundtrip sse verify stored o wire soh :
  soh = effective_delimiter (ro_delimiter o) -> delim_ok soh ->
  clean_fields soh (replay_begin_string stored o) (replay_fields stored o) -> body_ok soh (rv_raw_body stored) ->
  in_u32 (ro_msg_seq_num o) -> in_u32 (Z.of_nat (length wire)) -> in_u32 (Z.of_nat (length (replay_content stored o))) ->
  EncodeReplay stored o = Value wire ->
  DecodeRawPassThrough sse wire soh verify = Some (Value
    (MkRaw (replay_begin_string stored o) (rv_msg_type stored) (ro_msg_seq_num o)
       (ro_sender_comp_id o) (ResolveReplayString (ro_sender_sub_id o) (rv_sender_sub_id stored))
       (ro_target_comp_id o) (ResolveReplayString (ro_target_sub_id o) (rv_target_sub_id stored))
       (ResolveReplayString (ro_on_behalf_of_comp_id o) (rv_on_behalf_of_comp_id stored))
       (ResolveReplayString (ro_deliver_to_comp_id o) (rv_deliver_to_comp_id stored))
       (ResolveReplayDefaultApplVerID stored o) (ResolveReplayString (ro_appl_ver_id o) (rv_appl_ver_id stored))
       (ro_sending_time o) (ro_orig_sending_time o) true (ro_poss_resend o) (rv_raw_body stored)
       (Z.of_nat (body_offset (replay_begin_string stored o) (replay_fields stored o) (replay_content stored o) soh))
       wire true)).
Proof.
  intros -> Hd [Hbs Hcl] Hb Hsn Hw Hc He.
  assert (Hv : rv_valid stored = true) by (unfold EncodeReplay in He; by destruct (rv_valid stored)).
  rewrite (EncodeReplay_frame stored o Hv Hc) in He. destruct (fits_placeholder _); [|done].
  injection He as <-. set (soh := effective_delimiter (ro_delimiter o)) in *.
  pose proof (decode_make_frame sse verify (replay_begin_string stored o) (replay_fields stored o) (rv_raw_body stored)
                soh Hd Hbs (header_fields_ok soh _ (header_tags_ok stored o) Hcl) (header_tags_ok stored o) Hb) as HD.
  cbv zeta in HD. change (render (replay_fields stored o) soh ++ rv_raw_body stored) with (replay_content stored o) in HD.
  rewrite HD by ulia. do 2 f_equal. unfold decoded_view. fold (body_offset (replay_begin_string stored o)
    (replay_fields stored o) (replay_content stored o) soh). set (off := body_offset _ _ _ _).
  unfold replay_fields. rewrite !store_fields_app, store_required by done.
  cbn [set_begin_string empty_view]. autorewrite with raw_view. done.
Qed.

(** round trip of forwarding.  The frame [EncodeForwarded] builds decodes to
    the downstream header it was given and to the inbound body, unchanged; the
    application version fields of the inbound header are not carried over. *)
Theorem forward_roundtrip sse verify inbound o wire soh :
  soh = effective_delimiter (fo_delimiter o) -> delim_ok soh ->
  clean_fields soh (ResolveReplayString (fo_begin_string o) (rv_begin_string inbound)) (forward_fields inbound o) ->
  body_ok soh (rv_raw_body inbound) ->
  in_u32 (fo_msg_seq_num o) -> in_u32 (Z.of_nat (length wire)) -> in_u32 (Z.of_nat (length (forward_content inbound o))) ->
  EncodeForwarded inbound o = Value wire ->
  DecodeRawPassThrough sse wire soh verify = Some (Value
    (MkRaw (ResolveReplayString (fo_begin_string o) (rv_begin_string inbound)) (rv_msg_type inbound) (fo_msg_seq_num o)
       (fo_sender_comp_id o) (fo_sender_sub_id o) (fo_target_comp_id o) (fo_target_sub_id o)
       (fo_on_behalf_of_comp_id o) (fo_deliver_to_comp_id o) [] []
       (fo_sending_time o) (fo_orig_sending_time o) (fo_poss_dup o) (fo_poss_resend o) (rv_raw_body inbound)
       (Z.of_nat (body_offset (ResolveReplayString (fo_begin_string o) (rv_begin_string inbound))
                    (forward_fields inbound o) (forward_content inbound o) soh))
       wire true)).
Proof.
  intros -> Hd [Hbs Hcl] Hb Hsn Hw Hc He.
  assert (Hv : rv_valid inbound = true) by (unfold EncodeForwarded in He; by destruct (rv_valid inbound)).
  rewrite (EncodeForwarded_frame inbound o Hv Hc) in He. destruct (fits_placeholder _); [|done].
  injection He as <-. set (soh := effective_delimiter (fo_delimiter o)) in *.
  set (bs := ResolveReplayString (fo_begin_string o) (rv_begin_string inbound)) in *.
  pose proof (decode_make_frame sse verify bs (forward_fields inbound o) (rv_raw_body inbound)
                soh Hd Hbs (header_fields_ok soh _ (forward_tags_ok inbound o) Hcl) (forward_tags_ok inbound o) Hb) as HD.
  cbv zeta in HD. change (render (forward_fields inbound o) soh ++ rv_raw_body inbound) with (forward_content inbound o) in HD.
  rewrite HD by ulia. do 2 f_equal. unfold decoded_view.
  fold (body_offset bs (forward_fields inbound o) (forward_content inbound o) soh). set (off := body_offset _ _ _ _).
  unfold forward_fields. rewrite !store_fields_app, store_required by done.
  cbn [set_begin_string empty_view]. autorewrite with raw_view. done.
Qed.

(** ** The stored offset *)

Lemma scan_advances sse data pos delim :
  let f := ScanField sse data pos delim in
  (sf_tag f =? 0) && (sf_next_pos f =? 0)%nat = false -> (pos < sf_next_pos f <= length data)%nat.
Proof.
  cbv zeta. unfold ScanField. destruct (_ <=? pos)%nat eqn:E0; [intros H; discriminate H|]. cbv zeta.
  set (idx := (pos + FindByte sse (drop pos data) delim)%nat).
  destruct (length data <=? idx)%nat eqn:E1; cbn [orb]; [intros H; discriminate H|].
  destruct (idx =? pos)%nat eqn:E2; [intros H; discriminate H|].
  apply Nat.leb_gt in E1. apply Nat.eqb_neq in E2. assert (pos <= idx)%nat by (unfold idx; lia).
  repeat match goal with |- context [if ?b then _ else _] => destruct b end; try (intros H'; discriminate H').
  destruct (from_chars_u32 _) as [[t n]|]; [|intros H'; discriminate H'].
  destruct (_ =? _)%nat; [|intros H'; discriminate H'].
  cbn [sf_tag sf_next_pos]. intros _. lia.
Qed.

Lemma header_loop_total sse data known delim scan_end fuel : forall pos last view,
  (0 < fuel)%nat -> (scan_end < pos + fuel)%nat ->
  header_loop sse fuel data known delim scan_end pos last view <> None.
Proof.
  induction fuel as [|fuel IH]; intros pos last view H0 Hf; [lia|]. cbn [header_loop].
  destruct (_ <? _)%nat eqn:E; [|done]. apply Nat.ltb_lt in E. cbv zeta.
  pose proof (scan_advances sse data pos delim) as Hadv. cbv zeta in Hadv.
  destruct (_ && _); [done|]. specialize (Hadv eq_refl).
  destruct (negb _); [by destruct known|]. apply IH; lia.
Qed.

(** A loop that is told where the header ends finds the same view. *)
Lemma header_loop_known sse data delim fuel : forall scan_end pos view v last,
  header_loop sse fuel data false delim scan_end pos pos view = Some (Value (v, last)) ->
  (pos <= last)%nat /\ header_loop sse fuel data true delim last pos pos view = Some (Value (v, last)).
Proof.
  induction fuel as [|fuel IH]; intros scan_end pos view v last; cbn [header_loop]; [done|].
  destruct (pos <? scan_end)%nat eqn:E.
  - cbv zeta. pose proof (scan_advances sse data pos delim) as Hadv. cbv zeta in Hadv.
    destruct (_ && _) eqn:Em; [done|]. specialize (Hadv eq_refl). destruct (negb _) eqn:Et.
    + intros [= <- <-]. by rewrite Nat.ltb_irrefl.
    + intros H. apply IH in H as [Hle H]. split; [lia|].
      rewrite (proj2 (Nat.ltb_lt pos last)) by lia. exact H.
  - intros [= <- <-]. by rewrite Nat.ltb_irrefl.
Qed.

(** The header never ends behind the frame. *)
Lemma header_loop_bound sse data delim fuel : forall scan_end pos view v last,
  header_loop sse fuel data false delim scan_end pos pos view = Some (Value (v, last)) ->
  (last <= Nat.max pos (length data))%nat.
Proof.
  induction fuel as [|fuel IH]; intros scan_end pos view v last; cbn [header_loop]; [done|].
  destruct (pos <? scan_end)%nat eqn:E; [|intros [= <- <-]; lia].
  cbv zeta. pose proof (scan_advances sse data pos delim) as Hadv. cbv zeta in Hadv.
  destruct (_ && _) eqn:Em; [done|]. specialize (Hadv eq_refl). destruct (negb _) eqn:Et.
  - intros [= <- <-]. lia.
  - intros H. apply IH in H. lia.
Qed.

Lemma stored_offset_same_view sse verify data delimiter v :
  Z.of_nat (length data) <= UINT32_MAX ->
  DecodeRawPassThrough sse data delimiter verify = Some (Value v) ->
  DecodeRawPassThroughAt sse data (rv_body_start_offset v) delimiter verify = Some (Value v).
Proof.
  intros Hlen. unfold DecodeRawPassThrough, DecodeRawPassThroughAt, DecodeRawPassThroughImpl. cbv zeta.
  set (delim := if delimiter =? 0 then kFixSoh else delimiter).
  destruct (negb (_ =? tags.kBeginString)); [done|]. destruct (negb (_ =? tags.kBodyLength)); [done|].
  set (spe := sf_next_pos (ScanField sse data (sf_next_pos (ScanField sse data 0 delim)) delim)).
  destruct (_ <? 7)%nat eqn:E7; [done|]. destruct (_ || _ || _ || _); [done|].
  destruct (_ && _); [done|]. destruct (negb (_ =? u64 _)); [done|].
  destruct (_ || _) eqn:Eb; [done|]. apply orb_false_iff in Eb as [Eb _]. apply Nat.ltb_ge in Eb.
  destruct (header_loop _ _ _ false _ _ _ _ _) as [[[view last]|]|] eqn:EL; [|done|done].
  pose proof (header_loop_known _ _ _ _ _ _ _ _ _ EL) as [Hle HK].
  destruct (Z.lt_ge_cases (Z.of_nat last) 4294967296) as [Hl|Hl].
  - rewrite u32_small by ulia. rewrite Nat2Z.id. destruct (_ <? last)%nat eqn:El; [done|].
    apply Nat.ltb_ge in El. intros [= <-].
    assert (Hoff : rv_body_start_offset (finish_view view (ValueView data last (length data - 7 - last)) (Z.of_nat last)) =
                   Z.of_nat last) by (by destruct view).
    rewrite Hoff, Nat2Z.id. rewrite (proj2 (Nat.ltb_ge last spe)) by done.
    rewrite (proj2 (Nat.ltb_ge _ last)) by done. cbn [orb]. rewrite HK. done.
  - exfalso. pose proof (header_loop_bound sse data delim (S (length data)) _ _ _ _ _ EL). ulia.
Qed.

(** when a frame decodes, decoding it again with the body offset found the
    first time (what the store remembers next to a record) takes the shorter
    header-only scan and gives the identical view. *)
Theorem stored_offset_agrees sse verify data delimiter v :
  Z.of_nat (length data) <= UINT32_MAX ->
  DecodeRawPassThrough sse data delimiter verify = Some (Value v) ->
  DecodeRawPassThroughAt sse data (rv_body_start_offset v) delimiter verify = Some (Value v).
Proof. apply stored_offset_same_view. Qed.

(** ** Where the body span is defined *)

Lemma scan_stops_at_delim sse data pos delim k :
  (pos <= k)%nat -> data !! k = Some delim -> (sf_next_pos (ScanField sse data pos delim) <= S k)%nat.
Proof.
  intros Hk Hd. unfold ScanField. destruct (_ <=? pos)%nat; [cbn; lia|]. cbv zeta.
  assert (Hidx : (FindByte sse (drop pos data) delim <= k - pos)%nat).
  { rewrite FindByte_scalar. destruct (scalar_loop_first (fun b => b =? delim) (drop pos data)) as (_ & Hb & _).
    apply Nat.nlt_ge. intros Hlt. specialize (Hb (k - pos)%nat delim Hlt).
    rewrite lookup_drop in Hb. replace (pos + (k - pos))%nat with k in Hb by lia.
    rewrite Z.eqb_refl in Hb. by specialize (Hb Hd). }
  repeat match goal with |- context [if ?b then _ else _] => destruct b end; cbn; try lia.
  destruct (from_chars_u32 _) as [[t n]|]; [destruct (_ =? _)%nat|]; cbn; lia.
Qed.

Lemma header_loop_within sse data known delim k fuel : data !! k = Some delim ->
  forall pos view v last, (pos <= S k)%nat ->
  header_loop sse fuel data known delim (S k) pos pos view = Some (Value (v, last)) -> (last <= S k)%nat.
Proof.
  intros Hk. induction fuel as [|fuel IH]; intros pos view v last Hp; cbn [header_loop]; [done|].
  destruct (pos <? S k)%nat eqn:E; [|intros [= <- <-]; lia]. apply Nat.ltb_lt in E. cbv zeta.
  destruct (_ && _); [done|]. destruct (negb _).
  - destruct known; [done|]. intros [= <- <-]. lia.
  - apply IH. apply scan_stops_at_delim; [lia|done].
Qed.

Lemma header_loop_error sse data known delim scan_end fuel : forall pos last view st,
  header_loop sse fuel data known delim scan_end pos last view = Some (Error st) ->
  st = status.FormatError "malformed FIX field" \/
  st = status.FormatError "stored body_start_offset does not align with a FIX body boundary".
Proof.
  induction fuel as [|fuel IH]; intros pos last view st; cbn [header_loop]; [done|].
  destruct (_ <? _)%nat; [|done]. cbv zeta. destruct (_ && _); [intros [= <-]; by left|].
  destruct (negb _); [destruct known; [intros [= <-]; by right|done]|]. apply IH.
Qed.

(** the decoder always returns (its header scan needs no more rounds than
    the frame has bytes), and the body span it returns lies inside the frame
    whenever the byte in front of the checksum field is the delimiter. *)
Theorem decode_total sse verify data delimiter :
  Z.of_nat (length data) <= UINT32_MAX ->
  DecodeRawPassThrough sse data delimiter verify <> Some (Error (status.IoError "out of fuel")) /\
  (data !! (length data - 8)%nat = Some (effective_delimiter delimiter) -> (8 <= length data)%nat ->
   DecodeRawPassThrough sse data delimiter verify <> None).
Proof.
  intros Hlen. unfold DecodeRawPassThrough, DecodeRawPassThroughImpl. cbv zeta. fold (effective_delimiter delimiter).
  set (delim := effective_delimiter delimiter).
  destruct (negb (_ =? tags.kBeginString)); [done|]. destruct (negb (_ =? tags.kBodyLength)); [done|].
  set (spe := sf_next_pos (ScanField sse data (sf_next_pos (ScanField sse data 0 delim)) delim)).
  destruct (_ <? 7)%nat eqn:E7; [done|]. destruct (_ || _ || _ || _); [done|].
  destruct (_ && _); [done|]. destruct (negb (_ =? u64 _)); [done|].
  destruct (_ || _) eqn:Eb; [done|]. apply orb_false_iff in Eb as [Eb _]. apply Nat.ltb_ge in Eb.
  set (view := set_begin_string _ _).
  pose proof (header_loop_total sse data false delim (length data - 7) (S (length data)) spe spe view
                ltac:(lia) ltac:(lia)) as Ht.
  destruct (header_loop _ _ _ false _ _ _ _ _) as [[[v last]|st]|] eqn:EL; [|split; [|done]|done].
  - split; [destruct (_ <? Z.to_nat _)%nat; discriminate|]. intros Hd H8.
    replace (length data - 7)%nat with (S (length data - 8)) in EL by lia.
    apply header_loop_within in EL; [|done|lia].
    rewrite u32_small by ulia. rewrite Nat2Z.id. rewrite (proj2 (Nat.ltb_ge _ last)) by lia. done.
  - apply header_loop_error in EL as [->| ->]; done.
Qed.

(** without that delimiter the guard is missing.  A frame whose only body
    field is a header field that runs into the checksum field passes the
    checksum and BodyLength checks, and then asks for a body span of negative
    length behind the end of the frame: the call has undefined behaviour. *)
Theorem decode_span_escapes sse verify bs v soh :
  delim_ok soh -> soh ∉ bs -> soh ∉ v ->
  let content := FormatUint32 tags.kMsgType ++ [61] ++ v in
  Z.of_nat (length (make_frame bs content soh)) <= UINT32_MAX ->
  DecodeRawPassThrough sse (make_frame bs content soh) soh verify = None.
Proof.
  intros Hd Hbs Hv content Hlen. set (data := make_frame bs content soh) in *.
  set (f89 := begin_field bs soh ++ length_field content soh). set (P := frame_prefix bs content soh).
  set (v' := v ++ kCheckSumPrefix ++ checksum_digits (sum_scalar P 0 mod 256)).
  assert (HPc : P = f89 ++ content) by (unfold P, frame_prefix, f89; by rewrite <- app_assoc).
  assert (Hdata : data = f89 ++ field_bytes tags.kMsgType v' soh ++ []).
  { change data with (P ++ check_field P soh). unfold check_field, v', field_bytes.
    generalize (checksum_digits (sum_scalar P 0 mod 256)) as ck. intros ck.
    rewrite HPc. unfold content. rewrite app_nil_r, <- !app_assoc. done. }
  assert (HP : length P = (length f89 + length content)%nat) by (by rewrite HPc, length_app).
  assert (Hsize : length data = (length P + 7)%nat) by (unfold data, make_frame; rewrite length_app; done).
  assert (Hcl : (0 < length content)%nat) by (unfold content; rewrite !length_app; cbn; lia).
  assert (Hc : in_u32 (Z.of_nat (length content))) by ulia.
  pose proof (decode_reaches_scan sse verify bs content soh Hd Hbs Hc) as HR. cbv zeta in HR.
  fold data P f89 in HR. rewrite HR. clear HR. unfold after_checks.
  assert (Hok : field_ok soh (tags.kMsgType, v')).
  { split; [unfold tags.kMsgType; cbn; ulia|]. cbn [snd]. unfold v'. rewrite !elem_of_app.
    destruct Hd as (_ & He & Hdg). intros [Hin|[Hin|Hin]]; [done| |].
    - unfold kCheckSumPrefix in Hin. set_unfold in Hin.
      assert (is_digit 49 /\ is_digit 48) as [? ?] by (unfold is_digit; lia). naive_solver.
    - revert Hin. apply digits_not_elem; [|done]. unfold checksum_digits, is_digit. repeat constructor; dlia. }
  destruct (scan_field_at sse f89 tags.kMsgType v' soh [] Hd Hok) as (E1 & E2 & _ & _). rewrite <- Hdata in E1, E2.
  cbn [header_loop]. rewrite (proj2 (Nat.ltb_lt _ _)) by lia. cbv zeta. rewrite E1, E2.
  change (IsSessionHeaderTag tags.kMsgType) with true. cbn [negb].
  assert (Hend : (length f89 + length (field_bytes tags.kMsgType v' soh))%nat = length data).
  { rewrite Hdata, app_nil_r, length_app. done. }
  rewrite Hend. change (tags.kMsgType =? 0) with false. cbn [andb].
  destruct (length data) as [|size] eqn:Es; [lia|]. cbn [header_loop].
  rewrite (proj2 (Nat.ltb_ge (S size) (length P))) by lia. rewrite u32_small by ulia. rewrite Nat2Z.id.
  rewrite (proj2 (Nat.ltb_lt _ _)) by lia. done.
Qed.

(** ** Witnesses *)

Definition demo_stored : RawPassThroughView :=
  MkRaw (bytes "FIX.4.4") (bytes "D") 7 (bytes "A") [] (bytes "B") (bytes "DESK") [] [] [] (bytes "9")
    (bytes "20240101-00:00:00") [] false false (field_bytes 11 (bytes "ID=1") 1 ++ field_bytes 55 (bytes "X") 1) 0 [] true.
Definition demo_replay (zero_copy : bool) : ReplayOptions :=
  MkReplay (bytes "A") [] (bytes "B") [] (bytes "FIX.4.4") [] [] [] [] 7 (bytes "20240102-00:00:00")
    (bytes "20240101-00:00:00") false 0 zero_copy.
Definition demo_forward : ForwardingOptions :=
  MkForwarding (bytes "S") [] (bytes "T") (bytes "SUB") 12 (bytes "20240102-00:00:00") [] (bytes "ORIG") [] false true [] 0.

Lemma demo_body_ok : body_ok 1 (rv_raw_body demo_stored).
Proof.
  right. exists 11, (bytes "ID=1"), (field_bytes 55 (bytes "X") 1). split; [reflexivity|]. split; [|reflexivity].
  split; [cbn; unfold in_u32; lia|]. cbn. set_solver.
Qed.

Lemma demo_delim_ok : delim_ok 1.
Proof. unfold delim_ok, is_digit. lia. Qed.

(** Decides that a byte does not occur in closed texts. *)
Ltac closed_forall := apply (bool_decide_unpack _); vm_compute; reflexivity.

Lemma replay_encoders_agree_witness :
  exists frame size, EncodeReplayInto true demo_stored (demo_replay true) = Value (frame, size) /\
    EncodeReplay demo_stored (demo_replay true) = Value (frame_wire frame) /\ external_body frame <> [].
Proof.
  destruct (replay_encoders_agree true demo_stored (demo_replay true)) as (frame & size & H1 & H2 & _).
  - reflexivity.
  - apply Forall_forall. intros b Hb.
    assert (Hall : forallb (fun b => (0 <=? b) && (b <=? 255)) (rv_raw_body demo_stored) = true) by reflexivity.
    rewrite forallb_forall in Hall. apply list_elem_of_In in Hb. specialize (Hall b Hb).
    apply andb_true_iff in Hall as [Ha Hc]. apply Z.leb_le in Ha, Hc. split; assumption.
  - reflexivity.
  - vm_compute. reflexivity.
  - exists frame, size. split; [exact H1|]. split; [exact H2|].
    assert (E : match EncodeReplayInto true demo_stored (demo_replay true) with
                | Value (f, _) => match external_body f with [] => false | _ => true end
                | Error _ => false end = true) by (vm_compute; reflexivity).
    rewrite H1 in E. destruct (external_body frame); discriminate.
Defined.

Definition demo_wire : list Z :=
  match EncodeReplay demo_stored (demo_replay false) with Value w => w | Error _ => [] end.

Lemma replay_roundtrip_witness :
  exists v, DecodeRawPassThrough true demo_wire 1 true = Some (Value v) /\
    rv_raw_body v = rv_raw_body demo_stored /\ rv_poss_dup v = true /\ rv_msg_seq_num v = 7.
Proof.
  eexists. split.
  - apply (replay_roundtrip true true demo_stored (demo_replay false) demo_wire 1).
    + reflexivity.
    + exact demo_delim_ok.
    + split; [closed_forall|closed_forall].
    + exact demo_body_ok.
    + vm_compute. split; discriminate.
    + vm_compute. split; discriminate.
    + vm_compute. split; discriminate.
    + vm_compute. reflexivity.
  - repeat split.
Defined.

Definition demo_forward_wire : list Z :=
  match EncodeForwarded demo_stored demo_forward with Value w => w | Error _ => [] end.

Lemma forward_roundtrip_witness :
  exists v, DecodeRawPassThrough false demo_forward_wire 1 true = Some (Value v) /\
    rv_raw_body v = rv_raw_body demo_stored /\ rv_msg_seq_num v = 12 /\ rv_on_behalf_of_comp_id v = bytes "ORIG".
Proof.
  eexists. split.
  - apply (forward_roundtrip false true demo_stored demo_forward demo_forward_wire 1).
    + reflexivity.
    + exact demo_delim_ok.
    + split; [closed_forall|closed_forall].
    + exact demo_body_ok.
    + vm_compute. split; discriminate.
    + vm_compute. split; discriminate.
    + vm_compute. split; discriminate.
    + vm_compute. reflexivity.
  - repeat split.
Defined.

Definition demo_decoded : RawPassThroughView :=
  match DecodeRawPassThrough true demo_wire 1 true with Some (Value v) => v | _ => demo_stored end.

Lemma stored_offset_agrees_witness :
  rv_body_start_offset demo_decoded = 98 /\
  DecodeRawPassThroughAt true demo_wire (rv_body_start_offset demo_decoded) 1 true = Some (Value demo_decoded).
Proof.
  split; [vm_compute; reflexivity|].
  apply (stored_offset_agrees true true demo_wire 1 demo_decoded).
  - vm_compute. discriminate.
  - vm_compute. reflexivity.
Defined.

Lemma decode_total_witness : DecodeRawPassThrough true demo_wire 1 true <> None.
Proof.
  refine (proj2 (decode_total true true demo_wire 1 _) _ _).
  - vm_compute. discriminate.
  - vm_compute. reflexivity.
  - vm_compute. lia.
Defined.

Lemma decode_span_escapes_witness :
  DecodeRawPassThrough true (make_frame (bytes "FIX.4.4") (bytes "35=D") 1) 1 true = None.
Proof.
  apply (decode_span_escapes true true (bytes "FIX.4.4") (bytes "D") 1 demo_delim_ok).
  - closed_forall.
  - closed_forall.
  - vm_compute. discriminate.
Defined.
