(* ===== verification/Message.v ===== *)
(** * Messages

    The part of [include/public/nimblefix/message/message_structs.h],
    [message_view.h] and [src/message/message.cpp] the session layer uses: the
    writer that builds admin messages, and the read accessors of a message view.
    A view is a tree; an owned message and a parsed frame give views with the same
    accessors.  Decoded headers and validation issues
    ([include/public/nimblefix/codec/fix_codec.h]) are here as well. *)
From S2P Require Import Prelude Base FixTags.

Definition kFieldString : Z := 0.
Definition kFieldInt : Z := 1.
Definition kFieldFloat : Z := 2.
Definition kFieldChar : Z := 3.
Definition kFieldBoolean : Z := 4.

(** [std::variant<string, int64, double, char, bool>]; a double is its 64-bit
    pattern. *)
Inductive FieldVariant :=
  | VString (s : string) | VInt (i : Z) | VFloat (bits : Z) | VChar (c : Z) | VBool (b : bool).

Record FieldValue := MkFieldValue { fv_tag : Z; fv_value : FieldVariant }.

Definition type_index (f : FieldValue) : Z :=
  match fv_value f with
  | VString _ => kFieldString | VInt _ => kFieldInt | VFloat _ => kFieldFloat
  | VChar _ => kFieldChar | VBool _ => kFieldBoolean
  end.

Record FieldView := MkFieldView {
  f_tag : Z;
  f_type : Z;
  f_string_value : string;
  f_int_value : Z;
  f_float_value : Z;
  f_char_value : Z;
  f_bool_value : bool;
}.

(** An owned message: fields in insertion order, groups by count tag. *)
Inductive MessageData :=
  | MkMessageData (msg_type : string) (fields : list FieldValue) (groups : list (Z * list MessageData)).

Definition md_msg_type (m : MessageData) : string := let 'MkMessageData t _ _ := m in t.
Definition md_fields (m : MessageData) : list FieldValue := let 'MkMessageData _ f _ := m in f.
Definition md_groups (m : MessageData) : list (Z * list MessageData) := let 'MkMessageData _ _ g := m in g.

(** ** The writer *)

Definition MessageDataWriter (msg_type : string) : MessageData := MkMessageData msg_type [] [].

(** Overwrites the first field with the tag, or appends. *)
Fixpoint UpsertField (fields : list FieldValue) (value : FieldValue) : list FieldValue :=
  match fields with
  | [] => [value]
  | f :: rest => if fv_tag f =? fv_tag value then value :: rest else f :: UpsertField rest value
  end.

Definition upsert_field (value : FieldValue) (m : MessageData) : MessageData :=
  let 'MkMessageData t f g := m in MkMessageData t (UpsertField f value) g.
Definition set_string (tag : Z) (v : string) : MessageData -> MessageData := upsert_field (MkFieldValue tag (VString v)).
Definition set_int (tag : Z) (v : Z) : MessageData -> MessageData := upsert_field (MkFieldValue tag (VInt v)).
Definition set_char (tag : Z) (v : Z) : MessageData -> MessageData := upsert_field (MkFieldValue tag (VChar v)).
Definition set_boolean (tag : Z) (v : bool) : MessageData -> MessageData := upsert_field (MkFieldValue tag (VBool v)).
Definition add_string (tag : Z) (v : string) (m : MessageData) : MessageData :=
  let 'MkMessageData t f g := m in MkMessageData t (f ++ [MkFieldValue tag (VString v)]) g.

(** ** Views *)

Inductive MessageView :=
  | MkMessageView (msg_type : string) (fields : list FieldView) (groups : list (Z * list MessageView)).

Definition msg_type (v : MessageView) : string := let 'MkMessageView t _ _ := v in t.
Definition view_fields (v : MessageView) : list FieldView := let 'MkMessageView _ f _ := v in f.
Definition view_groups (v : MessageView) : list (Z * list MessageView) := let 'MkMessageView _ _ g := v in g.

(** The visitor of [field_at]: only the member of the stored type is set. *)
Definition owned_field_view (f : FieldValue) : FieldView :=
  match fv_value f with
  | VString s => MkFieldView (fv_tag f) (type_index f) s 0 0 0 false
  | VInt i => MkFieldView (fv_tag f) (type_index f) "" i 0 0 false
  | VFloat d => MkFieldView (fv_tag f) (type_index f) "" 0 d 0 false
  | VChar c => MkFieldView (fv_tag f) (type_index f) "" 0 0 c false
  | VBool b => MkFieldView (fv_tag f) (type_index f) "" 0 0 0 b
  end.

Fixpoint owned_view (m : MessageData) : MessageView :=
  let 'MkMessageData t f g := m in
  MkMessageView t (map owned_field_view f) (map (fun '(tag, entries) => (tag, map owned_view entries)) g).

Definition find_field_view (v : MessageView) (tag : Z) : option FieldView :=
  match List.find (fun f => f_tag f =? tag) (view_fields v) with
  | Some f => Some f
  | None =>
      if (tag =? tags.kMsgType) && negb (bool_decide (msg_type v = ""))
      then Some (MkFieldView tags.kMsgType kFieldString (msg_type v) 0 0 0 false)
      else None
  end.

Definition has_field (v : MessageView) (tag : Z) : bool :=
  match find_field_view v tag with Some _ => true | None => false end.

Definition get_string (v : MessageView) (tag : Z) : option string :=
  match find_field_view v tag with
  | Some f => if f_type f =? kFieldString then Some (f_string_value f) else None
  | None => None
  end.
Definition get_int (v : MessageView) (tag : Z) : option Z :=
  match find_field_view v tag with
  | Some f => if f_type f =? kFieldInt then Some (f_int_value f) else None
  | None => None
  end.
Definition get_boolean (v : MessageView) (tag : Z) : option bool :=
  match find_field_view v tag with
  | Some f => if f_type f =? kFieldBoolean then Some (f_bool_value f) else None
  | None => None
  end.

(** ** Decoded messages *)

Module ValidationIssueKind.
Inductive t :=
  | kNone | kUnknownField | kFieldNotAllowed | kDuplicateField | kIncorrectNumInGroupCount
  | kTagSpecifiedWithoutAValue | kIncorrectDataFormatForValue | kTagSpecifiedOutOfRequiredOrder
  | kRepeatingGroupFieldsOutOfRequiredOrder | kEnumValueNotAllowed.
End ValidationIssueKind.

Record ValidationIssue := MkIssue {
  issue_kind : ValidationIssueKind.t;
  issue_tag : Z;
  issue_text : string;
}.

Definition issue_present (i : ValidationIssue) : bool :=
  match issue_kind i with ValidationIssueKind.kNone => false | _ => true end.

Record SessionHeaderView := MkHeader {
  h_begin_string : string;
  h_msg_type : string;
  h_sender_comp_id : string;
  h_sender_sub_id : string;
  h_target_comp_id : string;
  h_target_sub_id : string;
  h_on_behalf_of_comp_id : string;
  h_deliver_to_comp_id : string;
  h_default_appl_ver_id : string;
  h_appl_ver_id : string;
  h_sending_time : string;
  h_orig_sending_time : string;
  h_body_length : Z;
  h_msg_seq_num : Z;
  h_checksum : Z;
  h_poss_dup : bool;
  h_poss_resend : bool;
}.

Record DecodedMessageView := MkDecoded {
  d_message : MessageView;
  d_header : SessionHeaderView;
  d_raw : list Z;
  d_validation_issue : ValidationIssue;
}.

(** ** Lemmas *)

Lemma UpsertField_find fields value tag :
  List.find (fun f => f_tag f =? tag) (map owned_field_view (UpsertField fields value)) =
  if fv_tag value =? tag then Some (owned_field_view value)
  else List.find (fun f => f_tag f =? tag) (map owned_field_view fields).
Proof.
  assert (Htag : forall f, f_tag (owned_field_view f) = fv_tag f) by (intros [? []]; done).
  induction fields as [|f rest IH]; cbn.
  - rewrite Htag. by destruct (_ =? _).
  - destruct (Z.eqb_spec (fv_tag f) (fv_tag value)) as [E|E]; cbn; rewrite !Htag, ?E.
    + by destruct (fv_tag value =? tag).
    + rewrite IH. destruct (Z.eqb_spec (fv_tag f) tag), (Z.eqb_spec (fv_tag value) tag); congruence.
Qed.

(** What a setter stores is what the getters find; other tags are untouched. *)
Lemma find_upsert value m tag :
  find_field_view (owned_view (upsert_field value m)) tag =
  if fv_tag value =? tag then Some (owned_field_view value) else find_field_view (owned_view m) tag.
Proof.
  destruct m as [t f g]. unfold find_field_view. cbn [owned_view upsert_field view_fields msg_type].
  rewrite UpsertField_find. by destruct (_ =? _).
Qed.

Lemma get_int_set_int tag v m : get_int (owned_view (set_int tag v m)) tag = Some v.
Proof. unfold get_int, set_int. rewrite find_upsert. cbn. by rewrite Z.eqb_refl. Qed.
