(* ===== verification/Validation.v ===== *)
(** * Validation policy

    [include/public/nimblefix/session/validation_policy.h],
    [validation_callback.h] and the helpers of [src/session/admin_protocol.cpp]
    that decide whether a validation issue rejects an inbound message. *)
From S2P Require Import Prelude Base FixTags Message.
From stdpp Require Import pretty.
Open Scope Z_scope.

Inductive ValidationMode := kStrict | kCompatible | kPermissive | kRawPassThrough.

Module UnknownFieldAction.
Inductive t := kReject | kIgnore | kLogAndProcess.
End UnknownFieldAction.

Module MalformedFieldAction.
Inductive t := kReject | kIgnore | kLog.
End MalformedFieldAction.

Record ValidationPolicy := MkPolicy {
  mode : ValidationMode;
  enforce_comp_ids : bool;
  require_default_appl_ver_id_on_logon : bool;
  require_orig_sending_time_on_poss_dup : bool;
  reject_on_stale_msg_seq_num : bool;
  require_known_app_message_type : bool;
  require_required_fields_on_app_messages : bool;
  reject_unknown_fields : bool;
  reject_duplicate_fields : bool;
  reject_tag_without_value : bool;
  reject_incorrect_data_format : bool;
  reject_fields_out_of_order : bool;
  reject_invalid_group_structure : bool;
  verify_checksum : bool;
  unknown_field_action : UnknownFieldAction.t;
  malformed_field_action : MalformedFieldAction.t;
  validate_enum_values : bool;
}.

Definition Strict : ValidationPolicy :=
  MkPolicy kStrict true true true true true false true true true true true true true
    UnknownFieldAction.kReject MalformedFieldAction.kReject true.
Definition Compatible : ValidationPolicy :=
  MkPolicy kCompatible true false false true false false false false true true false true true
    UnknownFieldAction.kIgnore MalformedFieldAction.kReject true.
Definition Permissive : ValidationPolicy :=
  MkPolicy kPermissive false false false false false false false false false false false false true
    UnknownFieldAction.kIgnore MalformedFieldAction.kIgnore false.
Definition RawPassThrough : ValidationPolicy :=
  MkPolicy kRawPassThrough false false false false false false false false false false false false false
    UnknownFieldAction.kIgnore MalformedFieldAction.kIgnore false.

(** User code behind [ValidationCallback]: the two decisions it takes.  Its
    notifications are recorded by the caller. *)
Record ValidationCallback := MkCallback {
  OnUnknownField : Z -> Z -> string -> string -> bool;
  OnMalformedField : Z -> Z -> string -> string -> string -> bool;
}.

(** The calls of [OnValidationWarning]: issue and message type. *)
Definition Warnings : Type := list (ValidationIssue * string).

Definition NotifyValidationWarning (issue : ValidationIssue) (msg_type : string) (callback : option ValidationCallback)
    : Warnings :=
  match callback with None => [] | Some _ => [(issue, msg_type)] end.

(** The decision, and the warnings the callback was given. *)
Definition ShouldRejectValidationIssue (policy : ValidationPolicy) (issue : ValidationIssue) (session_id : Z)
    (msg_type issue_value : string) (callback : option ValidationCallback) : bool * Warnings :=
  let accept := (false, NotifyValidationWarning issue msg_type callback) in
  let reject := (true, []) in
  let log_unknown :=
    match callback with
    | Some cb => if negb (OnUnknownField cb session_id (issue_tag issue) issue_value msg_type) then reject else accept
    | None => accept
    end in
  let log_malformed :=
    match callback with
    | Some cb =>
        if negb (OnMalformedField cb session_id (issue_tag issue) issue_value msg_type (issue_text issue))
        then reject else accept
    | None => accept
    end in
  match issue_kind issue with
  | ValidationIssueKind.kUnknownField | ValidationIssueKind.kFieldNotAllowed =>
      match unknown_field_action policy with
      | UnknownFieldAction.kIgnore => accept
      | UnknownFieldAction.kLogAndProcess => log_unknown
      | UnknownFieldAction.kReject => if reject_unknown_fields policy then reject else accept
      end
  | ValidationIssueKind.kTagSpecifiedWithoutAValue => if reject_tag_without_value policy then reject else accept
  | ValidationIssueKind.kIncorrectDataFormatForValue =>
      match malformed_field_action policy with
      | MalformedFieldAction.kIgnore => accept
      | MalformedFieldAction.kLog => log_malformed
      | MalformedFieldAction.kReject => if reject_incorrect_data_format policy then reject else accept
      end
  | ValidationIssueKind.kTagSpecifiedOutOfRequiredOrder => if reject_fields_out_of_order policy then reject else accept
  | ValidationIssueKind.kDuplicateField => if reject_duplicate_fields policy then reject else accept
  | ValidationIssueKind.kRepeatingGroupFieldsOutOfRequiredOrder =>
      if reject_fields_out_of_order policy then reject else accept
  | ValidationIssueKind.kIncorrectNumInGroupCount => if reject_invalid_group_structure policy then reject else accept
  | ValidationIssueKind.kEnumValueNotAllowed =>
      if negb (validate_enum_values policy) then accept
      else match malformed_field_action policy with
           | MalformedFieldAction.kIgnore => accept
           | MalformedFieldAction.kLog => log_malformed
           | MalformedFieldAction.kReject => reject
           end
  | ValidationIssueKind.kNone => (false, [])
  end.

(** Depth-first: the fields of the entry, then the entries of its groups. *)
Fixpoint FindFieldValue (v : MessageView) (tag : Z) : option string :=
  let 'MkMessageView _ fields groups := v in
  match List.find (fun f => f_tag f =? tag) fields with
  | Some f => Some (f_string_value f)
  | None =>
      (fix in_groups (gs : list (Z * list MessageView)) : option string :=
         match gs with
         | [] => None
         | (_, entries) :: gs =>
             match (fix in_entries (es : list MessageView) : option string :=
                      match es with
                      | [] => None
                      | e :: es => match FindFieldValue e tag with Some s => Some s | None => in_entries es end
                      end) entries with
             | Some s => Some s
             | None => in_groups gs
             end
         end) groups
  end.

(** What the session layer asks of the bound dictionary. *)
Class Dictionary := {
  find_message : string -> bool;
  (** [Some n] when the field is defined; [n] is its [enum_count]. *)
  find_field_enum_count : Z -> option Z;
  is_enum_value_allowed : Z -> string -> bool;
  (** [TypedMessageView::validate_required_fields]: the missing tag and message. *)
  validate_required_fields : MessageView -> option (Z * string);
}.

Section Enum.
Context `{Dictionary}.

Definition enum_issue (f : FieldView) : option ValidationIssue :=
  match find_field_enum_count (f_tag f) with
  | None => None
  | Some n =>
      if (n =? 0) || is_enum_value_allowed (f_tag f) (f_string_value f) then None
      else Some (MkIssue ValidationIssueKind.kEnumValueNotAllowed (f_tag f)
                   ("field " ++ pretty (f_tag f) ++ " has an enum value not present in the bound dictionary"))
  end.

Fixpoint first_enum_issue (fields : list FieldView) : option ValidationIssue :=
  match fields with
  | [] => None
  | f :: rest => match enum_issue f with Some i => Some i | None => first_enum_issue rest end
  end.

Fixpoint FindEnumValidationIssueInView (v : MessageView) : option ValidationIssue :=
  let 'MkMessageView _ fields groups := v in
  match first_enum_issue fields with
  | Some i => Some i
  | None =>
      (fix in_groups (gs : list (Z * list MessageView)) : option ValidationIssue :=
         match gs with
         | [] => None
         | (_, entries) :: gs =>
             match (fix in_entries (es : list MessageView) : option ValidationIssue :=
                      match es with
                      | [] => None
                      | e :: es =>
                          match FindEnumValidationIssueInView e with Some i => Some i | None => in_entries es end
                      end) entries with
             | Some i => Some i
             | None => in_groups gs
             end
         end) groups
  end.

Definition FindEnumValidationIssue (policy : ValidationPolicy) (callback : option ValidationCallback)
    (decoded : DecodedMessageView) : option ValidationIssue :=
  if negb (validate_enum_values policy) && (match callback with None => true | Some _ => false end) then None
  else FindEnumValidationIssueInView (d_message decoded).
End Enum.

Definition kSessionRejectInvalidTagNumber : Z := 0.
Definition kSessionRejectRequiredTagMissing : Z := 1.
Definition kSessionRejectTagNotDefinedForMessage : Z := 2.
Definition kSessionRejectTagSpecifiedWithoutAValue : Z := 4.
Definition kSessionRejectValueIncorrect : Z := 5.
Definition kSessionRejectIncorrectDataFormatForValue : Z := 6.
Definition kSessionRejectDecryptionProblem : Z := 7.
Definition kSessionRejectCompIdProblem : Z := 9.
Definition kSessionRejectSendingTimeAccuracyProblem : Z := 10.
Definition kSessionRejectInvalidMsgType : Z := 11.
Definition kSessionRejectTagAppearsMoreThanOnce : Z := 13.
Definition kSessionRejectTagSpecifiedOutOfRequiredOrder : Z := 14.
Definition kSessionRejectRepeatingGroupFieldsOutOfRequiredOrder : Z := 15.
Definition kSessionRejectIncorrectNumInGroupCount : Z := 16.

Definition ValidationIssueRejectReason (issue : ValidationIssue) : Z :=
  match issue_kind issue with
  | ValidationIssueKind.kFieldNotAllowed => kSessionRejectTagNotDefinedForMessage
  | ValidationIssueKind.kUnknownField => kSessionRejectInvalidTagNumber
  | ValidationIssueKind.kTagSpecifiedWithoutAValue => kSessionRejectTagSpecifiedWithoutAValue
  | ValidationIssueKind.kIncorrectDataFormatForValue => kSessionRejectIncorrectDataFormatForValue
  | ValidationIssueKind.kDuplicateField => kSessionRejectTagAppearsMoreThanOnce
  | ValidationIssueKind.kTagSpecifiedOutOfRequiredOrder => kSessionRejectTagSpecifiedOutOfRequiredOrder
  | ValidationIssueKind.kRepeatingGroupFieldsOutOfRequiredOrder => kSessionRejectRepeatingGroupFieldsOutOfRequiredOrder
  | ValidationIssueKind.kIncorrectNumInGroupCount => kSessionRejectIncorrectNumInGroupCount
  | ValidationIssueKind.kEnumValueNotAllowed => kSessionRejectValueIncorrect
  | ValidationIssueKind.kNone => 0
  end.

(** ** Properties *)


(** the presets are ordered.  Whatever the callback, [Strict] rejects
    every present issue, an issue rejected by [Compatible] is rejected by
    [Strict], and [Permissive] and [RawPassThrough] reject nothing; and a policy
    never both rejects an issue and reports it as accepted. *)
Theorem policy_presets_ordered sid mt value i cb :
  fst (ShouldRejectValidationIssue Strict i sid mt value cb) = issue_present i /\
  (fst (ShouldRejectValidationIssue Compatible i sid mt value cb) = true ->
   fst (ShouldRejectValidationIssue Strict i sid mt value cb) = true) /\
  fst (ShouldRejectValidationIssue Permissive i sid mt value cb) = false /\
  fst (ShouldRejectValidationIssue RawPassThrough i sid mt value cb) = false /\
  (forall p, fst (ShouldRejectValidationIssue p i sid mt value cb) = true ->
     snd (ShouldRejectValidationIssue p i sid mt value cb) = []).
Proof.
  unfold ShouldRejectValidationIssue, issue_present. split; [|split; [|split; [|split]]].
  1-4: by destruct (issue_kind i).
  intros p. repeat split_if; cbn in *; congruence.
Qed.

Lemma policy_presets_ordered_witness :
  fst (ShouldRejectValidationIssue Strict (MkIssue ValidationIssueKind.kDuplicateField 11 "") 1 "D" "x" None) = true.
Proof. exact (proj1 (policy_presets_ordered 1 "D" "x" (MkIssue ValidationIssueKind.kDuplicateField 11 "") None)). Defined.
