(* ===== verification/Frame.v ===== *)
(** * Outbound frames of the session layer

    The two byte-level helpers of [src/session/admin_protocol.cpp]:
    [EncodePreEncodedApplicationToBuffer], which wraps an application body that
    is already encoded into a complete FIX frame, and [ComputeBodyStartOffset],
    which finds the offset that is stored next to each outbound record so that a
    later replay can skip the header.  The theorems relate both to the raw
    pass-through decoder that reads the stored frames. *)
From S2P Require Import Prelude Base IntFormat Scan FixTags Wire RawPassThrough.

Inductive TimestampResolution := kSeconds | kMilliseconds | kMicroseconds | kNanoseconds.

Record EncodeOptions := MkEncodeOptions {
  eo_begin_string : list Z;
  eo_sender_comp_id : list Z;
  eo_sender_sub_id : list Z;
  eo_target_comp_id : list Z;
  eo_target_sub_id : list Z;
  eo_on_behalf_of_comp_id : list Z;
  eo_deliver_to_comp_id : list Z;
  eo_default_appl_ver_id : list Z;
  eo_appl_ver_id : list Z;
  eo_sending_time : list Z;
  eo_orig_sending_time : list Z;
  eo_timestamp_resolution : TimestampResolution;
  eo_msg_seq_num : Z;
  eo_poss_dup : bool;
  eo_poss_resend : bool;
  eo_delimiter : Z;
}.

Record EncodedOutboundExtrasView := MkExtras { header_fragment : list Z; body_fragment : list Z }.

Definition extras_empty (e : EncodedOutboundExtrasView) : bool := text_empty (header_fragment e) && text_empty (body_fragment e).

Record EncodedApplicationMessageView := MkEncodedMessage {
  em_msg_type : list Z;
  em_body : list Z;
  em_extras : EncodedOutboundExtrasView;
}.

Definition em_valid (m : EncodedApplicationMessageView) : bool := negb (text_empty (em_msg_type m)).

(** [now] is what [CurrentUtcTimestamp] returns for the chosen resolution. *)
Definition EncodePreEncodedApplicationToBuffer (has_sse2 : bool) (now : TimestampResolution -> list Z)
    (message : EncodedApplicationMessageView) (options : EncodeOptions) (extras : EncodedOutboundExtrasView)
    : Result (list Z) :=
  if negb (em_valid message) then Error (status.InvalidArgument "encoded application message is invalid")
  else
    let delimiter := if eo_delimiter options =? 0 then kFixSoh else eo_delimiter options in
    let begin_string := if text_empty (eo_begin_string options) then bytes "FIX.4.4" else eo_begin_string options in
    let out := kBeginStringPrefix ++ begin_string ++ [delimiter] in
    let out := out ++ kBodyLengthPrefix in
    let body_length_offset := length out in
    let out := out ++ repeat 48 kBodyLengthPlaceholderWidth ++ [delimiter] in
    let body_start := length out in
    let out := AppendStringField out kMsgTypePrefix (em_msg_type message) delimiter in
    let out := AppendCountField out kMsgSeqNumPrefix
                 (if eo_msg_seq_num options =? 0 then 1 else eo_msg_seq_num options) delimiter in
    let out := append_nonempty out kSenderCompIDPrefix (eo_sender_comp_id options) delimiter in
    let out := append_nonempty out kSenderSubIDPrefix (eo_sender_sub_id options) delimiter in
    let out := append_nonempty out kTargetCompIDPrefix (eo_target_comp_id options) delimiter in
    let out := append_nonempty out kTargetSubIDPrefix (eo_target_sub_id options) delimiter in
    let sending_time := if text_empty (eo_sending_time options) then now (eo_timestamp_resolution options)
                        else eo_sending_time options in
    let out := AppendStringField out kSendingTimePrefix sending_time delimiter in
    let out := if bytes_eqb (em_msg_type message) (bytes "A") && negb (text_empty (eo_default_appl_ver_id options))
               then AppendStringField out kDefaultApplVerIDPrefix (eo_default_appl_ver_id options) delimiter else out in
    let out := append_nonempty out kApplVerIDPrefix (eo_appl_ver_id options) delimiter in
    let out := if eo_poss_dup options then out ++ kPossDupFlagYesField ++ [delimiter] else out in
    let out := if eo_poss_resend options then out ++ kPossResendYesField ++ [delimiter] else out in
    let out := append_nonempty out kOrigSendingTimePrefix (eo_orig_sending_time options) delimiter in
    let out := append_nonempty out kOnBehalfOfCompIDPrefix (eo_on_behalf_of_comp_id options) delimiter in
    let out := append_nonempty out kDeliverToCompIDPrefix (eo_deliver_to_comp_id options) delimiter in
    let out := if negb (text_empty (header_fragment extras)) then out ++ header_fragment extras else out in
    let out := if negb (text_empty (em_body message)) then out ++ em_body message else out in
    let out := if negb (text_empty (body_fragment extras)) then out ++ body_fragment extras else out in
    let body_length := u32 (Z.of_nat (length out - body_start)) in
    let digits := FormatUint32 body_length in
    if (kBodyLengthPlaceholderWidth <? length digits)%nat
    then Error (status.FormatError "encoded body length exceeds BodyLength placeholder width")
    else
      let out := string_replace out body_length_offset kBodyLengthPlaceholderWidth digits in
      let checksum := ComputeChecksumSIMD has_sse2 out mod 256 in
      Value (out ++ kCheckSumPrefix ++ checksum_digits checksum ++ [delimiter]).

(** The tag in front of an equals sign; [None] at the first non-digit. *)
Fixpoint parse_tag (digits : list Z) (tag : Z) : option Z :=
  match digits with
  | [] => Some tag
  | c :: rest => if digitb c then parse_tag rest (u32 (u32 (tag * 10) + (c - 48))) else None
  end.

(** The [while (pos < size)] loop; every round advances, so the frame length is
    enough fuel. *)
Fixpoint body_offset_loop (fuel : nat) (data : list Z) (pos last_header_end : nat) : Z :=
  match fuel with
  | O => u32 (Z.of_nat last_header_end)
  | S fuel =>
      let size := length data in
      if (pos <? size)%nat then
        let eq := (pos + scalar_loop (fun b => (b =? 61)%Z) (drop pos data))%nat in
        if (size <=? eq)%nat || (eq =? pos)%nat then u32 (Z.of_nat last_header_end)
        else
          match parse_tag (take (eq - pos) (drop pos data)) 0 with
          | None => u32 (Z.of_nat last_header_end)
          | Some tag =>
              let soh := (eq + 1 + scalar_loop (fun b => (b =? 1)%Z) (drop (eq + 1) data))%nat in
              if (size <=? soh)%nat then u32 (Z.of_nat last_header_end)
              else if tags.IsAggregateSessionEnvelopeTag tag
              then body_offset_loop fuel data (soh + 1) (soh + 1)
              else u32 (Z.of_nat last_header_end)
          end
      else u32 (Z.of_nat last_header_end)
  end.

Definition ComputeBodyStartOffset (frame : list Z) : Z := body_offset_loop (S (length frame)) frame 0 0.

(** ** Reference *)

Definition pre_encoded_begin_string (o : EncodeOptions) : list Z :=
  ResolveReplayString (eo_begin_string o) (bytes "FIX.4.4").

Definition pre_encoded_fields (now : TimestampResolution -> list Z) (m : EncodedApplicationMessageView) (o : EncodeOptions)
    : list (Z * list Z) :=
  [(tags.kMsgType, em_msg_type m)] ++
  [(tags.kMsgSeqNum, FormatUint32 (if eo_msg_seq_num o =? 0 then 1 else eo_msg_seq_num o))] ++
  opt_field tags.kSenderCompID (eo_sender_comp_id o) ++ opt_field tags.kSenderSubID (eo_sender_sub_id o) ++
  opt_field tags.kTargetCompID (eo_target_comp_id o) ++ opt_field tags.kTargetSubID (eo_target_sub_id o) ++
  [(tags.kSendingTime, if text_empty (eo_sending_time o) then now (eo_timestamp_resolution o) else eo_sending_time o)] ++
  (if bytes_eqb (em_msg_type m) (bytes "A") then opt_field tags.kDefaultApplVerID (eo_default_appl_ver_id o) else []) ++
  opt_field tags.kApplVerID (eo_appl_ver_id o) ++
  flag_field tags.kPossDupFlag (eo_poss_dup o) ++ flag_field tags.kPossResend (eo_poss_resend o) ++
  opt_field tags.kOrigSendingTime (eo_orig_sending_time o) ++
  opt_field tags.kOnBehalfOfCompID (eo_on_behalf_of_comp_id o) ++
  opt_field tags.kDeliverToCompID (eo_deliver_to_comp_id o).

(** Header fragment, body and body fragment: appended in this order, never
    interleaved. *)
Definition pre_encoded_body (m : EncodedApplicationMessageView) (x : EncodedOutboundExtrasView) : list Z :=
  header_fragment x ++ em_body m ++ body_fragment x.

Definition pre_encoded_content now (m : EncodedApplicationMessageView) (o : EncodeOptions) (x : EncodedOutboundExtrasView)
    : list Z :=
  render (pre_encoded_fields now m o) (effective_delimiter (eo_delimiter o)) ++ pre_encoded_body m x.

(** ** Lemmas *)

Lemma append_default_appl out (b : bool) v soh :
  (if b && negb (text_empty v) then AppendStringField out kDefaultApplVerIDPrefix v soh else out) =
  out ++ render (if b then opt_field tags.kDefaultApplVerID v else []) soh.
Proof.
  destruct b; cbn [andb]; [|by rewrite app_nil_r].
  exact (append_nonempty_render out kDefaultApplVerIDPrefix tags.kDefaultApplVerID v soh eq_refl).
Qed.

Lemma append_poss_dup_literal out (b : bool) soh :
  (if b then out ++ kPossDupFlagYesField ++ [soh] else out) = out ++ render (flag_field tags.kPossDupFlag b) soh.
Proof. destruct b; [done|by rewrite app_nil_r]. Qed.

Lemma append_poss_resend_literal out (b : bool) soh :
  (if b then out ++ kPossResendYesField ++ [soh] else out) = out ++ render (flag_field tags.kPossResend b) soh.
Proof. destruct b; [done|by rewrite app_nil_r]. Qed.

Lemma EncodePreEncoded_frame sse now m o x :
  em_valid m = true -> in_u32 (Z.of_nat (length (pre_encoded_content now m o x))) ->
  Forall is_byte (make_frame (pre_encoded_begin_string o) (pre_encoded_content now m o x)
                    (effective_delimiter (eo_delimiter o))) ->
  EncodePreEncodedApplicationToBuffer sse now m o x =
    if fits_placeholder (pre_encoded_content now m o x)
    then Value (make_frame (pre_encoded_begin_string o) (pre_encoded_content now m o x)
                  (effective_delimiter (eo_delimiter o)))
    else Error (status.FormatError "encoded body length exceeds BodyLength placeholder width").
Proof.
  intros Hv Hc Hbytes. unfold EncodePreEncodedApplicationToBuffer. rewrite Hv. cbn [negb]. cbv zeta.
  fold (effective_delimiter (eo_delimiter o)). set (soh := effective_delimiter (eo_delimiter o)) in *.
  fold (ResolveReplayString (eo_begin_string o) (bytes "FIX.4.4")). fold (pre_encoded_begin_string o).
  set (bs := pre_encoded_begin_string o) in *.
  fold (frame_start bs soh). set (P := frame_start bs soh).
  rewrite append_default_appl, append_poss_dup_literal, append_poss_resend_literal.
  rewrite (append_nonempty_render _ kSenderCompIDPrefix tags.kSenderCompID),
    (append_nonempty_render _ kTargetCompIDPrefix tags.kTargetCompID) by reflexivity.
  appends_to_render. rewrite <- !app_assoc. set (content := pre_encoded_content now m o x) in *.
  replace (P ++ repeat 48 kBodyLengthPlaceholderWidth ++ [soh] ++ _) with (with_placeholder bs content soh).
  2: { unfold with_placeholder, content, pre_encoded_content, pre_encoded_fields, pre_encoded_body. fold soh P.
       rewrite !render_app, <- !app_assoc. done. }
  unfold P. rewrite placeholder_length, u32_small, backfill_replace, fits_placeholder_false by done.
  destruct (fits_placeholder _); cbn [negb]; [|done]. unfold make_frame in *. do 4 f_equal.
  apply Forall_app in Hbytes as [Hbytes _].
  rewrite (ComputeChecksumSIMD_sum sse _ Hbytes), <- (Z.add_0_l (foldr Z.add 0 _)), <- sum_scalar_eq.
  rewrite u32_small by (apply sum_scalar_range; ulia). done.
Qed.

(** ** Lemmas: the stored body offset *)

Lemma digits_value_parse ds acc :
  Forall is_digit ds -> 0 <= acc -> fold_left (fun a c => a * 10 + (c - 48)) ds acc <= UINT32_MAX ->
  parse_tag ds acc = Some (fold_left (fun a c => a * 10 + (c - 48)) ds acc).
Proof.
  revert acc. induction ds as [|c ds IH]; intros acc Hd Ha Hm; cbn; [done|].
  apply Forall_cons in Hd as [Hc Hd]. unfold is_digit in Hc.
  assert (Hdig : digitb c = true) by (unfold digitb; apply andb_true_iff; split; apply Z.leb_le; lia).
  rewrite Hdig. cbn in Hm.
  assert (Hmono : forall l a, Forall is_digit l -> 0 <= a -> a <= fold_left (fun a c => a * 10 + (c - 48)) l a).
  { clear. induction l as [|c l IHl]; intros a Hl Ha; cbn; [lia|]. apply Forall_cons in Hl as [Hc Hl].
    unfold is_digit in Hc. specialize (IHl (a * 10 + (c - 48)) Hl ltac:(lia)). lia. }
  pose proof (Hmono ds (acc * 10 + (c - 48)) Hd ltac:(lia)).
  rewrite (u32_small (acc * 10)), u32_small by ulia. apply IH; [done|lia|done].
Qed.

Lemma parse_tag_format t : in_u32 t -> parse_tag (FormatUint32 t) 0 = Some t.
Proof.
  intros Ht. destruct (FormatUint32_canonical t Ht) as (Hd & Hv & _). unfold numeral_value in Hv.
  rewrite digits_value_parse; [by rewrite Hv|done|lia|]. rewrite Hv. ulia.
Qed.

(** One round over a rendered field. *)
Lemma body_offset_round fuel pre t v post last :
  field_ok 1 (t, v) ->
  body_offset_loop (S fuel) (pre ++ field_bytes t v 1 ++ post) (length pre) last =
  if tags.IsAggregateSessionEnvelopeTag t
  then body_offset_loop fuel (pre ++ field_bytes t v 1 ++ post) (length (pre ++ field_bytes t v 1))
         (length (pre ++ field_bytes t v 1))
  else u32 (Z.of_nat last).
Proof.
  intros [Ht Hv]. cbn [fst snd] in *. set (data := pre ++ field_bytes t v 1 ++ post).
  pose proof (format_digits t Ht) as Hd. pose proof (format_nonempty t Ht) as Hl.
  assert (Hdrop : drop (length pre) data = FormatUint32 t ++ 61 :: v ++ 1 :: post).
  { unfold data, field_bytes. rewrite drop_app_length, <- !app_assoc. done. }
  assert (Hdrop2 : drop (length pre + length (FormatUint32 t) + 1) data = v ++ 1 :: post).
  { rewrite <- Nat.add_assoc, <- drop_drop, Hdrop, <- drop_drop, drop_app_length. done. }
  assert (Hlen : length data = (length pre + length (FormatUint32 t) + 2 + length v + length post)%nat).
  { unfold data, field_bytes. rewrite !length_app. cbn. lia. }
  assert (Hfl : length (pre ++ field_bytes t v 1) = (length pre + length (FormatUint32 t) + 2 + length v)%nat).
  { unfold field_bytes. rewrite !length_app. cbn. lia. }
  cbn [body_offset_loop]. rewrite (proj2 (Nat.ltb_lt _ _)) by lia. cbv zeta.
  rewrite Hdrop, scalar_loop_absent by (apply digits_not_elem; [done|unfold is_digit; lia]).
  rewrite (proj2 (Nat.leb_gt _ _)) by lia. rewrite (proj2 (Nat.eqb_neq _ _)) by lia. cbn [orb].
  replace (length pre + length (FormatUint32 t) - length pre)%nat with (length (FormatUint32 t)) by lia.
  rewrite take_app_length, parse_tag_format, Hdrop2, scalar_loop_absent by done.
  rewrite (proj2 (Nat.leb_gt _ _)) by lia.
  replace (length pre + length (FormatUint32 t) + 1 + length v + 1)%nat with (length (pre ++ field_bytes t v 1)) by lia.
  done.
Qed.

Lemma body_offset_fields fs : Forall (field_ok 1) fs -> Forall (fun f => IsSessionHeaderTag (fst f) = true) fs ->
  forall fuel pre post,
  body_offset_loop (length fs + fuel) (pre ++ render fs 1 ++ post) (length pre) (length pre) =
  body_offset_loop fuel (pre ++ render fs 1 ++ post) (length (pre ++ render fs 1)) (length (pre ++ render fs 1)).
Proof.
  induction fs as [|[t v] fs IH]; intros Hok Hh fuel pre post; [by cbn; rewrite app_nil_r|].
  apply Forall_cons in Hok as [Hok1 Hok]. apply Forall_cons in Hh as [Hh1 Hh].
  rewrite render_cons, <- (app_assoc (field_bytes t v 1)). cbn [length Nat.add].
  rewrite body_offset_round by done. cbn [fst] in Hh1. unfold IsSessionHeaderTag in Hh1. rewrite Hh1.
  specialize (IH Hok Hh fuel (pre ++ field_bytes t v 1) post). rewrite <- !app_assoc in IH. exact IH.
Qed.

(** All fields of a frame, its checksum field included. *)
Lemma make_frame_fields bs fs body :
  exists ck, is_digit (nth 0 ck 0) /\ Forall is_digit ck /\
  make_frame bs (render fs 1 ++ body) 1 =
    render ((tags.kBeginString, bs) :: (tags.kBodyLength, FormatUint32 (Z.of_nat (length (render fs 1 ++ body)))) :: fs) 1 ++
    body ++ field_bytes tags.kCheckSum ck 1.
Proof.
  eexists (checksum_digits _). split; [|split]; [| |unfold make_frame, frame_prefix; rewrite !render_cons, <- !app_assoc; done].
  - unfold checksum_digits, is_digit. cbn [nth]. dlia.
  - unfold checksum_digits, is_digit. repeat constructor; dlia.
Qed.

Lemma frame_fields_ok bs fs n : (1 ∉ bs) -> in_u32 n -> Forall (field_ok 1) fs ->
  Forall (fun f => IsSessionHeaderTag (fst f) = true) fs ->
  Forall (field_ok 1) ((tags.kBeginString, bs) :: (tags.kBodyLength, FormatUint32 n) :: fs) /\
  Forall (fun f => IsSessionHeaderTag (fst f) = true) ((tags.kBeginString, bs) :: (tags.kBodyLength, FormatUint32 n) :: fs).
Proof.
  intros Hbs Hn Hok Hh. split; repeat (apply Forall_cons; split); try done.
  split; [unfold tags.kBodyLength; cbn; ulia|]. apply digits_not_elem; [by apply format_digits|unfold is_digit; lia].
Qed.

(** The offset of a frame whose body starts with an application field, and of
    one without a body. *)
Lemma ComputeBodyStartOffset_frame bs fs body :
  (1 ∉ bs) -> Forall (field_ok 1) fs -> Forall (fun f => IsSessionHeaderTag (fst f) = true) fs -> body_ok 1 body ->
  let data := make_frame bs (render fs 1 ++ body) 1 in
  Z.of_nat (length data) <= UINT32_MAX ->
  ComputeBodyStartOffset data =
    match body with
    | [] => Z.of_nat (length data)
    | _ => Z.of_nat (length (frame_header bs fs (render fs 1 ++ body) 1))
    end.
Proof.
  intros Hbs Hok Hh Hb data Hlen.
  destruct (make_frame_fields bs fs body) as (ck & _ & Hck & Hdata). fold data in Hdata.
  set (all := (tags.kBeginString, bs) :: (tags.kBodyLength, FormatUint32 (Z.of_nat (length (render fs 1 ++ body)))) :: fs) in *.
  assert (Hn : in_u32 (Z.of_nat (length (render fs 1 ++ body)))).
  { unfold data, make_frame, frame_prefix in Hlen. rewrite !length_app in *. ulia. }
  destruct (frame_fields_ok bs fs _ Hbs Hn Hok Hh) as [Haok Hah]. fold all in Haok, Hah.
  assert (Hall : render all 1 = frame_header bs fs (render fs 1 ++ body) 1) by done.
  unfold ComputeBodyStartOffset. pose proof (render_length all 1) as Hra.
  assert (Hcl : (0 < length (field_bytes tags.kCheckSum ck 1))%nat) by (unfold field_bytes; rewrite !length_app; cbn; lia).
  assert (Hdl : length data = (length (render all 1) + length body + length (field_bytes tags.kCheckSum ck 1))%nat)
    by (rewrite Hdata, !length_app; lia).
  assert (Hbound : in_u32 (Z.of_nat (length (render all 1)))) by ulia.
  replace (S (length data)) with (length all + S (S (length data - length all - 1)))%nat by lia.
  generalize (length data - length all - 1)%nat as extra. intros extra.
  rewrite Hdata. pose proof (body_offset_fields all Haok Hah (S (S extra)) [] (body ++ field_bytes tags.kCheckSum ck 1)) as HF. cbn [app length] in HF. rewrite HF. clear HF.
  destruct Hb as [->|(t & v & rest & -> & Hok1 & Ht)].
  - cbn [app].
    assert (Hckok : field_ok 1 (tags.kCheckSum, ck)).
    { split; [unfold tags.kCheckSum; cbn; ulia|]. apply digits_not_elem; [done|unfold is_digit; lia]. }
    pose proof (body_offset_round (S extra) (render all 1) tags.kCheckSum ck [] (length (render all 1)) Hckok) as HR.
    rewrite app_nil_r in HR. rewrite HR. cbn [tags.IsAggregateSessionEnvelopeTag tags.IsFrameStructureTag].
    change (tags.IsAggregateSessionEnvelopeTag tags.kCheckSum) with true. cbv iota.
    cbn [body_offset_loop]. rewrite Nat.ltb_irrefl.
    rewrite u32_small; [done|]. cbn [app] in Hdata. rewrite <- Hdata. ulia.
  - rewrite <- (app_assoc (field_bytes t v 1)).
    rewrite body_offset_round by done. unfold IsSessionHeaderTag in Ht. rewrite Ht.
    assert (Hne : field_bytes t v 1 ++ rest <> []) by (unfold field_bytes; by destruct (FormatUint32 t)).
    destruct (field_bytes t v 1 ++ rest) eqn:E; [done|]. rewrite <- E.
    rewrite u32_small by done. rewrite Hall, E. done.
Qed.

Lemma pre_encoded_tags_ok now m o : Forall (fun f => IsSessionHeaderTag (fst f) = true) (pre_encoded_fields now m o).
Proof.
  unfold pre_encoded_fields, opt_field, flag_field.
  repeat (apply Forall_app; split); repeat split_if; repeat constructor.
Qed.

(** The options and texts a frame can be built from. *)
Definition pre_encoded_input_ok now (m : EncodedApplicationMessageView) (o : EncodeOptions) (x : EncodedOutboundExtrasView)
    : Prop :=
  em_valid m = true /\ effective_delimiter (eo_delimiter o) = 1 /\ in_u32 (eo_msg_seq_num o) /\
  clean_fields 1 (pre_encoded_begin_string o) (pre_encoded_fields now m o) /\
  Forall is_byte (make_frame (pre_encoded_begin_string o) (pre_encoded_content now m o x) 1) /\
  Z.of_nat (length (make_frame (pre_encoded_begin_string o) (pre_encoded_content now m o x) 1)) <= UINT32_MAX /\
  fits_placeholder (pre_encoded_content now m o x) = true.

Lemma content_bound bs content soh :
  Z.of_nat (length (make_frame bs content soh)) <= UINT32_MAX -> in_u32 (Z.of_nat (length content)).
Proof. unfold make_frame, frame_prefix. rewrite !length_app. ulia. Qed.

(** What both properties below start from: the frame that is produced, and what
    the decoder and the offset scan find in it. *)
Lemma pre_encoded_decodes sse verify now m o x :
  pre_encoded_input_ok now m o x -> body_ok 1 (pre_encoded_body m x) ->
  let wire := make_frame (pre_encoded_begin_string o) (pre_encoded_content now m o x) 1 in
  EncodePreEncodedApplicationToBuffer sse now m o x = Value wire /\
  DecodeRawPassThrough sse wire 1 verify = Some (Value
    (decoded_view wire (pre_encoded_begin_string o) (pre_encoded_fields now m o) (pre_encoded_body m x)
       (length (frame_header (pre_encoded_begin_string o) (pre_encoded_fields now m o) (pre_encoded_content now m o x) 1)))) /\
  ComputeBodyStartOffset wire =
    match pre_encoded_body m x with
    | [] => Z.of_nat (length wire)
    | _ => Z.of_nat (length (frame_header (pre_encoded_begin_string o) (pre_encoded_fields now m o)
                               (pre_encoded_content now m o x) 1))
    end.
Proof.
  intros (Hv & Hd & Hs & [Hbs Hcl] & Hby & Hlen & Hf) Hb wire.
  pose proof (pre_encoded_tags_ok now m o) as Ht. pose proof (header_fields_ok 1 _ Ht Hcl) as Hok.
  assert (Hc : pre_encoded_content now m o x = render (pre_encoded_fields now m o) 1 ++ pre_encoded_body m x)
    by (unfold pre_encoded_content; by rewrite Hd).
  split; [|split].
  - rewrite EncodePreEncoded_frame, Hd, Hf; [done|done| |by rewrite Hd]. by apply (content_bound (pre_encoded_begin_string o) _ 1).
  - unfold wire. rewrite Hc in *. apply decode_make_frame; try done. unfold delim_ok, is_digit. lia.
  - unfold wire. rewrite Hc in *. by apply ComputeBodyStartOffset_frame.
Qed.

(** wrapping a pre-encoded application body.  The frame decodes (checksum
    and BodyLength pass) to the message type, the sequence number (1 when none
    was given), the PossDup flag and the exact bytes header fragment, body, body
    fragment; and the offset stored for replay points at those bytes, so that
    decoding with the stored offset gives the same view. *)
Theorem pre_encoded_frame_correct sse verify now m o x :
  pre_encoded_input_ok now m o x -> body_ok 1 (pre_encoded_body m x) -> pre_encoded_body m x <> [] ->
  exists wire v, EncodePreEncodedApplicationToBuffer sse now m o x = Value wire /\
    DecodeRawPassThrough sse wire 1 verify = Some (Value v) /\
    DecodeRawPassThroughAt sse wire (ComputeBodyStartOffset wire) 1 verify = Some (Value v) /\
    rv_msg_type v = em_msg_type m /\ rv_poss_dup v = eo_poss_dup o /\
    rv_msg_seq_num v = (if eo_msg_seq_num o =? 0 then 1 else eo_msg_seq_num o) /\
    rv_sender_comp_id v = eo_sender_comp_id o /\ rv_target_comp_id v = eo_target_comp_id o /\
    rv_raw_body v = pre_encoded_body m x.
Proof.
  intros Hin Hb Hne. destruct (pre_encoded_decodes sse verify now m o x Hin Hb) as (He & Hdec & Hoff).
  destruct Hin as (_ & _ & Hs & _ & _ & Hlen & _).
  set (wire := make_frame _ _ 1) in *. set (off := length (frame_header _ _ _ 1)) in *.
  exists wire. eexists. split; [done|]. split; [done|]. split.
  - rewrite Hoff. replace (match pre_encoded_body m x with [] => _ | _ => _ end) with (Z.of_nat off)
      by (by destruct (pre_encoded_body m x)).
    pose proof (stored_offset_same_view sse verify wire 1 _ Hlen Hdec) as HS.
    replace (rv_body_start_offset _) with (Z.of_nat off) in HS; [done|].
    unfold decoded_view. by destruct (store_fields _ _).
  - unfold decoded_view. assert (Hseq : in_u32 (if eo_msg_seq_num o =? 0 then 1 else eo_msg_seq_num o))
      by (destruct (_ =? 0); [ulia|done]).
    unfold pre_encoded_fields. rewrite !store_fields_app. cbn [set_begin_string empty_view].
    autorewrite with raw_view. rewrite ParseUint32_format by done. done.
Qed.

(** an application message without body fields breaks its own replay.
    The offset scan takes the checksum field for a header field and stores the
    length of the whole frame as body offset, and the decoder that replay uses
    refuses that offset. *)
Theorem empty_body_offset_rejected sse verify now m o x :
  pre_encoded_input_ok now m o x -> pre_encoded_body m x = [] ->
  exists wire, EncodePreEncodedApplicationToBuffer sse now m o x = Value wire /\
    ComputeBodyStartOffset wire = Z.of_nat (length wire) /\
    DecodeRawPassThroughAt sse wire (ComputeBodyStartOffset wire) 1 verify =
      Some (Error (status.FormatError "stored body_start_offset is outside the FIX body")).
Proof.
  intros Hin Hnil. assert (Hb : body_ok 1 (pre_encoded_body m x)) by (by left).
  destruct (pre_encoded_decodes sse verify now m o x Hin Hb) as (He & Hdec & Hoff). rewrite Hnil in Hoff.
  set (wire := make_frame _ _ 1) in *. exists wire. split; [done|]. split; [done|]. rewrite Hoff.
  revert Hdec. unfold DecodeRawPassThrough, DecodeRawPassThroughAt, DecodeRawPassThroughImpl. cbv zeta.
  destruct (negb (_ =? tags.kBeginString)); [done|]. destruct (negb (_ =? tags.kBodyLength)); [done|].
  destruct (_ <? 7)%nat eqn:E7; [done|]. apply Nat.ltb_ge in E7. destruct (_ || _ || _ || _); [done|].
  destruct (_ && _); [done|]. destruct (negb (_ =? u64 _)); [done|]. intros _.
  rewrite Nat2Z.id. rewrite (proj2 (Nat.ltb_lt (length wire - 7) (length wire))) by lia.
  by rewrite orb_true_r.
Qed.

(** ** Witnesses *)

Definition demo_now (r : TimestampResolution) : list Z := bytes "20240102-03:04:05".
Definition demo_message (body : list Z) : EncodedApplicationMessageView := MkEncodedMessage (bytes "D") body (MkExtras [] []).
Definition demo_options : EncodeOptions :=
  MkEncodeOptions (bytes "FIX.4.4") (bytes "S") [] (bytes "T") [] [] [] [] [] [] [] kMilliseconds 5 false false 1.
Definition demo_extras : EncodedOutboundExtrasView := MkExtras (field_bytes 116 (bytes "h") 1) (field_bytes 58 (bytes "t") 1).

Lemma demo_input_ok : pre_encoded_input_ok demo_now (demo_message (field_bytes 11 (bytes "x") 1)) demo_options demo_extras.
Proof.
  repeat split; try (vm_compute; reflexivity); try (vm_compute; discriminate); try closed_forall.
Qed.

Lemma pre_encoded_frame_correct_witness :
  exists wire v,
    EncodePreEncodedApplicationToBuffer true demo_now (demo_message (field_bytes 11 (bytes "x") 1)) demo_options demo_extras
      = Value wire /\
    DecodeRawPassThrough true wire 1 true = Some (Value v) /\ rv_msg_seq_num v = 5.
Proof.
  destruct (pre_encoded_frame_correct true true demo_now (demo_message (field_bytes 11 (bytes "x") 1)) demo_options demo_extras
              demo_input_ok) as (wire & v & H1 & H2 & _ & _ & _ & H3 & _).
  - right. exists 116, (bytes "h"), (field_bytes 11 (bytes "x") 1 ++ field_bytes 58 (bytes "t") 1).
    split; [reflexivity|]. split; [|reflexivity]. split; [cbn; unfold in_u32; lia|closed_forall].
  - discriminate.
  - exists wire, v. split; [exact H1|]. split; [exact H2|exact H3].
Defined.

Lemma demo_empty_input_ok : pre_encoded_input_ok demo_now (demo_message []) demo_options (MkExtras [] []).
Proof.
  repeat split; try (vm_compute; reflexivity); try (vm_compute; discriminate); try closed_forall.
Qed.

Lemma empty_body_offset_rejected_witness :
  exists wire, EncodePreEncodedApplicationToBuffer true demo_now (demo_message []) demo_options (MkExtras [] []) = Value wire /\
    ComputeBodyStartOffset wire = Z.of_nat (length wire).
Proof.
  destruct (empty_body_offset_rejected true true demo_now (demo_message []) demo_options (MkExtras [] [])
              demo_empty_input_ok eq_refl) as (wire & H1 & H2 & _).
  exists wire. split; [exact H1|exact H2].
Defined.
