(* ===== verification/AdminProtocol.v ===== *)
(** * The admin protocol

    [include/public/nimblefix/session/admin_protocol.h] and
    [src/session/admin_protocol.cpp]: the single-session FIX state machine above
    [SessionCore] and the session store.  [Admin] is [AdminProtocol::Impl], the
    handlers are calls in the state-and-error monad [SE] (a failing call keeps
    the mutations made before the failure), and the message codec
    ([fix_codec.cpp]) is an interface ([Codec]).

    Lifetimes are part of the model: a [MessageRef] says which storage it points
    into, because an event that outlives that storage is unusable.  Left out are
    the recycled replay buffers ([AcquireReplayFrameBuffer] only decides whether
    the frame list is shared or copied) and the benchmark counters. *)
From S2P Require Import Calendar.
From S2P Require Import Prelude Base IntFormat FixTags Wire RawPassThrough Frame Message Validation.
From S2P Require Import TransportProfile SessionCore SessionStore.
From stdpp Require Import pretty.
Open Scope Z_scope.

(** ** Interfaces *)

(** What the session layer calls in [fix_codec.cpp]: decoding with the checksum
    switch, the precompiled template of a message type, the generic encoder and
    the wall clock text. *)
Class Codec := {
  codec_dictionary :: Dictionary;
  has_sse2 : bool;
  DecodeFixMessageView : list Z -> bool -> Result DecodedMessageView;
  find_template : string -> option (MessageView -> EncodeOptions -> Result (list Z));
  EncodeFixMessageToBuffer : MessageView -> EncodeOptions -> Result (list Z);
  CurrentUtcTimestamp : TimestampResolution -> list Z;
}.

(** ** Configuration, events and state *)

Record LogonField := MkLogonField { lf_tag : Z; lf_value : string }.

Record AdminProtocolConfig := MkAdminConfig {
  ac_session : SessionConfig;
  ac_transport_profile : TransportSessionProfile;
  ac_begin_string : string;
  ac_sender_comp_id : string;
  ac_target_comp_id : string;
  ac_default_appl_ver_id : string;
  ac_supported_app_msg_types : list string;
  ac_heartbeat_interval_seconds : Z;
  ac_sending_time_threshold_seconds : Z;
  ac_warmup_message_count : Z;
  ac_logon_fields : list LogonField;
  ac_timestamp_resolution : TimestampResolution;
  ac_application_messages_available : bool;
  ac_reset_seq_num_on_logon : bool;
  ac_reset_seq_num_on_logout : bool;
  ac_reset_seq_num_on_disconnect : bool;
  ac_refresh_on_logon : bool;
  ac_send_next_expected_msg_seq_num : bool;
  ac_validation_policy : ValidationPolicy;
  ac_validation_callback : option ValidationCallback;
}.

Definition with_transport_profile (p : TransportSessionProfile) (c : AdminProtocolConfig) : AdminProtocolConfig :=
  let 'MkAdminConfig a0 _ a2 a3 a4 a5 a6 a7 a8 a9 a10 a11 a12 a13 a14 a15 a16 a17 a18 a19 := c in
  MkAdminConfig a0 p a2 a3 a4 a5 a6 a7 a8 a9 a10 a11 a12 a13 a14 a15 a16 a17 a18 a19.

Record SessionSendEnvelopeView := MkEnvelope {
  env_sender_sub_id : list Z;
  env_target_sub_id : list Z;
  env_appl_ver_id : list Z;
}.
Definition no_envelope : SessionSendEnvelopeView := MkEnvelope [] [] [].

(** Where the view of a message reference points: shared ownership, the decode
    scratch of the protocol object, the [owned_application_message_] of the event
    it sits in, or storage that no longer exists. *)
Inductive RefStorage := kShared | kDecodeScratch | kEventStorage | kDangling.

Record MessageRef := MkRef { ref_view : MessageView; ref_storage : RefStorage }.

Definition owns_storage (r : MessageRef) : bool := match ref_storage r with kShared => true | _ => false end.

Record ProtocolEvent := MkEvent {
  outbound_frames : list EncodedFrame;
  application_messages : list MessageRef;
  session_active : bool;
  disconnect : bool;
  ev_poss_resend : bool;
  session_reject : bool;
  warnings : list string;
  errors : list string;
  owned_application_message : option MessageView;
}.

Definition empty_event : ProtocolEvent := MkEvent [] [] false false false false [] [] None.

Definition push_frame (f : EncodedFrame) (e : ProtocolEvent) : ProtocolEvent :=
  let 'MkEvent fr ms sa di pr sr ws es ow := e in MkEvent (fr ++ [f]) ms sa di pr sr ws es ow.
Definition set_frames (fs : list EncodedFrame) (e : ProtocolEvent) : ProtocolEvent :=
  let 'MkEvent _ ms sa di pr sr ws es ow := e in MkEvent fs ms sa di pr sr ws es ow.
Definition push_message (m : MessageRef) (e : ProtocolEvent) : ProtocolEvent :=
  let 'MkEvent fr ms sa di pr sr ws es ow := e in MkEvent fr (ms ++ [m]) sa di pr sr ws es ow.
Definition set_messages (ms : list MessageRef) (ow : option MessageView) (e : ProtocolEvent) : ProtocolEvent :=
  let 'MkEvent fr _ sa di pr sr ws es _ := e in MkEvent fr ms sa di pr sr ws es ow.
Definition set_session_active (e : ProtocolEvent) : ProtocolEvent :=
  let 'MkEvent fr ms _ di pr sr ws es ow := e in MkEvent fr ms true di pr sr ws es ow.
Definition set_disconnect (b : bool) (e : ProtocolEvent) : ProtocolEvent :=
  let 'MkEvent fr ms sa _ pr sr ws es ow := e in MkEvent fr ms sa b pr sr ws es ow.
Definition set_ev_poss_resend (e : ProtocolEvent) : ProtocolEvent :=
  let 'MkEvent fr ms sa di _ sr ws es ow := e in MkEvent fr ms sa di true sr ws es ow.
Definition set_session_reject (e : ProtocolEvent) : ProtocolEvent :=
  let 'MkEvent fr ms sa di pr _ ws es ow := e in MkEvent fr ms sa di pr true ws es ow.
Definition push_warning (w : string) (e : ProtocolEvent) : ProtocolEvent :=
  let 'MkEvent fr ms sa di pr sr ws es ow := e in MkEvent fr ms sa di pr sr (ws ++ [w]) es ow.
Definition push_error (w : string) (e : ProtocolEvent) : ProtocolEvent :=
  let 'MkEvent fr ms sa di pr sr ws es ow := e in MkEvent fr ms sa di pr sr ws (es ++ [w]) ow.

(** [MaterializeApplicationMessages]: borrowed messages are deep-copied. *)
Definition MaterializeApplicationMessages (e : ProtocolEvent) : ProtocolEvent :=
  let ms := map (fun r => if owns_storage r then r else MkRef (ref_view r) kShared) (application_messages e) in
  let ow := match ms with r :: _ => if owns_storage r then None else owned_application_message e | [] => owned_application_message e end in
  set_messages ms ow e.

(** [AdoptParsedApplicationMessage]: the event takes over the parsed message of
    its single borrowed reference. *)
Definition AdoptParsedApplicationMessage (parsed : MessageView) (e : ProtocolEvent) : ProtocolEvent :=
  match application_messages e with
  | [r] => if owns_storage r then e else set_messages [MkRef parsed kEventStorage] (Some parsed) e
  | _ => e
  end.

(** Move construction of an event ([RebindOwnedApplicationMessage]): the owned
    message moves to the new object; only the reference of a one-message event is
    pointed at it again. *)
Definition move_event (e : ProtocolEvent) : ProtocolEvent :=
  match owned_application_message e with
  | None => e
  | Some parsed =>
      match application_messages e with
      | [r] => if owns_storage r then e else set_messages [MkRef parsed kEventStorage] (Some parsed) e
      | ms => set_messages
                (map (fun r => match ref_storage r with kEventStorage => MkRef (ref_view r) kDangling | _ => r end) ms)
                (Some parsed) e
      end
  end.

Record Admin (S : Type) := MkAdmin {
  ap_config : AdminProtocolConfig;
  ap_store : option S;
  ap_session : SessionCore;
  ap_outstanding_test_request_id : string;
  ap_logout_sent : bool;
  ap_test_request_sent_ns : Z;
  ap_logout_sent_ns : Z;
  ap_initialization_error : option Status;
  ap_deferred_gap_frames : list (list Z);
  (** The calls of [ValidationCallback::OnValidationWarning] so far. *)
  ap_validation_log : Warnings;
}.
Arguments MkAdmin {S}.
Arguments ap_config {S}.
Arguments ap_store {S}.
Arguments ap_session {S}.
Arguments ap_outstanding_test_request_id {S}.
Arguments ap_logout_sent {S}.
Arguments ap_test_request_sent_ns {S}.
Arguments ap_logout_sent_ns {S}.
Arguments ap_initialization_error {S}.
Arguments ap_deferred_gap_frames {S}.
Arguments ap_validation_log {S}.

Section Assign.
Context {S : Type}.
Definition set_store (s : option S) (a : Admin S) : Admin S :=
  let 'MkAdmin c _ se ot ls tn ln ie df vl := a in MkAdmin c s se ot ls tn ln ie df vl.
Definition set_session (se : SessionCore) (a : Admin S) : Admin S :=
  let 'MkAdmin c s _ ot ls tn ln ie df vl := a in MkAdmin c s se ot ls tn ln ie df vl.
Definition set_outstanding (ot : string) (a : Admin S) : Admin S :=
  let 'MkAdmin c s se _ ls tn ln ie df vl := a in MkAdmin c s se ot ls tn ln ie df vl.
Definition set_logout_sent (ls : bool) (a : Admin S) : Admin S :=
  let 'MkAdmin c s se ot _ tn ln ie df vl := a in MkAdmin c s se ot ls tn ln ie df vl.
Definition set_test_request_sent_ns (tn : Z) (a : Admin S) : Admin S :=
  let 'MkAdmin c s se ot ls _ ln ie df vl := a in MkAdmin c s se ot ls tn ln ie df vl.
Definition set_logout_sent_ns (ln : Z) (a : Admin S) : Admin S :=
  let 'MkAdmin c s se ot ls tn _ ie df vl := a in MkAdmin c s se ot ls tn ln ie df vl.
Definition set_deferred (df : list (list Z)) (a : Admin S) : Admin S :=
  let 'MkAdmin c s se ot ls tn ln ie _ vl := a in MkAdmin c s se ot ls tn ln ie df vl.
Definition log_warnings (ws : Warnings) (a : Admin S) : Admin S :=
  let 'MkAdmin c s se ot ls tn ln ie df vl := a in MkAdmin c s se ot ls tn ln ie df (vl ++ ws).
End Assign.

(** ** Helpers of the anonymous namespace *)

Definition kNanosPerSecond : Z := 1000000000.
Definition kTestRequestGraceDivisor : Z := 5.
Definition kBusinessRejectReasonTag : Z := 380.
Definition kBusinessRejectUnsupportedMessageType : Z := 3.
Definition kBusinessRejectApplicationNotAvailable : Z := 4.

Definition string_eqb (a b : string) : bool := bool_decide (a = b).
Definition string_empty (s : string) : bool := match s with EmptyString => true | _ => false end.

Definition IsAdminMessage (t : string) : bool :=
  existsb (string_eqb t) ["0"; "1"; "2"; "3"; "4"; "5"; "A"].

Definition ShouldIgnoreInboundDecodeFailure (st : Status) : bool := bool_decide (code st = kFormatError).

Definition IsEngineManagedLogonField (tag : Z) : bool :=
  tags.one_of [tags.kMsgType; tags.kEncryptMethod; tags.kHeartBtInt; tags.kResetSeqNumFlag;
               tags.kNextExpectedMsgSeqNum] tag || tags.IsEncodeManagedTag tag.

Fixpoint validate_logon_fields (seen : list Z) (fields : list LogonField) : Status :=
  match fields with
  | [] => status.Ok
  | f :: rest =>
      if lf_tag f =? 0 then status.InvalidArgument "logon field tag must be positive"
      else if string_empty (lf_value f) then status.InvalidArgument "logon field value must not be empty"
      else if IsEngineManagedLogonField (lf_tag f)
      then status.InvalidArgument "logon field overrides an engine-managed Logon tag"
      else if existsb (Z.eqb (lf_tag f)) seen then status.InvalidArgument "duplicate logon field tag"
      else validate_logon_fields (lf_tag f :: seen) rest
  end.
Definition ValidateLogonFields (fields : list LogonField) : Status := validate_logon_fields [] fields.

Definition HasBoolean (v : MessageView) (tag : Z) : bool :=
  match get_boolean v tag with Some b => b | None => false end.
Definition GetInt (v : MessageView) (tag fallback : Z) : Z :=
  match get_int v tag with Some i => i | None => fallback end.
Definition GetStringView (v : MessageView) (tag : Z) : string :=
  match get_string v tag with Some s => s | None => EmptyString end.

Definition ParseDecimal (text : list Z) (offset width : nat) : option Z :=
  if (length text <? offset + width)%nat then None
  else let digits := take width (drop offset text) in
       if forallb digitb digits then Some (numeral_value digits) else None.

Definition kFractionalNsScale (n : nat) : Z :=
  nth n [1; 100000000; 10000000; 1000000; 100000; 10000; 1000; 100; 10; 1] 0.

(** The fraction behind position 17, in nanoseconds. *)
Definition parse_fraction (text : list Z) : option Z :=
  if (17 <? length text)%nat then
    if negb (nth 17 text 0 =? 46) then None
    else
      let fractional := drop 18 text in
      if (length fractional =? 0)%nat || (9 <? length fractional)%nat then None
      else if forallb digitb fractional
      then Some (u32 (numeral_value fractional * kFractionalNsScale (length fractional)))
      else None
  else Some 0.

Definition ParseFixUtcTimestampNs (text : list Z) : option Z :=
  if (length text <? 17)%nat || negb (nth 8 text 0 =? 45) || negb (nth 11 text 0 =? 58) || negb (nth 14 text 0 =? 58)
  then None
  else
    match ParseDecimal text 0 4, ParseDecimal text 4 2, ParseDecimal text 6 2,
          ParseDecimal text 9 2, ParseDecimal text 12 2, ParseDecimal text 15 2 with
    | Some year, Some month, Some day, Some hour, Some minute, Some second =>
        if (hour >? 23) || (minute >? 59) || (second >? 60) then None
        else match parse_fraction text with
             | None => None
             | Some fractional_ns =>
                 if negb (ymd_ok year month day) then None
                 else
                   let epoch_ns := i64 ((((days_from_civil year month day * 24 + hour) * 60 + minute) * 60 + second)
                                          * kNanosPerSecond + fractional_ns) in
                   if epoch_ns <? 0 then None else Some epoch_ns
             end
    | _, _, _, _, _, _ => None
    end.

Definition SendingTimeOutsideThreshold (sending_time : list Z) (timestamp_ns threshold_seconds : Z) : bool :=
  if (threshold_seconds =? 0) || text_empty sending_time then false
  else match ParseFixUtcTimestampNs sending_time with
       | None => false
       | Some parsed =>
           let threshold_ns := threshold_seconds *u64 kNanosPerSecond in
           Z.max parsed timestamp_ns - Z.min parsed timestamp_ns >? threshold_ns
       end.

Definition ResolveApplicationBusinessRejectReason `{Dictionary} (c : AdminProtocolConfig) (decoded : DecodedMessageView)
    : option Z :=
  let t := h_msg_type (d_header decoded) in
  if IsAdminMessage t then None
  else if ac_application_messages_available c && (match ac_supported_app_msg_types c with [] => true | _ => false end)
  then None
  else if negb (find_message t) then None
  else if negb (ac_application_messages_available c) then Some kBusinessRejectApplicationNotAvailable
  else if existsb (string_eqb t) (ac_supported_app_msg_types c) then None
  else Some kBusinessRejectUnsupportedMessageType.

(** Why an inbound message is rejected: tag, reason, text, disconnect. *)
Record RejectInfo := MkReject {
  rj_ref_tag_id : Z;
  rj_reject_reason : Z;
  rj_text : string;
  rj_disconnect : bool;
}.

Definition RejectUnsupportedSessionEncryption (v : MessageView) : option RejectInfo :=
  if negb (has_field v tags.kSecureDataLen) && negb (has_field v tags.kSecureData) then None
  else Some (MkReject (if has_field v tags.kSecureData then tags.kSecureData else tags.kSecureDataLen)
               kSessionRejectDecryptionProblem "session-layer SecureData is not supported by this runtime" false).

(** [inl] the new sequence number, [inr] reason and text. *)
Definition ParseSequenceResetNewSeq (v : MessageView) : Z + (Z * string) :=
  match get_int v tags.kNewSeqNo with
  | Some n => if n <=? 0 then inr (kSessionRejectRequiredTagMissing, "SequenceReset requires NewSeqNo") else inl (u32 n)
  | None => inr (kSessionRejectRequiredTagMissing, "SequenceReset requires NewSeqNo")
  end.

Definition BuildAdminMessage (t : string) : MessageData := set_string tags.kMsgType t (MessageDataWriter t).

Definition IsPreActivationState (s : SessionState) : bool :=
  SessionState_eqb s kConnected || SessionState_eqb s kPendingLogon.
Definition IsActiveAdminState (s : SessionState) : bool :=
  SessionState_eqb s kActive || SessionState_eqb s kAwaitingLogout || SessionState_eqb s kResendProcessing.

Definition AdminPhaseViolationText (s : SessionState) (t : string) : option string :=
  if negb (IsAdminMessage t) then None
  else if IsPreActivationState s && negb (string_eqb t "A") && negb (string_eqb t "5")
  then Some ("received " +:+ t +:+ " before Logon completed")
  else if string_eqb t "A" && IsActiveAdminState s
  then Some "received unexpected Logon after session activation"
  else None.

(** ** The protocol object *)

Section Protocol.
Context {St : Type} `{SessionStore St} `{Codec}.

Definition M (A : Type) : Type := SE (Admin St) A.

(** [session_->Op(...)] with its status propagated. *)
Definition on_session (op : SessionCore -> SessionCore * Status) : M unit :=
  fun a => let '(s, st) := op (ap_session a) in
           (set_session s a, if status.ok st then Value tt else Error st).

(** [store_->Op(...)], skipped without a store. *)
Definition on_store (op : St -> St * Status) : M unit :=
  fun a => match ap_store a with
           | None => (a, Value tt)
           | Some s => let '(s', st) := op s in
                       (set_store (Some s') a, if status.ok st then Value tt else Error st)
           end.

Definition allocate_outbound_seq : M Z :=
  fun a => let '(s, r) := AllocateOutboundSeq (ap_session a) in (set_session s a, r).

(** [if (session_->ConsumeResendCompleted()) outstanding_test_request_id_.clear();] *)
Definition consume_resend_completed : M unit :=
  fun a => let '(s, completed) := ConsumeResendCompleted (ap_session a) in
           let a := set_session s a in
           ((if completed then set_outstanding "" a else a), Value tt).

Definition snapshot : M SessionSnapshot := fun a => (a, Value (Snapshot (ap_session a))).
Definition session_state : M SessionState := fun a => (a, Value (state (ap_session a))).
Definition cfg {A} (f : AdminProtocolConfig -> A) : M A := fun a => (a, Value (f (ap_config a))).

(** [if (guard) m;] *)
Definition when (guard : bool) (m : M unit) : M unit := if guard then m else ret tt.

Definition recovery_of (s : SessionSnapshot) : SessionRecoveryState :=
  MkRecovery (snap_session_id s) (snap_next_in_seq s) (snap_next_out_seq s) (snap_last_inbound_ns s)
    (snap_last_outbound_ns s) (negb (SessionState_eqb (snap_state s) kDisconnected)).

Definition NewAdminProtocol (config : AdminProtocolConfig) (store : option St) : Admin St :=
  let error := ValidateLogonFields (ac_logon_fields config) in
  let error := if status.ok error then None else Some error in
  let session := SetWarmupCount (ac_warmup_message_count config) (NewSessionCore (ac_session config)) in
  let profile :=
    if negb (string_eqb (tp_begin_string (ac_transport_profile config)) (ac_begin_string config)) &&
       negb (string_empty (ac_begin_string config))
    then FromBeginString (ac_begin_string config) else ac_transport_profile config in
  let session := set_transport_profile session (Some profile) in
  let config := with_transport_profile profile config in
  let make s e := MkAdmin config store s "" false 0 0 e [] [] in
  match store with
  | None => make session error
  | Some st =>
      match LoadRecoveryState st (session_id (SessionCore.config session)) with
      | Error e =>
          make session
            (if negb (bool_decide (code e = kNotFound)) && (match error with None => true | Some _ => false end)
             then Some e else error)
      | Value r =>
          let '(session', e) := RestoreSequenceState (r_next_in_seq r) (r_next_out_seq r) session in
          make session'
            (if negb (status.ok e) && (match error with None => true | Some _ => false end) then Some e else error)
      end
  end.

Definition EnsureInitialized : M unit :=
  fun a => match ap_initialization_error a with Some e => (a, Error e) | None => (a, Value tt) end.

Definition DecodeInboundFrame (frame : list Z) : M (Result DecodedMessageView) :=
  cfg (fun c => DecodeFixMessageView frame (verify_checksum (ac_validation_policy c))).

Definition ResolveEncodeTemplate (t : string) : option (MessageView -> EncodeOptions -> Result (list Z)) :=
  if string_empty t then None else find_template t.

Definition PersistRecoveryState : M unit :=
  snap <- snapshot ;; on_store (SaveRecoveryState (recovery_of snap)).

Definition RefreshSessionStateFromStore : M unit :=
  a <- get ;;
  match ap_store a with
  | None => ret tt
  | Some _ =>
      on_store Refresh ;;;
      a <- get ;;
      match ap_store a with
      | None => ret tt
      | Some s =>
          match LoadRecoveryState s (session_id (config (ap_session a))) with
          | Error e => if bool_decide (code e = kNotFound) then on_session (RestoreSequenceState 1 1) else fail e
          | Value r => on_session (RestoreSequenceState (r_next_in_seq r) (r_next_out_seq r))
          end
      end
  end.

Definition ResetSessionState (next_in next_out : Z) (reset_store : bool) : M unit :=
  snap <- snapshot ;;
  when reset_store (on_store (ResetSession (snap_session_id snap))) ;;;
  on_session (RestoreSequenceState next_in next_out) ;;;
  PersistRecoveryState.

(** *** Validation of inbound messages *)

Definition ValidateCompIds (c : AdminProtocolConfig) (decoded : DecodedMessageView) : option RejectInfo :=
  let h := d_header decoded in
  let policy := ac_validation_policy c in
  let is_logon := string_eqb (h_msg_type h) "A" in
  if negb (string_empty (ac_begin_string c)) && negb (string_eqb (h_begin_string h) (ac_begin_string c))
  then Some (MkReject tags.kBeginString kSessionRejectValueIncorrect "unexpected BeginString on inbound frame" true)
  else if enforce_comp_ids policy && negb (string_empty (ac_target_comp_id c)) &&
          negb (string_eqb (h_sender_comp_id h) (ac_target_comp_id c))
  then Some (MkReject tags.kSenderCompID kSessionRejectCompIdProblem "unexpected SenderCompID on inbound frame" true)
  else if enforce_comp_ids policy && negb (string_empty (ac_sender_comp_id c)) &&
          negb (string_eqb (h_target_comp_id h) (ac_sender_comp_id c))
  then Some (MkReject tags.kTargetCompID kSessionRejectCompIdProblem "unexpected TargetCompID on inbound frame" true)
  else if is_logon && require_default_appl_ver_id_on_logon policy &&
          requires_default_appl_ver_id (ac_transport_profile c) && string_empty (h_default_appl_ver_id h)
  then Some (MkReject tags.kDefaultApplVerID kSessionRejectRequiredTagMissing
               "FIXT.1.1 logon requires DefaultApplVerID" true)
  else if is_logon && require_default_appl_ver_id_on_logon policy && negb (string_empty (ac_default_appl_ver_id c)) &&
          negb (string_eqb (h_default_appl_ver_id h) (ac_default_appl_ver_id c))
  then Some (MkReject tags.kDefaultApplVerID kSessionRejectValueIncorrect
               "unexpected DefaultApplVerID on inbound frame" true)
  else None.

(** [false] is the [InvalidArgument("PossDupFlag requires OrigSendingTime")]. *)
Definition ValidatePossDup (c : AdminProtocolConfig) (decoded : DecodedMessageView) : bool :=
  if negb (require_orig_sending_time_on_poss_dup (ac_validation_policy c)) then true
  else if negb (h_poss_dup (d_header decoded)) then true
  else negb (string_empty (h_orig_sending_time (d_header decoded))).

(** One call of [ShouldRejectValidationIssue] with the members of the protocol. *)
Definition should_reject (issue : ValidationIssue) (decoded : DecodedMessageView) : M bool :=
  c <- cfg id ;;
  let '(b, ws) := ShouldRejectValidationIssue (ac_validation_policy c) issue (session_id (ac_session c))
                    (h_msg_type (d_header decoded)) (default "" (FindFieldValue (d_message decoded) (issue_tag issue)))
                    (ac_validation_callback c) in
  modify (log_warnings ws) ;;; ret b.

Definition issue_reject (issue : ValidationIssue) (disconnect : bool) : RejectInfo :=
  MkReject (issue_tag issue) (ValidationIssueRejectReason issue) (issue_text issue) disconnect.

(** The checks on the fields of a Logon. *)
Definition validate_logon (v : MessageView) : option RejectInfo :=
  if negb (has_field v tags.kEncryptMethod)
  then Some (MkReject tags.kEncryptMethod kSessionRejectRequiredTagMissing "Logon requires EncryptMethod" true)
  else if (match get_int v tags.kEncryptMethod with Some m => negb (m =? 0) | None => true end)
  then Some (MkReject tags.kEncryptMethod kSessionRejectValueIncorrect "Logon EncryptMethod must be 0" true)
  else if negb (has_field v tags.kHeartBtInt)
  then Some (MkReject tags.kHeartBtInt kSessionRejectRequiredTagMissing "Logon requires HeartBtInt" true)
  else if (match get_int v tags.kHeartBtInt with Some i => i <=? 0 | None => true end)
  then Some (MkReject tags.kHeartBtInt kSessionRejectValueIncorrect "Logon HeartBtInt must be positive" true)
  else None.

(** The checks on the fields of a ResendRequest. *)
Definition validate_resend_request (v : MessageView) : option RejectInfo :=
  if negb (has_field v tags.kBeginSeqNo)
  then Some (MkReject tags.kBeginSeqNo kSessionRejectRequiredTagMissing "ResendRequest requires BeginSeqNo" false)
  else if negb (has_field v tags.kEndSeqNo)
  then Some (MkReject tags.kEndSeqNo kSessionRejectRequiredTagMissing "ResendRequest requires EndSeqNo" false)
  else
    let begin_seq := get_int v tags.kBeginSeqNo in
    let end_seq := get_int v tags.kEndSeqNo in
    if (match begin_seq with Some b => b <=? 0 | None => true end)
    then Some (MkReject tags.kBeginSeqNo kSessionRejectValueIncorrect "ResendRequest BeginSeqNo must be positive" false)
    else if (match end_seq with Some e => e <? 0 | None => true end)
    then Some (MkReject tags.kEndSeqNo kSessionRejectValueIncorrect "ResendRequest EndSeqNo must be zero or positive" false)
    else if negb (default 0 end_seq =? 0) && (default 0 begin_seq >? default 0 end_seq)
    then Some (MkReject tags.kEndSeqNo kSessionRejectValueIncorrect
                 "ResendRequest BeginSeqNo must be less than or equal to EndSeqNo" false)
    else None.

Definition validate_admin_fields (t : string) (v : MessageView) : option RejectInfo :=
  if string_eqb t "A" then validate_logon v
  else if string_eqb t "1" && negb (has_field v tags.kTestReqID)
  then Some (MkReject tags.kTestReqID kSessionRejectRequiredTagMissing "TestRequest requires TestReqID" false)
  else if string_eqb t "2" then validate_resend_request v
  else None.

(** [None]: valid. *)
Definition ValidateAdministrativeMessage (decoded : DecodedMessageView) : M (option RejectInfo) :=
  let t := h_msg_type (d_header decoded) in
  let v := d_message decoded in
  if negb (IsAdminMessage t) then ret None
  else match RejectUnsupportedSessionEncryption v with
  | Some r => ret (Some r)
  | None =>
      c <- cfg id ;;
      rejected <- (if issue_present (d_validation_issue decoded)
                   then should_reject (d_validation_issue decoded) decoded else ret false) ;;
      if (rejected : bool) then ret (Some (issue_reject (d_validation_issue decoded) (string_eqb t "A")))
      else
        let issue := FindEnumValidationIssue (ac_validation_policy c) (ac_validation_callback c) decoded in
        rejected <- (match issue with Some i => should_reject i decoded | None => ret false end) ;;
        match issue, (rejected : bool) with
        | Some i, true => ret (Some (issue_reject i (string_eqb t "A")))
        | _, _ => ret (validate_admin_fields t v)
        end
  end.

(** The disconnect flag of the result is not used by the caller. *)
Definition ValidateApplicationMessage (decoded : DecodedMessageView) : M (option RejectInfo) :=
  let t := h_msg_type (d_header decoded) in
  let v := d_message decoded in
  if IsAdminMessage t then ret None
  else match RejectUnsupportedSessionEncryption v with
  | Some r => ret (Some r)
  | None =>
      c <- cfg id ;;
      let policy := ac_validation_policy c in
      if negb (find_message t) then
        ret (if negb (require_known_app_message_type policy) then None
             else Some (MkReject tags.kMsgType kSessionRejectInvalidMsgType
                          "application message type is not present in the bound dictionary" false))
      else
        rejected <- (if issue_present (d_validation_issue decoded)
                     then should_reject (d_validation_issue decoded) decoded else ret false) ;;
        if (rejected : bool) then ret (Some (issue_reject (d_validation_issue decoded) false))
        else if negb (require_required_fields_on_app_messages policy) then ret None
        else ret (match validate_required_fields v with
                  | None => None
                  | Some (tag, text) => Some (MkReject tag kSessionRejectRequiredTagMissing text false)
                  end)
  end.

(** *** Outbound frames *)

Definition send_options (c : AdminProtocolConfig) (seq_num : Z) (poss_dup : bool) (orig_sending_time : list Z)
    (envelope : SessionSendEnvelopeView) : EncodeOptions :=
  MkEncodeOptions (bytes (ac_begin_string c)) (bytes (ac_sender_comp_id c)) (env_sender_sub_id envelope)
    (bytes (ac_target_comp_id c)) (env_target_sub_id envelope) [] [] (bytes (ac_default_appl_ver_id c))
    (env_appl_ver_id envelope) [] orig_sending_time (ac_timestamp_resolution c) seq_num poss_dup false kFixSoh.

Definition FinalizeEncodedFrame (buffer : list Z) (t : string) (admin : bool) (timestamp_ns : Z) (persist poss_dup : bool)
    (extra_record_flags seq_num : Z) : M EncodedFrame :=
  let frame := MkFrame (frame_assign buffer) t admin in
  on_session (RecordOutboundActivity timestamp_ns) ;;;
  a <- get ;;
  (if persist && (match ap_store a with None => false | Some _ => true end)
   then
     let flags := Z.lor (Z.lor extra_record_flags (if admin then kAdmin else 0)) (if poss_dup then kPossDup else 0) in
     let bytes := frame_view (frame_bytes frame) in
     snap <- snapshot ;;
     on_store (SaveOutboundViewAndRecoveryState
                 (MkView (snap_session_id snap) seq_num timestamp_ns flags bytes (ComputeBodyStartOffset bytes))
                 (recovery_of snap))
   else PersistRecoveryState) ;;;
  ret frame.

Definition lift {A} (r : Result A) : M A := match r with Value x => ret x | Error e => fail e end.

(** The template of the message type, or the generic encoder where there is none
    or it fails. *)
Definition encode_message (message : MessageView) (options : EncodeOptions) : Result (list Z) :=
  let fallback := EncodeFixMessageToBuffer message options in
  match ResolveEncodeTemplate (msg_type message) with
  | Some template => match template message options with Value b => Value b | Error _ => fallback end
  | None => fallback
  end.

Definition EncodeFrame (message : MessageView) (admin : bool) (timestamp_ns : Z) (persist poss_dup allocate_seq : bool)
    (extra_record_flags seq_override : Z) (orig_sending_time : list Z) (envelope : SessionSendEnvelopeView)
    : M EncodedFrame :=
  seq_num <- (if allocate_seq then allocate_outbound_seq else ret seq_override) ;;
  c <- cfg id ;;
  buffer <- lift (encode_message message (send_options c seq_num poss_dup orig_sending_time envelope)) ;;
  FinalizeEncodedFrame buffer (msg_type message) admin timestamp_ns persist poss_dup extra_record_flags seq_num.

(** The overload for bodies that are already encoded. *)
Definition EncodeEncodedFrame (message : EncodedApplicationMessageView) (admin : bool) (timestamp_ns : Z)
    (persist poss_dup allocate_seq : bool) (extra_record_flags seq_override : Z) (orig_sending_time : list Z)
    (envelope : SessionSendEnvelopeView) (extras : EncodedOutboundExtrasView) : M EncodedFrame :=
  seq_num <- (if allocate_seq then allocate_outbound_seq else ret seq_override) ;;
  c <- cfg id ;;
  let options := send_options c seq_num poss_dup orig_sending_time envelope in
  let extras := if extras_empty extras then em_extras message else extras in
  buffer <- lift (EncodePreEncodedApplicationToBuffer has_sse2 CurrentUtcTimestamp message options extras) ;;
  FinalizeEncodedFrame buffer (text_of (em_msg_type message)) admin timestamp_ns persist poss_dup
    extra_record_flags seq_num.

(** The argument pattern of every sequenced admin frame. *)
Definition encode_admin (m : MessageData) (timestamp_ns : Z) : M EncodedFrame :=
  EncodeFrame (owned_view m) true timestamp_ns true false true 0 0 [] no_envelope.

Definition BuildLogonFrame (timestamp_ns : Z) (reset_seq_num : bool) : M EncodedFrame :=
  c <- cfg id ;;
  snap <- snapshot ;;
  let m := set_int tags.kHeartBtInt (ac_heartbeat_interval_seconds c)
             (set_int tags.kEncryptMethod 0 (BuildAdminMessage "A")) in
  let m := if reset_seq_num then set_boolean tags.kResetSeqNumFlag true m else m in
  let m := if ac_send_next_expected_msg_seq_num c && supports_next_expected_msg_seq_num (ac_transport_profile c)
           then set_int tags.kNextExpectedMsgSeqNum (snap_next_in_seq snap) m else m in
  let m := fold_left (fun m f => add_string (lf_tag f) (lf_value f) m) (ac_logon_fields c) m in
  encode_admin m timestamp_ns.

Definition BuildHeartbeatFrame (timestamp_ns : Z) (test_request_id : string) : M EncodedFrame :=
  let m := BuildAdminMessage "0" in
  encode_admin (if string_empty test_request_id then m else set_string tags.kTestReqID test_request_id m) timestamp_ns.

Definition BuildTestRequestFrame (timestamp_ns : Z) (test_request_id : string) : M EncodedFrame :=
  encode_admin (set_string tags.kTestReqID test_request_id (BuildAdminMessage "1")) timestamp_ns.

Definition BuildResendRequestFrame (begin_seq end_seq timestamp_ns : Z) : M EncodedFrame :=
  encode_admin (set_int tags.kEndSeqNo end_seq (set_int tags.kBeginSeqNo begin_seq (BuildAdminMessage "2"))) timestamp_ns.

Definition gap_fill_message (new_seq_num : Z) : MessageData :=
  set_boolean tags.kPossDupFlag true
    (set_int tags.kNewSeqNo new_seq_num (set_boolean tags.kGapFillFlag true (BuildAdminMessage "4"))).

Definition BuildGapFillFrame (begin_seq new_seq_num timestamp_ns : Z) : M EncodedFrame :=
  EncodeFrame (owned_view (gap_fill_message new_seq_num)) true timestamp_ns false true false kGapFillRecord begin_seq []
    no_envelope.

Definition BuildRejectFrame (ref_seq_num : Z) (ref_msg_type : string) (ref_tag_id reject_reason : Z) (text : string)
    (timestamp_ns : Z) : M EncodedFrame :=
  let m := set_string tags.kRefMsgType ref_msg_type (set_int tags.kRefSeqNum ref_seq_num (BuildAdminMessage "3")) in
  let m := if ref_tag_id =? 0 then m else set_int tags.kRefTagID ref_tag_id m in
  let m := set_int tags.kRejectReason reject_reason m in
  let m := if string_empty text then m else set_string tags.kText text m in
  encode_admin m timestamp_ns.

Definition BeginLogout (text : string) (timestamp_ns : Z) : M EncodedFrame :=
  EnsureInitialized ;;;
  a <- get ;;
  if ap_logout_sent a then fail (status.InvalidArgument "logout already sent")
  else
    st <- session_state ;;
    when (SessionState_eqb st kActive || SessionState_eqb st kResendProcessing) (on_session SessionCore.BeginLogout) ;;;
    let m := BuildAdminMessage "5" in
    let m := if string_empty text then m else set_string tags.kText text m in
    modify (set_logout_sent true) ;;;
    modify (set_logout_sent_ns timestamp_ns) ;;;
    encode_admin m timestamp_ns.

Definition RejectInbound (decoded : DecodedMessageView) (r : RejectInfo) (timestamp_ns : Z) : M ProtocolEvent :=
  let event := if rj_reject_reason r =? kSessionRejectInvalidMsgType
               then push_warning (rj_text r) empty_event else push_error (rj_text r) empty_event in
  if rj_disconnect r && string_eqb (h_msg_type (d_header decoded)) "A" then
    logout <- BeginLogout (rj_text r) timestamp_ns ;;
    ret (set_disconnect true (push_frame logout event))
  else
    reject <- BuildRejectFrame (h_msg_seq_num (d_header decoded)) (msg_type (d_message decoded)) (rj_ref_tag_id r)
                (rj_reject_reason r) (rj_text r) timestamp_ns ;;
    ret (set_disconnect (rj_disconnect r) (push_frame reject event)).

(** *** Replay of stored messages *)

(** The inner loop: skips everything that is not a stored application message.
    [records] is the part of the loaded range from [record_index] on. *)
Fixpoint gap_scan (fuel : nat) (bounded_end seq : Z) (records : list MessageRecordView)
    : option (Z * list MessageRecordView) :=
  match fuel with
  | O => None
  | S fuel =>
      if seq <=? bounded_end then
        match records with
        | r :: rest =>
            if v_seq_num r =? seq then
              if negb (is_admin r) then Some (seq, records) else gap_scan fuel bounded_end (seq +u32 1) rest
            else gap_scan fuel bounded_end (seq +u32 1) records
        | [] => gap_scan fuel bounded_end (seq +u32 1) []
        end
      else Some (seq, records)
  end.

Definition replay_options (c : AdminProtocolConfig) (seq_num : Z) (orig_sending_time : list Z) : ReplayOptions :=
  MkReplay (bytes (ac_sender_comp_id c)) [] (bytes (ac_target_comp_id c)) [] (bytes (ac_begin_string c))
    (bytes (ac_default_appl_ver_id c)) [] [] [] seq_num (CurrentUtcTimestamp (ac_timestamp_resolution c))
    orig_sending_time false kFixSoh false.

(** The frame of one stored application message. *)
Definition replay_frame (c : AdminProtocolConfig) (r : MessageRecordView) : Result EncodedFrame :=
  let parsed := if v_body_start_offset r =? 0
                then DecodeRawPassThrough has_sse2 (v_payload r) kFixSoh false
                else DecodeRawPassThroughAt has_sse2 (v_payload r) (v_body_start_offset r) kFixSoh false in
  match parsed with
  | None => Error undefined_behaviour
  | Some (Error e) => Error e
  | Some (Value v) =>
      match EncodeReplayInto has_sse2 v (replay_options c (v_seq_num r) (rv_sending_time v)) with
      | Error e => Error e
      | Value (b, _) => Value (MkFrame b (text_of (rv_msg_type v)) false)
      end
  end.

Fixpoint replay_loop (fuel : nat) (c : AdminProtocolConfig) (bounded_end timestamp_ns seq : Z)
    (records : list MessageRecordView) (frames : list EncodedFrame) : M (list EncodedFrame) :=
  match fuel with
  | O => fail diverges
  | S fuel' =>
      if seq <=? bounded_end then
        let gap :=
          match gap_scan fuel bounded_end seq records with
          | None => fail diverges
          | Some (seq', records') =>
              gap_fill <- BuildGapFillFrame seq seq' timestamp_ns ;;
              replay_loop fuel' c bounded_end timestamp_ns seq' records' (frames ++ [gap_fill])
          end in
        match records with
        | r :: rest =>
            if (v_seq_num r =? seq) && negb (is_admin r) then
              frame <- lift (replay_frame c r) ;;
              replay_loop fuel' c bounded_end timestamp_ns (seq +u32 1) rest (frames ++ [frame])
            else gap
        | [] => gap
        end
      else ret frames
  end.

Definition replay_bounded_end (end_seq next_out : Z) : Z :=
  if (end_seq =? 0) || (end_seq >=? next_out) then next_out -u32 1 else end_seq.

Definition ReplayOutbound (begin_seq end_seq timestamp_ns : Z) : M (list EncodedFrame) :=
  a <- get ;;
  match ap_store a with
  | None => ret []
  | Some s =>
      let snap := Snapshot (ap_session a) in
      let bounded_end := replay_bounded_end end_seq (snap_next_out_seq snap) in
      if (bounded_end <? begin_seq) || (bounded_end =? 0) then ret []
      else
        records <- lift (LoadOutboundRangeViews s (snap_session_id snap) begin_seq bounded_end) ;;
        replay_loop (Z.to_nat (bounded_end - begin_seq + 2)) (ap_config a) bounded_end timestamp_ns begin_seq records []
  end.

Definition push_frames (fs : list EncodedFrame) (e : ProtocolEvent) : ProtocolEvent := fold_left (fun e f => push_frame f e) fs e.

Definition ReplayCounterpartyExpectedRange (counterparty_next_expected pre_logon_next_out timestamp_ns : Z)
    (event : ProtocolEvent) : M ProtocolEvent :=
  if counterparty_next_expected >=? pre_logon_next_out then ret event
  else
    frames <- ReplayOutbound counterparty_next_expected (pre_logon_next_out -u32 1) timestamp_ns ;;
    ret (push_frames frames event).

(** *** Transport events *)

Definition OnTransportConnected (timestamp_ns : Z) : M ProtocolEvent :=
  EnsureInitialized ;;;
  c <- cfg id ;;
  when (ac_refresh_on_logon c) RefreshSessionStateFromStore ;;;
  on_session SessionCore.OnTransportConnected ;;;
  PersistRecoveryState ;;;
  if negb (is_initiator (ac_session c)) then ret empty_event
  else
    when (ac_reset_seq_num_on_logon c) (ResetSessionState 1 1 true) ;;;
    on_session BeginLogon ;;;
    logon <- BuildLogonFrame timestamp_ns (ac_reset_seq_num_on_logon c) ;;
    ret (push_frame logon empty_event).

Definition OnTransportClosed : M unit :=
  EnsureInitialized ;;;
  c <- cfg id ;;
  before <- session_state ;;
  let reset_for_logout := ac_reset_seq_num_on_logout c && SessionState_eqb before kAwaitingLogout in
  let reset_for_disconnect := ac_reset_seq_num_on_disconnect c && negb (SessionState_eqb before kAwaitingLogout) in
  modify (set_outstanding "") ;;;
  modify (set_logout_sent false) ;;;
  modify (set_test_request_sent_ns 0) ;;;
  modify (set_logout_sent_ns 0) ;;;
  modify (set_deferred []) ;;;
  on_session SessionCore.OnTransportClosed ;;;
  if reset_for_logout || reset_for_disconnect then ResetSessionState 1 1 true else PersistRecoveryState.

(** *** Inbound messages *)

Definition ConsumeExpectedInboundBeforeReject (decoded : DecodedMessageView) (snapshot_before : SessionSnapshot)
    (timestamp_ns : Z) : M unit :=
  st <- session_state ;;
  if negb (IsActiveAdminState st) then ret tt
  else if negb (h_msg_seq_num (d_header decoded) =? snap_next_in_seq snapshot_before) then ret tt
  else
    on_session (ObserveInboundSeq (h_msg_seq_num (d_header decoded))) ;;;
    consume_resend_completed ;;;
    on_session (RecordInboundActivity timestamp_ns) ;;;
    PersistRecoveryState.

Definition BuildPhaseViolationLogout (text : string) (snapshot_before : SessionSnapshot) (t : string) (timestamp_ns : Z)
    : M ProtocolEvent :=
  let event := push_error text empty_event in
  c <- cfg id ;;
  if negb (is_initiator (ac_session c)) && SessionState_eqb (snap_state snapshot_before) kConnected &&
     negb (string_eqb t "A")
  then ret (set_disconnect true event)
  else
    logout <- BeginLogout text timestamp_ns ;;
    ret (set_disconnect true (push_frame logout event)).

Definition CommitInboundPersistence (decoded : DecodedMessageView) (timestamp_ns : Z) : M unit :=
  on_session (RecordInboundActivity timestamp_ns) ;;;
  a <- get ;;
  match ap_store a with
  | Some _ =>
      let flags := Z.lor (if IsAdminMessage (h_msg_type (d_header decoded)) then kAdmin else 0)
                     (if h_poss_dup (d_header decoded) then kPossDup else 0) in
      snap <- snapshot ;;
      on_store (SaveInboundViewAndRecoveryState
                  (MkView (snap_session_id snap) (h_msg_seq_num (d_header decoded)) timestamp_ns flags (d_raw decoded) 0)
                  (recovery_of snap))
  | None => PersistRecoveryState
  end.

Definition logout_event (text : string) (timestamp_ns : Z) (event : ProtocolEvent) : M ProtocolEvent :=
  logout <- BeginLogout text timestamp_ns ;;
  ret (set_disconnect true (push_frame logout event)).

Definition ProcessInboundLogon (decoded : DecodedMessageView) (timestamp_ns : Z) : M ProtocolEvent :=
  let v := d_message decoded in
  let inbound_next_expected := get_int v tags.kNextExpectedMsgSeqNum in
  let inbound_reset := HasBoolean v tags.kResetSeqNumFlag in
  c <- cfg id ;;
  snap <- snapshot ;;
  when inbound_reset
    (ResetSessionState (h_msg_seq_num (d_header decoded) +u32 1)
       (if is_initiator (ac_session c) then snap_next_out_seq snap else 1) false) ;;;
  snap <- snapshot ;;
  let pre_logon_next_out := snap_next_out_seq snap in
  if (match inbound_next_expected with Some n => n <=? 0 | None => false end)
  then logout_event "received invalid NextExpectedMsgSeqNum on Logon" timestamp_ns empty_event
  else if (match inbound_next_expected with Some n => n >? pre_logon_next_out | None => false end)
  then logout_event "counterparty requested unsent outbound sequence range" timestamp_ns empty_event
  else
    event <- (if negb (is_initiator (ac_session c))
              then response <- BuildLogonFrame timestamp_ns (ac_reset_seq_num_on_logon c || inbound_reset) ;;
                   ret (push_frame response empty_event)
              else ret empty_event) ;;
    on_session OnLogonAccepted ;;;
    PersistRecoveryState ;;;
    let event := set_session_active event in
    match inbound_next_expected with
    | Some n => ReplayCounterpartyExpectedRange (u32 n) pre_logon_next_out timestamp_ns event
    | None => ret event
    end.

Definition build_business_reject (decoded : DecodedMessageView) (reason : Z) (text : string) (timestamp_ns : Z)
    : M ProtocolEvent :=
  let m := set_int kBusinessRejectReasonTag reason
             (set_string tags.kRefMsgType (msg_type (d_message decoded))
                (set_int tags.kRefSeqNum (h_msg_seq_num (d_header decoded)) (BuildAdminMessage "j"))) in
  let m := if string_empty text then m else set_string tags.kText text m in
  frame <- encode_admin m timestamp_ns ;;
  let event := push_frame frame empty_event in
  ret (if (reason =? kBusinessRejectUnsupportedMessageType) || (reason =? kBusinessRejectApplicationNotAvailable)
       then push_warning text event else push_error text event).

Definition ProcessInboundApplication (decoded : DecodedMessageView) (timestamp_ns : Z) : M ProtocolEvent :=
  st <- session_state ;;
  if negb (IsActiveAdminState st)
  then fail (status.InvalidArgument "application message received before session activation")
  else
    c <- cfg id ;;
    match ResolveApplicationBusinessRejectReason c decoded with
    | Some reason =>
        build_business_reject decoded reason
          (if reason =? kBusinessRejectApplicationNotAvailable
           then "application handling is not available for this session"
           else "application message type is not supported for this session") timestamp_ns
    | None =>
        invalid <- ValidateApplicationMessage decoded ;;
        match invalid with
        | Some r => RejectInbound decoded (MkReject (rj_ref_tag_id r) (rj_reject_reason r) (rj_text r) false) timestamp_ns
        | None =>
            let event := push_message (MkRef (d_message decoded) kDecodeScratch) empty_event in
            ret (if HasBoolean (d_message decoded) tags.kPossResend then set_ev_poss_resend event else event)
        end
    end.

Definition HandleInboundDecodeFailure (decode_status : Status) (timestamp_ns : Z) : M ProtocolEvent :=
  if negb (ShouldIgnoreInboundDecodeFailure decode_status) then fail decode_status
  else
    EnsureInitialized ;;;
    on_session (RecordInboundActivity timestamp_ns) ;;;
    PersistRecoveryState ;;;
    ret (push_warning (if string_empty (message decode_status) then "malformed inbound frame ignored"
                       else message decode_status) empty_event).

(** The lambda [reject_then_logout] of [OnInbound]. *)
Definition reject_then_logout (decoded : DecodedMessageView) (ref_tag_id reject_reason : Z) (text : string)
    (timestamp_ns : Z) : M ProtocolEvent :=
  event <- RejectInbound decoded (MkReject ref_tag_id reject_reason text false) timestamp_ns ;;
  logout_event text timestamp_ns event.

Definition kBackwardsReset : RejectInfo :=
  MkReject tags.kNewSeqNo kSessionRejectValueIncorrect
    "SequenceReset NewSeqNo must not move inbound sequence backwards" false.

(** [AdvanceInboundExpectedSeq] where the new number is ahead of the snapshot. *)
Definition advance_inbound (new_seq_num : Z) (snapshot_before : SessionSnapshot) : M unit :=
  when (new_seq_num >? snap_next_in_seq snapshot_before)
    (on_session (AdvanceInboundExpectedSeq new_seq_num) ;;; consume_resend_completed).

Definition too_low_text (expected received : Z) : string :=
  "MsgSeqNum too low, expecting " +:+ pretty expected +:+ " but received " +:+ pretty received.

(** [OnInbound], a message below the expected sequence number. *)
Definition inbound_too_low (decoded : DecodedMessageView) (snapshot_before : SessionSnapshot) (timestamp_ns : Z)
    : M ProtocolEvent :=
  let v := d_message decoded in
  let seq_num := h_msg_seq_num (d_header decoded) in
  let expected := snap_next_in_seq snapshot_before in
  if string_eqb (msg_type v) "4" then
    match ParseSequenceResetNewSeq v with
    | inr (reason, text) => RejectInbound decoded (MkReject tags.kNewSeqNo reason text false) timestamp_ns
    | inl new_seq_num =>
        if HasBoolean v tags.kGapFillFlag && negb (h_poss_dup (d_header decoded)) then
          let text := too_low_text expected seq_num in
          logout_event text timestamp_ns (push_error text empty_event)
        else if new_seq_num <? expected then RejectInbound decoded kBackwardsReset timestamp_ns
        else
          advance_inbound new_seq_num snapshot_before ;;;
          CommitInboundPersistence decoded timestamp_ns ;;;
          ret empty_event
    end
  else if h_poss_dup (d_header decoded) then
    CommitInboundPersistence decoded timestamp_ns ;;; ret empty_event
  else
    c <- cfg id ;;
    if negb (reject_on_stale_msg_seq_num (ac_validation_policy c)) then
      CommitInboundPersistence decoded timestamp_ns ;;; ret empty_event
    else
      logout_event "received stale inbound FIX sequence number" timestamp_ns
        (push_error "received stale inbound FIX sequence number" empty_event).

(** After the sequence number is settled: the phase check and the validation of
    an admin message, and what [k] does with a valid one. *)
Definition checked_dispatch (decoded : DecodedMessageView) (snapshot_before : SessionSnapshot) (timestamp_ns : Z)
    (violation : option string) (k : M ProtocolEvent) : M ProtocolEvent :=
  match violation with
  | Some text => BuildPhaseViolationLogout text snapshot_before (msg_type (d_message decoded)) timestamp_ns
  | None =>
      invalid <- ValidateAdministrativeMessage decoded ;;
      match invalid with
      | Some r => RejectInbound decoded r timestamp_ns
      | None => k
      end
  end.

(** [OnInbound], SequenceReset in reset mode. *)
Definition inbound_sequence_reset (decoded : DecodedMessageView) (snapshot_before : SessionSnapshot) (timestamp_ns : Z)
    (violation : option string) : M ProtocolEvent :=
  match ParseSequenceResetNewSeq (d_message decoded) with
  | inr (reason, text) => RejectInbound decoded (MkReject tags.kNewSeqNo reason text false) timestamp_ns
  | inl new_seq_num =>
      if new_seq_num <? snap_next_in_seq snapshot_before then RejectInbound decoded kBackwardsReset timestamp_ns
      else
        advance_inbound new_seq_num snapshot_before ;;;
        CommitInboundPersistence decoded timestamp_ns ;;;
        checked_dispatch decoded snapshot_before timestamp_ns violation
          (ret (if new_seq_num =? snap_next_in_seq snapshot_before
                then push_warning "SequenceReset NewSeqNo equals expected inbound sequence" empty_event
                else empty_event))
  end.

(** [OnInbound], [ObserveInboundSeq] failed with [observe_status]. *)
Definition inbound_gap (decoded : DecodedMessageView) (snapshot_before : SessionSnapshot) (timestamp_ns : Z)
    (violation : option string) (observe_status : Status) : M ProtocolEvent :=
  let ahead := h_msg_seq_num (d_header decoded) >? snap_next_in_seq snapshot_before in
  a <- get ;;
  match violation, pending_resend (ap_session a) with
  | Some text, _ =>
      if ahead then
        on_session (RecordInboundActivity timestamp_ns) ;;;
        BuildPhaseViolationLogout text snapshot_before (msg_type (d_message decoded)) timestamp_ns
      else fail observe_status
  | None, Some pending =>
      if ahead then
        on_session (RecordInboundActivity timestamp_ns) ;;;
        resend <- BuildResendRequestFrame (begin_seq pending) (end_seq pending) timestamp_ns ;;
        modify (fun a => set_deferred (ap_deferred_gap_frames a ++ [d_raw decoded]) a) ;;;
        ret (push_frame resend empty_event)
      else fail observe_status
  | None, None => fail observe_status
  end.

(** [OnInbound], a gap fill that is in sequence. *)
Definition inbound_gap_fill (decoded : DecodedMessageView) (timestamp_ns : Z) : M ProtocolEvent :=
  match ParseSequenceResetNewSeq (d_message decoded) with
  | inr (reason, text) => RejectInbound decoded (MkReject tags.kNewSeqNo reason text false) timestamp_ns
  | inl new_seq_num =>
      snap <- snapshot ;;
      if new_seq_num <? snap_next_in_seq snap then RejectInbound decoded kBackwardsReset timestamp_ns
      else
        on_session (AdvanceInboundExpectedSeq new_seq_num) ;;;
        PersistRecoveryState ;;;
        ret empty_event
  end.

(** [OnInbound], the handler of each message type. *)
Definition dispatch_inbound (decoded : DecodedMessageView) (timestamp_ns : Z) : M ProtocolEvent :=
  let v := d_message decoded in
  let t := msg_type v in
  if string_eqb t "A" then ProcessInboundLogon decoded timestamp_ns
  else if string_eqb t "0" then
    a <- get ;;
    let id := GetStringView v tags.kTestReqID in
    when (negb (string_empty id) && string_eqb id (ap_outstanding_test_request_id a))
      (modify (set_outstanding "") ;;; modify (set_test_request_sent_ns 0)) ;;;
    ret empty_event
  else if string_eqb t "1" then
    response <- BuildHeartbeatFrame timestamp_ns (GetStringView v tags.kTestReqID) ;;
    ret (push_frame response empty_event)
  else if string_eqb t "2" then
    frames <- ReplayOutbound (u32 (Z.max 1 (GetInt v tags.kBeginSeqNo 1))) (u32 (Z.max 0 (GetInt v tags.kEndSeqNo 0)))
                timestamp_ns ;;
    ret (set_frames frames empty_event)
  else if string_eqb t "4" then inbound_gap_fill decoded timestamp_ns
  else if string_eqb t "5" then
    st <- session_state ;;
    if negb (SessionState_eqb st kAwaitingLogout) then logout_event "" timestamp_ns empty_event
    else ret (set_disconnect true empty_event)
  else if string_eqb t "3" then
    ret (push_message (MkRef v kDecodeScratch) (set_session_reject empty_event))
  else ProcessInboundApplication decoded timestamp_ns.

(** [OnInbound], a message that is not below the expected number and not a
    reset: observe it, and deliver it or open a gap. *)
Definition inbound_in_order (decoded : DecodedMessageView) (snapshot_before : SessionSnapshot) (timestamp_ns : Z)
    (violation : option string) : M ProtocolEvent :=
  observed <- catch (on_session (ObserveInboundSeq (h_msg_seq_num (d_header decoded)))) ;;
  consume_resend_completed ;;;
  match observed with
  | Error st => inbound_gap decoded snapshot_before timestamp_ns violation st
  | Value _ =>
      CommitInboundPersistence decoded timestamp_ns ;;;
      checked_dispatch decoded snapshot_before timestamp_ns violation (dispatch_inbound decoded timestamp_ns)
  end.

(** [OnInbound] after the header checks: refresh and reset, the phase check, and
    the three cases of the sequence number. *)
Definition inbound_sequenced (decoded : DecodedMessageView) (snapshot_before : SessionSnapshot) (timestamp_ns : Z)
    : M ProtocolEvent :=
  let v := d_message decoded in
  let is_logon := string_eqb (msg_type v) "A" in
  let is_sequence_reset := string_eqb (msg_type v) "4" in
  let inbound_gap_fill := is_sequence_reset && HasBoolean v tags.kGapFillFlag in
  let inbound_logon_reset := is_logon && HasBoolean v tags.kResetSeqNumFlag in
  c <- cfg id ;;
  let initiator := is_initiator (ac_session c) in
  let acceptor_config_logon_reset := is_logon && negb initiator && ac_reset_seq_num_on_logon c && negb inbound_logon_reset in
  when (is_logon && ac_refresh_on_logon c) RefreshSessionStateFromStore ;;;
  snapshot_before <- (if inbound_logon_reset || acceptor_config_logon_reset
                      then ResetSessionState 1 (if initiator then snap_next_out_seq snapshot_before else 1) (negb initiator) ;;;
                           snapshot
                      else ret snapshot_before) ;;
  let violation := AdminPhaseViolationText (snap_state snapshot_before) (msg_type v) in
  if (match violation with Some _ => true | None => false end) && negb initiator &&
     SessionState_eqb (snap_state snapshot_before) kConnected && negb is_logon then
    on_session (RecordInboundActivity timestamp_ns) ;;;
    PersistRecoveryState ;;;
    ret (set_disconnect true (push_error (default "" violation) empty_event))
  else if h_msg_seq_num (d_header decoded) <? snap_next_in_seq snapshot_before
  then inbound_too_low decoded snapshot_before timestamp_ns
  else if is_sequence_reset && negb inbound_gap_fill
  then inbound_sequence_reset decoded snapshot_before timestamp_ns violation
  else inbound_in_order decoded snapshot_before timestamp_ns violation.

(** [operator>] of [std::string_view]: bytewise, a proper prefix is smaller. *)
Definition string_gtb (a b : string) : bool := match String.compare a b with Gt => true | _ => false end.

(** [OnInbound(const codec::DecodedMessageView&, ...)]. *)
Definition OnInboundDecoded (decoded : DecodedMessageView) (timestamp_ns : Z) : M ProtocolEvent :=
  EnsureInitialized ;;;
  let h := d_header decoded in
  let is_logon := string_eqb (msg_type (d_message decoded)) "A" in
  let header_logon := string_eqb (h_msg_type h) "A" in
  snapshot_before <- snapshot ;;
  c <- cfg id ;;
  match ValidateCompIds c decoded with
  | Some r =>
      ConsumeExpectedInboundBeforeReject decoded snapshot_before timestamp_ns ;;;
      if rj_disconnect r && (rj_reject_reason r =? kSessionRejectCompIdProblem) then
        when (SessionState_eqb (snap_state snapshot_before) kConnected && is_logon &&
              (h_msg_seq_num h =? snap_next_in_seq snapshot_before))
          (on_session (ObserveInboundSeq (h_msg_seq_num h)) ;;;
           on_session (RecordInboundActivity timestamp_ns) ;;;
           PersistRecoveryState) ;;;
        reject_then_logout decoded (rj_ref_tag_id r) (rj_reject_reason r) (rj_text r) timestamp_ns
      else RejectInbound decoded r timestamp_ns
  | None =>
      if negb (ValidatePossDup c decoded) then
        ConsumeExpectedInboundBeforeReject decoded snapshot_before timestamp_ns ;;;
        RejectInbound decoded (MkReject tags.kOrigSendingTime kSessionRejectRequiredTagMissing
                                 "PossDupFlag requires OrigSendingTime" header_logon) timestamp_ns
      else if h_poss_dup h && negb (string_empty (h_orig_sending_time h)) && negb (string_empty (h_sending_time h)) &&
              string_gtb (h_orig_sending_time h) (h_sending_time h) then
        ConsumeExpectedInboundBeforeReject decoded snapshot_before timestamp_ns ;;;
        RejectInbound decoded (MkReject tags.kSendingTime kSessionRejectSendingTimeAccuracyProblem
                                 "OrigSendingTime must not be later than SendingTime" header_logon) timestamp_ns
      else if SendingTimeOutsideThreshold (bytes (h_sending_time h)) timestamp_ns (ac_sending_time_threshold_seconds c) then
        ConsumeExpectedInboundBeforeReject decoded snapshot_before timestamp_ns ;;;
        reject_then_logout decoded tags.kSendingTime kSessionRejectSendingTimeAccuracyProblem
          "SendingTime is outside the configured tolerance" timestamp_ns
      else inbound_sequenced decoded snapshot_before timestamp_ns
  end.

(** What a caller does with the event of a decoded frame before it lets the
    decode buffer go. *)
Definition retain_messages (decoded : DecodedMessageView) (event : ProtocolEvent) : ProtocolEvent :=
  match application_messages event with
  | [_] => AdoptParsedApplicationMessage (d_message decoded) event
  | _ => MaterializeApplicationMessages event
  end.

(** A message moved out of an event whose own storage is about to die. *)
Definition outlive_event (r : MessageRef) : MessageRef :=
  match ref_storage r with kEventStorage => MkRef (ref_view r) kDangling | _ => r end.

Definition merge_inner (inner event : ProtocolEvent) : ProtocolEvent :=
  let event := push_frames (outbound_frames inner) event in
  fold_left (fun e m => push_message (outlive_event m) e) (application_messages inner) event.

Definition erase_deferred (n : nat) : M unit :=
  modify (fun a => set_deferred (drop n (ap_deferred_gap_frames a)) a).

(** The loop and the bulk erase behind it.  The result is the event the pointer
    argument holds afterwards, with the status of the frame that failed. *)
Fixpoint drain_loop (fuel index : nat) (timestamp_ns : Z) (event : ProtocolEvent) : M (ProtocolEvent * option Status) :=
  match fuel with
  | O => fail diverges
  | S fuel =>
      a <- get ;;
      match ap_deferred_gap_frames a !! index, pending_resend (ap_session a) with
      | None, _ | _, Some _ => erase_deferred index ;;; ret (event, None)
      | Some frame, None =>
          modify (set_deferred (<[index := []]> (ap_deferred_gap_frames a))) ;;;
          let index := Datatypes.S index in
          match DecodeFixMessageView frame (verify_checksum (ac_validation_policy (ap_config a))) with
          | Error _ => drain_loop fuel index timestamp_ns event
          | Value decoded =>
              if h_msg_seq_num (d_header decoded) <? next_in_seq (ap_session a)
              then drain_loop fuel index timestamp_ns event
              else
                result <- catch (OnInboundDecoded decoded timestamp_ns) ;;
                match result with
                | Error st => erase_deferred index ;;; ret (event, Some st)
                | Value inner =>
                    let inner := retain_messages decoded inner in
                    let event := merge_inner inner event in
                    if disconnect inner then erase_deferred index ;;; ret (set_disconnect true event, None)
                    else drain_loop fuel index timestamp_ns event
                end
          end
      end
  end.

Definition DrainDeferredGapFrames (timestamp_ns : Z) (event : ProtocolEvent) : M (ProtocolEvent * option Status) :=
  a <- get ;;
  drain_loop (Datatypes.S (length (ap_deferred_gap_frames a))) 0 timestamp_ns event.

(** [OnInbound(std::span<const std::byte>, ...)]: an error of the drain is returned. *)
Definition OnInboundSpan (frame : list Z) (timestamp_ns : Z) : M ProtocolEvent :=
  decoded <- DecodeInboundFrame frame ;;
  match decoded with
  | Error e => HandleInboundDecodeFailure e timestamp_ns
  | Value decoded =>
      event <- OnInboundDecoded decoded timestamp_ns ;;
      drained <- DrainDeferredGapFrames timestamp_ns (retain_messages decoded event) ;;
      match drained with
      | (_, Some st) => fail st
      | (event, None) => ret (move_event event)
      end
  end.

(** [OnInbound(std::vector<std::byte>&&, ...)]: an error of the drain is dropped. *)
Definition OnInboundVector (frame : list Z) (timestamp_ns : Z) : M ProtocolEvent :=
  decoded <- DecodeInboundFrame frame ;;
  match decoded with
  | Error e => HandleInboundDecodeFailure e timestamp_ns
  | Value decoded =>
      event <- OnInboundDecoded decoded timestamp_ns ;;
      drained <- DrainDeferredGapFrames timestamp_ns (retain_messages decoded event) ;;
      match drained with
      | (event, Some st) => if status.ok st then fail st else ret (move_event event)
      | (event, None) => ret (move_event event)
      end
  end.

(** *** Timers and application sends *)

Definition timed_state (st : SessionState) : bool :=
  SessionState_eqb st kActive || SessionState_eqb st kAwaitingLogout || SessionState_eqb st kResendProcessing ||
  SessionState_eqb st kPendingLogon.

Definition heartbeat_interval_ns (c : AdminProtocolConfig) : Z :=
  Z.max 1 (ac_heartbeat_interval_seconds c) *u64 kNanosPerSecond.

Definition test_request_threshold_ns (interval_ns : Z) : Z := interval_ns +u64 (interval_ns / kTestRequestGraceDivisor).

Definition OnTimer (timestamp_ns : Z) : M ProtocolEvent :=
  EnsureInitialized ;;;
  a <- get ;;
  let snap := Snapshot (ap_session a) in
  let st := snap_state snap in
  if negb (timed_state st) then ret empty_event
  else
    let interval_ns := heartbeat_interval_ns (ap_config a) in
    if SessionState_eqb st kPendingLogon then
      ret (if negb (snap_last_outbound_ns snap =? 0) &&
              (timestamp_ns >? snap_last_outbound_ns snap +u64 (interval_ns *u64 2))
           then set_disconnect true empty_event else empty_event)
    else if SessionState_eqb st kAwaitingLogout && negb (ap_logout_sent_ns a =? 0) &&
            (timestamp_ns >? ap_logout_sent_ns a +u64 interval_ns)
    then ret (set_disconnect true (push_warning "Logout acknowledgement timeout" empty_event))
    else if negb (string_empty (ap_outstanding_test_request_id a)) && negb (ap_test_request_sent_ns a =? 0) &&
            (timestamp_ns >? ap_test_request_sent_ns a +u64 interval_ns)
    then ret (set_disconnect true empty_event)
    else if negb (snap_last_inbound_ns snap =? 0) &&
            (timestamp_ns >? snap_last_inbound_ns snap +u64 test_request_threshold_ns interval_ns) &&
            string_empty (ap_outstanding_test_request_id a)
    then
      modify (set_outstanding (pretty timestamp_ns)) ;;;
      modify (set_test_request_sent_ns timestamp_ns) ;;;
      test_request <- BuildTestRequestFrame timestamp_ns (pretty timestamp_ns) ;;
      ret (push_frame test_request empty_event)
    else if (snap_last_outbound_ns snap =? 0) || (timestamp_ns >? snap_last_outbound_ns snap +u64 interval_ns)
    then
      heartbeat <- BuildHeartbeatFrame timestamp_ns "" ;;
      ret (push_frame heartbeat empty_event)
    else ret empty_event.

(** The lambda [update_deadline]. *)
Definition update_deadline (candidate_ns : Z) (deadline : option Z) : option Z :=
  match deadline with
  | None => Some candidate_ns
  | Some d => if candidate_ns <? d then Some candidate_ns else Some d
  end.

Definition clamp_deadline (timestamp_ns : Z) (deadline : option Z) : option Z :=
  match deadline with
  | Some d => if d <? timestamp_ns then Some timestamp_ns else Some d
  | None => None
  end.

Definition NextTimerDeadline (timestamp_ns : Z) (a : Admin St) : option Z :=
  match ap_initialization_error a with
  | Some _ => None
  | None =>
      let snap := Snapshot (ap_session a) in
      let st := snap_state snap in
      if negb (timed_state st) then None
      else
        let interval_ns := heartbeat_interval_ns (ap_config a) in
        if SessionState_eqb st kPendingLogon then
          clamp_deadline timestamp_ns
            (if negb (snap_last_outbound_ns snap =? 0)
             then update_deadline (snap_last_outbound_ns snap +u64 (interval_ns *u64 2)) None else None)
        else
          let d := if SessionState_eqb st kAwaitingLogout && negb (ap_logout_sent_ns a =? 0)
                   then update_deadline (ap_logout_sent_ns a +u64 interval_ns) None else None in
          let d := if negb (string_empty (ap_outstanding_test_request_id a)) && negb (ap_test_request_sent_ns a =? 0)
                   then update_deadline (ap_test_request_sent_ns a +u64 interval_ns) d
                   else if negb (snap_last_inbound_ns snap =? 0)
                   then update_deadline (snap_last_inbound_ns snap +u64 test_request_threshold_ns interval_ns) d
                   else d in
          let d := if snap_last_outbound_ns snap =? 0 then update_deadline timestamp_ns d
                   else update_deadline (snap_last_outbound_ns snap +u64 interval_ns) d in
          clamp_deadline timestamp_ns d
  end.

Definition sendable_state (st : SessionState) : bool := SessionState_eqb st kActive || SessionState_eqb st kAwaitingLogout.

Definition SendApplication (message : MessageView) (timestamp_ns : Z) (envelope : SessionSendEnvelopeView) : M EncodedFrame :=
  EnsureInitialized ;;;
  st <- session_state ;;
  if negb (sendable_state st)
  then fail (status.InvalidArgument "cannot send application payload on an inactive FIX session")
  else EncodeFrame message false timestamp_ns true false true 0 0 [] envelope.

Definition SendEncodedApplication (message : EncodedApplicationMessageView) (timestamp_ns : Z)
    (envelope : SessionSendEnvelopeView) (extras : EncodedOutboundExtrasView) : M EncodedFrame :=
  EnsureInitialized ;;;
  st <- session_state ;;
  if negb (sendable_state st)
  then fail (status.InvalidArgument "cannot send application payload on an inactive FIX session")
  else EncodeEncodedFrame message false timestamp_ns true false true 0 0 [] envelope extras.
End Protocol.
