(* ===== verification/AdminDemo.v ===== *)
(** * A concrete protocol object

    A small codec, a configuration and two session objects on which the theorems
    about the admin protocol are instantiated and its handlers are run. *)
From S2P Require Import Prelude Base StdAlgo IntFormat FixTags Wire RawPassThrough Frame Message Validation.
From S2P Require Import TransportProfile SessionCore SessionStore MemoryStore AdminProtocol.
From stdpp Require Import pretty.
Open Scope Z_scope.

(** A frame of the toy codec is the type byte, the sequence number, and pairs of
    tag and integer value; the two flag tags carry booleans. *)
Fixpoint toy_fields (l : list Z) : list FieldView :=
  match l with
  | tag :: value :: rest =>
      (if tags.one_of [tags.kGapFillFlag; tags.kResetSeqNumFlag] tag
       then MkFieldView tag kFieldBoolean "" 0 0 0 (value =? 1)
       else MkFieldView tag kFieldInt "" value 0 0 false) :: toy_fields rest
  | _ => []
  end.

Definition toy_header (t : string) (seq : Z) : SessionHeaderView :=
  MkHeader "FIX.4.4" t "SERVER" "" "CLIENT" "" "" "" "" "" "" "" 0 seq 0 false false.

Definition toy_decoded (t seq : Z) (rest : list Z) : DecodedMessageView :=
  MkDecoded (MkMessageView (text_of [t]) (toy_fields rest) []) (toy_header (text_of [t]) seq) (t :: seq :: rest)
    (MkIssue ValidationIssueKind.kNone 0 "").

Definition toy_decode (frame : list Z) (verify : bool) : Result DecodedMessageView :=
  match frame with
  | t :: seq :: rest => Value (toy_decoded t seq rest)
  | _ => Error (status.FormatError "frame too short")
  end.

Definition toy_encode (m : MessageView) (o : EncodeOptions) : Result (list Z) :=
  Value (bytes (msg_type m) ++ [eo_msg_seq_num o] ++
         concat (map (fun f => if f_type f =? kFieldInt then [f_tag f; f_int_value f] else []) (view_fields m))).

Definition toy_dictionary : Dictionary := {|
  find_message := fun _ => true;
  find_field_enum_count := fun _ => None;
  is_enum_value_allowed := fun _ _ => true;
  validate_required_fields := fun _ => None;
|}.

Definition toy_codec : Codec := {|
  codec_dictionary := toy_dictionary;
  has_sse2 := false;
  DecodeFixMessageView := toy_decode;
  find_template := fun _ => None;
  EncodeFixMessageToBuffer := toy_encode;
  CurrentUtcTimestamp := fun _ => bytes "20240102-03:04:05";
|}.
#[export] Existing Instance toy_codec.

Definition toy_session_config : SessionConfig :=
  MkSessionConfig 7 (MkKey "FIX.4.4" "CLIENT" "SERVER" None None None) 1 "" 30 true.

Definition toy_config : AdminProtocolConfig :=
  MkAdminConfig toy_session_config Fix44 "FIX.4.4" "CLIENT" "SERVER" "" [] 30 0 0 [] kSeconds true
    false false false false false Compatible None.

(** Outbound number 1 is the Logon, 2 an application message, 3 was never stored. *)
Definition toy_order : list Z :=
  make_frame (bytes "FIX.4.4")
    (render [(35, bytes "D"); (34, bytes "2"); (49, bytes "CLIENT"); (56, bytes "SERVER"); (52, bytes "20240102-03:04:05")] 1
     ++ bytes "11=ORD1" ++ [1]) 1.

Definition toy_history : list StoreOp :=
  [StSaveOutbound (MkView 7 1 10 kAdmin [65; 1] 0); StSaveOutbound (MkView 7 2 11 0 toy_order 0);
   StSaveRecovery (MkRecovery 7 5 4 12 11 true)].
Definition toy_store : MemorySessionStore := store_run toy_history.

Definition toy_core (st : SessionState) : SessionCore :=
  MkCore toy_session_config st kDisconnected 5 4 12 11 None false 0 0 default_day_cut (-1) (Some Fix44).

Definition toy_admin (st : SessionState) : Admin MemorySessionStore :=
  MkAdmin toy_config (Some toy_store) (toy_core st) "" false 0 0 None [] [].

Lemma toy_store_ok : store_ok toy_store.
Proof. exact (proj1 (store_run_refines toy_history)). Qed.

(** An active session: the next inbound number is delivered, one ahead opens a
    gap, and once the gap is filled the kept frame comes out of the drain. *)
Example toy_delivers :
  map ref_storage (match snd (OnInboundSpan [68; 5] 100 (toy_admin kActive)) with
                   | Value ev => application_messages ev | Error _ => [] end) = [kEventStorage].
Proof. vm_compute. reflexivity. Qed.

Definition toy_gapped : Admin MemorySessionStore := fst (OnInboundSpan [68; 7] 100 (toy_admin kActive)).
Example toy_gap : state (ap_session toy_gapped) = kResendProcessing /\ ap_deferred_gap_frames toy_gapped = [[68; 7]].
Proof. vm_compute. split; reflexivity. Qed.
