(* ===== verification/AdminProofs.v ===== *)
(** * Theorems about the admin protocol

    Three judgements over the calls of [AdminProtocol] carry the proofs: [rel R m]
    (every outcome of [m] relates the object before and after by the preorder
    [R]), [vals P m] (every value [m] returns satisfies [P]) and the combination
    [emits].  Each operation has one lemma per judgement, collected in the hint
    database [admin]; the theorems at the end combine them. *)
From S2P Require Import Prelude Base IntFormat FixTags Wire RawPassThrough Frame Message Validation.
From S2P Require Import TransportProfile SessionCore SessionStore MemoryStore AdminProtocol AdminDemo.
From stdpp Require Import pretty sorting.
Open Scope Z_scope.

Create HintDb admin.

(** ** Judgements *)

Section Judgements.
Context {St : Type}.

Definition rel {A} (R : relation (Admin St)) (m : SE (Admin St) A) : Prop := forall a, R a (fst (m a)).

Definition vals {A} (P : A -> Prop) (m : SE (Admin St) A) : Prop := forall a a' v, m a = (a', Value v) -> P v.

Lemma rel_ret {A} R `{!PreOrder R} (x : A) : rel R (ret x).
Proof. intros a. reflexivity. Qed.
Lemma rel_fail {A} R `{!PreOrder R} e : rel (A:=A) R (fail e).
Proof. intros a. reflexivity. Qed.
Lemma rel_get R `{!PreOrder R} : rel R get.
Proof. intros a. reflexivity. Qed.
Lemma rel_bind {A B} R `{!PreOrder R} (m : SE _ A) (k : A -> SE _ B) :
  rel R m -> (forall x, rel R (k x)) -> rel R (bind m k).
Proof.
  intros Hm Hk a. unfold bind. specialize (Hm a). destruct (m a) as [a' [x|e]]; cbn in *; [|done].
  etransitivity; [exact Hm|apply Hk].
Qed.
Lemma rel_catch {A} R (m : SE _ A) : rel R m -> rel R (catch m).
Proof. intros Hm a. unfold catch. specialize (Hm a). by destruct (m a). Qed.
Lemma rel_modify (R : relation (Admin St)) f : (forall a, R a (f a)) -> rel R (modify f).
Proof. intros Hf a. apply Hf. Qed.
Lemma rel_weaken {A} (R R' : relation (Admin St)) (m : SE _ A) :
  (forall a b, R a b -> R' a b) -> rel R m -> rel R' m.
Proof. intros HR Hm a. apply HR, Hm. Qed.

Lemma vals_ret {A} (P : A -> Prop) x : P x -> vals P (ret x).
Proof. intros Hx a a' v [= _ <-]. done. Qed.
Lemma vals_fail {A} (P : A -> Prop) e : vals P (fail e).
Proof. by intros a a' v [=]. Qed.
Lemma vals_bind {A B} (P : B -> Prop) (m : SE _ A) (k : A -> SE _ B) : (forall x, vals P (k x)) -> vals P (bind m k).
Proof.
  intros Hk a a' v. unfold bind. destruct (m a) as [a1 [x|e]]; [apply Hk|congruence].
Qed.

Lemma vals_bind_with {A B} (Q : A -> Prop) (P : B -> Prop) (m : SE _ A) (k : A -> SE _ B) :
  vals Q m -> (forall x, Q x -> vals P (k x)) -> vals P (bind m k).
Proof.
  intros Hm Hk a a' v. unfold bind. destruct (m a) as [a1 [x|e]] eqn:E; [|congruence].
  apply Hk. exact (Hm _ _ _ E).
Qed.

(** The two halves of a successful sequence. *)
Lemma bind_value {S A B} (m : SE S A) (k : A -> SE S B) a a' v :
  bind m k a = (a', Value v) -> exists a1 x, m a = (a1, Value x) /\ k x a1 = (a', Value v).
Proof. unfold bind. destruct (m a) as [a1 [x|e]]; [eauto|congruence]. Qed.
End Judgements.

#[export] Hint Resolve rel_ret rel_fail rel_get rel_bind rel_catch rel_modify vals_ret vals_fail vals_bind : admin.

(** ** Which steps an operation is made of *)

Section Steps.
Context {St : Type} `{SessionStore St} `{Codec}.
Implicit Types R : relation (Admin St).

(** The steps of sending a frame. *)
Class OutStep R := {
  out_pre :: PreOrder R;
  out_store op : rel R (on_store op);
  out_alloc : rel R allocate_outbound_seq;
  out_record ts : rel R (on_session (RecordOutboundActivity ts));
}.

(** The further steps of starting a logout. *)
Class LogoutStep R := {
  logout_out :: OutStep R;
  logout_session : rel R (on_session SessionCore.BeginLogout);
  logout_flag : rel R (modify (set_logout_sent true));
  logout_ns ts : rel R (modify (set_logout_sent_ns ts));
}.

(** Validation only reports warnings. *)
Class WarnStep R := {
  warn_pre :: PreOrder R;
  in_warn ws : rel R (modify (log_warnings ws));
}.

(** The further steps of receiving a message whose sequence number is settled. *)
Class InStep R := {
  in_logout :: LogoutStep R;
  in_warning :: WarnStep R;
  in_record ts : rel R (on_session (RecordInboundActivity ts));
  in_consume : rel R consume_resend_completed;
  in_answered : rel R (modify (set_outstanding ""));
  in_answered_ns : rel R (modify (set_test_request_sent_ns 0));
}.
End Steps.

#[export] Existing Instance out_pre.
#[export] Existing Instance logout_out.
#[export] Existing Instance in_logout.
#[export] Existing Instance warn_pre.
#[export] Existing Instance in_warning.
#[export] Hint Resolve out_pre logout_out in_logout warn_pre in_warning out_store out_alloc out_record logout_session logout_flag logout_ns
  in_record in_consume in_warn in_answered in_answered_ns : admin.

(** Walks through the body of an operation. *)
Ltac walk_step :=
  match goal with
  | |- rel ?R (bind _ _) => apply (rel_bind R); [|intros ?]
  | |- rel _ (catch _) => apply rel_catch
  | |- rel ?R (ret _) => apply (rel_ret R)
  | |- rel ?R (fail _) => apply (rel_fail R)
  | |- rel ?R get => apply (rel_get R)
  | |- rel _ (cfg _) => let a := fresh in intros a; reflexivity
  | |- rel _ snapshot => let a := fresh in intros a; reflexivity
  | |- rel _ session_state => let a := fresh in intros a; reflexivity
  | |- rel _ EnsureInitialized => let a := fresh in intros a; unfold EnsureInitialized; destruct (ap_initialization_error a); reflexivity
  | |- rel _ (lift _) => unfold lift
  | |- rel _ (when _ _) => unfold when
  | |- rel _ (modify _) => apply rel_modify; intros ?
  | |- context [if ?b then _ else _] => destruct b
  | |- context [match ?b with _ => _ end] => destruct b
  end.
Ltac walk := intros; cbv zeta; repeat first [solve [eauto 9 with admin] | walk_step].

Section OutLemmas.
Context {St : Type} `{SessionStore St} `{Codec} (R : relation (Admin St)) `{!OutStep R}.

Lemma rel_PersistRecoveryState : rel R PersistRecoveryState.
Proof. unfold PersistRecoveryState. walk. Qed.
Hint Resolve rel_PersistRecoveryState : admin.
Lemma rel_FinalizeEncodedFrame b t ad ts p d f n : rel R (FinalizeEncodedFrame b t ad ts p d f n).
Proof. unfold FinalizeEncodedFrame. walk. Qed.
Hint Resolve rel_FinalizeEncodedFrame : admin.
Lemma rel_EncodeFrame m ad ts p d al f n o e : rel R (EncodeFrame m ad ts p d al f n o e).
Proof. unfold EncodeFrame. walk. Qed.
Hint Resolve rel_EncodeFrame : admin.
Lemma rel_EncodeEncodedFrame m ad ts p d al f n o e x : rel R (EncodeEncodedFrame m ad ts p d al f n o e x).
Proof. unfold EncodeEncodedFrame. walk. Qed.
Lemma rel_encode_admin m ts : rel R (encode_admin m ts).
Proof. unfold encode_admin. walk. Qed.
Hint Resolve rel_encode_admin : admin.
Lemma rel_BuildLogonFrame ts b : rel R (BuildLogonFrame ts b).
Proof. unfold BuildLogonFrame. walk. Qed.
Lemma rel_BuildGapFillFrame b e ts : rel R (BuildGapFillFrame b e ts).
Proof. unfold BuildGapFillFrame. walk. Qed.
Hint Resolve rel_BuildGapFillFrame : admin.
Lemma rel_replay_loop fuel c be ts seq rs fs : rel R (replay_loop fuel c be ts seq rs fs).
Proof.
  revert seq rs fs. induction fuel as [|fuel IH]; intros; cbn [replay_loop]; [walk|].
  generalize (gap_scan (S fuel) be seq rs). intros g. walk.
Qed.
Hint Resolve rel_replay_loop : admin.
Lemma rel_ReplayOutbound b e ts : rel R (ReplayOutbound b e ts).
Proof. unfold ReplayOutbound. walk. Qed.
Hint Resolve rel_ReplayOutbound : admin.
Lemma rel_ReplayCounterparty n p ts e : rel R (ReplayCounterpartyExpectedRange n p ts e).
Proof. unfold ReplayCounterpartyExpectedRange. walk. Qed.
End OutLemmas.
#[export] Hint Resolve rel_PersistRecoveryState rel_FinalizeEncodedFrame rel_EncodeFrame rel_EncodeEncodedFrame
  rel_encode_admin rel_BuildLogonFrame rel_BuildGapFillFrame rel_ReplayOutbound rel_ReplayCounterparty : admin.

Section LogoutLemmas.
Context {St : Type} `{SessionStore St} `{Codec} (R : relation (Admin St)) `{!LogoutStep R}.

Lemma rel_BeginLogout t ts : rel R (BeginLogout t ts).
Proof. unfold BeginLogout. walk. Qed.
Hint Resolve rel_BeginLogout : admin.
Lemma rel_RejectInbound d r ts : rel R (RejectInbound d r ts).
Proof. unfold RejectInbound, BuildRejectFrame. walk. Qed.
Hint Resolve rel_RejectInbound : admin.
Lemma rel_logout_event t ts e : rel R (logout_event t ts e).
Proof. unfold logout_event. walk. Qed.
Hint Resolve rel_logout_event : admin.
Lemma rel_reject_then_logout d g r t ts : rel R (reject_then_logout d g r t ts).
Proof. unfold reject_then_logout. walk. Qed.
Lemma rel_BuildPhaseViolationLogout t s mt ts : rel R (BuildPhaseViolationLogout t s mt ts).
Proof. unfold BuildPhaseViolationLogout. walk. Qed.
End LogoutLemmas.
#[export] Hint Resolve rel_BeginLogout rel_RejectInbound rel_logout_event rel_reject_then_logout
  rel_BuildPhaseViolationLogout : admin.

Section WarnLemmas.
Context {St : Type} `{SessionStore St} `{Codec} (R : relation (Admin St)) `{!WarnStep R}.

Lemma rel_should_reject i d : rel R (should_reject i d).
Proof. unfold should_reject. walk. Qed.
Hint Resolve rel_should_reject : admin.
Lemma rel_ValidateAdministrativeMessage d : rel R (ValidateAdministrativeMessage d).
Proof. unfold ValidateAdministrativeMessage. walk. Qed.
Hint Resolve rel_ValidateAdministrativeMessage : admin.
Lemma rel_ValidateApplicationMessage d : rel R (ValidateApplicationMessage d).
Proof. unfold ValidateApplicationMessage. walk. Qed.
Hint Resolve rel_ValidateApplicationMessage : admin.
End WarnLemmas.
#[export] Hint Resolve rel_should_reject rel_ValidateAdministrativeMessage rel_ValidateApplicationMessage : admin.

Section InLemmas.
Context {St : Type} `{SessionStore St} `{Codec} (R : relation (Admin St)) `{!InStep R}.

Lemma rel_CommitInboundPersistence d ts : rel R (CommitInboundPersistence d ts).
Proof. unfold CommitInboundPersistence. walk. Qed.
Hint Resolve rel_CommitInboundPersistence : admin.
Lemma rel_ProcessInboundApplication d ts : rel R (ProcessInboundApplication d ts).
Proof. unfold ProcessInboundApplication, build_business_reject. walk. Qed.
Hint Resolve rel_ProcessInboundApplication : admin.
Lemma rel_HandleInboundDecodeFailure e ts : rel R (HandleInboundDecodeFailure e ts).
Proof. unfold HandleInboundDecodeFailure. walk. Qed.
Lemma rel_checked_dispatch d s ts v k : rel R k -> rel R (checked_dispatch d s ts v k).
Proof. unfold checked_dispatch. walk. Qed.
Hint Resolve rel_checked_dispatch : admin.

(** The steps that move the inbound counter are premises: a preorder may hold for
    them only under a condition on the message. *)
Section Advance.
Variable decoded : DecodedMessageView.
Hypothesis Hobserve : rel R (on_session (ObserveInboundSeq (h_msg_seq_num (d_header decoded)))).
Hypothesis Hadvance : forall n, rel R (on_session (AdvanceInboundExpectedSeq n)).
Hypothesis Hrestore : msg_type (d_message decoded) = "A"%string ->
  (forall i o, rel R (on_session (RestoreSequenceState i o))) /\ rel R (on_session OnLogonAccepted).
Hint Resolve Hobserve Hadvance : admin.

Lemma rel_ConsumeExpected s ts : rel R (ConsumeExpectedInboundBeforeReject decoded s ts).
Proof. unfold ConsumeExpectedInboundBeforeReject. walk. Qed.
Hint Resolve rel_ConsumeExpected : admin.
Lemma rel_advance_inbound n s : rel R (advance_inbound n s).
Proof. unfold advance_inbound. walk. Qed.
Hint Resolve rel_advance_inbound : admin.
Lemma rel_inbound_too_low s ts : rel R (inbound_too_low decoded s ts).
Proof. unfold inbound_too_low. walk. Qed.
Lemma rel_inbound_sequence_reset s ts v : rel R (inbound_sequence_reset decoded s ts v).
Proof. unfold inbound_sequence_reset. walk. Qed.
Lemma rel_inbound_gap_fill ts : rel R (inbound_gap_fill decoded ts).
Proof. unfold inbound_gap_fill. walk. Qed.
Hint Resolve rel_inbound_too_low rel_inbound_sequence_reset rel_inbound_gap_fill : admin.

Lemma rel_ResetSessionState i o b :
  msg_type (d_message decoded) = "A"%string -> rel R (ResetSessionState i o b).
Proof. intros HA. destruct (Hrestore HA) as [Hr _]. unfold ResetSessionState. walk. Qed.
Lemma rel_RefreshSessionStateFromStore :
  msg_type (d_message decoded) = "A"%string -> rel R RefreshSessionStateFromStore.
Proof. intros HA. destruct (Hrestore HA) as [Hr _]. unfold RefreshSessionStateFromStore. walk. Qed.
Hint Resolve rel_ResetSessionState rel_RefreshSessionStateFromStore : admin.
Lemma rel_ProcessInboundLogon ts :
  msg_type (d_message decoded) = "A"%string -> rel R (ProcessInboundLogon decoded ts).
Proof. intros HA. destruct (Hrestore HA) as [_ Hl]. unfold ProcessInboundLogon. walk. Qed.
Hint Resolve rel_ProcessInboundLogon : admin.

Lemma rel_dispatch_inbound ts : rel R (dispatch_inbound decoded ts).
Proof.
  unfold dispatch_inbound, BuildHeartbeatFrame, string_eqb. cbv zeta.
  case_bool_decide; [solve [eauto with admin]|]. walk.
Qed.
Hint Resolve rel_dispatch_inbound : admin.
End Advance.
End InLemmas.
#[export] Hint Resolve rel_CommitInboundPersistence rel_ProcessInboundApplication rel_HandleInboundDecodeFailure rel_checked_dispatch
  rel_ConsumeExpected rel_advance_inbound rel_inbound_too_low rel_inbound_sequence_reset rel_inbound_gap_fill
  rel_ResetSessionState rel_RefreshSessionStateFromStore rel_dispatch_inbound : admin.

(** [OnInbound] for a relation [T] that ends a sequence of [R] steps. *)
Section Inbound.
Context {St : Type} `{SessionStore St} `{Codec} (R T : relation (Admin St)) `{!InStep R}.
Hypothesis Hsub : forall a b, R a b -> T a b.
Hypothesis Htail : forall a b c, R a b -> T b c -> T a c.
Variable decoded : DecodedMessageView.
Hypothesis Hobserve : rel R (on_session (ObserveInboundSeq (h_msg_seq_num (d_header decoded)))).
Hypothesis Hadvance : forall n, rel R (on_session (AdvanceInboundExpectedSeq n)).
Hypothesis Hrestore : msg_type (d_message decoded) = "A"%string ->
  (forall i o, rel R (on_session (RestoreSequenceState i o))) /\ rel R (on_session OnLogonAccepted).
Hypothesis Hgap : forall s ts v st, rel T (inbound_gap decoded s ts v st).

Lemma rel_then {A B} (m : SE _ A) (k : A -> SE _ B) : rel R m -> (forall x, rel T (k x)) -> rel T (bind m k).
Proof.
  intros Hm Hk a. unfold bind. specialize (Hm a). destruct (m a) as [a' [x|e]]; cbn in *; [|by apply Hsub].
  eapply Htail; [exact Hm|apply Hk].
Qed.
Lemma rel_only {A} (m : SE _ A) : rel R m -> rel T m.
Proof. intros Hm a. apply Hsub, Hm. Qed.
Hint Resolve Hobserve Hadvance Hrestore : admin.

Lemma rel_inbound_in_order s ts v : rel T (inbound_in_order decoded s ts v).
Proof.
  unfold inbound_in_order. apply rel_then; [walk|intros o]. apply rel_then; [walk|intros _].
  destruct o; [|apply Hgap]. apply rel_only. walk.
Qed.

Lemma rel_inbound_sequenced s ts : rel T (inbound_sequenced decoded s ts).
Proof.
  unfold inbound_sequenced, string_eqb. cbv zeta. apply rel_then; [walk|intros c].
  apply rel_then; [|intros _; apply rel_then; [|intros s']].
  - case_bool_decide; cbn [andb]; walk.
  - case_bool_decide; cbn [andb orb]; walk.
  - generalize (bool_decide (msg_type (d_message decoded) = "A"%string)). intros b.
    repeat case_match; first [apply rel_inbound_in_order | apply rel_only; walk].
Qed.

Lemma rel_OnInboundDecoded ts : rel T (OnInboundDecoded decoded ts).
Proof.
  unfold OnInboundDecoded. cbv zeta. do 3 (apply rel_then; [walk|intros ?]).
  repeat case_match; first [apply rel_inbound_sequenced | apply rel_only; walk].
Qed.
End Inbound.

(** [inbound_gap] when the append is a step as well. *)
Lemma rel_inbound_gap {St} `{SessionStore St} `{Codec} (R : relation (Admin St)) `{!InStep R} d s ts v st :
  rel R (modify (fun a => set_deferred (ap_deferred_gap_frames a ++ [d_raw d]) a)) ->
  rel R (inbound_gap d s ts v st).
Proof. intros Hd. unfold inbound_gap, BuildResendRequestFrame. walk. Qed.

(** ** The preorders used below *)

Section Preorders.
Context {St : Type} `{SessionStore St} `{Codec}.

(** A component of the object is left alone. *)
Definition keep {X} (f : Admin St -> X) : relation (Admin St) := fun a b => f b = f a.

#[export] Instance keep_preorder {X} (f : Admin St -> X) : PreOrder (keep f).
Proof. split; [done|]. intros a b c H1 H2. unfold keep in *. congruence. Qed.

Lemma rel_on_session (R : relation (Admin St)) op :
  (forall a, R a (set_session (fst (op (ap_session a))) a)) -> rel R (on_session op).
Proof. intros Hop a. specialize (Hop a). unfold on_session. by destruct (op _). Qed.

Lemma rel_on_store (R : relation (Admin St)) op `{!PreOrder R} :
  (forall a s, R a (set_store s a)) -> rel R (on_store op).
Proof.
  intros Hop a. unfold on_store. destruct (ap_store a) as [s|]; [|reflexivity]. by destruct (op s); apply Hop.
Qed.

(** The inbound counter never moves back. *)
Definition in_mono : relation (Admin St) :=
  fun a b => next_in_seq (ap_session a) <= next_in_seq (ap_session b).

#[export] Instance in_mono_preorder : PreOrder in_mono.
Proof. split; [intros a; apply Z.le_refl|]. intros a b c; unfold in_mono; lia. Qed.
End Preorders.

(** Discharges a step by computing on the two records. *)
Ltac step_by_cases :=
  intros; try (apply rel_on_store; [typeclasses eauto|]; intros); try (apply rel_on_session; intros);
  try (apply rel_modify; intros);
  try match goal with |- rel _ _ => let a := fresh "a" in intros a end;
  repeat match goal with
  | a : Admin _ |- _ => let s := fresh "s" in destruct a as [? ? s ? ? ? ? ? ? ?]; destruct s
  end;
  unfold allocate_outbound_seq, consume_resend_completed, AllocateOutboundSeq, ConsumeResendCompleted, SessionCore.BeginLogout, RecordOutboundActivity,
    RecordInboundActivity, AdvanceInboundExpectedSeq, finish_covered_resend, keep, in_mono;
  cbn; repeat case_match; simplify_eq/=; try done; try lia.

Ltac in_steps := repeat (first [typeclasses eauto | split]); step_by_cases.

Section Instances.
Context {St : Type} `{SessionStore St} `{Codec}.

#[export] Instance keep_next_in : InStep (St:=St) (keep (fun a => next_in_seq (ap_session a))).
Proof. in_steps. Qed.
#[export] Instance keep_deferred : InStep (St:=St) (keep ap_deferred_gap_frames).
Proof. in_steps. Qed.
#[export] Instance keep_config : InStep (St:=St) (keep (fun a => (ap_config a, ap_initialization_error a))).
Proof. in_steps. Qed.
#[export] Instance keep_session_warn : WarnStep (St:=St) (keep ap_session).
Proof. in_steps. Qed.
#[export] Instance in_mono_steps : InStep (St:=St) in_mono.
Proof. in_steps. Qed.
#[export] Instance keep_recovery_out :
  OutStep (St:=St) (keep (fun a => (state (ap_session a), next_in_seq (ap_session a), pending_resend (ap_session a)))).
Proof. in_steps. Qed.
#[export] Instance keep_pending_out : OutStep (St:=St) (keep (fun a => pending_resend (ap_session a))).
Proof. in_steps. Qed.
End Instances.
#[export] Hint Resolve keep_next_in keep_deferred keep_config keep_session_warn in_mono_steps keep_pending_out : admin.

(** ** Which events carry application messages *)

(** A property of events that everything but [push_message] respects. *)
Class EventShape (P : ProtocolEvent -> Prop) := {
  shape_empty : P empty_event;
  shape_push_frame f e : P e -> P (push_frame f e);
  shape_set_disconnect b e : P e -> P (set_disconnect b e);
  shape_push_error t e : P e -> P (push_error t e);
  shape_push_warning t e : P e -> P (push_warning t e);
  shape_set_active e : P e -> P (set_session_active e);
  shape_set_frames fs e : P e -> P (set_frames fs e);
}.

Lemma shape_push_frames P `{!EventShape P} fs e : P e -> P (push_frames fs e).
Proof. revert e. induction fs as [|f fs IH]; intros e He; [done|]. cbn. apply IH. by apply shape_push_frame. Qed.

Definition silent (e : ProtocolEvent) : Prop := application_messages e = [].
#[export] Instance silent_shape : EventShape silent.
Proof. split; [done|..]; intros; by destruct e. Qed.

(** An event that has not adopted a parsed message. *)
Definition unowned (e : ProtocolEvent) : Prop := owned_application_message e = None.
#[export] Instance unowned_shape : EventShape unowned.
Proof. split; [done|..]; intros; by destruct e. Qed.

(** [P e] for an event built from a shaped one. *)
Ltac shape := repeat first [assumption | apply shape_empty | apply shape_push_frame | apply shape_set_disconnect
  | apply shape_push_error | apply shape_push_warning | apply shape_set_active | apply shape_set_frames
  | apply shape_push_frames].

Ltac hush := intros; cbv zeta; repeat first
  [ solve [eauto 8 with admin]
  | match goal with
    | |- vals _ (bind _ _) => apply vals_bind; intros ?
    | |- vals _ (ret _) => apply vals_ret; solve [shape]
    | |- vals _ (ret _) => apply vals_ret
    | |- vals _ (fail _) => apply vals_fail
    | |- context [if ?b then _ else _] => destruct b
    | |- context [match ?b with _ => _ end] => destruct b
    end ].

Section Silence.
Context {St : Type} `{SessionStore St} `{Codec} (P : ProtocolEvent -> Prop) `{!EventShape P}.
Notation quiet := (vals (St:=St) P).
Hint Extern 1 (P _) => solve [shape] : admin.

Lemma quiet_logout_event t ts e : P e -> quiet (logout_event t ts e).
Proof. unfold logout_event. hush. Qed.
Hint Resolve quiet_logout_event : admin.
Lemma quiet_RejectInbound d r ts : quiet (RejectInbound d r ts).
Proof. unfold RejectInbound. hush. Qed.
Hint Resolve quiet_RejectInbound : admin.
Lemma quiet_reject_then_logout d g r t ts : quiet (reject_then_logout d g r t ts).
Proof. unfold reject_then_logout. eapply vals_bind_with; [apply quiet_RejectInbound|]. hush. Qed.
Lemma quiet_BuildPhaseViolationLogout t s mt ts : quiet (BuildPhaseViolationLogout t s mt ts).
Proof. unfold BuildPhaseViolationLogout. hush. Qed.
Hint Resolve quiet_reject_then_logout quiet_BuildPhaseViolationLogout : admin.
Lemma quiet_inbound_too_low d s ts : quiet (inbound_too_low d s ts).
Proof. unfold inbound_too_low. hush. Qed.
Lemma quiet_checked_dispatch d s ts v k : quiet k -> quiet (checked_dispatch d s ts v k).
Proof. unfold checked_dispatch. hush. Qed.
Hint Resolve quiet_checked_dispatch : admin.
Lemma quiet_inbound_sequence_reset d s ts v : quiet (inbound_sequence_reset d s ts v).
Proof. unfold inbound_sequence_reset. hush. Qed.
Lemma quiet_inbound_gap d s ts v st : quiet (inbound_gap d s ts v st).
Proof. unfold inbound_gap. hush. Qed.
Lemma quiet_inbound_gap_fill d ts : quiet (inbound_gap_fill d ts).
Proof. unfold inbound_gap_fill. hush. Qed.
Lemma quiet_ReplayCounterparty n p ts e : P e -> quiet (ReplayCounterpartyExpectedRange n p ts e).
Proof. unfold ReplayCounterpartyExpectedRange. hush. Qed.
Hint Resolve quiet_inbound_too_low quiet_inbound_sequence_reset quiet_inbound_gap quiet_inbound_gap_fill
  quiet_ReplayCounterparty : admin.
Lemma quiet_ProcessInboundLogon d ts : quiet (ProcessInboundLogon d ts).
Proof.
  unfold ProcessInboundLogon. cbv zeta. do 4 (apply vals_bind; intros ?). generalize (get_int (d_message d)). intros g.
  match goal with |- context [if ?b then logout_event _ _ _ else _] => destruct b end; [hush|].
  match goal with |- context [if ?b then logout_event _ _ _ else _] => destruct b end; [hush|].
  apply (vals_bind_with P); [|intros e He]; hush.
Qed.
Lemma quiet_business_reject d r t ts : quiet (build_business_reject d r t ts).
Proof. unfold build_business_reject. hush. Qed.
Lemma quiet_logon_dispatch d ts : msg_type (d_message d) = "A"%string -> quiet (dispatch_inbound d ts).
Proof. intros HA. unfold dispatch_inbound. rewrite HA. apply quiet_ProcessInboundLogon. Qed.
Hint Resolve quiet_ProcessInboundLogon quiet_logon_dispatch : admin.
Lemma quiet_logon_in_order d s ts v : msg_type (d_message d) = "A"%string -> quiet (inbound_in_order d s ts v).
Proof. intros HA. unfold inbound_in_order. hush. Qed.
End Silence.
#[export] Hint Resolve silent_shape unowned_shape : admin.
#[export] Hint Extern 1 (silent _) => solve [shape] : admin.
#[export] Hint Extern 1 (unowned _) => solve [shape] : admin.
#[export] Hint Resolve quiet_logout_event quiet_RejectInbound quiet_reject_then_logout quiet_BuildPhaseViolationLogout
  quiet_inbound_too_low quiet_checked_dispatch quiet_inbound_sequence_reset quiet_inbound_gap quiet_inbound_gap_fill
  quiet_ProcessInboundLogon quiet_business_reject quiet_logon_in_order : admin.

(** ** Delivery *)

Section Delivery.
Context {St : Type} `{SessionStore St} `{Codec}.

(** What the event of a delivered message looks like. *)
Definition delivery (d : DecodedMessageView) (e : ProtocolEvent) : Prop :=
  application_messages e = [MkRef (d_message d) kDecodeScratch] /\ outbound_frames e = [] /\ disconnect e = false.

Lemma app_delivers d ts (a a' : Admin St) ev :
  ProcessInboundApplication d ts a = (a', Value ev) -> ~ silent ev ->
  ap_session a' = ap_session a /\ delivery d ev /\ IsActiveAdminState (state (ap_session a)) = true.
Proof.
  unfold ProcessInboundApplication. intros Hv Hs.
  apply bind_value in Hv as (a1 & st & [= <- <-] & Hv).
  destruct (IsActiveAdminState _) eqn:Hst; cbn [negb] in Hv; [|done].
  apply bind_value in Hv as (a1 & c & [= <- <-] & Hv).
  destruct (ResolveApplicationBusinessRejectReason _ _).
  { destruct Hs. by eapply (quiet_business_reject silent). }
  apply bind_value in Hv as (a1 & r & Ha1 & Hv).
  pose proof (rel_ValidateApplicationMessage (keep ap_session) d a) as Hk. rewrite Ha1 in Hk. cbn in Hk.
  destruct r; [by destruct Hs; eapply (quiet_RejectInbound silent)|].
  injection Hv as <- <-. split; [exact Hk|]. split; [|done]. by destruct (HasBoolean _ _).
Qed.

Lemma dispatch_delivers d ts (a a' : Admin St) ev :
  dispatch_inbound d ts a = (a', Value ev) -> ~ silent ev ->
  ap_session a' = ap_session a /\ delivery d ev /\ msg_type (d_message d) <> "A"%string /\
  (msg_type (d_message d) = "3"%string \/ IsActiveAdminState (state (ap_session a)) = true).
Proof.
  unfold dispatch_inbound. cbv zeta. unfold string_eqb. intros Hv Hs.
  assert (Hq : forall m : SE (Admin St) ProtocolEvent, vals silent m -> m a = (a', Value ev) -> False)
    by (intros m Hm Hv'; exact (Hs (Hm _ _ _ Hv'))).
  repeat case_bool_decide; try (exfalso; revert Hv; apply Hq; solve [hush | apply (quiet_ProcessInboundLogon silent)]).
  - injection Hv as <- <-. split; [done|]. split; [done|]. split; [done|by left].
  - apply app_delivers in Hv as (? & ? & ?); [|done]. tauto.
Qed.

(** The message that a delivering call works on has the expected number. *)
Lemma in_order_delivers d s ts v (a a' : Admin St) ev :
  inbound_in_order d s ts v a = (a', Value ev) -> ~ silent ev -> next_in_seq (ap_session a) <= h_msg_seq_num (d_header d) ->
  h_msg_seq_num (d_header d) = next_in_seq (ap_session a) /\
  next_in_seq (ap_session a') = next_in_seq (ap_session a) +u32 1 /\ delivery d ev /\
  msg_type (d_message d) <> "A"%string /\
  (msg_type (d_message d) = "3"%string \/ IsActiveAdminState (state (ap_session a')) = true).
Proof.
  unfold inbound_in_order. intros Hv Hs Hseq.
  apply bind_value in Hv as (a1 & o & Ha1 & Hv). apply bind_value in Hv as (a2 & ? & Ha2 & Hv).
  destruct o as [?|e]; [|by destruct Hs; eapply (quiet_inbound_gap silent)].
  apply bind_value in Hv as (a3 & ? & Ha3 & Hv).
  unfold checked_dispatch in Hv. destruct v; [by destruct Hs; eapply (quiet_BuildPhaseViolationLogout silent)|].
  apply bind_value in Hv as (a4 & r & Ha4 & Hv). destruct r; [by destruct Hs; eapply (quiet_RejectInbound silent)|].
  apply dispatch_delivers in Hv as (Hsame & Hd & HA & Hst); [|done].
  pose proof (rel_ValidateAdministrativeMessage (keep (fun a => next_in_seq (ap_session a))) d a3) as K4.
  pose proof (rel_CommitInboundPersistence (keep (fun a => next_in_seq (ap_session a))) d ts a2) as K3.
  pose proof (in_consume (R:=keep (fun a : Admin St => next_in_seq (ap_session a))) a1) as K2.
  rewrite Ha4 in K4. rewrite Ha3 in K3. rewrite Ha2 in K2. unfold keep in *. cbn [fst] in *.
  assert (h_msg_seq_num (d_header d) = next_in_seq (ap_session a) /\
          next_in_seq (ap_session a1) = next_in_seq (ap_session a) +u32 1) as [H1 H2].
  { unfold catch, on_session in Ha1. destruct (ObserveInboundSeq _ _) as [s' st'] eqn:Ho. injection Ha1 as <- Hr.
    destruct (status.ok st') eqn:Hok; [|done]. clear Hr. replace (ap_session (set_session s' a)) with s' by (by destruct a).
    unfold ObserveInboundSeq in Ho. repeat case_match; injection Ho as <- <-; try done; bool_to_prop.
    split; [lia|]. unfold finish_covered_resend. by repeat case_match. }
  rewrite Hsame. split; [done|]. split; [congruence|]. done.
Qed.

(** A delivering call of [OnInbound] reached the in-order case with the snapshot
    of its start. *)
Lemma inbound_delivers d ts (a a' : Admin St) ev :
  OnInboundDecoded d ts a = (a', Value ev) -> ~ silent ev ->
  exists s v, snap_next_in_seq s = next_in_seq (ap_session a) /\
    snap_next_in_seq s <= h_msg_seq_num (d_header d) /\ inbound_in_order d s ts v a = (a', Value ev).
Proof.
  unfold OnInboundDecoded. cbv zeta. intros Hv Hs.
  apply bind_value in Hv as (a1 & ? & Ha1 & Hv). unfold EnsureInitialized in Ha1.
  destruct (ap_initialization_error a); [done|]. injection Ha1 as <- _.
  apply bind_value in Hv as (a1 & s & [= <- <-] & Hv). apply bind_value in Hv as (a1 & c & [= <- <-] & Hv).
  assert (Hq : forall m : SE (Admin St) ProtocolEvent, vals silent m -> m a = (a', Value ev) -> False)
    by (intros m Hm Hv'; exact (Hs (Hm _ _ _ Hv'))).
  repeat case_match; try (exfalso; revert Hv; apply Hq; solve [hush]).
  unfold inbound_sequenced in Hv. cbv zeta in Hv. apply bind_value in Hv as (a1 & c & [= <- <-] & Hv).
  destruct (string_eqb (msg_type (d_message d)) "A") eqn:HA.
  { exfalso. revert Hv. apply Hq. unfold string_eqb in HA. bool_to_prop. cbn [andb negb orb].
    do 2 (apply vals_bind; intros ?). hush. }
  cbn [andb orb when] in Hv. apply bind_value in Hv as (a1 & [] & [= <-] & Hv).
  apply bind_value in Hv as (a1 & s & [= <- <-] & Hv).
  repeat match type of Hv with (if ?b then _ else _) _ = _ => destruct b eqn:? end;
    try (exfalso; revert Hv; apply Hq; solve [hush]).
  eexists _, _. split; [|split; [|exact Hv]]; [done|]. by bool_to_prop.
Qed.

Lemma in_mono_advance n : rel (St:=St) in_mono (on_session (AdvanceInboundExpectedSeq n)).
Proof. step_by_cases. all: bool_to_prop; lia. Qed.

Lemma in_mono_observe n : 0 <= n < UINT32_MAX -> rel (St:=St) in_mono (on_session (ObserveInboundSeq n)).
Proof.
  intros Hn. apply rel_on_session. intros a. unfold in_mono. destruct a as [? ? s ? ? ? ? ? ? ?]. cbn.
  unfold ObserveInboundSeq, finish_covered_resend. repeat case_match; destruct s; cbn in *; try lia; bool_to_prop;
    rewrite u32_small; ulia.
Qed.

Definition no_logon (m : DecodedMessageView * Z) : Prop :=
  msg_type (d_message (fst m)) <> "A"%string /\ 0 <= h_msg_seq_num (d_header (fst m)) < UINT32_MAX.

Lemma inbound_mono m : no_logon m -> rel (St:=St) in_mono (OnInboundDecoded (fst m) (snd m)).
Proof.
  intros [HA Hn]. apply (rel_OnInboundDecoded in_mono in_mono); [done|intros; by etransitivity| | |done|].
  - by apply in_mono_observe.
  - apply in_mono_advance.
  - intros. apply rel_inbound_gap; [typeclasses eauto|]. apply rel_modify. intros []. unfold in_mono. cbn. lia.
Qed.

(** The sequence numbers of the messages that a sequence of calls delivers; a
    call that fails leaves the object as it is and the next one follows. *)
Fixpoint deliver_run (ms : list (DecodedMessageView * Z)) (a : Admin St) : list Z :=
  match ms with
  | [] => []
  | (d, ts) :: ms =>
      let '(a', r) := OnInboundDecoded d ts a in
      match r with
      | Value ev => match application_messages ev with [] => [] | _ => [h_msg_seq_num (d_header d)] end
      | Error _ => []
      end ++ deliver_run ms a'
  end.

Lemma delivered_at d ts (a a' : Admin St) ev :
  OnInboundDecoded d ts a = (a', Value ev) -> application_messages ev <> [] ->
  h_msg_seq_num (d_header d) = next_in_seq (ap_session a) /\
  next_in_seq (ap_session a') = next_in_seq (ap_session a) +u32 1 /\ delivery d ev /\
  msg_type (d_message d) <> "A"%string /\
  (msg_type (d_message d) = "3"%string \/ IsActiveAdminState (state (ap_session a')) = true).
Proof.
  intros Hv Hs. destruct (inbound_delivers _ _ _ _ _ Hv Hs) as (s & v & Heq & Hle & Hv').
  apply in_order_delivers in Hv'; [done|done|lia].
Qed.

Lemma deliver_run_sorted ms (a : Admin St) :
  Forall no_logon ms ->
  StronglySorted Z.lt (deliver_run ms a) /\ Forall (fun q => next_in_seq (ap_session a) <= q) (deliver_run ms a).
Proof.
  intros Hms. revert a. induction Hms as [|[d ts] ms Hm Hms IH]; intros a; cbn; [by repeat constructor|].
  pose proof (inbound_mono (d, ts) Hm a) as Hmono. cbn in Hmono. unfold in_mono in Hmono.
  destruct (OnInboundDecoded d ts a) as [a' r] eqn:Hv. cbn in Hmono. destruct (IH a') as [Hs Hge].
  assert (Hge' : Forall (fun q => next_in_seq (ap_session a) <= q) (deliver_run ms a')).
  { eapply Forall_impl; [exact Hge|]. cbn. lia. }
  destruct r as [ev|e]; [|done]. destruct (application_messages ev) as [|m l] eqn:Hl; [done|]. cbn.
  destruct (delivered_at _ _ _ _ _ Hv) as (Heq & Hnext & _); [by rewrite Hl|].
  destruct Hm as [_ Hr]. cbn in Hr. rewrite u32_small in Hnext by ulia.
  split; [|constructor; [lia|done]]. constructor; [done|]. eapply Forall_impl; [exact Hge|]. cbn. lia.
Qed.
End Delivery.

(** ** Sending *)

Section Sending.
Context {St : Type} `{!SessionStore St} `{!SessionStoreSpec St} `{Codec}.

(** What a sent frame leaves behind: the store that holds it under its number,
    next to the snapshot of the session. *)
Record sent (q ts flags : Z) (a a' : Admin St) (f : EncodedFrame) : Prop := {
  sent_next_out : next_out_seq (ap_session a') = q + 1;
  sent_next_in : next_in_seq (ap_session a') = next_in_seq (ap_session a);
  sent_config : config (ap_session a') = config (ap_session a);
  sent_store : exists s s', ap_store a = Some s /\ ap_store a' = Some s' /\ store_ok s' /\
    let id := session_id (config (ap_session a)) in
    let wire := frame_wire (frame_bytes f) in
    store_view s' id =
      abs_save_recovery (recovery_of (Snapshot (ap_session a')))
        (abs_save_outbound (MkView id q ts flags wire (ComputeBodyStartOffset wire)) (store_view s id)) /\
    forall id', id' <> id -> store_view s' id' = store_view s id';
}.

Definition persistent (a : Admin St) : Prop :=
  (exists s, ap_store a = Some s /\ store_ok s) /\ session_id (config (ap_session a)) <> 0 /\
  1 <= next_out_seq (ap_session a) <= UINT32_MAX.

(** [FinalizeEncodedFrame] of an allocated number persists before it returns. *)
Lemma finalize_sent b t admin ts pd q (a a' : Admin St) f :
  (exists s, ap_store a = Some s /\ store_ok s) -> session_id (config (ap_session a)) <> 0 -> q <> 0 ->
  FinalizeEncodedFrame b t admin ts true pd 0 q a = (a', Value f) ->
  f = MkFrame (frame_assign b) t admin /\
  ap_session a' = set_last_outbound_ns (ap_session a) ts /\
  exists s s', ap_store a = Some s /\ ap_store a' = Some s' /\ store_ok s' /\
    let id := session_id (config (ap_session a)) in
    let flags := Z.lor (if admin then kAdmin else 0) (if pd then kPossDup else 0) in
    store_view s' id =
      abs_save_recovery (recovery_of (Snapshot (ap_session a')))
        (abs_save_outbound (MkView id q ts flags b (ComputeBodyStartOffset b)) (store_view s id)) /\
    forall id', id' <> id -> store_view s' id' = store_view s id'.
Proof.
  intros (s & Hs & Hok) Hid Hq Hv. unfold FinalizeEncodedFrame in Hv. cbv zeta in Hv.
  cbn [frame_bytes] in Hv. rewrite (proj1 (frame_assign_view b)) in Hv.
  destruct a as [ac ? se ot ls tn ln ie df vl]. cbn in Hs, Hid. subst.
  unfold bind, on_session, RecordOutboundActivity, get, snapshot, on_store in Hv. cbn in Hv.
  set (v := MkView _ _ _ _ _ _) in Hv. set (rs := recovery_of _) in Hv.
  destruct (save_outbound_and_recovery_spec s v rs Hok) as [Hok' Hspec].
  destruct Hspec as [Hst Hview]; [|done|].
  { unfold record_valid. cbn. by rewrite !(proj2 (Z.eqb_neq _ _)). }
  destruct (SaveOutboundViewAndRecoveryState v rs s) as [s' st]. cbn in *. subst st. cbn in Hv.
  injection Hv as <- <-. split; [done|]. split; [done|]. exists s, s'. split; [done|]. split; [done|]. split; [done|].
  split.
  - rewrite Hview, upd_same. done.
  - intros id' Hne. by rewrite Hview, upd_other.
Qed.

Lemma alloc_value (a a' : Admin St) q :
  allocate_outbound_seq a = (a', Value q) -> 1 <= next_out_seq (ap_session a) <= UINT32_MAX ->
  q = next_out_seq (ap_session a) /\ a' = set_session (set_next_out_seq (ap_session a) (q + 1)) a.
Proof.
  unfold allocate_outbound_seq, AllocateOutboundSeq. intros Hv Hr. repeat case_match; simplify_eq. bool_to_prop.
  split; [done|]. rewrite u32_small by ulia. done.
Qed.

(** An allocated, persisted send whatever produced its bytes. *)
Lemma allocated_send {A} (enc : A -> Z -> Result (list Z)) (x : A) t admin pd ts (a a' : Admin St) f :
  persistent a ->
  (q <- allocate_outbound_seq ;; b <- lift (enc x q) ;; FinalizeEncodedFrame b t admin ts true pd 0 q) a = (a', Value f) ->
  sent (next_out_seq (ap_session a)) ts (Z.lor (if admin then kAdmin else 0) (if pd then kPossDup else 0)) a a' f /\
  frame_msg_type f = t /\ frame_admin f = admin /\
  enc x (next_out_seq (ap_session a)) = Value (frame_wire (frame_bytes f)).
Proof.
  intros (Hstore & Hid & Hr) Hv. apply bind_value in Hv as (a1 & q & Hq & Hv).
  apply alloc_value in Hq as [-> ->]; [|done]. apply bind_value in Hv as (a2 & b & Hb & Hv).
  assert (a2 = set_session (set_next_out_seq (ap_session a) (next_out_seq (ap_session a) + 1)) a /\
          enc x (next_out_seq (ap_session a)) = Value b) as [-> Henc].
  { destruct (enc x _); [|done]. by injection Hb as <- <-. }
  destruct a as [? ? se ? ? ? ? ? ? ?]. cbn in Hstore, Hid, Hr, Henc |- *.
  apply finalize_sent in Hv as (-> & Hse & s & s' & Hs & Hs' & Hok & Hview); [|done|done|cbn; lia].
  cbn [frame_bytes frame_msg_type frame_admin]. rewrite (proj2 (frame_assign_view b)).
  cbn in Hse, Hs, Hview |- *. split; [|by rewrite Henc]. split; cbn.
  1-3: by rewrite Hse; destruct se.
  exists s, s'. rewrite (proj2 (frame_assign_view b)). done.
Qed.

(** With an accepted encoding the send goes through. *)
Lemma EncodeFrame_total m admin ts pd o env (a : Admin St) b :
  persistent a -> sequencing_state (state (ap_session a)) = true -> next_out_seq (ap_session a) <> UINT32_MAX ->
  encode_message m (send_options (ap_config a) (next_out_seq (ap_session a)) pd o env) = Value b ->
  exists a' f, EncodeFrame m admin ts true pd true 0 0 o env a = (a', Value f).
Proof.
  intros ((s & Hs & Hok) & Hid & Hr) Hst Hmax Henc. destruct a as [c ? se ? ? ? ? ? ? ?]. cbn in *. subst.
  unfold EncodeFrame, bind, allocate_outbound_seq, AllocateOutboundSeq. cbn. rewrite Hst, (proj2 (Z.eqb_neq _ _) Hmax). cbn.
  rewrite Henc. cbn. unfold FinalizeEncodedFrame, bind, on_session, RecordOutboundActivity, get, snapshot, on_store. cbn.
  set (v := MkView _ _ _ _ _ _). set (rs := recovery_of _).
  destruct (save_outbound_and_recovery_spec s v rs Hok) as [_ Hspec].
  destruct Hspec as [Hst' _]; [|done|].
  { unfold record_valid. cbn. rewrite !(proj2 (Z.eqb_neq _ _)) by lia. done. }
  destruct (SaveOutboundViewAndRecoveryState v rs s) as [s' st]. cbn in *. subst st. cbn. eauto.
Qed.

(** Both encoders are such sends. *)
Lemma EncodeFrame_send m admin ts pd o env (a a' : Admin St) f :
  persistent a -> EncodeFrame m admin ts true pd true 0 0 o env a = (a', Value f) ->
  sent (next_out_seq (ap_session a)) ts (Z.lor (if admin then kAdmin else 0) (if pd then kPossDup else 0)) a a' f /\
  frame_msg_type f = msg_type m /\ frame_admin f = admin /\
  encode_message m (send_options (ap_config a) (next_out_seq (ap_session a)) pd o env) =
    Value (frame_wire (frame_bytes f)).
Proof.
  intros Hp Hv. apply (allocated_send (fun _ q => encode_message m (send_options (ap_config a) q pd o env)) tt); [done|].
  rewrite <- Hv. unfold EncodeFrame, bind. destruct (allocate_outbound_seq a) as [a1 r] eqn:Ha.
  pose proof (out_alloc (R:=keep (fun a => (ap_config a, ap_initialization_error a))) a) as Hk.
  rewrite Ha in Hk. injection Hk as Hc _. destruct r; [|done]. cbn. by rewrite Hc.
Qed.

Lemma EncodeEncodedFrame_send m admin ts pd o env x (a a' : Admin St) f :
  persistent a -> EncodeEncodedFrame m admin ts true pd true 0 0 o env x a = (a', Value f) ->
  sent (next_out_seq (ap_session a)) ts (Z.lor (if admin then kAdmin else 0) (if pd then kPossDup else 0)) a a' f /\
  frame_msg_type f = text_of (em_msg_type m) /\ frame_admin f = admin /\
  EncodePreEncodedApplicationToBuffer has_sse2 CurrentUtcTimestamp m
    (send_options (ap_config a) (next_out_seq (ap_session a)) pd o env) (if extras_empty x then em_extras m else x) =
    Value (frame_wire (frame_bytes f)).
Proof.
  intros Hp Hv.
  apply (allocated_send (fun _ q => EncodePreEncodedApplicationToBuffer has_sse2 CurrentUtcTimestamp m
    (send_options (ap_config a) q pd o env) (if extras_empty x then em_extras m else x)) tt); [done|].
  rewrite <- Hv. unfold EncodeEncodedFrame, bind. destruct (allocate_outbound_seq a) as [a1 r] eqn:Ha.
  pose proof (out_alloc (R:=keep (fun a => (ap_config a, ap_initialization_error a))) a) as Hk.
  rewrite Ha in Hk. injection Hk as Hc _. destruct r; [|done]. cbn. by rewrite Hc.
Qed.

(** The guard both sends share. *)
Lemma send_guard (k : SE (Admin St) EncodedFrame) (a a' : Admin St) f :
  (EnsureInitialized ;;; st <- session_state ;;
   if negb (sendable_state st)
   then fail (status.InvalidArgument "cannot send application payload on an inactive FIX session") else k) a = (a', Value f) ->
  sendable_state (state (ap_session a)) = true /\ k a = (a', Value f).
Proof.
  intros Hv. apply bind_value in Hv as (a1 & ? & Ha1 & Hv). unfold EnsureInitialized in Ha1.
  destruct (ap_initialization_error a); [done|]. injection Ha1 as <- _.
  apply bind_value in Hv as (a1 & st & [= <- <-] & Hv).
  destruct (sendable_state (state (ap_session a))); [done|]. discriminate Hv.
Qed.
End Sending.

(** ** Timers *)

Section Timers.
Context {St : Type} `{SessionStore St} `{Codec}.

(** A TestRequest that is waited for has its send time. *)
Definition probe_ok (a : Admin St) : Prop :=
  ap_outstanding_test_request_id a <> ""%string -> ap_test_request_sent_ns a <> 0.

Definition idle (r : Admin St * Result ProtocolEvent) (a : Admin St) : Prop := r = (a, Value empty_event).
Definition acts (r : Admin St * Result ProtocolEvent) : Prop :=
  match snd r with
  | Value ev => disconnect ev = true \/ exists f, outbound_frames ev = [f]
  | Error _ => True
  end.

(** The instants after which [OnTimer] has something to do. *)
Definition timer_candidates (a : Admin St) (now : Z) : list Z :=
  let s := ap_session a in
  let interval := heartbeat_interval_ns (ap_config a) in
  if SessionState_eqb (state s) kPendingLogon
  then if last_outbound_ns s =? 0 then [] else [last_outbound_ns s +u64 (interval *u64 2)]
  else
    (if SessionState_eqb (state s) kAwaitingLogout && negb (ap_logout_sent_ns a =? 0)
     then [ap_logout_sent_ns a +u64 interval] else []) ++
    (if negb (string_empty (ap_outstanding_test_request_id a)) && negb (ap_test_request_sent_ns a =? 0)
     then [ap_test_request_sent_ns a +u64 interval]
     else if last_inbound_ns s =? 0 then [] else [last_inbound_ns s +u64 test_request_threshold_ns interval]) ++
    [if last_outbound_ns s =? 0 then now else last_outbound_ns s +u64 interval].

Lemma deadline_candidates a now :
  ap_initialization_error a = None -> timed_state (state (ap_session a)) = true ->
  NextTimerDeadline now a =
    clamp_deadline now (fold_left (fun d c => update_deadline c d) (timer_candidates a now) None).
Proof.
  intros Hi Ht. unfold NextTimerDeadline, timer_candidates, Snapshot. rewrite Hi. cbn. rewrite Ht. cbn.
  repeat case_match; done.
Qed.

Lemma fold_deadline_bounds cs d0 d :
  fold_left (fun d c => update_deadline c d) cs d0 = Some d ->
  (forall c, c ∈ cs -> d <= c) /\ (forall c, d0 = Some c -> d <= c) /\ (d ∈ cs \/ d0 = Some d).
Proof.
  revert d0. induction cs as [|c cs IH]; intros d0 Hd; cbn in Hd.
  - subst. split; [set_solver|]. split; [intros ? [= ->]; lia|by right].
  - apply IH in Hd as (H1 & H2 & H3). unfold update_deadline in *. destruct d0 as [c0|].
    + destruct (c <? c0) eqn:E; bool_to_prop; specialize (H2 _ eq_refl); (split; [|split]).
      all: try (intros x Hx; apply elem_of_cons in Hx as [->|Hx]; [lia|by apply H1]).
      all: try (intros x [= ->]; lia).
      all: destruct H3 as [H3|[= ->]]; [left; by right|]. { left. by left. } { by right. }
    + specialize (H2 _ eq_refl). split; [|split].
      * intros x Hx; apply elem_of_cons in Hx as [->|Hx]; [lia|by apply H1].
      * done.
      * destruct H3 as [H3|[= ->]]; left; [by right|by left].
Qed.

Lemma fold_deadline_some cs : forall x, exists d, fold_left (fun d c => update_deadline c d) cs (Some x) = Some d.
Proof. induction cs as [|c cs IH]; intros x; cbn; [eauto|]. destruct (c <? x); apply IH. Qed.

(** The tests of [OnTimer] one by one. *)
Ltac split_timer a :=
  destruct (SessionState_eqb (state (ap_session a)) kAwaitingLogout && negb (ap_logout_sent_ns a =? 0));
  destruct (string_empty (ap_outstanding_test_request_id a)) eqn:?; destruct (ap_test_request_sent_ns a =? 0) eqn:?;
  destruct (last_inbound_ns (ap_session a) =? 0); destruct (last_outbound_ns (ap_session a) =? 0) eqn:?;
  cbn [negb andb orb app] in *; rewrite ?andb_false_r, ?andb_true_r.

(** No candidate has passed: nothing is done. *)
Lemma timer_idle a t now :
  ap_initialization_error a = None -> timed_state (state (ap_session a)) = true ->
  (state (ap_session a) = kPendingLogon \/ last_outbound_ns (ap_session a) <> 0) ->
  (forall c, c ∈ timer_candidates a now -> t <= c) -> idle (OnTimer t a) a.
Proof.
  intros Hi Ht Hlo Hc. unfold idle, OnTimer, EnsureInitialized, bind, get, Snapshot, timer_candidates in *.
  rewrite Hi. cbn [snap_state]. rewrite Ht. cbn [negb snap_last_outbound_ns snap_last_inbound_ns]. cbv zeta in Hc.
  assert (Hx : forall x (l : list Z), (forall c, c ∈ l -> t <= c) -> x ∈ l -> t >? x = false).
  { intros x l Hl Hin. rewrite Z.gtb_ltb. apply Z.ltb_ge. by apply Hl. }
  destruct (SessionState_eqb (state (ap_session a)) kPendingLogon) eqn:Hp.
  - destruct (last_outbound_ns (ap_session a) =? 0); [done|]. by rewrite (Hx _ _ Hc) by (by left).
  - destruct Hlo as [Hlo|Hlo]; [by rewrite Hlo in Hp|].
    split_timer a; try (bool_to_prop; contradiction);
      repeat (rewrite (Hx _ _ Hc) by (rewrite !elem_of_cons; tauto); cbn [negb andb orb]); done.
Qed.

Lemma acts_send (g : SE (Admin St) EncodedFrame) a :
  acts ((f <- g ;; ret (push_frame f empty_event)) a).
Proof. unfold acts, bind. destruct (g a) as [a' [f|e]]; cbn; [|done]. right. by exists f. Qed.

(** A candidate has passed: something is done. *)
Lemma timer_acts a t c now :
  probe_ok a -> timed_state (state (ap_session a)) = true -> c ∈ timer_candidates a now -> c < t ->
  acts (OnTimer t a).
Proof.
  intros Hpr Ht Hin Hlt. unfold OnTimer, EnsureInitialized, timer_candidates in *.
  unfold bind at 1. destruct (ap_initialization_error a); [done|]. unfold bind at 1. unfold get, Snapshot.
  cbn [snap_state]. rewrite Ht. cbn [negb snap_last_outbound_ns snap_last_inbound_ns]. cbv zeta in Hin.
  destruct (SessionState_eqb (state (ap_session a)) kPendingLogon) eqn:Hp.
  - destruct (last_outbound_ns (ap_session a) =? 0); [by apply not_elem_of_nil in Hin|].
    apply list_elem_of_singleton in Hin as ->. cbn [negb andb].
    destruct (t >? _) eqn:E; [by left|]. bool_to_prop. lia.
  - split_timer a;
      repeat match goal with |- context [if t >? ?x then _ else _] => destruct (t >? x) eqn:? end; try by left.
    all: try (unfold bind at 1; unfold modify at 1; unfold bind at 1; unfold modify at 1).
    all: try apply acts_send.
    all: bool_to_prop.
    all: try (exfalso; apply Hpr; [by intros E; rewrite E in *|done]).
    all: exfalso; set_unfold; intuition lia.
Qed.
End Timers.

(** ** Restart *)

(** The constructor on a store restores the counters of the last snapshot. *)
Lemma restart_restores {St} `{SessionStoreSpec St} c (s : St) r :
  store_ok s -> ValidateLogonFields (ac_logon_fields c) = status.Ok ->
  a_recovery (store_view s (session_id (ac_session c))) = Some r -> r_next_in_seq r <> 0 -> r_next_out_seq r <> 0 ->
  let a := NewAdminProtocol c (Some s) in
  ap_initialization_error a = None /\ ap_store a = Some s /\ state (ap_session a) = kDisconnected /\
  next_in_seq (ap_session a) = r_next_in_seq r /\ next_out_seq (ap_session a) = r_next_out_seq r /\
  config (ap_session a) = ac_session c.
Proof.
  intros Hok Hl Hr Hi Ho. unfold NewAdminProtocol. rewrite Hl.
  match goal with |- context [set_transport_profile _ (Some ?p)] => generalize p; intros profile end.
  pose proof (load_recovery_spec s (session_id (ac_session c)) Hok) as Hload. rewrite Hr in Hload.
  cbn. rewrite Hload. unfold RestoreSequenceState. cbn.
  rewrite (proj2 (Z.eqb_neq _ _) Hi), (proj2 (Z.eqb_neq _ _) Ho). cbn. done.
Qed.

(** ** Properties *)

(** C1: application messages are delivered in sequence.  When [OnInbound]
    returns application messages, it is exactly the message it was given, with no
    outbound frame; that message has the expected sequence number, which is then
    advanced by one; it is no Logon; and unless it is a Reject the session is
    active. *)
Theorem delivered_in_sequence {St} `{SessionStore St} `{Codec} d ts (a a' : Admin St) ev :
  OnInboundDecoded d ts a = (a', Value ev) -> application_messages ev <> [] ->
  application_messages ev = [MkRef (d_message d) kDecodeScratch] /\ outbound_frames ev = [] /\
  h_msg_seq_num (d_header d) = next_in_seq (ap_session a) /\
  next_in_seq (ap_session a') = next_in_seq (ap_session a) +u32 1 /\
  msg_type (d_message d) <> "A"%string /\
  (msg_type (d_message d) = "3"%string \/ IsActiveAdminState (state (ap_session a')) = true).
Proof.
  intros Hv Hs. destruct (delivered_at _ _ _ _ _ Hv Hs) as (H1 & H2 & (H3 & H4 & _) & H5 & H6). done.
Qed.

Lemma delivered_in_sequence_witness :
  exists a' ev, OnInboundDecoded (toy_decoded 68 5 []) 100 (toy_admin kActive) = (a', Value ev) /\
    application_messages ev = [MkRef (d_message (toy_decoded 68 5 [])) kDecodeScratch] /\ next_in_seq (ap_session a') = 6.
Proof.
  destruct (OnInboundDecoded (toy_decoded 68 5 []) 100 (toy_admin kActive)) as [a' r] eqn:E.
  destruct r as [ev|]; [|exfalso; revert E; vm_compute; discriminate].
  exists a', ev. split; [reflexivity|].
  destruct (delivered_in_sequence _ _ _ _ _ E) as (H1 & _ & _ & H2 & _).
  - revert E. vm_compute. intros [= _ <-]. discriminate.
  - split; [exact H1|]. rewrite H2. reflexivity.
Defined.

(** no message is delivered twice or out of order.  Over any sequence of
    inbound messages without a Logon (which may reset the numbers) and below the
    last sequence number, the numbers of the delivered messages are strictly
    increasing and none is below the number expected at the start. *)
Theorem deliveries_in_order {St} `{SessionStore St} `{Codec} ms (a : Admin St) :
  Forall no_logon ms ->
  StronglySorted Z.lt (deliver_run ms a) /\ Forall (fun q => next_in_seq (ap_session a) <= q) (deliver_run ms a).
Proof. apply deliver_run_sorted. Qed.

Lemma deliveries_in_order_witness :
  deliver_run [(toy_decoded 68 5 [], 1); (toy_decoded 68 5 [], 2); (toy_decoded 68 6 [], 3)] (toy_admin kActive) = [5; 6] /\
  StronglySorted Z.lt
    (deliver_run [(toy_decoded 68 5 [], 1); (toy_decoded 68 5 [], 2); (toy_decoded 68 6 [], 3)] (toy_admin kActive)).
Proof.
  split; [vm_compute; reflexivity|].
  refine (proj1 (deliveries_in_order _ (toy_admin kActive) _)).
  repeat constructor; cbn; unfold UINT32_MAX; (lia || discriminate).
Defined.

(** C36: nothing is sent before it is stored.  A successful application send is
    only possible on an active session; it uses the next sequence number, and when
    it returns the store holds the very bytes of the frame under that number,
    together with the session's new counters, all other records being untouched.
    This holds for both encoders. *)
Theorem send_persists {St} `{SessionStoreSpec St} `{Codec} ts env (a a' : Admin St) f :
  persistent a ->
  (exists m, SendApplication m ts env a = (a', Value f)) \/
  (exists m x, SendEncodedApplication m ts env x a = (a', Value f)) ->
  sendable_state (state (ap_session a)) = true /\ frame_admin f = false /\
  sent (next_out_seq (ap_session a)) ts 0 a a' f.
Proof.
  intros Hp [[m Hv]|(m & x & Hv)]; apply send_guard in Hv as [Hst Hv].
  - apply EncodeFrame_send in Hv as (Hs & _ & Ha & _); done.
  - apply EncodeEncodedFrame_send in Hv as (Hs & _ & Ha & _); done.
Qed.

Definition toy_order_view : EncodedApplicationMessageView := MkEncodedMessage (bytes "D") (bytes "11=A" ++ [1]) (MkExtras [] []).

Lemma send_persists_witness :
  exists a' f, SendEncodedApplication toy_order_view 50 no_envelope (MkExtras [] []) (toy_admin kActive) = (a', Value f) /\
    sent 4 50 0 (toy_admin kActive) a' f.
Proof.
  destruct (SendEncodedApplication toy_order_view 50 no_envelope (MkExtras [] []) (toy_admin kActive)) as [a' r] eqn:E.
  destruct r as [f|]; [|exfalso; revert E; vm_compute; discriminate].
  exists a', f. split; [reflexivity|].
  refine (proj2 (proj2 (send_persists 50 no_envelope (toy_admin kActive) a' f _ _))).
  - split; [exists toy_store; split; [reflexivity|exact toy_store_ok]|]. cbn. unfold UINT32_MAX. lia.
  - right. exists toy_order_view, (MkExtras [] []). exact E.
Defined.

(** C37: a restart resumes where the last send left off.  After a successful
    send, a protocol object constructed on the same store starts with the
    counters the session had: the expected inbound number, and the outbound number
    after the frame. *)
Theorem restart_resumes {St} `{SessionStoreSpec St} `{Codec} m ts env (a a' : Admin St) f c s' :
  persistent a -> 1 <= next_in_seq (ap_session a) ->
  SendApplication m ts env a = (a', Value f) -> ap_store a' = Some s' ->
  ac_session c = config (ap_session a) -> ValidateLogonFields (ac_logon_fields c) = status.Ok ->
  let b := NewAdminProtocol c (Some s') in
  ap_initialization_error b = None /\ state (ap_session b) = kDisconnected /\
  next_in_seq (ap_session b) = next_in_seq (ap_session a) /\
  next_out_seq (ap_session b) = next_out_seq (ap_session a) + 1.
Proof.
  intros Hp Hin Hv Hs Hc Hl b. apply send_guard in Hv as [_ Hv].
  apply EncodeFrame_send in Hv as ([Ho Hi Hcfg (s & s1 & _ & Hs1 & Hok & Hview & _)] & _); [|done].
  rewrite Hs in Hs1. injection Hs1 as <-.
  destruct (restart_restores c s' (recovery_of (Snapshot (ap_session a')))) as (R1 & _ & R2 & R3 & R4 & _).
  - done.
  - done.
  - rewrite Hc, Hview. done.
  - cbn. lia.
  - cbn. destruct Hp as (_ & _ & Hr). lia.
  - split; [done|]. split; [done|]. cbn in R3, R4. split; [by rewrite <- Hi|by rewrite <- Ho].
Qed.

Definition toy_message : MessageView := MkMessageView "D" [] [].

Lemma restart_resumes_witness :
  exists s', ap_store (fst (SendApplication toy_message 50 no_envelope (toy_admin kActive))) = Some s' /\
    next_out_seq (ap_session (NewAdminProtocol toy_config (Some s'))) = 5.
Proof.
  destruct (SendApplication toy_message 50 no_envelope (toy_admin kActive)) as [a' r] eqn:E.
  destruct r as [f|]; [|exfalso; revert E; vm_compute; discriminate].
  destruct (ap_store a') as [s'|] eqn:Es; [|exfalso; revert Es; injection E as <- _; vm_compute; discriminate].
  exists s'. split; [exact Es|].
  refine (proj2 (proj2 (proj2 (restart_resumes toy_message 50 no_envelope (toy_admin kActive) a' f toy_config s' _ _ E Es
                                 eq_refl eq_refl)))).
  - split; [exists toy_store; split; [reflexivity|exact toy_store_ok]|]. cbn. unfold UINT32_MAX. lia.
  - cbn. lia.
Defined.

(** the timer deadline is exact.  Until the deadline that
    [NextTimerDeadline] reports for a later instant, [OnTimer] does nothing at
    all; at any instant after it [OnTimer] acts: it disconnects, sends a frame, or
    fails to encode one.  Without a deadline it never does anything. *)
Theorem timer_deadline_exact {St} `{SessionStore St} `{Codec} now (a : Admin St) :
  ap_initialization_error a = None -> probe_ok a ->
  match NextTimerDeadline now a with
  | Some d => now <= d /\ (now < d -> forall t, t <= d -> idle (OnTimer t a) a) /\ (forall t, d < t -> acts (OnTimer t a))
  | None => forall t, idle (OnTimer t a) a
  end.
Proof.
  intros Hi Hp. destruct (timed_state (state (ap_session a))) eqn:Ht.
  2: { unfold NextTimerDeadline, Snapshot. rewrite Hi. cbn. rewrite Ht. cbn. intros t.
       unfold idle, OnTimer, EnsureInitialized, bind, get, Snapshot. rewrite Hi. cbn. by rewrite Ht. }
  rewrite (deadline_candidates a now Hi Ht).
  destruct (fold_left _ (timer_candidates a now) None) as [d|] eqn:Hd; cbn.
  - apply fold_deadline_bounds in Hd as (Hmin & _ & [Hin|]); [|done].
    assert (Hact : forall t, d < t -> acts (OnTimer t a)) by (intros; by eapply timer_acts).
    destruct (d <? now) eqn:Ed; bool_to_prop; (split; [lia|]); (split; [|intros; apply Hact; lia]); [lia|].
    intros Hlt t Htd. apply (timer_idle a t now Hi Ht); [|intros c Hc; specialize (Hmin c Hc); lia].
    destruct (SessionState_eqb (state (ap_session a)) kPendingLogon) eqn:Ep; [left; by apply SessionState_eqb_true|].
    right. intros Hz. specialize (Hmin now). unfold timer_candidates in Hmin. rewrite Ep, Hz in Hmin. cbn in Hmin.
    assert (d <= now); [|lia]. apply Hmin. rewrite !elem_of_app. right. right. by left.
  - intros t. apply (timer_idle a t now Hi Ht).
    + destruct (SessionState_eqb (state (ap_session a)) kPendingLogon) eqn:Ep; [left; by apply SessionState_eqb_true|].
      exfalso. unfold timer_candidates in Hd. rewrite Ep in Hd. rewrite !fold_left_app in Hd. cbn in Hd.
      unfold update_deadline in Hd at 1. by repeat case_match.
    + intros c Hc. exfalso. revert Hd Hc. destruct (timer_candidates a now) as [|x l]; [set_solver|].
      intros Hd _. cbn in Hd. destruct (fold_deadline_some l x) as [d Hd']. congruence.
Qed.

Lemma timer_deadline_exact_witness :
  NextTimerDeadline 20 (toy_admin kActive) = Some 30000000011 /\
  idle (OnTimer 30000000011 (toy_admin kActive)) (toy_admin kActive).
Proof.
  assert (E : NextTimerDeadline 20 (toy_admin kActive) = Some 30000000011) by (vm_compute; reflexivity).
  split; [exact E|].
  pose proof (timer_deadline_exact 20 (toy_admin kActive) eq_refl ltac:(intros C; exfalso; apply C; reflexivity)) as Ht.
  rewrite E in Ht. destruct Ht as (_ & Hq & _). apply Hq; lia.
Defined.
