(* ===== verification/AdminReplay.v ===== *)
(** * Answering a ResendRequest

    [AdminProtocol::ReplayOutbound] walks a sequence range and its stored records
    with two nested loops.  [segments] is the reference: the stored application
    messages of the range in order, with one gap fill for each run of numbers
    between them.  The loops send exactly these segments, the segments cover
    the range without overlap, and where the stored messages are whole frames the
    replay succeeds with the expected bytes for every segment. *)
From S2P Require Import Prelude Base StdAlgo IntFormat FixTags Scan Wire RawPassThrough Frame Message Validation.
From S2P Require Import TransportProfile SessionCore SessionStore MemoryStore AdminProtocol AdminDemo AdminProofs.
From stdpp Require Import pretty sorting.
Open Scope Z_scope.

(** A gap fill for [b .. e - 1], or one stored message. *)
Inductive Segment :=
  | GapSeg (b e : Z)
  | MsgSeg (r : MessageRecordView).

Definition seg_begin (s : Segment) : Z := match s with GapSeg b _ => b | MsgSeg r => v_seq_num r end.
Definition seg_end (s : Segment) : Z := match s with GapSeg _ e => e | MsgSeg r => v_seq_num r + 1 end.
Definition seg_record (s : Segment) : option MessageRecordView := match s with GapSeg _ _ => None | MsgSeg r => Some r end.

(** The segments run from [b] to [e] without holes. *)
Fixpoint contiguous (b e : Z) (segs : list Segment) : Prop :=
  match segs with
  | [] => b = e
  | s :: segs => seg_begin s = b /\ b < seg_end s /\ contiguous (seg_end s) e segs
  end.

(** The reference: [apps] are the stored application records of the range. *)
Fixpoint segments (b e : Z) (apps : list MessageRecordView) : list Segment :=
  match apps with
  | [] => if b <=? e then [GapSeg b (e + 1)] else []
  | r :: apps =>
      (if b <? v_seq_num r then [GapSeg b (v_seq_num r)] else []) ++ MsgSeg r :: segments (v_seq_num r + 1) e apps
  end.

Definition apps_of (rs : list MessageRecordView) : list MessageRecordView := filter (fun r => is_admin r = false) rs.

Section Replay.
Context {St : Type} `{SessionStore St} `{Codec}.

Definition segment_frame (c : AdminProtocolConfig) (ts : Z) (s : Segment) : SE (Admin St) EncodedFrame :=
  match s with
  | GapSeg b e => BuildGapFillFrame b e ts
  | MsgSeg r => lift (replay_frame c r)
  end.

Fixpoint send_segments (c : AdminProtocolConfig) (ts : Z) (segs : list Segment) : SE (Admin St) (list EncodedFrame) :=
  match segs with
  | [] => ret []
  | s :: segs => f <- segment_frame c ts s ;; fs <- send_segments c ts segs ;; ret (f :: fs)
  end.

(** Records of a range from [seq] on. *)
Definition range_records (seq e : Z) (rs : list MessageRecordView) : Prop :=
  increasing v_seq_num rs /\ Forall (fun r => seq <= v_seq_num r <= e) rs.

Lemma range_records_cons seq e r rs :
  range_records seq e (r :: rs) <->
  seq <= v_seq_num r <= e /\ range_records (v_seq_num r + 1) e rs.
Proof.
  unfold range_records. rewrite increasing_cons, Forall_cons. split.
  - intros ((Hi & Hl) & Hr & Hf). split; [done|]. split; [done|]. rewrite Forall_forall in *. intros x Hx.
    specialize (Hl x Hx). specialize (Hf x Hx). lia.
  - intros (Hr & Hi & Hf). split; [split; [done|]|split; [done|]].
    all: eapply Forall_impl; [exact Hf|]; cbn; lia.
Qed.
Lemma range_records_weaken seq seq' e rs : seq <= seq' -> range_records seq' e rs -> range_records seq e rs.
Proof. intros Hs [Hi Hf]. split; [done|]. eapply Forall_impl; [exact Hf|]. cbn. lia. Qed.
Lemma range_records_skip seq e r rs :
  range_records seq e (r :: rs) -> v_seq_num r <> seq -> range_records (seq + 1) e (r :: rs).
Proof. rewrite !range_records_cons. intros [Hr Hrs] Hne. split; [lia|done]. Qed.

Lemma range_records_nil seq e : range_records seq e [].
Proof. split; constructor. Qed.
Lemma apps_of_cons r rs : apps_of (r :: rs) = if is_admin r then apps_of rs else r :: apps_of rs.
Proof. unfold apps_of. rewrite filter_cons. by destruct (is_admin r). Qed.

(** The inner loop stops at the next application record, or behind the range. *)
Lemma gap_scan_spec fuel e : forall seq rs,
  0 <= seq <= e + 1 -> e < UINT32_MAX -> (Z.to_nat (e - seq + 1) < fuel)%nat -> range_records seq e rs ->
  exists seq' rs', gap_scan fuel e seq rs = Some (seq', rs') /\ seq <= seq' <= e + 1 /\ range_records seq' e rs' /\
    apps_of rs' = apps_of rs /\
    (match rs' with r :: _ => v_seq_num r = seq' /\ is_admin r = false | [] => seq' = e + 1 end).
Proof.
  induction fuel as [|fuel IH]; intros seq rs Hs He Hf Hr; [lia|]. cbn [gap_scan].
  destruct (Z.leb_spec seq e) as [Hle|Hgt].
  - rewrite u32_small by ulia.
    assert (Hstep : forall rs1, range_records (seq + 1) e rs1 -> apps_of rs1 = apps_of rs ->
      exists seq' rs', gap_scan fuel e (seq + 1) rs1 = Some (seq', rs') /\ seq <= seq' <= e + 1 /\
        range_records seq' e rs' /\ apps_of rs' = apps_of rs /\
        (match rs' with r :: _ => v_seq_num r = seq' /\ is_admin r = false | [] => seq' = e + 1 end)).
    { intros rs1 Hr1 Hap. destruct (IH (seq + 1) rs1) as (q & l & Hq & Hb & Hl & Ha & Hm); [lia|done|lia|done|].
      exists q, l. rewrite Ha. split; [done|]. split; [lia|done]. }
    destruct rs as [|r rest]; [apply Hstep; [apply range_records_nil|done]|].
    destruct (Z.eqb_spec (v_seq_num r) seq) as [E|E].
    + destruct (is_admin r) eqn:Had; cbn [negb].
      * apply Hstep; [|by rewrite apps_of_cons, Had]. apply range_records_cons in Hr as [_ Hr]. by rewrite E in Hr.
      * exists seq, (r :: rest). split; [done|]. split; [lia|done].
    + apply Hstep; [by apply range_records_skip|done].
  - exists seq, rs. split; [done|]. split; [lia|]. split; [done|]. split; [done|].
    destruct rs as [|r rs]; [lia|]. apply range_records_cons in Hr as [Hr _]. lia.
Qed.

(** The gap in front of the records, as a segment. *)
Lemma segments_gap seq seq' e rs rs' :
  seq < seq' <= e + 1 -> apps_of rs' = apps_of rs ->
  (match rs' with r :: _ => v_seq_num r = seq' /\ is_admin r = false | [] => seq' = e + 1 end) ->
  segments seq e (apps_of rs) = GapSeg seq seq' :: segments seq' e (apps_of rs').
Proof.
  intros Hs Ha Hm. rewrite <- Ha. destruct rs' as [|r rest].
  - subst seq'. cbn. destruct (Z.leb_spec seq e); [|lia]. destruct (Z.leb_spec (e + 1) e); [lia|done].
  - destruct Hm as [Hm Had]. rewrite apps_of_cons, Had. cbn [segments]. rewrite Hm.
    destruct (Z.ltb_spec seq seq'); [|lia]. destruct (Z.ltb_spec seq' seq'); [lia|done].
Qed.

Lemma bind_ext {S A B} (m : SE S A) (k k' : A -> SE S B) s :
  (forall x s', k x s' = k' x s') -> bind m k s = bind m k' s.
Proof. intros Hk. unfold bind. destruct (m s) as [s' [x|e]]; [apply Hk|done]. Qed.

(** The loops send the segments. *)
Lemma replay_loop_segments fuel c e ts : forall seq rs fs (a : Admin St),
  1 <= seq <= e + 1 -> e < UINT32_MAX -> (Z.to_nat (e - seq + 1) < fuel)%nat -> range_records seq e rs ->
  replay_loop fuel c e ts seq rs fs a =
  (fs' <- send_segments c ts (segments seq e (apps_of rs)) ;; ret (fs ++ fs')) a.
Proof.
  induction fuel as [|fuel IH]; intros seq rs fs a Hs He Hf Hr; [lia|].
  destruct (Z.leb_spec seq e) as [Hle|Hgt].
  2: { assert (rs = []) as -> by (destruct rs as [|r rs]; [done|]; apply range_records_cons in Hr as [Hr _]; lia).
       cbn. destruct (Z.leb_spec seq e); [lia|]. cbn. by rewrite app_nil_r. }
  assert (Hgap : (match rs with r :: _ => v_seq_num r <> seq \/ is_admin r = true | [] => True end) ->
    (match gap_scan (S fuel) e seq rs with
     | None => fail diverges
     | Some (seq', records') =>
         gap_fill <- BuildGapFillFrame seq seq' ts ;;
         replay_loop fuel c e ts seq' records' (fs ++ [gap_fill])
     end) a = (fs' <- send_segments c ts (segments seq e (apps_of rs)) ;; ret (fs ++ fs')) a).
  { intros Hfirst. destruct (gap_scan_spec (S fuel) e seq rs) as (q & l & -> & Hq & Hl & Ha & Hm); [lia|done|done|done|].
    assert (seq < q) as Hlt.
    { destruct (decide (seq = q)) as [<-|]; [|lia]. destruct l as [|r l]; [lia|]. destruct Hm as [Hm Had].
      destruct rs as [|r0 rs0]; [by rewrite apps_of_cons, Had in Ha|].
      assert (r ∈ r0 :: rs0) as Hin.
      { assert (r ∈ apps_of (r0 :: rs0)) as Hin by (rewrite <- Ha, apps_of_cons, Had; by left).
        unfold apps_of in Hin. by apply list_elem_of_filter in Hin as [_ ?]. }
      apply elem_of_cons in Hin as [->|Hin].
      - destruct Hfirst; congruence.
      - apply range_records_cons in Hr as [Hr0 [_ Hr]]. rewrite Forall_forall in Hr. specialize (Hr r Hin). lia. }
    rewrite (segments_gap seq q e rs l) by (done || lia). cbn [send_segments segment_frame].
    rewrite bind_bind. apply bind_ext. intros f a1. rewrite bind_bind.
    rewrite IH by (lia || done). apply bind_ext. intros fs1 a2. by rewrite bind_ret, <- app_assoc. }
  cbn [replay_loop]. cbv zeta. destruct (Z.leb_spec seq e); [|lia]. destruct rs as [|r rest]; [by apply Hgap|].
  destruct ((v_seq_num r =? seq) && negb (is_admin r)) eqn:E.
  - bool_to_prop. rewrite apps_of_cons. destruct (is_admin r); [done|]. cbn [segments].
    destruct (Z.ltb_spec seq (v_seq_num r)); [lia|]. cbn [app send_segments segment_frame].
    rewrite bind_bind. apply bind_ext. intros f a1. rewrite bind_bind. rewrite u32_small by ulia.
    apply range_records_cons in Hr as [_ Hr]. replace (v_seq_num r + 1) with (seq + 1) in * by lia.
    rewrite IH by (lia || done). apply bind_ext. intros fs1 a2. by rewrite bind_ret, <- app_assoc.
  - apply Hgap. destruct (Z.eqb_spec (v_seq_num r) seq); [right|by left]. cbn in E. by destruct (is_admin r).
Qed.
End Replay.

(** ** What the segments are *)

Lemma segments_contiguous e : forall apps b,
  b <= e + 1 -> range_records b e apps -> contiguous b (e + 1) (segments b e apps).
Proof.
  induction apps as [|r apps IH]; intros b Hb Hr; cbn [segments].
  - destruct (Z.leb_spec b e); cbn; lia.
  - apply range_records_cons in Hr as [Hr Ht]. specialize (IH (v_seq_num r + 1) ltac:(lia) Ht).
    destruct (Z.ltb_spec b (v_seq_num r)); cbn; repeat split; try done; lia.
Qed.

Lemma segments_messages e r : forall apps b, MsgSeg r ∈ segments b e apps <-> r ∈ apps.
Proof.
  induction apps as [|x apps IH]; intros b; cbn [segments].
  - destruct (b <=? e); split; intros Hin; try by apply not_elem_of_nil in Hin.
    apply list_elem_of_singleton in Hin. discriminate.
  - rewrite elem_of_app, !elem_of_cons, IH. destruct (b <? v_seq_num x).
    + rewrite list_elem_of_singleton. split; [intros [?|[[= ->]|?]]; [discriminate|by left|by right]|].
      intros [->|?]; right; [by left|by right].
    + split; [intros [Hin|[[= ->]|?]]; [by apply not_elem_of_nil in Hin|by left|by right]|].
      intros [->|?]; right; [by left|by right].
Qed.

Lemma filter_range_records b e rs : range_records b e rs -> range_records b e (apps_of rs).
Proof.
  revert b. induction rs as [|r rs IH]; intros b; [done|]. rewrite apps_of_cons. intros Hr.
  apply range_records_cons in Hr as [Hr Ht]. destruct (is_admin r).
  - apply (range_records_weaken _ (v_seq_num r + 1)); [lia|by apply IH].
  - apply range_records_cons. split; [done|by apply IH].
Qed.

(** The records the store returns for a range. *)
Lemma stored_range_records (view : AbsSession) n : forall b e,
  (forall q r, a_outbound view !! q = Some r -> rec_seq_num r = q) -> b + Z.of_nat n - 1 <= e ->
  range_records b e (map record_view (omap (fun q => a_outbound view !! q) (zseq b n))).
Proof.
  induction n as [|n IH]; intros b e Hk Hn; [apply range_records_nil|]. rewrite zseq_S. cbn [omap].
  specialize (IH (b + 1) e Hk ltac:(lia)). cbn. destruct (a_outbound view !! b) as [r|] eqn:Hr.
  - cbn. apply range_records_cons. apply Hk in Hr. cbn. rewrite Hr. split; [lia|done].
  - apply (range_records_weaken _ (b + 1)); [lia|done].
Qed.

Lemma record_view_inj r r' : record_view r = record_view r' -> r = r'.
Proof. intros E. by rewrite <- (ToOwned_record_view r), E, ToOwned_record_view. Qed.

Lemma stored_apps (view : AbsSession) b e r :
  (forall q r, a_outbound view !! q = Some r -> rec_seq_num r = q) ->
  record_view r ∈ apps_of (map record_view (abs_outbound_range view b e)) <->
  b <= rec_seq_num r <= e /\ a_outbound view !! rec_seq_num r = Some r /\ is_admin (record_view r) = false.
Proof.
  intros Hk. unfold apps_of, abs_outbound_range. rewrite list_elem_of_filter, list_elem_of_fmap. split.
  - intros [Had (r' & E & Hin)]. apply record_view_inj in E as <-. apply list_elem_of_omap in Hin as (q & Hq & Hr).
    apply elem_of_zseq in Hq. pose proof (Hk _ _ Hr) as <-. split; [lia|done].
  - intros (Hr & Hs & Had). split; [done|]. exists r. split; [done|]. apply list_elem_of_omap.
    exists (rec_seq_num r). split; [apply elem_of_zseq; lia|done].
Qed.

Lemma replay_bounded_end_spec e next_out :
  0 <= e -> 1 <= next_out <= UINT32_MAX ->
  replay_bounded_end e next_out = (if e =? 0 then next_out - 1 else Z.min e (next_out - 1)).
Proof.
  intros He Hn. unfold replay_bounded_end. rewrite u32_small by ulia.
  destruct (Z.eqb_spec e 0); [done|]. cbn. destruct (e >=? next_out) eqn:E; bool_to_prop; lia.
Qed.

(** ** What is sent for a segment *)

Section Sending.
Context {St : Type} `{SessionStoreSpec St} `{Codec}.

(** The stored bytes of [r] are a whole frame: header fields [fs], then [body],
    which is empty or starts with an application field.  The offset kept with the
    record is zero or the start of the body; the sizes fit 32 bits.
    [ComputeBodyStartOffset] violates the condition on the offset for a frame
    without body fields. *)
Record stored_frame (c : AdminProtocolConfig) (view : RawPassThroughView) (r : MessageRecordView) (bs : list Z)
    (fs : list (Z * list Z)) (body : list Z) : Prop := {
  stf_payload : v_payload r = make_frame bs (render fs kFixSoh ++ body) kFixSoh;
  stf_begin : kFixSoh ∉ bs;
  stf_fields : Forall (field_ok kFixSoh) fs;
  stf_header : Forall (fun f => IsSessionHeaderTag (fst f) = true) fs;
  stf_body : body_ok kFixSoh body;
  stf_bytes : Forall is_byte body;
  stf_view : view = decoded_view (v_payload r) bs fs body (body_offset bs fs (render fs kFixSoh ++ body) kFixSoh);
  stf_offset : v_body_start_offset r = 0 \/ v_body_start_offset r = rv_body_start_offset view;
  stf_size : Z.of_nat (length (v_payload r)) <= UINT32_MAX;
  stf_replay_size :
    Z.of_nat (length (replay_header view (replay_options c (v_seq_num r) (rv_sending_time view))) + length body) <
    UINT32_MAX - 7;
}.

(** A segment that can be sent: the codec encodes the gap fill, the stored
    message is a whole frame. *)
Definition segment_ready (c : AdminProtocolConfig) (s : Segment) : Prop :=
  match s with
  | GapSeg b e => exists wire, encode_message (owned_view (gap_fill_message e)) (send_options c b true [] no_envelope) = Value wire
  | MsgSeg r => exists view bs fs body, stored_frame c view r bs fs body
  end.

(** The frame of a segment.  A gap fill is the codec's encoding of
    SequenceReset-GapFill with MsgSeqNum [b] and NewSeqNo [e]; a replayed message
    has the header [replay_fields] (its number, PossDupFlag, the stored
    SendingTime as OrigSendingTime) in front of the stored body. *)
Inductive answers (c : AdminProtocolConfig) : Segment -> EncodedFrame -> Prop :=
  | answers_gap b e wire :
      encode_message (owned_view (gap_fill_message e)) (send_options c b true [] no_envelope) = Value wire ->
      answers c (GapSeg b e) (MkFrame (frame_assign wire) "4" true)
  | answers_message r view bs fs body f :
      stored_frame c view r bs fs body ->
      let o := replay_options c (v_seq_num r) (rv_sending_time view) in
      frame_wire (frame_bytes f) =
        make_frame (replay_begin_string view o) (render (replay_fields view o) kFixSoh ++ body) kFixSoh ->
      frame_admin f = false -> frame_msg_type f = text_of (rv_msg_type view) ->
      answers c (MsgSeg r) f.

(** Nothing but the time of the last outbound activity and the recovery state in
    the store changes. *)
Record replay_keeps (ts : Z) (a a' : Admin St) : Prop := {
  rk_config : ap_config a' = ap_config a;
  rk_session : ap_session a' = ap_session a \/ ap_session a' = set_last_outbound_ns (ap_session a) ts;
  rk_store : exists s s', ap_store a = Some s /\ ap_store a' = Some s' /\ store_ok s' /\
    forall id, a_outbound (store_view s' id) = a_outbound (store_view s id);
}.

Lemma replay_keeps_refl ts a s : ap_store a = Some s -> store_ok s -> replay_keeps ts a a.
Proof. intros Hs Hok. split; [done|by left|]. by exists s, s. Qed.

Lemma replay_keeps_trans ts a b c : replay_keeps ts a b -> replay_keeps ts b c -> replay_keeps ts a c.
Proof.
  intros [Hc1 Hs1 (s & s1 & Ha & Hb & Hok1 & Hv1)] [Hc2 Hs2 (s2 & s3 & Hb' & Hc & Hok2 & Hv2)].
  assert (s2 = s1) as -> by congruence. split; [congruence| |].
  - destruct Hs1 as [E1|E1], Hs2 as [E2|E2]; rewrite E2, E1; [by left|by right|by right|right].
    by destruct (ap_session a).
  - exists s, s3. split; [done|]. split; [done|]. split; [done|]. intros id. by rewrite Hv2.
Qed.

Lemma gap_fill_answers ts b e wire (a : Admin St) s :
  ap_store a = Some s -> store_ok s -> session_id (config (ap_session a)) <> 0 ->
  encode_message (owned_view (gap_fill_message e)) (send_options (ap_config a) b true [] no_envelope) = Value wire ->
  exists a', BuildGapFillFrame b e ts a = (a', Value (MkFrame (frame_assign wire) "4" true)) /\ replay_keeps ts a a'.
Proof.
  intros Hs Hok Hid He. unfold BuildGapFillFrame, EncodeFrame. rewrite bind_ret.
  unfold bind at 1, cfg. cbn [id]. rewrite He. cbn [lift]. rewrite bind_ret.
  unfold FinalizeEncodedFrame. unfold bind at 1, on_session, RecordOutboundActivity. cbn [status.ok].
  set (a1 := set_session _ a). assert (ap_store a1 = Some s) as Hs1 by (by destruct a).
  unfold bind at 1, get. cbn [andb].
  unfold PersistRecoveryState, bind at 1, snapshot. unfold bind at 1. unfold on_store. rewrite Hs1.
  set (r := recovery_of _). assert (r_session_id r = session_id (config (ap_session a))) as Hr.
  { unfold r, a1. by destruct a as [? ? [] ? ? ? ? ? ? ?]. }
  pose proof (save_recovery_spec s r Hok) as Hsv. cbv zeta in Hsv. rewrite Hr in Hsv.
  rewrite (proj2 (Z.eqb_neq _ _) Hid) in Hsv. cbn [negb] in Hsv. destruct Hsv as (Hok' & Hst & Hv).
  destruct (SaveRecoveryState r s) as [s' st] eqn:ES. cbn [fst snd] in *. subst st. cbn [status.ok].
  eexists. split; [reflexivity|]. split; [by destruct a|right; by destruct a|].
  exists s, s'. split; [done|]. split; [by destruct a|]. split; [done|]. intros id'. rewrite Hv. unfold upd.
  by destruct (decide _) as [->|].
Qed.

Lemma message_answers (c : AdminProtocolConfig) view r bs fs body :
  stored_frame c view r bs fs body -> exists f, replay_frame c r = Value f /\ answers c (MsgSeg r) f.
Proof.
  intros Hst. pose proof Hst as [Hp Hbs Hf Hh Hb Hby Hv Ho Hn Hr].
  assert (HD : DecodeRawPassThrough has_sse2 (v_payload r) kFixSoh false = Some (Value view)).
  { rewrite Hp, Hv, Hp. rewrite Hp in Hn. exact (decode_make_frame has_sse2 false bs fs body kFixSoh demo_delim_ok Hbs Hf Hh Hb Hn). }
  assert (HP : (if v_body_start_offset r =? 0 then DecodeRawPassThrough has_sse2 (v_payload r) kFixSoh false
                else DecodeRawPassThroughAt has_sse2 (v_payload r) (v_body_start_offset r) kFixSoh false) = Some (Value view)).
  { destruct (Z.eqb_spec (v_body_start_offset r) 0) as [|Hne]; [done|]. destruct Ho as [Ho|Ho]; [done|].
    rewrite Ho. by apply stored_offset_same_view. }
  assert (Hbody : rv_raw_body view = body /\ rv_valid view = true).
  { rewrite Hv. unfold decoded_view. by destruct (store_fields _ _). }
  destruct Hbody as [Hbody Hvalid].
  destruct (EncodeReplayInto_frame has_sse2 view (replay_options c (v_seq_num r) (rv_sending_time view)) Hvalid)
    as (f & size & HE & Hw & _ & _); [by rewrite Hbody|by rewrite Hbody|].
  unfold replay_frame. rewrite HP, HE. eexists. split; [reflexivity|]. eapply answers_message; [exact Hst| |done|done].
  cbn [frame_bytes]. rewrite Hw. unfold replay_content. by rewrite Hbody.
Qed.

(** Segments that can be sent are sent. *)
Lemma send_segments_answers c ts segs : forall (a : Admin St) s,
  ap_store a = Some s -> store_ok s -> session_id (config (ap_session a)) <> 0 -> ap_config a = c ->
  Forall (segment_ready c) segs ->
  exists a' frames, send_segments c ts segs a = (a', Value frames) /\ Forall2 (answers c) segs frames /\ replay_keeps ts a a'.
Proof.
  induction segs as [|g segs IH]; intros a s Hs Hok Hid Hc Hr.
  - exists a, []. split; [done|]. split; [constructor|by eapply replay_keeps_refl].
  - apply Forall_cons in Hr as [Hg Hr]. cbn [send_segments].
    assert (exists a1 f, segment_frame c ts g a = (a1, Value f) /\ answers c g f /\ replay_keeps ts a a1)
      as (a1 & f & HF & Hf & Hk).
    { destruct g as [b e|r]; cbn [segment_frame segment_ready] in *.
      - destruct Hg as [wire Hw]. rewrite <- Hc in Hw |- *. destruct (gap_fill_answers ts b e wire a s Hs Hok Hid Hw) as (a1 & HB & Hk).
        exists a1, (MkFrame (frame_assign wire) "4" true). split; [done|]. split; [by constructor|done].
      - destruct Hg as (view & bs & fs & body & Hst). destruct (message_answers c view r bs fs body Hst) as (f & HR & Hf).
        exists a, f. rewrite HR. split; [done|]. split; [done|by eapply replay_keeps_refl]. }
    pose proof Hk as [Hc1 Hs1 (s0 & s1 & Ha0 & Ha1 & Hok1 & _)].
    destruct (IH a1 s1 Ha1 Hok1) as (a2 & frames & HS & HA & Hk2); [|congruence|done|].
    { destruct Hs1 as [-> | ->]; [done|]. by destruct (ap_session a). }
    exists a2, (f :: frames). unfold bind at 1. rewrite HF. unfold bind at 1. rewrite HS.
    split; [done|]. split; [by constructor|by eapply replay_keeps_trans].
Qed.
End Sending.

(** ** Properties *)

(** C2: a ResendRequest is answered completely.  With a store that keeps its
    contract, [ReplayOutbound] goes through, in order, exactly the segments of the
    requested range cut at the last allocated number ([0] asks for everything):
    the segments cover the range without hole or overlap, every stored
    application message of the range is one, and every other number is in a gap
    fill.  When the codec encodes the gap fills and every stored application
    message of the range is a whole frame whose kept body offset is zero or the
    start of its body (which the offset kept for a message without body fields is
    not), the call succeeds with one frame for each segment: a
    SequenceReset-GapFill from the first to behind the last number of the gap, or
    the stored message with its own number, PossDupFlag, the stored SendingTime as
    OrigSendingTime and the stored body byte for byte; it allocates no number and
    changes no stored message.  Where a segment cannot be sent, its error is the
    result.  A range beyond the last number is answered with nothing. *)
Theorem replay_outbound_covers {St} `{SessionStoreSpec St} `{Codec} b e ts (a : Admin St) s :
  ap_store a = Some s -> store_ok s -> 1 <= b -> 0 <= e -> 1 <= next_out_seq (ap_session a) <= UINT32_MAX ->
  session_id (config (ap_session a)) <> 0 ->
  let view := store_view s (session_id (config (ap_session a))) in
  let last := if e =? 0 then next_out_seq (ap_session a) - 1 else Z.min e (next_out_seq (ap_session a) - 1) in
  if b <=? last then
    let segs := segments b last (apps_of (map record_view (abs_outbound_range view b last))) in
    ReplayOutbound b e ts a = send_segments (ap_config a) ts segs a /\
    contiguous b (last + 1) segs /\
    (forall r, MsgSeg (record_view r) ∈ segs <->
       b <= rec_seq_num r <= last /\ a_outbound view !! rec_seq_num r = Some r /\ is_admin (record_view r) = false) /\
    (Forall (segment_ready (ap_config a)) segs ->
     exists a' frames, ReplayOutbound b e ts a = (a', Value frames) /\ Forall2 (answers (ap_config a)) segs frames /\
       replay_keeps ts a a')
  else ReplayOutbound b e ts a = (a, Value []).
Proof.
  intros Hs Hok Hb He Hn Hid view last.
  assert (Hk : forall q r, a_outbound view !! q = Some r -> rec_seq_num r = q) by (intros q r; by apply view_keys).
  pose proof (replay_bounded_end_spec e _ He Hn) as Hlast. fold last in Hlast.
  assert (last < UINT32_MAX) by (unfold last; destruct (e =? 0); lia).
  assert (HR : ReplayOutbound b e ts a =
    (if (last <? b) || (last =? 0) then ret []
     else records <- lift (LoadOutboundRangeViews s (session_id (config (ap_session a))) b last) ;;
          replay_loop (Z.to_nat (last - b + 2)) (ap_config a) last ts b records []) a).
  { unfold ReplayOutbound, bind at 1, get. rewrite Hs. cbn [Snapshot snap_next_out_seq snap_session_id].
    by rewrite Hlast. }
  rewrite HR. clear HR. destruct (Z.leb_spec b last) as [Hle|Hgt].
  - destruct (Z.ltb_spec last b); [lia|]. destruct (Z.eqb_spec last 0); [lia|]. cbn [orb].
    pose proof (load_outbound_views_spec s (session_id (config (ap_session a))) b last Hok) as Hload.
    assert (Hv : range_valid b last = true).
    { unfold range_valid. destruct (Z.eqb_spec b 0); [lia|]. destruct (Z.eqb_spec last 0); [lia|]. cbn.
      destruct (b >? last) eqn:E; bool_to_prop; [lia|done]. }
    rewrite Hv in Hload. rewrite Hload. cbn [lift]. rewrite bind_ret. fold view.
    set (rs := map record_view (abs_outbound_range view b last)).
    assert (Hrs : range_records b last rs).
    { unfold rs, abs_outbound_range. apply stored_range_records; [done|lia]. }
    assert (HS : replay_loop (Z.to_nat (last - b + 2)) (ap_config a) last ts b rs [] a =
                 send_segments (ap_config a) ts (segments b last (apps_of rs)) a).
    { rewrite replay_loop_segments by (lia || done). unfold bind at 1.
      by destruct (send_segments (ap_config a) ts (segments b last (apps_of rs)) a) as [a' [fs|?]]. }
    rewrite HS. split; [done|]. split; [|split].
    + apply segments_contiguous; [lia|by apply filter_range_records].
    + intros r. rewrite segments_messages. by apply stored_apps.
    + by apply (send_segments_answers (ap_config a) ts _ a s).
  - destruct (Z.ltb_spec last b); [done|lia].
Qed.

Definition toy_header_fields : list (Z * list Z) :=
  [(35, bytes "D"); (34, bytes "2"); (49, bytes "CLIENT"); (56, bytes "SERVER"); (52, bytes "20240102-03:04:05")].

Lemma toy_stored_frame :
  exists view, stored_frame toy_config view (MkView 7 2 11 0 toy_order 0) (bytes "FIX.4.4") toy_header_fields
                 (bytes "11=ORD1" ++ [1]).
Proof.
  eexists. split; [reflexivity| | |by repeat constructor| | |reflexivity|by left| |].
  - apply (bool_decide_unpack _). by vm_compute.
  - unfold toy_header_fields. repeat (apply Forall_cons; split); [..|apply Forall_nil; exact I]; (split; [cbn; ulia|]);
      apply (bool_decide_unpack _); by vm_compute.
  - right. exists 11, (bytes "ORD1"), []. split; [reflexivity|]. split; [|done]. split; [cbn; ulia|]. apply (bool_decide_unpack _). by vm_compute.
  - unfold is_byte. repeat constructor; cbn; lia.
  - apply Z.leb_le. by vm_compute.
  - apply Z.ltb_lt. by vm_compute.
Qed.

Lemma replay_outbound_covers_witness :
  let segs := [GapSeg 1 2; MsgSeg (MkView 7 2 11 0 toy_order 0); GapSeg 3 4] in
  contiguous 1 4 segs /\
  exists a' frames, ReplayOutbound 1 0 100 (toy_admin kActive) = (a', Value frames) /\
    Forall2 (answers toy_config) segs frames /\ replay_keeps 100 (toy_admin kActive) a'.
Proof.
  pose proof (replay_outbound_covers 1 0 100 (toy_admin kActive) toy_store eq_refl toy_store_ok) as H.
  assert (H1 : 1 <= 1) by lia. assert (H2 : 0 <= 0) by lia.
  assert (H3 : 1 <= next_out_seq (ap_session (toy_admin kActive)) <= UINT32_MAX) by (cbn; unfold UINT32_MAX; lia).
  assert (H4 : session_id (config (ap_session (toy_admin kActive))) <> 0) by done.
  specialize (H H1 H2 H3 H4). destruct H as (_ & Hc & _ & HA).
  split; [exact Hc|]. apply HA. repeat constructor.
  - eexists. reflexivity.
  - destruct toy_stored_frame as [view Hst]. by eexists _, _, _, _.
  - eexists. reflexivity.
Defined.
