(* ===== verification/AdminGap.v ===== *)
(** * Sequence gaps

    What [AdminProtocol::OnInbound] does with a message that is ahead of the
    expected number (one ResendRequest, the frame kept for later) and what
    [DrainDeferredGapFrames] does with the kept frames once the gap is filled. *)
From S2P Require Import Prelude Base StdAlgo IntFormat FixTags Wire RawPassThrough Frame Message Validation.
From S2P Require Import TransportProfile SessionCore SessionStore MemoryStore AdminProtocol AdminDemo AdminProofs.
From stdpp Require Import pretty sorting.
Open Scope Z_scope.

Section Deferred.
Context {St : Type} `{SessionStore St} `{Codec}.

(** One call appends at most one frame, and only with a resend pending. *)
Definition defer_step (a b : Admin St) : Prop :=
  ap_deferred_gap_frames b = ap_deferred_gap_frames a \/
  exists f, ap_deferred_gap_frames b = ap_deferred_gap_frames a ++ [f] /\ is_Some (pending_resend (ap_session b)).

Lemma keep_deferred_session op : rel (St:=St) (keep ap_deferred_gap_frames) (on_session op).
Proof. apply rel_on_session. by intros []. Qed.

Lemma inbound_gap_defers d s ts v st : rel (St:=St) defer_step (inbound_gap d s ts v st).
Proof.
  assert (Hkeep : forall A (m : SE (Admin St) A), rel (keep ap_deferred_gap_frames) m -> rel defer_step m).
  { intros A m Hm. eapply rel_weaken; [|exact Hm]. intros ? ? E. by left. }
  unfold inbound_gap. cbv zeta. intros a. unfold bind at 1, get. destruct v as [text|].
  - revert a. apply Hkeep. case_match; [|walk]. apply (rel_bind _); [apply keep_deferred_session|]. walk.
  - destruct (pending_resend (ap_session a)) as [pending|] eqn:Hp; [|by left].
    destruct (_ >? _); [|by left].
    unfold bind at 1. unfold on_session, RecordInboundActivity. cbn [status.ok bool_decide].
    set (a1 := set_session _ a).
    assert (Ha1 : pending_resend (ap_session a1) = Some pending /\ ap_deferred_gap_frames a1 = ap_deferred_gap_frames a)
      by (by destruct a as [? ? [] ? ? ? ? ? ? ?]). clearbody a1. destruct Ha1.
    change (if status.ok status.Ok then _ else _) with (@Value unit tt). cbn iota.
    unfold bind at 1, BuildResendRequestFrame.
    set (m := set_int _ _ _). pose proof (rel_encode_admin (keep ap_deferred_gap_frames) m ts a1) as K1.
    pose proof (rel_encode_admin (keep (fun a => pending_resend (ap_session a))) m ts a1) as K2.
    unfold keep in *. destruct (encode_admin m ts a1) as [a2 [f|e]]; cbn in *; [|left; congruence].
    right. exists (d_raw d). destruct a2; cbn in *. split; [congruence|]. rewrite K2. eauto.
Qed.

Lemma inbound_defers d ts : rel (St:=St) defer_step (OnInboundDecoded d ts).
Proof.
  apply (rel_OnInboundDecoded (keep ap_deferred_gap_frames) defer_step).
  - by left.
  - intros a b c E. unfold keep, defer_step in *. by rewrite E.
  - apply keep_deferred_session.
  - intros. apply keep_deferred_session.
  - intros _. split; intros; apply keep_deferred_session.
  - intros. apply inbound_gap_defers.
Qed.

(** [OnInbound] itself never adopts a message. *)
Hint Extern 2 (unowned _) => exact eq_refl : admin.
Lemma unowned_dispatch d ts : vals (St:=St) unowned (dispatch_inbound d ts).
Proof.
  unfold dispatch_inbound, ProcessInboundApplication. cbv zeta.
  destruct (string_eqb _ _); [apply (quiet_ProcessInboundLogon unowned)|]. hush.
Qed.
Hint Resolve unowned_dispatch : admin.
Lemma unowned_in_order d s ts v : vals (St:=St) unowned (inbound_in_order d s ts v).
Proof. unfold inbound_in_order. hush. Qed.
Hint Resolve unowned_in_order : admin.
Lemma unowned_inbound d ts : vals (St:=St) unowned (OnInboundDecoded d ts).
Proof. unfold OnInboundDecoded, inbound_sequenced. hush. Qed.

(** ** The drain *)

(** Why a drain stops: nothing is left, a new gap is being recovered, the peer is
    to be disconnected, or a frame failed. *)
Definition drained (a : Admin St) (ev : ProtocolEvent) (st : option Status) : Prop :=
  ap_deferred_gap_frames a = [] \/ is_Some (pending_resend (ap_session a)) \/ disconnect ev = true \/ is_Some st.

Definition dangling (r : MessageRef) : Prop := ref_storage r = kDangling.

Lemma push_frames_messages fs e : application_messages (push_frames fs e) = application_messages e.
Proof. revert e. induction fs as [|f fs IH]; intros e; [done|]. cbn. rewrite IH. by destruct e. Qed.

Lemma merge_owned inner e : owned_application_message (merge_inner inner e) = owned_application_message e.
Proof.
  unfold merge_inner.
  assert (Hf : forall fs e, owned_application_message (push_frames fs e) = owned_application_message e).
  { induction fs as [|f fs IH]; intros e0; [done|]. cbn. rewrite IH. by destruct e0. }
  rewrite <- (Hf (outbound_frames inner) e). generalize (push_frames (outbound_frames inner) e).
  induction (application_messages inner) as [|m l IH]; intros e0; [done|]. cbn. rewrite IH. by destruct e0.
Qed.

Lemma merge_messages inner e :
  application_messages (merge_inner inner e) =
  application_messages e ++ map outlive_event (application_messages inner).
Proof.
  unfold merge_inner. rewrite <- (push_frames_messages (outbound_frames inner) e).
  generalize (push_frames (outbound_frames inner) e). clear e. intros e. revert e.
  induction (application_messages inner) as [|m l IH]; intros e; cbn; [by rewrite app_nil_r|].
  rewrite IH. destruct e. cbn. by rewrite <- app_assoc.
Qed.

(** What the drain makes of the event of one frame: its message, if any, points
    into an event that is gone. *)
Lemma retained_dangling d ts (a a' : Admin St) ev :
  OnInboundDecoded d ts a = (a', Value ev) ->
  Forall dangling (map outlive_event (application_messages (retain_messages d ev))).
Proof.
  intros Hv. destruct (application_messages ev) eqn:Hm.
  - unfold retain_messages. rewrite Hm. unfold MaterializeApplicationMessages. rewrite Hm. destruct ev; constructor.
  - destruct (delivered_at _ _ _ _ _ Hv) as (_ & _ & (Hd & _) & _); [by rewrite Hm|].
    unfold retain_messages, AdoptParsedApplicationMessage. rewrite Hd. cbn. destruct ev. cbn. by repeat constructor.
Qed.

Lemma erase_deferred_eq n (a : Admin St) :
  erase_deferred n a = (set_deferred (drop n (ap_deferred_gap_frames a)) a, Value tt).
Proof. done. Qed.

Lemma insert_deferred_length i (f : list Z) (a : Admin St) :
  length (ap_deferred_gap_frames (set_deferred (<[i := f]> (ap_deferred_gap_frames a)) a)) =
  length (ap_deferred_gap_frames a).
Proof. destruct a. cbn. apply length_insert. Qed.

(** The loop returns, and only dangling messages are added. *)
Lemma drain_loop_total fuel : forall index ts ev (a : Admin St),
  (index <= length (ap_deferred_gap_frames a))%nat ->
  (length (ap_deferred_gap_frames a) < fuel + index)%nat \/ (0 < fuel)%nat /\ is_Some (pending_resend (ap_session a)) ->
  exists a' ev' st, drain_loop fuel index ts ev a = (a', Value (ev', st)) /\ drained a' ev' st /\
    owned_application_message ev' = owned_application_message ev /\
    exists l, application_messages ev' = application_messages ev ++ l /\ Forall dangling l.
Proof.
  induction fuel as [|fuel IH]; intros index ts ev a Hi Hf; [lia|]. cbn [drain_loop]. unfold bind at 1, get.
  destruct (ap_deferred_gap_frames a !! index) as [frame|] eqn:Hl.
  2: { unfold bind. rewrite erase_deferred_eq. eexists _, _, _. split; [reflexivity|]. split.
       - left. apply lookup_ge_None in Hl. destruct a. cbn in *. by apply drop_ge.
       - split; [done|]. exists []. by rewrite app_nil_r. }
  destruct (pending_resend (ap_session a)) eqn:Hp.
  { unfold bind. rewrite erase_deferred_eq. eexists _, _, _. split; [reflexivity|]. split.
    - right. left. destruct a. cbn in *. rewrite Hp. eauto.
    - split; [done|]. exists []. by rewrite app_nil_r. }
  apply lookup_lt_Some in Hl as Hlt. destruct Hf as [Hf|[_ [? Hx]]]; [|discriminate].
  unfold bind at 1, modify. cbv zeta.
  set (a1 := set_deferred (<[index := []]> (ap_deferred_gap_frames a)) a).
  pose proof (insert_deferred_length index [] a) as Hlen. fold a1 in Hlen.
  assert (Hskip : exists a' ev' st, drain_loop fuel (S index) ts ev a1 = (a', Value (ev', st)) /\ drained a' ev' st /\
    owned_application_message ev' = owned_application_message ev /\
    exists l, application_messages ev' = application_messages ev ++ l /\ Forall dangling l) by (apply IH; lia).
  destruct (DecodeFixMessageView _ _) as [d|]; [|done]. destruct (_ <? _); [done|]. clear Hskip.
  unfold bind at 1, catch. pose proof (inbound_defers d ts a1) as Hdef.
  destruct (OnInboundDecoded d ts a1) as [a2 [inner|e]] eqn:Hv; cbn [fst] in Hdef.
  2: { unfold bind. rewrite erase_deferred_eq. eexists _, _, _. split; [reflexivity|]. split.
       - right. right. right. eauto.
       - split; [done|]. exists []. by rewrite app_nil_r. }
  pose proof (retained_dangling _ _ _ _ _ Hv) as Hdang. destruct (disconnect _).
  - unfold bind. rewrite erase_deferred_eq. eexists _, _, _. split; [reflexivity|]. split.
    + right. right. left. by destruct (merge_inner _ _).
    + split.
      * rewrite <- (merge_owned (retain_messages d inner) ev). by destruct (merge_inner _ _).
      * eexists. split; [|exact Hdang]. rewrite <- merge_messages. by destruct (merge_inner _ _).
  - destruct (IH (S index) ts (merge_inner (retain_messages d inner) ev) a2) as (a' & ev' & st & He & Hd & Ho & l & Hl' & Hda).
    + destruct Hdef as [->|(f & -> & _)]; [lia|]. rewrite length_app. cbn. lia.
    + destruct Hdef as [->|(f & -> & Hpend)]; [left; lia|]. right. split; [lia|done].
    + eexists _, _, _. split; [exact He|]. split; [done|].
      split; [by rewrite Ho, merge_owned|]. rewrite Hl', merge_messages, <- app_assoc.
      eexists. split; [reflexivity|]. by apply Forall_app.
Qed.

Lemma drain_total ts ev (a : Admin St) :
  exists a' ev' st, DrainDeferredGapFrames ts ev a = (a', Value (ev', st)) /\ drained a' ev' st /\
    owned_application_message ev' = owned_application_message ev /\
    exists l, application_messages ev' = application_messages ev ++ l /\ Forall dangling l.
Proof. unfold DrainDeferredGapFrames, bind at 1, get. apply drain_loop_total; lia. Qed.

(** The event of the frame itself when the drain starts. *)
Lemma retained_own d ts (a a' : Admin St) ev :
  OnInboundDecoded d ts a = (a', Value ev) ->
  (application_messages (retain_messages d ev) = [] /\ owned_application_message (retain_messages d ev) = None) \/
  (application_messages (retain_messages d ev) = [MkRef (d_message d) kEventStorage] /\
   owned_application_message (retain_messages d ev) = Some (d_message d)).
Proof.
  intros Hv. pose proof (unowned_inbound _ _ _ _ _ Hv) as Hun. destruct (application_messages ev) eqn:Hm.
  - left. unfold retain_messages. rewrite Hm. unfold MaterializeApplicationMessages. rewrite Hm. by destruct ev.
  - right. destruct (delivered_at _ _ _ _ _ Hv) as (_ & _ & (Hd & _) & _); [by rewrite Hm|].
    unfold retain_messages, AdoptParsedApplicationMessage. rewrite Hd. by destruct ev.
Qed.
End Deferred.

(** ** A message ahead of the expected number *)

Section Ahead.
Context {St : Type} `{!SessionStore St} `{!SessionStoreSpec St} `{Codec}.

(** The header checks of [OnInbound] that come before the sequence number. *)
Definition header_accepted (c : AdminProtocolConfig) (d : DecodedMessageView) (ts : Z) : bool :=
  let h := d_header d in
  match ValidateCompIds c d with
  | Some _ => false
  | None =>
      ValidatePossDup c d &&
      negb (h_poss_dup h && negb (string_empty (h_orig_sending_time h)) && negb (string_empty (h_sending_time h)) &&
            string_gtb (h_orig_sending_time h) (h_sending_time h)) &&
      negb (SendingTimeOutsideThreshold (bytes (h_sending_time h)) ts (ac_sending_time_threshold_seconds c))
  end.

(** A message that is neither a Logon nor a SequenceReset in reset mode, in a
    state that admits its type. *)
Definition plain_message (d : DecodedMessageView) (st : SessionState) : Prop :=
  msg_type (d_message d) <> "A"%string /\
  (msg_type (d_message d) = "4"%string -> HasBoolean (d_message d) tags.kGapFillFlag = true) /\
  AdminPhaseViolationText st (msg_type (d_message d)) = None.

Lemma inbound_plain d ts (a : Admin St) :
  ap_initialization_error a = None -> header_accepted (ap_config a) d ts = true ->
  plain_message d (state (ap_session a)) -> next_in_seq (ap_session a) <= h_msg_seq_num (d_header d) ->
  OnInboundDecoded d ts a = inbound_in_order d (Snapshot (ap_session a)) ts None a.
Proof.
  intros Hi Hh (HA & H4 & Hv) Hseq. unfold OnInboundDecoded, EnsureInitialized. unfold bind at 1. rewrite Hi.
  cbv zeta. unfold bind at 1, snapshot. unfold bind at 1, cfg, id. unfold header_accepted in Hh.
  destruct (ValidateCompIds _ _); [done|]. apply andb_true_iff in Hh as [Hh Hs]. apply andb_true_iff in Hh as [Hpd Ho].
  rewrite Hpd. cbn [negb]. apply negb_true_iff in Ho as ->. apply negb_true_iff in Hs as ->.
  unfold inbound_sequenced. unfold bind at 1, cfg, id. cbv zeta.
  assert (string_eqb (msg_type (d_message d)) "A" = false) as -> by (by apply bool_decide_eq_false).
  cbn [andb orb when]. rewrite bind_ret, bind_ret. cbn [snap_state Snapshot snap_next_in_seq]. rewrite Hv. cbn [andb].
  destruct (Z.ltb_spec (h_msg_seq_num (d_header d)) (next_in_seq (ap_session a))); [lia|].
  destruct (string_eqb (msg_type (d_message d)) "4") eqn:E4; [|done].
  unfold string_eqb in E4. bool_to_prop. by rewrite (H4 E4).
Qed.

Definition resend_request (b e : Z) : MessageData :=
  set_int tags.kEndSeqNo e (set_int tags.kBeginSeqNo b (BuildAdminMessage "2")).

(** The object after [ObserveInboundSeq] opened the gap. *)
Definition gap_opened (seq ts : Z) (a : Admin St) : Admin St :=
  set_session (set_last_inbound_ns (set_resend_completed
    (set_state (set_resume_state (set_pending_resend (ap_session a) (Some (MkRange (next_in_seq (ap_session a)) (seq - 1))))
       (state (ap_session a))) kResendProcessing) false) ts)
    (if resend_completed (ap_session a) then set_outstanding "" a else a).

Lemma in_order_ahead d ts (a : Admin St) :
  sequencing_state (state (ap_session a)) = true -> state (ap_session a) <> kResendProcessing ->
  0 <= next_in_seq (ap_session a) < h_msg_seq_num (d_header d) -> h_msg_seq_num (d_header d) <= UINT32_MAX ->
  let seq := h_msg_seq_num (d_header d) in
  inbound_in_order d (Snapshot (ap_session a)) ts None a =
  (f <- encode_admin (resend_request (next_in_seq (ap_session a)) (seq - 1)) ts ;;
   modify (fun a => set_deferred (ap_deferred_gap_frames a ++ [d_raw d]) a) ;;;
   ret (push_frame f empty_event)) (gap_opened seq ts a).
Proof.
  intros Hst Hne Hlt Hmax seq. destruct a as [c s se ot ls tn ln ie df vl]. cbn in *.
  unfold inbound_in_order, catch, on_session, ObserveInboundSeq. fold seq. unfold bind at 1. cbn [ap_session].
  rewrite Hst. cbn [negb]. destruct (Z.ltb_spec seq (next_in_seq se)); [lia|].
  assert (seq >? next_in_seq se = true) as Hgt by (rewrite Z.gtb_ltb; apply Z.ltb_lt; lia). rewrite Hgt.
  assert (Hr : SessionState_eqb (state se) kResendProcessing = false)
    by (destruct (SessionState_eqb _ _) eqn:E; [by apply SessionState_eqb_true in E|done]).
  rewrite Hr, u32_small by ulia.
  unfold bind at 1, consume_resend_completed, ConsumeResendCompleted.
  unfold gap_opened. destruct se. cbn in *. destruct pending_resend, resend_completed; cbn;
    unfold inbound_gap, bind at 1, get; cbn; fold seq; rewrite Hgt; reflexivity.
Qed.
End Ahead.

(** ** Properties *)

(** C3: a gap is recovered by one ResendRequest.  An acceptable message ahead
    of the expected number, in a session that is not yet recovering, is answered
    with exactly one ResendRequest for the missing numbers, from the expected one
    to the one before it; nothing is delivered and the expected number stays, the
    session is in resend processing with that range pending, and the frame itself
    is kept for later. *)
Theorem gap_requests_resend {St} `{SessionStoreSpec St} `{Codec} d ts (a : Admin St) b :
  let seq := h_msg_seq_num (d_header d) in
  let expected := next_in_seq (ap_session a) in
  ap_initialization_error a = None -> header_accepted (ap_config a) d ts = true ->
  plain_message d (state (ap_session a)) -> persistent a ->
  sequencing_state (state (ap_session a)) = true -> state (ap_session a) <> kResendProcessing ->
  1 <= expected < seq -> seq <= UINT32_MAX -> next_out_seq (ap_session a) <> UINT32_MAX ->
  encode_message (owned_view (resend_request expected (seq - 1)))
    (send_options (ap_config a) (next_out_seq (ap_session a)) false [] no_envelope) = Value b ->
  exists a' ev f, OnInboundDecoded d ts a = (a', Value ev) /\
    outbound_frames ev = [f] /\ frame_msg_type f = "2"%string /\ frame_wire (frame_bytes f) = b /\
    application_messages ev = [] /\ next_in_seq (ap_session a') = expected /\ state (ap_session a') = kResendProcessing /\
    pending_resend (ap_session a') = Some (MkRange expected (seq - 1)) /\
    ap_deferred_gap_frames a' = ap_deferred_gap_frames a ++ [d_raw d].
Proof.
  intros seq expected Hi Hh Hp Hper Hst Hne Hlt Hmax Hout Henc.
  rewrite inbound_plain by (done || lia). rewrite in_order_ahead by (done || lia). fold seq expected.
  set (a1 := gap_opened seq ts a).
  assert (Hper1 : persistent a1).
  { unfold a1, gap_opened. destruct a as [? ? [] ? ? ? ? ? ? ?]. cbn in *. by destruct resend_completed. }
  assert (Ha1 : ap_config a1 = ap_config a /\ next_out_seq (ap_session a1) = next_out_seq (ap_session a) /\
    ap_deferred_gap_frames a1 = ap_deferred_gap_frames a /\
    (state (ap_session a1), next_in_seq (ap_session a1), pending_resend (ap_session a1)) =
      (kResendProcessing, expected, Some (MkRange expected (seq - 1)))).
  { unfold a1, gap_opened, expected. destruct a as [? ? [] ? ? ? ? ? ? ?]. cbn. by destruct resend_completed. }
  destruct Ha1 as (Hc & Ho & Hd & Hk). clearbody a1.
  destruct (EncodeFrame_total (owned_view (resend_request expected (seq - 1))) true ts false [] no_envelope a1 b)
    as (a2 & f & Hf); [done| |by rewrite Ho|by rewrite Hc, Ho|].
  { injection Hk as -> _ _. done. }
  destruct (EncodeFrame_send _ _ _ _ _ _ _ _ _ Hper1 Hf) as (_ & Ht & _ & Hw). rewrite Hc, Ho, Henc in Hw.
  pose proof (rel_encode_admin (keep (fun a => (state (ap_session a), next_in_seq (ap_session a), pending_resend (ap_session a))))
                (resend_request expected (seq - 1)) ts a1) as K1.
  pose proof (rel_encode_admin (keep ap_deferred_gap_frames) (resend_request expected (seq - 1)) ts a1) as K2.
  unfold bind at 1. unfold keep, encode_admin in *. rewrite Hf in *. cbn [fst] in *. rewrite Hk in K1. rewrite Hd in K2.
  eexists _, _, f. split; [reflexivity|]. injection Hw as <-. injection K1 as K1 K3 K4.
  destruct a2. cbn in *. rewrite K2. done.
Qed.

Lemma gap_requests_resend_witness :
  exists a' ev f, OnInboundDecoded (toy_decoded 68 7 []) 100 (toy_admin kActive) = (a', Value ev) /\
    outbound_frames ev = [f] /\ frame_msg_type f = "2"%string /\ frame_wire (frame_bytes f) = [50; 4; 7; 5; 16; 6] /\
    pending_resend (ap_session a') = Some (MkRange 5 6).
Proof.
  edestruct (gap_requests_resend (toy_decoded 68 7 []) 100 (toy_admin kActive) [50; 4; 7; 5; 16; 6])
    as (a' & ev & f & H1 & H2 & H3 & H4 & _ & _ & _ & H5 & _).
  - reflexivity.
  - vm_compute. reflexivity.
  - repeat split; vm_compute; done.
  - split; [exists toy_store; split; [reflexivity|exact toy_store_ok]|]. cbn. unfold UINT32_MAX. lia.
  - reflexivity.
  - discriminate.
  - cbn. lia.
  - cbn. unfold UINT32_MAX. lia.
  - cbn. unfold UINT32_MAX. lia.
  - vm_compute. reflexivity.
  - exists a', ev, f. repeat split; assumption.
Defined.

(** C39: draining the kept frames terminates, and stops only when nothing is
    left, a new gap is open, the peer is to be disconnected or a frame failed. *)
Theorem drain_completes {St} `{SessionStore St} `{Codec} ts ev (a : Admin St) :
  exists a' ev' st, DrainDeferredGapFrames ts ev a = (a', Value (ev', st)) /\ drained a' ev' st.
Proof. destruct (drain_total ts ev a) as (a' & ev' & st & He & Hd & _). eauto. Qed.

(** an event returned by [OnInbound] carries a usable application message
    only when that is its single message and came from the frame itself: every
    message the drain delivers, and the frame's own one beside it, refers to
    storage that is already gone. *)
Theorem drained_messages_dangle {St} `{SessionStore St} `{Codec} frame ts (a a' : Admin St) ev :
  OnInboundSpan frame ts a = (a', Value ev) ->
  (exists d, DecodeFixMessageView frame (verify_checksum (ac_validation_policy (ap_config a))) = Value d /\
             application_messages ev = [MkRef (d_message d) kEventStorage]) \/
  Forall dangling (application_messages ev).
Proof.
  unfold OnInboundSpan, DecodeInboundFrame. unfold bind at 1, cfg.
  destruct (DecodeFixMessageView _ _) as [d|e] eqn:Hdec.
  2: { intros Hv. right. revert Hv. unfold HandleInboundDecodeFailure. case_match; [by intros [=]|].
       intros Hv. assert (Hs : silent ev); [|by rewrite Hs].
       revert Hv. match goal with |- ?m a = _ -> _ => cut (vals silent m); [intros Hm; apply Hm|] end. hush. }
  intros Hv. apply bind_value in Hv as (a1 & ev1 & Hv1 & Hv).
  destruct (drain_total ts (retain_messages d ev1) a1) as (a2 & ev2 & st & Hdr & _ & How & l & Hl & Hda).
  unfold bind in Hv. rewrite Hdr in Hv. destruct st; [discriminate|]. injection Hv as _ <-.
  destruct (retained_own _ _ _ _ _ Hv1) as [[Hm Ho]|[Hm Ho]]; rewrite Hm in Hl; rewrite Ho in How; unfold move_event; rewrite How.
  - right. by rewrite Hl.
  - rewrite Hl. destruct l as [|r l]; [left; exists d; by destruct ev2|]. right. cbn [app]. destruct ev2. cbn.
    constructor; [done|]. apply Forall_cons in Hda as [Hr Hda]. constructor; [unfold dangling in *; by rewrite Hr|].
    apply Forall_fmap. eapply Forall_impl; [exact Hda|]. intros x Hx. unfold dangling in *. cbn. by rewrite Hx.
Qed.

(** The gap fill that ends a recovery hands out the kept message. *)
Lemma drained_messages_dangle_witness :
  exists a' ev, OnInboundSpan [52; 5; 123; 1; 36; 7] 100 toy_gapped = (a', Value ev) /\
    length (application_messages ev) = 1%nat /\ Forall dangling (application_messages ev).
Proof.
  destruct (OnInboundSpan [52; 5; 123; 1; 36; 7] 100 toy_gapped) as [a' r] eqn:E.
  destruct r as [ev|]; [|exfalso; revert E; vm_compute; discriminate].
  exists a', ev. split; [reflexivity|]. split; [revert E; vm_compute; intros [= _ <-]; reflexivity|].
  destruct (drained_messages_dangle _ _ _ _ _ E) as [(d & Hd & Hm)|Hd]; [|exact Hd].
  exfalso. revert Hm E. vm_compute. intros Hm [= _ <-]. discriminate.
Defined.
