(* ===== verification/AdminLogout.v ===== *)
(** * One Logout per connection

    Every call of the admin protocol is charged for the Logout frames it returns:
    a connection has a budget of one, spent when [logout_sent_] is set.  [paid p m]
    says that [m] stays within [p] and the budget; it composes along [bind], and
    every handler satisfies [paid 0]. *)
From S2P Require Import Prelude Base StdAlgo IntFormat FixTags Wire RawPassThrough Frame Message Validation.
From S2P Require Import TransportProfile SessionCore SessionStore MemoryStore AdminProtocol AdminDemo AdminProofs.
From stdpp Require Import pretty sorting.
Open Scope Z_scope.

(** The number of Logout frames of the protocol itself in a returned value. *)
Class Weigh (A : Type) := weight : A -> nat.

Definition frame_weight (f : EncodedFrame) : nat := if frame_admin f && string_eqb (frame_msg_type f) "5" then 1%nat else 0%nat.
Definition frames_weight (fs : list EncodedFrame) : nat := sum_list (map frame_weight fs).

#[export] Instance weigh_frame : Weigh EncodedFrame := frame_weight.
#[export] Instance weigh_frames : Weigh (list EncodedFrame) := frames_weight.
#[export] Instance weigh_event : Weigh ProtocolEvent := fun e => frames_weight (outbound_frames e).
#[export] Instance weigh_drained : Weigh (ProtocolEvent * option Status) := fun r => frames_weight (outbound_frames (fst r)).
#[export] Instance weigh_result {A} `{Weigh A} : Weigh (Result A) :=
  fun r => match r with Value v => weight v | Error _ => 0%nat end.
#[export] Instance weigh_other A : Weigh A | 100 := fun _ => 0%nat.

Section Budget.
Context {St : Type}.

Definition budget (a : Admin St) : nat := if ap_logout_sent a then 0%nat else 1%nat.

Definition paid {A} `{Weigh A} (p : nat) (m : SE (Admin St) A) : Prop :=
  forall a, (weight (snd (m a)) + budget (fst (m a)) <= p + budget a)%nat.

Lemma paid_ret {A} `{Weigh A} p (x : A) : (weight x <= p)%nat -> paid p (ret x).
Proof. intros Hx a. cbn. lia. Qed.
Lemma paid_fail {A} `{Weigh A} p e : paid (A:=A) p (fail e).
Proof. intros a. cbn. lia. Qed.
Lemma paid_bind {A B} `{Weigh A} `{Weigh B} p (m : SE _ A) (k : A -> SE _ B) :
  paid 0 m -> (forall x, paid (p + weight x) (k x)) -> paid p (bind m k).
Proof.
  intros Hm Hk a. specialize (Hm a). unfold bind. destruct (m a) as [a' [x|e]]; cbn in *; [|lia].
  specialize (Hk x a'). lia.
Qed.
Lemma paid_catch {A} `{Weigh A} p (m : SE _ A) : paid p m -> paid p (catch m).
Proof. intros Hm a. specialize (Hm a). unfold catch. by destruct (m a). Qed.
Lemma paid_more {A} `{Weigh A} p q (m : SE _ A) : (p <= q)%nat -> paid p m -> paid q m.
Proof. intros Hp Hm a. specialize (Hm a). lia. Qed.

(** Once set, the flag stays. *)
Definition logout_mono (a b : Admin St) : Prop := ap_logout_sent a = true -> ap_logout_sent b = true.
#[export] Instance logout_mono_preorder : PreOrder logout_mono.
Proof. split; unfold logout_mono; [intros a|intros a b c]; auto. Qed.

(** A call that returns no Logout. *)
Lemma paid_light {A} `{Weigh A} p (m : SE _ A) :
  rel logout_mono m -> vals (fun v => weight v = 0%nat) m -> paid p m.
Proof.
  intros Hr Hv a. specialize (Hr a). specialize (Hv a). unfold budget. destruct (m a) as [a' [x|e]]; cbn in *.
  - rewrite (Hv _ _ eq_refl). unfold logout_mono in Hr. destruct (ap_logout_sent a), (ap_logout_sent a'); lia || by discriminate Hr.
  - unfold logout_mono in Hr. destruct (ap_logout_sent a), (ap_logout_sent a'); lia || by discriminate Hr.
Qed.
End Budget.

Section BudgetSteps.
Context {St : Type} `{SessionStore St} `{Codec}.
#[export] Instance logout_mono_steps : InStep (St:=St) logout_mono.
Proof. repeat (first [typeclasses eauto | split]); unfold logout_mono; step_by_cases. Qed.
Lemma logout_mono_session op : rel (St:=St) logout_mono (on_session op).
Proof. apply rel_on_session. intros []. unfold logout_mono. cbn. auto. Qed.
End BudgetSteps.
#[export] Hint Resolve logout_mono_steps logout_mono_session : admin.
#[export] Hint Extern 1 (logout_mono ?a _) => unfold logout_mono; destruct a; cbn; solve [auto] : admin.

Create HintDb paid.
Create Rewrite HintDb weight.

Lemma weight_push_frame f e : weight (push_frame f e) = (weight e + weight f)%nat.
Proof.
  destruct e. unfold weight, weigh_event, frames_weight. cbn. rewrite map_app. cbn.
  induction (map frame_weight outbound_frames) as [|x l IH]; cbn in *; [unfold weigh_frame; lia|]. lia.
Qed.
Lemma weight_push_error t e : weight (push_error t e) = weight e.
Proof. by destruct e. Qed.
Lemma weight_push_warning t e : weight (push_warning t e) = weight e.
Proof. by destruct e. Qed.
Lemma weight_push_message m e : weight (push_message m e) = weight e.
Proof. by destruct e. Qed.
Lemma weight_set_disconnect b e : weight (set_disconnect b e) = weight e.
Proof. by destruct e. Qed.
Lemma weight_set_active e : weight (set_session_active e) = weight e.
Proof. by destruct e. Qed.
Lemma weight_set_reject e : weight (set_session_reject e) = weight e.
Proof. by destruct e. Qed.
Lemma weight_set_resend e : weight (set_ev_poss_resend e) = weight e.
Proof. by destruct e. Qed.
Lemma weight_set_frames fs e : weight (set_frames fs e) = weight fs.
Proof. by destruct e. Qed.
Lemma weight_set_messages ms ow e : weight (set_messages ms ow e) = weight e.
Proof. by destruct e. Qed.
Lemma weight_empty : weight empty_event = 0%nat.
Proof. done. Qed.
Lemma weight_push_frames fs e : weight (push_frames fs e) = (weight e + weight fs)%nat.
Proof.
  revert e. induction fs as [|f fs IH]; intros e; cbn [push_frames fold_left]; [unfold weight, weigh_frames; cbn; lia|].
  fold (push_frames fs (push_frame f e)). rewrite IH, weight_push_frame. unfold weight, weigh_frames, weigh_frame, frames_weight. cbn. lia.
Qed.
#[export] Hint Rewrite weight_push_frame weight_push_error weight_push_warning weight_push_message weight_set_disconnect
  weight_set_active weight_set_reject weight_set_resend weight_set_frames weight_set_messages weight_empty
  weight_push_frames : weight.

Ltac weighs := autorewrite with weight; try done; try lia.

(** A value type that carries no frames. *)
Ltac light := apply paid_light; [solve [walk] | solve [intros ? ? ? ?; reflexivity | intros ? ? [] ?; reflexivity]].

Ltac afford := intros; cbv zeta; repeat first
  [ solve [eauto 5 with paid]
  | match goal with
    | |- paid _ (bind _ _) => apply paid_bind; [|intros ?]
    | |- paid _ (ret _) => apply paid_ret; solve [repeat case_match; weighs]
    | |- paid _ (fail _) => apply paid_fail
    | |- paid _ (catch _) => apply paid_catch
    end
  | light
  | match goal with
    | |- context [if ?b then _ else _] => destruct b
    | |- context [match ?b with _ => _ end] => destruct b
    end ].

Section Handlers.
Context {St : Type} `{SessionStore St} `{Codec}.
Notation paid := (paid (St:=St)).

Lemma EncodeFrame_labels m ad ts p d al f n o e :
  vals (St:=St) (fun fr => frame_msg_type fr = msg_type m /\ frame_admin fr = ad) (EncodeFrame m ad ts p d al f n o e).
Proof. unfold EncodeFrame, FinalizeEncodedFrame. repeat (apply vals_bind; intros ?). by apply vals_ret. Qed.

(** A frame that is not an admin Logout costs nothing. *)
Lemma paid_EncodeFrame q m ad ts p d al f n o e :
  ad && string_eqb (msg_type m) "5" = false -> paid q (EncodeFrame m ad ts p d al f n o e).
Proof.
  intros Hm. apply paid_light; [walk|]. intros a a' fr Hv. apply EncodeFrame_labels in Hv as [Ht Ha].
  unfold weight, weigh_frame, frame_weight. by rewrite Ht, Ha, Hm.
Qed.
Lemma paid_encode_admin q m ts : string_eqb (md_msg_type m) "5" = false -> paid q (encode_admin m ts).
Proof. intros Hm. apply paid_EncodeFrame. destruct m; cbn in *. done. Qed.
Lemma paid_EncodeEncodedFrame q m ts p d al f n o e x : paid q (EncodeEncodedFrame m false ts p d al f n o e x).
Proof.
  apply paid_light; [walk|]. unfold EncodeEncodedFrame, FinalizeEncodedFrame. cbv zeta.
  repeat (apply vals_bind; intros ?). by apply vals_ret.
Qed.
Hint Resolve paid_EncodeEncodedFrame : paid.

Lemma set_string_type t v m : md_msg_type (set_string t v m) = md_msg_type m.
Proof. by destruct m. Qed.
Lemma set_int_type t v m : md_msg_type (set_int t v m) = md_msg_type m.
Proof. by destruct m. Qed.
Lemma set_boolean_type t v m : md_msg_type (set_boolean t v m) = md_msg_type m.
Proof. by destruct m. Qed.
Lemma add_fields_type fields m :
  md_msg_type (fold_left (fun m f => add_string (lf_tag f) (lf_value f) m) fields m) = md_msg_type m.
Proof. revert m. induction fields as [|f fields IH]; intros m; [done|]. cbn. rewrite IH. by destruct m. Qed.
Ltac not_logout := repeat case_match; rewrite ?add_fields_type; repeat (rewrite ?set_string_type, ?set_int_type, ?set_boolean_type); done.

Lemma paid_BuildLogonFrame q ts b : paid q (BuildLogonFrame ts b).
Proof.
  unfold BuildLogonFrame. cbv zeta. apply paid_bind; [light|intros c]. apply paid_bind; [light|intros s].
  apply paid_encode_admin. not_logout.
Qed.
Lemma paid_BuildHeartbeatFrame q ts id : paid q (BuildHeartbeatFrame ts id).
Proof. apply paid_encode_admin. not_logout. Qed.
Lemma paid_BuildTestRequestFrame q ts id : paid q (BuildTestRequestFrame ts id).
Proof. apply paid_encode_admin. not_logout. Qed.
Lemma paid_BuildResendRequestFrame q b e ts : paid q (BuildResendRequestFrame b e ts).
Proof. apply paid_encode_admin. not_logout. Qed.
Lemma paid_BuildGapFillFrame q b e ts : paid q (BuildGapFillFrame b e ts).
Proof. apply paid_EncodeFrame. done. Qed.
Lemma paid_BuildRejectFrame q s t g r x ts : paid q (BuildRejectFrame s t g r x ts).
Proof. unfold BuildRejectFrame. cbv zeta. apply paid_encode_admin. not_logout. Qed.
Hint Resolve paid_BuildLogonFrame paid_BuildHeartbeatFrame paid_BuildTestRequestFrame paid_BuildResendRequestFrame
  paid_BuildGapFillFrame paid_BuildRejectFrame : paid.

(** With the budget unspent only a success has to be looked at. *)
Lemma paid_success {A} `{Weigh A} (m : SE (Admin St) A) a :
  ap_logout_sent a = false ->
  (forall a' v, m a = (a', Value v) -> weight v <= 1 /\ ap_logout_sent a' = true)%nat ->
  (weight (snd (m a)) + budget (fst (m a)) <= budget a)%nat.
Proof.
  intros Ha Hm. unfold budget. rewrite Ha. destruct (m a) as [a' [v|e]]; cbn [fst snd].
  - destruct (Hm _ _ eq_refl) as [Hw ->]. change (weight (Value v)) with (weight v). lia.
  - change (weight (Error e)) with 0%nat. destruct (ap_logout_sent a'); lia.
Qed.

Lemma frame_weight_le f : (frame_weight f <= 1)%nat.
Proof. unfold frame_weight. destruct (_ && _); lia. Qed.

Lemma paid_BeginLogout q t ts : paid q (BeginLogout t ts).
Proof.
  apply (paid_more 0); [lia|]. unfold BeginLogout. apply paid_bind; [light|intros []]. intros a. rewrite !bind_get.
  destruct (ap_logout_sent a) eqn:Hs; [apply (paid_fail 0)|]. cbv zeta. apply paid_success; [done|].
  intros a' v Hv. split; [apply frame_weight_le|].
  apply bind_value in Hv as (a1 & st & _ & Hv). apply bind_value in Hv as (a2 & [] & _ & Hv).
  apply bind_value in Hv as (a3 & [] & [= <-] & Hv). apply bind_value in Hv as (a4 & [] & [= <-] & Hv).
  match type of Hv with encode_admin ?m ts ?a0 = _ => pose proof (rel_encode_admin logout_mono m ts a0) as Hk end.
  rewrite Hv in Hk. apply Hk. by destruct a2.
Qed.
Hint Resolve paid_BeginLogout : paid.

Lemma paid_logout_event t ts e : paid (weight e) (logout_event t ts e).
Proof. unfold logout_event. afford. Qed.
Hint Resolve paid_logout_event : paid.
Lemma paid_RejectInbound q d r ts : paid q (RejectInbound d r ts).
Proof. unfold RejectInbound. afford. Qed.
Hint Resolve paid_RejectInbound : paid.
Lemma paid_reject_then_logout q d g r t ts : paid q (reject_then_logout d g r t ts).
Proof.
  unfold reject_then_logout. apply paid_bind; [afford|intros e]. apply (paid_more (weight e)); [lia|]. afford.
Qed.
Lemma paid_BuildPhaseViolationLogout q t s mt ts : paid q (BuildPhaseViolationLogout t s mt ts).
Proof. unfold BuildPhaseViolationLogout. afford. Qed.
Lemma paid_logout_plain q t ts e : weight e = 0%nat -> paid q (logout_event t ts e).
Proof. intros He. apply (paid_more (weight e)); [lia|]. apply paid_logout_event. Qed.
Hint Resolve paid_reject_then_logout paid_BuildPhaseViolationLogout paid_logout_plain : paid.
Hint Extern 1 (weight _ = 0%nat) => reflexivity : paid.
Lemma paid_inbound_too_low q d s ts : paid q (inbound_too_low d s ts).
Proof. unfold inbound_too_low. afford. Qed.

Lemma paid_checked_dispatch q d s ts v k : paid q k -> paid q (checked_dispatch d s ts v k).
Proof.
  intros Hk. unfold checked_dispatch. destruct v; [afford|]. apply paid_bind; [light|intros [r|]]; [afford|].
  change (weight None) with 0%nat. by rewrite Nat.add_0_r.
Qed.
Lemma paid_inbound_sequence_reset q d s ts v : paid q (inbound_sequence_reset d s ts v).
Proof.
  unfold inbound_sequence_reset. destruct (ParseSequenceResetNewSeq _) as [n|[r t]]; [|afford].
  destruct (n <? _); [afford|]. apply paid_bind; [light|intros []]. apply paid_bind; [light|intros []].
  apply paid_checked_dispatch. afford.
Qed.
Lemma paid_inbound_gap q d s ts v st : paid q (inbound_gap d s ts v st).
Proof. unfold inbound_gap. afford. Qed.
Lemma paid_inbound_gap_fill q d ts : paid q (inbound_gap_fill d ts).
Proof. unfold inbound_gap_fill. afford. Qed.

Lemma weight_app (fs gs : list EncodedFrame) : weight (fs ++ gs) = (weight fs + weight gs)%nat.
Proof. unfold weight, weigh_frames, frames_weight. induction fs as [|f fs IH]; cbn; [done|]. cbn in IH. lia. Qed.
Lemma weight_snoc fs f : weight (fs ++ [f]) = (weight fs + weight f)%nat.
Proof. rewrite weight_app. unfold weight, weigh_frames, weigh_frame, frames_weight. cbn. lia. Qed.

Lemma paid_replay_frame c r : paid 0 (lift (replay_frame c r)).
Proof.
  apply paid_light; [walk|]. intros a a' f Hv. unfold replay_frame in Hv.
  unfold lift, ret, fail in Hv. repeat case_match; simplify_eq; reflexivity.
Qed.
Lemma paid_replay_loop c e ts : forall fuel seq rs fs, paid (weight fs) (replay_loop fuel c e ts seq rs fs).
Proof.
  induction fuel as [|fuel IH]; intros seq rs fs; cbn [replay_loop]; [apply paid_fail|]. cbv zeta.
  generalize (gap_scan (S fuel) e seq rs). intros g.
  assert (Hnext : forall q l (f : EncodedFrame), paid (weight fs + weight f) (replay_loop fuel c e ts q l (fs ++ [f])))
    by (intros; rewrite <- weight_snoc; apply IH).
  destruct (seq <=? e); [|by apply paid_ret]. repeat case_match; try apply paid_fail.
  all: apply paid_bind; [first [apply paid_BuildGapFillFrame | apply paid_replay_frame] | intros f; apply Hnext].
Qed.
Lemma paid_ReplayOutbound q b e ts : paid q (ReplayOutbound b e ts).
Proof.
  apply (paid_more 0); [lia|]. unfold ReplayOutbound. apply paid_bind; [light|intros a]. repeat case_match; try (by apply paid_ret).
  apply paid_bind; [light|intros rs]. apply (paid_more (weight (@nil EncodedFrame))); [cbn; lia|]. apply paid_replay_loop.
Qed.
Hint Resolve paid_checked_dispatch paid_inbound_sequence_reset paid_inbound_gap paid_inbound_gap_fill paid_ReplayOutbound
  paid_inbound_too_low : paid.
Lemma paid_ReplayCounterparty n p ts e : paid (weight e) (ReplayCounterpartyExpectedRange n p ts e).
Proof. unfold ReplayCounterpartyExpectedRange. afford. Qed.
Lemma paid_ProcessInboundApplication q d ts : paid q (ProcessInboundApplication d ts).
Proof.
  unfold ProcessInboundApplication, build_business_reject. cbv zeta.
  assert (forall p m ts, string_eqb (md_msg_type m) "5" = false -> paid p (encode_admin m ts)) as He
    by (intros; by apply paid_encode_admin).
  afford; try (apply He; not_logout).
Qed.
Hint Resolve paid_ProcessInboundApplication : paid.

Lemma mono_restore (d : DecodedMessageView) : msg_type (d_message d) = "A"%string ->
  (forall i o, rel (St:=St) logout_mono (on_session (RestoreSequenceState i o))) /\ rel (St:=St) logout_mono (on_session OnLogonAccepted).
Proof. intros _. split; intros; apply logout_mono_session. Qed.
Lemma mono_Reset i o b : rel (St:=St) logout_mono (ResetSessionState i o b).
Proof. unfold ResetSessionState. walk. Qed.
Lemma mono_Refresh : rel (St:=St) logout_mono RefreshSessionStateFromStore.
Proof. unfold RefreshSessionStateFromStore. walk. Qed.
Hint Resolve mono_Reset mono_Refresh : admin.

Lemma paid_ProcessInboundLogon q d ts : paid q (ProcessInboundLogon d ts).
Proof.
  apply (paid_more 0); [lia|]. unfold ProcessInboundLogon. cbv zeta. do 4 (apply paid_bind; [light|intros ?]).
  generalize (get_int (d_message d) tags.kNextExpectedMsgSeqNum). intros g.
  match goal with |- context [if ?b then logout_event _ _ _ else _] => destruct b end; [afford|].
  match goal with |- context [if ?b then logout_event _ _ _ else _] => destruct b end; [afford|].
  apply paid_bind; [afford|intros e]. do 2 (apply paid_bind; [light|intros ?]). destruct g; [|afford].
  apply (paid_more (weight (set_session_active e))); [weighs|]. apply paid_ReplayCounterparty.
Qed.
Hint Resolve paid_ProcessInboundLogon : paid.
Lemma paid_dispatch_inbound q d ts : paid q (dispatch_inbound d ts).
Proof. unfold dispatch_inbound. afford. Qed.
Hint Resolve paid_dispatch_inbound : paid.
Lemma paid_inbound_in_order q d s ts v : paid q (inbound_in_order d s ts v).
Proof. unfold inbound_in_order. afford. Qed.
Hint Resolve paid_inbound_in_order : paid.
Lemma paid_inbound_sequenced q d s ts : paid q (inbound_sequenced d s ts).
Proof. unfold inbound_sequenced. afford. Qed.
Hint Resolve paid_inbound_sequenced : paid.
Lemma paid_OnInboundDecoded q d ts : paid q (OnInboundDecoded d ts).
Proof. unfold OnInboundDecoded. afford. Qed.

Lemma weight_retain d e : weight (retain_messages d e) = weight e.
Proof.
  unfold retain_messages, AdoptParsedApplicationMessage, MaterializeApplicationMessages. repeat case_match; weighs.
Qed.
Lemma weight_move e : weight (move_event e) = weight e.
Proof. unfold move_event. repeat case_match; weighs. Qed.
Lemma weight_merge inner e : weight (merge_inner inner e) = (weight e + weight inner)%nat.
Proof.
  unfold merge_inner. transitivity (weight (push_frames (outbound_frames inner) e)); [|by rewrite weight_push_frames].
  generalize (push_frames (outbound_frames inner) e). induction (application_messages inner) as [|m l IH]; intros e0; [done|].
  cbn. rewrite IH. weighs.
Qed.

Lemma paid_drain_loop ts : forall fuel index ev, paid (weight ev) (drain_loop fuel index ts ev).
Proof.
  induction fuel as [|fuel IH]; intros index ev; cbn [drain_loop]; [apply paid_fail|].
  assert (Hend : forall n (e : ProtocolEvent) (st : option Status) q, (weight e <= q)%nat ->
    paid q (erase_deferred n ;;; ret (e, st))).
  { intros n e st q Hq. unfold erase_deferred. apply paid_bind; [light|intros []]. apply paid_ret.
    change (weight (e, st)) with (weight e). lia. }
  apply paid_bind; [light|intros a]. destruct (ap_deferred_gap_frames a !! index); [|apply Hend; lia].
  destruct (pending_resend (ap_session a)); [apply Hend; lia|].
  apply paid_bind; [light|intros []]. cbv zeta. destruct (DecodeFixMessageView _ _) as [dm|]; [|apply (paid_more (weight ev)); [lia|apply IH]].
  destruct (_ <? _); [apply (paid_more (weight ev)); [lia|apply IH]|].
  apply paid_bind; [apply paid_catch, paid_OnInboundDecoded|intros [inner|e]]; [|apply Hend; lia].
  change (weight (Value inner)) with (weight inner).
  assert (Hm : weight (merge_inner (retain_messages dm inner) ev) = (weight ev + weight inner)%nat)
    by (by rewrite weight_merge, weight_retain).
  destruct (disconnect _); [apply Hend; weighs|]. eapply paid_more; [|apply IH]. lia.
Qed.
Lemma paid_OnInboundSpan q f ts : paid q (OnInboundSpan f ts).
Proof.
  apply (paid_more 0); [lia|]. unfold OnInboundSpan, DecodeInboundFrame, HandleInboundDecodeFailure.
  apply paid_bind; [light|intros [d|e]]; [|afford]. apply paid_bind; [apply paid_OnInboundDecoded|intros ev].
  unfold DrainDeferredGapFrames. rewrite <- (weight_retain d).
  intros a. rewrite bind_bind, bind_get.
  pose proof (paid_drain_loop ts (S (length (ap_deferred_gap_frames a))) 0 (retain_messages d ev) a) as Hd.
  unfold bind. destruct (drain_loop _ _ _ _ a) as [a' [[ev' [st|]]|e]]; cbn [fst snd] in *.
  - change (weight (Value (ev', Some st))) with (weight ev') in Hd. unfold fail. cbn [fst snd].
    change (weight (Error st)) with 0%nat. lia.
  - change (weight (Value (ev', None))) with (weight ev') in Hd. unfold ret. cbn [fst snd].
    change (weight (Value (move_event ev'))) with (weight (move_event ev')). rewrite weight_move. lia.
  - change (weight (Error e)) with 0%nat in *. lia.
Qed.
Lemma paid_OnTimer q ts : paid q (OnTimer ts).
Proof. unfold OnTimer. afford. Qed.
Lemma paid_SendApplication q m ts env : paid q (SendApplication m ts env).
Proof.
  unfold SendApplication. apply paid_bind; [light|intros []]. apply paid_bind; [light|intros st].
  destruct (negb _); [apply paid_fail|by apply paid_EncodeFrame].
Qed.
Lemma paid_SendEncodedApplication q m ts env x : paid q (SendEncodedApplication m ts env x).
Proof. unfold SendEncodedApplication. afford. Qed.
Lemma paid_OnTransportConnected q ts : paid q (OnTransportConnected ts).
Proof. unfold OnTransportConnected. afford. Qed.
End Handlers.

(** ** Sequences of calls *)

(** What the runtime calls on a session's protocol object. *)
Inductive AdminCall :=
  | CallConnected (ts : Z)
  | CallClosed
  | CallInbound (frame : list Z) (ts : Z)
  | CallTimer (ts : Z)
  | CallSend (m : MessageView) (ts : Z) (env : SessionSendEnvelopeView)
  | CallSendEncoded (m : EncodedApplicationMessageView) (ts : Z) (env : SessionSendEnvelopeView)
      (x : EncodedOutboundExtrasView)
  | CallBeginLogout (text : string) (ts : Z).

Section Calls.
Context {St : Type} `{SessionStore St} `{Codec}.

(** The frames a call hands to the transport. *)
Definition exec_call (c : AdminCall) : SE (Admin St) (list EncodedFrame) :=
  match c with
  | CallConnected ts => ev <- OnTransportConnected ts ;; ret (outbound_frames ev)
  | CallClosed => OnTransportClosed ;;; ret []
  | CallInbound frame ts => ev <- OnInboundSpan frame ts ;; ret (outbound_frames ev)
  | CallTimer ts => ev <- OnTimer ts ;; ret (outbound_frames ev)
  | CallSend m ts env => f <- SendApplication m ts env ;; ret [f]
  | CallSendEncoded m ts env x => f <- SendEncodedApplication m ts env x ;; ret [f]
  | CallBeginLogout text ts => f <- BeginLogout text ts ;; ret [f]
  end.

(** A call that fails hands over nothing; the next call goes on with the object
    as the failure left it. *)
Fixpoint run_calls (cs : list AdminCall) (a : Admin St) : Admin St * list EncodedFrame :=
  match cs with
  | [] => (a, [])
  | c :: cs =>
      let '(a1, r) := exec_call c a in
      let '(a2, fs) := run_calls cs a1 in
      (a2, match r with Value f => f | Error _ => [] end ++ fs)
  end.

(** The application messages among the frames: what it sends, and what is replayed
    from the store by the other calls. *)
Definition is_send (c : AdminCall) : bool := match c with CallSend _ _ _ | CallSendEncoded _ _ _ _ => true | _ => false end.

Fixpoint replayed (cs : list AdminCall) (a : Admin St) : list EncodedFrame :=
  match cs with
  | [] => []
  | c :: cs =>
      let '(a1, r) := exec_call c a in
      (if is_send c then [] else List.filter (fun f => negb (frame_admin f)) (match r with Value f => f | Error _ => [] end)) ++
      replayed cs a1
  end.

Definition closing (c : AdminCall) : nat := match c with CallClosed => 1%nat | _ => 0%nat end.

Lemma weight_one f : weight [f] = weight f.
Proof. unfold weight, weigh_frames, weigh_frame, frames_weight. cbn. lia. Qed.

Lemma exec_call_paid c : paid (St:=St) (closing c) (exec_call c).
Proof.
  assert (Hev : forall m : SE (Admin St) ProtocolEvent, paid 0 m -> paid 0 (ev <- m ;; ret (outbound_frames ev))).
  { intros m Hm. apply paid_bind; [done|intros ev]. by apply paid_ret. }
  assert (Hf : forall m : SE (Admin St) EncodedFrame, paid 0 m -> paid 0 (f <- m ;; ret [f])).
  { intros m Hm. apply paid_bind; [done|intros f]. apply paid_ret. rewrite weight_one. lia. }
  destruct c; cbn [exec_call closing].
  - apply Hev, paid_OnTransportConnected.
  - intros a. unfold bind. destruct (OnTransportClosed a) as [a' [[]|e]]; cbn; unfold budget; destruct (ap_logout_sent a'); lia.
  - apply Hev, paid_OnInboundSpan.
  - apply Hev, paid_OnTimer.
  - apply Hf, paid_SendApplication.
  - apply Hf, paid_SendEncodedApplication.
  - apply Hf, paid_BeginLogout.
Qed.

Lemma run_calls_paid cs : forall a : Admin St,
  (weight (snd (run_calls cs a)) + budget (fst (run_calls cs a)) <= budget a + sum_list (map closing cs))%nat.
Proof.
  induction cs as [|c cs IH]; intros a; cbn [run_calls map sum_list]; [cbn; lia|].
  pose proof (exec_call_paid c a) as Hc. destruct (exec_call c a) as [a1 r]. specialize (IH a1).
  destruct (run_calls cs a1) as [a2 fs]. cbn [fst snd] in *. rewrite weight_app.
  assert (weight r = weight (match r with Value f => f | Error _ => [] end)) as Hr by (by destruct r). rewrite Hr in Hc. cbn. lia.
Qed.
End Calls.

(** A Logout, whoever sent it. *)
Definition is_logout (f : EncodedFrame) : bool := string_eqb (frame_msg_type f) "5".
Definition is_close (c : AdminCall) : bool := match c with CallClosed => true | _ => false end.

(** The application does not send a Logout itself. *)
Definition sends_no_logout (c : AdminCall) : Prop :=
  match c with
  | CallSend m _ _ => string_eqb (msg_type m) "5" = false
  | CallSendEncoded m _ _ _ => string_eqb (text_of (em_msg_type m)) "5" = false
  | _ => True
  end.

Lemma closing_count cs : sum_list (map closing cs) = length (List.filter is_close cs).
Proof. induction cs as [|c cs IH]; [done|]. cbn. rewrite IH. by destruct c. Qed.

(** An application frame that is no Logout. *)
Definition plain_application (f : EncodedFrame) : Prop := frame_admin f = false -> is_logout f = false.

Lemma weight_count fs : Forall plain_application fs -> weight fs = length (List.filter is_logout fs).
Proof.
  unfold weight, weigh_frames, frames_weight. induction 1 as [|f fs Hf _ IH]; [done|]. cbn. rewrite IH.
  unfold plain_application, is_logout, frame_weight in *. destruct (frame_admin f); [by destruct (string_eqb _ _)|].
  by rewrite Hf.
Qed.

Section Labels.
Context {St : Type} `{SessionStore St} `{Codec}.

Lemma send_labels m ts env : vals (St:=St) (fun f => frame_msg_type f = msg_type m) (SendApplication m ts env).
Proof.
  unfold SendApplication. do 2 (apply vals_bind; intros ?). destruct (negb _); [apply vals_fail|].
  intros a a' f Hf. by apply EncodeFrame_labels in Hf as [Hf _].
Qed.
Lemma send_encoded_labels m ts env x :
  vals (St:=St) (fun f => frame_msg_type f = text_of (em_msg_type m)) (SendEncodedApplication m ts env x).
Proof.
  unfold SendEncodedApplication. do 2 (apply vals_bind; intros ?). destruct (negb _); [apply vals_fail|].
  unfold EncodeEncodedFrame, FinalizeEncodedFrame. cbv zeta. repeat (apply vals_bind; intros ?). by apply vals_ret.
Qed.

Lemma sent_plain c (a a' : Admin St) fs :
  is_send c = true -> sends_no_logout c -> exec_call c a = (a', Value fs) -> Forall plain_application fs.
Proof.
  intros Hs Hn E. destruct c; try done; cbn [exec_call sends_no_logout] in *.
  all: apply bind_value in E as (a1 & f & Hf & [= _ <-]); constructor; [intros _|constructor]; unfold is_logout.
  - by rewrite (send_labels m ts env _ _ _ Hf).
  - by rewrite (send_encoded_labels m ts env x _ _ _ Hf).
Qed.

Lemma run_plain cs : forall a : Admin St,
  Forall sends_no_logout cs -> Forall (fun f => is_logout f = false) (replayed cs a) -> Forall plain_application (snd (run_calls cs a)).
Proof.
  induction cs as [|c cs IH]; intros a Hc Hr; cbn [run_calls replayed] in *; [constructor|].
  apply Forall_cons in Hc as [Hc Hcs]. destruct (exec_call c a) as [a1 r] eqn:E. specialize (IH a1 Hcs).
  destruct (run_calls cs a1) as [a2 fs]. cbn [snd] in *. apply Forall_app in Hr as [Hr Hrs].
  apply Forall_app. split; [|by apply IH]. destruct r as [f|]; [|constructor]. destruct (is_send c) eqn:Es; [by eapply sent_plain|].
  rewrite Forall_forall in Hr |- *. intros x Hx Hadm. apply Hr. apply list_elem_of_In, filter_In. rewrite Hadm.
  split; [by apply list_elem_of_In|done].
Qed.
End Labels.

(** ** Properties *)

(** C12: at most one Logout per connection.  Over any sequence of transport
    events, inbound frames (with the drain of kept ones), timer ticks, application
    sends and logout requests, from any state, the number of frames of MsgType 5
    handed to the transport is at most one more than the number of closed
    connections in between; none at all before the first close when the connection
    has already sent its Logout.  All frames are counted; the conditions are that
    the application itself sends no message of MsgType 5 and that none of the
    stored application messages that are replayed to a ResendRequest has it. *)
Theorem one_logout_per_connection {St} `{SessionStore St} `{Codec} cs (a : Admin St) :
  Forall sends_no_logout cs -> Forall (fun f => is_logout f = false) (replayed cs a) ->
  (length (List.filter is_logout (snd (run_calls cs a)))
   <= (if ap_logout_sent a then 0 else 1) + length (List.filter is_close cs))%nat.
Proof.
  intros Hc Hr. rewrite <- weight_count, <- closing_count by (by apply run_plain).
  pose proof (run_calls_paid cs a). unfold budget in *. lia.
Qed.

(** The peer asks for a resend, the application sends and asks for a logout twice,
    the peer answers; the connection is closed and comes back. *)
Definition toy_logout_calls : list AdminCall :=
  [CallInbound [50; 5; 7; 1; 16; 0] 100; CallSend (MkMessageView "D" [] []) 101 no_envelope; CallBeginLogout "bye" 102;
   CallBeginLogout "bye" 103; CallInbound [53; 6] 104; CallClosed; CallConnected 105].

Lemma one_logout_per_connection_witness :
  (length (List.filter is_logout (snd (run_calls toy_logout_calls (toy_admin kActive)))) <= 2)%nat /\
  length (List.filter is_logout (snd (run_calls toy_logout_calls (toy_admin kActive)))) = 1%nat /\
  length (replayed toy_logout_calls (toy_admin kActive)) = 1%nat.
Proof.
  split; [|vm_compute; split; reflexivity].
  refine (one_logout_per_connection toy_logout_calls (toy_admin kActive) _ _).
  - repeat constructor.
  - vm_compute. repeat constructor.
Defined.
