(* ===== verification/Framing.v ===== *)
(** * Frames over a byte stream

    The receive and send paths of [TcpConnection] ([transport/tcp_transport.cpp]):
    cutting FIX frames out of the read buffer, compacting it, reading what the
    socket has, and writing one or several segments.  The socket is an explicit
    script: what has arrived and in which pieces, and how much each write takes. *)
From S2P Require Import Prelude Base StdAlgo IntFormat Scan FixTags Wire RawPassThrough.
Open Scope Z_scope.

Definition kDefaultReadBufferCapacity : Z := 4096.
Definition kMinimumFrameProbeBytes : nat := 12.
Definition kBodyLengthFieldPrefixSize : nat := 3.
Definition kChecksumFieldWireSize : Z := 7.
Definition kMaxReadBufferSize : Z := 1048576.

Definition size_of {A} (l : list A) : Z := Z.of_nat (length l).

(** ** Cutting one frame *)

(** [TryExtractFrame]: [Value 0] asks for more bytes. *)
Definition TryExtractFrame (has_sse2 : bool) (buffer : list Z) : Result nat :=
  if (length buffer <? kMinimumFrameProbeBytes)%nat then Value 0%nat
  else if negb (nth 0 buffer 0 =? nth 0 kBeginStringPrefix 0) || negb (nth 1 buffer 0 =? nth 1 kBeginStringPrefix 0)
  then Error (status.FormatError "FIX frame must begin with tag 8")
  else
    let first_delimiter := FindByte has_sse2 buffer 1 in
    if (length buffer <=? first_delimiter)%nat then Value 0%nat
    else if (length buffer <=? first_delimiter + kBodyLengthFieldPrefixSize)%nat then Value 0%nat
    else if negb (nth (first_delimiter + 1) buffer 0 =? nth 0 kBodyLengthPrefix 0) ||
            negb (nth (first_delimiter + 2) buffer 0 =? nth 1 kBodyLengthPrefix 0)
    then Error (status.FormatError "FIX frame must place BodyLength immediately after BeginString")
    else
      let scan_start := (first_delimiter + kBodyLengthFieldPrefixSize)%nat in
      let second_delimiter := (scan_start + FindByte has_sse2 (drop scan_start buffer) 1)%nat in
      if (length buffer <=? second_delimiter)%nat then Value 0%nat
      else
        let digits := take (second_delimiter - scan_start) (drop scan_start buffer) in
        match from_chars_u32 digits with
        | None => Error (status.FormatError "invalid BodyLength field in frame header")
        | Some (body_length, consumed) =>
            if negb (consumed =? length digits)%nat
            then Error (status.FormatError "invalid BodyLength field in frame header")
            else
              let total_size := Z.of_nat (second_delimiter + 1) + body_length + kChecksumFieldWireSize in
              if size_of buffer <? total_size then Value 0%nat else Value (Z.to_nat total_size)
        end.

(** ** The connection *)

(** What the kernel holds for the reader, in order. *)
Inductive SocketEvent :=
  | Arrived (b : list Z)
  | NothingYet
  | PeerClosed
  | RecvFailed (text : string).

Inductive RecvResult :=
  | RecvBytes (b : list Z)
  | RecvAgain
  | RecvErrno (text : string).

(** [recv]: at most [n] bytes of what has arrived; zero bytes at the end of the
    stream. *)
Definition recv (n : Z) (net : list SocketEvent) : RecvResult * list SocketEvent :=
  match net with
  | [] => (RecvAgain, [])
  | NothingYet :: net => (RecvAgain, net)
  | Arrived b :: rest =>
      if size_of b <=? n then (RecvBytes b, rest)
      else (RecvBytes (take (Z.to_nat n) b), Arrived (drop (Z.to_nat n) b) :: rest)
  | PeerClosed :: _ => (RecvBytes [], net)
  | RecvFailed text :: net => (RecvErrno text, net)
  end.

(** [capacity] is what [std::vector::capacity] reports for the read buffer. *)
Record TcpConnection := MkTcp {
  fd_ : Z;
  read_buffer_ : list Z;
  capacity : Z;
  read_cursor_ : nat;
  net : list SocketEvent;
}.

Definition new_connection (fd : Z) (net : list SocketEvent) : TcpConnection := MkTcp fd [] 0 0 net.

Definition unconsumed (c : TcpConnection) : list Z := drop (read_cursor_ c) (read_buffer_ c).
Arguments unconsumed : simpl never.

Definition Close (c : TcpConnection) : TcpConnection := MkTcp (-1) [] (capacity c) 0 (net c).

Definition CompactConsumedReadBuffer (c : TcpConnection) : TcpConnection :=
  let '(MkTcp fd buf cap cur net) := c in
  if (cur =? 0)%nat then c
  else if (length buf <=? cur)%nat then MkTcp fd [] cap 0 net
  else if Z.of_nat cur >? cap / 2 then MkTcp fd (drop cur buf) cap 0 net
  else c.

Section Receive.
(** The build's vector instructions, and how a vector grows: the capacity it
    takes when the present one does not hold the given size. *)
Context (has_sse2 : bool) (grow : Z -> Z -> Z).

Definition resize_capacity (cap n : Z) : Z := if n <=? cap then cap else grow cap n.

Definition TryExtractBufferedFrameView : SE TcpConnection (option (list Z)) :=
  modify CompactConsumedReadBuffer ;;;
  c <- get ;;
  match TryExtractFrame has_sse2 (unconsumed c) with
  | Error e => if decide (code e = kFormatError) then fail e else ret None
  | Value consumed =>
      if (0 <? consumed)%nat then
        modify (fun c => MkTcp (fd_ c) (read_buffer_ c) (capacity c) (read_cursor_ c + consumed) (net c)) ;;;
        ret (Some (take consumed (unconsumed c)))
      else ret None
  end.

Definition ReadAvailableBytes : SE TcpConnection bool :=
  modify CompactConsumedReadBuffer ;;;
  c <- get ;;
  let '(MkTcp fd buf cap cur net) := c in
  if size_of buf >=? kMaxReadBufferSize then
    modify Close ;;;
    fail (status.IoError "TCP read buffer exceeded maximum size limit")
  else
    let writable_size := Z.min kDefaultReadBufferCapacity (kMaxReadBufferSize - size_of buf) in
    let cap := resize_capacity cap (size_of buf + writable_size) in
    let '(r, net) := recv writable_size net in
    match r with
    | RecvAgain => modify (fun _ => MkTcp fd buf cap cur net) ;;; ret false
    | RecvErrno text =>
        modify (fun _ => MkTcp fd buf cap cur net) ;;; fail (status.IoError ("recv failed: " +:+ text))
    | RecvBytes [] =>
        modify (fun _ => MkTcp fd buf cap cur net) ;;; fail (status.IoError "peer closed the socket")
    | RecvBytes b => modify (fun _ => MkTcp fd (buf ++ b) cap cur net) ;;; ret true
    end.

(** The loop of [TryReceiveFrameView]. *)
Fixpoint receive_loop (fuel : nat) : SE TcpConnection (option (list Z)) :=
  match fuel with
  | O => fail diverges
  | S fuel =>
      frame <- TryExtractBufferedFrameView ;;
      match frame with
      | Some f => ret (Some f)
      | None =>
          read <- ReadAvailableBytes ;;
          if (read : bool) then receive_loop fuel else ret None
      end
  end.

(** Every round that continues took a byte off the socket. *)
Definition arrived_bytes (net : list SocketEvent) : list Z :=
  concat (map (fun e => match e with Arrived b => b | _ => [] end) net).
#[global] Arguments arrived_bytes : simpl never.

Definition TryReceiveFrameView : SE TcpConnection (option (list Z)) :=
  c <- get ;; receive_loop (S (length (arrived_bytes (net c)))).

(** One wait of [ReceiveFrameView]: the clock, then [EpollWaitFd]. *)
Inductive WaitOutcome := Expired | PollTimeout | PollFailed | Ready.

Fixpoint ReceiveFrameView (waits : list WaitOutcome) : SE TcpConnection (list Z) :=
  frame <- TryExtractBufferedFrameView ;;
  match frame with
  | Some f => ret f
  | None =>
      match waits with
      | [] | Expired :: _ => fail (status.IoError "timed out while waiting for a FIX frame")
      | PollTimeout :: _ => fail (status.IoError "socket operation timed out")
      | PollFailed :: _ => fail (status.IoError "socket closed or errored while polling")
      | Ready :: waits => ReadAvailableBytes ;;; ReceiveFrameView waits
      end
  end.

(** The application's receive loop, [n] calls. *)
Fixpoint receive_calls (n : nat) (c : TcpConnection) : TcpConnection * list (Result (option (list Z))) :=
  match n with
  | O => (c, [])
  | S n => let '(c, r) := TryReceiveFrameView c in let '(c, rs) := receive_calls n c in (c, r :: rs)
  end.
End Receive.

(** ** Sending *)

(** One round of a send loop: the poll and, when ready, what the write took. *)
Inductive WriteEvent :=
  | WaitTimedOut
  | WaitFailed
  | WroteAgain
  | WriteFailed (text : string)
  | Wrote (n : nat).

Definition kTimedOut : Status := status.IoError "socket operation timed out".

(** [Send]: [sent] bytes are out; the bytes on the wire are returned with the
    status. *)
Fixpoint Send (events : list WriteEvent) (bytes : list Z) (sent : nat) (wire : list Z) : list Z * Status :=
  if (sent <? length bytes)%nat then
    match events with
    | [] | WaitTimedOut :: _ => (wire, kTimedOut)
    | WaitFailed :: _ => (wire, status.IoError "socket closed or errored while polling")
    | WroteAgain :: events => Send events bytes sent wire
    | WriteFailed text :: _ => (wire, status.IoError ("send failed: " +:+ text))
    | Wrote n :: events =>
        let rc := Nat.min n (length bytes - sent) in
        if (rc =? 0)%nat then (wire, status.IoError "peer closed the socket during send")
        else Send events bytes (sent + rc) (wire ++ take rc (drop sent bytes))
    end
  else (wire, status.Ok).

(** The inner loop of [SendGather]: skip the segments that are completely out. *)
Fixpoint advance_iov (segments : list (list Z)) (current_iov remaining : nat) : nat * nat :=
  match segments with
  | [] => (current_iov, remaining)
  | s :: segments =>
      if (length s <=? remaining)%nat then advance_iov segments (S current_iov) (remaining - length s)
      else (current_iov, remaining)
  end.

Fixpoint gather_loop (events : list WriteEvent) (iov : list (list Z)) (current_iov sent total_bytes : nat)
    (wire : list Z) : list Z * Status :=
  if (sent <? total_bytes)%nat then
    match events with
    | [] | WaitTimedOut :: _ => (wire, kTimedOut)
    | WaitFailed :: _ => (wire, status.IoError "socket closed or errored while polling")
    | WroteAgain :: events => gather_loop events iov current_iov sent total_bytes wire
    | WriteFailed text :: _ => (wire, status.IoError ("writev failed: " +:+ text))
    | Wrote n :: events =>
        let pending := concat (drop current_iov iov) in
        let rc := Nat.min n (length pending) in
        if (rc =? 0)%nat then (wire, status.IoError "peer closed the socket during send")
        else
          let '(current_iov', remaining) := advance_iov (drop current_iov iov) current_iov rc in
          let iov' :=
            if (0 <? remaining)%nat && (current_iov' <? length iov)%nat
            then <[current_iov' := drop remaining (nth current_iov' iov [])]> iov else iov in
          gather_loop events iov' current_iov' (sent + rc) total_bytes (wire ++ take rc pending)
    end
  else (wire, status.Ok).

Definition SendGather (events : list WriteEvent) (segments : list (list Z)) (wire : list Z) : list Z * Status :=
  match segments with
  | [] => (wire, status.Ok)
  | [s] => Send events s 0 wire
  | _ => gather_loop events segments 0 0 (length (concat segments)) wire
  end.

(** ** Lemmas: one frame *)

Lemma prefix_app_cases {A} (b l x : list A) :
  b `prefix_of` l ++ x -> b `prefix_of` l \/ exists b', b = l ++ b' /\ b' `prefix_of` x.
Proof.
  revert b. induction l as [|y l IH]; intros b Hb; cbn in *; [right; by exists b|].
  destruct b as [|z b]; [left; apply prefix_nil|].
  apply prefix_cons_inv_1 in Hb as Hz. apply prefix_cons_inv_2 in Hb. subst z.
  destruct (IH b Hb) as [H|(b' & -> & H)]; [left; by apply prefix_cons|right; by exists b'].
Qed.

Lemma prefix_cons_cases {A} (b : list A) y x :
  b `prefix_of` y :: x -> b = [] \/ exists b', b = y :: b' /\ b' `prefix_of` x.
Proof.
  destruct b as [|z b]; intros Hb; [by left|]. right. exists b.
  apply prefix_cons_inv_1 in Hb as Hz. apply prefix_cons_inv_2 in Hb. by subst.
Qed.

Lemma scalar_loop_none x l : x ∉ l -> scalar_loop (fun b => b =? x) l = length l.
Proof.
  induction l as [|b l IH]; intros Hx; cbn; [done|].
  destruct (Z.eqb_spec b x) as [->|]; [destruct Hx; left|]. rewrite IH; [done|]. intros Hin. apply Hx. by right.
Qed.

Lemma prefix_not_elem (x : Z) b l : b `prefix_of` l -> x ∉ l -> x ∉ b.
Proof. intros [k ->] Hx Hin. apply Hx. apply elem_of_app. by left. Qed.

(** A frame as the encoders write it. *)
Definition wire_frame (f : list Z) : Prop :=
  exists bs content, f = make_frame bs content kFixSoh /\ kFixSoh ∉ bs /\ in_u32 (size_of content).

Lemma wire_frame_shape f : wire_frame f -> exists bs ds rest n,
  f = 56 :: 61 :: bs ++ 1 :: 57 :: 61 :: ds ++ 1 :: rest /\ 1 ∉ bs /\ 1 ∉ ds /\
  from_chars_u32 ds = Some (n, length ds) /\ size_of rest = n + kChecksumFieldWireSize /\ 0 <= n.
Proof.
  intros (bs & content & -> & Hbs & Hc).
  exists bs, (FormatUint32 (Z.of_nat (length content))),
    (content ++ kCheckSumPrefix ++ checksum_digits (sum_scalar (frame_prefix bs content kFixSoh) 0 mod 256) ++ [kFixSoh]),
    (size_of content).
  split; [|split; [done|split; [|split; [by apply from_chars_format|]]]].
  - unfold make_frame, frame_prefix at 1, field_bytes.
    replace (FormatUint32 tags.kBeginString) with [56] by reflexivity.
    replace (FormatUint32 tags.kBodyLength) with [57] by reflexivity.
    cbn [app]. unfold kFixSoh. rewrite <- !app_assoc. cbn [app]. rewrite <- !app_assoc. cbn [app]. by rewrite <- ?app_assoc.
  - apply digits_not_elem; [by apply format_digits|]. unfold is_digit. lia.
  - unfold size_of, kChecksumFieldWireSize. rewrite length_app. cbn. lia.
Qed.

(** The scan for the end of BodyLength, [before] bytes into the frame. *)
Definition length_stage (before : nat) (b : list Z) : Result nat :=
  let d := scalar_loop (fun c => c =? 1) b in
  if (length b <=? d)%nat then Value 0%nat
  else match from_chars_u32 (take d b) with
       | None => Error (status.FormatError "invalid BodyLength field in frame header")
       | Some (body_length, consumed) =>
           if negb (consumed =? length (take d b))%nat
           then Error (status.FormatError "invalid BodyLength field in frame header")
           else
             let total := Z.of_nat (before + d + 1) + body_length + kChecksumFieldWireSize in
             if Z.of_nat (before + length b) <? total then Value 0%nat else Value (Z.to_nat total)
       end.

Lemma extract_header sse bs b :
  1 ∉ bs -> (9 <= length bs + length b)%nat ->
  TryExtractFrame sse (56 :: 61 :: bs ++ 1 :: b) =
  match b with
  | t :: e :: b => if (length b =? 0)%nat then Value 0%nat
              else if negb (t =? 57) || negb (e =? 61)
              then Error (status.FormatError "FIX frame must place BodyLength immediately after BeginString")
              else length_stage (5 + length bs) b
  | _ => Value 0%nat
  end.
Proof.
  intros Hbs Hl. unfold TryExtractFrame. rewrite !FindByte_scalar.
  change (56 :: 61 :: bs ++ 1 :: b) with ((56 :: 61 :: bs) ++ 1 :: b).
  rewrite scalar_loop_absent by (by rewrite !not_elem_of_cons). set (p := 56 :: 61 :: bs).
  assert (Hp : length p = (2 + length bs)%nat) by done.
  assert (Hlen : length (p ++ 1 :: b) = (3 + length bs + length b)%nat) by (rewrite length_app, Hp; cbn; lia).
  rewrite Hlen. unfold kMinimumFrameProbeBytes, kBodyLengthFieldPrefixSize.
  destruct (Nat.ltb_spec (3 + length bs + length b) 12); [lia|].
  change (nth 0 (p ++ 1 :: b) 0) with 56. change (nth 1 (p ++ 1 :: b) 0) with 61.
  cbn [nth kBeginStringPrefix Z.eqb Pos.eqb negb orb].
  destruct (Nat.leb_spec (3 + length bs + length b) (length p)); [lia|].
  destruct b as [|t [|e b]]; cbn [length] in *; [rewrite (proj2 (Nat.leb_le _ _)) by lia; done..|].
  destruct (Nat.leb_spec (3 + length bs + S (S (length b))) (length p + 3)).
  { destruct (Nat.eqb_spec (length b) 0); [done|lia]. }
  destruct (Nat.eqb_spec (length b) 0); [lia|].
  rewrite !app_nth2 by lia. replace (length p + 1 - length p)%nat with 1%nat by lia.
  replace (length p + 2 - length p)%nat with 2%nat by lia. cbn [nth kBodyLengthPrefix].
  destruct (_ || _); [done|].
  replace (drop (length p + 3) (p ++ 1 :: t :: e :: b)) with b
    by (rewrite drop_app_ge by lia; by replace (length p + 3 - length p)%nat with 3%nat by lia).
  unfold length_stage. set (d := scalar_loop _ b). unfold size_of. rewrite Hlen, Hp.
  replace (2 + length bs + 3 + d - (2 + length bs + 3))%nat with d by lia.
  replace (3 + length bs + S (S (length b)) <=? 2 + length bs + 3 + d)%nat with (length b <=? d)%nat
    by (destruct (Nat.leb_spec (length b) d), (Nat.leb_spec (3 + length bs + S (S (length b))) (2 + length bs + 3 + d)); lia || done).
  destruct (_ <=? _)%nat; [done|]. destruct (from_chars_u32 _) as [[m k]|]; [|done]. destruct (negb _); [done|].
  replace (3 + length bs + S (S (length b)))%nat with (5 + length bs + length b)%nat by lia.
  by replace (2 + length bs + 3 + d + 1)%nat with (5 + length bs + d + 1)%nat by lia.
Qed.

(** On any piece of the stream that starts with the frame: ask for more while it
    is incomplete, then cut exactly the frame. *)
Lemma TryExtractFrame_prefix sse f rest buf :
  wire_frame f -> buf `prefix_of` f ++ rest ->
  TryExtractFrame sse buf = Value (if (length f <=? length buf)%nat then length f else 0%nat).
Proof.
  intros Hf Hb. destruct (wire_frame_shape f Hf) as (bs & ds & tl & n & -> & Hbs & Hds & Hn & Htl & Hn0).
  unfold size_of, kChecksumFieldWireSize in Htl. set (L := length (56 :: _)).
  assert (HL : L = (6 + length bs + length ds + length tl)%nat)
    by (unfold L; cbn; rewrite ?length_app; cbn; rewrite ?length_app; cbn; lia).
  clearbody L. cbn [app] in Hb. rewrite <- app_assoc in Hb. cbn [app] in Hb. rewrite <- app_assoc in Hb. cbn [app] in Hb.
  destruct (Nat.ltb_spec (length buf) 12) as [Hlt|Hge].
  { unfold TryExtractFrame, kMinimumFrameProbeBytes. rewrite (proj2 (Nat.ltb_lt _ _)) by done.
    destruct (Nat.leb_spec L (length buf)); [|done]. destruct ds; [discriminate|cbn in *; lia]. }
  apply prefix_cons_cases in Hb as [->|(b0 & -> & Hb)]; [cbn in Hge; lia|].
  apply prefix_cons_cases in Hb as [->|(b1 & -> & Hb)]; [cbn in Hge; lia|].
  assert (Hno : forall b, b `prefix_of` bs -> (12 <= S (S (length b)))%nat -> TryExtractFrame sse (56 :: 61 :: b) = Value 0%nat).
  { intros b Hpre Hlen. unfold TryExtractFrame, kMinimumFrameProbeBytes. destruct (Nat.ltb_spec (length (56%Z :: 61%Z :: b)) 12); [cbn in *; lia|].
    cbn [nth kBeginStringPrefix Z.eqb Pos.eqb negb orb]. rewrite FindByte_scalar, scalar_loop_none; [by rewrite Nat.leb_refl|].
    rewrite !not_elem_of_cons. repeat split; [done..|]. by eapply prefix_not_elem. }
  apply prefix_app_cases in Hb as [Hb|(b2 & -> & Hb)].
  { rewrite Hno by done. apply prefix_length in Hb. cbn. destruct (Nat.leb_spec L (S (S (length b1)))); [lia|done]. }
  apply prefix_cons_cases in Hb as [->|(b3 & -> & Hb)].
  { rewrite app_nil_r in *. rewrite Hno by done. cbn. destruct (Nat.leb_spec L (S (S (length bs)))); [lia|done]. }
  assert (Hlen : length (56 :: 61 :: bs ++ 1 :: b3) = (3 + length bs + length b3)%nat) by (cbn; rewrite length_app; cbn; lia).
  rewrite Hlen in *. rewrite extract_header by (done || lia).
  apply prefix_cons_cases in Hb as [->|(b4 & -> & Hb)]; [cbn [length]; destruct (Nat.leb_spec L (3 + length bs + 0)); [lia|done]|].
  apply prefix_cons_cases in Hb as [->|(b5 & -> & Hb)]; [cbn [length]; destruct (Nat.leb_spec L (3 + length bs + 1)); [lia|done]|].
  cbn [length Z.eqb Pos.eqb negb orb] in *. destruct (Nat.eqb_spec (length b5) 0) as [E0|_].
  { destruct (Nat.leb_spec L (3 + length bs + S (S (length b5)))); [lia|done]. }
  unfold length_stage. apply prefix_app_cases in Hb as [Hb|(b6 & -> & Hb)].
  { rewrite scalar_loop_none by (by eapply prefix_not_elem). apply prefix_length in Hb. rewrite Nat.leb_refl.
    destruct (Nat.leb_spec L (3 + length bs + S (S (length b5)))); [lia|done]. }
  apply prefix_cons_cases in Hb as [->|(b7 & -> & Hb)].
  { rewrite app_nil_r, scalar_loop_none by done. rewrite Nat.leb_refl.
    destruct (Nat.leb_spec L (3 + length bs + S (S (length ds)))); [lia|done]. }
  rewrite scalar_loop_absent by done. rewrite take_app_length, Hn, Nat.eqb_refl, length_app. cbn [negb length].
  destruct (Nat.leb_spec (length ds + S (length b7)) (length ds)); [lia|]. unfold kChecksumFieldWireSize.
  destruct (Z.ltb_spec (Z.of_nat (5 + length bs + (length ds + S (length b7)))) (Z.of_nat (5 + length bs + length ds + 1) + n + 7));
    destruct (Nat.leb_spec L (3 + length bs + S (S (length ds + S (length b7))))); try lia; try done.
  f_equal. lia.
Qed.

(** ** Lemmas: receiving *)

(** A socket on which only bytes arrive, in non-empty pieces. *)
Definition healthy (net : list SocketEvent) : Prop :=
  Forall (fun e => match e with Arrived b => b <> [] | NothingYet => True | _ => False end) net.

Fixpoint pauses (net : list SocketEvent) : nat :=
  match net with
  | [] => 0
  | NothingYet :: net => S (pauses net)
  | _ :: net => pauses net
  end.

(** A vector that has to grow takes at least what it needs and, beyond that, at
    most doubles. *)
Definition grows_geometrically (grow : Z -> Z -> Z) : Prop :=
  forall cap n, 0 <= cap < n -> n <= grow cap n <= Z.max n (2 * cap).

Section ReceiveLemmas.
Context (has_sse2 : bool) (grow : Z -> Z -> Z) (max_frame : Z).
Context (Hgrow : grows_geometrically grow).
Context (Hmax : 0 <= max_frame /\ 4 * (max_frame + kDefaultReadBufferCapacity) <= kMaxReadBufferSize).

Definition frame_fits (f : list Z) : Prop := wire_frame f /\ size_of f <= max_frame.

(** What is still to be delivered is in the buffer and on the socket, and the
    buffer stays within four times the longest frame and read. *)
Record receiving (fs : list (list Z)) (c : TcpConnection) : Prop := {
  rcv_frames : Forall frame_fits fs;
  rcv_stream : unconsumed c ++ arrived_bytes (net c) = concat fs;
  rcv_healthy : healthy (net c);
  rcv_cursor : (read_cursor_ c <= length (read_buffer_ c))%nat;
  rcv_capacity : size_of (read_buffer_ c) <= capacity c <= 4 * (max_frame + kDefaultReadBufferCapacity);
}.

Lemma compact_unconsumed c : (read_cursor_ c <= length (read_buffer_ c))%nat ->
  unconsumed (CompactConsumedReadBuffer c) = unconsumed c.
Proof.
  destruct c as [fd buf cap cur net]. unfold unconsumed. cbn. intros Hc.
  destruct (Nat.eqb_spec cur 0); [done|]. destruct (Nat.leb_spec (length buf) cur); cbn; [by rewrite drop_ge|].
  destruct (_ >? _); cbn; by rewrite ?drop_0.
Qed.

Lemma compact_receiving fs c : receiving fs c ->
  receiving fs (CompactConsumedReadBuffer c) /\
  Z.of_nat (read_cursor_ (CompactConsumedReadBuffer c)) <= capacity c / 2.
Proof.
  intros [H1 H2 H3 H4 H5]. pose proof (compact_unconsumed c H4) as Hu.
  destruct c as [fd buf cap cur net]. cbn in *.
  assert (0 <= cap / 2) by (apply Z.div_pos; unfold size_of in *; lia).
  destruct (Nat.eqb_spec cur 0); cbn in *; [split; [by constructor|lia]|].
  destruct (Nat.leb_spec (length buf) cur); cbn in *.
  { split; [constructor; cbn; try done; [by rewrite Hu|unfold size_of in *; cbn; lia]|lia]. }
  destruct (Z.of_nat cur >? cap / 2) eqn:E; bool_to_prop; cbn in *; (split; [constructor; cbn; try done; try (by rewrite Hu)|lia]).
  - lia.
  - unfold size_of in *. rewrite length_drop. lia.
Qed.

(** The first frame, whole or not, is what the buffer starts with. *)
Lemma extract_receiving fs c : receiving fs c ->
  let c1 := CompactConsumedReadBuffer c in
  match fs with
  | f :: fs' =>
      if (length f <=? length (unconsumed c))%nat
      then exists c', TryExtractBufferedFrameView has_sse2 c = (c', Value (Some f)) /\ receiving fs' c' /\ net c' = net c
      else TryExtractBufferedFrameView has_sse2 c = (c1, Value None)
  | [] => TryExtractBufferedFrameView has_sse2 c = (c1, Value None) /\ unconsumed c = []
  end.
Proof.
  intros Hr c1. destruct (compact_receiving fs c Hr) as [Hr1 _]. fold c1 in Hr1.
  pose proof (compact_unconsumed c (rcv_cursor _ _ Hr)) as Hu. fold c1 in Hu.
  assert (Hnet : net c1 = net c) by (unfold c1; destruct c; cbn; by repeat case_match).
  unfold TryExtractBufferedFrameView, bind, modify, get. fold c1. rewrite Hu.
  destruct Hr as [H1 H2 H3 H4 H5]. destruct fs as [|f fs'].
  { apply app_eq_nil in H2 as [H2 _]. rewrite H2. done. }
  apply Forall_cons in H1 as [[Hf Hfl] Hfs]. cbn in H2.
  rewrite (TryExtractFrame_prefix has_sse2 f (concat fs')) by (done || by exists (arrived_bytes (net c))).
  destruct (Nat.leb_spec (length f) (length (unconsumed c))) as [Hle|]; [|done].
  destruct (wire_frame_shape f Hf) as (? & ? & ? & ? & Hshape & _).
  assert (0 < length f)%nat by (rewrite Hshape; cbn; lia). destruct (Nat.ltb_spec 0 (length f)); [|lia].
  assert (Htake : take (length f) (unconsumed c) = f).
  { rewrite <- (take_app_le (unconsumed c) (arrived_bytes (net c))) by done. by rewrite H2, take_app_length. }
  eexists. split; [rewrite Htake; reflexivity|split; [constructor; cbn|exact Hnet]].
  - done.
  - unfold unconsumed. cbn. rewrite <- drop_drop. fold (unconsumed c1). rewrite Hu, Hnet.
    rewrite <- (drop_app_le (unconsumed c) (arrived_bytes (net c))) by done. by rewrite H2, drop_app_length.
  - by rewrite Hnet.
  - destruct Hr1 as [_ _ _ Hc _]. unfold unconsumed in Hu, Hle. rewrite <- Hu, length_drop in Hle. lia.
  - by destruct Hr1.
Qed.

Lemma recv_healthy n net : 0 < n -> healthy net ->
  match recv n net with
  | (RecvBytes b, net') => b <> [] /\ size_of b <= n /\ healthy net' /\ arrived_bytes net = b ++ arrived_bytes net' /\ pauses net' = pauses net
  | (RecvAgain, net') => healthy net' /\ arrived_bytes net' = arrived_bytes net /\ (net' = [] \/ (pauses net' < pauses net)%nat)
  | (RecvErrno _, _) => False
  end.
Proof.
  intros Hn Hh. destruct net as [|[b| | |t] net]; cbn; [by auto| | |by inversion Hh..].
  - apply Forall_cons in Hh as [Hb Hh]. unfold size_of. destruct (Z.leb_spec (Z.of_nat (length b)) n) as [|Hlt]; [done|].
    assert (Z.to_nat n < length b)%nat by lia. split_and!.
    + intros E. apply (f_equal length) in E. rewrite length_take in E. cbn in E. lia.
    + rewrite length_take. lia.
    + constructor; [|done]. intros E. apply (f_equal length) in E. rewrite length_drop in E. cbn in E. lia.
    + unfold arrived_bytes. cbn. by rewrite app_assoc, take_drop.
    + done.
  - apply Forall_cons in Hh as [_ Hh]. split_and!; [done|done|right; lia].
Qed.

(** Reading after an incomplete frame never runs into the buffer's limit. *)
Lemma read_receiving fs c : receiving fs c -> size_of (unconsumed c) <= max_frame ->
  exists c' more, ReadAvailableBytes grow c = (c', Value more) /\ receiving fs c' /\
    if (more : bool) then (length (arrived_bytes (net c')) < length (arrived_bytes (net c)))%nat /\ pauses (net c') = pauses (net c)
    else arrived_bytes (net c') = arrived_bytes (net c) /\ (net c' = [] \/ (pauses (net c') < pauses (net c))%nat).
Proof.
  intros Hr Hshort. pose proof (compact_unconsumed c (rcv_cursor _ _ Hr)) as Hu.
  destruct (compact_receiving fs c Hr) as [[H1 H2 H3 H4 H5] Hcur].
  assert (Hcap : capacity (CompactConsumedReadBuffer c) = capacity c /\ net (CompactConsumedReadBuffer c) = net c)
    by (destruct c; cbn; by repeat case_match).
  unfold ReadAvailableBytes, bind, modify, get. rewrite <- Hu in Hshort. destruct Hcap as [Hcap Hnet]. rewrite <- Hnet, <- Hcap in *.
  destruct (CompactConsumedReadBuffer c) as [fd buf cap cur nt]. cbn in *.
  unfold unconsumed, size_of in *. cbn in *. rewrite length_drop in Hshort.
  destruct Hmax as [Hm0 Hm]. unfold kDefaultReadBufferCapacity, kMaxReadBufferSize in *.
  assert (Hhalf : 2 * (cap / 2) <= cap) by (apply Z.mul_div_le; lia).
  set (size := Z.of_nat (length buf)) in *. destruct (size >=? 1048576) eqn:E; [bool_to_prop; lia|].
  set (w := Z.min 4096 (1048576 - size)). assert (Hw : 0 < w <= 4096) by (bool_to_prop; lia).
  assert (Hcap' : size + w <= resize_capacity grow cap (size + w) <= 4 * (max_frame + 4096)).
  { unfold resize_capacity. destruct (Z.leb_spec (size + w) cap); [lia|].
    pose proof (Hgrow cap (size + w) ltac:(lia)). lia. }
  pose proof (recv_healthy w nt ltac:(lia) H3) as Hrecv.
  destruct (recv w nt) as [[b| |t] net'] eqn:Er; [| |done].
  - destruct Hrecv as (Hb & Hbw & Hh & Harr & Hp). destruct b as [|x b]; [done|].
    eexists _, true. split; [reflexivity|]. cbn [net read_buffer_ read_cursor_ capacity].
    split; [constructor; cbn; try done|split; [rewrite Harr, length_app; cbn; lia|done]].
    + unfold unconsumed. cbn. rewrite drop_app_le by lia. rewrite <- app_assoc. by rewrite <- Harr.
    + rewrite length_app. lia.
    + unfold size_of, kDefaultReadBufferCapacity in *. rewrite length_app, Nat2Z.inj_add. fold size. lia.
  - destruct Hrecv as (Hh & Harr & Hp). eexists _, false. split; [reflexivity|]. cbn [net read_buffer_ read_cursor_ capacity].
    split; [constructor; cbn; try done|done].
    + unfold unconsumed. cbn. by rewrite Harr.
    + unfold size_of, kDefaultReadBufferCapacity. fold size. lia.
Qed.

(** One call: the next frame, or nothing because the socket paused. *)
Lemma receive_loop_step fuel : forall fs c, receiving fs c -> (length (arrived_bytes (net c)) < fuel)%nat ->
  exists c' r, receive_loop has_sse2 grow fuel c = (c', Value r) /\
    match r with
    | Some f => exists fs', fs = f :: fs' /\ receiving fs' c' /\ pauses (net c') = pauses (net c)
    | None => receiving fs c' /\ (fs = [] \/ (pauses (net c') < pauses (net c))%nat)
    end.
Proof.
  induction fuel as [|fuel IH]; intros fs c Hr Hf; [lia|].
  pose proof (extract_receiving fs c Hr) as Hx. cbn zeta in Hx. cbn [receive_loop]. unfold bind at 1.
  assert (Hgo : size_of (unconsumed c) <= max_frame ->
    TryExtractBufferedFrameView has_sse2 c = (CompactConsumedReadBuffer c, Value None) ->
    (arrived_bytes (net c) = [] -> fs = []) ->
    exists c' r, (read <- ReadAvailableBytes grow ;; if read : bool then receive_loop has_sse2 grow fuel else ret None)
                   (CompactConsumedReadBuffer c) = (c', Value r) /\
    match r with
    | Some f => exists fs', fs = f :: fs' /\ receiving fs' c' /\ pauses (net c') = pauses (net c)
    | None => receiving fs c' /\ (fs = [] \/ (pauses (net c') < pauses (net c))%nat)
    end).
  { intros Hs _ He. destruct (compact_receiving fs c Hr) as [Hr1 _].
    assert (Hnet : net (CompactConsumedReadBuffer c) = net c) by (destruct c; cbn; by repeat case_match).
    destruct (read_receiving fs _ Hr1) as (c2 & more & Hread & Hr2 & Hm); [by rewrite compact_unconsumed by apply Hr|].
    rewrite Hnet in Hm. unfold bind. rewrite Hread. destruct more.
    - destruct Hm as [Hlt Hp]. destruct (IH fs c2 Hr2 ltac:(lia)) as (c' & r & -> & Hres). exists c', r. split; [done|].
      by rewrite <- Hp.
    - destruct Hm as [Harr Hp]. exists c2, None. split; [done|]. split; [done|]. destruct Hp as [Hn|Hp]; [|by right].
      left. apply He. rewrite <- Harr, Hn. done. }
  destruct Hmax as [Hm0 _]. destruct fs as [|f fs'].
  - destruct Hx as [Hx Hu]. rewrite Hx. apply Hgo; [rewrite Hu; unfold size_of; cbn; lia|done|done].
  - destruct (Nat.leb_spec (length f) (length (unconsumed c))) as [Hle|Hlt].
    + destruct Hx as (c' & -> & Hr' & Hn). exists c', (Some f). split; [done|]. exists fs'. rewrite Hn. done.
    + rewrite Hx. destruct Hr as [[[_ Hfl] _]%Forall_cons H2 _ _ _]. apply Hgo; [unfold size_of in *; lia|done|].
      intros E. rewrite E, app_nil_r in H2. rewrite H2 in Hlt. cbn in Hlt. rewrite length_app in Hlt. lia.
Qed.

Lemma receive_calls_deliver n : forall fs c, receiving fs c ->
  exists c' rs, receive_calls has_sse2 grow n c = (c', map Value rs) /\ omap id rs `prefix_of` fs /\
    ((length fs + pauses (net c) <= n)%nat -> omap id rs = fs).
Proof.
  induction n as [|n IH]; intros fs c Hr; cbn [receive_calls].
  { exists c, []. split; [done|]. split; [apply prefix_nil|]. intros Hn. destruct fs; [done|cbn in Hn; lia]. }
  destruct (receive_loop_step (S (length (arrived_bytes (net c)))) fs c Hr ltac:(lia)) as (c1 & r & Hstep & Hres).
  assert (TryReceiveFrameView has_sse2 grow c = (c1, Value r)) as -> by exact Hstep.
  destruct r as [f|].
  - destruct Hres as (fs' & -> & Hr' & Hp). destruct (IH fs' c1 Hr') as (c' & rs & -> & Hpre & Hall).
    exists c', (Some f :: rs). split; [done|]. cbn. split; [by apply prefix_cons|]. intros Hn. rewrite Hall; [done|lia].
  - destruct Hres as (Hr' & Hp). destruct (IH fs c1 Hr') as (c' & rs & -> & Hpre & Hall).
    exists c', (None :: rs). split; [done|]. cbn. split; [done|]. intros Hn.
    destruct Hp as [->|Hp]; [by apply prefix_nil_inv in Hpre|]. apply Hall. lia.
Qed.
End ReceiveLemmas.

(** ** Lemmas: arbitrary bytes *)

Lemma TryExtractFrame_bound sse buf n : TryExtractFrame sse buf = Value n -> (n <= length buf)%nat.
Proof.
  unfold TryExtractFrame. intros H. repeat case_match; simplify_eq; try lia.
  bool_to_prop. unfold size_of in *. lia.
Qed.

(** The cursor is in the buffer and the buffer within its limit. *)
Definition buffer_ok (c : TcpConnection) : Prop :=
  (read_cursor_ c <= length (read_buffer_ c))%nat /\ size_of (read_buffer_ c) <= kMaxReadBufferSize.

(** Everything the peer has sent that was not handed out yet. *)
Definition incoming (c : TcpConnection) : list Z := unconsumed c ++ arrived_bytes (net c).

Lemma compact_ok c : buffer_ok c ->
  buffer_ok (CompactConsumedReadBuffer c) /\ incoming (CompactConsumedReadBuffer c) = incoming c /\
  net (CompactConsumedReadBuffer c) = net c.
Proof.
  intros [H1 H2]. pose proof (compact_unconsumed c H1) as Hu.
  assert (Hnet : net (CompactConsumedReadBuffer c) = net c) by (destruct c; cbn; by repeat case_match).
  split; [|split; [by unfold incoming; rewrite Hu, Hnet|done]]. destruct c as [fd buf cap cur nt]. unfold buffer_ok, size_of in *. cbn in *.
  repeat case_match; cbn; rewrite ?length_drop; lia.
Qed.

Lemma extract_ok sse c : buffer_ok c -> exists c' r, TryExtractBufferedFrameView sse c = (c', r) /\ buffer_ok c' /\ net c' = net c /\
  match r with
  | Value (Some f) => f ++ incoming c' = incoming c
  | Value None => incoming c' = incoming c
  | Error e => code e = kFormatError
  end.
Proof.
  intros Hc. destruct (compact_ok c Hc) as (Hok & Hin & Hnet). unfold TryExtractBufferedFrameView, bind, modify, get.
  set (c1 := CompactConsumedReadBuffer c) in *. destruct (TryExtractFrame sse (unconsumed c1)) as [n|e] eqn:E.
  - apply TryExtractFrame_bound in E. destruct (Nat.ltb_spec 0 n); eexists _, _; (split; [reflexivity|]); [|done].
    destruct Hok as [H1 H2]. split; [split; [|done]|split; [done|]].
    + unfold unconsumed in E. rewrite length_drop in E. cbn. lia.
    + unfold incoming, unconsumed in *. cbn. rewrite <- Hin, <- drop_drop, app_assoc, take_drop. done.
  - case_decide; eexists _, _; (split; [reflexivity|]); [done|]. done.
Qed.

Lemma read_ok grow c : buffer_ok c -> exists c' r, ReadAvailableBytes grow c = (c', r) /\ buffer_ok c' /\
  match r with
  | Value true => incoming c' = incoming c /\ (length (arrived_bytes (net c')) < length (arrived_bytes (net c)))%nat
  | Value false => incoming c' = incoming c
  | Error e => code e = kIoError
  end.
Proof.
  intros Hc. destruct (compact_ok c Hc) as (Hok & Hin & Hnet). unfold ReadAvailableBytes, bind, modify, get.
  rewrite <- Hin, <- Hnet. clear Hin Hnet Hc. destruct (CompactConsumedReadBuffer c) as [fd buf cap cur nt].
  destruct Hok as [H1 H2]. cbn in H1, H2. destruct (size_of buf >=? kMaxReadBufferSize) eqn:E.
  { eexists _, _. split; [reflexivity|]. split; [split; cbn; unfold size_of, kMaxReadBufferSize; cbn; lia|done]. }
  bool_to_prop. set (w := Z.min _ _).
  assert (Hw : 0 < w <= kMaxReadBufferSize - size_of buf) by (unfold w, kDefaultReadBufferCapacity, kMaxReadBufferSize in *; lia).
  assert (Hrecv : match recv w nt with
    | (RecvBytes b, net') => size_of b <= w /\ arrived_bytes nt = b ++ arrived_bytes net'
    | (RecvAgain, net') => arrived_bytes net' = arrived_bytes nt
    | (RecvErrno _, _) => True end).
  { destruct nt as [|[b| | |t] nt]; cbn; try done; [|split; [unfold size_of; cbn; lia|done]].
    unfold size_of. destruct (Z.leb_spec (Z.of_nat (length b)) w); [done|].
    split; [rewrite length_take; lia|]. unfold arrived_bytes. cbn. by rewrite app_assoc, take_drop. }
  destruct (recv w nt) as [[[|x b]| |t] net']; eexists _, _; (split; [reflexivity|]); cbn in *;
    try (split; [split; cbn; [lia|done]|done]).
  - destruct Hrecv as [Hb Harr]. split; [split; cbn; [rewrite length_app; lia|]|].
    + unfold size_of in *. rewrite length_app, Nat2Z.inj_add. lia.
    + unfold incoming, unconsumed. cbn. rewrite Harr, drop_app_le, <- app_assoc by lia. split; [done|]. cbn. rewrite length_app. lia.
  - split; [split; cbn; [lia|done]|]. unfold incoming, unconsumed. cbn. by rewrite Hrecv.
Qed.

Lemma receive_loop_ok sse grow fuel : forall c, buffer_ok c -> (length (arrived_bytes (net c)) < fuel)%nat ->
  exists c' r, receive_loop sse grow fuel c = (c', r) /\ buffer_ok c' /\
    match r with
    | Value (Some f) => f ++ incoming c' = incoming c
    | Value None => incoming c' = incoming c
    | Error e => code e = kFormatError \/ code e = kIoError
    end.
Proof.
  induction fuel as [|fuel IH]; intros c Hc Hf; [lia|]. cbn [receive_loop]. unfold bind at 1.
  destruct (extract_ok sse c Hc) as (c1 & r & -> & Hok & Hn & Hr). destruct r as [[f|]|e]; [by eauto| |by eauto 6].
  unfold bind. destruct (read_ok grow c1 Hok) as (c2 & m & -> & Hok2 & Hm). destruct m as [[]|e]; [|by rewrite <- Hr; eauto|by eauto 6].
  destruct Hm as [Hi Hlt]. rewrite <- Hr, <- Hi. apply IH; [done|]. rewrite Hn in Hlt. lia.
Qed.

(** ** Lemmas: sending *)

(** [k] more bytes of [pending] are on the wire, all of them exactly on success. *)
Definition partly_sent (pending wire : list Z) (r : list Z * Status) : Prop :=
  exists k, (k <= length pending)%nat /\ fst r = wire ++ take k pending /\ (snd r = status.Ok <-> k = length pending).

Lemma partly_sent_stop pending wire st : pending <> [] -> st <> status.Ok -> partly_sent pending wire (wire, st).
Proof.
  intros Hp Hs. exists 0%nat. rewrite take_0, app_nil_r. cbn. split_and!; [lia|done|]. split; [done|].
  intros E. destruct pending; [done|discriminate].
Qed.

Lemma partly_sent_done wire : partly_sent [] wire (wire, status.Ok).
Proof. exists 0%nat. cbn. by rewrite app_nil_r. Qed.

Lemma partly_sent_more pending wire n r : (n <= length pending)%nat ->
  partly_sent (drop n pending) (wire ++ take n pending) r -> partly_sent pending wire r.
Proof.
  intros Hn (k & Hk & Hw & Hs). rewrite length_drop in *. exists (n + k)%nat. split; [lia|].
  rewrite Hw, Hs, <- app_assoc, <- take_take_drop. split; [done|lia].
Qed.

Lemma Send_partly events : forall bytes sent wire, (sent <= length bytes)%nat ->
  partly_sent (drop sent bytes) wire (Send events bytes sent wire).
Proof.
  induction events as [|e events IH]; intros bytes sent wire Hs; cbn [Send]; (destruct (Nat.ltb_spec sent (length bytes)) as [Hlt|Hge];
    [|rewrite drop_ge by lia; apply partly_sent_done]);
    (assert (Hne : drop sent bytes <> []) by (intros E; apply (f_equal length) in E; rewrite length_drop in E; cbn in E; lia)).
  { by apply partly_sent_stop. }
  destruct e as [| | |t|n]; [by apply partly_sent_stop..|by apply IH|by apply partly_sent_stop|].
  destruct (Nat.eqb_spec (Nat.min n (length bytes - sent)) 0); [by apply partly_sent_stop|].
  eapply (partly_sent_more _ _ (Nat.min n (length bytes - sent))); [rewrite length_drop; lia|].
  rewrite drop_drop. apply IH. lia.
Qed.

Lemma advance_iov_spec segs : forall cur rc, (rc <= length (concat segs))%nat ->
  exists j rem, advance_iov segs cur rc = ((cur + j)%nat, rem) /\ (j <= length segs)%nat /\
    drop rc (concat segs) = drop rem (concat (drop j segs)) /\
    match drop j segs with [] => rem = 0%nat | s :: _ => (rem < length s)%nat end.
Proof.
  induction segs as [|s segs IH]; intros cur rc Hrc; cbn in *.
  { exists 0%nat, rc. rewrite Nat.add_0_r. split_and!; [done|lia|done|cbn; lia]. }
  rewrite length_app in Hrc. destruct (Nat.leb_spec (length s) rc) as [Hle|Hlt].
  - destruct (IH (S cur) (rc - length s)%nat ltac:(lia)) as (j & rem & -> & Hj & Hd & Hm).
    exists (S j), rem. split_and!; [by rewrite Nat.add_succ_r|lia| |done].
    cbn. by rewrite drop_app_ge by lia.
  - exists 0%nat, rc. rewrite Nat.add_0_r. split_and!; [done|lia|done|cbn; lia].
Qed.

Lemma gather_partly events : forall iov cur sent total wire, (cur <= length iov)%nat ->
  (sent + length (concat (drop cur iov)))%nat = total ->
  partly_sent (concat (drop cur iov)) wire (gather_loop events iov cur sent total wire).
Proof.
  induction events as [|e events IH]; intros iov cur sent total wire Hc Ht; cbn [gather_loop]; (destruct (Nat.ltb_spec sent total) as [Hlt|Hge];
    [|destruct (concat (drop cur iov)); [apply partly_sent_done|cbn in Ht; lia]]);
    (assert (Hne : concat (drop cur iov) <> []) by (intros E; rewrite E in Ht; cbn in Ht; lia)).
  { by apply partly_sent_stop. }
  destruct e as [| | |t|n]; [by apply partly_sent_stop..|by apply IH|by apply partly_sent_stop|].
  set (pending := concat (drop cur iov)) in *. set (rc := Nat.min n (length pending)).
  destruct (Nat.eqb_spec rc 0); [by apply partly_sent_stop|].
  destruct (advance_iov_spec (drop cur iov) cur rc ltac:(unfold rc, pending; lia)) as (j & rem & -> & Hj & Hd & Hm).
  rewrite length_drop in Hj. rewrite drop_drop in Hd, Hm. set (iov' := if _ && _ then _ else _).
  assert (Hp : concat (drop (cur + j) iov') = drop rc pending).
  { unfold pending. rewrite Hd. unfold iov'. destruct (drop (cur + j) iov) as [|s r] eqn:E.
    - subst rem. cbn [andb Nat.ltb Nat.leb]. by rewrite E.
    - assert (Hlk : iov !! (cur + j)%nat = Some s) by (rewrite <- (Nat.add_0_r (cur + j)), <- lookup_drop, E; done).
      pose proof (lookup_lt_Some _ _ _ Hlk). destruct (Nat.ltb_spec (cur + j) (length iov)); [|lia].
      destruct (Nat.ltb_spec 0 rem); cbn [andb].
      + rewrite drop_insert_ge, E by lia. rewrite Nat.sub_diag. cbn.
        rewrite (nth_lookup_Some _ _ _ _ Hlk), drop_app_le by lia. done.
      + assert (rem = 0%nat) as -> by lia. by rewrite E. }
  eapply (partly_sent_more _ _ rc); [unfold rc; lia|]. rewrite <- Hp. apply IH.
  - unfold iov'. destruct (_ && _); rewrite ?length_insert; lia.
  - rewrite Hp, length_drop. unfold rc. lia.
Qed.

Lemma SendGather_partly events segments wire : partly_sent (concat segments) wire (SendGather events segments wire).
Proof.
  unfold SendGather. destruct segments as [|s [|s' segments]]; [apply partly_sent_done| |].
  - cbn. rewrite app_nil_r. apply (Send_partly events s 0 wire). lia.
  - by apply (gather_partly events (s :: s' :: segments) 0 0); [cbn; lia|].
Qed.

(** The sender: one call of [SendGather] per message, each with its own schedule. *)
Fixpoint send_all (msgs : list (list WriteEvent * list (list Z))) (wire : list Z) : list Z * list Status :=
  match msgs with
  | [] => (wire, [])
  | (events, segments) :: msgs =>
      let '(wire, st) := SendGather events segments wire in
      let '(wire, sts) := send_all msgs wire in (wire, st :: sts)
  end.

Lemma send_all_ok msgs : forall wire wire' sts, send_all msgs wire = (wire', sts) ->
  Forall (fun st => st = status.Ok) sts -> wire' = wire ++ concat (map (fun m => concat (snd m)) msgs).
Proof.
  induction msgs as [|[ev segs] msgs IH]; intros wire wire' sts; cbn.
  { intros [= <- <-] _. by rewrite app_nil_r. }
  destruct (SendGather_partly ev segs wire) as (k & Hk & Hw & Hs). destruct (SendGather ev segs wire) as [w1 st]. cbn in *.
  destruct (send_all msgs w1) as [w2 sts'] eqn:E. intros [= <- <-] [-> Hok]%Forall_cons.
  rewrite (IH _ _ _ E Hok), Hw, (proj1 Hs eq_refl), take_ge, app_assoc by lia. done.
Qed.

(** ** Properties *)

(** C14: Frames survive the byte stream.  Messages sent with [SendGather], in any
    segmentation and with writes of any size, all successfully, are received by
    the other side as exactly those frames, in order and without error, however
    the network cuts the bytes into pieces and pauses between them: after as many
    calls as there are frames and pauses everything is delivered, and before that
    a prefix.  The frames may be up to a bound that keeps the read buffer, which
    grows geometrically, below its limit. *)
Theorem stream_roundtrip has_sse2 grow max_frame msgs wire sts n fd net :
  grows_geometrically grow -> 0 <= max_frame -> 4 * (max_frame + kDefaultReadBufferCapacity) <= kMaxReadBufferSize ->
  let fs := map (fun m => concat (snd m)) msgs in
  Forall (frame_fits max_frame) fs ->
  send_all msgs [] = (wire, sts) -> Forall (fun st => st = status.Ok) sts ->
  healthy net -> arrived_bytes net = wire ->
  exists c rs, receive_calls has_sse2 grow n (new_connection fd net) = (c, map Value rs) /\
    omap id rs `prefix_of` fs /\ ((length fs + pauses net <= n)%nat -> omap id rs = fs).
Proof.
  intros Hg H0 Hmax fs Hfs Hsend Hok Hh Harr. apply send_all_ok in Hsend; [|done]. cbn in Hsend.
  apply (receive_calls_deliver has_sse2 grow max_frame Hg (conj H0 Hmax) n fs (new_connection fd net)).
  constructor; cbn; try done; [by unfold unconsumed; cbn; rewrite Harr|]. unfold size_of, kDefaultReadBufferCapacity. cbn. lia.
Qed.

(** Doubling, as the standard library's vector does. *)
Definition doubling (cap n : Z) : Z := Z.max n (2 * cap).
Lemma doubling_geometric : grows_geometrically doubling.
Proof. intros cap n H. unfold doubling. lia. Qed.

Definition demo_frame (t : string) : list Z := make_frame (bytes "FIX.4.4") (bytes t ++ [kFixSoh]) kFixSoh.
Definition demo_heartbeat : list Z := demo_frame "35=0".
Definition demo_logout : list Z := demo_frame "35=5".
Definition demo_messages : list (list WriteEvent * list (list Z)) :=
  [([Wrote 3; WroteAgain; Wrote 100], [take 5 demo_heartbeat; []; drop 5 demo_heartbeat]); ([Wrote 7; Wrote 90], [demo_logout])].
Definition demo_network : list SocketEvent :=
  let wire := demo_heartbeat ++ demo_logout in [Arrived (take 20 wire); NothingYet; Arrived (drop 20 wire)].

Lemma demo_frame_fits t : kFixSoh ∉ bytes "FIX.4.4" -> (length (bytes t) < 100)%nat -> frame_fits 1000 (demo_frame t).
Proof.
  intros Hs Ht. split; [exists (bytes "FIX.4.4"), (bytes t ++ [kFixSoh])|].
  - split_and!; [done|done|]. unfold size_of, in_u32. rewrite length_app. cbn. lia.
  - unfold demo_frame, make_frame, frame_prefix, field_bytes, size_of. rewrite !length_app. cbn [length].
    destruct (FormatUint32_length (Z.of_nat (length (bytes t ++ [kFixSoh])))) as [Hd|[]].
    + rewrite length_app in *. cbn [length] in *. change (length (FormatUint32 tags.kBeginString)) with 1%nat.
      change (length (FormatUint32 tags.kBodyLength)) with 1%nat. change (length (bytes "FIX.4.4")) with 7%nat.
      unfold kCheckSumPrefix, checksum_digits. cbn [length]. lia.
    + unfold in_u32. rewrite length_app. cbn. lia.
Qed.

Lemma stream_roundtrip_witness :
  exists c rs, receive_calls true doubling 3 (new_connection 5 demo_network) = (c, map Value rs) /\
    omap id rs = [demo_heartbeat; demo_logout].
Proof.
  assert (Hs : kFixSoh ∉ bytes "FIX.4.4") by (apply (bool_decide_unpack _); vm_compute; exact I).
  destruct (stream_roundtrip true doubling 1000 demo_messages (demo_heartbeat ++ demo_logout) [status.Ok; status.Ok] 3 5 demo_network)
    as (c & rs & H & _ & Hall).
  - exact doubling_geometric.
  - lia.
  - unfold kDefaultReadBufferCapacity, kMaxReadBufferSize. lia.
  - constructor; [|constructor; [|constructor]].
    + change (frame_fits 1000 demo_heartbeat). apply demo_frame_fits; [exact Hs|cbn; lia].
    + change (frame_fits 1000 demo_logout). apply demo_frame_fits; [exact Hs|cbn; lia].
  - vm_compute. reflexivity.
  - repeat constructor.
  - repeat constructor; discriminate.
  - vm_compute. reflexivity.
  - exists c, rs. split; [exact H|]. rewrite Hall; [reflexivity|cbn; lia].
Defined.

(** Any bytes are safe.  Whatever arrives on the socket and however it fails, a
    call of [TryReceiveFrameView] returns (its loop takes no more rounds than
    there are bytes), the cursor stays in the buffer and the buffer within its
    limit; a frame handed out is exactly the next bytes of the stream, without a
    frame no byte is lost, and the only errors are format and I/O errors. *)
Theorem receive_bounded has_sse2 grow c :
  buffer_ok c ->
  exists c' r, TryReceiveFrameView has_sse2 grow c = (c', r) /\ buffer_ok c' /\
    match r with
    | Value (Some f) => f ++ incoming c' = incoming c
    | Value None => incoming c' = incoming c
    | Error e => code e = kFormatError \/ code e = kIoError
    end.
Proof. intros Hc. apply (receive_loop_ok has_sse2 grow (S (length (arrived_bytes (net c)))) c Hc). lia. Qed.

Lemma receive_bounded_witness :
  exists c r, TryReceiveFrameView true doubling (new_connection 5 [Arrived (bytes "GET / HTTP/1.1"); PeerClosed]) = (c, r) /\ buffer_ok c.
Proof.
  destruct (receive_bounded true doubling (new_connection 5 [Arrived (bytes "GET / HTTP/1.1"); PeerClosed])) as (c & r & H & Hok & _).
  - split; cbn; [lia|unfold size_of, kMaxReadBufferSize; cbn; lia].
  - exists c, r. split; [exact H|exact Hok].
Defined.

(** A partial write never repeats or skips a byte.  After [SendGather] the wire
    has a prefix of the segments' bytes added to it, whatever sizes the writes had
    and wherever they ended inside a segment, and all of them exactly when the
    call succeeds. *)
Theorem send_gather_exact events segments wire :
  exists k, (k <= length (concat segments))%nat /\
    fst (SendGather events segments wire) = wire ++ take k (concat segments) /\
    (snd (SendGather events segments wire) = status.Ok <-> k = length (concat segments)).
Proof. exact (SendGather_partly events segments wire). Qed.
