(* ===== verification/Spsc.v ===== *)
(** * The single-producer single-consumer queue

    [base::SpscQueue] ([base/spsc_queue.h]) with its memory orders.  The two
    indices are atomic locations: a location is the list of the values stored to
    it, a thread reads its own location exactly and the other one at any entry not
    older than what it saw last.  A release store publishes what its thread did
    before it, an acquire load of that entry or a later one makes it visible; a
    slot access that is not ordered this way after the other thread's last access
    is a data race.  The slots themselves are plain memory. *)
From S2P Require Import Prelude.
Open Scope nat_scope.

Section Queue.
Context {T : Type}.

(** Which access touched a slot last, with the number of the store that will
    publish it. *)
Inductive Access := Initial | ByProducer (store : nat) | ByConsumer (store : nat).

Record Slot := MkSlot { content : T; last_access : Access }.

(** Where a thread is inside [TryPushImpl] and [TryPop]. *)
Inductive Producer :=
  | PIdle
  | PLoaded (value : T) (head : nat)
  | PChecked (value : T) (head next : nat)
  | PWritten (value : T) (next : nat).
Inductive Consumer :=
  | CIdle
  | CLoaded (tail : nat)
  | CChecked (tail : nat)
  | CTaken (tail : nat) (value : T).

(** [head_] and [tail_] hold the values stored so far, the latest last; the two
    views are the entries of the other thread's location read last. *)
Record Queue := MkQueue {
  slots_ : list Slot;
  head_ : list nat;
  tail_ : list nat;
  producer : Producer;
  seen_tail : nat;
  consumer : Consumer;
  seen_head : nat;
}.

Definition capacity_ (q : Queue) : nat := length (slots_ q).

Definition NewSpscQueue (d : T) (capacity : nat) : Queue :=
  MkQueue (replicate ((if capacity =? 0 then 1 else capacity) + 1) (MkSlot d Initial)) [0] [0] PIdle 0 CIdle 0.

Definition Next (capacity index : nat) : nat := if index + 1 =? capacity then 0 else index + 1.

Definition current (location : list nat) : nat := List.last location 0.

(** What a call returns to its thread. *)
Inductive Event := Pushed (value : T) | Full | Popped (value : T) | Empty.

(** A step of a thread.  The two checks choose the entry the load reads. *)
Inductive Action :=
  | PushBegin (value : T) | PushCheck (entry : nat) | PushWrite | PushPublish
  | PopBegin | PopCheck (entry : nat) | PopTake | PopPublish.

Inductive Outcome :=
  | Stuck
  | Race
  | Step (q : Queue) (ev : option Event).

(** Whether an access of one thread is ordered after the last one. *)
Definition producer_ordered (seen : nat) (a : Access) : bool :=
  match a with ByConsumer store => store <=? seen | _ => true end.
Definition consumer_ordered (seen : nat) (a : Access) : bool :=
  match a with ByProducer store => store <=? seen | _ => true end.

Definition set_producer (p : Producer) (q : Queue) : Queue :=
  MkQueue (slots_ q) (head_ q) (tail_ q) p (seen_tail q) (consumer q) (seen_head q).
Definition set_consumer (c : Consumer) (q : Queue) : Queue :=
  MkQueue (slots_ q) (head_ q) (tail_ q) (producer q) (seen_tail q) c (seen_head q).

(** [TryPushImpl], step by step: the relaxed load of [head_], the acquire load of
    [tail_] and the test, the slot, the release store of [head_]. *)
Definition TryPushImpl (a : Action) (q : Queue) : Outcome :=
  match producer q, a with
  | PIdle, PushBegin value => Step (set_producer (PLoaded value (current (head_ q))) q) None
  | PLoaded value head, PushCheck entry =>
      match tail_ q !! entry with
      | Some tail =>
          if entry <? seen_tail q then Stuck
          else
            let next := Next (capacity_ q) head in
            let q := MkQueue (slots_ q) (head_ q) (tail_ q) (producer q) entry (consumer q) (seen_head q) in
            if next =? tail then Step (set_producer PIdle q) (Some Full)
            else Step (set_producer (PChecked value head next) q) None
      | None => Stuck
      end
  | PChecked value head next, PushWrite =>
      match slots_ q !! head with
      | Some slot =>
          if producer_ordered (seen_tail q) (last_access slot)
          then Step (MkQueue (<[head := MkSlot value (ByProducer (length (head_ q)))]> (slots_ q)) (head_ q) (tail_ q)
                       (PWritten value next) (seen_tail q) (consumer q) (seen_head q)) None
          else Race
      | None => Stuck
      end
  | PWritten value next, PushPublish =>
      Step (MkQueue (slots_ q) (head_ q ++ [next]) (tail_ q) PIdle (seen_tail q) (consumer q) (seen_head q))
        (Some (Pushed value))
  | _, _ => Stuck
  end.

(** [TryPop]; [moved] is what a slot holds after its value is moved out. *)
Definition TryPop (moved : T -> T) (a : Action) (q : Queue) : Outcome :=
  match consumer q, a with
  | CIdle, PopBegin => Step (set_consumer (CLoaded (current (tail_ q))) q) None
  | CLoaded tail, PopCheck entry =>
      match head_ q !! entry with
      | Some head =>
          if entry <? seen_head q then Stuck
          else
            let q := MkQueue (slots_ q) (head_ q) (tail_ q) (producer q) (seen_tail q) (consumer q) entry in
            if tail =? head then Step (set_consumer CIdle q) (Some Empty)
            else Step (set_consumer (CChecked tail) q) None
      | None => Stuck
      end
  | CChecked tail, PopTake =>
      match slots_ q !! tail with
      | Some slot =>
          if consumer_ordered (seen_head q) (last_access slot)
          then Step (MkQueue (<[tail := MkSlot (moved (content slot)) (ByConsumer (length (tail_ q)))]> (slots_ q))
                       (head_ q) (tail_ q) (producer q) (seen_tail q) (CTaken tail (content slot)) (seen_head q)) None
          else Race
      | None => Stuck
      end
  | CTaken tail value, PopPublish =>
      Step (MkQueue (slots_ q) (head_ q) (tail_ q ++ [Next (capacity_ q) tail]) (producer q) (seen_tail q) CIdle (seen_head q))
        (Some (Popped value))
  | _, _ => Stuck
  end.

Definition is_push (a : Action) : bool :=
  match a with PushBegin _ | PushCheck _ | PushWrite | PushPublish => true | _ => false end.

Definition exec (moved : T -> T) (a : Action) (q : Queue) : Outcome :=
  if is_push a then TryPushImpl a q else TryPop moved a q.

(** A schedule of both threads: the events so far and the queue they lead to;
    steps that are not enabled are skipped, a race ends the run. *)
Fixpoint run (moved : T -> T) (schedule : list Action) (q : Queue) (trace : list Event) : option (Queue * list Event) :=
  match schedule with
  | [] => Some (q, trace)
  | a :: schedule =>
      match exec moved a q with
      | Stuck => run moved schedule q trace
      | Race => None
      | Step q ev => run moved schedule q (trace ++ match ev with Some e => [e] | None => [] end)
      end
  end.

Definition pushed (trace : list Event) : list T := omap (fun e => match e with Pushed v => Some v | _ => None end) trace.
Definition popped (trace : list Event) : list T := omap (fun e => match e with Popped v => Some v | _ => None end) trace.
End Queue.
Arguments Queue : clear implicits.
Arguments Event : clear implicits.
Arguments Action : clear implicits.
Arguments Outcome : clear implicits.

(** ** Lemmas: indices *)

Lemma mod_window a b n : a <= b < a + n -> (a mod n = b mod n <-> a = b).
Proof.
  intros H. split; [|by intros ->]. intros E.
  pose proof (Nat.div_mod_eq a n). pose proof (Nat.div_mod_eq b n).
  destruct (Nat.lt_total (a / n) (b / n)) as [Hlt|[Heq|Hgt]]; [|rewrite Heq in *; lia|];
    [assert (n * (a / n) + n <= n * (b / n)) by nia|assert (n * (b / n) + n <= n * (a / n)) by nia]; lia.
Qed.

Lemma Next_mod n i : 0 < n -> Next n (i mod n) = (i + 1) mod n.
Proof.
  intros Hn. unfold Next. pose proof (Nat.mod_upper_bound i n ltac:(lia)).
  rewrite <- Nat.Div0.add_mod_idemp_l. destruct (Nat.eqb_spec (i mod n + 1) n) as [->|].
  - by rewrite Nat.Div0.mod_same.
  - by rewrite (Nat.mod_small (i mod n + 1)) by lia.
Qed.

(** The values of an index that was advanced [k] times. *)
Definition history (n k : nat) : list nat := map (fun i => i mod n) (seq 0 (S k)).

Lemma history_length n k : length (history n k) = S k.
Proof. unfold history. by rewrite length_map, length_seq. Qed.

Lemma history_lookup n k i x : history n k !! i = Some x <-> i <= k /\ x = i mod n.
Proof.
  unfold history. rewrite list_lookup_fmap, fmap_Some. split.
  - intros (j & Hj & ->). apply lookup_seq in Hj as [-> Hj]. cbn. lia.
  - intros [Hi ->]. exists i. split; [|done]. apply lookup_seq. lia.
Qed.

Lemma history_snoc n k : history n k ++ [S k mod n] = history n (S k).
Proof. unfold history. by rewrite (seq_S (S k)), map_app. Qed.

Lemma history_current n k : current (history n k) = k mod n.
Proof. unfold current, history. rewrite seq_S, map_app. cbn [map]. by rewrite last_last. Qed.

(** ** The invariant *)

Section Invariant.
Context {T : Type}.

(** The slot of element [i], published and not yet taken. *)
Definition live_slot (q : Queue T) (taken : nat) (i : nat) (v : T) : Prop :=
  match consumer q with
  | CTaken _ _ => if i =? taken then exists w, slots_ q !! (i mod capacity_ q) = Some (MkSlot w (ByConsumer (S taken)))
                  else slots_ q !! (i mod capacity_ q) = Some (MkSlot v (ByProducer (S i)))
  | _ => slots_ q !! (i mod capacity_ q) = Some (MkSlot v (ByProducer (S i)))
  end.

(** The slot that element [j] will use. *)
Definition free_slot (q : Queue T) (published : nat) (j : nat) : Prop :=
  let n := capacity_ q in
  let unused := exists w, slots_ q !! (j mod n) = Some (MkSlot w (if j <? n then Initial else ByConsumer (S (j - n)))) in
  match producer q with
  | PWritten v _ => if j =? published then slots_ q !! (j mod n) = Some (MkSlot v (ByProducer (S published))) else unused
  | _ => unused
  end.

Record queue_inv (q : Queue T) (values : list T) (taken : nat) : Prop := {
  inv_size : 2 <= capacity_ q;
  inv_head : head_ q = history (capacity_ q) (length values);
  inv_tail : tail_ q = history (capacity_ q) taken;
  inv_views : seen_tail q <= taken /\ taken <= seen_head q /\ seen_head q <= length values;
  inv_room : length values < seen_tail q + capacity_ q;
  inv_producer :
    match producer q with
    | PIdle => True
    | PLoaded _ head => head = length values mod capacity_ q
    | PChecked _ head next => head = length values mod capacity_ q /\ next = S (length values) mod capacity_ q /\
                              S (length values) < seen_tail q + capacity_ q
    | PWritten _ next => next = S (length values) mod capacity_ q /\ S (length values) < seen_tail q + capacity_ q
    end;
  inv_consumer :
    match consumer q with
    | CIdle => True
    | CLoaded tail => tail = taken mod capacity_ q
    | CChecked tail => tail = taken mod capacity_ q /\ taken < seen_head q
    | CTaken tail v => tail = taken mod capacity_ q /\ taken < seen_head q /\ values !! taken = Some v
    end;
  inv_live : forall i v, taken <= i -> values !! i = Some v -> live_slot q taken i v;
  inv_free : forall j, length values <= j < taken + capacity_ q -> free_slot q (length values) j;
}.

Lemma new_inv (d : T) capacity : queue_inv (NewSpscQueue d capacity) [] 0.
Proof.
  assert (Hn : 2 <= capacity_ (NewSpscQueue d capacity)) by (unfold capacity_; cbn; rewrite length_replicate; destruct capacity; cbn; lia).
  constructor; try done; cbn [length NewSpscQueue seen_tail seen_head head_ tail_]; try lia.
  1, 2: unfold history; cbn; by rewrite Nat.Div0.mod_0_l.
  intros j Hj. exists d. rewrite Nat.mod_small by lia.
  destruct (Nat.ltb_spec j (capacity_ (NewSpscQueue d capacity))); [|lia].
  apply lookup_replicate. split; [done|]. unfold capacity_ in *. cbn in *. by rewrite length_replicate in *.
Qed.

Lemma insert_other (l : list (@Slot T)) n i j s : i mod n <> j mod n -> <[i mod n := s]> l !! (j mod n) = l !! (j mod n).
Proof. intros H. by rewrite list_lookup_insert_ne. Qed.

(** The slots a producer's or a consumer's write does not touch. *)
Lemma window_ne n taken i j : taken <= i < taken + n -> taken <= j < taken + n -> i <> j -> i mod n <> j mod n.
Proof.
  intros Hi Hj Hne E. destruct (Nat.lt_total i j) as [|[|]]; [|lia|].
  - apply mod_window in E; lia.
  - symmetry in E. apply mod_window in E; lia.
Qed.

Lemma push_inv a (q : Queue T) values taken : is_push a = true -> queue_inv q values taken ->
  match TryPushImpl a q with
  | Stuck => True
  | Race => False
  | Step q' ev => queue_inv q' (values ++ match ev with Some (Pushed v) => [v] | _ => [] end) taken /\ ev <> Some Empty /\
                  (forall v, ev <> Some (Popped v))
  end.
Proof.
  intros Ha [H1 H2 H3 H4 H5 H6 H7 H8 H9]. unfold TryPushImpl.
  destruct (producer q) as [|value head|value head next|value next] eqn:Ep; destruct a; try done; cbn in Ha.
  - rewrite app_nil_r. split_and!; [|done..]. constructor; try done. cbn. by rewrite H2, history_current.
    intros j Hj. specialize (H9 j Hj). unfold free_slot in *. by rewrite Ep in H9.
  - destruct (tail_ q !! entry) as [tail|] eqn:Et; [|done]. rewrite H3 in Et. apply history_lookup in Et as [Hle ->].
    destruct (Nat.ltb_spec entry (seen_tail q)); [done|]. rewrite H6, Next_mod by lia. rewrite Nat.add_1_r.
    assert (Hf : forall j, length values <= j < taken + capacity_ q -> exists w, slots_ q !! (j mod capacity_ q) =
      Some (MkSlot w (if j <? capacity_ q then Initial else ByConsumer (S (j - capacity_ q))))).
    { intros j Hj. specialize (H9 j Hj). unfold free_slot in H9. by rewrite Ep in H9. }
    destruct (Nat.eqb_spec (S (length values) mod capacity_ q) (entry mod capacity_ q)) as [E|E].
    + rewrite app_nil_r. split_and!; [|done..]. constructor; unfold capacity_ in *; cbn; try done; try lia.
    + rewrite app_nil_r. split_and!; [|done..]. constructor; unfold capacity_ in *; cbn; try done; try lia.
      split_and!; [done|done|]. destruct (decide (S (length values) = entry + length (slots_ q))) as [Heq|]; [|lia].
      destruct E. rewrite Heq, Nat.Div0.add_mod, Nat.Div0.mod_same, Nat.add_0_r, Nat.Div0.mod_mod. done.
  - destruct H6 as (-> & -> & Hroom). pose proof (H9 (length values) ltac:(lia)) as Hslot. unfold free_slot in Hslot. rewrite Ep in Hslot.
    destruct Hslot as (w & Hslot). rewrite Hslot. cbn [last_access].
    assert (Hord : producer_ordered (seen_tail q) (if length values <? capacity_ q then Initial else ByConsumer (S (length values - capacity_ q))) = true).
    { destruct (Nat.ltb_spec (length values) (capacity_ q)); [done|]. apply Nat.leb_le. lia. }
    rewrite Hord, app_nil_r. pose proof (lookup_lt_Some _ _ _ Hslot) as Hlt.
    split_and!; [|done..]. constructor; unfold live_slot, free_slot, capacity_ in *; cbn -[Nat.ltb Nat.eqb]; rewrite ?length_insert; try done.
    + intros i v Hi Hv. specialize (H8 i v Hi Hv). pose proof (lookup_lt_Some _ _ _ Hv).
      rewrite insert_other by (apply not_eq_sym, (window_ne _ taken); lia). done.
    + intros j Hj. specialize (H9 j Hj). rewrite Ep in H9. destruct (Nat.eqb_spec j (length values)) as [->|].
      * by rewrite list_lookup_insert_eq, H2, history_length.
      * rewrite insert_other by (apply not_eq_sym, (window_ne _ taken); lia). done.
  - destruct H6 as [-> Hroom]. split_and!; [|done..]. assert (Hl : length (values ++ [value]) = S (length values)) by (rewrite length_app; cbn; lia).
    constructor; unfold live_slot, free_slot, capacity_ in *; cbn -[Nat.ltb Nat.eqb]; rewrite ?Hl; try done; try lia.
    + by rewrite H2, history_snoc.
    + destruct (consumer q) as [| | |tl v]; try done. destruct H7 as (? & ? & Hv). split_and!; [done|done|].
      rewrite lookup_app_l; [done|]. by apply lookup_lt_Some in Hv.
    + intros i v Hi Hv. destruct (decide (i = length values)) as [->|Hne].
      * rewrite lookup_app_r, Nat.sub_diag in Hv by lia. injection Hv as <-.
        specialize (H9 (length values) ltac:(lia)). rewrite Ep, Nat.eqb_refl in H9.
        destruct (consumer q); try done. destruct (Nat.eqb_spec (length values) taken); [lia|done].
      * apply H8; [done|]. pose proof (lookup_lt_Some _ _ _ Hv). rewrite Hl in *. rewrite lookup_app_l in Hv by lia. done.
    + intros j Hj. specialize (H9 j ltac:(lia)). rewrite Ep in H9. destruct (Nat.eqb_spec j (length values)); [lia|done].
Qed.

Lemma pop_inv moved a (q : Queue T) values taken : is_push a = false -> queue_inv q values taken ->
  match TryPop moved a q with
  | Stuck => True
  | Race => False
  | Step q' (Some (Popped v)) => values !! taken = Some v /\ queue_inv q' values (S taken)
  | Step q' ev => queue_inv q' values taken /\ (ev = None \/ ev = Some Empty)
  end.
Proof.
  intros Ha [H1 H2 H3 H4 H5 H6 H7 H8 H9]. unfold TryPop.
  destruct (consumer q) as [|tail|tail|tail value] eqn:Ec; destruct a; try done; cbn in Ha.
  - split; [|by left]. constructor; try done; cbn; [by rewrite H3, history_current|].
    intros i v Hi Hv. specialize (H8 i v Hi Hv). unfold live_slot in *. by rewrite Ec in H8.
  - destruct (head_ q !! entry) as [head|] eqn:Eh; [|done]. rewrite H2 in Eh. apply history_lookup in Eh as [Hle ->].
    destruct (Nat.ltb_spec entry (seen_head q)); [done|].
    assert (Hl : forall i v, taken <= i -> values !! i = Some v -> slots_ q !! (i mod capacity_ q) = Some (MkSlot v (ByProducer (S i)))).
    { intros i v Hi Hv. specialize (H8 i v Hi Hv). unfold live_slot in H8. by rewrite Ec in H8. }
    destruct (Nat.eqb_spec tail (entry mod capacity_ q)) as [E|E].
    + split; [|by right]. constructor; unfold capacity_ in *; cbn; try done; lia.
    + split; [|by left]. constructor; unfold capacity_ in *; cbn; try done; try lia. split; [done|]. destruct (decide (taken = entry)) as [<-|]; [by rewrite H7 in E|lia].
  - destruct H7 as (-> & Hseen). destruct (lookup_lt_is_Some_2 values taken ltac:(lia)) as [v Hv].
    pose proof (H8 taken v ltac:(lia) Hv) as Hslot. unfold live_slot in Hslot. rewrite Ec in Hslot. rewrite Hslot. cbn [last_access content].
    assert (consumer_ordered (seen_head q) (ByProducer (S taken)) = true) as -> by (apply Nat.leb_le; lia).
    pose proof (lookup_lt_Some _ _ _ Hslot) as Hlt.
    split; [|by left]. constructor; unfold live_slot, free_slot, capacity_ in *; cbn -[Nat.ltb Nat.eqb]; rewrite ?length_insert; try done.
    + intros i u Hi Hu. pose proof (lookup_lt_Some _ _ _ Hu). destruct (Nat.eqb_spec i taken) as [->|].
      * eexists. by rewrite list_lookup_insert_eq, H3, history_length by lia.
      * specialize (H8 i u Hi Hu). rewrite Ec in H8. by rewrite insert_other by (apply not_eq_sym, (window_ne _ taken); lia).
    + intros j Hj. specialize (H9 j Hj). by rewrite !insert_other by (apply not_eq_sym, (window_ne _ taken); lia).
  - destruct H7 as (-> & Hseen & Hv). split; [done|]. rewrite Next_mod by lia. rewrite Nat.add_1_r.
    constructor; unfold live_slot, free_slot, capacity_ in *; cbn -[Nat.ltb Nat.eqb]; try done; try lia.
    + by rewrite H3, history_snoc.
    + intros i u Hi Hu. specialize (H8 i u ltac:(lia) Hu). rewrite Ec in H8. destruct (Nat.eqb_spec i taken); [lia|done].
    + intros j Hj. destruct (decide (j = taken + length (slots_ q))) as [->|]; [|apply H9; lia].
      specialize (H8 taken value ltac:(lia) Hv). rewrite Ec, Nat.eqb_refl in H8. destruct H8 as (w & Hw).
      rewrite Nat.Div0.add_mod, Nat.Div0.mod_same, Nat.add_0_r, Nat.Div0.mod_mod. destruct (Nat.ltb_spec (taken + length (slots_ q)) (length (slots_ q))); [lia|].
      replace (taken + length (slots_ q) - length (slots_ q)) with taken by lia.
      destruct (producer q) as [| | |pv pn]; try (exists w; exact Hw).
      destruct (Nat.eqb_spec (taken + length (slots_ q)) (length values)); [lia|exists w; exact Hw].
Qed.
End Invariant.

Section Runs.
Context {T : Type} (moved : T -> T).

(** The events so far account for the queue. *)
Definition consistent (q : Queue T) (trace : list (Event T)) : Prop :=
  queue_inv q (pushed trace) (length (popped trace)) /\ popped trace `prefix_of` pushed trace.

Lemma pushed_app (t u : list (Event T)) : pushed (t ++ u) = pushed t ++ pushed u.
Proof. apply omap_app. Qed.
Lemma popped_app (t u : list (Event T)) : popped (t ++ u) = popped t ++ popped u.
Proof. apply omap_app. Qed.

Lemma prefix_snoc_lookup (l k : list T) v : l `prefix_of` k -> k !! length l = Some v -> l ++ [v] `prefix_of` k.
Proof.
  intros [r ->] Hv. rewrite lookup_app_r, Nat.sub_diag in Hv by lia. destruct r as [|x r]; [done|].
  injection Hv as ->. exists r. by rewrite <- app_assoc.
Qed.

Lemma exec_consistent a (q : Queue T) trace : consistent q trace ->
  match exec moved a q with
  | Stuck => True
  | Race => False
  | Step q' ev => consistent q' (trace ++ match ev with Some e => [e] | None => [] end)
  end.
Proof.
  intros [Hq Hp]. unfold exec, consistent. destruct (is_push a) eqn:Ea.
  - pose proof (push_inv a q _ _ Ea Hq) as H. destruct (TryPushImpl a q) as [| |q' ev]; [done|done|].
    destruct H as (Hi & He & Hv). rewrite pushed_app, popped_app.
    destruct ev as [[v| |v|]|]; cbn in *; rewrite ?app_nil_r in *; try done.
    + split; [done|]. by apply prefix_app_r.
    + by destruct (Hv v).
  - pose proof (pop_inv moved a q _ _ Ea Hq) as H. destruct (TryPop moved a q) as [| |q' ev]; [done|done|].
    rewrite pushed_app, popped_app.
    destruct ev as [[v| |v|]|]; cbn in *; rewrite ?app_nil_r in *; try (by destruct H as [? [|]]).
    + destruct H as [Hv Hi]. rewrite length_app, Nat.add_1_r. split; [done|]. by apply prefix_snoc_lookup.
Qed.

Lemma run_consistent schedule : forall (q : Queue T) trace, consistent q trace ->
  exists q' trace', run moved schedule q trace = Some (q', trace') /\ consistent q' trace'.
Proof.
  induction schedule as [|a schedule IH]; intros q trace Hc; cbn; [by eauto|].
  pose proof (exec_consistent a q trace Hc) as H. destruct (exec moved a q) as [| |q' ev]; [by apply IH|done|by apply IH].
Qed.

Lemma new_consistent (d : T) capacity : consistent (NewSpscQueue d capacity) [].
Proof. split; [apply new_inv|done]. Qed.

(** A capacity of zero is taken as one. *)
Definition room (capacity : nat) : nat := Nat.max 1 capacity.

Lemma run_slots schedule : forall (q q' : Queue T) trace trace', run moved schedule q trace = Some (q', trace') ->
  length (slots_ q') = length (slots_ q).
Proof.
  induction schedule as [|a schedule IH]; intros q q' trace trace'; cbn; [by intros [= <- _]|].
  destruct (exec moved a q) as [| |q1 ev] eqn:E; [by apply IH|done|]. intros H. apply IH in H. rewrite H. clear H IH.
  unfold exec, TryPushImpl, TryPop in E. repeat case_match; simplify_eq/=; rewrite ?length_insert; done.
Qed.

Lemma new_slots (d : T) capacity : length (slots_ (NewSpscQueue d capacity)) = S (room capacity).
Proof. cbn. rewrite length_replicate. unfold room. destruct capacity; cbn; lia. Qed.

(** A call that runs without interference and reads the latest values. *)
Definition solo_push (v : T) (q : Queue T) : list (Action T) := [PushBegin v; PushCheck (length (tail_ q) - 1); PushWrite; PushPublish].
Definition solo_pop (q : Queue T) : list (Action T) := [PopBegin; PopCheck (length (head_ q) - 1); PopTake; PopPublish].

Lemma solo_push_run v (q : Queue T) trace : consistent q trace -> producer q = PIdle ->
  exists q', run moved (solo_push v q) q trace =
    Some (q', trace ++ [if S (length (pushed trace) - length (popped trace)) <? capacity_ q then Pushed v else Full]).
Proof.
  intros [[H1 H2 H3 H4 H5 H6 H7 H8 H9] _] Hp. destruct q as [slots head tail prod st cons sh].
  unfold capacity_ in *. cbn [slots_ head_ tail_ producer seen_tail consumer seen_head] in *. subst prod head tail.
  set (n := length slots) in *. set (vs := pushed trace) in *. set (taken := length (popped trace)) in *.
  unfold solo_push. cbn [run exec is_push TryPushImpl producer set_producer slots_ head_ tail_ seen_tail consumer seen_head].
  rewrite history_current, history_length, app_nil_r. replace (S taken - 1) with taken by lia.
  assert (history n taken !! taken = Some (taken mod n)) as -> by (by apply history_lookup).
  destruct (Nat.ltb_spec taken st); [lia|]. unfold capacity_. cbn [slots_]. fold n. rewrite Next_mod, Nat.add_1_r by lia.
  assert (Hfull : S (length vs) mod n = taken mod n <-> S (length vs) = taken + n).
  { split; [|intros ->; by rewrite Nat.Div0.add_mod, Nat.Div0.mod_same, Nat.add_0_r, Nat.Div0.mod_mod].
    intros E. destruct (decide (S (length vs) = taken + n)); [done|]. symmetry in E. apply mod_window in E; lia. }
  destruct (Nat.eqb_spec (S (length vs) mod n) (taken mod n)) as [E|E].
  - apply Hfull in E. destruct (Nat.ltb_spec (S (length vs - taken)) n); [lia|]. cbn. by eexists.
  - destruct (Nat.ltb_spec (S (length vs - taken)) n) as [Hlt|]; [|destruct E; apply Hfull; lia].
    cbn [run exec is_push TryPushImpl producer set_producer slots_ head_ tail_ seen_tail consumer seen_head].
    destruct (H9 (length vs) ltac:(lia)) as (w & Hw). unfold capacity_ in Hw. cbn [slots_] in Hw. fold n in Hw. rewrite Hw. cbn [last_access].
    assert (producer_ordered taken (if length vs <? n then Initial else ByConsumer (S (length vs - n))) = true) as ->.
    { destruct (Nat.ltb_spec (length vs) n); [done|]. apply Nat.leb_le. lia. }
    cbn. rewrite !app_nil_r. by eexists.
Qed.

Lemma solo_pop_run (q : Queue T) trace : consistent q trace -> consumer q = CIdle ->
  exists q', run moved (solo_pop q) q trace =
    Some (q', trace ++ [match pushed trace !! length (popped trace) with Some x => Popped x | None => Empty end]).
Proof.
  intros [[H1 H2 H3 H4 H5 H6 H7 H8 H9] _] Hc. destruct q as [slots head tail prod st cons sh].
  unfold capacity_, live_slot in *. cbn [slots_ head_ tail_ producer seen_tail consumer seen_head] in *. subst cons head tail.
  set (n := length slots) in *. set (vs := pushed trace) in *. set (taken := length (popped trace)) in *.
  unfold solo_pop. cbn [run exec is_push TryPop consumer set_consumer slots_ head_ tail_ seen_tail producer seen_head].
  rewrite history_current, history_length, app_nil_r. replace (S (length vs) - 1) with (length vs) by lia.
  assert (history n (length vs) !! length vs = Some (length vs mod n)) as -> by (by apply history_lookup).
  destruct (Nat.ltb_spec (length vs) sh); [lia|]. destruct (Nat.eqb_spec (taken mod n) (length vs mod n)) as [E|E].
  - apply mod_window in E; [|lia]. rewrite lookup_ge_None_2 by lia. cbn. by eexists.
  - assert (taken <> length vs) by (intros Ht; apply E; by rewrite Ht).
    destruct (lookup_lt_is_Some_2 vs taken ltac:(lia)) as [x Hx].
    rewrite Hx. cbn [run exec is_push TryPop consumer set_consumer slots_ head_ tail_ seen_tail producer seen_head].
    unfold capacity_ in H8. cbn [slots_] in H8. fold n in H8. rewrite (H8 taken x ltac:(lia) Hx). cbn [last_access content].
    assert (consumer_ordered (length vs) (ByProducer (S taken)) = true) as ->.
    { apply Nat.leb_le. apply lookup_lt_Some in Hx. lia. }
    cbn. rewrite !app_nil_r. by eexists.
Qed.
End Runs.

(** ** Properties *)

(** C34: The queue is race-free and first-in first-out.  Whatever the interleaving of
    the two threads' steps, and however stale the indices are that they read of
    each other, no run reaches a data race on a slot, what was popped is a prefix
    of what was pushed, and never more than the capacity (one when it is given as
    zero) is in the queue. *)
Theorem spsc_fifo {T} (d : T) (moved : T -> T) capacity schedule :
  exists q trace, run moved schedule (NewSpscQueue d capacity) [] = Some (q, trace) /\
    popped trace `prefix_of` pushed trace /\ length (pushed trace) <= length (popped trace) + room capacity.
Proof.
  destruct (run_consistent moved schedule _ _ (new_consistent d capacity)) as (q & trace & Hrun & [Hq Hp]).
  exists q, trace. split_and!; [done|done|]. apply run_slots in Hrun. rewrite new_slots in Hrun.
  destruct Hq as [_ _ _ H4 H5 _ _ _ _]. unfold capacity_ in H5. lia.
Qed.

(** A call that is not interfered with does its job.  After any run, when its
    thread is between calls and reads the latest indices: [TryPush] succeeds
    exactly while fewer elements than the capacity are in the queue, and [TryPop]
    returns the oldest element, or nothing exactly when the queue is empty. *)
Theorem spsc_calls_complete {T} (d v : T) (moved : T -> T) capacity schedule q trace :
  run moved schedule (NewSpscQueue d capacity) [] = Some (q, trace) ->
  (producer q = PIdle -> exists q', run moved (solo_push v q) q trace =
     Some (q', trace ++ [if length (pushed trace) - length (popped trace) <? room capacity then Pushed v else Full])) /\
  (consumer q = CIdle -> exists q', run moved (solo_pop q) q trace =
     Some (q', trace ++ [match pushed trace !! length (popped trace) with Some x => Popped x | None => Empty end])).
Proof.
  intros Hrun. destruct (run_consistent moved schedule _ _ (new_consistent d capacity)) as (q1 & trace1 & Hrun1 & Hc).
  rewrite Hrun in Hrun1. injection Hrun1 as <- <-. split; intros Hidle.
  - destruct (solo_push_run moved v q trace Hc Hidle) as (q' & Hq'). exists q'. rewrite Hq'.
    apply run_slots in Hrun. rewrite new_slots in Hrun. unfold capacity_. by rewrite Hrun.
  - exact (solo_pop_run moved q trace Hc Hidle).
Qed.

(** A queue of capacity two: a push overlaps a pop that still sees it empty. *)
Definition demo_schedule : list (Action nat) :=
  [PushBegin 7; PopBegin; PushCheck 0; PopCheck 0; PushWrite; PushPublish; PushBegin 8; PushCheck 0; PushWrite; PushPublish].

Lemma spsc_calls_complete_witness :
  exists q trace, run id demo_schedule (NewSpscQueue 0 2) [] = Some (q, trace) /\ trace = [Empty; Pushed 7; Pushed 8] /\
    (exists q', run id (solo_push 9 q) q trace = Some (q', trace ++ [Full])) /\
    exists q', run id (solo_pop q) q trace = Some (q', trace ++ [Popped 7]).
Proof.
  destruct (run id demo_schedule (NewSpscQueue 0 2) []) as [[q trace]|] eqn:E; [|exfalso; revert E; vm_compute; discriminate].
  exists q, trace. split; [reflexivity|]. destruct (spsc_calls_complete 0 9 id 2 demo_schedule q trace E) as [H1 H2].
  revert H1 H2 E. vm_compute. intros H1 H2 [= <- <-]. split; [reflexivity|]. split; [apply H1; reflexivity|apply H2; reflexivity].
Defined.
