(* ===== verification/Heap.v ===== *)
(** * Binary heaps in a vector

    [std::push_heap] and [std::pop_heap] over a random-access range.  The standard
    fixes what they establish and not how they arrange equal elements: the class
    [HeapAlgorithms] states the former, and sifting up and down implements it. *)
From S2P Require Import Prelude.
Open Scope nat_scope.

Section HeapDef.
Context {A : Type} (key : A -> Z).

Definition parent (i : nat) : nat := (i - 1) / 2.

Definition heap_at (l : list A) (i : nat) : Prop :=
  forall a b, l !! parent i = Some a -> l !! i = Some b -> (key a <= key b)%Z.

(** No element is smaller than the one above it. *)
Definition is_heap (l : list A) : Prop := forall i, 1 <= i -> heap_at l i.
End HeapDef.

Class HeapAlgorithms {A : Type} (key : A -> Z) := {
  push_heap : list A -> list A;
  pop_heap : list A -> list A;
  push_heap_spec l x : is_heap key l -> is_heap key (push_heap (l ++ [x])) /\ push_heap (l ++ [x]) ≡ₚ l ++ [x];
  pop_heap_spec l x : is_heap key (x :: l) -> exists l', pop_heap (x :: l) = l' ++ [x] /\ is_heap key l' /\ l' ≡ₚ l;
}.

Section Heaps.
Context {A : Type} (key : A -> Z).

Lemma parent_lt i : 1 <= i -> parent i < i.
Proof. intros Hi. unfold parent. apply Nat.Div0.div_lt_upper_bound. lia. Qed.

Lemma parent_child i h : 1 <= i -> (parent i = h <-> i = 2 * h + 1 \/ i = 2 * h + 2).
Proof.
  intros Hi. unfold parent. pose proof (Nat.div_mod_eq (i - 1) 2). pose proof (Nat.mod_upper_bound (i - 1) 2 ltac:(lia)).
  split; intros; lia.
Qed.

Lemma heap_nil : is_heap key [].
Proof. intros i _ a b Ha. done. Qed.

Lemma heap_front (l : list A) a : is_heap key (a :: l) -> forall i b, (a :: l) !! i = Some b -> (key a <= key b)%Z.
Proof.
  intros Hh i. induction (lt_wf i) as [i _ IH]. intros b Hb. destruct i as [|i]; [cbn in Hb; injection Hb as ->; lia|].
  destruct (lookup_lt_is_Some_2 (a :: l) (parent (S i))) as [c Hc].
  { pose proof (parent_lt (S i) ltac:(lia)). apply lookup_lt_Some in Hb. lia. }
  pose proof (IH (parent (S i)) (parent_lt (S i) ltac:(lia)) c Hc). pose proof (Hh (S i) ltac:(lia) c b Hc Hb). lia.
Qed.

(** ** Exchanging two elements *)

Definition swap (i j : nat) (l : list A) : list A :=
  match l !! i, l !! j with
  | Some a, Some b => <[i := b]> (<[j := a]> l)
  | _, _ => l
  end.

Lemma swap_length i j l : length (swap i j l) = length l.
Proof. unfold swap. repeat case_match; by rewrite ?length_insert. Qed.

Lemma swap_lookup i j l a b k : l !! i = Some a -> l !! j = Some b -> i <> j ->
  swap i j l !! k = if decide (k = i) then Some b else if decide (k = j) then Some a else l !! k.
Proof.
  intros Ha Hb Hne. unfold swap. rewrite Ha, Hb. pose proof (lookup_lt_Some _ _ _ Ha). pose proof (lookup_lt_Some _ _ _ Hb).
  repeat case_decide; subst.
  - by rewrite list_lookup_insert_eq by (by rewrite length_insert).
  - rewrite list_lookup_insert_ne by done. by rewrite list_lookup_insert_eq.
  - by rewrite !list_lookup_insert_ne by done.
Qed.

Lemma swap_perm i j l : swap i j l ≡ₚ l.
Proof.
  unfold swap. destruct (l !! i) as [a|] eqn:Ha; [|done]. destruct (l !! j) as [b|] eqn:Hb; [|done].
  destruct (decide (i = j)) as [->|Hne].
  { assert (a = b) as -> by congruence. rewrite list_insert_insert_eq, list_insert_id by done. done. }
  apply Permutation_inj. split; [by rewrite !length_insert|].
  exists (fun k => if decide (k = i) then j else if decide (k = j) then i else k). split.
  - intros x y. repeat case_decide; subst; congruence || done.
  - intros k. pose proof (swap_lookup i j l a b k Ha Hb Hne) as Hs. unfold swap in Hs. rewrite Ha, Hb in Hs.
    rewrite Hs. repeat case_decide; subst; congruence || done.
Qed.

(** ** Sifting up *)

Fixpoint sift_up (fuel i : nat) (l : list A) : list A :=
  match fuel with
  | O => l
  | S fuel =>
      if i =? 0 then l
      else match l !! parent i, l !! i with
           | Some a, Some b => if (key a >? key b)%Z then sift_up fuel (parent i) (swap (parent i) i l) else l
           | _, _ => l
           end
  end.

(** A heap everywhere but at [i], with the element above [i] below those under it. *)
Definition heap_but_up (l : list A) (i : nat) : Prop :=
  (forall k, 1 <= k -> k <> i -> heap_at key l k) /\
  (1 <= i -> forall k a b, 1 <= k -> parent k = i -> l !! parent i = Some a -> l !! k = Some b -> (key a <= key b)%Z).

Lemma sift_up_step l i a b : 1 <= i -> heap_but_up l i -> l !! parent i = Some a -> l !! i = Some b -> (key b < key a)%Z ->
  heap_but_up (swap (parent i) i l) (parent i).
Proof.
  intros Hi [Hk Hg] Ha Hb Hlt. pose proof (parent_lt i Hi) as Hp.
  assert (Hl : forall k, swap (parent i) i l !! k = if decide (k = parent i) then Some b else if decide (k = i) then Some a else l !! k)
    by (intros k; apply swap_lookup; [done|done|lia]).
  split.
  - intros k H1 Hne x y. rewrite !Hl. pose proof (parent_lt k H1). repeat case_decide; try lia; intros; simplify_eq; try lia.
    + assert (key a <= key y)%Z; [|lia]. apply (Hk k); [lia|done|congruence|done].
    + apply (Hg ltac:(lia) k x y); done.
    + apply (Hk k ltac:(lia) ltac:(done) x y); done.
  - intros H1 k x y H2 Hpk. rewrite !Hl. pose proof (parent_lt (parent i) H1). pose proof (parent_lt k H2).
    repeat case_decide; try lia; intros Hx Hy; simplify_eq.
    + apply (Hk (parent i) ltac:(lia) ltac:(lia) x y); done.
    + pose proof (Hk (parent i) ltac:(lia) ltac:(lia) x a Hx Ha).
      assert (key a <= key y)%Z; [|lia]. apply (Hk k); [lia|done|congruence|done].
Qed.

Lemma sift_up_spec fuel : forall i l, i <= fuel -> i < length l -> heap_but_up l i -> is_heap key (sift_up fuel i l) /\ sift_up fuel i l ≡ₚ l.
Proof.
  induction fuel as [|fuel IH]; intros i l Hf Hl Hh; cbn [sift_up].
  { split; [|done]. intros k Hk. apply Hh; [done|lia]. }
  destruct (Nat.eqb_spec i 0) as [->|Hi]; [split; [intros k Hk; apply Hh; [done|lia]|done]|].
  pose proof (parent_lt i ltac:(lia)). destruct (lookup_lt_is_Some_2 l (parent i) ltac:(lia)) as [a Ha].
  destruct (lookup_lt_is_Some_2 l i Hl) as [b Hb]. rewrite Ha, Hb. destruct (key a >? key b)%Z eqn:E; bool_to_prop.
  - destruct (IH (parent i) (swap (parent i) i l)) as [H1 H2]; [lia|rewrite swap_length; lia| |].
    + apply (sift_up_step l i a b); [lia|done|done|done|lia].
    + split; [done|]. by rewrite H2, swap_perm.
  - split; [|done]. intros k Hk. destruct (decide (k = i)) as [->|]; [|by apply Hh].
    intros x y Hx Hy. simplify_eq. lia.
Qed.

Definition vector_push_heap (l : list A) : list A := sift_up (length l) (length l - 1) l.

Lemma vector_push_heap_spec l x :
  is_heap key l -> is_heap key (vector_push_heap (l ++ [x])) /\ vector_push_heap (l ++ [x]) ≡ₚ l ++ [x].
Proof.
  intros Hl. unfold vector_push_heap. rewrite length_app. cbn [length]. replace (length l + 1 - 1) with (length l) by lia.
  apply sift_up_spec; [lia|rewrite length_app; cbn; lia|]. split.
  - intros k Hk Hne a b Ha Hb. pose proof (lookup_lt_Some _ _ _ Hb) as Hlt. rewrite length_app in Hlt. cbn in Hlt.
    pose proof (parent_lt k Hk). rewrite lookup_app_l in Ha, Hb by lia. by apply (Hl k Hk a b).
  - intros Hi k a b Hk Hp _ Hb. pose proof (lookup_lt_Some _ _ _ Hb) as Hlt. rewrite length_app in Hlt. cbn in Hlt.
    apply parent_child in Hp; lia.
Qed.

(** ** Sifting down *)

(** The child with the smaller key, of those that exist. *)
Definition smaller_child (h : nat) (l : list A) : option (nat * A) :=
  match l !! (2 * h + 1), l !! (2 * h + 2) with
  | Some a, Some b => Some (if (key b <? key a)%Z then (2 * h + 2, b) else (2 * h + 1, a))
  | Some a, None => Some (2 * h + 1, a)
  | None, _ => None
  end.

Fixpoint sift_down (fuel h : nat) (l : list A) : list A :=
  match fuel with
  | O => l
  | S fuel =>
      match l !! h, smaller_child h l with
      | Some v, Some (c, b) => if (key v >? key b)%Z then sift_down fuel c (swap h c l) else l
      | _, _ => l
      end
  end.

(** A heap but for the children of [h], which are not below what is above [h]. *)
Definition heap_but_down (l : list A) (h : nat) : Prop :=
  (forall k, 1 <= k -> parent k <> h -> heap_at key l k) /\
  (1 <= h -> forall k a b, 1 <= k -> parent k = h -> l !! parent h = Some a -> l !! k = Some b -> (key a <= key b)%Z).

Lemma smaller_child_spec h l :
  match smaller_child h l with
  | Some (c, b) => 1 <= c /\ parent c = h /\ l !! c = Some b /\
                   forall k x, 1 <= k -> parent k = h -> l !! k = Some x -> (key b <= key x)%Z
  | None => forall k x, 1 <= k -> parent k = h -> l !! k = Some x -> False
  end.
Proof.
  assert (Hc : forall k x, 1 <= k -> parent k = h -> l !! k = Some x -> l !! (2 * h + 1) = Some x \/ l !! (2 * h + 2) = Some x).
  { intros k x Hk Hp Hx. apply parent_child in Hp as [->| ->]; auto. }
  assert (H1 : parent (2 * h + 1) = h) by (apply parent_child; lia). assert (H2 : parent (2 * h + 2) = h) by (apply parent_child; lia).
  unfold smaller_child. destruct (l !! (2 * h + 1)) as [a|] eqn:E1; destruct (l !! (2 * h + 2)) as [b|] eqn:E2.
  - destruct (Z.ltb_spec (key b) (key a)); (split_and!; [lia|done|done|]); intros k x Hk Hp Hx; destruct (Hc k x Hk Hp Hx); simplify_eq; lia.
  - split_and!; [lia|done|done|]. intros k x Hk Hp Hx. destruct (Hc k x Hk Hp Hx); simplify_eq. lia.
  - apply lookup_lt_Some in E2. apply lookup_ge_None in E1. lia.
  - intros k x Hk Hp Hx. by destruct (Hc k x Hk Hp Hx).
Qed.

Lemma sift_down_step l h v c b : heap_but_down l h -> l !! h = Some v -> 1 <= c -> parent c = h -> l !! c = Some b ->
  (forall k x, 1 <= k -> parent k = h -> l !! k = Some x -> (key b <= key x)%Z) -> (key b < key v)%Z ->
  heap_but_down (swap h c l) c.
Proof.
  intros [Hk Hg] Hv Hc Hp Hb Hmin Hlt. pose proof (parent_lt c Hc) as Hpc.
  assert (Hl : forall k, swap h c l !! k = if decide (k = h) then Some b else if decide (k = c) then Some v else l !! k)
    by (intros k; apply swap_lookup; [done|done|lia]).
  split.
  - intros k H1 Hne x y. rewrite !Hl. pose proof (parent_lt k H1) as Hpk. repeat case_decide; try lia; intros Hx Hy; simplify_eq; try lia.
    + by apply (Hmin k y).
    + by apply (Hg ltac:(lia) c x y).
    + by apply (Hk k ltac:(lia) ltac:(done) x y).
  - intros _ k x y H1 Hpk. rewrite !Hl. pose proof (parent_lt k H1). repeat case_decide; try lia; intros Hx Hy; simplify_eq; try lia.
    apply (Hk k); [lia|lia| |done]. congruence.
Qed.

Lemma sift_down_spec fuel : forall h l, length l <= h + fuel -> heap_but_down l h ->
  is_heap key (sift_down fuel h l) /\ sift_down fuel h l ≡ₚ l.
Proof.
  induction fuel as [|fuel IH]; intros h l Hf Hh; cbn [sift_down].
  { split; [|done]. intros k Hk. destruct (decide (parent k = h)) as [Hp|]; [|by apply Hh].
    intros a b Ha Hb. apply lookup_lt_Some in Ha. lia. }
  destruct (l !! h) as [v|] eqn:Hv.
  2: { split; [|done]. intros k Hk. destruct (decide (parent k = h)) as [Hp|]; [|by apply Hh]. intros a b Ha. congruence. }
  pose proof (smaller_child_spec h l) as Hs. destruct (smaller_child h l) as [[c b]|].
  2: { split; [|done]. intros k Hk. destruct (decide (parent k = h)) as [Hp|]; [|by apply Hh].
       intros x y _ Hy. by destruct (Hs k y Hk Hp). }
  destruct Hs as (Hc & Hpc & Hb & Hmin). destruct (key v >? key b)%Z eqn:E; bool_to_prop.
  - pose proof (parent_lt c Hc). destruct (IH c (swap h c l)) as [H1 H2]; [rewrite swap_length; lia| |].
    + by apply (sift_down_step l h v c b); [..|lia].
    + split; [done|]. by rewrite H2, swap_perm.
  - split; [|done]. intros k Hk. destruct (decide (parent k = h)) as [Hp|]; [|by apply Hh].
    intros x y Hx Hy. rewrite Hp, Hv in Hx. injection Hx as <-. specialize (Hmin k y Hk Hp Hy). lia.
Qed.

(** The last element takes the place of the front, which moves behind the heap. *)
Definition vector_pop_heap (l : list A) : list A :=
  match l with
  | [] => []
  | x :: rest =>
      match last rest with
      | None => [x]
      | Some v => let body := v :: take (length rest - 1) rest in sift_down (length body) 0 body ++ [x]
      end
  end.

Lemma vector_pop_heap_spec l x : is_heap key (x :: l) ->
  exists l', vector_pop_heap (x :: l) = l' ++ [x] /\ is_heap key l' /\ l' ≡ₚ l.
Proof.
  intros Hh. cbn. destruct (last l) as [v|] eqn:El.
  2: { apply last_None in El as ->. exists []. split; [done|]. split; [apply heap_nil|done]. }
  apply last_Some in El as [l0 ->]. rewrite length_app. cbn [length]. replace (length l0 + 1 - 1) with (length l0) by lia.
  rewrite take_app_length. eexists. split; [reflexivity|].
  destruct (sift_down_spec (S (length l0)) 0 (v :: l0)) as [H1 H2]; [cbn; lia| |split; [done|]].
  - split; [|lia]. intros k Hk Hp a b Ha Hb. pose proof (parent_lt k Hk). pose proof (lookup_lt_Some _ _ _ Hb) as Hlt. cbn in Hlt.
    apply (Hh k Hk a b); (destruct k as [|k]; [lia|]).
    + destruct (parent (S k)) as [|p]; [done|]. change ((l0 ++ [v]) !! p = Some a). rewrite lookup_app_l by lia. exact Ha.
    + change ((l0 ++ [v]) !! k = Some b). rewrite lookup_app_l by lia. exact Hb.
  - cbn [length]. rewrite H2. by rewrite Permutation_app_comm.
Qed.

#[export] Instance vector_heap : HeapAlgorithms key := {
  push_heap := vector_push_heap;
  pop_heap := vector_pop_heap;
  push_heap_spec := vector_push_heap_spec;
  pop_heap_spec := vector_pop_heap_spec;
}.
End Heaps.
