(* ===== verification/TimerWheel.v ===== *)
(** * The timer wheel

    [TimerWheel] ([runtime/timer_wheel.h]): a heap of deadlines with lazy deletion.
    Rescheduling or cancelling a timer leaves its old entry in the heap; a
    generation number per timer tells the entry that counts from the stale ones.
    The abstract wheel is a finite map from timers to deadlines. *)
From S2P Require Import Prelude Heap.
From Stdlib Require Import Sorting.Sorted.
Open Scope Z_scope.

Record HeapEntry := MkEntry { deadline_ns : Z; timer_id : Z; generation : Z }.

#[export] Instance HeapEntry_eq_dec : EqDecision HeapEntry.
Proof. solve_decision. Defined.

Record TimerWheelOptions := MkWheelOptions { tick_ns : Z; slot_count : Z }.

Record TimerWheel := MkWheel {
  options_ : TimerWheelOptions;
  initialized_ : bool;
  base_time_ns_ : Z;
  current_time_ns_ : Z;
  current_tick_ : Z;
  heap_ : list HeapEntry;
  active_generation_ : gmap Z Z;
  next_generation_ : Z;
  earliest_deadline_ : option Z;
}.

Definition kMinimumTimerWheelTickNs : Z := 1.
Definition kMinimumTimerWheelSlotCount : Z := 1.

Definition NewTimerWheel (o : TimerWheelOptions) : TimerWheel :=
  MkWheel (MkWheelOptions (if tick_ns o =? 0 then kMinimumTimerWheelTickNs else tick_ns o)
                          (if slot_count o =? 0 then kMinimumTimerWheelSlotCount else slot_count o))
    false 0 0 0 [] ∅ 0 None.

Definition Clear (w : TimerWheel) : TimerWheel := MkWheel (options_ w) false 0 0 0 [] ∅ 0 None.

Definition EnsureInitialized (now_ns : Z) (w : TimerWheel) : TimerWheel :=
  MkWheel (options_ w) true (if initialized_ w then base_time_ns_ w else now_ns) now_ns
    (if initialized_ w then current_tick_ w else 0) (heap_ w) (active_generation_ w) (next_generation_ w) (earliest_deadline_ w).

Definition set_heap (h : list HeapEntry) (w : TimerWheel) : TimerWheel :=
  MkWheel (options_ w) (initialized_ w) (base_time_ns_ w) (current_time_ns_ w) (current_tick_ w) h (active_generation_ w)
    (next_generation_ w) (earliest_deadline_ w).
Definition set_active (m : gmap Z Z) (w : TimerWheel) : TimerWheel :=
  MkWheel (options_ w) (initialized_ w) (base_time_ns_ w) (current_time_ns_ w) (current_tick_ w) (heap_ w) m
    (next_generation_ w) (earliest_deadline_ w).
Definition set_earliest (e : option Z) (w : TimerWheel) : TimerWheel :=
  MkWheel (options_ w) (initialized_ w) (base_time_ns_ w) (current_time_ns_ w) (current_tick_ w) (heap_ w) (active_generation_ w)
    (next_generation_ w) e.

Section Wheel.
Context `{HeapAlgorithms HeapEntry deadline_ns}.

Definition Schedule (timer_id deadline_ns now_ns : Z) (w : TimerWheel) : TimerWheel :=
  let w := EnsureInitialized now_ns w in
  let gen := next_generation_ w in
  let heap := push_heap (heap_ w ++ [MkEntry deadline_ns timer_id gen]) in
  let earliest :=
    match earliest_deadline_ w with
    | None => Some deadline_ns
    | Some e => if deadline_ns <? e then Some deadline_ns else Some e
    end in
  MkWheel (options_ w) (initialized_ w) (base_time_ns_ w) (current_time_ns_ w) (current_tick_ w) heap
    (<[timer_id := gen]> (active_generation_ w)) (gen +u64 1) earliest.

Definition Cancel (timer_id : Z) (w : TimerWheel) : TimerWheel := set_active (delete timer_id (active_generation_ w)) w.

(** [std::pop_heap] and [pop_back]. *)
Definition drop_front (h : list HeapEntry) : list HeapEntry := take (length h - 1) (pop_heap h).

Definition is_active (e : HeapEntry) (active : gmap Z Z) : bool := bool_decide (active !! timer_id e = Some (generation e)).

(** The loop of [PopExpired]; every round removes an entry. *)
Fixpoint pop_loop (fuel : nat) (now_ns : Z) (w : TimerWheel) (expired : list Z) : TimerWheel * list Z :=
  match fuel, heap_ w with
  | S fuel, entry :: _ =>
      if deadline_ns entry >? now_ns then (w, expired)
      else
        let w := set_heap (drop_front (heap_ w)) w in
        if is_active entry (active_generation_ w)
        then pop_loop fuel now_ns (set_active (delete (timer_id entry) (active_generation_ w)) w) (expired ++ [timer_id entry])
        else pop_loop fuel now_ns w expired
  | _, _ => (w, expired)
  end.

Fixpoint purge_loop (fuel : nat) (active : gmap Z Z) (h : list HeapEntry) : list HeapEntry :=
  match fuel, h with
  | S fuel, top :: _ => if is_active top active then h else purge_loop fuel active (drop_front h)
  | _, _ => h
  end.

Definition PurgeStaleTop (w : TimerWheel) : TimerWheel :=
  set_heap (purge_loop (length (heap_ w)) (active_generation_ w) (heap_ w)) w.

(** The out parameter is [None] for a null pointer, else the vector appended to. *)
Definition PopExpired (now_ns : Z) (expired_timer_ids : option (list Z)) (w : TimerWheel) : TimerWheel * option (list Z) :=
  match expired_timer_ids with
  | None => (w, None)
  | Some expired =>
      let w := EnsureInitialized now_ns w in
      let '(w, expired) := pop_loop (length (heap_ w)) now_ns w expired in
      let w := PurgeStaleTop w in
      (set_earliest (match heap_ w with [] => None | e :: _ => Some (deadline_ns e) end) w, Some expired)
  end.

Definition NextDeadline (w : TimerWheel) : option Z := earliest_deadline_ w.

(** ** The wheel as a map of deadlines *)

Record wheel_ok (w : TimerWheel) (m : gmap Z Z) : Prop := {
  wheel_heap : is_heap deadline_ns (heap_ w);
  wheel_generations : NoDup (map generation (heap_ w));
  wheel_counter : 0 <= next_generation_ w;
  wheel_next : Forall (fun e => 0 <= generation e < next_generation_ w) (heap_ w);
  wheel_timers : forall id d, m !! id = Some d <-> exists g, active_generation_ w !! id = Some g /\ MkEntry d id g ∈ heap_ w;
  wheel_active : forall id g, active_generation_ w !! id = Some g -> exists d, MkEntry d id g ∈ heap_ w;
}.

(** The cached deadline is the front of the heap. *)
Definition cached (w : TimerWheel) : Prop :=
  earliest_deadline_ w = match heap_ w with [] => None | e :: _ => Some (deadline_ns e) end.

Lemma front_min e h x : is_heap deadline_ns (e :: h) -> x ∈ e :: h -> deadline_ns e <= deadline_ns x.
Proof. intros Hh Hx. apply list_elem_of_lookup in Hx as [i Hi]. by apply (heap_front deadline_ns h e Hh i). Qed.

Lemma drop_front_spec e h : is_heap deadline_ns (e :: h) -> is_heap deadline_ns (drop_front (e :: h)) /\ drop_front (e :: h) ≡ₚ h.
Proof.
  intros Hh. destruct (pop_heap_spec h e Hh) as (l' & Hp & Hl & Hperm). unfold drop_front. rewrite Hp.
  cbn [length]. rewrite <- (Permutation_length Hperm). replace (S (length l') - 1)%nat with (length l') by lia.
  by rewrite take_app_length.
Qed.

(** An entry with the generation of another one is that entry. *)
Lemma same_entry (h : list HeapEntry) x y : NoDup (map generation h) -> x ∈ h -> y ∈ h -> generation x = generation y -> x = y.
Proof.
  intros Hnd Hx Hy Hg. apply list_elem_of_lookup in Hx as [i Hi]. apply list_elem_of_lookup in Hy as [j Hj].
  assert (i = j) as ->; [|congruence]. eapply NoDup_lookup; [exact Hnd|rewrite list_lookup_fmap, Hi; reflexivity|].
  rewrite list_lookup_fmap, Hj. cbn. by rewrite Hg.
Qed.

(** Replacing the heap by a rearrangement of it, less entries that are not active. *)
Lemma wheel_ok_heap w m h gone : is_heap deadline_ns h -> heap_ w ≡ₚ gone ++ h ->
  Forall (fun e => is_active e (active_generation_ w) = false) gone -> wheel_ok w m -> wheel_ok (set_heap h w) m.
Proof.
  intros Hh Hp Hg [H1 H2 H0 H3 H4 H5].
  assert (Hin : forall d id g, active_generation_ w !! id = Some g -> (MkEntry d id g ∈ heap_ w <-> MkEntry d id g ∈ h)).
  { intros d id g Ha. rewrite Hp, elem_of_app. split; [|auto]. intros [Hx|]; [|done].
    rewrite Forall_forall in Hg. apply Hg in Hx. unfold is_active in Hx. cbn in Hx. by apply bool_decide_eq_false in Hx. }
  constructor; cbn; [done| |done| | |].
  - rewrite Hp, map_app in H2. by apply NoDup_app in H2 as (_ & _ & ?).
  - rewrite Hp in H3. by apply Forall_app in H3 as [_ ?].
  - intros id d. rewrite H4. split; intros (g & Ha & Hm); exists g; (split; [done|]); by apply (Hin d id g Ha).
  - intros id g Ha. destruct (H5 id g Ha) as [d Hd]. exists d. by apply (Hin d id g Ha).
Qed.

Lemma wheel_ok_cancel w m id : wheel_ok w m -> wheel_ok (Cancel id w) (delete id m).
Proof.
  intros [H1 H2 H0 H3 H4 H5]. constructor; cbn; try done.
  - intros i d. rewrite lookup_delete_Some, H4. setoid_rewrite lookup_delete_Some. naive_solver.
  - intros i g. rewrite lookup_delete_Some. intros [_ Ha]. eauto.
Qed.

Lemma wheel_ok_schedule w m id d now : next_generation_ w < UINT64_MAX -> wheel_ok w m -> cached w ->
  wheel_ok (Schedule id d now w) (<[id := d]> m) /\ cached (Schedule id d now w) /\
  next_generation_ (Schedule id d now w) = next_generation_ w + 1.
Proof.
  intros Hmax [H1 H2 H0 H3 H4 H5] Hc. set (g := next_generation_ w) in *. set (x := MkEntry d id g).
  destruct (push_heap_spec (heap_ w) x H1) as [Hh Hp].
  assert (Hnew : forall y, y ∈ push_heap (heap_ w ++ [x]) <-> y ∈ heap_ w \/ y = x) by (intros y; rewrite Hp; set_solver).
  assert (Hold : forall y, y ∈ heap_ w -> 0 <= generation y < g) by (by apply Forall_forall).
  assert (Hu : g +u64 1 = g + 1) by (apply u64_small; unfold in_u64, UINT64_MAX in *; lia).
  split; [constructor; cbn; fold g x; rewrite ?Hu; [done| |lia| | |]|split; [|done]].
  - rewrite Hp, map_app. apply NoDup_app. split_and!; [done| |apply NoDup_singleton].
    intros k Hk Hx. apply list_elem_of_fmap in Hk as (y & -> & Hy). apply Hold in Hy. apply list_elem_of_singleton in Hx. cbn in Hx. lia.
  - apply Forall_forall. intros y Hy. apply Hnew in Hy as [Hy| ->]; [apply Hold in Hy|cbn]; lia.
  - intros i e. destruct (decide (i = id)) as [->|Hne].
    + rewrite !lookup_insert_eq. split; [intros [= <-]; exists g; split; [done|apply Hnew; by right]|].
      intros (g' & [= <-] & Hy). apply Hnew in Hy as [Hy|[= ->]]; [apply Hold in Hy; cbn in Hy; lia|done].
    + rewrite !lookup_insert_ne, H4 by done. split; intros (g' & Ha & Hy); exists g'; (split; [done|]).
      * apply Hnew. by left.
      * apply Hnew in Hy as [Hy|[= -> -> ->]]; [done|]. done.
  - intros i g'. destruct (decide (i = id)) as [->|Hne].
    + rewrite lookup_insert_eq. intros [= <-]. exists d. apply Hnew. by right.
    + rewrite lookup_insert_ne by done. intros Ha. destruct (H5 i g' Ha) as [e He]. exists e. apply Hnew. by left.
  - unfold cached, Schedule in *. cbn. fold g x. rewrite Hc.
    destruct (push_heap (heap_ w ++ [x])) as [|f h] eqn:E.
    { exfalso. by eapply not_elem_of_nil, (Hnew x), or_intror. }
    assert (Hx : deadline_ns f <= d) by (apply (front_min f h x Hh), Hnew; by right).
    assert (Hf : f ∈ heap_ w \/ f = x) by (apply Hnew; left).
    destruct (heap_ w) as [|e h'] eqn:Eh; [destruct Hf as [Hf| ->]; [by apply not_elem_of_nil in Hf|done]|].
    assert (He : deadline_ns f <= deadline_ns e) by (apply (front_min f h e Hh), Hnew; left; left).
    assert (Hfe : deadline_ns f = deadline_ns e \/ deadline_ns f = d).
    { destruct Hf as [Hf| ->]; [|by right]. pose proof (front_min e h' f H1 Hf). left. lia. }
    destruct (Z.ltb_spec d (deadline_ns e)); f_equal; [|pose proof (front_min e h' f H1)]; destruct Hf as [Hf| ->]; cbn in *; lia.
Qed.

Lemma wheel_front e h w m : wheel_ok w m -> heap_ w = e :: h -> forall id d, m !! id = Some d -> deadline_ns e <= d.
Proof.
  intros Hw Eh id d Hm. apply (wheel_timers _ _ Hw) in Hm as (g & _ & Hin). rewrite Eh in Hin.
  apply (front_min e h _) in Hin; [done|]. rewrite <- Eh. apply (wheel_heap _ _ Hw).
Qed.

Lemma wheel_empty w m : wheel_ok w m -> heap_ w = [] -> m = ∅.
Proof.
  intros Hw Eh. apply map_empty. intros id. destruct (m !! id) as [d|] eqn:E; [|done].
  apply (wheel_timers _ _ Hw) in E as (g & _ & Hin). rewrite Eh in Hin. by apply not_elem_of_nil in Hin.
Qed.

Lemma active_timer e w m : wheel_ok w m -> e ∈ heap_ w -> is_active e (active_generation_ w) = true -> m !! timer_id e = Some (deadline_ns e).
Proof.
  intros Hw He Ha. unfold is_active in Ha. apply bool_decide_eq_true in Ha. apply (wheel_timers _ _ Hw).
  exists (generation e). by destruct e.
Qed.

(** The timers that have expired, in the order of their deadlines. *)
Definition expired_timers (now : Z) (m : gmap Z Z) (ids : list Z) : Prop :=
  exists ds, Forall2 (fun id d => m !! id = Some d) ids ds /\ StronglySorted Z.le ds /\ NoDup ids /\
    forall id, id ∈ ids <-> exists d, m !! id = Some d /\ d <= now.

Definition later (now : Z) (m : gmap Z Z) : gmap Z Z := filter (fun kd => now < snd kd) m.

Lemma none_expired now (m : gmap Z Z) : (forall id d, m !! id = Some d -> now < d) -> expired_timers now m [] /\ later now m = m.
Proof.
  intros Hm. split; [exists []; split_and!; [done|constructor|constructor|]|apply map_filter_id; exact Hm].
  intros id. split; [by intros ?%not_elem_of_nil|]. intros (d & Hd & Hle). apply Hm in Hd. lia.
Qed.

Lemma one_expired now (m : gmap Z Z) id d ids : m !! id = Some d -> d <= now -> (forall i e, m !! i = Some e -> d <= e) ->
  expired_timers now (delete id m) ids -> expired_timers now m (id :: ids) /\ later now (delete id m) = later now m.
Proof.
  intros Hd Hle Hmin (ds & H2 & Hs & Hn & Hin). split.
  - exists (d :: ds). assert (H2' : Forall2 (fun id d => m !! id = Some d) ids ds).
    { eapply Forall2_impl; [exact H2|]. intros i e Hi. by apply lookup_delete_Some in Hi as [_ Hi]. }
    split_and!; [by constructor| | |].
    + constructor; [done|]. apply Forall_forall. intros e He. apply list_elem_of_lookup in He as [k Hk].
      destruct (Forall2_lookup_r _ _ _ _ _ H2' Hk) as (i & _ & Hi). by apply (Hmin i).
    + constructor; [|done]. intros Hi. apply Hin in Hi as (e & He & _). by rewrite lookup_delete_eq in He.
    + intros i. rewrite elem_of_cons, Hin. setoid_rewrite lookup_delete_Some. destruct (decide (i = id)) as [->|]; naive_solver.
  - apply map_eq. intros i. apply option_eq. intros e. unfold later. rewrite !map_lookup_filter_Some, lookup_delete_Some. cbn.
    split; [naive_solver|]. intros [Hi Hlt]. split_and!; [|done|done]. intros ->. assert (e = d) by congruence. lia.
Qed.

Lemma pop_loop_spec fuel : forall now w m expired, (length (heap_ w) <= fuel)%nat -> wheel_ok w m ->
  exists w' ids, pop_loop fuel now w expired = (w', expired ++ ids) /\ wheel_ok w' (later now m) /\ expired_timers now m ids /\
    next_generation_ w' = next_generation_ w.
Proof.
  induction fuel as [|fuel IH]; intros now w m expired Hf Hw; cbn [pop_loop]; destruct (heap_ w) as [|e h] eqn:Eh;
    try (cbn in Hf; lia).
  1, 2: destruct (none_expired now m) as [H1 H2]; [rewrite (wheel_empty w m Hw Eh); intros id d Hd; by rewrite lookup_empty in Hd|];
    exists w, []; rewrite H2, app_nil_r; done.
  destruct (deadline_ns e >? now) eqn:E; bool_to_prop.
  { destruct (none_expired now m) as [H1 H2]; [intros id d Hd; pose proof (wheel_front e h w m Hw Eh id d Hd); lia|].
    exists w, []. rewrite H2, app_nil_r. done. }
  assert (Hh : is_heap deadline_ns (e :: h)) by (rewrite <- Eh; apply Hw).
  destruct (drop_front_spec e h Hh) as [Hd Hp]. pose proof (Permutation_length Hp) as Hlen. cbn in Hf.
  cbn [active_generation_ set_heap]. destruct (is_active e (active_generation_ w)) eqn:Ea.
  - assert (Hm : m !! timer_id e = Some (deadline_ns e)) by (eapply active_timer; [done|rewrite Eh; left|done]).
    set (w1 := set_active _ _).
    assert (Hw1 : wheel_ok w1 (delete (timer_id e) m)).
    { apply (wheel_ok_heap (Cancel (timer_id e) w) _ _ [e]); [done|cbn; by rewrite Eh, Hp| |by apply wheel_ok_cancel].
      constructor; [|done]. unfold is_active. cbn. by rewrite lookup_delete_eq. }
    destruct (IH now w1 (delete (timer_id e) m) (expired ++ [timer_id e])) as (w' & ids & -> & Hw' & Hids & Hn);
      [change (length (drop_front (e :: h)) <= fuel)%nat; lia|done|].
    destruct (one_expired now m (timer_id e) (deadline_ns e) ids Hm ltac:(lia) (wheel_front e h w m Hw Eh) Hids) as [H1 H2].
    exists w', (timer_id e :: ids). rewrite <- app_assoc, <- H2. done.
  - apply (IH now (set_heap (drop_front (e :: h)) w) m expired); [change (length (drop_front (e :: h)) <= fuel)%nat; lia|].
    apply (wheel_ok_heap w _ _ [e]); [done|by rewrite Eh, Hp| |done]. by constructor.
Qed.

Lemma purge_loop_spec fuel active : forall h, (length h <= fuel)%nat -> is_heap deadline_ns h ->
  exists gone, h ≡ₚ gone ++ purge_loop fuel active h /\ is_heap deadline_ns (purge_loop fuel active h) /\
    Forall (fun e => is_active e active = false) gone /\
    match purge_loop fuel active h with [] => True | e :: _ => is_active e active = true end.
Proof.
  induction fuel as [|fuel IH]; intros h Hf Hh; cbn [purge_loop]; destruct h as [|e h]; try (cbn in Hf; lia).
  1, 2: by exists [].
  destruct (is_active e active) eqn:Ea; [by exists []|]. destruct (drop_front_spec e h Hh) as [Hd Hp].
  destruct (IH (drop_front (e :: h))) as (gone & H1 & H2 & H3 & H4); [rewrite Hp; cbn in Hf; lia|done|].
  exists (e :: gone). split_and!; [|done|by constructor|done]. cbn. by rewrite <- H1, Hp.
Qed.

(** The answer of [NextDeadline]: never later than a deadline, and after the
    expired timers were taken exactly the first one. *)
Definition not_late (next : option Z) (m : gmap Z Z) : Prop := forall id d, m !! id = Some d -> exists e, next = Some e /\ e <= d.
Definition first_deadline (next : option Z) (m : gmap Z Z) : Prop :=
  match next with
  | None => m = ∅
  | Some e => (exists id, m !! id = Some e) /\ forall id d, m !! id = Some d -> e <= d
  end.

Lemma cached_not_late w m : wheel_ok w m -> cached w -> not_late (NextDeadline w) m.
Proof.
  intros Hw Hc id d Hd. unfold NextDeadline. rewrite Hc. destruct (heap_ w) as [|e h] eqn:Eh.
  - rewrite (wheel_empty w m Hw Eh) in Hd. by rewrite lookup_empty in Hd.
  - exists (deadline_ns e). split; [done|]. by apply (wheel_front e h w m Hw Eh id).
Qed.

Lemma PopExpired_spec now w m out : wheel_ok w m ->
  exists w' ids, PopExpired now (Some out) w = (w', Some (out ++ ids)) /\ wheel_ok w' (later now m) /\ cached w' /\
    expired_timers now m ids /\ first_deadline (NextDeadline w') (later now m) /\ next_generation_ w' = next_generation_ w.
Proof.
  intros Hw. unfold PopExpired. assert (Hw0 : wheel_ok (EnsureInitialized now w) m) by (by destruct Hw; constructor).
  destruct (pop_loop_spec (length (heap_ (EnsureInitialized now w))) now (EnsureInitialized now w) m out ltac:(lia) Hw0) as (w1 & ids & -> & Hw1 & Hids & Hn).
  destruct (purge_loop_spec (length (heap_ w1)) (active_generation_ w1) (heap_ w1) ltac:(lia) (wheel_heap _ _ Hw1)) as (gone & Hp & Hh & Hg & Htop).
  unfold PurgeStaleTop. set (h := purge_loop _ _ _) in *. pose proof (wheel_ok_heap w1 _ h gone Hh Hp Hg Hw1) as Hw2.
  eexists _, ids. split; [reflexivity|]. cbn [heap_ set_heap]. set (w3 := set_earliest _ _).
  assert (Hw3 : wheel_ok w3 (later now m)) by (by destruct Hw2; constructor).
  split_and!; [done|done|done| |done]. unfold first_deadline, NextDeadline, w3. cbn. clearbody h. destruct h as [|e h].
  - by apply (wheel_empty _ _ Hw2).
  - split; [exists (timer_id e); eapply active_timer; [exact Hw2|left|done]|]. apply (wheel_front e h _ _ Hw2 eq_refl).
Qed.

(** ** Histories *)

Inductive WheelOp :=
  | OpSchedule (id deadline now : Z)
  | OpCancel (id : Z)
  | OpPopExpired (now : Z)
  | OpClear.

(** What an operation shows: the timers it fired and the next deadline after it. *)
Definition wheel_exec (op : WheelOp) (w : TimerWheel) : TimerWheel * (list Z * option Z) :=
  match op with
  | OpSchedule id d now => let w := Schedule id d now w in (w, ([], NextDeadline w))
  | OpCancel id => let w := Cancel id w in (w, ([], NextDeadline w))
  | OpPopExpired now => let '(w, ids) := PopExpired now (Some []) w in (w, (default [] ids, NextDeadline w))
  | OpClear => let w := Clear w in (w, ([], NextDeadline w))
  end.

Fixpoint wheel_run (ops : list WheelOp) (w : TimerWheel) : list (list Z * option Z) :=
  match ops with
  | [] => []
  | op :: ops => let '(w, out) := wheel_exec op w in out :: wheel_run ops w
  end.

(** What a map of deadlines allows an operation to show, and the map after it. *)
Inductive allowed : gmap Z Z -> WheelOp -> list Z * option Z -> gmap Z Z -> Prop :=
  | allowed_schedule m id d now next : not_late next (<[id := d]> m) -> allowed m (OpSchedule id d now) ([], next) (<[id := d]> m)
  | allowed_cancel m id next : not_late next (delete id m) -> allowed m (OpCancel id) ([], next) (delete id m)
  | allowed_pop m now ids next : expired_timers now m ids -> first_deadline next (later now m) ->
      allowed m (OpPopExpired now) (ids, next) (later now m)
  | allowed_clear m : allowed m OpClear ([], None) ∅.

Inductive allowed_run : gmap Z Z -> list WheelOp -> list (list Z * option Z) -> Prop :=
  | allowed_nil m : allowed_run m [] []
  | allowed_cons m op out m' ops outs : allowed m op out m' -> allowed_run m' ops outs -> allowed_run m (op :: ops) (out :: outs).

Lemma exec_allowed op w m : next_generation_ w < UINT64_MAX -> wheel_ok w m -> cached w ->
  exists w' out m', wheel_exec op w = (w', out) /\ allowed m op out m' /\ wheel_ok w' m' /\ cached w' /\
    next_generation_ w' <= next_generation_ w + 1.
Proof.
  intros Hg Hw Hc. destruct op as [id d now|id|now|]; cbn [wheel_exec].
  - destruct (wheel_ok_schedule w m id d now Hg Hw Hc) as (H1 & H2 & H3).
    eexists _, _, _. split_and!; [reflexivity|constructor; by apply cached_not_late|done|done|lia].
  - assert (cached (Cancel id w)) by exact Hc. pose proof (wheel_ok_cancel w m id Hw).
    eexists _, _, _. split_and!; [reflexivity|constructor; by apply cached_not_late|done|done|cbn; lia].
  - destruct (PopExpired_spec now w m [] Hw) as (w' & ids & -> & H1 & H2 & H3 & H4 & H5).
    eexists _, _, _. split_and!; [reflexivity|by constructor|done|done|lia].
  - pose proof (wheel_counter _ _ Hw). eexists _, _, _. split_and!; [reflexivity|constructor| |done|cbn; lia].
    constructor; cbn; [apply heap_nil|constructor|lia|done| |].
    + intros i d. rewrite lookup_empty. split; [done|]. by intros (g & Hx & _).
    + intros i g. by rewrite lookup_empty.
Qed.

Lemma run_allowed ops : forall w m, next_generation_ w + Z.of_nat (length ops) <= UINT64_MAX -> wheel_ok w m -> cached w ->
  allowed_run m ops (wheel_run ops w).
Proof.
  induction ops as [|op ops IH]; intros w m Hg Hw Hc; cbn; [constructor|]. cbn [length] in Hg.
  destruct (exec_allowed op w m) as (w' & out & m' & -> & Ha & Hw' & Hc' & Hn); [lia|done|done|].
  econstructor; [exact Ha|]. apply IH; [lia|done|done].
Qed.
End Wheel.

(** ** Properties *)

(** C35: The wheel behaves as a map from timers to deadlines.  Over any history of
    fewer than 2^64 calls, with any heap algorithm that keeps the standard's
    contract: [PopExpired] fires exactly the timers whose current deadline has
    come, each once, in the order of the deadlines, never a cancelled or
    rescheduled one; [NextDeadline] is never later than a deadline that is still
    to come, and right after [PopExpired] it is exactly the first one. *)
Theorem timer_wheel_refines `{HeapAlgorithms HeapEntry deadline_ns} options ops :
  Z.of_nat (length ops) <= UINT64_MAX -> allowed_run ∅ ops (wheel_run ops (NewTimerWheel options)).
Proof.
  intros Hl. apply run_allowed; [cbn; lia| |done]. constructor; cbn; [apply heap_nil|constructor|lia|done| |].
  - intros i d. rewrite lookup_empty. split; [done|]. by intros (g & Hx & _).
  - intros i g. by rewrite lookup_empty.
Qed.

Definition demo_wheel_ops : list WheelOp :=
  [OpSchedule 1 50 0; OpSchedule 2 30 0; OpSchedule 3 40 0; OpSchedule 2 90 5; OpCancel 3; OpPopExpired 60].

(** Timer 2 was moved and timer 3 cancelled: only timer 1 fires, and the next
    deadline is that of timer 2. *)
Lemma timer_wheel_refines_witness :
  let outs := wheel_run demo_wheel_ops (NewTimerWheel (MkWheelOptions 1000000 4096)) in
  allowed_run ∅ demo_wheel_ops outs /\ last outs = Some ([1], Some 90).
Proof.
  split; [apply (timer_wheel_refines (MkWheelOptions 1000000 4096) demo_wheel_ops); cbn; unfold UINT64_MAX; lia|].
  vm_compute. reflexivity.
Defined.
