(* ===== verification/Schedule.v ===== *)
(** * Session schedules

    The windows of a session schedule ([runtime/session_schedule.cpp] and the
    schedule part of [runtime/config.cpp]): which windows a configuration has,
    whether an instant is inside one, when the next one opens and the present one
    closes; and the calendar of blackout dates. *)
From S2P Require Import Prelude Calendar Base StdAlgo IntFormat Wire.
Open Scope Z_scope.

(** ** Configuration *)

Inductive SessionDayOfWeek := kSunday | kMonday | kTuesday | kWednesday | kThursday | kFriday | kSaturday.
Definition day_index (d : SessionDayOfWeek) : Z :=
  match d with kSunday => 0 | kMonday => 1 | kTuesday => 2 | kWednesday => 3 | kThursday => 4 | kFriday => 5 | kSaturday => 6 end.

Record SessionTimeOfDay := MkTime { hour : Z; minute : Z; second : Z }.

(** The fields of one segment; the fields of a configuration without segments
    have the same shape. *)
Record SessionScheduleSegment := MkSegment {
  use_local_time : bool;
  start_time : option SessionTimeOfDay;
  end_time : option SessionTimeOfDay;
  start_day : option SessionDayOfWeek;
  end_day : option SessionDayOfWeek;
  logon_time : option SessionTimeOfDay;
  logout_time : option SessionTimeOfDay;
  logon_day : option SessionDayOfWeek;
  logout_day : option SessionDayOfWeek;
}.

Record SessionScheduleConfig := MkSchedule {
  legacy : SessionScheduleSegment;
  non_stop_session : bool;
  segments : list SessionScheduleSegment;
}.

Definition has {A} (o : option A) : bool := match o with Some _ => true | None => false end.

Definition IsValidTimeOfDay (t : SessionTimeOfDay) : bool := (hour t <? 24) && (minute t <? 60) && (second t <? 60).

Definition HasSessionWindowFields (s : SessionScheduleSegment) : bool :=
  has (start_time s) || has (end_time s) || has (start_day s) || has (end_day s).
Definition HasLogonWindowFields (s : SessionScheduleSegment) : bool :=
  has (logon_time s) || has (logout_time s) || has (logon_day s) || has (logout_day s).
Definition HasLegacyWindowFields (s : SessionScheduleSegment) : bool := HasSessionWindowFields s || HasLogonWindowFields s.

Definition SecondsOfDay (t : SessionTimeOfDay) : Z := hour t * 3600 + minute t * 60 + second t.

Definition validate_time_pair (label : string) (st et : option SessionTimeOfDay) (sd ed : option SessionDayOfWeek) : Status :=
  if negb (Bool.eqb (has st) (has et)) then status.InvalidArgument (label +:+ " requires both start and end times")
  else if negb (Bool.eqb (has sd) (has ed)) then status.InvalidArgument (label +:+ " requires both start and end days")
  else if (has sd || has ed) && negb (has st) then status.InvalidArgument (label +:+ " days require matching times")
  else if match st with Some t => negb (IsValidTimeOfDay t) | None => false end
  then status.InvalidArgument (label +:+ " start time is out of range")
  else if match et with Some t => negb (IsValidTimeOfDay t) | None => false end
  then status.InvalidArgument (label +:+ " end time is out of range")
  else status.Ok.

Definition validate_segment (session_label logon_label : string) (s : SessionScheduleSegment) : Status :=
  let st := validate_time_pair session_label (start_time s) (end_time s) (start_day s) (end_day s) in
  if status.ok st then validate_time_pair logon_label (logon_time s) (logout_time s) (logon_day s) (logout_day s) else st.

Fixpoint validate_segments (l : list SessionScheduleSegment) : Status :=
  match l with
  | [] => status.Ok
  | s :: l =>
      let st := validate_segment "chained segment session window" "chained segment logon window" s in
      if status.ok st then validate_segments l else st
  end.

Definition ValidateSessionSchedule (schedule : SessionScheduleConfig) : Status :=
  match segments schedule with
  | _ :: _ =>
      if non_stop_session schedule then status.InvalidArgument "non_stop_session cannot be combined with chained segments"
      else if HasLegacyWindowFields (legacy schedule)
      then status.InvalidArgument "cannot mix legacy single-window fields with chained segments"
      else validate_segments (segments schedule)
  | [] =>
      if non_stop_session schedule && HasLegacyWindowFields (legacy schedule)
      then status.InvalidArgument "non_stop_session cannot be combined with session or logon window settings"
      else validate_segment "session window" "logon window" (legacy schedule)
  end.

(** ** Windows *)

Record SessionWindowSpec := MkWindow {
  w_use_local_time : bool;
  w_start_second : Z;
  w_end_second : Z;
  w_start_day : option Z;
  w_end_day : option Z;
}.

(** [*optional]: undefined without a value. *)
Definition BuildWindow (local : bool) (st et : option SessionTimeOfDay) (sd ed : option SessionDayOfWeek) : option SessionWindowSpec :=
  match st, et with
  | Some st, Some et => Some (MkWindow local (SecondsOfDay st) (SecondsOfDay et) (day_index <$> sd) (day_index <$> ed))
  | _, _ => None
  end.

(** The outer option is [None] when the code dereferences an empty optional. *)
Definition BuildWindowSpec (s : SessionScheduleSegment) (non_stop logon_window : bool) : option (option SessionWindowSpec) :=
  if non_stop then Some None
  else if logon_window && HasLogonWindowFields s
  then Some <$> BuildWindow (use_local_time s) (logon_time s) (logout_time s) (logon_day s) (logout_day s)
  else if negb (HasSessionWindowFields s) then Some None
  else Some <$> BuildWindow (use_local_time s) (start_time s) (end_time s) (start_day s) (end_day s).

Fixpoint segment_windows (l : list SessionScheduleSegment) (logon_window : bool) : option (list SessionWindowSpec) :=
  match l with
  | [] => Some []
  | s :: l =>
      match BuildWindowSpec s false logon_window, segment_windows l logon_window with
      | Some w, Some ws => Some (match w with Some w => w :: ws | None => ws end)
      | _, _ => None
      end
  end.

Definition BuildWindowSpecs (schedule : SessionScheduleConfig) (logon_window : bool) : option (list SessionWindowSpec) :=
  if non_stop_session schedule then Some []
  else match segments schedule with
       | _ :: _ => segment_windows (segments schedule) logon_window
       | [] => match BuildWindowSpec (legacy schedule) (non_stop_session schedule) logon_window with
               | Some w => Some (match w with Some w => [w] | None => [] end)
               | None => None
               end
       end.

(** The local time zone, an environment of the process. *)
Class LocalTime := { localtime : Z -> tm; mktime : tm -> Z }.

Section Windows.
Context `{LocalTime}.

Record CalendarPoint := MkPoint { civil_time : tm; weekday : Z; second_of_day : Z }.

Definition kNanosecondsPerSecond : Z := 1000000000.

Definition BuildCalendarPoint (unix_time_ns : Z) (local : bool) : CalendarPoint :=
  let unix_seconds := unix_time_ns / kNanosecondsPerSecond in
  let c := if local then localtime unix_seconds else gmtime unix_seconds in
  MkPoint c (tm_wday c) (tm_hour c * 3600 + tm_min c * 60 + tm_sec c).

Definition MakeUnixTimeNs (c : tm) (local : bool) : option Z :=
  let unix_seconds :=
    if local then mktime (MkTm (tm_sec c) (tm_min c) (tm_hour c) (tm_mday c) (tm_mon c) (tm_year c) (tm_wday c) (-1)) else timegm c in
  if unix_seconds <? 0 then None else Some (unix_seconds *u64 kNanosecondsPerSecond).

(** Seconds into the cycle of the window. *)
Definition current_second (w : SessionWindowSpec) (p : CalendarPoint) : Z :=
  match w_start_day w with Some _ => weekday p * kSecondsPerDay + second_of_day p | None => second_of_day p end.
Definition window_start (w : SessionWindowSpec) : Z :=
  match w_start_day w with Some d => d * kSecondsPerDay + w_start_second w | None => w_start_second w end.
Definition window_end (w : SessionWindowSpec) : Z :=
  match w_end_day w with Some d => d * kSecondsPerDay + w_end_second w | None => w_end_second w end.

Definition IsWithinWindow (w : SessionWindowSpec) (unix_time_ns : Z) : bool :=
  let current := current_second w (BuildCalendarPoint unix_time_ns (w_use_local_time w)) in
  let start := window_start w in
  let end_ := window_end w in
  if start =? end_ then true
  else if start <? end_ then (current >=? start) && (current <? end_)
  else (current >=? start) || (current <? end_).

Definition with_time (c : tm) (start_second days : Z) : tm :=
  MkTm (start_second mod 60) ((start_second / 60) mod 60) (start_second / 3600) (tm_mday c + days) (tm_mon c) (tm_year c) (tm_wday c)
    (tm_isdst c).

Definition NextWindowStart (w : SessionWindowSpec) (unix_time_ns : Z) : option Z :=
  if IsWithinWindow w unix_time_ns then Some unix_time_ns
  else
    let p := BuildCalendarPoint unix_time_ns (w_use_local_time w) in
    let '(delta_days, retry) :=
      match w_start_day w with
      | Some d => (let delta := d - weekday p in if delta <? 0 then delta + 7 else delta, 7)
      | None => (0, 1)
      end in
    match MakeUnixTimeNs (with_time (civil_time p) (w_start_second w) delta_days) (w_use_local_time w) with
    | None => None
    | Some candidate_ns =>
        if candidate_ns <=? unix_time_ns
        then MakeUnixTimeNs (with_time (civil_time p) (w_start_second w) (delta_days + retry)) (w_use_local_time w)
        else Some candidate_ns
    end.

Definition WindowCycleSeconds (w : SessionWindowSpec) : Z :=
  match w_start_day w with Some _ => 7 * kSecondsPerDay | None => kSecondsPerDay end.

Definition CurrentWindowStartSecond (w : SessionWindowSpec) (p : CalendarPoint) : Z :=
  let current := current_second w p in
  let start := window_start w in
  if start =? window_end w then current
  else if start <? window_end w then start
  else if current >=? start then start else start - WindowCycleSeconds w.

Definition window_duration (w : SessionWindowSpec) : Z :=
  let span := window_end w - window_start w in if span <=? 0 then span + WindowCycleSeconds w else span.

Definition NextWindowClose (w : SessionWindowSpec) (unix_time_ns : Z) : option Z :=
  if negb (IsWithinWindow w unix_time_ns) then None
  else
    let p := BuildCalendarPoint unix_time_ns (w_use_local_time w) in
    let close_second := CurrentWindowStartSecond w p + window_duration w in
    let current_base := match w_start_day w with Some _ => weekday p * kSecondsPerDay | None => 0 end in
    let delta_seconds := close_second - (current_base + second_of_day p) in
    let c := civil_time p in
    MakeUnixTimeNs (MkTm (tm_sec c + delta_seconds) (tm_min c) (tm_hour c) (tm_mday c) (tm_mon c) (tm_year c) (tm_wday c) (tm_isdst c))
      (w_use_local_time w).

(** ** Over all windows of a schedule *)

Definition earlier (candidate earliest : option Z) : option Z :=
  match candidate, earliest with
  | Some c, Some e => if c <? e then Some c else Some e
  | Some c, None => Some c
  | None, e => e
  end.

Definition any_window (ws : list SessionWindowSpec) (unix_time_ns : Z) : bool :=
  match ws with [] => true | _ => existsb (fun w => IsWithinWindow w unix_time_ns) ws end.

Definition EarliestWindowStart (ws : list SessionWindowSpec) (unix_time_ns : Z) : option Z :=
  match ws with
  | [] => Some unix_time_ns
  | _ => fold_left (fun e w => earlier (NextWindowStart w unix_time_ns) e) ws None
  end.

Definition EarliestContainingWindowClose (ws : list SessionWindowSpec) (unix_time_ns : Z) : option Z :=
  fold_left (fun e w => if IsWithinWindow w unix_time_ns then earlier (NextWindowClose w unix_time_ns) e else e) ws None.

Definition IsWithinSessionWindow (s : SessionScheduleConfig) (t : Z) : option bool :=
  (fun ws => any_window ws t) <$> BuildWindowSpecs s false.
Definition IsWithinLogonWindow (s : SessionScheduleConfig) (t : Z) : option bool :=
  (fun ws => any_window ws t) <$> BuildWindowSpecs s true.
Definition NextSessionWindowStart (s : SessionScheduleConfig) (t : Z) : option (option Z) :=
  (fun ws => EarliestWindowStart ws t) <$> BuildWindowSpecs s false.
Definition NextLogonWindowStart (s : SessionScheduleConfig) (t : Z) : option (option Z) :=
  (fun ws => EarliestWindowStart ws t) <$> BuildWindowSpecs s true.
Definition NextSessionWindowClose (s : SessionScheduleConfig) (t : Z) : option (option Z) :=
  (fun ws => match ws with [] => None | _ => EarliestContainingWindowClose ws t end) <$> BuildWindowSpecs s false.
Definition NextLogonWindowClose (s : SessionScheduleConfig) (t : Z) : option (option Z) :=
  (fun ws => match ws with [] => None | _ => EarliestContainingWindowClose ws t end) <$> BuildWindowSpecs s true.

Record SessionScheduleStatus := MkScheduleStatus {
  status_session_id : Z;
  in_session_window : bool;
  in_logon_window : bool;
  next_session_window_open_ns : option Z;
  next_logon_window_open_ns : option Z;
  next_session_window_close_ns : option Z;
  non_stop : bool;
}.

Definition QueryScheduleStatus (session_id : Z) (schedule : SessionScheduleConfig) (t : Z) : option SessionScheduleStatus :=
  if non_stop_session schedule then Some (MkScheduleStatus session_id true true None None None true)
  else
    match IsWithinSessionWindow schedule t, IsWithinLogonWindow schedule t,
          NextLogonWindowStart schedule t, NextSessionWindowStart schedule t, NextSessionWindowClose schedule t with
    | Some in_session, Some in_logon, Some logon_open, Some session_open, Some session_close =>
        Some (MkScheduleStatus session_id in_session in_logon
                (if in_session then None else session_open) (if in_logon then None else logon_open)
                (if in_session then session_close else None) false)
    | _, _, _, _, _ => None
    end.
End Windows.

(** ** Blackout dates *)

Definition BlackoutDate := Z.

(** The sorted vector of [BlackoutCalendar]. *)
Definition date_lower_bound (date : BlackoutDate) (dates : list BlackoutDate) : nat := lower_bound (fun d => d <? date) dates.

Definition AddDate (date : BlackoutDate) (dates : list BlackoutDate) : list BlackoutDate :=
  let it := date_lower_bound date dates in
  match dates !! it with
  | Some d => if d =? date then dates else take it dates ++ date :: drop it dates
  | None => take it dates ++ date :: drop it dates
  end.

Definition AddDates (ds : list BlackoutDate) (dates : list BlackoutDate) : list BlackoutDate :=
  fold_left (fun dates d => AddDate d dates) ds dates.

Definition RemoveDate (date : BlackoutDate) (dates : list BlackoutDate) : list BlackoutDate :=
  let it := date_lower_bound date dates in
  match dates !! it with
  | Some d => if d =? date then take it dates ++ drop (S it) dates else dates
  | None => dates
  end.

Definition ClearDates (dates : list BlackoutDate) : list BlackoutDate := [].

(** [std::binary_search]. *)
Definition IsBlackoutDate (date : BlackoutDate) (dates : list BlackoutDate) : bool :=
  match dates !! date_lower_bound date dates with Some d => negb (date <? d) | None => false end.

Definition ExtractDate `{LocalTime} (unix_time_ns : Z) (local : bool) : BlackoutDate :=
  let c := civil_time (BuildCalendarPoint unix_time_ns local) in
  (tm_year c + 1900) * 10000 + (tm_mon c + 1) * 100 + tm_mday c.

Definition IsBlackout `{LocalTime} (unix_time_ns : Z) (local : bool) (dates : list BlackoutDate) : bool :=
  IsBlackoutDate (ExtractDate unix_time_ns local) dates.

Definition IsWithinSessionWindowWithBlackouts `{LocalTime} (s : SessionScheduleConfig) (dates : list BlackoutDate) (t : Z) : option bool :=
  if IsBlackout t (use_local_time (legacy s)) dates then Some false else IsWithinSessionWindow s t.

Definition IsWithinLogonWindowWithBlackouts `{LocalTime} (s : SessionScheduleConfig) (dates : list BlackoutDate) (t : Z) : option bool :=
  if IsBlackout t (use_local_time (legacy s)) dates then Some false else IsWithinLogonWindow s t.

Definition DaysInMonth (year month : Z) : Z :=
  if (month =? 0) || (month >? 12) then 0
  else if (month =? 2) && is_leap year then 29
  else nth (Z.to_nat (month - 1)) [31; 28; 31; 30; 31; 30; 31; 31; 30; 31; 30; 31] 0.

Definition ValidateDateParts (year month day : Z) : bool :=
  if (month =? 0) || (month >? 12) || (day =? 0) || (day >? 31) then false else day <=? DaysInMonth year month.

Definition DateParts (date : BlackoutDate) : Z * Z * Z := (date / 10000, (date / 100) mod 100, date mod 100).

(** [from_chars] over the whole text. *)
Definition ParseDigits (text : list Z) : option Z :=
  match from_chars_u32 text with
  | Some (value, consumed) => if (consumed =? length text)%nat then Some value else None
  | None => None
  end.

Definition parse_parts (text : list Z) (y m d : nat) (message : string) : Result BlackoutDate :=
  match ParseDigits (take 4 (drop y text)), ParseDigits (take 2 (drop m text)), ParseDigits (take 2 (drop d text)) with
  | Some year, Some month, Some day =>
      if negb (ValidateDateParts year month day) then Error (status.InvalidArgument "blackout date is out of range")
      else Value (u32 (year * 10000 + month * 100 + day))
  | _, _, _ => Error (status.InvalidArgument message)
  end.

Definition ParseBlackoutDate (text : list Z) : Result BlackoutDate :=
  if (length text =? 10)%nat && (nth 4 text 0 =? 45) && (nth 7 text 0 =? 45)
  then parse_parts text 0 5 8 "blackout date must use YYYY-MM-DD digits"
  else if (length text =? 8)%nat then parse_parts text 0 4 6 "blackout date must use YYYYMMDD digits"
  else Error (status.InvalidArgument "blackout date must be YYYY-MM-DD or YYYYMMDD").

(** A number in at least [width] digits, as [std::setw] with zeros. *)
Definition padded (width : nat) (v : Z) : list Z := let ds := FormatUint32 v in replicate (width - length ds) 48 ++ ds.

Definition BlackoutDateToString (date : BlackoutDate) : list Z :=
  let '(year, month, day) := DateParts date in padded 4 year ++ [45] ++ padded 2 month ++ [45] ++ padded 2 day.

(** ** Lemmas: windows in UTC *)

Definition window_valid (w : SessionWindowSpec) : Prop :=
  0 <= w_start_second w < kSecondsPerDay /\ 0 <= w_end_second w < kSecondsPerDay /\
  match w_start_day w, w_end_day w with
  | Some a, Some b => 0 <= a <= 6 /\ 0 <= b <= 6
  | None, None => True
  | _, _ => False
  end.

(** Seconds into the window's cycle; 1970-01-01 was a Thursday. *)
Definition phase (w : SessionWindowSpec) (sec : Z) : Z :=
  (sec + match w_start_day w with Some _ => 4 * kSecondsPerDay | None => 0 end) mod WindowCycleSeconds w.

Definition elapsed (w : SessionWindowSpec) (sec : Z) : Z := (phase w sec - window_start w) mod WindowCycleSeconds w.
Definition window_length (w : SessionWindowSpec) : Z := (window_end w - window_start w) mod WindowCycleSeconds w.
Definition always_open (w : SessionWindowSpec) : bool := window_start w =? window_end w.

Section Utc.
Context `{LocalTime}.

Lemma sod_split s : 0 <= s < 86400 -> s / 3600 * 3600 + (s / 60) mod 60 * 60 + s mod 60 = s.
Proof. intros. Z.to_euclidean_division_equations. lia. Qed.

Lemma point_utc t : let p := BuildCalendarPoint t false in let sec := t / kNanosecondsPerSecond in
  civil_time p = gmtime sec /\ weekday p = (sec / kSecondsPerDay + 4) mod 7 /\ second_of_day p = sec mod kSecondsPerDay.
Proof.
  cbn zeta. unfold BuildCalendarPoint. cbn [civil_time weekday second_of_day]. set (sec := t / kNanosecondsPerSecond).
  split; [done|]. unfold gmtime. destruct (civil_from_days _) as [[y m] d]. cbn. split; [done|].
  apply sod_split. unfold kSecondsPerDay. apply Z.mod_pos_bound. lia.
Qed.

Lemma cycle_pos w : 0 < WindowCycleSeconds w.
Proof. unfold WindowCycleSeconds, kSecondsPerDay. destruct (w_start_day w); lia. Qed.

Lemma current_utc w t : current_second w (BuildCalendarPoint t false) = phase w (t / kNanosecondsPerSecond).
Proof.
  destruct (point_utc t) as (_ & Hw & Hs). unfold current_second, phase, WindowCycleSeconds. rewrite Hw, Hs.
  set (sec := t / kNanosecondsPerSecond). unfold kSecondsPerDay. destruct (w_start_day w); [|by rewrite Z.add_0_r].
  Z.to_euclidean_division_equations. lia.
Qed.

Lemma start_end_range w : window_valid w -> 0 <= window_start w < WindowCycleSeconds w /\ 0 <= window_end w < WindowCycleSeconds w.
Proof.
  intros (H1 & H2 & H3). unfold window_start, window_end, WindowCycleSeconds, kSecondsPerDay in *.
  destruct (w_start_day w), (w_end_day w); try done; lia.
Qed.

Lemma mod_diff a b P : 0 < P -> 0 <= a < P -> 0 <= b < P -> (a - b) mod P = if b <=? a then a - b else a - b + P.
Proof.
  intros HP Ha Hb. destruct (Z.leb_spec b a); [apply Z.mod_small; lia|].
  rewrite <- (Z.mod_add _ 1) by lia. rewrite Z.mod_small; lia.
Qed.

(** Inside means: less has passed since the last start than the window is long. *)
Lemma within_utc w t : window_valid w -> w_use_local_time w = false ->
  IsWithinWindow w t = always_open w || (elapsed w (t / kNanosecondsPerSecond) <? window_length w).
Proof.
  intros Hv Hu. unfold IsWithinWindow, always_open, elapsed, window_length. rewrite Hu, current_utc.
  set (c := phase w _). pose proof (cycle_pos w) as HP. destruct (start_end_range w Hv) as [Hs He].
  assert (Hc : 0 <= c < WindowCycleSeconds w) by (apply Z.mod_pos_bound; done).
  rewrite !mod_diff by done. destruct (Z.eqb_spec (window_start w) (window_end w)); [done|]. cbn [orb].
  destruct (Z.ltb_spec (window_start w) (window_end w)); destruct (Z.leb_spec (window_start w) c), (Z.leb_spec (window_start w) (window_end w)); try lia;
    destruct (c >=? window_start w) eqn:E1; bool_to_prop; try lia; destruct (Z.ltb_spec c (window_end w)); cbn; symmetry; try (apply Z.ltb_lt; lia); try (apply Z.ltb_ge; lia).
Qed.

Lemma elapsed_shift w sec k : 0 <= elapsed w sec + k < WindowCycleSeconds w -> elapsed w (sec + k) = elapsed w sec + k.
Proof.
  intros Hk. pose proof (cycle_pos w) as HP. unfold elapsed, phase in *. rewrite !Zminus_mod_idemp_l in *.
  set (P := WindowCycleSeconds w) in *. match goal with |- ?a mod P = _ => replace a with (sec + match w_start_day w with Some _ => 4 * kSecondsPerDay | None => 0 end - window_start w + k) by lia end.
  rewrite <- Zplus_mod_idemp_l. apply Z.mod_small. done.
Qed.

Lemma elapsed_start w sec : elapsed w (sec + (WindowCycleSeconds w - elapsed w sec)) = 0.
Proof.
  pose proof (cycle_pos w) as HP. unfold elapsed, phase. rewrite !Zminus_mod_idemp_l. set (P := WindowCycleSeconds w) in *.
  set (o := match w_start_day w with Some _ => _ | None => _ end). set (x := sec + o - window_start w).
  replace (sec + (P - x mod P) + o - window_start w) with (x - x mod P + 1 * P) by (unfold x; lia).
  rewrite Z.mod_add by lia. rewrite Zminus_mod, Z.mod_mod, Z.sub_diag by lia. apply Z.mod_0_l. lia.
Qed.

Lemma elapsed_range w sec : 0 <= elapsed w sec < WindowCycleSeconds w.
Proof. apply Z.mod_pos_bound, cycle_pos. Qed.

Definition fits (sec : Z) : Prop := 0 <= sec /\ (sec + 8 * kSecondsPerDay) * kNanosecondsPerSecond <= UINT64_MAX.

Lemma make_utc sec x : fits sec -> 0 <= x <= sec + 8 * kSecondsPerDay -> x *u64 kNanosecondsPerSecond = x * kNanosecondsPerSecond.
Proof. intros [H0 Hf] Hx. apply u64_small. unfold in_u64, UINT64_MAX, kSecondsPerDay, kNanosecondsPerSecond in *. lia. Qed.

Lemma with_time_utc sec ss days : 0 <= ss < kSecondsPerDay ->
  timegm (with_time (gmtime sec) ss days) = (sec / kSecondsPerDay + days) * kSecondsPerDay + ss.
Proof.
  intros Hs. unfold with_time. rewrite timegm_gmtime.
  pose proof (sod_split ss Hs). unfold kSecondsPerDay in *. lia.
Qed.

Lemma seconds_le x t : x * kNanosecondsPerSecond <= t <-> x <= t / kNanosecondsPerSecond.
Proof. unfold kNanosecondsPerSecond. Z.to_euclidean_division_equations. lia. Qed.

(** The day of the first candidate, counted from today. *)
Definition first_delta (w : SessionWindowSpec) (sec : Z) : Z :=
  match w_start_day w with
  | Some d => let delta := d - (sec / kSecondsPerDay + 4) mod 7 in if delta <? 0 then delta + 7 else delta
  | None => 0
  end.
Definition retry_days (w : SessionWindowSpec) : Z := match w_start_day w with Some _ => 7 | None => 1 end.

Lemma retry_cycle w : retry_days w * kSecondsPerDay = WindowCycleSeconds w.
Proof. unfold retry_days, WindowCycleSeconds, kSecondsPerDay. by destruct (w_start_day w). Qed.

(** The candidate has the phase of the start and is less than a cycle away. *)
Lemma candidate_utc w sec : window_valid w ->
  let x := (sec / kSecondsPerDay + first_delta w sec) * kSecondsPerDay + w_start_second w in
  x = sec - phase w sec + window_start w \/
  (x = sec - phase w sec + window_start w + WindowCycleSeconds w /\ window_start w < phase w sec).
Proof.
  intros (H1 & H2 & H3). cbn zeta. unfold first_delta, phase, window_start, WindowCycleSeconds, kSecondsPerDay in *.
  destruct (w_start_day w) as [d|]; [|left; rewrite Z.add_0_r; Z.to_euclidean_division_equations; lia].
  destruct (w_end_day w) as [e|]; [|done].
  destruct (Z.ltb_spec (d - (sec / 86400 + 4) mod 7) 0); [right|left]; Z.to_euclidean_division_equations; lia.
Qed.

Lemma NextWindowStart_utc w t : window_valid w -> w_use_local_time w = false -> fits (t / kNanosecondsPerSecond) ->
  IsWithinWindow w t = false ->
  let sec := t / kNanosecondsPerSecond in
  NextWindowStart w t = Some ((sec + (WindowCycleSeconds w - elapsed w sec)) * kNanosecondsPerSecond).
Proof.
  intros Hv Hu Hf Hout sec. unfold NextWindowStart. rewrite Hout, Hu. destruct (point_utc t) as (Hc & Hw & _). rewrite Hc, Hw. fold sec in Hf |- *.
  assert (Hpair : match w_start_day w with
    | Some d => (let delta := d - (sec / kSecondsPerDay + 4) mod 7 in if delta <? 0 then delta + 7 else delta, 7)
    | None => (0, 1) end = (first_delta w sec, retry_days w)) by (unfold first_delta, retry_days; by destruct (w_start_day w)).
  cbn zeta in Hpair. rewrite Hpair. clear Hpair. pose proof (cycle_pos w) as HP. pose proof Hf as [Hsec _].
  destruct (start_end_range w Hv) as [Hs _].
  assert (Hph : 0 <= phase w sec < WindowCycleSeconds w) by (by apply Z.mod_pos_bound).
  assert (HP7 : WindowCycleSeconds w <= 7 * kSecondsPerDay) by (unfold WindowCycleSeconds, kSecondsPerDay; destruct (w_start_day w); lia).
  unfold MakeUnixTimeNs. rewrite !with_time_utc by apply Hv.
  replace ((sec / kSecondsPerDay + (first_delta w sec + retry_days w)) * kSecondsPerDay + w_start_second w)
    with ((sec / kSecondsPerDay + first_delta w sec) * kSecondsPerDay + w_start_second w + WindowCycleSeconds w)
    by (rewrite <- retry_cycle; lia).
  pose proof (candidate_utc w sec Hv) as Hx. cbn zeta in Hx. set (x := _ * kSecondsPerDay + w_start_second w) in *.
  assert (Hx0 : 0 <= x).
  { unfold x, first_delta. assert (0 <= sec / kSecondsPerDay) by (apply Z.div_pos; unfold kSecondsPerDay; lia).
    destruct Hv as (Hss & _ & Hd). unfold kSecondsPerDay in *. destruct (w_start_day w) as [d|]; [|lia].
    destruct (w_end_day w); [|done]. destruct (Z.ltb_spec (d - (sec / 86400 + 4) mod 7) 0); [|lia].
    pose proof (Z.mod_pos_bound (sec / 86400 + 4) 7 ltac:(lia)). lia. }
  destruct (Z.ltb_spec x 0); [lia|]. unfold elapsed. rewrite mod_diff by done. unfold kSecondsPerDay in HP7.
  rewrite (make_utc sec x Hf) by (unfold kSecondsPerDay; lia).
  destruct (Z.leb_spec (x * kNanosecondsPerSecond) t) as [Hle|Hgt].
  - apply seconds_le in Hle. fold sec in Hle. destruct (Z.ltb_spec (x + WindowCycleSeconds w) 0); [lia|].
    rewrite (make_utc sec) by (done || unfold kSecondsPerDay; lia). do 2 f_equal. destruct (Z.leb_spec (window_start w) (phase w sec)); lia.
  - assert (sec < x) by (apply Z.lt_nge; intros Hn; apply seconds_le in Hn; lia). do 2 f_equal.
    destruct (Z.leb_spec (window_start w) (phase w sec)); lia.
Qed.

Lemma NextWindowClose_utc w t : window_valid w -> w_use_local_time w = false -> fits (t / kNanosecondsPerSecond) ->
  IsWithinWindow w t = true ->
  let sec := t / kNanosecondsPerSecond in
  NextWindowClose w t = Some ((sec + if always_open w then WindowCycleSeconds w else window_length w - elapsed w sec) * kNanosecondsPerSecond).
Proof.
  intros Hv Hu Hf Hin sec. unfold NextWindowClose. rewrite Hin, Hu. cbn [negb]. destruct (point_utc t) as (Hc & Hw & Hs). fold sec in Hf, Hc, Hw, Hs |- *.
  pose proof (current_utc w t) as Hcur. fold sec in Hcur.
  assert (Hbase : match w_start_day w with Some _ => weekday (BuildCalendarPoint t false) * kSecondsPerDay | None => 0 end +
                  second_of_day (BuildCalendarPoint t false) = phase w sec).
  { rewrite <- Hcur. unfold current_second. destruct (w_start_day w); lia. }
  rewrite Hbase, Hc. clear Hbase. unfold CurrentWindowStartSecond. rewrite Hcur.
  pose proof (cycle_pos w) as HP. destruct (start_end_range w Hv) as [Hst Hen].
  assert (Hph : 0 <= phase w sec < WindowCycleSeconds w) by (by apply Z.mod_pos_bound).
  assert (HP7 : WindowCycleSeconds w <= 7 * kSecondsPerDay) by (unfold WindowCycleSeconds, kSecondsPerDay; destruct (w_start_day w); lia).
  rewrite within_utc in Hin by done. fold sec in Hin.
  set (delta := (if window_start w =? window_end w then _ else _) + _ - _).
  assert (Hdelta : delta = if always_open w then WindowCycleSeconds w else window_length w - elapsed w sec).
  { unfold delta, always_open, window_length, elapsed, window_duration. rewrite !mod_diff by done.
    unfold always_open, window_length, elapsed in Hin. rewrite !mod_diff in Hin by done.
    destruct (Z.eqb_spec (window_start w) (window_end w)) as [E|E]; [destruct (Z.leb_spec (window_end w - window_start w) 0); lia|].
    cbn [orb] in Hin. apply Z.ltb_lt in Hin.
    destruct (Z.ltb_spec (window_start w) (window_end w)), (Z.leb_spec (window_end w - window_start w) 0),
      (Z.leb_spec (window_start w) (window_end w)), (Z.leb_spec (window_start w) (phase w sec)); try lia;
      destruct (phase w sec >=? window_start w) eqn:E1; bool_to_prop; lia. }
  rewrite <- Hdelta.
  assert (Hrange : 0 <= delta <= WindowCycleSeconds w).
  { rewrite Hdelta. destruct (always_open w); [lia|]. cbn [orb] in Hin. apply Z.ltb_lt in Hin.
    pose proof (elapsed_range w sec). pose proof (Z.mod_pos_bound (window_end w - window_start w) _ HP). unfold window_length in *. lia. }
  clearbody delta. unfold MakeUnixTimeNs.
  assert (Hgm : timegm (MkTm (tm_sec (gmtime sec) + delta) (tm_min (gmtime sec)) (tm_hour (gmtime sec)) (tm_mday (gmtime sec)) (tm_mon (gmtime sec))
            (tm_year (gmtime sec)) (tm_wday (gmtime sec)) (tm_isdst (gmtime sec))) = sec + delta).
  { rewrite <- (Z.add_0_r (tm_mday (gmtime sec))). rewrite timegm_gmtime.
    assert (Hsod : tm_hour (gmtime sec) * 3600 + tm_min (gmtime sec) * 60 + tm_sec (gmtime sec) = sec mod kSecondsPerDay).
    { unfold gmtime. destruct (civil_from_days _) as [[? ?] ?]. cbn. apply sod_split. unfold kSecondsPerDay. apply Z.mod_pos_bound. lia. }
    pose proof (Z.div_mod sec kSecondsPerDay ltac:(unfold kSecondsPerDay; lia)). unfold kSecondsPerDay in *. lia. }
  rewrite Hgm. pose proof Hf as [Hsec _]. destruct (Z.ltb_spec (sec + delta) 0); [lia|].
  rewrite (make_utc sec) by (done || unfold kSecondsPerDay in *; lia). done.
Qed.

(** The next opening is the first instant, the present one included, inside the window. *)
Lemma next_start_exact w t : window_valid w -> w_use_local_time w = false -> 0 <= t -> fits (t / kNanosecondsPerSecond) ->
  exists n, NextWindowStart w t = Some n /\ t <= n /\ IsWithinWindow w n = true /\
    forall u, t <= u < n -> IsWithinWindow w u = false.
Proof.
  intros Hv Hu H0 Hf. destruct (IsWithinWindow w t) eqn:Hin.
  { exists t. unfold NextWindowStart. rewrite Hin. split_and!; [done|lia|done|lia]. }
  pose proof (NextWindowStart_utc w t Hv Hu Hf Hin) as Hn. cbn zeta in Hn. set (sec := t / kNanosecondsPerSecond) in *.
  pose proof (elapsed_range w sec) as He. pose proof Hin as Hin'. rewrite within_utc in Hin' by done. fold sec in Hin'.
  apply orb_false_iff in Hin' as [Ha Hl]. apply Z.ltb_ge in Hl.
  set (gap := WindowCycleSeconds w - elapsed w sec) in *. eexists. split; [exact Hn|]. unfold kNanosecondsPerSecond in *.
  split; [unfold sec in *; Z.to_euclidean_division_equations; lia|]. split.
  - rewrite within_utc by done. unfold kNanosecondsPerSecond. rewrite Z.div_mul by lia. unfold gap. rewrite elapsed_start, Ha.
    apply Z.ltb_lt. unfold always_open in Ha. apply Z.eqb_neq in Ha. destruct (start_end_range w Hv). pose proof (cycle_pos w).
    unfold window_length. rewrite mod_diff by done. destruct (Z.leb_spec (window_start w) (window_end w)); lia.
  - intros u Hu'. rewrite within_utc by done. rewrite Ha. unfold kNanosecondsPerSecond.
    assert (Hs : exists k, u / 1000000000 = sec + k /\ 0 <= k < gap).
    { exists (u / 1000000000 - sec). unfold sec in *. Z.to_euclidean_division_equations. lia. }
    destruct Hs as (k & -> & Hk). rewrite elapsed_shift by lia. apply Z.ltb_ge. lia.
Qed.

(** The next close of a window that is not always open is its first instant outside. *)
Lemma next_close_exact w t : window_valid w -> w_use_local_time w = false -> 0 <= t -> fits (t / kNanosecondsPerSecond) ->
  always_open w = false -> IsWithinWindow w t = true ->
  exists c, NextWindowClose w t = Some c /\ t < c /\ IsWithinWindow w c = false /\
    forall u, t <= u < c -> IsWithinWindow w u = true.
Proof.
  intros Hv Hu H0 Hf Ha Hin. pose proof (NextWindowClose_utc w t Hv Hu Hf Hin) as Hc. cbn zeta in Hc. rewrite Ha in Hc.
  set (sec := t / kNanosecondsPerSecond) in *. pose proof (elapsed_range w sec) as He.
  rewrite within_utc in Hin by done. fold sec in Hin. rewrite Ha in Hin. cbn [orb] in Hin. apply Z.ltb_lt in Hin.
  pose proof (Z.mod_pos_bound (window_end w - window_start w) _ (cycle_pos w)) as Hl. fold (window_length w) in Hl.
  eexists. split; [exact Hc|]. unfold kNanosecondsPerSecond in *. split; [unfold sec in *; Z.to_euclidean_division_equations; lia|]. split.
  - rewrite within_utc by done. unfold kNanosecondsPerSecond. rewrite Z.div_mul by lia. rewrite elapsed_shift, Ha by lia. apply Z.ltb_ge. lia.
  - intros u Hu'. rewrite within_utc by done. rewrite Ha. unfold kNanosecondsPerSecond.
    assert (Hs : exists k, u / 1000000000 = sec + k /\ 0 <= k < window_length w - elapsed w sec).
    { exists (u / 1000000000 - sec). unfold sec in *. Z.to_euclidean_division_equations. lia. }
    destruct Hs as (k & -> & Hk). rewrite elapsed_shift by lia. apply Z.ltb_lt. lia.
Qed.
End Utc.

(** ** Lemmas: the windows of a valid schedule *)

(** The fields are bytes. *)
Definition time_width (t : SessionTimeOfDay) : Prop := 0 <= hour t /\ 0 <= minute t /\ 0 <= second t.
Definition option_width (o : option SessionTimeOfDay) : Prop := match o with Some t => time_width t | None => True end.
Definition segment_width (s : SessionScheduleSegment) : Prop :=
  option_width (start_time s) /\ option_width (end_time s) /\ option_width (logon_time s) /\ option_width (logout_time s).
Definition schedule_width (s : SessionScheduleConfig) : Prop := segment_width (legacy s) /\ Forall segment_width (segments s).
Definition utc_schedule (s : SessionScheduleConfig) : Prop :=
  use_local_time (legacy s) = false /\ Forall (fun g => use_local_time g = false) (segments s).

Definition good_window (local : bool) (w : SessionWindowSpec) : Prop := window_valid w /\ w_use_local_time w = local.

Lemma seconds_of_day_range t : time_width t -> IsValidTimeOfDay t = true -> 0 <= SecondsOfDay t < kSecondsPerDay.
Proof. unfold time_width, IsValidTimeOfDay, SecondsOfDay, kSecondsPerDay. intros. bool_to_prop. lia. Qed.

Lemma day_index_range d : 0 <= day_index d <= 6.
Proof. destruct d; cbn; lia. Qed.

Lemma validated_pair label local st et sd ed : option_width st -> option_width et ->
  validate_time_pair label st et sd ed = status.Ok -> has st || has et || has sd || has ed = true ->
  exists w, BuildWindow local st et sd ed = Some w /\ good_window local w.
Proof.
  intros Hs He Hv Hany. unfold validate_time_pair in Hv. destruct st as [st|], et as [et|]; try discriminate.
  2: { destruct sd, ed; discriminate. }
  cbn in Hs, He, Hv. eexists. split; [reflexivity|]. split; [|done].
  destruct (IsValidTimeOfDay st) eqn:E1; destruct (IsValidTimeOfDay et) eqn:E2; destruct sd as [sd|], ed as [ed|]; try discriminate;
    (split; [by apply seconds_of_day_range|]; split; [by apply seconds_of_day_range|]); cbn; [|done].
  split; apply day_index_range.
Qed.

Lemma validated_segment l1 l2 s logon : segment_width s -> validate_segment l1 l2 s = status.Ok ->
  exists w, BuildWindowSpec s false logon = Some w /\ match w with Some w => good_window (use_local_time s) w | None => True end.
Proof.
  intros (W1 & W2 & W3 & W4) Hv. unfold validate_segment in Hv.
  destruct (status.ok _) eqn:E; [|rewrite Hv in E; discriminate].
  assert (Hs : validate_time_pair l1 (start_time s) (end_time s) (start_day s) (end_day s) = status.Ok).
  { revert E. unfold validate_time_pair. repeat case_match; done. }
  unfold BuildWindowSpec. destruct (logon && HasLogonWindowFields s) eqn:El.
  - apply andb_true_iff in El as [_ El]. destruct (validated_pair l2 (use_local_time s) _ _ _ _ W3 W4 Hv El) as (w & -> & Hw). by exists (Some w).
  - destruct (HasSessionWindowFields s) eqn:Eh; cbn [negb]; [|by exists None].
    destruct (validated_pair l1 (use_local_time s) _ _ _ _ W1 W2 Hs Eh) as (w & -> & Hw). by exists (Some w).
Qed.

Lemma validated_segments l logon : Forall segment_width l -> validate_segments l = status.Ok -> Forall (fun g => use_local_time g = false) l ->
  exists ws, segment_windows l logon = Some ws /\ Forall (good_window false) ws.
Proof.
  induction l as [|s l IH]; intros Hw Hv Hu; [by exists []|]. apply Forall_cons in Hw as [Hs Hw]. apply Forall_cons in Hu as [Hus Hu].
  cbn [validate_segments segment_windows] in *.
  destruct (status.ok (validate_segment _ _ s)) eqn:E; [|rewrite Hv in E; discriminate].
  assert (Hok : validate_segment "chained segment session window" "chained segment logon window" s = status.Ok).
  { revert E. unfold validate_segment, validate_time_pair. repeat case_match; done. }
  destruct (validated_segment _ _ s logon Hs Hok) as (w & -> & Hgw). destruct (IH Hw Hv Hu) as (ws & -> & Hws).
  rewrite Hus in Hgw. eexists. split; [reflexivity|]. destruct w; [by constructor|done].
Qed.

(** A schedule that passes validation never dereferences an empty optional. *)
Lemma validated_windows s logon : schedule_width s -> utc_schedule s -> ValidateSessionSchedule s = status.Ok ->
  exists ws, BuildWindowSpecs s logon = Some ws /\ Forall (good_window false) ws.
Proof.
  intros [Wl Ws] [Ul Us] Hv. unfold BuildWindowSpecs, ValidateSessionSchedule in *. destruct (non_stop_session s) eqn:En; [by exists []|].
  destruct (segments s) as [|g gs] eqn:Eg.
  - cbn [andb] in Hv. destruct (validated_segment _ _ _ logon Wl Hv) as (w & -> & Hw). rewrite Ul in Hw.
    eexists. split; [reflexivity|]. destruct w; [by constructor|constructor].
  - destruct (HasLegacyWindowFields _); [discriminate|]. by apply validated_segments.
Qed.

(** The least of several candidates. *)
Lemma earliest_fold {A} (f : A -> option Z) ws : forall e, (forall w, w ∈ ws -> f w <> None) ->
  match fold_left (fun e w => earlier (f w) e) ws e with
  | None => e = None /\ ws = []
  | Some m => (e = Some m \/ exists w, w ∈ ws /\ f w = Some m) /\
              (forall x, e = Some x -> m <= x) /\ forall w x, w ∈ ws -> f w = Some x -> m <= x
  end.
Proof.
  induction ws as [|w ws IH]; intros e Hf; cbn.
  { destruct e; [|done]. split_and!; [by left|intros x [= <-]; lia|]. intros w x Hw. by apply not_elem_of_nil in Hw. }
  destruct (f w) as [c|] eqn:Ew; [|by destruct (Hf w (list_elem_of_here _ _))].
  assert (Hf' : forall v, v ∈ ws -> f v <> None) by (intros v Hv; apply Hf; by right).
  specialize (IH (earlier (Some c) e) Hf'). destruct (fold_left _ ws _) as [m|]; [|destruct IH as [IH _]; destruct e; cbn in IH; [destruct (_ <? _)|]; done].
  destruct IH as (H1 & H2 & H3). assert (Hmc : m <= c /\ forall x, e = Some x -> m <= x).
  { destruct e as [y|]; cbn in H2; [|split; [by apply H2|done]]. destruct (Z.ltb_spec c y).
    - pose proof (H2 c eq_refl). split; [lia|]. intros x [= <-]. lia.
    - pose proof (H2 y eq_refl). split; [lia|]. intros x [= <-]. lia. }
  split_and!; [|apply Hmc|].
  - destruct H1 as [H1|(v & Hv & Hm)]; [|right; exists v; split; [by right|done]].
    destruct e as [y|]; cbn in H1; [destruct (c <? y); [|by left]|]; right; exists w; (split; [left|congruence]).
  - intros v x Hv Hx. apply elem_of_cons in Hv as [->|Hv]; [|by apply (H3 v)]. rewrite Ew in Hx. injection Hx as <-. apply (proj1 Hmc).
Qed.

Lemma any_window_true `{LocalTime} ws t : any_window ws t = true <-> ws = [] \/ exists w, w ∈ ws /\ IsWithinWindow w t = true.
Proof.
  unfold any_window. destruct ws as [|w ws]; [split; auto|]. rewrite existsb_exists. setoid_rewrite <- list_elem_of_In.
  split; [by right|]. intros [|]; done.
Qed.

(** ** Lemmas: blackout dates *)

Lemma date_bound pre post date : increasing id (pre ++ post) -> Forall (fun d => d < date) pre -> Forall (fun d => date <= d) post ->
  date_lower_bound date (pre ++ post) = length pre.
Proof.
  intros _ H1 H2. apply lower_bound_app; (eapply Forall_impl; [eassumption|]); intros d Hd; cbn in *; [apply Z.ltb_lt|apply Z.ltb_ge]; lia.
Qed.

(** Where a date is or would go in the sorted vector. *)
Lemma date_split dates date : increasing id dates -> exists pre post, dates = pre ++ post /\ date_lower_bound date dates = length pre /\
  Forall (fun d => d < date) pre /\ Forall (fun d => date < d) (match post with d :: post' => if d =? date then post' else post | [] => [] end) /\
  (date ∈ dates <-> exists post', post = date :: post').
Proof.
  intros Hi. destruct (increasing_split id dates date Hi) as (pre & post & -> & H1 & H2). exists pre, post.
  unfold id in *. assert (Hlb : date_lower_bound date (pre ++ post) = length pre) by (by apply date_bound).
  assert (Hpre : date ∉ pre) by (intros Hin; rewrite Forall_forall in H1; apply H1 in Hin; lia).
  split_and!; [done|done|done| |].
  - destruct post as [|d post]; [done|]. apply increasing_app in Hi as (_ & Hi & _). apply increasing_cons in Hi as [_ Hd].
    apply Forall_cons in H2 as [Hd0 H2]. destruct (Z.eqb_spec d date) as [->|Hne]; [done|]. constructor; [lia|].
    eapply Forall_impl; [exact Hd|]. cbn. lia.
  - rewrite elem_of_app. split; [|intros (p & ->); right; left]. intros [|Hin]; [done|]. destruct post as [|d post]; [by apply not_elem_of_nil in Hin|].
    apply elem_of_cons in Hin as [<-|Hin]; [by eexists|]. apply increasing_app in Hi as (_ & Hi & _). apply increasing_cons in Hi as [_ Hd].
    apply Forall_cons in H2 as [Hd0 _]. rewrite Forall_forall in Hd. apply Hd in Hin. lia.
Qed.

Lemma AddDate_spec dates date : increasing id dates ->
  increasing id (AddDate date dates) /\ forall d, d ∈ AddDate date dates <-> d = date \/ d ∈ dates.
Proof.
  intros Hi. destruct (date_split dates date Hi) as (pre & post & -> & Hlb & H1 & H2 & H3). unfold AddDate. rewrite Hlb.
  rewrite lookup_app_r, Nat.sub_diag by lia. destruct post as [|e post].
  - cbn. rewrite take_app_length, drop_app_length. rewrite app_nil_r in *. split; [|set_solver]. apply increasing_app.
    split_and!; [done|repeat constructor|]. eapply Forall_impl; [exact H1|]. intros x Hx. by constructor.
  - cbn. destruct (Z.eqb_spec e date) as [->|Hne]; [split; [done|set_solver]|]. rewrite take_app_length, drop_app_length.
    apply increasing_app in Hi as (Hi1 & Hi2 & Hi3). split; [|set_solver]. apply increasing_app. split_and!; [done|by apply increasing_cons|].
    apply Forall_forall. intros x Hx. constructor; [rewrite Forall_forall in H1; by apply H1|]. rewrite Forall_forall in Hi3. by apply Hi3.
Qed.

Lemma RemoveDate_spec dates date : increasing id dates ->
  increasing id (RemoveDate date dates) /\ forall d, d ∈ RemoveDate date dates <-> d <> date /\ d ∈ dates.
Proof.
  intros Hi. destruct (date_split dates date Hi) as (pre & post & -> & Hlb & H1 & H2 & H3). unfold RemoveDate. rewrite Hlb.
  assert (Hpre : forall x, x ∈ pre -> x <> date) by (intros x Hx; rewrite Forall_forall in H1; apply H1 in Hx; lia).
  rewrite lookup_app_r, Nat.sub_diag by lia. destruct post as [|e post]; cbn.
  - split; [done|]. intros d. rewrite app_nil_r in *. split; [|by intros [_ ?]]. intros Hd. split; [by apply Hpre|done].
  - destruct (Z.eqb_spec e date) as [->|Hne].
    + rewrite take_app_length. replace (S (length pre)) with (length pre + 1)%nat by lia. rewrite <- drop_drop, drop_app_length. cbn.
      rewrite drop_0. split; [apply increasing_app in Hi as (? & [? ?]%increasing_cons & Hi3); apply increasing_app; split_and!; [done|done|]|].
      * eapply Forall_impl; [exact Hi3|]. intros x Hx. by apply Forall_cons in Hx as [_ ?].
      * intros d. rewrite Forall_forall in H2. rewrite !elem_of_app, elem_of_cons. split; [|naive_solver].
        intros [Hd|Hd]; [by naive_solver|]. pose proof (H2 d Hd). split; [lia|auto].
    + split; [done|]. intros d. split; [|by intros [_ ?]]. intros Hd. split; [|done]. intros ->. apply H3 in Hd as (? & [= -> _]). done.
Qed.

Lemma IsBlackoutDate_spec dates date : increasing id dates -> IsBlackoutDate date dates = bool_decide (date ∈ dates).
Proof.
  intros Hi. destruct (date_split dates date Hi) as (pre & post & -> & Hlb & H1 & H2 & H3). unfold IsBlackoutDate. rewrite Hlb.
  rewrite lookup_app_r, Nat.sub_diag by lia. symmetry. destruct post as [|e post]; cbn.
  - apply bool_decide_eq_false. intros Hd. apply H3 in Hd as (? & ?). done.
  - destruct (Z.eqb_spec e date) as [->|Hne].
    + rewrite bool_decide_eq_true_2 by (apply H3; by eexists). by rewrite Z.ltb_irrefl.
    + rewrite bool_decide_eq_false_2 by (intros Hd; apply H3 in Hd as (? & [= -> _]); done).
      apply Forall_cons in H2 as [He _]. destruct (Z.ltb_spec date e); [done|lia].
Qed.

(** What the vector of dates stands for. *)
Inductive DateOp := OpAdd (d : BlackoutDate) | OpAddMany (ds : list BlackoutDate) | OpRemove (d : BlackoutDate) | OpClear.

Definition run_date_op (dates : list BlackoutDate) (op : DateOp) : list BlackoutDate :=
  match op with OpAdd d => AddDate d dates | OpAddMany ds => AddDates ds dates | OpRemove d => RemoveDate d dates | OpClear => ClearDates dates end.

Definition set_date_op (dates : gset Z) (op : DateOp) : gset Z :=
  match op with OpAdd d => {[d]} ∪ dates | OpAddMany ds => list_to_set ds ∪ dates | OpRemove d => dates ∖ {[d]} | OpClear => ∅ end.

Definition represents (dates : list BlackoutDate) (s : gset Z) : Prop := increasing id dates /\ forall d, d ∈ dates <-> d ∈ s.

Lemma AddDates_spec ds : forall dates, increasing id dates ->
  increasing id (AddDates ds dates) /\ forall d, d ∈ AddDates ds dates <-> d ∈ ds \/ d ∈ dates.
Proof.
  induction ds as [|e ds IH]; intros dates Hi; cbn; [split; [done|set_solver]|].
  destruct (AddDate_spec dates e Hi) as [H1 H2]. destruct (IH _ H1) as [H3 H4]. split; [done|].
  intros d. rewrite H4, H2. set_solver.
Qed.

Lemma date_op_represents dates s op : represents dates s -> represents (run_date_op dates op) (set_date_op s op).
Proof.
  intros [Hi Hd]. unfold represents. destruct op as [e|ds|e|]; cbn.
  - destruct (AddDate_spec dates e Hi) as [H1 H2]. split; [done|]. intros d. rewrite H2, Hd. set_solver.
  - destruct (AddDates_spec ds dates Hi) as [H1 H2]. split; [done|]. intros d. rewrite H2, Hd. set_solver.
  - destruct (RemoveDate_spec dates e Hi) as [H1 H2]. split; [done|]. intros d. rewrite H2, Hd. set_solver.
  - split; [apply increasing_nil|set_solver].
Qed.

Lemma date_ops_represent ops : forall dates s, represents dates s -> represents (fold_left run_date_op ops dates) (fold_left set_date_op ops s).
Proof. induction ops as [|op ops IH]; intros dates s H; cbn; [done|]. by apply IH, date_op_represents. Qed.

(** ** Lemmas: date text *)

Lemma numeral_value_zeros k ds : numeral_value (replicate k 48 ++ ds) = numeral_value ds.
Proof. induction k as [|k IH]; [done|]. cbn [replicate app]. rewrite <- IH. unfold numeral_value. cbn. reflexivity. Qed.

Lemma short_numeral v : 0 <= v < 10000 -> (length (FormatUint32 v) <= 4)%nat /\ (v < 100 -> (length (FormatUint32 v) <= 2)%nat).
Proof.
  intros Hv. pose proof (digit_pair_length v). pose proof (digit_pair_length (v mod 100)). pose proof (digit_pair_length (v / 100)).
  unfold FormatUint32. destruct (Z.ltb_spec v 10); [cbn; lia|]. destruct (Z.ltb_spec v 100); [lia|].
  destruct (Z.ltb_spec v 1000); [rewrite length_app; cbn [length]; lia|].
  destruct (Z.ltb_spec v 10000); [rewrite length_app; lia|lia].
Qed.

Lemma ParseDigits_numeral l : Forall is_digit l -> l <> [] -> numeral_value l <= UINT32_MAX -> ParseDigits l = Some (numeral_value l).
Proof.
  intros Hd Hne Hv. unfold ParseDigits, from_chars_u32. rewrite digit_prefix_all by done. destruct l as [|c l]; [done|].
  destruct (Z.leb_spec (numeral_value (c :: l)) UINT32_MAX); [|lia]. by rewrite Nat.eqb_refl.
Qed.

Lemma padded_spec n v : 0 <= v < 10000 -> (length (FormatUint32 v) <= n)%nat ->
  length (padded n v) = n /\ ParseDigits (padded n v) = Some v.
Proof.
  intros Hv Hl. assert (Hw : in_u32 v) by (unfold in_u32; lia). destruct (FormatUint32_canonical v Hw) as (Hd & Hn & Hne).
  pose proof (numeral_value_zeros (n - length (FormatUint32 v)) (FormatUint32 v)) as Hz. rewrite Hn in Hz. fold (padded n v) in Hz.
  split; [unfold padded; rewrite length_app, length_replicate; lia|]. rewrite <- Hz at 2. apply ParseDigits_numeral.
  - apply Forall_app. split; [|done]. apply Forall_replicate. unfold is_digit. lia.
  - unfold padded. intros E0. apply app_eq_nil in E0 as [_ E0]. by rewrite E0 in Hne.
  - rewrite Hz. unfold UINT32_MAX. lia.
Qed.

(** The ten characters of a date with four-digit year. *)
Lemma date_text year month day : 0 <= year < 10000 -> 0 <= month < 100 -> 0 <= day < 100 ->
  let text := padded 4 year ++ [45] ++ padded 2 month ++ [45] ++ padded 2 day in
  length text = 10%nat /\ nth 4 text 0 = 45 /\ nth 7 text 0 = 45 /\
  ParseDigits (take 4 (drop 0 text)) = Some year /\ ParseDigits (take 2 (drop 5 text)) = Some month /\
  ParseDigits (take 2 (drop 8 text)) = Some day.
Proof.
  intros Hy Hm Hd. destruct (padded_spec 4 year) as [Ly Py]; [done|by apply short_numeral|].
  destruct (padded_spec 2 month) as [Lm Pm]; [lia|by apply short_numeral; lia|].
  destruct (padded_spec 2 day) as [Ld Pd]; [lia|by apply short_numeral; lia|].
  destruct (padded 4 year) as [|y1 [|y2 [|y3 [|y4 [|]]]]]; try discriminate.
  destruct (padded 2 month) as [|m1 [|m2 [|]]]; try discriminate. destruct (padded 2 day) as [|d1 [|d2 [|]]]; try discriminate.
  cbn. done.
Qed.

(** ** Lemmas: all windows of a schedule *)

Section Schedules.
Context `{LocalTime}.

(** The earliest start over all windows is the first instant inside one. *)
Lemma earliest_start_exact ws t : Forall (good_window false) ws -> 0 <= t -> fits (t / kNanosecondsPerSecond) ->
  exists n, EarliestWindowStart ws t = Some n /\ t <= n /\ any_window ws n = true /\ forall u, t <= u < n -> any_window ws u = false.
Proof.
  intros Hws H0 Hf. unfold EarliestWindowStart. destruct ws as [|w0 ws0]; [exists t; split_and!; [done|lia|done|lia]|].
  set (ws := w0 :: ws0) in *. rewrite Forall_forall in Hws.
  assert (Hn : forall w, w ∈ ws -> exists n, NextWindowStart w t = Some n /\ t <= n /\ IsWithinWindow w n = true /\
    forall u, t <= u < n -> IsWithinWindow w u = false) by (intros w Hw; destruct (Hws w Hw); by apply next_start_exact).
  pose proof (earliest_fold (fun w => NextWindowStart w t) ws None) as Hfold. cbn beta in Hfold.
  destruct (fold_left _ ws None) as [n|]; [|destruct Hfold as [_ [=]]; intros w Hw E; destruct (Hn w Hw) as (? & E' & _); congruence].
  destruct Hfold as ([[=]|(w & Hw & Hwn)] & _ & Hmin); [intros w Hw E; destruct (Hn w Hw) as (? & E' & _); congruence|].
  destruct (Hn w Hw) as (m & Em & Hle & Hin & _). rewrite Hwn in Em. injection Em as ->. exists m. split_and!; [done|done| |].
  - apply any_window_true. right. by exists w.
  - intros u Hu. apply not_true_is_false. intros Hany. apply any_window_true in Hany as [[=]|(v & Hv & Hvin)].
    destruct (Hn v Hv) as (k & Hk & _ & _ & Hout). pose proof (Hmin v k Hv Hk). rewrite Hout in Hvin by lia. done.
Qed.

(** Any window that contains the present instant is open until its close. *)
Lemma close_open w t : good_window false w -> 0 <= t -> fits (t / kNanosecondsPerSecond) -> IsWithinWindow w t = true ->
  exists c, NextWindowClose w t = Some c /\ t < c /\ (always_open w = false -> IsWithinWindow w c = false) /\
    forall u, t <= u < c -> IsWithinWindow w u = true.
Proof.
  intros [Hv Hu] H0 Hf Hin. destruct (always_open w) eqn:Ha.
  - pose proof (NextWindowClose_utc w t Hv Hu Hf Hin) as Hc. cbn zeta in Hc. rewrite Ha in Hc. eexists. split; [exact Hc|].
    pose proof (cycle_pos w) as HP. split; [unfold kNanosecondsPerSecond; Z.to_euclidean_division_equations; nia|]. split; [done|].
    intros u _. rewrite within_utc by done. by rewrite Ha.
  - destruct (next_close_exact w t Hv Hu H0 Hf Ha Hin) as (c & H1 & H2 & H3 & H4). by exists c.
Qed.

(** The fold over the containing windows. *)
Lemma containing_fold ws t : forall e,
  fold_left (fun e w => if IsWithinWindow w t then earlier (NextWindowClose w t) e else e) ws e =
  fold_left (fun e w => earlier (NextWindowClose w t) e) (filter (fun w => IsWithinWindow w t = true) ws) e.
Proof.
  induction ws as [|w ws IH]; intros e; [done|]. cbn [fold_left]. rewrite filter_cons.
  destruct (IsWithinWindow w t) eqn:E; [rewrite decide_True by done|rewrite decide_False by done]; apply IH.
Qed.

Lemma earliest_close_open ws t : Forall (good_window false) ws -> ws <> [] -> 0 <= t -> fits (t / kNanosecondsPerSecond) ->
  if any_window ws t
  then exists c, EarliestContainingWindowClose ws t = Some c /\ t < c /\ forall u, t <= u < c -> any_window ws u = true
  else EarliestContainingWindowClose ws t = None.
Proof.
  intros Hws Hne H0 Hf. unfold EarliestContainingWindowClose. rewrite containing_fold. rewrite Forall_forall in Hws.
  set (inside := filter _ ws). assert (Hmem : forall w, w ∈ inside <-> IsWithinWindow w t = true /\ w ∈ ws) by (intros w; unfold inside; rewrite list_elem_of_filter; done).
  assert (Hc : forall w, w ∈ inside -> exists c, NextWindowClose w t = Some c /\ t < c /\ forall u, t <= u < c -> IsWithinWindow w u = true).
  { intros w Hw. apply Hmem in Hw as [Hin Hw]. destruct (close_open w t (Hws w Hw) H0 Hf Hin) as (c & ? & ? & _ & ?). by exists c. }
  pose proof (earliest_fold (fun w => NextWindowClose w t) inside None) as Hfold. cbn beta in Hfold.
  assert (Hnn : forall w, w ∈ inside -> NextWindowClose w t <> None) by (intros w Hw E; destruct (Hc w Hw) as (? & E' & _); congruence).
  specialize (Hfold Hnn). destruct (any_window ws t) eqn:Hany.
  - apply any_window_true in Hany as [->|(v & Hv & Hvin)]; [done|]. destruct (fold_left _ inside None) as [c|].
    + destruct Hfold as ([[=]|(w & Hw & Hwc)] & _ & _). destruct (Hc w Hw) as (c' & Ec & Hlt & Hopen). rewrite Hwc in Ec. injection Ec as ->.
      exists c'. split_and!; [done|done|]. intros u Hu. apply any_window_true. right. exists w. split; [by apply Hmem|by apply Hopen].
    + destruct Hfold as [_ Hnil]. assert (Hi : v ∈ inside) by by apply Hmem. rewrite Hnil in Hi. by apply not_elem_of_nil in Hi.
  - destruct (fold_left _ inside None) as [c|]; [|done]. destruct Hfold as ([[=]|(w & Hw & _)] & _ & _). apply Hmem in Hw as [Hin Hw].
    assert (any_window ws t = true) by (apply any_window_true; right; by exists w). congruence.
Qed.
End Schedules.

(** ** A schedule for the witnesses: Monday 22:00 to Friday 21:00 and a
    Saturday segment across midnight, without time zone rules. *)

Definition utc_zone : LocalTime := {| localtime := gmtime; mktime := timegm |}.

Definition demo_segment (st et : SessionTimeOfDay) (sd ed : option SessionDayOfWeek) : SessionScheduleSegment :=
  MkSegment false (Some st) (Some et) sd ed None None None None.

Definition demo_schedule : SessionScheduleConfig :=
  MkSchedule (MkSegment false None None None None None None None None) false
    [demo_segment (MkTime 22 0 0) (MkTime 21 0 0) (Some kMonday) (Some kFriday);
     demo_segment (MkTime 23 30 0) (MkTime 1 15 0) (Some kSaturday) (Some kSunday)].

(** 2024-01-06 (a Saturday), 12:00:00.5 UTC. *)
Definition demo_now : Z := 1704542400500000000.

Lemma demo_schedule_width : schedule_width demo_schedule.
Proof. repeat (split || constructor || cbn); lia. Qed.

Lemma demo_schedule_utc : utc_schedule demo_schedule.
Proof. repeat (split || constructor). Qed.

Lemma demo_now_fits : fits (demo_now / kNanosecondsPerSecond).
Proof. vm_compute. split; intros [=]. Qed.

(** ** Properties *)

(** The logon windows of [s] are all configured as such: the session never
    stops, or each part of the schedule (the chained segments, or the legacy
    fields without segments) that has a session window has a logon window. *)
Definition logon_configured (s : SessionScheduleConfig) : bool :=
  let has_logon g := HasLogonWindowFields g || negb (HasSessionWindowFields g) in
  non_stop_session s || match segments s with [] => has_logon (legacy s) | l => forallb has_logon l end.

(** [demo_schedule] with logon windows half an hour inside the session windows. *)
Definition logon_schedule : SessionScheduleConfig :=
  MkSchedule (MkSegment false None None None None None None None None) false
    [MkSegment false (Some (MkTime 22 0 0)) (Some (MkTime 21 0 0)) (Some kMonday) (Some kFriday)
       (Some (MkTime 22 30 0)) (Some (MkTime 20 30 0)) (Some kMonday) (Some kFriday);
     MkSegment false (Some (MkTime 23 30 0)) (Some (MkTime 1 15 0)) (Some kSaturday) (Some kSunday)
       (Some (MkTime 23 45 0)) (Some (MkTime 1 0 0)) (Some kSaturday) (Some kSunday)].

Lemma logon_schedule_width : schedule_width logon_schedule.
Proof. repeat (split || constructor || cbn); lia. Qed.

Lemma logon_schedule_utc : utc_schedule logon_schedule.
Proof. repeat (split || constructor). Qed.

(** C40: the next opening of the session window of a validated schedule in UTC
    (one window or chained segments, daily or weekly, across midnight or not) is
    the first instant from now on at which the schedule is open: it exists, the
    schedule is open there, and it is closed at every instant before.  The same
    holds of the logon window of a schedule in which every part with a session
    window also configures a logon window, or which never stops.  A schedule with
    a part that configures a session window and no logon window is left out of
    the logon clause: the comments of config.h say that logon is then always
    allowed, while the code falls back to the session window
    ([logon_window_falls_back]).  No optional without a value is read on the way.
    The schedule is one [ValidateSessionSchedule] accepts, with unsigned
    hours, minutes and seconds and no part in local time, and now
    and the eight days after it fit the clock's 64-bit count of nanoseconds (up
    to the year 2554). *)
Theorem next_opening_exact `{LocalTime} s t :
  ValidateSessionSchedule s = status.Ok -> schedule_width s -> utc_schedule s -> 0 <= t -> fits (t / kNanosecondsPerSecond) ->
  (exists n, NextSessionWindowStart s t = Some (Some n) /\ t <= n /\ IsWithinSessionWindow s n = Some true /\
     forall u, t <= u < n -> IsWithinSessionWindow s u = Some false) /\
  (logon_configured s = true ->
   exists n, NextLogonWindowStart s t = Some (Some n) /\ t <= n /\ IsWithinLogonWindow s n = Some true /\
     forall u, t <= u < n -> IsWithinLogonWindow s u = Some false).
Proof.
  intros Hv Hw Hu H0 Hf. unfold NextSessionWindowStart, IsWithinSessionWindow, NextLogonWindowStart, IsWithinLogonWindow.
  destruct (validated_windows s false Hw Hu Hv) as (ws & -> & Hws). destruct (validated_windows s true Hw Hu Hv) as (wl & -> & Hwl). cbn.
  destruct (earliest_start_exact ws t Hws H0 Hf) as (n & -> & ? & Hin & Hc). destruct (earliest_start_exact wl t Hwl H0 Hf) as (m & -> & ? & Him & Hd).
  split; [exists n|intros _; exists m]; (split_and!; [done|done|by rewrite ?Hin, ?Him|]); intros u Hr; rewrite ?Hc, ?Hd; done.
Qed.

Lemma next_opening_exact_witness :
  (exists n, NextSessionWindowStart (H := utc_zone) logon_schedule demo_now = Some (Some n) /\ n = 1704583800000000000 /\
     IsWithinSessionWindow (H := utc_zone) logon_schedule n = Some true) /\
  (exists n, NextLogonWindowStart (H := utc_zone) logon_schedule demo_now = Some (Some n) /\ n = 1704584700000000000 /\
     IsWithinLogonWindow (H := utc_zone) logon_schedule n = Some true).
Proof.
  destruct (@next_opening_exact utc_zone logon_schedule demo_now eq_refl logon_schedule_width logon_schedule_utc
              ltac:(unfold demo_now; lia) demo_now_fits) as [(n & H1 & _ & H2 & _) Hl].
  destruct (Hl eq_refl) as (m & H3 & _ & H4 & _).
  split; [exists n|exists m]; (split; [assumption|split; [|assumption]]).
  - vm_compute in H1. injection H1 as <-. reflexivity.
  - vm_compute in H3. injection H3 as <-. reflexivity.
Defined.

(** Without any logon window the logon queries are those of the session window;
    on [demo_schedule] logon is refused at [demo_now], although no logon window
    is configured, and the next opening is not [demo_now]. *)
Theorem logon_window_falls_back `{LocalTime} s t :
  forallb (fun g => negb (HasLogonWindowFields g)) (legacy s :: segments s) = true ->
  IsWithinLogonWindow s t = IsWithinSessionWindow s t /\ NextLogonWindowStart s t = NextSessionWindowStart s t.
Proof.
  intros Hn. enough (BuildWindowSpecs s true = BuildWindowSpecs s false) as E.
  { unfold IsWithinLogonWindow, IsWithinSessionWindow, NextLogonWindowStart, NextSessionWindowStart. by rewrite E. }
  cbn [forallb] in Hn. apply andb_true_iff in Hn as [Hl Hs]. apply negb_true_iff in Hl.
  assert (Hb : forall g ns, HasLogonWindowFields g = false -> BuildWindowSpec g ns true = BuildWindowSpec g ns false).
  { intros g ns E. unfold BuildWindowSpec. by rewrite E. }
  assert (Hw : segment_windows (segments s) true = segment_windows (segments s) false).
  { induction (segments s) as [|g l IH]; [done|]. cbn [forallb] in Hs. apply andb_true_iff in Hs as [Hg Hs].
    apply negb_true_iff in Hg. cbn [segment_windows]. by rewrite Hb, IH. }
  unfold BuildWindowSpecs. destruct (non_stop_session s); [done|]. destruct (segments s); [by rewrite Hb|exact Hw].
Qed.

Lemma logon_window_falls_back_witness :
  IsWithinLogonWindow (H := utc_zone) demo_schedule demo_now = Some false /\
  NextLogonWindowStart (H := utc_zone) demo_schedule demo_now = Some (Some 1704583800000000000).
Proof.
  destruct (@logon_window_falls_back utc_zone demo_schedule demo_now eq_refl) as [-> ->].
  split; vm_compute; reflexivity.
Defined.

(** a status query on a validated UTC schedule is consistent with the schedule:
    while the session window is open it stays open up to the reported close;
    when it is closed, no close is reported and the reported opening is the first
    open instant; a schedule without windows reports neither. *)
Theorem schedule_status_sound `{LocalTime} id s t :
  ValidateSessionSchedule s = status.Ok -> schedule_width s -> utc_schedule s -> 0 <= t -> fits (t / kNanosecondsPerSecond) ->
  exists st, QueryScheduleStatus id s t = Some st /\ IsWithinSessionWindow s t = Some (in_session_window st) /\
    IsWithinLogonWindow s t = Some (in_logon_window st) /\
    if in_session_window st
    then next_session_window_open_ns st = None /\
         match next_session_window_close_ns st with
         | Some c => t < c /\ forall u, t <= u < c -> IsWithinSessionWindow s u = Some true
         | None => forall u, IsWithinSessionWindow s u = Some true
         end
    else next_session_window_close_ns st = None /\
         exists n, next_session_window_open_ns st = Some n /\ t < n /\ IsWithinSessionWindow s n = Some true /\
           forall u, t <= u < n -> IsWithinSessionWindow s u = Some false.
Proof.
  intros Hv Hw Hu H0 Hf. unfold QueryScheduleStatus, NextSessionWindowStart, IsWithinSessionWindow, NextLogonWindowStart, IsWithinLogonWindow, NextSessionWindowClose.
  destruct (non_stop_session s) eqn:En.
  { eexists. split; [reflexivity|]. unfold BuildWindowSpecs. rewrite En. cbn. done. }
  destruct (validated_windows s false Hw Hu Hv) as (ws & -> & Hws). destruct (validated_windows s true Hw Hu Hv) as (wl & -> & Hwl). cbn.
  destruct (earliest_start_exact ws t Hws H0 Hf) as (n & -> & Hn & Hin & Hc). eexists. split; [reflexivity|]. cbn. split; [done|]. split; [done|].
  destruct ws as [|w ws]; [done|]. pose proof (earliest_close_open (w :: ws) t Hws ltac:(done) H0 Hf) as He.
  destruct (any_window (w :: ws) t) eqn:Ea.
  - destruct He as (c & -> & Hlt & Ho). split_and!; [done|done|]. intros u Hr. by rewrite Ho.
  - split; [done|]. exists n. split_and!; [done| |by rewrite Hin|intros u Hr; by rewrite Hc]. destruct (decide (t = n)) as [->|]; [congruence|lia].
Qed.

Lemma schedule_status_sound_witness :
  exists st, QueryScheduleStatus (H := utc_zone) 7 demo_schedule demo_now = Some st /\ in_session_window st = false /\
    next_session_window_open_ns st = Some 1704583800000000000.
Proof.
  destruct (@schedule_status_sound utc_zone 7 demo_schedule demo_now eq_refl demo_schedule_width demo_schedule_utc
              ltac:(unfold demo_now; lia) demo_now_fits) as (st & H1 & _).
  exists st. split; [exact H1|]. vm_compute in H1. injection H1 as <-. split; reflexivity.
Defined.

(** the sorted vector of [BlackoutCalendar] implements a set of dates: after
    any sequence of additions (one or many), removals and clears, from the empty
    calendar, membership by binary search is membership in the set, and [dates()]
    lists the set in increasing order. *)
Theorem blackout_calendar_refines ops :
  let dates := fold_left run_date_op ops [] in let s := fold_left set_date_op ops ∅ in
  (forall d, IsBlackoutDate d dates = bool_decide (d ∈ s)) /\ increasing id dates /\ forall d, d ∈ dates <-> d ∈ s.
Proof.
  cbn zeta. assert (represents (fold_left run_date_op ops []) (fold_left set_date_op ops ∅)) as [Hi Hd].
  { apply date_ops_represent. split; [apply increasing_nil|set_solver]. }
  split; [|done]. intros d. rewrite IsBlackoutDate_spec by done. apply bool_decide_ext, Hd.
Qed.

(** a blackout date with a valid month and day and a year of at most four
    digits, written by [BlackoutDateToString], is read back by
    [ParseBlackoutDate]. *)
Theorem blackout_date_roundtrip year month day :
  0 <= year < 10000 -> 0 <= month -> 0 <= day -> ValidateDateParts year month day = true ->
  let date := year * 10000 + month * 100 + day in ParseBlackoutDate (BlackoutDateToString date) = Value date.
Proof.
  intros Hy Hm0 Hd0 Hv date. assert (Hr : month <= 12 /\ day <= 31).
  { unfold ValidateDateParts in Hv. destruct (_ || _) eqn:E in Hv; [discriminate|]. bool_to_prop. lia. }
  unfold BlackoutDateToString. assert (DateParts date = (year, month, day)) as ->.
  { unfold DateParts, date. repeat f_equal; Z.to_euclidean_division_equations; lia. }
  destruct (date_text year month day) as (Hl & H4 & H7 & P1 & P2 & P3); [lia..|]. cbn zeta in *. set (text := padded 4 year ++ _) in *.
  unfold ParseBlackoutDate, parse_parts. rewrite Hl, H4, H7, P1, P2, P3. cbn -[u32]. rewrite Hv. cbn -[u32]. f_equal. apply u32_small. unfold in_u32, date. lia.
Qed.

Lemma blackout_date_roundtrip_witness :
  BlackoutDateToString 20240229 = [50; 48; 50; 52; 45; 48; 50; 45; 50; 57] /\
  ParseBlackoutDate (BlackoutDateToString (2024 * 10000 + 2 * 100 + 29)) = Value 20240229.
Proof.
  split; [vm_compute; reflexivity|].
  exact (blackout_date_roundtrip 2024 2 29 ltac:(lia) ltac:(lia) ltac:(lia) eq_refl).
Defined.

(** ** Reported closes that are not closes *)

(** Two daily segments that overlap (08:00-12:00 and 10:00-16:00): at 11:00 the
    reported close is 12:00, when the schedule is still open. *)
Example overlapping_close_still_open :
  let s := MkSchedule (MkSegment false None None None None None None None None) false
             [demo_segment (MkTime 8 0 0) (MkTime 12 0 0) None None; demo_segment (MkTime 10 0 0) (MkTime 16 0 0) None None] in
  let at_hour h := (1704499200 + h * 3600) * kNanosecondsPerSecond in
  ValidateSessionSchedule s = status.Ok /\
  NextSessionWindowClose (H := utc_zone) s (at_hour 11) = Some (Some (at_hour 12)) /\
  IsWithinSessionWindow (H := utc_zone) s (at_hour 12) = Some true.
Proof. vm_compute. done. Qed.

(** A window whose start equals its end never closes; its reported close is one
    cycle after now. *)
Example always_open_reports_close :
  let s := MkSchedule (demo_segment (MkTime 8 0 0) (MkTime 8 0 0) None None) false [] in
  NextSessionWindowClose (H := utc_zone) s demo_now = Some (Some (demo_now / kNanosecondsPerSecond * kNanosecondsPerSecond + 86400 * kNanosecondsPerSecond)) /\
  forall t, IsWithinSessionWindow (H := utc_zone) s t = Some true.
Proof. split; [vm_compute; reflexivity|]. intros t. reflexivity. Qed.
