(* ===== verification/BitTable.v ===== *)
(** * Bitmaps

    Arrays of machine words used as sets of small numbers: bit [i mod width] of
    word [i / width].  An absent word is zero. *)
From S2P Require Import Prelude.
Open Scope Z_scope.

(** [(words[i / width] & (1 << (i % width))) != 0] *)
Definition bit_get (width i : Z) (words : gmap Z Z) : bool :=
  negb (Z.land (default 0 (words !! (i / width))) (Z.shiftl 1 (i mod width)) =? 0).

(** [words[i / width] |= 1 << (i % width)] *)
Definition bit_set (width i : Z) (words : gmap Z Z) : gmap Z Z :=
  <[i / width := Z.lor (default 0 (words !! (i / width))) (Z.shiftl 1 (i mod width))]> words.

Lemma land_bit w k : 0 <= k -> negb (Z.land w (Z.shiftl 1 k) =? 0) = Z.testbit w k.
Proof.
  intros Hk. assert (Hs : forall n, 0 <= n -> Z.testbit (Z.shiftl 1 k) n = (n =? k)).
  { intros n Hn. rewrite Z.shiftl_spec by done. destruct (Z.eqb_spec n k) as [->|]; [by rewrite Z.sub_diag|].
    destruct (decide (n < k)); [apply Z.testbit_neg_r; lia|]. rewrite Z.bits_above_log2; cbn; lia. }
  destruct (Z.eqb_spec (Z.land w (Z.shiftl 1 k)) 0) as [E|E]; cbn.
  - assert (Hb : Z.testbit (Z.land w (Z.shiftl 1 k)) k = false) by (by rewrite E, Z.bits_0).
    rewrite Z.land_spec, Hs, Z.eqb_refl, andb_true_r in Hb by done. done.
  - destruct (Z.testbit w k) eqn:Ew; [done|]. destruct E. apply Z.bits_inj'. intros n Hn. rewrite Z.bits_0, Z.land_spec, Hs by done.
    destruct (Z.eqb_spec n k) as [->|]; [by rewrite Ew|apply andb_false_r].
Qed.

Lemma bit_get_empty width i : 0 < width -> bit_get width i ∅ = false.
Proof. intros Hw. unfold bit_get. rewrite land_bit by (apply Z.mod_pos_bound; done). rewrite lookup_empty. apply Z.bits_0. Qed.

Lemma bit_get_set width i j words : 0 < width -> bit_get width i (bit_set width j words) = (i =? j) || bit_get width i words.
Proof.
  intros Hw. unfold bit_get. rewrite !land_bit by (apply Z.mod_pos_bound; done). unfold bit_set.
  destruct (decide (j / width = i / width)) as [E|E].
  - rewrite E, lookup_insert_eq. cbn. rewrite Z.lor_spec, orb_comm. f_equal. pose proof (Z.mod_pos_bound i width Hw). pose proof (Z.mod_pos_bound j width Hw).
    rewrite Z.shiftl_spec by lia. destruct (Z.eqb_spec i j) as [->|Hne]; [by rewrite Z.sub_diag|].
    assert (i mod width <> j mod width).
    { intros Hm. apply Hne. rewrite (Z.div_mod i width), (Z.div_mod j width) by lia. congruence. }
    destruct (decide (i mod width < j mod width)); [apply Z.testbit_neg_r; lia|]. rewrite Z.bits_above_log2; cbn; lia.
  - rewrite lookup_insert_ne by done. destruct (Z.eqb_spec i j) as [->|]; done.
Qed.
