(* ===== verification/SortSearch.v ===== *)
(** * Sorting and searching by key

    [std::sort] followed by [std::lower_bound], the way the dictionary indices are
    built and searched.  The standard does not fix how [std::sort] orders equal
    elements: the class [SortAlgorithm] states what it establishes, insertion sort
    implements it.  Keys are ordered by the class [KeyOrder]: tags by their number,
    texts byte by byte. *)
From Stdlib Require Import Sorting.Sorted.
From stdpp Require Import sorting.
From S2P Require Import Prelude StdAlgo.
Open Scope Z_scope.

(** ** Keys *)

(** [operator<] and [operator==] of a key type. *)
Class KeyOrder (K : Type) := {
  key_ltb : K -> K -> bool;
  key_eqb : K -> K -> bool;
  key_eqb_eq a b : key_eqb a b = true <-> a = b;
  key_ltb_asym a b : key_ltb a b = true -> key_ltb b a = false;
  key_ltb_trichotomy a b : key_ltb a b = false -> key_ltb b a = false -> a = b;
  key_leb_trans a b c : key_ltb a b = false -> key_ltb b c = false -> key_ltb a c = false;
}.

#[export] Instance tag_order : KeyOrder Z.
Proof.
  refine {| key_ltb := Z.ltb; key_eqb := Z.eqb |}; intros; rewrite ?Z.eqb_eq, ?Z.ltb_lt, ?Z.ltb_ge in *; lia.
Defined.

(** [std::string_view::operator<]: bytes from the front, a prefix first. *)
Fixpoint text_ltb (a b : list Z) : bool :=
  match a, b with
  | _, [] => false
  | [], _ :: _ => true
  | x :: a, y :: b => if x <? y then true else if y <? x then false else text_ltb a b
  end.

Lemma text_ltb_asym a : forall b, text_ltb a b = true -> text_ltb b a = false.
Proof.
  induction a as [|x a IH]; intros [|y b] Hab; cbn in *; try done.
  destruct (Z.ltb_spec x y), (Z.ltb_spec y x); try done; [lia|auto].
Qed.

Lemma text_ltb_trichotomy a : forall b, text_ltb a b = false -> text_ltb b a = false -> a = b.
Proof.
  induction a as [|x a IH]; intros [|y b] H1 H2; cbn in *; try done.
  destruct (Z.ltb_spec x y); [done|]. destruct (Z.ltb_spec y x); [done|]. f_equal; [lia|auto].
Qed.

Lemma text_leb_trans a : forall b c, text_ltb a b = false -> text_ltb b c = false -> text_ltb a c = false.
Proof.
  induction a as [|x a IH]; intros [|y b] [|z c] H1 H2; cbn in *; try done.
  destruct (Z.ltb_spec x y); [done|]. destruct (Z.ltb_spec y z); [done|]. destruct (Z.ltb_spec x z); [lia|].
  destruct (Z.ltb_spec z x); [done|]. destruct (Z.ltb_spec y x); [lia|]. destruct (Z.ltb_spec z y); [lia|]. eauto.
Qed.

#[export] Instance text_order : KeyOrder (list Z).
Proof.
  refine {| key_ltb := text_ltb; key_eqb a b := bool_decide (a = b) |}.
  - intros. by rewrite bool_decide_eq_true.
  - exact text_ltb_asym.
  - exact text_ltb_trichotomy.
  - exact text_leb_trans.
Defined.

(** ** Sorting *)

Section Keyed.
Context {A K : Type} `{KeyOrder K} (key : A -> K).

Definition sorted_by (l : list A) : Prop := StronglySorted (fun a b => key_ltb (key b) (key a) = false) l.
End Keyed.

Class SortAlgorithm {A K : Type} `{KeyOrder K} (key : A -> K) := {
  std_sort : list A -> list A;
  std_sort_perm l : std_sort l ≡ₚ l;
  std_sort_sorted l : sorted_by key (std_sort l);
}.

Section InsertionSort.
Context {A K : Type} `{KeyOrder K} (key : A -> K).

Fixpoint insert_by (x : A) (l : list A) : list A :=
  match l with
  | [] => [x]
  | y :: l' => if key_ltb (key y) (key x) then y :: insert_by x l' else x :: l
  end.

Definition insertion_sort (l : list A) : list A := foldr insert_by [] l.

Lemma key_ltb_irrefl a : key_ltb a a = false.
Proof. destruct (key_ltb a a) eqn:E; [|done]. by rewrite (key_ltb_asym _ _ E) in E. Qed.

Lemma insert_by_perm x l : insert_by x l ≡ₚ x :: l.
Proof. induction l as [|y l IH]; cbn; [done|]. destruct (key_ltb _ _); [|done]. rewrite IH. by constructor. Qed.

Lemma insert_by_sorted x l : sorted_by key l -> sorted_by key (insert_by x l).
Proof.
  induction l as [|y l IH]; intros Hl; cbn; [by repeat constructor|].
  inversion Hl as [|? ? Hl' Hy]; subst. destruct (key_ltb (key y) (key x)) eqn:E.
  - constructor; [by apply IH|]. rewrite insert_by_perm. constructor; [by apply key_ltb_asym|done].
  - constructor; [done|]. constructor; [done|]. eapply Forall_impl; [exact Hy|]. cbn. intros z Hz. by eapply key_leb_trans.
Qed.

#[export] Instance insertion_sort_algorithm : SortAlgorithm key.
Proof.
  refine {| std_sort := insertion_sort |}; intros l; induction l as [|x l IH]; cbn; try constructor.
  - rewrite insert_by_perm. by constructor.
  - by apply insert_by_sorted.
Defined.
End InsertionSort.

(** ** Searching *)

Section Search.
Context {A K : Type} `{KeyOrder K} (key : A -> K).

(** [lower_bound], then the test that the element found has the key. *)
Definition binary_find (k : K) (l : list A) : option A :=
  match l !! lower_bound (fun e => key_ltb (key e) k) l with
  | Some e => if key_eqb (key e) k then Some e else None
  | None => None
  end.

Lemma sorted_split k l : sorted_by key l -> exists pre post, l = pre ++ post /\
  Forall (fun e => key_ltb (key e) k = true) pre /\ Forall (fun e => key_ltb (key e) k = false) post.
Proof.
  induction l as [|x l IH]; intros Hl; [exists [], []; repeat split; constructor|].
  inversion Hl as [|? ? Hl' Hx]; subst. destruct (key_ltb (key x) k) eqn:E.
  - destruct (IH Hl') as (pre & post & -> & H1 & H2). exists (x :: pre), post. repeat split; [by constructor|done].
  - exists [], (x :: l). repeat split; [constructor|]. constructor; [done|]. eapply Forall_impl; [exact Hx|]. cbn. intros y Hy.
    by eapply key_leb_trans.
Qed.

(** An element with the key, or none when there is none. *)
Definition found (k : K) (l : list A) (result : option A) : Prop :=
  match result with Some e => e ∈ l /\ key e = k | None => forall e, e ∈ l -> key e <> k end.

(** The search finds an element with the key exactly when there is one. *)
Lemma binary_find_spec k l : sorted_by key l -> found k l (binary_find k l).
Proof.
  intros Hl. destruct (sorted_split k l Hl) as (pre & post & -> & H1 & H2). unfold binary_find.
  rewrite (lower_bound_app _ pre post H1 H2), lookup_app_r, Nat.sub_diag by lia.
  assert (Hpre : forall e, e ∈ pre -> key e <> k).
  { intros e He <-. rewrite Forall_forall in H1. specialize (H1 _ He). cbn in H1. by rewrite key_ltb_irrefl in H1. }
  destruct post as [|h post]; cbn; [rewrite app_nil_r; exact Hpre|].
  destruct (key_eqb (key h) k) eqn:E; [apply key_eqb_eq in E; set_solver|].
  intros e He Hk. apply elem_of_app in He as [He|He]; [by eapply Hpre|].
  apply elem_of_cons in He as [->|He]; [apply key_eqb_eq in Hk; congruence|].
  apply Forall_cons in H2 as [Hh _]. assert (Hs : key_ltb (key e) (key h) = false).
  { apply StronglySorted_app_1_r in Hl. inversion Hl as [|? ? _ Hx]; subst. rewrite Forall_forall in Hx. by apply Hx. }
  rewrite Hk in Hs. rewrite (key_ltb_trichotomy _ _ Hh Hs) in E. assert (key_eqb k k = true) by by apply key_eqb_eq. congruence.
Qed.

(** With distinct keys it is the one there is. *)
Lemma found_unique k l result : NoDup (key <$> l) -> found k l result -> result = List.find (fun e => key_eqb (key e) k) l.
Proof.
  intros Hnd Hs. destruct (List.find _ l) as [e'|] eqn:Ef.
  - apply List.find_some in Ef as [Hin He]. apply list_elem_of_In in Hin. apply key_eqb_eq in He.
    destruct result as [e|]; [|by destruct (Hs e')]. destruct Hs as [Hel Hek]. f_equal.
    apply list_elem_of_lookup in Hel as [i Hi]. apply list_elem_of_lookup in Hin as [j Hj].
    assert (i = j) as ->; [|congruence]. eapply (NoDup_lookup _ i j (key e) Hnd); rewrite list_lookup_fmap; [by rewrite Hi|rewrite Hj; cbn; congruence].
  - destruct result as [e|]; [|done]. destruct Hs as [Hel Hek]. apply list_elem_of_In in Hel.
    pose proof (List.find_none _ _ Ef _ Hel) as Hn. cbn in Hn. assert (key_eqb (key e) k = true) by by apply key_eqb_eq. congruence.
Qed.

Lemma found_perm k l l' result : l ≡ₚ l' -> found k l result -> found k l' result.
Proof. intros Hp. unfold found. destruct result; setoid_rewrite Hp; done. Qed.

Lemma sort_find {SA : SortAlgorithm key} k l : found k l (binary_find k (std_sort l)).
Proof. eapply found_perm; [apply std_sort_perm|]. apply binary_find_spec, std_sort_sorted. Qed.
End Search.
