(* ===== verification/NormalizedDictionary.v ===== *)
(** * The dictionary view

    [profile/normalized_dictionary.h] and [normalized_dictionary.cpp], with the
    string table of [profile/artifact.h]: the records of a loaded artifact, the
    indices [FromProfile] builds over them (sorted vectors, a direct-address table,
    bitmaps) and the lookups that use the indices.  The theorems say that the
    lookups find what a scan of the records finds. *)
From S2P Require Import Prelude Base StdAlgo BitTable SortSearch Wire.
Open Scope Z_scope.

(** ** Records *)

Record FieldDefRecord := MkFieldDef {
  fd_tag : Z;
  fd_name_offset : Z;
  fd_value_type : Z;
  fd_flags : Z;
  fd_enum_offset : Z;
  fd_enum_count : Z;
}.

Record FieldRuleRecord := MkRule { fr_tag : Z; fr_flags : Z }.

Record MessageDefRecord := MkMessageDef {
  msg_type_offset : Z;
  md_name_offset : Z;
  md_first_field_rule : Z;
  md_field_rule_count : Z;
  md_flags : Z;
}.

Record GroupDefRecord := MkGroupDef {
  count_tag : Z;
  delimiter_tag : Z;
  gd_name_offset : Z;
  gd_first_field_rule : Z;
  gd_field_rule_count : Z;
  gd_flags : Z;
  required_field_bitmap : Z;
}.

Record EnumValueRecord := MkEnumValue { ev_field_tag : Z; ev_value_offset : Z; ev_name_offset : Z }.

(** The sections of an artifact; a missing section is [None]. *)
Record LoadedProfile := MkProfile {
  p_string_table : option (list Z);
  p_field_defs : option (list FieldDefRecord);
  p_message_defs : option (list MessageDefRecord);
  p_group_defs : option (list GroupDefRecord);
  p_message_field_rules : option (list FieldRuleRecord);
  p_group_field_rules : option (list FieldRuleRecord);
  p_header_field_rules : option (list FieldRuleRecord);
  p_trailer_field_rules : option (list FieldRuleRecord);
  p_enum_values : option (list EnumValueRecord);
}.

(** The text that starts at an offset of the string table, up to its zero byte. *)
Fixpoint until_zero (l : list Z) : option (list Z) :=
  match l with
  | [] => None
  | c :: l => if c =? 0 then Some [] else cons c <$> until_zero l
  end.

Definition string_at (table : list Z) (offset : Z) : option (list Z) :=
  if Z.of_nat (length table) <=? offset then None else until_zero (drop (Z.to_nat offset) table).

(** ** The view *)

Record TagIndexEntry := MkTagIndex { ti_key : Z; ti_index : nat }.
Record MsgTypeIndexEntry := MkMsgTypeIndex { mi_msg_type : list Z; mi_index : nat }.
Record TagRuleEntry := MkTagRule { tr_tag : Z; tr_original_index : Z }.
Record EnumCharBitmap := MkEnumBitmap { eb_bits : gmap Z Z; eb_all_single_char : bool }.

(** The tables of fixed size are maps in which an absent entry has the value the
    array was filled with: [kNoEntry] in [field_direct_lookup_], zero in the bitmaps. *)
Record NormalizedDictionaryView := MkDictionary {
  string_table_ : list Z;
  field_defs_ : list FieldDefRecord;
  message_defs_ : list MessageDefRecord;
  group_defs_ : list GroupDefRecord;
  message_field_rules_ : list FieldRuleRecord;
  group_field_rules_ : list FieldRuleRecord;
  header_field_rules_ : list FieldRuleRecord;
  trailer_field_rules_ : list FieldRuleRecord;
  enum_values_ : list EnumValueRecord;
  field_index_ : list TagIndexEntry;
  group_index_ : list TagIndexEntry;
  message_index_ : list MsgTypeIndexEntry;
  sorted_message_rules_ : list TagRuleEntry;
  sorted_group_rules_ : list TagRuleEntry;
  field_direct_lookup_ : gmap Z Z;
  group_count_tag_bitmap_ : gmap Z Z;
  enum_bitmaps_ : list EnumCharBitmap;
}.

Definition kDirectLookupSize : Z := 10000.
Definition kNoEntry : Z := 65535.
Definition kGroupBitmapBits : Z := 1024.

Definition ValidateStringOffset (table : list Z) (offset : Z) (label : string) : Status :=
  match string_at table offset with
  | None => status.FormatError ("invalid string offset for " +:+ label)
  | Some _ => status.Ok
  end.

Definition ValidateFieldRuleRange (first count total : Z) (label : string) : Status :=
  if first >? total then status.FormatError ("invalid field-rule start for " +:+ label)
  else if count >? total - first then status.FormatError ("invalid field-rule range for " +:+ label)
  else status.Ok.

(** The first status that is not Ok. *)
Fixpoint first_failure {A} (check : A -> Status) (l : list A) : Status :=
  match l with
  | [] => status.Ok
  | x :: l => if status.ok (check x) then first_failure check l else check x
  end.

Definition and_then (s : Status) (next : Status) : Status := if status.ok s then next else s.

Definition validate_message_def (table : list Z) (rules : Z) (m : MessageDefRecord) : Status :=
  and_then (ValidateStringOffset table (md_name_offset m) "message definition")
    (and_then (ValidateStringOffset table (msg_type_offset m) "message type")
       (ValidateFieldRuleRange (md_first_field_rule m) (md_field_rule_count m) rules "message definition")).

Definition validate_group_def (table : list Z) (rules : Z) (g : GroupDefRecord) : Status :=
  and_then (ValidateStringOffset table (gd_name_offset g) "group definition")
    (ValidateFieldRuleRange (gd_first_field_rule g) (gd_field_rule_count g) rules "group definition").

Section Build.
Context {S1 : SortAlgorithm ti_key} {S2 : SortAlgorithm mi_msg_type} {S3 : SortAlgorithm tr_tag}.

Definition tag_entries {A} (tag : A -> Z) (entries : list A) : list TagIndexEntry :=
  imap (fun i e => MkTagIndex (tag e) i) entries.

Definition message_entries (table : list Z) (entries : list MessageDefRecord) : list MsgTypeIndexEntry :=
  omap (fun '(i, m) => (fun t => MkMsgTypeIndex t i) <$> string_at table (msg_type_offset m)) (imap pair entries).

Definition set_group_bit (bits : gmap Z Z) (g : GroupDefRecord) : gmap Z Z :=
  if count_tag g <? kGroupBitmapBits then bit_set 64 (count_tag g) bits else bits.

(** The rules of one message or group, sorted in place in the parallel vector. *)
Definition sort_range (rules : list FieldRuleRecord) (sorted : list TagRuleEntry) (first count : Z) : list TagRuleEntry :=
  let base := Z.to_nat first in
  let segment := imap (fun i r => MkTagRule (fr_tag r) (Z.of_nat i)) (slice rules base (Z.to_nat count)) in
  take base sorted ++ std_sort (key := tr_tag) segment ++ drop (base + Z.to_nat count) sorted.

Definition sorted_rules {A} (first count : A -> Z) (rules : list FieldRuleRecord) (defs : list A) : list TagRuleEntry :=
  fold_left (fun sorted d => sort_range rules sorted (first d) (count d)) defs (replicate (length rules) (MkTagRule 0 0)).

Definition direct_lookup (entries : list FieldDefRecord) : gmap Z Z :=
  fold_left (fun table '(i, f) =>
    if (fd_tag f <? kDirectLookupSize) && (Z.of_nat i <=? UINT16_MAX) then <[fd_tag f := Z.of_nat i]> table else table)
    (imap pair entries) ∅.

(** The enum values of a field that are in the section. *)
Definition enum_range (values : list EnumValueRecord) (f : FieldDefRecord) : list EnumValueRecord :=
  slice values (Z.to_nat (fd_enum_offset f)) (Z.to_nat (fd_enum_count f)).

Definition single_char (table : list Z) (e : EnumValueRecord) : bool :=
  match string_at table (ev_value_offset e) with Some v => (length v =? 1)%nat | None => false end.

Definition set_char_bit (table : list Z) (bits : gmap Z Z) (e : EnumValueRecord) : gmap Z Z :=
  match string_at table (ev_value_offset e) with
  | Some (ch :: _) => <[Z.shiftr ch 3 := Z.lor (default 0 (bits !! Z.shiftr ch 3)) (Z.shiftl 1 (Z.land ch 7))]> bits
  | _ => bits
  end.

Definition enum_bitmap (table : list Z) (values : list EnumValueRecord) (f : FieldDefRecord) : EnumCharBitmap :=
  if fd_enum_count f =? 0 then MkEnumBitmap ∅ false
  else if Z.of_nat (length values) <=? fd_enum_offset f then MkEnumBitmap ∅ false
  else if forallb (single_char table) (enum_range values f)
  then MkEnumBitmap (fold_left (set_char_bit table) (enum_range values f) ∅) true
  else MkEnumBitmap ∅ false.

Definition FromProfile (profile : LoadedProfile) : Result NormalizedDictionaryView :=
  match p_string_table profile, p_field_defs profile with
  | None, _ => Error (status.FormatError "artifact is missing the string-table section")
  | Some _, None => Error (status.FormatError "artifact is missing required section: field-defs")
  | Some table, Some fields =>
      let messages := default [] (p_message_defs profile) in
      let groups := default [] (p_group_defs profile) in
      let message_rules := default [] (p_message_field_rules profile) in
      let group_rules := default [] (p_group_field_rules profile) in
      if negb (length messages =? 0)%nat && bool_decide (p_message_field_rules profile = None)
      then Error (status.FormatError "artifact has message definitions without message field rules")
      else if negb (length groups =? 0)%nat && bool_decide (p_group_field_rules profile = None)
      then Error (status.FormatError "artifact has group definitions without group field rules")
      else
        let st :=
          and_then (first_failure (fun f => ValidateStringOffset table (fd_name_offset f) "field definition") fields)
            (and_then (first_failure (validate_message_def table (Z.of_nat (length message_rules))) messages)
               (first_failure (validate_group_def table (Z.of_nat (length group_rules))) groups)) in
        if negb (status.ok st) then Error st
        else
          let values := default [] (p_enum_values profile) in
          Value (MkDictionary table fields messages groups message_rules group_rules
            (default [] (p_header_field_rules profile)) (default [] (p_trailer_field_rules profile)) values
            (std_sort (key := ti_key) (tag_entries fd_tag fields))
            (std_sort (key := ti_key) (tag_entries count_tag groups))
            (std_sort (key := mi_msg_type) (message_entries table messages))
            (sorted_rules md_first_field_rule md_field_rule_count message_rules messages)
            (sorted_rules gd_first_field_rule gd_field_rule_count group_rules groups)
            (direct_lookup fields) (fold_left set_group_bit groups ∅) (map (enum_bitmap table values) fields))
  end.
End Build.

(** ** Lookups

    A pointer to a field definition is its index in [field_defs_]. *)

Definition find_field_index (d : NormalizedDictionaryView) (tag : Z) : option nat :=
  if tag <? kDirectLookupSize
  then let slot := default kNoEntry (field_direct_lookup_ d !! tag) in
       if slot =? kNoEntry then None else Some (Z.to_nat slot)
  else ti_index <$> binary_find ti_key tag (field_index_ d).

Definition find_field (d : NormalizedDictionaryView) (tag : Z) : option FieldDefRecord :=
  find_field_index d tag ≫= fun i => field_defs_ d !! i.

Definition find_message (d : NormalizedDictionaryView) (msg_type : list Z) : option MessageDefRecord :=
  binary_find mi_msg_type msg_type (message_index_ d) ≫= fun e => message_defs_ d !! mi_index e.

Definition find_group (d : NormalizedDictionaryView) (tag : Z) : option GroupDefRecord :=
  binary_find ti_key tag (group_index_ d) ≫= fun e => group_defs_ d !! ti_index e.

Definition is_group_count_tag (d : NormalizedDictionaryView) (tag : Z) : bool :=
  if tag <? kGroupBitmapBits
  then bit_get 64 tag (group_count_tag_bitmap_ d)
  else match find_group d tag with Some _ => true | None => false end.

Definition message_field_rules (d : NormalizedDictionaryView) (m : MessageDefRecord) : list FieldRuleRecord :=
  slice (message_field_rules_ d) (Z.to_nat (md_first_field_rule m)) (Z.to_nat (md_field_rule_count m)).

Definition group_field_rules (d : NormalizedDictionaryView) (g : GroupDefRecord) : list FieldRuleRecord :=
  slice (group_field_rules_ d) (Z.to_nat (gd_first_field_rule g)) (Z.to_nat (gd_field_rule_count g)).

Definition message_rule_range (d : NormalizedDictionaryView) (m : MessageDefRecord) : list TagRuleEntry :=
  slice (sorted_message_rules_ d) (Z.to_nat (md_first_field_rule m)) (Z.to_nat (md_field_rule_count m)).

Definition group_rule_range (d : NormalizedDictionaryView) (g : GroupDefRecord) : list TagRuleEntry :=
  slice (sorted_group_rules_ d) (Z.to_nat (gd_first_field_rule g)) (Z.to_nat (gd_field_rule_count g)).

Definition message_rule_allows_tag (d : NormalizedDictionaryView) (m : MessageDefRecord) (tag : Z) : bool :=
  match binary_find tr_tag tag (message_rule_range d m) with Some _ => true | None => false end.

Definition message_rule_index (d : NormalizedDictionaryView) (m : MessageDefRecord) (tag : Z) : Z :=
  match binary_find tr_tag tag (message_rule_range d m) with Some e => tr_original_index e | None => -1 end.

(** The position of the first rule with the tag. *)
Fixpoint scan_rules (rules : list FieldRuleRecord) (tag index : Z) : Z :=
  match rules with
  | [] => -1
  | r :: rules => if fr_tag r =? tag then index else scan_rules rules tag (index + 1)
  end.

Definition group_rule_allows_tag (d : NormalizedDictionaryView) (g : GroupDefRecord) (tag : Z) : bool :=
  if gd_field_rule_count g <=? 8 then existsb (fun r => fr_tag r =? tag) (group_field_rules d g)
  else match binary_find tr_tag tag (group_rule_range d g) with Some _ => true | None => false end.

Definition group_rule_index (d : NormalizedDictionaryView) (g : GroupDefRecord) (tag : Z) : Z :=
  if gd_field_rule_count g <=? 8 then scan_rules (group_field_rules d g) tag 0
  else match binary_find tr_tag tag (group_rule_range d g) with Some e => tr_original_index e | None => -1 end.

(** [field_index] is the index of the definition. *)
Definition is_enum_value_allowed (d : NormalizedDictionaryView) (field_index : nat) (field_def : FieldDefRecord) (value : list Z) : bool :=
  if (fd_enum_count field_def =? 0) || (length value =? 0)%nat then true
  else
    match enum_bitmaps_ d !! field_index with
    | Some (MkEnumBitmap bits true) =>
        match value with
        | [ch] => negb (Z.land (default 0 (bits !! Z.shiftr ch 3)) (Z.shiftl 1 (Z.land ch 7)) =? 0)
        | _ => false
        end
    | _ =>
        if Z.of_nat (length (enum_values_ d)) <=? fd_enum_offset field_def then true
        else existsb (fun e => match string_at (string_table_ d) (ev_value_offset e) with
                               | Some allowed => bool_decide (allowed = value)
                               | None => false
                               end) (enum_range (enum_values_ d) field_def)
    end.

(** ** What the lookups stand for

    A scan of the records. *)

Definition scan_field (d : NormalizedDictionaryView) (tag : Z) : option FieldDefRecord :=
  List.find (fun f => fd_tag f =? tag) (field_defs_ d).
Definition scan_group (d : NormalizedDictionaryView) (tag : Z) : option GroupDefRecord :=
  List.find (fun g => count_tag g =? tag) (group_defs_ d).
Definition scan_message (d : NormalizedDictionaryView) (msg_type : list Z) : option MessageDefRecord :=
  List.find (fun m => match string_at (string_table_ d) (msg_type_offset m) with Some t => bool_decide (t = msg_type) | None => false end)
    (message_defs_ d).
Definition scan_enum (d : NormalizedDictionaryView) (f : FieldDefRecord) (value : list Z) : bool :=
  existsb (fun e => bool_decide (string_at (string_table_ d) (ev_value_offset e) = Some value)) (enum_range (enum_values_ d) f).

(** Ranges of rules as an artifact lays them out: one after the other. *)
Fixpoint consecutive {A} (first count : A -> Z) (start : Z) (defs : list A) : Prop :=
  match defs with
  | [] => True
  | d :: defs => first d = start /\ 0 <= count d /\ consecutive first count (start + count d) defs
  end.

(** Tags, message types and rules without duplicates, tags that are not negative,
    and no more fields than a slot of the direct table can number: position 65535
    is [kNoEntry] and left out ([direct_table_last_slot]). *)
Record profile_ok (p : LoadedProfile) : Prop := {
  ok_fields : NoDup (fd_tag <$> default [] (p_field_defs p));
  ok_field_tags : Forall (fun f => 0 <= fd_tag f) (default [] (p_field_defs p));
  ok_field_count : Z.of_nat (length (default [] (p_field_defs p))) <= kNoEntry;
  ok_groups : NoDup (count_tag <$> default [] (p_group_defs p));
  ok_group_tags : Forall (fun g => 0 <= count_tag g) (default [] (p_group_defs p));
  ok_messages : NoDup (omap (fun m => string_at (default [] (p_string_table p)) (msg_type_offset m)) (default [] (p_message_defs p)));
  ok_message_ranges : consecutive md_first_field_rule md_field_rule_count 0 (default [] (p_message_defs p));
  ok_group_ranges : consecutive gd_first_field_rule gd_field_rule_count 0 (default [] (p_group_defs p));
  ok_message_rules : Forall (fun m => NoDup (fr_tag <$> slice (default [] (p_message_field_rules p))
      (Z.to_nat (md_first_field_rule m)) (Z.to_nat (md_field_rule_count m)))) (default [] (p_message_defs p));
  ok_group_rules : Forall (fun g => NoDup (fr_tag <$> slice (default [] (p_group_field_rules p))
      (Z.to_nat (gd_first_field_rule g)) (Z.to_nat (gd_field_rule_count g)))) (default [] (p_group_defs p));
  ok_enum_offsets : Forall (fun f => 0 <= fd_enum_offset f /\ 0 <= fd_enum_count f) (default [] (p_field_defs p));
  ok_bytes : Forall (fun b => 0 <= b < 256) (default [] (p_string_table p));
}.

(** ** Lemmas: indices *)

Lemma tag_entries_elem {A} (tag : A -> Z) l e :
  e ∈ tag_entries tag l <-> exists x, l !! ti_index e = Some x /\ tag x = ti_key e.
Proof.
  unfold tag_entries. rewrite list_elem_of_lookup. setoid_rewrite list_lookup_imap. split.
  - intros (i & Hi). destruct (l !! i) as [x|] eqn:Ex; [|done]. cbn in Hi. injection Hi as <-. cbn. eauto.
  - intros (x & Hx & Ht). exists (ti_index e). rewrite Hx. cbn. destruct e. cbn in *. by rewrite Ht.
Qed.

(** Through a sorted index an element with the tag is found when there is one. *)
Lemma tag_index_found {A} {S1 : SortAlgorithm ti_key} (tag : A -> Z) (l : list A) k :
  found tag k l (binary_find ti_key k (std_sort (key := ti_key) (tag_entries tag l)) ≫= fun e => l !! ti_index e).
Proof.
  pose proof (sort_find ti_key k (tag_entries tag l)) as Hf. destruct (binary_find _ _ _) as [e|]; cbn in Hf |- *.
  - destruct Hf as [He Hk]. apply tag_entries_elem in He as (x & Hx & Ht). rewrite Hx. split; [by eapply list_elem_of_lookup_2|congruence].
  - intros x Hx Hk. apply list_elem_of_lookup in Hx as [i Hi]. apply (Hf (MkTagIndex k i)); [|done]. apply tag_entries_elem. by exists x.
Qed.

Lemma message_entries_elem table l e :
  e ∈ message_entries table l <-> exists m, l !! mi_index e = Some m /\ string_at table (msg_type_offset m) = Some (mi_msg_type e).
Proof.
  unfold message_entries. rewrite list_elem_of_omap. split.
  - intros ([i m] & Hin & He). apply list_elem_of_lookup in Hin as [j Hj]. rewrite list_lookup_imap in Hj.
    destruct (l !! j) as [m'|] eqn:Em; [|done]. cbn in Hj. injection Hj as <- <-.
    destruct (string_at table (msg_type_offset m')) as [t|] eqn:Et; [|done]. cbn in He. injection He as <-. cbn. eauto.
  - intros (m & Hm & Ht). exists (mi_index e, m). split.
    + apply list_elem_of_lookup. exists (mi_index e). by rewrite list_lookup_imap, Hm.
    + rewrite Ht. by destruct e.
Qed.

(** Distinct images name distinct positions. *)
Lemma omap_nodup_index {A B} (f : A -> option B) l i j x y b :
  NoDup (omap f l) -> l !! i = Some x -> l !! j = Some y -> f x = Some b -> f y = Some b -> Some x = Some y.
Proof.
  revert i j. induction l as [|z l IH]; intros i j Hnd Hi Hj Hx Hy; [done|]. cbn in Hnd.
  assert (Hin : forall k w, l !! k = Some w -> f w = Some b -> b ∈ omap f l) by (intros k w Hk Hw; apply list_elem_of_omap; eexists; split; [by eapply list_elem_of_lookup_2|done]).
  destruct i as [|i], j as [|j]; cbn in Hi, Hj; [congruence|..].
  - injection Hi as ->. rewrite Hx in Hnd. apply NoDup_cons in Hnd as [Hn _]. destruct Hn. by eapply Hin.
  - injection Hj as ->. rewrite Hy in Hnd. apply NoDup_cons in Hnd as [Hn _]. destruct Hn. by eapply Hin.
  - apply (IH i j); try done. destruct (f z); [by apply NoDup_cons in Hnd as [_ ?]|done].
Qed.

(** ** Lemmas: the direct table *)

Lemma direct_lookup_snoc l f : direct_lookup (l ++ [f]) =
  if (fd_tag f <? kDirectLookupSize) && (Z.of_nat (length l) <=? UINT16_MAX) then <[fd_tag f := Z.of_nat (length l)]> (direct_lookup l)
  else direct_lookup l.
Proof. unfold direct_lookup. rewrite imap_app, fold_left_app. cbn. by rewrite Nat.add_0_r. Qed.

Lemma direct_lookup_spec l tag : tag < kDirectLookupSize -> Z.of_nat (length l) <= kNoEntry ->
  match direct_lookup l !! tag with
  | Some v => 0 <= v < kNoEntry /\ exists f, l !! Z.to_nat v = Some f /\ fd_tag f = tag
  | None => forall f, f ∈ l -> fd_tag f <> tag
  end.
Proof.
  intros Ht. induction l as [|f l IH] using rev_ind; intros Hl; [change (direct_lookup []) with (∅ : gmap Z Z); rewrite lookup_empty; intros f Hf; by apply not_elem_of_nil in Hf|].
  rewrite length_app in Hl. cbn in Hl. rewrite direct_lookup_snoc. specialize (IH ltac:(lia)). unfold kNoEntry, UINT16_MAX in *.
  destruct (Z.leb_spec (Z.of_nat (length l)) 65535); [|lia]. rewrite andb_true_r. destruct (Z.ltb_spec (fd_tag f) kDirectLookupSize).
  - destruct (decide (fd_tag f = tag)) as [<-|Hne].
    + rewrite lookup_insert_eq. split; [lia|]. exists f. rewrite Nat2Z.id, lookup_app_r, Nat.sub_diag by lia. done.
    + rewrite lookup_insert_ne by done. destruct (direct_lookup l !! tag) as [v|].
      * destruct IH as (Hv & g & Hg & Hgt). split; [done|]. exists g. split; [|done]. by apply lookup_app_l_Some.
      * intros g Hg. apply elem_of_app in Hg as [Hg|Hg]; [by apply IH|]. apply list_elem_of_singleton in Hg as ->. done.
  - destruct (direct_lookup l !! tag) as [v|].
    + destruct IH as (Hv & g & Hg & Hgt). split; [done|]. exists g. split; [|done]. by apply lookup_app_l_Some.
    + intros g Hg. apply elem_of_app in Hg as [Hg|Hg]; [by apply IH|]. apply list_elem_of_singleton in Hg as ->. lia.
Qed.

(** ** Lemmas: the sorted rules *)

Definition rule_entries (rules : list FieldRuleRecord) : list TagRuleEntry :=
  imap (fun i r => MkTagRule (fr_tag r) (Z.of_nat i)) rules.

Section Rules.
Context {S3 : SortAlgorithm tr_tag}.

Lemma sort_range_length rules sorted first count : 0 <= first -> 0 <= count ->
  length sorted = length rules -> first + count <= Z.of_nat (length rules) -> length (sort_range rules sorted first count) = length rules.
Proof.
  intros H1 H2 Hl Hr. unfold sort_range. cbn zeta. rewrite !length_app, length_take, length_drop.
  rewrite (Permutation_length (std_sort_perm _)), length_imap, length_slice by lia. lia.
Qed.

Lemma sort_range_take rules sorted first count : 0 <= first -> first <= Z.of_nat (length sorted) ->
  take (Z.to_nat first) (sort_range rules sorted first count) = take (Z.to_nat first) sorted.
Proof. intros H1 H2. unfold sort_range. cbn zeta. rewrite take_app_le by (rewrite length_take; lia). by rewrite take_take, Nat.min_id. Qed.

Lemma sort_range_slice rules sorted first count : 0 <= first -> 0 <= count -> length sorted = length rules ->
  first + count <= Z.of_nat (length rules) ->
  slice (sort_range rules sorted first count) (Z.to_nat first) (Z.to_nat count) =
  std_sort (key := tr_tag) (rule_entries (slice rules (Z.to_nat first) (Z.to_nat count))).
Proof.
  intros H1 H2 Hl Hr. unfold sort_range, slice at 1. cbn zeta. rewrite drop_app_length' by (rewrite length_take; lia).
  fold (rule_entries (slice rules (Z.to_nat first) (Z.to_nat count))).
  apply take_app_length'. rewrite (Permutation_length (std_sort_perm _)). unfold rule_entries. rewrite length_imap, length_slice; lia.
Qed.

Lemma sorted_rules_fold {A} (first count : A -> Z) rules defs : forall start sorted,
  0 <= start -> consecutive first count start defs -> Forall (fun d => first d + count d <= Z.of_nat (length rules)) defs ->
  length sorted = length rules ->
  let result := fold_left (fun s d => sort_range rules s (first d) (count d)) defs sorted in
  length result = length rules /\ (start <= Z.of_nat (length rules) -> take (Z.to_nat start) result = take (Z.to_nat start) sorted) /\
  Forall (fun d => slice result (Z.to_nat (first d)) (Z.to_nat (count d)) =
                   std_sort (key := tr_tag) (rule_entries (slice rules (Z.to_nat (first d)) (Z.to_nat (count d))))) defs.
Proof.
  induction defs as [|d defs IH]; intros start sorted H0 Hc Hr Hl; cbn zeta; [done|].
  destruct Hc as (Hf & Hcnt & Hc). apply Forall_cons in Hr as [Hrd Hr]. cbn [fold_left]. rewrite Hf in *.
  assert (Hl' : length (sort_range rules sorted start (count d)) = length rules) by (by apply sort_range_length).
  destruct (IH (start + count d) _ ltac:(lia) Hc Hr Hl') as (H1 & H2 & H3). cbn zeta in *. set (result := fold_left _ _ _) in *.
  specialize (H2 ltac:(lia)). split; [done|]. split.
  - intros _. rewrite <- (sort_range_take rules sorted start (count d)) by lia.
    transitivity (take (Z.to_nat start) (take (Z.to_nat (start + count d)) result)); [by rewrite take_take, Nat.min_l by lia|].
    rewrite H2, take_take, Nat.min_l by lia. done.
  - constructor; [|done]. rewrite Hf. rewrite <- (sort_range_slice rules sorted) by lia. unfold slice.
    transitivity (drop (Z.to_nat start) (take (Z.to_nat (start + count d)) result)).
    + rewrite Z2Nat.inj_add by lia. rewrite <- take_drop_commute. done.
    + rewrite H2, Z2Nat.inj_add, take_drop_commute by lia. done.
Qed.

Lemma sorted_rules_range {A} (first count : A -> Z) rules defs d :
  consecutive first count 0 defs -> Forall (fun d => first d + count d <= Z.of_nat (length rules)) defs -> d ∈ defs ->
  slice (sorted_rules first count rules defs) (Z.to_nat (first d)) (Z.to_nat (count d)) =
  std_sort (key := tr_tag) (rule_entries (slice rules (Z.to_nat (first d)) (Z.to_nat (count d)))).
Proof.
  intros Hc Hr Hd. destruct (sorted_rules_fold first count rules defs 0 (replicate (length rules) (MkTagRule 0 0)))
    as (_ & _ & Hs); [lia|done|done|apply length_replicate|]. rewrite Forall_forall in Hs. by apply Hs.
Qed.
End Rules.

(** The position of the rule with a tag, by the index and by the scan. *)
Lemma scan_rules_spec rules tag : forall base, 0 <= base ->
  scan_rules rules tag base = match list_find (fun r => fr_tag r = tag) rules with Some (i, _) => base + Z.of_nat i | None => -1 end.
Proof.
  induction rules as [|r rules IH]; intros base Hb; cbn; [done|]. destruct (Z.eqb_spec (fr_tag r) tag) as [E|E].
  - rewrite decide_True by done. lia.
  - rewrite decide_False by done. rewrite IH by lia. destruct (list_find _ rules) as [[i ?]|]; cbn; lia.
Qed.

Lemma rule_find_spec {S3 : SortAlgorithm tr_tag} rules tag : NoDup (fr_tag <$> rules) ->
  match binary_find tr_tag tag (std_sort (key := tr_tag) (rule_entries rules)) with
  | Some e => tr_original_index e = scan_rules rules tag 0 /\ 0 <= tr_original_index e
  | None => scan_rules rules tag 0 = -1
  end.
Proof.
  intros Hnd. pose proof (sort_find tr_tag tag (rule_entries rules)) as Hf. rewrite scan_rules_spec by lia.
  destruct (binary_find _ _ _) as [e|]; cbn in Hf.
  - destruct Hf as [He Ht]. apply list_elem_of_lookup in He as [i Hi]. unfold rule_entries in Hi. rewrite list_lookup_imap in Hi.
    destruct (rules !! i) as [r|] eqn:Er; [|done]. cbn in Hi. injection Hi as <-. cbn in *.
    assert (list_find (fun r => fr_tag r = tag) rules = Some (i, r)) as ->; [|lia].
    apply list_find_Some. split_and!; [done|done|]. intros j y Hj Hlt Hy.
    assert (j = i); [|lia]. eapply (NoDup_lookup _ j i tag Hnd); rewrite list_lookup_fmap; [by rewrite Hj; cbn; f_equal|by rewrite Er; cbn; f_equal].
  - destruct (list_find _ rules) as [[i r]|] eqn:Ef; [|done]. apply list_find_Some in Ef as (Hi & Ht & _).
    exfalso. apply (Hf (MkTagRule tag (Z.of_nat i))); [|done]. apply list_elem_of_lookup. exists i. unfold rule_entries.
    rewrite list_lookup_imap, Hi. cbn. by rewrite Ht.
Qed.

(** ** Lemmas: bitmaps *)

Lemma group_bits l tag : forall bits, 0 <= tag < kGroupBitmapBits ->
  bit_get 64 tag (fold_left set_group_bit l bits) = bit_get 64 tag bits || existsb (fun g => count_tag g =? tag) l.
Proof.
  induction l as [|g l IH]; intros bits Ht; cbn [fold_left existsb]; [by rewrite orb_false_r|]. rewrite IH by done. rewrite orb_assoc. f_equal.
  unfold set_group_bit. destruct (Z.ltb_spec (count_tag g) kGroupBitmapBits).
  - rewrite bit_get_set by lia. rewrite orb_comm, (Z.eqb_sym tag). done.
  - destruct (Z.eqb_spec (count_tag g) tag); [lia|]. by rewrite orb_false_r.
Qed.

Lemma char_word ch : 0 <= ch -> Z.shiftr ch 3 = ch / 8 /\ Z.land ch 7 = ch mod 8.
Proof. intros _. split; [by rewrite Z.shiftr_div_pow2|]. change 7 with (Z.ones 3). by rewrite Z.land_ones. Qed.

Lemma until_zero_bytes l t : until_zero l = Some t -> Forall (fun b => 0 <= b < 256) l -> Forall (fun b => 0 <= b < 256) t.
Proof.
  revert t. induction l as [|c l IH]; intros t Ht Hl; [done|]. cbn in Ht. destruct (c =? 0); [by injection Ht as <-|].
  apply Forall_cons in Hl as [Hc Hl]. destruct (until_zero l) as [t'|]; [|done]. injection Ht as <-. constructor; [done|]. by apply IH.
Qed.

Lemma string_at_bytes table offset t : string_at table offset = Some t -> Forall (fun b => 0 <= b < 256) table -> Forall (fun b => 0 <= b < 256) t.
Proof. unfold string_at. case_match; [done|]. intros Ht Hb. eapply until_zero_bytes; [exact Ht|]. by apply Forall_drop. Qed.

Lemma char_bits table l ch : forall bits, Forall (fun b => 0 <= b < 256) table -> forallb (single_char table) l = true ->
  bit_get 8 ch (fold_left (set_char_bit table) l bits) =
  bit_get 8 ch bits || existsb (fun e => bool_decide (string_at table (ev_value_offset e) = Some [ch])) l.
Proof.
  induction l as [|e l IH]; intros bits Hb Hs; cbn [fold_left existsb forallb] in *; [by rewrite orb_false_r|].
  apply andb_true_iff in Hs as [He Hs]. rewrite IH by done. rewrite orb_assoc. f_equal. unfold single_char in He.
  unfold set_char_bit. destruct (string_at table (ev_value_offset e)) as [[|c [|]]|] eqn:Es; try done.
  pose proof (string_at_bytes _ _ _ Es Hb) as Hc. apply Forall_cons in Hc as [Hc _]. destruct (char_word c ltac:(lia)) as [-> ->].
  fold (bit_set 8 c bits). rewrite bit_get_set by lia. rewrite orb_comm. f_equal. apply eq_true_iff_eq. rewrite Z.eqb_eq, bool_decide_eq_true. naive_solver.
Qed.

(** ** Lemmas: a view that was built *)

Section View.
Context {S1 : SortAlgorithm ti_key} {S2 : SortAlgorithm mi_msg_type} {S3 : SortAlgorithm tr_tag}.
Lemma first_failure_ok {A} (check : A -> Status) l : status.ok (first_failure check l) = true -> Forall (fun x => status.ok (check x) = true) l.
Proof. induction l as [|x l IH]; cbn; [constructor|]. destruct (status.ok (check x)) eqn:E; [|congruence]. intros Hl. constructor; auto. Qed.

Lemma and_then_ok s t : status.ok (and_then s t) = true -> status.ok s = true /\ status.ok t = true.
Proof. unfold and_then. destruct (status.ok s) eqn:E; [done|congruence]. Qed.

Lemma range_valid first count total label : status.ok (ValidateFieldRuleRange first count total label) = true -> first + count <= total.
Proof. unfold ValidateFieldRuleRange. repeat case_match; try done. intros _. bool_to_prop. lia. Qed.

Record view_built (p : LoadedProfile) (d : NormalizedDictionaryView) : Prop := {
  vb_fields : field_defs_ d = default [] (p_field_defs p);
  vb_messages : message_defs_ d = default [] (p_message_defs p);
  vb_groups : group_defs_ d = default [] (p_group_defs p);
  vb_table : string_table_ d = default [] (p_string_table p);
  vb_values : enum_values_ d = default [] (p_enum_values p);
  vb_message_rules : message_field_rules_ d = default [] (p_message_field_rules p);
  vb_group_rules : group_field_rules_ d = default [] (p_group_field_rules p);
  vb_field_index : field_index_ d = std_sort (key := ti_key) (tag_entries fd_tag (field_defs_ d));
  vb_group_index : group_index_ d = std_sort (key := ti_key) (tag_entries count_tag (group_defs_ d));
  vb_message_index : message_index_ d = std_sort (key := mi_msg_type) (message_entries (string_table_ d) (message_defs_ d));
  vb_sorted_messages : sorted_message_rules_ d = sorted_rules md_first_field_rule md_field_rule_count (message_field_rules_ d) (message_defs_ d);
  vb_sorted_groups : sorted_group_rules_ d = sorted_rules gd_first_field_rule gd_field_rule_count (group_field_rules_ d) (group_defs_ d);
  vb_direct : field_direct_lookup_ d = direct_lookup (field_defs_ d);
  vb_bitmap : group_count_tag_bitmap_ d = fold_left set_group_bit (group_defs_ d) ∅;
  vb_enums : enum_bitmaps_ d = map (enum_bitmap (string_table_ d) (enum_values_ d)) (field_defs_ d);
  vb_message_ranges : Forall (fun m => md_first_field_rule m + md_field_rule_count m <= Z.of_nat (length (message_field_rules_ d))) (message_defs_ d);
  vb_group_ranges : Forall (fun g => gd_first_field_rule g + gd_field_rule_count g <= Z.of_nat (length (group_field_rules_ d))) (group_defs_ d);
}.

Lemma built p d : FromProfile p = Value d -> view_built p d.
Proof.
  intros Hb. unfold FromProfile in Hb. destruct (p_string_table p) as [table|] eqn:Et; [|discriminate].
  destruct (p_field_defs p) as [fields|] eqn:Ef; [|discriminate].
  destruct (negb _ && _) in Hb; [discriminate|]. destruct (negb _ && _) in Hb; [discriminate|].
  destruct (negb (status.ok _)) eqn:Es; [discriminate|]. injection Hb as Hd'. apply negb_false_iff in Es.
  apply and_then_ok in Es as [_ Es]. apply and_then_ok in Es as [Em Eg]. apply first_failure_ok in Em, Eg.
  rewrite <- Hd'. split; cbn; rewrite ?Et, ?Ef; try done; (eapply Forall_impl; [eassumption|]); cbn; intros x Hx.
  - unfold validate_message_def in Hx. apply and_then_ok in Hx as [_ Hx]. apply and_then_ok in Hx as [_ Hx]. by apply range_valid in Hx.
  - unfold validate_group_def in Hx. apply and_then_ok in Hx as [_ Hx]. by apply range_valid in Hx.
Qed.

Context (p : LoadedProfile) (d : NormalizedDictionaryView) (Hd : FromProfile p = Value d) (Hok : profile_ok p).

Lemma find_field_exact tag : find_field d tag = scan_field d tag.
Proof.
  destruct (built p d Hd). apply (found_unique (H := tag_order) fd_tag tag (field_defs_ d)); [rewrite vb_fields0; apply Hok|].
  unfold find_field, find_field_index. destruct (Z.ltb_spec tag kDirectLookupSize) as [Ht|Ht].
  - rewrite vb_direct0. pose proof (direct_lookup_spec (field_defs_ d) tag Ht) as Hs. rewrite vb_fields0 in Hs at 1. specialize (Hs (ok_field_count p Hok)).
    destruct (direct_lookup (field_defs_ d) !! tag) as [v|]; cbn; [|exact Hs]. destruct Hs as (Hv & f & Hf & Hft).
    destruct (Z.eqb_spec v kNoEntry); [lia|]. cbn. rewrite Hf. split; [by eapply list_elem_of_lookup_2|done].
  - rewrite vb_field_index0. pose proof (tag_index_found fd_tag (field_defs_ d) tag) as Hs. destruct (binary_find _ _ _); done.
Qed.

Lemma find_group_exact tag : find_group d tag = scan_group d tag.
Proof.
  destruct (built p d Hd). apply (found_unique (H := tag_order) count_tag tag (group_defs_ d)); [rewrite vb_groups0; apply Hok|].
  unfold find_group. rewrite vb_group_index0. apply tag_index_found.
Qed.

Lemma is_group_count_tag_exact tag : 0 <= tag -> is_group_count_tag d tag = bool_decide (is_Some (scan_group d tag)).
Proof.
  intros Ht. unfold is_group_count_tag. destruct (Z.ltb_spec tag kGroupBitmapBits).
  - destruct (built p d Hd). rewrite vb_bitmap0, group_bits, bit_get_empty by lia. cbn. unfold scan_group.
    destruct (List.find _ _) as [g|] eqn:Ef.
    + apply List.find_some in Ef. rewrite bool_decide_eq_true_2 by by eexists. apply existsb_exists. eauto.
    + rewrite bool_decide_eq_false_2 by by intros []. apply not_true_is_false. intros (g & Hg & E)%existsb_exists.
      pose proof (List.find_none _ _ Ef g Hg). congruence.
  - rewrite find_group_exact. destruct (scan_group d tag); [by rewrite bool_decide_eq_true_2 by by eexists|].
    by rewrite bool_decide_eq_false_2 by by intros [].
Qed.

Lemma find_message_exact t : find_message d t = scan_message d t.
Proof.
  destruct (built p d Hd). unfold find_message, scan_message. rewrite vb_message_index0.
  pose proof (sort_find mi_msg_type t (message_entries (string_table_ d) (message_defs_ d))) as Hf.
  destruct (List.find _ _) as [m|] eqn:Em.
  - apply List.find_some in Em as [Hm Ht]. apply list_elem_of_In, list_elem_of_lookup in Hm as [j Hj].
    destruct (string_at (string_table_ d) (msg_type_offset m)) as [t'|] eqn:Et; [|done]. apply bool_decide_eq_true in Ht as ->.
    destruct (binary_find _ _ _) as [e|]; cbn in Hf |- *.
    + destruct Hf as [He Hk]. apply message_entries_elem in He as (m' & Hm' & Ht'). rewrite Hm'.
      pose proof (ok_messages p Hok) as Hnd. rewrite <- vb_table0, <- vb_messages0 in Hnd.
      eapply (omap_nodup_index (fun m => string_at (string_table_ d) (msg_type_offset m))); [exact Hnd|exact Hm'|exact Hj|exact Ht'|cbn; by rewrite Hk].
    + exfalso. apply (Hf (MkMsgTypeIndex t j)); [|done]. apply message_entries_elem. by exists m.
  - destruct (binary_find _ _ _) as [e|]; [|done]. destruct Hf as [He Hk]. apply message_entries_elem in He as (m' & Hm' & Ht').
    apply list_elem_of_lookup_2, list_elem_of_In in Hm'. pose proof (List.find_none _ _ Em m' Hm') as Hn. cbn in Hn.
    rewrite Ht', Hk, bool_decide_eq_true_2 in Hn by done. done.
Qed.

Lemma message_rules_exact m tag : m ∈ message_defs_ d ->
  message_rule_index d m tag = scan_rules (message_field_rules d m) tag 0 /\
  message_rule_allows_tag d m tag = (0 <=? scan_rules (message_field_rules d m) tag 0).
Proof.
  intros Hm. destruct (built p d Hd). unfold message_rule_index, message_rule_allows_tag, message_rule_range. rewrite vb_sorted_messages0.
  rewrite (sorted_rules_range md_first_field_rule) by (done || rewrite vb_messages0; apply Hok).
  pose proof (ok_message_rules p Hok) as Hnd. rewrite <- vb_messages0, <- vb_message_rules0, Forall_forall in Hnd.
  pose proof (rule_find_spec _ tag (Hnd m Hm)) as Hs. fold (message_field_rules d m) in Hs |- *. destruct (binary_find _ _ _) as [e|].
  - destruct Hs as [<- H0]. split; [done|]. symmetry. by apply Z.leb_le.
  - by rewrite Hs.
Qed.

Lemma group_rules_exact g tag : g ∈ group_defs_ d ->
  group_rule_index d g tag = scan_rules (group_field_rules d g) tag 0 /\
  group_rule_allows_tag d g tag = (0 <=? scan_rules (group_field_rules d g) tag 0).
Proof.
  intros Hg. unfold group_rule_index, group_rule_allows_tag. destruct (Z.leb_spec (gd_field_rule_count g) 8).
  - split; [done|]. rewrite scan_rules_spec by lia. apply eq_true_iff_eq. rewrite existsb_exists, Z.leb_le. destruct (list_find _ _) as [[i r]|] eqn:Ef.
    + apply list_find_Some in Ef as (Hi & Ht & _). split; [lia|]. intros _. exists r. split; [by eapply list_elem_of_In, list_elem_of_lookup_2|by apply Z.eqb_eq].
    + apply list_find_None in Ef. rewrite Forall_forall in Ef. split; [|lia]. intros (r & Hr & Ht). apply list_elem_of_In in Hr. apply Z.eqb_eq in Ht.
      by destruct (Ef r Hr).
  - destruct (built p d Hd). unfold group_rule_range. rewrite vb_sorted_groups0.
    rewrite (sorted_rules_range gd_first_field_rule) by (done || rewrite vb_groups0; apply Hok).
    pose proof (ok_group_rules p Hok) as Hnd. rewrite <- vb_groups0, <- vb_group_rules0, Forall_forall in Hnd.
    pose proof (rule_find_spec _ tag (Hnd g Hg)) as Hs. fold (group_field_rules d g) in Hs |- *. destruct (binary_find _ _ _) as [e|].
    + destruct Hs as [<- H0]. split; [done|]. symmetry. by apply Z.leb_le.
    + by rewrite Hs.
Qed.

Lemma enum_values_exact i f value : field_defs_ d !! i = Some f -> Forall (fun b => 0 <= b < 256) value ->
  is_enum_value_allowed d i f value =
  (fd_enum_count f =? 0) || (length value =? 0)%nat || (Z.of_nat (length (enum_values_ d)) <=? fd_enum_offset f) || scan_enum d f value.
Proof.
  intros Hf Hv. destruct (built p d Hd). unfold is_enum_value_allowed. destruct (fd_enum_count f =? 0) eqn:Ec; [done|]. destruct (length value =? 0)%nat eqn:El; [done|].
  cbn [orb]. rewrite vb_enums0. change (map ?g ?l) with (g <$> l). rewrite list_lookup_fmap, Hf. cbn. unfold enum_bitmap. rewrite Ec.
  assert (Hscan : existsb (fun e => match string_at (string_table_ d) (ev_value_offset e) with
     | Some allowed => bool_decide (allowed = value) | None => false end) (enum_range (enum_values_ d) f) = scan_enum d f value).
  { unfold scan_enum. induction (enum_range _ f) as [|e l IH]; cbn; [done|]. rewrite IH. f_equal. destruct (string_at _ _) as [t|]; [|done].
    apply bool_decide_ext. naive_solver. }
  destruct (Z.leb_spec (Z.of_nat (length (enum_values_ d))) (fd_enum_offset f)); [done|]. cbn [orb].
  destruct (forallb _ _) eqn:Es; [|done]. cbn. assert (Hb : Forall (fun b => 0 <= b < 256) (string_table_ d)) by (rewrite vb_table0; apply Hok).
  destruct value as [|ch [|c2 value]]; [done| |].
  - apply Forall_cons in Hv as [Hc _]. destruct (char_word ch ltac:(lia)) as [-> ->]. fold (bit_get 8 ch (fold_left (set_char_bit (string_table_ d)) (enum_range (enum_values_ d) f) ∅)).
    by rewrite char_bits, bit_get_empty.
  - symmetry. apply not_true_is_false. intros (e & He & Ee)%existsb_exists. apply bool_decide_eq_true in Ee. rewrite forallb_forall in Es. specialize (Es e He).
    unfold single_char in Es. by rewrite Ee in Es.
Qed.
End View.

(** ** Properties *)

(** C33: the indices of a dictionary view are exact.  For a profile without duplicate
    tags, message types or rules, whose rule ranges lie one after the other, every
    lookup through the direct-address table, the sorted vectors, the group bitmap
    and the enum bitmaps gives what a scan of the loaded records gives: fields,
    groups and messages by key, the position of a tag in the rules of a message or
    group, and membership in a field's enum values (a field whose enum range starts
    behind the section accepts every value).  The profile has at most 65535
    fields: the direct-address table stores positions in 16 bits and reads 65535
    as no entry. *)
Theorem dictionary_lookups_exact {S1 : SortAlgorithm ti_key} {S2 : SortAlgorithm mi_msg_type} {S3 : SortAlgorithm tr_tag} p d :
  FromProfile p = Value d -> profile_ok p ->
  (forall tag, find_field d tag = scan_field d tag) /\
  (forall tag, find_group d tag = scan_group d tag) /\
  (forall tag, 0 <= tag -> is_group_count_tag d tag = bool_decide (is_Some (scan_group d tag))) /\
  (forall t, find_message d t = scan_message d t) /\
  (forall m tag, m ∈ message_defs_ d ->
     message_rule_index d m tag = scan_rules (message_field_rules d m) tag 0 /\
     message_rule_allows_tag d m tag = (0 <=? scan_rules (message_field_rules d m) tag 0)) /\
  (forall g tag, g ∈ group_defs_ d ->
     group_rule_index d g tag = scan_rules (group_field_rules d g) tag 0 /\
     group_rule_allows_tag d g tag = (0 <=? scan_rules (group_field_rules d g) tag 0)) /\
  (forall i f value, field_defs_ d !! i = Some f -> Forall (fun b => 0 <= b < 256) value ->
     is_enum_value_allowed d i f value =
     (fd_enum_count f =? 0) || (length value =? 0)%nat || (Z.of_nat (length (enum_values_ d)) <=? fd_enum_offset f) || scan_enum d f value).
Proof.
  intros Hd Hok. split_and!.
  - by apply (find_field_exact p).
  - by apply (find_group_exact p).
  - by apply (is_group_count_tag_exact p).
  - by apply (find_message_exact p).
  - by apply (message_rules_exact p).
  - by apply (group_rules_exact p).
  - by apply (enum_values_exact p).
Qed.

(** ** A small profile: one order message with a group of parties *)

Definition demo_table : list Z := Eval vm_compute in 0 :: bytes "D" ++ [0] ++ bytes "1" ++ [0] ++ bytes "2" ++ [0].

Definition demo_field (tag value_type : Z) : FieldDefRecord := MkFieldDef tag 0 value_type 0 0 0.
Definition demo_rule (tag : Z) : FieldRuleRecord := MkRule tag 0.

(** Side has the enum values 1 and 2. *)
Definition demo_profile : LoadedProfile :=
  MkProfile (Some demo_table)
    (Some [demo_field 11 1; demo_field 38 2; MkFieldDef 54 0 3 0 0 2; demo_field 453 2; demo_field 448 1; demo_field 447 3;
           demo_field 452 2; demo_field 58 1; demo_field 20001 1])
    (Some [MkMessageDef 1 0 0 5 0])
    (Some [MkGroupDef 453 448 0 0 3 0 0])
    (Some (map demo_rule [11; 54; 453; 38; 58]))
    (Some (map demo_rule [448; 447; 452]))
    None None (Some [MkEnumValue 54 3 0; MkEnumValue 54 5 0]).

Definition demo_dictionary : NormalizedDictionaryView :=
  Eval vm_compute in match FromProfile demo_profile with Value d => d | Error _ => MkDictionary [] [] [] [] [] [] [] [] [] [] [] [] [] [] ∅ ∅ [] end.

Lemma demo_profile_ok : profile_ok demo_profile.
Proof.
  split; cbn [demo_profile default p_field_defs p_group_defs p_message_defs p_string_table p_message_field_rules p_group_field_rules].
  all: try (apply (bool_decide_unpack _); vm_compute; exact I).
  all: try (vm_compute; intros [=]; fail).
  all: repeat (split || constructor || cbn); lia.
Qed.

Lemma dictionary_lookups_exact_witness :
  FromProfile demo_profile = Value demo_dictionary /\ find_field demo_dictionary 20001 = Some (demo_field 20001 1) /\
  find_field demo_dictionary 12 = scan_field demo_dictionary 12.
Proof.
  split; [vm_compute; reflexivity|]. split; [vm_compute; reflexivity|].
  exact (proj1 (dictionary_lookups_exact demo_profile demo_dictionary eq_refl demo_profile_ok) 12).
Defined.

(** The field in position 65535 is stored in the direct table with the number
    that stands for no entry, and is not found. *)
Theorem direct_table_last_slot d l f :
  field_defs_ d = l ++ [f] -> Z.of_nat (length l) = kNoEntry -> field_direct_lookup_ d = direct_lookup (field_defs_ d) ->
  fd_tag f < kDirectLookupSize -> f ∈ field_defs_ d /\ find_field d (fd_tag f) = None.
Proof.
  intros Hf Hl Hd Ht. split; [rewrite Hf; set_solver|]. unfold find_field, find_field_index.
  rewrite (proj2 (Z.ltb_lt _ _) Ht), Hd, Hf, direct_lookup_snoc, (proj2 (Z.ltb_lt _ _) Ht), Hl. cbn [andb].
  change (kNoEntry <=? UINT16_MAX) with true. cbn beta iota. by rewrite lookup_insert_eq.
Qed.
