(* ===== verification/ParsedMessage.v ===== *)
(** * Parsed messages

    The zero-copy representation of a decoded message
    ([message/message_structs.h]), the operations by which the decoder fills it
    ([codec/fix_codec.cpp]) and the accessors of a view over it
    ([message/message.cpp]): three vectors of field slots, group entries and group
    frames that refer to each other by index, a direct-address table with
    generations for the fields of the root, and a cache for the session tags.
    [kInvalidParsedIndex] is [None]. *)
From S2P Require Import Prelude StdAlgo FixTags Message.
Open Scope Z_scope.

Record ParsedFieldSlot := MkParsedSlot { ps_tag : Z; ps_value_offset : Z; ps_value_length : Z; ps_flags : Z }.

Definition slot_type (s : ParsedFieldSlot) : Z := Z.land (ps_flags s) 7.
Definition set_type (t : Z) (s : ParsedFieldSlot) : ParsedFieldSlot :=
  MkParsedSlot (ps_tag s) (ps_value_offset s) (ps_value_length s) (u16 (Z.lor (Z.land (ps_flags s) 4294967288) (Z.land t 7))).

Record ParsedEntryData := MkEntry {
  first_field_index : option nat;
  field_count : Z;
  first_group : option nat;
  last_group : option nat;
  group_count : Z;
  next_entry : option nat;
}.

Record ParsedGroupFrame := MkFrame {
  g_count_tag : Z;
  first_entry : option nat;
  last_entry : option nat;
  entry_count : Z;
  g_depth : Z;
  next_group : option nat;
}.

Definition empty_entry : ParsedEntryData := MkEntry None 0 None None 0 None.

(** A first index that stays once it is set. *)
Definition first_or (n : nat) (o : option nat) : option nat := match o with None => Some n | Some i => Some i end.

Definition kInvalidHashSlot : Z := 65535.
Definition kFieldHashTableSize : Z := 1024.

(** The session tags of the quick cache, by their slot. *)
Definition QuickCacheSlotForTag (tag : Z) : option Z :=
  if tag =? tags.kBeginString then Some 0
  else if tag =? tags.kBodyLength then Some 1
  else if tag =? tags.kMsgType then Some 2
  else if tag =? tags.kMsgSeqNum then Some 3
  else if tag =? tags.kSenderCompID then Some 4
  else if tag =? tags.kTargetCompID then Some 5
  else if tag =? tags.kSendingTime then Some 6
  else if tag =? tags.kCheckSum then Some 7
  else None.

(** The arrays are maps; an absent entry of [field_hash_table] is zero, one of
    [quick_cache] is [kInvalidHashSlot]. *)
Record ParsedMessageData := MkParsed {
  pm_raw : list Z;
  pm_msg_type : list Z;
  root : ParsedEntryData;
  field_slots : list ParsedFieldSlot;
  entries : list ParsedEntryData;
  groups : list ParsedGroupFrame;
  field_hash_table : gmap Z Z;
  field_hash_overflow : list Z;
  field_generation : Z;
  quick_cache : gmap Z Z;
}.

Definition NewParsedMessageData : ParsedMessageData := MkParsed [] [] empty_entry [] [] [] ∅ [] 1 ∅.

(** [raw] stays as it was. *)
Definition ResetForNewDecode (d : ParsedMessageData) : ParsedMessageData :=
  let bumped := u16 (field_generation d + 1) in
  let '(table, generation) := if bumped =? 0 then (∅, 1) else (field_hash_table d, bumped) in
  MkParsed (pm_raw d) [] empty_entry [] [] [] table [] generation ∅.

(** ** Containers: the root or a group entry *)

Inductive ParsedContainerRef := RootContainer | EntryContainer (entry_index : nat).

#[export] Instance container_eq_dec : EqDecision ParsedContainerRef.
Proof. solve_decision. Defined.

Definition ResolveContainer (d : ParsedMessageData) (c : ParsedContainerRef) : option ParsedEntryData :=
  match c with RootContainer => Some (root d) | EntryContainer i => entries d !! i end.

Definition set_slots (s : list ParsedFieldSlot) (d : ParsedMessageData) : ParsedMessageData :=
  MkParsed (pm_raw d) (pm_msg_type d) (root d) s (entries d) (groups d) (field_hash_table d) (field_hash_overflow d)
    (field_generation d) (quick_cache d).
Definition set_entries (es : list ParsedEntryData) (d : ParsedMessageData) : ParsedMessageData :=
  MkParsed (pm_raw d) (pm_msg_type d) (root d) (field_slots d) es (groups d) (field_hash_table d) (field_hash_overflow d)
    (field_generation d) (quick_cache d).
Definition set_groups (gs : list ParsedGroupFrame) (d : ParsedMessageData) : ParsedMessageData :=
  MkParsed (pm_raw d) (pm_msg_type d) (root d) (field_slots d) (entries d) gs (field_hash_table d) (field_hash_overflow d)
    (field_generation d) (quick_cache d).
Definition set_msg_type (t : list Z) (d : ParsedMessageData) : ParsedMessageData :=
  MkParsed (pm_raw d) t (root d) (field_slots d) (entries d) (groups d) (field_hash_table d) (field_hash_overflow d)
    (field_generation d) (quick_cache d).
Definition set_raw (b : list Z) (d : ParsedMessageData) : ParsedMessageData :=
  MkParsed b (pm_msg_type d) (root d) (field_slots d) (entries d) (groups d) (field_hash_table d) (field_hash_overflow d)
    (field_generation d) (quick_cache d).

Definition update_container (c : ParsedContainerRef) (f : ParsedEntryData -> ParsedEntryData) (d : ParsedMessageData) : ParsedMessageData :=
  match c with
  | RootContainer => MkParsed (pm_raw d) (pm_msg_type d) (f (root d)) (field_slots d) (entries d) (groups d) (field_hash_table d)
                       (field_hash_overflow d) (field_generation d) (quick_cache d)
  | EntryContainer i => set_entries (alter f i (entries d)) d
  end.

(** ** Fields *)

(** Pairs of tag and slot index, for tags from 1024. *)
Fixpoint overflow_find (l : list Z) (tag : Z) : option Z :=
  match l with
  | t :: i :: l => if t =? u16 tag then Some i else overflow_find l tag
  | _ => None
  end.

Fixpoint scan_slots (slots : list ParsedFieldSlot) (tag : Z) (index count : nat) : option nat :=
  match count with
  | O => None
  | S count =>
      match slots !! index with
      | Some s => if ps_tag s =? tag then Some index else scan_slots slots tag (S index) count
      | None => None
      end
  end.

Definition hash_find (d : ParsedMessageData) (tag : Z) : option nat :=
  if tag <? kFieldHashTableSize
  then let packed := default 0 (field_hash_table d !! tag) in
       if Z.shiftr packed 16 =? field_generation d then Some (Z.to_nat (Z.land packed 65535)) else None
  else Z.to_nat <$> overflow_find (field_hash_overflow d) tag.

Definition FindParsedFieldIndex (d : ParsedMessageData) (c : ParsedContainerRef) (tag : Z) : option nat :=
  match c with
  | RootContainer => hash_find d tag
  | EntryContainer _ =>
      match ResolveContainer d c with
      | Some e => match first_field_index e with
                  | Some first => scan_slots (field_slots d) tag first (Z.to_nat (field_count e))
                  | None => None
                  end
      | None => None
      end
  end.

Definition InsertIntoRootHashTable (slot_index : nat) (d : ParsedMessageData) : ParsedMessageData :=
  match field_slots d !! slot_index with
  | Some s =>
      let tag := ps_tag s in
      if tag <? kFieldHashTableSize
      then MkParsed (pm_raw d) (pm_msg_type d) (root d) (field_slots d) (entries d) (groups d)
             (<[tag := Z.lor (Z.shiftl (field_generation d) 16) (Z.land (Z.of_nat slot_index) 65535)]> (field_hash_table d))
             (field_hash_overflow d) (field_generation d) (quick_cache d)
      else MkParsed (pm_raw d) (pm_msg_type d) (root d) (field_slots d) (entries d) (groups d) (field_hash_table d)
             (field_hash_overflow d ++ [u16 tag; u16 (Z.of_nat slot_index)]) (field_generation d) (quick_cache d)
  | None => d
  end.

Definition fill_quick_cache (tag : Z) (index : nat) (d : ParsedMessageData) : ParsedMessageData :=
  match QuickCacheSlotForTag tag with
  | Some q => MkParsed (pm_raw d) (pm_msg_type d) (root d) (field_slots d) (entries d) (groups d) (field_hash_table d)
                (field_hash_overflow d) (field_generation d) (<[q := u16 (Z.of_nat index)]> (quick_cache d))
  | None => d
  end.

Definition count_field (index : nat) (e : ParsedEntryData) : ParsedEntryData :=
  MkEntry (first_or index (first_field_index e)) (u16 (field_count e + 1)) (first_group e) (last_group e)
    (group_count e) (next_entry e).

(** Whether the tag was there before, and the message after. *)
Definition AppendParsedFieldSlot (c : ParsedContainerRef) (slot : ParsedFieldSlot) (d : ParsedMessageData) : bool * ParsedMessageData :=
  match FindParsedFieldIndex d c (ps_tag slot) with
  | Some existing => (true, set_slots (<[existing := slot]> (field_slots d)) d)
  | None =>
      let new_index := length (field_slots d) in
      let d := update_container c (count_field new_index) (set_slots (field_slots d ++ [slot]) d) in
      (false, match c with
              | RootContainer => fill_quick_cache (ps_tag slot) new_index (InsertIntoRootHashTable new_index d)
              | EntryContainer _ => d
              end)
  end.

(** The duplicate check of the root written out. *)
Definition AppendParsedFieldSlotFast (slot : ParsedFieldSlot) (d : ParsedMessageData) : bool * ParsedMessageData :=
  let tag := ps_tag slot in
  let existing :=
    if tag <? kFieldHashTableSize
    then let packed := default 0 (field_hash_table d !! tag) in
         if Z.shiftr packed 16 =? field_generation d then Some (Z.to_nat (Z.land packed 65535)) else None
    else Z.to_nat <$> overflow_find (field_hash_overflow d) tag in
  match existing with
  | Some existing => (true, set_slots (<[existing := slot]> (field_slots d)) d)
  | None =>
      let new_index := length (field_slots d) in
      let d := set_slots (field_slots d ++ [slot]) d in
      let d := update_container RootContainer (count_field new_index) d in
      (false, fill_quick_cache tag new_index (InsertIntoRootHashTable new_index d))
  end.

Definition MakeParsedFieldSlotWithType (tag value_offset value_length field_type : Z) : ParsedFieldSlot :=
  let s := set_type field_type (MkParsedSlot tag 0 0 0) in MkParsedSlot tag (u32 value_offset) (u16 value_length) (ps_flags s).

(** ** Groups *)

(** The while loop over a chain, up to the first element that satisfies [p]. *)
Fixpoint chain_find {A} (next : A -> option nat) (p : A -> bool) (l : list A) (fuel : nat) (start : option nat) : option nat :=
  match fuel, start with
  | S fuel, Some i =>
      match l !! i with
      | Some x => if p x then Some i else chain_find next p l fuel (next x)
      | None => None
      end
  | _, _ => None
  end.

(** The while loop that counts to [index]. *)
Fixpoint chain_nth {A} (next : A -> option nat) (l : list A) (fuel : nat) (start : option nat) (index : nat) : option nat :=
  match fuel, start with
  | S fuel, Some i =>
      match index with
      | O => Some i
      | S index => match l !! i with Some x => chain_nth next l fuel (next x) index | None => None end
      end
  | _, _ => None
  end.

Definition FindParsedGroupIndex (d : ParsedMessageData) (c : ParsedContainerRef) (tag : Z) : option nat :=
  match ResolveContainer d c with
  | Some e => chain_find next_group (fun g => g_count_tag g =? tag) (groups d) (length (groups d)) (first_group e)
  | None => None
  end.

Definition set_next_group (n : nat) (g : ParsedGroupFrame) : ParsedGroupFrame :=
  MkFrame (g_count_tag g) (first_entry g) (last_entry g) (entry_count g) (g_depth g) (Some n).
Definition set_next_entry (n : nat) (e : ParsedEntryData) : ParsedEntryData :=
  MkEntry (first_field_index e) (field_count e) (first_group e) (last_group e) (group_count e) (Some n).

Definition link_group (n : nat) (e : ParsedEntryData) : ParsedEntryData :=
  MkEntry (first_field_index e) (field_count e) (first_or n (first_group e)) (Some n) (u16 (group_count e + 1))
    (next_entry e).

Definition EnsureParsedGroup (c : ParsedContainerRef) (tag depth : Z) (d : ParsedMessageData) : nat * ParsedMessageData :=
  match FindParsedGroupIndex d c tag with
  | Some existing => (existing, d)
  | None =>
      let new_index := length (groups d) in
      let gs := groups d ++ [MkFrame tag None None 0 depth None] in
      let gs := match ResolveContainer d c with
                | Some e => match first_group e, last_group e with
                            | Some _, Some last => alter (set_next_group new_index) last gs
                            | _, _ => gs
                            end
                | None => gs
                end in
      (new_index, update_container c (link_group new_index) (set_groups gs d))
  end.

Definition link_entry (n : nat) (g : ParsedGroupFrame) : ParsedGroupFrame :=
  MkFrame (g_count_tag g) (first_or n (first_entry g)) (Some n) (u16 (entry_count g + 1)) (g_depth g) (next_group g).

Definition AppendParsedEntry (group_index : nat) (d : ParsedMessageData) : nat * ParsedMessageData :=
  let new_index := length (entries d) in
  let es := entries d ++ [empty_entry] in
  let es := match groups d !! group_index with
            | Some g => match first_entry g, last_entry g with
                        | Some _, Some last => alter (set_next_entry new_index) last es
                        | _, _ => es
                        end
            | None => es
            end in
  (new_index, set_groups (alter (link_entry new_index) group_index (groups d)) (set_entries es d)).

(** ** Accessors of a view *)

Definition ParsedSlotText (d : ParsedMessageData) (s : ParsedFieldSlot) : list Z :=
  if (length (pm_raw d) =? 0)%nat || (ps_value_length s =? 0) then []
  else slice (pm_raw d) (Z.to_nat (ps_value_offset s)) (Z.to_nat (ps_value_length s)).

Definition FindParsedFieldInRoot (d : ParsedMessageData) (tag : Z) : option ParsedFieldSlot :=
  match QuickCacheSlotForTag tag with
  | Some q => let idx := default kInvalidHashSlot (quick_cache d !! q) in
              if idx =? kInvalidHashSlot then None else field_slots d !! Z.to_nat idx
  | None => hash_find d tag ≫= fun i => field_slots d !! i
  end.

Definition FindParsedField (d : ParsedMessageData) (c : ParsedContainerRef) (tag : Z) : option ParsedFieldSlot :=
  match ResolveContainer d c with
  | Some e =>
      match first_field_index e with
      | Some first =>
          if field_count e =? 0 then None
          else match c with
               | RootContainer => FindParsedFieldInRoot d tag
               | EntryContainer _ => scan_slots (field_slots d) tag first (Z.to_nat (field_count e)) ≫= fun i => field_slots d !! i
               end
      | None => None
      end
  | None => None
  end.

Definition NthParsedField (d : ParsedMessageData) (c : ParsedContainerRef) (index : nat) : option ParsedFieldSlot :=
  match ResolveContainer d c with
  | Some e =>
      match first_field_index e with
      | Some first => if field_count e <=? Z.of_nat index then None else field_slots d !! (first + index)%nat
      | None => None
      end
  | None => None
  end.

Definition FindParsedGroup (d : ParsedMessageData) (c : ParsedContainerRef) (tag : Z) : option nat := FindParsedGroupIndex d c tag.

Definition NthParsedGroup (d : ParsedMessageData) (c : ParsedContainerRef) (index : nat) : option nat :=
  match ResolveContainer d c with
  | Some e => chain_nth next_group (groups d) (length (groups d)) (first_group e) index
  | None => None
  end.

Definition NthParsedEntry (d : ParsedMessageData) (group_index : nat) (index : nat) : option nat :=
  match groups d !! group_index with
  | Some g => chain_nth next_entry (entries d) (length (entries d)) (first_entry g) index
  | None => None
  end.

(** ** What a parsed message stands for

    Who owns what, in the order in which it was added: fields by container, groups by
    parent and count tag, entries by group. *)

Record Ownership := MkOwnership {
  o_slots : list (ParsedContainerRef * ParsedFieldSlot);
  o_groups : list (ParsedContainerRef * Z);
  o_entries : list nat;
}.

Definition nobody : Ownership := MkOwnership [] [] [].

(** The positions that satisfy [p], in order. *)
Definition positions {A} (p : A -> bool) (l : list A) : list nat := omap (fun '(i, x) => if p x then Some i else None) (imap pair l).

Definition owns_slot (c : ParsedContainerRef) (x : ParsedContainerRef * ParsedFieldSlot) : bool := bool_decide (x.1 = c).
Definition owns_group (c : ParsedContainerRef) (x : ParsedContainerRef * Z) : bool := bool_decide (x.1 = c).
Definition owns_entry (g : nat) (x : nat) : bool := bool_decide (x = g).

Definition fields_of (o : Ownership) (c : ParsedContainerRef) : list ParsedFieldSlot := (List.filter (owns_slot c) (o_slots o)).*2.
Definition groups_of (o : Ownership) (c : ParsedContainerRef) : list nat := positions (owns_group c) (o_groups o).
Definition entries_of (o : Ownership) (g : nat) : list nat := positions (owns_entry g) (o_entries o).

Definition same_field (c : ParsedContainerRef) (tag : Z) (x : ParsedContainerRef * ParsedFieldSlot) : bool :=
  owns_slot c x && (ps_tag x.2 =? tag).
Definition same_group (c : ParsedContainerRef) (tag : Z) (x : ParsedContainerRef * Z) : bool := owns_group c x && (x.2 =? tag).

(** A field replaces the one with its tag, or comes last. *)
Definition add_field (c : ParsedContainerRef) (s : ParsedFieldSlot) (o : Ownership) : Ownership :=
  match head (positions (same_field c (ps_tag s)) (o_slots o)) with
  | Some i => MkOwnership (<[i := (c, s)]> (o_slots o)) (o_groups o) (o_entries o)
  | None => MkOwnership (o_slots o ++ [(c, s)]) (o_groups o) (o_entries o)
  end.

Definition add_group (c : ParsedContainerRef) (tag : Z) (o : Ownership) : nat * Ownership :=
  match head (positions (same_group c tag) (o_groups o)) with
  | Some g => (g, o)
  | None => (length (o_groups o), MkOwnership (o_slots o) (o_groups o ++ [(c, tag)]) (o_entries o))
  end.

Definition add_entry (g : nat) (o : Ownership) : nat * Ownership :=
  (length (o_entries o), MkOwnership (o_slots o) (o_groups o) (o_entries o ++ [g])).

(** ** Lemmas: positions *)

Lemma positions_snoc {A} (p : A -> bool) l x : positions p (l ++ [x]) = positions p l ++ (if p x then [length l] else []).
Proof. unfold positions. rewrite imap_app, omap_app. f_equal. cbn. rewrite Nat.add_0_r. by destruct (p x). Qed.

Lemma positions_elem {A} (p : A -> bool) l i : i ∈ positions p l <-> exists x, l !! i = Some x /\ p x = true.
Proof.
  unfold positions. rewrite list_elem_of_omap. split.
  - intros ([j x] & Hin & He). apply list_elem_of_lookup in Hin as [k Hk]. rewrite list_lookup_imap in Hk.
    destruct (l !! k) as [y|] eqn:Ey; [|done]. cbn in Hk. injection Hk as <- <-. destruct (p y) eqn:Ep; [|done]. injection He as <-. eauto.
  - intros (x & Hx & Hp). exists (i, x). rewrite Hp. split; [|done]. apply list_elem_of_lookup. exists i. by rewrite list_lookup_imap, Hx.
Qed.

Lemma positions_lt {A} (p : A -> bool) l i : i ∈ positions p l -> (i < length l)%nat.
Proof. rewrite positions_elem. intros (x & Hx & _). by eapply lookup_lt_Some. Qed.

Lemma positions_length {A} (p : A -> bool) l : (length (positions p l) <= length l)%nat.
Proof.
  induction l as [|x l IH] using rev_ind; [done|]. rewrite positions_snoc, !length_app. destruct (p x); cbn; lia.
Qed.

Lemma positions_nodup {A} (p : A -> bool) l : NoDup (positions p l).
Proof.
  induction l as [|x l IH] using rev_ind; [constructor|]. rewrite positions_snoc. apply NoDup_app. split; [done|].
  destruct (p x); [|split; [set_solver|constructor]]. split; [|apply NoDup_singleton].
  intros i Hi ->%list_elem_of_singleton. apply positions_lt in Hi. lia.
Qed.

Lemma positions_replace {A} (p : A -> bool) l i x y : l !! i = Some x -> p y = p x -> positions p (<[i := y]> l) = positions p l.
Proof.
  intros Hx Hp. induction l as [|z l IH] using rev_ind; [done|]. pose proof (lookup_lt_Some _ _ _ Hx) as Hlt. rewrite length_app in Hlt. cbn in Hlt.
  destruct (decide (i = length l)) as [->|Hne].
  - rewrite lookup_app_r, Nat.sub_diag in Hx by lia. injection Hx as ->. rewrite insert_app_r_alt, Nat.sub_diag by lia. cbn. by rewrite !positions_snoc, Hp.
  - rewrite lookup_app_l in Hx by lia. rewrite insert_app_l by lia. rewrite !positions_snoc, IH, length_insert by done. done.
Qed.

Lemma positions_head {A} (p : A -> bool) l : head (positions p l) = fst <$> list_find (fun x => p x = true) l.
Proof.
  induction l as [|x l IH] using rev_ind; [done|]. rewrite positions_snoc. destruct (positions p l) as [|i ids] eqn:E.
  - assert (Hn : list_find (fun x => p x = true) l = None) by (destruct (list_find _ l) as [[]|]; [done|reflexivity]).
    rewrite list_find_app_r by done. cbn. destruct (p x) eqn:Ep; [rewrite decide_True by done; cbn; f_equal; lia|by rewrite decide_False by congruence].
  - cbn in IH |- *. destruct (list_find _ l) as [[j y]|] eqn:Ef; [|done]. cbn in IH. injection IH as ->. by erewrite list_find_app_l.
Qed.

(** ** Lemmas: chains *)

Section Linked.
Context {A : Type} (next : A -> option nat).

Fixpoint linked (l : list A) (start : option nat) (ids : list nat) : Prop :=
  match ids with
  | [] => start = None
  | i :: ids => start = Some i /\ exists x, l !! i = Some x /\ linked l (next x) ids
  end.

Lemma linked_frame l l' ids : forall start, linked l start ids -> (forall i, i ∈ ids -> next <$> l' !! i = next <$> l !! i) -> linked l' start ids.
Proof.
  induction ids as [|i ids IH]; intros start Hl Hf; [done|]. destruct Hl as (-> & x & Hx & Hl). split; [done|].
  pose proof (Hf i ltac:(left)) as Hi. rewrite Hx in Hi. destruct (l' !! i) as [x'|]; [|done]. cbn in Hi. injection Hi as Hi.
  exists x'. split; [done|]. rewrite Hi. apply IH; [done|]. intros j Hj. apply Hf. by right.
Qed.

(** A new last element. *)
Lemma linked_extend l l' n ids : forall start, linked l start ids -> NoDup ids -> n ∉ ids ->
  (forall i, i ∈ ids -> last ids <> Some i -> next <$> l' !! i = next <$> l !! i) ->
  (forall i, last ids = Some i -> exists x, l' !! i = Some x /\ next x = Some n) ->
  (exists x, l' !! n = Some x /\ next x = None) ->
  linked l' (first_or n start) (ids ++ [n]).
Proof.
  induction ids as [|i ids IH]; intros start Hl Hnd Hn Hf Hlast (y & Hy & Hyn).
  - cbn in Hl. subst. cbn. split; [done|]. by exists y.
  - destruct Hl as (-> & x & Hx & Hl). apply NoDup_cons in Hnd as [Hi Hnd]. cbn [app linked]. split; [done|].
    destruct ids as [|j ids].
    + destruct (Hlast i eq_refl) as (x' & Hx' & Hn'). exists x'. split; [done|]. cbn. split; [done|]. by exists y.
    + assert (Hls : last (i :: j :: ids) = last (j :: ids)) by done.
      pose proof (Hf i ltac:(left)) as Hfi. rewrite Hx in Hfi.
      assert (Hil : last (i :: j :: ids) <> Some i).
      { rewrite Hls. intros E. apply Hi. by apply last_Some_elem_of in E. }
      specialize (Hfi Hil). destruct (l' !! i) as [x'|]; [|done]. cbn in Hfi. injection Hfi as Hfi. exists x'. split; [done|]. rewrite Hfi.
      destruct Hl as (Hj & Hl). rewrite Hj. apply (IH (Some j)).
      * by split.
      * done.
      * set_solver.
      * intros k Hk Hkl. apply Hf; [by right|]. by rewrite Hls.
      * intros k Hk. apply Hlast. by rewrite Hls.
      * by exists y.
Qed.

Lemma chain_nth_linked l ids : forall fuel start n, linked l start ids -> (length ids <= fuel)%nat -> chain_nth next l fuel start n = ids !! n.
Proof.
  induction ids as [|i ids IH]; intros fuel start n Hl Hf.
  - cbn in Hl. subst. by destruct fuel.
  - destruct Hl as (-> & x & Hx & Hl). destruct fuel as [|fuel]; [cbn in Hf; lia|]. cbn. destruct n as [|n]; [done|]. rewrite Hx.
    cbn in Hf. apply IH; [done|lia].
Qed.

Lemma chain_find_linked p l ids : forall fuel start, linked l start ids -> (length ids <= fuel)%nat ->
  chain_find next p l fuel start = List.find (fun i => match l !! i with Some x => p x | None => false end) ids.
Proof.
  induction ids as [|i ids IH]; intros fuel start Hl Hf.
  - cbn in Hl. subst. by destruct fuel.
  - destruct Hl as (-> & x & Hx & Hl). destruct fuel as [|fuel]; [cbn in Hf; lia|]. cbn. rewrite Hx. cbn in Hf.
    destruct (p x); [done|]. apply IH; [done|lia].
Qed.
End Linked.

(** ** The representation *)

Definition container_exists (o : Ownership) (c : ParsedContainerRef) : Prop :=
  match c with RootContainer => True | EntryContainer i => (i < length (o_entries o))%nat end.

Record represents (d : ParsedMessageData) (o : Ownership) : Prop := {
  rp_slots : field_slots d = (o_slots o).*2;
  rp_groups : length (groups d) = length (o_groups o);
  rp_tags : forall g fr c tag, groups d !! g = Some fr -> o_groups o !! g = Some (c, tag) -> g_count_tag fr = tag;
  rp_entries : length (entries d) = length (o_entries o);
  rp_group_chain : forall c e, ResolveContainer d c = Some e ->
    linked next_group (groups d) (first_group e) (groups_of o c) /\ last_group e = last (groups_of o c);
  rp_entry_chain : forall g fr, groups d !! g = Some fr ->
    linked next_entry (entries d) (first_entry fr) (entries_of o g) /\ last_entry fr = last (entries_of o g);
  rp_fields : forall c e, ResolveContainer d c = Some e ->
    first_field_index e = head (positions (owns_slot c) (o_slots o)) /\
    field_count e = Z.of_nat (length (positions (owns_slot c) (o_slots o)));
  rp_block : forall i first, head (positions (owns_slot (EntryContainer i)) (o_slots o)) = Some first ->
    positions (owns_slot (EntryContainer i)) (o_slots o) = seq first (length (positions (owns_slot (EntryContainer i)) (o_slots o)));
  rp_unique : forall c i j x y, o_slots o !! i = Some (c, x) -> o_slots o !! j = Some (c, y) -> ps_tag x = ps_tag y -> i = j;
  rp_hash : forall tag, 0 <= tag < 65536 -> hash_find d tag = head (positions (same_field RootContainer tag) (o_slots o));
  rp_quick : forall tag q, QuickCacheSlotForTag tag = Some q ->
    quick_cache d !! q = Z.of_nat <$> head (positions (same_field RootContainer tag) (o_slots o));
  rp_table : forall tag v, field_hash_table d !! tag = Some v -> 0 <= v /\ Z.shiftr v 16 <= field_generation d;
  rp_generation : 0 < field_generation d < 65536;
  rp_overflow : Nat.Even (length (field_hash_overflow d));
  rp_bound : Z.of_nat (length (o_slots o)) <= kInvalidHashSlot;
  rp_slot_owners : forall i c s, o_slots o !! i = Some (c, s) -> container_exists o c;
  rp_group_owners : forall i c t, o_groups o !! i = Some (c, t) -> container_exists o c;
  rp_entry_owners : forall i g, o_entries o !! i = Some g -> (g < length (o_groups o))%nat;
  rp_root_tags : forall i s, o_slots o !! i = Some (RootContainer, s) -> 0 <= ps_tag s < 65536;
}.

(** ** Lemmas: the direct-address table *)

Lemma pack_unpack g i : 0 <= g -> 0 <= i < 65536 ->
  Z.shiftr (Z.lor (Z.shiftl g 16) (Z.land i 65535)) 16 = g /\ Z.land (Z.lor (Z.shiftl g 16) (Z.land i 65535)) 65535 = i.
Proof.
  intros Hg Hi. change 65535 with (Z.ones 16). rewrite Z.shiftr_lor, Z.land_lor_distr_l, !Z.land_ones by lia. rewrite (Z.mod_small i) by lia.
  rewrite (Z.mod_small i) by lia. rewrite !Z.shiftr_div_pow2, Z.shiftl_mul_pow2, Z.div_mul, Z.mod_mul, (Z.div_small i) by lia.
  by rewrite Z.lor_0_r, Z.lor_0_l.
Qed.

Lemma overflow_find_snoc l t i tag : Nat.Even (length l) ->
  overflow_find (l ++ [t; i]) tag = match overflow_find l tag with Some x => Some x | None => if t =? u16 tag then Some i else None end.
Proof.
  intros [k Hk]. revert l Hk. induction k as [|k IH]; intros l Hk.
  - destruct l; [|cbn in Hk; lia]. cbn. done.
  - destruct l as [|a [|b l]]; [cbn in Hk; lia|cbn in Hk; lia|]. cbn in *. destruct (a =? u16 tag); [done|]. apply IH. lia.
Qed.

Lemma quick_slot_inj t1 t2 q : QuickCacheSlotForTag t1 = Some q -> QuickCacheSlotForTag t2 = Some q -> t1 = t2.
Proof.
  unfold QuickCacheSlotForTag. intros H1 H2.
  repeat (match goal with H : context [if ?a =? ?b then _ else _] |- _ => destruct (Z.eqb_spec a b); [subst|] end); congruence.
Qed.

Lemma quick_slot_range tag q : QuickCacheSlotForTag tag = Some q -> 0 <= tag < kFieldHashTableSize.
Proof. unfold QuickCacheSlotForTag. repeat (case_match; bool_to_prop; [subst; vm_compute; split; congruence|]). done. Qed.

(** ** Lemmas: fields *)

Lemma same_field_snoc c tag x l :
  positions (same_field c tag) (l ++ [x]) = positions (same_field c tag) l ++ if same_field c tag x then [length l] else [].
Proof. apply positions_snoc. Qed.

Lemma positions_and {A} (p q : A -> bool) l :
  positions (fun x => p x && q x) l = List.filter (fun i => match l !! i with Some x => q x | None => false end) (positions p l).
Proof.
  induction l as [|x l IH] using rev_ind; [done|]. rewrite !positions_snoc, List.filter_app, IH. f_equal.
  - apply filter_ext_in. intros i Hi. apply list_elem_of_In, positions_lt in Hi. by rewrite lookup_app_l by done.
  - destruct (p x); cbn; [|done]. rewrite lookup_app_r, Nat.sub_diag by lia. cbn. by destruct (q x).
Qed.

Lemma scan_slots_seq slots tag count : forall index, (index + count <= length slots)%nat ->
  scan_slots slots tag index count = head (List.filter (fun i => match slots !! i with Some s => ps_tag s =? tag | None => false end) (seq index count)).
Proof.
  induction count as [|count IH]; intros index Hl; [done|]. cbn. destruct (slots !! index) as [s|] eqn:Es; [|apply lookup_ge_None in Es; lia].
  destruct (ps_tag s =? tag); [done|]. apply IH. lia.
Qed.

Lemma filter_ext_slots (o : Ownership) tag l :
  List.filter (fun i => match (o_slots o).*2 !! i with Some s => ps_tag s =? tag | None => false end) l =
  List.filter (fun i => match o_slots o !! i with Some x => ps_tag x.2 =? tag | None => false end) l.
Proof. apply List.filter_ext. intros i. rewrite list_lookup_fmap. by destruct (o_slots o !! i). Qed.

Lemma find_field_index_spec d o c tag : represents d o -> is_Some (ResolveContainer d c) -> (c = RootContainer -> 0 <= tag < 65536) ->
  FindParsedFieldIndex d c tag = head (positions (same_field c tag) (o_slots o)).
Proof.
  intros Hr [e He] Ht. destruct c as [|i]; [cbn; apply (rp_hash d o Hr); auto|]. unfold FindParsedFieldIndex. rewrite He.
  destruct (rp_fields d o Hr _ _ He) as [Hf Hc]. unfold same_field. rewrite positions_and, Hf, Hc, Nat2Z.id, (rp_slots d o Hr).
  pose proof (rp_block d o Hr i) as Hb. destruct (head (positions _ (o_slots o))) as [first|] eqn:Eh.
  - specialize (Hb first eq_refl). rewrite Hb at 2. set (n := length _) in *. rewrite scan_slots_seq; [by rewrite filter_ext_slots|].
    rewrite length_fmap. destruct n as [|n]; [rewrite Hb in Eh; done|].
    assert (Hin : (first + n)%nat ∈ positions (owns_slot (EntryContainer i)) (o_slots o)) by (rewrite Hb; apply elem_of_seq; lia).
    apply positions_lt in Hin. lia.
  - by destruct (positions _ (o_slots o)).
Qed.

Lemma resolve_update c f d c' :
  ResolveContainer (update_container c f d) c' = if decide (c = c') then f <$> ResolveContainer d c' else ResolveContainer d c'.
Proof.
  destruct c as [|i], c' as [|j]; cbn; try done. destruct (decide (EntryContainer i = EntryContainer j)) as [[= ->]|Hne].
  - apply list_lookup_alter_eq.
  - apply list_lookup_alter_ne. congruence.
Qed.

Lemma hash_insert d n s tag : field_slots d !! n = Some s -> 0 <= ps_tag s < 65536 -> 0 <= tag < 65536 ->
  0 < field_generation d < 65536 -> Z.of_nat n < 65536 -> Nat.Even (length (field_hash_overflow d)) -> hash_find d (ps_tag s) = None ->
  hash_find (InsertIntoRootHashTable n d) tag = if tag =? ps_tag s then Some n else hash_find d tag.
Proof.
  intros Hs Hts Ht Hg Hn He Hnone. unfold InsertIntoRootHashTable. rewrite Hs.
  destruct (Z.ltb_spec (ps_tag s) kFieldHashTableSize) as [Hlt|Hge]; unfold hash_find at 1; cbn [field_hash_table field_generation field_hash_overflow].
  - destruct (Z.ltb_spec tag kFieldHashTableSize) as [Hl|Hl].
    + destruct (Z.eqb_spec tag (ps_tag s)) as [->|Hne].
      * rewrite lookup_insert_eq. cbn [default from_option id]. destruct (pack_unpack (field_generation d) (Z.of_nat n)) as [-> ->]; [lia|lia|].
        by rewrite Z.eqb_refl, Nat2Z.id.
      * rewrite lookup_insert_ne by done. unfold hash_find. destruct (Z.ltb_spec tag kFieldHashTableSize); [done|lia].
    + destruct (Z.eqb_spec tag (ps_tag s)) as [->|Hne]; [lia|]. unfold hash_find. by destruct (Z.ltb_spec tag kFieldHashTableSize); [lia|].
  - destruct (Z.ltb_spec tag kFieldHashTableSize) as [Hl|Hl].
    + destruct (Z.eqb_spec tag (ps_tag s)) as [->|Hne]; [lia|]. unfold hash_find. by destruct (Z.ltb_spec tag kFieldHashTableSize); [|lia].
    + rewrite overflow_find_snoc by done. rewrite !u16_small by (unfold in_u16; lia). unfold hash_find in *.
      destruct (Z.ltb_spec (ps_tag s) kFieldHashTableSize); [lia|]. destruct (Z.ltb_spec tag kFieldHashTableSize); [lia|].
      rewrite (Z.eqb_sym tag). destruct (Z.eqb_spec (ps_tag s) tag) as [<-|Hne].
      * destruct (overflow_find _ (ps_tag s)); [done|]. cbn. by rewrite Nat2Z.id.
      * by destruct (overflow_find _ tag).
Qed.

Lemma insert_hash_frame n d : let d' := InsertIntoRootHashTable n d in
  root d' = root d /\ entries d' = entries d /\ groups d' = groups d /\ field_slots d' = field_slots d /\
  field_generation d' = field_generation d /\ quick_cache d' = quick_cache d.
Proof. unfold InsertIntoRootHashTable. destruct (field_slots d !! n); [destruct (_ <? _)|]; done. Qed.

Lemma insert_hash_table n d : 0 < field_generation d < 65536 -> Z.of_nat n < 65536 ->
  (forall tag v, field_hash_table d !! tag = Some v -> 0 <= v /\ Z.shiftr v 16 <= field_generation d) ->
  Nat.Even (length (field_hash_overflow d)) ->
  (forall tag v, field_hash_table (InsertIntoRootHashTable n d) !! tag = Some v -> 0 <= v /\ Z.shiftr v 16 <= field_generation d) /\
  Nat.Even (length (field_hash_overflow (InsertIntoRootHashTable n d))).
Proof.
  intros Hg Hn Ht He. unfold InsertIntoRootHashTable. destruct (field_slots d !! n) as [s|]; [|done]. destruct (_ <? _); cbn; [|split; [done|]].
  - split; [|done]. intros tag v. destruct (decide (ps_tag s = tag)) as [->|]; [|rewrite lookup_insert_ne by done; apply Ht].
    rewrite lookup_insert_eq. intros [= <-]. destruct (pack_unpack (field_generation d) (Z.of_nat n)) as [-> _]; [lia|lia|]. split; [|lia].
    apply Z.lor_nonneg. split; [apply Z.shiftl_nonneg; lia|]. apply Z.land_nonneg. lia.
  - rewrite length_app. destruct He as [k Hk]. exists (S k). cbn. lia.
Qed.

Lemma fill_quick_frame tag n d : let d' := fill_quick_cache tag n d in
  root d' = root d /\ entries d' = entries d /\ groups d' = groups d /\ field_slots d' = field_slots d /\
  field_generation d' = field_generation d /\ field_hash_table d' = field_hash_table d /\ field_hash_overflow d' = field_hash_overflow d.
Proof. unfold fill_quick_cache. by destruct (QuickCacheSlotForTag tag). Qed.

Lemma resolve_ext d d' c : root d' = root d -> entries d' = entries d -> ResolveContainer d' c = ResolveContainer d c.
Proof. intros H1 H2. destruct c; cbn; congruence. Qed.

Lemma head_snoc_none {A} (l : list A) x : head l = None -> head (l ++ [x]) = Some x.
Proof. by destruct l. Qed.

Lemma owns_slot_same c (s : ParsedFieldSlot) : owns_slot c (c, s) = true.
Proof. by apply bool_decide_eq_true. Qed.

Lemma owns_slot_other c c' (s : ParsedFieldSlot) : c <> c' -> owns_slot c' (c, s) = false.
Proof. intros H. by apply bool_decide_eq_false. Qed.

Lemma same_field_new c tag s : same_field c tag (c, s) = (ps_tag s =? tag).
Proof. unfold same_field. by rewrite owns_slot_same. Qed.

Lemma same_field_other c c' tag s : c <> c' -> same_field c' tag (c, s) = false.
Proof. intros H. unfold same_field. by rewrite owns_slot_other. Qed.

(** Replacing a field in place. *)
Lemma represents_replace d o c s i old : represents d o -> o_slots o !! i = Some (c, old) -> ps_tag old = ps_tag s ->
  represents (set_slots (<[i := s]> (field_slots d)) d) (MkOwnership (<[i := (c, s)]> (o_slots o)) (o_groups o) (o_entries o)).
Proof.
  intros Hr Hi Ht.
  assert (Hown : forall c', positions (owns_slot c') (<[i := (c, s)]> (o_slots o)) = positions (owns_slot c') (o_slots o)) by (intros c'; by eapply positions_replace).
  assert (Hsame : forall c' tag, positions (same_field c' tag) (<[i := (c, s)]> (o_slots o)) = positions (same_field c' tag) (o_slots o)).
  { intros c' tag. eapply positions_replace; [done|]. unfold same_field. cbn. by rewrite Ht. }
  assert (Hlk : forall j c' x, <[i := (c, s)]> (o_slots o) !! j = Some (c', x) -> exists x', o_slots o !! j = Some (c', x') /\ ps_tag x' = ps_tag x).
  { intros j c' x Hj. destruct (decide (i = j)) as [->|]; [|rewrite list_lookup_insert_ne in Hj by done; eauto].
    rewrite list_lookup_insert_eq in Hj by (by eapply lookup_lt_Some). injection Hj as <- <-. eauto. }
  destruct Hr. split; cbn [o_slots o_groups o_entries set_slots field_slots groups entries field_hash_table field_hash_overflow field_generation quick_cache];
    try done.
  - rewrite rp_slots0. by rewrite list_fmap_insert.
  - intros c' e He. rewrite Hown. by apply rp_fields0.
  - intros k first. rewrite !Hown. apply rp_block0.
  - intros c' j k x y Hx Hy Hxy. apply Hlk in Hx as (x' & Hx & Ex). apply Hlk in Hy as (y' & Hy & Ey). eapply rp_unique0; [done|done|congruence].
  - intros tag Htag. rewrite Hsame. by apply rp_hash0.
  - intros tag q Hq. rewrite Hsame. by apply rp_quick0.
  - by rewrite length_insert.
  - intros j c' x Hx. apply Hlk in Hx as (x' & Hx & _). by eapply rp_slot_owners0.
  - intros j x Hx. apply Hlk in Hx as (x' & Hx & <-). by eapply rp_root_tags0.
Qed.

(** What a new field changes besides the lookup tables. *)
Record grown (c : ParsedContainerRef) (s : ParsedFieldSlot) (d d' : ParsedMessageData) : Prop := {
  gr_slots : field_slots d' = field_slots d ++ [s];
  gr_groups : groups d' = groups d;
  gr_entries : length (entries d') = length (entries d);
  gr_next : forall i, next_entry <$> entries d' !! i = next_entry <$> entries d !! i;
  gr_resolve : forall c', ResolveContainer d' c' =
    if decide (c = c') then count_field (length (field_slots d)) <$> ResolveContainer d c' else ResolveContainer d c';
  gr_generation : field_generation d' = field_generation d;
}.

Lemma append_grown c s d : FindParsedFieldIndex d c (ps_tag s) = None -> grown c s d (snd (AppendParsedFieldSlot c s d)).
Proof.
  intros Hn. unfold AppendParsedFieldSlot. rewrite Hn. cbn [snd]. set (n := length (field_slots d)).
  set (d1 := update_container c (count_field n) (set_slots (field_slots d ++ [s]) d)).
  assert (H1 : grown c s d d1).
  { split; unfold d1.
    - by destruct c.
    - by destruct c.
    - destruct c; cbn; [done|]. by rewrite length_alter.
    - intros j. destruct c as [|i]; cbn; [done|]. destruct (decide (i = j)) as [->|]; [|by rewrite list_lookup_alter_ne].
      rewrite list_lookup_alter_eq. by destruct (entries d !! j).
    - intros c'. rewrite resolve_update. by destruct c'.
    - by destruct c. }
  destruct c as [|i]; [|exact H1]. destruct (insert_hash_frame n d1) as (A1 & A2 & A3 & A4 & A5 & _). cbn zeta in *.
  destruct (fill_quick_frame (ps_tag s) n (InsertIntoRootHashTable n d1)) as (B1 & B2 & B3 & B4 & B5 & _). cbn zeta in *. destruct H1. split.
  - congruence.
  - congruence.
  - rewrite B2, A2. done.
  - intros j. rewrite B2, A2. apply gr_next0.
  - intros c'. rewrite (resolve_ext _ _ c' B1 B2), (resolve_ext _ _ c' A1 A2). apply gr_resolve0.
  - congruence.
Qed.

Definition contiguous (o : Ownership) (c : ParsedContainerRef) : Prop :=
  match c with
  | RootContainer => True
  | EntryContainer _ => positions (owns_slot c) (o_slots o) = [] \/ last (o_slots o).*1 = Some c
  end.

Lemma block_snoc o i s : (forall first, head (positions (owns_slot (EntryContainer i)) (o_slots o)) = Some first ->
    positions (owns_slot (EntryContainer i)) (o_slots o) = seq first (length (positions (owns_slot (EntryContainer i)) (o_slots o)))) ->
  contiguous o (EntryContainer i) ->
  forall first, head (positions (owns_slot (EntryContainer i)) (o_slots o ++ [(EntryContainer i, s)])) = Some first ->
    positions (owns_slot (EntryContainer i)) (o_slots o ++ [(EntryContainer i, s)]) =
    seq first (length (positions (owns_slot (EntryContainer i)) (o_slots o ++ [(EntryContainer i, s)]))).
Proof.
  intros Hb Hc first. rewrite positions_snoc, owns_slot_same. set (ps := positions _ (o_slots o)) in *. rewrite length_app. cbn [length].
  destruct ps as [|a ps'] eqn:Eps; [cbn; intros [= <-]; done|]. cbn [head app]. intros [= <-]. specialize (Hb a eq_refl).
  destruct Hc as [Hc|Hc]; [unfold ps in Eps; cbn in Hc; congruence|].
  assert (Hl : (length (o_slots o) - 1)%nat ∈ a :: ps').
  { rewrite <- Eps. unfold ps. apply positions_elem. rewrite last_lookup, length_fmap, list_lookup_fmap in Hc.
    replace (Nat.pred (length (o_slots o))) with (length (o_slots o) - 1)%nat in Hc by lia.
    destruct (o_slots o !! _) as [x|]; [|done]. cbn in Hc. exists x. split; [done|]. apply bool_decide_eq_true. congruence. }
  rewrite Hb in Hl. apply elem_of_seq in Hl.
  assert (Hlt : (a + length ps' < length (o_slots o))%nat).
  { apply (positions_lt (owns_slot (EntryContainer i))). fold ps. rewrite Eps, Hb. apply elem_of_seq. cbn. lia. }
  change (a :: ps' ++ [length (o_slots o)]) with ((a :: ps') ++ [length (o_slots o)]). rewrite Hb at 1. rewrite seq_app. cbn [length]. f_equal. cbn. f_equal. cbn in Hl. lia.
Qed.

(** The lookup tables after a new field. *)
Lemma append_hash d o c s tag : represents d o -> (c = RootContainer -> 0 <= ps_tag s < 65536) -> Z.of_nat (length (o_slots o)) < kInvalidHashSlot ->
  FindParsedFieldIndex d c (ps_tag s) = None -> 0 <= tag < 65536 ->
  hash_find (snd (AppendParsedFieldSlot c s d)) tag = head (positions (same_field RootContainer tag) (o_slots o ++ [(c, s)])).
Proof.
  intros Hr Ht Hlen Hn Htag. rewrite same_field_snoc. unfold AppendParsedFieldSlot. rewrite Hn. cbn [snd]. pose proof (rp_slots d o Hr) as Hs.
  assert (Hl : length (field_slots d) = length (o_slots o)) by (rewrite Hs; apply length_fmap). unfold kInvalidHashSlot in *.
  destruct c as [|i]; [|rewrite same_field_other, app_nil_r by done; by apply (rp_hash d o Hr)].
  specialize (Ht eq_refl). set (d1 := update_container _ _ _). rewrite same_field_new, (Z.eqb_sym (ps_tag s)).
  destruct (fill_quick_frame (ps_tag s) (length (field_slots d)) (InsertIntoRootHashTable (length (field_slots d)) d1)) as (_ & _ & _ & _ & B5 & B6 & B7). cbn zeta in *.
  unfold hash_find. rewrite B5, B6, B7. fold (hash_find (InsertIntoRootHashTable (length (field_slots d)) d1) tag).
  rewrite (hash_insert d1 _ s tag); [|cbn; rewrite lookup_app_r, Nat.sub_diag by lia; done|done|done|apply (rp_generation d o Hr)|lia|apply (rp_overflow d o Hr)|exact Hn].
  change (hash_find d1 tag) with (hash_find d tag). rewrite (rp_hash d o Hr) by done.
  destruct (Z.eqb_spec tag (ps_tag s)) as [->|]; [|by rewrite app_nil_r]. rewrite head_snoc_none; [by rewrite Hl|].
  rewrite <- (rp_hash d o Hr) by done. exact Hn.
Qed.

Lemma append_quick d o c s tag q : represents d o -> (c = RootContainer -> 0 <= ps_tag s < 65536) -> Z.of_nat (length (o_slots o)) < kInvalidHashSlot ->
  FindParsedFieldIndex d c (ps_tag s) = None -> QuickCacheSlotForTag tag = Some q ->
  quick_cache (snd (AppendParsedFieldSlot c s d)) !! q = Z.of_nat <$> head (positions (same_field RootContainer tag) (o_slots o ++ [(c, s)])).
Proof.
  intros Hr Ht Hlen Hn Hq. rewrite same_field_snoc. unfold AppendParsedFieldSlot. rewrite Hn. cbn [snd]. pose proof (rp_slots d o Hr) as Hs.
  assert (Hl : length (field_slots d) = length (o_slots o)) by (rewrite Hs; apply length_fmap). unfold kInvalidHashSlot in *.
  destruct c as [|i]; [|rewrite same_field_other, app_nil_r by done; by apply (rp_quick d o Hr)].
  specialize (Ht eq_refl). set (d1 := update_container _ _ _). rewrite same_field_new.
  destruct (insert_hash_frame (length (field_slots d)) d1) as (_ & _ & _ & _ & _ & A6). cbn zeta in *. unfold fill_quick_cache.
  destruct (Z.eqb_spec (ps_tag s) tag) as [E|Hne].
  - rewrite E, Hq. cbn [quick_cache]. rewrite lookup_insert_eq, head_snoc_none; [|rewrite <- (rp_hash d o Hr) by lia; rewrite <- E; exact Hn].
    cbn. rewrite Hl. f_equal. apply u16_small. unfold in_u16. lia.
  - rewrite app_nil_r, <- (rp_quick d o Hr tag q Hq). change (quick_cache d) with (quick_cache d1). rewrite <- A6.
    destruct (QuickCacheSlotForTag (ps_tag s)) as [q'|] eqn:Eq; [|done]. cbn [quick_cache]. rewrite lookup_insert_ne; [done|].
    intros ->. apply Hne. by eapply quick_slot_inj.
Qed.

Lemma append_tables d o c s : represents d o -> Z.of_nat (length (o_slots o)) < kInvalidHashSlot -> FindParsedFieldIndex d c (ps_tag s) = None ->
  let d' := snd (AppendParsedFieldSlot c s d) in
  (forall tag v, field_hash_table d' !! tag = Some v -> 0 <= v /\ Z.shiftr v 16 <= field_generation d) /\ Nat.Even (length (field_hash_overflow d')).
Proof.
  intros Hr Hlen Hn. unfold AppendParsedFieldSlot. rewrite Hn. cbn [snd]. assert (Hl : length (field_slots d) = length (o_slots o)) by (rewrite (rp_slots d o Hr); apply length_fmap).
  unfold kInvalidHashSlot in *. destruct c as [|i]; [|split; [apply (rp_table d o Hr)|apply (rp_overflow d o Hr)]]. set (d1 := update_container _ _ _).
  destruct (fill_quick_frame (ps_tag s) (length (field_slots d)) (InsertIntoRootHashTable (length (field_slots d)) d1)) as (_ & _ & _ & _ & _ & B6 & B7).
  cbn zeta in *. rewrite B6, B7. apply (insert_hash_table _ d1); [apply (rp_generation d o Hr)|lia|apply (rp_table d o Hr)|apply (rp_overflow d o Hr)].
Qed.

Lemma no_same_field o c tag j x : head (positions (same_field c tag) (o_slots o)) = None -> o_slots o !! j = Some (c, x) -> ps_tag x <> tag.
Proof.
  intros Hn Hx E. assert (Hin : j ∈ positions (same_field c tag) (o_slots o)).
  { apply positions_elem. exists (c, x). split; [done|]. rewrite same_field_new. by apply Z.eqb_eq. }
  destruct (positions _ _); [by apply not_elem_of_nil in Hin|done].
Qed.

Lemma count_field_spec c s o e n : n = length (o_slots o) -> Z.of_nat n < kInvalidHashSlot ->
  first_field_index e = head (positions (owns_slot c) (o_slots o)) -> field_count e = Z.of_nat (length (positions (owns_slot c) (o_slots o))) ->
  first_field_index (count_field n e) = head (positions (owns_slot c) (o_slots o ++ [(c, s)])) /\
  field_count (count_field n e) = Z.of_nat (length (positions (owns_slot c) (o_slots o ++ [(c, s)]))).
Proof.
  intros -> Hlen Hf Hc. rewrite positions_snoc, owns_slot_same, length_app. cbn [count_field first_field_index field_count length]. rewrite Hf, Hc.
  pose proof (positions_length (owns_slot c) (o_slots o)). unfold kInvalidHashSlot in *. split; [|rewrite u16_small; [lia|unfold in_u16; lia]].
  generalize (positions (owns_slot c) (o_slots o)). by intros [|].
Qed.

Lemma represents_append d o c s : represents d o -> is_Some (ResolveContainer d c) -> (c = RootContainer -> 0 <= ps_tag s < 65536) ->
  Z.of_nat (length (o_slots o)) < kInvalidHashSlot -> contiguous o c -> head (positions (same_field c (ps_tag s)) (o_slots o)) = None ->
  container_exists o c ->
  represents (snd (AppendParsedFieldSlot c s d)) (MkOwnership (o_slots o ++ [(c, s)]) (o_groups o) (o_entries o)).
Proof.
  intros Hr Hres Ht Hlen Hcon Hnone Hex.
  assert (Hfind : FindParsedFieldIndex d c (ps_tag s) = None) by (by rewrite (find_field_index_spec d o)).
  pose proof (append_grown c s d Hfind) as Hg. pose proof (append_hash d o c s) as Hh. pose proof (append_quick d o c s) as Hq.
  destruct (append_tables d o c s Hr Hlen Hfind) as [Htab Hov]. set (d' := snd (AppendParsedFieldSlot c s d)) in *. clearbody d'.
  assert (Hn : length (field_slots d) = length (o_slots o)) by (rewrite (rp_slots d o Hr); apply length_fmap).
  pose proof Hr as Hr'. destruct Hr', Hg. split; cbn [o_slots o_groups o_entries].
  - rewrite gr_slots0, rp_slots0. by rewrite fmap_app.
  - by rewrite gr_groups0.
  - rewrite gr_groups0. done.
  - by rewrite gr_entries0.
  - intros c' e He. rewrite gr_resolve0 in He. rewrite gr_groups0. destruct (decide (c = c')) as [->|]; [|by apply rp_group_chain0].
    destruct (ResolveContainer d c') as [e'|] eqn:Ee; [|done]. injection He as <-. cbn. by apply rp_group_chain0.
  - intros g fr Hfr. rewrite gr_groups0 in Hfr. destruct (rp_entry_chain0 g fr Hfr) as [Hl Hla]. split; [|done].
    eapply linked_frame; [exact Hl|]. intros i _. apply gr_next0.
  - intros c' e He. rewrite gr_resolve0 in He. destruct (decide (c = c')) as [->|Hne]; [|rewrite positions_snoc, owns_slot_other, app_nil_r by done; by apply rp_fields0].
    destruct (ResolveContainer d c') as [e'|] eqn:Ee; [|done]. injection He as <-. destruct (rp_fields0 c' e' Ee). by apply count_field_spec; [|rewrite Hn|..].
  - intros i. destruct (decide (c = EntryContainer i)) as [->|Hne]; [apply block_snoc; [apply rp_block0|done]|].
    intros first. rewrite positions_snoc, owns_slot_other, app_nil_r by done. apply rp_block0.
  - intros c' i j x y Hx Hy Hxy. apply lookup_snoc_Some in Hx as [[_ Hx]|[-> [= <- <-]]], Hy as [[_ Hy]|[-> Hy]]; [by eapply rp_unique0|..|done].
    + injection Hy as <- <-. by destruct (no_same_field o c (ps_tag s) i x Hnone Hx).
    + by destruct (no_same_field o c (ps_tag s) j y Hnone Hy).
  - intros tag Htag. by apply Hh.
  - intros tag q Hqt. by apply Hq.
  - by rewrite gr_generation0.
  - by rewrite gr_generation0.
  - done.
  - rewrite length_app. cbn. lia.
  - intros i c' x Hx. apply lookup_snoc_Some in Hx as [[_ Hx]|[-> [= <- <-]]]; [by eapply rp_slot_owners0|done].
  - done.
  - done.
  - intros i x Hx. apply lookup_snoc_Some in Hx as [[_ Hx]|[-> [= -> ->]]]; [by eapply rp_root_tags0|auto].
Qed.

(** ** Lemmas: groups *)

Lemma head_find {A} (p : A -> bool) (l : list A) (q : nat -> bool) js :
  (forall i, i ∈ js -> q i = match l !! i with Some x => p x | None => false end) ->
  List.find q js = head (List.filter (fun i => match l !! i with Some x => p x | None => false end) js).
Proof.
  induction js as [|j js IH]; intros Hq; [done|]. cbn. rewrite (Hq j) by left. destruct (match l !! j with Some x => p x | None => false end); [done|].
  apply IH. intros i Hi. apply Hq. by right.
Qed.

Lemma find_group_index_spec d o c tag : represents d o -> is_Some (ResolveContainer d c) ->
  FindParsedGroupIndex d c tag = head (positions (same_group c tag) (o_groups o)).
Proof.
  intros Hr [e He]. unfold FindParsedGroupIndex. rewrite He. destruct (rp_group_chain d o Hr c e He) as [Hl _].
  rewrite (chain_find_linked next_group _ _ (groups_of o c)); [|done|rewrite (rp_groups d o Hr); apply positions_length].
  unfold same_group. rewrite positions_and. apply head_find. intros g Hg. apply positions_lt in Hg.
  destruct (lookup_lt_is_Some_2 (groups d) g) as [fr Hfr]; [by rewrite (rp_groups d o Hr)|].
  destruct (lookup_lt_is_Some_2 (o_groups o) g Hg) as [[c' t] Ho]. rewrite Hfr, Ho. cbn. by rewrite (rp_tags d o Hr g fr c' t).
Qed.

Lemma resolve_exists d o c : represents d o -> container_exists o c <-> is_Some (ResolveContainer d c).
Proof.
  intros Hr. destruct c as [|i]; cbn; [split; [by eexists|done]|]. rewrite <- (rp_entries d o Hr). symmetry. apply lookup_lt_is_Some.
Qed.

Lemma no_positions {A} (p : A -> bool) l : (forall i x, l !! i = Some x -> p x = false) -> positions p l = [].
Proof.
  intros Hp. destruct (positions p l) as [|i js] eqn:E; [done|]. assert (Hin : i ∈ positions p l) by (rewrite E; left).
  apply positions_elem in Hin as (x & Hx & Hpx). rewrite (Hp i x Hx) in Hpx. done.
Qed.

Lemma positions_elem_of_last {A} (p : A -> bool) l i : last (positions p l) = Some i -> i ∈ positions p l.
Proof. apply last_Some_elem_of. Qed.

(** The chain of a container after a group was added to container [c]. *)
Lemma group_chain_extend d o c e tag depth n gs : represents d o -> ResolveContainer d c = Some e -> n = length (groups d) ->
  gs = (match first_group e, last_group e with
        | Some _, Some last => alter (set_next_group n) last (groups d ++ [MkFrame tag None None 0 depth None])
        | _, _ => groups d ++ [MkFrame tag None None 0 depth None]
        end) ->
  length gs = S n /\ (exists fr, gs !! n = Some fr /\ first_entry fr = None /\ last_entry fr = None /\ g_count_tag fr = tag) /\
  (forall g, (g < n)%nat -> exists fr fr', groups d !! g = Some fr /\ gs !! g = Some fr' /\ g_count_tag fr' = g_count_tag fr /\
     first_entry fr' = first_entry fr /\ last_entry fr' = last_entry fr) /\
  linked next_group gs (first_or n (first_group e)) (groups_of o c ++ [n]) /\
  (forall c' e', c' <> c -> ResolveContainer d c' = Some e' -> linked next_group gs (first_group e') (groups_of o c')).
Proof.
  intros Hr He Hn Hgs. destruct (rp_group_chain d o Hr c e He) as [Hl Hla]. set (new := MkFrame tag None None 0 depth None) in *.
  assert (Hlt : forall c' g, g ∈ groups_of o c' -> (g < n)%nat) by (intros c' g Hg; apply positions_lt in Hg; rewrite Hn, (rp_groups d o Hr); done).
  assert (Hnil : first_group e = None <-> groups_of o c = []) by (destruct (groups_of o c); cbn in Hl; [done|destruct Hl as [-> _]; done]).
  assert (Happ : forall g, (g < n)%nat -> (groups d ++ [new]) !! g = groups d !! g) by (intros g Hg; apply lookup_app_l; lia).
  assert (Hnew : (groups d ++ [new]) !! n = Some new) by (rewrite lookup_app_r, Hn, Nat.sub_diag by lia; done).
  assert (Hcase : (groups_of o c = [] /\ gs = groups d ++ [new]) \/
                  (exists la, last (groups_of o c) = Some la /\ (la < n)%nat /\ gs = alter (set_next_group n) la (groups d ++ [new]))).
  { destruct (first_group e) eqn:Ef; [|left; split; [by apply Hnil|done]]. right. rewrite Hla in Hgs. destruct (last (groups_of o c)) as [la|] eqn:El.
    - exists la. split; [done|]. split; [apply (Hlt c); by apply last_Some_elem_of|done].
    - apply last_None in El. apply Hnil in El. congruence. }
  assert (Hat : forall g, last (groups_of o c) <> Some g -> gs !! g = (groups d ++ [new]) !! g).
  { intros g Hg. destruct Hcase as [[_ ->]|(la & El & _ & ->)]; [done|]. apply list_lookup_alter_ne. congruence. }
  split_and!.
  - destruct Hcase as [[_ ->]|(la & _ & _ & ->)]; rewrite ?length_alter, length_app; cbn; lia.
  - exists new. split; [|done]. rewrite Hat; [done|]. intros E. apply last_Some_elem_of, Hlt in E. lia.
  - intros g Hg. destruct (lookup_lt_is_Some_2 (groups d) g ltac:(lia)) as [fr Hfr]. exists fr.
    destruct Hcase as [[_ ->]|(la & El & _ & ->)]; [exists fr; rewrite Happ by done; done|].
    destruct (decide (la = g)) as [->|]; [exists (set_next_group n fr); rewrite list_lookup_alter_eq, Happ, Hfr by done; done|].
    exists fr. rewrite list_lookup_alter_ne, Happ by done. done.
  - eapply linked_extend; [exact Hl|apply positions_nodup|intros Hin; apply Hlt in Hin; lia|..].
    + intros g Hg Hng. rewrite Hat by done. by rewrite Happ by (by eapply Hlt).
    + intros g Hg. destruct Hcase as [[Hc0 _]|(la & El & Hla' & ->)]; [rewrite Hc0 in Hg; done|]. rewrite El in Hg. injection Hg as ->.
      destruct (lookup_lt_is_Some_2 (groups d) g ltac:(lia)) as [fr Hfr]. exists (set_next_group n fr). rewrite list_lookup_alter_eq, Happ, Hfr by done. done.
    + exists new. split; [|done]. rewrite Hat; [done|]. intros E. apply last_Some_elem_of, Hlt in E. lia.
  - intros c' e' Hne He'. destruct (rp_group_chain d o Hr c' e' He') as [Hl' _]. eapply linked_frame; [exact Hl'|]. intros g Hg.
    rewrite Hat, Happ; [done|by eapply Hlt|]. intros E. apply positions_elem_of_last, positions_elem in E as (x & Hx & Hpx).
    apply positions_elem in Hg as (y & Hy & Hpy). rewrite Hx in Hy. injection Hy as <-. apply bool_decide_eq_true in Hpx, Hpy. congruence.
Qed.

Lemma represents_group d o c tag depth : represents d o -> container_exists o c -> head (positions (same_group c tag) (o_groups o)) = None ->
  EnsureParsedGroup c tag depth d = (length (o_groups o), snd (EnsureParsedGroup c tag depth d)) /\
  represents (snd (EnsureParsedGroup c tag depth d)) (MkOwnership (o_slots o) (o_groups o ++ [(c, tag)]) (o_entries o)).
Proof.
  intros Hr Hex Hnone. pose proof (proj1 (resolve_exists d o c Hr) Hex) as [e He].
  unfold EnsureParsedGroup. rewrite (find_group_index_spec d o), Hnone by (done || by eexists). rewrite He. cbn [snd].
  set (n := length (groups d)). set (gs := match first_group e with Some _ => _ | None => _ end).
  assert (Hn : n = length (o_groups o)) by apply Hr.
  destruct (group_chain_extend d o c e tag depth n gs Hr He eq_refl) as (Hlen & (fr & Hfr & F1 & F2 & F3) & Hold & Hc & Hother).
  { unfold gs. by destruct (first_group e), (last_group e). }
  split; [by rewrite Hn|]. set (d' := update_container c (link_group n) (set_groups gs d)).
  assert (Hgr : groups d' = gs) by (by destruct c). assert (Hsl : field_slots d' = field_slots d) by (by destruct c).
  assert (Hnext : forall i, next_entry <$> entries d' !! i = next_entry <$> entries d !! i).
  { intros i. unfold d'. destruct c as [|j]; cbn; [done|]. destruct (decide (j = i)) as [->|]; [rewrite list_lookup_alter_eq; by destruct (entries d !! i)|].
    by rewrite list_lookup_alter_ne. }
  assert (Hres : forall c', ResolveContainer d' c' = if decide (c = c') then link_group n <$> ResolveContainer d c' else ResolveContainer d c').
  { intros c'. unfold d'. rewrite resolve_update. by destruct c'. }
  assert (Hlook : forall g fr, gs !! g = Some fr -> g = n \/ (g < n)%nat) by (intros g x Hg; apply lookup_lt_Some in Hg; lia).
  pose proof Hr as Hr'. destruct Hr'. split; cbn [o_slots o_groups o_entries].
  - congruence.
  - rewrite Hgr, length_app. cbn. lia.
  - intros g x c' t Hg Ho. rewrite Hgr in Hg. destruct (Hlook g x Hg) as [->|Hlt].
    + rewrite Hfr in Hg. injection Hg as <-. rewrite Hn, lookup_app_r, Nat.sub_diag in Ho by lia. injection Ho as <- <-. done.
    + rewrite lookup_app_l in Ho by lia. destruct (Hold g Hlt) as (a & b & Ha & Hb & Ht & _). rewrite Hb in Hg. injection Hg as <-. rewrite Ht. by eapply rp_tags0.
  - unfold d'. destruct c; cbn; by rewrite ?length_alter.
  - intros c' e' He'. rewrite Hres in He'. rewrite Hgr. unfold groups_of. cbn [o_groups]. rewrite positions_snoc, <- Hn.
    destruct (decide (c = c')) as [<-|Hne].
    + rewrite He in He'. injection He' as <-. unfold owns_group at 2 4. cbn [fst]. rewrite bool_decide_eq_true_2 by done. rewrite last_snoc. done.
    + unfold owns_group at 2 4. cbn [fst]. rewrite bool_decide_eq_false_2, app_nil_r by done. split; [by apply Hother|by apply rp_group_chain0].
  - intros g x Hg. rewrite Hgr in Hg. unfold entries_of. cbn [o_entries]. destruct (Hlook g x Hg) as [->|Hlt].
    + rewrite Hfr in Hg. injection Hg as <-. rewrite F1, F2. rewrite no_positions; [done|]. intros i g' Hg'. apply bool_decide_eq_false. apply rp_entry_owners0 in Hg'. lia.
    + destruct (Hold g Hlt) as (a & b & Ha & Hb & _ & E1 & E2). rewrite Hb in Hg. injection Hg as <-. rewrite E1, E2.
      destruct (rp_entry_chain0 g a Ha) as [L1 L2]. split; [|done]. eapply linked_frame; [exact L1|]. intros i _. apply Hnext.
  - intros c' e' He'. rewrite Hres in He'. destruct (decide (c = c')) as [<-|]; [|by apply rp_fields0]. rewrite He in He'. injection He' as <-. exact (rp_fields0 c e He).
  - done.
  - done.
  - intros t Ht. rewrite <- rp_hash0 by done. by destruct c.
  - intros t q Hq. rewrite <- (rp_quick0 t q Hq). by destruct c.
  - by destruct c.
  - by destruct c.
  - by destruct c.
  - done.
  - done.
  - intros i c' t Hi. apply lookup_snoc_Some in Hi as [[_ Hi]|[-> [= <- <-]]]; [by eapply rp_group_owners0|done].
  - intros i g Hg. rewrite length_app. apply rp_entry_owners0 in Hg. lia.
  - done.
Qed.

(** ** Lemmas: entries *)

(** An entry up to its link. *)
Definition same_content (e e' : ParsedEntryData) : Prop :=
  first_field_index e' = first_field_index e /\ field_count e' = field_count e /\ first_group e' = first_group e /\
  last_group e' = last_group e /\ group_count e' = group_count e.

Lemma entry_chain_extend d o g fr n es : represents d o -> groups d !! g = Some fr -> n = length (entries d) ->
  es = (match first_entry fr, last_entry fr with
        | Some _, Some last => alter (set_next_entry n) last (entries d ++ [empty_entry])
        | _, _ => entries d ++ [empty_entry]
        end) ->
  length es = S n /\ es !! n = Some empty_entry /\
  (forall i, (i < n)%nat -> exists e e', entries d !! i = Some e /\ es !! i = Some e' /\ same_content e e') /\
  linked next_entry es (first_or n (first_entry fr)) (entries_of o g ++ [n]) /\
  (forall g' fr', g' <> g -> groups d !! g' = Some fr' -> linked next_entry es (first_entry fr') (entries_of o g')).
Proof.
  intros Hr Hg Hn Hes. destruct (rp_entry_chain d o Hr g fr Hg) as [Hl Hla].
  assert (Hlt : forall g' i, i ∈ entries_of o g' -> (i < n)%nat) by (intros g' i Hi; apply positions_lt in Hi; rewrite Hn, (rp_entries d o Hr); done).
  assert (Hnil : first_entry fr = None <-> entries_of o g = []) by (destruct (entries_of o g); cbn in Hl; [done|destruct Hl as [-> _]; done]).
  assert (Happ : forall i, (i < n)%nat -> (entries d ++ [empty_entry]) !! i = entries d !! i) by (intros i Hi; apply lookup_app_l; lia).
  assert (Hnew : (entries d ++ [empty_entry]) !! n = Some empty_entry) by (rewrite lookup_app_r, Hn, Nat.sub_diag by lia; done).
  assert (Hcase : (entries_of o g = [] /\ es = entries d ++ [empty_entry]) \/
                  (exists la, last (entries_of o g) = Some la /\ (la < n)%nat /\ es = alter (set_next_entry n) la (entries d ++ [empty_entry]))).
  { destruct (first_entry fr) eqn:Ef; [|left; split; [by apply Hnil|done]]. right. rewrite Hla in Hes. destruct (last (entries_of o g)) as [la|] eqn:El.
    - exists la. split; [done|]. split; [apply (Hlt g); by apply last_Some_elem_of|done].
    - apply last_None in El. apply Hnil in El. congruence. }
  assert (Hat : forall i, last (entries_of o g) <> Some i -> es !! i = (entries d ++ [empty_entry]) !! i).
  { intros i Hi. destruct Hcase as [[_ ->]|(la & El & _ & ->)]; [done|]. apply list_lookup_alter_ne. congruence. }
  assert (Hesn : es !! n = Some empty_entry).
  { rewrite Hat; [done|]. intros E. apply last_Some_elem_of, Hlt in E. lia. }
  split_and!; [|done| | |].
  - destruct Hcase as [[_ ->]|(la & _ & _ & ->)]; rewrite ?length_alter, length_app; cbn; lia.
  - intros i Hi. destruct (lookup_lt_is_Some_2 (entries d) i ltac:(lia)) as [e He]. exists e.
    destruct Hcase as [[_ ->]|(la & El & _ & ->)]; [exists e; rewrite Happ by done; done|].
    destruct (decide (la = i)) as [->|]; [exists (set_next_entry n e); rewrite list_lookup_alter_eq, Happ, He by done; done|].
    exists e. rewrite list_lookup_alter_ne, Happ by done. done.
  - eapply linked_extend; [exact Hl|apply positions_nodup|intros Hin; apply Hlt in Hin; lia|..].
    + intros i Hi Hni. rewrite Hat by done. by rewrite Happ by (by eapply Hlt).
    + intros i Hi. destruct Hcase as [[Hc0 _]|(la & El & Hla' & ->)]; [rewrite Hc0 in Hi; done|]. rewrite El in Hi. injection Hi as ->.
      destruct (lookup_lt_is_Some_2 (entries d) i ltac:(lia)) as [e He]. exists (set_next_entry n e). rewrite list_lookup_alter_eq, Happ, He by done. done.
    + by exists empty_entry.
  - intros g' fr' Hne Hg'. destruct (rp_entry_chain d o Hr g' fr' Hg') as [Hl' _]. eapply linked_frame; [exact Hl'|]. intros i Hi.
    rewrite Hat, Happ; [done|by eapply Hlt|]. intros E. apply positions_elem_of_last, positions_elem in E as (x & Hx & Hpx).
    apply positions_elem in Hi as (y & Hy & Hpy). rewrite Hx in Hy. injection Hy as <-. apply bool_decide_eq_true in Hpx, Hpy. congruence.
Qed.

Lemma represents_entry d o g : represents d o -> (g < length (o_groups o))%nat ->
  AppendParsedEntry g d = (length (o_entries o), snd (AppendParsedEntry g d)) /\
  represents (snd (AppendParsedEntry g d)) (snd (add_entry g o)).
Proof.
  intros Hr Hg. destruct (lookup_lt_is_Some_2 (groups d) g) as [fr Hfr]; [by rewrite (rp_groups d o Hr)|].
  unfold AppendParsedEntry, add_entry. rewrite Hfr. cbn [snd]. set (n := length (entries d)).
  set (es := match first_entry fr with Some _ => _ | None => _ end). assert (Hn : n = length (o_entries o)) by apply Hr.
  destruct (entry_chain_extend d o g fr n es Hr Hfr eq_refl) as (Hlen & Hnew & Hold & Hc & Hother).
  { unfold es. by destruct (first_entry fr), (last_entry fr). }
  split; [by rewrite Hn|]. set (d' := set_groups _ _).
  assert (Hres : forall c e', ResolveContainer d' c = Some e' -> (c = EntryContainer n /\ e' = empty_entry) \/
     (c <> EntryContainer n /\ container_exists o c /\ exists e, ResolveContainer d c = Some e /\ same_content e e')).
  { intros [|i] e' He'; cbn in He'; [right; split_and!; [done|done|eexists; split; [done|]; injection He' as <-; done]|].
    assert (i < S n)%nat by (rewrite <- Hlen; by eapply lookup_lt_Some). destruct (decide (i = n)) as [->|Hne]; [left; split; [done|]; congruence|].
    right. split_and!; [congruence|cbn; lia|]. destruct (Hold i ltac:(lia)) as (e & e2 & H1 & H2 & H3). exists e. cbn. split; [done|]. congruence. }
  assert (Hgrp : forall g' x, groups d' !! g' = Some x -> exists y, groups d !! g' = Some y /\ g_count_tag x = g_count_tag y /\ next_group x = next_group y /\
     ((g' = g /\ y = fr /\ x = link_entry n fr) \/ (g' <> g /\ x = y))).
  { intros g' x Hx. cbn in Hx. destruct (decide (g = g')) as [<-|Hne].
    - rewrite list_lookup_alter_eq, Hfr in Hx. injection Hx as <-. exists fr. split_and!; [done|done|done|by left].
    - rewrite list_lookup_alter_ne in Hx by done. exists x. split_and!; [done|done|done|]. right. split; [congruence|done]. }
  assert (Hnext : forall g', next_group <$> groups d' !! g' = next_group <$> groups d !! g').
  { intros g'. cbn. destruct (decide (g = g')) as [<-|]; [rewrite list_lookup_alter_eq; by destruct (groups d !! g)|by rewrite list_lookup_alter_ne]. }
  pose proof Hr as Hr'. destruct Hr'. split; cbn [o_slots o_groups o_entries]; try done.
  - cbn. by rewrite length_alter.
  - intros g' x c t Hx Ho. destruct (Hgrp g' x Hx) as (y & Hy & -> & _). by eapply rp_tags0.
  - cbn. rewrite length_app. cbn. lia.
  - intros c e' He'. unfold groups_of. cbn [o_groups]. fold (groups_of o c).
    destruct (Hres c e' He') as [[-> ->]|(_ & _ & e & He & (_ & _ & E3 & E4 & _))].
    + unfold groups_of. rewrite no_positions; [done|]. intros i [c' t] Hi. apply bool_decide_eq_false. apply rp_group_owners0 in Hi. cbn. intros ->. cbn in Hi. lia.
    + rewrite E3, E4. destruct (rp_group_chain0 c e He) as [L1 L2]. split; [|done]. eapply linked_frame; [exact L1|]. intros i _. apply Hnext.
  - intros g' x Hx. unfold entries_of. cbn [o_entries]. rewrite positions_snoc, <- Hn. destruct (Hgrp g' x Hx) as (y & Hy & _ & _ & [(-> & -> & ->)|[Hne ->]]).
    + unfold owns_entry at 2 4. rewrite bool_decide_eq_true_2 by done. rewrite last_snoc. done.
    + unfold owns_entry at 2 4. rewrite bool_decide_eq_false_2, app_nil_r by congruence. split; [by apply Hother|]. by apply rp_entry_chain0.
  - intros c e' He'. destruct (Hres c e' He') as [[-> ->]|(_ & _ & e & He & (E1 & E2 & _))].
    + rewrite no_positions; [done|]. intros i [c' t] Hi. apply bool_decide_eq_false. apply rp_slot_owners0 in Hi. cbn. intros ->. cbn in Hi. lia.
    + rewrite E1, E2. by apply rp_fields0.
  - intros i c s Hi. apply rp_slot_owners0 in Hi. destruct c; [done|]. cbn in *. rewrite length_app. lia.
  - intros i c s Hi. apply rp_group_owners0 in Hi. destruct c; [done|]. cbn in *. rewrite length_app. lia.
  - intros i g' Hi. apply lookup_snoc_Some in Hi as [[_ Hi]|[-> <-]]; [by eapply rp_entry_owners0|done].
Qed.

(** A fresh message: no entry of the table has the present generation. *)
Lemma represents_empty raw table generation : 0 < generation < 65536 ->
  (forall tag v, table !! tag = Some v -> 0 <= v /\ Z.shiftr v 16 < generation) ->
  represents (MkParsed raw [] empty_entry [] [] [] table [] generation ∅) nobody.
Proof.
  intros Hgen Htab.
  split; cbn; try done; try (intros; lia); try (intros ? ? Hx; by rewrite lookup_nil in Hx); try (intros ? ? ? Hx; by rewrite lookup_nil in Hx).
  - intros [|i] e He; [injection He as <-; done|]. cbn in He. by rewrite lookup_nil in He.
  - intros [|i] e He; [injection He as <-; done|]. cbn in He. by rewrite lookup_nil in He.
  - intros tag Htag. unfold hash_find. cbn. destruct (tag <? kFieldHashTableSize); [|done]. destruct (table !! tag) as [v|] eqn:Ev; cbn.
    + destruct (Htab tag v Ev). destruct (Z.eqb_spec (Z.shiftr v 16) generation); [lia|done].
    + change (Z.shiftr 0 16) with 0. destruct (Z.eqb_spec 0 generation); [lia|done].
  - intros tag v Hv. destruct (Htab tag v Hv). lia.
  - by exists 0%nat.
Qed.

Lemma represents_new : represents NewParsedMessageData nobody.
Proof. apply represents_empty; [lia|]. intros tag v Hv. by rewrite lookup_empty in Hv. Qed.

(** Whatever the object held before. *)
Lemma represents_reset d : 0 < field_generation d < 65536 ->
  (forall tag v, field_hash_table d !! tag = Some v -> 0 <= v /\ Z.shiftr v 16 <= field_generation d) ->
  represents (ResetForNewDecode d) nobody.
Proof.
  intros Hg Ht. unfold ResetForNewDecode. destruct (decide (field_generation d = 65535)) as [->|].
  - apply represents_empty; [lia|]. intros tag v Hv. by rewrite lookup_empty in Hv.
  - rewrite u16_small by (unfold in_u16; lia). destruct (Z.eqb_spec (field_generation d + 1) 0); [lia|].
    apply represents_empty; [lia|]. intros tag v Hv. apply Ht in Hv. lia.
Qed.

(** ** Runs of the operations *)

Inductive ParseOp :=
  | OpReset
  | OpField (c : ParsedContainerRef) (slot : ParsedFieldSlot)
  | OpRootField (slot : ParsedFieldSlot)
  | OpGroup (c : ParsedContainerRef) (tag depth : Z)
  | OpEntry (group_index : nat).

Definition parse_exec (d : ParsedMessageData) (op : ParseOp) : ParsedMessageData :=
  match op with
  | OpReset => ResetForNewDecode d
  | OpField c s => snd (AppendParsedFieldSlot c s d)
  | OpRootField s => snd (AppendParsedFieldSlotFast s d)
  | OpGroup c tag depth => snd (EnsureParsedGroup c tag depth d)
  | OpEntry g => snd (AppendParsedEntry g d)
  end.

Definition owner_exec (o : Ownership) (op : ParseOp) : Ownership :=
  match op with
  | OpReset => nobody
  | OpField c s => add_field c s o
  | OpRootField s => add_field RootContainer s o
  | OpGroup c tag _ => snd (add_group c tag o)
  | OpEntry g => snd (add_entry g o)
  end.

(** A field goes to a container that exists; one of the root has a tag of sixteen
    bits; the fields of an entry come one after the other, with no field of another
    container in between; and there are fewer than 65535 fields. *)
Definition field_allowed (o : Ownership) (c : ParsedContainerRef) (s : ParsedFieldSlot) : Prop :=
  container_exists o c /\ (c = RootContainer -> 0 <= ps_tag s < 65536) /\ Z.of_nat (length (o_slots o)) < kInvalidHashSlot /\ contiguous o c.

Definition op_allowed (o : Ownership) (op : ParseOp) : Prop :=
  match op with
  | OpReset => True
  | OpField c s => field_allowed o c s
  | OpRootField s => field_allowed o RootContainer s
  | OpGroup c _ _ => container_exists o c
  | OpEntry g => (g < length (o_groups o))%nat
  end.

Inductive allowed_run : Ownership -> list ParseOp -> Prop :=
  | allowed_nil o : allowed_run o []
  | allowed_cons o op ops : op_allowed o op -> allowed_run (owner_exec o op) ops -> allowed_run o (op :: ops).

(** The duplicate check written out is the one of the general function. *)
Lemma append_fast_eq s d : AppendParsedFieldSlotFast s d = AppendParsedFieldSlot RootContainer s d.
Proof. reflexivity. Qed.

Lemma represents_field d o c s : represents d o -> field_allowed o c s -> represents (snd (AppendParsedFieldSlot c s d)) (add_field c s o).
Proof.
  intros Hr (Hex & Ht & Hlen & Hcon). pose proof (proj1 (resolve_exists d o c Hr) Hex) as Hres. unfold add_field.
  destruct (head (positions (same_field c (ps_tag s)) (o_slots o))) as [i|] eqn:Eh; [|by apply represents_append].
  unfold AppendParsedFieldSlot. rewrite (find_field_index_spec d o), Eh by done. cbn [snd].
  assert (Hin : i ∈ positions (same_field c (ps_tag s)) (o_slots o)) by (destruct (positions _ _); [done|]; injection Eh as ->; left).
  apply positions_elem in Hin as ([c' old] & Hi & Hs). unfold same_field in Hs. apply andb_true_iff in Hs as [Ho Htag].
  apply bool_decide_eq_true in Ho. cbn in Ho. subst c'. apply Z.eqb_eq in Htag. by eapply represents_replace.
Qed.

Lemma represents_exec d o op : represents d o -> op_allowed o op -> represents (parse_exec d op) (owner_exec o op).
Proof.
  intros Hr Ha. destruct op as [|c s|s|c tag depth|g]; cbn [parse_exec owner_exec op_allowed] in *.
  - apply represents_reset; [apply (rp_generation d o Hr)|apply (rp_table d o Hr)].
  - by apply represents_field.
  - rewrite append_fast_eq. by apply represents_field.
  - unfold add_group. destruct (head (positions (same_group c tag) (o_groups o))) as [g|] eqn:Eh; [|by apply represents_group].
    unfold EnsureParsedGroup. rewrite (find_group_index_spec d o), Eh by (done || by eapply resolve_exists). done.
  - by apply represents_entry.
Qed.

Lemma represents_run ops : forall d o, represents d o -> allowed_run o ops -> represents (fold_left parse_exec ops d) (fold_left owner_exec ops o).
Proof.
  induction ops as [|op ops IH]; intros d o Hr Ha; cbn; [done|]. inversion Ha; subst. apply IH; [|done]. by apply represents_exec.
Qed.

(** ** Lemmas: what the accessors see *)

Lemma positions_fields p (l : list (ParsedContainerRef * ParsedFieldSlot)) :
  (List.filter p l).*2 = omap (fun i => l.*2 !! i) (positions p l).
Proof.
  induction l as [|x l IH] using rev_ind; [done|]. rewrite List.filter_app, fmap_app, IH, positions_snoc, omap_app. f_equal.
  - rewrite fmap_app. apply list_omap_ext, Forall2_same_length_lookup_2; [done|]. intros i j k Hi Hj. rewrite Hi in Hj. injection Hj as <-.
    apply list_elem_of_lookup_2, positions_lt in Hi. rewrite lookup_app_l; [done|]. by rewrite length_fmap.
  - cbn. destruct (p x); [|done]. cbn. rewrite fmap_app, lookup_app_r by (by rewrite length_fmap). rewrite length_fmap, Nat.sub_diag. done.
Qed.

Lemma nth_group_spec d o c n : represents d o -> container_exists o c -> NthParsedGroup d c n = groups_of o c !! n.
Proof.
  intros Hr Hex. destruct (proj1 (resolve_exists d o c Hr) Hex) as [e He]. unfold NthParsedGroup. rewrite He.
  destruct (rp_group_chain d o Hr c e He) as [Hl _]. apply chain_nth_linked; [done|]. rewrite (rp_groups d o Hr). apply positions_length.
Qed.

Lemma nth_entry_spec d o g n : represents d o -> (g < length (o_groups o))%nat -> NthParsedEntry d g n = entries_of o g !! n.
Proof.
  intros Hr Hg. destruct (lookup_lt_is_Some_2 (groups d) g) as [fr Hfr]; [by rewrite (rp_groups d o Hr)|]. unfold NthParsedEntry. rewrite Hfr.
  destruct (rp_entry_chain d o Hr g fr Hfr) as [Hl _]. apply chain_nth_linked; [done|]. rewrite (rp_entries d o Hr). apply positions_length.
Qed.

Lemma omap_lookup_seq {A} (l : list A) first k : (first + k <= length l)%nat -> omap (fun i => l !! i) (seq first k) = slice l first k.
Proof.
  revert first. induction k as [|k IH]; intros first Hl; [done|]. cbn. destruct (l !! first) as [x|] eqn:Ex; [|apply lookup_ge_None in Ex; lia].
  rewrite IH by lia. unfold slice. rewrite (drop_S l x first Ex). done.
Qed.

Lemma entry_fields_slice d o i e : represents d o -> entries d !! i = Some e ->
  match first_field_index e with
  | Some first => fields_of o (EntryContainer i) = slice (field_slots d) first (Z.to_nat (field_count e)) /\
                  (first + Z.to_nat (field_count e) <= length (field_slots d))%nat /\ 0 < field_count e
  | None => fields_of o (EntryContainer i) = []
  end.
Proof.
  intros Hr He. destruct (rp_fields d o Hr (EntryContainer i) e He) as [Hf Hc]. unfold fields_of. rewrite positions_fields, <- (rp_slots d o Hr).
  pose proof (rp_block d o Hr i) as Hb. rewrite Hf, Hc, Nat2Z.id. destruct (head (positions _ _)) as [first|] eqn:Eh; [|by destruct (positions _ _)].
  specialize (Hb first eq_refl). set (k := length _) in *. destruct k as [|k]; [rewrite Hb in Eh; done|].
  assert (Hin : (first + k)%nat ∈ positions (owns_slot (EntryContainer i)) (o_slots o)) by (rewrite Hb; apply elem_of_seq; lia).
  apply positions_lt in Hin. assert (Hl : length (field_slots d) = length (o_slots o)) by (rewrite (rp_slots d o Hr); apply length_fmap).
  rewrite Hb, omap_lookup_seq by lia. split_and!; [done|lia|lia].
Qed.

Lemma nth_field_spec d o i n : represents d o -> (i < length (o_entries o))%nat -> NthParsedField d (EntryContainer i) n = fields_of o (EntryContainer i) !! n.
Proof.
  intros Hr Hi. destruct (lookup_lt_is_Some_2 (entries d) i) as [e He]; [by rewrite (rp_entries d o Hr)|]. unfold NthParsedField. cbn. rewrite He.
  pose proof (entry_fields_slice d o i e Hr He) as Hs. destruct (first_field_index e) as [first|]; [|by rewrite Hs]. destruct Hs as (-> & Hl & Hc).
  unfold slice. destruct (Z.leb_spec (field_count e) (Z.of_nat n)); [symmetry; apply lookup_ge_None; rewrite length_take; lia|].
  rewrite lookup_take_lt by lia. by rewrite lookup_drop.
Qed.

(** The field a position names is the one a scan of the container's fields finds. *)
Lemma same_field_find c tag (l : list (ParsedContainerRef * ParsedFieldSlot)) :
  head (positions (same_field c tag) l) ≫= (fun i => l.*2 !! i) = List.find (fun s => ps_tag s =? tag) (List.filter (owns_slot c) l).*2.
Proof.
  rewrite positions_head. induction l as [|x l IH]; [done|]. cbn [list_find].
  assert (Hrest : (fst <$> (prod_map S id <$> list_find (fun y => same_field c tag y = true) l)) ≫= (fun i => (x :: l).*2 !! i) =
    List.find (fun s => ps_tag s =? tag) (List.filter (owns_slot c) l).*2).
  { rewrite <- IH. by destruct (list_find _ l) as [[]|]. }
  destruct (decide (same_field c tag x = true)) as [E|E].
  - unfold same_field in E. apply andb_true_iff in E as [Eo Et]. cbn [List.filter]. rewrite Eo. cbn. by rewrite Et.
  - rewrite Hrest. unfold same_field in E. cbn [List.filter]. destruct (owns_slot c x); [|done]. cbn. by destruct (ps_tag x.2 =? tag).
Qed.

Lemma find_field_spec d o c tag : represents d o -> container_exists o c -> (c = RootContainer -> 0 <= tag < 65536) ->
  FindParsedField d c tag = List.find (fun s => ps_tag s =? tag) (fields_of o c).
Proof.
  intros Hr Hex Ht. unfold fields_of. rewrite <- same_field_find, <- (rp_slots d o Hr). destruct (proj1 (resolve_exists d o c Hr) Hex) as [e He].
  rewrite <- (find_field_index_spec d o c tag Hr ltac:(by eexists) Ht). unfold FindParsedField. rewrite He. destruct (rp_fields d o Hr c e He) as [Hf Hc].
  assert (Hempty : positions (owns_slot c) (o_slots o) = [] -> FindParsedFieldIndex d c tag = None).
  { intros Hp. rewrite (find_field_index_spec d o) by (done || by eexists). unfold same_field. by rewrite positions_and, Hp. }
  destruct (first_field_index e) as [first|] eqn:Ef; [|rewrite Hempty; [done|by destruct (positions _ _)]].
  destruct (Z.eqb_spec (field_count e) 0) as [E0|_]; [rewrite Hempty; [done|]; apply nil_length_inv; lia|].
  destruct c as [|i]; [|unfold FindParsedFieldIndex; rewrite He, Ef; done]. cbn [FindParsedFieldIndex]. unfold FindParsedFieldInRoot.
  destruct (QuickCacheSlotForTag tag) as [q|] eqn:Eq; [|done]. specialize (Ht eq_refl).
  rewrite (rp_quick d o Hr tag q Eq), (rp_hash d o Hr tag Ht). destruct (head (positions (same_field RootContainer tag) (o_slots o))) as [i|] eqn:Eh; cbn; [|done].
  assert (Hin : i ∈ positions (same_field RootContainer tag) (o_slots o)) by (destruct (positions (same_field _ _) _); [done|]; injection Eh as ->; left).
  apply positions_lt in Hin. pose proof (rp_bound d o Hr). destruct (Z.eqb_spec (Z.of_nat i) kInvalidHashSlot); [lia|]. by rewrite Nat2Z.id.
Qed.

(** ** Properties *)

(** C15: the index-linked representation of a parsed message is faithful.  After a
    run of the decoder's operations on a message object, reuse of the object
    included, the accessors see what was put in: the groups of a container and the
    entries of a group in the order they were added, a group under its count tag,
    the fields of a group entry in order, and under a tag the last field stored in
    that container with it.  The duplicate check, the generations of the
    direct-address table and the cache of session tags do not show.  Conditions on
    the run: a field goes to a container that exists, an entry to a group that
    exists; the fields stored at the root have tags below 65536, and only such tags
    are looked up there (the overflow table keeps sixteen bits of a tag, so larger
    tags collide); fewer than 65535 fields are stored; and the fields of an entry
    come one after the other.  The root is not enumerated by position. *)
Theorem parsed_message_refines ops :
  allowed_run nobody ops ->
  let d := fold_left parse_exec ops NewParsedMessageData in
  let o := fold_left owner_exec ops nobody in
  (forall c, container_exists o c ->
     (forall n, NthParsedGroup d c n = groups_of o c !! n) /\
     (forall tag, FindParsedGroup d c tag = head (positions (same_group c tag) (o_groups o))) /\
     (forall tag, (c = RootContainer -> 0 <= tag < 65536) -> FindParsedField d c tag = List.find (fun s => ps_tag s =? tag) (fields_of o c))) /\
  (forall g n, (g < length (o_groups o))%nat -> NthParsedEntry d g n = entries_of o g !! n) /\
  (forall i n, (i < length (o_entries o))%nat -> NthParsedField d (EntryContainer i) n = fields_of o (EntryContainer i) !! n).
Proof.
  intros Ha d o. assert (Hr : represents d o) by (apply represents_run; [apply represents_new|done]).
  split_and!.
  - intros c Hc. split_and!; [intros n; by apply nth_group_spec| |intros tag Ht; by apply find_field_spec].
    intros tag. apply find_group_index_spec; [done|by eapply resolve_exists].
  - intros g n Hg. by apply nth_entry_spec.
  - intros i n Hi. by apply nth_field_spec.
Qed.

Definition demo_slot (tag : Z) : ParsedFieldSlot := MakeParsedFieldSlotWithType tag 0 1 kFieldString.

(** Two decodes with one object; the second message has a group with two entries,
    then a field of the root under a tag above the direct-address table. *)
Definition demo_parse_ops : list ParseOp :=
  [OpReset; OpField RootContainer (demo_slot 35); OpRootField (demo_slot 11);
   OpReset; OpField RootContainer (demo_slot 35); OpRootField (demo_slot 453);
   OpGroup RootContainer 453 1; OpEntry 0; OpField (EntryContainer 0) (demo_slot 448); OpField (EntryContainer 0) (demo_slot 447);
   OpEntry 0; OpField (EntryContainer 1) (demo_slot 448); OpRootField (demo_slot 20001); OpRootField (demo_slot 20001)].

Lemma demo_parse_allowed : allowed_run nobody demo_parse_ops.
Proof.
  repeat (apply allowed_cons; [cbn; unfold field_allowed; cbn; split_and?; try lia; try (intros; lia); try (vm_compute; auto; fail); auto|]; cbn [owner_exec]).
  apply allowed_nil.
Qed.

Lemma parsed_message_refines_witness :
  let d := fold_left parse_exec demo_parse_ops NewParsedMessageData in
  NthParsedEntry d 0 1 = Some 1%nat /\ FindParsedField d RootContainer 11 = None /\
  (forall tag, 0 <= tag < 65536 -> FindParsedField d RootContainer tag =
     List.find (fun s => ps_tag s =? tag) (fields_of (fold_left owner_exec demo_parse_ops nobody) RootContainer)).
Proof.
  split; [vm_compute; reflexivity|]. split; [vm_compute; reflexivity|]. intros tag Ht.
  destruct (parsed_message_refines demo_parse_ops demo_parse_allowed) as [H _]. destruct (H RootContainer I) as (_ & _ & Hf). by apply Hf.
Defined.
