(* ===== verification/Decoder.v ===== *)
(** * The dictionary-driven decoder

    The decode side of [codec/fix_codec.cpp]: the scanner of one field, the
    validation of a consumed field, the entries of repeating groups and the two
    forms of [DecodeFixMessageView], with and without precompiled decoders
    ([codec/compiled_decoder.cpp]).  Conversion of text to floating point
    numbers is implementation-defined and an argument (class [FloatText]); the
    bytes of the frame are an argument, positions index them. *)
From S2P Require Import Prelude Base StdAlgo BitTable SortSearch IntFormat Scan FixTags Wire Message NormalizedDictionary ParsedMessage.
From stdpp Require Import pretty.
Open Scope Z_scope.

(** [std::from_chars] for [double]: the bits of the value and how many characters
    it read. *)
Class FloatText := { from_chars_double : list Z -> option (Z * nat) }.

(** ** Scope of a validation *)

Definition kBitsetTagLimit : Z := 10048.

Record SeenTagBuffer := MkSeen { bitset_ : gmap Z Z; overflow_tags_ : list Z }.

Definition contains (b : SeenTagBuffer) (tag : Z) : bool :=
  if tag <? kBitsetTagLimit then bit_get 64 tag (bitset_ b) else existsb (Z.eqb tag) (overflow_tags_ b).

Definition push_back (tag : Z) (b : SeenTagBuffer) : SeenTagBuffer :=
  if tag <? kBitsetTagLimit then MkSeen (bit_set 64 tag (bitset_ b)) (overflow_tags_ b)
  else MkSeen (bitset_ b) (overflow_tags_ b ++ [tag]).

Record ScopeValidationState := MkScope { seen_tags : SeenTagBuffer; last_rule_index : Z }.

Definition new_scope : ScopeValidationState := MkScope (MkSeen ∅ []) (-1).

Definition IsStandardSessionField (tag : Z) : bool := tags.IsAggregateSessionEnvelopeTag tag.
Definition IsImplicitStandardField (tag : Z) : bool := tags.IsAggregateSessionEnvelopeTag tag || tags.IsCommonAdminTag tag.

Definition no_issue : ValidationIssue := MkIssue ValidationIssueKind.kNone 0 "".

(** The first issue stays. *)
Definition SetValidationIssue (kind : ValidationIssueKind.t) (tag : Z) (text : string) (issue : ValidationIssue) : ValidationIssue :=
  if issue_present issue then issue else MkIssue kind tag text.

Definition HasSeenTag (state : ScopeValidationState) (tag : Z) : bool := contains (seen_tags state) tag.

Definition group_order_text (tag : Z) : string := "field " +:+ pretty tag +:+ " is out of required order within the repeating group".

Definition TrackRuleOrder (rule_index tag : Z) (kind : ValidationIssueKind.t) (state : ScopeValidationState) (issue : ValidationIssue)
    : ScopeValidationState * ValidationIssue :=
  match kind with
  | ValidationIssueKind.kNone => (state, issue)
  | _ =>
      if rule_index <? 0 then (state, issue)
      else if last_rule_index state >? rule_index
      then (state, SetValidationIssue kind tag
              (match kind with
               | ValidationIssueKind.kRepeatingGroupFieldsOutOfRequiredOrder => group_order_text tag
               | _ => "field " +:+ pretty tag +:+ " is out of required order"
               end) issue)
      else if rule_index >? last_rule_index state then (MkScope (seen_tags state) rule_index, issue)
      else (state, issue)
  end.

(** ** Numbers in text *)

(** [std::from_chars] for [std::int64_t]: an optional minus sign and digits. *)
Definition from_chars_i64 (l : list Z) : option (Z * nat) :=
  let '(negative, digits) := match l with c :: rest => if c =? 45 then (true, rest) else (false, l) | [] => (false, []) end in
  match digit_prefix digits with
  | [] => None
  | ds =>
      let value := if negative then - numeral_value ds else numeral_value ds in
      if (- 2 ^ 63 <=? value) && (value <? 2 ^ 63) then Some (value, length ds + (if negative then 1 else 0))%nat else None
  end.

Definition whole {A} (text : list Z) (parsed : option (A * nat)) (label : string) : Result A :=
  match parsed with
  | Some (v, n) => if (n =? length text)%nat then Value v else Error (status.InvalidArgument ("invalid " +:+ label))
  | None => Error (status.InvalidArgument ("invalid " +:+ label))
  end.

Definition ParseUnsigned (text : list Z) (label : string) : Result Z := whole text (from_chars_u32 text) label.
Definition ParseSigned (text : list Z) (label : string) : Result Z := whole text (from_chars_i64 text) label.
Definition ParseDouble `{FloatText} (text : list Z) (label : string) : Result Z := whole text (from_chars_double text) label.
Definition ParseBoolean (text : list Z) (label : string) : Result bool :=
  match text with
  | [89] => Value true
  | [78] => Value false
  | _ => Error (status.InvalidArgument ("invalid " +:+ label))
  end.

Definition ValidateScalarFieldValue `{FloatText} (tag : Z) (value : list Z) (field_type : Z) (issue : ValidationIssue) : ValidationIssue :=
  if issue_present issue then issue
  else
    match value with
    | [] => SetValidationIssue ValidationIssueKind.kTagSpecifiedWithoutAValue tag ("field " +:+ pretty tag +:+ " is specified without a value") issue
    | _ =>
        let incorrect := SetValidationIssue ValidationIssueKind.kIncorrectDataFormatForValue tag
                           ("field " +:+ pretty tag +:+ " has incorrect data format") issue in
        let ok :=
          if field_type =? kFieldInt then result_ok (ParseSigned value "integer field")
          else if field_type =? kFieldChar then (length value =? 1)%nat
          else if field_type =? kFieldFloat then result_ok (ParseDouble value "floating-point field")
          else if field_type =? kFieldBoolean then result_ok (ParseBoolean value "boolean field")
          else true in
        if ok then issue else incorrect
    end.

(** [known_field_def] spares a lookup; a null pointer makes one. *)
Definition ValidateConsumedField (dictionary : NormalizedDictionaryView) (tag : Z) (rules : list FieldRuleRecord) (rule_index : Z)
    (allow_standard_session_fields schema_known : bool) (scope_name : string) (known_field_def : option FieldDefRecord)
    (order_issue_kind : ValidationIssueKind.t) (state : ScopeValidationState) (issue : ValidationIssue)
    : ScopeValidationState * ValidationIssue :=
  if HasSeenTag state tag
  then (state, SetValidationIssue ValidationIssueKind.kDuplicateField tag ("field " +:+ pretty tag +:+ " appears more than once") issue)
  else
    let state := MkScope (push_back tag (seen_tags state)) (last_rule_index state) in
    if allow_standard_session_fields && IsStandardSessionField tag then (state, issue)
    else if negb schema_known then (state, issue)
    else
      let field_ptr := match known_field_def with Some f => Some f | None => find_field dictionary tag end in
      let no_rules := (length rules =? 0)%nat in
      if match field_ptr with None => negb (no_rules && IsImplicitStandardField tag) | Some _ => false end
      then (state, SetValidationIssue ValidationIssueKind.kUnknownField tag
                     ("field " +:+ pretty tag +:+ " is not present in the bound dictionary") issue)
      else if negb no_rules && (rule_index <? 0)
      then (state, SetValidationIssue ValidationIssueKind.kFieldNotAllowed tag
                     ("field " +:+ pretty tag +:+ " is not allowed by the bound " +:+ scope_name +:+ " definition") issue)
      else TrackRuleOrder rule_index tag order_issue_kind state issue.

(** ** One field *)

Record InlineField := MkInline { if_tag : Z; if_start_offset : nat; if_value_offset : nat; if_value_length : nat; if_next_pos : nat }.

(** The unrolled sums of [ParseTagInline]: one to five digits, zero for an error. *)
Definition ParseTagInline (data : list Z) : Z :=
  let d ch := ch - 48 in
  match data with
  | [a] => if digitb a then d a else 0
  | [a; b] => if digitb a && digitb b then d a * 10 + d b else 0
  | [a; b; c] => if digitb a && digitb b && digitb c then d a * 100 + d b * 10 + d c else 0
  | [a; b; c; e] => if digitb a && digitb b && digitb c && digitb e then d a * 1000 + d b * 100 + d c * 10 + d e else 0
  | [a; b; c; e; f] =>
      if digitb a && digitb b && digitb c && digitb e && digitb f
      then d a * 10000 + d b * 1000 + d c * 100 + d e * 10 + d f else 0
  | _ => 0
  end.

Definition kScanNextFieldShortValueBytes : nat := 16.
Definition kEquals : Z := 61.

(** The loop for the equals sign over at most six bytes: [inl] when it meets the
    delimiter, [inr] where it stops otherwise. *)
Fixpoint equals_loop (fuel : nat) (delimiter : Z) (rest : list Z) (equals : nat) : nat + nat :=
  match fuel, rest with
  | S fuel, b :: rest =>
      if b =? kEquals then inr equals
      else if b =? delimiter then inl equals
      else equals_loop fuel delimiter rest (S equals)
  | _, _ => inr equals
  end.

Definition kMissingDelimiter : Status := status.FormatError "FIX frame is missing its final delimiter".
Definition kInvalidSyntax : Status := status.FormatError "invalid FIX field syntax".
Definition kInvalidTag : Status := status.FormatError "invalid field tag".
Definition kBadStructure : Status := status.FormatError "FIX frame must begin with 8 and 9 and end with 10".

(** The value up to its delimiter: a short scan, then the vector scan. *)
Definition find_delimiter (has_sse2 : bool) (value : list Z) (delimiter : Z) : nat :=
  let short_scan_len := Nat.min (length value) kScanNextFieldShortValueBytes in
  let short := FindByteShortScalar (take short_scan_len value) delimiter in
  if (short =? short_scan_len)%nat then (short_scan_len + FindByte has_sse2 (drop short_scan_len value) delimiter)%nat else short.

Definition ScanNextField (has_sse2 : bool) (bytes : list Z) (field_start : nat) (delimiter : Z) : Result InlineField :=
  if (length bytes <=? field_start)%nat then Error kMissingDelimiter
  else
    let rest := drop field_start bytes in
    match equals_loop 6 delimiter rest 0 with
    | inl O => Error (status.FormatError "empty FIX field is not allowed")
    | inl (S _) => Error kInvalidSyntax
    | inr equals =>
        if (length rest <=? equals)%nat then Error kMissingDelimiter
        else if (equals =? 0)%nat then Error kInvalidSyntax
        else if (5 <? equals)%nat || negb (nth equals rest 0 =? kEquals) then Error kInvalidTag
        else
          let after_eq := (field_start + equals + 1)%nat in
          let soh_index := (after_eq + find_delimiter has_sse2 (drop after_eq bytes) delimiter)%nat in
          if (length bytes <=? soh_index)%nat then Error kMissingDelimiter
          else
            let field_len := (soh_index - field_start)%nat in
            let tag := ParseTagInline (take equals rest) in
            if tag =? 0 then Error kInvalidTag
            else Value (MkInline tag field_start after_eq (field_len - equals - 1) (soh_index + 1))
    end.

Definition field_value (bytes : list Z) (f : InlineField) : list Z := slice bytes (if_value_offset f) (if_value_length f).

(** ** Field types *)

Definition FieldTypeFromDef (f : FieldDefRecord) : Z :=
  if fd_value_type f =? 2 then kFieldInt
  else if fd_value_type f =? 3 then kFieldChar
  else if fd_value_type f =? 4 then kFieldFloat
  else if fd_value_type f =? 5 then kFieldBoolean
  else kFieldString.

Definition FieldTypeFallback (tag : Z) : Z :=
  if existsb (Z.eqb tag) [9; 34; 45; 371; 373; 98; 108; 7; 16; 36] then kFieldInt
  else if existsb (Z.eqb tag) [141; 43; 97; 123] then kFieldBoolean
  else kFieldString.

Definition ResolveFieldTypeWithDef (tag : Z) (f : option FieldDefRecord) : Z :=
  match f with Some f => FieldTypeFromDef f | None => FieldTypeFallback tag end.

Definition ResolveFieldType (tag : Z) (dictionary : NormalizedDictionaryView) : Z := ResolveFieldTypeWithDef tag (find_field dictionary tag).

Definition MakeParsedFieldSlot (tag value_offset value_length : Z) (dictionary : NormalizedDictionaryView) : ParsedFieldSlot :=
  MakeParsedFieldSlotWithType tag value_offset value_length (ResolveFieldType tag dictionary).

Definition inline_slot (f : InlineField) (field_type : Z) : ParsedFieldSlot :=
  MakeParsedFieldSlotWithType (if_tag f) (Z.of_nat (if_value_offset f)) (Z.of_nat (if_value_length f)) field_type.

(** ** Repeating groups *)

Definition kMaxGroupEntryCount : Z := 10000.
Definition kMaxGroupNestingDepth : Z := 16.
Definition kMaxDeferredSlots : nat := 128.

(** What parsing a group threads through: the position, the message and the issue. *)
Record GroupState := MkGroupState { gs_pos : nat; gs_parsed : ParsedMessageData; gs_issue : ValidationIssue }.

Definition delimiter_issue_text (g : GroupDefRecord) (entry_index : Z) : string :=
  "group " +:+ pretty (count_tag g) +:+ " expected delimiter tag " +:+ pretty (delimiter_tag g) +:+ " for entry " +:+ pretty (entry_index + 1).

Section Decode.
Context `{FloatText} (has_sse2 : bool) (dictionary : NormalizedDictionaryView) (bytes : list Z) (delimiter : Z).

(** A nested group: value of the count field, definition, parent and state. *)
Definition ParseGroup : Type := list Z -> GroupDefRecord -> ParsedContainerRef -> GroupState -> Result GroupState.

(** [while (byte_pos < bytes.size())] over the fields of one entry: the state, the
    validation scope and the deferred slots. *)
Fixpoint group_fields_loop (nested : ParseGroup) (fuel : nat) (g : GroupDefRecord) (entry_ref : ParsedContainerRef) (seen_any_field : bool)
    (scope : ScopeValidationState) (deferred : list ParsedFieldSlot) (st : GroupState) : Result (GroupState * list ParsedFieldSlot) :=
  match fuel with
  | O => Error diverges
  | S fuel =>
      if (length bytes <=? gs_pos st)%nat then Value (st, deferred)
      else
        match ScanNextField has_sse2 bytes (gs_pos st) delimiter with
        | Error e => Error e
        | Value f =>
            let tag := if_tag f in
            if seen_any_field && (tag =? delimiter_tag g) then Value (st, deferred)
            else
              let ri := group_rule_index dictionary g tag in
              if ri <? 0 then Value (st, deferred)
              else
                let field_def := find_field dictionary tag in
                let field_type := ResolveFieldTypeWithDef tag field_def in
                let '(scope, issue) :=
                  ValidateConsumedField dictionary tag (group_field_rules dictionary g) ri false true "group" field_def
                    ValidationIssueKind.kRepeatingGroupFieldsOutOfRequiredOrder scope (gs_issue st) in
                let value := field_value bytes f in
                let issue := ValidateScalarFieldValue tag value field_type issue in
                let deferred := if (length deferred <? kMaxDeferredSlots)%nat then deferred ++ [inline_slot f field_type] else deferred in
                match find_group dictionary tag with
                | Some nested_group =>
                    match nested value nested_group entry_ref (MkGroupState (if_next_pos f) (gs_parsed st) issue) with
                    | Error e => Error e
                    | Value st => group_fields_loop nested fuel g entry_ref true scope deferred st
                    end
                | None => group_fields_loop nested fuel g entry_ref true scope deferred (MkGroupState (if_next_pos f) (gs_parsed st) issue)
                end
        end
  end.

(** The loop over the entries; [remaining] counts down from the declared count. *)
Fixpoint group_entries_loop (nested : ParseGroup) (remaining : nat) (entry_index : Z) (g : GroupDefRecord) (frame_index : nat) (st : GroupState)
    : Result GroupState :=
  match remaining with
  | O => Value st
  | S remaining =>
      let missing := SetValidationIssue ValidationIssueKind.kIncorrectNumInGroupCount (count_tag g) (delimiter_issue_text g entry_index) (gs_issue st) in
      if (length bytes <=? gs_pos st)%nat then Value (MkGroupState (gs_pos st) (gs_parsed st) missing)
      else
        match ScanNextField has_sse2 bytes (gs_pos st) delimiter with
        | Error e => Error e
        | Value peek =>
            if negb (if_tag peek =? delimiter_tag g)
            then Value (MkGroupState (gs_pos st) (gs_parsed st)
                   (if group_rule_allows_tag dictionary g (if_tag peek)
                    then SetValidationIssue ValidationIssueKind.kRepeatingGroupFieldsOutOfRequiredOrder (if_tag peek)
                           (group_order_text (if_tag peek)) (gs_issue st)
                    else missing))
            else
              let '(entry_index_in_message, parsed) := AppendParsedEntry frame_index (gs_parsed st) in
              let entry_ref := EntryContainer entry_index_in_message in
              match group_fields_loop nested (S (length bytes)) g entry_ref false new_scope [] (MkGroupState (gs_pos st) parsed (gs_issue st)) with
              | Error e => Error e
              | Value (st, deferred) =>
                  let parsed := fold_left (fun p slot => snd (AppendParsedFieldSlot entry_ref slot p)) deferred (gs_parsed st) in
                  group_entries_loop nested remaining (entry_index + 1) g frame_index (MkGroupState (gs_pos st) parsed (gs_issue st))
              end
        end
  end.

(** [levels] is how much deeper the nesting may go: [depth + levels] is the maximum. *)
Fixpoint ParseParsedGroupEntries (levels : nat) (count_value : list Z) (g : GroupDefRecord) (parent : ParsedContainerRef) (st : GroupState)
    : Result GroupState :=
  let depth := kMaxGroupNestingDepth - Z.of_nat levels in
  match ParseUnsigned count_value "group count" with
  | Error e => Error e
  | Value count =>
      if count >? kMaxGroupEntryCount
      then Error (status.FormatError ("group " +:+ pretty (count_tag g) +:+ " entry count " +:+ pretty count +:+ " exceeds maximum " +:+ pretty kMaxGroupEntryCount))
      else
        match levels with
        | O => Error (status.FormatError ("group " +:+ pretty (count_tag g) +:+ " nesting depth " +:+ pretty depth +:+ " exceeds maximum " +:+ pretty kMaxGroupNestingDepth))
        | S levels =>
            let '(frame_index, parsed) := EnsureParsedGroup parent (count_tag g) depth (gs_parsed st) in
            group_entries_loop (ParseParsedGroupEntries levels) (Z.to_nat count) 0 g frame_index (MkGroupState (gs_pos st) parsed (gs_issue st))
        end
  end.

(** The groups of the root have depth one. *)
Definition root_levels : nat := 15.
End Decode.

(** ** The header *)

Definition with_begin_string (v : string) (h : SessionHeaderView) : SessionHeaderView :=
  MkHeader v (h_msg_type h) (h_sender_comp_id h) (h_sender_sub_id h) (h_target_comp_id h) (h_target_sub_id h)
     (h_on_behalf_of_comp_id h) (h_deliver_to_comp_id h) (h_default_appl_ver_id h) (h_appl_ver_id h) (h_sending_time h)
     (h_orig_sending_time h) (h_body_length h) (h_msg_seq_num h) (h_checksum h) (h_poss_dup h) (h_poss_resend h).
Definition with_msg_type (v : string) (h : SessionHeaderView) : SessionHeaderView :=
  MkHeader (h_begin_string h) v (h_sender_comp_id h) (h_sender_sub_id h) (h_target_comp_id h) (h_target_sub_id h)
     (h_on_behalf_of_comp_id h) (h_deliver_to_comp_id h) (h_default_appl_ver_id h) (h_appl_ver_id h) (h_sending_time h)
     (h_orig_sending_time h) (h_body_length h) (h_msg_seq_num h) (h_checksum h) (h_poss_dup h) (h_poss_resend h).
Definition with_sender_comp_id (v : string) (h : SessionHeaderView) : SessionHeaderView :=
  MkHeader (h_begin_string h) (h_msg_type h) v (h_sender_sub_id h) (h_target_comp_id h) (h_target_sub_id h)
     (h_on_behalf_of_comp_id h) (h_deliver_to_comp_id h) (h_default_appl_ver_id h) (h_appl_ver_id h) (h_sending_time h)
     (h_orig_sending_time h) (h_body_length h) (h_msg_seq_num h) (h_checksum h) (h_poss_dup h) (h_poss_resend h).
Definition with_sender_sub_id (v : string) (h : SessionHeaderView) : SessionHeaderView :=
  MkHeader (h_begin_string h) (h_msg_type h) (h_sender_comp_id h) v (h_target_comp_id h) (h_target_sub_id h)
     (h_on_behalf_of_comp_id h) (h_deliver_to_comp_id h) (h_default_appl_ver_id h) (h_appl_ver_id h) (h_sending_time h)
     (h_orig_sending_time h) (h_body_length h) (h_msg_seq_num h) (h_checksum h) (h_poss_dup h) (h_poss_resend h).
Definition with_target_comp_id (v : string) (h : SessionHeaderView) : SessionHeaderView :=
  MkHeader (h_begin_string h) (h_msg_type h) (h_sender_comp_id h) (h_sender_sub_id h) v (h_target_sub_id h)
     (h_on_behalf_of_comp_id h) (h_deliver_to_comp_id h) (h_default_appl_ver_id h) (h_appl_ver_id h) (h_sending_time h)
     (h_orig_sending_time h) (h_body_length h) (h_msg_seq_num h) (h_checksum h) (h_poss_dup h) (h_poss_resend h).
Definition with_target_sub_id (v : string) (h : SessionHeaderView) : SessionHeaderView :=
  MkHeader (h_begin_string h) (h_msg_type h) (h_sender_comp_id h) (h_sender_sub_id h) (h_target_comp_id h) v
     (h_on_behalf_of_comp_id h) (h_deliver_to_comp_id h) (h_default_appl_ver_id h) (h_appl_ver_id h) (h_sending_time h)
     (h_orig_sending_time h) (h_body_length h) (h_msg_seq_num h) (h_checksum h) (h_poss_dup h) (h_poss_resend h).
Definition with_on_behalf_of_comp_id (v : string) (h : SessionHeaderView) : SessionHeaderView :=
  MkHeader (h_begin_string h) (h_msg_type h) (h_sender_comp_id h) (h_sender_sub_id h) (h_target_comp_id h)
     (h_target_sub_id h) v (h_deliver_to_comp_id h) (h_default_appl_ver_id h) (h_appl_ver_id h) (h_sending_time h)
     (h_orig_sending_time h) (h_body_length h) (h_msg_seq_num h) (h_checksum h) (h_poss_dup h) (h_poss_resend h).
Definition with_deliver_to_comp_id (v : string) (h : SessionHeaderView) : SessionHeaderView :=
  MkHeader (h_begin_string h) (h_msg_type h) (h_sender_comp_id h) (h_sender_sub_id h) (h_target_comp_id h)
     (h_target_sub_id h) (h_on_behalf_of_comp_id h) v (h_default_appl_ver_id h) (h_appl_ver_id h) (h_sending_time h)
     (h_orig_sending_time h) (h_body_length h) (h_msg_seq_num h) (h_checksum h) (h_poss_dup h) (h_poss_resend h).
Definition with_default_appl_ver_id (v : string) (h : SessionHeaderView) : SessionHeaderView :=
  MkHeader (h_begin_string h) (h_msg_type h) (h_sender_comp_id h) (h_sender_sub_id h) (h_target_comp_id h)
     (h_target_sub_id h) (h_on_behalf_of_comp_id h) (h_deliver_to_comp_id h) v (h_appl_ver_id h) (h_sending_time h)
     (h_orig_sending_time h) (h_body_length h) (h_msg_seq_num h) (h_checksum h) (h_poss_dup h) (h_poss_resend h).
Definition with_appl_ver_id (v : string) (h : SessionHeaderView) : SessionHeaderView :=
  MkHeader (h_begin_string h) (h_msg_type h) (h_sender_comp_id h) (h_sender_sub_id h) (h_target_comp_id h)
     (h_target_sub_id h) (h_on_behalf_of_comp_id h) (h_deliver_to_comp_id h) (h_default_appl_ver_id h) v (h_sending_time h)
     (h_orig_sending_time h) (h_body_length h) (h_msg_seq_num h) (h_checksum h) (h_poss_dup h) (h_poss_resend h).
Definition with_sending_time (v : string) (h : SessionHeaderView) : SessionHeaderView :=
  MkHeader (h_begin_string h) (h_msg_type h) (h_sender_comp_id h) (h_sender_sub_id h) (h_target_comp_id h)
     (h_target_sub_id h) (h_on_behalf_of_comp_id h) (h_deliver_to_comp_id h) (h_default_appl_ver_id h) (h_appl_ver_id h) v
     (h_orig_sending_time h) (h_body_length h) (h_msg_seq_num h) (h_checksum h) (h_poss_dup h) (h_poss_resend h).
Definition with_orig_sending_time (v : string) (h : SessionHeaderView) : SessionHeaderView :=
  MkHeader (h_begin_string h) (h_msg_type h) (h_sender_comp_id h) (h_sender_sub_id h) (h_target_comp_id h)
     (h_target_sub_id h) (h_on_behalf_of_comp_id h) (h_deliver_to_comp_id h) (h_default_appl_ver_id h) (h_appl_ver_id h)
     (h_sending_time h) v (h_body_length h) (h_msg_seq_num h) (h_checksum h) (h_poss_dup h) (h_poss_resend h).
Definition with_body_length (v : Z) (h : SessionHeaderView) : SessionHeaderView :=
  MkHeader (h_begin_string h) (h_msg_type h) (h_sender_comp_id h) (h_sender_sub_id h) (h_target_comp_id h)
     (h_target_sub_id h) (h_on_behalf_of_comp_id h) (h_deliver_to_comp_id h) (h_default_appl_ver_id h) (h_appl_ver_id h)
     (h_sending_time h) (h_orig_sending_time h) v (h_msg_seq_num h) (h_checksum h) (h_poss_dup h) (h_poss_resend h).
Definition with_msg_seq_num (v : Z) (h : SessionHeaderView) : SessionHeaderView :=
  MkHeader (h_begin_string h) (h_msg_type h) (h_sender_comp_id h) (h_sender_sub_id h) (h_target_comp_id h)
     (h_target_sub_id h) (h_on_behalf_of_comp_id h) (h_deliver_to_comp_id h) (h_default_appl_ver_id h) (h_appl_ver_id h)
     (h_sending_time h) (h_orig_sending_time h) (h_body_length h) v (h_checksum h) (h_poss_dup h) (h_poss_resend h).
Definition with_checksum (v : Z) (h : SessionHeaderView) : SessionHeaderView :=
  MkHeader (h_begin_string h) (h_msg_type h) (h_sender_comp_id h) (h_sender_sub_id h) (h_target_comp_id h)
     (h_target_sub_id h) (h_on_behalf_of_comp_id h) (h_deliver_to_comp_id h) (h_default_appl_ver_id h) (h_appl_ver_id h)
     (h_sending_time h) (h_orig_sending_time h) (h_body_length h) (h_msg_seq_num h) v (h_poss_dup h) (h_poss_resend h).
Definition with_poss_dup (v : bool) (h : SessionHeaderView) : SessionHeaderView :=
  MkHeader (h_begin_string h) (h_msg_type h) (h_sender_comp_id h) (h_sender_sub_id h) (h_target_comp_id h)
     (h_target_sub_id h) (h_on_behalf_of_comp_id h) (h_deliver_to_comp_id h) (h_default_appl_ver_id h) (h_appl_ver_id h)
     (h_sending_time h) (h_orig_sending_time h) (h_body_length h) (h_msg_seq_num h) (h_checksum h) v (h_poss_resend h).
Definition with_poss_resend (v : bool) (h : SessionHeaderView) : SessionHeaderView :=
  MkHeader (h_begin_string h) (h_msg_type h) (h_sender_comp_id h) (h_sender_sub_id h) (h_target_comp_id h)
     (h_target_sub_id h) (h_on_behalf_of_comp_id h) (h_deliver_to_comp_id h) (h_default_appl_ver_id h) (h_appl_ver_id h)
     (h_sending_time h) (h_orig_sending_time h) (h_body_length h) (h_msg_seq_num h) (h_checksum h) (h_poss_dup h) v.

Definition empty_header : SessionHeaderView := MkHeader "" "" "" "" "" "" "" "" "" "" "" "" 0 0 0 false false.

(** The switch over the session tags. *)
Definition extract_header (tag : Z) (value : list Z) (h : SessionHeaderView) : Result SessionHeaderView :=
  let text := text_of value in
  if tag =? tags.kMsgSeqNum then match ParseUnsigned value "MsgSeqNum" with Value n => Value (with_msg_seq_num n h) | Error e => Error e end
  else if tag =? tags.kSenderCompID then Value (with_sender_comp_id text h)
  else if tag =? tags.kSenderSubID then Value (with_sender_sub_id text h)
  else if tag =? tags.kTargetCompID then Value (with_target_comp_id text h)
  else if tag =? tags.kTargetSubID then Value (with_target_sub_id text h)
  else if tag =? tags.kOnBehalfOfCompID then Value (with_on_behalf_of_comp_id text h)
  else if tag =? tags.kDeliverToCompID then Value (with_deliver_to_comp_id text h)
  else if tag =? tags.kSendingTime then Value (with_sending_time text h)
  else if tag =? tags.kOrigSendingTime then Value (with_orig_sending_time text h)
  else if tag =? tags.kDefaultApplVerID then Value (with_default_appl_ver_id text h)
  else if tag =? tags.kApplVerID then Value (with_appl_ver_id text h)
  else if tag =? tags.kPossDupFlag then match ParseBoolean value "PossDupFlag" with Value b => Value (with_poss_dup b h) | Error e => Error e end
  else if tag =? tags.kPossResend then match ParseBoolean value "PossResend" with Value b => Value (with_poss_resend b h) | Error e => Error e end
  else Value h.

(** ** Precompiled decoders *)

Record CompiledFieldSlot := MkCompiledSlot { cs_tag : Z; cs_field_type : Z; cs_group_def : option GroupDefRecord }.

Definition kInvalidSlot : Z := 255.
Definition kMaxSlots : Z := 128.

(** An absent entry of [tag_table_] is [kInvalidSlot]; [slots_] holds the used slots;
    the two overflow arrays are their used prefix. *)
Record CompiledMessageDecoder := MkCompiled {
  tag_table_ : gmap Z Z;
  slots_ : list CompiledFieldSlot;
  overflow_ : list (Z * Z);
  overflow_exceeded_ : bool;
}.

Definition is_header_tag (tag : Z) : bool := tags.IsAggregateSessionEnvelopeTag tag.

(** One rule of the message; a full table ends the loop. *)
Definition build_slot (dictionary : NormalizedDictionaryView) (rule : FieldRuleRecord) (d : CompiledMessageDecoder) : CompiledMessageDecoder :=
  let tag := fr_tag rule in
  let slot_idx := Z.of_nat (length (slots_ d)) in
  let field_type := match find_field dictionary tag with Some f => FieldTypeFromDef f | None => kFieldString end in
  let slots := slots_ d ++ [MkCompiledSlot tag field_type (find_group dictionary tag)] in
  let primary := Z.land tag 255 in
  if default kInvalidSlot (tag_table_ d !! primary) =? kInvalidSlot
  then MkCompiled (<[primary := slot_idx]> (tag_table_ d)) slots (overflow_ d) (overflow_exceeded_ d)
  else if (length (overflow_ d) <? 16)%nat then MkCompiled (tag_table_ d) slots (overflow_ d ++ [(tag, slot_idx)]) (overflow_exceeded_ d)
  else MkCompiled (tag_table_ d) slots (overflow_ d) true.

Fixpoint build_slots (dictionary : NormalizedDictionaryView) (rules : list FieldRuleRecord) (d : CompiledMessageDecoder) : CompiledMessageDecoder :=
  match rules with
  | [] => d
  | r :: rules =>
      if is_header_tag (fr_tag r) then build_slots dictionary rules d
      else if kMaxSlots <=? Z.of_nat (length (slots_ d)) then d
      else build_slots dictionary rules (build_slot dictionary r d)
  end.

Definition CompiledMessageDecoder_Build (dictionary : NormalizedDictionaryView) (m : MessageDefRecord) : CompiledMessageDecoder :=
  build_slots dictionary (message_field_rules dictionary m) (MkCompiled ∅ [] [] false).

Fixpoint overflow_slot (l : list (Z * Z)) (tag : Z) : Z :=
  match l with
  | [] => kInvalidSlot
  | (t, idx) :: l => if t =? tag then idx else overflow_slot l tag
  end.

Definition lookup_slot (d : CompiledMessageDecoder) (tag : Z) : Z :=
  let idx := default kInvalidSlot (tag_table_ d !! Z.land tag 255) in
  if negb (idx =? kInvalidSlot) && match slots_ d !! Z.to_nat idx with Some s => cs_tag s =? tag | None => false end
  then idx else overflow_slot (overflow_ d) tag.

Record DecoderEntry := MkDecoderEntry { de_msg_type : list Z; de_decoder : CompiledMessageDecoder }.

Definition CompiledDecoderTable : Type := list DecoderEntry.

Definition CompiledDecoderTable_Build {SA : SortAlgorithm de_msg_type} (dictionary : NormalizedDictionaryView) : CompiledDecoderTable :=
  std_sort (key := de_msg_type)
    (omap (fun m => (fun t => MkDecoderEntry t (CompiledMessageDecoder_Build dictionary m)) <$> string_at (string_table_ dictionary) (msg_type_offset m))
       (message_defs_ dictionary)).

Definition find_decoder (table : CompiledDecoderTable) (msg_type : list Z) : option CompiledMessageDecoder :=
  de_decoder <$> binary_find de_msg_type msg_type table.

(** ** Decoding a frame *)

(** The locals of the main loop.  [ds_checksum] is where the CheckSum field starts,
    once it was seen. *)
Record DecodeState := MkDecode {
  ds_pos : nat;
  ds_field_count : Z;
  ds_header : SessionHeaderView;
  ds_issue : ValidationIssue;
  ds_scope : ScopeValidationState;
  ds_parsed : ParsedMessageData;
  ds_message_def : option MessageDefRecord;
  ds_compiled : option CompiledMessageDecoder;
  ds_checksum : option nat;
}.

(** The decoded view before it is read as a tree. *)
Record DecodedFrame := MkDecodedFrame { df_parsed : ParsedMessageData; df_header : SessionHeaderView; df_issue : ValidationIssue }.

Definition NormalizeDelimiter (delimiter : Z) : Z := if delimiter =? 0 then kFixSoh else delimiter.
Definition ShouldSkipField (tag : Z) : bool := tags.IsFrameStructureTag tag.

Section Frames.
Context `{FloatText} (has_sse2 : bool) (dictionary : NormalizedDictionaryView) (bytes : list Z) (delimiter : Z).

Definition PrepareDecodeOutput (parsed : ParsedMessageData) : ParsedMessageData := set_raw bytes (ResetForNewDecode parsed).

(** The two fields a frame begins with: the BeginString and the declared BodyLength,
    and where the body starts. *)
Definition decode_prefix : Result (list Z * Z * nat) :=
  match ScanNextField has_sse2 bytes 0 delimiter with
  | Error e => Error e
  | Value f0 =>
      if negb (if_tag f0 =? tags.kBeginString) then Error kBadStructure
      else
        match ScanNextField has_sse2 bytes (if_next_pos f0) delimiter with
        | Error e => Error e
        | Value f1 =>
            if negb (if_tag f1 =? tags.kBodyLength) then Error kBadStructure
            else
              match ParseUnsigned (field_value bytes f1) "BodyLength" with
              | Error e => Error e
              | Value n => Value (field_value bytes f0, n, if_next_pos f1)
              end
        end
  end.

Definition start_state (parsed : ParsedMessageData) (begin_string : list Z) (body_length : Z) (body_start : nat) : DecodeState :=
  MkDecode body_start 2 (with_body_length body_length (with_begin_string (text_of begin_string) empty_header)) no_issue new_scope parsed None None None.

Definition append_root (slot : ParsedFieldSlot) (st : DecodeState) : DecodeState :=
  MkDecode (ds_pos st) (ds_field_count st) (ds_header st) (ds_issue st) (ds_scope st)
    (snd (AppendParsedFieldSlot RootContainer slot (ds_parsed st))) (ds_message_def st) (ds_compiled st) (ds_checksum st).
Definition set_pos (pos : nat) (st : DecodeState) : DecodeState :=
  MkDecode pos (ds_field_count st) (ds_header st) (ds_issue st) (ds_scope st) (ds_parsed st) (ds_message_def st) (ds_compiled st) (ds_checksum st).
Definition set_header (h : SessionHeaderView) (st : DecodeState) : DecodeState :=
  MkDecode (ds_pos st) (ds_field_count st) h (ds_issue st) (ds_scope st) (ds_parsed st) (ds_message_def st) (ds_compiled st) (ds_checksum st).
Definition set_issue (i : ValidationIssue) (st : DecodeState) : DecodeState :=
  MkDecode (ds_pos st) (ds_field_count st) (ds_header st) i (ds_scope st) (ds_parsed st) (ds_message_def st) (ds_compiled st) (ds_checksum st).
Definition set_scope (s : ScopeValidationState) (st : DecodeState) : DecodeState :=
  MkDecode (ds_pos st) (ds_field_count st) (ds_header st) (ds_issue st) s (ds_parsed st) (ds_message_def st) (ds_compiled st) (ds_checksum st).
Definition set_parsed (p : ParsedMessageData) (st : DecodeState) : DecodeState :=
  MkDecode (ds_pos st) (ds_field_count st) (ds_header st) (ds_issue st) (ds_scope st) p (ds_message_def st) (ds_compiled st) (ds_checksum st).
Definition count_scanned (st : DecodeState) : DecodeState :=
  MkDecode (ds_pos st) (ds_field_count st + 1) (ds_header st) (ds_issue st) (ds_scope st) (ds_parsed st) (ds_message_def st) (ds_compiled st) (ds_checksum st).
Definition see_checksum (start : nat) (st : DecodeState) : DecodeState :=
  MkDecode (ds_pos st) (ds_field_count st) (ds_header st) (ds_issue st) (ds_scope st) (ds_parsed st) (ds_message_def st) (ds_compiled st) (Some start).
Definition see_message (m : option MessageDefRecord) (c : option CompiledMessageDecoder) (st : DecodeState) : DecodeState :=
  MkDecode (ds_pos st) (ds_field_count st) (ds_header st) (ds_issue st) (ds_scope st) (ds_parsed st) m c (ds_checksum st).

(** A field with tag 35, with and without precompiled decoders. *)
Definition message_type_seen (value : list Z) (st : DecodeState) : DecodeState :=
  set_parsed (set_msg_type value (ds_parsed st)) (set_header (with_msg_type (text_of value) (ds_header st)) st).

Definition generic_msg_type (f : InlineField) (st : DecodeState) : Result DecodeState :=
  let value := field_value bytes f in
  let tag := if_tag f in
  let message_def := find_message dictionary value in
  let st := see_message message_def None (message_type_seen value st) in
  let rules := match message_def with Some m => message_field_rules dictionary m | None => [] end in
  let '(scope, issue) :=
    ValidateConsumedField dictionary tag rules (match message_def with Some m => message_rule_index dictionary m tag | None => -1 end)
      true (match message_def with Some _ => true | None => false end) "message" None ValidationIssueKind.kNone (ds_scope st) (ds_issue st) in
  let slot := MakeParsedFieldSlot tag (Z.of_nat (if_value_offset f)) (Z.of_nat (if_value_length f)) dictionary in
  Value (set_pos (if_next_pos f) (append_root slot (set_issue issue (set_scope scope st)))).

Definition compiled_msg_type (table : CompiledDecoderTable) (f : InlineField) (st : DecodeState) : Result DecodeState :=
  let value := field_value bytes f in
  let compiled := match find_decoder table value with
                  | Some c => if overflow_exceeded_ c then None else Some c
                  | None => None
                  end in
  let st := see_message None compiled (message_type_seen value st) in
  Value (set_pos (if_next_pos f) (append_root (inline_slot f kFieldString) st)).

(** Any other field, after the header switch. *)
Definition generic_field (f : InlineField) (st : DecodeState) : Result DecodeState :=
  let tag := if_tag f in
  let value := field_value bytes f in
  let field_def := find_field dictionary tag in
  let group_def :=
    match ds_message_def st with
    | Some m => if message_rule_allows_tag dictionary m tag then find_group dictionary tag else None
    | None => None
    end in
  let field_type := ResolveFieldTypeWithDef tag field_def in
  let rules := match ds_message_def st with Some m => message_field_rules dictionary m | None => [] end in
  let '(scope, issue) :=
    ValidateConsumedField dictionary tag rules (match ds_message_def st with Some m => message_rule_index dictionary m tag | None => -1 end)
      true (match ds_message_def st with Some _ => true | None => false end) "message" field_def
      (match group_def with Some _ => ValidationIssueKind.kNone | None => ValidationIssueKind.kTagSpecifiedOutOfRequiredOrder end)
      (ds_scope st) (ds_issue st) in
  let issue := ValidateScalarFieldValue tag value field_type issue in
  let st := append_root (inline_slot f field_type) (set_issue issue (set_scope scope st)) in
  match group_def with
  | Some g =>
      match ParseParsedGroupEntries has_sse2 dictionary bytes delimiter root_levels value g RootContainer
              (MkGroupState (if_next_pos f) (ds_parsed st) (ds_issue st)) with
      | Error e => Error e
      | Value gs => Value (set_pos (gs_pos gs) (set_issue (gs_issue gs) (set_parsed (gs_parsed gs) st)))
      end
  | None => Value (set_pos (if_next_pos f) st)
  end.

(** Appends a slot to the root by either function; [text] reports a duplicate. *)
Definition append_checked (append : ParsedFieldSlot -> ParsedMessageData -> bool * ParsedMessageData) (slot : ParsedFieldSlot)
    (text : option string) (st : DecodeState) : DecodeState :=
  let '(duplicate, parsed) := append slot (ds_parsed st) in
  let st := set_parsed parsed st in
  match text with
  | Some text => if duplicate then set_issue (SetValidationIssue ValidationIssueKind.kDuplicateField (ps_tag slot) text (ds_issue st)) st else st
  | None => st
  end.

Definition appears_twice (tag : Z) : string := "field " +:+ pretty tag +:+ " appears more than once".

Definition compiled_field (f : InlineField) (st : DecodeState) : Result DecodeState :=
  let tag := if_tag f in
  let value := field_value bytes f in
  match ds_compiled st with
  | None => Value (set_pos (if_next_pos f) (append_root (inline_slot f kFieldString) st))
  | Some compiled =>
      if is_header_tag tag
      then Value (set_pos (if_next_pos f) (append_checked (AppendParsedFieldSlot RootContainer) (inline_slot f (ResolveFieldTypeWithDef tag None)) (Some "") st))
      else
        let slot_idx := lookup_slot compiled tag in
        if slot_idx =? kInvalidSlot
        then
          let st :=
            match find_field dictionary tag with
            | None => set_issue (SetValidationIssue ValidationIssueKind.kUnknownField tag
                                   ("field " +:+ pretty tag +:+ " is not present in the bound dictionary") (ds_issue st)) st
            | Some _ => set_issue (SetValidationIssue ValidationIssueKind.kFieldNotAllowed tag
                                     ("field " +:+ pretty tag +:+ " is not allowed by the bound message definition") (ds_issue st)) st
            end in
          Value (set_pos (if_next_pos f) (append_checked AppendParsedFieldSlotFast (inline_slot f kFieldString) None st))
        else
          match slots_ compiled !! Z.to_nat slot_idx with
          | None => Error undefined_behaviour
          | Some cs =>
              let st := set_issue (ValidateScalarFieldValue tag value (cs_field_type cs) (ds_issue st)) st in
              match cs_group_def cs with
              | Some g =>
                  let st := append_checked AppendParsedFieldSlotFast (inline_slot f (cs_field_type cs)) (Some (appears_twice tag)) st in
                  match ParseParsedGroupEntries has_sse2 dictionary bytes delimiter root_levels value g RootContainer
                          (MkGroupState (if_next_pos f) (ds_parsed st) (ds_issue st)) with
                  | Error e => Error e
                  | Value gs => Value (set_pos (gs_pos gs) (set_issue (gs_issue gs) (set_parsed (gs_parsed gs) st)))
                  end
              | None =>
                  let '(scope, issue) := TrackRuleOrder slot_idx tag ValidationIssueKind.kTagSpecifiedOutOfRequiredOrder (ds_scope st) (ds_issue st) in
                  let st := set_issue issue (set_scope scope st) in
                  Value (set_pos (if_next_pos f) (append_checked AppendParsedFieldSlotFast (inline_slot f (cs_field_type cs)) (Some (appears_twice tag)) st))
              end
          end
  end.

(** [while (byte_pos < bytes.size())]; the checksum field ends it. *)
Fixpoint decode_loop (on_msg_type on_field : InlineField -> DecodeState -> Result DecodeState) (fuel : nat) (st : DecodeState) : Result DecodeState :=
  match fuel with
  | O => Error diverges
  | S fuel =>
      if (length bytes <=? ds_pos st)%nat then Value st
      else
        match ScanNextField has_sse2 bytes (ds_pos st) delimiter with
        | Error e => Error e
        | Value f =>
            let st := count_scanned st in
            let tag := if_tag f in
            let value := field_value bytes f in
            if tag =? tags.kCheckSum
            then match ParseUnsigned value "CheckSum" with
                 | Error e => Error e
                 | Value n => Value (set_pos (if_next_pos f) (see_checksum (if_start_offset f) (set_header (with_checksum n (ds_header st)) st)))
                 end
            else if ShouldSkipField tag then decode_loop on_msg_type on_field fuel (set_pos (if_next_pos f) st)
            else if tag =? tags.kMsgType
            then match on_msg_type f st with
                 | Error e => Error e
                 | Value st => decode_loop on_msg_type on_field fuel st
                 end
            else
              match extract_header tag value (ds_header st) with
              | Error e => Error e
              | Value h =>
                  match on_field f (set_header h st) with
                  | Error e => Error e
                  | Value st => decode_loop on_msg_type on_field fuel st
                  end
              end
        end
  end.

(** The checks behind the loop.  The byte sum is written out there the way
    [ComputeChecksumSIMD] computes it. *)
Definition finish_decode (verify_checksum : bool) (body_length : Z) (body_start : nat) (st : DecodeState) : Result DecodedFrame :=
  if negb (ds_pos st =? length bytes)%nat then Error (status.FormatError "FIX frame has trailing data after CheckSum")
  else if ds_field_count st <? 4 then Error (status.FormatError "FIX frame is too short")
  else
    match ds_checksum st with
    | None => Error kBadStructure
    | Some start =>
        if negb (body_length =? Z.of_nat (start - body_start)) then Error (status.FormatError "BodyLength mismatch")
        else if verify_checksum && negb (ComputeChecksumSIMD has_sse2 (take start bytes) mod 256 =? h_checksum (ds_header st))
        then Error (status.FormatError "CheckSum mismatch")
        else Value (MkDecodedFrame (ds_parsed st) (ds_header st) (ds_issue st))
    end.

Definition decode_frame (on_msg_type on_field : InlineField -> DecodeState -> Result DecodeState) (verify_checksum : bool) (output : ParsedMessageData)
    : Result DecodedFrame :=
  let parsed := PrepareDecodeOutput output in
  match decode_prefix with
  | Error e => Error e
  | Value (begin_string, body_length, body_start) =>
      match decode_loop on_msg_type on_field (S (length bytes)) (start_state parsed begin_string body_length body_start) with
      | Error e => Error e
      | Value st => finish_decode verify_checksum body_length body_start st
      end
  end.

Definition DecodeFixMessageView (verify_checksum : bool) (output : ParsedMessageData) : Result DecodedFrame :=
  decode_frame generic_msg_type generic_field verify_checksum output.

Definition DecodeFixMessageViewCompiled (table : CompiledDecoderTable) (verify_checksum : bool) (output : ParsedMessageData) : Result DecodedFrame :=
  decode_frame (compiled_msg_type table) compiled_field verify_checksum output.
End Frames.
