(* ===== verification/DecoderProofs.v ===== *)
(** * The decoder: theorems

    What the field scanner accepts, that decoding terminates without undefined
    behaviour and accepts only framed messages, that every slot lies inside the
    frame, and the corners in which the representation loses a field. *)
From S2P Require Import Prelude Base StdAlgo BitTable SortSearch IntFormat Scan FixTags Wire Message NormalizedDictionary ParsedMessage Decoder.
Open Scope Z_scope.

(** ** Lemmas: scanning *)

Lemma scalar_loop_le test l : (scalar_loop test l <= length l)%nat.
Proof. induction l as [|b l IH]; cbn; [done|]. destruct (test b); lia. Qed.

Lemma scalar_loop_app test l r :
  scalar_loop test (l ++ r) = if (scalar_loop test l =? length l)%nat then (length l + scalar_loop test r)%nat else scalar_loop test l.
Proof. induction l as [|b l IH]; cbn -[Nat.eqb]; [done|]. destruct (test b); [done|]. rewrite IH. cbn. by destruct (_ =? _)%nat. Qed.

Lemma find_delimiter_scalar sse v d : find_delimiter sse v d = scalar_loop (fun b => b =? d) v.
Proof.
  unfold find_delimiter, FindByteShortScalar. rewrite FindByte_scalar. set (n := Nat.min _ _). rewrite <- (take_drop n v) at 4.
  assert (Hn : length (take n v) = n) by (rewrite length_take; unfold n; lia). by rewrite scalar_loop_app, Hn.
Qed.

(** The text up to a delimiter, or all of it. *)
Lemma scalar_loop_split d v : let n := scalar_loop (fun b => b =? d) v in
  d ∉ take n v /\ (n = length v \/ v !! n = Some d).
Proof.
  cbn zeta. induction v as [|b v [IH1 IH2]]; cbn; [split; [apply not_elem_of_nil|by left]|].
  destruct (Z.eqb_spec b d) as [->|Hne]; cbn; [split; [apply not_elem_of_nil|by right]|]. split; [set_solver|].
  destruct IH2 as [IH2|IH2]; [left; lia|by right].
Qed.

Lemma scalar_loop_found d v r : d ∉ v -> scalar_loop (fun b => b =? d) (v ++ d :: r) = length v.
Proof. apply scalar_loop_absent. Qed.

(** ** Lemmas: tags *)

Lemma digitb_iff c : digitb c = true <-> is_digit c.
Proof. unfold digitb, is_digit. rewrite andb_true_iff, !Z.leb_le. done. Qed.

Lemma ParseTagInline_digits ds : (1 <= length ds <= 5)%nat -> Forall is_digit ds -> ParseTagInline ds = numeral_value ds.
Proof.
  intros Hl Hd. assert (Hb : Forall (fun c => digitb c = true) ds) by (eapply Forall_impl; [exact Hd|]; intros c; apply digitb_iff).
  destruct ds as [|a [|b [|c [|e [|f [|? ?]]]]]]; cbn in Hl; try lia; rewrite ?Forall_cons in Hb;
    unfold ParseTagInline, numeral_value; cbn [fold_left]; destruct_and?; repeat match goal with H : digitb _ = true |- _ => rewrite H; clear H end; cbn [andb]; lia.
Qed.

Lemma ParseTagInline_nonzero data : ParseTagInline data <> 0 -> (1 <= length data <= 5)%nat /\ Forall is_digit data.
Proof.
  unfold ParseTagInline. destruct data as [|a [|b [|c [|e [|f [|? ?]]]]]]; try done;
    (match goal with |- context [if ?b then _ else _] => destruct b eqn:E end; [|done]); intros _; cbn [length]; split; try lia;
    rewrite ?andb_true_iff in E; destruct_and?; repeat constructor; by apply digitb_iff.
Qed.

Lemma tag_range ds : (1 <= length ds <= 5)%nat -> Forall is_digit ds -> 0 <= numeral_value ds < 100000.
Proof.
  intros Hl Hd. unfold is_digit in Hd. destruct ds as [|a [|b [|c [|e [|f [|? ?]]]]]]; cbn in Hl; try lia; rewrite ?Forall_cons in Hd;
    unfold numeral_value; cbn [fold_left]; lia.
Qed.

Lemma numeral_nonneg ds : Forall is_digit ds -> 0 <= numeral_value ds.
Proof.
  induction ds as [|c ds IH] using rev_ind; [done|]. rewrite numeral_value_snoc. intros [H1 H2]%Forall_app. apply Forall_cons in H2 as [H2 _].
  specialize (IH H1). unfold is_digit in H2. lia.
Qed.

(** The loop for the equals sign, on a tag that is followed by one. *)
Lemma equals_loop_tag fuel d ds rest n : Forall is_digit ds -> d <> kEquals -> ~ is_digit d -> (length ds < fuel)%nat ->
  equals_loop fuel d (ds ++ kEquals :: rest) n = inr (n + length ds)%nat.
Proof.
  intros Hd H1 H2. revert fuel n. induction Hd as [|c ds Hc Hd IH]; intros fuel n Hf; (destruct fuel as [|fuel]; [cbn in Hf; lia|]); cbn.
  - by rewrite Nat.add_0_r.
  - destruct (Z.eqb_spec c kEquals) as [->|]; [unfold is_digit, kEquals in Hc; lia|]. destruct (Z.eqb_spec c d) as [->|]; [done|].
    cbn in Hf. rewrite IH by lia. f_equal. lia.
Qed.

Lemma equals_loop_inr fuel d rest : forall n e, equals_loop fuel d rest n = inr e -> (n <= e <= n + fuel)%nat.
Proof.
  revert rest. induction fuel as [|fuel IH]; intros rest n e He; cbn in He; [injection He as <-; lia|].
  destruct rest as [|b rest]; [injection He as <-; lia|]. destruct (b =? kEquals); [injection He as <-; lia|]. destruct (b =? d); [done|].
  apply IH in He. lia.
Qed.

Lemma lookup_nth_lt {A} (l : list A) n x : (n < length l)%nat -> l !! n = Some (nth n l x).
Proof. revert n. induction l as [|y l IH]; intros [|n] H; cbn in *; try lia; [done|]. apply IH. lia. Qed.

(** The text of a field. *)
Definition field_text (ds value : list Z) (d : Z) : list Z := ds ++ [kEquals] ++ value ++ [d].

Definition scanned (ds value : list Z) (pos : nat) : InlineField :=
  MkInline (numeral_value ds) pos (pos + length ds + 1) (length value) (pos + length ds + 1 + length value + 1).

Definition tag_text (ds : list Z) : Prop := (1 <= length ds <= 5)%nat /\ Forall is_digit ds /\ numeral_value ds <> 0.

Lemma scan_sound sse bytes pos d f : ScanNextField sse bytes pos d = Value f ->
  exists ds value rest, drop pos bytes = field_text ds value d ++ rest /\ tag_text ds /\ d ∉ value /\ f = scanned ds value pos.
Proof.
  unfold ScanNextField. destruct (Nat.leb_spec (length bytes) pos); [discriminate|]. set (r := drop pos bytes).
  destruct (equals_loop 6 d r 0) as [[|k]|e] eqn:Ee; [discriminate|discriminate|].
  destruct (Nat.leb_spec (length r) e); [discriminate|]. destruct (Nat.eqb_spec e 0) as [|He0]; [discriminate|].
  destruct ((5 <? e)%nat || _) eqn:E5; [discriminate|]. apply orb_false_iff in E5 as [E5 Eq]. apply Nat.ltb_ge in E5. apply negb_false_iff, Z.eqb_eq in Eq.
  rewrite find_delimiter_scalar. replace (pos + e + 1)%nat with (pos + (e + 1))%nat by lia. rewrite <- drop_drop. fold r.
  set (v := drop (e + 1) r). destruct (scalar_loop_split d v) as [Hv1 Hv2]. cbn zeta in *. set (n := scalar_loop (fun b => b =? d) v) in *.
  destruct (Nat.leb_spec (length bytes) (pos + (e + 1) + n)) as [|Hn]; [discriminate|].
  destruct (Z.eqb_spec (ParseTagInline (take e r)) 0) as [|Ht]; [discriminate|]. intros [= <-].
  assert (Hlr : length r = (length bytes - pos)%nat) by apply length_drop. assert (Hlv : length v = (length r - (e + 1))%nat) by apply length_drop.
  destruct Hv2 as [Hv2|Hv2]; [lia|]. destruct (ParseTagInline_nonzero _ Ht) as [Hlen Hdig].
  assert (Hte : length (take e r) = e) by (rewrite length_take; lia). assert (Hnv : length (take n v) = n) by (rewrite length_take; apply lookup_lt_Some in Hv2; lia).
  rewrite ParseTagInline_digits in Ht |- * by done.
  exists (take e r), (take n v), (drop (S n) v). split; [|split; [exact (conj Hlen (conj Hdig Ht))|split; [exact Hv1|]]].
  - unfold field_text. rewrite <- !app_assoc. cbn. rewrite <- (take_drop e r) at 1. f_equal.
    assert (Hre : r !! e = Some kEquals) by (rewrite <- Eq; by apply lookup_nth_lt).
    rewrite (drop_S r kEquals e Hre). f_equal. replace (S e) with (e + 1)%nat by lia. fold v. rewrite <- (take_drop n v) at 1. f_equal.
    by rewrite (drop_S v d n Hv2).
  - unfold scanned. rewrite Hte, Hnv. f_equal; lia.
Qed.

Lemma scan_complete sse bytes pos d ds value rest : d <> kEquals -> ~ is_digit d ->
  drop pos bytes = field_text ds value d ++ rest -> tag_text ds -> d ∉ value -> ScanNextField sse bytes pos d = Value (scanned ds value pos).
Proof.
  intros H1 H2 Hr (Hl & Hd & Hnz) Hv. assert (Hlen : length (drop pos bytes) = (length (field_text ds value d) + length rest)%nat) by (by rewrite Hr, length_app).
  assert (Hft : length (field_text ds value d) = (length ds + length value + 2)%nat) by (unfold field_text; rewrite !length_app; cbn; lia).
  rewrite length_drop, Hft in Hlen. unfold ScanNextField. destruct (Nat.leb_spec (length bytes) pos); [lia|].
  assert (Hsplit : drop pos bytes = ds ++ kEquals :: (value ++ d :: rest)) by (rewrite Hr; unfold field_text; by rewrite <- !app_assoc).
  rewrite Hsplit, (equals_loop_tag 6 d ds _ 0) by (done || lia). rewrite length_app. cbn [Nat.add length].
  destruct (Nat.leb_spec (length ds + S (length (value ++ d :: rest))) (length ds)); [lia|]. destruct (Nat.eqb_spec (length ds) 0); [lia|].
  destruct (Nat.ltb_spec 5 (length ds)); [lia|]. rewrite app_nth2, Nat.sub_diag by lia. cbn [nth orb]. rewrite Z.eqb_refl. cbn [negb].
  assert (Hafter : drop (pos + length ds + 1) bytes = value ++ d :: rest).
  { replace (pos + length ds + 1)%nat with (pos + (length ds + 1))%nat by lia. rewrite <- drop_drop, Hsplit.
    change (kEquals :: value ++ d :: rest) with ([kEquals] ++ value ++ d :: rest). rewrite app_assoc. apply drop_app_length'. rewrite length_app. cbn. lia. }
  rewrite Hafter, find_delimiter_scalar, scalar_loop_found by done. destruct (Nat.leb_spec (length bytes) (pos + length ds + 1 + length value)); [lia|].
  rewrite take_app_length, ParseTagInline_digits by done. destruct (Z.eqb_spec (numeral_value ds) 0); [done|]. unfold scanned. repeat f_equal; lia.
Qed.

Lemma field_value_scanned bytes pre ds value d rest : bytes = pre ++ field_text ds value d ++ rest -> field_value bytes (scanned ds value (length pre)) = value.
Proof.
  intros ->. unfold field_value, scanned, slice, field_text. cbn [if_value_offset if_value_length].
  assert (Hb : pre ++ (ds ++ [kEquals] ++ value ++ [d]) ++ rest = (pre ++ ds ++ [kEquals]) ++ value ++ [d] ++ rest) by (by rewrite <- !app_assoc).
  rewrite Hb, drop_app_length' by (rewrite !length_app; cbn; lia). apply take_app_length.
Qed.

(** ** Lemmas: how far parsing gets *)

(** An error the input is to blame for; running out of fuel and undefined behaviour
    are none. *)
Definition input_error (e : Status) : Prop := code e = kFormatError \/ code e = kInvalidArgument.

Lemma whole_error {A} text (p : option (A * nat)) label e : whole text p label = Error e -> input_error e.
Proof. unfold whole. destruct p as [[v n]|]; [destruct (_ =? _)%nat; [done|]|]; intros [= <-]; by right. Qed.

Lemma parse_boolean_error text label e : ParseBoolean text label = Error e -> input_error e.
Proof. unfold ParseBoolean. intros Hx. repeat (case_match; try done); injection Hx as <-; by right. Qed.

Lemma scan_error sse bytes pos d e : ScanNextField sse bytes pos d = Error e -> input_error e.
Proof.
  unfold ScanNextField. destruct (_ <=? _)%nat; [intros [= <-]; by left|].
  destruct (equals_loop 6 d _ 0) as [[|?]|n]; [intros [= <-]; by left..|].
  repeat match goal with |- context [if ?b then _ else _] => destruct b end; intros [=]; subst; by left.
Qed.

(** What a scanned field tells about its position. *)
Lemma scan_next sse bytes pos d f : ScanNextField sse bytes pos d = Value f ->
  if_start_offset f = pos /\ (pos + 2 <= if_value_offset f /\ if_next_pos f = if_value_offset f + if_value_length f + 1 /\ if_next_pos f <= length bytes)%nat.
Proof.
  intros Hs. pose proof Hs as (ds & value & rest & Hr & (Hl & _) & _ & ->)%scan_sound. cbn. split; [done|].
  assert (Hlen : length (drop pos bytes) = length (field_text ds value d ++ rest)) by (by rewrite Hr).
  rewrite length_drop, length_app in Hlen. unfold field_text in Hlen. rewrite !length_app in Hlen. cbn in Hlen. lia.
Qed.

Section Total.
Context `{FloatText} (sse : bool) (dict : NormalizedDictionaryView) (bytes : list Z) (d : Z).

(** A result at a position from [p] on, or an error of the input. *)
Definition reaches {A} (at_pos : A -> nat) (p : nat) (r : Result A) : Prop :=
  match r with Value a => (p <= at_pos a <= length bytes)%nat | Error e => input_error e end.

Lemma reaches_weaken {A} (at_pos : A -> nat) p q r : (p <= q)%nat -> reaches at_pos q r -> reaches at_pos p r.
Proof. destruct r as [a|e]; cbn; [lia|done]. Qed.

Definition nested_total (nested : ParseGroup) : Prop :=
  forall v g c st, (gs_pos st <= length bytes)%nat -> reaches gs_pos (gs_pos st) (nested v g c st).

Lemma group_fields_total nested : nested_total nested -> forall fuel g c seen scope deferred st,
  (gs_pos st <= length bytes < gs_pos st + fuel)%nat ->
  reaches (fun r => gs_pos r.1) (gs_pos st) (group_fields_loop sse dict bytes d nested fuel g c seen scope deferred st).
Proof.
  intros Hn fuel. induction fuel as [|fuel IH]; intros g c seen scope deferred st Hf; [lia|]. cbn [group_fields_loop].
  destruct (Nat.leb_spec (length bytes) (gs_pos st)); [cbn; lia|].
  destruct (ScanNextField sse bytes (gs_pos st) d) as [f|e] eqn:Es; [|by eapply scan_error].
  pose proof (scan_next _ _ _ _ _ Es) as (_ & Hv & Hnext & Hle).
  destruct (seen && _); [cbn; lia|]. destruct (_ <? 0); [cbn; lia|]. destruct (ValidateConsumedField _ _ _ _ _ _ _ _ _ _ _) as [scope' issue].
  destruct (find_group dict (if_tag f)) as [ng|].
  - match goal with |- context [nested ?v ng ?c ?s] => set (st1 := s); pose proof (Hn v ng c st1 ltac:(cbn; lia)) as Hr end.
    destruct (nested _ ng c st1) as [st2|e]; [|done]. cbn in Hr. eapply reaches_weaken; [|apply IH]; cbn; lia.
  - eapply reaches_weaken; [|apply IH]; cbn; lia.
Qed.

Lemma group_entries_total nested : nested_total nested -> forall remaining i g frame st, (gs_pos st <= length bytes)%nat ->
  reaches gs_pos (gs_pos st) (group_entries_loop sse dict bytes d nested remaining i g frame st).
Proof.
  intros Hn remaining. induction remaining as [|remaining IH]; intros i g frame st Hf; [cbn; lia|]. cbn [group_entries_loop].
  destruct (Nat.leb_spec (length bytes) (gs_pos st)); [cbn; lia|].
  destruct (ScanNextField sse bytes (gs_pos st) d) as [f|e] eqn:Es; [|by eapply scan_error].
  destruct (negb _); [cbn; lia|]. destruct (AppendParsedEntry frame (gs_parsed st)) as [ei parsed].
  match goal with |- context [group_fields_loop _ _ _ _ _ ?fu ?g ?c ?s ?sc ?df ?st] =>
    pose proof (group_fields_total nested Hn fu g c s sc df st ltac:(cbn; lia)) as Hr; destruct (group_fields_loop _ _ _ _ _ fu g c s sc df st) as [[st2 def]|e] end;
    [|done]. cbn in Hr. eapply reaches_weaken; [|apply IH]; cbn; lia.
Qed.

Lemma parse_groups_total levels : nested_total (ParseParsedGroupEntries sse dict bytes d levels).
Proof.
  induction levels as [|levels IH]; intros v g c st Hf; cbn [ParseParsedGroupEntries].
  all: destruct (ParseUnsigned v "group count") as [n|e] eqn:Eu; [|by eapply whole_error].
  all: destruct (n >? kMaxGroupEntryCount); [by left|]. { by left. }
  destruct (EnsureParsedGroup c (count_tag g) _ (gs_parsed st)) as [fi parsed]. by apply (group_entries_total _ IH _ _ _ _ (MkGroupState (gs_pos st) parsed (gs_issue st))).
Qed.

(** ** Lemmas: the main loop *)

(** A step over the field [f] that keeps [J] and does not go back. *)
Definition step_keeps (J : DecodeState -> Prop) (f : InlineField) (r : Result DecodeState) : Prop :=
  match r with
  | Value st => J st /\ (if_next_pos f <= ds_pos st <= length bytes)%nat
  | Error e => input_error e
  end.

(** How the loop ends: behind the last byte, or with the checksum field. *)
Definition loop_end (J : DecodeState -> Prop) (st : DecodeState) : Prop :=
  J st /\ ds_pos st = length bytes \/
  exists st0 f n, J st0 /\ ScanNextField sse bytes (ds_pos st0) d = Value f /\ if_tag f = tags.kCheckSum /\
    ParseUnsigned (field_value bytes f) "CheckSum" = Value n /\
    st = set_pos (if_next_pos f) (see_checksum (if_start_offset f) (set_header (with_checksum n (ds_header st0)) (count_scanned st0))).

Lemma extract_header_error tag value h e : extract_header tag value h = Error e -> input_error e.
Proof.
  unfold extract_header. repeat match goal with |- (if ?b then _ else _) = _ -> _ => destruct b end; try done.
  - destruct (ParseUnsigned value _) eqn:E; intros [=]; subst. by eapply whole_error.
  - destruct (ParseBoolean value _) eqn:E; intros [=]; subst. by eapply parse_boolean_error.
  - destruct (ParseBoolean value _) eqn:E; intros [=]; subst. by eapply parse_boolean_error.
Qed.

Lemma decode_loop_rule (J : DecodeState -> Prop) on_msg on_field :
  (forall f st, J st -> ScanNextField sse bytes (ds_pos st) d = Value f -> if_tag f = tags.kMsgType ->
     step_keeps J f (on_msg f (count_scanned st))) ->
  (forall f st h, J st -> ScanNextField sse bytes (ds_pos st) d = Value f -> if_tag f <> tags.kMsgType -> if_tag f <> tags.kCheckSum ->
     extract_header (if_tag f) (field_value bytes f) (ds_header st) = Value h -> step_keeps J f (on_field f (set_header h (count_scanned st)))) ->
  (forall f st, J st -> ScanNextField sse bytes (ds_pos st) d = Value f -> ShouldSkipField (if_tag f) = true ->
     J (set_pos (if_next_pos f) (count_scanned st))) ->
  forall fuel st, J st -> (ds_pos st <= length bytes < ds_pos st + fuel)%nat ->
  match decode_loop sse bytes d on_msg on_field fuel st with Value st' => loop_end J st' | Error e => input_error e end.
Proof.
  intros Hm Hfi Hsk fuel. induction fuel as [|fuel IH]; intros st HJ Hf; [lia|]. cbn [decode_loop].
  destruct (Nat.leb_spec (length bytes) (ds_pos st)); [left; split; [done|lia]|].
  destruct (ScanNextField sse bytes (ds_pos st) d) as [f|e] eqn:Es; [|by eapply scan_error].
  pose proof (scan_next _ _ _ _ _ Es) as (_ & Hv & Hnext & Hle).
  destruct (Z.eqb_spec (if_tag f) tags.kCheckSum) as [Et|Hnc].
  { destruct (ParseUnsigned _ _) as [n|e] eqn:Eu; [|by eapply whole_error]. right. exists st, f, n. by repeat split. }
  destruct (ShouldSkipField (if_tag f)) eqn:Esk; [apply IH; [by apply Hsk|cbn; lia]|].
  destruct (Z.eqb_spec (if_tag f) tags.kMsgType) as [Et|Hnm].
  { pose proof (Hm f st HJ Es Et) as Hk. destruct (on_msg f _) as [st'|e]; [|done]. destruct Hk. apply IH; [done|lia]. }
  destruct (extract_header _ _ _) as [h|e] eqn:Eh; [|by eapply extract_header_error].
  pose proof (Hfi f st h HJ Es Hnm Hnc Eh) as Hk. destruct (on_field f _) as [st'|e]; [|done]. destruct Hk. apply IH; [done|lia].
Qed.
End Total.

(** ** Lemmas: precompiled decoders *)

Definition compile_rule (dict : NormalizedDictionaryView) (r : FieldRuleRecord) : CompiledFieldSlot :=
  MkCompiledSlot (fr_tag r) (match find_field dict (fr_tag r) with Some f => FieldTypeFromDef f | None => kFieldString end) (find_group dict (fr_tag r)).

(** The rules a decoder has slots for. *)
Definition compiled_rules (dict : NormalizedDictionaryView) (m : MessageDefRecord) : list FieldRuleRecord :=
  List.filter (fun r => negb (is_header_tag (fr_tag r))) (message_field_rules dict m).

(** Slot [i] is in use and has a tag that satisfies [p]. *)
Definition names_slot (c : CompiledMessageDecoder) (i : Z) (p : Z -> Prop) : Prop :=
  exists n s, i = Z.of_nat n /\ slots_ c !! n = Some s /\ p (cs_tag s).

Record compiled_ok (c : CompiledMessageDecoder) : Prop := {
  co_length : Z.of_nat (length (slots_ c)) <= kMaxSlots;
  co_table p i : tag_table_ c !! p = Some i -> names_slot c i (fun t => Z.land t 255 = p);
  co_overflow t i : (t, i) ∈ overflow_ c -> names_slot c i (eq t);
  co_complete n s : overflow_exceeded_ c = false -> slots_ c !! n = Some s ->
    tag_table_ c !! Z.land (cs_tag s) 255 = Some (Z.of_nat n) \/ (cs_tag s, Z.of_nat n) ∈ overflow_ c;
}.

Lemma names_slot_snoc c c' i p s : slots_ c' = slots_ c ++ [s] -> names_slot c i p -> names_slot c' i p.
Proof. intros Hc (n & s' & -> & Hn & Hp). exists n, s'. rewrite Hc. by rewrite lookup_app_l by (by eapply lookup_lt_Some). Qed.

Lemma names_slot_last c c' p s : slots_ c' = slots_ c ++ [s] -> p (cs_tag s) -> names_slot c' (Z.of_nat (length (slots_ c))) p.
Proof. intros Hc Hp. exists (length (slots_ c)), s. rewrite Hc. by rewrite list_lookup_middle. Qed.

Lemma names_slot_range c i p : compiled_ok c -> names_slot c i p -> 0 <= i < 128.
Proof. intros Hc (n & s & -> & Hn%lookup_lt_Some & _). pose proof (co_length c Hc). unfold kMaxSlots in *. lia. Qed.

Lemma build_slot_slots dict r c : slots_ (build_slot dict r c) = slots_ c ++ [compile_rule dict r].
Proof. unfold build_slot. destruct (_ =? kInvalidSlot); [done|]. by destruct (_ <? 16)%nat. Qed.

Lemma build_slot_ok dict r c : compiled_ok c -> Z.of_nat (length (slots_ c)) < kMaxSlots -> compiled_ok (build_slot dict r c).
Proof.
  intros Hc Hlt. pose proof (build_slot_slots dict r c) as Hs. set (c' := build_slot dict r c) in *. set (s := compile_rule dict r) in *.
  assert (Htab : tag_table_ c' = <[Z.land (cs_tag s) 255 := Z.of_nat (length (slots_ c))]> (tag_table_ c) /\ overflow_ c' = overflow_ c /\
                   overflow_exceeded_ c' = overflow_exceeded_ c /\ tag_table_ c !! Z.land (cs_tag s) 255 = None \/
                 tag_table_ c' = tag_table_ c /\
                   (overflow_ c' = overflow_ c ++ [(cs_tag s, Z.of_nat (length (slots_ c)))] \/ overflow_ c' = overflow_ c /\ overflow_exceeded_ c' = true) /\
                   (overflow_exceeded_ c' = false -> overflow_exceeded_ c = false)).
  { subst c' s. unfold build_slot. cbn -[Nat.ltb]. destruct (tag_table_ c !! Z.land (fr_tag r) 255) as [i|] eqn:Et; cbn -[Nat.ltb].
    - pose proof (names_slot_range c i _ Hc (co_table c Hc _ _ Et)). destruct (Z.eqb_spec i kInvalidSlot); [unfold kInvalidSlot in *; lia|].
      right. destruct (length (overflow_ c) <? 16)%nat; cbn; (split; [done|]); (split; [auto|done]).
    - left. done. }
  split.
  - rewrite Hs, length_app. cbn. lia.
  - intros p i Hi. destruct Htab as [(-> & _)|(Ht & _)] in Hi; [|rewrite Ht in Hi; eapply names_slot_snoc; [done|by apply (co_table c Hc)]].
    destruct (decide (p = Z.land (cs_tag s) 255)) as [->|Hne].
    + rewrite lookup_insert_eq in Hi. injection Hi as <-. by eapply names_slot_last.
    + rewrite lookup_insert_ne in Hi by done. eapply names_slot_snoc; [done|by apply (co_table c Hc)].
  - intros t i Hi. assert (Hor : (t, i) ∈ overflow_ c \/ t = cs_tag s /\ i = Z.of_nat (length (slots_ c))).
    { destruct Htab as [(_ & Ho & _)|(_ & [Ho|[Ho _]] & _)]; rewrite Ho in Hi; [by left| |by left].
      apply elem_of_app in Hi as [Hi|Hi%list_elem_of_singleton]; [by left|right; by injection Hi]. }
    destruct Hor as [Hin|[-> ->]]; [eapply names_slot_snoc; [done|by apply (co_overflow c Hc)]|by eapply names_slot_last].
  - intros n x He Hn. rewrite Hs in Hn. apply lookup_snoc_Some in Hn as [[Hn Hx]|[Hn <-]].
    + assert (He' : overflow_exceeded_ c = false) by (destruct Htab as [(_ & _ & <- & _)|(_ & _ & Hf)]; auto).
      destruct (co_complete c Hc n x He' Hx) as [Ht|Ht].
      * left. destruct Htab as [(-> & _ & _ & Hfree)|(-> & _)]; [|done]. rewrite lookup_insert_ne; [done|]. congruence.
      * right. destruct Htab as [(_ & -> & _)|(_ & [->|[-> _]] & _)]; set_solver.
    + subst n. destruct Htab as [(-> & _)|(_ & [->|[_ Hx]] & _)]; [left; by rewrite lookup_insert_eq|right; set_solver|congruence].
Qed.

Lemma compiled_ok_empty : compiled_ok (MkCompiled ∅ [] [] false).
Proof. split; cbn; [done|by intros p i ?%lookup_empty_Some|intros t i Hx; by apply not_elem_of_nil in Hx|intros n s _ Hx; by rewrite lookup_nil in Hx]. Qed.

Lemma build_slots_spec dict rules : forall c, compiled_ok c ->
  compiled_ok (build_slots dict rules c) /\
  slots_ (build_slots dict rules c) =
    slots_ c ++ (compile_rule dict <$> take (Z.to_nat kMaxSlots - length (slots_ c)) (List.filter (fun r => negb (is_header_tag (fr_tag r))) rules)).
Proof.
  induction rules as [|r rules IH]; intros c Hc; cbn [build_slots List.filter]; [rewrite take_nil; cbn; by rewrite app_nil_r|].
  destruct (is_header_tag (fr_tag r)); cbn [negb]; [by apply IH|]. pose proof (co_length c Hc) as Hl. unfold kMaxSlots in *.
  destruct (Z.leb_spec 128 (Z.of_nat (length (slots_ c)))).
  - split; [done|]. replace (Z.to_nat 128 - length (slots_ c))%nat with 0%nat by lia. cbn. by rewrite app_nil_r.
  - destruct (IH (build_slot dict r c)) as [H1 H2]; [by apply build_slot_ok|]. split; [done|]. rewrite H2, build_slot_slots, <- app_assoc. f_equal.
    rewrite length_app. cbn [length]. replace (Z.to_nat 128 - length (slots_ c))%nat with (S (Z.to_nat 128 - (length (slots_ c) + 1)))%nat by lia. done.
Qed.

Lemma overflow_slot_spec l tag : overflow_slot l tag = kInvalidSlot /\ (forall i, (tag, i) ∈ l -> i = kInvalidSlot) \/ (tag, overflow_slot l tag) ∈ l.
Proof.
  induction l as [|[t i] l IH]; cbn; [left; split; [done|]; intros i Hi; by apply not_elem_of_nil in Hi|].
  destruct (Z.eqb_spec t tag) as [->|Hne]; [right; left|]. destruct IH as [[H1 H2]|IH]; [left|right; by right].
  split; [done|]. intros j [[= -> ->]|Hj]%elem_of_cons; [done|by apply H2].
Qed.

(** A slot index that is found has the tag. *)
Lemma lookup_slot_sound c tag : compiled_ok c -> lookup_slot c tag <> kInvalidSlot -> names_slot c (lookup_slot c tag) (eq tag).
Proof.
  intros Hc. unfold lookup_slot. set (idx := default kInvalidSlot (tag_table_ c !! Z.land tag 255)).
  destruct (negb (idx =? kInvalidSlot) && _) eqn:E.
  - intros Hne. apply andb_true_iff in E as [_ E]. destruct (tag_table_ c !! Z.land tag 255) as [i|] eqn:Et; [|done]. cbn in idx. subst idx.
    destruct (co_table c Hc _ _ Et) as (n & s & -> & Hn & _). rewrite Nat2Z.id, Hn in E. apply Z.eqb_eq in E. exists n, s. by split_and!.
  - intros Hne. destruct (overflow_slot_spec (overflow_ c) tag) as [[? _]|Hin]; [done|]. by apply (co_overflow c Hc).
Qed.

Lemma lookup_slot_complete c tag n s : compiled_ok c -> overflow_exceeded_ c = false -> slots_ c !! n = Some s -> cs_tag s = tag -> lookup_slot c tag <> kInvalidSlot.
Proof.
  intros Hc He Hn Ht. pose proof (lookup_lt_Some _ _ _ Hn) as Hlt. pose proof (co_length c Hc) as Hl. unfold kMaxSlots in Hl.
  destruct (co_complete c Hc n s He Hn) as [Htab|Hov]; rewrite Ht in *; unfold lookup_slot.
  - rewrite Htab. change (default kInvalidSlot (Some (Z.of_nat n))) with (Z.of_nat n); cbn zeta. rewrite Nat2Z.id, Hn, Ht, Z.eqb_refl. destruct (Z.eqb_spec (Z.of_nat n) kInvalidSlot); unfold kInvalidSlot in *; cbn; lia.
  - destruct (negb _ && _) eqn:E; [apply andb_true_iff in E as [E _]; by apply negb_true_iff, Z.eqb_neq in E|].
    destruct (overflow_slot_spec (overflow_ c) tag) as [[_ Hx]|Hx]; [specialize (Hx _ Hov); unfold kInvalidSlot in *; lia|].
    pose proof (names_slot_range c _ _ Hc (co_overflow c Hc _ _ Hx)). unfold kInvalidSlot. lia.
Qed.

Lemma build_ok dict m : compiled_ok (CompiledMessageDecoder_Build dict m).
Proof. apply build_slots_spec, compiled_ok_empty. Qed.

Lemma find_decoder_built {SA : SortAlgorithm de_msg_type} dict value c : find_decoder (CompiledDecoderTable_Build dict) value = Some c ->
  exists m, m ∈ message_defs_ dict /\ string_at (string_table_ dict) (msg_type_offset m) = Some value /\ c = CompiledMessageDecoder_Build dict m.
Proof.
  unfold find_decoder, CompiledDecoderTable_Build. set (l := omap _ _). pose proof (sort_find de_msg_type value l) as Hs.
  destruct (binary_find _ _ _) as [e|]; [|done]. intros [= <-]. destruct Hs as [Hin Hk].
  apply list_elem_of_omap in Hin as (m & Hm & He). destruct (string_at _ _) as [t|] eqn:Et; [|done]. injection He as <-. cbn in *. subst t. eauto.
Qed.

(** ** Lemmas: the steps of the main loop *)

Section Steps.
Context `{FloatText} (sse : bool) (dict : NormalizedDictionaryView) (bytes : list Z) (d : Z).

(** What the steps leave alone: the BeginString, the BodyLength and the place of the
    checksum. *)
Definition frame_core (st : DecodeState) : string * Z * option nat :=
  (h_begin_string (ds_header st), h_body_length (ds_header st), ds_checksum st).

(** The precompiled decoder in use was built by [Build]. *)
Definition decoder_built (st : DecodeState) : Prop := match ds_compiled st with Some c => compiled_ok c | None => True end.

Definition loop_inv (core : string * Z * option nat) (st : DecodeState) : Prop := frame_core st = core /\ decoder_built st /\ (ds_pos st <= length bytes)%nat.

(** A step over a scanned field from any state. *)
Definition good_step (step : InlineField -> DecodeState -> Result DecodeState) : Prop :=
  forall core f st, frame_core st = core -> decoder_built st -> (if_next_pos f <= length bytes)%nat -> step_keeps bytes (loop_inv core) f (step f st).

Lemma generic_msg_type_step : good_step (generic_msg_type dict bytes).
Proof. intros core f st Hc Hb Hn. unfold generic_msg_type. destruct (ValidateConsumedField _ _ _ _ _ _ _ _ _ _ _). by repeat split. Qed.

Lemma compiled_msg_type_step {SA : SortAlgorithm de_msg_type} : good_step (compiled_msg_type bytes (CompiledDecoderTable_Build dict)).
Proof.
  intros core f st Hc Hb Hn. unfold compiled_msg_type. repeat split; cbn; try done.
  unfold decoder_built. cbn. destruct (find_decoder _ _) as [c|] eqn:Ef; [|done]. destruct (overflow_exceeded_ c); [done|].
  apply find_decoder_built in Ef as (m & _ & _ & ->). apply build_ok.
Qed.

(** Parsing a group moves the position and the message only. *)
Lemma group_step core f st value g pos (Hpos : (if_next_pos f <= pos)%nat) : frame_core st = core -> decoder_built st -> (pos <= length bytes)%nat ->
  step_keeps bytes (loop_inv core) f
    match ParseParsedGroupEntries sse dict bytes d root_levels value g RootContainer (MkGroupState pos (ds_parsed st) (ds_issue st)) with
    | Error e => Error e
    | Value gs => Value (set_pos (gs_pos gs) (set_issue (gs_issue gs) (set_parsed (gs_parsed gs) st)))
    end.
Proof.
  intros Hc Hb Hp. pose proof (parse_groups_total sse dict bytes d root_levels value g RootContainer (MkGroupState pos (ds_parsed st) (ds_issue st)) Hp) as Hr.
  destruct (ParseParsedGroupEntries _ _ _ _ _ _ _ _ _) as [gs|e]; [|done]. cbn in Hr. repeat split; cbn; (done || lia).
Qed.

Lemma generic_field_step : good_step (generic_field sse dict bytes d).
Proof.
  intros core f st Hc Hb Hn. unfold generic_field. destruct (ValidateConsumedField _ _ _ _ _ _ _ _ _ _ _) as [scope issue].
  match goal with |- context [match ?o with Some _ => _ | None => Value _ end] => destruct o as [g|] end; [|by repeat split].
  by apply group_step.
Qed.

Lemma append_checked_core append slot text st : frame_core (append_checked append slot text st) = frame_core st /\
  ds_compiled (append_checked append slot text st) = ds_compiled st.
Proof. unfold append_checked. destruct (append slot (ds_parsed st)) as [dup p]. destruct text; [|done]. by destruct dup. Qed.

Lemma compiled_field_step : good_step (compiled_field sse dict bytes d).
Proof.
  intros core f st Hc Hb Hn. unfold compiled_field. destruct (ds_compiled st) as [c|] eqn:Ec; [|repeat split; try done; unfold decoder_built; cbn; by rewrite Ec].
  assert (Hok : compiled_ok c) by (unfold decoder_built in Hb; by rewrite Ec in Hb).
  assert (Hap : forall append slot text st', frame_core st' = core -> ds_compiled st' = Some c ->
    step_keeps bytes (loop_inv core) f (Value (set_pos (if_next_pos f) (append_checked append slot text st')))).
  { intros append slot text st' Hc' Hb'. destruct (append_checked_core append slot text st') as [H1 H2].
    repeat split; cbn; try (done || lia); [by rewrite <- Hc', <- H1|]. unfold decoder_built. cbn. by rewrite H2, Hb'. }
  destruct (is_header_tag (if_tag f)); [by apply Hap|]. destruct (Z.eqb_spec (lookup_slot c (if_tag f)) kInvalidSlot) as [|Hne].
  { destruct (find_field dict (if_tag f)); by apply Hap. }
  destruct (lookup_slot_sound c (if_tag f) Hok Hne) as (n & s & Hl & Hs & _). rewrite Hl, Nat2Z.id, Hs. destruct (cs_group_def s) as [g|].
  - match goal with |- context [append_checked ?a ?sl ?t ?s0] => destruct (append_checked_core a sl t s0) as [H1 H2] end.
    apply group_step; [done|by rewrite H1| |done]. unfold decoder_built. rewrite H2. cbn. by rewrite Ec.
  - destruct (TrackRuleOrder _ _ _ _ _) as [scope issue]. by apply Hap.
Qed.

Lemma extract_header_core tag value h h' : extract_header tag value h = Value h' -> h_begin_string h' = h_begin_string h /\ h_body_length h' = h_body_length h.
Proof.
  unfold extract_header. repeat match goal with |- (if ?b then _ else _) = _ -> _ => destruct b end;
    try (destruct (ParseUnsigned _ _)); try (destruct (ParseBoolean _ _)); intros [=]; subst; done.
Qed.

Lemma decode_loop_good on_msg on_field core start : good_step on_msg -> good_step on_field -> forall st, loop_inv core st -> (start <= ds_pos st)%nat ->
  match decode_loop sse bytes d on_msg on_field (S (length bytes)) st with
  | Value st' => loop_end sse bytes d (fun st => loop_inv core st /\ (start <= ds_pos st)%nat) st'
  | Error e => input_error e
  end.
Proof.
  intros Hm Hf st Hi Hstart.
  assert (Hk : forall f r, (start <= if_next_pos f)%nat -> step_keeps bytes (loop_inv core) f r ->
    step_keeps bytes (fun st => loop_inv core st /\ (start <= ds_pos st)%nat) f r).
  { intros f [st0|e] Hs; cbn; [|done]. intros [H1 H2]. split; [split; [done|lia]|done]. }
  apply decode_loop_rule; [| | |done|destruct Hi as (_ & _ & ?); lia].
  - intros f st0 [(Hc & Hb & Hp) Hge] Hs _. apply scan_next in Hs as (_ & H2 & H3 & Hn). apply Hk; [lia|by apply Hm].
  - intros f st0 h [(Hc & Hb & Hp) Hge] Hs _ _ Hh. apply scan_next in Hs as (_ & H2 & H3 & Hn). apply Hk; [lia|]. apply Hf; [|done|done].
    apply extract_header_core in Hh as [E1 E2]. rewrite <- Hc. unfold frame_core. cbn. by rewrite E1, E2.
  - intros f st0 [(Hc & Hb & Hp) Hge] Hs _. apply scan_next in Hs as (_ & H2 & H3 & Hn). repeat split; cbn; (done || lia).
Qed.

Lemma finish_error verify n start st e : finish_decode sse bytes verify n start st = Error e -> input_error e.
Proof.
  unfold finish_decode. destruct (negb _); [intros [= <-]; by left|]. destruct (_ <? 4); [intros [= <-]; by left|].
  destruct (ds_checksum st); [|intros [= <-]; by left]. destruct (negb _); [intros [= <-]; by left|]. destruct (_ && _); intros [=]; subst; by left.
Qed.

Lemma decode_frame_rule on_msg on_field verify output : good_step on_msg -> good_step on_field ->
  match decode_frame sse bytes d on_msg on_field verify output with
  | Error e => input_error e
  | Value r => exists begin_string body_length body_start st,
      decode_prefix sse bytes d = Value (begin_string, body_length, body_start) /\
      loop_end sse bytes d (fun st => loop_inv (text_of begin_string, body_length, None) st /\ (body_start <= ds_pos st)%nat) st /\
      finish_decode sse bytes verify body_length body_start st = Value r
  end.
Proof.
  intros Hm Hf. unfold decode_frame. destruct (decode_prefix sse bytes d) as [[[bs n] start]|e] eqn:Ep.
  - assert (Hstart : (start <= length bytes)%nat).
    { unfold decode_prefix in Ep. destruct (ScanNextField sse bytes 0 d) as [f0|]; [|done]. destruct (negb _); [done|].
      destruct (ScanNextField sse bytes _ d) as [f1|] eqn:E1; [|done]. destruct (negb _); [done|]. destruct (ParseUnsigned _ _); [|done].
      injection Ep as _ _ <-. apply scan_next in E1 as (_ & _ & _ & ?). done. }
    pose proof (decode_loop_good on_msg on_field (text_of bs, n, None) start Hm Hf (start_state (PrepareDecodeOutput bytes output) bs n start) ltac:(done) ltac:(done)) as Hl.
    destruct (decode_loop _ _ _ _ _ _ _) as [st|e]; [|done]. destruct (finish_decode _ _ _ _ _ _) as [r|e] eqn:Ef; [by exists bs, n, start, st|].
    by eapply finish_error.
  - unfold decode_prefix in Ep. destruct (ScanNextField sse bytes 0 d) as [f0|] eqn:E0; [|injection Ep as <-; by eapply scan_error].
    destruct (negb _); [injection Ep as <-; by left|].
    destruct (ScanNextField sse bytes (if_next_pos f0) d) as [f1|] eqn:E1; [|injection Ep as <-; by eapply scan_error]. destruct (negb _); [injection Ep as <-; by left|].
    destruct (ParseUnsigned _ _) eqn:Eu; [done|]. injection Ep as <-. by eapply whole_error.
Qed.
End Steps.

(** ** Lemmas: the frame around the body *)

(** [text] is digits that read as [v]. *)
Definition reads_as (text : list Z) (v : Z) : Prop := Forall is_digit text /\ text <> [] /\ numeral_value text = v.

Lemma digit_prefix_digits l : Forall is_digit (digit_prefix l) /\ (length (digit_prefix l) <= length l)%nat /\ (length (digit_prefix l) = length l -> digit_prefix l = l).
Proof.
  induction l as [|c l (IH1 & IH2 & IH3)]; cbn; [by split_and!|]. destruct (digitb c) eqn:E; cbn; [|split_and!; [constructor|lia|lia]].
  apply digitb_iff in E. split_and!; [by constructor|lia|intros [= Hl]; f_equal; auto].
Qed.

Lemma parse_unsigned_value text label n : ParseUnsigned text label = Value n -> reads_as text n /\ 0 <= n <= UINT32_MAX.
Proof.
  unfold ParseUnsigned, whole, from_chars_u32. destruct (digit_prefix_digits text) as (H1 & _ & H3). destruct (digit_prefix text) as [|c ds] eqn:E; [done|].
  destruct (Z.leb_spec (numeral_value (c :: ds)) UINT32_MAX); [|done]. destruct (Nat.eqb_spec (length (c :: ds)) (length text)) as [Hl|]; [|done].
  intros [= <-]. specialize (H3 Hl). subst text. split; [by split_and!|]. split; [|done]. by apply numeral_nonneg.
Qed.

Lemma decode_prefix_spec sse bytes d bs n start : decode_prefix sse bytes d = Value (bs, n, start) ->
  exists t8 t9 len rest, bytes = field_text t8 bs d ++ field_text t9 len d ++ rest /\ numeral_value t8 = tags.kBeginString /\ numeral_value t9 = tags.kBodyLength /\
    d ∉ bs /\ d ∉ len /\ ParseUnsigned len "BodyLength" = Value n /\ start = length (field_text t8 bs d ++ field_text t9 len d).
Proof.
  unfold decode_prefix. destruct (ScanNextField sse bytes 0 d) as [f0|] eqn:E0; [|done].
  destruct (Z.eqb_spec (if_tag f0) tags.kBeginString) as [T0|]; [|done]. cbn [negb].
  destruct (ScanNextField sse bytes (if_next_pos f0) d) as [f1|] eqn:E1; [|done]. destruct (Z.eqb_spec (if_tag f1) tags.kBodyLength) as [T1|]; [|done]. cbn [negb].
  destruct (ParseUnsigned _ _) as [m|] eqn:Eu; [|done]. intros [= <- <- <-].
  apply scan_sound in E0 as (t8 & v8 & r0 & Hr0 & Ht8 & Hv8 & ->). apply scan_sound in E1 as (t9 & v9 & r1 & Hr1 & Ht9 & Hv9 & ->).
  rewrite drop_0 in Hr0. assert (Hn0 : if_next_pos (scanned t8 v8 0) = length (field_text t8 v8 d)) by (unfold field_text; rewrite !length_app; cbn; lia).
  rewrite Hn0, Hr0, drop_app_length in Hr1. subst r0. cbn [scanned if_tag] in T0, T1.
  pose proof (field_value_scanned bytes [] t8 v8 d (field_text t9 v9 d ++ r1) Hr0) as Hf0. cbn [length] in Hf0. rewrite Hf0.
  rewrite Hn0 in Eu |- *. rewrite (field_value_scanned bytes (field_text t8 v8 d) t9 v9 d r1) in Eu by done.
  exists t8, t9, v9, r1. split_and!; try done. unfold scanned, field_text. cbn. rewrite !length_app. cbn. rewrite !length_app. cbn. lia.
Qed.

(** A frame: BeginString, BodyLength, the body it announces, CheckSum; the header
    view shows all three. *)
Definition header_framed (bytes : list Z) (d : Z) (verify : bool) (h : SessionHeaderView) : Prop :=
  exists t8 begin_string t9 len body t10 sum,
    bytes = field_text t8 begin_string d ++ field_text t9 len d ++ body ++ field_text t10 sum d /\
    numeral_value t8 = tags.kBeginString /\ numeral_value t9 = tags.kBodyLength /\ numeral_value t10 = tags.kCheckSum /\
    d ∉ begin_string /\ d ∉ len /\ d ∉ sum /\
    reads_as len (Z.of_nat (length body)) /\ reads_as sum (h_checksum h) /\
    h_begin_string h = text_of begin_string /\ h_body_length h = Z.of_nat (length body) /\
    (verify = true -> Forall is_byte bytes ->
       h_checksum h = foldr Z.add 0 (field_text t8 begin_string d ++ field_text t9 len d ++ body) mod 256).

Definition well_framed (bytes : list Z) (d : Z) (verify : bool) (r : DecodedFrame) : Prop := header_framed bytes d verify (df_header r).

Lemma finish_framed sse bytes d verify bs n start st r :
  decode_prefix sse bytes d = Value (bs, n, start) ->
  loop_end sse bytes d (fun st => loop_inv bytes (text_of bs, n, None) st /\ (start <= ds_pos st)%nat) st ->
  finish_decode sse bytes verify n start st = Value r -> well_framed bytes d verify r.
Proof.
  intros Hp Hl Hf. unfold finish_decode in Hf. destruct (Nat.eqb_spec (ds_pos st) (length bytes)) as [Hpos|]; [|done]. cbn [negb] in Hf.
  destruct (_ <? 4); [done|]. destruct Hl as [[[(Hc & _) _] _]|(st0 & f & cs & [(Hc & _ & Hle) Hge] & Hs & Ht & Hcs & ->)].
  { unfold frame_core in Hc. injection Hc as _ _ Hc. by rewrite Hc in Hf. }
  cbn in Hf, Hpos. unfold frame_core in Hc. injection Hc as Hbs Hbl Hnone.
  destruct (Z.eqb_spec n (Z.of_nat (if_start_offset f - start))) as [Hn|]; [|done]. cbn [negb] in Hf.
  destruct (verify && _) eqn:Ev; [done|]. injection Hf as <-.
  apply decode_prefix_spec in Hp as (t8 & t9 & len & rest & Hb & H8 & H9 & Hd8 & Hd9 & Hu & Hst).
  apply scan_sound in Hs as (t10 & sum & tail & Hr & _ & Hd10 & ->). cbn in Ht, Hn, Hpos.
  set (pre := field_text t8 bs d ++ field_text t9 len d) in *. rewrite app_assoc in Hb. fold pre in Hb.
  assert (Hbody : bytes = pre ++ take (ds_pos st0 - start) rest ++ field_text t10 sum d ++ tail).
  { rewrite <- Hr, Hb at 1. f_equal. rewrite Hb, drop_app_ge by lia. rewrite <- Hst. symmetry. apply take_drop. }
  set (body := take _ rest) in *. assert (Hlb : length body = (ds_pos st0 - start)%nat).
  { unfold body. rewrite length_take. apply (f_equal length) in Hb. rewrite length_app in Hb. lia. }
  assert (Htail : tail = []).
  { apply nil_length_inv. apply (f_equal length) in Hbody. rewrite !length_app in Hbody. unfold field_text in Hbody. rewrite !length_app in Hbody. cbn in Hbody. lia. }
  subst tail. rewrite app_nil_r in Hbody. assert (Hds : ds_pos st0 = length (pre ++ body)) by (rewrite length_app; lia).
  assert (Hfv : field_value bytes (scanned t10 sum (ds_pos st0)) = sum).
  { rewrite Hds. apply (field_value_scanned _ _ _ _ d []). by rewrite app_nil_r, <- app_assoc. }
  rewrite Hfv in Hcs. apply parse_unsigned_value in Hcs as [Hcs _]. apply parse_unsigned_value in Hu as [Hu _]. rewrite Hn, <- Hlb in Hu.
  exists t8, bs, t9, len, body, t10, sum. unfold pre in Hbody. rewrite <- app_assoc in Hbody. cbn. split_and!; try done; [by rewrite Hbl, Hlb|].
  intros -> Hby. cbn in Ev. apply negb_false_iff, Z.eqb_eq in Ev. rewrite <- Ev.
  assert (Htk : take (ds_pos st0) bytes = field_text t8 bs d ++ field_text t9 len d ++ body).
  { rewrite Hbody, Hds. unfold pre. rewrite !app_assoc. apply take_app_length. }
  rewrite Htk, ComputeChecksumSIMD_sum; [unfold u32; dlia|]. rewrite <- Htk. by apply Forall_take.
Qed.

(** ** Properties *)

(** the scanner of one field is exact.  At a position of the frame it returns a
    field exactly when the bytes from there read: one to five digits with a nonzero
    value, an equals sign, a value without delimiter, the delimiter; and the field
    it returns has that tag, that value and the position behind the delimiter.  The
    short scan and the vector scan make no difference. *)
Theorem scan_next_field_exact sse bytes pos d f :
  d <> kEquals -> ~ is_digit d ->
  ScanNextField sse bytes pos d = Value f <->
  exists ds value rest, drop pos bytes = field_text ds value d ++ rest /\ tag_text ds /\ d ∉ value /\ f = scanned ds value pos.
Proof.
  intros H1 H2. split; [apply scan_sound|]. intros (ds & value & rest & Hr & Ht & Hv & ->). by eapply scan_complete.
Qed.

Lemma scan_next_field_exact_witness :
  let b := bytes "8=FIX.4.4|11=id|" in
  ScanNextField true b 10 124 = Value (scanned (bytes "11") (bytes "id") 10) /\
  exists ds value rest, drop 10 b = field_text ds value 124 ++ rest /\ tag_text ds /\ 124 ∉ value /\
    scanned (bytes "11") (bytes "id") 10 = scanned ds value 10.
Proof.
  assert (Hd : ~ is_digit 124) by (unfold is_digit; lia).
  split; [reflexivity|]. exact (proj1 (scan_next_field_exact true (bytes "8=FIX.4.4|11=id|") 10 124 _ ltac:(done) Hd) eq_refl).
Defined.

(** C17: decoding is total.  On any bytes, with any dictionary and any message object
    to reuse, both decoders return a message or an error about the input: the loops
    over the fields, the entries and the nested groups end, and the precompiled
    decoders are never indexed outside their slots. *)
Theorem frame_decoding_total `{FloatText} {SA : SortAlgorithm de_msg_type} sse dict bytes d verify output e :
  DecodeFixMessageView sse dict bytes d verify output = Error e \/
  DecodeFixMessageViewCompiled sse dict bytes d (CompiledDecoderTable_Build dict) verify output = Error e ->
  code e = kFormatError \/ code e = kInvalidArgument.
Proof.
  intros [He|He].
  - pose proof (decode_frame_rule sse bytes d _ _ verify output (generic_msg_type_step dict bytes) (generic_field_step sse dict bytes d)) as Hr.
    unfold DecodeFixMessageView in He. by rewrite He in Hr.
  - pose proof (decode_frame_rule sse bytes d _ _ verify output (compiled_msg_type_step dict bytes) (compiled_field_step sse dict bytes d)) as Hr.
    unfold DecodeFixMessageViewCompiled in He. by rewrite He in Hr.
Qed.

(** A stand-in for the conversion of floating point text: digits only. *)
#[local] Instance demo_float_text : FloatText := {| from_chars_double l := from_chars_i64 l |}.

Lemma frame_decoding_total_witness :
  let e := status.FormatError "FIX frame is missing its final delimiter" in
  DecodeFixMessageView true demo_dictionary (bytes "8=FIX.4.4") 1 true NewParsedMessageData = Error e /\
  (code e = kFormatError \/ code e = kInvalidArgument).
Proof.
  split; [reflexivity|].
  exact (frame_decoding_total true demo_dictionary (bytes "8=FIX.4.4") 1 true NewParsedMessageData _ (or_introl eq_refl)).
Defined.

(** C16: a frame that either decoder accepts is well framed: it consists of a
    BeginString field, a BodyLength field, a body of exactly the length announced
    and a CheckSum field, with nothing behind; the header view shows the three
    values; and under verification the checksum is the byte sum of everything
    before it modulo 256. *)
Theorem accepted_frames_framed `{FloatText} {SA : SortAlgorithm de_msg_type} sse dict bytes d verify output r :
  DecodeFixMessageView sse dict bytes d verify output = Value r \/
  DecodeFixMessageViewCompiled sse dict bytes d (CompiledDecoderTable_Build dict) verify output = Value r ->
  well_framed bytes d verify r.
Proof.
  intros [He|He].
  - pose proof (decode_frame_rule sse bytes d _ _ verify output (generic_msg_type_step dict bytes) (generic_field_step sse dict bytes d)) as Hr.
    unfold DecodeFixMessageView in He. rewrite He in Hr. destruct Hr as (bs & n & start & st & Hp & Hl & Hf). by eapply finish_framed.
  - pose proof (decode_frame_rule sse bytes d _ _ verify output (compiled_msg_type_step dict bytes) (compiled_field_step sse dict bytes d)) as Hr.
    unfold DecodeFixMessageViewCompiled in He. rewrite He in Hr. destruct Hr as (bs & n & start & st & Hp & Hl & Hf). by eapply finish_framed.
Qed.

(** with distinct rule tags, at most 128 rules outside the session header and no
    overflow, the precompiled decoder of a message has one slot per such rule, in the
    order of the rules, with the type and the group of the dictionary, and looking a
    tag up in its hash table finds the slot of the rule with that tag, or none. *)
Theorem compiled_lookup_exact dict m :
  let c := CompiledMessageDecoder_Build dict m in
  let rules := compiled_rules dict m in
  NoDup (fr_tag <$> rules) -> Z.of_nat (length rules) <= kMaxSlots -> overflow_exceeded_ c = false ->
  slots_ c = compile_rule dict <$> rules /\
  forall tag, lookup_slot c tag = match list_find (fun r => fr_tag r = tag) rules with Some (i, _) => Z.of_nat i | None => kInvalidSlot end.
Proof.
  intros c rules Hnd Hlen Hov. assert (Hs : slots_ c = compile_rule dict <$> rules).
  { unfold c, CompiledMessageDecoder_Build. rewrite (proj2 (build_slots_spec dict _ _ compiled_ok_empty)). cbn -[Z.to_nat]. rewrite Nat.sub_0_r.
    fold (compiled_rules dict m). fold rules. by rewrite take_ge by lia. }
  split; [done|]. intros tag. assert (Hok : compiled_ok c) by apply build_ok. destruct (list_find _ rules) as [[i r]|] eqn:Ef.
  - apply list_find_Some in Ef as (Hi & Ht & _). assert (Hsl : slots_ c !! i = Some (compile_rule dict r)) by (by rewrite Hs, list_lookup_fmap, Hi).
    pose proof (lookup_slot_complete c tag i _ Hok Hov Hsl Ht) as Hne. destruct (lookup_slot_sound c tag Hok Hne) as (n & s & -> & Hn & Htag).
    f_equal. rewrite Hs, list_lookup_fmap in Hn. destruct (rules !! n) as [r'|] eqn:En; [|done]. injection Hn as <-. cbn in Htag.
    eapply (NoDup_lookup _ n i tag Hnd); rewrite list_lookup_fmap; [rewrite En|rewrite Hi]; cbn; congruence.
  - destruct (Z.eq_dec (lookup_slot c tag) kInvalidSlot) as [|Hne]; [done|]. destruct (lookup_slot_sound c tag Hok Hne) as (n & s & _ & Hn & Htag).
    rewrite Hs, list_lookup_fmap in Hn. destruct (rules !! n) as [r'|] eqn:En; [|done]. injection Hn as <-. cbn in Htag.
    apply list_find_None in Ef. rewrite Forall_lookup in Ef. by destruct (Ef n r' En).
Qed.

Definition demo_order : MessageDefRecord := MkMessageDef 1 0 0 5 0.

Lemma compiled_lookup_exact_witness :
  overflow_exceeded_ (CompiledMessageDecoder_Build demo_dictionary demo_order) = false /\
  lookup_slot (CompiledMessageDecoder_Build demo_dictionary demo_order) 453 = 2.
Proof.
  split; [reflexivity|].
  assert (Hnd : NoDup (fr_tag <$> compiled_rules demo_dictionary demo_order)) by (apply (bool_decide_unpack _); vm_compute; exact I).
  exact (proj2 (compiled_lookup_exact demo_dictionary demo_order Hnd ltac:(done) eq_refl) 453).
Defined.

(** ** Corners of the representation *)

(** Text with [|] for the delimiter, and the frame with that body. *)
Definition soh_text (s : string) : list Z := (fun c => if c =? 124 then kFixSoh else c) <$> bytes s.
Definition demo_frame (body : string) : list Z :=
  let content := soh_text body in
  let prefix := soh_text "8=FIX.4.4|9=" ++ FormatUint32 (Z.of_nat (length content)) ++ [kFixSoh] ++ content in
  let sum := foldr Z.add 0 prefix mod 256 in
  prefix ++ bytes "10=" ++ [48 + sum / 100; 48 + sum / 10 mod 10; 48 + sum mod 10; kFixSoh].

(** An order with two parties, and two fields behind the group. *)
Definition demo_order_frame : list Z := Eval vm_compute in
  demo_frame "35=D|49=A|56=B|34=2|11=id|54=1|453=2|448=x|447=D|448=y|38=100|58=t|".

Definition demo_order_decoded : DecodedFrame := Eval vm_compute in
  match DecodeFixMessageView true demo_dictionary demo_order_frame 1 true NewParsedMessageData with
  | Value r => r | Error _ => MkDecodedFrame NewParsedMessageData empty_header no_issue end.

Lemma accepted_frames_framed_witness :
  DecodeFixMessageView true demo_dictionary demo_order_frame 1 true NewParsedMessageData = Value demo_order_decoded /\
  well_framed demo_order_frame 1 true demo_order_decoded.
Proof.
  assert (He : DecodeFixMessageView true demo_dictionary demo_order_frame 1 true NewParsedMessageData = Value demo_order_decoded) by (vm_compute; reflexivity).
  exact (conj He (accepted_frames_framed true demo_dictionary demo_order_frame 1 true NewParsedMessageData _ (or_introl He))).
Defined.

(** The tags [field_at] enumerates on the root. *)
Definition root_tags (d : ParsedMessageData) : list Z :=
  ps_tag <$> omap (NthParsedField d RootContainer) (seq 0 (Z.to_nat (field_count (root d)))).

(** enumeration of the root by index reads fields of group entries.  The slots of
    the root are not contiguous when a field follows a repeating group, but
    [NthParsedField] takes them for a contiguous range: in the order above the
    enumeration of the nine root fields shows PartyID and PartyIDSource of the first
    entry and misses OrderQty and Text, which lookup by tag finds. *)
Theorem root_enumeration_reads_groups :
  exists r, DecodeFixMessageView true demo_dictionary demo_order_frame 1 true NewParsedMessageData = Value r /\
  issue_present (df_issue r) = false /\
  root_tags (df_parsed r) = [35; 49; 56; 34; 11; 54; 453; 448; 447] /\
  ParsedSlotText (df_parsed r) <$> FindParsedField (df_parsed r) RootContainer 38 = Some (bytes "100") /\
  ParsedSlotText (df_parsed r) <$> FindParsedField (df_parsed r) RootContainer 58 = Some (bytes "t").
Proof. exists demo_order_decoded. split_and!; vm_compute; reflexivity. Qed.

Definition demo_collision_frame : list Z := Eval vm_compute in demo_frame "35=Z|49=A|56=B|34=2|1024=a|66560=b|".

(** two root fields whose tags agree modulo 65536 are taken for one: the overflow
    table keeps sixteen bits of a tag, so the second field replaces the first, and
    lookup of tag 1024 returns the field with tag 66560. *)
Theorem root_tags_collide :
  exists r, DecodeFixMessageView true demo_dictionary demo_collision_frame 1 true NewParsedMessageData = Value r /\
  root_tags (df_parsed r) = [35; 49; 56; 34; 66560] /\
  ps_tag <$> FindParsedField (df_parsed r) RootContainer 1024 = Some 66560.
Proof.
  exists (match DecodeFixMessageView true demo_dictionary demo_collision_frame 1 true NewParsedMessageData with
          | Value r => r | Error _ => MkDecodedFrame NewParsedMessageData empty_header no_issue end).
  split_and!; vm_compute; reflexivity.
Qed.

(** a field slot keeps sixteen bits of the length of its value.  The text read
    back from the slot of a scanned field is the value when it is shorter than 65536
    bytes, and the first [length mod 65536] bytes of it otherwise. *)
Theorem slot_text_truncated sse bytes pos d f t p :
  ScanNextField sse bytes pos d = Value f -> pm_raw p = bytes -> Z.of_nat (length bytes) <= UINT32_MAX ->
  ParsedSlotText p (inline_slot f t) = take (length (field_value bytes f) mod 65536) (field_value bytes f).
Proof.
  intros Hs Hp Hlen. pose proof (scan_next _ _ _ _ _ Hs) as (_ & _ & Hn & Hle).
  assert (Hl : length (field_value bytes f) = if_value_length f) by (unfold field_value, slice; rewrite length_take, length_drop; lia).
  assert (Hm : Z.of_nat (if_value_length f mod 65536) = u16 (Z.of_nat (if_value_length f))) by (unfold u16; rewrite Nat2Z.inj_mod; done).
  unfold ParsedSlotText. rewrite Hp. destruct (Nat.eqb_spec (length bytes) 0); [lia|]. cbn [orb inline_slot MakeParsedFieldSlotWithType ps_value_length ps_value_offset].
  rewrite Hl, <- Hm, Nat2Z.id. destruct (Z.eqb_spec (Z.of_nat (if_value_length f mod 65536)) 0) as [E|_]; [by replace (if_value_length f mod 65536)%nat with 0%nat by lia|].
  rewrite u32_small by (unfold UINT32_MAX in Hlen; ulia). rewrite Nat2Z.id. unfold field_value, slice. rewrite take_take. f_equal.
  pose proof (Nat.Div0.mod_le (if_value_length f) 65536). lia.
Qed.

Lemma slot_text_truncated_witness :
  let f := scanned (bytes "11") (bytes "id") 10 in
  ParsedSlotText (set_raw (bytes "8=FIX.4.4|11=id|") NewParsedMessageData) (inline_slot f kFieldString) = bytes "id".
Proof.
  exact (slot_text_truncated true (bytes "8=FIX.4.4|11=id|") 10 124 (scanned (bytes "11") (bytes "id") 10) kFieldString
           (set_raw (bytes "8=FIX.4.4|11=id|") NewParsedMessageData) eq_refl eq_refl ltac:(done)).
Defined.

(** a rule past the 128th outside the session header has no slot in the
    precompiled decoder, whose overflow flag does not say so: looking its tag up
    finds nothing, and the decoder reports the field as not allowed. *)
Theorem rules_beyond_slots_unknown dict m n r :
  let c := CompiledMessageDecoder_Build dict m in
  NoDup (fr_tag <$> compiled_rules dict m) -> compiled_rules dict m !! n = Some r -> kMaxSlots <= Z.of_nat n ->
  lookup_slot c (fr_tag r) = kInvalidSlot.
Proof.
  intros c Hnd Hn Hge. assert (Hok : compiled_ok c) by apply build_ok. destruct (Z.eq_dec (lookup_slot c (fr_tag r)) kInvalidSlot) as [|Hne]; [done|].
  destruct (lookup_slot_sound c (fr_tag r) Hok Hne) as (k & s & _ & Hk & Ht). exfalso.
  assert (Hlt : Z.of_nat k < kMaxSlots) by (pose proof (co_length c Hok); apply lookup_lt_Some in Hk; unfold kMaxSlots in *; lia).
  unfold c, CompiledMessageDecoder_Build in Hk. rewrite (proj2 (build_slots_spec dict _ _ compiled_ok_empty)) in Hk. cbn -[Z.to_nat] in Hk.
  fold (compiled_rules dict m) in Hk. rewrite list_lookup_fmap, lookup_take_lt in Hk by (unfold kMaxSlots in *; lia).
  destruct (compiled_rules dict m !! k) as [r'|] eqn:Ek; [|done]. injection Hk as <-. cbn in Ht.
  assert (k = n) as ->; [|lia]. eapply (NoDup_lookup _ k n (fr_tag r) Hnd); rewrite list_lookup_fmap; [rewrite Ek|rewrite Hn]; cbn; congruence.
Qed.

(** A message with 129 rules. *)
Definition demo_wide : MessageDefRecord := MkMessageDef 0 0 0 129 0.
Definition demo_wide_dictionary : NormalizedDictionaryView :=
  MkDictionary [] [] [] [] (demo_rule <$> zseq 2000 129) [] [] [] [] [] [] [] [] [] ∅ ∅ [].

Lemma rules_beyond_slots_unknown_witness :
  compiled_rules demo_wide_dictionary demo_wide !! 128%nat = Some (demo_rule 2128) /\
  overflow_exceeded_ (CompiledMessageDecoder_Build demo_wide_dictionary demo_wide) = false /\
  lookup_slot (CompiledMessageDecoder_Build demo_wide_dictionary demo_wide) 2128 = kInvalidSlot.
Proof.
  assert (Hnd : NoDup (fr_tag <$> compiled_rules demo_wide_dictionary demo_wide)) by (apply (bool_decide_unpack _); vm_compute; exact I).
  assert (Hn : compiled_rules demo_wide_dictionary demo_wide !! 128%nat = Some (demo_rule 2128)) by (vm_compute; reflexivity).
  split; [exact Hn|]. split; [vm_compute; reflexivity|].
  exact (rules_beyond_slots_unknown demo_wide_dictionary demo_wide 128 (demo_rule 2128) Hnd Hn ltac:(done)).
Defined.
