(* ===== verification/DecodeTree.v ===== *)
(** * Decoding a tree of repeating groups

    What the decoder makes of a message with nested repeating groups: the message
    object shows the tree that was written.  A tree is a list of nodes, a field or a
    group with its entries; [node_fields] lists the fields in wire order.  The
    decoder's run is followed on the [Ownership] of a message object. *)
From S2P Require Import Prelude Base StdAlgo BitTable SortSearch IntFormat Scan FixTags Wire RawPassThrough Message NormalizedDictionary ParsedMessage Decoder DecoderProofs.
Open Scope Z_scope.

(** ** Trees *)

Inductive Node :=
  | NField (tag : Z) (value : list Z)
  | NGroup (tag : Z) (entries : list (list Node)).

Definition node_tag (x : Node) : Z := match x with NField t _ => t | NGroup t _ => t end.

(** The count a group is announced with. *)
Definition count_text (entries : list (list Node)) : list Z := FormatInt64 (Z.of_nat (length entries)).

(** The fields of a node in wire order, and the one that stands for it. *)
Fixpoint node_fields (x : Node) : list (Z * list Z) :=
  match x with
  | NField t v => [(t, v)]
  | NGroup t entries => (t, count_text entries) :: concat (map (fun e => concat (map node_fields e)) entries)
  end.
Definition tree_fields (nodes : list Node) : list (Z * list Z) := concat (map node_fields nodes).

Definition own_field (x : Node) : Z * list Z := match x with NField t v => (t, v) | NGroup t entries => (t, count_text entries) end.

Definition node_groups (nodes : list Node) : list (Z * list (list Node)) := omap (fun x => match x with NGroup t es => Some (t, es) | NField _ _ => None end) nodes.

(** ** Trees the decoder can tell apart

    [stops g t]: the tag [t] ends an entry of the group [g].  [closes x t]: it ends
    every group that is open at the end of [x]. *)

Section Conform.
Context (dict : NormalizedDictionaryView) (d : Z).

Definition stops (g : GroupDefRecord) (t : Z) : bool := (t =? delimiter_tag g) || (group_rule_index dict g t <? 0).

(** The last element, tested. *)
Fixpoint on_last {A} (p : A -> bool) (l : list A) : bool :=
  match l with
  | [] => true
  | x :: l' => match l' with [] => p x | _ :: _ => on_last p l' end
  end.

Fixpoint closes (x : Node) (t : Z) : bool :=
  match x with
  | NField _ _ => true
  | NGroup tag entries =>
      match find_group dict tag with
      | Some g => on_last (fun e => stops g t && on_last (fun y => closes y t) e) entries
      | None => false
      end
  end.

(** Each node is closed by the tag of the next. *)
Fixpoint adjacent (nodes : list Node) : bool :=
  match nodes with
  | x :: ((y :: _) as rest) => closes x (node_tag y) && adjacent rest
  | _ => true
  end.

(** The last node is closed by [t]. *)
Definition tree_closes (nodes : list Node) (t : Z) : bool := on_last (fun x => closes x t) nodes.

Definition tag_ok (t : Z) : bool := (0 <? t) && (t <? 65536).
Definition value_ok (v : list Z) : bool := negb (existsb (Z.eqb d) v) && (Z.of_nat (length v) <? 65536).
Definition distinct_tags (nodes : list Node) : bool := bool_decide (NoDup (map node_tag nodes)).

(** An entry of the group [g]: it starts with the delimiter, its tags are allowed by
    the rules and distinct, and at most 128. *)
Fixpoint entry_conforms (levels : nat) (g : GroupDefRecord) (nodes : list Node) : bool :=
  match nodes with NField t _ :: _ => t =? delimiter_tag g | _ => false end &&
  distinct_tags nodes && (length nodes <=? kMaxDeferredSlots)%nat && adjacent nodes &&
  forallb (fun x =>
    tag_ok (node_tag x) && (0 <=? group_rule_index dict g (node_tag x)) &&
    match x with
    | NField t v => value_ok v && bool_decide (find_group dict t = None)
    | NGroup t entries =>
        match levels, find_group dict t with
        | S levels, Some ng => (count_tag ng =? t) && (Z.of_nat (length entries) <=? kMaxGroupEntryCount) && forallb (entry_conforms levels ng) entries &&
                               forallb (fun e => tree_closes e (delimiter_tag ng)) (removelast entries)
        | _, _ => false
        end
    end) nodes.
End Conform.


(** ** Lemmas: scanning what was rendered *)

Lemma format_tag_text t : 0 < t < 100000 -> tag_text (FormatUint32 t).
Proof.
  intros Ht. destruct (FormatUint32_canonical t ltac:(ulia)) as (Hd & Hv & Hl). split; [|split; [done|lia]].
  assert (Hb : forall i, (length (digit_pair i) <= 2)%nat) by apply digit_pair_length.
  split; [destruct (FormatUint32 t); [done|cbn; lia]|]. unfold FormatUint32. cbv zeta.
  repeat match goal with |- context [if ?x <? ?y then _ else _] => destruct (Z.ltb_spec x y) end; try lia; rewrite ?length_app; cbn [length];
    repeat match goal with |- context [length (digit_pair ?i)] => pose proof (Hb i); generalize dependent (length (digit_pair i)); intros end; lia.
Qed.

Section Scan.
Context (d : Z) (Hd1 : d <> kEquals) (Hd2 : ~ is_digit d) (sse : bool) (bytes : list Z).

(** The bytes from a position on. *)
Definition from (pos : nat) (rest : list Z) : Prop := (pos <= length bytes)%nat /\ drop pos bytes = rest.

Lemma from_app pos a b : from pos (a ++ b) -> from (pos + length a) b.
Proof.
  intros [Hp Hd]. assert (Hl : (length bytes - pos = length a + length b)%nat) by (rewrite <- length_drop, Hd; apply length_app).
  split; [lia|]. rewrite <- drop_drop, Hd. apply drop_app_length.
Qed.

Definition field_fits (f : Z * list Z) : Prop := 0 < f.1 < 65536 /\ d ∉ f.2 /\ Z.of_nat (length f.2) < 65536.

(** What the scanner returns for the field [f] at [pos]. *)
Definition inline_of (f : Z * list Z) (pos : nat) : InlineField := scanned (FormatUint32 f.1) f.2 pos.

Lemma scan_rendered pos f rest : field_fits f -> from pos (field_bytes f.1 f.2 d ++ rest) -> ScanNextField sse bytes pos d = Value (inline_of f pos).
Proof.
  intros (Ht & Hv & _) [_ Hdrop]. apply scan_complete with (rest := rest); try done. apply format_tag_text. lia.
Qed.

Lemma inline_tag f pos : field_fits f -> if_tag (inline_of f pos) = f.1.
Proof. intros (Ht & _). cbn. by destruct (FormatUint32_canonical f.1 ltac:(ulia)) as (_ & -> & _). Qed.

Lemma inline_next f pos : if_next_pos (inline_of f pos) = (pos + length (field_bytes f.1 f.2 d))%nat.
Proof. cbn. unfold field_bytes. rewrite !length_app. cbn. lia. Qed.

Lemma from_split pos f rest : from pos (field_bytes f.1 f.2 d ++ rest) -> exists pre, length pre = pos /\ bytes = pre ++ field_text (FormatUint32 f.1) f.2 d ++ rest.
Proof.
  intros [Hp Hdrop]. exists (take pos bytes). split; [rewrite length_take; lia|]. rewrite <- (take_drop pos bytes) at 1. by rewrite Hdrop.
Qed.

Lemma inline_value f pos rest : from pos (field_bytes f.1 f.2 d ++ rest) -> field_value bytes (inline_of f pos) = f.2.
Proof. intros (pre & <- & Hb)%from_split. by eapply field_value_scanned. Qed.

(** A slot shows a field. *)
Definition slot_shows (f : Z * list Z) (s : ParsedFieldSlot) : Prop :=
  ps_tag s = f.1 /\ forall p, pm_raw p = bytes -> ParsedSlotText p s = f.2.

Lemma inline_slot_shows f pos rest t : field_fits f -> Z.of_nat (length bytes) <= UINT32_MAX -> from pos (field_bytes f.1 f.2 d ++ rest) -> slot_shows f (inline_slot (inline_of f pos) t).
Proof.
  intros Hf Hlen Hfrom. pose proof (inline_tag f pos Hf) as Ht. pose proof (inline_value f pos rest Hfrom) as Hv. destruct Hf as (_ & _ & Hl). split; [exact Ht|]. intros p Hp.
  assert (Hoff : (if_value_offset (inline_of f pos) + if_value_length (inline_of f pos) <= length bytes)%nat).
  { apply from_app in Hfrom as [Hle _]. rewrite <- inline_next in Hle. cbn in *. lia. }
  unfold ParsedSlotText. rewrite Hp. unfold inline_slot, MakeParsedFieldSlotWithType. cbn [ps_value_length ps_value_offset].
  replace (u16 (Z.of_nat (if_value_length (inline_of f pos)))) with (Z.of_nat (length f.2)) by (cbn; unfold u16; rewrite Z.mod_small by lia; done).
  destruct ((length bytes =? 0)%nat || (Z.of_nat (length f.2) =? 0)) eqn:E.
  - assert (length f.2 = 0%nat) as H0; [|by apply nil_length_inv in H0]. apply orb_true_iff in E as [E|E]; [apply Nat.eqb_eq in E; cbn in Hoff; lia|apply Z.eqb_eq in E; lia].
  - rewrite u32_small by (unfold in_u32, UINT32_MAX in *; cbn in *; lia). rewrite !Nat2Z.id. unfold field_value in Hv. cbn in Hv |- *. exact Hv.
Qed.
End Scan.

(** ** Growing ownership *)

(** An entry from index [ne] on. *)
Definition fresh (ne : nat) (c : ParsedContainerRef) : Prop := exists j, c = EntryContainer j /\ (ne <= j)%nat.

(** Slots are added to fresh entries, groups to fresh entries or to containers in
    [oc], entries to groups from [ng] on or in [og]. *)
Definition grows (oc : ParsedContainerRef -> Prop) (og : nat -> Prop) (ne ng : nat) (o o' : Ownership) : Prop :=
  exists s g e, o_slots o' = o_slots o ++ s /\ o_groups o' = o_groups o ++ g /\ o_entries o' = o_entries o ++ e /\
    Forall (fun x => fresh ne x.1) s /\ Forall (fun x => oc x.1 \/ fresh ne x.1) g /\ Forall (fun x => og x \/ (ng <= x)%nat) e.

Lemma grows_refl oc og ne ng o : grows oc og ne ng o o.
Proof. exists [], [], []. rewrite !app_nil_r. split_and!; try done; constructor. Qed.

Lemma grows_trans oc og ne ng o1 o2 o3 : grows oc og ne ng o1 o2 -> grows oc og ne ng o2 o3 -> grows oc og ne ng o1 o3.
Proof.
  intros (s & g & e & H1 & H2 & H3 & H4 & H5 & H6) (s' & g' & e' & H1' & H2' & H3' & H4' & H5' & H6').
  exists (s ++ s'), (g ++ g'), (e ++ e'). rewrite H1', H1, H2', H2, H3', H3, !app_assoc. split_and!; try done; by apply Forall_app.
Qed.

Lemma grows_weaken (oc oc' : ParsedContainerRef -> Prop) (og og' : nat -> Prop) ne ne' ng ng' o o' :
  grows oc og ne ng o o' -> (ne' <= ne)%nat -> (forall c, oc c -> oc' c \/ fresh ne' c) -> (forall g, og g \/ (ng <= g)%nat -> og' g \/ (ng' <= g)%nat) -> grows oc' og' ne' ng' o o'.
Proof.
  intros (s & g & e & H1 & H2 & H3 & H4 & H5 & H6) Hne Hoc Hog. exists s, g, e.
  assert (Hf : forall c, fresh ne c -> fresh ne' c) by (intros c (j & -> & Hj); exists j; split; [done|lia]).
  split_and!; try done; (eapply Forall_impl; [eassumption|]); cbn; [auto| |auto]. intros x [Hx|Hx]; [by apply Hoc|auto].
Qed.

Lemma grows_length oc og ne ng o o' : grows oc og ne ng o o' ->
  (length (o_slots o) <= length (o_slots o') /\ length (o_groups o) <= length (o_groups o') /\ length (o_entries o) <= length (o_entries o'))%nat.
Proof. intros (s & g & e & -> & -> & -> & _). rewrite !length_app. lia. Qed.

Lemma positions_app {A} (p : A -> bool) l r : positions p (l ++ r) = positions p l ++ ((fun i => (length l + i)%nat) <$> positions p r).
Proof.
  induction r as [|x r IH] using rev_ind; [by rewrite !app_nil_r|]. rewrite app_assoc, !positions_snoc, IH, length_app, fmap_app, <- app_assoc. by destruct (p x).
Qed.

Lemma positions_none {A} (p : A -> bool) l : Forall (fun x => p x = false) l -> positions p l = [].
Proof. induction l as [|x l IH] using rev_ind; [done|]. intros [H1 H2]%Forall_app. apply Forall_cons in H2 as [H2 _]. by rewrite positions_snoc, IH, H2. Qed.

Lemma filter_all_false {A} (p : A -> bool) l : Forall (fun x => p x = false) l -> List.filter p l = [].
Proof. induction 1 as [|x l Hx Hl IH]; cbn; [done|]. by rewrite Hx. Qed.

(** What a container has does not change when it is not touched. *)
Lemma grows_fields oc og ne ng o o' c : grows oc og ne ng o o' -> ~ fresh ne c -> fields_of o' c = fields_of o c.
Proof.
  intros (s & g & e & H1 & _ & _ & H4 & _) Hc. unfold fields_of. rewrite H1, List.filter_app, (filter_all_false _ s); [by rewrite app_nil_r|].
  eapply Forall_impl; [exact H4|]. intros x Hx. unfold owns_slot. apply bool_decide_eq_false. by intros <-.
Qed.

Lemma grows_groups oc og ne ng o o' c : grows oc og ne ng o o' -> ~ fresh ne c -> ~ oc c -> groups_of o' c = groups_of o c.
Proof.
  intros (s & g & e & _ & H2 & _ & _ & H5 & _) Hc Ho. unfold groups_of. rewrite H2, positions_app, (positions_none _ g); [by rewrite app_nil_r|].
  eapply Forall_impl; [exact H5|]. intros x Hx. unfold owns_group. apply bool_decide_eq_false. intros <-. by destruct Hx.
Qed.

Lemma grows_entries oc og ne ng o o' g : grows oc og ne ng o o' -> (g < ng)%nat -> ~ og g -> entries_of o' g = entries_of o g.
Proof.
  intros (s & gs & e & _ & _ & H3 & _ & _ & H6) Hg Ho. unfold entries_of. rewrite H3, positions_app, (positions_none _ e); [by rewrite app_nil_r|].
  eapply Forall_impl; [exact H6|]. intros x Hx. unfold owns_entry. apply bool_decide_eq_false. intros ->. destruct Hx; [done|lia].
Qed.

Lemma grows_group_at oc og ne ng o o' g x : grows oc og ne ng o o' -> o_groups o !! g = Some x -> o_groups o' !! g = Some x.
Proof. intros (s & gs & e & _ & -> & _) Hg. by apply lookup_app_l_Some. Qed.

(** ** Reading a tree back

    Entries and groups between given indices. *)

Record Bounds := MkBounds { b_entry : nat; b_entry_end : nat; b_group : nat; b_group_end : nat }.

Definition within (b : Bounds) (c : ParsedContainerRef) : Prop := exists i, c = EntryContainer i /\ (b_entry b <= i < b_entry_end b)%nat.

Section Reads.
Context (bytes : list Z).

(** The group [g] of container [c] has the tag and the entries of [x]. *)
Definition group_reads (entry : ParsedContainerRef -> list Node -> Prop) (b : Bounds) (o : Ownership) (c : ParsedContainerRef) (x : Z * list (list Node)) (g : nat) : Prop :=
  o_groups o !! g = Some (c, x.1) /\ (b_group b <= g < b_group_end b)%nat /\ Forall2 (fun nodes i => entry (EntryContainer i) nodes) x.2 (entries_of o g).

(** An entry shows its nodes, down to depth [n]. *)
Fixpoint reads (n : nat) (b : Bounds) (o : Ownership) (c : ParsedContainerRef) (nodes : list Node) : Prop :=
  match n with
  | O => False
  | S n =>
      within b c /\ Forall2 (slot_shows bytes) (map own_field nodes) (fields_of o c) /\
      Forall2 (group_reads (reads n b o) b o c) (node_groups nodes) (groups_of o c)
  end.

Lemma reads_grows n b oc og ne ng o o' : grows oc og ne ng o o' -> (b_entry_end b <= ne)%nat -> (b_group_end b <= ng)%nat ->
  (forall c, oc c -> ~ within b c) -> (forall g, og g -> ~ (b_group b <= g < b_group_end b)%nat) ->
  forall c nodes, reads n b o c nodes -> reads n b o' c nodes.
Proof.
  intros Hg Hne Hng Hoc Hog. induction n as [|n IH]; intros c nodes; [done|]. intros (Hw & Hf & Hgr).
  assert (Hfr : ~ fresh ne c) by (destruct Hw as (i & -> & Hi); intros (j & [= <-] & Hj); lia).
  split; [done|]. rewrite (grows_fields _ _ _ _ _ _ c Hg Hfr), (grows_groups _ _ _ _ _ _ c Hg Hfr) by (intros Hx; by apply (Hoc c)). split; [done|].
  eapply Forall2_impl; [exact Hgr|]. intros x g (H1 & H2 & H3). split; [by eapply grows_group_at|]. split; [done|].
  rewrite (grows_entries _ _ _ _ _ _ g Hg) by (lia || (intros Hx; by apply (Hog g))). eapply Forall2_impl; [exact H3|]. intros nd i. apply IH.
Qed.

Lemma reads_mono n n' b b' o c nodes : (n <= n')%nat -> (b_entry b' <= b_entry b)%nat -> (b_entry_end b <= b_entry_end b')%nat ->
  (b_group b' <= b_group b)%nat -> (b_group_end b <= b_group_end b')%nat -> reads n b o c nodes -> reads n' b' o c nodes.
Proof.
  intros Hn H1 H2 H3 H4. revert n' Hn c nodes. induction n as [|n IH]; intros n' Hn c nodes; [done|]. destruct n' as [|n']; [lia|]. intros (Hw & Hf & Hgr).
  split; [destruct Hw as (i & -> & Hi); exists i; split; [done|lia]|]. split; [done|]. eapply Forall2_impl; [exact Hgr|]. intros x g (G1 & G2 & G3).
  split; [done|]. split; [lia|]. eapply Forall2_impl; [exact G3|]. intros nd i. apply IH. lia.
Qed.

Definition inside (b b' : Bounds) : Prop :=
  (b_entry b' <= b_entry b)%nat /\ (b_entry_end b <= b_entry_end b')%nat /\ (b_group b' <= b_group b)%nat /\ (b_group_end b <= b_group_end b')%nat.

Lemma group_reads_mono n n' b b' o c x g : (n <= n')%nat -> inside b b' -> group_reads (reads n b o) b o c x g -> group_reads (reads n' b' o) b' o c x g.
Proof.
  intros Hn (H1 & H2 & H3 & H4) (G1 & G2 & G3). split; [done|]. split; [lia|]. eapply Forall2_impl; [exact G3|]. intros nd i. by apply reads_mono.
Qed.

Lemma group_reads_grows n b oc og ne ng o o' c x g : grows oc og ne ng o o' -> (b_entry_end b <= ne)%nat -> (b_group_end b <= ng)%nat ->
  (forall c, oc c -> ~ within b c) -> (forall g, og g -> ~ (b_group b <= g < b_group_end b)%nat) ->
  group_reads (reads n b o) b o c x g -> group_reads (reads n b o') b o' c x g.
Proof.
  intros Hg Hne Hng Hoc Hog (G1 & G2 & G3). split; [by eapply grows_group_at|]. split; [done|]. rewrite (grows_entries _ _ _ _ _ _ g Hg) by (lia || (intros Hx; by apply (Hog g))).
  eapply Forall2_impl; [exact G3|]. intros nd i. by eapply reads_grows.
Qed.
End Reads.

(** ** Lemmas: the operations on a message object *)

Lemma append_raw c s p : pm_raw (snd (AppendParsedFieldSlot c s p)) = pm_raw p.
Proof.
  unfold AppendParsedFieldSlot. destruct (FindParsedFieldIndex p c (ps_tag s)); [done|]. cbn [snd]. destruct c; [|done].
  unfold fill_quick_cache, InsertIntoRootHashTable. destruct (QuickCacheSlotForTag _), (field_slots _ !! _); try destruct (_ <? _); done.
Qed.

Lemma group_raw c t k p : pm_raw (snd (EnsureParsedGroup c t k p)) = pm_raw p.
Proof. unfold EnsureParsedGroup. destruct (FindParsedGroupIndex p c t); [done|]. by destruct c. Qed.

Lemma entry_raw g p : pm_raw (snd (AppendParsedEntry g p)) = pm_raw p.
Proof. done. Qed.

Lemma no_such_field o c tag : Forall (fun s => ps_tag s <> tag) (fields_of o c) -> head (positions (same_field c tag) (o_slots o)) = None.
Proof.
  intros Hf. rewrite positions_none; [done|]. apply Forall_forall. intros [c' s] Hin. unfold same_field. destruct (owns_slot c (c', s)) eqn:E; [|done]. cbn.
  apply Z.eqb_neq. rewrite Forall_forall in Hf. apply Hf. unfold fields_of. apply list_elem_of_fmap. exists (c', s). split; [done|]. apply list_elem_of_In, List.filter_In.
  split; [by apply list_elem_of_In|done].
Qed.

Lemma no_such_group o c tag : (forall g, o_groups o !! g <> Some (c, tag)) -> head (positions (same_group c tag) (o_groups o)) = None.
Proof.
  intros Hg. rewrite positions_none; [done|]. apply Forall_forall. intros [c' t] Hin. unfold same_group, owns_group. cbn. apply andb_false_iff.
  destruct (decide (c' = c)) as [->|]; [right|left; by apply bool_decide_eq_false]. apply Z.eqb_neq. intros ->. apply list_elem_of_lookup in Hin as [g Hin]. by apply (Hg g).
Qed.

Lemma fields_of_snoc o c c' s : fields_of (MkOwnership (o_slots o ++ [(c', s)]) (o_groups o) (o_entries o)) c = fields_of o c ++ (if bool_decide (c' = c) then [s] else []).
Proof. unfold fields_of. cbn. rewrite List.filter_app, fmap_app. f_equal. cbn. unfold owns_slot. cbn. by destruct (bool_decide (c' = c)). Qed.

(** Appending the slots of an entry, one after the other. *)
Definition with_slots (c : ParsedContainerRef) (l : list ParsedFieldSlot) (o : Ownership) : Ownership :=
  MkOwnership (o_slots o ++ map (pair c) l) (o_groups o) (o_entries o).

Lemma append_all c l : forall p o, represents p o -> container_exists o c -> contiguous o c -> NoDup (map ps_tag (fields_of o c ++ l)) ->
  (c = RootContainer -> Forall (fun s => 0 <= ps_tag s < 65536) l) -> Z.of_nat (length (o_slots o) + length l) <= kInvalidHashSlot ->
  represents (fold_left (fun p slot => snd (AppendParsedFieldSlot c slot p)) l p) (with_slots c l o).
Proof.
  induction l as [|s l IH]; intros p o Hr Hex Hcon Hnd Hroot Hlen; cbn [fold_left]; [unfold with_slots; cbn; rewrite app_nil_r; by destruct o|].
  set (o1 := MkOwnership (o_slots o ++ [(c, s)]) (o_groups o) (o_entries o)). cbn [length] in Hlen.
  assert (Hr1 : represents (snd (AppendParsedFieldSlot c s p)) o1).
  { apply represents_append; try done; [by eapply resolve_exists|intros Hc; specialize (Hroot Hc); by apply Forall_cons in Hroot as [? _]|lia|]. apply no_such_field.
    rewrite map_app in Hnd. apply NoDup_app in Hnd as (_ & Hdis & _). apply Forall_forall. intros s' Hs' He. apply (Hdis (ps_tag s')).
    - apply list_elem_of_In, in_map, list_elem_of_In. done.
    - cbn. rewrite He. left. }
  assert (Hw : with_slots c (s :: l) o = with_slots c l o1) by (unfold with_slots, o1; cbn; by rewrite <- app_assoc).
  rewrite Hw. apply IH; try done.
  - destruct c; [done|]. right. cbn. rewrite fmap_app. apply last_snoc.
  - unfold o1. rewrite fields_of_snoc, bool_decide_eq_true_2, <- app_assoc by done. exact Hnd.
  - intros Hc. specialize (Hroot Hc). by apply Forall_cons in Hroot as [_ ?].
  - unfold o1. cbn. rewrite length_app. cbn. lia.
Qed.

Lemma append_all_raw c l : forall p, pm_raw (fold_left (fun p slot => snd (AppendParsedFieldSlot c slot p)) l p) = pm_raw p.
Proof. induction l as [|s l IH]; intros p; cbn; [done|]. by rewrite IH, append_raw. Qed.

Lemma with_slots_fields c l o : fields_of (with_slots c l o) c = fields_of o c ++ l.
Proof.
  unfold fields_of, with_slots. cbn. rewrite List.filter_app, fmap_app. f_equal. induction l as [|s l IH]; cbn; [done|]. unfold owns_slot at 1. cbn. rewrite bool_decide_eq_true_2 by done. cbn. by rewrite IH.
Qed.

Lemma no_fields_yet p o i : represents p o -> (length (o_entries o) <= i)%nat -> fields_of o (EntryContainer i) = [] /\ groups_of o (EntryContainer i) = [].
Proof.
  intros Hr Hi. split.
  - unfold fields_of. rewrite filter_all_false; [done|]. apply Forall_forall. intros [c s] Hin. apply list_elem_of_lookup in Hin as [k Hk]. pose proof (rp_slot_owners p o Hr k c s Hk) as Hx.
    unfold owns_slot. apply bool_decide_eq_false. cbn. intros ->. cbn in Hx. lia.
  - unfold groups_of. apply positions_none, Forall_forall. intros [c t] Hin. apply list_elem_of_lookup in Hin as [k Hk]. pose proof (rp_group_owners p o Hr k c t Hk) as Hx.
    unfold owns_group. apply bool_decide_eq_false. cbn. intros ->. cbn in Hx. lia.
Qed.

(** ** The decoder on a tree *)

Section Simulate.
Context `{FloatText} (sse : bool) (dict : NormalizedDictionaryView) (bytes : list Z) (d : Z).
Context (Hd1 : d <> kEquals) (Hd2 : ~ is_digit d) (Hsize : Z.of_nat (length bytes) <= UINT32_MAX).

Definition tracks (p : ParsedMessageData) (o : Ownership) : Prop := represents p o /\ pm_raw p = bytes.

(** Another field follows. *)
Definition next_field (rest : list Z) (t : Z) : Prop := exists v rest', rest = field_bytes t v d ++ rest' /\ field_fits d (t, v).

Definition entries_fields (entries : list (list Node)) : list (Z * list Z) := concat (map tree_fields entries).

Definition bounds (o o' : Ownership) : Bounds := MkBounds (length (o_entries o)) (length (o_entries o')) (length (o_groups o)) (length (o_groups o')).

(** The conditions on the entries of the group [ng]. *)
Definition group_ok (levels : nat) (ng : GroupDefRecord) (entries : list (list Node)) : Prop :=
  Z.of_nat (length entries) <= kMaxGroupEntryCount /\ Forall (fun e => entry_conforms dict d levels ng e = true) entries /\
  Forall (fun e => tree_closes dict e (delimiter_tag ng) = true) (removelast entries).

(** What parsing the entries of a group does, when they conform to [levels]. *)
Definition group_spec (levels : nat) (parse : ParseGroup) : Prop :=
  forall t entries ng rest t' st o c,
  find_group dict t = Some ng -> count_tag ng = t -> group_ok levels ng entries -> closes dict (NGroup t entries) t' = true ->
  from bytes (gs_pos st) (render (entries_fields entries) d ++ rest) -> next_field rest t' ->
  tracks (gs_parsed st) o -> container_exists o c -> (forall g, o_groups o !! g <> Some (c, t)) ->
  Z.of_nat (length (o_slots o) + length (entries_fields entries)) <= kInvalidHashSlot ->
  exists st' o', parse (count_text entries) ng c st = Value st' /\ gs_pos st' = (gs_pos st + length (render (entries_fields entries) d))%nat /\
    tracks (gs_parsed st') o' /\ grows (eq c) (fun _ => False) (length (o_entries o)) (length (o_groups o)) o o' /\
    groups_of o' c = groups_of o c ++ [length (o_groups o)] /\
    group_reads (reads bytes (S levels) (bounds o o') o') (bounds o o') o' c (t, entries) (length (o_groups o)) /\
    length (o_slots o') = (length (o_slots o) + length (entries_fields entries))%nat.

(** Nested groups are parsed with one level less. *)
Definition nested_spec (levels : nat) (nested : ParseGroup) : Prop := match levels with O => True | S levels => group_spec levels nested end.

(** The condition on a node of an entry of [g]. *)
Definition node_ok (levels : nat) (g : GroupDefRecord) (x : Node) : Prop :=
  tag_ok (node_tag x) = true /\ 0 <= group_rule_index dict g (node_tag x) /\
  match x with
  | NField t v => value_ok d v = true /\ find_group dict t = None
  | NGroup t entries => exists levels' ng, levels = S levels' /\ find_group dict t = Some ng /\ count_tag ng = t /\ group_ok levels' ng entries
  end.

Lemma entry_conforms_iff levels g nodes : entry_conforms dict d levels g nodes = true ->
  (exists v rest, nodes = NField (delimiter_tag g) v :: rest) /\ NoDup (map node_tag nodes) /\ (length nodes <= kMaxDeferredSlots)%nat /\ adjacent dict nodes = true /\
  Forall (node_ok levels g) nodes.
Proof.
  destruct levels as [|levels]; cbn [entry_conforms]; rewrite !andb_true_iff, forallb_forall, Nat.leb_le; unfold distinct_tags; rewrite bool_decide_eq_true.
  all: intros ((((H1 & H2) & H3) & H4) & H5); split_and!; try done; [destruct nodes as [|[t v|] nodes]; try done; apply Z.eqb_eq in H1 as ->; eauto|].
  all: apply Forall_forall; intros x Hx; apply list_elem_of_In, H5 in Hx; rewrite !andb_true_iff, Z.leb_le in Hx; destruct Hx as ((Hx1 & Hx2) & Hx3); split; [done|]; split; [done|].
  all: destruct x as [t v|t es]; [apply andb_true_iff in Hx3 as [Hx3 Hx4]; by apply bool_decide_eq_true in Hx4|]. { done. }
  destruct (find_group dict t) as [ng|]; [|done]. rewrite !andb_true_iff, Z.eqb_eq, Z.leb_le, !forallb_forall in Hx3. destruct Hx3 as (((G1 & G2) & G3) & G4).
  exists levels, ng. split_and!; try done. split_and!; [done| |]; apply Forall_forall; intros e He; [by apply G3, list_elem_of_In|by apply G4, list_elem_of_In].
Qed.

(** What a node contributes beyond its own field. *)
Definition inner_fields (x : Node) : list (Z * list Z) := match x with NField _ _ => [] | NGroup _ entries => entries_fields entries end.

Lemma node_fields_eq x : node_fields x = own_field x :: inner_fields x.
Proof. by destruct x. Qed.

Lemma value_fits t v : tag_ok t = true -> value_ok d v = true -> field_fits d (t, v).
Proof.
  clear Hd1 Hd2 Hsize. unfold tag_ok, value_ok. intros Ht Hv. apply andb_true_iff in Hv as [Hv1 Hv2]. split; [cbn; lia|]. cbn. split; [|lia]. intros Hin. apply negb_true_iff in Hv1.
  apply not_true_iff_false in Hv1. apply Hv1, existsb_exists. exists d. split; [by apply list_elem_of_In|apply Z.eqb_refl].
Qed.

Lemma count_text_eq entries : Z.of_nat (length entries) <= kMaxGroupEntryCount -> count_text entries = FormatUint32 (Z.of_nat (length entries)).
Proof. clear Hd1 Hd2 Hsize. unfold kMaxGroupEntryCount, count_text. intros Hl. rewrite format_int_uint by ulia. by rewrite u32_small by ulia. Qed.

Lemma count_fits t entries : tag_ok t = true -> ~ is_digit d -> Z.of_nat (length entries) <= kMaxGroupEntryCount -> field_fits d (t, count_text entries).
Proof.
  clear Hd1 Hd2 Hsize. intros Ht Hd Hl. rewrite count_text_eq by done. unfold tag_ok, kMaxGroupEntryCount in *. pose proof (FormatUint32_canonical (Z.of_nat (length entries)) ltac:(ulia)) as (Hdig & _). split; [cbn; lia|]. cbn. split.
  - intros Hin. rewrite Forall_forall in Hdig. by apply Hd, Hdig.
  - destruct (FormatUint32_length (Z.of_nat (length entries))) as [Hx|Hx]; [lia|exfalso; apply Hx; ulia].
Qed.

Lemma own_field_fits levels g x : ~ is_digit d -> node_ok levels g x -> field_fits d (own_field x).
Proof.
  intros Hd (Ht & _ & Hx). destruct x as [t v|t es]; cbn in *; [destruct Hx; by apply value_fits|]. destruct Hx as (l & ng & _ & _ & _ & (Hl & _)). by apply count_fits.
Qed.

Lemma tree_fields_cons x nodes : tree_fields (x :: nodes) = node_fields x ++ tree_fields nodes.
Proof. done. Qed.

Lemma from_lt pos rest t : from bytes pos rest -> next_field rest t -> (pos < length bytes)%nat.
Proof.
  intros [Hp Hdr] (v & rest' & -> & _). assert (Hl : (length bytes - pos = length (field_bytes t v d ++ rest'))%nat) by (by rewrite <- length_drop, Hdr).
  unfold field_bytes in Hl. rewrite !length_app in Hl. cbn in Hl. lia.
Qed.

(** The tag that follows the first of the nodes. *)
Definition next_tag (nodes : list Node) (t : Z) : Z := match nodes with [] => t | x :: _ => node_tag x end.

Lemma next_field_nodes nodes rest t : Forall (fun x => field_fits d (own_field x)) nodes -> next_field rest t -> next_field (render (tree_fields nodes) d ++ rest) (next_tag nodes t).
Proof.
  intros Hok Hn. destruct nodes as [|x nodes]; [done|]. apply Forall_cons in Hok as [Hf _].
  rewrite tree_fields_cons, node_fields_eq. cbn [app next_tag]. destruct (own_field x) as [t' v] eqn:E. rewrite render_cons, <- app_assoc.
  assert (t' = node_tag x) as -> by (destruct x; by injection E). by eexists _, _.
Qed.

Lemma adjacent_cons x nodes t : adjacent dict (x :: nodes) = true -> tree_closes dict (x :: nodes) t = true -> closes dict x (next_tag nodes t) = true /\ adjacent dict nodes = true /\ tree_closes dict nodes t = true.
Proof.
  destruct nodes as [|y nodes]; cbn [adjacent next_tag]; [done|]. intros [H1 H2]%andb_true_iff H3. done.
Qed.

Definition entry_bounds (i gb : nat) (o : Ownership) : Bounds := MkBounds (S i) (length (o_entries o)) gb (length (o_groups o)).

Definition groups_read (levels i gb : nat) (o : Ownership) (nodes : list Node) : Prop :=
  Forall2 (group_reads (reads bytes levels (entry_bounds i gb o) o) (entry_bounds i gb o) o (EntryContainer i)) (node_groups nodes) (groups_of o (EntryContainer i)).

Lemma node_groups_tag nodes t es : (t, es) ∈ node_groups nodes -> t ∈ map node_tag nodes.
Proof.
  intros Hin. apply list_elem_of_omap in Hin as (x & Hx & He). destruct x as [|t' es']; [done|]. injection He as -> ->. apply list_elem_of_In, in_map_iff. exists (NGroup t es). split; [done|by apply list_elem_of_In].
Qed.

Lemma groups_read_absent levels i gb o nodes t : groups_read levels i gb o nodes -> t ∉ map node_tag nodes -> forall g, o_groups o !! g <> Some (EntryContainer i, t).
Proof.
  intros Hg Ht g Hx. assert (Hin : g ∈ groups_of o (EntryContainer i)) by (apply positions_elem; exists (EntryContainer i, t); split; [done|by apply bool_decide_eq_true]).
  apply list_elem_of_lookup in Hin as [k Hk]. destruct (Forall2_lookup_r _ _ _ _ _ Hg Hk) as ([t' es] & Hn & (G1 & _)). rewrite Hx in G1. injection G1 as ->.
  apply Ht, (node_groups_tag _ _ es). by eapply list_elem_of_lookup_2.
Qed.

Lemma groups_read_step levels i gb o o' nodes x : groups_read levels i gb o nodes -> (i < length (o_entries o))%nat -> (gb <= length (o_groups o))%nat ->
  grows (eq (EntryContainer i)) (fun _ => False) (length (o_entries o)) (length (o_groups o)) o o' ->
  groups_of o' (EntryContainer i) = groups_of o (EntryContainer i) ++ [length (o_groups o)] ->
  group_reads (reads bytes levels (bounds o o') o') (bounds o o') o' (EntryContainer i) x (length (o_groups o)) ->
  groups_read levels i gb o' (nodes ++ [NGroup x.1 x.2]).
Proof.
  intros Hg Hi Hgb Hgr Hgo Hx. unfold groups_read. rewrite Hgo. unfold node_groups. rewrite omap_app. pose proof (grows_length _ _ _ _ _ _ Hgr) as (_ & L1 & L2). apply Forall2_app.
  - eapply Forall2_impl; [exact Hg|]. intros y g Hy. apply (group_reads_mono bytes levels levels (entry_bounds i gb o)); [done|repeat split; cbn; lia|].
    eapply group_reads_grows; [exact Hgr|done|done| |done|exact Hy]. intros c <- (j & [= <-] & Hj). cbn in Hj. lia.
  - cbn. constructor; [|constructor]. destruct x as [t es]. eapply group_reads_mono; [|..|exact Hx]; [done|]. repeat split; cbn; lia.
Qed.
Lemma groups_read_field levels i gb o nodes t v : groups_read levels i gb o nodes -> groups_read levels i gb o (nodes ++ [NField t v]).
Proof. unfold groups_read, node_groups. rewrite omap_app. cbn. by rewrite app_nil_r. Qed.

(** The fields the groups of the nodes contribute. *)
Definition nodes_inner (nodes : list Node) : list (Z * list Z) := concat (map inner_fields nodes).

(** The scan at a node, and the field that follows its own. *)
Lemma scan_node x nodes rest pos : field_fits d (own_field x) -> from bytes pos (render (tree_fields (x :: nodes)) d ++ rest) ->
  let f := inline_of (own_field x) pos in
  (pos < length bytes)%nat /\ ScanNextField sse bytes pos d = Value f /\ if_tag f = node_tag x /\ field_value bytes f = (own_field x).2 /\
  (forall ty, slot_shows bytes (own_field x) (inline_slot f ty)) /\ (pos < if_next_pos f)%nat /\
  if_next_pos f = (pos + length (field_bytes (own_field x).1 (own_field x).2 d))%nat /\
  from bytes (if_next_pos f) (render (inner_fields x) d ++ render (tree_fields nodes) d ++ rest).
Proof.
  intros Hf Hfrom. cbv zeta. rewrite tree_fields_cons, node_fields_eq in Hfrom.
  destruct (own_field x) as [t v] eqn:E. cbn [app] in Hfrom. rewrite render_cons, render_app, <- !app_assoc in Hfrom.
  assert (Ht : t = node_tag x) by (destruct x; by injection E).
  split_and!.
  - eapply from_lt; [exact Hfrom|]. by eexists v, _.
  - by eapply (scan_rendered d Hd1 Hd2 sse bytes pos (t, v)).
  - rewrite (inline_tag d (t, v) pos Hf). done.
  - by eapply (inline_value d bytes (t, v)).
  - intros ty. by eapply (inline_slot_shows d bytes (t, v)).
  - rewrite (inline_next d (t, v)). cbn. unfold field_bytes. rewrite !length_app. cbn. lia.
  - by rewrite (inline_next d (t, v)).
  - rewrite (inline_next d (t, v)). by apply from_app.
Qed.
(** The state of an entry that is being read: the nodes that are done. *)
Definition entry_state (levels i gb : nat) (p : ParsedMessageData) (o : Ownership) (deferred : list ParsedFieldSlot) (nodes : list Node) : Prop :=
  tracks p o /\ (i < length (o_entries o))%nat /\ (gb <= length (o_groups o))%nat /\
  Forall2 (slot_shows bytes) (map own_field nodes) deferred /\ groups_read levels i gb o nodes.

(** One node: its slot is deferred and its group, if it is one, is read. *)
Lemma node_step levels nested g i gb done x p o deferred pos t' rest ty issue :
  nested_spec levels nested -> node_ok levels g x -> closes dict x t' = true -> node_tag x ∉ map node_tag done -> (length done < kMaxDeferredSlots)%nat ->
  entry_state levels i gb p o deferred done -> from bytes pos (render (tree_fields [x]) d ++ rest) -> next_field rest t' ->
  Z.of_nat (length (o_slots o) + length (inner_fields x)) <= kInvalidHashSlot ->
  let f := inline_of (own_field x) pos in
  let deferred' := deferred ++ [inline_slot f ty] in
  exists st' o',
    match find_group dict (node_tag x) with
    | Some ng => nested (field_value bytes f) ng (EntryContainer i) (MkGroupState (if_next_pos f) p issue)
    | None => Value (MkGroupState (if_next_pos f) p issue)
    end = Value st' /\
    gs_pos st' = (pos + length (render (node_fields x) d))%nat /\ entry_state levels i gb (gs_parsed st') o' deferred' (done ++ [x]) /\
    grows (eq (EntryContainer i)) (fun _ => False) (length (o_entries o)) (length (o_groups o)) o o' /\
    length (o_slots o') = (length (o_slots o) + length (inner_fields x))%nat.
Proof.
  intros Hnest Hx Hcl Hfresh Hlen (Htr & Hi & Hgb & Hdef & Hgrp) Hfrom Hnext Hslots.
  destruct (scan_node x [] rest pos (own_field_fits _ _ _ Hd2 Hx) Hfrom) as (_ & _ & _ & Hval & Hshow & _ & Hnp & Hinner). cbv zeta. rewrite Hval.
  assert (Hdef' : Forall2 (slot_shows bytes) (map own_field (done ++ [x])) (deferred ++ [inline_slot (inline_of (own_field x) pos) ty])).
  { rewrite map_app. apply Forall2_app; [done|]. constructor; [apply Hshow|constructor]. }
  change (render (tree_fields []) d ++ rest) with rest in Hinner.
  assert (Hsz : length (render (node_fields x) d) = (length (field_bytes (own_field x).1 (own_field x).2 d) + length (render (inner_fields x) d))%nat).
  { rewrite node_fields_eq. destruct (own_field x) as [a b]. by rewrite render_cons, length_app. }
  destruct Hx as (Hx1 & Hx2 & Hx3). destruct x as [t v|t es].
  - destruct Hx3 as [_ Hno]. cbn [node_tag]. rewrite Hno. eexists _, o. split; [reflexivity|]. cbn [gs_pos gs_parsed]. rewrite Hnp, Hsz. cbn [inner_fields] in *. split; [cbn; lia|]. split_and!; try done.
    + split_and!; try done. by apply groups_read_field.
    + apply grows_refl.
  - destruct Hx3 as (levels' & ng & -> & Hng & Hct & Hok). cbn [node_tag]. rewrite Hng. cbn [inner_fields own_field fst snd] in *.
    destruct (Hnest t es ng rest t' (MkGroupState (if_next_pos (inline_of (t, count_text es) pos)) p issue) o (EntryContainer i)) as (st' & o' & H1 & H2 & H3 & H4 & H5 & H6 & H7); try done.
    { by eapply groups_read_absent. }
    exists st', o'. rewrite H1. split; [done|]. rewrite H2. cbn [gs_pos]. rewrite Hnp, Hsz. split; [lia|]. pose proof (grows_length _ _ _ _ _ _ H4) as (_ & L1 & L2). split_and!; try done.
    split_and!; try done; [lia|lia|]. by apply (groups_read_step (S levels') i gb o o' done (t, es)).
Qed.
(** The loop over the fields of an entry reads its nodes. *)
Lemma fields_loop levels nested g i gb t' rest : nested_spec levels nested -> stops dict g t' = true -> next_field rest t' ->
  forall nodes done fuel scope deferred st o,
  (exists v r, done ++ nodes = NField (delimiter_tag g) v :: r) -> NoDup (map node_tag (done ++ nodes)) -> (length (done ++ nodes) <= kMaxDeferredSlots)%nat ->
  adjacent dict nodes = true -> tree_closes dict nodes t' = true -> Forall (node_ok levels g) nodes ->
  entry_state levels i gb (gs_parsed st) o deferred done -> from bytes (gs_pos st) (render (tree_fields nodes) d ++ rest) ->
  Z.of_nat (length (o_slots o) + length (nodes_inner nodes)) <= kInvalidHashSlot -> (length bytes < gs_pos st + fuel)%nat ->
  exists st' o' deferred', group_fields_loop sse dict bytes d nested fuel g (EntryContainer i) (negb (length done =? 0)%nat) scope deferred st = Value (st', deferred') /\
    gs_pos st' = (gs_pos st + length (render (tree_fields nodes) d))%nat /\ entry_state levels i gb (gs_parsed st') o' deferred' (done ++ nodes) /\
    grows (eq (EntryContainer i)) (fun _ => False) (length (o_entries o)) (length (o_groups o)) o o' /\
    length (o_slots o') = (length (o_slots o) + length (nodes_inner nodes))%nat.
Proof.
  intros Hnest Hstop Hnext nodes. induction nodes as [|x nodes IH]; intros done fuel scope deferred st o Hhead Hnd Hmax Hadj Hcl Hok Hst Hfrom Hslots Hfuel.
  - destruct fuel as [|fuel]; [destruct Hfrom as [? _]; lia|]. rewrite app_nil_r in *. destruct Hhead as (v & r & ->). cbn [length Nat.eqb negb group_fields_loop].
    pose proof (from_lt _ _ _ Hfrom Hnext) as Hlt. replace (length bytes <=? gs_pos st)%nat with false by (symmetry; apply Nat.leb_gt; lia).
    destruct Hnext as (v' & rest' & -> & Hf). rewrite (scan_rendered d Hd1 Hd2 sse bytes (gs_pos st) (t', v') rest' Hf Hfrom). cbv zeta. rewrite (inline_tag d (t', v') _ Hf). cbn [fst andb].
    exists st, o, deferred. split; [unfold stops in Hstop; apply orb_true_iff in Hstop as [->|Hs]; [done|rewrite Hs; by destruct (t' =? delimiter_tag g)]|].
    split; [cbn; lia|]. split; [done|]. split; [apply grows_refl|cbn; lia].
  - destruct fuel as [|fuel]; [destruct Hfrom as [? _]; lia|]. apply Forall_cons in Hok as [Hx Hok]. destruct (adjacent_cons _ _ _ Hadj Hcl) as (Hclx & Hadj' & Hcl').
    destruct (scan_node x nodes rest (gs_pos st) (own_field_fits _ _ _ Hd2 Hx) Hfrom) as (Hlt & Hscan & Htag & _ & _ & Hnp & _).
    cbn [group_fields_loop]. replace (length bytes <=? gs_pos st)%nat with false by (symmetry; apply Nat.leb_gt; lia). rewrite Hscan. cbv zeta. rewrite Htag.
    assert (Hfresh : node_tag x ∉ map node_tag done).
    { rewrite map_app in Hnd. apply NoDup_app in Hnd as (_ & Hdis & _). intros Hin. apply (Hdis _ Hin). cbn. left. }
    replace (negb (length done =? 0)%nat && (node_tag x =? delimiter_tag g)) with false.
    2: { destruct done as [|y done']; [done|]. cbn [length Nat.eqb negb andb]. destruct Hhead as (v & r & [= -> _]). symmetry. apply Z.eqb_neq. intros He. apply Hfresh. rewrite He. left. }
    assert (Hri : (group_rule_index dict g (node_tag x) <? 0) = false) by (destruct Hx as (_ & ? & _); lia). rewrite Hri.
    destruct (ValidateConsumedField _ _ _ _ _ _ _ _ _ _ _) as [scope' issue'].
    assert (Hlen : (length done < kMaxDeferredSlots)%nat) by (rewrite length_app in Hmax; cbn in Hmax; lia).
    assert (Hdl : length deferred = length done) by (destruct Hst as (_ & _ & _ & Hdef & _); apply Forall2_length in Hdef; by rewrite length_map in Hdef).
    rewrite Hdl, (proj2 (Nat.ltb_lt _ _) Hlen).
    change (nodes_inner (x :: nodes)) with (inner_fields x ++ nodes_inner nodes) in *. rewrite length_app in Hslots |- *.
    assert (Hfrom1 : from bytes (gs_pos st) (render (tree_fields [x]) d ++ render (tree_fields nodes) d ++ rest)).
    { rewrite app_assoc, <- render_app. unfold tree_fields at 1. cbn [map concat]. rewrite app_nil_r. exact Hfrom. }
    destruct (node_step levels nested g i gb done x (gs_parsed st) o deferred (gs_pos st) (next_tag nodes t') (render (tree_fields nodes) d ++ rest)
      (ResolveFieldTypeWithDef (node_tag x) (find_field dict (node_tag x)))
      (ValidateScalarFieldValue (node_tag x) (field_value bytes (inline_of (own_field x) (gs_pos st))) (ResolveFieldTypeWithDef (node_tag x) (find_field dict (node_tag x))) issue')
      Hnest Hx Hclx Hfresh Hlen Hst Hfrom1) as (st1 & o1 & H1 & H2 & H3 & H4 & H5); [apply next_field_nodes; [eapply Forall_impl; [exact Hok|]; intros y; by apply own_field_fits|done]|lia|].
    assert (Hsz : length (render (tree_fields (x :: nodes)) d) = (length (render (node_fields x) d) + length (render (tree_fields nodes) d))%nat) by (rewrite tree_fields_cons, render_app; apply length_app).
    assert (Hadv : (0 < length (render (node_fields x) d))%nat).
    { rewrite node_fields_eq. destruct (own_field x). rewrite render_cons, length_app. unfold field_bytes. rewrite !length_app. cbn. lia. }
    assert (Hfrom2 : from bytes (gs_pos st1) (render (tree_fields nodes) d ++ rest)).
    { rewrite H2. apply from_app. by rewrite tree_fields_cons, render_app, <- app_assoc in Hfrom. }
    assert (Hass : (done ++ [x]) ++ nodes = done ++ x :: nodes) by (by rewrite <- app_assoc). rewrite <- Hass in Hhead, Hnd, Hmax.
    destruct (IH (done ++ [x]) fuel scope' _ st1 o1 Hhead Hnd Hmax Hadj' Hcl' Hok H3 Hfrom2 ltac:(lia) ltac:(lia)) as (st2 & o2 & deferred2 & G1 & G2 & G3 & G4 & G5).
    rewrite length_app in G1. cbn [length] in G1. replace (length done + 1 =? 0)%nat with false in G1 by (symmetry; apply Nat.eqb_neq; lia). cbn [negb] in G1.
    exists st2, o2, deferred2. split.
    { destruct (find_group dict (node_tag x)); [by rewrite H1|]. injection H1 as <-. exact G1. }
    rewrite <- app_assoc in G3. split; [lia|]. split; [exact G3|]. split; [|lia].
    eapply grows_trans; [exact H4|]. pose proof (grows_length _ _ _ _ _ _ H4) as (_ & L1 & L2). eapply grows_weaken; [exact G4|lia|by left|]. intros k [[]|Hk]. right. lia.
Qed.
(** The slots of an entry do not change what the entries within its groups show. *)
Lemma with_slots_other c c' l o : c <> c' -> fields_of (with_slots c l o) c' = fields_of o c'.
Proof.
  intros Hc. unfold fields_of, with_slots. cbn. rewrite List.filter_app, (filter_all_false _ (map (pair c) l)); [by rewrite app_nil_r|].
  apply Forall_forall. intros x Hx. apply list_elem_of_In, in_map_iff in Hx as (s & <- & _). by apply bool_decide_eq_false.
Qed.

Lemma reads_with_slots n b o c0 l : ~ within b c0 -> forall c nodes, reads bytes n b o c nodes -> reads bytes n b (with_slots c0 l o) c nodes.
Proof.
  intros Hw. induction n as [|n IH]; intros c nodes; [done|]. intros (Hc & Hf & Hg). split; [done|]. rewrite with_slots_other by (by intros ->). split; [done|].
  eapply Forall2_impl; [exact Hg|]. intros x g (G1 & G2 & G3). split; [done|]. split; [done|]. eapply Forall2_impl; [exact G3|]. intros nd i. apply IH.
Qed.

Lemma tree_fields_length nodes : length (tree_fields nodes) = (length nodes + length (nodes_inner nodes))%nat.
Proof.
  induction nodes as [|x nodes IH]; [done|]. rewrite tree_fields_cons, node_fields_eq, length_app, IH. change (nodes_inner (x :: nodes)) with (inner_fields x ++ nodes_inner nodes).
  rewrite length_app. cbn [length]. lia.
Qed.

Lemma shown_tags nodes slots : Forall2 (slot_shows bytes) (map own_field nodes) slots -> map ps_tag slots = map node_tag nodes.
Proof.
  intros Hf. remember (map own_field nodes) as fs eqn:E. revert nodes E. induction Hf as [|f sl fs slots Hs _ IH]; intros [|x nodes] E; try done. injection E as -> ->. cbn. rewrite (IH nodes eq_refl).
  f_equal. destruct Hs as [-> _]. by destruct x.
Qed.

Lemma no_slots o c : fields_of o c = [] -> positions (owns_slot c) (o_slots o) = [].
Proof.
  intros Hf. apply positions_none, Forall_forall. intros x Hx. destruct (owns_slot c x) eqn:E; [|done]. exfalso. apply fmap_nil_inv in Hf.
  assert (Hin : In x (List.filter (owns_slot c) (o_slots o))) by (apply List.filter_In; split; [by apply list_elem_of_In|done]). by rewrite Hf in Hin.
Qed.

(** One entry of the group [gi]. *)
Lemma entry_step levels nested g gi e st o t' rest : nested_spec levels nested -> entry_conforms dict d levels g e = true -> stops dict g t' = true -> tree_closes dict e t' = true ->
  next_field rest t' -> from bytes (gs_pos st) (render (tree_fields e) d ++ rest) -> tracks (gs_parsed st) o -> (gi < length (o_groups o))%nat ->
  Z.of_nat (length (o_slots o) + length (tree_fields e)) <= kInvalidHashSlot ->
  let i := length (o_entries o) in
  exists p1 st1 deferred o',
    AppendParsedEntry gi (gs_parsed st) = (i, p1) /\
    group_fields_loop sse dict bytes d nested (S (length bytes)) g (EntryContainer i) false new_scope [] (MkGroupState (gs_pos st) p1 (gs_issue st)) = Value (st1, deferred) /\
    gs_pos st1 = (gs_pos st + length (render (tree_fields e) d))%nat /\
    tracks (fold_left (fun p slot => snd (AppendParsedFieldSlot (EntryContainer i) slot p)) deferred (gs_parsed st1)) o' /\
    grows (fun _ => False) (eq gi) i (length (o_groups o)) o o' /\ entries_of o' gi = entries_of o gi ++ [i] /\
    reads bytes (S levels) (bounds o o') o' (EntryContainer i) e /\ length (o_slots o') = (length (o_slots o) + length (tree_fields e))%nat.
Proof.
  intros Hnest Hconf Hstop Hcl Hnext Hfrom [Hrep Hraw] Hgi Hslots i. destruct (entry_conforms_iff _ _ _ Hconf) as (Hhead & Hnd & Hmax & Hadj & Hok).
  destruct (represents_entry (gs_parsed st) o gi Hrep Hgi) as [Happ Hrep1]. set (p1 := snd (AppendParsedEntry gi (gs_parsed st))) in *. unfold add_entry in Hrep1. cbn [snd] in Hrep1.
  set (o1 := MkOwnership (o_slots o) (o_groups o) (o_entries o ++ [gi])) in *. destruct (no_fields_yet _ _ i Hrep (le_n _)) as [Hnof Hnog].
  assert (Hst : entry_state levels i (length (o_groups o)) p1 o1 [] []).
  { split_and!; [by split|cbn; rewrite length_app; cbn; unfold i; lia|done|constructor|]. unfold groups_read. change (groups_of o1 (EntryContainer i)) with (groups_of o (EntryContainer i)). rewrite Hnog. constructor. }
  rewrite tree_fields_length in *.
  destruct (fields_loop levels nested g i (length (o_groups o)) t' rest Hnest Hstop Hnext e [] (S (length bytes)) new_scope [] (MkGroupState (gs_pos st) p1 (gs_issue st)) o1)
    as (st1 & o2 & deferred & H1 & H2 & ([Hrep2 Hraw2] & Hi2 & Hgb2 & Hdef & Hgrp) & H4 & H5); try done; [cbn [o_slots o1] in *; lia|cbn; lia|].
  pose proof (Forall2_length _ _ _ Hdef) as Hlen. rewrite length_map in Hlen. cbn [length app o_slots o1 gs_pos] in *.
  assert (Hno2 : fields_of o2 (EntryContainer i) = []).
  { rewrite (grows_fields _ _ _ _ _ _ (EntryContainer i) H4); [done|]. intros (j & [= <-] & Hj). cbn in Hj. rewrite length_app in Hj. cbn in Hj. unfold i in Hj. lia. }
  exists p1, st1, deferred, (with_slots (EntryContainer i) deferred o2). split; [done|]. split; [done|]. split; [done|].
  assert (Hrep3 : represents (fold_left (fun p slot => snd (AppendParsedFieldSlot (EntryContainer i) slot p)) deferred (gs_parsed st1)) (with_slots (EntryContainer i) deferred o2)).
  { apply append_all; try done; [left; apply no_slots, Hno2|rewrite Hno2; cbn [app]; by rewrite (shown_tags _ _ Hdef)|lia]. }
  split; [split; [done|by rewrite append_all_raw]|].
  assert (Hgrow : grows (fun _ => False) (eq gi) i (length (o_groups o)) o (with_slots (EntryContainer i) deferred o2)).
  { destruct H4 as (s & gg & ee & G1 & G2 & G3 & G4 & G5 & G6). cbn in G1, G2, G3, G4, G5, G6. rewrite length_app in G4, G5. cbn [length] in G4, G5.
    assert (Hfr : forall c, fresh (length (o_entries o) + 1) c -> fresh i c) by (intros c (j & -> & Hj); exists j; unfold i; split; [done|lia]).
    exists (s ++ map (pair (EntryContainer i)) deferred), gg, (gi :: ee). cbn. rewrite G1, G2, G3, <- !app_assoc. split_and!; try done.
    - apply Forall_app. split; [eapply Forall_impl; [exact G4|]; auto|]. apply Forall_forall. intros x Hx. apply list_elem_of_In, in_map_iff in Hx as (y & <- & _). by exists i.
    - eapply Forall_impl; [exact G5|]. intros x [<-|Hx]; right; [by exists i|auto].
    - constructor; [by left|]. eapply Forall_impl; [exact G6|]. intros x [[]|Hx]. by right. }
  split; [done|]. split.
  { change (entries_of (with_slots (EntryContainer i) deferred o2) gi) with (entries_of o2 gi). rewrite (grows_entries _ _ _ _ _ _ gi H4) by (done || (intros [])).
    unfold entries_of. change (o_entries o1) with (o_entries o ++ [gi]). rewrite positions_snoc. unfold owns_entry at 2. by rewrite bool_decide_eq_true_2. }
  split; [|cbn; rewrite length_app, length_map; lia].
  pose proof (grows_length _ _ _ _ _ _ H4) as (_ & L1 & L2). cbn in L1, L2. rewrite length_app in L2. cbn in L2.
  split; [exists i; split; [done|cbn; unfold i in *; lia]|]. rewrite with_slots_fields, Hno2. split; [exact Hdef|].
  eapply Forall2_impl; [exact Hgrp|]. intros x k Hx. apply (group_reads_mono bytes levels levels (entry_bounds i (length (o_groups o)) o2)); [done|repeat split; cbn; unfold i; lia|].
  destruct Hx as (X1 & X2 & X3). split; [done|]. split; [done|]. eapply Forall2_impl; [exact X3|]. intros nd j. apply reads_with_slots. intros (q & [= <-] & Hq). cbn in Hq. lia.
Qed.
Lemma delimiter_stops g : stops dict g (delimiter_tag g) = true.
Proof. unfold stops. by rewrite Z.eqb_refl. Qed.

(** What comes after the first of the entries. *)
Definition after_entry (g : GroupDefRecord) (entries : list (list Node)) (t : Z) : Z := match entries with [] => t | _ :: _ => delimiter_tag g end.

Lemma next_field_entries levels g entries rest t : Forall (fun e => entry_conforms dict d levels g e = true) entries -> next_field rest t ->
  next_field (render (entries_fields entries) d ++ rest) (after_entry g entries t).
Proof.
  intros Hc Hn. destruct entries as [|e entries]; [done|]. apply Forall_cons in Hc as [He _]. destruct (entry_conforms_iff _ _ _ He) as ((v & r & ->) & _ & _ & _ & Hok).
  change (entries_fields ((NField (delimiter_tag g) v :: r) :: entries)) with ((delimiter_tag g, v) :: tree_fields r ++ entries_fields entries).
  rewrite render_cons, <- app_assoc. eexists v, _. split; [done|]. apply Forall_cons in Hok as [Hx _]. exact (own_field_fits _ _ _ Hd2 Hx).
Qed.

(** The conditions on the entries that are left. *)
Definition entries_ok (levels : nat) (g : GroupDefRecord) (entries : list (list Node)) (t : Z) : Prop :=
  Forall (fun e => entry_conforms dict d levels g e = true) entries /\ Forall (fun e => tree_closes dict e (delimiter_tag g) = true) (removelast entries) /\
  on_last (fun e => stops dict g t && tree_closes dict e t) entries = true.

Lemma entries_ok_cons levels g e entries t : entries_ok levels g (e :: entries) t ->
  entry_conforms dict d levels g e = true /\ stops dict g (after_entry g entries t) = true /\ tree_closes dict e (after_entry g entries t) = true /\ entries_ok levels g entries t.
Proof.
  intros (H1 & H2 & H3). apply Forall_cons in H1 as [He H1]. split; [done|]. destruct entries as [|e' entries].
  - cbn in H3. apply andb_true_iff in H3 as [H3 H4]. repeat split; try done; constructor.
  - apply Forall_cons in H2 as [H2 H2']. split; [apply delimiter_stops|]. split; [done|]. by split_and!.
Qed.

(** The loop over the entries of the group [gi]. *)
Lemma entries_loop levels nested g gi t' rest : nested_spec levels nested -> next_field rest t' -> forall entries k st o,
  entries_ok levels g entries t' -> from bytes (gs_pos st) (render (entries_fields entries) d ++ rest) -> tracks (gs_parsed st) o -> (gi < length (o_groups o))%nat ->
  Z.of_nat (length (o_slots o) + length (entries_fields entries)) <= kInvalidHashSlot ->
  exists st' o' ids, group_entries_loop sse dict bytes d nested (length entries) k g gi st = Value st' /\
    gs_pos st' = (gs_pos st + length (render (entries_fields entries) d))%nat /\ tracks (gs_parsed st') o' /\
    grows (fun _ => False) (eq gi) (length (o_entries o)) (length (o_groups o)) o o' /\ entries_of o' gi = entries_of o gi ++ ids /\
    Forall2 (fun nodes i => reads bytes (S levels) (bounds o o') o' (EntryContainer i) nodes) entries ids /\
    length (o_slots o') = (length (o_slots o) + length (entries_fields entries))%nat.
Proof.
  intros Hnest Hnext entries. induction entries as [|e entries IH]; intros k st o Hok Hfrom Htr Hgi Hslots.
  - exists st, o, []. cbn. rewrite app_nil_r. split_and!; try done; try lia. apply grows_refl.
  - change (entries_fields (e :: entries)) with (tree_fields e ++ entries_fields entries) in *. rewrite render_app, <- app_assoc in Hfrom. rewrite length_app in Hslots.
    destruct (entries_ok_cons _ _ _ _ _ Hok) as (He & Hstop & Hcl & Hok'). pose proof (next_field_entries _ _ _ _ _ (proj1 Hok') Hnext) as Hnext'.
    destruct (next_field_entries levels g [e] (render (entries_fields entries) d ++ rest) (after_entry g entries t') ltac:(by constructor) Hnext') as (v & r & Hr & Hf).
    unfold entries_fields at 1 in Hr. cbn [map concat] in Hr. rewrite app_nil_r in Hr. cbn [after_entry] in Hr, Hf.
    destruct (entry_step levels nested g gi e st o _ _ Hnest He Hstop Hcl Hnext' Hfrom Htr Hgi ltac:(lia)) as (p1 & st1 & deferred & o1 & A1 & A2 & A3 & A4 & A5 & A6 & A7 & A8).
    cbn [length group_entries_loop]. rewrite Hr in Hfrom. assert (Hlt : (gs_pos st < length bytes)%nat) by (eapply from_lt; [exact Hfrom|by eexists v, r]).
    replace (length bytes <=? gs_pos st)%nat with false by (symmetry; apply Nat.leb_gt; lia). rewrite (scan_rendered d Hd1 Hd2 sse bytes (gs_pos st) _ r Hf Hfrom).
    cbv zeta. rewrite (inline_tag d _ _ Hf). cbn [fst]. rewrite Z.eqb_refl. cbn [negb]. rewrite A1, A2. pose proof (grows_length _ _ _ _ _ _ A5) as (_ & L1 & L2).
    rewrite <- Hr in Hfrom.
    destruct (IH (k + 1) (MkGroupState (gs_pos st1) (fold_left (fun p slot => snd (AppendParsedFieldSlot (EntryContainer (length (o_entries o))) slot p)) deferred (gs_parsed st1)) (gs_issue st1)) o1)
      as (st2 & o2 & ids & B1 & B2 & B3 & B4 & B5 & B6 & B7); try done; [cbn; rewrite A3; by apply from_app|lia|lia|].
    exists st2, o2, (length (o_entries o) :: ids). split; [exact B1|]. cbn [gs_pos] in B2. rewrite render_app, !length_app. split; [lia|]. split; [done|].
    pose proof (grows_length _ _ _ _ _ _ B4) as (_ & M1 & M2). split; [|split; [by rewrite B5, A6, <- app_assoc|]].
    { eapply grows_trans; [exact A5|]. eapply grows_weaken; [exact B4|lia|by left|]. intros j [Hj|Hj]; [by left|right; lia]. }
    split; [|lia]. constructor.
    + eapply (reads_mono bytes (S levels) (S levels) (bounds o o1)); try done.
      eapply reads_grows; [exact B4|done|done|done| |exact A7]. intros j <- Hj. cbn in Hj. lia.
    + eapply Forall2_impl; [exact B6|]. intros nd j. by apply reads_mono.
Qed.
Lemma parse_count v label : in_u32 v -> ParseUnsigned (FormatUint32 v) label = Value v.
Proof. intros Hv. unfold ParseUnsigned, whole. rewrite from_chars_format by done. by rewrite Nat.eqb_refl. Qed.

Lemma no_entries_yet p o g : represents p o -> (length (o_groups o) <= g)%nat -> entries_of o g = [].
Proof.
  intros Hr Hg. apply positions_none, Forall_forall. intros x Hx. apply list_elem_of_lookup in Hx as [k Hk]. pose proof (rp_entry_owners p o Hr k x Hk). apply bool_decide_eq_false. lia.
Qed.

Lemma group_parse_step levels : nested_spec levels (ParseParsedGroupEntries sse dict bytes d levels) -> group_spec levels (ParseParsedGroupEntries sse dict bytes d (S levels)).
Proof.
  intros Hnest t entries ng rest t' st o c Hng Hct (Hmax & Hconf & Hsep) Hcl Hfrom Hnext [Hrep Hraw] Hex Hnone Hslots.
  assert (Hok : entries_ok levels ng entries t') by (cbn in Hcl; rewrite Hng in Hcl; by split_and!).
  cbn [ParseParsedGroupEntries]. rewrite count_text_eq by done. rewrite (parse_count (Z.of_nat (length entries)) _ ltac:(unfold kMaxGroupEntryCount in Hmax; ulia)).
  replace (Z.of_nat (length entries) >? kMaxGroupEntryCount) with false by (symmetry; rewrite Z.gtb_ltb; apply Z.ltb_ge; lia). rewrite Nat2Z.id, Hct. cbv zeta.
  destruct (represents_group (gs_parsed st) o c t (kMaxGroupNestingDepth - Z.of_nat (S levels)) Hrep Hex (no_such_group _ _ _ Hnone)) as [Hens Hrep1].
  set (p1 := snd (EnsureParsedGroup c t _ (gs_parsed st))) in *. rewrite Hens. set (gi := length (o_groups o)) in *. set (o1 := MkOwnership (o_slots o) (o_groups o ++ [(c, t)]) (o_entries o)) in *.
  assert (Hgi : (gi < length (o_groups o1))%nat) by (cbn; rewrite length_app; cbn; unfold gi; lia).
  destruct (entries_loop levels _ ng gi t' rest Hnest Hnext entries 0 (MkGroupState (gs_pos st) p1 (gs_issue st)) o1) as (st' & o' & ids & B1 & B2 & B3 & B4 & B5 & B6 & B7); try done.
  { split; [done|]. cbn [gs_parsed]. unfold p1. by rewrite group_raw. }
  pose proof (grows_length _ _ _ _ _ _ B4) as (_ & M1 & M2).
  assert (Hfr : ~ fresh (length (o_entries o)) c) by (intros (j & -> & Hj); cbn in Hex; lia).
  exists st', o'. split; [done|]. split; [done|]. split; [done|]. split.
  { destruct B4 as (s & gg & ee & G1 & G2 & G3 & G4 & G5 & G6). exists s, ((c, t) :: gg), ee. cbn in G1, G2, G3, G4, G5, G6. rewrite G1, G2, G3, <- app_assoc. split_and!; try done.
    - constructor; [by left|]. eapply Forall_impl; [exact G5|]. intros x [[]|Hx]. by right.
    - eapply Forall_impl; [exact G6|]. intros x [<-|Hx]; right; [done|]. rewrite length_app in Hx. cbn in Hx. lia. }
  split.
  { rewrite (grows_groups _ _ _ _ _ _ c B4) by (done || (intros [])). unfold groups_of. change (o_groups o1) with (o_groups o ++ [(c, t)]). rewrite positions_snoc. unfold owns_group at 2. by rewrite bool_decide_eq_true_2. }
  split; [|done]. split; [|split].
  - eapply grows_group_at; [exact B4|]. apply list_lookup_middle. done.
  - cbn. unfold gi in *. lia.
  - rewrite B5. change (entries_of o1 gi) with (entries_of o gi). rewrite (no_entries_yet _ _ gi Hrep (le_n _)). cbn [app snd]. eapply Forall2_impl; [exact B6|].
    intros nd j. apply reads_mono; try done. cbn. rewrite length_app. cbn. lia.
Qed.

(** Parsing a group reads its entries, at every depth. *)
Lemma group_parse levels : group_spec levels (ParseParsedGroupEntries sse dict bytes d (S levels)).
Proof. induction levels as [|levels IH]; by apply group_parse_step. Qed.
End Simulate.

(** A flat list of fields as nodes. *)
Definition field_nodes (fs : list (Z * list Z)) : list Node := map (fun f => NField f.1 f.2) fs.

Lemma field_nodes_fields fs : tree_fields (field_nodes fs) = fs /\ map own_field (field_nodes fs) = fs.
Proof. induction fs as [|[t v] fs [IH1 IH2]]; [done|]. split; cbn; by f_equal. Qed.
