(* ===== verification/DecodeFrame.v ===== *)
(** * Decoding a frame

    The decoder on a whole frame: the root fields and groups, the frame fields and
    the header.  A frame whose body renders a tree of fields and groups is decoded to
    a message object whose accessors show the tree. *)
From S2P Require Import Prelude Base StdAlgo BitTable SortSearch IntFormat Scan FixTags Wire RawPassThrough Message NormalizedDictionary ParsedMessage Decoder DecoderProofs DecodeTree.
Open Scope Z_scope.

(** ** Root nodes *)

#[global] Instance GroupDefRecord_eq_dec : EqDecision GroupDefRecord.
Proof. solve_decision. Defined.

(** The header switch takes the value of the field. *)
Definition header_accepts (tag : Z) (value : list Z) : bool :=
  match extract_header tag value empty_header with Value _ => true | Error _ => false end.

(** The header after a field. *)
Definition header_step (h : SessionHeaderView) (f : Z * list Z) : SessionHeaderView :=
  if f.1 =? tags.kMsgType then with_msg_type (text_of f.2) h else match extract_header f.1 f.2 h with Value h => h | Error _ => h end.

Section Root.
Context (dict : NormalizedDictionaryView) (d : Z) (group_at : Z -> option GroupDefRecord).

(** A node of the root, with the groups [group_at] opens there. *)
Definition root_conforms (x : Node) : bool :=
  tag_ok (node_tag x) && negb (ShouldSkipField (node_tag x)) && negb (node_tag x =? tags.kMsgType) && header_accepts (own_field x).1 (own_field x).2 &&
  match x with
  | NField t v => value_ok d v && bool_decide (group_at t = None)
  | NGroup t entries =>
      match group_at t with
      | Some ng => bool_decide (find_group dict t = Some ng) && (count_tag ng =? t) && (Z.of_nat (length entries) <=? kMaxGroupEntryCount) &&
                   forallb (entry_conforms dict d 14 ng) entries && forallb (fun e => tree_closes dict e (delimiter_tag ng)) (removelast entries)
      | None => false
      end
  end.

(** The nodes of a body behind the MsgType field. *)
Definition body_conforms (nodes : list Node) : bool :=
  forallb root_conforms nodes && bool_decide (NoDup (tags.kMsgType :: map node_tag nodes)) && adjacent dict nodes && tree_closes dict nodes tags.kCheckSum.
End Root.

Section Frame.
Context `{FloatText} (sse : bool) (dict : NormalizedDictionaryView) (bytes : list Z) (d : Z).
Context (Hd1 : d <> kEquals) (Hd2 : ~ is_digit d) (Hsize : Z.of_nat (length bytes) <= UINT32_MAX).

Definition root_bounds (o : Ownership) : Bounds := MkBounds 0 (length (o_entries o)) 0 (length (o_groups o)).

(** The message object shows the nodes at its root. *)
Definition root_reads (p : ParsedMessageData) (o : Ownership) (nodes : list Node) : Prop :=
  tracks bytes p o /\ Forall2 (slot_shows bytes) (map own_field nodes) (fields_of o RootContainer) /\
  Forall2 (group_reads (reads bytes 15 (root_bounds o) o) (root_bounds o) o RootContainer) (node_groups nodes) (groups_of o RootContainer).

Lemma root_absent p o nodes t : root_reads p o nodes -> t ∉ map node_tag nodes -> forall g, o_groups o !! g <> Some (RootContainer, t).
Proof.
  intros (_ & _ & Hg) Ht g Hx. assert (Hin : g ∈ groups_of o RootContainer) by (apply positions_elem; exists (RootContainer, t); split; [done|by apply bool_decide_eq_true]).
  apply list_elem_of_lookup in Hin as [k Hk]. destruct (Forall2_lookup_r _ _ _ _ _ Hg Hk) as ([t' es] & Hn & (G1 & _)). rewrite Hx in G1. injection G1 as ->.
  apply Ht, (node_groups_tag _ _ es). by eapply list_elem_of_lookup_2.
Qed.

(** The slot of a node joins the root. *)
Lemma root_append p o nodes x s : root_reads p o nodes -> NoDup (map node_tag (nodes ++ [x])) -> tag_ok (node_tag x) = true -> slot_shows bytes (own_field x) s ->
  Z.of_nat (length (o_slots o)) < kInvalidHashSlot ->
  let o' := with_slots RootContainer [s] o in
  tracks bytes (snd (AppendParsedFieldSlot RootContainer s p)) o' /\ Forall2 (slot_shows bytes) (map own_field (nodes ++ [x])) (fields_of o' RootContainer) /\
  Forall2 (group_reads (reads bytes 15 (root_bounds o) o') (root_bounds o) o' RootContainer) (node_groups nodes) (groups_of o' RootContainer).
Proof.
  intros ([Hrep Hraw] & Hf & Hg) Hfresh Htag Hs Hlen o'.
  assert (Hst : ps_tag s = node_tag x) by (destruct Hs as [-> _]; by destruct x). unfold tag_ok in Htag.
  assert (Hrep' : represents (fold_left (fun p slot => snd (AppendParsedFieldSlot RootContainer slot p)) [s] p) o').
  { apply append_all; try done; [|intros _; constructor; [lia|constructor]|cbn; lia].
    rewrite map_app, (shown_tags bytes _ _ Hf). cbn [map]. rewrite Hst. by rewrite map_app in Hfresh. }
  split; [split; [exact Hrep'|by rewrite append_raw]|]. split.
  - unfold o'. rewrite with_slots_fields, map_app. apply Forall2_app; [done|]. by constructor.
  - eapply Forall2_impl; [exact Hg|]. intros y g (G1 & G2 & G3). split; [done|]. split; [done|]. eapply Forall2_impl; [exact G3|]. intros nd i. apply reads_with_slots. by intros (j & ? & _).
Qed.

(** A node of the root that conforms, taken apart. *)
Lemma root_conforms_iff group_at x : root_conforms dict d group_at x = true ->
  tag_ok (node_tag x) = true /\ ShouldSkipField (node_tag x) = false /\ node_tag x <> tags.kMsgType /\ header_accepts (own_field x).1 (own_field x).2 = true /\
  field_fits d (own_field x) /\
  match x with
  | NField t v => group_at t = None
  | NGroup t entries => exists ng, group_at t = Some ng /\ find_group dict t = Some ng /\ count_tag ng = t /\ group_ok dict d 14 ng entries
  end.
Proof.
  unfold root_conforms. rewrite !andb_true_iff, !negb_true_iff, Z.eqb_neq. intros ((((H1 & H2) & H3) & H4) & H5). split_and!; try done.
  - destruct x as [t v|t es]; cbn in H1 |- *; unfold tag_ok in H1.
    + apply andb_true_iff in H5 as [H5 _]. by apply value_fits.
    + destruct (group_at t) as [ng|]; [|done]. apply count_fits; [exact H1|done|]. rewrite !andb_true_iff, Z.leb_le in H5. by destruct H5 as (((_ & ?) & _) & _).
  - destruct x as [t v|t es]; [by apply andb_true_iff in H5 as [_ H5%bool_decide_eq_true]|]. destruct (group_at t) as [ng|]; [|done].
    rewrite !andb_true_iff, bool_decide_eq_true, Z.eqb_eq, Z.leb_le, !forallb_forall in H5. destruct H5 as ((((G1 & G2) & G3) & G4) & G5).
    exists ng. split_and!; try done. split_and!; [done| |]; apply Forall_forall; intros e He; [by apply G4, list_elem_of_In|by apply G5, list_elem_of_In].
Qed.

(** One node of the root: its slot, then the entries of its group. *)
Lemma root_node group_at nodes x p o pos rest t' ty issue : root_conforms dict d group_at x = true -> closes dict x t' = true -> NoDup (map node_tag (nodes ++ [x])) ->
  root_reads p o nodes -> from bytes pos (render (tree_fields [x]) d ++ rest) -> next_field d rest t' -> Z.of_nat (length (o_slots o) + length (node_fields x)) <= kInvalidHashSlot ->
  let f := inline_of (own_field x) pos in
  let p1 := snd (AppendParsedFieldSlot RootContainer (inline_slot f ty) p) in
  exists gs o',
    match group_at (node_tag x) with
    | Some g => ParseParsedGroupEntries sse dict bytes d root_levels (field_value bytes f) g RootContainer (MkGroupState (if_next_pos f) p1 issue)
    | None => Value (MkGroupState (if_next_pos f) p1 issue)
    end = Value gs /\
    gs_pos gs = (pos + length (render (node_fields x) d))%nat /\ root_reads (gs_parsed gs) o' (nodes ++ [x]) /\ length (o_slots o') = (length (o_slots o) + length (node_fields x))%nat.
Proof.
  intros Hx Hcl Hnd Hr Hfrom Hnext Hlen. destruct (root_conforms_iff _ _ Hx) as (Htag & _ & _ & _ & Hf & Hgroup).
  destruct (scan_node sse bytes d Hd1 Hd2 Hsize x [] rest pos Hf Hfrom) as (_ & _ & _ & Hval & Hshow & _ & Hnp & Hinner). cbv zeta. rewrite Hval. change (render (tree_fields []) d ++ rest) with rest in Hinner.
  assert (Hsz : length (render (node_fields x) d) = (length (field_bytes (own_field x).1 (own_field x).2 d) + length (render (inner_fields x) d))%nat).
  { rewrite node_fields_eq. destruct (own_field x) as [a b]. by rewrite render_cons, length_app. }
  rewrite node_fields_eq in Hlen. cbn [length] in Hlen.
  destruct (root_append p o nodes x _ Hr Hnd Htag (Hshow ty) ltac:(lia)) as (Htr & Hfields & Hgroups). set (s := inline_slot _ ty) in *. set (o1 := with_slots RootContainer [s] o) in *.
  set (p1 := snd (AppendParsedFieldSlot RootContainer s p)) in *.
  assert (Hl1 : length (o_slots o1) = S (length (o_slots o))) by (cbn; rewrite length_app; cbn; lia).
  destruct x as [t v|t es].
  - cbn [node_tag]. rewrite Hgroup. eexists _, o1. split; [done|]. cbn [gs_pos gs_parsed]. rewrite Hnp, Hsz. split; [cbn; lia|]. split; [|cbn in *; lia]. split; [done|]. split; [done|].
    unfold node_groups. rewrite omap_app. cbn. rewrite app_nil_r. exact Hgroups.
  - destruct Hgroup as (ng & Hat & Hng & Hct & Hok). cbn [node_tag]. rewrite Hat. cbn [inner_fields own_field fst snd] in *.
    destruct (group_parse sse dict bytes d Hd1 Hd2 Hsize 14 t es ng rest t' (MkGroupState (if_next_pos (inline_of (t, count_text es) pos)) p1 issue) o1 RootContainer)
      as (st' & o' & H1 & H2 & H3 & H4 & H5 & H6 & H7); try done; [|lia|].
    { intros g. apply (root_absent p o nodes t Hr). rewrite map_app in Hnd. apply NoDup_app in Hnd as (_ & Hdis & _). intros Hin. apply (Hdis _ Hin). left. }
    exists st', o'. split; [exact H1|]. rewrite H2. cbn [gs_pos]. rewrite Hnp, Hsz. split; [lia|]. split; [|cbn [node_fields]; rewrite H7, Hl1; cbn [length]; unfold entries_fields, tree_fields; lia].
    pose proof (grows_length _ _ _ _ _ _ H4) as (_ & L1 & L2). split; [done|]. split.
    + rewrite (grows_fields _ _ _ _ _ _ RootContainer H4); [done|]. by intros (j & ? & _).
    + unfold node_groups. rewrite omap_app, H5. cbn [omap list_omap]. apply Forall2_app.
      * eapply Forall2_impl; [exact Hgroups|]. intros y g Hy. apply (group_reads_mono bytes 15 15 (root_bounds o)); [done|repeat split; cbn in *; lia|].
        eapply group_reads_grows; [exact H4|done|done| |done|exact Hy]. intros c <- (j & ? & _). done.
      * constructor; [|constructor]. eapply group_reads_mono; [|..|exact H6]; [done|]. repeat split; cbn in *; lia.
Qed.

(** A decoder's treatment of a field reads the node it stands for. *)
Definition field_reads (group_at : Z -> option GroupDefRecord) (R : DecodeState -> Prop) (on_field : InlineField -> DecodeState -> Result DecodeState) : Prop :=
  forall nodes x st o pos rest t', root_conforms dict d group_at x = true -> closes dict x t' = true -> NoDup (map node_tag (nodes ++ [x])) ->
  R st -> root_reads (ds_parsed st) o nodes -> from bytes pos (render (tree_fields [x]) d ++ rest) -> next_field d rest t' -> Z.of_nat (length (o_slots o) + length (node_fields x)) <= kInvalidHashSlot ->
  exists st' o', on_field (inline_of (own_field x) pos) st = Value st' /\ R st' /\ ds_pos st' = (pos + length (render (node_fields x) d))%nat /\
    root_reads (ds_parsed st') o' (nodes ++ [x]) /\ length (o_slots o') = (length (o_slots o) + length (node_fields x))%nat /\
    ds_header st' = ds_header st /\ ds_field_count st' = ds_field_count st.

Lemma extract_header_accepted tag value h : header_accepts tag value = true -> exists h', extract_header tag value h = Value h'.
Proof.
  unfold header_accepts, extract_header. repeat match goal with |- context [if tag =? ?k then _ else _] => destruct (tag =? k) end; try (by eexists); [destruct (ParseUnsigned _ _)|destruct (ParseBoolean _ _)..]; try done; by eexists.
Qed.

Lemma root_loop on_msg on_field group_at R rest : field_reads group_at R on_field -> (forall h st, R st -> R (set_header h (count_scanned st))) -> next_field d rest tags.kCheckSum ->
  forall nodes done fuel st o, forallb (root_conforms dict d group_at) nodes = true -> NoDup (map node_tag (done ++ nodes)) -> adjacent dict nodes = true ->
  tree_closes dict nodes tags.kCheckSum = true -> R st -> root_reads (ds_parsed st) o done -> from bytes (ds_pos st) (render (tree_fields nodes) d ++ rest) ->
  Z.of_nat (length (o_slots o) + length (tree_fields nodes)) <= kInvalidHashSlot -> (length bytes < ds_pos st + fuel)%nat ->
  exists fuel' st' o', decode_loop sse bytes d on_msg on_field fuel st = decode_loop sse bytes d on_msg on_field fuel' st' /\ (length bytes < ds_pos st' + fuel')%nat /\
    ds_pos st' = (ds_pos st + length (render (tree_fields nodes) d))%nat /\ root_reads (ds_parsed st') o' (done ++ nodes) /\
    ds_header st' = fold_left header_step (map own_field nodes) (ds_header st) /\ ds_field_count st' = ds_field_count st + Z.of_nat (length nodes).
Proof.
  intros Hfield HR Hnext nodes. induction nodes as [|x nodes IH]; intros done fuel st o Hok Hnd Hadj Hcl Hst Hreads Hfrom Hslots Hfuel.
  - exists fuel, st, o. rewrite app_nil_r. cbn. split_and!; try done; lia.
  - destruct fuel as [|fuel]; [destruct Hfrom as [? _]; lia|]. cbn [forallb] in Hok. apply andb_true_iff in Hok as [Hx Hok]. destruct (adjacent_cons _ _ _ _ Hadj Hcl) as (Hclx & Hadj' & Hcl').
    destruct (root_conforms_iff _ _ Hx) as (_ & Hskip & Hmt & Hacc & Hf & _).
    destruct (scan_node sse bytes d Hd1 Hd2 Hsize x nodes rest (ds_pos st) Hf Hfrom) as (Hlt & Hscan & Htag & Hval & _ & _ & Hnp & _).
    assert (Hfits : Forall (fun x => field_fits d (own_field x)) nodes).
    { apply Forall_forall. intros y Hy. rewrite forallb_forall in Hok. by destruct (root_conforms_iff _ _ (Hok y (proj1 (list_elem_of_In _ _) Hy))) as (_ & _ & _ & _ & ? & _). }
    rewrite tree_fields_cons, length_app in Hslots. assert (Hass : (done ++ [x]) ++ nodes = done ++ x :: nodes) by (by rewrite <- app_assoc). rewrite <- Hass in Hnd.
    assert (Hfrom1 : from bytes (ds_pos st) (render (tree_fields [x]) d ++ render (tree_fields nodes) d ++ rest)).
    { rewrite app_assoc, <- render_app. unfold tree_fields at 1. cbn [map concat]. rewrite app_nil_r. exact Hfrom. }
    destruct (extract_header_accepted _ _ (ds_header (count_scanned st)) Hacc) as [h Hh].
    assert (Hnd1 : NoDup (map node_tag (done ++ [x]))) by (rewrite map_app in Hnd; by apply NoDup_app in Hnd as [? _]).
    destruct (Hfield done x (set_header h (count_scanned st)) o (ds_pos st) _ _ Hx Hclx Hnd1 (HR h st Hst) Hreads Hfrom1 (next_field_nodes d _ _ _ Hfits Hnext) ltac:(lia))
      as (st1 & o1 & H1 & H2 & H3 & H4 & H5 & H6 & H7).
    assert (Hfrom2 : from bytes (ds_pos st1) (render (tree_fields nodes) d ++ rest)).
    { rewrite H3. apply from_app. by rewrite tree_fields_cons, render_app, <- app_assoc in Hfrom. }
    assert (Hadv : (0 < length (render (node_fields x) d))%nat).
    { rewrite node_fields_eq. destruct (own_field x). rewrite render_cons, length_app. unfold field_bytes. rewrite !length_app. cbn. lia. }
    destruct (IH (done ++ [x]) fuel st1 o1 Hok Hnd Hadj' Hcl' H2 H4 Hfrom2 ltac:(lia) ltac:(lia)) as (fuel' & st2 & o2 & G1 & G2 & G3 & G4 & G5 & G6).
    exists fuel', st2, o2. cbn [decode_loop]. replace (length bytes <=? ds_pos st)%nat with false by (symmetry; apply Nat.leb_gt; lia). rewrite Hscan. cbv zeta. rewrite Htag, Hval.
    assert (Hck : (node_tag x =? tags.kCheckSum) = false).
    { apply Z.eqb_neq. intros He. rewrite He in Hskip. done. }
    rewrite Hck, Hskip, (proj2 (Z.eqb_neq _ _) Hmt). assert (Ht1 : (own_field x).1 = node_tag x) by (by destruct x). rewrite Ht1 in Hh. rewrite Hh, H1.
    split; [exact G1|]. split; [done|]. split; [rewrite tree_fields_cons, render_app, length_app; lia|]. split; [by rewrite <- Hass|]. split.
    + rewrite G5, H6. cbn [map fold_left ds_header set_header]. f_equal. unfold header_step. rewrite Ht1, (proj2 (Z.eqb_neq _ _) Hmt). change (ds_header (count_scanned st)) with (ds_header st) in Hh. by rewrite Hh.
    + rewrite G6, H7. cbn [ds_field_count set_header count_scanned length]. lia.
Qed.

(** ** The two decoders *)

Definition generic_group_at (m : MessageDefRecord) (t : Z) : option GroupDefRecord := if message_rule_allows_tag dict m t then find_group dict t else None.

Lemma generic_field_reads m : field_reads (generic_group_at m) (fun st => ds_message_def st = Some m) (generic_field sse dict bytes d).
Proof.
  intros nodes x st o pos rest t' Hx Hcl Hnd Hm Hr Hfrom Hnext Hlen. destruct (root_conforms_iff _ _ Hx) as (_ & _ & _ & _ & Hf & _).
  destruct (scan_node sse bytes d Hd1 Hd2 Hsize x [] rest pos Hf Hfrom) as (_ & _ & Htag & _).
  unfold generic_field. cbv zeta. rewrite Htag, Hm. fold (generic_group_at m (node_tag x)).
  destruct (ValidateConsumedField _ _ _ _ _ _ _ _ _ _ _) as [scope issue]. cbn [append_root set_issue set_scope ds_parsed ds_issue].
  edestruct (root_node (generic_group_at m) nodes x (ds_parsed st) o pos rest t') as (gs & o' & H1 & H2 & H3 & H4); try done. cbv zeta in H1.
  destruct (generic_group_at m (node_tag x)) as [g|].
  - rewrite H1. eexists _, o'. split; [done|]. by cbn.
  - injection H1 as <-. eexists _, o'. split; [done|]. by cbn.
Qed.

Definition compiled_group_at (c : CompiledMessageDecoder) (t : Z) : option GroupDefRecord :=
  if is_header_tag t || (lookup_slot c t =? kInvalidSlot) then None else match slots_ c !! Z.to_nat (lookup_slot c t) with Some cs => cs_group_def cs | None => None end.

Lemma append_checked_same append slot text st : let st' := append_checked append slot text st in
  ds_parsed st' = snd (append slot (ds_parsed st)) /\ ds_compiled st' = ds_compiled st /\ ds_header st' = ds_header st /\ ds_field_count st' = ds_field_count st.
Proof. unfold append_checked. destruct (append slot (ds_parsed st)) as [dup p]. destruct text as [text|]; [|done]. by destruct dup. Qed.

Lemma compiled_field_reads c : compiled_ok c -> field_reads (compiled_group_at c) (fun st => ds_compiled st = Some c) (compiled_field sse dict bytes d).
Proof.
  intros Hc nodes x st o pos rest t' Hx Hcl Hnd Hm Hr Hfrom Hnext Hlen. destruct (root_conforms_iff _ _ Hx) as (_ & _ & _ & _ & Hf & _).
  destruct (scan_node sse bytes d Hd1 Hd2 Hsize x [] rest pos Hf Hfrom) as (_ & _ & Htag & _).
  pose proof (fun ty issue => root_node (compiled_group_at c) nodes x (ds_parsed st) o pos rest t' ty issue Hx Hcl Hnd Hr Hfrom Hnext Hlen) as Hnode. cbv zeta in Hnode.
  unfold compiled_field. cbv zeta. rewrite Htag, Hm. unfold compiled_group_at in Hnode.
  assert (Hleaf : forall append ty text st1, ds_parsed st1 = ds_parsed st -> ds_compiled st1 = ds_compiled st -> ds_header st1 = ds_header st -> ds_field_count st1 = ds_field_count st ->
    (forall s p, append s p = AppendParsedFieldSlot RootContainer s p) ->
    (forall issue, exists gs o', Value (MkGroupState (if_next_pos (inline_of (own_field x) pos)) (snd (AppendParsedFieldSlot RootContainer (inline_slot (inline_of (own_field x) pos) ty) (ds_parsed st))) issue) = Value gs /\
      gs_pos gs = (pos + length (render (node_fields x) d))%nat /\ root_reads (gs_parsed gs) o' (nodes ++ [x]) /\ length (o_slots o') = (length (o_slots o) + length (node_fields x))%nat) ->
    exists st' o', Value (A := DecodeState) (set_pos (if_next_pos (inline_of (own_field x) pos)) (append_checked append (inline_slot (inline_of (own_field x) pos) ty) text st1)) = Value st' /\ ds_compiled st' = Some c /\
      ds_pos st' = (pos + length (render (node_fields x) d))%nat /\ root_reads (ds_parsed st') o' (nodes ++ [x]) /\ length (o_slots o') = (length (o_slots o) + length (node_fields x))%nat /\
      ds_header st' = ds_header st /\ ds_field_count st' = ds_field_count st).
  { intros append ty text st1 E1 E2 E3 E4 Happ Hg. destruct (Hg no_issue) as (gs & o' & [= <-] & G2 & G3 & G4). eexists _, o'. split; [done|].
    destruct (append_checked_same append (inline_slot (inline_of (own_field x) pos) ty) text st1) as (A1 & A2 & A3 & A4). cbn [set_pos ds_parsed ds_compiled ds_header ds_field_count ds_pos]. rewrite A1, A2, A3, A4, E1, E2, E3, E4, Happ. by cbn in *. }
  destruct (is_header_tag (node_tag x)); cbn [orb] in Hnode; [by apply Hleaf|].
  destruct (Z.eqb_spec (lookup_slot c (node_tag x)) kInvalidSlot) as [Hi|Hi]; [by destruct (find_field dict (node_tag x)); apply Hleaf|].
  destruct (lookup_slot_sound c _ Hc Hi) as (n & cs & Hn & Hcs & _). rewrite Hn, Nat2Z.id, Hcs in *. destruct (cs_group_def cs) as [g|].
  - destruct (append_checked_same AppendParsedFieldSlotFast (inline_slot (inline_of (own_field x) pos) (cs_field_type cs)) (Some (appears_twice (node_tag x)))
      (set_issue (ValidateScalarFieldValue (node_tag x) (field_value bytes (inline_of (own_field x) pos)) (cs_field_type cs) (ds_issue st)) st)) as (A1 & A2 & A3 & A4).
    rewrite A1, append_fast_eq. match goal with |- context [MkGroupState _ _ ?i] => destruct (Hnode (cs_field_type cs) i) as (gs & o' & H1 & H2 & H3 & H4) end.
    cbn [set_issue ds_parsed] in H1 |- *. rewrite H1. eexists _, o'. split; [done|]. cbn [set_pos set_issue set_parsed ds_parsed ds_compiled ds_header ds_field_count ds_pos]. by rewrite A2, A3, A4.
  - destruct (TrackRuleOrder _ _ _ _ _) as [scope issue]. by apply Hleaf.
Qed.

(** ** The MsgType field and the frame *)

Lemma represents_msg_type t p o : represents p o -> represents (set_msg_type t p) o.
Proof. by intros []. Qed.

Lemma represents_raw b p o : represents p o -> represents (set_raw b p) o.
Proof. by intros []. Qed.

(** The message object the caller passes in: any that went through the decoder. *)
Definition reusable (p : ParsedMessageData) : Prop :=
  0 < field_generation p < 65536 /\ forall tag v, field_hash_table p !! tag = Some v -> 0 <= v /\ Z.shiftr v 16 <= field_generation p.

Lemma represents_reusable p o : represents p o -> reusable p.
Proof. intros []. by split. Qed.

Lemma prepared_reads output : reusable output -> root_reads (PrepareDecodeOutput bytes output) nobody [].
Proof.
  intros [Hg Ht]. split; [split; [by apply represents_raw, represents_reset|done]|]. split; constructor.
Qed.

Definition msg_type_reads (R : DecodeState -> Prop) (mt : list Z) (on_msg : InlineField -> DecodeState -> Result DecodeState) : Prop :=
  forall st pos rest, root_reads (ds_parsed st) nobody [] -> from bytes pos (field_bytes tags.kMsgType mt d ++ rest) -> field_fits d (tags.kMsgType, mt) ->
  exists st' o', on_msg (inline_of (tags.kMsgType, mt) pos) st = Value st' /\ R st' /\ ds_pos st' = (pos + length (field_bytes tags.kMsgType mt d))%nat /\
    root_reads (ds_parsed st') o' [NField tags.kMsgType mt] /\ length (o_slots o') = 1%nat /\
    ds_header st' = with_msg_type (text_of mt) (ds_header st) /\ ds_field_count st' = ds_field_count st.

Lemma msg_type_slot p pos mt rest ty : root_reads p nobody [] -> from bytes pos (field_bytes tags.kMsgType mt d ++ rest) -> field_fits d (tags.kMsgType, mt) ->
  let s := inline_slot (inline_of (tags.kMsgType, mt) pos) ty in
  root_reads (snd (AppendParsedFieldSlot RootContainer s (set_msg_type mt p))) (with_slots RootContainer [s] nobody) [NField tags.kMsgType mt].
Proof.
  intros ([Hrep Hraw] & Hr) Hfrom Hf s.
  destruct (root_append (set_msg_type mt p) nobody [] (NField tags.kMsgType mt) s) as (H1 & H2 & H3); try done.
  - split; [split; [by apply represents_msg_type|done]|done].
  - apply NoDup_singleton.
  - by eapply inline_slot_shows.
Qed.

Lemma generic_msg_type_reads m mt : find_message dict mt = Some m -> msg_type_reads (fun st => ds_message_def st = Some m) mt (generic_msg_type dict bytes).
Proof.
  intros Hm st pos rest Hr Hfrom Hf. unfold generic_msg_type. cbv zeta. rewrite (inline_value d bytes (tags.kMsgType, mt) pos rest Hfrom), (inline_tag d _ pos Hf). cbn [fst snd]. rewrite Hm.
  destruct (ValidateConsumedField _ _ _ _ _ _ _ _ _ _ _) as [scope issue]. eexists _, _. split; [done|]. cbn [set_pos append_root set_issue set_scope see_message message_type_seen set_parsed set_header ds_parsed ds_message_def ds_pos ds_header ds_field_count].
  split; [done|]. rewrite (inline_next d). split; [done|].
  pose proof (msg_type_slot (ds_parsed st) pos mt rest (ResolveFieldType tags.kMsgType dict) Hr Hfrom Hf) as Hs. unfold inline_slot in Hs. rewrite (inline_tag d _ pos Hf) in Hs. split; [exact Hs|]. done.
Qed.

Lemma compiled_msg_type_reads table c mt : find_decoder table mt = Some c -> overflow_exceeded_ c = false -> msg_type_reads (fun st => ds_compiled st = Some c) mt (compiled_msg_type bytes table).
Proof.
  intros Hc Ho st pos rest Hr Hfrom Hf. unfold compiled_msg_type. cbv zeta. rewrite (inline_value d bytes (tags.kMsgType, mt) pos rest Hfrom). cbn [snd]. rewrite Hc, Ho.
  eexists _, _. split; [done|]. cbn [set_pos append_root see_message message_type_seen set_parsed set_header ds_parsed ds_compiled ds_pos ds_header ds_field_count].
  split; [done|]. rewrite (inline_next d). split; [done|]. split; [by eapply msg_type_slot|]. done.
Qed.

Lemma parse_checksum c label : 0 <= c < 256 -> ParseUnsigned (checksum_digits c) label = Value c.
Proof.
  intros Hc. assert (Hv : numeral_value (checksum_digits c) = c) by (unfold numeral_value, checksum_digits; cbn [fold_left]; dlia).
  unfold ParseUnsigned, whole, from_chars_u32. rewrite digit_prefix_all by (unfold checksum_digits, is_digit; repeat constructor; dlia). destruct (checksum_digits c) as [|x ds] eqn:E; [done|]. rewrite Hv.
  destruct (Z.leb_spec c UINT32_MAX); [by rewrite Nat.eqb_refl|ulia].
Qed.

(** The parts of a frame: [content] between the BodyLength and the CheckSum field. *)
Definition frame_checksum (bs content : list Z) : Z := sum_scalar (frame_prefix bs content d) 0 mod 256.
Definition content_start (bs content : list Z) : nat := length (field_bytes tags.kBeginString bs d ++ field_bytes tags.kBodyLength (FormatUint32 (Z.of_nat (length content))) d).

Lemma digits_fit t v : 0 < t < 65536 -> in_u32 v -> field_fits d (t, FormatUint32 v).
Proof.
  intros Ht Hv. pose proof (FormatUint32_canonical v Hv) as (Hdig & _). split; [done|]. cbn. split; [intros Hin; rewrite Forall_forall in Hdig; by apply Hd2, Hdig|].
  destruct (FormatUint32_length v) as [?|Hx]; [lia|by exfalso].
Qed.

Lemma checksum_fits c : field_fits d (tags.kCheckSum, checksum_digits c).
Proof.
  split; [done|]. cbn [fst snd]. split; [|unfold checksum_digits; cbn; lia]. intros Hin. apply Hd2.
  assert (Hall : Forall is_digit (checksum_digits c)) by (unfold checksum_digits, is_digit; repeat constructor; dlia). rewrite Forall_forall in Hall. by apply Hall.
Qed.

Lemma frame_split bs content : bytes = make_frame bs content d ->
  from bytes 0 (field_bytes tags.kBeginString bs d ++ field_bytes tags.kBodyLength (FormatUint32 (Z.of_nat (length content))) d ++
                content ++ field_bytes tags.kCheckSum (checksum_digits (frame_checksum bs content)) d).
Proof. intros ->. split; [lia|]. rewrite drop_0. unfold make_frame, frame_prefix, frame_checksum. rewrite <- !app_assoc. done. Qed.

Lemma frame_start_from bs content : bytes = make_frame bs content d ->
  from bytes (content_start bs content) (content ++ field_bytes tags.kCheckSum (checksum_digits (frame_checksum bs content)) d).
Proof. intros Hb. pose proof (frame_split bs content Hb) as Hf. rewrite app_assoc in Hf. by apply from_app in Hf. Qed.

Lemma frame_prefix_read bs content : bytes = make_frame bs content d -> field_fits d (tags.kBeginString, bs) ->
  decode_prefix sse bytes d = Value (bs, Z.of_nat (length content), content_start bs content).
Proof.
  intros Hb Hfit. pose proof (frame_split bs content Hb) as Hf.
  assert (Hn : in_u32 (Z.of_nat (length content))).
  { assert (Hl : (length content <= length bytes)%nat) by (rewrite Hb; unfold make_frame, frame_prefix; rewrite !length_app; lia). ulia. }
  pose proof (digits_fit tags.kBodyLength _ ltac:(done) Hn) as Hfit1. unfold decode_prefix.
  rewrite (scan_rendered d Hd1 Hd2 sse bytes 0 (tags.kBeginString, bs) _ Hfit Hf), (inline_tag d _ _ Hfit). cbn [fst Z.eqb negb].
  rewrite (inline_next d). pose proof (from_app bytes _ _ _ Hf) as Hf1. cbn [fst snd].
  rewrite (scan_rendered d Hd1 Hd2 sse bytes _ (tags.kBodyLength, FormatUint32 (Z.of_nat (length content))) _ Hfit1 Hf1), (inline_tag d _ _ Hfit1).
  change (negb ((tags.kBeginString, bs).1 =? tags.kBeginString)) with false. cbn [fst]. rewrite Z.eqb_refl. cbn [negb].
  rewrite (inline_value d bytes (tags.kBodyLength, FormatUint32 (Z.of_nat (length content))) _ _ Hf1). cbn [snd]. rewrite parse_count by done.
  rewrite (inline_value d bytes (tags.kBeginString, bs) _ _ Hf), (inline_next d). cbn [fst snd]. unfold content_start. by rewrite length_app.
Qed.

(** The CheckSum field ends the loop. *)
Lemma checksum_read on_msg on_field fuel st c : from bytes (ds_pos st) (field_bytes tags.kCheckSum (checksum_digits c) d) -> (length bytes < ds_pos st + fuel)%nat -> 0 <= c < 256 ->
  decode_loop sse bytes d on_msg on_field fuel st = Value (set_pos (length bytes) (see_checksum (ds_pos st) (set_header (with_checksum c (ds_header st)) (count_scanned st)))).
Proof.
  intros Hfrom Hfuel Hc. pose proof (checksum_fits c) as Hfit. destruct fuel as [|fuel]; [destruct Hfrom as [? _]; lia|]. cbn [decode_loop].
  assert (Hlt : (ds_pos st < length bytes)%nat) by (eapply (from_lt bytes d); [exact Hfrom|]; exists (checksum_digits c), []; by rewrite app_nil_r).
  replace (length bytes <=? ds_pos st)%nat with false by (symmetry; apply Nat.leb_gt; lia). rewrite <- (app_nil_r (field_bytes _ _ _)) in Hfrom.
  rewrite (scan_rendered d Hd1 Hd2 sse bytes _ (tags.kCheckSum, checksum_digits c) [] Hfit Hfrom). cbv zeta.
  rewrite (inline_tag d _ _ Hfit), (inline_value d bytes (tags.kCheckSum, checksum_digits c) _ [] Hfrom). cbn [fst snd]. rewrite Z.eqb_refl, parse_checksum by done.
  rewrite (inline_next d). apply from_app in Hfrom as [Hle Hend]. cbn [fst snd]. assert (Hl : (length bytes - (ds_pos st + length (field_bytes tags.kCheckSum (checksum_digits c) d)) = 0)%nat) by (by rewrite <- length_drop, Hend).
  replace (ds_pos st + length (field_bytes tags.kCheckSum (checksum_digits c) d))%nat with (length bytes) by lia. done.
Qed.

Lemma checksum_sum l : Forall is_byte l -> ComputeChecksumSIMD sse l mod 256 = sum_scalar l 0 mod 256.
Proof.
  intros Hl. rewrite ComputeChecksumSIMD_sum by done. rewrite <- (u32_small (sum_scalar l 0)) by (apply sum_scalar_range; ulia). by rewrite sum_scalar_eq, Z.add_0_l.
Qed.

(** The header of a frame with the root nodes [nodes]. *)
Definition frame_header (bs content : list Z) (nodes : list Node) : SessionHeaderView :=
  with_checksum (frame_checksum bs content)
    (fold_left header_step (map own_field nodes) (with_body_length (Z.of_nat (length content)) (with_begin_string (text_of bs) empty_header))).

Lemma frame_reads on_msg on_field group_at R bs mt nodes verify output : let content := render (tree_fields (NField tags.kMsgType mt :: nodes)) d in
  bytes = make_frame bs content d -> Forall is_byte bytes -> field_fits d (tags.kBeginString, bs) -> field_fits d (tags.kMsgType, mt) ->
  body_conforms dict d group_at nodes = true -> Z.of_nat (S (length (tree_fields nodes))) <= kInvalidHashSlot -> reusable output ->
  msg_type_reads R mt on_msg -> field_reads group_at R on_field -> (forall h st, R st -> R (set_header h (count_scanned st))) ->
  exists r o, decode_frame sse bytes d on_msg on_field verify output = Value r /\ root_reads (df_parsed r) o (NField tags.kMsgType mt :: nodes) /\
    df_header r = frame_header bs content (NField tags.kMsgType mt :: nodes).
Proof.
  intros content Hb Hbytes Hbs Hmt Hok Hslots Hout Hmsg Hfield HR. unfold body_conforms in Hok. rewrite !andb_true_iff, bool_decide_eq_true in Hok. destruct Hok as (((Hok & Hnd) & Hadj) & Hcl).
  unfold decode_frame. rewrite (frame_prefix_read bs content Hb Hbs). set (start := content_start bs content). set (st0 := start_state _ _ _ _).
  pose proof (frame_start_from bs content Hb) as Hfrom. fold start in Hfrom. set (c := frame_checksum bs content) in *. assert (Hc : 0 <= c < 256) by (apply Z.mod_pos_bound; lia).
  unfold content in Hfrom at 1. rewrite tree_fields_cons in Hfrom. cbn [node_fields app] in Hfrom. rewrite render_cons, <- app_assoc in Hfrom.
  destruct (Hmsg (count_scanned st0) start _ (prepared_reads output Hout) Hfrom Hmt) as (st1 & o1 & A1 & A2 & A3 & A4 & A5 & A6 & A7).
  assert (Hlt : (start < length bytes)%nat) by (eapply (from_lt bytes d); [exact Hfrom|]; by eexists mt, _).
  assert (Hstep : decode_loop sse bytes d on_msg on_field (S (length bytes)) st0 = decode_loop sse bytes d on_msg on_field (length bytes) st1).
  { cbn [decode_loop]. change (ds_pos st0) with start. replace (length bytes <=? start)%nat with false by (symmetry; apply Nat.leb_gt; lia).
    rewrite (scan_rendered d Hd1 Hd2 sse bytes start (tags.kMsgType, mt) _ Hmt Hfrom). cbv zeta. rewrite (inline_tag d _ _ Hmt). cbn [fst]. by rewrite A1. }
  rewrite Hstep. pose proof (from_app bytes _ _ _ Hfrom) as Hfrom1. rewrite <- A3 in Hfrom1.
  assert (Hnext : next_field d (field_bytes tags.kCheckSum (checksum_digits c) d) tags.kCheckSum) by (exists (checksum_digits c), []; rewrite app_nil_r; split; [done|apply checksum_fits]).
  assert (Hadv : (0 < length (field_bytes tags.kMsgType mt d))%nat) by (unfold field_bytes; rewrite !length_app; cbn; lia).
  destruct (root_loop on_msg on_field group_at R _ Hfield HR Hnext nodes [NField tags.kMsgType mt] (length bytes) st1 o1 Hok Hnd Hadj Hcl A2 A4 Hfrom1 ltac:(lia) ltac:(lia))
    as (fuel & st2 & o2 & B1 & B2 & B3 & B4 & B5 & B6).
  rewrite B1. apply from_app in Hfrom1. rewrite <- B3 in Hfrom1. rewrite (checksum_read on_msg on_field fuel st2 c Hfrom1 B2 Hc). unfold finish_decode.
  cbn [set_pos see_checksum set_header count_scanned ds_pos ds_field_count ds_checksum ds_header ds_parsed ds_issue]. rewrite Nat.eqb_refl. cbn [negb].
  assert (Hcount : (ds_field_count st2 + 1 <? 4) = false) by (rewrite B6, A7; cbn; lia). rewrite Hcount.
  assert (Hcl2 : length content = (length (field_bytes tags.kMsgType mt d) + length (render (tree_fields nodes) d))%nat).
  { unfold content. rewrite tree_fields_cons. cbn [node_fields app]. by rewrite render_cons, length_app. }
  replace (Z.of_nat (length content) =? Z.of_nat (ds_pos st2 - start)) with true by (symmetry; apply Z.eqb_eq; lia). cbn [negb].
  assert (Htake : take (ds_pos st2) bytes = frame_prefix bs content d).
  { rewrite Hb. unfold make_frame. apply take_app_length'. rewrite B3, A3. unfold start, content_start, frame_prefix. rewrite !length_app, Hcl2. unfold frame_prefix; rewrite ?length_app. lia. }
  rewrite Htake, checksum_sum. 2: { rewrite <- Htake. by apply Forall_take. }
  fold (frame_checksum bs content) c. cbn [with_checksum h_checksum]. rewrite Z.eqb_refl. rewrite andb_false_r. eexists _, o2. split; [done|]. cbn [df_parsed df_header]. split; [exact B4|]. unfold frame_header. fold c. f_equal. rewrite B5, A6. done.
Qed.
End Frame.

(** ** What the accessors show *)

(** The fields and groups of a container, by tag; the entries of a group and the
    fields of an entry in order; down to depth [n]. *)
Fixpoint shows (n : nat) (p : ParsedMessageData) (c : ParsedContainerRef) (nodes : list Node) : Prop :=
  match n with
  | O => False
  | S n =>
      (forall tag, 0 <= tag < 65536 -> ParsedSlotText p <$> FindParsedField p c tag = snd <$> List.find (fun f => f.1 =? tag) (map own_field nodes)) /\
      (forall tag, match List.find (fun g => g.1 =? tag) (node_groups nodes) with
                   | Some (_, entries) => exists g, FindParsedGroup p c tag = Some g /\ forall i,
                       match entries !! i with
                       | Some e => exists j, NthParsedEntry p g i = Some j /\ shows n p (EntryContainer j) e /\
                                   forall k, (fun s => (ps_tag s, ParsedSlotText p s)) <$> NthParsedField p (EntryContainer j) k = map own_field e !! k
                       | None => NthParsedEntry p g i = None
                       end
                   | None => FindParsedGroup p c tag = None
                   end)
  end.

Lemma find_shown bytes p fs slots tag : pm_raw p = bytes -> Forall2 (slot_shows bytes) fs slots ->
  ParsedSlotText p <$> List.find (fun s => ps_tag s =? tag) slots = snd <$> List.find (fun f => f.1 =? tag) fs.
Proof. intros Hp. induction 1 as [|f s fs slots [Ht Hv] _ IH]; cbn; [done|]. rewrite Ht. destruct (f.1 =? tag); [cbn; by rewrite (Hv p Hp)|exact IH]. Qed.

Lemma nth_shown bytes p fs slots k : pm_raw p = bytes -> Forall2 (slot_shows bytes) fs slots -> (fun s => (ps_tag s, ParsedSlotText p s)) <$> slots !! k = fs !! k.
Proof.
  intros Hp Hf. revert k. induction Hf as [|f s fs slots [Ht Hv] _ IH]; intros [|k]; cbn; try done. rewrite Ht, (Hv p Hp). by destruct f.
Qed.

Lemma find_group_shown entry b o c gs ids tag : Forall2 (group_reads entry b o c) gs ids ->
  match List.find (fun g => g.1 =? tag) gs with
  | Some x => exists g, head (List.filter (fun i => match o_groups o !! i with Some y => y.2 =? tag | None => false end) ids) = Some g /\ group_reads entry b o c x g
  | None => head (List.filter (fun i => match o_groups o !! i with Some y => y.2 =? tag | None => false end) ids) = None
  end.
Proof.
  induction 1 as [|x g gs ids Hx _ IH]; cbn; [done|]. destruct Hx as (H1 & H2 & H3). rewrite H1. cbn [snd]. destruct (x.1 =? tag); [|exact IH]. exists g. done.
Qed.

Section Accessors.
Context (bytes : list Z) (p : ParsedMessageData) (o : Ownership) (b : Bounds).
Context (Htr : tracks bytes p o) (He : (b_entry_end b <= length (o_entries o))%nat) (Hg : (b_group_end b <= length (o_groups o))%nat).

Lemma container_shows n (entry : ParsedContainerRef -> list Node -> Prop) c nodes :
  (forall c nodes, entry c nodes -> within b c /\ shows n p c nodes /\ Forall2 (slot_shows bytes) (map own_field nodes) (fields_of o c)) ->
  container_exists o c -> Forall2 (slot_shows bytes) (map own_field nodes) (fields_of o c) -> Forall2 (group_reads entry b o c) (node_groups nodes) (groups_of o c) ->
  shows (S n) p c nodes.
Proof.
  intros Hentry Hex Hf Hgr. destruct Htr as [Hrep Hraw]. split.
  - intros tag Htag. rewrite (find_field_spec p o) by done. by apply (find_shown bytes).
  - intros tag. unfold FindParsedGroup. rewrite (find_group_index_spec p o) by (done || by apply (resolve_exists p o)). unfold same_group. rewrite positions_and. fold (groups_of o c).
    pose proof (find_group_shown entry b o c _ _ tag Hgr) as Hfind. destruct (List.find _ (node_groups nodes)) as [[t es]|]; [|exact Hfind].
    destruct Hfind as (g & Hh & (G1 & G2 & G3)). exists g. split; [exact Hh|]. intros i. rewrite (nth_entry_spec p o) by (done || lia). cbn [snd] in G3. destruct (es !! i) as [e|] eqn:E.
    + destruct (Forall2_lookup_l _ _ _ _ _ G3 E) as (j & Hj & Hx). exists j. split; [done|]. destruct (Hentry _ _ Hx) as ((k & [= <-] & Hk) & Hs & Hfs). split; [done|].
      intros m. rewrite (nth_field_spec p o) by (done || lia). by apply (nth_shown bytes).
    + apply lookup_ge_None. apply Forall2_length in G3. rewrite <- G3. by apply lookup_ge_None.
Qed.

Lemma entry_shows n : forall c nodes, reads bytes n b o c nodes -> within b c /\ shows n p c nodes /\ Forall2 (slot_shows bytes) (map own_field nodes) (fields_of o c).
Proof.
  induction n as [|n IH]; intros c nodes; [done|]. intros (Hw & Hf & Hgr). split; [done|]. split; [|done]. apply (container_shows n (reads bytes n b o)); try done.
  destruct Hw as (i & -> & Hi). cbn. lia.
Qed.
End Accessors.

Lemma root_shows bytes p o nodes : root_reads bytes p o nodes -> shows 16 p RootContainer nodes.
Proof.
  intros (Htr & Hf & Hg). apply (container_shows bytes p o (root_bounds o) Htr (le_n _) (le_n _) 15 (reads bytes 15 (root_bounds o) o)); try done. by apply entry_shows.
Qed.

(** ** Properties *)

(** C5: decoding shows what the frame says.  A frame with the right BodyLength and
    CheckSum whose MsgType field is followed by fields and repeating groups that
    conform to the dictionary is accepted by the generic and by the precompiled
    decoder, into a message object of whatever content before; lookups then show
    exactly that tree: the value under each tag below 65536 of each container, the
    groups, their entries in order, the fields of an entry in order, and nothing
    under any other tag; and the header view holds the header fields.
    Conditions: the delimiter is neither an equals sign nor a digit; tags lie
    between 1 and 65535 and are distinct within the root and within an entry, the
    root has neither BeginString, BodyLength, CheckSum nor a second MsgType; values
    do not hold the delimiter and are shorter than 65536 bytes, and the header
    accepts those of the header tags; at most 65535 fields in all; an entry has at
    most 128 fields, starts with the delimiter tag of its group and holds tags of
    the rules of the group; a group has at most 10000 entries, nests up to fifteen
    levels and is followed by a tag that ends it, and a tag that opens a group
    where it stands is used for a group.  For the generic decoder the dictionary
    knows the message and its rules open the groups.  For the precompiled decoder
    it has an entry for the message, building that entry did not overflow its
    table (it stores groups as plain fields otherwise), and it opens the groups,
    which it does for the first 128 rules only. *)
Theorem decode_reads_tree `{FloatText} {SA : SortAlgorithm de_msg_type} sse dict d bs mt nodes verify output :
  let all := NField tags.kMsgType mt :: nodes in
  let content := render (tree_fields all) d in
  let frame := make_frame bs content d in
  d <> kEquals -> ~ is_digit d -> Forall is_byte frame -> Z.of_nat (length frame) <= UINT32_MAX -> value_ok d bs = true -> value_ok d mt = true ->
  Z.of_nat (length (tree_fields all)) <= kInvalidHashSlot -> reusable output ->
  (forall m, find_message dict mt = Some m -> body_conforms dict d (generic_group_at dict m) nodes = true ->
    exists r, DecodeFixMessageView sse dict frame d verify output = Value r /\ shows 16 (df_parsed r) RootContainer all /\ df_header r = frame_header d bs content all) /\
  (forall c, find_decoder (CompiledDecoderTable_Build dict) mt = Some c -> overflow_exceeded_ c = false -> body_conforms dict d (compiled_group_at c) nodes = true ->
    exists r, DecodeFixMessageViewCompiled sse dict frame d (CompiledDecoderTable_Build dict) verify output = Value r /\
      shows 16 (df_parsed r) RootContainer all /\ df_header r = frame_header d bs content all).
Proof.
  intros all content frame Hd1 Hd2 Hb Hl Hbs Hmt Hs Hout. split.
  - intros m Hm Hok. destruct (frame_reads sse dict frame d Hd1 Hd2 Hl (generic_msg_type dict frame) (generic_field sse dict frame d) (generic_group_at dict m) (fun st => ds_message_def st = Some m) bs mt nodes verify output)
      as (r & o & Hr & Hreads & Hh); try done; [by apply value_fits|by apply value_fits|by apply generic_msg_type_reads|by apply generic_field_reads|].
    exists r. split; [done|]. split; [by eapply root_shows|done].
  - intros c Hc Ho Hok. destruct (find_decoder_built dict mt c Hc) as (m & _ & _ & Hbuilt). assert (Hcok : compiled_ok c) by (rewrite Hbuilt; apply build_ok).
    destruct (frame_reads sse dict frame d Hd1 Hd2 Hl (compiled_msg_type frame (CompiledDecoderTable_Build dict)) (compiled_field sse dict frame d) (compiled_group_at c) (fun st => ds_compiled st = Some c) bs mt nodes verify output)
      as (r & o & Hr & Hreads & Hh); try done; [by apply value_fits|by apply value_fits|by apply compiled_msg_type_reads|by apply compiled_field_reads|].
    exists r. split; [done|]. split; [by eapply root_shows|done].
Qed.

#[local] Instance frame_float_text : FloatText := {| from_chars_double l := from_chars_i64 l |}.

(** An order with two parties, between the fields of the root. *)
Definition demo_tree : list Node :=
  [NField 49 (bytes "A"); NField 56 (bytes "B"); NField 34 (bytes "2"); NField 11 (bytes "id"); NField 54 (bytes "1");
   NGroup 453 [[NField 448 (bytes "x"); NField 447 (bytes "D")]; [NField 448 (bytes "y")]]; NField 38 (bytes "100"); NField 58 (bytes "t")].

Lemma decode_reads_tree_witness :
  make_frame (bytes "FIX.4.4") (render (tree_fields (NField 35 (bytes "D") :: demo_tree)) 1) 1 = demo_order_frame /\
  (exists r, DecodeFixMessageView true demo_dictionary demo_order_frame 1 true NewParsedMessageData = Value r /\
     shows 16 (df_parsed r) RootContainer (NField 35 (bytes "D") :: demo_tree) /\ h_msg_seq_num (df_header r) = 2) /\
  (exists r, DecodeFixMessageViewCompiled true demo_dictionary demo_order_frame 1 (CompiledDecoderTable_Build demo_dictionary) true NewParsedMessageData = Value r /\
     shows 16 (df_parsed r) RootContainer (NField 35 (bytes "D") :: demo_tree) /\ h_msg_seq_num (df_header r) = 2).
Proof.
  assert (Hb : Forall is_byte (make_frame (bytes "FIX.4.4") (render (tree_fields (NField 35 (bytes "D") :: demo_tree)) 1) 1)) by (apply (bool_decide_unpack _); vm_compute; exact I).
  assert (Hout : reusable NewParsedMessageData) by apply (represents_reusable _ nobody), represents_new.
  destruct (decode_reads_tree true demo_dictionary 1 (bytes "FIX.4.4") (bytes "D") demo_tree true NewParsedMessageData ltac:(done) ltac:(unfold is_digit; lia) Hb ltac:(done) eq_refl eq_refl ltac:(done) Hout) as [Hg Hc].
  split; [vm_compute; reflexivity|]. split.
  - destruct (Hg demo_order ltac:(vm_compute; reflexivity) ltac:(vm_compute; reflexivity)) as (r & Hr & Hs & Hh). exists r. split; [exact Hr|]. split; [exact Hs|]. rewrite Hh. vm_compute. reflexivity.
  - destruct (Hc (CompiledMessageDecoder_Build demo_dictionary demo_order) ltac:(vm_compute; reflexivity) ltac:(vm_compute; reflexivity) ltac:(vm_compute; reflexivity)) as (r & Hr & Hs & Hh).
    exists r. split; [exact Hr|]. split; [exact Hs|]. rewrite Hh. vm_compute. reflexivity.
Defined.
