(* ===== verification/Encoder.v ===== *)
(** * The dictionary-driven encoder

    The encode side of [codec/fix_codec.cpp]: generic encoding of a message view
    in the order of the dictionary rules, with and without fragments, and the
    precompiled frame templates with their running checksum.  Formatting of
    floating point numbers is an argument (class [FloatFormat]), the clock is the
    argument [now].  The encode index of a scope (hash maps from tags) is a search
    for the first element with the tag. *)
From S2P Require Import Prelude Base StdAlgo SortSearch IntFormat Scan FixTags Wire RawPassThrough Message Frame NormalizedDictionary Decoder.
Open Scope Z_scope.

(** [std::to_chars] for [double] with twelve significant digits into 32 characters. *)
Class FloatFormat := { to_chars_double : Z -> option (list Z) }.

(** ** Fields *)

Definition IsTemplateManagedHeaderField (tag : Z) : bool := tags.IsAggregateSessionHeaderTag tag.

Definition AppendField (out : list Z) (tag : Z) (value : list Z) (delimiter : Z) : list Z :=
  out ++ FormatUint32 tag ++ [kEquals] ++ value ++ [delimiter].

Definition AppendIntField (out : list Z) (tag value delimiter : Z) : list Z := AppendField out tag (FormatInt64 value) delimiter.

Definition AppendBoolField (out : list Z) (tag : Z) (value : bool) (delimiter : Z) : list Z :=
  AppendField out tag (if value then [89] else [78]) delimiter.

Section Fields.
Context `{FloatFormat}.

Definition AppendDoubleField (out : list Z) (tag value delimiter : Z) : list Z :=
  match to_chars_double value with Some text => AppendField out tag text delimiter | None => out end.

Definition EncodeFieldValue (out : list Z) (field : FieldView) (delimiter : Z) : list Z :=
  if f_type field =? kFieldInt then AppendIntField out (f_tag field) (f_int_value field) delimiter
  else if f_type field =? kFieldChar then AppendField out (f_tag field) [f_char_value field] delimiter
  else if f_type field =? kFieldFloat then AppendDoubleField out (f_tag field) (f_float_value field) delimiter
  else if f_type field =? kFieldBoolean then AppendBoolField out (f_tag field) (f_bool_value field) delimiter
  else AppendField out (f_tag field) (bytes (f_string_value field)) delimiter.

(** ** The body of a message or entry *)

Definition has_group_tag (groups : list (Z * list MessageView)) (tag : Z) : bool := existsb (fun g => fst g =? tag) groups.
Definition HasGroupCountTag (view : MessageView) (tag : Z) : bool := has_group_tag (view_groups view) tag.

(** The fields both sweeps leave out. *)
Definition sweep_skips (groups : list (Z * list MessageView)) (skip_standard_header : bool) (tag : Z) : bool :=
  ShouldSkipField tag || has_group_tag groups tag || (skip_standard_header && IsTemplateManagedHeaderField tag).

(** The count field and the entries; [body] encodes an entry. *)
Definition EncodeGroupData (body : MessageView -> list Z -> list Z) (tag : Z) (entries : list MessageView) (delimiter : Z) (out : list Z) : list Z :=
  fold_left (fun out entry => body entry out) entries (AppendIntField out tag (Z.of_nat (length entries)) delimiter).

(** Without a dictionary: fields in their order, then groups. *)
Fixpoint EncodeMessageBody (view : MessageView) (delimiter : Z) (skip_standard_header : bool) (out : list Z) : list Z :=
  let 'MkMessageView _ fields groups := view in
  let out := fold_left (fun out f => if sweep_skips groups skip_standard_header (f_tag f) then out else EncodeFieldValue out f delimiter) fields out in
  fold_left (fun out '(tag, entries) => EncodeGroupData (fun entry out => EncodeMessageBody entry delimiter false out) tag entries delimiter out) groups out.

(** A search for a group by its tag. *)
Definition find_by_tag {A} (tag : Z) (l : list (Z * A)) : option A := snd <$> List.find (fun g => fst g =? tag) l.

Definition in_rules (rules : list FieldRuleRecord) (tag : Z) : bool := existsb (fun r => fr_tag r =? tag) rules.

(** With a dictionary: the rules in their order, then the fields and the groups that
    no rule covers. *)
Fixpoint EncodeMessageBodyDict (dictionary : NormalizedDictionaryView) (rules : list FieldRuleRecord) (view : MessageView) (delimiter : Z)
    (skip_standard_header : bool) (out : list Z) : list Z :=
  let 'MkMessageView _ fields groups := view in
  let encoders :=
    map (fun '(tag, entries) =>
      (tag, match find_group dictionary tag with
            | Some g => EncodeGroupData (fun entry out => EncodeMessageBodyDict dictionary (group_field_rules dictionary g) entry delimiter false out)
                          tag entries delimiter
            | None => EncodeGroupData (fun entry out => EncodeMessageBody entry delimiter false out) tag entries delimiter
            end)) groups in
  let out := fold_left (fun out r =>
    let tag := fr_tag r in
    if ShouldSkipField tag then out
    else if skip_standard_header && IsTemplateManagedHeaderField tag then out
    else match find_by_tag tag encoders with
         | Some encode => encode out
         | None => match List.find (fun f => f_tag f =? tag) fields with
                   | Some f => EncodeFieldValue out f delimiter
                   | None => out
                   end
         end) rules out in
  let out := fold_left (fun out f =>
    if sweep_skips groups skip_standard_header (f_tag f) || in_rules rules (f_tag f) then out
    else EncodeFieldValue out f delimiter) fields out in
  fold_left (fun out '(tag, encode) => if in_rules rules tag then out else encode out) encoders out.

(** ** Generic encoding of a frame *)

Definition AppendPrefixedStringField (out prefix value : list Z) (delimiter : Z) : list Z := out ++ prefix ++ value ++ [delimiter].
Definition AppendPrefixedCountField (out prefix : list Z) (value delimiter : Z) : list Z := out ++ prefix ++ FormatUint32 value ++ [delimiter].

Definition append_if (b : bool) (out prefix value : list Z) (delimiter : Z) : list Z :=
  if b then AppendPrefixedStringField out prefix value delimiter else out.

Definition AppendResolvedHeaderFields (now : TimestampResolution -> list Z) (msg_type : list Z) (options : EncodeOptions) (delimiter : Z)
    (out : list Z) : list Z :=
  let seq_num := if eo_msg_seq_num options =? 0 then 1 else eo_msg_seq_num options in
  let sending_time := if text_empty (eo_sending_time options) then now (eo_timestamp_resolution options) else eo_sending_time options in
  let opt out prefix value := append_if (negb (text_empty value)) out prefix value delimiter in
  let out := AppendPrefixedStringField out kMsgTypePrefix (if text_empty msg_type then bytes "UNKNOWN" else msg_type) delimiter in
  let out := AppendPrefixedCountField out kMsgSeqNumPrefix seq_num delimiter in
  let out := opt out kSenderCompIDPrefix (eo_sender_comp_id options) in
  let out := opt out kSenderSubIDPrefix (eo_sender_sub_id options) in
  let out := opt out kTargetCompIDPrefix (eo_target_comp_id options) in
  let out := opt out kTargetSubIDPrefix (eo_target_sub_id options) in
  let out := AppendPrefixedStringField out kSendingTimePrefix sending_time delimiter in
  let out := append_if (bytes_eqb msg_type (bytes "A") && negb (text_empty (eo_default_appl_ver_id options))) out
               kDefaultApplVerIDPrefix (eo_default_appl_ver_id options) delimiter in
  let out := opt out kApplVerIDPrefix (eo_appl_ver_id options) in
  let out := append_if (eo_poss_dup options) out kPossDupPrefix [89] delimiter in
  let out := append_if (eo_poss_resend options) out kPossResendPrefix [89] delimiter in
  let out := opt out kOrigSendingTimePrefix (eo_orig_sending_time options) in
  let out := opt out kOnBehalfOfCompIDPrefix (eo_on_behalf_of_comp_id options) in
  opt out kDeliverToCompIDPrefix (eo_deliver_to_comp_id options).

Definition kLengthExceeds : Status := status.FormatError "encoded body length exceeds BodyLength placeholder width".

(** A pointer to no fragments is [None]. *)
Definition EncodeFixMessageGenericWithFragmentsToBuffer (has_sse2 : bool) (now : TimestampResolution -> list Z) (dictionary : NormalizedDictionaryView)
    (message : MessageView) (options : EncodeOptions) (extras : option EncodedOutboundExtrasView) : Result (list Z) :=
  let delimiter := NormalizeDelimiter (eo_delimiter options) in
  let begin_string := if text_empty (eo_begin_string options) then bytes "FIX.4.4" else eo_begin_string options in
  let full := (kBeginStringPrefix ++ begin_string ++ [delimiter]) ++ kBodyLengthPrefix in
  let body_length_offset := length full in
  let full := full ++ repeat 48 kBodyLengthPlaceholderWidth ++ [delimiter] in
  let body_start := length full in
  let msg_type := bytes (msg_type message) in
  let full := AppendResolvedHeaderFields now msg_type options delimiter full in
  let full := match extras with Some x => if negb (text_empty (header_fragment x)) then full ++ header_fragment x else full | None => full end in
  let msg_def := if text_empty msg_type then None else find_message dictionary msg_type in
  let full := match msg_def with
              | Some m => EncodeMessageBodyDict dictionary (message_field_rules dictionary m) message delimiter true full
              | None => EncodeMessageBody message delimiter true full
              end in
  let full := match extras with Some x => if negb (text_empty (body_fragment x)) then full ++ body_fragment x else full | None => full end in
  let body_length := u32 (Z.of_nat (length full - body_start)) in
  let digits := FormatUint32 body_length in
  if (kBodyLengthPlaceholderWidth <? length digits)%nat then Error kLengthExceeds
  else
    let full := string_replace full body_length_offset kBodyLengthPlaceholderWidth digits in
    let checksum := ComputeChecksumSIMD has_sse2 full mod 256 in
    Value (AppendField full tags.kCheckSum (checksum_digits checksum) delimiter).

Definition EncodeFixMessageGenericToBuffer (has_sse2 : bool) (now : TimestampResolution -> list Z) (dictionary : NormalizedDictionaryView)
    (message : MessageView) (options : EncodeOptions) : Result (list Z) :=
  EncodeFixMessageGenericWithFragmentsToBuffer has_sse2 now dictionary message options None.
End Fields.

(** ** Precompiled templates *)

(** A scalar step or a group step with the scope of its entries; the index of the
    rule is not used by encoding. *)
Inductive CompiledScopeTemplate :=
  | MkScopeTemplate (steps : list CompiledScopeStep) (scalar_tags group_tags : list Z)
with CompiledScopeStep :=
  | ScalarStep (tag rule_index : Z) (prefix : list Z)
  | GroupStep (tag rule_index : Z) (prefix : list Z) (group_scope : CompiledScopeTemplate).

Definition scope_steps (s : CompiledScopeTemplate) : list CompiledScopeStep := let 'MkScopeTemplate l _ _ := s in l.
Definition scope_scalar_tags (s : CompiledScopeTemplate) : list Z := let 'MkScopeTemplate _ l _ := s in l.
Definition scope_group_tags (s : CompiledScopeTemplate) : list Z := let 'MkScopeTemplate _ _ l := s in l.

(** [std::to_string] of an unsigned number is its decimal text. *)
Definition MakeTagPrefix (tag : Z) : list Z := FormatUint32 tag ++ [kEquals].
Definition MakeFixedFieldFragment (tag : Z) (value : list Z) (delimiter : Z) : list Z := MakeTagPrefix tag ++ value ++ [delimiter].

Definition ContainsTag (l : list Z) (tag : Z) : bool := existsb (Z.eqb tag) l.

(** The loop over the rules; [compile] compiles the rules of a group. *)
Fixpoint compile_steps (dictionary : NormalizedDictionaryView) (compile : list FieldRuleRecord -> Result CompiledScopeTemplate)
    (skip_managed_header_fields : bool) (rules : list FieldRuleRecord) (index : Z) (scope : CompiledScopeTemplate) : Result CompiledScopeTemplate :=
  match rules with
  | [] => Value scope
  | r :: rules =>
      let tag := fr_tag r in
      if skip_managed_header_fields && IsTemplateManagedHeaderField tag
      then compile_steps dictionary compile skip_managed_header_fields rules (index + 1) scope
      else
        let 'MkScopeTemplate steps scalar_tags group_tags := scope in
        match find_group dictionary tag with
        | Some g =>
            match compile (group_field_rules dictionary g) with
            | Error e => Error e
            | Value group_scope =>
                compile_steps dictionary compile skip_managed_header_fields rules (index + 1)
                  (MkScopeTemplate (steps ++ [GroupStep tag index (MakeTagPrefix tag) group_scope]) scalar_tags (group_tags ++ [tag]))
            end
        | None =>
            compile_steps dictionary compile skip_managed_header_fields rules (index + 1)
              (MkScopeTemplate (steps ++ [ScalarStep tag index (MakeTagPrefix tag)]) (scalar_tags ++ [tag]) group_tags)
        end
  end.

(** The recursion follows the nesting of the groups; it ends when no group contains
    itself. *)
Fixpoint CompileScopeTemplate (fuel : nat) (dictionary : NormalizedDictionaryView) (skip_managed_header_fields : bool)
    (rules : list FieldRuleRecord) : Result CompiledScopeTemplate :=
  match fuel with
  | O => Error diverges
  | S fuel =>
      compile_steps dictionary (CompileScopeTemplate fuel dictionary false) skip_managed_header_fields rules 0 (MkScopeTemplate [] [] [])
  end.

(** ** Encoding with a running checksum *)

(** The buffer and [checksum], a 32-bit sum. *)
Record Tracked := MkTracked { t_out : list Z; t_checksum : Z }.

Section Templates.
Context `{FloatFormat} (has_sse2 : bool).

Definition AccumulateChecksum (text : list Z) (checksum : Z) : Z := checksum +u32 ComputeChecksumSIMD has_sse2 text.

Definition AppendTracked (text : list Z) (t : Tracked) : Tracked := MkTracked (t_out t ++ text) (AccumulateChecksum text (t_checksum t)).
Definition AppendTrackedChar (ch : Z) (t : Tracked) : Tracked := MkTracked (t_out t ++ [ch]) (t_checksum t +u32 ch).

(** The bytes appended behind [start_offset] enter the sum. *)
Definition AccumulateAppendedRange (start_offset : nat) (t : Tracked) : Tracked :=
  if (length (t_out t) <=? start_offset)%nat then t
  else MkTracked (t_out t) (AccumulateChecksum (drop start_offset (t_out t)) (t_checksum t)).

Definition TrackedStringField (prefix value : list Z) (delimiter : Z) (t : Tracked) : Tracked :=
  AppendTrackedChar delimiter (AppendTracked value (AppendTracked prefix t)).
Definition TrackedCountField (prefix : list Z) (value delimiter : Z) (t : Tracked) : Tracked :=
  AppendTrackedChar delimiter (AppendTracked (FormatUint32 value) (AppendTracked prefix t)).

Definition AppendPrefixedFieldValue (prefix : list Z) (field : FieldView) (delimiter : Z) (t : Tracked) : Tracked :=
  let t := AppendTracked prefix t in
  let t :=
    if f_type field =? kFieldInt then AppendTracked (FormatInt64 (f_int_value field)) t
    else if f_type field =? kFieldChar then AppendTrackedChar (f_char_value field) t
    else if f_type field =? kFieldFloat then match to_chars_double (f_float_value field) with Some text => AppendTracked text t | None => t end
    else if f_type field =? kFieldBoolean then AppendTracked (if f_bool_value field then [89] else [78]) t
    else AppendTracked (bytes (f_string_value field)) t in
  AppendTrackedChar delimiter t.

Definition AppendTrackedGenericField (field : FieldView) (delimiter : Z) (t : Tracked) : Tracked :=
  AccumulateAppendedRange (length (t_out t)) (MkTracked (EncodeFieldValue (t_out t) field delimiter) (t_checksum t)).

Definition AppendTrackedGenericGroup (tag : Z) (entries : list MessageView) (delimiter : Z) (t : Tracked) : Tracked :=
  AccumulateAppendedRange (length (t_out t))
    (MkTracked (EncodeGroupData (fun entry out => EncodeMessageBody entry delimiter false out) tag entries delimiter (t_out t)) (t_checksum t)).

(** The entries of each group wait for the scope they are encoded with. *)
Fixpoint EncodeScopeTemplate (view : MessageView) (scope : CompiledScopeTemplate) (delimiter : Z) (skip_standard_header : bool) (t : Tracked) : Tracked :=
  let 'MkMessageView _ fields groups := view in
  let encoders :=
    map (fun '(tag, entries) =>
      (tag, fun prefix group_scope t =>
         fold_left (fun t entry => EncodeScopeTemplate entry group_scope delimiter false t) entries
           (TrackedCountField prefix (u32 (Z.of_nat (length entries))) delimiter t))) groups in
  let t := fold_left (fun t step =>
    match step with
    | ScalarStep tag _ prefix =>
        match find_field_view view tag with
        | Some f => if has_group_tag groups (f_tag f) then t else AppendPrefixedFieldValue prefix f delimiter t
        | None => t
        end
    | GroupStep tag _ prefix group_scope =>
        match find_by_tag tag encoders with
        | Some encode => encode prefix group_scope t
        | None => t
        end
    end) (scope_steps scope) t in
  let t := fold_left (fun t f =>
    if ShouldSkipField (f_tag f) then t
    else if has_group_tag groups (f_tag f) then t
    else if ContainsTag (scope_scalar_tags scope) (f_tag f) || ContainsTag (scope_group_tags scope) (f_tag f) then t
    else if skip_standard_header && IsTemplateManagedHeaderField (f_tag f) then t
    else AppendTrackedGenericField f delimiter t) fields t in
  fold_left (fun t '(tag, entries) =>
    if ContainsTag (scope_group_tags scope) tag then t else AppendTrackedGenericGroup tag entries delimiter t) groups t.

Definition ReplaceUnsignedPlaceholder (offset placeholder_width : nat) (value : Z) (t : Tracked) : Tracked :=
  let digits := FormatUint32 value in
  let original_sum := sum_scalar (slice (t_out t) offset placeholder_width) 0 in
  MkTracked (string_replace (t_out t) offset placeholder_width digits) (AccumulateChecksum digits (t_checksum t -u32 original_sum)).
End Templates.

Record EncodeTemplateConfig := MkTemplateConfig {
  tc_begin_string : list Z;
  tc_sender_comp_id : list Z;
  tc_target_comp_id : list Z;
  tc_default_appl_ver_id : list Z;
  tc_delimiter : Z;
}.

(** [FrameEncodeTemplate::State]. *)
Record FrameEncodeTemplate := MkTemplate {
  ft_msg_type : list Z;
  ft_begin_string : list Z;
  ft_sender_comp_id : list Z;
  ft_target_comp_id : list Z;
  ft_default_appl_ver_id : list Z;
  ft_delimiter : Z;
  ft_begin_prefix : list Z;
  ft_msg_type_fragment : list Z;
  ft_msg_seq_prefix : list Z;
  ft_sender_fragment : list Z;
  ft_target_fragment : list Z;
  ft_sending_time_prefix : list Z;
  ft_default_appl_ver_fragment : list Z;
  ft_poss_dup_fragment : list Z;
  ft_poss_resend_prefix : list Z;
  ft_on_behalf_of_prefix : list Z;
  ft_deliver_to_prefix : list Z;
  ft_orig_sending_time_prefix : list Z;
  ft_body_scope : CompiledScopeTemplate;
}.

(** The nesting of groups that do not contain themselves is no deeper than their
    number. *)
Definition template_fuel (dictionary : NormalizedDictionaryView) : nat := S (length (group_defs_ dictionary)).

Definition CompileFrameEncodeTemplate (dictionary : NormalizedDictionaryView) (msg_type : list Z) (config : EncodeTemplateConfig) : Result FrameEncodeTemplate :=
  if text_empty msg_type then Error (status.InvalidArgument "cannot compile a frame template without MsgType")
  else
    match find_message dictionary msg_type with
    | None => Error (status.NotFound "message type is not present in the bound dictionary")
    | Some m =>
        let delimiter := NormalizeDelimiter (tc_delimiter config) in
        let begin_string := if text_empty (tc_begin_string config) then bytes "FIX.4.4" else tc_begin_string config in
        match CompileScopeTemplate (template_fuel dictionary) dictionary true (message_field_rules dictionary m) with
        | Error e => Error e
        | Value body_scope =>
            Value (MkTemplate msg_type begin_string (tc_sender_comp_id config) (tc_target_comp_id config) (tc_default_appl_ver_id config) delimiter
              (MakeFixedFieldFragment tags.kBeginString begin_string delimiter ++ kBodyLengthPrefix)
              (MakeFixedFieldFragment tags.kMsgType msg_type delimiter)
              (MakeTagPrefix tags.kMsgSeqNum)
              (if text_empty (tc_sender_comp_id config) then [] else MakeFixedFieldFragment tags.kSenderCompID (tc_sender_comp_id config) delimiter)
              (if text_empty (tc_target_comp_id config) then [] else MakeFixedFieldFragment tags.kTargetCompID (tc_target_comp_id config) delimiter)
              (MakeTagPrefix tags.kSendingTime)
              (if bytes_eqb msg_type (bytes "A") && negb (text_empty (tc_default_appl_ver_id config))
               then MakeFixedFieldFragment tags.kDefaultApplVerID (tc_default_appl_ver_id config) delimiter else [])
              (MakeFixedFieldFragment tags.kPossDupFlag [89] delimiter)
              (MakeTagPrefix tags.kPossResend) (MakeTagPrefix tags.kOnBehalfOfCompID) (MakeTagPrefix tags.kDeliverToCompID)
              (MakeTagPrefix tags.kOrigSendingTime) body_scope)
        end
    end.

Section TemplateEncoding.
Context `{FloatFormat} (has_sse2 : bool) (now : TimestampResolution -> list Z).

(** The option must be empty or the value the template was compiled with. *)
Definition mismatch (option compiled : list Z) : bool := negb (text_empty option) && negb (bytes_eqb option compiled).

(** [if (condition) append]. *)
Definition tracked_when (condition : bool) (append : Tracked -> Tracked) (t : Tracked) : Tracked := if condition then append t else t.

(** The header the template writes behind the BodyLength placeholder. *)
Definition template_header (tmpl : FrameEncodeTemplate) (options : EncodeOptions) (delimiter : Z) (t : Tracked) : Tracked :=
  let opt prefix value := tracked_when (negb (text_empty value)) (TrackedStringField has_sse2 prefix value delimiter) in
  let fragment text := tracked_when (negb (text_empty text)) (AppendTracked has_sse2 text) in
  let seq_num := if eo_msg_seq_num options =? 0 then 1 else eo_msg_seq_num options in
  let sending_time := if text_empty (eo_sending_time options) then now (eo_timestamp_resolution options) else eo_sending_time options in
  let t := AppendTracked has_sse2 (ft_msg_type_fragment tmpl) t in
  let t := TrackedCountField has_sse2 (ft_msg_seq_prefix tmpl) seq_num delimiter t in
  let t := fragment (ft_sender_fragment tmpl) t in
  let t := opt kSenderSubIDPrefix (eo_sender_sub_id options) t in
  let t := fragment (ft_target_fragment tmpl) t in
  let t := opt kTargetSubIDPrefix (eo_target_sub_id options) t in
  let t := TrackedStringField has_sse2 (ft_sending_time_prefix tmpl) sending_time delimiter t in
  let t := fragment (ft_default_appl_ver_fragment tmpl) t in
  let t := opt kApplVerIDPrefix (eo_appl_ver_id options) t in
  let t := tracked_when (eo_poss_dup options) (AppendTracked has_sse2 (ft_poss_dup_fragment tmpl)) t in
  let t := tracked_when (eo_poss_resend options) (TrackedStringField has_sse2 (ft_poss_resend_prefix tmpl) [89] delimiter) t in
  let t := opt (ft_orig_sending_time_prefix tmpl) (eo_orig_sending_time options) t in
  let t := opt (ft_on_behalf_of_prefix tmpl) (eo_on_behalf_of_comp_id options) t in
  opt (ft_deliver_to_prefix tmpl) (eo_deliver_to_comp_id options) t.

(** [FrameEncodeTemplate::EncodeToBuffer] with fragments. *)
Definition TemplateEncodeToBuffer (tmpl : FrameEncodeTemplate) (message : MessageView) (options : EncodeOptions) (extras : EncodedOutboundExtrasView)
    : Result (list Z) :=
  let msg_type := bytes (msg_type message) in
  let delimiter := NormalizeDelimiter (eo_delimiter options) in
  if mismatch msg_type (ft_msg_type tmpl) then Error (status.InvalidArgument "message type does not match compiled frame template")
  else if negb (delimiter =? ft_delimiter tmpl) then Error (status.InvalidArgument "delimiter does not match compiled frame template")
  else if mismatch (eo_begin_string options) (ft_begin_string tmpl) then Error (status.InvalidArgument "BeginString does not match compiled frame template")
  else if mismatch (eo_sender_comp_id options) (ft_sender_comp_id tmpl) then Error (status.InvalidArgument "SenderCompID does not match compiled frame template")
  else if mismatch (eo_target_comp_id options) (ft_target_comp_id tmpl) then Error (status.InvalidArgument "TargetCompID does not match compiled frame template")
  else if mismatch (eo_default_appl_ver_id options) (ft_default_appl_ver_id tmpl)
  then Error (status.InvalidArgument "DefaultApplVerID does not match compiled frame template")
  else
    let t := AppendTracked has_sse2 (ft_begin_prefix tmpl) (MkTracked [] 0) in
    let body_length_offset := length (t_out t) in
    let t := AppendTrackedChar delimiter (AppendTracked has_sse2 (repeat 48 kBodyLengthPlaceholderWidth) t) in
    let body_start := length (t_out t) in
    let t := template_header tmpl options delimiter t in
    let t := tracked_when (negb (text_empty (header_fragment extras))) (AppendTracked has_sse2 (header_fragment extras)) t in
    let t := EncodeScopeTemplate has_sse2 message (ft_body_scope tmpl) delimiter true t in
    let t := tracked_when (negb (text_empty (body_fragment extras))) (AppendTracked has_sse2 (body_fragment extras)) t in
    let body_length := u32 (Z.of_nat (length (t_out t) - body_start)) in
    if (kBodyLengthPlaceholderWidth <? length (FormatUint32 body_length))%nat then Error kLengthExceeds
    else
      let t := ReplaceUnsignedPlaceholder has_sse2 body_length_offset kBodyLengthPlaceholderWidth body_length t in
      let checksum := t_checksum t mod 256 in
      Value (t_out t ++ kCheckSumPrefix ++ checksum_digits checksum ++ [delimiter]).

(** The overload without fragments has the same statements but the two that append
    them. *)
Definition TemplateEncodeToBufferPlain (tmpl : FrameEncodeTemplate) (message : MessageView) (options : EncodeOptions) : Result (list Z) :=
  TemplateEncodeToBuffer tmpl message options (MkExtras [] []).

(** ** The table of templates *)

Record TemplateEntry := MkTemplateEntry { te_msg_type : list Z; te_template : FrameEncodeTemplate }.

Definition PrecompiledTemplateTable : Type := list TemplateEntry.

(** The loop over the messages: a message whose template fails to compile has no
    entry.  A compilation that does not return ([diverges], the only error value
    with an ok code) does not let the loop return either. *)
Fixpoint compile_entries (dictionary : NormalizedDictionaryView) (config : EncodeTemplateConfig) (messages : list MessageDefRecord)
    : Result (list TemplateEntry) :=
  match messages with
  | [] => Value []
  | m :: messages =>
      let rest := compile_entries dictionary config messages in
      match string_at (string_table_ dictionary) (msg_type_offset m) with
      | Some msg_type =>
          if text_empty msg_type then rest
          else match CompileFrameEncodeTemplate dictionary msg_type config with
               | Value tmpl => match rest with
                               | Value entries => Value (MkTemplateEntry msg_type tmpl :: entries)
                               | Error e => Error e
                               end
               | Error e => if status.ok e then Error e else rest
               end
      | None => rest
      end
  end.

Definition PrecompiledTemplateTable_Build {SA : SortAlgorithm te_msg_type} (dictionary : NormalizedDictionaryView) (config : EncodeTemplateConfig)
    : Result PrecompiledTemplateTable :=
  match compile_entries dictionary config (message_defs_ dictionary) with
  | Value entries => Value (std_sort (key := te_msg_type) entries)
  | Error e => Error e
  end.

Definition find_template (table : PrecompiledTemplateTable) (msg_type : list Z) : option FrameEncodeTemplate :=
  te_template <$> binary_find te_msg_type msg_type table.

(** A template that fails falls back to generic encoding; no table is [None]. *)
Definition EncodeFixMessageToBuffer (dictionary : NormalizedDictionaryView) (precompiled : option PrecompiledTemplateTable) (message : MessageView)
    (options : EncodeOptions) (extras : EncodedOutboundExtrasView) : Result (list Z) :=
  let generic := EncodeFixMessageGenericWithFragmentsToBuffer has_sse2 now dictionary message options (Some extras) in
  let msg_type := bytes (msg_type message) in
  match precompiled with
  | Some table =>
      if text_empty msg_type then generic
      else match find_template table msg_type with
           | Some tmpl => match TemplateEncodeToBuffer tmpl message options extras with
                          | Value out => Value out
                          | Error _ => generic
                          end
           | None => generic
           end
  | None => generic
  end.
End TemplateEncoding.
