(* ===== verification/EncoderProofs.v ===== *)
(** * The encoder: theorems

    What both encoders write: the frame around the fields of the message in the
    order of the dictionary rules.  The templates write the same bytes as generic
    encoding, with the checksum they keep as they go. *)
From S2P Require Import Prelude Base StdAlgo SortSearch IntFormat Scan FixTags Wire RawPassThrough Message Frame NormalizedDictionary Decoder Encoder.
Open Scope Z_scope.

(** ** Views by induction *)

Lemma view_ind (P : MessageView -> Prop) :
  (forall t fields groups, Forall (fun g => Forall P (snd g)) groups -> P (MkMessageView t fields groups)) -> forall v, P v.
Proof.
  intros Hstep. fix IH 1. intros [t fields groups]. apply Hstep. induction groups as [|[tag entries] groups IHg]; [constructor|].
  constructor; [|exact IHg]. cbn. induction entries as [|e entries IHe]; [constructor|]. constructor; [apply IH|exact IHe].
Qed.

(** ** What encoding writes, as a list of fields *)

Section Fields.
Context `{FloatFormat}.

Definition view_text (f : FieldView) : option (list Z) :=
  if f_type f =? kFieldInt then Some (FormatInt64 (f_int_value f))
  else if f_type f =? kFieldChar then Some [f_char_value f]
  else if f_type f =? kFieldFloat then to_chars_double (f_float_value f)
  else if f_type f =? kFieldBoolean then Some (if f_bool_value f then [89] else [78])
  else Some (bytes (f_string_value f)).

Definition emit (f : FieldView) : list (Z * list Z) := match view_text f with Some v => [(f_tag f, v)] | None => [] end.

Definition count_field (tag : Z) (entries : list MessageView) : Z * list Z := (tag, FormatInt64 (Z.of_nat (length entries))).

Definition swept (groups : list (Z * list MessageView)) (skip : bool) (fields : list FieldView) : list (Z * list Z) :=
  concat (map (fun f => if sweep_skips groups skip (f_tag f) then [] else emit f) fields).

Fixpoint plain_fields (view : MessageView) (skip : bool) : list (Z * list Z) :=
  let 'MkMessageView _ fields groups := view in
  swept groups skip fields ++ concat (map (fun '(tag, entries) => count_field tag entries :: concat (map (fun e => plain_fields e false) entries)) groups).

Fixpoint rule_fields (dict : NormalizedDictionaryView) (rules : list FieldRuleRecord) (view : MessageView) (skip : bool) : list (Z * list Z) :=
  let 'MkMessageView _ fields groups := view in
  let parts :=
    map (fun '(tag, entries) =>
      (tag, count_field tag entries ::
            match find_group dict tag with
            | Some g => concat (map (fun e => rule_fields dict (group_field_rules dict g) e false) entries)
            | None => concat (map (fun e => plain_fields e false) entries)
            end)) groups in
  concat (map (fun r =>
    let tag := fr_tag r in
    if ShouldSkipField tag || (skip && IsTemplateManagedHeaderField tag) then []
    else match find_by_tag tag parts with
         | Some part => part
         | None => match List.find (fun f => f_tag f =? tag) fields with Some f => emit f | None => [] end
         end) rules) ++
  concat (map (fun f => if sweep_skips groups skip (f_tag f) || in_rules rules (f_tag f) then [] else emit f) fields) ++
  concat (map (fun '(tag, part) => if in_rules rules tag then [] else part) parts).

(** ** Lemmas: appending *)

Lemma append_field_render out tag value d : AppendField out tag value d = out ++ render [(tag, value)] d.
Proof. unfold AppendField, render. cbn. unfold field_bytes. by rewrite app_nil_r. Qed.

Lemma encode_field_render out f d : EncodeFieldValue out f d = out ++ render (emit f) d.
Proof.
  unfold EncodeFieldValue, emit, view_text, AppendIntField, AppendBoolField, AppendDoubleField.
  repeat match goal with |- context [if ?b then _ else _] => destruct b end; try apply append_field_render.
  destruct (to_chars_double _); [apply append_field_render|by rewrite app_nil_r].
Qed.

(** A fold of steps that each append something appends all of it. *)
Lemma fold_appends {A} (step : list Z -> A -> list Z) (what : A -> list (Z * list Z)) d l : (forall x out, x ∈ l -> step out x = out ++ render (what x) d) ->
  forall out, fold_left step l out = out ++ render (concat (map what l)) d.
Proof.
  induction l as [|x l IH]; intros Hs out; cbn [fold_left map concat]; [by rewrite app_nil_r|]. rewrite Hs by left. rewrite IH by (intros y o Hy; apply Hs; by right).
  by rewrite render_app, <- app_assoc.
Qed.

Lemma fold_left_map' {A B C} (f : A -> B -> A) (g : C -> B) l : forall a, fold_left f (map g l) a = fold_left (fun a c => f a (g c)) l a.
Proof. induction l as [|c l IH]; intros a; cbn; [done|apply IH]. Qed.

Lemma render_nil d : render [] d = [].
Proof. done. Qed.

Lemma encode_group_render body what tag entries d : (forall e out, e ∈ entries -> body e out = out ++ render (what e) d) ->
  forall out, EncodeGroupData body tag entries d out = out ++ render (count_field tag entries :: concat (map what entries)) d.
Proof.
  intros Hb out. unfold EncodeGroupData. rewrite (fold_appends _ what d) by done. unfold AppendIntField. rewrite append_field_render, <- app_assoc, <- render_app. done.
Qed.

Lemma encode_body_render view d : forall skip out, EncodeMessageBody view d skip out = out ++ render (plain_fields view skip) d.
Proof.
  induction view as [t fields groups IH] using view_ind. intros skip out. cbn [EncodeMessageBody plain_fields].
  rewrite (fold_appends _ (fun f => if sweep_skips groups skip (f_tag f) then [] else emit f) d).
  2: { intros f o _. destruct (sweep_skips _ _ _); [by rewrite app_nil_r|apply encode_field_render]. }
  rewrite (fold_appends _ (fun '(tag, entries) => count_field tag entries :: concat (map (fun e => plain_fields e false) entries)) d).
  2: { intros [tag entries] o Hin. rewrite Forall_forall in IH. specialize (IH _ Hin). cbn in IH. rewrite Forall_forall in IH.
       apply encode_group_render. intros e o' He. by apply IH. }
  by rewrite render_app, <- app_assoc.
Qed.

Lemma find_by_tag_pairs {A B} (f : Z -> A -> B) tag (l : list (Z * A)) :
  find_by_tag tag (map (fun '(t, a) => (t, f t a)) l) = (fun g => f (fst g) (snd g)) <$> List.find (fun g => fst g =? tag) l.
Proof. unfold find_by_tag. induction l as [|[t a] l IH]; cbn; [done|]. by destruct (t =? tag). Qed.

Lemma find_elem {A} (p : A -> bool) l x : List.find p l = Some x -> x ∈ l.
Proof. intros Hf. apply List.find_some in Hf as [Hf _]. by apply list_elem_of_In. Qed.

Lemma encode_dict_render dict view d : forall rules skip out,
  EncodeMessageBodyDict dict rules view d skip out = out ++ render (rule_fields dict rules view skip) d.
Proof.
  induction view as [t fields groups IH] using view_ind. intros rules skip out. cbn [EncodeMessageBodyDict rule_fields].
  set (encode := fun (tag : Z) (entries : list MessageView) => match find_group dict tag with
    | Some g => EncodeGroupData (fun entry out => EncodeMessageBodyDict dict (group_field_rules dict g) entry d false out) tag entries d
    | None => EncodeGroupData (fun entry out => EncodeMessageBody entry d false out) tag entries d end).
  set (part := fun (tag : Z) (entries : list MessageView) => count_field tag entries :: match find_group dict tag with
    | Some g => concat (map (fun e => rule_fields dict (group_field_rules dict g) e false) entries)
    | None => concat (map (fun e => plain_fields e false) entries) end).
  assert (Hpart : forall g o, g ∈ groups -> encode g.1 g.2 o = o ++ render (part g.1 g.2) d).
  { intros [tag entries] o Hin. rewrite Forall_forall in IH. specialize (IH _ Hin). cbn in IH. rewrite Forall_forall in IH. unfold encode, part. cbn [fst snd].
    destruct (find_group dict tag) as [g|]; apply encode_group_render; intros e o' He; [by apply IH|apply encode_body_render]. }
  rewrite (fold_appends _ (fun r => if ShouldSkipField (fr_tag r) || (skip && IsTemplateManagedHeaderField (fr_tag r)) then [] else
    match find_by_tag (fr_tag r) (map (fun '(tag, entries) => (tag, part tag entries)) groups) with
    | Some p => p | None => match List.find (fun f => f_tag f =? fr_tag r) fields with Some f => emit f | None => [] end end) d).
  2: { intros r o _. cbn zeta. destruct (ShouldSkipField _); [by rewrite app_nil_r|]. destruct (skip && _); [by rewrite app_nil_r|]. cbn [orb].
       rewrite (find_by_tag_pairs encode), (find_by_tag_pairs part). destruct (List.find _ groups) as [g|] eqn:Eg; cbn [fmap option_fmap option_map].
       - by apply Hpart, (find_elem _ _ _ Eg).
       - destruct (List.find _ fields); [apply encode_field_render|by rewrite app_nil_r]. }
  rewrite (fold_appends _ (fun f => if sweep_skips groups skip (f_tag f) || in_rules rules (f_tag f) then [] else emit f) d).
  2: { intros f o _. destruct (_ || _); [by rewrite app_nil_r|apply encode_field_render]. }
  rewrite fold_left_map', (fold_appends _ (fun g => if in_rules rules g.1 then [] else part g.1 g.2) d).
  2: { intros [tag entries] o Hin. cbn [fst snd]. destruct (in_rules rules tag); [by rewrite app_nil_r|by apply (Hpart (tag, entries))]. }
  assert (Hl : map (fun '(tag, p) => if in_rules rules tag then [] else p) (map (fun '(tag, entries) => (tag, part tag entries)) groups) =
    map (fun g => if in_rules rules g.1 then [] else part g.1 g.2) groups) by (rewrite map_map; apply map_ext; by intros [tag entries]).
  rewrite <- Hl, !render_app, <- !app_assoc. reflexivity.
Qed.

(** ** Lemmas: the generic frame *)

Definition encoded_begin_string (o : EncodeOptions) : list Z := ResolveReplayString (eo_begin_string o) (bytes "FIX.4.4").

(** The header fields, for the type of a message. *)
Definition header_fields (now : TimestampResolution -> list Z) (mt : list Z) (o : EncodeOptions) : list (Z * list Z) :=
  pre_encoded_fields now (MkEncodedMessage (if text_empty mt then bytes "UNKNOWN" else mt) [] (MkExtras [] [])) o.

Definition body_fields (dict : NormalizedDictionaryView) (message : MessageView) : list (Z * list Z) :=
  let mt := bytes (msg_type message) in
  match (if text_empty mt then None else find_message dict mt) with
  | Some m => rule_fields dict (message_field_rules dict m) message true
  | None => plain_fields message true
  end.

Definition encoded_content now dict (message : MessageView) (o : EncodeOptions) (x : EncodedOutboundExtrasView) : list Z :=
  let soh := NormalizeDelimiter (eo_delimiter o) in
  render (header_fields now (bytes (msg_type message)) o) soh ++ header_fragment x ++ render (body_fields dict message) soh ++ body_fragment x.

Definition encoded_frame now dict (message : MessageView) (o : EncodeOptions) (x : EncodedOutboundExtrasView) : list Z :=
  make_frame (encoded_begin_string o) (encoded_content now dict message o x) (NormalizeDelimiter (eo_delimiter o)).

Lemma append_prefixed_render out p t v d : p = FormatUint32 t ++ [61] -> AppendPrefixedStringField out p v d = out ++ render [(t, v)] d.
Proof. apply append_string_render. Qed.

Lemma append_if_render (b : bool) out p t v d : p = FormatUint32 t ++ [61] -> append_if b out p v d = out ++ render (if b then [(t, v)] else []) d.
Proof. intros Hp. unfold append_if. destruct b; [by apply append_prefixed_render|by rewrite app_nil_r]. Qed.

Lemma opt_field_if t v : (if negb (text_empty v) then [(t, v)] else []) = opt_field t v.
Proof. unfold opt_field. by destruct (text_empty v). Qed.

Lemma resolved_header_render now mt o d out : AppendResolvedHeaderFields now mt o d out = out ++ render (header_fields now mt o) d.
Proof.
  unfold AppendResolvedHeaderFields. cbv zeta. change (AppendPrefixedCountField ?o ?p ?v ?d) with (AppendPrefixedStringField o p (FormatUint32 v) d).
  rewrite (append_if_render _ _ kDeliverToCompIDPrefix tags.kDeliverToCompID), (append_if_render _ _ kOnBehalfOfCompIDPrefix tags.kOnBehalfOfCompID),
    (append_if_render _ _ kOrigSendingTimePrefix tags.kOrigSendingTime), (append_if_render _ _ kPossResendPrefix tags.kPossResend),
    (append_if_render _ _ kPossDupPrefix tags.kPossDupFlag), (append_if_render _ _ kApplVerIDPrefix tags.kApplVerID),
    (append_if_render _ _ kDefaultApplVerIDPrefix tags.kDefaultApplVerID), (append_prefixed_render _ kSendingTimePrefix tags.kSendingTime),
    (append_if_render _ _ kTargetSubIDPrefix tags.kTargetSubID), (append_if_render _ _ kTargetCompIDPrefix tags.kTargetCompID),
    (append_if_render _ _ kSenderSubIDPrefix tags.kSenderSubID), (append_if_render _ _ kSenderCompIDPrefix tags.kSenderCompID),
    (append_prefixed_render _ kMsgSeqNumPrefix tags.kMsgSeqNum), (append_prefixed_render _ kMsgTypePrefix tags.kMsgType) by reflexivity.
  rewrite !opt_field_if, <- !app_assoc, <- !render_app. do 2 f_equal. unfold header_fields, pre_encoded_fields. cbn [em_msg_type].
  assert (Hd : (if bytes_eqb mt (bytes "A") && negb (text_empty (eo_default_appl_ver_id o)) then [(tags.kDefaultApplVerID, eo_default_appl_ver_id o)] else []) =
    (if bytes_eqb (if text_empty mt then bytes "UNKNOWN" else mt) (bytes "A") then opt_field tags.kDefaultApplVerID (eo_default_appl_ver_id o) else [])).
  { destruct (text_empty mt) eqn:E; [by destruct mt|]. destruct (bytes_eqb mt (bytes "A")); [apply opt_field_if|done]. }
  rewrite Hd. done.
Qed.

Lemma generic_frame sse now dict message o x :
  in_u32 (Z.of_nat (length (encoded_content now dict message o x))) -> Forall is_byte (encoded_frame now dict message o x) ->
  EncodeFixMessageGenericWithFragmentsToBuffer sse now dict message o (Some x) =
    if fits_placeholder (encoded_content now dict message o x) then Value (encoded_frame now dict message o x) else Error kLengthExceeds.
Proof.
  intros Hc Hbytes. unfold EncodeFixMessageGenericWithFragmentsToBuffer. cbv zeta. set (soh := NormalizeDelimiter (eo_delimiter o)) in *.
  fold (ResolveReplayString (eo_begin_string o) (bytes "FIX.4.4")). fold (encoded_begin_string o). set (bs := encoded_begin_string o) in *.
  fold (frame_start bs soh). set (P := frame_start bs soh). rewrite !append_body, resolved_header_render.
  set (full := match _ with Some m => _ | None => _ end). set (content := encoded_content now dict message o x) in *.
  assert (Hfull : full ++ body_fragment x = with_placeholder bs content soh).
  { unfold full, with_placeholder, content, encoded_content, body_fields. cbv zeta. fold soh P.
    destruct (if text_empty _ then None else _); [rewrite encode_dict_render|rewrite encode_body_render]; by rewrite <- !app_assoc. }
  rewrite Hfull. unfold P. rewrite placeholder_length, u32_small, backfill_replace, fits_placeholder_false by done.
  destruct (fits_placeholder _); cbn [negb]; [|done]. unfold encoded_frame, make_frame in *. fold soh content bs in Hbytes |- *.
  apply Forall_app in Hbytes as [Hbytes _]. unfold AppendField. f_equal. f_equal. rewrite (app_assoc (FormatUint32 tags.kCheckSum)). f_equal. f_equal. f_equal. f_equal.
  rewrite (ComputeChecksumSIMD_sum sse _ Hbytes), <- (Z.add_0_l (foldr Z.add 0 _)), <- sum_scalar_eq.
  rewrite u32_small by (apply sum_scalar_range; ulia). done.
Qed.
End Fields.

(** ** Lemmas: the running checksum *)

Definition byte_sum (l : list Z) : Z := foldr Z.add 0 l.

(** The text was appended and its bytes entered the sum. *)
Definition wrote (t : Tracked) (l : list Z) (t' : Tracked) : Prop := t_out t' = t_out t ++ l /\ u32 (t_checksum t') = u32 (t_checksum t + byte_sum l).

Lemma u32_add_l a b : u32 (u32 a + b) = u32 (a + b).
Proof. unfold u32. apply Zplus_mod_idemp_l. Qed.
Lemma u32_add_r a b : u32 (a + u32 b) = u32 (a + b).
Proof. unfold u32. apply Zplus_mod_idemp_r. Qed.
Lemma u32_idem a : u32 (u32 a) = u32 a.
Proof. unfold u32. apply Zmod_mod. Qed.

Lemma wrote_nil t : wrote t [] t.
Proof. split; [by rewrite app_nil_r|]. cbn. by rewrite Z.add_0_r. Qed.

Lemma wrote_trans t1 a t2 b t3 : wrote t1 a t2 -> wrote t2 b t3 -> wrote t1 (a ++ b) t3.
Proof.
  intros [H1 H2] [H3 H4]. split; [by rewrite H3, H1, app_assoc|]. rewrite H4, <- u32_add_l, H2, u32_add_l. f_equal. unfold byte_sum. rewrite foldr_add_app. lia.
Qed.

Section Tracking.
Context `{FloatFormat} (sse : bool).

Lemma tracked_wrote l t : Forall is_byte l -> wrote t l (AppendTracked sse l t).
Proof.
  intros Hb. split; [done|]. cbn. unfold AccumulateChecksum. rewrite ComputeChecksumSIMD_sum by done. by rewrite u32_idem, u32_add_r.
Qed.

Lemma tracked_char_wrote c t : wrote t [c] (AppendTrackedChar c t).
Proof. split; [done|]. cbn. rewrite u32_idem. f_equal. lia. Qed.

Lemma range_wrote t out l : out = t_out t ++ l -> Forall is_byte l -> wrote t l (AccumulateAppendedRange sse (length (t_out t)) (MkTracked out (t_checksum t))).
Proof.
  intros -> Hb. unfold AccumulateAppendedRange. cbn [t_out]. rewrite length_app. destruct (Nat.leb_spec (length (t_out t) + length l) (length (t_out t))).
  - assert (l = []) as -> by (apply nil_length_inv; lia). split; cbn; [done|by rewrite Z.add_0_r].
  - rewrite drop_app_length. split; [done|]. cbn. unfold AccumulateChecksum. rewrite ComputeChecksumSIMD_sum by done. by rewrite u32_idem, u32_add_r.
Qed.

Lemma string_field_wrote p tag v d t : p = FormatUint32 tag ++ [61] -> Forall is_byte (render [(tag, v)] d) -> wrote t (render [(tag, v)] d) (TrackedStringField sse p v d t).
Proof.
  intros -> Hb. unfold render, field_bytes in *. cbn [map concat fst snd] in *. rewrite app_nil_r in *. rewrite !Forall_app in Hb. destruct Hb as (Hb1 & Hb2 & Hb3 & Hb4).
  unfold TrackedStringField. rewrite (app_assoc (FormatUint32 tag)). eapply wrote_trans; [apply tracked_wrote, Forall_app; by split|].
  eapply wrote_trans; [by apply tracked_wrote|apply tracked_char_wrote].
Qed.

Lemma prefixed_value_wrote tag f v d t : f_tag f = tag -> view_text f = Some v -> Forall is_byte (render [(tag, v)] d) ->
  wrote t (render [(tag, v)] d) (AppendPrefixedFieldValue sse (MakeTagPrefix tag) f d t).
Proof.
  intros Ht Hv Hb. unfold render, field_bytes in *. cbn [map concat fst snd] in *. rewrite app_nil_r in *. rewrite !Forall_app in Hb. destruct Hb as (Hb1 & Hb2 & Hb3 & Hb4).
  unfold AppendPrefixedFieldValue, MakeTagPrefix. rewrite (app_assoc (FormatUint32 tag)). eapply wrote_trans; [apply tracked_wrote, Forall_app; by split|].
  eapply wrote_trans; [|apply tracked_char_wrote]. unfold view_text in Hv. repeat match goal with |- context [if ?b then _ else _] => destruct b end;
    try (injection Hv as <-; (apply tracked_char_wrote || by apply tracked_wrote)). rewrite Hv. by apply tracked_wrote.
Qed.

Lemma generic_field_wrote f d t : Forall is_byte (render (emit f) d) -> wrote t (render (emit f) d) (AppendTrackedGenericField sse f d t).
Proof. intros Hb. apply range_wrote; [apply encode_field_render|done]. Qed.

(** A fold of steps that each write something. *)
Lemma fold_wrote {A} (step : Tracked -> A -> Tracked) (what : A -> list (Z * list Z)) d l : Forall is_byte (render (concat (map what l)) d) ->
  (forall x t, x ∈ l -> Forall is_byte (render (what x) d) -> wrote t (render (what x) d) (step t x)) ->
  forall t, wrote t (render (concat (map what l)) d) (fold_left step l t).
Proof.
  induction l as [|x l IH]; cbn [map concat fold_left]; intros Hb Hs t; [apply wrote_nil|]. rewrite render_app in *. apply Forall_app in Hb as [Hb1 Hb2].
  eapply wrote_trans; [apply Hs; [left|done]|]. apply IH; [done|]. intros y t' Hy. apply Hs. by right.
Qed.
End Tracking.

(** ** Lemmas: compiled scopes *)

Section Compiled.
Context (dict : NormalizedDictionaryView) (compile : list FieldRuleRecord -> Result CompiledScopeTemplate) (skip : bool).

(** A rule the template leaves to the header. *)
Definition managed (tag : Z) : bool := skip && IsTemplateManagedHeaderField tag.

(** The steps, scalar tags and group tags that the rules compile to. *)
Inductive compiles : list FieldRuleRecord -> list CompiledScopeStep -> list Z -> list Z -> Prop :=
  | compiles_nil : compiles [] [] [] []
  | compiles_managed r rules steps sc gr : managed (fr_tag r) = true -> compiles rules steps sc gr -> compiles (r :: rules) steps sc gr
  | compiles_scalar r i rules steps sc gr : managed (fr_tag r) = false -> find_group dict (fr_tag r) = None -> compiles rules steps sc gr ->
      compiles (r :: rules) (ScalarStep (fr_tag r) i (MakeTagPrefix (fr_tag r)) :: steps) (fr_tag r :: sc) gr
  | compiles_group r i g scope rules steps sc gr : managed (fr_tag r) = false -> find_group dict (fr_tag r) = Some g ->
      compile (group_field_rules dict g) = Value scope -> compiles rules steps sc gr ->
      compiles (r :: rules) (GroupStep (fr_tag r) i (MakeTagPrefix (fr_tag r)) scope :: steps) sc (fr_tag r :: gr).

Lemma compile_steps_compiles rules : forall i st sc gr scope, compile_steps dict compile skip rules i (MkScopeTemplate st sc gr) = Value scope ->
  exists st' sc' gr', scope = MkScopeTemplate (st ++ st') (sc ++ sc') (gr ++ gr') /\ compiles rules st' sc' gr'.
Proof.
  induction rules as [|r rules IH]; intros i st sc gr scope Hc; cbn in Hc.
  - injection Hc as <-. exists [], [], []. rewrite !app_nil_r. split; [done|constructor].
  - destruct (skip && _) eqn:Em.
    + apply IH in Hc as (st' & sc' & gr' & -> & Hr). exists st', sc', gr'. split; [done|by constructor].
    + destruct (find_group dict (fr_tag r)) as [g|] eqn:Eg.
      * destruct (compile _) as [scope'|] eqn:Ec; [|done]. apply IH in Hc as (st' & sc' & gr' & -> & Hr).
        eexists (_ :: st'), sc', (_ :: gr'). rewrite <- !app_assoc. split; [done|by econstructor].
      * apply IH in Hc as (st' & sc' & gr' & -> & Hr). eexists (_ :: st'), (_ :: sc'), gr'. rewrite <- !app_assoc. split; [done|by constructor].
Qed.

Lemma compiles_scalar_tags rules st sc gr tag : compiles rules st sc gr ->
  ContainsTag sc tag = in_rules rules tag && negb (managed tag) && bool_decide (find_group dict tag = None).
Proof.
  induction 1 as [|r rules st sc gr Hm Hc IH|r i rules st sc gr Hm Hg Hc IH|r i g scope rules st sc gr Hm Hg Hs Hc IH]; cbn; [done|..]; fold (ContainsTag sc tag) (in_rules rules tag); rewrite IH.
  - destruct (Z.eqb_spec (fr_tag r) tag) as [<-|]; [rewrite Hm; cbn; by rewrite andb_false_r|done].
  - rewrite Z.eqb_sym. destruct (Z.eqb_spec (fr_tag r) tag) as [<-|]; [|done]. rewrite Hm, Hg. done.
  - destruct (Z.eqb_spec (fr_tag r) tag) as [<-|]; [|done]. cbn. rewrite (bool_decide_eq_false_2 (find_group dict (fr_tag r) = None)) by congruence. by rewrite !andb_false_r.
Qed.

Lemma compiles_group_tags rules st sc gr tag : compiles rules st sc gr ->
  ContainsTag gr tag = in_rules rules tag && negb (managed tag) && negb (bool_decide (find_group dict tag = None)).
Proof.
  induction 1 as [|r rules st sc gr Hm Hc IH|r i rules st sc gr Hm Hg Hc IH|r i g scope rules st sc gr Hm Hg Hs Hc IH]; cbn; [done|..]; fold (ContainsTag gr tag) (in_rules rules tag); rewrite IH.
  - destruct (Z.eqb_spec (fr_tag r) tag) as [<-|]; [rewrite Hm; cbn; by rewrite andb_false_r|done].
  - destruct (Z.eqb_spec (fr_tag r) tag) as [<-|]; [|done]. cbn. rewrite (bool_decide_eq_true_2 _ Hg). by rewrite !andb_false_r.
  - rewrite Z.eqb_sym. destruct (Z.eqb_spec (fr_tag r) tag) as [<-|]; [|done]. cbn. rewrite Hm, (bool_decide_eq_false_2 (find_group dict (fr_tag r) = None)) by congruence. done.
Qed.

Lemma compiles_tags rules st sc gr tag : compiles rules st sc gr -> ContainsTag sc tag || ContainsTag gr tag = in_rules rules tag && negb (managed tag).
Proof.
  intros Hc. rewrite (compiles_scalar_tags rules st sc gr tag Hc), (compiles_group_tags rules st sc gr tag Hc).
  destruct (in_rules rules tag), (negb (managed tag)), (bool_decide _); done.
Qed.
End Compiled.

(** ** Messages a template encodes the way generic encoding does *)

Section Ready.
Context `{FloatFormat} (dict : NormalizedDictionaryView).

(** A field has a text and is no frame field the rules list; one that counts the
    entries of a group of the rules comes with its group. *)
Definition field_ready (rules : list FieldRuleRecord) (groups : list (Z * list MessageView)) (f : FieldView) : bool :=
  bool_decide (is_Some (view_text f)) && negb (ShouldSkipField (f_tag f) && in_rules rules (f_tag f)) &&
  (has_group_tag groups (f_tag f) || negb (in_rules rules (f_tag f)) || bool_decide (find_group dict (f_tag f) = None)).

(** A group is one of the rules and of the dictionary, and so are those of its
    entries.  The entries name no message type that a rule would show. *)
Fixpoint template_ready (rules : list FieldRuleRecord) (view : MessageView) (skip : bool) : bool :=
  let 'MkMessageView t fields groups := view in
  (skip || bool_decide (t = "") || negb (in_rules rules tags.kMsgType)) &&
  forallb (field_ready rules groups) fields &&
  forallb (fun '(tag, entries) =>
    in_rules rules tag && negb (ShouldSkipField tag) && negb (IsTemplateManagedHeaderField tag) && (Z.of_nat (length entries) <=? UINT32_MAX) &&
    match find_group dict tag with
    | Some g => forallb (fun e => template_ready (group_field_rules dict g) e false) entries
    | None => false
    end) groups.

(** What [template_ready] says of a group. *)
Lemma ready_group rules t fields groups skip tag entries : template_ready rules (MkMessageView t fields groups) skip = true -> (tag, entries) ∈ groups ->
  in_rules rules tag = true /\ ShouldSkipField tag = false /\ IsTemplateManagedHeaderField tag = false /\ Z.of_nat (length entries) <= UINT32_MAX /\
  exists g, find_group dict tag = Some g /\ forall e, e ∈ entries -> template_ready (group_field_rules dict g) e false = true.
Proof.
  cbn [template_ready]. rewrite !andb_true_iff, !forallb_forall. intros [_ Hg] Hin. specialize (Hg _ (proj1 (list_elem_of_In _ _) Hin)). cbn in Hg.
  rewrite !andb_true_iff, !negb_true_iff, Z.leb_le in Hg. destruct Hg as ((((H1 & H2) & H3) & H4) & H5). split_and!; try done.
  destruct (find_group dict tag) as [g|]; [|done]. exists g. split; [done|]. rewrite forallb_forall in H5. intros e He. by apply H5, list_elem_of_In.
Qed.

Lemma ready_field rules t fields groups skip f : template_ready rules (MkMessageView t fields groups) skip = true -> f ∈ fields -> field_ready rules groups f = true.
Proof. cbn [template_ready]. rewrite !andb_true_iff, !forallb_forall. intros [[_ Hf] _] Hin. by apply Hf, list_elem_of_In. Qed.

Lemma has_group_tag_find groups tag : has_group_tag groups tag = match List.find (fun g => fst g =? tag) groups with Some _ => true | None => false end.
Proof. unfold has_group_tag. induction groups as [|[t es] groups IH]; cbn; [done|]. by destruct (t =? tag). Qed.

Lemma find_tag_eq {A} (l : list (Z * A)) tag g : List.find (fun g => fst g =? tag) l = Some g -> g.1 = tag.
Proof. intros Hf. apply List.find_some in Hf as [_ Hf]. by apply Z.eqb_eq. Qed.

(** What a rule contributes to the fields of a view. *)
Definition rule_part (rules : list FieldRuleRecord) (t : string) (fields : list FieldView) (groups : list (Z * list MessageView)) (skip : bool) (tag : Z)
    : list (Z * list Z) :=
  if ShouldSkipField tag || (skip && IsTemplateManagedHeaderField tag) then []
  else match List.find (fun g => fst g =? tag) groups with
       | Some (_, entries) =>
           count_field tag entries ::
           match find_group dict tag with
           | Some g => concat (map (fun e => rule_fields dict (group_field_rules dict g) e false) entries)
           | None => concat (map (fun e => plain_fields e false) entries)
           end
       | None => match List.find (fun f => f_tag f =? tag) fields with Some f => emit f | None => [] end
       end.

Lemma in_rules_elem rules r : r ∈ rules -> in_rules rules (fr_tag r) = true.
Proof. intros Hr. apply existsb_exists. exists r. split; [by apply list_elem_of_In|apply Z.eqb_refl]. Qed.

(** Ready views: the sweeps write the fields outside the rules, and no group. *)
Lemma ready_rule_fields rules t fields groups skip : template_ready rules (MkMessageView t fields groups) skip = true ->
  rule_fields dict rules (MkMessageView t fields groups) skip =
  concat (map (fun r => rule_part rules t fields groups skip (fr_tag r)) rules) ++
  concat (map (fun f => if sweep_skips groups skip (f_tag f) || in_rules rules (f_tag f) then [] else emit f) fields).
Proof.
  intros Hr. cbn [rule_fields]. f_equal.
  - f_equal. apply map_ext. intros r. unfold rule_part.
    set (part := fun (tag : Z) (entries : list MessageView) => count_field tag entries :: match find_group dict tag with
      | Some g => concat (map (fun e => rule_fields dict (group_field_rules dict g) e false) entries)
      | None => concat (map (fun e => plain_fields e false) entries) end).
    change (map _ groups) with (map (fun '(tag, entries) => (tag, part tag entries)) groups). rewrite (find_by_tag_pairs part).
    destruct (_ || _); [done|]. destruct (List.find _ groups) as [[tag entries]|] eqn:Eg; cbn; [|done]. apply find_tag_eq in Eg. cbn in Eg. by subst tag.
  - rewrite map_map. match goal with |- ?a ++ ?b = _ => assert (Hb : b = []); [|by rewrite Hb, app_nil_r] end. apply concat_nil_Forall. apply Forall_map, Forall_forall. intros [tag entries] Hin.
    by destruct (ready_group rules t fields groups skip tag entries Hr Hin) as (-> & _).
Qed.
End Ready.

(** ** Lemmas: a compiled scope writes the fields of the rules *)

Section ScopeWrote.
Context `{FloatFormat} (sse : bool) (dict : NormalizedDictionaryView) (d : Z).

Definition scope_writes (view : MessageView) : Prop := forall fuel rules scope skip t,
  CompileScopeTemplate fuel dict skip rules = Value scope -> template_ready dict rules view skip = true ->
  Forall is_byte (render (rule_fields dict rules view skip) d) ->
  wrote t (render (rule_fields dict rules view skip) d) (EncodeScopeTemplate sse view scope d skip t).

(** The fold over the steps, as [EncodeScopeTemplate] has it. *)
Definition run_step (t : string) (fields : list FieldView) (groups : list (Z * list MessageView)) (w : Tracked) (step : CompiledScopeStep) : Tracked :=
  match step with
  | ScalarStep tag _ prefix =>
      match find_field_view (MkMessageView t fields groups) tag with
      | Some f => if has_group_tag groups (f_tag f) then w else AppendPrefixedFieldValue sse prefix f d w
      | None => w
      end
  | GroupStep tag _ prefix group_scope =>
      match List.find (fun g => fst g =? tag) groups with
      | Some (_, entries) =>
          fold_left (fun w entry => EncodeScopeTemplate sse entry group_scope d false w) entries (TrackedCountField sse prefix (u32 (Z.of_nat (length entries))) d w)
      | None => w
      end
  end.

Section View.
Context (rules : list FieldRuleRecord) (t : string) (fields : list FieldView) (groups : list (Z * list MessageView)) (skip : bool).
Context (Hr : template_ready dict rules (MkMessageView t fields groups) skip = true).

Lemma scalar_step_writes r i w : r ∈ rules -> managed skip (fr_tag r) = false -> find_group dict (fr_tag r) = None ->
  Forall is_byte (render (rule_part dict rules t fields groups skip (fr_tag r)) d) ->
  wrote w (render (rule_part dict rules t fields groups skip (fr_tag r)) d) (run_step t fields groups w (ScalarStep (fr_tag r) i (MakeTagPrefix (fr_tag r)))).
Proof.
  intros Hin Hm Hg. unfold rule_part. fold (managed skip (fr_tag r)). rewrite Hm, orb_false_r. cbn [run_step].
  destruct (List.find (fun g => fst g =? fr_tag r) groups) as [[tag entries]|] eqn:Eg.
  { pose proof (find_tag_eq _ _ _ Eg) as Ht. cbn in Ht. subst tag. destruct (ready_group dict rules t fields groups skip _ entries Hr (find_elem _ _ _ Eg)) as (_ & _ & _ & _ & g & Hx & _). congruence. }
  unfold find_field_view. cbn [view_fields msg_type]. destruct (List.find (fun f => f_tag f =? fr_tag r) fields) as [f|] eqn:Ef.
  - pose proof (ready_field dict rules t fields groups skip f Hr (find_elem _ _ _ Ef)) as Hf. apply List.find_some in Ef as [_ Ef]. apply Z.eqb_eq in Ef.
    unfold field_ready in Hf. rewrite !andb_true_iff, negb_true_iff in Hf. destruct Hf as [[Hv Hs] _]. apply bool_decide_eq_true in Hv as [v Hv].
    rewrite Ef, (in_rules_elem rules r Hin), andb_true_r in Hs. rewrite Ef, Hs, has_group_tag_find, Eg. unfold emit. rewrite Hv, Ef. intros Hb. by apply prefixed_value_wrote.
  - assert (Hnone : (if (fr_tag r =? tags.kMsgType) && negb (bool_decide (t = "")) then Some (MkFieldView tags.kMsgType kFieldString t 0 0 0 false) else None) = None).
    { destruct (Z.eqb_spec (fr_tag r) tags.kMsgType) as [Et|]; [|done]. cbn [andb]. cbn [template_ready] in Hr. rewrite !andb_true_iff in Hr. destruct Hr as [[Hmt _] _].
      unfold managed in Hm. rewrite Et in Hm. change (IsTemplateManagedHeaderField tags.kMsgType) with true in Hm. rewrite andb_true_r in Hm. rewrite Hm in Hmt.
      pose proof (in_rules_elem rules r Hin) as Hi. rewrite Et in Hi. rewrite Hi, orb_false_r in Hmt. cbn in Hmt. by rewrite Hmt. }
    rewrite Hnone. intros _. destruct (ShouldSkipField (fr_tag r)); apply wrote_nil.
Qed.

Lemma group_step_writes fuel r i g scope w : Forall (fun g => Forall scope_writes (snd g)) groups ->
  r ∈ rules -> managed skip (fr_tag r) = false -> find_group dict (fr_tag r) = Some g -> CompileScopeTemplate fuel dict false (group_field_rules dict g) = Value scope ->
  Forall is_byte (render (rule_part dict rules t fields groups skip (fr_tag r)) d) ->
  wrote w (render (rule_part dict rules t fields groups skip (fr_tag r)) d) (run_step t fields groups w (GroupStep (fr_tag r) i (MakeTagPrefix (fr_tag r)) scope)).
Proof.
  intros IH Hin Hm Hg Hc. unfold rule_part. fold (managed skip (fr_tag r)). rewrite Hm, orb_false_r, Hg. cbn [run_step].
  destruct (List.find (fun g => fst g =? fr_tag r) groups) as [[tag entries]|] eqn:Eg.
  - pose proof (find_tag_eq _ _ _ Eg) as Ht. cbn in Ht. subst tag. apply find_elem in Eg. destruct (ready_group dict rules t fields groups skip _ entries Hr Eg) as (_ & Hs & _ & Hl & g' & Hg' & He).
    rewrite Hg in Hg'. injection Hg' as <-. rewrite Hs. change (?x :: ?l) with ([x] ++ l). rewrite render_app, Forall_app. intros [Hb1 Hb2].
    eapply wrote_trans; [|apply (fold_wrote _ (fun e => rule_fields dict (group_field_rules dict g) e false)); [done|]].
    + unfold count_field in *. rewrite format_int_uint in * by lia. by apply (string_field_wrote sse (MakeTagPrefix (fr_tag r)) (fr_tag r)).
    + intros e w' Hin' Hbe. rewrite Forall_forall in IH. specialize (IH _ Eg). cbn in IH. rewrite Forall_forall in IH. by apply (IH e Hin' fuel); auto.
  - destruct (List.find (fun f => f_tag f =? fr_tag r) fields) as [f|] eqn:Ef; [|intros _; destruct (ShouldSkipField (fr_tag r)); apply wrote_nil].
    pose proof (ready_field dict rules t fields groups skip f Hr (find_elem _ _ _ Ef)) as Hf. apply List.find_some in Ef as [_ Ef]. apply Z.eqb_eq in Ef.
    unfold field_ready in Hf. rewrite Ef, has_group_tag_find, Eg, (in_rules_elem rules r Hin), (bool_decide_eq_false_2 (find_group dict (fr_tag r) = None)) in Hf by congruence.
    cbn in Hf. by rewrite andb_false_r in Hf.
Qed.

Lemma steps_write fuel rules' steps sc gr w : Forall (fun g => Forall scope_writes (snd g)) groups ->
  compiles dict (CompileScopeTemplate fuel dict false) skip rules' steps sc gr -> (forall r, r ∈ rules' -> r ∈ rules) ->
  Forall is_byte (render (concat (map (fun r => rule_part dict rules t fields groups skip (fr_tag r)) rules')) d) ->
  wrote w (render (concat (map (fun r => rule_part dict rules t fields groups skip (fr_tag r)) rules')) d) (fold_left (run_step t fields groups) steps w).
Proof.
  intros IH Hc. revert w. induction Hc as [|r rules' st sc gr Hm Hc IHc|r i rules' st sc gr Hm Hg Hc IHc|r i g scope rules' st sc gr Hm Hg Hs Hc IHc];
    intros w Hsub Hb; [apply wrote_nil|..]; cbn [map concat fold_left] in *; rewrite render_app in *; apply Forall_app in Hb as [Hb1 Hb2];
    assert (Hsub' : forall r, r ∈ rules' -> r ∈ rules) by (intros r' Hr'; apply Hsub; by right).
  - assert (He : rule_part dict rules t fields groups skip (fr_tag r) = []) by (unfold rule_part; fold (managed skip (fr_tag r)); by rewrite Hm, orb_true_r).
    rewrite He. by apply IHc.
  - eapply wrote_trans; [apply scalar_step_writes; (done || apply Hsub; left)|by apply IHc].
  - eapply wrote_trans; [eapply group_step_writes; try done; apply Hsub; left|by apply IHc].
Qed.
End View.

Lemma fold_same {A B} (f : B -> A -> B) l b : (forall x b, x ∈ l -> f b x = b) -> fold_left f l b = b.
Proof. revert b. induction l as [|x l IH]; intros b Hf; cbn; [done|]. rewrite Hf by left. apply IH. intros y c Hy. apply Hf. by right. Qed.

Lemma fold_ext_in {A B} (f g : B -> A -> B) l b : (forall x b, x ∈ l -> f b x = g b x) -> fold_left f l b = fold_left g l b.
Proof. revert b. induction l as [|x l IH]; intros b Hf; cbn; [done|]. rewrite Hf by left. apply IH. intros y c Hy. apply Hf. by right. Qed.

Lemma scope_wrote view : scope_writes view.
Proof.
  induction view as [t fields groups IH] using view_ind. intros fuel rules scope skip w Hc Hr Hb. destruct fuel as [|fuel]; [done|]. cbn [CompileScopeTemplate] in Hc.
  apply compile_steps_compiles in Hc as (st & sc & gr & -> & Hc). cbn [app]. rewrite (ready_rule_fields dict rules t fields groups skip Hr) in *.
  rewrite render_app, Forall_app in Hb. destruct Hb as [Hb1 Hb2]. cbn [EncodeScopeTemplate]. cbn [scope_steps scope_scalar_tags scope_group_tags].
  set (encode := fun (tag : Z) (entries : list MessageView) prefix group_scope w =>
    fold_left (fun w entry => EncodeScopeTemplate sse entry group_scope d false w) entries (TrackedCountField sse prefix (u32 (Z.of_nat (length entries))) d w)).
  rewrite (fold_same _ groups).
  2: { intros [tag entries] w' Hin. rewrite (compiles_group_tags _ _ _ _ _ _ _ tag Hc). destruct (ready_group dict rules t fields groups skip tag entries Hr Hin) as (-> & _ & Hm & _ & g & Hg & _).
       unfold managed. rewrite Hm, andb_false_r, (bool_decide_eq_false_2 (find_group dict tag = None)) by congruence. done. }
  match goal with |- context [fold_left ?f st w] => rewrite (fold_ext_in f (run_step t fields groups) st w) end.
  2: { intros [tag i prefix|tag i prefix gs] w' _; cbn [run_step]; [done|].
       change (map _ groups) with (map (fun '(tag, entries) => (tag, encode tag entries)) groups). rewrite (find_by_tag_pairs encode). by destruct (List.find _ groups) as [[]|]. }
  rewrite render_app. apply (wrote_trans _ _ (fold_left (run_step t fields groups) st w)); [by eapply steps_write|].
  apply (fold_wrote _ (fun f => if sweep_skips groups skip (f_tag f) || in_rules rules (f_tag f) then [] else emit f)); [done|]. intros f w' Hin Hbf.
    pose proof (compiles_tags _ _ _ _ _ _ _ (f_tag f) Hc) as Ht. unfold managed in Ht. rewrite Ht. unfold sweep_skips in *. destruct (ShouldSkipField (f_tag f)); [apply wrote_nil|].
    destruct (has_group_tag groups (f_tag f)); [apply wrote_nil|]. destruct (skip && _); cbn [orb negb andb] in *; rewrite ?andb_false_r, ?andb_true_r in *; [apply wrote_nil|].
    destruct (in_rules rules (f_tag f)); [apply wrote_nil|by apply generic_field_wrote].
Qed.

(** ** Lemmas: the frame of a template *)

Context (now : TimestampResolution -> list Z).

(** The options name what the template was compiled with. *)
Definition options_match (config : EncodeTemplateConfig) (o : EncodeOptions) : Prop :=
  NormalizeDelimiter (eo_delimiter o) = NormalizeDelimiter (tc_delimiter config) /\
  encoded_begin_string o = ResolveReplayString (tc_begin_string config) (bytes "FIX.4.4") /\
  eo_sender_comp_id o = tc_sender_comp_id config /\ eo_target_comp_id o = tc_target_comp_id config /\ eo_default_appl_ver_id o = tc_default_appl_ver_id config.

Lemma opt_wrote p tag v w : p = FormatUint32 tag ++ [61] -> Forall is_byte (render (opt_field tag v) d) ->
  wrote w (render (opt_field tag v) d) (tracked_when (negb (text_empty v)) (TrackedStringField sse p v d) w).
Proof. intros Hp Hb. unfold opt_field, tracked_when in *. destruct (text_empty v); [apply wrote_nil|by apply string_field_wrote]. Qed.

Lemma flag_wrote p tag (b : bool) w : p = FormatUint32 tag ++ [61] -> Forall is_byte (render (flag_field tag b) d) ->
  wrote w (render (flag_field tag b) d) (tracked_when b (TrackedStringField sse p [89] d) w).
Proof. intros Hp Hb. unfold flag_field, tracked_when in *. destruct b; [by apply string_field_wrote|apply wrote_nil]. Qed.

Lemma fragment_bytes tag v : render [(tag, v)] d = MakeFixedFieldFragment tag v d.
Proof. unfold render, field_bytes, MakeFixedFieldFragment, MakeTagPrefix. cbn. by rewrite app_nil_r, <- !app_assoc. Qed.

Lemma fragment_wrote tag v w : Forall is_byte (render [(tag, v)] d) -> wrote w (render [(tag, v)] d) (AppendTracked sse (MakeFixedFieldFragment tag v d) w).
Proof. rewrite fragment_bytes. apply tracked_wrote. Qed.

Lemma flag_fragment_wrote tag (b : bool) w : Forall is_byte (render (flag_field tag b) d) ->
  wrote w (render (flag_field tag b) d) (tracked_when b (AppendTracked sse (MakeFixedFieldFragment tag [89] d)) w).
Proof. intros Hb. unfold flag_field, tracked_when in *. destruct b; [by apply fragment_wrote|apply wrote_nil]. Qed.

Lemma text_wrote text w : Forall is_byte text -> wrote w text (tracked_when (negb (text_empty text)) (AppendTracked sse text) w).
Proof. intros Hb. destruct text; [apply wrote_nil|by apply tracked_wrote]. Qed.

Lemma opt_fragment_wrote tag v w : Forall is_byte (render (opt_field tag v) d) ->
  let text := if text_empty v then [] else MakeFixedFieldFragment tag v d in
  wrote w (render (opt_field tag v) d) (tracked_when (negb (text_empty text)) (AppendTracked sse text) w).
Proof.
  cbn zeta. assert (He : render (opt_field tag v) d = if text_empty v then [] else MakeFixedFieldFragment tag v d).
  { unfold opt_field. destruct (text_empty v); [done|apply fragment_bytes]. }
  rewrite He. apply text_wrote.
Qed.

Lemma cond_fragment_wrote tag (b : bool) v w : Forall is_byte (render (if b then opt_field tag v else []) d) ->
  let text := if b && negb (text_empty v) then MakeFixedFieldFragment tag v d else [] in
  wrote w (render (if b then opt_field tag v else []) d) (tracked_when (negb (text_empty text)) (AppendTracked sse text) w).
Proof.
  cbn zeta. intros Hb. destruct b; cbn [andb]; [|apply wrote_nil]. pose proof (opt_fragment_wrote tag v w Hb) as Hw. cbn zeta in Hw. by destruct (text_empty v).
Qed.

Lemma template_header_wrote config mt tmpl o w : CompileFrameEncodeTemplate dict mt config = Value tmpl -> options_match config o -> d = NormalizeDelimiter (eo_delimiter o) ->
  Forall is_byte (render (header_fields now mt o) d) -> wrote w (render (header_fields now mt o) d) (template_header sse now tmpl o d w).
Proof.
  unfold CompileFrameEncodeTemplate. destruct (text_empty mt) eqn:Emt; [done|]. destruct (find_message dict mt) as [m|]; [|done].
  destruct (CompileScopeTemplate _ _ _ _) as [scope|]; [|done]. intros [= <-] (Hd & Hbs & Hsc & Htc & Hda) Hdd. rewrite <- Hd, <- Hdd. clear Hd Hbs Hdd.
  unfold template_header, header_fields, pre_encoded_fields. rewrite Emt. cbn [em_msg_type ft_msg_type_fragment ft_msg_seq_prefix ft_sender_fragment ft_target_fragment ft_sending_time_prefix
    ft_default_appl_ver_fragment ft_poss_dup_fragment ft_poss_resend_prefix ft_on_behalf_of_prefix ft_deliver_to_prefix ft_orig_sending_time_prefix].
  rewrite <- Hsc, <- Htc, <- Hda. clear Hsc Htc Hda. rewrite !render_app, !Forall_app. intros Hb. destruct_and? Hb. cbv zeta. rewrite !app_assoc.
  repeat match goal with
         | |- wrote _ (_ ++ _) (AppendTracked _ _ _) => eapply wrote_trans; [|by apply fragment_wrote]
         | |- wrote _ (_ ++ _) (TrackedStringField _ _ _ _ _) => eapply wrote_trans; [|by apply string_field_wrote]
         | |- wrote _ (_ ++ _) (TrackedCountField _ _ _ _ _) => eapply wrote_trans; [|by apply string_field_wrote]
         | |- wrote _ (_ ++ _) (tracked_when _ _ _) =>
             eapply wrote_trans; [|first [by apply opt_wrote|by apply flag_wrote|by apply flag_fragment_wrote|by apply opt_fragment_wrote|by apply cond_fragment_wrote]]
         end.
  by apply fragment_wrote.
Qed.

Lemma mismatch_same a b : (a <> [] -> a = b) -> mismatch a b = false.
Proof. intros Hab. unfold mismatch. destruct a as [|c a]; [done|]. rewrite <- Hab by done. unfold bytes_eqb. by rewrite bool_decide_eq_true_2. Qed.

(** Replacing the placeholder keeps the sum right. *)
Lemma placeholder_sum bs content w : t_out w = with_placeholder bs content d -> u32 (t_checksum w) = u32 (byte_sum (t_out w)) -> in_u32 (Z.of_nat (length content)) ->
  Forall is_byte (frame_prefix bs content d) ->
  let w' := ReplaceUnsignedPlaceholder sse (length (frame_start bs d)) kBodyLengthPlaceholderWidth (Z.of_nat (length content)) w in
  t_out w' = frame_prefix bs content d /\ u32 (t_checksum w') = u32 (byte_sum (frame_prefix bs content d)).
Proof.
  intros Ho Hs Hc Hb. unfold ReplaceUnsignedPlaceholder. cbn [t_out t_checksum]. cbv zeta. rewrite Ho, backfill_replace. split; [done|].
  assert (Hsl : slice (with_placeholder bs content d) (length (frame_start bs d)) kBodyLengthPlaceholderWidth = repeat 48 kBodyLengthPlaceholderWidth).
  { unfold slice, with_placeholder. by rewrite <- !app_assoc, drop_app_length. }
  rewrite Hsl. unfold AccumulateChecksum. assert (Hd : Forall is_byte (FormatUint32 (Z.of_nat (length content)))).
  { eapply Forall_impl; [by apply format_digits|]. unfold is_digit, is_byte. intros c Hx. lia. }
  rewrite ComputeChecksumSIMD_sum by done. rewrite u32_idem, u32_add_r, u32_add_l.
  replace (sum_scalar (repeat 48 kBodyLengthPlaceholderWidth) 0) with (byte_sum (repeat 48 kBodyLengthPlaceholderWidth)) by reflexivity.
  set (D := FormatUint32 (Z.of_nat (length content))) in *. fold (byte_sum D).
  replace (t_checksum w - byte_sum (repeat 48 kBodyLengthPlaceholderWidth) + byte_sum D) with (t_checksum w + (byte_sum D - byte_sum (repeat 48 kBodyLengthPlaceholderWidth))) by lia.
  rewrite <- u32_add_l, Hs, u32_add_l, Ho. f_equal. unfold with_placeholder, frame_start, frame_prefix, field_bytes, byte_sum. rewrite !foldr_add_app.
  fold D. cbn [foldr]. change (foldr Z.add 0 kBeginStringPrefix) with 117. change (foldr Z.add 0 (FormatUint32 tags.kBeginString)) with 56.
  change (foldr Z.add 0 kBodyLengthPrefix) with 118. change (foldr Z.add 0 (FormatUint32 tags.kBodyLength)) with 57. lia.
Qed.

Lemma template_frame config tmpl m message o x : let mt := bytes (msg_type message) in
  CompileFrameEncodeTemplate dict mt config = Value tmpl -> find_message dict mt = Some m -> options_match config o -> d = NormalizeDelimiter (eo_delimiter o) ->
  template_ready dict (message_field_rules dict m) message true = true ->
  in_u32 (Z.of_nat (length (encoded_content now dict message o x))) -> Forall is_byte (encoded_frame now dict message o x) ->
  TemplateEncodeToBuffer sse now tmpl message o x =
    if fits_placeholder (encoded_content now dict message o x) then Value (encoded_frame now dict message o x) else Error kLengthExceeds.
Proof.
  intros mt Hc Hm Hopt Hdd Hr Hlen Hbytes. pose proof Hopt as (Hd & Hbs & Hsc & Htc & Hda).
  assert (Hne : text_empty mt = false) by (unfold CompileFrameEncodeTemplate in Hc; by destruct (text_empty mt)).
  set (content := encoded_content now dict message o x) in *. set (bs := encoded_begin_string o) in *.
  unfold encoded_frame in Hbytes |- *. fold content bs in Hbytes |- *. rewrite <- Hdd in Hbytes |- *.
  assert (Hcontent : content = render (header_fields now mt o) d ++ header_fragment x ++ render (rule_fields dict (message_field_rules dict m) message true) d ++ body_fragment x).
  { unfold content, encoded_content, body_fields. fold mt. by rewrite Hne, Hm, <- Hdd. }
  assert (Hpre : Forall is_byte (frame_prefix bs content d)) by (unfold make_frame in Hbytes; by apply Forall_app in Hbytes as [? _]).
  assert (Hcb : Forall is_byte content) by (unfold frame_prefix in Hpre; rewrite !Forall_app in Hpre; tauto).
  rewrite Hcontent, !Forall_app in Hcb. destruct Hcb as (Hb1 & Hb2 & Hb3 & Hb4).
  assert (Hstart : Forall is_byte (frame_start bs d)).
  { unfold frame_prefix, field_bytes in Hpre. rewrite !Forall_app in Hpre. destruct Hpre as ((_ & _ & Hbs' & Hd') & _). unfold frame_start, kBeginStringPrefix, kBodyLengthPrefix.
    rewrite !Forall_app. split_and!; try done; repeat (apply Forall_cons; split; [unfold is_byte; lia|]); apply Forall_nil_2. }
  pose proof Hc as Hc'. unfold CompileFrameEncodeTemplate in Hc'. rewrite Hne, Hm in Hc'. destruct (CompileScopeTemplate _ _ _ _) as [scope|] eqn:Es; [|done].
  injection Hc' as Htmpl. unfold TemplateEncodeToBuffer. cbv zeta. fold mt. rewrite <- Hdd.
  assert (Hfields : ft_msg_type tmpl = mt /\ ft_delimiter tmpl = d /\ ft_begin_string tmpl = bs /\ ft_sender_comp_id tmpl = eo_sender_comp_id o /\ ft_target_comp_id tmpl = eo_target_comp_id o /\
    ft_default_appl_ver_id tmpl = eo_default_appl_ver_id o /\ ft_body_scope tmpl = scope /\ ft_begin_prefix tmpl = frame_start bs d).
  { rewrite <- Htmpl. cbn. rewrite <- Hd, <- Hdd, Hsc, Htc, Hda. split_and!; try done. rewrite Hbs. unfold frame_start, MakeFixedFieldFragment, MakeTagPrefix. by rewrite <- !app_assoc. }
  destruct Hfields as (-> & -> & -> & -> & -> & -> & -> & ->).
  rewrite (mismatch_same mt), Z.eqb_refl, (mismatch_same (eo_begin_string o)), (mismatch_same (eo_sender_comp_id o)), (mismatch_same (eo_target_comp_id o)), (mismatch_same (eo_default_appl_ver_id o)) by
    (try done; intros Hx; unfold bs, encoded_begin_string, ResolveReplayString; by destruct (eo_begin_string o)). cbn [negb].
  set (w0 := AppendTracked sse (frame_start bs d) (MkTracked [] 0)). set (w1 := AppendTrackedChar d (AppendTracked sse (repeat 48 kBodyLengthPlaceholderWidth) w0)).
  set (w2 := template_header sse now tmpl o d w1). set (w3 := tracked_when _ _ w2). set (w4 := EncodeScopeTemplate sse message scope d true w3). set (w5 := tracked_when _ _ w4).
  assert (Hw0 : wrote (MkTracked [] 0) (frame_start bs d) w0) by by apply tracked_wrote.
  assert (Hw1 : wrote w0 (repeat 48 kBodyLengthPlaceholderWidth ++ [d]) w1).
  { eapply wrote_trans; [apply tracked_wrote; repeat constructor; unfold is_byte; lia|apply tracked_char_wrote]. }
  assert (Hw : wrote w1 content w5).
  { rewrite Hcontent. eapply wrote_trans; [by eapply template_header_wrote|]. eapply wrote_trans; [by apply text_wrote|]. eapply wrote_trans; [by eapply scope_wrote|by apply text_wrote]. }
  destruct (wrote_trans _ _ _ _ _ (wrote_trans _ _ _ _ _ Hw0 Hw1) Hw) as [Hout Hsum]. cbn [t_out t_checksum app] in Hout, Hsum. rewrite Z.add_0_l in Hsum.
  fold (with_placeholder bs content d) in Hout, Hsum. rewrite <- Hout in Hsum.
  assert (Ho0 : t_out w0 = frame_start bs d) by done. assert (Ho1 : t_out w1 = frame_start bs d ++ repeat 48 kBodyLengthPlaceholderWidth ++ [d]) by (rewrite (proj1 Hw1), Ho0; done).
  rewrite Ho0, Ho1, Hout, placeholder_length, u32_small by done. rewrite fits_placeholder_false. destruct (fits_placeholder content); cbn [negb]; [|done].
  destruct (placeholder_sum bs content w5 Hout Hsum Hlen Hpre) as [Hp1 Hp2]. set (w6 := ReplaceUnsignedPlaceholder _ _ _ _ _) in *. unfold make_frame. rewrite Hp1. do 5 f_equal.
  assert (Hm256 : forall a b, u32 a = u32 b -> a mod 256 = b mod 256) by (intros a b Hab; unfold u32 in Hab; dlia).
  apply Hm256. rewrite Hp2, <- (Z.add_0_l (byte_sum _)). symmetry. apply sum_scalar_eq.
Qed.
End ScopeWrote.

(** ** Lemmas: compiling templates *)

(** The groups nest to a bounded depth: [rank] falls from a group to the groups of
    its rules. *)
Definition nests (dict : NormalizedDictionaryView) (rank : GroupDefRecord -> nat) : Prop :=
  forall g r g', r ∈ group_field_rules dict g -> find_group dict (fr_tag r) = Some g' -> (rank g' < rank g)%nat.

Lemma compile_steps_value dict compile skip rules : (forall r g, r ∈ rules -> find_group dict (fr_tag r) = Some g -> exists s, compile (group_field_rules dict g) = Value s) ->
  forall i scope, exists s, compile_steps dict compile skip rules i scope = Value s.
Proof.
  induction rules as [|r rules IH]; intros Hg i [st sc gr]; cbn; [by eexists|].
  assert (Hg' : forall r' g, r' ∈ rules -> find_group dict (fr_tag r') = Some g -> exists s, compile (group_field_rules dict g) = Value s) by (intros r' g Hr'; apply Hg; by right).
  destruct (skip && _); [by apply IH|]. destruct (find_group dict (fr_tag r)) as [g|] eqn:Eg; [|by apply IH].
  destruct (Hg r g) as [s ->]; [left|done|]. by apply IH.
Qed.

Lemma compile_scope_value dict rank fuel : nests dict rank -> forall skip rules, (forall r g, r ∈ rules -> find_group dict (fr_tag r) = Some g -> (rank g < fuel)%nat) ->
  exists s, CompileScopeTemplate (S fuel) dict skip rules = Value s.
Proof.
  intros Hn. induction fuel as [|fuel IH]; intros skip rules Hr; cbn [CompileScopeTemplate]; apply compile_steps_value; intros r g Hin Hg.
  - specialize (Hr r g Hin Hg). lia.
  - apply IH. intros r' g' Hin' Hg'. pose proof (Hn g r' g' Hin' Hg'). specialize (Hr r g Hin Hg). lia.
Qed.

Lemma compile_steps_diverges dict compile skip rules r g : r ∈ rules -> (skip && IsTemplateManagedHeaderField (fr_tag r)) = false -> find_group dict (fr_tag r) = Some g ->
  compile (group_field_rules dict g) = Error diverges -> (forall l e, compile l = Error e -> e = diverges) ->
  forall i scope, compile_steps dict compile skip rules i scope = Error diverges.
Proof.
  intros Hin Hm Hg Hd He. induction rules as [|r' rules IH]; [by apply not_elem_of_nil in Hin|]. intros i [st sc gr]. cbn.
  apply elem_of_cons in Hin as [<-|Hin]; [by rewrite Hm, Hg, Hd|].
  destruct (skip && IsTemplateManagedHeaderField (fr_tag r')); [by apply IH|]. destruct (find_group dict (fr_tag r')) as [g'|]; [|by apply IH].
  destruct (compile (group_field_rules dict g')) as [s|e] eqn:Ec; [by apply IH|]. by rewrite (He _ _ Ec).
Qed.

Lemma compile_steps_error dict compile skip rules : (forall l e, compile l = Error e -> e = diverges) -> forall i scope e, compile_steps dict compile skip rules i scope = Error e -> e = diverges.
Proof.
  intros He. induction rules as [|r rules IH]; intros i [st sc gr] e Hc; cbn in Hc; [done|]. destruct (skip && _); [by eapply IH|].
  destruct (find_group dict (fr_tag r)); [|by eapply IH]. destruct (compile _) eqn:Ec; [by eapply IH|]. injection Hc as <-. by eapply He.
Qed.

Lemma compile_scope_error dict fuel : forall skip rules e, CompileScopeTemplate fuel dict skip rules = Error e -> e = diverges.
Proof. induction fuel as [|fuel IH]; intros skip rules e Hc; cbn in Hc; [by injection Hc|]. eapply compile_steps_error; [|exact Hc]. intros l e'. apply IH. Qed.

Lemma compile_entries_built dict config ms : forall l e, compile_entries dict config ms = Value l -> e ∈ l ->
  CompileFrameEncodeTemplate dict (te_msg_type e) config = Value (te_template e).
Proof.
  induction ms as [|m ms IH]; intros l e Hl He; cbn in Hl; [injection Hl as <-; by apply not_elem_of_nil in He|].
  destruct (string_at _ _) as [t|]; [|by eapply IH]. destruct (text_empty t); [by eapply IH|].
  destruct (CompileFrameEncodeTemplate dict t config) as [tm|x] eqn:Ec; [|destruct (status.ok x); [done|by eapply IH]].
  destruct (compile_entries dict config ms) as [es|]; [|done]. injection Hl as <-.
  apply elem_of_cons in He as [->|He]; [done|by eapply IH].
Qed.

Lemma find_template_built {SA : SortAlgorithm te_msg_type} dict config table mt tmpl :
  PrecompiledTemplateTable_Build dict config = Value table -> find_template table mt = Some tmpl ->
  CompileFrameEncodeTemplate dict mt config = Value tmpl.
Proof.
  unfold find_template, PrecompiledTemplateTable_Build. destruct (compile_entries _ _ _) as [l|] eqn:El; [|done]. intros [= <-].
  pose proof (sort_find te_msg_type mt l) as Hs. destruct (binary_find _ _ _) as [e|]; [|done]. intros [= <-]. destruct Hs as [Hin <-].
  by eapply compile_entries_built.
Qed.

(** Where every template compiles, the table is built, with an entry for each message type. *)
Lemma compile_entries_total dict config ms :
  (forall mt, mt <> [] -> forall m, find_message dict mt = Some m -> exists tmpl, CompileFrameEncodeTemplate dict mt config = Value tmpl) ->
  exists l, compile_entries dict config ms = Value l.
Proof.
  intros Hc. induction ms as [|m ms [l IH]]; cbn; [by eexists|]. rewrite IH. destruct (string_at _ _) as [t|]; [|by eexists].
  destruct (text_empty t) eqn:Et; [by eexists|]. destruct (CompileFrameEncodeTemplate dict t config) as [tm|e] eqn:Ec; [by eexists|].
  assert (Hn : t <> []) by (by intros ->). destruct (find_message dict t) as [m'|] eqn:Em.
  - destruct (Hc t Hn m' Em) as [tmpl Ht]. congruence.
  - unfold CompileFrameEncodeTemplate in Ec. rewrite Et, Em in Ec. injection Ec as <-. cbn. by eexists.
Qed.

(** ** Properties *)

(** generic encoding writes exactly the frame of the message: BeginString,
    BodyLength, the header fields of the options in their fixed order, the header
    fragment, the fields of the message in the order of the dictionary rules with the
    repeating groups expanded, what no rule covers, the body fragment and the
    checksum, each length and sum being right; only a body too long for the seven
    digits of the placeholder is refused. *)
Theorem generic_encoding_exact `{FloatFormat} sse now dict message o x :
  in_u32 (Z.of_nat (length (encoded_content now dict message o x))) -> Forall is_byte (encoded_frame now dict message o x) ->
  EncodeFixMessageGenericWithFragmentsToBuffer sse now dict message o (Some x) =
    if fits_placeholder (encoded_content now dict message o x) then Value (encoded_frame now dict message o x) else Error kLengthExceeds.
Proof. apply generic_frame. Qed.


(** compiling the template of a message terminates when the groups of the
    dictionary nest: with a rank below the number of groups that falls from a group
    to the groups inside it, compilation returns a template for every message of the
    dictionary. *)
Theorem template_compilation_total dict rank mt m config :
  nests dict rank -> (forall tag g, find_group dict tag = Some g -> (rank g < length (group_defs_ dict))%nat) ->
  mt <> [] -> find_message dict mt = Some m -> exists tmpl, CompileFrameEncodeTemplate dict mt config = Value tmpl.
Proof.
  intros Hn Hr Hmt Hm. unfold CompileFrameEncodeTemplate. destruct mt as [|c mt]; [done|]. cbn [text_empty]. rewrite Hm. unfold template_fuel.
  destruct (compile_scope_value dict rank (length (group_defs_ dict)) Hn true (message_field_rules dict m)) as [s Hs]; [intros r g _; apply Hr|]. rewrite Hs. by eexists.
Qed.

(** so the table is built. *)
Theorem template_table_built {SA : SortAlgorithm te_msg_type} dict rank config :
  nests dict rank -> (forall tag g, find_group dict tag = Some g -> (rank g < length (group_defs_ dict))%nat) ->
  exists table, PrecompiledTemplateTable_Build dict config = Value table.
Proof.
  intros Hn Hr. unfold PrecompiledTemplateTable_Build.
  destruct (compile_entries_total dict config (message_defs_ dict)) as [l ->]; [|by eexists].
  intros mt Hmt m Hm. by apply (template_compilation_total dict rank mt m).
Qed.

(** a group whose rules list its own count tag makes the compilation of a
    template recurse without end: no amount of fuel is enough. *)
Theorem cyclic_group_diverges dict g r fuel skip rules :
  r ∈ group_field_rules dict g -> find_group dict (fr_tag r) = Some g -> r ∈ rules -> (skip && IsTemplateManagedHeaderField (fr_tag r)) = false ->
  CompileScopeTemplate fuel dict skip rules = Error diverges.
Proof.
  intros Hself Hg. revert skip rules. induction fuel as [|fuel IH]; intros skip rules Hin Hm; [done|]. cbn [CompileScopeTemplate].
  eapply compile_steps_diverges; [done|done|done|by apply IH|]. intros l e. apply compile_scope_error.
Qed.

(** ** Witnesses *)

(** A stand-in for the conversion of floating point numbers: decimal integers. *)
#[local] Instance demo_float_format : FloatFormat := {| to_chars_double v := Some (FormatInt64 v) |}.

Definition string_view (tag : Z) (s : string) : FieldView := MkFieldView tag kFieldString s 0 0 0 false.
Definition int_view (tag v : Z) : FieldView := MkFieldView tag kFieldInt "" v 0 0 false.

Definition demo_party (id : string) : MessageView := MkMessageView "" [string_view 448 id; int_view 452 3] [].

(** An order with two parties, its fields not in the order of the rules. *)
Definition demo_order_view : MessageView :=
  MkMessageView "D" [int_view 38 100; string_view 58 "t"; string_view 11 "id"; int_view 453 2; string_view 9999 "x"] [(453, [demo_party "a"; demo_party "b"])].

Definition demo_template_config : EncodeTemplateConfig := MkTemplateConfig (bytes "FIX.4.4") (bytes "S") (bytes "T") [] 0.
Definition demo_encode_options : EncodeOptions :=
  MkEncodeOptions [] (bytes "S") [] (bytes "T") [] [] [] [] [] (bytes "20240102-03:04:05") [] (eo_timestamp_resolution demo_options) 7 false false 0.

Definition bytesb (l : list Z) : bool := forallb (fun b => (0 <=? b) && (b <=? 255)) l.
Lemma bytesb_ok l : bytesb l = true -> Forall is_byte l.
Proof. unfold bytesb. rewrite forallb_forall, Forall_forall. intros Hl b Hb. apply list_elem_of_In, Hl in Hb. unfold is_byte. lia. Qed.

Definition demo_encoded : list Z := Eval vm_compute in encoded_frame demo_now demo_dictionary demo_order_view demo_encode_options (MkExtras [] []).

Lemma demo_content_small : in_u32 (Z.of_nat (length (encoded_content demo_now demo_dictionary demo_order_view demo_encode_options (MkExtras [] [])))).
Proof. vm_compute. done. Qed.

Lemma demo_frame_bytes : Forall is_byte (encoded_frame demo_now demo_dictionary demo_order_view demo_encode_options (MkExtras [] [])).
Proof. apply bytesb_ok. vm_compute. reflexivity. Qed.

Lemma generic_encoding_exact_witness :
  EncodeFixMessageGenericWithFragmentsToBuffer true demo_now demo_dictionary demo_order_view demo_encode_options (Some (MkExtras [] [])) = Value demo_encoded.
Proof.
  assert (Hf : (if fits_placeholder (encoded_content demo_now demo_dictionary demo_order_view demo_encode_options (MkExtras [] []))
    then Value (encoded_frame demo_now demo_dictionary demo_order_view demo_encode_options (MkExtras [] [])) else Error kLengthExceeds) = Value demo_encoded) by (vm_compute; reflexivity).
  exact (eq_trans (generic_encoding_exact true demo_now demo_dictionary demo_order_view demo_encode_options (MkExtras [] []) demo_content_small demo_frame_bytes) Hf).
Defined.

Lemma demo_order_ready m : find_message demo_dictionary (bytes (msg_type demo_order_view)) = Some m ->
  template_ready demo_dictionary (message_field_rules demo_dictionary m) demo_order_view true = true.
Proof. vm_compute. by intros [= <-]. Qed.

Definition demo_table : PrecompiledTemplateTable :=
  Eval vm_compute in match PrecompiledTemplateTable_Build demo_dictionary demo_template_config with Value t => t | Error _ => [] end.

Lemma demo_table_built : PrecompiledTemplateTable_Build demo_dictionary demo_template_config = Value demo_table.
Proof. vm_compute. reflexivity. Qed.


Lemma demo_nests : nests demo_dictionary (fun _ => O).
Proof.
  intros g r g' Hr Hg. exfalso. assert (Hx : fr_tag r ∈ [448; 447; 452]).
  { assert (Hs : fr_tag <$> group_field_rules_ demo_dictionary = [448; 447; 452]) by reflexivity. rewrite <- Hs. apply list_elem_of_fmap. exists r. split; [done|].
    unfold group_field_rules, slice in Hr. apply subseteq_take in Hr. by apply subseteq_drop in Hr. }
  repeat (apply elem_of_cons in Hx as [Hx|Hx]; [rewrite Hx in Hg; vm_compute in Hg; discriminate|]). by apply not_elem_of_nil in Hx.
Qed.

Lemma demo_rank tag g : find_group demo_dictionary tag = Some g -> (0 < length (group_defs_ demo_dictionary))%nat.
Proof. intros _. cbn. lia. Qed.

Lemma template_compilation_total_witness :
  exists tmpl, CompileFrameEncodeTemplate demo_dictionary (bytes "D") demo_template_config = Value tmpl.
Proof.
  exact (template_compilation_total demo_dictionary (fun _ => O) (bytes "D") (MkMessageDef 1 0 0 5 0) demo_template_config demo_nests demo_rank ltac:(done) eq_refl).
Defined.

(** A group of parties whose rules list its own count. *)
Definition demo_cyclic_dictionary : NormalizedDictionaryView :=
  Eval vm_compute in match FromProfile (MkProfile (p_string_table demo_profile) (p_field_defs demo_profile) (p_message_defs demo_profile)
    (Some [MkGroupDef 453 448 0 0 2 0 0]) (p_message_field_rules demo_profile) (Some (map demo_rule [448; 453])) None None None) with
  | Value d => d | Error _ => demo_dictionary end.

Lemma cyclic_group_diverges_witness :
  find_group demo_cyclic_dictionary 453 = Some (MkGroupDef 453 448 0 0 2 0 0) /\
  CompileScopeTemplate 1000 demo_cyclic_dictionary true (message_field_rules demo_cyclic_dictionary (MkMessageDef 1 0 0 5 0)) = Error diverges.
Proof.
  assert (H1 : demo_rule 453 ∈ group_field_rules demo_cyclic_dictionary (MkGroupDef 453 448 0 0 2 0 0)) by (right; left).
  assert (H2 : demo_rule 453 ∈ message_field_rules demo_cyclic_dictionary (MkMessageDef 1 0 0 5 0)) by (right; right; left).
  split; [reflexivity|].
  exact (cyclic_group_diverges demo_cyclic_dictionary (MkGroupDef 453 448 0 0 2 0 0) (demo_rule 453) 1000 true _ H1 eq_refl H2 eq_refl).
Defined.

(** The table of that dictionary is not built. *)
Example cyclic_table_diverges :
  PrecompiledTemplateTable_Build demo_cyclic_dictionary demo_template_config = Error diverges.
Proof. vm_compute. reflexivity. Qed.

Definition demo_count_view : MessageView := MkMessageView "D" [string_view 11 "id"; int_view 453 0] [].

(** a count field without entries, set as a plain field, is written by generic
    encoding and silently dropped by the template of the message: a template looks
    at a group tag only for a group. *)
Theorem template_drops_count_field :
  let table := demo_table in
  let frame fields := make_frame (bytes "FIX.4.4") (render (header_fields demo_now (bytes "D") demo_encode_options ++ fields) 1) 1 in
  EncodeFixMessageToBuffer true demo_now demo_dictionary None demo_count_view demo_encode_options (MkExtras [] []) = Value (frame [(11, bytes "id"); (453, bytes "0")]) /\
  EncodeFixMessageToBuffer true demo_now demo_dictionary (Some table) demo_count_view demo_encode_options (MkExtras [] []) = Value (frame [(11, bytes "id")]).
Proof. split; vm_compute; reflexivity. Qed.
