(* ===== verification/CodecRoundTrip.v ===== *)
(** * The round trip of a message through the codec

    A message view as a tree of fields and groups in the order in which the encoder
    writes them, the header the options describe, and the composition of the exact
    encoding with the decoding of trees. *)
From S2P Require Import Prelude Base StdAlgo BitTable SortSearch IntFormat Scan FixTags Wire RawPassThrough Message Frame NormalizedDictionary ParsedMessage Decoder DecoderProofs DecodeTree DecodeFrame Encoder EncoderProofs.
Open Scope Z_scope.

(** ** Views as trees *)

Section Trees.
Context `{FloatFormat}.

Definition emit_nodes (f : FieldView) : list Node := match view_text f with Some v => [NField (f_tag f) v] | None => [] end.

(** Without rules: the fields, then the groups. *)
Fixpoint plain_nodes (view : MessageView) (skip : bool) : list Node :=
  let 'MkMessageView _ fields groups := view in
  concat (map (fun f => if sweep_skips groups skip (f_tag f) then [] else emit_nodes f) fields) ++
  map (fun '(tag, entries) => NGroup tag (map (fun e => plain_nodes e false) entries)) groups.

(** With rules: in their order, then the fields and the groups that no rule covers. *)
Fixpoint rule_nodes (dict : NormalizedDictionaryView) (rules : list FieldRuleRecord) (view : MessageView) (skip : bool) : list Node :=
  let 'MkMessageView _ fields groups := view in
  let parts :=
    map (fun '(tag, entries) =>
      (tag, NGroup tag (match find_group dict tag with
                        | Some g => map (fun e => rule_nodes dict (group_field_rules dict g) e false) entries
                        | None => map (fun e => plain_nodes e false) entries
                        end))) groups in
  concat (map (fun r =>
    let tag := fr_tag r in
    if ShouldSkipField tag || (skip && IsTemplateManagedHeaderField tag) then []
    else match find_by_tag tag parts with
         | Some part => [part]
         | None => match List.find (fun f => f_tag f =? tag) fields with Some f => emit_nodes f | None => [] end
         end) rules) ++
  concat (map (fun f => if sweep_skips groups skip (f_tag f) || in_rules rules (f_tag f) then [] else emit_nodes f) fields) ++
  concat (map (fun '(tag, part) => if in_rules rules tag then [] else [part]) parts).

Lemma tree_fields_app a b : tree_fields (a ++ b) = tree_fields a ++ tree_fields b.
Proof. unfold tree_fields. by rewrite map_app, concat_app. Qed.

Lemma tree_fields_concat {A} (f : A -> list Node) (g : A -> list (Z * list Z)) l : (forall x, x ∈ l -> tree_fields (f x) = g x) -> tree_fields (concat (map f l)) = concat (map g l).
Proof.
  intros Hfg. induction l as [|x l IH]; [done|]. cbn [map concat]. rewrite tree_fields_app, Hfg, IH by (try left; intros; apply Hfg; by right). done.
Qed.

Lemma emit_tree f : tree_fields (emit_nodes f) = emit f.
Proof. unfold emit_nodes, emit. by destruct (view_text f). Qed.

Lemma group_tree (nodes : MessageView -> list Node) (fields : MessageView -> list (Z * list Z)) tag entries : (forall e, e ∈ entries -> tree_fields (nodes e) = fields e) ->
  node_fields (NGroup tag (map nodes entries)) = count_field tag entries :: concat (map fields entries).
Proof.
  intros He. cbn [node_fields]. unfold count_field, count_text. rewrite length_map, map_map. f_equal. f_equal. apply map_ext_in. intros e Hin. by apply He, list_elem_of_In.
Qed.

Lemma plain_tree view : forall skip, tree_fields (plain_nodes view skip) = plain_fields view skip.
Proof.
  induction view as [t fields groups IH] using view_ind. intros skip. cbn [plain_nodes plain_fields]. rewrite tree_fields_app. f_equal.
  - apply tree_fields_concat. intros f _. destruct (sweep_skips _ _ _); [done|apply emit_tree].
  - unfold tree_fields. rewrite map_map. f_equal. apply map_ext_in. intros [tag entries] Hin. apply group_tree. intros e He. rewrite Forall_forall in IH.
    specialize (IH _ (proj2 (list_elem_of_In _ _) Hin)). cbn in IH. rewrite Forall_forall in IH. by apply IH.
Qed.

Lemma rule_tree dict view : forall rules skip, tree_fields (rule_nodes dict rules view skip) = rule_fields dict rules view skip.
Proof.
  induction view as [t fields groups IH] using view_ind. intros rules skip. cbn [rule_nodes rule_fields].
  set (npart := fun (tag : Z) (entries : list MessageView) => NGroup tag (match find_group dict tag with
    | Some g => map (fun e => rule_nodes dict (group_field_rules dict g) e false) entries
    | None => map (fun e => plain_nodes e false) entries end)).
  set (part := fun (tag : Z) (entries : list MessageView) => count_field tag entries :: match find_group dict tag with
    | Some g => concat (map (fun e => rule_fields dict (group_field_rules dict g) e false) entries)
    | None => concat (map (fun e => plain_fields e false) entries) end).
  assert (Hpart : forall g, g ∈ groups -> tree_fields [npart g.1 g.2] = part g.1 g.2).
  { intros [tag entries] Hin. rewrite Forall_forall in IH. specialize (IH _ Hin). cbn in IH. rewrite Forall_forall in IH. unfold tree_fields. cbn [map concat]. rewrite app_nil_r. unfold npart, part. cbn [fst snd].
    destruct (find_group dict tag) as [g|]; apply group_tree; intros e He; [by apply IH|apply plain_tree]. }
  rewrite !tree_fields_app. f_equal; [|f_equal].
  - apply tree_fields_concat. intros r _. cbn zeta. destruct (_ || _); [done|]. rewrite (find_by_tag_pairs npart), (find_by_tag_pairs part).
    destruct (List.find _ groups) as [g|] eqn:Eg; cbn [fmap option_fmap option_map]; [by apply Hpart, (find_elem _ _ _ Eg)|]. destruct (List.find _ fields); [apply emit_tree|done].
  - apply tree_fields_concat. intros f _. destruct (_ || _); [done|apply emit_tree].
  - rewrite !map_map. apply tree_fields_concat. intros [tag entries] Hin. destruct (in_rules rules tag); [done|by apply (Hpart (tag, entries))].
Qed.
End Trees.

(** ** The header *)

(** The header view that the options describe. *)
Definition options_header (now : TimestampResolution -> list Z) (bs mt : list Z) (o : EncodeOptions) (body_length checksum : Z) : SessionHeaderView :=
  MkHeader (text_of bs) (text_of mt) (text_of (eo_sender_comp_id o)) (text_of (eo_sender_sub_id o)) (text_of (eo_target_comp_id o)) (text_of (eo_target_sub_id o))
    (text_of (eo_on_behalf_of_comp_id o)) (text_of (eo_deliver_to_comp_id o)) (text_of (if bytes_eqb mt (bytes "A") then eo_default_appl_ver_id o else [])) (text_of (eo_appl_ver_id o))
    (text_of (if text_empty (eo_sending_time o) then now (eo_timestamp_resolution o) else eo_sending_time o)) (text_of (eo_orig_sending_time o))
    body_length (if eo_msg_seq_num o =? 0 then 1 else eo_msg_seq_num o) checksum (eo_poss_dup o) (eo_poss_resend o).

Lemma header_opt tag v h setter : header_step h (tag, v) = setter (text_of v) h -> setter ""%string h = h -> fold_left header_step (opt_field tag v) h = setter (text_of v) h.
Proof. unfold opt_field. destruct v as [|x v]; cbn; [done|]. intros <- _. done. Qed.

Lemma header_flag tag (b : bool) h setter : header_step h (tag, [89]) = setter true h -> setter false h = h -> fold_left header_step (flag_field tag b) h = setter b h.
Proof. by destruct b; cbn. Qed.

Lemma header_seq seq h : in_u32 seq -> header_step h (tags.kMsgSeqNum, FormatUint32 seq) = with_msg_seq_num seq h.
Proof. intros Hs. unfold header_step, extract_header. cbn [fst snd]. change (tags.kMsgSeqNum =? tags.kMsgType) with false. change (tags.kMsgSeqNum =? tags.kMsgSeqNum) with true. cbn iota. by rewrite parse_count. Qed.

(** One field of the header; the record is kept in normal form. *)
Ltac header_norm := cbv beta iota delta [with_begin_string with_msg_type with_sender_comp_id with_sender_sub_id with_target_comp_id with_target_sub_id with_on_behalf_of_comp_id with_deliver_to_comp_id with_default_appl_ver_id with_appl_ver_id with_sending_time with_orig_sending_time with_body_length with_msg_seq_num with_checksum with_poss_dup with_poss_resend h_begin_string h_msg_type h_sender_comp_id h_sender_sub_id h_target_comp_id h_target_sub_id h_on_behalf_of_comp_id h_deliver_to_comp_id h_default_appl_ver_id h_appl_ver_id h_sending_time h_orig_sending_time h_body_length h_msg_seq_num h_checksum h_poss_dup h_poss_resend].
Ltac header_read lemma tag setter := rewrite (lemma tag _ _ setter) by reflexivity; header_norm.

Lemma options_header_read now mt o bs n : text_empty mt = false -> in_u32 (eo_msg_seq_num o) ->
  fold_left header_step (header_fields now mt o) (with_body_length n (with_begin_string (text_of bs) empty_header)) = options_header now bs mt o n 0.
Proof.
  intros Hmt Hseq. unfold header_fields, pre_encoded_fields. rewrite Hmt. cbn [em_msg_type]. rewrite !fold_left_app. cbn [fold_left]. unfold empty_header, options_header. header_norm.
  assert (Hs : in_u32 (if eo_msg_seq_num o =? 0 then 1 else eo_msg_seq_num o)) by (destruct (eo_msg_seq_num o =? 0); [ulia|done]).
  change (header_step ?h (tags.kMsgType, mt)) with (with_msg_type (text_of mt) h). rewrite (header_seq _ _ Hs). header_norm.
  header_read header_opt tags.kSenderCompID with_sender_comp_id. header_read header_opt tags.kSenderSubID with_sender_sub_id. header_read header_opt tags.kTargetCompID with_target_comp_id.
  header_read header_opt tags.kTargetSubID with_target_sub_id. change (header_step ?h (tags.kSendingTime, ?v)) with (with_sending_time (text_of v) h). header_norm.
  replace (if bytes_eqb mt (bytes "A") then opt_field tags.kDefaultApplVerID (eo_default_appl_ver_id o) else []) with
    (opt_field tags.kDefaultApplVerID (if bytes_eqb mt (bytes "A") then eo_default_appl_ver_id o else [])) by (by destruct (bytes_eqb mt (bytes "A"))).
  header_read header_opt tags.kDefaultApplVerID with_default_appl_ver_id. header_read header_opt tags.kApplVerID with_appl_ver_id. header_read header_flag tags.kPossDupFlag with_poss_dup.
  header_read header_flag tags.kPossResend with_poss_resend. header_read header_opt tags.kOrigSendingTime with_orig_sending_time.
  header_read header_opt tags.kOnBehalfOfCompID with_on_behalf_of_comp_id. header_read header_opt tags.kDeliverToCompID with_deliver_to_comp_id. reflexivity.
Qed.

(** Other fields leave the header alone. *)
Lemma header_quiet h f : tags.IsAggregateSessionHeaderTag f.1 = false -> header_step h f = h.
Proof.
  unfold tags.IsAggregateSessionHeaderTag, tags.ClassifySessionHeaderTag. destruct (tags.IsStandardSessionHeaderTag f.1) eqn:E1; [done|]. destruct (tags.IsRoutingSessionHeaderTag f.1) eqn:E2; [done|]. intros _.
  unfold tags.IsStandardSessionHeaderTag, tags.IsRoutingSessionHeaderTag, tags.one_of in *. cbn [existsb] in *. rewrite !orb_false_iff in *. decompose [and] E1. decompose [and] E2. unfold header_step, extract_header.
  repeat match goal with H : (f.1 =? ?t) = false |- _ => rewrite H; clear H end. done.
Qed.

Section Body.
Context `{FloatFormat}.

(** No group of the message is announced by a header tag. *)
Definition groups_plain (message : MessageView) : bool := forallb (fun g => negb (IsTemplateManagedHeaderField (fst g))) (view_groups message).

Definition plain_tag (x : Node) : Prop := tags.IsAggregateSessionHeaderTag (node_tag x) = false.

Lemma emit_plain f : IsTemplateManagedHeaderField (f_tag f) = false -> Forall plain_tag (emit_nodes f).
Proof. intros Hf. unfold emit_nodes. destruct (view_text f); [|constructor]. by repeat constructor. Qed.

Lemma Forall_concat_map {A B} (P : B -> Prop) (f : A -> list B) l : (forall x, x ∈ l -> Forall P (f x)) -> Forall P (concat (map f l)).
Proof. intros Hf. induction l as [|x l IH]; [constructor|]. cbn. apply Forall_app. split; [apply Hf; left|apply IH; intros y Hy; apply Hf; by right]. Qed.

(** Behind the header no header field is written. *)
Lemma rule_nodes_plain dict rules message : groups_plain message = true -> Forall plain_tag (rule_nodes dict rules message true).
Proof.
  destruct message as [t fields groups]. unfold groups_plain. cbn [view_groups]. rewrite forallb_forall. intros Hg. cbn [rule_nodes].
  set (npart := fun (tag : Z) (entries : list MessageView) => NGroup tag (match find_group dict tag with
    | Some g => map (fun e => rule_nodes dict (group_field_rules dict g) e false) entries
    | None => map (fun e => plain_nodes e false) entries end)).
  assert (Hpart : forall g, g ∈ groups -> Forall plain_tag [npart g.1 g.2]).
  { intros g Hin. constructor; [|constructor]. apply list_elem_of_In, Hg in Hin. by apply negb_true_iff in Hin. }
  repeat apply Forall_app_2; apply Forall_concat_map.
  - intros r _. cbn zeta. destruct (ShouldSkipField (fr_tag r) || _) eqn:E; [constructor|]. apply orb_false_iff in E as [_ E]. cbn [andb] in E. rewrite (find_by_tag_pairs npart).
    destruct (List.find _ groups) as [g|] eqn:Eg; cbn [fmap option_fmap option_map]; [by apply Hpart, (find_elem _ _ _ Eg)|]. destruct (List.find _ fields) as [f|] eqn:Ef; [|constructor].
    apply emit_plain. apply List.find_some in Ef as [_ Ef]. apply Z.eqb_eq in Ef. by rewrite Ef.
  - intros f _. destruct (_ || _) eqn:E; [constructor|]. apply orb_false_iff in E as [E _]. unfold sweep_skips in E. apply orb_false_iff in E as [_ E]. by apply emit_plain.
  - intros x Hin. apply list_elem_of_In, in_map_iff in Hin as ([tag entries] & <- & Hin). destruct (in_rules rules tag); [constructor|]. apply (Hpart (tag, entries)). by apply list_elem_of_In.
Qed.

Lemma header_quiet_nodes nodes h : Forall plain_tag nodes -> fold_left header_step (map own_field nodes) h = h.
Proof. induction 1 as [|x nodes Hx _ IH]; cbn; [done|]. rewrite header_quiet; [exact IH|]. by destruct x. Qed.
End Body.

(** ** Properties *)

Definition no_extras : EncodedOutboundExtrasView := MkExtras [] [].

(** The tree a message is sent as: its header fields and its body. *)
Definition message_nodes `{FloatFormat} (now : TimestampResolution -> list Z) (dict : NormalizedDictionaryView) (m : MessageDefRecord) (message : MessageView) (o : EncodeOptions) : list Node :=
  field_nodes (tail (header_fields now (bytes (msg_type message)) o)) ++ rule_nodes dict (message_field_rules dict m) message true.

Lemma encoded_tree `{FloatFormat} now dict m message o : let mt := bytes (msg_type message) in text_empty mt = false -> find_message dict mt = Some m ->
  encoded_content now dict message o no_extras = render (tree_fields (NField tags.kMsgType mt :: message_nodes now dict m message o)) (NormalizeDelimiter (eo_delimiter o)).
Proof.
  intros mt Hmt Hm. unfold encoded_content, body_fields. cbn [no_extras header_fragment body_fragment app]. fold mt. rewrite Hmt, Hm, app_nil_r, <- render_app. f_equal.
  rewrite tree_fields_cons. unfold message_nodes. rewrite tree_fields_app, (proj1 (field_nodes_fields _)), rule_tree, app_assoc. f_equal. fold mt. unfold header_fields. rewrite Hmt. done.
Qed.

(** C4: a message survives the codec.  The generic encoder writes a frame that the
    generic decoder accepts, with and without checksum verification and into a
    reused message object, and the message object then answers lookups with the
    message: under a tag below 65536 the root gives the value sent with it and
    nothing where none was sent, under a count tag the group with its entries in
    order, and each entry its fields in order and by tag, nested to any depth the
    decoder takes.  The header view holds the values of the encoding options, the
    sequence number, the flags, the length and the checksum.  Enumerating the root
    by position is not covered: it is wrong where a field follows a group.
    Conditions: the MsgType is not empty and the dictionary knows it; the delimiter
    is neither an equals sign nor a digit; the length fits its seven digits and the
    frame 32 bits; no group of the message has a header tag as its count tag; and
    what is sent conforms to the dictionary within the limits of the decoder: tags
    between 1 and 65535, distinct within the root and within an entry, values
    without the delimiter and shorter than 65536 bytes, header values that the
    header accepts, at most 65535 fields, entries of at most 128 fields that start
    with the delimiter tag of the group and hold tags of its rules, at most 10000
    entries in a group, fifteen levels of groups, and a group is followed by a tag
    that ends it. *)
Theorem codec_roundtrip `{FloatFormat} `{FloatText} sse now dict m message o verify output :
  let mt := bytes (msg_type message) in
  let d := NormalizeDelimiter (eo_delimiter o) in
  let content := encoded_content now dict message o no_extras in
  let frame := encoded_frame now dict message o no_extras in
  let all := NField tags.kMsgType mt :: message_nodes now dict m message o in
  d <> kEquals -> ~ is_digit d -> text_empty mt = false -> find_message dict mt = Some m -> groups_plain message = true -> in_u32 (eo_msg_seq_num o) ->
  fits_placeholder content = true -> Forall is_byte frame -> Z.of_nat (length frame) <= UINT32_MAX -> value_ok d (encoded_begin_string o) = true -> value_ok d mt = true ->
  body_conforms dict d (generic_group_at dict m) (message_nodes now dict m message o) = true -> Z.of_nat (length (tree_fields all)) <= kInvalidHashSlot -> reusable output ->
  exists r, EncodeFixMessageToBuffer sse now dict None message o no_extras = Value frame /\
    DecodeFixMessageView sse dict frame d verify output = Value r /\ shows 16 (df_parsed r) RootContainer all /\
    df_header r = options_header now (encoded_begin_string o) mt o (Z.of_nat (length content)) (frame_checksum d (encoded_begin_string o) content).
Proof.
  intros mt d content frame all Hd1 Hd2 Hmt Hm Hgp Hseq Hfit Hb Hl Hbs Hmtv Hok Hs Hout.
  pose proof (encoded_tree now dict m message o Hmt Hm) as Htree. fold mt d content all in Htree.
  assert (Hin : in_u32 (Z.of_nat (length content))).
  { assert ((length content <= length frame)%nat) by (unfold frame, encoded_frame, make_frame, frame_prefix; fold content; rewrite !length_app; lia). ulia. }
  assert (Hfr : frame = make_frame (encoded_begin_string o) (render (tree_fields all) d) d) by (unfold frame, encoded_frame; fold content d; by rewrite Htree).
  destruct (frame_reads sse dict frame d Hd1 Hd2 Hl (generic_msg_type dict frame) (generic_field sse dict frame d) (generic_group_at dict m) (fun st => ds_message_def st = Some m)
    (encoded_begin_string o) mt (message_nodes now dict m message o) verify output) as (r & ow & Hr & Hreads & Hh); try done; [by apply value_fits|by apply value_fits|by apply generic_msg_type_reads|by apply generic_field_reads|].
  exists r. split; [|split; [exact Hr|split; [by eapply root_shows|]]].
  - unfold EncodeFixMessageToBuffer. cbv zeta. rewrite generic_frame by done. fold content. by rewrite Hfit.
  - rewrite Hh. fold all. unfold frame_header. rewrite <- Htree. fold content. unfold all, message_nodes. cbn [map fold_left own_field]. rewrite map_app, fold_left_app, (proj2 (field_nodes_fields _)).
    pose proof (options_header_read now mt o (encoded_begin_string o) (Z.of_nat (length content)) Hmt Hseq) as Ho.
    assert (Hhd : header_fields now mt o = (tags.kMsgType, mt) :: tail (header_fields now mt o)) by (unfold header_fields; by rewrite Hmt). rewrite Hhd in Ho. cbn [fold_left] in Ho. fold mt. rewrite Ho.
    rewrite header_quiet_nodes by (by apply rule_nodes_plain). reflexivity.
Qed.

#[local] Instance roundtrip_float_text : FloatText := {| from_chars_double l := from_chars_i64 l |}.
#[local] Instance roundtrip_float_format : FloatFormat := {| to_chars_double v := Some (FormatInt64 v) |}.

Definition demo_trade_view : MessageView :=
  MkMessageView "D" [int_view 38 100; string_view 58 "t"; string_view 11 "id"; string_view 9999 "x"]
    [(453, [MkMessageView "" [string_view 447 "D"; string_view 448 "a"] []; MkMessageView "" [string_view 448 "b"] []])].

Lemma codec_roundtrip_witness :
  exists frame r, EncodeFixMessageToBuffer true demo_now demo_dictionary None demo_trade_view demo_encode_options no_extras = Value frame /\
    DecodeFixMessageView true demo_dictionary frame 1 true NewParsedMessageData = Value r /\
    shows 16 (df_parsed r) RootContainer
      (NField 35 (bytes "D") :: field_nodes [(34, bytes "7"); (49, bytes "S"); (56, bytes "T"); (52, bytes "20240102-03:04:05")] ++
       [NField 11 (bytes "id"); NGroup 453 [[NField 448 (bytes "a"); NField 447 (bytes "D")]; [NField 448 (bytes "b")]]; NField 38 (bytes "100"); NField 58 (bytes "t"); NField 9999 (bytes "x")]) /\
    h_msg_seq_num (df_header r) = 7 /\ h_sender_comp_id (df_header r) = "S"%string.
Proof.
  assert (Hb : Forall is_byte (encoded_frame demo_now demo_dictionary demo_trade_view demo_encode_options no_extras)) by (apply bytesb_ok; vm_compute; reflexivity).
  destruct (codec_roundtrip true demo_now demo_dictionary demo_order demo_trade_view demo_encode_options true NewParsedMessageData) as (r & H1 & H2 & H3 & H4);
    [done|unfold is_digit; vm_compute; intros [H1 H2]; by apply H1|reflexivity|vm_compute; reflexivity|reflexivity|vm_compute; done|vm_compute; reflexivity|exact Hb|vm_compute; done|reflexivity|reflexivity|vm_compute; reflexivity|vm_compute; done|
     apply (represents_reusable _ nobody), represents_new|].
  exists (encoded_frame demo_now demo_dictionary demo_trade_view demo_encode_options no_extras), r. split; [exact H1|]. split; [exact H2|]. split; [exact H3|].
  rewrite H4. split; vm_compute; reflexivity.
Defined.
