(* ===== verification/Router.v ===== *)
(** * Message routing

    [runtime/router.cpp] and [runtime/router.h]: routing expressions and their parser,
    field transformations on a raw body, the routing table with its load balancer, and
    the forwarding of one message.  Texts are byte lists; the regular expressions and
    the floating point numbers of the standard library are classes. *)
From S2P Require Import Prelude Base StdAlgo IntFormat Scan FixTags Wire RawPassThrough.
From stdpp Require Import gmap.
Open Scope Z_scope.

(** [std::regex] and [double] as the router uses them. *)
Class RegexLib := { regex : Type; regex_compile : list Z -> option regex; regex_match : list Z -> regex -> bool }.
Class DoubleLib := { double : Type; double_from_chars : list Z -> option (double * nat); double_lt : double -> double -> bool }.

(** ** Expressions *)

Module ExprOp.
Inductive t := kEqual | kNotEqual | kLessThan | kGreaterThan | kContains | kRegex | kHasTag.
End ExprOp.

Module ExprLogic.
Inductive t := kAnd | kOr.
End ExprLogic.

#[export] Instance ExprOp_eq_dec : EqDecision ExprOp.t.
Proof. solve_decision. Defined.
#[export] Instance ExprLogic_eq_dec : EqDecision ExprLogic.t.
Proof. solve_decision. Defined.

Record ExprNode := MkExprNode { en_tag : Z; en_op : ExprOp.t; en_value : list Z; en_negated : bool }.

(** [connector] links a clause to the next one. *)
Record Clause := MkClause { cl_node : ExprNode; cl_connector : ExprLogic.t }.

Definition RoutingExpression : Type := list Clause.

(** ** Text *)

Definition upper_byte (ch : Z) : Z := if (97 <=? ch) && (ch <=? 122) then ch - 97 + 65 else ch.
Definition ToUpperAscii (text : list Z) : list Z := map upper_byte text.

Definition ParseUint32Strict (text : list Z) : option Z :=
  match text with
  | [] => None
  | _ => match from_chars_u32 text with
         | Some (value, n) => if negb (n =? length text)%nat || (value =? 0) then None else Some value
         | None => None
         end
  end.

Definition ParseDoubleStrict `{DoubleLib} (text : list Z) : option double :=
  match text with
  | [] => None
  | _ => match double_from_chars text with
         | Some (value, n) => if (n =? length text)%nat then Some value else None
         | None => None
         end
  end.

(** [find] of [std::string_view]: the first place where [sub] occurs. *)
Fixpoint is_prefix (sub text : list Z) : bool :=
  match sub, text with
  | [], _ => true
  | x :: sub, y :: text => (x =? y) && is_prefix sub text
  | _ :: _, [] => false
  end.

Fixpoint find_sub (text sub : list Z) : option nat :=
  if is_prefix sub text then Some O
  else match text with [] => None | _ :: text => S <$> find_sub text sub end.

(** ** Fields of a raw body *)

Record FieldSpan := MkSpan { field_begin : nat; value_begin : nat; value_end : nat; field_end : nat }.

(** The number of bytes before the next delimiter. *)
Fixpoint until_soh (text : list Z) : nat :=
  match text with
  | [] => O
  | b :: text => if b =? kFixSoh then O else S (until_soh text)
  end.

(** [while (field_begin < body.size())]; every round moves past a delimiter. *)
Fixpoint find_field_loop (fuel : nat) (body : list Z) (wanted_tag : Z) (begin : nat) : option FieldSpan :=
  match fuel with
  | O => None
  | S fuel =>
      if (length body <=? begin)%nat then None
      else
        let end_without_delim := (begin + until_soh (drop begin body))%nat in
        let the_end := if (end_without_delim <? length body)%nat then (end_without_delim + 1)%nat else end_without_delim in
        let field := slice body begin (end_without_delim - begin) in
        let found :=
          match find_sub field [61] with
          | Some equals =>
              if (0 <? equals)%nat && match ParseUint32Strict (take equals field) with Some tag => tag =? wanted_tag | None => false end
              then Some (MkSpan begin (begin + equals + 1) end_without_delim the_end) else None
          | None => None
          end in
        match found with
        | Some span => Some span
        | None => if (end_without_delim =? length body)%nat then None else find_field_loop fuel body wanted_tag the_end
        end
  end.

Definition FindField (body : list Z) (wanted_tag : Z) : option FieldSpan := find_field_loop (S (length body)) body wanted_tag 0.

Definition span_value (body : list Z) (s : FieldSpan) : list Z := slice body (value_begin s) (value_end s - value_begin s).

Definition ExtractTagValue (bytes : list Z) (tag : Z) : option (list Z) := span_value bytes <$> FindField bytes tag.

Definition nonempty (text : list Z) : option (list Z) := if text_empty text then None else Some text.

(** The [switch] over the tags the view keeps. *)
Definition KnownHeaderTagValue (message : RawPassThroughView) (tag : Z) : option (list Z) :=
  if tag =? tags.kBeginString then nonempty (rv_begin_string message)
  else if tag =? tags.kMsgType then nonempty (rv_msg_type message)
  else if tag =? tags.kMsgSeqNum then (if rv_msg_seq_num message =? 0 then None else Some (FormatUint32 (rv_msg_seq_num message)))
  else if tag =? tags.kPossDupFlag then (if rv_poss_dup message then Some (bytes "Y") else None)
  else if tag =? tags.kSenderCompID then nonempty (rv_sender_comp_id message)
  else if tag =? tags.kSenderSubID then nonempty (rv_sender_sub_id message)
  else if tag =? tags.kSendingTime then nonempty (rv_sending_time message)
  else if tag =? tags.kTargetCompID then nonempty (rv_target_comp_id message)
  else if tag =? tags.kTargetSubID then nonempty (rv_target_sub_id message)
  else if tag =? tags.kPossResend then (if rv_poss_resend message then Some (bytes "Y") else None)
  else if tag =? tags.kOnBehalfOfCompID then nonempty (rv_on_behalf_of_comp_id message)
  else if tag =? tags.kOrigSendingTime then nonempty (rv_orig_sending_time message)
  else if tag =? tags.kDeliverToCompID then nonempty (rv_deliver_to_comp_id message)
  else if tag =? tags.kApplVerID then nonempty (rv_appl_ver_id message)
  else if tag =? tags.kDefaultApplVerID then nonempty (rv_default_appl_ver_id message)
  else None.

Definition ExtractMessageTagValue (message : RawPassThroughView) (tag : Z) : option (list Z) :=
  match KnownHeaderTagValue message tag with
  | Some value => Some value
  | None =>
      match ExtractTagValue (rv_raw_body message) tag with
      | Some value => Some value
      | None => ExtractTagValue (rv_raw_message message) tag
      end
  end.

(** ** The parser *)

Definition is_space (b : Z) : bool := (b =? 32) || (b =? 9) || (b =? 10) || (b =? 13).

(** The two inner loops: the bytes skipped and the bytes of a token. *)
Fixpoint skip_while (p : Z -> bool) (text : list Z) : list Z :=
  match text with
  | [] => []
  | b :: rest => if p b then skip_while p rest else text
  end.
Fixpoint take_while (p : Z -> bool) (text : list Z) : list Z :=
  match text with
  | [] => []
  | b :: text => if p b then b :: take_while p text else []
  end.

Fixpoint tokenize_loop (fuel : nat) (text : list Z) : list (list Z) :=
  match fuel with
  | O => []
  | S fuel =>
      match skip_while is_space text with
      | [] => []
      | rest =>
          let token := take_while (fun b => negb (is_space b)) rest in
          token :: tokenize_loop fuel (drop (length token) rest)
      end
  end.
Definition Tokenize (text : list Z) : list (list Z) := tokenize_loop (length text) text.

Definition ParseHasToken (token : list Z) : option Z :=
  let upper := ToUpperAscii token in
  if (length upper <? 6)%nat || negb (is_prefix (bytes "HAS(") upper) || negb (default 0 (last upper) =? 41) then None
  else ParseUint32Strict (slice token 4 (length token - 5)).

Definition ParseOperatorToken (token : list Z) : option ExprOp.t :=
  let upper := ToUpperAscii token in
  if bytes_eqb upper (bytes "==") then Some ExprOp.kEqual
  else if bytes_eqb upper (bytes "!=") then Some ExprOp.kNotEqual
  else if bytes_eqb upper (bytes "<") then Some ExprOp.kLessThan
  else if bytes_eqb upper (bytes ">") then Some ExprOp.kGreaterThan
  else if bytes_eqb upper (bytes "CONTAINS") then Some ExprOp.kContains
  else if bytes_eqb upper (bytes "REGEX") then Some ExprOp.kRegex
  else if bytes_eqb upper (bytes "HAS") then Some ExprOp.kHasTag
  else None.

(** The operators in the order in which they are looked for. *)
Definition inline_operators : list (list Z * ExprOp.t) :=
  [(bytes "==", ExprOp.kEqual); (bytes "!=", ExprOp.kNotEqual); (bytes "<", ExprOp.kLessThan); (bytes ">", ExprOp.kGreaterThan)].

Fixpoint find_operator (operators : list (list Z * ExprOp.t)) (token : list Z) : option (nat * ExprOp.t) :=
  match operators with
  | [] => None
  | (text, op) :: operators =>
      match find_sub token text with
      | Some found => Some (found, op)
      | None => find_operator operators token
      end
  end.
Definition FindInlineComparisonOperator (token : list Z) : option (nat * ExprOp.t) := find_operator inline_operators token.

Definition invalid {A} (text : string) : Result A := Error (status.InvalidArgument text).

(** [tokens] is what is left from [*index] on; the result carries what is left behind
    the clause. *)
Definition parse_has (tokens : list (list Z)) (negated : bool) : Result (ExprNode * list (list Z)) :=
  match tokens with
  | [] => invalid "HAS operator requires a tag"
  | tag_token :: rest =>
      let tag_token :=
        if (2 <=? length tag_token)%nat && (default 0 (head tag_token) =? 40) && (default 0 (last tag_token) =? 41)
        then slice tag_token 1 (length tag_token - 2) else tag_token in
      match ParseUint32Strict tag_token with
      | Some tag => Value (MkExprNode tag ExprOp.kHasTag [] negated, rest)
      | None => invalid "HAS operator requires a numeric tag"
      end
  end.

Definition parse_inline (token : list Z) (op_pos : nat) (op : ExprOp.t) (rest : list (list Z)) (negated : bool) : Result (ExprNode * list (list Z)) :=
  let op_width := match op with ExprOp.kEqual | ExprOp.kNotEqual => 2%nat | _ => 1%nat end in
  match ParseUint32Strict (take op_pos token) with
  | None => invalid "routing expression comparison requires a numeric tag"
  | Some tag =>
      let value := drop (op_pos + op_width) token in
      let '(value, rest) := match value, rest with [], v :: rest => (v, rest) | _, _ => (value, rest) end in
      if text_empty value then invalid "routing expression comparison requires a value"
      else Value (MkExprNode tag op value negated, rest)
  end.

Definition parse_spaced (token : list Z) (rest : list (list Z)) (negated : bool) : Result (ExprNode * list (list Z)) :=
  match ParseUint32Strict token with
  | None => invalid "routing expression comparison requires a numeric tag"
  | Some tag =>
      match rest with
      | [] => invalid "routing expression comparison requires an operator"
      | op_token :: rest =>
          match ParseOperatorToken op_token with
          | None | Some ExprOp.kHasTag => invalid "routing expression comparison has an invalid operator"
          | Some op =>
              match rest with
              | [] => invalid "routing expression comparison requires a value"
              | value :: rest => Value (MkExprNode tag op value negated, rest)
              end
          end
      end
  end.

Definition parse_comparison (token : list Z) (rest : list (list Z)) (negated : bool) : Result (ExprNode * list (list Z)) :=
  match ParseHasToken token with
  | Some tag => Value (MkExprNode tag ExprOp.kHasTag [] negated, rest)
  | None =>
      if bytes_eqb (ToUpperAscii token) (bytes "HAS") then parse_has rest negated
      else match FindInlineComparisonOperator token with
           | Some (op_pos, op) => parse_inline token op_pos op rest negated
           | None => parse_spaced token rest negated
           end
  end.

Definition ParseClause (tokens : list (list Z)) : Result (ExprNode * list (list Z)) :=
  match tokens with
  | [] => invalid "routing expression expected a clause"
  | token :: rest =>
      if bytes_eqb (ToUpperAscii token) (bytes "NOT")
      then match rest with
           | [] => invalid "routing expression has NOT without a comparison"
           | token :: rest => parse_comparison token rest true
           end
      else parse_comparison token rest false
  end.

(** [while (index < tokens.size())]: a clause and its connector. *)
Fixpoint clauses_loop (fuel : nat) (tokens : list (list Z)) : Result RoutingExpression :=
  match tokens with
  | [] => Value []
  | _ =>
      match fuel with
      | O => Error diverges
      | S fuel =>
          match ParseClause tokens with
          | Error e => Error e
          | Value (node, []) => Value [MkClause node ExprLogic.kAnd]
          | Value (node, connector :: rest) =>
              let continue (logic : ExprLogic.t) :=
                match rest with
                | [] => invalid "routing expression connector is missing a following clause"
                | _ => match clauses_loop fuel rest with
                       | Value clauses => Value (MkClause node logic :: clauses)
                       | Error e => Error e
                       end
                end in
              let upper := ToUpperAscii connector in
              if bytes_eqb upper (bytes "AND") then continue ExprLogic.kAnd
              else if bytes_eqb upper (bytes "OR") then continue ExprLogic.kOr
              else invalid "routing expression expected AND or OR connector"
          end
      end
  end.

Section Expressions.
Context {RL : RegexLib} {DL : DoubleLib}.

Definition regex_ok (c : Clause) : bool :=
  match en_op (cl_node c) with
  | ExprOp.kRegex => match regex_compile (en_value (cl_node c)) with Some _ => true | None => false end
  | _ => true
  end.

Definition ParseRoutingExpression (text : list Z) : Result RoutingExpression :=
  let tokens := Tokenize text in
  match tokens with
  | [] => invalid "routing expression is empty"
  | _ =>
      match clauses_loop (length tokens) tokens with
      | Error e => Error e
      | Value expression => if forallb regex_ok expression then Value expression else invalid "routing expression contains an invalid regex"
      end
  end.

(** ** Evaluation *)

Definition compare_numbers (holds : double -> double -> bool) (lhs rhs : list Z) : bool :=
  match ParseDoubleStrict lhs, ParseDoubleStrict rhs with
  | Some lhs, Some rhs => holds lhs rhs
  | _, _ => false
  end.

Definition EvaluateNode (node : ExprNode) (message : RawPassThroughView) : bool :=
  let value := ExtractMessageTagValue message (en_tag node) in
  let matched :=
    match en_op node, value with
    | ExprOp.kHasTag, _ => match value with Some _ => true | None => false end
    | _, None => false
    | ExprOp.kEqual, Some v => bytes_eqb v (en_value node)
    | ExprOp.kNotEqual, Some v => negb (bytes_eqb v (en_value node))
    | ExprOp.kLessThan, Some v => compare_numbers double_lt v (en_value node)
    | ExprOp.kGreaterThan, Some v => compare_numbers (fun lhs rhs => double_lt rhs lhs) v (en_value node)
    | ExprOp.kContains, Some v => match find_sub v (en_value node) with Some _ => true | None => false end
    | ExprOp.kRegex, Some v => match regex_compile (en_value node) with Some r => regex_match v r | None => false end
    end in
  if en_negated node then negb matched else matched.

(** The loop from the second clause on, with its two variables. *)
Fixpoint evaluate_loop (message : RawPassThroughView) (connector : ExprLogic.t) (clauses : list Clause) (current_and_group result : bool) : bool :=
  match clauses with
  | [] => result || current_and_group
  | c :: clauses =>
      let next_value := EvaluateNode (cl_node c) message in
      match connector with
      | ExprLogic.kAnd => evaluate_loop message (cl_connector c) clauses (current_and_group && next_value) result
      | ExprLogic.kOr => evaluate_loop message (cl_connector c) clauses next_value (result || current_and_group)
      end
  end.

Definition EvaluateExpression (expr : RoutingExpression) (message : RawPassThroughView) : bool :=
  match expr with
  | [] => false
  | c :: clauses => evaluate_loop message (cl_connector c) clauses (EvaluateNode (cl_node c) message) false
  end.
End Expressions.

(** ** Transformations *)

Module Action.
Inductive t := kSet | kRemove | kAdd | kCopy.
End Action.

Record FieldTransform := MkTransform { ft_action : Action.t; ft_tag : Z; ft_value : list Z; ft_source_tag : Z }.

Definition MessageTransform : Type := list FieldTransform.

Definition AppendField (body : list Z) (tag : Z) (value : list Z) : list Z :=
  let body := if negb (text_empty body) && negb (default 0 (last body) =? kFixSoh) then body ++ [kFixSoh] else body in
  body ++ FormatUint32 tag ++ [61] ++ value ++ [kFixSoh].

Definition SetField (body : list Z) (tag : Z) (value : list Z) : list Z :=
  match FindField body tag with
  | None => AppendField body tag value
  | Some span => take (value_begin span) body ++ value ++ drop (value_end span) body
  end.

Definition RemoveField (body : list Z) (tag : Z) : list Z :=
  match FindField body tag with
  | None => body
  | Some span => take (field_begin span) body ++ drop (field_end span) body
  end.

(** One transformation of the body; [message] is where a copy looks last. *)
Definition apply_field_transform (message : RawPassThroughView) (ft : FieldTransform) (body : list Z) : Result (list Z) :=
  if ft_tag ft =? 0 then invalid "field transform tag must be non-zero"
  else
    match ft_action ft with
    | Action.kSet => Value (SetField body (ft_tag ft) (ft_value ft))
    | Action.kRemove => Value (RemoveField body (ft_tag ft))
    | Action.kAdd => Value (match FindField body (ft_tag ft) with Some _ => body | None => AppendField body (ft_tag ft) (ft_value ft) end)
    | Action.kCopy =>
        if ft_source_tag ft =? 0 then invalid "copy transform source tag must be non-zero"
        else
          let source_value :=
            match FindField body (ft_source_tag ft) with
            | Some span => Some (span_value body span)
            | None => ExtractMessageTagValue message (ft_source_tag ft)
            end in
          Value (match source_value with Some v => SetField body (ft_tag ft) v | None => body end)
    end.

Fixpoint apply_transforms (message : RawPassThroughView) (transforms : MessageTransform) (body : list Z) : Result (list Z) :=
  match transforms with
  | [] => Value body
  | ft :: transforms =>
      match apply_field_transform message ft body with
      | Error e => Error e
      | Value body => apply_transforms message transforms body
      end
  end.

(** The output body. *)
Definition ApplyTransform (message : RawPassThroughView) (transform : MessageTransform) : Result (list Z) :=
  if negb (rv_valid message) then invalid "message view is not valid" else apply_transforms message transform (rv_raw_body message).

(** ** The table *)

Module LoadBalancingMode.
Inductive t := kNone | kRoundRobin | kSticky.
End LoadBalancingMode.

Module RoutingCriterion.
Inductive t := kAll | kMsgType | kCustom | kExpression.
End RoutingCriterion.

Module RoutingAction.
Inductive t := kForward | kDrop | kReject.
End RoutingAction.

#[export] Instance RoutingAction_eq_dec : EqDecision RoutingAction.t.
Proof. solve_decision. Defined.

#[export] Instance LoadBalancingMode_eq_dec : EqDecision LoadBalancingMode.t.
Proof. solve_decision. Defined.

Record LoadBalancerConfig := MkBalancer { lb_mode : LoadBalancingMode.t; lb_target_sessions : list Z; lb_sticky_key_tag : Z }.

Record RoutingRule := MkRule {
  rr_name : list Z;
  rr_criterion : RoutingCriterion.t;
  rr_msg_type : list Z;
  rr_predicate : option (RawPassThroughView -> Z);
  rr_expression : RoutingExpression;
  rr_action : RoutingAction.t;
  rr_target_session_id : Z;
  rr_load_balancer : LoadBalancerConfig;
  rr_transform : MessageTransform;
  rr_priority : Z;
}.

Record LoadBalancerState := MkBalancerState { round_robin_index : Z; sticky_map : gmap (list Z) Z }.

Definition fresh_balancer : LoadBalancerState := MkBalancerState 0 ∅.

Record RoutingTable := MkTable {
  rules_ : list RoutingRule;
  default_action_ : RoutingAction.t;
  default_target_ : Z;
  load_balancer_states_ : gmap (list Z) LoadBalancerState;
}.

Definition NewRoutingTable : RoutingTable := MkTable [] RoutingAction.kDrop 0 ∅.

(** The copy constructor and the copy assignment leave the load balancer behind. *)
Definition RoutingTable_copy (other : RoutingTable) : RoutingTable := MkTable (rules_ other) (default_action_ other) (default_target_ other) ∅.

(** [std::upper_bound] is the partition point of the rules that do not come later. *)
Definition AddRule (rule : RoutingRule) (t : RoutingTable) : RoutingTable :=
  let insert_at := lower_bound (fun entry => negb (rr_priority rule <? rr_priority entry)) (rules_ t) in
  MkTable (take insert_at (rules_ t) ++ rule :: drop insert_at (rules_ t)) (default_action_ t) (default_target_ t) (load_balancer_states_ t).

Definition RemoveRule (name : list Z) (t : RoutingTable) : RoutingTable :=
  MkTable (List.filter (fun r => negb (bytes_eqb (rr_name r) name)) (rules_ t)) (default_action_ t) (default_target_ t) (delete name (load_balancer_states_ t)).

Definition Clear (t : RoutingTable) : RoutingTable := MkTable [] (default_action_ t) (default_target_ t) ∅.
Definition SetDefaultAction (action : RoutingAction.t) (t : RoutingTable) : RoutingTable := MkTable (rules_ t) action (default_target_ t) (load_balancer_states_ t).
Definition SetDefaultTarget (session_id : Z) (t : RoutingTable) : RoutingTable := MkTable (rules_ t) (default_action_ t) session_id (load_balancer_states_ t).
Definition rule_count (t : RoutingTable) : nat := length (rules_ t).

(** [fetch_add] returns the index before. *)
Definition round_robin_target (targets : list Z) (s : LoadBalancerState) : Z * LoadBalancerState :=
  match targets with
  | [] => (0, s)
  | _ => (nth (Z.to_nat (round_robin_index s mod Z.of_nat (length targets))) targets 0, MkBalancerState (round_robin_index s +u32 1) (sticky_map s))
  end.

Definition select_in_state (rule : RoutingRule) (message : RawPassThroughView) (fallback_target : Z) (s : LoadBalancerState) : Z * LoadBalancerState :=
  let targets := lb_target_sessions (rr_load_balancer rule) in
  match lb_mode (rr_load_balancer rule) with
  | LoadBalancingMode.kNone => (fallback_target, s)
  | LoadBalancingMode.kRoundRobin => round_robin_target targets s
  | LoadBalancingMode.kSticky =>
      match ExtractMessageTagValue message (lb_sticky_key_tag (rr_load_balancer rule)) with
      | None | Some [] => round_robin_target targets s
      | Some sticky_key =>
          match sticky_map s !! sticky_key with
          | Some existing => (existing, s)
          | None =>
              let '(selected, s) := round_robin_target targets s in
              (selected, MkBalancerState (round_robin_index s) (<[sticky_key := selected]> (sticky_map s)))
          end
      end
  end.

(** The state of a rule is found under its name, and made when it is not there. *)
Definition SelectLoadBalancedTarget (rule : RoutingRule) (fallback_target : Z) (message : RawPassThroughView) (t : RoutingTable) : Z * RoutingTable :=
  match lb_mode (rr_load_balancer rule), lb_target_sessions (rr_load_balancer rule) with
  | LoadBalancingMode.kNone, _ | _, [] => (fallback_target, t)
  | _, _ =>
      let '(target, s) := select_in_state rule message fallback_target (default fresh_balancer (load_balancer_states_ t !! rr_name rule)) in
      (target, MkTable (rules_ t) (default_action_ t) (default_target_ t) (<[rr_name rule := s]> (load_balancer_states_ t)))
  end.

(** [res_rule] is the rule [matched_rule] points to; its name is [matched_rule_name]. *)
Record RouteResult := MkRoute { res_action : RoutingAction.t; res_target_session_id : Z; res_rule : option RoutingRule }.

Section Routing.
Context {RL : RegexLib} {DL : DoubleLib}.

(** Whether a rule matches, and the target then. *)
Definition match_rule (rule : RoutingRule) (message : RawPassThroughView) : option Z :=
  match rr_criterion rule with
  | RoutingCriterion.kAll => Some (rr_target_session_id rule)
  | RoutingCriterion.kMsgType => if bytes_eqb (rv_msg_type message) (rr_msg_type rule) then Some (rr_target_session_id rule) else None
  | RoutingCriterion.kCustom =>
      match rr_predicate rule with
      | Some predicate => let target := predicate message in if target =? 0 then None else Some target
      | None => None
      end
  | RoutingCriterion.kExpression => if EvaluateExpression (rr_expression rule) message then Some (rr_target_session_id rule) else None
  end.

Fixpoint route_loop (rules : list RoutingRule) (message : RawPassThroughView) (t : RoutingTable) : RouteResult * RoutingTable :=
  match rules with
  | [] => (MkRoute (default_action_ t) (match default_action_ t with RoutingAction.kForward => default_target_ t | _ => 0 end) None, t)
  | rule :: rules =>
      match match_rule rule message with
      | None => route_loop rules message t
      | Some target_session_id =>
          match rr_action rule with
          | RoutingAction.kForward =>
              let '(target, t) := SelectLoadBalancedTarget rule target_session_id message t in
              (MkRoute RoutingAction.kForward target (Some rule), t)
          | action => (MkRoute action 0 (Some rule), t)
          end
      end
  end.

(** The load balancer states are mutable. *)
Definition Route (message : RawPassThroughView) (t : RoutingTable) : RouteResult * RoutingTable := route_loop (rules_ t) message t.

(** ** Forwarding *)

Record ForwardResult := MkForwardResult { forwarded : Z; dropped : Z; rejected : Z; failed : Z }.

Definition with_raw_body (body : list Z) (v : RawPassThroughView) : RawPassThroughView :=
  MkRaw (rv_begin_string v) (rv_msg_type v) (rv_msg_seq_num v) (rv_sender_comp_id v) (rv_sender_sub_id v) (rv_target_comp_id v) (rv_target_sub_id v)
    (rv_on_behalf_of_comp_id v) (rv_deliver_to_comp_id v) (rv_default_appl_ver_id v) (rv_appl_ver_id v) (rv_sending_time v) (rv_orig_sending_time v)
    (rv_poss_dup v) (rv_poss_resend v) body (rv_body_start_offset v) (rv_raw_message v) (rv_valid v).

(** The result with the content of the buffer, and the table behind. *)
Definition ForwardMessage (inbound : RawPassThroughView) (options : ForwardingOptions) (t : RoutingTable) : Result (ForwardResult * list Z) * RoutingTable :=
  let '(route, t) := Route inbound t in
  (match res_action route with
   | RoutingAction.kDrop => Value (MkForwardResult 0 1 0 0, [])
   | RoutingAction.kReject => Value (MkForwardResult 0 0 1 0, [])
   | RoutingAction.kForward =>
       if res_target_session_id route =? 0 then invalid "routing rule selected forward without a target session"
       else
         let transformed :=
           match res_rule route with
           | Some rule => match rr_transform rule with
                          | [] => Value inbound
                          | transform => match ApplyTransform inbound transform with
                                         | Value body => Value (with_raw_body body inbound)
                                         | Error e => Error e
                                         end
                          end
           | None => Value inbound
           end in
         match transformed with
         | Error e => Error e
         | Value forwarded_view =>
             match EncodeForwarded forwarded_view options with
             | Error e => Error e
             | Value frame => Value (MkForwardResult 1 0 0 0, frame)
             end
         end
   end, t).
End Routing.
