(* ===== verification/RouterProofs.v ===== *)
(** * Routing: what the table, the expressions and the transformations do

    Transformations of a body as operations on its list of fields, expressions as
    disjunctions of conjunctions with their printer, the table as the list of rules in
    the order in which they were added, and the load balancer. *)
From S2P Require Import Prelude Base StdAlgo IntFormat Scan FixTags Wire RawPassThrough Router.
From Stdlib Require Import Sorting.Sorted.
From stdpp Require Import gmap.
Open Scope Z_scope.

(** ** Lemmas: fields of a rendered body *)

Definition field_clean (f : Z * list Z) : Prop := 0 < f.1 <= UINT32_MAX /\ kFixSoh ∉ f.2.

Lemma until_soh_app a b : kFixSoh ∉ a -> until_soh (a ++ kFixSoh :: b) = length a.
Proof.
  induction a as [|x a IH]; cbn; [done|]. rewrite not_elem_of_cons. intros [Hx Ha]. destruct (Z.eqb_spec x kFixSoh); [by subst|]. by rewrite IH.
Qed.

Lemma find_sub_byte c a b : c ∉ a -> find_sub (a ++ c :: b) [c] = Some (length a).
Proof.
  induction a as [|x a IH]; cbn; [by rewrite Z.eqb_refl|]. rewrite not_elem_of_cons. intros [Hx Ha]. destruct (Z.eqb_spec c x); [by subst|]. cbn. by rewrite IH.
Qed.

Lemma digits_exclude t c : in_u32 t -> ~ is_digit c -> c ∉ FormatUint32 t.
Proof. intros Ht Hc Hin. pose proof (format_digits t Ht) as Hd. rewrite Forall_forall in Hd. by apply Hc, Hd. Qed.

Lemma strict_format t : 0 < t <= UINT32_MAX -> ParseUint32Strict (FormatUint32 t) = Some t.
Proof.
  intros Ht. assert (Hu : in_u32 t) by ulia. unfold ParseUint32Strict. rewrite (from_chars_format t Hu), Nat.eqb_refl. cbn. destruct (FormatUint32_canonical t Hu) as (_ & _ & Hne).
  destruct (FormatUint32 t); [cbn in Hne; by destruct Hne|]. destruct (Z.eqb_spec t 0); [lia|done].
Qed.

(** The first field with the tag, and what is before and behind. *)
Fixpoint split_at_tag (tag : Z) (fs : list (Z * list Z)) : option (list (Z * list Z) * list Z * list (Z * list Z)) :=
  match fs with
  | [] => None
  | (t, v) :: fs => if t =? tag then Some ([], v, fs) else match split_at_tag tag fs with Some (a, w, b) => Some ((t, v) :: a, w, b) | None => None end
  end.

Lemma split_at_tag_eq tag fs a v b : split_at_tag tag fs = Some (a, v, b) -> fs = a ++ (tag, v) :: b.
Proof.
  revert a. induction fs as [|[t w] fs IH]; intros a; cbn; [done|]. destruct (Z.eqb_spec t tag) as [->|]; [by intros [= <- <- <-]|].
  destruct (split_at_tag tag fs) as [[[a' w'] b']|]; [|done]. intros [= <- <- <-]. cbn. f_equal. by apply IH.
Qed.

Definition text_length (f : Z * list Z) : nat := (length (FormatUint32 f.1) + 1 + length f.2)%nat.

Lemma field_bytes_length t v soh : length (field_bytes t v soh) = S (text_length (t, v)).
Proof. unfold field_bytes, text_length. rewrite !length_app. cbn. lia. Qed.

(** One round of the search. *)
Lemma find_field_round fuel pre t v rest tag : field_clean (t, v) ->
  find_field_loop (S fuel) (pre ++ field_bytes t v kFixSoh ++ rest) tag (length pre) =
    if t =? tag then Some (MkSpan (length pre) (length pre + length (FormatUint32 t) + 1) (length pre + text_length (t, v)) (length pre + S (text_length (t, v))))
    else find_field_loop fuel (pre ++ field_bytes t v kFixSoh ++ rest) tag (length pre + S (text_length (t, v))).
Proof.
  intros [Ht Hv]. cbn [fst snd] in *. assert (Hu : in_u32 t) by ulia. cbn [find_field_loop].
  assert (Hsplit : field_bytes t v kFixSoh ++ rest = (FormatUint32 t ++ 61 :: v) ++ kFixSoh :: rest) by (unfold field_bytes; by rewrite <- !app_assoc).
  assert (Hlen : length (FormatUint32 t ++ 61 :: v) = text_length (t, v)) by (unfold text_length; rewrite length_app; cbn; lia).
  assert (Hbody : length (pre ++ field_bytes t v kFixSoh ++ rest) = (length pre + S (text_length (t, v)) + length rest)%nat) by (rewrite !length_app, field_bytes_length; lia).
  rewrite Hbody. destruct (Nat.leb_spec (length pre + S (text_length (t, v)) + length rest) (length pre)); [lia|].
  assert (Huntil : until_soh (drop (length pre) (pre ++ field_bytes t v kFixSoh ++ rest)) = text_length (t, v)).
  { rewrite drop_app_length, Hsplit, until_soh_app; [done|]. rewrite not_elem_of_app, not_elem_of_cons. split; [apply digits_exclude; [done|unfold is_digit, kFixSoh; lia]|done]. }
  rewrite Huntil. assert (Hfield : slice (pre ++ field_bytes t v kFixSoh ++ rest) (length pre) (length pre + text_length (t, v) - length pre) = FormatUint32 t ++ 61 :: v).
  { unfold slice. rewrite drop_app_length, Hsplit. replace (length pre + text_length (t, v) - length pre)%nat with (length (FormatUint32 t ++ 61 :: v)) by (rewrite Hlen; lia). apply take_app_length. }
  cbv zeta. rewrite Hfield, find_sub_byte by (apply digits_exclude; [done|unfold is_digit; lia]). rewrite take_app_length, strict_format by done.
  destruct (FormatUint32_canonical t Hu) as (_ & _ & Hne). assert (Hpos : (0 < length (FormatUint32 t))%nat) by (destruct (FormatUint32 t); [cbn in Hne; by destruct Hne|cbn; lia]).
  rewrite (proj2 (Nat.ltb_lt _ _) Hpos). cbn [andb]. destruct (Nat.ltb_spec (length pre + text_length (t, v)) (length pre + S (text_length (t, v)) + length rest)); [|lia].
  destruct (t =? tag); [do 2 f_equal; lia|]. destruct (Nat.eqb_spec (length pre + text_length (t, v)) (length pre + S (text_length (t, v)) + length rest)); [lia|]. f_equal. lia.
Qed.

Lemma find_field_render tag fs : Forall field_clean fs -> forall fuel pre, (length fs < fuel)%nat ->
  find_field_loop fuel (pre ++ render fs kFixSoh) tag (length pre) =
    match split_at_tag tag fs with
    | Some (a, v, _) => let n := (length pre + length (render a kFixSoh))%nat in
                        Some (MkSpan n (n + length (FormatUint32 tag) + 1) (n + text_length (tag, v)) (n + S (text_length (tag, v))))
    | None => None
    end.
Proof.
  induction fs as [|[t v] fs IH]; intros Hfs fuel pre Hfuel; (destruct fuel as [|fuel]; [cbn in Hfuel; lia|]).
  - cbn [find_field_loop]. change (render [] kFixSoh) with (@nil Z). rewrite app_nil_r. by rewrite Nat.leb_refl.
  - apply Forall_cons in Hfs as [Hf Hfs]. rewrite render_cons, find_field_round by done. cbn [split_at_tag]. destruct (Z.eqb_spec t tag) as [->|].
    + change (render [] kFixSoh) with (@nil Z). cbn [length]. cbv zeta. rewrite !Nat.add_0_r. done.
    + rewrite app_assoc. replace (length pre + S (text_length (t, v)))%nat with (length (pre ++ field_bytes t v kFixSoh)) by (by rewrite length_app, field_bytes_length).
      rewrite IH by (done || (cbn in Hfuel; lia)). destruct (split_at_tag tag fs) as [[[a w] b]|]; [|done]. rewrite render_cons, !length_app. cbv zeta. do 2 f_equal; lia.
Qed.

Lemma FindField_render tag fs : Forall field_clean fs ->
  FindField (render fs kFixSoh) tag =
    match split_at_tag tag fs with
    | Some (a, v, _) => let n := length (render a kFixSoh) in Some (MkSpan n (n + length (FormatUint32 tag) + 1) (n + text_length (tag, v)) (n + S (text_length (tag, v))))
    | None => None
    end.
Proof. intros Hfs. pose proof (render_length fs kFixSoh). unfold FindField. apply (find_field_render tag fs Hfs (S (length (render fs kFixSoh))) []). lia. Qed.

(** ** Transformations of a list of fields *)

Definition set_field (tag : Z) (value : list Z) (fs : list (Z * list Z)) : list (Z * list Z) :=
  match split_at_tag tag fs with Some (a, _, b) => a ++ (tag, value) :: b | None => fs ++ [(tag, value)] end.

Definition remove_field (tag : Z) (fs : list (Z * list Z)) : list (Z * list Z) :=
  match split_at_tag tag fs with Some (a, _, b) => a ++ b | None => fs end.

Definition field_of (tag : Z) (fs : list (Z * list Z)) : option (list Z) := match split_at_tag tag fs with Some (_, v, _) => Some v | None => None end.

(** A transformation; [elsewhere] is what the message says of a tag. *)
Definition transform_fields (elsewhere : Z -> option (list Z)) (ft : FieldTransform) (fs : list (Z * list Z)) : list (Z * list Z) :=
  match ft_action ft with
  | Action.kSet => set_field (ft_tag ft) (ft_value ft) fs
  | Action.kRemove => remove_field (ft_tag ft) fs
  | Action.kAdd => match field_of (ft_tag ft) fs with Some _ => fs | None => fs ++ [(ft_tag ft, ft_value ft)] end
  | Action.kCopy => match (match field_of (ft_source_tag ft) fs with Some v => Some v | None => elsewhere (ft_source_tag ft) end) with
                    | Some v => set_field (ft_tag ft) v fs
                    | None => fs
                    end
  end.

Definition transform_clean (ft : FieldTransform) : Prop :=
  0 < ft_tag ft <= UINT32_MAX /\ match ft_action ft with Action.kSet | Action.kAdd => kFixSoh ∉ ft_value ft | Action.kCopy => 0 < ft_source_tag ft | Action.kRemove => True end.

Lemma last_render fs : fs <> [] -> default 0 (last (render fs kFixSoh)) = kFixSoh.
Proof.
  intros Hne. destruct (exists_last Hne) as (fs' & [t v] & ->). rewrite render_app. unfold render at 2. cbn [map concat fst snd]. rewrite app_nil_r. unfold field_bytes. rewrite !app_assoc, last_snoc. done.
Qed.

Lemma AppendField_render fs tag value : AppendField (render fs kFixSoh) tag value = render (fs ++ [(tag, value)]) kFixSoh.
Proof.
  unfold AppendField. assert (Hsep : negb (text_empty (render fs kFixSoh)) && negb (default 0 (last (render fs kFixSoh)) =? kFixSoh) = false).
  { destruct fs as [|f fs]; [done|]. rewrite (last_render (f :: fs)) by done. rewrite Z.eqb_refl. apply andb_false_r. }
  rewrite Hsep, render_app. unfold render at 3. cbn [map concat fst snd]. by rewrite app_nil_r.
Qed.

(** A span of a rendered field, cut out. *)
Lemma span_parts a tag v b : let body := render (a ++ (tag, v) :: b) kFixSoh in let n := length (render a kFixSoh) in
  take n body = render a kFixSoh /\ take (n + length (FormatUint32 tag) + 1) body = render a kFixSoh ++ FormatUint32 tag ++ [61] /\
  drop (n + text_length (tag, v)) body = kFixSoh :: render b kFixSoh /\ drop (n + S (text_length (tag, v))) body = render b kFixSoh /\
  slice body (n + length (FormatUint32 tag) + 1) (n + text_length (tag, v) - (n + length (FormatUint32 tag) + 1)) = v.
Proof.
  cbv zeta. rewrite render_app, render_cons. set (A := render a kFixSoh). set (B := render b kFixSoh). set (P := A ++ FormatUint32 tag ++ [61]).
  assert (E1 : A ++ field_bytes tag v kFixSoh ++ B = P ++ v ++ kFixSoh :: B) by (unfold field_bytes, P; by rewrite <- !app_assoc).
  assert (L1 : (length A + length (FormatUint32 tag) + 1)%nat = length P) by (unfold P; rewrite !length_app; cbn; lia).
  split_and!.
  - apply take_app_length.
  - rewrite E1, L1. apply take_app_length.
  - rewrite E1, app_assoc. replace (length A + text_length (tag, v))%nat with (length (P ++ v)) by (rewrite length_app, <- L1; unfold text_length; cbn; lia). apply drop_app_length.
  - rewrite <- field_bytes_length with (soh := kFixSoh), app_assoc, <- length_app. apply drop_app_length.
  - unfold slice. rewrite E1, L1, drop_app_length. replace (length A + text_length (tag, v) - length P)%nat with (length v) by (rewrite <- L1; unfold text_length; cbn; lia).
    apply take_app_length.
Qed.

Lemma SetField_render fs tag value : Forall field_clean fs -> SetField (render fs kFixSoh) tag value = render (set_field tag value fs) kFixSoh.
Proof.
  intros Hfs. unfold SetField, set_field. rewrite FindField_render by done. destruct (split_at_tag tag fs) as [[[a v] b]|] eqn:E; [|apply AppendField_render].
  apply split_at_tag_eq in E as ->. cbv zeta. cbn [value_begin value_end]. destruct (span_parts a tag v b) as (_ & -> & -> & _). rewrite render_app, render_cons. unfold field_bytes. by rewrite <- !app_assoc.
Qed.

Lemma RemoveField_render fs tag : Forall field_clean fs -> RemoveField (render fs kFixSoh) tag = render (remove_field tag fs) kFixSoh.
Proof.
  intros Hfs. unfold RemoveField, remove_field. rewrite FindField_render by done. destruct (split_at_tag tag fs) as [[[a v] b]|] eqn:E; [|done].
  apply split_at_tag_eq in E as ->. cbv zeta. cbn [field_begin field_end]. destruct (span_parts a tag v b) as (-> & _ & _ & -> & _). by rewrite render_app.
Qed.

Lemma found_value fs tag : Forall field_clean fs -> span_value (render fs kFixSoh) <$> FindField (render fs kFixSoh) tag = field_of tag fs.
Proof.
  intros Hfs. rewrite FindField_render by done. unfold field_of. destruct (split_at_tag tag fs) as [[[a v] b]|] eqn:E; [|done]. apply split_at_tag_eq in E as ->.
  cbv zeta. cbn [fmap option_fmap option_map]. unfold span_value. cbn [value_begin value_end]. by destruct (span_parts a tag v b) as (_ & _ & _ & _ & ->).
Qed.

Lemma set_field_clean tag value fs : 0 < tag <= UINT32_MAX -> kFixSoh ∉ value -> Forall field_clean fs -> Forall field_clean (set_field tag value fs).
Proof.
  intros Ht Hv Hfs. unfold set_field. destruct (split_at_tag tag fs) as [[[a v] b]|] eqn:E.
  - apply split_at_tag_eq in E as ->. apply Forall_app in Hfs as [Ha Hb]. apply Forall_cons in Hb as [_ Hb]. apply Forall_app. split; [done|]. by constructor.
  - apply Forall_app. split; [done|]. constructor; [by split|constructor].
Qed.

Lemma field_of_clean tag fs v : Forall field_clean fs -> field_of tag fs = Some v -> kFixSoh ∉ v.
Proof.
  intros Hfs. unfold field_of. destruct (split_at_tag tag fs) as [[[a w] b]|] eqn:E; [|done]. intros [= <-]. apply split_at_tag_eq in E as ->. apply Forall_app in Hfs as [_ Hb]. by apply Forall_cons in Hb as [[_ Hv] _].
Qed.

Lemma transform_step message ft fs : Forall field_clean fs -> transform_clean ft -> (forall tag v, ExtractMessageTagValue message tag = Some v -> kFixSoh ∉ v) ->
  apply_field_transform message ft (render fs kFixSoh) = Value (render (transform_fields (ExtractMessageTagValue message) ft fs) kFixSoh) /\
  Forall field_clean (transform_fields (ExtractMessageTagValue message) ft fs).
Proof.
  intros Hfs [Ht Hact] Hm. unfold apply_field_transform, transform_fields. destruct (Z.eqb_spec (ft_tag ft) 0); [lia|]. pose proof (found_value fs (ft_tag ft) Hfs) as Hfound. destruct (ft_action ft).
  - rewrite SetField_render by done. split; [done|by apply set_field_clean].
  - rewrite RemoveField_render by done. split; [done|]. unfold remove_field. destruct (split_at_tag (ft_tag ft) fs) as [[[a v] b]|] eqn:E; [|done].
    apply split_at_tag_eq in E as ->. apply Forall_app in Hfs as [Ha Hb]. apply Forall_cons in Hb as [_ Hb]. by apply Forall_app.
  - destruct (FindField _ _) as [span|]; cbn in Hfound; rewrite <- Hfound; [done|]. rewrite AppendField_render. split; [done|]. apply Forall_app. split; [done|]. constructor; [by split|constructor].
  - destruct (Z.eqb_spec (ft_source_tag ft) 0); [lia|]. pose proof (found_value fs (ft_source_tag ft) Hfs) as Hsrc. destruct (FindField _ (ft_source_tag ft)) as [span|]; cbn in Hsrc; rewrite <- Hsrc.
    + rewrite SetField_render by done. split; [done|]. apply set_field_clean; try done. by apply (field_of_clean (ft_source_tag ft) fs).
    + destruct (ExtractMessageTagValue message (ft_source_tag ft)) as [v|] eqn:E; [|done]. rewrite SetField_render by done. split; [done|]. apply set_field_clean; try done. by eapply Hm.
Qed.

(** ** Expressions as disjunctions of conjunctions *)

(** The maximal runs of clauses that are linked by AND. *)
Fixpoint or_groups (clauses : list Clause) (current : list ExprNode) : list (list ExprNode) :=
  match clauses with
  | [] => []
  | c :: rest =>
      let current := current ++ [cl_node c] in
      match rest with
      | [] => [current]
      | _ => match cl_connector c with ExprLogic.kAnd => or_groups rest current | ExprLogic.kOr => current :: or_groups rest [] end
      end
  end.

Section Evaluate.
Context {RL : RegexLib} {DL : DoubleLib} (message : RawPassThroughView).

Definition all_match (nodes : list ExprNode) : bool := forallb (fun n => EvaluateNode n message) nodes.

Lemma evaluate_groups clauses : forall c nodes result,
  evaluate_loop message (cl_connector c) clauses (all_match (nodes ++ [cl_node c])) result = result || existsb all_match (or_groups (c :: clauses) nodes).
Proof.
  induction clauses as [|c' clauses IH]; intros c nodes result; cbn [evaluate_loop].
  - cbn [or_groups existsb]. by rewrite orb_false_r.
  - assert (Hone : EvaluateNode (cl_node c') message = all_match ([] ++ [cl_node c'])) by (cbn; by rewrite andb_true_r).
    change (or_groups (c :: c' :: clauses) nodes) with
      (match cl_connector c with ExprLogic.kAnd => or_groups (c' :: clauses) (nodes ++ [cl_node c]) | ExprLogic.kOr => (nodes ++ [cl_node c]) :: or_groups (c' :: clauses) [] end).
    destruct (cl_connector c).
    + rewrite <- IH. f_equal. unfold all_match at 2. rewrite forallb_app. cbn [forallb]. by rewrite andb_true_r.
    + rewrite Hone, IH. cbn [existsb]. by rewrite orb_assoc.
Qed.
End Evaluate.

(** ** Printing expressions *)

Definition op_text (op : ExprOp.t) : list Z :=
  match op with
  | ExprOp.kEqual => bytes "=="
  | ExprOp.kNotEqual => bytes "!="
  | ExprOp.kLessThan => bytes "<"
  | ExprOp.kGreaterThan => bytes ">"
  | ExprOp.kContains => bytes "CONTAINS"
  | ExprOp.kRegex => bytes "REGEX"
  | ExprOp.kHasTag => bytes "HAS"
  end.

(** A comparison in one token or in several. *)
Definition comparison_tokens (inline : bool) (n : ExprNode) : list (list Z) :=
  let tag := FormatUint32 (en_tag n) in
  match en_op n with
  | ExprOp.kHasTag => if inline then [bytes "HAS(" ++ tag ++ [41]] else [bytes "HAS"; tag]
  | op => if inline then [tag ++ op_text op ++ en_value n] else [tag; op_text op; en_value n]
  end.

Definition node_tokens (inline : bool) (n : ExprNode) : list (list Z) := (if en_negated n then [bytes "NOT"] else []) ++ comparison_tokens inline n.

Definition connector_text (c : ExprLogic.t) : list Z := match c with ExprLogic.kAnd => bytes "AND" | ExprLogic.kOr => bytes "OR" end.

(** Each clause with its style. *)
Fixpoint expression_tokens (e : list (bool * Clause)) : list (list Z) :=
  match e with
  | [] => []
  | (inline, c) :: rest => node_tokens inline (cl_node c) ++ match rest with [] => [] | _ => connector_text (cl_connector c) :: expression_tokens rest end
  end.

Fixpoint join (tokens : list (list Z)) : list Z :=
  match tokens with
  | [] => []
  | token :: rest => token ++ match rest with [] => [] | _ => 32 :: join rest end
  end.

Definition print_expression (e : list (bool * Clause)) : list Z := join (expression_tokens e).

(** ** Which expressions can be printed *)

Definition absent (text sub : list Z) : bool := match find_sub text sub with Some _ => false | None => true end.

(** An operator that is looked for earlier must not occur in the token. *)
Definition inline_safe (n : ExprNode) : bool :=
  let text := op_text (en_op n) ++ en_value n in
  match en_op n with
  | ExprOp.kHasTag | ExprOp.kEqual => true
  | ExprOp.kNotEqual => absent text (bytes "==")
  | ExprOp.kLessThan => absent text (bytes "==") && absent text (bytes "!=")
  | ExprOp.kGreaterThan => absent text (bytes "==") && absent text (bytes "!=") && absent text (bytes "<")
  | ExprOp.kContains | ExprOp.kRegex => false
  end.

Definition word (text : list Z) : bool := negb (text_empty text) && forallb (fun b => negb (is_space b)) text.

Definition node_printable (inline : bool) (n : ExprNode) : bool :=
  (0 <? en_tag n) && (en_tag n <=? UINT32_MAX) && (negb inline || inline_safe n) &&
  match en_op n with ExprOp.kHasTag => text_empty (en_value n) | _ => word (en_value n) end.

(** The last connector is the default. *)
Fixpoint connectors_ok (e : RoutingExpression) : bool :=
  match e with
  | [] => true
  | c :: rest => match rest with [] => bool_decide (cl_connector c = ExprLogic.kAnd) | _ => connectors_ok rest end
  end.

(** ** Lemmas: tokens *)

Lemma find_sub_absent c text sub : c ∉ text -> find_sub text (c :: sub) = None.
Proof.
  induction text as [|x text IH]; intros Hc; [done|]. rewrite not_elem_of_cons in Hc. destruct Hc as [Hx Hc]. cbn. destruct (Z.eqb_spec c x); [by subst|]. cbn. by rewrite IH.
Qed.

Lemma find_sub_skip c pre text sub : c ∉ pre -> find_sub (pre ++ text) (c :: sub) = (fun n => (length pre + n)%nat) <$> find_sub text (c :: sub).
Proof.
  induction pre as [|x pre IH]; intros Hc; [rewrite app_nil_l; by destruct (find_sub text (c :: sub)) as [n|]|]. rewrite not_elem_of_cons in Hc. destruct Hc as [Hx Hc].
  change (find_sub ((x :: pre) ++ text) (c :: sub)) with (if (c =? x) && is_prefix sub (pre ++ text) then Some O else S <$> find_sub (pre ++ text) (c :: sub)).
  destruct (Z.eqb_spec c x); [by subst|]. cbn [andb]. rewrite IH by done. by destruct (find_sub text (c :: sub)).
Qed.

Lemma is_prefix_app sub text : is_prefix sub (sub ++ text) = true.
Proof. induction sub as [|x sub IH]; cbn; [done|]. by rewrite Z.eqb_refl. Qed.

Lemma find_sub_here sub text : find_sub (sub ++ text) sub = Some O.
Proof. pose proof (is_prefix_app sub text) as Hp. destruct (sub ++ text) eqn:E; cbn; by rewrite Hp. Qed.

Lemma word_spec token : word token = true -> token <> [] /\ Forall (fun b => is_space b = false) token.
Proof.
  unfold word. rewrite andb_true_iff, forallb_forall. intros [H1 H2]. split; [by destruct token|]. apply Forall_forall. intros b Hb. apply negb_true_iff, H2. by apply list_elem_of_In.
Qed.

Lemma take_while_word token rest : Forall (fun b => is_space b = false) token -> match rest with [] => True | b :: _ => is_space b = true end ->
  take_while (fun b => negb (is_space b)) (token ++ rest) = token.
Proof.
  intros Hw Hr. induction Hw as [|b token Hb _ IH]; cbn; [destruct rest as [|b rest]; [done|]; cbn; by rewrite Hr|]. rewrite Hb. cbn. by rewrite IH.
Qed.

Lemma tokenize_join tokens : Forall (fun t => word t = true) tokens -> forall fuel, (length (join tokens) <= fuel)%nat -> tokenize_loop fuel (join tokens) = tokens.
Proof.
  induction 1 as [|token rest Hw _ IH]; intros fuel Hfuel; [by destruct fuel|]. destruct (word_spec token Hw) as [Hne Hns].
  destruct token as [|b token]; [done|]. cbn [join] in *. destruct fuel as [|fuel]; [cbn in Hfuel; lia|]. cbn [tokenize_loop].
  pose proof (Forall_inv Hns) as Hb. cbn [app skip_while]. rewrite Hb. set (tail := match rest with [] => [] | _ => 32 :: join rest end) in *.
  change (b :: token ++ tail) with ((b :: token) ++ tail). rewrite take_while_word; [|done|by destruct rest]. rewrite drop_app_length. f_equal.
  unfold tail in *. destruct rest as [|t2 rest]; [by destruct fuel|].
  assert (Hskip : forall f text, tokenize_loop f (32 :: text) = tokenize_loop f text) by (intros [|f] text; done). rewrite Hskip. apply IH. cbn in Hfuel |- *. rewrite length_app in Hfuel. cbn in Hfuel. lia.
Qed.

(** ** Lemmas: parsing what was printed *)

Lemma tag_first t : 0 < t <= UINT32_MAX -> exists c ds, FormatUint32 t = c :: ds /\ is_digit c /\ Forall is_digit ds.
Proof.
  intros Ht. assert (Hu : in_u32 t) by ulia. pose proof (format_digits t Hu) as Hd. destruct (FormatUint32_canonical t Hu) as (_ & _ & Hne).
  destruct (FormatUint32 t) as [|c ds]; [cbn in Hne; by destruct Hne|]. apply Forall_cons in Hd as [Hc Hd]. by exists c, ds.
Qed.

Lemma upper_digit c : is_digit c -> upper_byte c = c.
Proof. unfold is_digit, upper_byte. intros Hc. destruct (Z.leb_spec 97 c); [lia|done]. Qed.

(** A token that starts with a digit is no keyword. *)
Lemma digit_token c rest : is_digit c ->
  ParseHasToken (c :: rest) = None /\ bytes_eqb (ToUpperAscii (c :: rest)) (bytes "HAS") = false /\ bytes_eqb (ToUpperAscii (c :: rest)) (bytes "NOT") = false.
Proof.
  intros Hc. unfold ParseHasToken, ToUpperAscii. cbn [map]. rewrite (upper_digit c Hc). unfold is_digit in Hc. split_and!.
  - cbv zeta. replace (is_prefix (bytes "HAS(") (c :: map upper_byte rest)) with false; [by rewrite orb_true_r|]. change (bytes "HAS(") with [72; 65; 83; 40]. cbn [is_prefix]. destruct (Z.eqb_spec 72 c); [lia|done].
  - apply bool_decide_eq_false. change (bytes "HAS") with [72; 65; 83]. intros [= Hx _]. lia.
  - apply bool_decide_eq_false. change (bytes "NOT") with [78; 79; 84]. intros [= Hx _]. lia.
Qed.

Lemma digits_absent t c sub : 0 < t <= UINT32_MAX -> ~ is_digit c -> find_sub (FormatUint32 t) (c :: sub) = None.
Proof. intros Ht Hc. apply find_sub_absent, digits_exclude; [ulia|done]. Qed.

Lemma digits_skip t c sub text : 0 < t <= UINT32_MAX -> ~ is_digit c ->
  find_sub (FormatUint32 t ++ text) (c :: sub) = (fun n => (length (FormatUint32 t) + n)%nat) <$> find_sub text (c :: sub).
Proof. intros Ht Hc. apply find_sub_skip, digits_exclude; [ulia|done]. Qed.

Lemma no_inline_operator t : 0 < t <= UINT32_MAX -> FindInlineComparisonOperator (FormatUint32 t) = None.
Proof.
  intros Ht. unfold FindInlineComparisonOperator, inline_operators. cbn [find_operator]. change (bytes "==") with [61; 61]. change (bytes "!=") with [33; 61]. change (bytes "<") with [60]. change (bytes ">") with [62].
  rewrite !digits_absent by (done || (unfold is_digit; lia)). done.
Qed.

Lemma absent_none text sub : absent text sub = true -> find_sub text sub = None.
Proof. unfold absent. by destruct (find_sub text sub). Qed.

(** The operator of an inline token is found where the tag ends. *)
Lemma inline_operator n : 0 < en_tag n <= UINT32_MAX -> inline_safe n = true -> en_op n <> ExprOp.kHasTag ->
  FindInlineComparisonOperator (FormatUint32 (en_tag n) ++ op_text (en_op n) ++ en_value n) = Some (length (FormatUint32 (en_tag n)), en_op n).
Proof.
  intros Ht Hsafe Hop. unfold FindInlineComparisonOperator, inline_operators. cbn [find_operator]. unfold inline_safe in Hsafe. cbv zeta in Hsafe.
  assert (Hskip : forall c sub, ~ is_digit c -> find_sub (FormatUint32 (en_tag n) ++ op_text (en_op n) ++ en_value n) (c :: sub) =
    (fun k => (length (FormatUint32 (en_tag n)) + k)%nat) <$> find_sub (op_text (en_op n) ++ en_value n) (c :: sub)) by (intros c sub Hc; by apply digits_skip).
  change (bytes "==") with [61; 61] in *. change (bytes "!=") with [33; 61] in *. change (bytes "<") with [60] in *. change (bytes ">") with [62] in *.
  rewrite !Hskip by (unfold is_digit; lia). destruct (en_op n); try done; rewrite ?andb_true_iff in Hsafe.
  - change (op_text ExprOp.kEqual) with [61; 61]. rewrite find_sub_here. cbn [fmap option_fmap option_map]. by rewrite Nat.add_0_r.
  - rewrite (absent_none _ _ Hsafe). change (op_text ExprOp.kNotEqual) with [33; 61]. rewrite find_sub_here. cbn [fmap option_fmap option_map]. by rewrite Nat.add_0_r.
  - destruct Hsafe as [S1 S2]. rewrite (absent_none _ _ S1), (absent_none _ _ S2). change (op_text ExprOp.kLessThan) with [60]. rewrite find_sub_here. cbn [fmap option_fmap option_map]. by rewrite Nat.add_0_r.
  - destruct Hsafe as [[S1 S2] S3]. rewrite (absent_none _ _ S1), (absent_none _ _ S2), (absent_none _ _ S3). change (op_text ExprOp.kGreaterThan) with [62]. rewrite find_sub_here.
    cbn [fmap option_fmap option_map]. by rewrite Nat.add_0_r.
Qed.

Lemma upper_digits ds : Forall is_digit ds -> map upper_byte ds = ds.
Proof. induction 1 as [|c ds Hc _ IH]; cbn; [done|]. by rewrite (upper_digit c Hc), IH. Qed.

Lemma has_token t : 0 < t <= UINT32_MAX -> ParseHasToken (bytes "HAS(" ++ FormatUint32 t ++ [41]) = Some t.
Proof.
  intros Ht. destruct (tag_first t Ht) as (c & ds & He & Hc & Hds). unfold ParseHasToken, ToUpperAscii. cbv zeta. rewrite !map_app, !length_app, !length_map. change (map upper_byte (bytes "HAS(")) with (bytes "HAS(").
  rewrite is_prefix_app, !app_assoc. change (map upper_byte [41]) with [41]. rewrite last_snoc. cbn [default]. rewrite Z.eqb_refl. change (length (bytes "HAS(")) with 4%nat. cbn [length].
  assert (Hl : length (FormatUint32 t) = S (length ds)) by (by rewrite He). destruct (Nat.ltb_spec (4 + (length (FormatUint32 t) + 1)) 6); [lia|]. cbn [orb negb].
  unfold slice. rewrite <- app_assoc, drop_app_length' by done. replace (4 + (length (FormatUint32 t) + 1) - 5)%nat with (length (FormatUint32 t)) by lia.
  rewrite take_app_length. by apply strict_format.
Qed.

Lemma word_app a b : word a = true -> forallb (fun b => negb (is_space b)) b = true -> word (a ++ b) = true.
Proof. unfold word. rewrite !andb_true_iff, forallb_app. intros [H1 H2] H3. split; [by destruct a|by rewrite H2, H3]. Qed.

Lemma word_tag t : 0 < t <= UINT32_MAX -> word (FormatUint32 t) = true.
Proof.
  intros Ht. assert (Hu : in_u32 t) by ulia. destruct (tag_first t Ht) as (c & ds & He & Hc & _). unfold word. apply andb_true_iff. split; [by rewrite He|]. apply forallb_forall. intros b Hb.
  pose proof (format_digits t Hu) as Hd. rewrite Forall_forall in Hd. apply list_elem_of_In, Hd in Hb. unfold is_digit in Hb. unfold is_space. lia.
Qed.

Lemma word_spaceless v : word v = true -> forallb (fun b => negb (is_space b)) v = true.
Proof. unfold word. by intros [_ ?]%andb_true_iff. Qed.

(** A comparison with an operator between tag and value. *)
Lemma printed_operator inline n rest : 0 < en_tag n <= UINT32_MAX -> (inline = true -> inline_safe n = true) -> word (en_value n) = true -> en_op n <> ExprOp.kHasTag ->
  exists token tokens, comparison_tokens inline n = token :: tokens /\ parse_comparison token (tokens ++ rest) (en_negated n) = Value (n, rest) /\
    bytes_eqb (ToUpperAscii token) (bytes "NOT") = false /\ Forall (fun t => word t = true) (token :: tokens).
Proof.
  intros Ht Hsafe Hw Hop. destruct (tag_first (en_tag n) Ht) as (c & ds & He & Hc & Hds). destruct (word_spec _ Hw) as [Hne _].
  assert (Hcmp : comparison_tokens inline n = if inline then [FormatUint32 (en_tag n) ++ op_text (en_op n) ++ en_value n] else [FormatUint32 (en_tag n); op_text (en_op n); en_value n]) by (unfold comparison_tokens; by destruct (en_op n)).
  rewrite Hcmp. pose proof (word_tag _ Ht) as Hwt. destruct inline.
  - eexists _, []. split; [done|]. specialize (Hsafe eq_refl).
    destruct (digit_token c (ds ++ op_text (en_op n) ++ en_value n) Hc) as (D1 & D2 & D3). split_and!.
    + unfold parse_comparison. rewrite He. cbn [app]. rewrite D1, D2. change (c :: ds ++ op_text (en_op n) ++ en_value n) with ((c :: ds) ++ op_text (en_op n) ++ en_value n). rewrite <- He, inline_operator by done.
      unfold parse_inline. cbv zeta. rewrite take_app_length, strict_format by done.
      assert (Hdrop : drop (length (FormatUint32 (en_tag n)) + match en_op n with ExprOp.kEqual | ExprOp.kNotEqual => 2%nat | _ => 1%nat end) (FormatUint32 (en_tag n) ++ op_text (en_op n) ++ en_value n) = en_value n).
      { rewrite <- drop_drop, drop_app_length. apply drop_app_length'. unfold inline_safe in Hsafe. by destruct (en_op n). }
      rewrite Hdrop. destruct (en_value n) as [|b v] eqn:Ev; [done|]. cbn [text_empty]. rewrite <- Ev. by destruct n.
    + rewrite He. exact D3.
    + constructor; [|constructor]. apply word_app; [done|]. rewrite forallb_app, (word_spaceless _ Hw). by destruct (en_op n).
  - eexists _, _. split; [done|]. destruct (digit_token c ds Hc) as (D1 & D2 & D3). rewrite <- He in D1, D2, D3. split_and!; [|exact D3|].
    + unfold parse_comparison. rewrite D1, D2, no_inline_operator by done. unfold parse_spaced. rewrite strict_format by done. cbn [app].
      assert (Hp : ParseOperatorToken (op_text (en_op n)) = Some (en_op n)) by (by destruct (en_op n)). rewrite Hp. destruct n as [t op v neg]. cbn [en_op en_tag en_value en_negated] in *. by destruct op.
    + repeat constructor; [done|by destruct (en_op n)|done].
Qed.

Lemma printed_comparison inline n rest : node_printable inline n = true -> exists token tokens, comparison_tokens inline n = token :: tokens /\
  parse_comparison token (tokens ++ rest) (en_negated n) = Value (n, rest) /\ bytes_eqb (ToUpperAscii token) (bytes "NOT") = false /\ Forall (fun t => word t = true) (token :: tokens).
Proof.
  unfold node_printable. rewrite !andb_true_iff, Z.ltb_lt, Z.leb_le. intros (((H1 & H2) & H3) & H4). destruct (decide (en_op n = ExprOp.kHasTag)) as [Hop|Hop].
  - unfold comparison_tokens. cbv zeta. rewrite Hop in H4 |- *. pose proof (word_tag (en_tag n) ltac:(lia)) as Hwt. destruct n as [t op v neg]. cbn [en_op en_tag en_value en_negated] in *. subst op.
    destruct v; [|done]. destruct inline.
    + eexists _, []. split; [done|]. split_and!; [|done|].
      * unfold parse_comparison. by rewrite has_token by lia.
      * constructor; [|constructor]. apply word_app; [done|]. rewrite forallb_app, (word_spaceless _ Hwt). done.
    + eexists _, _. split; [done|]. split_and!; [|done|by repeat constructor].
      unfold parse_comparison. change (ParseHasToken (bytes "HAS")) with (@None Z). change (bytes_eqb (ToUpperAscii (bytes "HAS")) (bytes "HAS")) with true. cbn iota. unfold parse_has. cbn [app].
      destruct (tag_first t ltac:(lia)) as (c & ds & He & Hc & _). assert (Hpar : (default 0 (head (FormatUint32 t)) =? 40) = false) by (rewrite He; unfold is_digit in Hc; cbn; lia).
      rewrite Hpar, andb_false_r. cbn [andb]. by rewrite strict_format by lia.
  - apply printed_operator; [lia|intros ->; exact H3| |done]. by destruct (en_op n).
Qed.

Lemma printed_node inline n rest : node_printable inline n = true -> ParseClause (node_tokens inline n ++ rest) = Value (n, rest) /\ Forall (fun t => word t = true) (node_tokens inline n) /\ node_tokens inline n <> [].
Proof.
  intros Hn. destruct (printed_comparison inline n rest Hn) as (token & tokens & He & Hp & Hnot & Hw). unfold node_tokens. rewrite He. destruct (en_negated n) eqn:Eneg; cbn [app].
  - split_and!; [|constructor; done|done]. cbn [ParseClause]. change (bytes_eqb (ToUpperAscii (bytes "NOT")) (bytes "NOT")) with true. cbn iota. exact Hp.
  - split_and!; [|done|done]. cbn [ParseClause]. rewrite Hnot. exact Hp.
Qed.

Definition printable (e : list (bool * Clause)) : bool := forallb (fun x => node_printable x.1 (cl_node x.2)) e && connectors_ok (map snd e).

Lemma parse_printed e : forallb (fun x => node_printable x.1 (cl_node x.2)) e = true -> connectors_ok (map snd e) = true -> forall fuel, (length e <= fuel)%nat ->
  clauses_loop fuel (expression_tokens e) = Value (map snd e) /\ Forall (fun t => word t = true) (expression_tokens e).
Proof.
  induction e as [|[inline c] e IH]; intros Hok Hcon fuel Hfuel; [by destruct fuel|]. cbn [forallb fst snd] in Hok. apply andb_true_iff in Hok as [Hn Hok]. cbn [expression_tokens map snd].
  destruct fuel as [|fuel]; [cbn in Hfuel; lia|]. destruct e as [|x e].
  - destruct (printed_node inline (cl_node c) [] Hn) as (Hp & Hw & Hne). rewrite app_nil_r in *. split; [|done]. cbn [clauses_loop]. destruct (node_tokens inline (cl_node c)) eqn:E; [done|].
    rewrite Hp. cbn in Hcon. apply bool_decide_eq_true in Hcon. destruct c as [n logic]. cbn in *. by subst logic.
  - cbn [length] in Hfuel. destruct (IH Hok Hcon fuel ltac:(cbn; lia)) as [Hl Hw2]. set (rest := expression_tokens (x :: e)) in *.
    destruct (printed_node inline (cl_node c) (connector_text (cl_connector c) :: rest) Hn) as (Hp & Hw & Hne). split; [|apply Forall_app; split; [done|]; constructor; [by destruct (cl_connector c)|done]].
    cbn [clauses_loop]. destruct (node_tokens inline (cl_node c) ++ _) eqn:E; [by destruct (node_tokens inline (cl_node c))|]. rewrite Hp, Hl.
    assert (Hrest : rest <> []) by (unfold rest; destruct x as [i2 c2]; cbn [expression_tokens]; cbn [forallb fst snd] in Hok; apply andb_true_iff in Hok as [Hn2 _];
      destruct (printed_node i2 (cl_node c2) [] Hn2) as (_ & _ & Hne2); by destruct (node_tokens i2 (cl_node c2))).
    destruct c as [n logic]. cbn [cl_node cl_connector]. destruct logic; cbn [connector_text]; destruct rest; done.
Qed.

(** ** The table as the list of rules in the order they were added *)

Fixpoint upper_insert (r : RoutingRule) (l : list RoutingRule) : list RoutingRule :=
  match l with
  | [] => [r]
  | y :: l' => if rr_priority r <? rr_priority y then r :: l else y :: upper_insert r l'
  end.

Lemma upper_split r l : nondecreasing rr_priority l -> exists pre post, l = pre ++ post /\
  Forall (fun x => negb (rr_priority r <? rr_priority x) = true) pre /\ Forall (fun x => negb (rr_priority r <? rr_priority x) = false) post /\ upper_insert r l = pre ++ r :: post.
Proof.
  induction l as [|y l IH]; intros Hl; [exists [], []; repeat split; constructor|]. inversion Hl as [|? ? Hl' Hy]; subst. cbn [upper_insert]. destruct (Z.ltb_spec (rr_priority r) (rr_priority y)) as [Hlt|Hge].
  - exists [], (y :: l). split_and!; try done. apply Forall_cons. split; [by apply negb_false_iff, Z.ltb_lt|]. eapply Forall_impl; [exact Hy|]. cbn. intros x Hx. apply negb_false_iff, Z.ltb_lt. lia.
  - destruct (IH Hl') as (pre & post & -> & H1 & H2 & H3). exists (y :: pre), post. split_and!; try done; [|cbn; by rewrite H3]. constructor; [apply negb_true_iff, Z.ltb_ge; lia|done].
Qed.

Lemma AddRule_insert r t : nondecreasing rr_priority (rules_ t) -> rules_ (AddRule r t) = upper_insert r (rules_ t).
Proof.
  intros Hs. destruct (upper_split r (rules_ t) Hs) as (pre & post & He & H1 & H2 & H3). unfold AddRule. cbn [rules_]. rewrite H3, He, lower_bound_app by done. by rewrite take_app_length, drop_app_length.
Qed.

Ltac compare_priorities :=
  repeat (cbn [stable_insert upper_insert];
    match goal with
    | |- context [if ?a <? ?b then _ else _] => destruct (Z.ltb_spec a b)
    | |- context [if ?a <=? ?b then _ else _] => destruct (Z.leb_spec a b)
    end; try lia).

Lemma insert_commute x r l : stable_insert rr_priority x (upper_insert r l) = upper_insert r (stable_insert rr_priority x l).
Proof.
  induction l as [|y l IH]; compare_priorities; try done. by rewrite IH.
Qed.

Lemma sort_snoc l r : stable_sort rr_priority (l ++ [r]) = upper_insert r (stable_sort rr_priority l).
Proof. induction l as [|x l IH]; cbn; [done|]. by rewrite IH, insert_commute. Qed.

Lemma insert_filter (p : RoutingRule -> bool) x l : nondecreasing rr_priority l ->
  List.filter p (stable_insert rr_priority x l) = if p x then stable_insert rr_priority x (List.filter p l) else List.filter p l.
Proof.
  induction l as [|y l IH]; intros Hl; cbn [stable_insert List.filter]; [by destruct (p x)|]. inversion Hl as [|? ? Hl' Hy]; subst.
  destruct (Z.leb_spec (rr_priority x) (rr_priority y)) as [Hle|Hgt]; cbn [List.filter].
  - destruct (p x), (p y); try done; cbn [stable_insert]; destruct (Z.leb_spec (rr_priority x) (rr_priority y)); try lia; try done.
    destruct (List.filter p l) as [|z l'] eqn:E; [done|]. cbn [stable_insert]. assert (Hz : In z (List.filter p l)) by (rewrite E; by left). apply List.filter_In in Hz as [Hz _].
    rewrite Forall_forall in Hy. apply list_elem_of_In, Hy in Hz. cbn in Hz. destruct (Z.leb_spec (rr_priority x) (rr_priority z)); [done|lia].
  - rewrite IH by done. destruct (p y), (p x); try done. cbn [stable_insert]. destruct (Z.leb_spec (rr_priority x) (rr_priority y)); [lia|done].
Qed.

Lemma sort_filter (p : RoutingRule -> bool) l : stable_sort rr_priority (List.filter p l) = List.filter p (stable_sort rr_priority l).
Proof. induction l as [|x l IH]; cbn [List.filter stable_sort]; [done|]. rewrite insert_filter by apply stable_sort_sorted. destruct (p x); cbn [stable_sort]; by rewrite IH. Qed.

(** The first match of a stable sort by priority. *)
Definition wins (p : RoutingRule -> bool) (l : list RoutingRule) (r : RoutingRule) : Prop :=
  exists pre post, l = pre ++ r :: post /\ p r = true /\ Forall (fun x => p x = true -> rr_priority r < rr_priority x) pre /\ Forall (fun x => p x = true -> rr_priority r <= rr_priority x) post.

Lemma find_insert (p : RoutingRule -> bool) x l : nondecreasing rr_priority l ->
  List.find p (stable_insert rr_priority x l) = if p x then match List.find p l with Some y => if rr_priority x <=? rr_priority y then Some x else Some y | None => Some x end else List.find p l.
Proof.
  induction l as [|y l IH]; intros Hl; cbn [stable_insert List.find]; [by destruct (p x)|]. inversion Hl as [|? ? Hl' Hy]; subst.
  destruct (Z.leb_spec (rr_priority x) (rr_priority y)) as [Hle|Hgt]; cbn [List.find].
  - destruct (p x); [|done]. destruct (p y); [by destruct (Z.leb_spec (rr_priority x) (rr_priority y)); [|lia]|]. destruct (List.find p l) as [z|] eqn:E; [|done]. apply List.find_some in E as [Hz _].
    rewrite Forall_forall in Hy. apply list_elem_of_In, Hy in Hz. cbn in Hz. destruct (Z.leb_spec (rr_priority x) (rr_priority z)); [done|lia].
  - rewrite IH by done. destruct (p y); [|done]. destruct (p x); [|done]. destruct (Z.leb_spec (rr_priority x) (rr_priority y)); [lia|done].
Qed.

Lemma find_sorted p l : match List.find p (stable_sort rr_priority l) with Some r => wins p l r | None => Forall (fun x => p x = false) l end.
Proof.
  induction l as [|x l IH]; cbn [stable_sort]; [constructor|]. rewrite find_insert by apply stable_sort_sorted. destruct (p x) eqn:Ex.
  - destruct (List.find p _) as [y|].
    + destruct IH as (pre & post & -> & Hy & H1 & H2). destruct (Z.leb_spec (rr_priority x) (rr_priority y)).
      * exists [], (pre ++ y :: post). split_and!; try done. apply Forall_app. split; [eapply Forall_impl; [exact H1|]; cbn; intros z Hz Hp; specialize (Hz Hp); lia|].
        constructor; [lia|]. eapply Forall_impl; [exact H2|]. cbn. intros z Hz Hp. specialize (Hz Hp). lia.
      * exists (x :: pre), post. split_and!; try done. by constructor.
    + exists [], l. split_and!; try done. eapply Forall_impl; [exact IH|]. cbn. intros z Hz Hp. by rewrite Hz in Hp.
  - destruct (List.find p _) as [y|]; [|by constructor]. destruct IH as (pre & post & -> & Hy & H1 & H2). exists (x :: pre), post. split_and!; try done. constructor; [by rewrite Ex|done].
Qed.

(** Operations on a table, and on the rules in the order they were added. *)
Inductive TableOp :=
  | TAdd (r : RoutingRule)
  | TRemove (name : list Z)
  | TClear
  | TAction (a : RoutingAction.t)
  | TTarget (session_id : Z)
  | TRoute (message : RawPassThroughView)
  | TCopy.

Section Table.
Context {RL : RegexLib} {DL : DoubleLib}.

Definition table_exec (t : RoutingTable) (op : TableOp) : RoutingTable :=
  match op with
  | TAdd r => AddRule r t
  | TRemove name => RemoveRule name t
  | TClear => Clear t
  | TAction a => SetDefaultAction a t
  | TTarget g => SetDefaultTarget g t
  | TRoute message => snd (Route message t)
  | TCopy => RoutingTable_copy t
  end.

Record AbstractTable := MkAbstract { at_rules : list RoutingRule; at_action : RoutingAction.t; at_target : Z }.

Definition abstract_exec (a : AbstractTable) (op : TableOp) : AbstractTable :=
  match op with
  | TAdd r => MkAbstract (at_rules a ++ [r]) (at_action a) (at_target a)
  | TRemove name => MkAbstract (List.filter (fun r => negb (bytes_eqb (rr_name r) name)) (at_rules a)) (at_action a) (at_target a)
  | TClear => MkAbstract [] (at_action a) (at_target a)
  | TAction x => MkAbstract (at_rules a) x (at_target a)
  | TTarget g => MkAbstract (at_rules a) (at_action a) g
  | TRoute _ | TCopy => a
  end.

Definition table_refines (t : RoutingTable) (a : AbstractTable) : Prop :=
  rules_ t = stable_sort rr_priority (at_rules a) /\ default_action_ t = at_action a /\ default_target_ t = at_target a.

Lemma select_frame rule fallback message t : let t' := snd (SelectLoadBalancedTarget rule fallback message t) in
  rules_ t' = rules_ t /\ default_action_ t' = default_action_ t /\ default_target_ t' = default_target_ t.
Proof. unfold SelectLoadBalancedTarget. destruct (lb_mode (rr_load_balancer rule)), (lb_target_sessions (rr_load_balancer rule)); try done; by destruct (select_in_state rule message fallback _). Qed.

Lemma route_frame rules message t : let t' := snd (route_loop rules message t) in
  rules_ t' = rules_ t /\ default_action_ t' = default_action_ t /\ default_target_ t' = default_target_ t.
Proof.
  induction rules as [|r rules IH]; cbn; [done|]. destruct (match_rule r message) as [g|]; [|done]. destruct (rr_action r); try done. pose proof (select_frame r g message t) as Hf. by destruct (SelectLoadBalancedTarget r g message t).
Qed.

Lemma table_step t a op : table_refines t a -> table_refines (table_exec t op) (abstract_exec a op).
Proof.
  intros (H1 & H2 & H3). destruct op; cbn [table_exec abstract_exec]; try (by split_and!).
  - split_and!; try done. rewrite AddRule_insert by (rewrite H1; apply stable_sort_sorted). cbn [at_rules]. by rewrite H1, sort_snoc.
  - split_and!; try done. unfold RemoveRule. cbn [rules_ at_rules]. by rewrite sort_filter, H1.
  - unfold Route. destruct (route_frame (rules_ t) message t) as (F1 & F2 & F3). unfold table_refines. by rewrite F1, F2, F3.
Qed.

Lemma table_run ops : forall t a, table_refines t a -> table_refines (fold_left table_exec ops t) (fold_left abstract_exec ops a).
Proof. induction ops as [|op ops IH]; intros t a Ht; cbn; [done|]. apply IH. by apply table_step. Qed.

Definition rule_matches (message : RawPassThroughView) (r : RoutingRule) : bool := match match_rule r message with Some _ => true | None => false end.

(** The outcome of a rule that was found. *)
Lemma route_found rules message t :
  match List.find (rule_matches message) rules with
  | Some r => res_rule (fst (route_loop rules message t)) = Some r /\ res_action (fst (route_loop rules message t)) = rr_action r /\
              res_target_session_id (fst (route_loop rules message t)) =
                match rr_action r with
                | RoutingAction.kForward => fst (SelectLoadBalancedTarget r (default 0 (match_rule r message)) message t)
                | _ => 0
                end
  | None => route_loop rules message t = (MkRoute (default_action_ t) (match default_action_ t with RoutingAction.kForward => default_target_ t | _ => 0 end) None, t)
  end.
Proof.
  induction rules as [|r rules IH]; cbn [List.find route_loop]; [done|]. unfold rule_matches at 1. destruct (match_rule r message) as [g|] eqn:E; [|exact IH].
  rewrite E. change (default 0 (Some g)) with g. destruct (rr_action r) eqn:Ea; try done. by destruct (SelectLoadBalancedTarget r g message t).
Qed.
End Table.

(** ** Lemmas: the load balancer *)

Section Balancer.
Context {RL : RegexLib} {DL : DoubleLib}.

Definition pool (r : RoutingRule) : list Z := lb_target_sessions (rr_load_balancer r).
Definition balances (r : RoutingRule) : Prop := rr_action r = RoutingAction.kForward /\ lb_mode (rr_load_balancer r) <> LoadBalancingMode.kNone /\ pool r <> [].
Definition sticky (r : RoutingRule) : Prop := rr_action r = RoutingAction.kForward /\ lb_mode (rr_load_balancer r) = LoadBalancingMode.kSticky /\ pool r <> [].

Definition sticky_key (r : RoutingRule) (message : RawPassThroughView) : option (list Z) :=
  match ExtractMessageTagValue message (lb_sticky_key_tag (rr_load_balancer r)) with None | Some [] => None | Some key => Some key end.

(** The key of a rule is bound to a session. *)
Definition sticks (t : RoutingTable) (name key : list Z) (session_id : Z) : Prop :=
  exists s, load_balancer_states_ t !! name = Some s /\ sticky_map s !! key = Some session_id.

Lemma round_robin_in targets s : targets <> [] -> fst (round_robin_target targets s) ∈ targets /\ sticky_map (snd (round_robin_target targets s)) = sticky_map s.
Proof.
  intros Hne. unfold round_robin_target. destruct targets as [|g targets]; [done|]. cbn [fst snd]. split; [|done]. apply list_elem_of_In, nth_In.
  pose proof (Z.mod_pos_bound (round_robin_index s) (Z.of_nat (length (g :: targets))) ltac:(cbn; lia)). lia.
Qed.

(** What a selection does to the bindings of its rule. *)
Lemma select_spec r message fallback s : pool r <> [] -> lb_mode (rr_load_balancer r) <> LoadBalancingMode.kNone ->
  let '(target, s') := select_in_state r message fallback s in
  (target ∈ pool r \/ exists key, sticky_map s !! key = Some target) /\
  (forall key g, sticky_map s !! key = Some g -> sticky_map s' !! key = Some g) /\
  (forall key g, sticky_map s' !! key = Some g -> sticky_map s !! key = Some g \/ g ∈ pool r) /\
  (forall key, lb_mode (rr_load_balancer r) = LoadBalancingMode.kSticky -> sticky_key r message = Some key -> sticky_map s' !! key = Some target).
Proof.
  intros Hne Hm. unfold select_in_state, sticky_key. fold (pool r). destruct (round_robin_in (pool r) s Hne) as [Hin Hmap]. destruct (round_robin_target (pool r) s) as [g s1] eqn:Er. cbn [fst snd] in *.
  destruct (lb_mode (rr_load_balancer r)); [done| |].
  - rewrite Hmap. split_and!; eauto. by intros.
  - destruct (ExtractMessageTagValue message _) as [[|b key]|]; cbn iota; try (rewrite Hmap; split_and!; eauto; by intros).
    destruct (sticky_map s !! (b :: key)) as [g0|] eqn:Ek.
    + split_and!; eauto. by intros ? _ [= <-].
    + cbn [sticky_map round_robin_index]. rewrite Hmap. split_and!; eauto.
      * intros k g' Hk. rewrite lookup_insert_ne; [done|]. intros <-. by rewrite Ek in Hk.
      * intros k g' Hk. destruct (decide (k = b :: key)) as [->|Hne']; [rewrite lookup_insert_eq in Hk; injection Hk as <-; by right|]. rewrite lookup_insert_ne in Hk by done. by left.
      * intros k _ [= <-]. apply lookup_insert_eq.
Qed.

(** The selection of a table in terms of the state under the name. *)
Lemma select_balances r fallback message t : pool r <> [] -> lb_mode (rr_load_balancer r) <> LoadBalancingMode.kNone ->
  let s := default fresh_balancer (load_balancer_states_ t !! rr_name r) in
  SelectLoadBalancedTarget r fallback message t =
    (fst (select_in_state r message fallback s), MkTable (rules_ t) (default_action_ t) (default_target_ t) (<[rr_name r := snd (select_in_state r message fallback s)]> (load_balancer_states_ t))).
Proof.
  intros Hne Hm s. unfold SelectLoadBalancedTarget. fold s. fold (pool r). destruct (lb_mode (rr_load_balancer r)); [done| |]; (destruct (pool r); [done|]); by destruct (select_in_state r message fallback s).
Qed.

(** Bindings outlive everything but their removal. *)
Lemma sticks_select r fallback message t name key g : sticks t name key g -> sticks (snd (SelectLoadBalancedTarget r fallback message t)) name key g.
Proof.
  intros (s & Hs & Hk). destruct (decide (pool r = [] \/ lb_mode (rr_load_balancer r) = LoadBalancingMode.kNone)) as [Hnone|Hbal].
  { assert (He : SelectLoadBalancedTarget r fallback message t = (fallback, t)); [|rewrite He; by exists s]. unfold SelectLoadBalancedTarget. fold (pool r).
    destruct Hnone as [->| ->]; [by destruct (lb_mode _)|done]. }
  rewrite select_balances by tauto. cbn [snd]. unfold sticks. cbn [load_balancer_states_]. destruct (decide (name = rr_name r)) as [->|Hn]; [|exists s; by rewrite lookup_insert_ne].
  rewrite lookup_insert_eq. eexists. split; [done|]. rewrite Hs. cbn [default from_option id].
  pose proof (select_spec r message fallback s ltac:(tauto) ltac:(tauto)) as Hsel. destruct (select_in_state r message fallback s). destruct Hsel as (_ & Hkeep & _). by apply Hkeep.
Qed.

Lemma sticks_route rules message t name key g : sticks t name key g -> sticks (snd (route_loop rules message t)) name key g.
Proof.
  intros Hs. induction rules as [|r rules IH]; cbn [route_loop]; [done|]. destruct (match_rule r message) as [target|]; [|done]. destruct (rr_action r); try done.
  pose proof (sticks_select r target message t name key g Hs) as Hx. by destruct (SelectLoadBalancedTarget r target message t).
Qed.

(** Operations that keep the load balancer of a rule. *)
Definition keeps_balancer (name : list Z) (op : TableOp) : Prop :=
  match op with TRemove n => n <> name | TClear | TCopy => False | _ => True end.

Lemma sticks_exec t op name key g : keeps_balancer name op -> sticks t name key g -> sticks (table_exec t op) name key g.
Proof.
  intros Hop Hs. destruct op; try done; cbn [table_exec].
  - destruct Hs as (s & Hs & Hk). exists s. cbn. by rewrite lookup_delete_ne.
  - by apply sticks_route.
Qed.

Lemma sticks_run ops : forall t name key g, Forall (keeps_balancer name) ops -> sticks t name key g -> sticks (fold_left table_exec ops t) name key g.
Proof. induction ops as [|op ops IH]; intros t name key g Hops Hs; cbn; [done|]. apply Forall_cons in Hops as [Hop Hops]. apply IH; [done|]. by apply sticks_exec. Qed.

(** A route by a sticky rule binds the key, to its target. *)
Lemma route_binds message t r key : res_rule (fst (Route message t)) = Some r -> sticky r -> sticky_key r message = Some key ->
  sticks (snd (Route message t)) (rr_name r) key (res_target_session_id (fst (Route message t))) /\
  forall g, sticks t (rr_name r) key g -> res_target_session_id (fst (Route message t)) = g.
Proof.
  unfold Route. intros Hr (Ha & Hm & Hp) Hk. induction (rules_ t) as [|x rules IH]; cbn [route_loop] in *; [done|]. destruct (match_rule x message) as [target|]; [|by apply IH].
  destruct (rr_action x) eqn:Ex; [|injection Hr as <-; by rewrite Ex in Ha..].
  destruct (SelectLoadBalancedTarget x target message t) as [g t1] eqn:Es. cbn [fst snd res_rule res_target_session_id] in *. injection Hr as <-.
  rewrite select_balances in Es by (done || (by rewrite Hm)). set (s := default fresh_balancer (load_balancer_states_ t !! rr_name x)) in *. injection Es as <- <-.
  pose proof (select_spec x message target s Hp ltac:(by rewrite Hm)) as Hsel. destruct (select_in_state x message target s) as [g s'] eqn:Eg. destruct Hsel as (_ & Hkeep & _ & Hbind). cbn [fst snd]. split.
  - exists s'. cbn. rewrite lookup_insert_eq. split; [done|]. by apply Hbind.
  - intros g' (s0 & Hs0 & Hk0). unfold s in *. rewrite Hs0 in Hkeep. apply Hkeep in Hk0. specialize (Hbind key Hm Hk). rewrite Hbind in Hk0. by injection Hk0 as <-.
Qed.
End Balancer.

(** ** Lemmas: targets stay in the pool *)

Section Pools.
Context {RL : RegexLib} {DL : DoubleLib}.

Definition pools_ok (t : RoutingTable) : Prop :=
  NoDup (map rr_name (rules_ t)) /\ (forall n s, load_balancer_states_ t !! n = Some s -> n ∈ map rr_name (rules_ t)) /\
  forall r s key g, r ∈ rules_ t -> load_balancer_states_ t !! rr_name r = Some s -> sticky_map s !! key = Some g -> g ∈ pool r.

Lemma same_name (l : list RoutingRule) r r' : NoDup (map rr_name l) -> r ∈ l -> r' ∈ l -> rr_name r = rr_name r' -> r = r'.
Proof.
  intros Hnd Hr Hr' He. apply list_elem_of_lookup in Hr as [i Hi]. apply list_elem_of_lookup in Hr' as [j Hj].
  assert (i = j) as ->; [|rewrite Hi in Hj; by injection Hj]. apply (NoDup_lookup (map rr_name l) i j (rr_name r) Hnd); [by rewrite list_lookup_fmap, Hi|rewrite list_lookup_fmap, Hj; cbn; by rewrite He].
Qed.

Lemma pools_select r fallback message t : pools_ok t -> r ∈ rules_ t -> pools_ok (snd (SelectLoadBalancedTarget r fallback message t)) /\
  (lb_mode (rr_load_balancer r) <> LoadBalancingMode.kNone -> pool r <> [] -> fst (SelectLoadBalancedTarget r fallback message t) ∈ pool r).
Proof.
  intros (Hnd & Hdom & Hpool) Hr. destruct (decide (pool r = [] \/ lb_mode (rr_load_balancer r) = LoadBalancingMode.kNone)) as [Hnone|Hbal].
  { assert (He : SelectLoadBalancedTarget r fallback message t = (fallback, t)); [|rewrite He; split; [done|by destruct Hnone]]. unfold SelectLoadBalancedTarget. fold (pool r).
    destruct Hnone as [->| ->]; [by destruct (lb_mode _)|done]. }
  rewrite select_balances by tauto. cbn [fst snd]. set (s := default fresh_balancer (load_balancer_states_ t !! rr_name r)).
  assert (Hs : forall key g, sticky_map s !! key = Some g -> g ∈ pool r).
  { unfold s. destruct (load_balancer_states_ t !! rr_name r) as [s0|] eqn:E; cbn; [by intros key g; apply (Hpool r s0)|]. intros key g Hk. by rewrite lookup_empty in Hk. }
  pose proof (select_spec r message fallback s ltac:(tauto) ltac:(tauto)) as Hsel. destruct (select_in_state r message fallback s) as [g s']. destruct Hsel as (Hg & _ & Hnew & _). cbn [fst snd]. split.
  - split_and!; cbn [rules_ load_balancer_states_]; [done| |].
    + intros n s0 Hn. destruct (decide (n = rr_name r)) as [->|Hne]; [apply list_elem_of_In, in_map; by apply list_elem_of_In|]. rewrite lookup_insert_ne in Hn by done. by eapply Hdom.
    + intros r' s0 key g' Hr' Hs0 Hk. destruct (decide (rr_name r' = rr_name r)) as [He|Hne].
      * assert (r' = r) as -> by (by eapply same_name). rewrite lookup_insert_eq in Hs0. injection Hs0 as <-. destruct (Hnew key g' Hk) as [Hx|Hx]; [by eapply Hs|done].
      * rewrite lookup_insert_ne in Hs0 by done. by eapply Hpool.
  - intros _ _. destruct Hg as [Hg|[key Hk]]; [done|by eapply Hs].
Qed.

Lemma pools_route rules message t : pools_ok t -> (forall r, r ∈ rules -> r ∈ rules_ t) -> pools_ok (snd (route_loop rules message t)) /\
  forall r, res_rule (fst (route_loop rules message t)) = Some r -> balances r -> res_target_session_id (fst (route_loop rules message t)) ∈ pool r.
Proof.
  intros Ht. induction rules as [|x rules IH]; intros Hsub; cbn [route_loop]; [done|]. destruct (match_rule x message) as [target|]; [|apply IH; intros r Hr; apply Hsub; by right].
  destruct (rr_action x) eqn:Ex; [|split; [done|]; intros r [= <-] (Ha & _); by rewrite Ex in Ha..].
  destruct (pools_select x target message t Ht (Hsub x ltac:(left))) as [H1 H2]. destruct (SelectLoadBalancedTarget x target message t) as [g t1]. split; [done|]. intros r [= <-] (_ & Hm & Hp). cbn. by apply H2.
Qed.

(** Rules get names of their own. *)
Definition distinct_name (t : RoutingTable) (op : TableOp) : Prop := match op with TAdd r => rr_name r ∉ map rr_name (rules_ t) | _ => True end.

Fixpoint distinct_run (t : RoutingTable) (ops : list TableOp) : Prop :=
  match ops with [] => True | op :: ops => distinct_name t op /\ distinct_run (table_exec t op) ops end.

Lemma AddRule_perm r t : rules_ (AddRule r t) ≡ₚ r :: rules_ t.
Proof. unfold AddRule. cbn [rules_]. set (n := lower_bound _ _). rewrite <- (take_drop n (rules_ t)) at 3. symmetry. apply Permutation_middle. Qed.

Lemma filter_names p (l : list RoutingRule) : NoDup (map rr_name l) -> NoDup (map rr_name (List.filter p l)).
Proof.
  induction l as [|x l IH]; cbn; [done|]. intros [Hx Hl]%NoDup_cons. destruct (p x); cbn; [|by apply IH]. apply NoDup_cons. split; [|by apply IH].
  intros Hin. apply Hx. apply list_elem_of_In, in_map_iff in Hin as (y & Hy & Hin). apply List.filter_In in Hin as [Hin _]. apply list_elem_of_In, in_map_iff. by exists y.
Qed.

Lemma pools_exec t op : pools_ok t -> distinct_name t op -> pools_ok (table_exec t op).
Proof.
  intros Ht Hop. pose proof Ht as (Hnd & Hdom & Hpool). destruct op; try done; cbn [table_exec].
  - pose proof (AddRule_perm r t) as Hp. assert (Hmap : map rr_name (rules_ (AddRule r t)) ≡ₚ rr_name r :: map rr_name (rules_ t)) by (change (rr_name r :: map rr_name (rules_ t)) with (map rr_name (r :: rules_ t)); by apply Permutation_map).
    split_and!; [rewrite Hmap; by constructor|intros n s Hs; rewrite Hmap; right; by eapply Hdom|]. intros r' s key g Hr' Hs Hk. rewrite Hp in Hr'. apply elem_of_cons in Hr' as [->|Hr']; [|by eapply Hpool].
    exfalso. by apply Hop, (Hdom _ s).
  - assert (Hsub : forall r, r ∈ rules_ (RemoveRule name t) -> r ∈ rules_ t /\ rr_name r <> name).
    { intros r Hr. apply list_elem_of_In, List.filter_In in Hr as [Hr Hn]. split; [by apply list_elem_of_In|]. apply negb_true_iff in Hn. by apply bool_decide_eq_false in Hn. }
    split_and!.
    + by apply filter_names.
    + cbn. intros n s Hs. apply lookup_delete_Some in Hs as [Hne Hs]. specialize (Hdom _ _ Hs). apply list_elem_of_In, in_map_iff in Hdom as (y & Hy & Hin). apply list_elem_of_In, in_map_iff. exists y. split; [done|].
      apply List.filter_In. split; [done|]. apply negb_true_iff, bool_decide_eq_false. congruence.
    + intros r s key g Hr Hs Hk. destruct (Hsub r Hr) as [Hr' Hn]. cbn in Hs. rewrite lookup_delete_ne in Hs by done. by eapply Hpool.
  - split_and!; cbn; [constructor| |]; intros; by rewrite lookup_empty in *.
  - apply pools_route; [done|done].
Qed.

Lemma pools_run ops : forall t, pools_ok t -> distinct_run t ops -> pools_ok (fold_left table_exec ops t).
Proof. induction ops as [|op ops IH]; intros t Ht Hrun; cbn; [done|]. destruct Hrun as [Hop Hrun]. apply IH; [by apply pools_exec|done]. Qed.

Lemma pools_new : pools_ok NewRoutingTable.
Proof. split_and!; cbn; [constructor| |]; intros *; by rewrite lookup_empty. Qed.
End Pools.

(** ** Properties *)

(** C25: routing decides by the rules as they were added.  After any sequence of
    additions, removals, resets, copies and routings, the rule that decides a message
    is the matching one of least priority, the first added among equals; its action
    is the result, with a target only for a forward; and when no rule matches, the
    default applies.  The sorted insertion does not show. *)
Theorem routing_first_match `{RegexLib} `{DoubleLib} ops message :
  let t := fold_left table_exec ops NewRoutingTable in
  let a := fold_left abstract_exec ops (MkAbstract [] RoutingAction.kDrop 0) in
  let result := fst (Route message t) in
  match res_rule result with
  | Some r => wins (rule_matches message) (at_rules a) r /\ res_action result = rr_action r /\
              (rr_action r <> RoutingAction.kForward -> res_target_session_id result = 0) /\
              (rr_action r = RoutingAction.kForward -> lb_mode (rr_load_balancer r) = LoadBalancingMode.kNone -> res_target_session_id result = default 0 (match_rule r message))
  | None => Forall (fun r => rule_matches message r = false) (at_rules a) /\
            result = MkRoute (at_action a) (match at_action a with RoutingAction.kForward => at_target a | _ => 0 end) None
  end.
Proof.
  intros t a result. destruct (table_run ops NewRoutingTable (MkAbstract [] RoutingAction.kDrop 0)) as (H1 & H2 & H3); [done|]. fold t a in H1, H2, H3.
  pose proof (route_found (rules_ t) message t) as Hf. pose proof (find_sorted (rule_matches message) (at_rules a)) as Hs. rewrite <- H1 in Hs. fold (Route message t) in Hf. fold result in Hf.
  destruct (List.find (rule_matches message) (rules_ t)) as [r|].
  - destruct Hf as (F1 & F2 & F3). rewrite F1. split; [done|]. split; [done|]. rewrite F3. split; [by destruct (rr_action r)|]. intros -> Hm. unfold SelectLoadBalancedTarget. by rewrite Hm.
  - unfold result. rewrite Hf. cbn [fst res_rule]. split; [done|]. by rewrite H2, H3.
Qed.

(** load balancing keeps its word.  In a table whose rules have names of their
    own, a forward by a balanced rule goes to a session of the rule's pool.  And a
    sticky key stays: once a message with the key was forwarded by a sticky rule,
    every later message with the key that the rule forwards goes to the same session,
    whatever was routed, added or removed in between, as long as that rule was not
    removed. *)
Theorem sticky_sessions_stay `{RegexLib} `{DoubleLib} before message r key between message2 r2 :
  let t := fold_left table_exec before NewRoutingTable in
  let first := Route message t in
  let second := Route message2 (fold_left table_exec between (snd first)) in
  distinct_run NewRoutingTable before ->
  res_rule (fst first) = Some r -> sticky r -> sticky_key r message = Some key -> Forall (keeps_balancer (rr_name r)) between ->
  res_rule (fst second) = Some r2 -> sticky r2 -> rr_name r2 = rr_name r -> sticky_key r2 message2 = Some key ->
  res_target_session_id (fst first) ∈ pool r /\ res_target_session_id (fst second) = res_target_session_id (fst first).
Proof.
  intros t first second Hrun Hr Hs Hk Hops Hr2 Hs2 Hname Hk2. pose proof (pools_run before NewRoutingTable pools_new Hrun) as Hpools. fold t in Hpools. split.
  - apply (pools_route (rules_ t) message t Hpools (fun r Hr => Hr)); [done|]. destruct Hs as (Ha & Hm & Hp). split; [done|]. split; [by rewrite Hm|done].
  - destruct (route_binds message t r key Hr Hs Hk) as [Hb _]. fold first in Hb. apply (sticks_run between) in Hb; [|done]. rewrite <- Hname in Hb.
    by apply (route_binds message2 _ r2 key Hr2 Hs2 Hk2).
Qed.

(** C26: an expression means what the documentation says, AND before OR: it holds when
    all comparisons of some run of AND-linked clauses hold.  And the parser reads a
    printable expression from its text: a nonempty list of comparisons, negated or not,
    each in the one-token or in the spaced form, joined by AND and OR, comes back clause
    by clause.  Printable means: tags are between 1 and 2^32 - 1; a value is not empty
    and has no space in it, and HAS has no value; CONTAINS and REGEX are written in the
    spaced form; in the one-token form the value holds no operator that the parser looks
    for before the one of the comparison (equal, not equal, less, greater, in this
    order: 58!=a==b is not read back); regular expressions compile; and the connector of
    the last clause is the default one. *)
Theorem expressions_read_and_evaluate `{RegexLib} `{DoubleLib} e message :
  e <> [] -> printable e = true -> forallb regex_ok (map snd e) = true ->
  ParseRoutingExpression (print_expression e) = Value (map snd e) /\
  EvaluateExpression (map snd e) message = existsb (fun group => forallb (fun n => EvaluateNode n message) group) (or_groups (map snd e) []).
Proof.
  intros Hne Hp Hre. unfold printable in Hp. apply andb_true_iff in Hp as [Hok Hcon]. destruct (parse_printed e Hok Hcon (length (expression_tokens e))) as [Hl Hw]; [|split].
  - clear Hcon Hre Hne. induction e as [|[i c] e IH]; [done|]. cbn [forallb fst snd] in Hok. apply andb_true_iff in Hok as [Hn Hok]. cbn [expression_tokens length]. rewrite length_app.
    destruct (printed_node i (cl_node c) [] Hn) as (_ & _ & Hx). assert (0 < length (node_tokens i (cl_node c)))%nat by (destruct (node_tokens i (cl_node c)); [done|cbn; lia]).
    specialize (IH Hok). destruct e as [|y e]; [cbn; lia|]. cbn [length] in *. lia.
  - unfold ParseRoutingExpression, print_expression, Tokenize. rewrite tokenize_join by done. cbv zeta. rewrite Hl, Hre.
    destruct (expression_tokens e) eqn:E; [|done]. exfalso. destruct e as [|[i c] e]; [done|]. cbn [forallb fst snd] in Hok. apply andb_true_iff in Hok as [Hn _]. destruct (printed_node i (cl_node c) [] Hn) as (_ & _ & Hx).
    cbn [expression_tokens] in E. by destruct (node_tokens i (cl_node c)).
  - destruct (map snd e) as [|c rest] eqn:E; [by destruct e|]. unfold EvaluateExpression.
    pose proof (evaluate_groups message rest c [] false) as Hg. cbn [app] in Hg. unfold all_match at 1 in Hg. cbn [forallb] in Hg. rewrite andb_true_r in Hg. exact Hg.
Qed.

(** transformations act on the fields.  On a body that lists fields, setting
    overwrites the first field with the tag or appends one, removing deletes it,
    adding only fills a gap, and copying takes the value from the body or else from
    the message; all others keep their bytes and their order, so the body remains a
    list of fields; the frame that is forwarded then carries exactly that body under
    the header of the forwarding options. *)
Theorem transforms_act_on_fields message transforms fs o :
  rv_valid message = true -> rv_raw_body message = render fs kFixSoh -> Forall field_clean fs -> Forall transform_clean transforms ->
  (forall tag v, ExtractMessageTagValue message tag = Some v -> kFixSoh ∉ v) ->
  let fs' := fold_left (fun fs ft => transform_fields (ExtractMessageTagValue message) ft fs) transforms fs in
  ApplyTransform message transforms = Value (render fs' kFixSoh) /\
  let sent := with_raw_body (render fs' kFixSoh) message in
  (in_u32 (Z.of_nat (length (forward_content sent o))) -> fits_placeholder (forward_content sent o) = true ->
   EncodeForwarded sent o = Value (make_frame (if text_empty (fo_begin_string o) then rv_begin_string message else fo_begin_string o)
     (render (forward_fields message o) (effective_delimiter (fo_delimiter o)) ++ render fs' kFixSoh) (effective_delimiter (fo_delimiter o)))).
Proof.
  intros Hv Hbody Hfs Hts Hm fs'. split.
  - unfold ApplyTransform. rewrite Hv, Hbody. cbn [negb]. unfold fs'. clear fs' Hbody. revert fs Hfs. induction Hts as [|ft transforms Hft _ IH]; intros fs Hfs; cbn [apply_transforms fold_left]; [done|].
    destruct (transform_step message ft fs Hfs Hft Hm) as [-> Hfs']. by apply IH.
  - intros sent Hlen Hfit. rewrite EncodeForwarded_frame by done. by rewrite Hfit.
Qed.

(** ** Witnesses *)

#[local] Instance demo_regex : RegexLib := {| regex := list Z; regex_compile p := Some p; regex_match text p := bytes_eqb text p |}.
#[local] Instance demo_double : DoubleLib := {| double := Z; double_from_chars := from_chars_u32; double_lt := Z.ltb |}.

Definition demo_inbound (sender : string) : RawPassThroughView :=
  MkRaw (bytes "FIX.4.4") (bytes "D") 2 (bytes sender) [] (bytes "B") [] [] [] [] [] (bytes "20240102-03:04:05") [] false false
    (render [(11, bytes "id"); (38, bytes "100"); (58, bytes "t")] kFixSoh) 0 [] true.

Definition demo_balanced (name : string) (targets : list Z) (priority : Z) : RoutingRule :=
  MkRule (bytes name) RoutingCriterion.kAll [] None [] RoutingAction.kForward 0 (MkBalancer LoadBalancingMode.kSticky targets 49) [] priority.

Lemma sticky_sessions_stay_witness :
  let r := demo_balanced "orders" [7; 8] 10 in
  let t := fold_left table_exec [TAdd (demo_balanced "rest" [9] 100); TAdd r; TRoute (demo_inbound "X")] NewRoutingTable in
  let first := Route (demo_inbound "A") t in
  let second := Route (demo_inbound "A") (fold_left table_exec [TRoute (demo_inbound "C"); TRemove (bytes "rest")] (snd first)) in
  res_target_session_id (fst first) = 8 /\ res_target_session_id (fst second) = 8.
Proof.
  destruct (sticky_sessions_stay [TAdd (demo_balanced "rest" [9] 100); TAdd (demo_balanced "orders" [7; 8] 10); TRoute (demo_inbound "X")] (demo_inbound "A") (demo_balanced "orders" [7; 8] 10) (bytes "A")
    [TRoute (demo_inbound "C"); TRemove (bytes "rest")] (demo_inbound "A") (demo_balanced "orders" [7; 8] 10)) as [_ Hsame]; try (vm_compute; reflexivity); try (by split_and!).
  - split_and!; try done; vm_compute; set_solver.
  - repeat constructor. vm_compute. congruence.
Defined.

Definition demo_expression : list (bool * Clause) :=
  [(true, MkClause (MkExprNode 55 ExprOp.kEqual (bytes "AAPL") false) ExprLogic.kAnd); (false, MkClause (MkExprNode 49 ExprOp.kNotEqual (bytes "BUY") true) ExprLogic.kOr);
   (true, MkClause (MkExprNode 1128 ExprOp.kHasTag [] false) ExprLogic.kAnd)].

Lemma expressions_read_and_evaluate_witness :
  print_expression demo_expression = bytes "55==AAPL AND NOT 49 != BUY OR HAS(1128)" /\
  ParseRoutingExpression (bytes "55==AAPL AND NOT 49 != BUY OR HAS(1128)") = Value (map snd demo_expression).
Proof.
  split; [vm_compute; reflexivity|]. exact (proj1 (expressions_read_and_evaluate demo_expression (demo_inbound "A") ltac:(done) ltac:(vm_compute; reflexivity) ltac:(vm_compute; reflexivity))).
Defined.

Definition demo_transforms : MessageTransform :=
  [MkTransform Action.kSet 38 (bytes "50") 0; MkTransform Action.kRemove 11 [] 0; MkTransform Action.kAdd 1 (bytes "acct") 0; MkTransform Action.kCopy 109 [] 49].

Definition soh_free (l : list Z) : bool := forallb (fun b => negb (b =? kFixSoh)) l.
Definition cleanb (f : Z * list Z) : bool := (0 <? f.1) && (f.1 <=? UINT32_MAX) && soh_free f.2.

Lemma soh_free_ok l : soh_free l = true -> kFixSoh ∉ l.
Proof. unfold soh_free. intros Hl Hin. rewrite forallb_forall in Hl. apply list_elem_of_In, Hl in Hin. by rewrite Z.eqb_refl in Hin. Qed.

Lemma cleanb_ok fs : forallb cleanb fs = true -> Forall field_clean fs.
Proof.
  rewrite forallb_forall. intros Hf. apply Forall_forall. intros f Hin. apply list_elem_of_In, Hf in Hin. unfold cleanb in Hin. rewrite !andb_true_iff in Hin. destruct Hin as [[H1 H2] H3]. split; [lia|by apply soh_free_ok].
Qed.

Definition demo_fields : list (Z * list Z) := [(11, bytes "id"); (38, bytes "100"); (58, bytes "t")].

Lemma demo_values_clean tag v : ExtractMessageTagValue (demo_inbound "A") tag = Some v -> kFixSoh ∉ v.
Proof.
  unfold ExtractMessageTagValue. destruct (KnownHeaderTagValue (demo_inbound "A") tag) as [w|] eqn:E.
  - intros [= <-]. apply soh_free_ok. revert E. unfold KnownHeaderTagValue. repeat match goal with |- context [tag =? ?k] => destruct (tag =? k) end; try (by intros [= <-]); try done.
  - unfold ExtractTagValue. change (rv_raw_body (demo_inbound "A")) with (render demo_fields kFixSoh). rewrite found_value by (by apply cleanb_ok).
    change (FindField (rv_raw_message (demo_inbound "A")) tag) with (@None FieldSpan). unfold field_of, demo_fields. cbn [split_at_tag].
    destruct (11 =? tag); [intros [= <-]; by apply soh_free_ok|]. destruct (38 =? tag); [intros [= <-]; by apply soh_free_ok|]. destruct (58 =? tag); [intros [= <-]; by apply soh_free_ok|done].
Qed.

Lemma transforms_act_on_fields_witness :
  ApplyTransform (demo_inbound "A") demo_transforms = Value (render [(38, bytes "50"); (58, bytes "t"); (1, bytes "acct"); (109, bytes "A")] kFixSoh) /\
  EncodeForwarded (with_raw_body (render [(38, bytes "50"); (58, bytes "t"); (1, bytes "acct"); (109, bytes "A")] kFixSoh) (demo_inbound "A")) demo_forward =
    Value (make_frame (bytes "FIX.4.4") (render (forward_fields (demo_inbound "A") demo_forward) 1 ++ render [(38, bytes "50"); (58, bytes "t"); (1, bytes "acct"); (109, bytes "A")] kFixSoh) 1).
Proof.
  assert (Ht : Forall transform_clean demo_transforms) by (repeat (apply Forall_cons; split; [split; [done|first [exact I|by apply soh_free_ok|done]]|]); by apply Forall_nil).
  destruct (transforms_act_on_fields (demo_inbound "A") demo_transforms demo_fields demo_forward eq_refl eq_refl ltac:(by apply cleanb_ok) Ht demo_values_clean) as [H1 H2].
  cbv zeta in H2. assert (Hfs : fold_left (fun fs ft => transform_fields (ExtractMessageTagValue (demo_inbound "A")) ft fs) demo_transforms demo_fields =
    [(38, bytes "50"); (58, bytes "t"); (1, bytes "acct"); (109, bytes "A")]) by (vm_compute; reflexivity).
  rewrite Hfs in H1, H2. split; [exact H1|]. 
  assert (HA : in_u32 (Z.of_nat (length (forward_content (with_raw_body (render [(38, bytes "50"); (58, bytes "t"); (1, bytes "acct"); (109, bytes "A")] kFixSoh) (demo_inbound "A")) demo_forward)))) by (split; [lia|]; apply Z.leb_le; vm_compute; reflexivity).
  assert (HB : fits_placeholder (forward_content (with_raw_body (render [(38, bytes "50"); (58, bytes "t"); (1, bytes "acct"); (109, bytes "A")] kFixSoh) (demo_inbound "A")) demo_forward) = true) by (vm_compute; reflexivity).
  rewrite (H2 HA HB).
  reflexivity.
Defined.

(** ** Corners *)

(** A message that cannot be forwarded is reported as an error, and then its count is
    lost: a result never counts a failure. *)
Theorem failures_uncounted inbound o t r frame : fst (ForwardMessage inbound o t) = Value (r, frame) -> failed r = 0 /\ forwarded r + dropped r + rejected r = 1.
Proof.
  unfold ForwardMessage. destruct (Route inbound t) as [route t']. cbn [fst]. destruct (res_action route); [|by intros [= <- _]..]. destruct (_ =? 0); [done|].
  destruct (match res_rule route with Some _ => _ | None => _ end) as [v|]; [|done]. destruct (EncodeForwarded v o); [|done]. by intros [= <- _].
Qed.

Lemma failures_uncounted_witness : exists r frame, fst (ForwardMessage (demo_inbound "A") demo_forward (AddRule (demo_balanced "orders" [7] 1) NewRoutingTable)) = Value (r, frame) /\ failed r = 0.
Proof.
  eexists _, _. split; [vm_compute; reflexivity|]. refine (proj1 (failures_uncounted (demo_inbound "A") demo_forward (AddRule (demo_balanced "orders" [7] 1) NewRoutingTable) _ _ _)). vm_compute. reflexivity.
Defined.

(** Two rules of one name share the bindings, so that a message can be forwarded to a
    session that is in no pool of the rule that decides. *)
Theorem shared_name_leaves_pool :
  let t := fold_left table_exec [TAdd (demo_balanced "orders" [7] 10); TRoute (demo_inbound "A"); TAdd (demo_balanced "orders" [8] 5)] NewRoutingTable in
  let result := fst (Route (demo_inbound "A") t) in
  option_map pool (res_rule result) = Some [8] /\ res_target_session_id result = 7.
Proof. vm_compute. split; reflexivity. Qed.

(** Removing a tag removes its first occurrence only. *)
Theorem removal_keeps_repeats : RemoveField (render [(448, bytes "a"); (447, bytes "D"); (448, bytes "b")] kFixSoh) 448 = render [(447, bytes "D"); (448, bytes "b")] kFixSoh.
Proof. vm_compute. reflexivity. Qed.

(** Where the counter wraps, a session takes two messages in a row unless the size of
    the pool divides 2^32. *)
Theorem rotation_repeats_at_wrap :
  let s := MkBalancerState UINT32_MAX ∅ in
  fst (round_robin_target [7; 8; 9] s) = 7 /\ fst (round_robin_target [7; 8; 9] (snd (round_robin_target [7; 8; 9] s))) = 7.
Proof. vm_compute. split; reflexivity. Qed.
