(* ===== verification/Ha.v ===== *)
(** * High availability

    [runtime/ha.cpp], [runtime/ha.h] and the part of [runtime/live_acceptor.cpp] and
    [runtime/live_initiator.cpp] that restores a session from a snapshot: the roles of
    a pair of engines, the health of the peer, failover, and the replication of
    sequence numbers.  Each call of the controller is one step; the clock is an
    argument. *)
From S2P Require Import Prelude Base TransportProfile SessionCore.
Open Scope Z_scope.

Module HaRole.
Inductive t := kSolo | kPrimary | kStandby.
End HaRole.

Module HaPeerState.
Inductive t := kUnknown | kAlive | kSuspect | kDead.
End HaPeerState.

#[export] Instance HaRole_eq_dec : EqDecision HaRole.t.
Proof. solve_decision. Defined.
#[export] Instance HaPeerState_eq_dec : EqDecision HaPeerState.t.
Proof. solve_decision. Defined.

Record SessionSequenceState := MkSequence { sq_session_id : Z; sq_next_inbound_seq : Z; sq_next_outbound_seq : Z; sq_last_activity_ns : Z }.

Record HaStateSnapshot := MkHaSnapshot { hs_timestamp_ns : Z; hs_generation : Z; hs_sessions : list SessionSequenceState }.

(** Intervals in milliseconds; whether a role callback is set.  The replicator and the
    receiver are not called by the controller. *)
Record HaConfig := MkHaConfig {
  hc_initial_role : HaRole.t;
  hc_heartbeat_interval : Z;
  hc_suspect_threshold : Z;
  hc_dead_threshold : Z;
  hc_replication_interval : Z;
  hc_auto_failover : bool;
  hc_on_role_change : bool;
}.

Definition default_ha_config : HaConfig := MkHaConfig HaRole.kSolo 1000 3 5 500 false false.

(** [ha_calls]: the calls of the role callback, in order. *)
Record HaController := MkHa {
  ha_config : HaConfig;
  ha_role : HaRole.t;
  ha_peer_state : HaPeerState.t;
  ha_generation : Z;
  ha_last_peer_heartbeat_ns : Z;
  ha_running : bool;
  ha_configured : bool;
  ha_last_applied_snapshot : option HaStateSnapshot;
  ha_last_applied_generation : Z;
  ha_calls : list (HaRole.t * HaRole.t);
}.

Definition NewHaController : HaController := MkHa default_ha_config HaRole.kSolo HaPeerState.kUnknown 0 0 false false None 0 [].

Definition with_peer_state (p : HaPeerState.t) (c : HaController) : HaController :=
  MkHa (ha_config c) (ha_role c) p (ha_generation c) (ha_last_peer_heartbeat_ns c) (ha_running c) (ha_configured c) (ha_last_applied_snapshot c) (ha_last_applied_generation c) (ha_calls c).
Definition with_running (b : bool) (c : HaController) : HaController :=
  MkHa (ha_config c) (ha_role c) (ha_peer_state c) (ha_generation c) (ha_last_peer_heartbeat_ns c) b (ha_configured c) (ha_last_applied_snapshot c) (ha_last_applied_generation c) (ha_calls c).

Definition ChangeRole (expected desired : HaRole.t) (c : HaController) : HaController * Status :=
  if negb (bool_decide (ha_role c = expected)) then (c, status.InvalidArgument "HA role transition is not valid from the current role")
  else
    (MkHa (ha_config c) desired (ha_peer_state c) (u64 (ha_generation c + 1)) (ha_last_peer_heartbeat_ns c) (ha_running c) (ha_configured c)
       (ha_last_applied_snapshot c) (ha_last_applied_generation c) (if hc_on_role_change (ha_config c) then ha_calls c ++ [(ha_role c, desired)] else ha_calls c), status.Ok).

Definition Configure (config : HaConfig) (c : HaController) : HaController * Status :=
  if ha_running c then (c, status.Busy "cannot configure HA controller while running")
  else if hc_heartbeat_interval config <=? 0 then (c, status.InvalidArgument "HA heartbeat_interval must be positive")
  else if hc_replication_interval config <=? 0 then (c, status.InvalidArgument "HA replication_interval must be positive")
  else if hc_suspect_threshold config =? 0 then (c, status.InvalidArgument "HA suspect_threshold must be positive")
  else if hc_dead_threshold config <? hc_suspect_threshold config
  then (c, status.InvalidArgument "HA dead_threshold must be greater than or equal to suspect_threshold")
  else (MkHa config (hc_initial_role config) HaPeerState.kUnknown 0 0 (ha_running c) true (ha_last_applied_snapshot c) (ha_last_applied_generation c) (ha_calls c), status.Ok).

Definition Start (c : HaController) : HaController * Status :=
  if negb (ha_configured c) then (c, status.InvalidArgument "HA controller must be configured before Start") else (with_running true c, status.Ok).
Definition Stop (c : HaController) : HaController := with_running false c.

Definition PromoteToPrimary : HaController -> HaController * Status := ChangeRole HaRole.kStandby HaRole.kPrimary.
Definition DemoteToStandby : HaController -> HaController * Status := ChangeRole HaRole.kPrimary HaRole.kStandby.

(** [now_ns] is what [NowNs] returns. *)
Definition RecordPeerHeartbeat (timestamp_ns now_ns : Z) (c : HaController) : HaController :=
  let heartbeat := if timestamp_ns =? 0 then now_ns else timestamp_ns in
  MkHa (ha_config c) (ha_role c) HaPeerState.kAlive (ha_generation c) heartbeat (ha_running c) (ha_configured c) (ha_last_applied_snapshot c) (ha_last_applied_generation c) (ha_calls c).

Definition CheckHealth (current_time_ns now_ns : Z) (c : HaController) : HaController :=
  if negb (ha_running c) then c
  else
    let last_heartbeat := ha_last_peer_heartbeat_ns c in
    if last_heartbeat =? 0 then c
    else
      let now := if current_time_ns =? 0 then now_ns else current_time_ns in
      if now <=? last_heartbeat then with_peer_state HaPeerState.kAlive c
      else
        let heartbeat_ns := u64 (hc_heartbeat_interval (ha_config c) * 1000000) in
        if heartbeat_ns =? 0 then c
        else
          let missed := (now - last_heartbeat) / heartbeat_ns in
          if hc_dead_threshold (ha_config c) <=? missed
          then
            let c := with_peer_state HaPeerState.kDead c in
            if hc_auto_failover (ha_config c) && bool_decide (ha_role c = HaRole.kStandby) then fst (PromoteToPrimary c) else c
          else if hc_suspect_threshold (ha_config c) <=? missed then with_peer_state HaPeerState.kSuspect c
          else with_peer_state HaPeerState.kAlive c.

(** ** Snapshots *)

(** The engine as the controller sees it: the configured sessions once it is booted,
    what the snapshot provider returns, and the snapshot it was given. *)
Record HaEngine := MkEngine { eng_counterparties : option (list Z); eng_session_snapshots : list SessionSnapshot; eng_last_applied : option HaStateSnapshot }.

Definition sequence_of (ss : SessionSnapshot) : SessionSequenceState :=
  MkSequence (snap_session_id ss) (snap_next_in_seq ss) (snap_next_out_seq ss) (Z.max (snap_last_inbound_ns ss) (snap_last_outbound_ns ss)).

(** The loop over the counterparties. *)
Definition add_missing (sessions : list SessionSequenceState) (session_id : Z) : list SessionSequenceState :=
  if existsb (fun s => sq_session_id s =? session_id) sessions then sessions else sessions ++ [MkSequence session_id 1 1 0].

Definition TakeSnapshot (e : HaEngine) (now_ns : Z) (c : HaController) : Result HaStateSnapshot :=
  match eng_counterparties e with
  | None => Error (status.InvalidArgument "engine must be booted before taking HA snapshot")
  | Some counterparties => Value (MkHaSnapshot now_ns (ha_generation c) (fold_left add_missing counterparties (map sequence_of (eng_session_snapshots e))))
  end.

Definition SetLastAppliedHaSnapshot (snapshot : HaStateSnapshot) (e : HaEngine) : HaEngine := MkEngine (eng_counterparties e) (eng_session_snapshots e) (Some snapshot).

Definition ApplySnapshot (snapshot : HaStateSnapshot) (e : HaEngine) (c : HaController) : HaEngine * HaController * Status :=
  match eng_counterparties e with
  | None => (e, c, status.InvalidArgument "engine must be booted before applying HA snapshot")
  | Some _ =>
      (SetLastAppliedHaSnapshot snapshot e,
       MkHa (ha_config c) (ha_role c) (ha_peer_state c) (ha_generation c) (ha_last_peer_heartbeat_ns c) (ha_running c) (ha_configured c) (Some snapshot) (hs_generation snapshot) (ha_calls c),
       status.Ok)
  end.

(** ** Restoring a session *)

Definition FindAppliedSequenceState (e : HaEngine) (session_id : Z) : option SessionSequenceState :=
  match eng_last_applied e with
  | None => None
  | Some snapshot => List.find (fun s => sq_session_id s =? session_id) (hs_sessions snapshot)
  end.

(** [session] is the protocol's session, once there is one. *)
Definition RestoreAppliedSequenceState (e : HaEngine) (session_id : Z) (session : option SessionCore) : option SessionCore * Status :=
  match FindAppliedSequenceState e session_id, session with
  | None, _ | _, None => (session, status.Ok)
  | Some s, Some core => let '(core, st) := RestoreSequenceState (sq_next_inbound_seq s) (sq_next_outbound_seq s) core in (Some core, st)
  end.

(** ** The in-memory transport *)

Record InMemoryHaTransport := MkTransport { latest_ : option HaStateSnapshot }.

Definition replicator (snapshot : HaStateSnapshot) (t : InMemoryHaTransport) : InMemoryHaTransport * Status := (MkTransport (Some snapshot), status.Ok).
Definition receiver (t : InMemoryHaTransport) : Result HaStateSnapshot :=
  match latest_ t with Some s => Value s | None => Error (status.NotFound "no snapshot available") end.

(** ** Runs of a controller *)

Inductive HaOp :=
  | HConfigure (config : HaConfig)
  | HStart
  | HStop
  | HPromote
  | HDemote
  | HHeartbeat (timestamp_ns now_ns : Z)
  | HCheck (current_time_ns now_ns : Z)
  | HApply (snapshot : HaStateSnapshot) (e : HaEngine).

Definition ha_exec (c : HaController) (op : HaOp) : HaController :=
  match op with
  | HConfigure config => fst (Configure config c)
  | HStart => fst (Start c)
  | HStop => Stop c
  | HPromote => fst (PromoteToPrimary c)
  | HDemote => fst (DemoteToStandby c)
  | HHeartbeat t now => RecordPeerHeartbeat t now c
  | HCheck t now => CheckHealth t now c
  | HApply s e => snd (fst (ApplySnapshot s e c))
  end.

Definition opposite (r : HaRole.t) : HaRole.t := match r with HaRole.kPrimary => HaRole.kStandby | HaRole.kStandby => HaRole.kPrimary | HaRole.kSolo => HaRole.kSolo end.

(** A run that counts the role changes since the configuration in force was taken. *)
Definition reconfigures (c : HaController) (op : HaOp) : bool := match op with HConfigure config => status.ok (snd (Configure config c)) | _ => false end.

Definition ha_count (s : HaController * Z) (op : HaOp) : HaController * Z :=
  let c' := ha_exec (fst s) op in
  (c', if reconfigures (fst s) op then 0 else if bool_decide (ha_role c' = ha_role (fst s)) then snd s else snd s + 1).

Definition role_changes (ops : list HaOp) : Z := snd (fold_left ha_count ops (NewHaController, 0)).

Lemma ha_count_run ops : forall s, fst (fold_left ha_count ops s) = fold_left ha_exec ops (fst s).
Proof. induction ops as [|op ops IH]; intros s; [done|]. cbn [fold_left]. by rewrite IH. Qed.

(** Behind [n] role changes: the generation is [n] in 64 bits, and the role follows from
    the initial role and the parity of [n]. *)
Record ha_inv (n : Z) (c : HaController) : Prop := {
  hi_count : 0 <= n;
  hi_generation : ha_generation c = u64 n;
  hi_role : ha_role c = if Z.even n then hc_initial_role (ha_config c) else opposite (hc_initial_role (ha_config c));
  hi_solo : hc_initial_role (ha_config c) = HaRole.kSolo -> n = 0;
  hi_running : ha_running c = true -> ha_configured c = true;
  hi_limits : 0 < hc_heartbeat_interval (ha_config c) /\ 0 < hc_replication_interval (ha_config c) /\
              hc_suspect_threshold (ha_config c) <> 0 /\ hc_suspect_threshold (ha_config c) <= hc_dead_threshold (ha_config c);
}.

Lemma u64_succ n : u64 (u64 n + 1) = u64 (n + 1).
Proof. unfold u64. by rewrite Zplus_mod_idemp_l. Qed.

(** A step that changes the role counts one, any other counts nothing. *)
Definition counted (n : Z) (c c' : HaController) : Z := if bool_decide (ha_role c' = ha_role c) then n else n + 1.

Lemma change_role_inv expected desired n c : ha_inv n c -> expected <> HaRole.kSolo -> desired = opposite expected ->
  ha_inv (counted n c (fst (ChangeRole expected desired c))) (fst (ChangeRole expected desired c)).
Proof.
  intros Hc He ->. unfold ChangeRole, counted. destruct (bool_decide_reflect (ha_role c = expected)) as [Hr|Hr]; cbn [negb fst]; [|by rewrite bool_decide_true].
  pose proof Hc as [H0 Hg H1 H2 H3 H4]. cbn [ha_role]. rewrite bool_decide_false by (rewrite Hr; by destruct expected).
  split; cbn; try done; [lia|by rewrite Hg, u64_succ| |].
  - rewrite Z.even_add. change (Z.even 1) with false. rewrite Hr in H1. destruct (Z.even n); cbn; rewrite H1; [done|]. by destruct (hc_initial_role (ha_config c)).
  - intros Hs. specialize (H2 Hs). rewrite Hs, Hr in H1. by destruct (Z.even n).
Qed.

Lemma with_peer_inv p n c : ha_inv n c -> ha_inv n (with_peer_state p c).
Proof. by intros []. Qed.

Lemma counted_same n c c' : ha_role c' = ha_role c -> counted n c c' = n.
Proof. intros Hr. unfold counted. by rewrite bool_decide_true. Qed.

Lemma check_health_inv t now n c : ha_inv n c -> ha_inv (counted n c (CheckHealth t now c)) (CheckHealth t now c).
Proof.
  intros Hc. unfold CheckHealth. destruct (negb _); [by rewrite counted_same|]. destruct (_ =? 0); [by rewrite counted_same|].
  destruct (_ <=? ha_last_peer_heartbeat_ns c); [by rewrite counted_same; [apply with_peer_inv|]|]. destruct (_ =? 0); [by rewrite counted_same|].
  destruct (_ <=? _); [|destruct (_ <=? _); by rewrite counted_same; [apply with_peer_inv|]]. destruct (_ && _); [|by rewrite counted_same; [apply with_peer_inv|]].
  by apply (change_role_inv _ _ n (with_peer_state HaPeerState.kDead c)); [apply with_peer_inv|..].
Qed.

Lemma ha_count_inv s op : ha_inv (snd s) (fst s) -> ha_inv (snd (ha_count s op)) (fst (ha_count s op)).
Proof.
  destruct s as [c n]. intros Hc. cbn [fst snd] in *.
  assert (Hsame : forall c', reconfigures c op = false -> ha_exec c op = c' -> ha_inv (counted n c c') c' -> ha_inv (snd (ha_count (c, n) op)) (fst (ha_count (c, n) op))).
  { intros c' Hr <- Hi. unfold ha_count. cbn [fst snd]. rewrite Hr. exact Hi. }
  assert (Hkeep : forall c', reconfigures c op = false -> ha_exec c op = c' -> ha_role c' = ha_role c -> ha_inv n c' -> ha_inv (snd (ha_count (c, n) op)) (fst (ha_count (c, n) op))).
  { intros c' Hr He Hro Hi. eapply Hsame; [done|exact He|]. by rewrite counted_same. }
  destruct op; cbn [ha_exec reconfigures] in *.
  - revert Hkeep. unfold ha_count, reconfigures. cbn [ha_exec fst snd]. unfold Configure.
    destruct (ha_running c) eqn:Er; [intros Hk; by apply (Hk c)|]. destruct (Z.leb_spec (hc_heartbeat_interval config) 0); [intros Hk; by apply (Hk c)|].
    destruct (Z.leb_spec (hc_replication_interval config) 0); [intros Hk; by apply (Hk c)|]. destruct (Z.eqb_spec (hc_suspect_threshold config) 0); [intros Hk; by apply (Hk c)|].
    destruct (Z.ltb_spec (hc_dead_threshold config) (hc_suspect_threshold config)); [intros Hk; by apply (Hk c)|]. intros _. cbn. by split.
  - unfold Start in *. destruct (ha_configured c) eqn:E; [|by eapply Hkeep]. cbn in Hkeep. eapply Hkeep; [done|done|done|]. by destruct Hc; split.
  - eapply Hkeep; [done|done|done|]. by destruct Hc; split.
  - eapply Hsame; [done|done|]. by apply change_role_inv.
  - eapply Hsame; [done|done|]. by apply change_role_inv.
  - eapply Hkeep; [done|done|done|]. by destruct Hc; split.
  - eapply Hsame; [done|done|]. by apply check_health_inv.
  - eapply Hkeep; [done|done| |]; unfold ApplySnapshot; destruct (eng_counterparties e); try done. by destruct Hc; split.
Qed.

Lemma ha_new_inv : ha_inv 0 NewHaController.
Proof. by split. Qed.

Lemma ha_run_inv ops : ha_inv (role_changes ops) (fold_left ha_exec ops NewHaController).
Proof.
  assert (Hrun : forall s, ha_inv (snd s) (fst s) -> ha_inv (snd (fold_left ha_count ops s)) (fst (fold_left ha_count ops s))).
  { induction ops as [|op ops IH]; intros s Hs; cbn [fold_left]; [done|]. by apply IH, ha_count_inv. }
  specialize (Hrun (NewHaController, 0) ha_new_inv). by rewrite ha_count_run in Hrun.
Qed.

(** Which steps change the role. *)
Definition takes_role (op : HaOp) : bool := match op with HPromote | HDemote | HCheck _ _ => true | _ => false end.

Lemma change_role_moves expected desired c : expected <> HaRole.kSolo -> desired = opposite expected -> ha_role (fst (ChangeRole expected desired c)) <> ha_role c ->
  ha_role c <> HaRole.kSolo /\ ha_role (fst (ChangeRole expected desired c)) = opposite (ha_role c).
Proof. intros He ->. unfold ChangeRole. case_bool_decide as Hr; [|done]. cbn. intros _. by rewrite Hr. Qed.

Lemma role_moves c op : ha_role (ha_exec c op) <> ha_role c ->
  reconfigures c op = true \/ takes_role op = true /\ ha_role c <> HaRole.kSolo /\ ha_role (ha_exec c op) = opposite (ha_role c).
Proof.
  destruct op; cbn [ha_exec reconfigures takes_role]; intros Hm.
  - left. revert Hm. unfold Configure. by repeat (destruct (_ : bool); [done|]).
  - unfold Start in Hm. by destruct (ha_configured c).
  - done.
  - right. split; [done|]. by apply change_role_moves.
  - right. split; [done|]. by apply change_role_moves.
  - done.
  - right. split; [done|]. revert Hm. unfold CheckHealth. destruct (negb _); [done|]. destruct (_ =? 0); [done|]. destruct (_ <=? ha_last_peer_heartbeat_ns c); [done|]. destruct (_ =? 0); [done|].
    destruct (_ <=? _); [|by destruct (_ <=? _)]. destruct (_ && _); [|done]. apply (change_role_moves HaRole.kStandby HaRole.kPrimary (with_peer_state HaPeerState.kDead c)); done.
  - unfold ApplySnapshot in Hm. by destruct (eng_counterparties e).
Qed.

(** The missed heartbeats at a time, and the state they stand for. *)
Definition missed_at (c : HaController) (now : Z) : Z := (now - ha_last_peer_heartbeat_ns c) / (hc_heartbeat_interval (ha_config c) * 1000000).

Definition health_of (config : HaConfig) (missed : Z) : HaPeerState.t :=
  if hc_dead_threshold config <=? missed then HaPeerState.kDead else if hc_suspect_threshold config <=? missed then HaPeerState.kSuspect else HaPeerState.kAlive.

(** ** Lemmas: snapshots *)

Lemma find_snoc {A} (p : A -> bool) l x : List.find p (l ++ [x]) = match List.find p l with Some y => Some y | None => if p x then Some x else None end.
Proof. induction l as [|y l IH]; cbn; [done|]. destruct (p y); [done|]. exact IH. Qed.

Lemma find_add_missing id ids : forall sessions, List.find (fun s => sq_session_id s =? id) (fold_left add_missing ids sessions) =
  match List.find (fun s => sq_session_id s =? id) sessions with Some s => Some s | None => if existsb (Z.eqb id) ids then Some (MkSequence id 1 1 0) else None end.
Proof.
  induction ids as [|x ids IH]; intros sessions; cbn [fold_left existsb]; [by destruct (List.find _ sessions)|]. rewrite IH. unfold add_missing.
  destruct (existsb _ sessions) eqn:E.
  - destruct (List.find (fun s => sq_session_id s =? id) sessions) eqn:F; [done|]. destruct (Z.eqb_spec id x) as [->|]; [|done]. exfalso. apply existsb_exists in E as (s & Hs & He).
    pose proof (List.find_none _ _ F s Hs) as Hn. cbn in Hn. by rewrite He in Hn.
  - rewrite find_snoc. destruct (List.find (fun s => sq_session_id s =? id) sessions); [done|]. cbn [sq_session_id]. destruct (Z.eqb_spec x id) as [->|Hne]; [by rewrite Z.eqb_refl|].
    destruct (Z.eqb_spec id x); [by subst|done].
Qed.

(** ** Properties *)

(** C27: roles change only by takeover.  In every reachable state of a controller the
    generation is the number of role changes since the configuration in force was taken
    (modulo 2^64), and the role is the initial one or its opposite by the parity of that
    number: a standalone engine never leaves its role, a standby becomes primary and back.
    A step that changes the role either takes a new configuration or is a promotion, a
    demotion or a health check that turns the role into its opposite, and never from
    standalone.  A running controller has been configured, and the configuration in force
    has passed its checks: positive heartbeat and replication intervals, a positive
    suspect threshold and a dead threshold that is not below it. *)
Theorem ha_roles_alternate ops op (c := fold_left ha_exec ops NewHaController) :
  ha_inv (role_changes ops) c /\
  (ha_role (ha_exec c op) <> ha_role c ->
   reconfigures c op = true \/ takes_role op = true /\ ha_role c <> HaRole.kSolo /\ ha_role (ha_exec c op) = opposite (ha_role c)).
Proof. split; [apply ha_run_inv|apply role_moves]. Qed.

(** C28: failover decides by the missed heartbeats.  With a heartbeat on record, a check
    of a running controller at a later time sets the peer's state to alive, suspect or
    dead by the number of whole intervals since, makes a standby primary exactly when
    the peer is dead and automatic failover is on, calls the callback once then, and
    changes no other role; a second check at the same time changes nothing. *)
Theorem failover_exact ops now now_ns :
  let c := fold_left ha_exec ops NewHaController in
  let c' := CheckHealth now now_ns c in
  let takes_over := hc_auto_failover (ha_config c) && bool_decide (ha_role c = HaRole.kStandby) && (hc_dead_threshold (ha_config c) <=? missed_at c now) in
  ha_running c = true -> 0 < ha_last_peer_heartbeat_ns c < now -> hc_heartbeat_interval (ha_config c) * 1000000 <= UINT64_MAX ->
  ha_peer_state c' = health_of (ha_config c) (missed_at c now) /\
  ha_role c' = (if takes_over then HaRole.kPrimary else ha_role c) /\
  ha_calls c' = ha_calls c ++ (if takes_over && hc_on_role_change (ha_config c) then [(HaRole.kStandby, HaRole.kPrimary)] else []) /\
  CheckHealth now now_ns c' = c'.
Proof.
  intros c c' takes_over Hrun Ht Hi. destruct (ha_run_inv ops) as [_ _ _ _ _ (Hpos & _ & Hs & Hd)]. fold c in Hpos, Hs, Hd.
  assert (Hu : u64 (hc_heartbeat_interval (ha_config c) * 1000000) = hc_heartbeat_interval (ha_config c) * 1000000) by (apply u64_small; unfold UINT64_MAX in Hi; unfold in_u64; lia).
  assert (Hstep : forall c1, ha_running c1 = true -> ha_config c1 = ha_config c -> ha_last_peer_heartbeat_ns c1 = ha_last_peer_heartbeat_ns c ->
    CheckHealth now now_ns c1 = let c2 := with_peer_state (health_of (ha_config c) (missed_at c now)) c1 in
      if hc_auto_failover (ha_config c) && bool_decide (ha_role c1 = HaRole.kStandby) && (hc_dead_threshold (ha_config c) <=? missed_at c now) then fst (PromoteToPrimary c2) else c2).
  { intros c1 R1 R2 R3. unfold CheckHealth. rewrite R1, R2, R3, Hu. cbn [negb]. destruct (Z.eqb_spec (ha_last_peer_heartbeat_ns c) 0); [lia|]. destruct (Z.eqb_spec now 0); [lia|].
    destruct (Z.leb_spec now (ha_last_peer_heartbeat_ns c)); [lia|]. destruct (Z.eqb_spec (hc_heartbeat_interval (ha_config c) * 1000000) 0); [lia|]. cbv zeta. fold (missed_at c now). unfold health_of.
    destruct (hc_dead_threshold (ha_config c) <=? missed_at c now); [|rewrite andb_false_r; by destruct (hc_suspect_threshold (ha_config c) <=? missed_at c now)].
    rewrite andb_true_r. cbn [with_peer_state ha_config ha_role]. rewrite R2. by destruct (_ && _). }
  assert (Hc' : c' = let c2 := with_peer_state (health_of (ha_config c) (missed_at c now)) c in if takes_over then fst (PromoteToPrimary c2) else c2) by (by apply Hstep).
  cbv zeta in Hc'. destruct takes_over eqn:Et.
  - unfold takes_over in Et. apply andb_true_iff in Et as [Et Ed]. apply andb_true_iff in Et as [Ea Er]. apply bool_decide_eq_true in Er.
    unfold PromoteToPrimary, ChangeRole in Hc'. cbn [with_peer_state ha_role] in Hc'. rewrite Er in Hc'. cbn [fst negb] in Hc'. rewrite bool_decide_eq_true_2 in Hc' by done. cbn [negb fst] in Hc'.
    rewrite (Hstep c') by (by rewrite Hc'). rewrite Hc'. cbn. split_and!; try done. { destruct (hc_on_role_change (ha_config c)); [done|by rewrite app_nil_r]. } by rewrite andb_false_r.
  - rewrite (Hstep c') by (by rewrite Hc'). rewrite Hc'. cbn. split_and!; try done; [by rewrite app_nil_r|]. fold takes_over. by rewrite Et.
Qed.

(** C29: a takeover loses no sequence number.  When the engine of the primary reports a
    session, its snapshot goes over the transport to the standby and is applied there,
    a session that is restored on the standby expects and assigns the numbers the
    primary's session did; a configured session that was never active starts at one. *)
Theorem takeover_restores_sequence primary standby ids1 ids2 now c1 c2 core fresh :
  eng_counterparties primary = Some ids1 -> eng_counterparties standby = Some ids2 ->
  let id := session_id (config fresh) in
  List.find (fun s => snap_session_id s =? id) (eng_session_snapshots primary) = option_map Snapshot core ->
  id ∈ ids1 -> (match core with Some s => next_in_seq s <> 0 /\ next_out_seq s <> 0 | None => True end) -> state fresh = kDisconnected ->
  exists snapshot, TakeSnapshot primary now c1 = Value snapshot /\
    receiver (fst (replicator snapshot (MkTransport None))) = Value snapshot /\
    let '(standby', c2', st) := ApplySnapshot snapshot standby c2 in
    st = status.Ok /\ ha_last_applied_snapshot c2' = Some snapshot /\
    RestoreAppliedSequenceState standby' id (Some fresh) =
      (Some (set_pending_resend (set_next_out_seq (set_next_in_seq fresh (match core with Some s => next_in_seq s | None => 1 end)) (match core with Some s => next_out_seq s | None => 1 end)) None), status.Ok).
Proof.
  intros H1 H2 id Hfind Hid Hpos Hst. unfold TakeSnapshot. rewrite H1. eexists. split; [done|]. split; [done|]. unfold ApplySnapshot. rewrite H2. split; [done|]. split; [done|].
  unfold RestoreAppliedSequenceState, FindAppliedSequenceState. cbn [eng_last_applied SetLastAppliedHaSnapshot hs_sessions]. rewrite find_add_missing.
  assert (Hmap : List.find (fun s => sq_session_id s =? id) (map sequence_of (eng_session_snapshots primary)) = option_map sequence_of (option_map Snapshot core)).
  { rewrite <- Hfind. clear. induction (eng_session_snapshots primary) as [|s l IH]; cbn; [done|]. by destruct (snap_session_id s =? id). }
  rewrite Hmap. assert (Hex : existsb (Z.eqb id) ids1 = true) by (apply existsb_exists; exists id; split; [by apply list_elem_of_In|apply Z.eqb_refl]). rewrite Hex.
  unfold RestoreSequenceState. rewrite Hst. destruct core as [s|]; cbn; [|done]. destruct Hpos as [P1 P2]. destruct (Z.eqb_spec (next_in_seq s) 0); [done|]. destruct (Z.eqb_spec (next_out_seq s) 0); done.
Qed.

(** ** Witnesses *)

Definition demo_pair_config (role : HaRole.t) : HaConfig := MkHaConfig role 1000 3 5 500 true true.
Definition demo_standby_ops : list HaOp := [HConfigure (demo_pair_config HaRole.kStandby); HStart; HHeartbeat 1000000000 0].

Lemma failover_exact_witness :
  let c := fold_left ha_exec demo_standby_ops NewHaController in
  let c' := CheckHealth 6000000000 0 c in
  ha_peer_state c' = HaPeerState.kDead /\ ha_role c' = HaRole.kPrimary /\ ha_generation c' = 1 /\ ha_calls c' = [(HaRole.kStandby, HaRole.kPrimary)].
Proof.
  destruct (failover_exact demo_standby_ops 6000000000 0) as (H1 & H2 & H3 & _); [reflexivity|split; vm_compute; reflexivity|vm_compute; discriminate|].
  cbv zeta. rewrite H1, H2, H3. repeat split; vm_compute; reflexivity.
Defined.

(** The takeover, a demotion and a promotion by hand. *)
Definition demo_takeovers : list HaOp := demo_standby_ops ++ [HCheck 6000000000 0; HDemote; HDemote; HPromote].

Lemma ha_roles_alternate_witness :
  let c := fold_left ha_exec demo_takeovers NewHaController in
  ha_generation c = u64 3 /\ ha_role c = HaRole.kPrimary /\ ha_role (ha_exec c HDemote) = opposite (ha_role c).
Proof.
  destruct (ha_roles_alternate demo_takeovers HDemote) as [Hi Hm]. cbv zeta. split; [exact (hi_generation _ _ Hi)|]. split; [exact (hi_role _ _ Hi)|].
  destruct Hm as [Hm|(_ & _ & Hm)]; [vm_compute; discriminate|vm_compute in Hm; discriminate|exact Hm].
Defined.

Definition demo_primary_engine : HaEngine := MkEngine (Some [session_id demo_config]) [Snapshot demo_gap] None.
Definition demo_standby_engine : HaEngine := MkEngine (Some [session_id demo_config]) [] None.

Lemma takeover_restores_sequence_witness :
  exists snapshot, TakeSnapshot demo_primary_engine 5 NewHaController = Value snapshot /\
    let '(standby', _, _) := ApplySnapshot snapshot demo_standby_engine NewHaController in
    option_map next_in_seq (fst (RestoreAppliedSequenceState standby' (session_id demo_config) (Some (NewSessionCore demo_config)))) = Some (next_in_seq demo_gap).
Proof.
  destruct (takeover_restores_sequence demo_primary_engine demo_standby_engine [session_id demo_config] [session_id demo_config] 5 NewHaController NewHaController (Some demo_gap) (NewSessionCore demo_config))
    as (snapshot & H1 & _ & H3); [reflexivity|reflexivity|vm_compute; reflexivity|left|vm_compute; split; discriminate|reflexivity|].
  exists snapshot. split; [exact H1|]. destruct (ApplySnapshot snapshot demo_standby_engine NewHaController) as [[standby' c'] st]. destruct H3 as (_ & _ & H3).
  change (session_id demo_config) with (session_id (config (NewSessionCore demo_config))). rewrite H3. reflexivity.
Defined.

(** ** Corners *)

(** Nothing fences the peer that is declared dead: with a primary that only lost its
    connection, both engines are primary. *)
Theorem both_primary :
  let primary := fold_left ha_exec [HConfigure (demo_pair_config HaRole.kPrimary); HStart; HHeartbeat 1000000000 0] NewHaController in
  let standby := fold_left ha_exec demo_standby_ops NewHaController in
  ha_role (CheckHealth 6000000000 0 primary) = HaRole.kPrimary /\ ha_role (CheckHealth 6000000000 0 standby) = HaRole.kPrimary /\
  ha_generation (CheckHealth 6000000000 0 standby) = 1 /\ ha_generation (CheckHealth 6000000000 0 primary) = 0.
Proof. vm_compute. repeat split; reflexivity. Qed.

(** The generation of a snapshot is kept and never compared: an older snapshot
    replaces a newer one, in the controller and in the engine. *)
Theorem stale_snapshot_accepted newer older e c ids : eng_counterparties e = Some ids -> hs_generation older < hs_generation newer ->
  let '(e1, c1, _) := ApplySnapshot newer e c in
  let '(e2, c2, st) := ApplySnapshot older e1 c1 in
  st = status.Ok /\ eng_last_applied e2 = Some older /\ ha_last_applied_generation c2 < ha_last_applied_generation c1.
Proof. intros He Hg. unfold ApplySnapshot. rewrite He. cbn. by rewrite He. Qed.

Lemma stale_snapshot_accepted_witness :
  let newer := MkHaSnapshot 2 1 [] in let older := MkHaSnapshot 1 0 [] in
  let '(e1, c1, _) := ApplySnapshot newer demo_standby_engine NewHaController in
  eng_last_applied (fst (fst (ApplySnapshot older e1 c1))) = Some older.
Proof. exact (proj1 (proj2 (stale_snapshot_accepted (MkHaSnapshot 2 1 []) (MkHaSnapshot 1 0 []) demo_standby_engine NewHaController [session_id demo_config] eq_refl eq_refl))). Defined.

(** A peer that never sent a heartbeat is never suspected: a standby that starts after
    its primary failed does not take over. *)
Theorem silent_peer_never_dead c t now : ha_last_peer_heartbeat_ns c = 0 -> CheckHealth t now c = c.
Proof. intros H0. unfold CheckHealth. rewrite H0. by destruct (negb (ha_running c)). Qed.

Lemma silent_peer_never_dead_witness : let c := fold_left ha_exec [HConfigure (demo_pair_config HaRole.kStandby); HStart] NewHaController in CheckHealth 100000000000000 0 c = c.
Proof. exact (silent_peer_never_dead (fold_left ha_exec [HConfigure (demo_pair_config HaRole.kStandby); HStart] NewHaController) 100000000000000 0 eq_refl). Defined.
