(* ===== verification/ConnectionStrategy.v ===== *)
(** * Connection strategies

    [runtime/connection_strategy.cpp] and [.h]: when and where an initiator connects
    next.  The abstract class of the source is the class [ConnectionStrategy]; its three
    implementations are instances.  The random numbers of the standard library are the
    class [RandomSource]: a generator that is threaded through the calls of a thread. *)
From S2P Require Import Prelude Base.
Open Scope Z_scope.

(** [std::uniform_int_distribution(0, m)] draws from the closed interval. *)
Class RandomSource (R : Type) := {
  uniform : Z -> R -> Z * R;
  uniform_range : forall m r, 0 <= m -> 0 <= fst (uniform m r) <= m;
}.

Record ConnectionEndpoint := MkEndpoint { ce_host : string; ce_port : Z }.

#[export] Instance ConnectionEndpoint_eq_dec : EqDecision ConnectionEndpoint.
Proof. solve_decision. Defined.

(** The delay in milliseconds; no endpoint means the original one. *)
Record ConnectionDecision := MkDecision { cd_delay : Z; cd_next_endpoint : option ConnectionEndpoint; cd_give_up : bool }.

Record ConnectionContext := MkConnectionContext {
  cc_session_id : Z;
  cc_consecutive_failures : Z;
  cc_last_connected_duration : Z;
  cc_primary_endpoint : ConnectionEndpoint;
  cc_alternate_endpoints : list ConnectionEndpoint;
}.

Definition give_up_decision : ConnectionDecision := MkDecision 0 None true.

Class ConnectionStrategy (S : Type) := {
  OnDisconnected : forall {R} `{RandomSource R}, ConnectionContext -> S -> R -> ConnectionDecision * S * R;
  OnConnected : ConnectionContext -> S -> S;
}.

Definition ReconnectJitterLimit (backoff_ms : Z) : Z := backoff_ms / 4.

Definition RandomJitter `{RandomSource R} (max_jitter_ms : Z) (rng : R) : Z * R :=
  if max_jitter_ms =? 0 then (0, rng) else uniform max_jitter_ms rng.

Definition EffectiveFailureCount (context : ConnectionContext) (attempt_count : Z) : Z :=
  if cc_consecutive_failures context =? 0 then attempt_count else cc_consecutive_failures context.

Definition ShouldGiveUp (context : ConnectionContext) (attempt_count max_retries : Z) : bool :=
  negb (max_retries =? 0) && (max_retries <=? EffectiveFailureCount context attempt_count).

(** ** Exponential backoff *)

Record ExponentialBackoffStrategy := MkBackoff {
  eb_initial_ms : Z; eb_max_ms : Z; eb_max_retries : Z; eb_current_backoff_ms : Z; eb_attempt_count : Z;
}.

Definition NewExponentialBackoff (initial_ms max_ms max_retries : Z) : ExponentialBackoffStrategy :=
  MkBackoff initial_ms max_ms max_retries 0 0.

Definition backoff_disconnected `{RandomSource R} (context : ConnectionContext) (s : ExponentialBackoffStrategy) (rng : R)
  : ConnectionDecision * ExponentialBackoffStrategy * R :=
  if ShouldGiveUp context (eb_attempt_count s) (eb_max_retries s) then (give_up_decision, s, rng)
  else
    let previous_backoff := if eb_current_backoff_ms s =? 0 then eb_initial_ms s else eb_current_backoff_ms s in
    let next_backoff :=
      if eb_current_backoff_ms s =? 0 then eb_initial_ms s
      else u32 (Z.min (eb_current_backoff_ms s *u64 2) (eb_max_ms s)) in
    let '(jitter, rng) := RandomJitter (ReconnectJitterLimit previous_backoff) rng in
    (MkDecision (next_backoff + jitter) None false,
     MkBackoff (eb_initial_ms s) (eb_max_ms s) (eb_max_retries s) next_backoff (eb_attempt_count s +u32 1), rng).

Definition backoff_connected (_ : ConnectionContext) (s : ExponentialBackoffStrategy) : ExponentialBackoffStrategy :=
  MkBackoff (eb_initial_ms s) (eb_max_ms s) (eb_max_retries s) 0 0.

#[export] Instance exponential_backoff : ConnectionStrategy ExponentialBackoffStrategy :=
  {| OnDisconnected R _ := backoff_disconnected; OnConnected := backoff_connected |}.

(** ** Always the primary endpoint *)

Record AlwaysStartOnPrimaryStrategy := MkPrimary { sp_delay_ms : Z; sp_max_retries : Z; sp_attempt_count : Z }.

Definition NewAlwaysStartOnPrimary (delay_ms max_retries : Z) : AlwaysStartOnPrimaryStrategy := MkPrimary delay_ms max_retries 0.

Definition primary_disconnected {R} (context : ConnectionContext) (s : AlwaysStartOnPrimaryStrategy) (rng : R)
  : ConnectionDecision * AlwaysStartOnPrimaryStrategy * R :=
  if ShouldGiveUp context (sp_attempt_count s) (sp_max_retries s) then (give_up_decision, s, rng)
  else
    (MkDecision (sp_delay_ms s) (Some (cc_primary_endpoint context)) false,
     MkPrimary (sp_delay_ms s) (sp_max_retries s) (sp_attempt_count s +u32 1), rng).

Definition primary_connected (_ : ConnectionContext) (s : AlwaysStartOnPrimaryStrategy) : AlwaysStartOnPrimaryStrategy :=
  MkPrimary (sp_delay_ms s) (sp_max_retries s) 0.

#[export] Instance always_start_on_primary : ConnectionStrategy AlwaysStartOnPrimaryStrategy :=
  {| OnDisconnected R _ := primary_disconnected; OnConnected := primary_connected |}.

(** ** Round robin *)

Record RoundRobinStrategy := MkRoundRobin { rb_delay_ms : Z; rb_max_retries : Z; rb_attempt_count : Z; rb_current_index : Z }.

Definition NewRoundRobin (delay_ms max_retries : Z) : RoundRobinStrategy := MkRoundRobin delay_ms max_retries 0 0.

(** The index is reduced modulo the number of endpoints first, so that the lookup is
    in range. *)
Definition round_robin_disconnected {R} (context : ConnectionContext) (s : RoundRobinStrategy) (rng : R)
  : ConnectionDecision * RoundRobinStrategy * R :=
  if ShouldGiveUp context (rb_attempt_count s) (rb_max_retries s) then (give_up_decision, s, rng)
  else
    let endpoint_count := u32 (Z.of_nat (length (cc_alternate_endpoints context)) + 1) in
    let selected_index := if endpoint_count =? 0 then 0 else rb_current_index s mod endpoint_count in
    let endpoint :=
      if selected_index =? 0 then cc_primary_endpoint context
      else nth (Z.to_nat (selected_index - 1)) (cc_alternate_endpoints context) (MkEndpoint "" 0) in
    let next_index := if endpoint_count =? 0 then 0 else (selected_index +u32 1) mod endpoint_count in
    (MkDecision (rb_delay_ms s) (Some endpoint) false,
     MkRoundRobin (rb_delay_ms s) (rb_max_retries s) (rb_attempt_count s +u32 1) next_index, rng).

Definition round_robin_connected (_ : ConnectionContext) (s : RoundRobinStrategy) : RoundRobinStrategy :=
  MkRoundRobin (rb_delay_ms s) (rb_max_retries s) 0 0.

#[export] Instance round_robin : ConnectionStrategy RoundRobinStrategy :=
  {| OnDisconnected R _ := round_robin_disconnected; OnConnected := round_robin_connected |}.

(** ** What the strategies of the library have in common

    Each has a budget of retries, counts its decisions since the last connection, gives
    up exactly when the budget is used, and never asks for a negative delay.  The header
    asks none of this of a strategy of the application; the class collects what is proved
    of the three of the library, so that their runs are reasoned about once. *)

Class StrategySpec (S : Type) `{ConnectionStrategy S} := {
  sound : S -> Prop;
  budget : S -> Z;
  spent : S -> Z;
  budget_range : forall s, sound s -> in_u32 (budget s) /\ in_u32 (spent s);
  connected_resets : forall context s, sound s ->
    let s' := OnConnected context s in sound s' /\ budget s' = budget s /\ spent s' = 0;
  disconnected_decides : forall R `{RandomSource R} context s (rng : R), sound s -> in_u32 (cc_consecutive_failures context) ->
    let '(d, s', rng') := OnDisconnected context s rng in
    sound s' /\ budget s' = budget s /\ 0 <= cd_delay d /\
    cd_give_up d = ShouldGiveUp context (spent s) (budget s) /\
    spent s' = if cd_give_up d then spent s else spent s +u32 1;
}.

Record backoff_sound (s : ExponentialBackoffStrategy) : Prop := {
  bs_initial : in_u32 (eb_initial_ms s);
  bs_max : in_u32 (eb_max_ms s);
  bs_retries : in_u32 (eb_max_retries s);
  bs_current : in_u32 (eb_current_backoff_ms s);
  bs_attempts : in_u32 (eb_attempt_count s);
}.

Lemma RandomJitter_range `{RandomSource R} m (rng : R) : 0 <= m -> 0 <= fst (RandomJitter m rng) <= m.
Proof. intros Hm. unfold RandomJitter. destruct (Z.eqb_spec m 0); [cbn; lia|]. by apply uniform_range. Qed.

Lemma jitter_limit_range b : in_u32 b -> 0 <= ReconnectJitterLimit b <= b / 4.
Proof. unfold ReconnectJitterLimit. intros [Hb _]. split; [by apply Z.div_pos|lia]. Qed.

(** Doubling is done in 64 bits and never wraps. *)
Lemma doubled_backoff s : backoff_sound s ->
  u32 (Z.min (eb_current_backoff_ms s *u64 2) (eb_max_ms s)) = Z.min (2 * eb_current_backoff_ms s) (eb_max_ms s).
Proof. intros [_ Hm _ Hc _]. rewrite u64_small by ulia. rewrite u32_small by ulia. f_equal. lia. Qed.

#[export] Instance exponential_backoff_spec : StrategySpec ExponentialBackoffStrategy.
Proof.
  refine {| sound := backoff_sound; budget := eb_max_retries; spent := eb_attempt_count |}.
  - intros s []. by split.
  - intros context s []. cbn. repeat split; cbn; ulia.
  - intros R HR context s rng Hs _. cbn. unfold backoff_disconnected.
    destruct (ShouldGiveUp _ _ _) eqn:Hg; [cbn; split_and!; done|]. rewrite (doubled_backoff s Hs).
    set (prev := if _ =? 0 then _ else eb_current_backoff_ms s). assert (Hp : in_u32 prev) by (subst prev; destruct Hs, (_ =? 0); done).
    pose proof (RandomJitter_range (ReconnectJitterLimit prev) rng (proj1 (jitter_limit_range prev Hp))) as Hj.
    destruct (RandomJitter _ rng) as [jitter rng']. cbn in Hj |- *. destruct Hs as [Hi Hm Hr Hc Ha].
    destruct (Z.eqb_spec (eb_current_backoff_ms s) 0); (split_and!; [|done|ulia|done|done]); constructor; cbn; eauto with nimble; ulia.
Defined.

#[export] Instance always_start_on_primary_spec : StrategySpec AlwaysStartOnPrimaryStrategy.
Proof.
  refine {| sound := fun s => in_u32 (sp_delay_ms s) /\ in_u32 (sp_max_retries s) /\ in_u32 (sp_attempt_count s);
            budget := sp_max_retries; spent := sp_attempt_count |}.
  - tauto.
  - intros context s (Hd & Hr & Ha). cbn. repeat split; ulia.
  - intros R HR context s rng (Hd & Hr & Ha) _. cbn. unfold primary_disconnected.
    destruct (ShouldGiveUp _ _ _) eqn:Hg; cbn; split_and!; try done; try ulia. apply u32_range.
Defined.

#[export] Instance round_robin_spec : StrategySpec RoundRobinStrategy.
Proof.
  refine {| sound := fun s => in_u32 (rb_delay_ms s) /\ in_u32 (rb_max_retries s) /\ in_u32 (rb_attempt_count s);
            budget := rb_max_retries; spent := rb_attempt_count |}.
  - tauto.
  - intros context s (Hd & Hr & Ha). cbn. repeat split; ulia.
  - intros R HR context s rng (Hd & Hr & Ha) _. cbn. unfold round_robin_disconnected.
    destruct (ShouldGiveUp _ _ _) eqn:Hg; cbn; split_and!; try done; try ulia. apply u32_range.
Defined.

(** ** A run of failures

    The initiator reports a closed connection with no failures and the k-th failed
    attempt behind it with k. *)

Section run.
Context {S R : Type} `{ConnectionStrategy S} `{RandomSource R}.

Fixpoint failures (contexts : list ConnectionContext) (s : S) (rng : R) : list ConnectionDecision * S :=
  match contexts with
  | [] => ([], s)
  | context :: contexts =>
      let '(d, s', rng') := OnDisconnected context s rng in
      let '(ds, s'') := failures contexts s' rng' in (d :: ds, s'')
  end.

(** The k-th context of the run reports k failures. *)
Definition counted (contexts : list ConnectionContext) : Prop :=
  forall k context, contexts !! k = Some context -> cc_consecutive_failures context = Z.of_nat k.
End run.

Lemma failures_length {S R} `{ConnectionStrategy S} `{RandomSource R} contexts (s : S) (rng : R) :
  length (fst (failures contexts s rng)) = length contexts.
Proof.
  revert s rng. induction contexts as [|context contexts IH]; intros s rng; [done|]. cbn.
  destruct (OnDisconnected context s rng) as [[d s'] rng']. specialize (IH s' rng'). destruct (failures contexts s' rng'). cbn in *. by rewrite IH.
Qed.

(** Every decision of a run, by position, from a strategy that spent [n]. *)
Lemma failures_give_up {S R} `{StrategySpec S} `{RandomSource R} contexts : forall (s : S) (rng : R) n,
  sound s -> spent s = Z.of_nat n -> Z.of_nat (n + length contexts) < 4294967296 -> budget s <> 0 ->
  (forall k context, contexts !! k = Some context -> cc_consecutive_failures context = Z.of_nat (n + k)) ->
  forall k d, Z.of_nat (n + k) <= budget s -> fst (failures contexts s rng) !! k = Some d -> cd_give_up d = (budget s =? Z.of_nat (n + k)).
Proof.
  induction contexts as [|context contexts IH]; intros s rng n Hs Hn Hlen Hb Hc k d Hk; [done|]. cbn [length] in Hlen.
  pose proof (Hc 0%nat context eq_refl) as Hf. rewrite Nat.add_0_r in Hf.
  pose proof (disconnected_decides R context s rng Hs ltac:(rewrite Hf; ulia)) as Hd. cbn [failures].
  destruct (OnDisconnected context s rng) as [[d0 s'] rng']. destruct Hd as (Hs' & Hb' & _ & Hg & Hsp). destruct k as [|k].
  - destruct (failures contexts s' rng') as [ds s'']. intros [= <-]. rewrite Nat.add_0_r in *. rewrite Hg. unfold ShouldGiveUp, EffectiveFailureCount.
    rewrite Hf, Hn. destruct (Z.eqb_spec (budget s) 0); [done|]. cbn [negb andb]. destruct (Z.of_nat n =? 0); lia.
  - assert (Hng : cd_give_up d0 = false).
    { rewrite Hg. unfold ShouldGiveUp, EffectiveFailureCount. rewrite Hf, Hn. destruct (Z.of_nat n =? 0); lia. }
    rewrite Hng in Hsp. rewrite <- Hb'. specialize (IH s' rng' (Datatypes.S n) Hs'). destruct (failures contexts s' rng') as [ds s''] eqn:E. cbn. cbn [fst] in IH. intros Hd.
    replace (n + Datatypes.S k)%nat with (Datatypes.S n + k)%nat in * by lia. apply IH; try done; try lia.
    + rewrite Hsp, Hn, u32_small; ulia.
    + intros j c Hj. rewrite (Hc (Datatypes.S j) c Hj). lia.
Qed.

(** A run of a strategy with a budget, from a connection on. *)
Lemma strategy_exhausts {S R} `{StrategySpec S} `{RandomSource R} contexts context0 (s : S) (rng : R) :
  sound s -> 0 < budget s -> counted contexts -> Z.of_nat (length contexts) = budget s + 1 -> budget s < 4294967295 ->
  let ds := fst (failures contexts (OnConnected context0 s) rng) in
  length ds = length contexts /\ forall k d, ds !! k = Some d -> cd_give_up d = (budget s =? Z.of_nat k).
Proof.
  intros Hs Hb Hc Hlen Hmax ds. subst ds. destruct (connected_resets context0 s Hs) as (Hs' & Hb' & Hsp). split; [by rewrite failures_length|].
  intros k d Hd. assert (Hk : (k < length contexts)%nat) by (rewrite <- (failures_length contexts (OnConnected context0 s) rng); by eapply lookup_lt_Some).
  rewrite <- Hb'. apply (failures_give_up contexts (OnConnected context0 s) rng 0); try done; rewrite ?Hb'; cbn; try lia.
Qed.

(** The outcome of a run of failures: every failure is answered, and the strategy gives up
    at the failure behind its last retry and at no earlier one. *)
Definition stops_behind (budget : Z) (contexts : list ConnectionContext) (ds : list ConnectionDecision) : Prop :=
  length ds = length contexts /\ forall k d, ds !! k = Some d -> cd_give_up d = (budget =? Z.of_nat k).

(** C32: the strategies of the library stop when their budget is used.  Exponential
    backoff, always-the-primary and round robin, set up with a limit on retries and reset
    by a connection in whatever state they were, each allow exactly as many attempts as
    the limit says and give up at the next failure, when failures are counted the way the
    initiator counts them: none for the lost connection, k behind the k-th failed attempt.
    The limit is between 1 and 2^32 - 2 (0 means no limit), the settings fit 32 bits. *)
Theorem retries_exhaust `{RandomSource R} limit contexts context0 (rng : R) :
  0 < limit < 4294967295 -> counted contexts -> Z.of_nat (length contexts) = limit + 1 ->
  (forall s, backoff_sound s -> eb_max_retries s = limit -> stops_behind limit contexts (fst (failures contexts (backoff_connected context0 s) rng))) /\
  (forall s, in_u32 (sp_delay_ms s) -> in_u32 (sp_attempt_count s) -> sp_max_retries s = limit -> stops_behind limit contexts (fst (failures contexts (primary_connected context0 s) rng))) /\
  (forall s, in_u32 (rb_delay_ms s) -> in_u32 (rb_attempt_count s) -> rb_max_retries s = limit -> stops_behind limit contexts (fst (failures contexts (round_robin_connected context0 s) rng))).
Proof.
  intros [Hl Hm] Hc Hlen. split_and!.
  - intros s Hs <-. exact (strategy_exhausts contexts context0 s rng Hs Hl Hc Hlen Hm).
  - intros s H1 H2 <-. assert (Hs : sound s) by (cbn; ulia). exact (strategy_exhausts contexts context0 s rng Hs Hl Hc Hlen Hm).
  - intros s H1 H2 <-. assert (Hs : sound s) by (cbn; ulia). exact (strategy_exhausts contexts context0 s rng Hs Hl Hc Hlen Hm).
Qed.

(** ** The schedule of the backoff *)

(** The k-th delay since the last connection, before jitter, and the one before it. *)
Definition backoff_at (initial_ms max_ms : Z) (k : nat) : Z :=
  match k with O => initial_ms | Datatypes.S _ => Z.min (initial_ms * 2 ^ Z.of_nat k) max_ms end.

Lemma backoff_at_step initial_ms max_ms k : 0 < initial_ms -> 0 < max_ms ->
  Z.min (2 * backoff_at initial_ms max_ms k) max_ms = backoff_at initial_ms max_ms (Datatypes.S k).
Proof.
  intros Hi Hm. destruct k as [|k]; cbn [backoff_at].
  - change (2 ^ Z.of_nat 1) with 2. lia.
  - rewrite (Nat2Z.inj_succ (Datatypes.S k)), Z.pow_succ_r by lia. lia.
Qed.

Lemma backoff_at_pos initial_ms max_ms k : 0 < initial_ms -> 0 < max_ms -> 0 < backoff_at initial_ms max_ms k.
Proof. intros Hi Hm. destruct k as [|k]; cbn [backoff_at]; [done|]. pose proof (Z.pow_pos_nonneg 2 (Z.of_nat (Datatypes.S k))). nia. Qed.

Lemma backoff_step `{RandomSource R} context s (rng : R) :
  backoff_sound s -> eb_max_retries s = 0 ->
  let '(d, s', rng') := OnDisconnected context s rng in
  backoff_sound s' /\ eb_max_retries s' = 0 /\ eb_initial_ms s' = eb_initial_ms s /\ eb_max_ms s' = eb_max_ms s /\
  eb_current_backoff_ms s' = (if eb_current_backoff_ms s =? 0 then eb_initial_ms s else Z.min (2 * eb_current_backoff_ms s) (eb_max_ms s)) /\
  cd_give_up d = false /\ eb_current_backoff_ms s' <= cd_delay d <= eb_current_backoff_ms s' + (if eb_current_backoff_ms s =? 0 then eb_initial_ms s else eb_current_backoff_ms s) / 4.
Proof.
  intros Hs Hr. pose proof (disconnected_decides (S := ExponentialBackoffStrategy) R (MkConnectionContext 0 0 0 (MkEndpoint "" 0) []) s rng Hs ltac:(cbn; ulia)) as Hd.
  cbn in Hd |- *. revert Hd. unfold backoff_disconnected, ShouldGiveUp. rewrite Hr. change (0 =? 0) with true. cbn [negb andb]. rewrite (doubled_backoff s Hs).
  set (prev := if _ =? 0 then _ else eb_current_backoff_ms s). assert (Hp : in_u32 prev) by (subst prev; destruct Hs, (_ =? 0); done).
  pose proof (RandomJitter_range (ReconnectJitterLimit prev) rng (proj1 (jitter_limit_range prev Hp))) as Hj. pose proof (jitter_limit_range prev Hp).
  destruct (RandomJitter _ rng) as [jitter rng']. cbn in Hj |- *. intros (Hs' & _). split_and!; try done; lia.
Qed.

Lemma failures_backoff `{RandomSource R} contexts : forall s (rng : R) n initial_ms max_ms,
  0 < initial_ms -> 0 < max_ms -> backoff_sound s -> eb_max_retries s = 0 -> eb_initial_ms s = initial_ms -> eb_max_ms s = max_ms ->
  eb_current_backoff_ms s = backoff_at initial_ms max_ms n ->
  forall k d, fst (failures contexts s rng) !! k = Some d ->
    let b := backoff_at initial_ms max_ms (Datatypes.S (n + k)) in
    cd_give_up d = false /\ b <= cd_delay d <= b + backoff_at initial_ms max_ms (n + k) / 4.
Proof.
  induction contexts as [|context contexts IH]; intros s rng n initial_ms max_ms Hi Hm Hs Hr Hinit Hmax Hcur k d; [done|].
  pose proof (backoff_step context s rng Hs Hr) as Hd. pose proof (backoff_at_pos initial_ms max_ms n Hi Hm) as Hpos. cbn [failures].
  destruct (OnDisconnected context s rng) as [[d0 s'] rng']. destruct Hd as (Hs' & Hr' & Hi' & Hm' & Hc' & Hg & Hdelay).
  rewrite Hcur in Hc', Hdelay. destruct (Z.eqb_spec (backoff_at initial_ms max_ms n) 0) as [|_]; [lia|].
  rewrite Hmax, backoff_at_step in Hc' by done. destruct k as [|k].
  - destruct (failures contexts s' rng'). intros [= <-]. rewrite Nat.add_0_r. cbv zeta. rewrite Hc' in Hdelay. by split.
  - specialize (IH s' rng' (Datatypes.S n) initial_ms max_ms Hi Hm Hs' Hr' ltac:(congruence) ltac:(congruence) Hc' k d).
    destruct (failures contexts s' rng') as [ds s'']. cbn [fst] in IH |- *. intros Hd. specialize (IH Hd).
    by replace (n + Datatypes.S k)%nat with (Datatypes.S n + k)%nat by lia.
Qed.

(** the backoff doubles up to its limit.  Without a limit on retries, the k-th delay
    since the last connection is the initial delay doubled k times, cut at the maximum,
    plus a jitter of at most a quarter of the delay before it; no arithmetic wraps,
    whatever the settings are. *)
Theorem backoff_schedule `{RandomSource R} contexts context0 s (rng : R) :
  backoff_sound s -> eb_max_retries s = 0 -> 0 < eb_initial_ms s -> 0 < eb_max_ms s ->
  forall k d, fst (failures contexts (OnConnected context0 s) rng) !! k = Some d ->
    let b := backoff_at (eb_initial_ms s) (eb_max_ms s) k in
    let previous := backoff_at (eb_initial_ms s) (eb_max_ms s) (k - 1) in
    cd_give_up d = false /\ b <= cd_delay d <= b + previous / 4.
Proof.
  intros Hs Hr Hi Hm k d. destruct contexts as [|context contexts]; [done|]. cbn [failures].
  assert (Hs0 : backoff_sound (OnConnected context0 s)) by exact (proj1 (connected_resets context0 s Hs)).
  pose proof (backoff_step context (OnConnected context0 s) rng Hs0 Hr) as Hd.
  destruct (OnDisconnected context _ rng) as [[d0 s'] rng']. cbn in Hd. destruct Hd as (Hs' & Hr' & Hi' & Hm' & Hc' & Hg & Hdelay). destruct k as [|k].
  - destruct (failures contexts s' rng'). intros [= <-]. cbn. rewrite Hc' in Hdelay. by split.
  - pose proof (failures_backoff contexts s' rng' 0 (eb_initial_ms s) (eb_max_ms s) Hi Hm Hs' Hr' Hi' Hm' Hc' k d) as Hk.
    destruct (failures contexts s' rng') as [ds s'']. cbn [fst] in Hk |- *. intros Hd. rewrite Nat.sub_1_r. cbn [Nat.pred]. exact (Hk Hd).
Qed.

(** ** Round robin *)

Definition endpoints (context : ConnectionContext) : list ConnectionEndpoint := cc_primary_endpoint context :: cc_alternate_endpoints context.

Lemma round_robin_step {R} `{RandomSource R} context s (rng : R) n :
  rb_max_retries s = 0 -> rb_current_index s = Z.of_nat n -> (n < length (endpoints context))%nat -> Z.of_nat (length (endpoints context)) < 4294967296 ->
  let '(d, s', rng') := OnDisconnected context s rng in
  cd_next_endpoint d = endpoints context !! n /\ rb_max_retries s' = 0 /\
  rb_current_index s' = Z.of_nat (Datatypes.S n mod length (endpoints context)).
Proof.
  intros Hr Hn Hlt Hlen. change (@OnDisconnected _ round_robin R _) with (@round_robin_disconnected R). unfold round_robin_disconnected, ShouldGiveUp. rewrite Hr. cbn [negb andb]. change (0 =? 0) with true. cbn [negb andb].
  assert (Hl : Z.of_nat (length (cc_alternate_endpoints context)) + 1 = Z.of_nat (length (endpoints context))) by (cbn; lia).
  rewrite Hl, (u32_small (Z.of_nat _)) by ulia. destruct (Z.eqb_spec (Z.of_nat (length (endpoints context))) 0) as [E|_]; [cbn in E; lia|].
  rewrite Hn, Z.mod_small by lia. cbn [cd_next_endpoint rb_max_retries rb_current_index]. split_and!; [|done|].
  - destruct n as [|n]; [done|]. destruct (Z.eqb_spec (Z.of_nat (Datatypes.S n)) 0); [lia|]. replace (Z.to_nat (Z.of_nat (Datatypes.S n) - 1)) with n by lia.
    cbn [endpoints] in *. cbn. cbn in Hlt. destruct (lookup_lt_is_Some_2 (cc_alternate_endpoints context) n ltac:(lia)) as [e He]. rewrite (nth_lookup_Some _ _ _ _ He). symmetry. exact He.
  - rewrite (u32_small (Z.of_nat n + 1)) by ulia. rewrite Nat2Z.inj_mod. f_equal. lia.
Qed.

Lemma failures_round_robin `{RandomSource R} contexts eps : Forall (fun c => endpoints c = eps) contexts -> Z.of_nat (length eps) < 4294967296 ->
  forall s (rng : R) n, rb_max_retries s = 0 -> rb_current_index s = Z.of_nat (n mod length eps) ->
  forall k d, fst (failures contexts s rng) !! k = Some d -> cd_next_endpoint d = eps !! ((n + k) mod length eps)%nat.
Proof.
  intros Heps Hlen. induction contexts as [|context contexts IH]; intros s rng n Hr Hn k d; [done|]. apply Forall_cons in Heps as [<- Heps].
  assert (Hne : length (endpoints context) <> 0%nat) by (cbn; lia).
  pose proof (round_robin_step context s rng _ Hr Hn ltac:(by apply Nat.mod_upper_bound) Hlen) as Hd. cbn [failures].
  destruct (OnDisconnected context s rng) as [[d0 s'] rng']. destruct Hd as (He & Hr' & Hi'). destruct k as [|k].
  - destruct (failures contexts s' rng'). intros [= <-]. by rewrite Nat.add_0_r.
  - rewrite <- Nat.add_1_r, Nat.Div0.add_mod_idemp_l in Hi'. specialize (IH Heps s' rng' (n + 1)%nat Hr' Hi' k d). destruct (failures contexts s' rng') as [ds s'']. cbn [fst] in IH |- *. intros Hd.
    replace (n + Datatypes.S k)%nat with (n + 1 + k)%nat by lia. by apply IH.
Qed.

(** round robin reaches every endpoint.  Without a limit on retries the k-th decision
    since the last connection names endpoint k modulo their number, the primary first,
    so that every run of as many failures as there are endpoints tries each once. *)
Theorem round_robin_visits_all `{RandomSource R} contexts context0 s (rng : R) eps :
  rb_max_retries s = 0 -> Forall (fun c => endpoints c = eps) contexts -> Z.of_nat (length eps) < 4294967296 ->
  let ds := fst (failures contexts (OnConnected context0 s) rng) in
  length ds = length contexts /\ forall k d, ds !! k = Some d -> cd_next_endpoint d = eps !! (k mod length eps)%nat.
Proof.
  intros Hr Heps Hlen ds. subst ds. split; [apply failures_length|]. intros k d Hd.
  refine (failures_round_robin contexts eps Heps Hlen (round_robin_connected context0 s) rng 0 Hr _ k d Hd). by rewrite Nat.Div0.mod_0_l.
Qed.

(** ** Examples *)

#[local] Instance counter_source : RandomSource Z.
Proof.
  refine {| uniform m r := (Z.min m (Z.abs r), r + 1) |}. intros m r Hm. cbn. lia.
Defined.

Definition demo_context (failures : Z) : ConnectionContext :=
  MkConnectionContext 7 failures 0 (MkEndpoint "a" 9001) [MkEndpoint "b" 9002; MkEndpoint "c" 9003].

Lemma retries_exhaust_witness :
  let gives_up ds := map cd_give_up ds = [false; false; true] in
  gives_up (fst (failures (map demo_context [0; 1; 2]) (backoff_connected (demo_context 0) (NewExponentialBackoff 1000 3000 2)) 5)) /\
  gives_up (fst (failures (map demo_context [0; 1; 2]) (primary_connected (demo_context 0) (NewAlwaysStartOnPrimary 1000 2)) 5)) /\
  gives_up (fst (failures (map demo_context [0; 1; 2]) (round_robin_connected (demo_context 0) (NewRoundRobin 1000 2)) 5)).
Proof.
  assert (Hread : forall ds, stops_behind 2 (map demo_context [0; 1; 2]) ds -> map cd_give_up ds = [false; false; true]).
  { intros [|d0 [|d1 [|d2 [|d3 ds]]]] [Hl Hd]; try done. cbn. by rewrite (Hd 0%nat d0 eq_refl), (Hd 1%nat d1 eq_refl), (Hd 2%nat d2 eq_refl). }
  destruct (retries_exhaust 2 (map demo_context [0; 1; 2]) (demo_context 0) 5 ltac:(lia) ltac:(intros [|[|[|k]]] c; cbn; [by intros [= <-]..|done]) eq_refl) as (H1 & H2 & H3).
  split_and!; apply Hread; [apply H1; [constructor; cbn; ulia|done]|apply H2; cbn; [ulia|ulia|done]|apply H3; cbn; [ulia|ulia|done]].
Defined.

Lemma backoff_schedule_witness :
  exists d, fst (failures (map demo_context [0; 1; 2; 3]) (OnConnected (demo_context 0) (NewExponentialBackoff 1000 3000 0)) 5) !! 3%nat = Some d /\ 3000 <= cd_delay d <= 3750.
Proof.
  eexists. split; [vm_compute; reflexivity|].
  refine (proj2 (backoff_schedule (map demo_context [0; 1; 2; 3]) (demo_context 0) (NewExponentialBackoff 1000 3000 0) 5 _ eq_refl eq_refl eq_refl 3%nat _ _)); [constructor; cbn; ulia|vm_compute; reflexivity].
Defined.

Lemma round_robin_visits_all_witness :
  map cd_next_endpoint (fst (failures (map demo_context [0; 1; 2; 3]) (OnConnected (demo_context 0) (NewRoundRobin 1000 0)) 5)) =
  [Some (MkEndpoint "a" 9001); Some (MkEndpoint "b" 9002); Some (MkEndpoint "c" 9003); Some (MkEndpoint "a" 9001)].
Proof.
  pose proof (round_robin_visits_all (map demo_context [0; 1; 2; 3]) (demo_context 0) (NewRoundRobin 1000 0) 5 (endpoints (demo_context 0)) eq_refl
    ltac:(repeat constructor) eq_refl) as [_ Hd].
  pose proof (Hd 0%nat _ eq_refl) as H0. pose proof (Hd 1%nat _ eq_refl) as H1. pose proof (Hd 2%nat _ eq_refl) as H2. pose proof (Hd 3%nat _ eq_refl) as H3.
  exact (f_equal2 cons H0 (f_equal2 cons H1 (f_equal2 cons H2 (f_equal2 cons H3 eq_refl)))).
Defined.
