(* ===== verification/Peek.v ===== *)
(** * The peek at a session header

    [PeekSessionHeaderView] of [codec/fix_codec.cpp]: the session header of a frame,
    read without a dictionary before the frame is decoded.  The live runtime uses it to
    find the session of a connection and to class a message. *)
From S2P Require Import Prelude Base StdAlgo BitTable SortSearch IntFormat Scan FixTags Wire RawPassThrough Message NormalizedDictionary ParsedMessage Decoder DecoderProofs DecodeTree DecodeFrame.
Open Scope Z_scope.

Definition kMustBegin : Status := status.FormatError "FIX frame must begin with 8 and 9 and end with 10".

(** The field that starts at [field_start]: nothing when no delimiter follows, else its
    tag, its value and the position of the delimiter. *)
Definition peek_scan (sse : bool) (bytes : list Z) (d : Z) (field_start : nat) : option (Result (Z * list Z * nat)) :=
  let index := (field_start + FindByte sse (drop field_start bytes) d)%nat in
  if (length bytes <=? index)%nat then None
  else Some (
    if (index =? field_start)%nat then Error (status.FormatError "empty FIX field is not allowed")
    else
      let field := take (index - field_start) (drop field_start bytes) in
      let field_len := (index - field_start)%nat in
      let equals := FindByte sse field 61 in
      if (field_len <=? equals)%nat || (equals =? 0)%nat || (equals =? field_len - 1)%nat
      then Error (status.FormatError "invalid FIX field syntax")
      else
        match ParseUnsigned (take equals field) "field tag" with
        | Error e => Error e
        | Value tag => Value (tag, drop (equals + 1) field, index)
        end).

(** The switch over the tags of the header. *)
Definition peek_switch (tag : Z) (value : list Z) (h : SessionHeaderView) : Result SessionHeaderView :=
  let text := text_of value in
  if tag =? tags.kMsgType then Value (with_msg_type text h)
  else if tag =? tags.kMsgSeqNum then match ParseUnsigned value "MsgSeqNum" with Value n => Value (with_msg_seq_num n h) | Error e => Error e end
  else if tag =? tags.kPossDupFlag then match ParseBoolean value "PossDupFlag" with Value b => Value (with_poss_dup b h) | Error e => Error e end
  else if tag =? tags.kSenderCompID then Value (with_sender_comp_id text h)
  else if tag =? tags.kSenderSubID then Value (with_sender_sub_id text h)
  else if tag =? tags.kOnBehalfOfCompID then Value (with_on_behalf_of_comp_id text h)
  else if tag =? tags.kSendingTime then Value (with_sending_time text h)
  else if tag =? tags.kOrigSendingTime then Value (with_orig_sending_time text h)
  else if tag =? tags.kTargetCompID then Value (with_target_comp_id text h)
  else if tag =? tags.kTargetSubID then Value (with_target_sub_id text h)
  else if tag =? tags.kDeliverToCompID then Value (with_deliver_to_comp_id text h)
  else if tag =? tags.kDefaultApplVerID then Value (with_default_appl_ver_id text h)
  else if tag =? tags.kApplVerID then Value (with_appl_ver_id text h)
  else if tag =? tags.kPossResend then match ParseBoolean value "PossResend" with Value b => Value (with_poss_resend b h) | Error e => Error e end
  else Value h.

(** The locals of the loop; [pk_checksum] is the start of a CheckSum field that was met. *)
Record PeekState := MkPeek { pk_header : SessionHeaderView; pk_count : nat; pk_body_start : nat; pk_checksum : option nat }.

(** One turn per field; the position of the next field is an argument. *)
Fixpoint peek_loop (fuel : nat) (sse : bool) (bytes : list Z) (d : Z) (field_start : nat) (st : PeekState) : Result PeekState :=
  match fuel with
  | O => Error diverges
  | S fuel =>
      if (length bytes <=? field_start)%nat then Value st
      else
        match peek_scan sse bytes d field_start with
        | None => Value st
        | Some (Error e) => Error e
        | Some (Value (tag, value, index)) =>
            let count := S (pk_count st) in
            let next := (index + 1)%nat in
            if (count =? 1)%nat then
              if negb (tag =? tags.kBeginString) then Error kMustBegin
              else peek_loop fuel sse bytes d next (MkPeek (with_begin_string (text_of value) (pk_header st)) count (pk_body_start st) (pk_checksum st))
            else if (count =? 2)%nat then
              if negb (tag =? tags.kBodyLength) then Error kMustBegin
              else
                match ParseUnsigned value "BodyLength" with
                | Error e => Error e
                | Value n => peek_loop fuel sse bytes d next (MkPeek (with_body_length n (pk_header st)) count next (pk_checksum st))
                end
            else if tag =? tags.kCheckSum then
              if negb (next =? length bytes)%nat then Error kMustBegin
              else
                match ParseUnsigned value "CheckSum" with
                | Error e => Error e
                | Value n => Value (MkPeek (with_checksum n (pk_header st)) count (pk_body_start st) (Some field_start))
                end
            else if negb (tags.IsAggregateSessionEnvelopeTag tag) then Value (MkPeek (pk_header st) count (pk_body_start st) (pk_checksum st))
            else
              match peek_switch tag value (pk_header st) with
              | Error e => Error e
              | Value h => peek_loop fuel sse bytes d next (MkPeek h count (pk_body_start st) (pk_checksum st))
              end
        end
  end.

(** [while (start > 0 && bytes[start - 1] != delimiter) --start]. *)
Fixpoint back_to_delimiter (bytes : list Z) (d : Z) (start : nat) : nat :=
  match start with
  | O => O
  | S n => if default 0 (bytes !! n) =? d then start else back_to_delimiter bytes d n
  end.

(** The CheckSum field looked for from the end of the frame. *)
Definition peek_checksum (sse : bool) (bytes : list Z) (d : Z) : Result (Z * nat) :=
  let start := back_to_delimiter bytes d (length bytes - 1) in
  if (start =? 0)%nat then Error kMustBegin
  else
    let len := (length bytes - start - 1)%nat in
    let field := take len (drop start bytes) in
    let equals := FindByte sse field 61 in
    if (len <=? equals)%nat || (equals =? 0)%nat || (equals =? len - 1)%nat then Error kMustBegin
    else
      match ParseUnsigned (take equals field) "field tag" with
      | Error e => Error e
      | Value tag =>
          if negb (tag =? tags.kCheckSum) then Error kMustBegin
          else match ParseUnsigned (drop (equals + 1) field) "CheckSum" with Error e => Error e | Value n => Value (n, start) end
      end.

Definition PeekSessionHeaderView (sse : bool) (bytes : list Z) (delimiter : Z) (verify_checksum : bool) : Result SessionHeaderView :=
  let d := NormalizeDelimiter delimiter in
  match peek_loop (S (length bytes)) sse bytes d 0 (MkPeek empty_header 0 0 None) with
  | Error e => Error e
  | Value st =>
      if match last bytes with None => true | Some b => negb (b =? d) end then Error (status.FormatError "FIX frame is missing its final delimiter")
      else if (pk_count st =? 0)%nat then Error (status.FormatError "FIX frame has no fields")
      else if (pk_count st <? 4)%nat then Error (status.FormatError "FIX frame is too short")
      else
        match match pk_checksum st with
              | Some start => Value (pk_header st, start)
              | None => match peek_checksum sse bytes d with Error e => Error e | Value (n, start) => Value (with_checksum n (pk_header st), start) end
              end with
        | Error e => Error e
        | Value (header, checksum_field_start) =>
            if negb (h_body_length header =? u64 (Z.of_nat checksum_field_start - Z.of_nat (pk_body_start st))) then Error (status.FormatError "BodyLength mismatch")
            else if verify_checksum && negb (sum_scalar (take checksum_field_start bytes) 0 mod 256 =? h_checksum header)
            then Error (status.FormatError "CheckSum mismatch")
            else Value header
        end
  end.

(** ** What the peek accepts

    On any bytes: a header is returned only for a frame that is framed as the decoder
    asks for. *)

Section Accepted.
Context (sse : bool) (bytes : list Z) (d : Z).

(** A field in front of its delimiter, cut at the equals sign. *)
Lemma cut_field field tag : let equals := FindByte sse field 61 in
  ((length field <=? equals)%nat || (equals =? 0)%nat || (equals =? length field - 1)%nat) = false ->
  ParseUnsigned (take equals field) "field tag" = Value tag ->
  field = take equals field ++ [kEquals] ++ drop (equals + 1) field /\ numeral_value (take equals field) = tag.
Proof.
  intros equals He Hp. rewrite !orb_false_iff, Nat.leb_gt in He. destruct He as ((Hlt & _) & _). apply parse_unsigned_value in Hp as [(_ & _ & Hv) _]. split; [|done].
  destruct (scalar_loop_split 61 field) as [_ [Hn|Hn]]; cbn zeta in Hn; rewrite <- (FindByte_scalar sse) in Hn; fold equals in Hn; [lia|].
  rewrite <- (take_drop equals field) at 1. f_equal. rewrite (drop_S _ _ _ Hn). cbn. f_equal. by rewrite Nat.add_1_r.
Qed.

Lemma peek_scan_sound pos tag value index : peek_scan sse bytes d pos = Some (Value (tag, value, index)) ->
  exists ds rest, drop pos bytes = field_text ds value d ++ rest /\ numeral_value ds = tag /\ d ∉ value /\ (index + 1 = pos + length (field_text ds value d))%nat /\ (index < length bytes)%nat /\ (pos < index)%nat.
Proof.
  unfold peek_scan. cbv zeta. set (r := drop pos bytes). rewrite FindByte_scalar. destruct (scalar_loop_split d r) as [Hnd Hn]. cbn zeta in *. set (n := scalar_loop (fun b => b =? d) r) in *.
  destruct (Nat.leb_spec (length bytes) (pos + n)) as [|Hlt]; [done|]. destruct (Nat.eqb_spec (pos + n) pos) as [|Hne]; [done|]. replace (pos + n - pos)%nat with n by lia.
  assert (Hlen : length (take n r) = n) by (rewrite length_take; unfold r; rewrite length_drop; lia). set (field := take n r) in *.
  match goal with |- context [if ?b then _ else _] => destruct b eqn:Etest end; [done|]. destruct (ParseUnsigned _ _) as [t|] eqn:Et; [|done]. intros [= <- <- <-].
  destruct (cut_field field t ltac:(cbv zeta; rewrite Hlen; exact Etest) Et) as [Hcut Hv]. cbv zeta in *. set (e := FindByte sse field 61) in *.
  destruct Hn as [Hn|Hn]; [unfold r in Hn; rewrite length_drop in Hn; lia|].
  assert (Hfl : length (field_text (take e field) (drop (e + 1) field) d) = (n + 1)%nat).
  { unfold field_text. pose proof (f_equal length Hcut) as Hl. rewrite !length_app in Hl. rewrite !length_app. cbn [length] in *. lia. }
  exists (take e field), (drop (S n) r). split_and!; try done; try lia.
  - rewrite <- (take_drop n r) at 1. fold field. rewrite (drop_S _ _ _ Hn). rewrite Hcut at 1. unfold field_text. by rewrite <- !app_assoc.
  - intros Hin. apply Hnd. rewrite Hcut, !elem_of_app. by right; right.
Qed.

(** What the loop leaves alone behind the first two fields, and what it finds. *)
Definition frame_kept (h h' : SessionHeaderView) : Prop := h_begin_string h' = h_begin_string h /\ h_body_length h' = h_body_length h.

Lemma peek_switch_keeps tag value h h' : peek_switch tag value h = Value h' -> frame_kept h h'.
Proof.
  unfold peek_switch. repeat match goal with |- context [tag =? ?k] => destruct (tag =? k); [first [by intros [= <-] | destruct (ParseUnsigned _ _); [by intros [= <-]|done] | destruct (ParseBoolean _ _); [by intros [= <-]|done]]|] end. by intros [= <-].
Qed.

Record peek_found (pos : nat) (st st' : PeekState) : Prop := {
  pf_header : frame_kept (pk_header st) (pk_header st');
  pf_start : pk_body_start st' = pk_body_start st;
  pf_more : (pk_count st < pk_count st')%nat -> (pos < length bytes)%nat;
  pf_checksum : match pk_checksum st' with
                | None => True
                | Some start => (pos <= start)%nat /\ exists ds sum, drop start bytes = field_text ds sum d /\ numeral_value ds = tags.kCheckSum /\ d ∉ sum /\ reads_as sum (h_checksum (pk_header st'))
                end;
}.

Lemma peek_loop_found fuel : forall pos st st', pk_checksum st = None -> (2 <= pk_count st)%nat -> peek_loop fuel sse bytes d pos st = Value st' -> peek_found pos st st'.
Proof.
  induction fuel as [|fuel IH]; intros pos st st' Hn Hc; cbn [peek_loop]; [done|].
  assert (Hstop : st = st' -> peek_found pos st st') by (intros <-; split; [done|done|lia|by rewrite Hn]).
  destruct (Nat.leb_spec (length bytes) pos) as [|Hlt]; [intros Heq; apply Hstop; congruence|].
  destruct (peek_scan sse bytes d pos) as [[[[tag value] index]|e]|] eqn:Es; [|done|intros Heq; apply Hstop; congruence].
  apply peek_scan_sound in Es as (ds & rest & Hr & Ht & Hv & Hi & Hil & Hip).
  destruct (Nat.eqb_spec (S (pk_count st)) 1); [lia|]. destruct (Nat.eqb_spec (S (pk_count st)) 2); [lia|].
  destruct (Z.eqb_spec tag tags.kCheckSum) as [Htag|].
  - destruct (Nat.eqb_spec (index + 1) (length bytes)) as [He|]; [|done]. cbn [negb]. destruct (ParseUnsigned value _) as [m|] eqn:Em; [|done]. intros [= <-].
    apply parse_unsigned_value in Em as [Hm _]. split; cbn; [done|done|done|]. split; [done|]. exists ds, value. split_and!; [|congruence|done|done].
    assert (rest = []) as ->; [|by rewrite app_nil_r in Hr]. apply nil_length_inv. apply (f_equal length) in Hr. rewrite length_drop, length_app in Hr. lia.
  - destruct (tags.IsAggregateSessionEnvelopeTag tag); cbn [negb]; [|intros [= <-]; split; cbn; [done|done|done|by rewrite Hn]].
    destruct (peek_switch tag value (pk_header st)) as [h|] eqn:Eh; [|done]. apply peek_switch_keeps in Eh as [K1 K2]. intros Hl.
    destruct (IH (index + 1)%nat (MkPeek h (S (pk_count st)) (pk_body_start st) (pk_checksum st)) st' Hn ltac:(cbn; lia) Hl) as [[F1 F2] F3 _ F5]. cbn in *.
    split; [split; congruence|done|done|]. destruct (pk_checksum st'); [|done]. destruct F5 as [F5 F6]. split; [lia|done].
Qed.

(** The scan from the end. *)
Lemma back_to_delimiter_spec n : (n <= length bytes)%nat -> let k := back_to_delimiter bytes d n in
  (k <= n)%nat /\ (forall i, (k <= i < n)%nat -> default 0 (bytes !! i) <> d) /\ forall i, (i < n)%nat -> bytes !! i = Some d -> (i < k)%nat.
Proof.
  cbv zeta. induction n as [|n IH]; intros Hn; cbn [back_to_delimiter]; [split_and!; [done|lia|lia]|]. destruct (Z.eqb_spec (default 0 (bytes !! n)) d) as [E|E]; [split_and!; [done|lia|lia]|].
  destruct (IH ltac:(lia)) as (I1 & I2 & I3). split_and!; [lia| |].
  - intros i Hi. destruct (decide (i = n)) as [->|]; [done|]. apply I2. lia.
  - intros i Hi Hd. destruct (decide (i = n)) as [->|]; [rewrite Hd in E; done|]. apply I3; [lia|done].
Qed.

Lemma peek_checksum_sound n start : last bytes = Some d -> peek_checksum sse bytes d = Value (n, start) ->
  (forall i, (i < length bytes - 1)%nat -> bytes !! i = Some d -> (i < start)%nat) /\
  exists ds sum, drop start bytes = field_text ds sum d /\ numeral_value ds = tags.kCheckSum /\ d ∉ sum /\ reads_as sum n.
Proof.
  intros Hl. unfold peek_checksum. cbv zeta. destruct (back_to_delimiter_spec (length bytes - 1) ltac:(lia)) as (B1 & B2 & B3). cbv zeta in *. set (k := back_to_delimiter bytes d (length bytes - 1)) in *.
  destruct (Nat.eqb_spec k 0) as [|Hk]; [done|]. set (len := (length bytes - k - 1)%nat). assert (Hlb : (k < length bytes)%nat) by lia.
  assert (Hlen : length (take len (drop k bytes)) = len) by (rewrite length_take, length_drop; lia). set (field := take len (drop k bytes)) in *.
  match goal with |- context [if ?b then _ else _] => destruct b eqn:Etest end; [done|]. destruct (ParseUnsigned (take _ field) _) as [t|] eqn:Et; [|done]. destruct (Z.eqb_spec t tags.kCheckSum) as [->|]; [|done]. cbn [negb].
  destruct (ParseUnsigned (drop _ field) _) as [m|] eqn:Em; [|done]. intros [= <- <-]. split; [done|].
  destruct (cut_field field _ ltac:(cbv zeta; rewrite Hlen; exact Etest) Et) as [Hcut Hv]. cbv zeta in *. set (e := FindByte sse field 61) in *. apply parse_unsigned_value in Em as [Hm _].
  assert (Hend : bytes !! (k + len)%nat = Some d) by (rewrite last_lookup in Hl; rewrite <- Hl; f_equal; lia).
  assert (Hdrop : drop k bytes = field ++ [d]).
  { rewrite <- (take_drop len (drop k bytes)) at 1. fold field. f_equal. rewrite drop_drop, (drop_S _ _ _ Hend). f_equal. apply drop_ge. lia. }
  exists (take e field), (drop (e + 1) field). split_and!; try done.
  - rewrite Hdrop. rewrite Hcut at 1. unfold field_text. by rewrite <- !app_assoc.
  - intros Hin. assert (Hf : d ∈ field) by (rewrite Hcut, !elem_of_app; by right; right). apply list_elem_of_lookup in Hf as [i Hi]. pose proof (lookup_lt_Some _ _ _ Hi) as Hil.
    unfold field in Hi. rewrite lookup_take_Some, lookup_drop in Hi. destruct Hi as [Hi _]. apply (B2 (k + i)%nat); [lia|]. by rewrite Hi.
Qed.

(** The first two fields. *)
Lemma peek_begins fuel st : peek_loop fuel sse bytes d 0 (MkPeek empty_header 0 0 None) = Value st -> (4 <= pk_count st)%nat ->
  exists t8 bs t9 len rest n fuel', bytes = field_text t8 bs d ++ field_text t9 len d ++ rest /\ numeral_value t8 = tags.kBeginString /\ numeral_value t9 = tags.kBodyLength /\
    d ∉ bs /\ d ∉ len /\ reads_as len n /\
    let start := length (field_text t8 bs d ++ field_text t9 len d) in
    peek_loop fuel' sse bytes d start (MkPeek (with_body_length n (with_begin_string (text_of bs) empty_header)) 2 start None) = Value st.
Proof.
  intros Hl Hc. destruct fuel as [|fuel]; [done|]. cbn [peek_loop] in Hl. destruct (Nat.leb_spec (length bytes) 0); [injection Hl as <-; cbn in Hc; lia|].
  destruct (peek_scan sse bytes d 0) as [[[[tag bs] i]|e]|] eqn:E0; [|done|injection Hl as <-; cbn in Hc; lia]. cbn [pk_count] in Hl. change (1 =? 1)%nat with true in Hl. cbv iota in Hl.
  destruct (Z.eqb_spec tag tags.kBeginString) as [->|]; [|done]. cbn [negb pk_header pk_body_start pk_checksum] in Hl.
  apply peek_scan_sound in E0 as (t8 & r0 & Hr0 & H8 & Hd8 & Hi & _ & _). rewrite drop_0 in Hr0. cbn [Nat.add] in Hi. rewrite Hi in Hl.
  destruct fuel as [|fuel]; [done|]. cbn [peek_loop] in Hl. destruct (_ <=? _)%nat; [injection Hl as <-; cbn in Hc; lia|].
  destruct (peek_scan sse bytes d (length (field_text t8 bs d))) as [[[[tag len] j]|e]|] eqn:E1; [|done|injection Hl as <-; cbn in Hc; lia]. cbn [pk_count] in Hl.
  change (2 =? 1)%nat with false in Hl. change (2 =? 2)%nat with true in Hl. cbv iota in Hl. destruct (Z.eqb_spec tag tags.kBodyLength) as [->|]; [|done]. cbn [negb] in Hl.
  destruct (ParseUnsigned len _) as [n|] eqn:En; [|done]. apply parse_unsigned_value in En as [Hn _].
  apply peek_scan_sound in E1 as (t9 & r1 & Hr1 & H9 & Hd9 & Hj & _ & _). rewrite Hr0, drop_app_length in Hr1. subst r0.
  exists t8, bs, t9, len, r1, n, fuel. split_and!; try done. rewrite length_app, <- Hj. exact Hl.
Qed.

Lemma peek_framed verify h : d <> 0 -> Z.of_nat (length bytes) <= UINT32_MAX -> PeekSessionHeaderView sse bytes d verify = Value h -> header_framed bytes d verify h.
Proof.
  intros Hd0 Hsize. unfold PeekSessionHeaderView, NormalizeDelimiter. destruct (Z.eqb_spec d 0) as [|_]; [done|]. cbv zeta.
  destruct (peek_loop _ _ _ _ _ _) as [st|] eqn:El; [|done]. destruct (last bytes) as [b|] eqn:Elast; [|done]. destruct (Z.eqb_spec b d) as [->|]; [|done]. cbn [negb].
  destruct (pk_count st =? 0)%nat; [done|]. destruct (Nat.ltb_spec (pk_count st) 4) as [|Hc]; [done|].
  destruct (peek_begins _ _ El Hc) as (t8 & bs & t9 & len & rest & n & fuel' & Hb & H8 & H9 & Hd8 & Hd9 & Hn & Hl). cbv zeta in Hl. set (pre := field_text t8 bs d ++ field_text t9 len d) in *.
  assert (Hfound := fun Hnone Hmany => peek_loop_found _ _ _ _ Hnone Hmany Hl). destruct (Hfound eq_refl ltac:(cbn; lia)) as [[F1 F2] F3 F4 F5]. clear Hfound. cbn in F1, F2, F3, F4. specialize (F4 ltac:(lia)).
  assert (Hpre : bytes !! (length pre - 1)%nat = Some d /\ (0 < length pre)%nat).
  { assert (Hp : pre = (field_text t8 bs d ++ t9 ++ [kEquals] ++ len) ++ [d]) by (unfold pre, field_text; by rewrite <- !app_assoc). rewrite Hb, app_assoc. fold pre. rewrite Hp. set (front := _ ++ t9 ++ _).
    rewrite length_app. cbn [length]. replace (length front + 1 - 1)%nat with (length front) by lia. split; [|lia]. rewrite <- app_assoc. by apply list_lookup_middle. }
  assert (Hsum : exists start ds sum cs, (length pre <= start)%nat /\ drop start bytes = field_text ds sum d /\ numeral_value ds = tags.kCheckSum /\ d ∉ sum /\ reads_as sum cs /\
    match pk_checksum st with
    | Some start => Value (pk_header st, start)
    | None => match peek_checksum sse bytes d with Error e => Error e | Value (n, start) => Value (with_checksum n (pk_header st), start) end
    end = Value (with_checksum cs (pk_header st), start) \/ exists e, match pk_checksum st with
    | Some start => Value (pk_header st, start)
    | None => match peek_checksum sse bytes d with Error e => Error e | Value (n, start) => Value (with_checksum n (pk_header st), start) end
    end = Error e).
  { destruct (pk_checksum st) as [start|].
    - destruct F5 as (G1 & ds & sum & G2 & G3 & G4 & G5). exists start, ds, sum, (h_checksum (pk_header st)). left. split_and!; try done. by destruct (pk_header st).
    - destruct (peek_checksum sse bytes d) as [[cs start]|e] eqn:Ec; [|exists 0%nat, [], [], 0; right; by exists e].
      apply (peek_checksum_sound _ _ Elast) in Ec as (G1 & ds & sum & G2 & G3 & G4 & G5). exists start, ds, sum, cs. left. split_and!; try done.
      specialize (G1 (length pre - 1)%nat ltac:(lia) (proj1 Hpre)). lia. }
  destruct Hsum as (start & ds & sum & cs & [(S1 & S2 & S3 & S4 & S5 & ->)|[e ->]]); [|done].
  cbn [h_body_length h_checksum with_checksum]. rewrite F2, F3. cbn [h_body_length with_body_length].
  destruct (Z.eqb_spec n (u64 (Z.of_nat start - Z.of_nat (length pre)))) as [Hnb|]; [|done]. cbn [negb]. destruct (verify && _) eqn:Ev; [done|]. intros [= <-].
  assert (Hst : (start <= length bytes)%nat) by (apply (f_equal length) in S2; rewrite length_drop in S2; unfold field_text in S2; rewrite !length_app in S2; cbn in S2; lia).
  set (body := take (start - length pre) rest).
  assert (Hrest : rest = body ++ field_text ds sum d).
  { rewrite <- S2, Hb, app_assoc. fold pre. rewrite drop_app_ge by done. unfold body. by rewrite take_drop. }
  assert (Hlb : length body = (start - length pre)%nat).
  { unfold body. rewrite length_take. apply (f_equal length) in Hb. rewrite app_assoc, length_app in Hb. fold pre in Hb. lia. }
  rewrite u64_small in Hnb by ulia. assert (Hlen : Z.of_nat (length body) = n) by lia.
  exists t8, bs, t9, len, body, ds, sum. rewrite Hlen. cbn [h_begin_string h_body_length h_checksum with_checksum]. split_and!; try first [done|by rewrite <- Hrest|congruence].
  - intros -> Hby. cbn [andb] in Ev. apply negb_false_iff, Z.eqb_eq in Ev. rewrite <- Ev.
    assert (Htk : take start bytes = field_text t8 bs d ++ field_text t9 len d ++ body).
    { rewrite Hb, Hrest, !app_assoc. fold pre. rewrite take_app_length' by (rewrite length_app; lia). done. }
    rewrite Htk, <- (u32_small (sum_scalar _ 0)) by (apply sum_scalar_range; ulia). rewrite sum_scalar_eq. unfold u32. rewrite Z.add_0_l. dlia.
Qed.
End Accepted.

(** ** The peek on a rendered frame *)

(** The switch is the one of the decoder. *)
Ltac known_tags := repeat match goal with |- context [tags.IsAggregateSessionEnvelopeTag] => fail 1 | |- context [Z.eqb ?a ?b] => let r := eval vm_compute in (Z.eqb a b) in change (Z.eqb a b) with r; cbv iota end.

Lemma peek_switch_step tag value h : header_accepts tag value = true -> peek_switch tag value h = Value (header_step h (tag, value)).
Proof.
  unfold header_accepts, header_step, peek_switch, extract_header. cbn [fst snd]. cbv zeta.
  repeat match goal with
  | |- context [tag =? ?c] => destruct (Z.eqb_spec tag c); [subst tag; known_tags; first [by destruct (ParseUnsigned _ _) | by destruct (ParseBoolean _ _) | done]|cbv iota]
  end; done.
Qed.

Section Rendered.
Context (sse : bool) (bytes : list Z) (d : Z).
Context (Hd1 : d <> kEquals) (Hd2 : ~ is_digit d) (Hsize : Z.of_nat (length bytes) <= UINT32_MAX).

(** A field of the header: it fits, has a value, and is not the CheckSum. *)
Definition header_field (f : Z * list Z) : Prop :=
  field_fits d f /\ f.2 <> [] /\ f.1 <> tags.kCheckSum /\ tags.IsAggregateSessionEnvelopeTag f.1 = true /\ header_accepts f.1 f.2 = true.

Lemma field_end t v : field_bytes t v d = (FormatUint32 t ++ 61 :: v) ++ [d].
Proof. unfold field_bytes. by rewrite <- !app_assoc. Qed.

Lemma FormatUint32_nonempty t : in_u32 t -> FormatUint32 t <> [].
Proof. intros Ht. destruct (FormatUint32_canonical t Ht) as (_ & _ & Hc). by destruct (FormatUint32 t). Qed.

Lemma split_field t v : in_u32 t -> v <> [] ->
  let field := FormatUint32 t ++ 61 :: v in let equals := FindByte sse field 61 in
  equals = length (FormatUint32 t) /\ ((length field <=? equals)%nat || (equals =? 0)%nat || (equals =? length field - 1)%nat = false) /\
  (forall label, ParseUnsigned (take equals field) label = Value t) /\ drop (equals + 1) field = v.
Proof.
  intros Ht Hv field equals. assert (He : equals = length (FormatUint32 t)).
  { unfold equals, field. rewrite FindByte_scalar. apply scalar_loop_absent. apply digits_not_elem; [by apply FormatUint32_canonical|unfold is_digit; lia]. }
  split; [done|]. rewrite He. unfold field. split_and!.
  - rewrite length_app. cbn [length]. pose proof (FormatUint32_nonempty t Ht). destruct (FormatUint32 t); [done|]. destruct v; [done|]. cbn [length]. rewrite !orb_false_iff. split_and!; [apply Nat.leb_gt|apply Nat.eqb_neq|apply Nat.eqb_neq]; lia.
  - intros label. rewrite take_app_length. by apply parse_count.
  - rewrite drop_app_ge by lia. replace (_ - _)%nat with 1%nat by lia. done.
Qed.

Lemma peek_scan_field pos t v rest : field_fits d (t, v) -> v <> [] -> from bytes pos (field_bytes t v d ++ rest) ->
  peek_scan sse bytes d pos = Some (Value (t, v, (pos + length (field_bytes t v d) - 1)%nat)).
Proof.
  intros (Ht & Hnd & _) Hv [Hpos Hdrop]. cbn [fst snd] in Ht, Hnd. destruct (split_field t v ltac:(ulia) Hv) as (He & Htest & Hparse & Hval). cbv zeta in *.
  assert (Hidx : FindByte sse (drop pos bytes) d = length (FormatUint32 t ++ 61 :: v)).
  { rewrite FindByte_scalar, Hdrop, field_end, <- app_assoc. apply scalar_loop_absent. rewrite elem_of_app, elem_of_cons. intros [Hin|[?|?]]; [|done..].
    apply Hd2. destruct (FormatUint32_canonical t ltac:(ulia)) as (Hdig & _). rewrite Forall_forall in Hdig. by apply Hdig. }
  unfold peek_scan. cbv zeta. rewrite Hidx, Hdrop. set (field := FormatUint32 t ++ 61 :: v) in *.
  assert (Hlen : (length bytes - pos = length field + 1 + length rest)%nat) by (rewrite <- length_drop, Hdrop, field_end; unfold field; rewrite !length_app; cbn; lia).
  assert (Hf : (0 < length field)%nat) by (unfold field; rewrite length_app; cbn; lia).
  replace (length bytes <=? pos + length field)%nat with false by (symmetry; apply Nat.leb_gt; lia).
  replace (pos + length field =? pos)%nat with false by (symmetry; apply Nat.eqb_neq; lia). replace (pos + length field - pos)%nat with (length field) by lia.
  rewrite field_end, <- app_assoc. fold field. rewrite take_app_length, Htest, Hparse, Hval, !length_app. do 4 f_equal. cbn. lia.
Qed.

(** The fields of the header, one turn each. *)
Lemma peek_header_loop hdr : forall fuel pos rest st, Forall header_field hdr -> from bytes pos (render hdr d ++ rest) -> (length bytes < pos + fuel)%nat -> (2 <= pk_count st)%nat ->
  exists fuel', (length bytes < pos + length (render hdr d) + fuel')%nat /\ peek_loop fuel sse bytes d pos st =
    peek_loop fuel' sse bytes d (pos + length (render hdr d)) (MkPeek (fold_left header_step hdr (pk_header st)) (pk_count st + length hdr) (pk_body_start st) (pk_checksum st)).
Proof.
  induction hdr as [|[t v] hdr IH]; intros fuel pos rest st Hh Hfrom Hfuel Hc.
  - exists fuel. cbn. rewrite !Nat.add_0_r. split; [lia|]. by destruct st.
  - apply Forall_cons in Hh as [(Hfit & Hv & Hnc & Henv & Hacc) Hh]. cbn [fst snd] in *. rewrite render_cons, <- app_assoc in Hfrom. rewrite render_cons, length_app.
    assert (Hlt : (pos < length bytes)%nat) by (eapply (from_lt bytes d); [exact Hfrom|]; by eexists v, _).
    assert (Hfl : (0 < length (field_bytes t v d))%nat) by (rewrite field_end, length_app; cbn; lia).
    destruct fuel as [|fuel]; [lia|]. cbn [peek_loop]. replace (length bytes <=? pos)%nat with false by (symmetry; apply Nat.leb_gt; lia).
    rewrite (peek_scan_field _ _ _ _ Hfit Hv Hfrom). replace (pos + length (field_bytes t v d) - 1 + 1)%nat with (pos + length (field_bytes t v d))%nat by lia.
    replace (S (pk_count st) =? 1)%nat with false by (symmetry; apply Nat.eqb_neq; lia). replace (S (pk_count st) =? 2)%nat with false by (symmetry; apply Nat.eqb_neq; lia).
    destruct (Z.eqb_spec t tags.kCheckSum); [done|]. rewrite Henv. cbn [negb]. rewrite peek_switch_step by done.
    apply from_app in Hfrom.
    destruct (IH fuel (pos + length (field_bytes t v d))%nat rest (MkPeek (header_step (pk_header st) (t, v)) (S (pk_count st)) (pk_body_start st) (pk_checksum st)) Hh Hfrom ltac:(lia) ltac:(cbn; lia)) as (fuel' & Hf' & Heq).
    exists fuel'. split; [lia|]. rewrite Heq. cbn [pk_header pk_count pk_body_start pk_checksum fold_left length]. f_equal; [lia|]. f_equal. lia.
Qed.

(** The first two fields of a frame. *)
Lemma peek_prefix bs content fuel : bytes = make_frame bs content d -> field_fits d (tags.kBeginString, bs) -> bs <> [] -> in_u32 (Z.of_nat (length content)) ->
  peek_loop (S (S fuel)) sse bytes d 0 (MkPeek empty_header 0 0 None) =
  peek_loop fuel sse bytes d (content_start d bs content)
    (MkPeek (with_body_length (Z.of_nat (length content)) (with_begin_string (text_of bs) empty_header)) 2 (content_start d bs content) None).
Proof.
  intros Hb Hfit Hne Hn. pose proof (frame_split bytes d Hsize bs content Hb) as Hf. pose proof (digits_fit bytes d Hd2 tags.kBodyLength _ ltac:(done) Hn) as Hfit1.
  assert (Hlen : (0 < length (field_bytes tags.kBeginString bs d))%nat) by (rewrite field_end, length_app; cbn; lia).
  assert (Hlen1 : (0 < length (field_bytes tags.kBodyLength (FormatUint32 (Z.of_nat (length content))) d))%nat) by (rewrite field_end, length_app; cbn; lia).
  assert (Hlt : (0 < length bytes)%nat) by (eapply (from_lt bytes d); [exact Hf|]; by eexists bs, _).
  pose proof (from_app bytes _ _ _ Hf) as Hf1. assert (Hlt1 : (0 + length (field_bytes tags.kBeginString bs d) < length bytes)%nat) by (eapply (from_lt bytes d); [exact Hf1|]; by eexists _, _).
  cbn [peek_loop]. replace (length bytes <=? 0)%nat with false by (symmetry; apply Nat.leb_gt; lia).
  rewrite (peek_scan_field _ _ _ _ Hfit Hne Hf). cbn [pk_count]. rewrite Nat.eqb_refl, Z.eqb_refl. cbn [negb].
  replace (0 + length (field_bytes tags.kBeginString bs d) - 1 + 1)%nat with (0 + length (field_bytes tags.kBeginString bs d))%nat by lia.
  match goal with |- context [(length bytes <=? ?n)%nat] => replace (length bytes <=? n)%nat with false by (symmetry; apply Nat.leb_gt; lia) end.
  rewrite (peek_scan_field _ _ _ _ Hfit1 (FormatUint32_nonempty _ Hn) Hf1).
  change (2 =? 1)%nat with false. rewrite Nat.eqb_refl, Z.eqb_refl. cbn [negb pk_header pk_body_start pk_checksum]. rewrite parse_count by done.
  unfold content_start. rewrite length_app. f_equal; [lia|]. f_equal. lia.
Qed.

(** Scanning back from a position inside a field. *)
Lemma back_to_start p v rest : d ∉ v -> forall k, (k <= length v)%nat -> back_to_delimiter (p ++ [d] ++ v ++ rest) d (length p + 1 + k) = (length p + 1)%nat.
Proof.
  intros Hv. induction k as [|k IH]; intros Hk.
  - rewrite Nat.add_0_r, Nat.add_1_r. cbn [back_to_delimiter app]. rewrite list_lookup_middle by done. cbn. by rewrite Z.eqb_refl.
  - rewrite Nat.add_succ_r. cbn [back_to_delimiter]. destruct (lookup_lt_is_Some_2 v k ltac:(lia)) as [x Hx].
    assert (Hl : (p ++ [d] ++ v ++ rest) !! (length p + 1 + k)%nat = Some x).
    { rewrite lookup_app_r by lia. replace (length p + 1 + k - length p)%nat with (S k) by lia. cbn. by apply lookup_app_l_Some. }
    rewrite Hl. change (default 0 (Some x)) with x. destruct (Z.eqb_spec x d) as [->|]; [by apply list_elem_of_lookup_2 in Hx|]. apply IH. lia.
Qed.

Lemma peek_checksum_found p c : 0 <= c < 256 -> bytes = (p ++ [d]) ++ field_bytes tags.kCheckSum (checksum_digits c) d ->
  peek_checksum sse bytes d = Value (c, length (p ++ [d])).
Proof.
  intros Hc Hb. destruct (split_field tags.kCheckSum (checksum_digits c) ltac:(by split) ltac:(done)) as (He & Htest & Hparse & Hval). cbv zeta in *.
  rewrite field_end in Hb. set (field := FormatUint32 tags.kCheckSum ++ 61 :: checksum_digits c) in *.
  assert (Hnd : d ∉ field).
  { unfold field. rewrite elem_of_app, elem_of_cons. intros [Hin|[Heq|Hin]]; [|done|].
    - apply Hd2. destruct (FormatUint32_canonical tags.kCheckSum ltac:(by split)) as (Hdig & _). rewrite Forall_forall in Hdig. by apply Hdig.
    - by destruct (checksum_fits bytes d Hd2 c) as (_ & ? & _). }
  assert (Hlen : length bytes = (length p + 1 + length field + 1)%nat) by (rewrite Hb, !length_app; cbn; lia).
  assert (Hstart : back_to_delimiter bytes d (length bytes - 1) = length (p ++ [d])).
  { rewrite Hlen, length_app. cbn [length]. replace (length p + 1 + length field + 1 - 1)%nat with (length p + 1 + length field)%nat by lia.
    rewrite Hb, <- !app_assoc. by apply back_to_start. }
  unfold peek_checksum. cbv zeta. rewrite Hstart, length_app. cbn [length].
  replace (length p + 1 =? 0)%nat with false by (symmetry; apply Nat.eqb_neq; lia). replace (length bytes - (length p + 1) - 1)%nat with (length field) by lia.
  assert (Hdrop : drop (length p + 1) bytes = field ++ [d]) by (rewrite Hb; apply drop_app_length'; rewrite length_app; cbn; lia).
  rewrite Hdrop, take_app_length, Htest, Hparse, Hval, Z.eqb_refl. cbn [negb]. by rewrite (parse_checksum bytes).
Qed.

(** What follows the header: nothing, or a field of another kind and further bytes
    up to a delimiter. *)
Definition behind_header (tail : list Z) : Prop :=
  tail = [] \/ exists t v rest, tail = field_bytes t v d ++ rest /\ field_fits d (t, v) /\ v <> [] /\ tags.IsAggregateSessionEnvelopeTag t = false /\ last tail = Some d.

Lemma last_snoc_inv {A} (l : list A) x : last l = Some x -> exists l', l = l' ++ [x].
Proof. destruct l as [|y l'] using rev_ind; [done|]. rewrite last_snoc. intros [= <-]. by exists l'. Qed.

Lemma peek_frame bs hdr tail verify : d <> 0 ->
  let content := render hdr d ++ tail in
  bytes = make_frame bs content d -> field_fits d (tags.kBeginString, bs) -> bs <> [] -> hdr <> [] -> Forall header_field hdr -> behind_header tail ->
  PeekSessionHeaderView sse bytes d verify =
  Value (with_checksum (frame_checksum d bs content)
    (fold_left header_step hdr (with_body_length (Z.of_nat (length content)) (with_begin_string (text_of bs) empty_header)))).
Proof.
  intros Hd0 content Hb Hbs Hne Hhdr Hfs Htail. set (c := frame_checksum d bs content). set (start := content_start d bs content). set (h0 := with_body_length _ _). set (h1 := fold_left header_step hdr h0).
  assert (Hc : 0 <= c < 256) by (apply Z.mod_pos_bound; lia).
  assert (Hparts : bytes = frame_prefix bs content d ++ field_bytes tags.kCheckSum (checksum_digits c) d) by (rewrite Hb; unfold make_frame; done).
  assert (Hpre : length (frame_prefix bs content d) = (start + length content)%nat) by (unfold frame_prefix, start, content_start; rewrite !length_app; lia).
  assert (Hclen : (0 < length content)%nat).
  { unfold content. destruct hdr as [|[t v] hdr]; [done|]. rewrite render_cons, field_end, !length_app. cbn. lia. }
  assert (Hcs : (0 < length (field_bytes tags.kCheckSum (checksum_digits c) d))%nat) by (rewrite field_end, length_app; cbn; lia).
  assert (Hblen : length bytes = (start + length content + length (field_bytes tags.kCheckSum (checksum_digits c) d))%nat) by (rewrite Hparts, length_app; lia).
  assert (Hn : in_u32 (Z.of_nat (length content))) by ulia.
  assert (Hstart : (2 <= start)%nat) by (unfold start, content_start; rewrite !field_end, !length_app; cbn [length]; lia).
  unfold PeekSessionHeaderView, NormalizeDelimiter. destruct (Z.eqb_spec d 0); [done|]. cbv zeta.
  assert (Hfuel : exists n, length bytes = S n /\ (start + n > length bytes)%nat) by (exists (pred (length bytes)); lia). destruct Hfuel as (n' & Hn' & Hfuel). rewrite Hn' at 1.
  rewrite (peek_prefix bs content n' Hb Hbs Hne Hn). fold start h0.
  pose proof (frame_start_from bytes d Hsize bs content Hb) as Hfrom. fold start c in Hfrom. unfold content in Hfrom at 1. rewrite <- app_assoc in Hfrom.
  destruct (peek_header_loop hdr n' start _ (MkPeek h0 2 start None) Hfs Hfrom ltac:(lia) ltac:(cbn; lia)) as (fuel & Hf & ->). cbn [pk_header pk_count pk_body_start pk_checksum]. fold h1.
  apply from_app in Hfrom. destruct fuel as [|fuel]; [destruct Hfrom; lia|].
  assert (Hlast : last bytes = Some d) by (rewrite Hparts, field_end, app_assoc; apply last_snoc).
  assert (Hcount : (2 + length hdr + 1 <? 4)%nat = false) by (destruct hdr; [done|]; apply Nat.ltb_ge; cbn; lia).
  assert (Hsum : (sum_scalar (take (start + length content) bytes) 0 mod 256 =? c) = true).
  { rewrite Hparts, take_app_length' by lia. apply Z.eqb_eq. done. }
  assert (Hbl : (Z.of_nat (length content) =? u64 (Z.of_nat (start + length content) - Z.of_nat start)) = true).
  { rewrite u64_small by ulia. apply Z.eqb_eq. lia. }
  assert (Hkeep : forall l h, h_body_length (fold_left header_step l h) = h_body_length h).
  { intros l. induction l as [|[t v] l IHl]; intros h; [done|]. cbn [fold_left]. rewrite IHl. unfold header_step, extract_header. cbn [fst snd]. cbv zeta.
    repeat match goal with |- context [t =? ?k] => destruct (t =? k); [first [done | by destruct (ParseUnsigned v _) | by destruct (ParseBoolean v _)]|] end. done. }
  assert (Hh1 : h_body_length h1 = Z.of_nat (length content)) by (unfold h1; rewrite Hkeep; done).
  destruct Htail as [->|(t & v & rest & Ht & Hfit & Hv & Henv & Hl)].
  - assert (Hcr : length content = length (render hdr d)) by (unfold content; by rewrite app_nil_r). rewrite app_nil_l in Hfrom.
    cbn [peek_loop]. match goal with |- context [(length bytes <=? ?p)%nat] => replace (length bytes <=? p)%nat with false by (symmetry; apply Nat.leb_gt; lia) end.
    rewrite <- (app_nil_r (field_bytes _ _ _)) in Hfrom. rewrite (peek_scan_field _ _ _ _ (checksum_fits bytes d Hd2 c) ltac:(done) Hfrom). cbn [pk_count].
    destruct hdr as [|f hdr]; [done|]. cbn [length Nat.add Nat.eqb]. rewrite Z.eqb_refl.
    match goal with |- context [(?p =? length bytes)%nat] => replace (p =? length bytes)%nat with true by (symmetry; apply Nat.eqb_eq; lia) end. cbn [negb].
    rewrite (parse_checksum bytes) by done. rewrite Hlast, Z.eqb_refl. cbn [negb pk_count pk_checksum pk_header pk_body_start Nat.eqb]. cbn in Hcount. cbn [Nat.ltb Nat.leb]. rewrite <- Hcr.
    cbn [h_body_length h_checksum with_checksum]. rewrite Hh1, Hbl. cbn [negb]. rewrite Hsum. cbn [negb]. by rewrite andb_false_r.
  - rewrite Ht, <- app_assoc in Hfrom. cbn [peek_loop].
    assert (Hlt : (start + length (render hdr d) < length bytes)%nat) by (eapply (from_lt bytes d); [exact Hfrom|]; by eexists v, _).
    match goal with |- context [(length bytes <=? ?p)%nat] => replace (length bytes <=? p)%nat with false by (symmetry; apply Nat.leb_gt; lia) end.
    rewrite (peek_scan_field _ _ _ _ Hfit Hv Hfrom). cbn [pk_count pk_header pk_body_start pk_checksum]. destruct hdr as [|f hdr]; [done|]. cbn [length Nat.add Nat.eqb].
    destruct (Z.eqb_spec t tags.kCheckSum) as [->|]; [done|]. rewrite Henv, Hlast. cbn [negb]. rewrite Z.eqb_refl. cbn [negb pk_count pk_checksum pk_header pk_body_start Nat.eqb Nat.ltb Nat.leb].
    destruct (last_snoc_inv _ _ Hl) as (tail' & Htail'). assert (Hp : frame_prefix bs content d = (field_bytes tags.kBeginString bs d ++ field_bytes tags.kBodyLength (FormatUint32 (Z.of_nat (length content))) d ++ render (f :: hdr) d ++ tail') ++ [d]).
    { unfold frame_prefix. rewrite <- !app_assoc. do 2 f_equal. unfold content. by rewrite Htail'. }
    rewrite Hp in Hparts. rewrite (peek_checksum_found _ c Hc Hparts). rewrite <- Hp, Hpre. cbn [h_body_length h_checksum with_checksum]. rewrite Hh1, Hbl. cbn [negb]. rewrite Hsum. cbn [negb]. by rewrite andb_false_r.
Qed.
End Rendered.

(** Fields of another kind leave the header alone. *)
Lemma header_step_other h f : tags.IsAggregateSessionEnvelopeTag f.1 = false -> header_step h f = h.
Proof.
  destruct f as [t v]. cbn [fst]. intros Ht. unfold header_step, extract_header. cbn [fst snd]. cbv zeta.
  repeat match goal with |- context [t =? ?k] => destruct (Z.eqb_spec t k); [subst t; vm_compute in Ht; discriminate|] end. done.
Qed.

Lemma fold_header_other l h : Forall (fun f => tags.IsAggregateSessionEnvelopeTag f.1 = false) l -> fold_left header_step l h = h.
Proof. induction 1 as [|f l Hf _ IH]; cbn [fold_left]; [done|]. by rewrite header_step_other. Qed.

Lemma render_last fs d : fs <> [] -> last (render fs d) = Some d.
Proof.
  induction fs as [|[t v] fs IH]; [done|]. intros _. rewrite render_cons. destruct fs as [|f fs].
  - change (render [] d) with (@nil Z). rewrite app_nil_r, field_end. apply last_snoc.
  - destruct (last_snoc_inv _ _ (IH ltac:(done))) as (l & ->). rewrite app_assoc. apply last_snoc.
Qed.

(** C30: the peek sees the header the decoder sees, and checks the frame as it does.
    Whatever bytes the peek accepts are framed as the frames the decoder accepts: a
    BeginString field, a BodyLength field, a body of exactly the announced length and a
    CheckSum field at the end, the header it returns shows the three values, and under
    verification the checksum is the byte sum of everything before it modulo 256; so a
    frame with a wrong length or, under verification, a wrong checksum is refused by
    both.  And for a frame with the right length and checksum whose header fields come
    first, followed by fields and groups that conform to the dictionary within the limits
    of the decoder, both accept it, with and without verification, and the header read
    without a dictionary is the header of the decoded message.  Conditions of the second
    part: BeginString, MsgType, the header fields and the first field behind them have
    values (the peek refuses an empty one), the header accepts the values, and the
    delimiter is neither zero, a digit nor an equals sign. *)
Theorem peek_agrees_with_decoder `{FloatText} {SA : SortAlgorithm de_msg_type} sse dict d bs mt hdr body m verify output :
  let nodes := field_nodes hdr ++ body in
  let all := NField tags.kMsgType mt :: nodes in
  let frame := make_frame bs (render (tree_fields all) d) d in
  d <> 0 -> d <> kEquals -> ~ is_digit d ->
  (forall bytes h, Z.of_nat (length bytes) <= UINT32_MAX -> PeekSessionHeaderView sse bytes d verify = Value h -> header_framed bytes d verify h) /\
  (Forall is_byte frame -> Z.of_nat (length frame) <= UINT32_MAX ->
   value_ok d bs = true -> value_ok d mt = true -> bs <> [] -> mt <> [] ->
   Z.of_nat (length (tree_fields all)) <= kInvalidHashSlot -> reusable output ->
   find_message dict mt = Some m -> body_conforms dict d (generic_group_at dict m) nodes = true ->
   Forall (header_field d) hdr -> Forall (fun x => tags.IsAggregateSessionEnvelopeTag (own_field x).1 = false) body ->
   match body with [] => True | x :: _ => (own_field x).2 <> [] end ->
   exists r, DecodeFixMessageView sse dict frame d verify output = Value r /\ PeekSessionHeaderView sse frame d verify = Value (df_header r)).
Proof.
  intros nodes all frame Hd0 Hd1 Hd2. split; [intros bytes h Hsize; by apply peek_framed|]. intros Hb Hl Hbs Hmt Hbsne Hmtne Hs Hout Hm Hok Hhdr Hbody Hfirst.
  destruct (frame_reads sse dict frame d Hd1 Hd2 Hl (generic_msg_type dict frame) (generic_field sse dict frame d) (generic_group_at dict m) (fun st => ds_message_def st = Some m) bs mt nodes verify output)
    as (r & o & Hr & Hreads & Hh); try done; [by apply value_fits|by apply value_fits|by apply generic_msg_type_reads|by apply generic_field_reads|].
  exists r. split; [done|]. rewrite Hh. unfold frame_header. destruct (field_nodes_fields hdr) as [Hf1 Hf2].
  set (hdr' := (tags.kMsgType, mt) :: hdr). set (tail := render (tree_fields body) d).
  assert (Hcontent : render (tree_fields all) d = render hdr' d ++ tail).
  { unfold all, nodes, tail, hdr'. rewrite tree_fields_cons. cbn [node_fields app]. rewrite !render_cons, <- app_assoc. f_equal. rewrite <- render_app. f_equal.
    rewrite <- Hf1 at 2. unfold tree_fields. by rewrite map_app, concat_app. }
  assert (Hfold : forall h, fold_left header_step (map own_field all) h = fold_left header_step hdr' h).
  { intros h. unfold all, nodes, hdr'. cbn [map own_field fold_left]. rewrite map_app, Hf2, fold_left_app. apply fold_header_other. by apply Forall_map. }
  assert (Hh' : Forall (header_field d) hdr').
  { constructor; [|done]. split; [by apply value_fits|]. split; [done|]. split; [done|]. split; [vm_compute; reflexivity|]. unfold header_accepts, extract_header. cbn [fst]. by vm_compute. }
  assert (Htail : behind_header d tail).
  { destruct body as [|x body]; [by left|]. right. unfold body_conforms in Hok. rewrite !andb_true_iff in Hok. destruct Hok as (((Hok & _) & _) & _).
    rewrite forallb_forall in Hok. specialize (Hok x ltac:(apply in_app_iff; right; by left)). assert (Hfit : field_fits d (own_field x)) by (eapply root_conforms_iff in Hok; [tauto|done..]).
    apply Forall_cons in Hbody as [Hx _]. exists (own_field x).1, (own_field x).2, (render (inner_fields x ++ tree_fields body) d). split_and!; try done.
    - unfold tail. rewrite tree_fields_cons, node_fields_eq. cbn [app]. by destruct (own_field x).
    - apply render_last. rewrite tree_fields_cons, node_fields_eq. done. }
  rewrite Hfold. fold all. rewrite Hcontent. apply (peek_frame sse frame d Hd1 Hd2 Hl bs hdr' tail verify Hd0); try done; [by unfold frame; rewrite Hcontent|by apply value_fits].
Qed.

#[local] Instance peek_float_text : FloatText := {| from_chars_double l := from_chars_i64 l |}.

Definition demo_peek_header : list (Z * list Z) := [(49, bytes "A"); (56, bytes "B"); (34, bytes "2")].
Definition demo_peek_body : list Node :=
  [NField 11 (bytes "id"); NField 54 (bytes "1"); NGroup 453 [[NField 448 (bytes "x"); NField 447 (bytes "D")]; [NField 448 (bytes "y")]]; NField 38 (bytes "100"); NField 58 (bytes "t")].

Lemma peek_agrees_with_decoder_witness : exists r,
  DecodeFixMessageView true demo_dictionary demo_order_frame 1 true NewParsedMessageData = Value r /\ PeekSessionHeaderView true demo_order_frame 1 true = Value (df_header r) /\
  header_framed demo_order_frame 1 true (df_header r).
Proof.
  assert (Hb : Forall is_byte (make_frame (bytes "FIX.4.4") (render (tree_fields (NField 35 (bytes "D") :: field_nodes demo_peek_header ++ demo_peek_body)) 1) 1)) by (apply (bool_decide_unpack _); vm_compute; exact I).
  assert (Hout : reusable NewParsedMessageData) by apply (represents_reusable _ nobody), represents_new.
  assert (Hh : Forall (header_field 1) demo_peek_header).
  { repeat (apply Forall_cons; split; [split; [apply value_fits; vm_compute; reflexivity|split_and!; first [done | vm_compute; reflexivity]]|]). apply Forall_nil. done. }
  assert (Hframe : make_frame (bytes "FIX.4.4") (render (tree_fields (NField 35 (bytes "D") :: field_nodes demo_peek_header ++ demo_peek_body)) 1) 1 = demo_order_frame) by (vm_compute; reflexivity).
  destruct (peek_agrees_with_decoder true demo_dictionary 1 (bytes "FIX.4.4") (bytes "D") demo_peek_header demo_peek_body demo_order true NewParsedMessageData
    ltac:(done) ltac:(done) ltac:(unfold is_digit; lia)) as [Hframed Hagree]. cbv zeta in Hframed, Hagree.
  destruct (Hagree Hb ltac:(done) eq_refl eq_refl ltac:(done) ltac:(done) ltac:(done) Hout
    ltac:(vm_compute; reflexivity) ltac:(vm_compute; reflexivity) Hh ltac:(repeat constructor) ltac:(done)) as (r & Hr & Hp).
  exists r. rewrite <- Hframe. split; [exact Hr|]. split; [exact Hp|]. apply Hframed; [apply Z.leb_le; vm_compute; reflexivity|exact Hp].
Defined.

(** ** Corners *)

Definition demo_peek_frame (fs : list (Z * list Z)) : list Z := make_frame (bytes "FIX.4.4") (render fs 1) 1.

(** An empty header field makes the peek fail, and with it the connection; the decoder
    takes the frame. *)
Theorem peek_refuses_empty_value :
  let frame := demo_peek_frame [(35, bytes "D"); (49, bytes "A"); (56, bytes "B"); (34, bytes "2"); (50, []); (11, bytes "id"); (54, bytes "1"); (38, bytes "100")] in
  PeekSessionHeaderView true frame 1 true = Error (status.FormatError "invalid FIX field syntax") /\
  exists r, DecodeFixMessageView true demo_dictionary frame 1 true NewParsedMessageData = Value r /\ h_msg_seq_num (df_header r) = 2.
Proof. split; [vm_compute; reflexivity|]. eexists. split; vm_compute; reflexivity. Qed.

(** A header field behind a field of the body is not seen by the peek. *)
Theorem peek_misses_late_header :
  let frame := demo_peek_frame [(35, bytes "D"); (49, bytes "A"); (56, bytes "B"); (11, bytes "id"); (54, bytes "1"); (38, bytes "100"); (34, bytes "2")] in
  (exists h, PeekSessionHeaderView true frame 1 true = Value h /\ h_msg_seq_num h = 0) /\
  exists r, DecodeFixMessageView true demo_dictionary frame 1 true NewParsedMessageData = Value r /\ h_msg_seq_num (df_header r) = 2.
Proof. split; eexists; split; vm_compute; reflexivity. Qed.
