(* ===== verification/SessionRegistry.v ===== *)
(** * The registry of live sessions

    [runtime/live_session_registry.cpp]: which sessions have a transport connection, the
    last snapshot of each session, the first terminal status, and the subscribers to
    session notifications.  A subscription is a queue shared with its consumer; the
    registry holds a weak reference to it.  The queues that are alive form a heap of
    their own, so that a weak reference expires when the consumer lets go of its queue.
    Every method holds the mutex and is one step, but for [PublishNotification], which
    pushes to the queues after it released the mutex: in a concurrent run the pushes of
    a publication are steps of their own. *)
From S2P Require Import Prelude Base TransportProfile SessionCore.
From stdpp Require Import gmap.
Open Scope Z_scope.

Module SessionNotificationKind.
Inductive t := kSessionBound | kSessionActive | kSessionClosed | kAdminMessage | kApplicationMessage.
End SessionNotificationKind.

(** The message is kept in whatever form the runtime owns it. *)
Record SessionNotification (M : Type) := MkNotification {
  n_kind : SessionNotificationKind.t;
  n_snapshot : SessionSnapshot;
  n_session_key : SessionKey;
  n_message : option M;
  n_text : string;
  n_timestamp_ns : Z;
}.
Arguments MkNotification {M}.
Arguments n_kind {M}.
Arguments n_snapshot {M}.
Arguments n_session_key {M}.
Arguments n_message {M}.
Arguments n_text {M}.
Arguments n_timestamp_ns {M}.

Section registry.
Context {M : Type}.

(** A [SubscriberStream]: its single-producer queue holds one element at least. *)
Record SubscriberStream := MkStream { ss_capacity : nat; ss_queue : list (SessionNotification M) }.

Definition ss_room (s : SubscriberStream) : nat := Nat.max 1 (ss_capacity s).

Record LiveSessionRegistry := MkRegistry {
  snapshots_ : gmap Z SessionSnapshot;
  subscribers_ : gmap Z (list nat);
  active_session_ids_ : gset Z;
  terminal_status_ : option Status;
  streams : gmap nat SubscriberStream;
  next_stream : nat;
}.

Definition NewRegistry : LiveSessionRegistry := MkRegistry ∅ ∅ ∅ None ∅ 0.

Definition Clear (r : LiveSessionRegistry) : LiveSessionRegistry := MkRegistry ∅ ∅ ∅ None (streams r) (next_stream r).

Definition ClearTerminalStatus (r : LiveSessionRegistry) : LiveSessionRegistry :=
  MkRegistry (snapshots_ r) (subscribers_ r) (active_session_ids_ r) None (streams r) (next_stream r).

Definition HasActiveSession (session_id : Z) (r : LiveSessionRegistry) : bool := bool_decide (session_id ∈ active_session_ids_ r).

Definition RegisterActiveSession (session_id : Z) (r : LiveSessionRegistry) : LiveSessionRegistry * bool :=
  (MkRegistry (snapshots_ r) (subscribers_ r) ({[session_id]} ∪ active_session_ids_ r) (terminal_status_ r) (streams r) (next_stream r),
   negb (HasActiveSession session_id r)).

Definition UnregisterActiveSession (session_id : Z) (r : LiveSessionRegistry) : LiveSessionRegistry :=
  MkRegistry (snapshots_ r) (subscribers_ r) (active_session_ids_ r ∖ {[session_id]}) (terminal_status_ r) (streams r) (next_stream r).

(** The first status stays. *)
Definition SetTerminalStatus (st : Status) (r : LiveSessionRegistry) : LiveSessionRegistry :=
  match terminal_status_ r with
  | Some _ => r
  | None => MkRegistry (snapshots_ r) (subscribers_ r) (active_session_ids_ r) (Some st) (streams r) (next_stream r)
  end.

Definition LoadTerminalStatus (r : LiveSessionRegistry) : option Status := terminal_status_ r.

Definition UpdateSnapshot (snapshot : SessionSnapshot) (r : LiveSessionRegistry) : LiveSessionRegistry :=
  MkRegistry (<[snap_session_id snapshot := snapshot]> (snapshots_ r)) (subscribers_ r) (active_session_ids_ r) (terminal_status_ r) (streams r) (next_stream r).

Definition LoadSnapshot (session_id : Z) (r : LiveSessionRegistry) : Result SessionSnapshot :=
  match snapshots_ r !! session_id with Some s => Value s | None => Error (status.NotFound "session snapshot was not found") end.

(** The order of an unordered map is not specified. *)
Definition LoadAllSnapshots (r : LiveSessionRegistry) : list SessionSnapshot := snd <$> map_to_list (snapshots_ r).

Definition with_subscribers (m : gmap Z (list nat)) (r : LiveSessionRegistry) : LiveSessionRegistry :=
  MkRegistry (snapshots_ r) m (active_session_ids_ r) (terminal_status_ r) (streams r) (next_stream r).

(** The stream is made before the session is looked up; when that fails it dies with
    the call. *)
Definition RegisterSubscriber (session_id : Z) (queue_capacity : nat) (r : LiveSessionRegistry) : LiveSessionRegistry * Result nat :=
  match snapshots_ r !! session_id with
  | None => (r, Error (status.NotFound "session subscription target was not found"))
  | Some _ =>
      let id := next_stream r in
      (MkRegistry (snapshots_ r) (<[session_id := default [] (subscribers_ r !! session_id) ++ [id]]> (subscribers_ r)) (active_session_ids_ r)
         (terminal_status_ r) (<[id := MkStream queue_capacity []]> (streams r)) (S id), Value id)
  end.

Definition expired (r : LiveSessionRegistry) (id : nat) : bool := match streams r !! id with Some _ => false | None => true end.

(** Expired references in front of the first live one. *)
Fixpoint skip_expired (r : LiveSessionRegistry) (ids : list nat) : list nat :=
  match ids with id :: rest => if expired r id then skip_expired r rest else ids | [] => [] end.

Definition HasSubscribers (session_id : Z) (r : LiveSessionRegistry) : LiveSessionRegistry * bool :=
  match subscribers_ r !! session_id with
  | None => (r, false)
  | Some ids =>
      match skip_expired r ids with
      | [] => (with_subscribers (delete session_id (subscribers_ r)) r, false)
      | live => (with_subscribers (<[session_id := live]> (subscribers_ r)) r, true)
      end
  end.

(** [SubscriberStream::TryPush]: a notification that finds no room is dropped. *)
Definition TryPush (n : SessionNotification M) (s : SubscriberStream) : SubscriberStream :=
  if (length (ss_queue s) <? ss_room s)%nat then MkStream (ss_capacity s) (ss_queue s ++ [n]) else s.

(** The part under the mutex: the snapshot is kept, expired references go, and the live
    streams are collected, which keeps them alive. *)
Definition publish_locked (n : SessionNotification M) (r : LiveSessionRegistry) : LiveSessionRegistry * list nat :=
  let id := snap_session_id (n_snapshot n) in
  let snapshots := <[id := n_snapshot n]> (snapshots_ r) in
  match subscribers_ r !! id with
  | None => (MkRegistry snapshots (subscribers_ r) (active_session_ids_ r) (terminal_status_ r) (streams r) (next_stream r), [])
  | Some ids =>
      let live := List.filter (fun id => negb (expired r id)) ids in
      (MkRegistry snapshots (<[id := live]> (subscribers_ r)) (active_session_ids_ r) (terminal_status_ r) (streams r) (next_stream r), live)
  end.

(** One turn of the loop behind the mutex. *)
Definition push_stream (n : SessionNotification M) (r : LiveSessionRegistry) (id : nat) : LiveSessionRegistry :=
  MkRegistry (snapshots_ r) (subscribers_ r) (active_session_ids_ r) (terminal_status_ r) (alter (TryPush n) id (streams r)) (next_stream r).

Definition PublishNotification (n : SessionNotification M) (r : LiveSessionRegistry) : LiveSessionRegistry :=
  let '(r, subscribers) := publish_locked n r in fold_left (push_stream n) subscribers r.

(** The consumer's side: taking a notification, and letting go of the queue. *)
Definition TryPop (id : nat) (r : LiveSessionRegistry) : LiveSessionRegistry * option (SessionNotification M) :=
  match streams r !! id with
  | Some (MkStream capacity (n :: rest)) =>
      (MkRegistry (snapshots_ r) (subscribers_ r) (active_session_ids_ r) (terminal_status_ r) (<[id := MkStream capacity rest]> (streams r)) (next_stream r), Some n)
  | _ => (r, None)
  end.

Definition ReleaseStream (id : nat) (r : LiveSessionRegistry) : LiveSessionRegistry :=
  MkRegistry (snapshots_ r) (subscribers_ r) (active_session_ids_ r) (terminal_status_ r) (delete id (streams r)) (next_stream r).
End registry.
Arguments SubscriberStream : clear implicits.
Arguments LiveSessionRegistry : clear implicits.

(** ** Runs *)

(** The methods that are one step; [RPop] and [RRelease] are steps of the consumer. *)
Inductive RegistryOp (M : Type) :=
  | RClear | RClearTerminal | RRegister (id : Z) | RUnregister (id : Z) | RSetTerminal (st : Status) | RUpdate (s : SessionSnapshot)
  | RSubscribe (id : Z) (capacity : nat) | RHasSubscribers (id : Z) | RPop (stream : nat) | RRelease (stream : nat).
Arguments RClear {M}.
Arguments RClearTerminal {M}.
Arguments RRegister {M}.
Arguments RUnregister {M}.
Arguments RSetTerminal {M}.
Arguments RUpdate {M}.
Arguments RSubscribe {M}.
Arguments RHasSubscribers {M}.
Arguments RPop {M}.
Arguments RRelease {M}.

Definition registry_exec {M} (r : LiveSessionRegistry M) (op : RegistryOp M) : LiveSessionRegistry M :=
  match op with
  | RClear => Clear r
  | RClearTerminal => ClearTerminalStatus r
  | RRegister id => fst (RegisterActiveSession id r)
  | RUnregister id => UnregisterActiveSession id r
  | RSetTerminal st => SetTerminalStatus st r
  | RUpdate s => UpdateSnapshot s r
  | RSubscribe id capacity => fst (RegisterSubscriber id capacity r)
  | RHasSubscribers id => fst (HasSubscribers id r)
  | RPop stream => fst (TryPop stream r)
  | RRelease stream => ReleaseStream stream r
  end.

(** The registry with the publications under way: for a session the notification and the
    streams it is still to be pushed to.  The worker of a session publishes its
    notifications one after the other; workers of different sessions, the consumers and
    all other callers interleave freely.  (A queue the consumer lets go of while a
    publication holds it is dropped at once: nobody can see it any more.) *)
Record Shared (M : Type) := MkShared { sh_registry : LiveSessionRegistry M; sh_publishing : gmap Z (SessionNotification M * list nat) }.
Arguments MkShared {M}.
Arguments sh_registry {M}.
Arguments sh_publishing {M}.

Inductive RegistryEvent (M : Type) :=
  | ELocked (op : RegistryOp M)
  | EPublish (n : SessionNotification M)
  | EPush (session : Z).
Arguments ELocked {M}.
Arguments EPublish {M}.
Arguments EPush {M}.

Inductive shared_step {M} : Shared M -> RegistryEvent M -> Shared M -> Prop :=
  | step_locked r p op : shared_step (MkShared r p) (ELocked op) (MkShared (registry_exec r op) p)
  | step_publish r p n (session := snap_session_id (n_snapshot n)) (r' := fst (publish_locked n r)) (ids := snd (publish_locked n r)) :
      p !! session = None -> shared_step (MkShared r p) (EPublish n) (MkShared r' (<[session := (n, ids)]> p))
  | step_push r p session n id ids : p !! session = Some (n, id :: ids) ->
      shared_step (MkShared r p) (EPush session) (MkShared (push_stream n r id) (<[session := (n, ids)]> p))
  | step_published r p session n : p !! session = Some (n, []) -> shared_step (MkShared r p) (EPush session) (MkShared r (delete session p)).

Inductive shared_run {M} : Shared M -> list (RegistryEvent M) -> Shared M -> Prop :=
  | run_nil s : shared_run s [] s
  | run_cons s e s1 es s2 : shared_step s e s1 -> shared_run s1 es s2 -> shared_run s (e :: es) s2.

(** What the consumer of [stream] takes out at an event. *)
Definition taken_at {M} (stream : nat) (e : RegistryEvent M) (s : Shared M) : list (SessionNotification M) :=
  match e with ELocked (RPop x) => if (x =? stream)%nat then option_list (snd (TryPop x (sh_registry s))) else [] | _ => [] end.

(** A run with what the consumer took out of [stream] in it. *)
Inductive taking_run {M} (stream : nat) : Shared M -> list (RegistryEvent M) -> list (SessionNotification M) -> Shared M -> Prop :=
  | taking_nil s : taking_run stream s [] [] s
  | taking_cons s e s1 es taken s2 : shared_step s e s1 -> taking_run stream s1 es taken s2 -> taking_run stream s (e :: es) (taken_at stream e s ++ taken) s2.

(** The notifications of a run for [session], in the order of publication. *)
Definition published {M} (session : Z) (es : list (RegistryEvent M)) : list (SessionNotification M) :=
  omap (fun e => match e with EPublish n => if snap_session_id (n_snapshot n) =? session then Some n else None | _ => None end) es.

(** The consumer keeps the queue, and nobody else lets go of it. *)
Definition keeps_stream {M} (stream : nat) (e : RegistryEvent M) : Prop := match e with ELocked (RRelease s) => s <> stream | _ => True end.

(** The registry is not cleared: the runtime is not stopped. *)
Definition not_cleared {M} (e : RegistryEvent M) : Prop := match e with ELocked RClear => False | _ => True end.

Record registry_ok {M} (r : LiveSessionRegistry M) : Prop := {
  ro_fresh : forall id, id ∈ dom (streams r) -> (id < next_stream r)%nat;
  ro_known : forall session ids id, subscribers_ r !! session = Some ids -> id ∈ ids -> (id < next_stream r)%nat;
  ro_once : forall session ids, subscribers_ r !! session = Some ids -> NoDup ids;
  ro_one : forall s1 s2 ids1 ids2 id, subscribers_ r !! s1 = Some ids1 -> subscribers_ r !! s2 = Some ids2 -> id ∈ ids1 -> id ∈ ids2 -> s1 = s2;
}.

(** No stream is pushed to twice by one publication. *)
Record shared_ok {M} (s : Shared M) : Prop := {
  so_registry : registry_ok (sh_registry s);
  so_once : forall session n ids, sh_publishing s !! session = Some (n, ids) -> NoDup ids;
  so_known : forall session n ids id, sh_publishing s !! session = Some (n, ids) -> id ∈ ids -> (id < next_stream (sh_registry s))%nat;
}.

(** [stream] is a subscription to [session] with the queue [q]; only publications of the
    session can reach it. *)
Record tracked {M} (session : Z) (stream capacity : nat) (q : list (SessionNotification M)) (s : Shared M) : Prop := {
  tk_queue : streams (sh_registry s) !! stream = Some (MkStream capacity q);
  tk_owner : forall session' ids, subscribers_ (sh_registry s) !! session' = Some ids -> stream ∈ ids -> session' = session;
  tk_flight : forall session' n ids, sh_publishing s !! session' = Some (n, ids) -> stream ∈ ids -> session' = session;
}.

(** The registry still refers to it. *)
Definition registered {M} (session : Z) (stream : nat) (s : Shared M) : Prop :=
  exists ids, subscribers_ (sh_registry s) !! session = Some ids /\ stream ∈ ids.

(** The notification on its way to it. *)
Definition in_flight {M} (session : Z) (stream : nat) (s : Shared M) : list (SessionNotification M) :=
  match sh_publishing s !! session with Some (n, ids) => if decide (stream ∈ ids) then [n] else [] | None => [] end.

Section proofs.
Context {M : Type}.
Implicit Types r : LiveSessionRegistry M.

Lemma new_registry_ok : registry_ok (@NewRegistry M).
Proof. constructor; cbn; intros *; rewrite ?lookup_empty; try done. Qed.

(** Operations that leave the subscriptions alone. *)
Lemma registry_ok_same r r' : subscribers_ r' = subscribers_ r -> dom (streams r') ⊆ dom (streams r) -> next_stream r' = next_stream r -> registry_ok r -> registry_ok r'.
Proof. intros H1 H2 H3 [A B C D]. constructor; rewrite ?H1, ?H3; eauto. Qed.

(** Operations that shorten the list of one session. *)
Lemma registry_ok_shrink r r' session ids ids' : subscribers_ r !! session = Some ids -> sublist ids' ids ->
  subscribers_ r' = <[session := ids']> (subscribers_ r) -> dom (streams r') ⊆ dom (streams r) -> next_stream r' = next_stream r -> registry_ok r -> registry_ok r'.
Proof.
  intros Hs Hsub H1 H2 H3 [A B C D]. assert (Hin : forall s l x, <[session := ids']> (subscribers_ r) !! s = Some l -> x ∈ l -> exists l', subscribers_ r !! s = Some l' /\ x ∈ l').
  { intros s l x. destruct (decide (s = session)) as [->|]; [rewrite lookup_insert_eq; intros [= <-] Hx|rewrite lookup_insert_ne by done; eauto]. exists ids. split; [done|]. eapply elem_of_sublist; eauto. }
  constructor; rewrite ?H1, ?H3; [by eauto| | |].
  - intros s l x Hl Hx. destruct (Hin _ _ _ Hl Hx) as (l' & ? & ?). eauto.
  - intros s l. destruct (decide (s = session)) as [->|]; [rewrite lookup_insert_eq; intros [= <-]|rewrite lookup_insert_ne by done; eauto]. eapply sublist_NoDup; eauto.
  - intros s1 s2 l1 l2 x G1 G2 Hx1 Hx2. destruct (Hin _ _ _ G1 Hx1) as (? & ? & ?), (Hin _ _ _ G2 Hx2) as (? & ? & ?). eauto.
Qed.

Lemma skip_expired_sublist r ids : sublist (skip_expired r ids) ids.
Proof. induction ids as [|id ids IH]; cbn; [done|]. destruct (expired r id); [by apply sublist_cons|done]. Qed.

Lemma filter_sublist_of {A} (f : A -> bool) l : sublist (List.filter f l) l.
Proof. induction l as [|x l IH]; cbn; [done|]. destruct (f x); [by apply sublist_skip|by apply sublist_cons]. Qed.

Lemma subscribe_ok r session capacity : registry_ok r -> registry_ok (fst (RegisterSubscriber session capacity r)).
Proof.
  intros Hr. unfold RegisterSubscriber. destruct (snapshots_ r !! session) as [snap|]; [|done]. cbn [fst]. destruct Hr as [A B C D].
  assert (Hold : forall x, x ∈ default [] (subscribers_ r !! session) -> (x < next_stream r)%nat) by (intros x; destruct (subscribers_ r !! session) eqn:E; cbn; [eauto|by intros ?%not_elem_of_nil]).
  constructor; cbn.
  - intros id. rewrite dom_insert. intros [->%elem_of_singleton|Hin]%elem_of_union; [lia|]. specialize (A id Hin). lia.
  - intros s l x. destruct (decide (s = session)) as [->|]; [rewrite lookup_insert_eq; intros [= <-]|rewrite lookup_insert_ne by done; intros G1 G2; specialize (B _ _ _ G1 G2); lia].
    intros [Hx| ->%list_elem_of_singleton]%elem_of_app; [specialize (Hold x Hx)|]; lia.
  - intros s l. destruct (decide (s = session)) as [->|]; [rewrite lookup_insert_eq; intros [= <-]|rewrite lookup_insert_ne by done; eauto].
    apply NoDup_app. split_and!; [destruct (subscribers_ r !! session) eqn:E; cbn; [eauto|constructor]| |apply NoDup_singleton]. intros x Hx ->%list_elem_of_singleton. specialize (Hold _ Hx). lia.
  - assert (Hfind : forall s l x, <[session := default [] (subscribers_ r !! session) ++ [next_stream r]]> (subscribers_ r) !! s = Some l -> x ∈ l ->
      (x = next_stream r /\ s = session) \/ ((x < next_stream r)%nat /\ exists l', subscribers_ r !! s = Some l' /\ x ∈ l')).
    { intros s l x. destruct (decide (s = session)) as [->|]; [rewrite lookup_insert_eq; intros [= <-]|rewrite lookup_insert_ne by done; eauto 10].
      intros [Hx| ->%list_elem_of_singleton]%elem_of_app; [right|by left]. split; [by apply Hold|]. destruct (subscribers_ r !! session) eqn:E; cbn in Hx; [eauto|by apply not_elem_of_nil in Hx]. }
    intros s1 s2 l1 l2 x G1 G2 Hx1 Hx2. destruct (Hfind _ _ _ G1 Hx1) as [[? ->]|(? & ? & ? & ?)], (Hfind _ _ _ G2 Hx2) as [[? ->]|(? & ? & ? & ?)]; try done; try lia. eauto.
Qed.

Lemma registry_exec_ok op r : registry_ok r -> registry_ok (registry_exec r op).
Proof.
  intros Hr. destruct op; cbn [registry_exec]; try (by apply (registry_ok_same r)).
  - destruct Hr as [A _ _ _]. constructor; cbn; [done| | |]; intros *; by rewrite ?lookup_empty.
  - unfold SetTerminalStatus. destruct (terminal_status_ r); [done|]. by apply (registry_ok_same r).
  - by apply subscribe_ok.
  - unfold HasSubscribers. destruct (subscribers_ r !! id) as [ids|] eqn:E; [|done]. pose proof (skip_expired_sublist r ids) as Hsub. destruct (skip_expired r ids) as [|x live] eqn:Ex; cbn [fst].
    + destruct Hr as [A B C D]. constructor; cbn; [done| | |].
      * intros s l x [_ Hl]%lookup_delete_Some. eauto.
      * intros s l [_ Hl]%lookup_delete_Some. eauto.
      * intros s1 s2 l1 l2 x [_ G1]%lookup_delete_Some [_ G2]%lookup_delete_Some. eauto.
    + by eapply registry_ok_shrink.
  - unfold TryPop. destruct (streams r !! stream) as [[capacity [|n rest]]|] eqn:E; try done. apply (registry_ok_same r); try done. cbn. by rewrite dom_insert_lookup_L.
  - apply (registry_ok_same r); try done. cbn. rewrite dom_delete_L. set_solver.
Qed.

Lemma registry_exec_next op r : (next_stream r <= next_stream (registry_exec r op))%nat.
Proof.
  destruct op; cbn [registry_exec]; try done.
  - unfold SetTerminalStatus. by destruct (terminal_status_ r).
  - unfold RegisterSubscriber. destruct (snapshots_ r !! id); cbn; lia.
  - unfold HasSubscribers. destruct (subscribers_ r !! id); [|done]. by destruct (skip_expired r _).
  - unfold TryPop. by destruct (streams r !! stream) as [[? []]|].
Qed.

Lemma publish_locked_ok n r : registry_ok r ->
  let '(r', ids) := publish_locked n r in
  registry_ok r' /\ next_stream r' = next_stream r /\ NoDup ids /\ (forall id, id ∈ ids -> (id < next_stream r)%nat).
Proof.
  intros Hr. unfold publish_locked. cbv zeta. destruct (subscribers_ r !! _) as [ids|] eqn:E.
  - pose proof (filter_sublist_of (fun id => negb (expired r id)) ids) as Hsub. split; [|split; [done|split]].
    + by eapply registry_ok_shrink.
    + eapply sublist_NoDup; [by eapply ro_once|done].
    + intros id Hid. eapply ro_known; [done|exact E|]. by eapply elem_of_sublist.
  - split; [by apply (registry_ok_same r)|]. split; [done|]. split; [constructor|]. intros id Hid. by apply not_elem_of_nil in Hid.
Qed.

Lemma shared_step_ok (s : Shared M) e s' : shared_step s e s' -> shared_ok s -> shared_ok s'.
Proof.
  intros Hs [Hr H1 H2]. destruct Hs as [r p op|r p n session r' ids Hp|r p session n id ids Hp|r p session n Hp]; cbn in *.
  - constructor; cbn; [by apply registry_exec_ok|exact H1|]. intros session n ids id Hx Hin. specialize (H2 _ _ _ _ Hx Hin). pose proof (registry_exec_next op r). lia.
  - pose proof (publish_locked_ok n r Hr) as Hpub. unfold r', ids. destruct (publish_locked n r) as [r1 live]. destruct Hpub as (P1 & P2 & P3 & P4). constructor; cbn; [done| |].
    + intros session' n' l. destruct (decide (session' = session)) as [->|]; [rewrite lookup_insert_eq; by intros [= _ <-]|rewrite lookup_insert_ne by done; eauto].
    + intros session' n' l x. rewrite P2. destruct (decide (session' = session)) as [->|]; [rewrite lookup_insert_eq; intros [= _ <-]; apply P4|rewrite lookup_insert_ne by done; eauto].
  - pose proof (H1 _ _ _ Hp) as Hnd. apply NoDup_cons in Hnd as [_ Hnd]. constructor; cbn.
    + apply (registry_ok_same r); [done| |done|done]. cbn. by rewrite dom_alter_L.
    + intros session' n' l. destruct (decide (session' = session)) as [->|]; [rewrite lookup_insert_eq; by intros [= _ <-]|rewrite lookup_insert_ne by done; eauto].
    + intros session' n' l x. destruct (decide (session' = session)) as [->|]; [rewrite lookup_insert_eq; intros [= _ <-] Hx|rewrite lookup_insert_ne by done; eauto]. eapply H2; [exact Hp|by right].
  - constructor; cbn; [done| |].
    + intros session' n' l [_ Hl]%lookup_delete_Some. eauto.
    + intros session' n' l x [_ Hl]%lookup_delete_Some. eauto.
Qed.

Lemma shared_run_ok (s : Shared M) es s' : shared_run s es s' -> shared_ok s -> shared_ok s'.
Proof. induction 1 as [|s e s1 es s2 Hs _ IH]; [done|]. intros Ho. by eapply IH, shared_step_ok. Qed.

Lemma pushes_run n key ids : forall (r : LiveSessionRegistry M) p, p !! key = Some (n, ids) ->
  shared_run (MkShared r p) (replicate (S (length ids)) (EPush key)) (MkShared (fold_left (push_stream n) ids r) (delete key p)).
Proof.
  induction ids as [|id ids IH]; intros r p Hp; cbn [length replicate fold_left].
  - eapply run_cons; [by eapply step_published|apply run_nil].
  - eapply run_cons; [by eapply step_push|]. rewrite <- (delete_insert_eq p key (n, ids)). apply IH, lookup_insert_eq.
Qed.

(** A publication that nothing interferes with is the method. *)
Lemma publish_run n (r : LiveSessionRegistry M) p (key := snap_session_id (n_snapshot n)) : p !! key = None ->
  exists es, shared_run (MkShared r p) (EPublish n :: es) (MkShared (PublishNotification n r) p).
Proof.
  intros Hp. exists (replicate (S (length (snd (publish_locked n r)))) (EPush key)). eapply run_cons; [by apply step_publish|]. fold key.
  unfold PublishNotification. destruct (publish_locked n r) as [r' ids]. cbn [fst snd].
  pose proof (pushes_run n key ids r' (<[key := (n, ids)]> p) (lookup_insert_eq _ _ _)) as Hrun. rewrite delete_insert_eq in Hrun. by rewrite (delete_id p key) in Hrun.
Qed.

(** ** One step as seen by a subscription *)

(** The steps under the mutex and those of the consumers. *)
Lemma locked_tracks op r p session stream capacity q : registry_ok r -> keeps_stream stream (ELocked op) -> tracked session stream capacity q (MkShared r p) ->
  tracked session stream capacity (match op with RPop x => if (x =? stream)%nat then tail q else q | _ => q end) (MkShared (registry_exec r op) p) /\
  (not_cleared (ELocked op) -> registered session stream (MkShared r p) -> registered session stream (MkShared (registry_exec r op) p)).
Proof.
  intros Hr Hk [Hq Ho Hf]. assert (Hlt : (stream < next_stream r)%nat) by (eapply ro_fresh; [done|]; by eapply elem_of_dom_2). cbn in Hq, Ho.
  destruct op; cbn [registry_exec keeps_stream not_cleared] in *; try (split; [by constructor|done]).
  - unfold SetTerminalStatus. destruct (terminal_status_ r); (split; [by constructor|done]).
  - unfold RegisterSubscriber. destruct (snapshots_ r !! id) as [snap|]; [|split; [by constructor|done]]. cbn [fst]. split.
    + constructor; cbn; [by rewrite lookup_insert_ne by lia| |done]. intros s ids. destruct (decide (s = id)) as [->|]; [rewrite lookup_insert_eq; intros [= <-]|rewrite lookup_insert_ne by done; apply Ho].
      intros [Hin| ->%list_elem_of_singleton]%elem_of_app; [|lia]. destruct (subscribers_ r !! id) eqn:E; cbn in Hin; [eauto|by apply not_elem_of_nil in Hin].
    + intros _ (ids & Hids & Hin). unfold registered. cbn in *. destruct (decide (id = session)) as [->|]; [rewrite lookup_insert_eq, Hids|rewrite lookup_insert_ne by done]; eexists; (split; [done|]); [|done]. cbn. set_solver.
  - unfold HasSubscribers. destruct (subscribers_ r !! id) as [l|] eqn:E; [|split; [by constructor|done]]. pose proof (skip_expired_sublist r l) as Hsub. split.
    + destruct (skip_expired r l) as [|x live] eqn:Ex; cbn [fst]; constructor; cbn; try done; intros s ids.
      * intros [_ Hl]%lookup_delete_Some. eauto.
      * destruct (decide (s = id)) as [->|]; [rewrite lookup_insert_eq; intros [= <-] Hin|rewrite lookup_insert_ne by done; eauto]. eapply Ho; [exact E|]. by eapply elem_of_sublist.
    + intros _ (ids & Hids & Hin). unfold registered. cbn in *. destruct (decide (id = session)) as [->|Hne].
      * rewrite E in Hids. injection Hids as ->. assert (Hs : stream ∈ skip_expired r ids).
        { clear E Hsub Ho Hf. induction ids as [|x l IH]; [done|]. cbn. unfold expired. destruct (streams r !! x) eqn:Ex; [done|]. apply IH. apply elem_of_cons in Hin as [->|]; [congruence|done]. }
        destruct (skip_expired r ids) as [|x live]; [by apply not_elem_of_nil in Hs|]. cbn. eexists. by rewrite lookup_insert_eq.
      * destruct (skip_expired r l); cbn; exists ids; [rewrite lookup_delete_ne by done|rewrite lookup_insert_ne by done]; done.
  - unfold TryPop. destruct (Nat.eqb_spec stream0 stream) as [->|Hne].
    + rewrite Hq. destruct q as [|n q]; [split; [by constructor|done]|]. split; [|done]. constructor; cbn; [by rewrite lookup_insert_eq|done|done].
    + destruct (streams r !! stream0) as [[c [|n rest]]|]; try (split; [by constructor|done]). split; [|done]. constructor; cbn; [by rewrite lookup_insert_ne|done|done].
  - split; [|done]. constructor; cbn; [by rewrite lookup_delete_ne|done|done].
Qed.

(** A publication begins: it holds the stream when it is one of its session that the
    registry refers to. *)
Lemma publish_tracks n r p session stream capacity q : let s := MkShared r p in let key := snap_session_id (n_snapshot n) in
  let s' := MkShared (fst (publish_locked n r)) (<[key := (n, snd (publish_locked n r))]> p) in
  p !! key = None -> tracked session stream capacity q s ->
  tracked session stream capacity q s' /\ (registered session stream s -> registered session stream s') /\
  sublist (in_flight session stream s') (in_flight session stream s ++ (if key =? session then [n] else [])) /\
  (registered session stream s -> in_flight session stream s' = in_flight session stream s ++ (if key =? session then [n] else [])).
Proof.
  intros s key s' Hp [Hq Ho Hf]. cbn in Hq, Ho, Hf.
  assert (Hin : forall x, x ∈ snd (publish_locked n r) -> exists ids, subscribers_ r !! key = Some ids /\ x ∈ ids).
  { unfold publish_locked. cbv zeta. fold key. destruct (subscribers_ r !! key) as [ids|]; cbn; intros x Hx; [|by apply not_elem_of_nil in Hx]. exists ids. split; [done|].
    eapply elem_of_sublist; [exact Hx|apply filter_sublist_of]. }
  assert (Hsubs : forall k ids, subscribers_ (fst (publish_locked n r)) !! k = Some ids -> stream ∈ ids -> k = session).
  { intros k ids. unfold publish_locked in *. cbv zeta in *. fold key in Hin |- *. destruct (subscribers_ r !! key) as [l|] eqn:E; cbn; [|by apply Ho].
    destruct (decide (k = key)) as [->|]; [rewrite lookup_insert_eq; intros [= <-] Hx|rewrite lookup_insert_ne by done; by apply Ho]. destruct (Hin _ Hx) as (l' & [= <-] & Hl). eauto. }
  assert (Hlive : registered session stream s -> key = session -> stream ∈ snd (publish_locked n r)).
  { intros (ids & Hids & Hx) Hk. cbn in Hids. unfold publish_locked. cbv zeta. fold key. rewrite Hk, Hids. cbn. apply list_elem_of_In, filter_In. split; [by apply list_elem_of_In|]. unfold expired. by rewrite Hq. }
  assert (Hnow : in_flight session stream s' = if key =? session then (if decide (stream ∈ snd (publish_locked n r)) then [n] else []) else in_flight session stream s).
  { unfold in_flight, s'. cbn [sh_publishing]. destruct (Z.eqb_spec key session) as [->|]; [by rewrite lookup_insert_eq|by rewrite lookup_insert_ne]. }
  assert (Hbefore : key = session -> in_flight session stream s = []) by (intros <-; unfold in_flight, s; cbn; by rewrite Hp).
  split; [constructor; cbn|split].
  - unfold publish_locked. cbv zeta. by destruct (subscribers_ r !! _).
  - exact Hsubs.
  - intros k m ids. destruct (decide (k = key)) as [->|]; [rewrite lookup_insert_eq; intros [= _ <-] Hx|rewrite lookup_insert_ne by done; eauto]. destruct (Hin _ Hx) as (l & Hl & Hxl). eauto.
  - intros (ids & Hids & Hx). cbn in Hids. unfold registered, s', publish_locked. cbv zeta. fold key. destruct (decide (key = session)) as [Hk|Hk].
    + rewrite Hk, Hids. cbn. eexists. rewrite lookup_insert_eq. split; [done|]. apply list_elem_of_In, filter_In. split; [by apply list_elem_of_In|]. unfold expired. by rewrite Hq.
    + exists ids. destruct (subscribers_ r !! key); cbn; [by rewrite lookup_insert_ne|done].
  - rewrite Hnow. destruct (Z.eqb_spec key session) as [Hk|Hk]; [|rewrite app_nil_r; by split]. rewrite (Hbefore Hk). cbn [app]. split; [destruct (decide _); [done|apply sublist_nil_l]|]. intros Hreg. by rewrite decide_True by auto.
Qed.

(** A publication pushes to its next stream. *)
Lemma push_tracks n id ids key r p session stream capacity q : let s := MkShared r p in let s' := MkShared (push_stream n r id) (<[key := (n, ids)]> p) in
  p !! key = Some (n, id :: ids) -> NoDup (id :: ids) -> tracked session stream capacity q s ->
  exists q', tracked session stream capacity q' s' /\ (registered session stream s -> registered session stream s') /\
    sublist (q' ++ in_flight session stream s') (q ++ in_flight session stream s) /\
    ((length (q ++ in_flight session stream s) <= Nat.max 1 capacity)%nat -> q' ++ in_flight session stream s' = q ++ in_flight session stream s).
Proof.
  intros s s' Hp Hnd [Hq Ho Hf]. cbn in Hq, Ho, Hf. apply NoDup_cons in Hnd as [Hnot _].
  assert (Hflight : forall k m l, <[key := (n, ids)]> p !! k = Some (m, l) -> stream ∈ l -> k = session).
  { intros k m l. destruct (decide (k = key)) as [->|]; [rewrite lookup_insert_eq; intros [= _ <-] Hx|rewrite lookup_insert_ne by done; eauto]. eapply Hf; [exact Hp|by right]. }
  destruct (decide (id = stream)) as [->|Hne].
  - assert (key = session) as -> by (eapply Hf; [exact Hp|left]).
    assert (H1 : in_flight session stream s = [n]) by (unfold in_flight, s; cbn; rewrite Hp, decide_True by left; done).
    assert (H2 : in_flight session stream s' = []) by (unfold in_flight, s'; cbn; rewrite lookup_insert_eq, decide_False by done; done).
    rewrite H1, H2. exists (if (length q <? Nat.max 1 capacity)%nat then q ++ [n] else q). rewrite app_nil_r. split; [|split; [done|split]].
    + constructor; cbn [s' sh_registry sh_publishing push_stream streams subscribers_]; [|done|done]. rewrite lookup_alter_eq, Hq. cbn [fmap option_fmap option_map]. unfold TryPush, ss_room. cbn [ss_capacity ss_queue]. by destruct (Nat.ltb (length q) (Nat.max 1 capacity)).
    + destruct (Nat.ltb (length q) (Nat.max 1 capacity)); [done|by apply sublist_inserts_r].
    + rewrite length_app. cbn [length]. intros Hl. destruct (Nat.ltb_spec (length q) (Nat.max 1 capacity)); [done|lia].
  - assert (H1 : in_flight session stream s' = in_flight session stream s).
    { unfold in_flight, s', s. cbn. destruct (decide (key = session)) as [->|]; [|by rewrite lookup_insert_ne]. rewrite lookup_insert_eq, Hp. destruct (decide (stream ∈ ids)) as [Hx|Hx]; [by rewrite decide_True by (by right)|].
      rewrite decide_False; [done|]. by intros [->|]%elem_of_cons. }
    rewrite H1. exists q. split; [|split; [done|by split]]. constructor; cbn; [by rewrite lookup_alter_ne|done|done].
Qed.

Lemma tracked_step (s : Shared M) e s' session stream capacity q : shared_step s e s' -> shared_ok s -> keeps_stream stream e -> tracked session stream capacity q s ->
  exists q', tracked session stream capacity q' s' /\ (not_cleared e -> registered session stream s -> registered session stream s') /\
    sublist (taken_at stream e s ++ q' ++ in_flight session stream s') (q ++ in_flight session stream s ++ published session [e]) /\
    (registered session stream s -> (length (q ++ in_flight session stream s ++ published session [e]) <= Nat.max 1 capacity)%nat ->
     taken_at stream e s ++ q' ++ in_flight session stream s' = q ++ in_flight session stream s ++ published session [e]).
Proof.
  intros Hs [Hr H1 H2] Hk Ht. destruct Hs as [r p op|r p n key r' ids Hp|r p key n id ids Hp|r p key n Hp]; cbn [sh_registry sh_publishing] in *.
  - destruct (locked_tracks op r p session stream capacity q Hr Hk Ht) as [L1 L2]. eexists. split; [exact L1|]. split; [exact L2|].
    change (in_flight session stream (MkShared (registry_exec r op) p)) with (in_flight session stream (MkShared r p)). change (published session [ELocked op]) with (@nil (SessionNotification M)). rewrite app_nil_r.
    assert (Hpop : taken_at stream (ELocked op) (MkShared r p) ++ match op with RPop x => if (x =? stream)%nat then tail q else q | _ => q end = q).
    { destruct op; try done. cbn [taken_at sh_registry]. destruct (Nat.eqb_spec stream0 stream) as [->|]; [|done]. unfold TryPop. pose proof (tk_queue _ _ _ _ _ Ht) as Hq. cbn in Hq. rewrite Hq. by destruct q. }
    rewrite app_assoc, Hpop. by split.
  - destruct (publish_tracks n r p session stream capacity q Hp Ht) as (P1 & P2 & P3 & P4). exists q. split; [exact P1|]. split; [intros _; exact P2|].
    assert (Hpub : published session [EPublish n] = if snap_session_id (n_snapshot n) =? session then [n] else []) by (unfold published; cbn; by destruct (_ =? _)).
    rewrite Hpub. cbn [taken_at app]. split; [by apply sublist_app|]. intros Hreg _. f_equal. by apply P4.
  - destruct (push_tracks n id ids key r p session stream capacity q Hp (H1 _ _ _ Hp) Ht) as (q' & P1 & P2 & P3 & P4). exists q'. split; [exact P1|]. split; [intros _; exact P2|].
    change (published session [EPush key]) with (@nil (SessionNotification M)). rewrite app_nil_r. cbn [taken_at app]. split; [exact P3|]. intros _. exact P4.
  - exists q. destruct Ht as [T1 T2 T3]. cbn in T1, T2, T3. split; [constructor; cbn; [done|done|]; intros k m l [_ Hl]%lookup_delete_Some; eauto|]. split; [done|].
    assert (Hf : in_flight session stream (MkShared r (delete key p)) = in_flight session stream (MkShared r p)).
    { unfold in_flight. cbn. destruct (decide (key = session)) as [->|]; [rewrite lookup_delete_eq, Hp; by rewrite decide_False by apply not_elem_of_nil|by rewrite lookup_delete_ne]. }
    rewrite Hf. change (published session [EPush key]) with (@nil (SessionNotification M)). rewrite app_nil_r. by split.
Qed.

Lemma published_cons session (e : RegistryEvent M) es : published session (e :: es) = published session [e] ++ published session es.
Proof. unfold published. cbn. destruct e as [op|n|k]; cbn; try done. by destruct (_ =? _). Qed.

Lemma tracked_run (s : Shared M) es taken s' stream : taking_run stream s es taken s' -> forall session capacity q, shared_ok s -> Forall (keeps_stream stream) es -> tracked session stream capacity q s ->
  exists q', tracked session stream capacity q' s' /\
    sublist (taken ++ q' ++ in_flight session stream s') (q ++ in_flight session stream s ++ published session es) /\
    (registered session stream s -> Forall not_cleared es -> (length (q ++ in_flight session stream s ++ published session es) <= Nat.max 1 capacity)%nat ->
     taken ++ q' ++ in_flight session stream s' = q ++ in_flight session stream s ++ published session es).
Proof.
  induction 1 as [s|s e s1 es tk s2 Hs _ IH]; intros session capacity q Hok Hk Ht.
  - exists q. change (published session []) with (@nil (SessionNotification M)). rewrite app_nil_r. by split_and!.
  - apply Forall_cons in Hk as [He Hk]. destruct (tracked_step s e s1 session stream capacity q Hs Hok He Ht) as (q1 & T1 & R1 & S1 & E1).
    destruct (IH session capacity q1 (shared_step_ok _ _ _ Hs Hok) Hk T1) as (q' & T2 & S2 & E2). exists q'. split; [exact T2|]. rewrite published_cons.
    set (a := in_flight session stream s) in *. set (b := in_flight session stream s1) in *. set (c := in_flight session stream s2) in *. set (x := published session [e]) in *. set (y := published session es) in *.
    assert (Hre : q ++ a ++ x ++ y = (q ++ a ++ x) ++ y) by (by rewrite <- !app_assoc). rewrite Hre, <- app_assoc. split.
    + transitivity (taken_at stream e s ++ q1 ++ b ++ y); [by apply sublist_app|]. replace (taken_at stream e s ++ q1 ++ b ++ y) with ((taken_at stream e s ++ q1 ++ b) ++ y) by (by rewrite <- !app_assoc). by apply sublist_app.
    + intros Hreg [Hn Hns]%Forall_cons Hlen. rewrite length_app in Hlen. specialize (E1 Hreg ltac:(lia)). rewrite <- E1, <- !app_assoc. f_equal. apply E2; [by apply R1|done|].
      apply (f_equal length) in E1. rewrite !length_app in *. lia.
Qed.
End proofs.

(** C31: a subscription shows what is published.  Whatever happens in the registry, with
    publications of other sessions, the pushes of a publication to its queues and all
    other calls interleaved in any order, the consumer of a subscription that keeps its
    queue receives notifications of its session only, each at most once and in the order
    of publication; and as long as the registry is not cleared (which stopping the runtime
    does, and drops every subscription) and their number fits the queue, all of them: what
    was published is what it took out, what is in the queue and the one that is being
    pushed.  The publications of one session come from one worker, one after the other. *)
Theorem subscription_delivers {M} before (s : Shared M) session capacity r stream es taken s' :
  shared_run (MkShared NewRegistry ∅) before s ->
  RegisterSubscriber session capacity (sh_registry s) = (r, Value stream) ->
  Forall (keeps_stream stream) es -> taking_run stream (MkShared r (sh_publishing s)) es taken s' ->
  exists q, streams (sh_registry s') !! stream = Some (MkStream capacity q) /\
    sublist (taken ++ q ++ in_flight session stream s') (published session es) /\
    (Forall not_cleared es -> (length (published session es) <= Nat.max 1 capacity)%nat -> taken ++ q ++ in_flight session stream s' = published session es).
Proof.
  intros Hbefore Hreg Hk Hrun. assert (Hs : shared_ok s).
  { eapply shared_run_ok; [exact Hbefore|]. constructor; cbn; [apply new_registry_ok| |]; intros *; by rewrite lookup_empty. }
  assert (Hs1 : shared_ok (MkShared r (sh_publishing s))).
  { destruct s as [r0 p]. cbn [sh_registry sh_publishing] in *. assert (r = registry_exec r0 (RSubscribe session capacity)) as -> by (cbn; by rewrite Hreg). eapply shared_step_ok; [apply step_locked|done]. }
  destruct s as [r0 p]. cbn [sh_registry sh_publishing] in *. destruct Hs as [Hr0 _ Hknown]. cbn in Hr0, Hknown.
  revert Hreg. unfold RegisterSubscriber. destruct (snapshots_ r0 !! session) as [snap|]; [|done]. intros [= Er Es]. cbn [sh_registry sh_publishing] in *.
  assert (Hold : forall key n ids, p !! key = Some (n, ids) -> stream ∈ ids -> False) by (intros key n ids Hp Hin; specialize (Hknown _ _ _ _ Hp Hin); lia).
  assert (Ht : tracked session stream capacity [] (MkShared r p)).
  { constructor; cbn.
    - rewrite <- Er, <- Es. cbn. by rewrite lookup_insert_eq.
    - intros key ids. rewrite <- Er. cbn. destruct (decide (key = session)) as [|Hne]; [done|]. rewrite lookup_insert_ne by done. intros Hids Hin. pose proof (ro_known _ Hr0 _ _ _ Hids Hin). lia.
    - intros key n ids Hp Hin. by destruct (Hold _ _ _ Hp Hin). }
  assert (Hnone : in_flight session stream (MkShared r p) = []).
  { unfold in_flight. cbn. destruct (p !! session) as [[n ids]|] eqn:Hp; [|done]. rewrite decide_False; [done|]. intros Hin. by eapply Hold. }
  assert (Hregd : registered session stream (MkShared r p)).
  { unfold registered. rewrite <- Er. cbn. eexists. rewrite lookup_insert_eq. split; [done|]. rewrite Es. set_solver. }
  destruct (tracked_run _ _ _ _ _ Hrun session capacity [] Hs1 Hk Ht) as (q & [Hq _ _] & H2 & H3). exists q. rewrite Hnone in H2, H3. cbn [app] in H2, H3. split; [exact Hq|]. split; [exact H2|]. intros Hn Hl. by apply H3.
Qed.

Definition demo_snapshot (id n : Z) : SessionSnapshot := MkSnapshot id kActive 1 n n 0 0 false (MkRange 0 0) false.
Definition demo_notification (id n : Z) : SessionNotification unit := MkNotification SessionNotificationKind.kApplicationMessage (demo_snapshot id n) (MkKey "" "" "" None None None) None "" n.

(** Two sessions publish at the same time: the notification of session 8 is pushed between
    the two of session 7, and the consumer takes one out meanwhile. *)
Definition demo_before : list (RegistryEvent unit) := [ELocked (RUpdate (demo_snapshot 7 1)); ELocked (RUpdate (demo_snapshot 8 1)); ELocked (RSubscribe 8 1)].
Definition demo_events : list (RegistryEvent unit) :=
  [EPublish (demo_notification 7 1); EPublish (demo_notification 8 1); EPush 7; EPush 8; EPush 7; ELocked (RPop 1%nat); EPublish (demo_notification 7 2)].

Ltac run_step := lazymatch goal with
  | |- shared_step _ (ELocked _) _ => eapply step_locked
  | |- shared_step _ (EPublish _) _ => eapply step_publish; vm_compute; reflexivity
  | |- shared_step _ (EPush _) _ => first [eapply step_push; vm_compute; reflexivity | eapply step_published; vm_compute; reflexivity]
  end.

Lemma subscription_delivers_witness : exists r s' q,
  taking_run 1 r demo_events [demo_notification 7 1] s' /\ streams (sh_registry s') !! 1%nat = Some (MkStream 2 q) /\
  [demo_notification 7 1] ++ q ++ in_flight 7 1 s' = [demo_notification 7 1; demo_notification 7 2].
Proof.
  assert (Hb : exists s, shared_run (MkShared NewRegistry ∅) demo_before s /\ sh_publishing s = ∅ /\ sh_registry s = fold_left registry_exec [RUpdate (demo_snapshot 7 1); RUpdate (demo_snapshot 8 1); RSubscribe 8 1] NewRegistry).
  { eexists. split; [unfold demo_before; repeat (eapply run_cons; [run_step|]); apply run_nil|]. by split. }
  destruct Hb as (s & Hs & Hp & Hr). set (r := fst (RegisterSubscriber 7 2 (sh_registry s))).
  assert (Hrun : exists taken s', taking_run 1 (MkShared r (sh_publishing s)) demo_events taken s' /\ taken = [demo_notification 7 1]).
  { unfold r. rewrite Hp, Hr. do 2 eexists. split; [unfold demo_events; repeat (eapply taking_cons; [run_step|]); apply taking_nil|vm_compute; reflexivity]. }
  destruct Hrun as (taken & s' & Hrun & ->). exists (MkShared r (sh_publishing s)), s'.
  destruct (subscription_delivers demo_before s 7 2 r 1 demo_events [demo_notification 7 1] s' Hs) as (q & Hq & _ & Hall); [unfold r; rewrite Hr; vm_compute; reflexivity|by repeat constructor|exact Hrun|].
  exists q. split; [exact Hrun|]. split; [exact Hq|]. apply Hall; [repeat constructor|vm_compute; repeat constructor].
Defined.
