(* ===== verification/LiveInitiator.v ===== *)
(** * The live initiator

    [runtime/live_initiator.cpp]: the worker that owns the connections of an initiator,
    from opening a session over reconnecting to closing it.  [Live] is one worker shard
    with the members the workers share (the registry, the counters, the map from
    sessions to workers); a call of the source is a call in the state-and-error monad.
    A connection is named by its position in the vector, and is read there again
    whenever the source goes through a reference.

    The operating system, the clocks and the application are the class [World]: each
    call answers and moves the world on, and the application answers with the commands
    it put into the queue of the worker.  Sockets that are ready are an argument.

    Every connection and every pending reconnect owns a session, since each place that
    makes one moves a session in; the tests for null pointers are left out.  Traces,
    metrics and the diagnostics of a backlog are left out. *)
From S2P Require Import Calendar Heap TimerWheel Schedule.
From S2P Require Import Prelude Base IntFormat FixTags Wire RawPassThrough Frame Message Validation.
From S2P Require Import TransportProfile SessionCore SessionStore AdminProtocol.
From S2P Require Import Ha ConnectionStrategy SessionRegistry Peek.
From stdpp Require Import gmap pretty.
Open Scope Z_scope.

Module SessionEventKind.
Inductive t := kBound | kActive | kClosed.
End SessionEventKind.

Module RuntimeEventKind.
Inductive t := kSession | kAdminMessage | kApplicationMessage.
End RuntimeEventKind.

Module AppDispatchMode.
Inductive t := kInline | kQueueDecoupled.
Definition is_inline (m : t) : bool := match m with kInline => true | kQueueDecoupled => false end.
End AppDispatchMode.

Record RuntimeEvent := MkRuntimeEvent {
  re_kind : RuntimeEventKind.t;
  re_session_event : SessionEventKind.t;
  re_session_id : Z;
  re_message : option MessageView;
  re_text : string;
  re_timestamp_ns : Z;
  re_poss_resend : bool;
  re_is_warmup : bool;
}.

(** What the application asks of a worker. *)
Inductive OutboundCommand :=
  | CmdSendApplication (session_id : Z) (message : MessageView) (envelope : SessionSendEnvelopeView)
  | CmdSendEncodedApplication (session_id : Z) (message : EncodedApplicationMessageView) (envelope : SessionSendEnvelopeView) (extras : EncodedOutboundExtrasView)
  | CmdBeginLogout (session_id : Z) (text : string).

Definition cmd_session_id (c : OutboundCommand) : Z :=
  match c with CmdSendApplication id _ _ | CmdSendEncodedApplication id _ _ _ | CmdBeginLogout id _ => id end.

(** The operating system, the clocks, the random numbers and the application. *)
Class World (St W : Type) := {
  w_random :: RandomSource W;
  w_steady_now : W -> Z * W;
  w_load_dictionary : Z -> W -> Status * W;
  w_make_store : Z -> W -> Result St * W;
  w_close : Z -> W -> W;
  w_connect : string -> Z -> W -> Status * W;
  w_send : Z -> list (list Z) -> W -> Status * W;
  w_receive : Z -> W -> Result (option (list Z)) * W;
  w_wall_now : W -> Z * W;
  w_application : RuntimeEvent -> W -> Status * list OutboundCommand * W;
  w_session_poll : Z -> Z -> W -> Status * list OutboundCommand * W;
}.

(** The part of [CounterpartyConfig] the worker reads, with the configuration of the
    protocol made from it; a connection strategy is an object that counterparties may
    share. *)
Record Counterparty := MkCounterparty {
  cp_session : SessionConfig;
  cp_protocol : AdminProtocolConfig;
  cp_day_cut : DayCutConfig;
  cp_session_schedule : SessionScheduleConfig;
  cp_dispatch_mode : AppDispatchMode.t;
  cp_verify_checksum : bool;
  cp_reconnect_enabled : bool;
  cp_reconnect_initial_ms : Z;
  cp_reconnect_max_ms : Z;
  cp_reconnect_max_retries : Z;
  cp_connection_strategy : option nat;
  cp_alternate_endpoints : list ConnectionEndpoint;
}.

Section Live.
Context {St W Sg : Type} `{SessionStore St} `{Codec} `{HeapAlgorithms HeapEntry deadline_ns} `{LocalTime} `{World St W} `{ConnectionStrategy Sg}.

Record ActiveSession := MkActive {
  as_counterparty : Counterparty;
  as_worker_id : Z;
  as_protocol : Admin St;
  as_host : string;
  as_port : Z;
  as_primary_host : string;
  as_primary_port : Z;
}.

Definition as_session_id (s : ActiveSession) : Z := session_id (cp_session (as_counterparty s)).
Definition as_snapshot (s : ActiveSession) : SessionSnapshot := Snapshot (ap_session (as_protocol s)).

Record ConnectionState := MkConnection {
  cn_connection_id : Z;
  cn_session : ActiveSession;
  cn_last_progress_ns : Z;
  cn_connected_since_ns : Z;
  cn_pending_app_event : option RuntimeEvent;
  cn_close_requested : bool;
  cn_count_completion : bool;
  cn_close_reason : string;
}.

Record PendingReconnect := MkPending {
  pr_session_id : Z;
  pr_host : string;
  pr_port : Z;
  pr_retry_count : Z;
  pr_current_backoff_ms : Z;
  pr_next_attempt_ns : Z;
  pr_session_registered : bool;
  pr_session : ActiveSession;
}.

Record WorkerShardState := MkShard {
  sh_worker_id : Z;
  sh_connections : list ConnectionState;
  sh_timer_wheel : TimerWheel.TimerWheel;
  sh_connection_indices : gmap Z nat;
  sh_session_connection_indices : gmap Z nat;
  sh_commands : list OutboundCommand;
  sh_inbox : list ConnectionState;
  sh_pending_reconnects : list PendingReconnect;
}.

(** The options and what the engine knows: neither changes. *)
Record LiveOptions := MkLiveOptions {
  lo_application : bool;
  lo_command_queue_capacity : nat;
  lo_poll_busy : bool;
  lo_worker_count : Z;
  lo_threads_running : bool;
  lo_find_counterparty : Z -> option Counterparty;
  lo_find_session_shard : Z -> option Z;
  lo_engine : HaEngine;
}.

(** The identifiers of connections and the counters are 64 bits wide in the source;
    here they are numbers, as no run makes 2^64 connections. *)
Record Live := MkLive {
  lv_options : LiveOptions;
  lv_shard : WorkerShardState;
  lv_session_worker_ids : gmap Z Z;
  lv_registry : LiveSessionRegistry MessageView;
  lv_next_connection_id : Z;
  lv_active_connection_count : Z;
  lv_last_progress_ns : Z;
  lv_completed_sessions : Z;
  lv_pending_reconnect_count : Z;
  lv_strategies : gmap nat Sg;
  lv_world : W;
}.

Definition LM (A : Type) : Type := SE Live A.

Definition set_shard (x : WorkerShardState) (l : Live) : Live := let 'MkLive a _ c d e f g h i j k := l in MkLive a x c d e f g h i j k.
Definition set_worker_ids (x : gmap Z Z) (l : Live) : Live := let 'MkLive a b _ d e f g h i j k := l in MkLive a b x d e f g h i j k.
Definition set_registry (x : LiveSessionRegistry MessageView) (l : Live) : Live := let 'MkLive a b c _ e f g h i j k := l in MkLive a b c x e f g h i j k.
Definition set_next_connection_id (x : Z) (l : Live) : Live := let 'MkLive a b c d _ f g h i j k := l in MkLive a b c d x f g h i j k.
Definition set_active_connection_count (x : Z) (l : Live) : Live := let 'MkLive a b c d e _ g h i j k := l in MkLive a b c d e x g h i j k.
Definition set_last_progress_ns (x : Z) (l : Live) : Live := let 'MkLive a b c d e f _ h i j k := l in MkLive a b c d e f x h i j k.
Definition set_completed_sessions (x : Z) (l : Live) : Live := let 'MkLive a b c d e f g _ i j k := l in MkLive a b c d e f g x i j k.
Definition set_pending_reconnect_count (x : Z) (l : Live) : Live := let 'MkLive a b c d e f g h _ j k := l in MkLive a b c d e f g h x j k.
Definition set_strategies (x : gmap nat Sg) (l : Live) : Live := let 'MkLive a b c d e f g h i _ k := l in MkLive a b c d e f g h i x k.
Definition set_world (x : W) (l : Live) : Live := let 'MkLive a b c d e f g h i j _ := l in MkLive a b c d e f g h i j x.

Definition set_connections (x : list ConnectionState) (s : WorkerShardState) : WorkerShardState := let 'MkShard a _ c d e f g h := s in MkShard a x c d e f g h.
Definition set_timer_wheel (x : TimerWheel.TimerWheel) (s : WorkerShardState) : WorkerShardState := let 'MkShard a b _ d e f g h := s in MkShard a b x d e f g h.
Definition set_connection_indices (x : gmap Z nat) (s : WorkerShardState) : WorkerShardState := let 'MkShard a b c _ e f g h := s in MkShard a b c x e f g h.
Definition set_session_connection_indices (x : gmap Z nat) (s : WorkerShardState) : WorkerShardState := let 'MkShard a b c d _ f g h := s in MkShard a b c d x f g h.
Definition set_commands (x : list OutboundCommand) (s : WorkerShardState) : WorkerShardState := let 'MkShard a b c d e _ g h := s in MkShard a b c d e x g h.
Definition set_inbox (x : list ConnectionState) (s : WorkerShardState) : WorkerShardState := let 'MkShard a b c d e f _ h := s in MkShard a b c d e f x h.
Definition set_pending_reconnects (x : list PendingReconnect) (s : WorkerShardState) : WorkerShardState := let 'MkShard a b c d e f g _ := s in MkShard a b c d e f g x.

Definition with_protocol (p : Admin St) (s : ActiveSession) : ActiveSession :=
  let 'MkActive a b _ d e f g := s in MkActive a b p d e f g.
Definition with_endpoint (host : string) (port : Z) (s : ActiveSession) : ActiveSession :=
  let 'MkActive a b c _ _ f g := s in MkActive a b c host port f g.
Definition cn_with_session (x : ActiveSession) (c : ConnectionState) : ConnectionState :=
  let 'MkConnection a _ b d e f g h := c in MkConnection a x b d e f g h.
Definition cn_with_progress (t : Z) (c : ConnectionState) : ConnectionState :=
  let 'MkConnection a s _ d e f g h := c in MkConnection a s t d e f g h.
Definition cn_with_pending (x : option RuntimeEvent) (c : ConnectionState) : ConnectionState :=
  let 'MkConnection a s b d _ f g h := c in MkConnection a s b d x f g h.
Definition cn_with_close (reason : string) (count_completion : bool) (c : ConnectionState) : ConnectionState :=
  let 'MkConnection a s b d e _ g _ := c in MkConnection a s b d e true (g || count_completion) reason.

(** ** Parts of the state *)

Definition on_shard (f : WorkerShardState -> WorkerShardState) : LM unit := modify (fun l => set_shard (f (lv_shard l)) l).
Definition on_registry (f : LiveSessionRegistry MessageView -> LiveSessionRegistry MessageView) : LM unit := modify (fun l => set_registry (f (lv_registry l)) l).
Definition on_registry_get {A} (f : LiveSessionRegistry MessageView -> LiveSessionRegistry MessageView * A) : LM A :=
  fun l => let '(r, a) := f (lv_registry l) in (set_registry r l, Value a).
Definition ask {A} (f : W -> A * W) : LM A := fun l => let '(a, w) := f (lv_world l) in (set_world w l, Value a).
Definition progress (timestamp_ns : Z) : LM unit := modify (set_last_progress_ns timestamp_ns).
Definition check (st : Status) : LM unit := if status.ok st then ret tt else fail st.
(** A value the source reads through a pointer or iterator that must be valid. *)
Definition the {A} (o : option A) : LM A := match o with Some a => ret a | None => fail undefined_behaviour end.

Definition connection_at (i : nat) : LM ConnectionState := l <- get ;; the (sh_connections (lv_shard l) !! i).
Definition upd_connection (i : nat) (f : ConnectionState -> ConnectionState) : LM unit :=
  on_shard (fun s => set_connections (alter f i (sh_connections s)) s).

(** A call on the protocol object of a connection. *)
Definition on_protocol {A} (i : nat) (m : SE (Admin St) A) : LM A :=
  c <- connection_at i ;;
  let '(p, r) := m (as_protocol (cn_session c)) in
  upd_connection i (fun c => cn_with_session (with_protocol p (cn_session c)) c) ;;;
  fun l => (l, r).

Definition UpdateSessionSnapshot (s : ActiveSession) : LM unit := on_registry (UpdateSnapshot (as_snapshot s)).
Definition UpdateSessionSnapshot_at (i : nat) : LM unit := c <- connection_at i ;; UpdateSessionSnapshot (cn_session c).

Definition MillisToNanos (millis : Z) : Z := millis *u64 1000000.

Definition within_window (w : option bool) : LM bool := the w.

Definition ComputeScheduledAttemptNs (counterparty : Counterparty) (steady_now_ns wall_now_ns fallback_delay_ns : Z) : LM Z :=
  next <- the (NextLogonWindowStart (cp_session_schedule counterparty) wall_now_ns) ;;
  match next with
  | Some next_logon_wall_ns =>
      if next_logon_wall_ns <=? wall_now_ns then ret (steady_now_ns +u64 fallback_delay_ns)
      else ret (steady_now_ns +u64 (next_logon_wall_ns - wall_now_ns))
  | None => ret (steady_now_ns +u64 fallback_delay_ns)
  end.

Definition IndexConnection (connection_index : nat) : LM unit :=
  on_shard (fun s =>
    match sh_connections s !! connection_index with
    | None => s
    | Some c =>
        set_session_connection_indices (<[as_session_id (cn_session c) := connection_index]> (sh_session_connection_indices s))
          (set_connection_indices (<[cn_connection_id c := connection_index]> (sh_connection_indices s)) s)
    end).

Definition find_in (index : gmap Z nat) (size : nat) (key : Z) : option nat :=
  match index !! key with Some i => if (i <? size)%nat then Some i else None | None => None end.
Definition FindConnectionById (id : Z) (s : WorkerShardState) : option nat := find_in (sh_connection_indices s) (length (sh_connections s)) id.
Definition FindConnectionBySessionId (id : Z) (s : WorkerShardState) : option nat := find_in (sh_session_connection_indices s) (length (sh_connections s)) id.

Definition push_connection (c : ConnectionState) : LM unit :=
  on_shard (fun s => set_connections (sh_connections s ++ [c]) s) ;;;
  l <- get ;; IndexConnection (length (sh_connections (lv_shard l)) - 1).

Definition AdoptPendingConnections : LM unit :=
  l <- get ;;
  let pending := sh_inbox (lv_shard l) in
  on_shard (set_inbox []) ;;;
  fold_right (fun c k => push_connection c ;;; k) (ret tt) pending.

Definition MarkConnectionForClose (i : nat) (reason : string) (count_completion : bool) : LM unit :=
  upd_connection i (cn_with_close reason count_completion).

(** ** Sending *)

(** [SendFrame] on a connection that is in the vector already; the counters of bytes
    and frames are left out. *)
Definition send_bytes (connection_id : Z) (segments : list (list Z)) (timestamp_ns : Z) : LM unit :=
  st <- ask (w_send connection_id segments) ;;
  check st ;;; progress timestamp_ns.

Definition SendFrame (i : nat) (frame : EncodedFrame) (timestamp_ns : Z) : LM unit :=
  c <- connection_at i ;;
  send_bytes (cn_connection_id c) [frame_wire (frame_bytes frame)] timestamp_ns ;;;
  upd_connection i (cn_with_progress timestamp_ns).

Fixpoint send_frames (connection_id : Z) (frames : list EncodedFrame) (timestamp_ns : Z) : LM unit :=
  match frames with
  | [] => ret tt
  | f :: frames => send_bytes connection_id [frame_wire (frame_bytes f)] timestamp_ns ;;; send_frames connection_id frames timestamp_ns
  end.

Fixpoint SendFrames (i : nat) (frames : list EncodedFrame) (timestamp_ns : Z) : LM unit :=
  match frames with [] => ret tt | f :: frames => SendFrame i f timestamp_ns ;;; SendFrames i frames timestamp_ns end.

(** The segments of a gathered write; an external body is written between the parts. *)
Definition frame_segments (frame : EncodedFrame) : list (list Z) :=
  let full := frame_view (frame_bytes frame) in
  if text_empty full then []
  else if text_empty (external_body (frame_bytes frame)) then [full]
  else
    let splice := body_splice_offset (frame_bytes frame) in
    [take splice full; external_body (frame_bytes frame)] ++ (if (splice <? length full)%nat then [drop splice full] else []).

Definition SendFramesBatch (i : nat) (frames : list EncodedFrame) (timestamp_ns : Z) : LM unit :=
  let single := match frames with [] => true | [f] => text_empty (external_body (frame_bytes f)) | _ => false end in
  if single then SendFrames i frames timestamp_ns
  else
    c <- connection_at i ;;
    send_bytes (cn_connection_id c) (concat (map frame_segments frames)) timestamp_ns ;;;
    upd_connection i (cn_with_progress timestamp_ns).

Definition RefreshConnectionTimer (i : nat) (timestamp_ns : Z) : LM unit :=
  c <- connection_at i ;;
  match NextTimerDeadline timestamp_ns (as_protocol (cn_session c)) with
  | None => on_shard (fun s => set_timer_wheel (TimerWheel.Cancel (cn_connection_id c) (sh_timer_wheel s)) s)
  | Some deadline => on_shard (fun s => set_timer_wheel (TimerWheel.Schedule (cn_connection_id c) deadline timestamp_ns (sh_timer_wheel s)) s)
  end.

(** ** Commands and events *)

Definition run_command (i : nat) (c : OutboundCommand) (timestamp_ns : Z) : LM EncodedFrame :=
  match c with
  | CmdBeginLogout _ text => on_protocol i (BeginLogout text timestamp_ns)
  | CmdSendEncodedApplication _ m e x => on_protocol i (SendEncodedApplication m timestamp_ns e x)
  | CmdSendApplication _ m e => on_protocol i (SendApplication m timestamp_ns e)
  end.

(** One command: it is taken from the queue first; a command for a session without an
    open connection is dropped. *)
Definition drain_command (c : OutboundCommand) (rest : list OutboundCommand) (timestamp_ns : Z) : LM unit :=
  on_shard (set_commands rest) ;;;
  l <- get ;;
  match FindConnectionBySessionId (cmd_session_id c) (lv_shard l) with
  | None => ret tt
  | Some i =>
      connection <- connection_at i ;;
      if cn_close_requested connection then ret tt
      else
        frame <- run_command i c timestamp_ns ;;
        SendFrame i frame timestamp_ns ;;;
        UpdateSessionSnapshot_at i ;;;
        RefreshConnectionTimer i timestamp_ns
  end.

Fixpoint drain_commands (commands : list OutboundCommand) (timestamp_ns : Z) : LM unit :=
  match commands with [] => ret tt | c :: rest => drain_command c rest timestamp_ns ;;; drain_commands rest timestamp_ns end.

(** Nothing is put into the queue while it is drained. *)
Definition DrainWorkerCommands (timestamp_ns : Z) : LM unit :=
  l <- get ;; drain_commands (sh_commands (lv_shard l)) timestamp_ns.

(** A callback of the application; what does not fit the queue is refused. *)
Definition callback (f : W -> Status * list OutboundCommand * W) : LM Status :=
  fun l =>
    let '(st, cmds, w) := f (lv_world l) in
    let s := lv_shard l in
    let l := set_world w l in
    (set_shard (set_commands (take (Nat.max 1 (lo_command_queue_capacity (lv_options l))) (sh_commands s ++ cmds)) s) l, Value st).

Definition notification (session : ActiveSession) (kind : SessionNotificationKind.t) (message : option MessageView) (text : string) (timestamp_ns : Z) : SessionNotification MessageView :=
  MkNotification kind (as_snapshot session) (key (cp_session (as_counterparty session))) message text timestamp_ns.

Definition notification_kind (kind : SessionEventKind.t) : SessionNotificationKind.t :=
  match kind with
  | SessionEventKind.kBound => SessionNotificationKind.kSessionBound
  | SessionEventKind.kActive => SessionNotificationKind.kSessionActive
  | SessionEventKind.kClosed => SessionNotificationKind.kSessionClosed
  end.

(** The status of a callback, and the commands it left when it ran inline. *)
Definition after_callback (st : Status) (inline_mode : bool) (timestamp_ns : Z) : LM unit :=
  check st ;;; if inline_mode then DrainWorkerCommands timestamp_ns else ret tt.

Definition is_inline (session : ActiveSession) : bool := AppDispatchMode.is_inline (cp_dispatch_mode (as_counterparty session)).

Definition DispatchSessionEvent (session : ActiveSession) (kind : SessionEventKind.t) (timestamp_ns : Z) (text : string) (drain_inline : bool) : LM unit :=
  l <- get ;;
  if negb (lo_application (lv_options l)) then ret tt
  else
    st <- callback (w_application (MkRuntimeEvent RuntimeEventKind.kSession kind (as_session_id session) None text timestamp_ns false false)) ;;
    subscribed <- on_registry_get (HasSubscribers (as_session_id session)) ;;
    (if subscribed then on_registry (PublishNotification (notification session (notification_kind kind) None text timestamp_ns))
     else UpdateSessionSnapshot session) ;;;
    after_callback st (drain_inline && is_inline session) timestamp_ns.

Definition DispatchAdminMessage (session : ActiveSession) (message : MessageView) (timestamp_ns : Z) : LM unit :=
  l <- get ;;
  if negb (lo_application (lv_options l)) then ret tt
  else
    st <- callback (w_application (MkRuntimeEvent RuntimeEventKind.kAdminMessage SessionEventKind.kBound (as_session_id session) (Some message) "" timestamp_ns false false)) ;;
    subscribed <- on_registry_get (HasSubscribers (as_session_id session)) ;;
    (if subscribed then on_registry (PublishNotification (notification session SessionNotificationKind.kAdminMessage (Some message) "" timestamp_ns)) else ret tt) ;;;
    after_callback st (is_inline session) timestamp_ns.

Definition PrepareAppMessageCallback (i : nat) : LM bool :=
  c <- connection_at i ;;
  let was_warmup := is_warmup (ap_session (as_protocol (cn_session c))) in
  on_protocol i (fun a => (set_session (fst (ConsumeWarmupMessage (ap_session a))) a, Value tt)) ;;;
  UpdateSessionSnapshot_at i ;;;
  ret was_warmup.

Definition DispatchAppMessage (i : nat) (message : MessageView) (timestamp_ns : Z) : LM unit :=
  c <- connection_at i ;;
  let id := as_session_id (cn_session c) in
  let inline_mode := is_inline (cn_session c) in
  was_warmup <- PrepareAppMessageCallback i ;;
  let event := MkRuntimeEvent RuntimeEventKind.kApplicationMessage SessionEventKind.kBound id (Some message) "" timestamp_ns (HasBoolean message tags.kPossResend) was_warmup in
  st <- callback (w_application event) ;;
  subscribed <- on_registry_get (HasSubscribers id) ;;
  c <- connection_at i ;;
  (if subscribed then on_registry (PublishNotification (notification (cn_session c) SessionNotificationKind.kApplicationMessage (Some message) "" timestamp_ns)) else ret tt) ;;;
  if bool_decide (code st = kBusy) && negb inline_mode then upd_connection i (cn_with_pending (Some event))
  else after_callback st inline_mode timestamp_ns.

Definition RetryPendingAppEvent (i : nat) (timestamp_ns : Z) : LM unit :=
  l <- get ;;
  c <- connection_at i ;;
  match cn_pending_app_event c with
  | None => ret tt
  | Some event =>
      if negb (lo_application (lv_options l)) then ret tt
      else
        st <- callback (w_application event) ;;
        if bool_decide (code st = kBusy) then ret tt
        else
          check st ;;;
          (if is_inline (cn_session c) then DrainWorkerCommands timestamp_ns else ret tt) ;;;
          upd_connection i (fun c => cn_with_progress timestamp_ns (cn_with_pending None c)) ;;;
          progress timestamp_ns
  end.

(** ** Strategies *)

Definition MakeConnectionContext (session : ActiveSession) (consecutive_failures last_connected_duration : Z) : ConnectionContext :=
  let primary_host := if string_empty (as_primary_host session) then as_host session else as_primary_host session in
  let primary_port := if as_primary_port session =? 0 then as_port session else as_primary_port session in
  MkConnectionContext (as_session_id session) consecutive_failures last_connected_duration (MkEndpoint primary_host primary_port)
    (cp_alternate_endpoints (as_counterparty session)).

Definition strategy_disconnected (ref : nat) (context : ConnectionContext) : LM ConnectionDecision :=
  fun l =>
    match lv_strategies l !! ref with
    | None => (l, Error undefined_behaviour)
    | Some s => let '(d, s, w) := OnDisconnected context s (lv_world l) in (set_world w (set_strategies (<[ref := s]> (lv_strategies l)) l), Value d)
    end.

Definition NotifyConnectionStrategyConnected (session : ActiveSession) : LM unit :=
  match cp_connection_strategy (as_counterparty session) with
  | None => ret tt
  | Some ref => modify (fun l => set_strategies (alter (OnConnected (MakeConnectionContext session 0 0)) ref (lv_strategies l)) l)
  end.

Definition decided_endpoint (context : ConnectionContext) (d : ConnectionDecision) : ConnectionEndpoint :=
  match cd_next_endpoint d with Some e => e | None => cc_primary_endpoint context end.

Definition decided_delay (d : ConnectionDecision) : Z := if cd_delay d <? 0 then 0 else u64 (cd_delay d).

(** The entry for the next attempt, or nothing when the strategy gives up. *)
Definition ApplyConnectionStrategyDecision (r : PendingReconnect) (d : ConnectionDecision) (timestamp_ns wall_now_ns : Z) : LM (option PendingReconnect) :=
  if cd_give_up d then ret None
  else
    let endpoint := decided_endpoint (MakeConnectionContext (pr_session r) (pr_retry_count r) 0) d in
    next <- ComputeScheduledAttemptNs (as_counterparty (pr_session r)) timestamp_ns wall_now_ns (MillisToNanos (decided_delay d)) ;;
    ret (Some (MkPending (pr_session_id r) (ce_host endpoint) (ce_port endpoint) (pr_retry_count r) (pr_current_backoff_ms r) next (pr_session_registered r) (pr_session r))).

Definition push_pending (r : PendingReconnect) : LM unit :=
  on_shard (fun s => set_pending_reconnects (sh_pending_reconnects s ++ [r]) s) ;;;
  modify (fun l => set_pending_reconnect_count (lv_pending_reconnect_count l + 1) l).

Definition ScheduleStrategyReconnect (id retry_count last_connected_duration timestamp_ns : Z) (session : ActiveSession) : LM bool :=
  match cp_connection_strategy (as_counterparty session) with
  | None => ret false
  | Some ref =>
      let context := MakeConnectionContext session retry_count last_connected_duration in
      d <- strategy_disconnected ref context ;;
      if cd_give_up d then ret false
      else
        wall_now_ns <- ask w_wall_now ;;
        next <- ComputeScheduledAttemptNs (as_counterparty session) timestamp_ns wall_now_ns (MillisToNanos (decided_delay d)) ;;
        let endpoint := decided_endpoint context d in
        push_pending (MkPending id (ce_host endpoint) (ce_port endpoint) retry_count (cp_reconnect_initial_ms (as_counterparty session)) next true session) ;;;
        ret true
  end.

Definition ConnectionDuration (connected_since_ns timestamp_ns : Z) : Z :=
  if (connected_since_ns =? 0) || (timestamp_ns <=? connected_since_ns) then 0 else (timestamp_ns - connected_since_ns) / 1000000.

(** ** Closing a connection *)

Definition forget_worker (id : Z) : LM unit := modify (fun l => set_worker_ids (delete id (lv_session_worker_ids l)) l).
Definition unregister (id : Z) : LM unit := on_registry (UnregisterActiveSession id) ;;; forget_worker id.
Definition terminal (st : Status) : LM unit := on_registry (SetTerminalStatus st).

(** The connection leaves the vector: the last one takes its place. *)
Definition remove_connection (i : nat) : LM unit :=
  l <- get ;;
  let last_index := (length (sh_connections (lv_shard l)) - 1)%nat in
  back <- connection_at last_index ;;
  (if (i =? last_index)%nat then ret tt else upd_connection i (fun _ => back) ;;; IndexConnection i) ;;;
  on_shard (fun s => set_connections (take last_index (sh_connections s)) s) ;;;
  modify (fun l => set_active_connection_count (lv_active_connection_count l - 1) l).

(** The timer, the indices, the socket and the slot of a connection that is closed. *)
Definition detach_connection (i : nat) (connection : ConnectionState) : LM unit :=
  let id := as_session_id (cn_session connection) in
  on_shard (fun s => set_timer_wheel (TimerWheel.Cancel (cn_connection_id connection) (sh_timer_wheel s)) s) ;;;
  on_shard (fun s => set_connection_indices (delete (cn_connection_id connection) (sh_connection_indices s)) s) ;;;
  (if id =? 0 then ret tt else on_shard (fun s => set_session_connection_indices (delete id (sh_session_connection_indices s)) s)) ;;;
  ask (fun w => (tt, w_close (cn_connection_id connection) w)) ;;;
  remove_connection i.

(** The reconnect without a strategy starts over with the initial delay. *)
Definition schedule_reconnect (connection : ConnectionState) (session : ActiveSession) (timestamp_ns : Z) : LM unit :=
  let id := as_session_id session in
  let counterparty := as_counterparty session in
  match cp_connection_strategy counterparty with
  | Some _ =>
      scheduled <- ScheduleStrategyReconnect id 0 (ConnectionDuration (cn_connected_since_ns connection) timestamp_ns) timestamp_ns session ;;
      if scheduled then ret tt
      else terminal (status.IoError "reconnect gave up after strategy decision") ;;; unregister id
  | None =>
      let initial_ms := cp_reconnect_initial_ms counterparty in
      jitter <- ask (RandomJitter (ReconnectJitterLimit initial_ms)) ;;
      wall_now_ns <- ask w_wall_now ;;
      next <- ComputeScheduledAttemptNs counterparty timestamp_ns wall_now_ns (MillisToNanos (initial_ms + jitter)) ;;
      push_pending (MkPending id (as_host session) (as_port session) 0 initial_ms next true session)
  end.

Definition CloseConnection (i : nat) (timestamp_ns : Z) : LM unit :=
  connection <- connection_at i ;;
  let session := with_protocol (fst (OnTransportClosed (as_protocol (cn_session connection)))) (cn_session connection) in
  let id := as_session_id session in
  let counterparty := as_counterparty session in
  UpdateSessionSnapshot session ;;;
  catch (DispatchSessionEvent session SessionEventKind.kClosed timestamp_ns (cn_close_reason connection) false) ;;;
  let reconnects := negb (cn_count_completion connection) && cp_reconnect_enabled counterparty && is_initiator (cp_session counterparty) in
  (if cn_count_completion connection then modify (fun l => set_completed_sessions (lv_completed_sessions l + 1) l)
   else if reconnects then ret tt
   else if string_empty (cn_close_reason connection) then ret tt else terminal (status.IoError (cn_close_reason connection))) ;;;
  (if reconnects then ret tt else on_registry (UnregisterActiveSession id)) ;;;
  forget_worker id ;;;
  detach_connection i connection ;;;
  progress timestamp_ns ;;;
  if reconnects then schedule_reconnect connection session timestamp_ns else ret tt.

(** ** Inbound traffic *)

Fixpoint dispatch_messages (i : nat) (messages : list MessageRef) (timestamp_ns : Z) : LM unit :=
  match messages with
  | [] => ret tt
  | m :: messages =>
      l <- get ;;
      if negb (lo_application (lv_options l)) then dispatch_messages i messages timestamp_ns
      else
        DispatchAppMessage i (ref_view m) timestamp_ns ;;;
        c <- connection_at i ;;
        match cn_pending_app_event c with Some _ => ret tt | None => dispatch_messages i messages timestamp_ns end
  end.

Definition HandleProtocolEvent (i : nat) (event : ProtocolEvent) (timestamp_ns : Z) : LM unit :=
  SendFramesBatch i (outbound_frames event) timestamp_ns ;;;
  dispatch_messages i (application_messages event) timestamp_ns ;;;
  (if disconnect event then MarkConnectionForClose i "session disconnect" true else ret tt) ;;;
  UpdateSessionSnapshot_at i ;;;
  RefreshConnectionTimer i timestamp_ns.

Definition HandleInboundFrame (i : nat) (frame : list Z) (header : SessionHeaderView) (timestamp_ns : Z) : LM unit :=
  decoded <- on_protocol i (DecodeInboundFrame frame) ;;
  match decoded with
  | Error e => fail e
  | Value decoded =>
      event <- on_protocol i (OnInboundDecoded decoded timestamp_ns) ;;
      l <- get ;;
      c <- connection_at i ;;
      (if lo_application (lv_options l) && IsAdminMessage (h_msg_type header) then DispatchAdminMessage (cn_session c) (d_message decoded) timestamp_ns else ret tt) ;;;
      (if session_active event then
         c <- connection_at i ;;
         NotifyConnectionStrategyConnected (cn_session c) ;;;
         DispatchSessionEvent (cn_session c) SessionEventKind.kActive timestamp_ns "session active" true
       else ret tt) ;;;
      HandleProtocolEvent i event timestamp_ns
  end.

(** [while (!close_requested)]; [fuel] bounds the frames taken in one call. *)
Fixpoint receive_loop (fuel : nat) (i : nat) (timestamp_ns : Z) : LM unit :=
  match fuel with
  | O => ret tt
  | S fuel =>
      c <- connection_at i ;;
      if cn_close_requested c then ret tt
      else
        received <- ask (w_receive (cn_connection_id c)) ;;
        match received with
        | Error e => MarkConnectionForClose i (Base.message e) false
        | Value None => ret tt
        | Value (Some frame) =>
            match PeekSessionHeaderView has_sse2 frame kFixSoh (cp_verify_checksum (as_counterparty (cn_session c))) with
            | Error e => MarkConnectionForClose i (Base.message e) false
            | Value header =>
                upd_connection i (cn_with_progress timestamp_ns) ;;; progress timestamp_ns ;;;
                handled <- catch (HandleInboundFrame i frame header timestamp_ns) ;;
                match handled with
                | Error e => MarkConnectionForClose i (Base.message e) false
                | Value _ =>
                    c <- connection_at i ;;
                    match cn_pending_app_event c with Some _ => ret tt | None => receive_loop fuel i timestamp_ns end
                end
            end
        end
  end.

Definition ProcessConnection (fuel : nat) (i : nat) (readable : bool) (timestamp_ns : Z) : LM unit :=
  c <- connection_at i ;;
  (match cn_pending_app_event c with
   | None => ret tt
   | Some _ =>
       retried <- catch (RetryPendingAppEvent i timestamp_ns) ;;
       match retried with Error e => MarkConnectionForClose i (Base.message e) false | Value _ => ret tt end
   end) ;;;
  c' <- connection_at i ;;
  let readable := readable && negb (match cn_pending_app_event c, cn_pending_app_event c' with Some _, Some _ => true | _, _ => false end) in
  (if readable then receive_loop fuel i timestamp_ns else ret tt) ;;;
  c <- connection_at i ;;
  if cn_close_requested c then CloseConnection i timestamp_ns else ret tt.

(** The ready connections of a poll, from the last to the first. *)
Fixpoint process_ready (fuel : nat) (ready : list nat) (timestamp_ns : Z) : LM unit :=
  match ready with
  | [] => ret tt
  | i :: ready =>
      l <- get ;;
      (if (i <? length (sh_connections (lv_shard l)))%nat then ProcessConnection fuel i true timestamp_ns else ret tt) ;;;
      process_ready fuel ready timestamp_ns
  end.

(** ** Timers *)

Definition ServiceTimer (i : nat) (timestamp_ns : Z) : LM unit :=
  wall_now_ns <- ask w_wall_now ;;
  c <- connection_at i ;;
  inside <- the (IsWithinSessionWindow (cp_session_schedule (as_counterparty (cn_session c))) wall_now_ns) ;;
  if negb inside then
    match state (ap_session (as_protocol (cn_session c))) with
    | kActive | kResendProcessing =>
        logout <- on_protocol i (BeginLogout "session window closed" timestamp_ns) ;;
        SendFrame i logout timestamp_ns ;;;
        UpdateSessionSnapshot_at i ;;;
        RefreshConnectionTimer i timestamp_ns
    | _ => MarkConnectionForClose i "session window closed" false
    end
  else
    event <- on_protocol i (OnTimer timestamp_ns) ;;
    HandleProtocolEvent i event timestamp_ns.

Definition process_due (id timestamp_ns : Z) : LM unit :=
  l <- get ;;
  match FindConnectionById id (lv_shard l) with
  | None => ret tt
  | Some i =>
      c <- connection_at i ;;
      if cn_close_requested c then ret tt
      else
        serviced <- catch (ServiceTimer i timestamp_ns) ;;
        (match serviced with Error e => MarkConnectionForClose i (Base.message e) false | Value _ => ret tt end) ;;;
        c <- connection_at i ;;
        if negb (cn_close_requested c) then ret tt
        else
          l <- get ;;
          match sh_connection_indices (lv_shard l) !! id with Some i => CloseConnection i timestamp_ns | None => ret tt end
  end.

Fixpoint process_all_due (ids : list Z) (timestamp_ns : Z) : LM unit :=
  match ids with [] => ret tt | id :: ids => process_due id timestamp_ns ;;; process_all_due ids timestamp_ns end.

Definition ProcessDueTimers (timestamp_ns : Z) : LM unit :=
  l <- get ;;
  let '(wheel, due) := TimerWheel.PopExpired timestamp_ns (Some []) (sh_timer_wheel (lv_shard l)) in
  on_shard (set_timer_wheel wheel) ;;;
  process_all_due (default [] due) timestamp_ns.

(** ** Reconnecting *)

Definition pending_at (k : nat) : LM PendingReconnect := l <- get ;; the (sh_pending_reconnects (lv_shard l) !! k).
Definition upd_pending (k : nat) (r : PendingReconnect) : LM unit := on_shard (fun s => set_pending_reconnects (<[k := r]> (sh_pending_reconnects s)) s).
Definition erase_pending (k : nat) : LM unit :=
  modify (fun l => set_pending_reconnect_count (lv_pending_reconnect_count l - 1) l) ;;;
  on_shard (fun s => set_pending_reconnects (delete k (sh_pending_reconnects s)) s).

Definition release_registration (r : PendingReconnect) : LM unit := if pr_session_registered r then unregister (pr_session_id r) else ret tt.

Definition with_next_attempt (next : Z) (r : PendingReconnect) : PendingReconnect :=
  let 'MkPending a b c d e _ g h := r in MkPending a b c d e next g h.
Definition with_retry (r : PendingReconnect) : PendingReconnect :=
  let 'MkPending a b c d e f g h := r in MkPending a b c (d +u32 1) e f g h.
Definition with_backoff (backoff next : Z) (r : PendingReconnect) : PendingReconnect :=
  let 'MkPending a b c d _ _ g h := r in MkPending a b c d backoff next g h.
Definition with_session (registered : bool) (session : ActiveSession) (r : PendingReconnect) : PendingReconnect :=
  let 'MkPending a b c d e f _ _ := r in MkPending a b c d e f registered session.

(** The loop goes on with the next entry ([true]) or with the one that moved here. *)
Definition abandon (k : nat) (r : PendingReconnect) (report : bool) : LM bool :=
  (if report then terminal (status.IoError ("reconnect gave up after " +:+ pretty (pr_retry_count r) +:+ " attempts")) else ret tt) ;;;
  release_registration r ;;;
  erase_pending k ;;;
  ret false.

(** A failed attempt.  The two copies in the source differ in that only a failed dial
    reports that it gave up, and marks progress. *)
Definition retry_later (k : nat) (r : PendingReconnect) (timestamp_ns wall_now_ns : Z) (dial : bool) : LM bool :=
  let r := with_retry r in
  let counterparty := as_counterparty (pr_session r) in
  match cp_connection_strategy counterparty with
  | Some ref =>
      d <- strategy_disconnected ref (MakeConnectionContext (pr_session r) (pr_retry_count r) 0) ;;
      next <- ApplyConnectionStrategyDecision r d timestamp_ns wall_now_ns ;;
      match next with
      | None => abandon k r dial
      | Some r => upd_pending k r ;;; (if dial then progress timestamp_ns else ret tt) ;;; ret true
      end
  | None =>
      let max_retries := cp_reconnect_max_retries counterparty in
      if (0 <? max_retries) && (max_retries <=? pr_retry_count r) then abandon k r dial
      else
        let next_backoff := Z.min (u32 (pr_current_backoff_ms r * 2)) (cp_reconnect_max_ms counterparty) in
        jitter <- ask (RandomJitter (ReconnectJitterLimit (pr_current_backoff_ms r))) ;;
        next <- ComputeScheduledAttemptNs counterparty timestamp_ns wall_now_ns (MillisToNanos (next_backoff + jitter)) ;;
        upd_pending k (with_backoff next_backoff next r) ;;;
        (if dial then progress timestamp_ns else ret tt) ;;;
        ret true
  end.

(** A dial that succeeded: the protocol starts, the session moves to a connection.  The
    source erases the emptied entry at the end; nothing in between looks at it. *)
Definition reconnected (k : nat) (r : PendingReconnect) (timestamp_ns wall_now_ns : Z) : LM bool :=
  let '(protocol, connected) := OnTransportConnected timestamp_ns (as_protocol (pr_session r)) in
  let r := with_session (pr_session_registered r) (with_protocol protocol (pr_session r)) r in
  upd_pending k r ;;;
  match connected with
  | Error e => release_registration r ;;; erase_pending k ;;; terminal e ;;; ret false
  | Value event =>
      admitted <- (if pr_session_registered r then ret true else on_registry_get (RegisterActiveSession (pr_session_id r))) ;;
      if negb admitted then erase_pending k ;;; ret false
      else
        let session := with_endpoint (pr_host r) (pr_port r) (pr_session r) in
        let r := with_session true session r in
        modify (fun l => set_worker_ids (<[pr_session_id r := as_worker_id session]> (lv_session_worker_ids l)) l) ;;;
        on_registry ClearTerminalStatus ;;;
        upd_pending k r ;;;
        l <- get ;;
        let id := lv_next_connection_id l in
        modify (set_next_connection_id (id + 1)) ;;;
        sent <- catch (send_frames id (outbound_frames event) timestamp_ns) ;;
        match sent with
        | Error _ =>
            ask (fun w => (tt, w_close id w)) ;;;
            let r := with_session true (with_protocol (fst (OnTransportClosed (as_protocol session))) session) r in
            upd_pending k r ;;;
            retry_later k r timestamp_ns wall_now_ns false
        | Value _ =>
            UpdateSessionSnapshot session ;;;
            modify (fun l => set_active_connection_count (lv_active_connection_count l + 1) l) ;;;
            erase_pending k ;;;
            push_connection (MkConnection id session timestamp_ns timestamp_ns None false false "") ;;;
            progress timestamp_ns ;;;
            l <- get ;;
            let i := (length (sh_connections (lv_shard l)) - 1)%nat in
            dispatched <- catch (DispatchSessionEvent session SessionEventKind.kBound timestamp_ns "transport reconnected" true) ;;
            (match dispatched with Error e => MarkConnectionForClose i (Base.message e) false | Value _ => ret tt end) ;;;
            ret false
        end
  end.

Definition attempt (k : nat) (timestamp_ns : Z) : LM bool :=
  r <- pending_at k ;;
  if timestamp_ns <? pr_next_attempt_ns r then ret true
  else
    wall_now_ns <- ask w_wall_now ;;
    let counterparty := as_counterparty (pr_session r) in
    inside <- the (IsWithinLogonWindow (cp_session_schedule counterparty) wall_now_ns) ;;
    if negb inside then
      next <- ComputeScheduledAttemptNs counterparty timestamp_ns wall_now_ns 0 ;;
      upd_pending k (with_next_attempt next r) ;;;
      progress timestamp_ns ;;;
      ret true
    else
      dialled <- ask (w_connect (pr_host r) (pr_port r)) ;;
      if status.ok dialled then reconnected k r timestamp_ns wall_now_ns
      else retry_later k r timestamp_ns wall_now_ns true.

(** The walk over the vector; each turn leaves one entry fewer behind it. *)
Fixpoint reconnect_loop (turns : nat) (k : nat) (timestamp_ns : Z) : LM unit :=
  match turns with
  | O => ret tt
  | S turns => kept <- attempt k timestamp_ns ;; reconnect_loop turns (if kept then S k else k) timestamp_ns
  end.

Definition ProcessPendingReconnects (timestamp_ns : Z) : LM unit :=
  l <- get ;; reconnect_loop (length (sh_pending_reconnects (lv_shard l))) 0 timestamp_ns.

(** ** Opening a session *)

Definition ResolveWorkerId (worker_id worker_count : Z) : Z := if worker_count =? 0 then 0 else Z.min worker_id (worker_count - 1).

Definition MakeActiveSession (o : LiveOptions) (counterparty : Counterparty) (host : string) (port : Z) : LM ActiveSession :=
  store <- ask (w_make_store (session_id (cp_session counterparty))) ;;
  match store with
  | Error e => fail e
  | Value store =>
      let worker_id := default 0 (lo_find_session_shard o (session_id (cp_session counterparty))) in
      let protocol := NewAdminProtocol (cp_protocol counterparty) (Some store) in
      let protocol := set_session (set_day_cut_config (ap_session protocol) (cp_day_cut counterparty)) protocol in
      ret (MkActive counterparty worker_id protocol host port host port)
  end.

(** The part the two ways of opening share: the checks and the session, on the shard
    the session resolves to. *)
Definition prepare_session (id : Z) (host : string) (port : Z) : LM ActiveSession :=
  l <- get ;;
  let o := lv_options l in
  if string_empty host || (port =? 0) then fail (status.InvalidArgument "live initiator requires a remote host and port")
  else if HasActiveSession id (lv_registry l) then fail (status.AlreadyExists "initiator session already has an active transport connection")
  else if lo_threads_running o then fail (status.InvalidArgument "initiator does not support opening new sessions while multi-worker run is active")
  else
    match lo_find_counterparty o id with
    | None => fail (status.NotFound "initiator session was not found in engine config")
    | Some counterparty =>
        if negb (is_initiator (cp_session counterparty)) then fail (status.InvalidArgument "live initiator requires an initiator-mode counterparty")
        else
          loaded <- ask (w_load_dictionary (profile_id (cp_session counterparty))) ;;
          check loaded ;;;
          session <- MakeActiveSession o counterparty host port ;;
          let '(core, restored) := RestoreAppliedSequenceState (lo_engine o) (as_session_id session) (Some (ap_session (as_protocol session))) in
          check restored ;;;
          let protocol := set_session (default (ap_session (as_protocol session)) core) (as_protocol session) in
          ret (MkActive counterparty (ResolveWorkerId (as_worker_id session) (lo_worker_count o)) protocol host port host port)
    end.

Definition kAlreadyOpen : Status := status.AlreadyExists "initiator session already has an active transport connection".

(** Registered and waiting for its first attempt. *)
Definition enqueue_session (session : ActiveSession) (next_attempt_ns timestamp_ns : Z) : LM unit :=
  let id := as_session_id session in
  admitted <- on_registry_get (RegisterActiveSession id) ;;
  if negb admitted then fail kAlreadyOpen
  else
    modify (fun l => set_worker_ids (<[id := as_worker_id session]> (lv_session_worker_ids l)) l) ;;;
    on_registry ClearTerminalStatus ;;;
    UpdateSessionSnapshot session ;;;
    push_pending (MkPending id (as_host session) (as_port session) 0 (cp_reconnect_initial_ms (as_counterparty session)) next_attempt_ns true session) ;;;
    progress timestamp_ns.

Definition OpenSession (id : Z) (host : string) (port : Z) : LM unit :=
  session <- prepare_session id host port ;;
  timestamp_ns <- ask w_steady_now ;;
  wall_now_ns <- ask w_wall_now ;;
  inside <- the (IsWithinLogonWindow (cp_session_schedule (as_counterparty session)) wall_now_ns) ;;
  if negb inside then
    next <- ComputeScheduledAttemptNs (as_counterparty session) timestamp_ns wall_now_ns 0 ;;
    enqueue_session session next timestamp_ns
  else
    dialled <- ask (w_connect (as_host session) (as_port session)) ;;
    check dialled ;;;
    let '(protocol, started) := OnTransportConnected timestamp_ns (as_protocol session) in
    match started with
    | Error e => fail e
    | Value event =>
        let session := with_protocol protocol session in
        let sid := as_session_id session in
        l <- get ;;
        let connection_id := lv_next_connection_id l in
        modify (set_next_connection_id (connection_id + 1)) ;;;
        sent <- catch (send_frames connection_id (outbound_frames event) timestamp_ns) ;;
        match sent with
        | Error e => ask (fun w => (tt, w_close connection_id w)) ;;; fail e
        | Value _ =>
            admitted <- on_registry_get (RegisterActiveSession sid) ;;
            if negb admitted then ask (fun w => (tt, w_close connection_id w)) ;;; fail kAlreadyOpen
            else
              modify (fun l => set_worker_ids (<[sid := as_worker_id session]> (lv_session_worker_ids l)) l) ;;;
              on_registry ClearTerminalStatus ;;;
              UpdateSessionSnapshot session ;;;
              modify (fun l => set_active_connection_count (lv_active_connection_count l + 1) l) ;;;
              push_connection (MkConnection connection_id session timestamp_ns timestamp_ns None false false "") ;;;
              progress timestamp_ns ;;;
              l <- get ;;
              let i := (length (sh_connections (lv_shard l)) - 1)%nat in
              dispatched <- catch (DispatchSessionEvent session SessionEventKind.kBound timestamp_ns "transport connected" true) ;;
              match dispatched with
              | Value _ => ret tt
              | Error e => MarkConnectionForClose i (Base.message e) false ;;; CloseConnection i timestamp_ns ;;; fail e
              end
        end
    end.

Definition OpenSessionAsync (id : Z) (host : string) (port : Z) : LM unit :=
  session <- prepare_session id host port ;;
  timestamp_ns <- ask w_steady_now ;;
  wall_now_ns <- ask w_wall_now ;;
  inside <- the (IsWithinLogonWindow (cp_session_schedule (as_counterparty session)) wall_now_ns) ;;
  next <- (if inside : bool then ret timestamp_ns else ComputeScheduledAttemptNs (as_counterparty session) timestamp_ns wall_now_ns 0) ;;
  enqueue_session session next timestamp_ns.

(** ** The poll of a worker *)

Fixpoint poll_sessions (indices : list nat) (timestamp_ns : Z) : LM unit :=
  match indices with
  | [] => ret tt
  | i :: indices =>
      c <- connection_at i ;;
      (if cn_close_requested c || negb (is_inline (cn_session c)) then ret tt
       else match state (ap_session (as_protocol (cn_session c))) with
            | kActive => st <- callback (w_session_poll (as_session_id (cn_session c)) timestamp_ns) ;; check st
            | _ => ret tt
            end) ;;;
      poll_sessions indices timestamp_ns
  end.

Definition PollApplicationSessions (timestamp_ns : Z) : LM unit :=
  l <- get ;;
  if negb (lo_application (lv_options l)) then ret tt else poll_sessions (seq 0 (length (sh_connections (lv_shard l)))) timestamp_ns.

(** [ComputePollTimeout] in milliseconds; a negative timeout waits for ever. *)
Definition ComputePollTimeout (timeout_ms timestamp_ns : Z) (o : LiveOptions) (s : WorkerShardState) : Z :=
  if lo_poll_busy o then 0
  else
    let deadline := fold_left (fun d r => match d with Some x => if pr_next_attempt_ns r <? x then Some (pr_next_attempt_ns r) else d | None => Some (pr_next_attempt_ns r) end)
                      (sh_pending_reconnects s) (TimerWheel.NextDeadline (sh_timer_wheel s)) in
    match deadline with
    | None => timeout_ms
    | Some d =>
        if d <=? timestamp_ns then 0
        else let timer_timeout := (d - timestamp_ns) / 1000000 in if timeout_ms <? 0 then timer_timeout else Z.min timeout_ms timer_timeout
    end.

(** [PollWorkerOnce] behind the wait, with the positions the poller reported; the
    queue runner of a managed application is left out. *)
Definition PollWorkerOnce (fuel : nat) (ready : list nat) : LM unit :=
  now <- ask w_steady_now ;;
  process_ready fuel (rev ready) now ;;;
  PollApplicationSessions now ;;;
  DrainWorkerCommands now ;;;
  timers_now <- ask w_steady_now ;;
  ProcessDueTimers timers_now ;;;
  ProcessPendingReconnects timers_now ;;;
  PollApplicationSessions timers_now ;;;
  final_now <- ask w_steady_now ;;
  DrainWorkerCommands final_now ;;;
  AdoptPendingConnections.

(** [Stop], for the shard of this worker. *)
Definition Stop : LM unit :=
  modify (fun l =>
    let s := lv_shard l in
    let s := MkShard (sh_worker_id s) [] (TimerWheel.Clear (sh_timer_wheel s)) ∅ ∅ [] [] [] in
    let w := fold_left (fun w c => w_close (cn_connection_id c) w) (sh_connections (lv_shard l)) (lv_world l) in
    MkLive (lv_options l) s ∅ (SessionRegistry.Clear (lv_registry l)) (lv_next_connection_id l) 0 (lv_last_progress_ns l) (lv_completed_sessions l) 0 (lv_strategies l) w).
End Live.
Arguments ActiveSession : clear implicits.
Arguments ConnectionState : clear implicits.
Arguments PendingReconnect : clear implicits.
Arguments WorkerShardState : clear implicits.
Arguments Live : clear implicits.
