(* ===== verification/LiveTables.v ===== *)
(** * The tables of a worker of the initiator

    The invariant of a worker and the operations on its tables: every registered
    session of the worker is owned by exactly one connection or one pending reconnect,
    and the index maps are those of the vector. *)
From S2P Require Import Calendar Heap TimerWheel Schedule.
From S2P Require Import Prelude Base IntFormat FixTags Wire RawPassThrough Frame Message Validation.
From S2P Require Import TransportProfile SessionCore SessionStore AdminProtocol.
From S2P Require Import Ha ConnectionStrategy SessionRegistry Peek LiveInitiator.
From stdpp Require Import gmap pretty.
Open Scope Z_scope.

Create HintDb quiet.

Section Tables.
Context {St W Sg : Type} `{SessionStore St} `{Codec} `{HeapAlgorithms HeapEntry deadline_ns} `{LocalTime} `{World St W} `{ConnectionStrategy Sg}.
Notation L := (Live St W Sg).
Implicit Types l : L.

Definition conn_ids l : list Z := map cn_connection_id (sh_connections (lv_shard l)).
Definition conn_parties l : list Counterparty := map (fun c => as_counterparty (cn_session c)) (sh_connections (lv_shard l)).
Definition pend_parties l : list Counterparty := map (fun r => as_counterparty (pr_session r)) (sh_pending_reconnects (lv_shard l)).
Definition active_ids l : gset Z := active_session_ids_ (lv_registry l).

(** What the invariant looks at. *)
Record same_tables l l' : Prop := {
  st_ids : conn_ids l' = conn_ids l;
  st_parties : conn_parties l' = conn_parties l;
  st_index : sh_connection_indices (lv_shard l') = sh_connection_indices (lv_shard l);
  st_session_index : sh_session_connection_indices (lv_shard l') = sh_session_connection_indices (lv_shard l);
  st_inbox : sh_inbox (lv_shard l') = sh_inbox (lv_shard l);
  st_pending : sh_pending_reconnects (lv_shard l') = sh_pending_reconnects (lv_shard l);
  st_active : active_ids l' = active_ids l;
  st_next : lv_next_connection_id l' = lv_next_connection_id l;
  st_active_count : lv_active_connection_count l' = lv_active_connection_count l;
  st_pending_count : lv_pending_reconnect_count l' = lv_pending_reconnect_count l;
  st_options : lv_options l' = lv_options l;
  st_strategies : dom (lv_strategies l') = dom (lv_strategies l);
}.

#[global] Instance same_tables_refl : Reflexive same_tables.
Proof. by constructor. Qed.
#[global] Instance same_tables_trans : Transitive same_tables.
Proof. intros l1 l2 l3 [] []. constructor; congruence. Qed.

(** A call that leaves the tables alone, on both exits. *)
Definition quiet {A} (m : SE L A) : Prop := forall l, same_tables l (fst (m l)).

Lemma quiet_ret {A} (a : A) : quiet (ret a).
Proof. by intros l. Qed.
Lemma quiet_fail {A} st : quiet (@fail L A st).
Proof. by intros l. Qed.
Lemma quiet_get : quiet get.
Proof. by intros l. Qed.
Lemma quiet_bind {A B} (m : SE L A) (k : A -> SE L B) : quiet m -> (forall a, quiet (k a)) -> quiet (bind m k).
Proof.
  intros Hm Hk l. unfold bind. specialize (Hm l). destruct (m l) as [l' [a|e]]; cbn in *; [|done]. etrans; [exact Hm|]. apply Hk.
Qed.
Lemma quiet_catch {A} (m : SE L A) : quiet m -> quiet (catch m).
Proof. intros Hm l. unfold catch. specialize (Hm l). by destruct (m l). Qed.
Lemma quiet_const {A} (r : Result A) : quiet (fun l => (l, r)).
Proof. by intros l. Qed.

End Tables.

#[export] Hint Resolve quiet_ret quiet_fail quiet_get quiet_const : quiet.

Ltac quiet_step :=
  match goal with
  | |- quiet (bind _ _) => apply quiet_bind; [|intros ?]
  | |- quiet (catch _) => apply quiet_catch
  | |- quiet (if ?b then _ else _) => destruct b
  | |- quiet (match ?x with _ => _ end) => destruct x
  | |- quiet (let '(_, _) := ?x in _) => destruct x
  | |- quiet _ => solve [auto with quiet]
  end.
Ltac quiet := repeat quiet_step; auto with quiet.

Section Quiet.
Context {St W Sg : Type} `{SessionStore St} `{Codec} `{HeapAlgorithms HeapEntry deadline_ns} `{LocalTime} `{World St W} `{ConnectionStrategy Sg}.
Notation L := (Live St W Sg).
Implicit Types l : L.
#[local] Notation quiet m := (@quiet St W Sg _ m).

Lemma quiet_the {A} (o : option A) : quiet (the o).
Proof. unfold the. quiet. Qed.
Lemma quiet_check st : quiet (check st).
Proof. unfold check. quiet. Qed.
Lemma quiet_ask {A} (f : W -> A * W) : quiet (ask f).
Proof. intros l. unfold ask. destruct (f (lv_world l)). by destruct l. Qed.
Lemma quiet_progress t : quiet (progress t).
Proof. intros l. by destruct l. Qed.
#[local] Hint Resolve quiet_the quiet_check quiet_ask quiet_progress : quiet.

Lemma quiet_connection_at i : quiet (connection_at i).
Proof. unfold connection_at. quiet. Qed.
#[local] Hint Resolve quiet_connection_at : quiet.

Lemma map_alter_same {A B} (g : A -> B) (f : A -> A) i (l : list A) : (forall x, g (f x) = g x) -> map g (alter f i l) = map g l.
Proof. intros Hf. revert i. induction l as [|x l IH]; intros [|i]; cbn; try done; by rewrite ?Hf, ?IH. Qed.

Lemma quiet_upd_connection i f : (forall c, cn_connection_id (f c) = cn_connection_id c /\ as_counterparty (cn_session (f c)) = as_counterparty (cn_session c)) -> quiet (upd_connection i f).
Proof.
  intros Hf l. unfold upd_connection, on_shard, modify. cbn [fst]. destruct l as [o s ? ? ? ? ? ? ? ? ?]. destruct s. constructor; try done; unfold conn_ids, conn_parties; cbn.
  - apply (map_alter_same cn_connection_id). intros c. apply Hf.
  - apply (map_alter_same (fun c => as_counterparty (cn_session c))). intros c. apply Hf.
Qed.

Lemma quiet_on_shard f : (forall s, let s' := f s in sh_connections s' = sh_connections s /\ sh_connection_indices s' = sh_connection_indices s /\
  sh_session_connection_indices s' = sh_session_connection_indices s /\ sh_inbox s' = sh_inbox s /\ sh_pending_reconnects s' = sh_pending_reconnects s) -> quiet (on_shard f).
Proof.
  intros Hf l. unfold on_shard, modify. cbn [fst]. destruct l as [o s ? ? ? ? ? ? ? ? ?]. destruct (Hf s) as (H1' & H2' & H3' & H4' & H5'). cbn. by constructor; unfold conn_ids, conn_parties; cbn; rewrite ?H1'.
Qed.

Lemma quiet_on_registry f : (forall r, active_session_ids_ (f r) = active_session_ids_ r) -> quiet (on_registry f).
Proof. intros Hf l. unfold on_registry, modify. cbn [fst]. destruct l. constructor; try done. unfold active_ids. cbn. apply Hf. Qed.
Lemma quiet_on_registry_get {A} (f : _ -> _ * A) : (forall r, active_session_ids_ (fst (f r)) = active_session_ids_ r) -> quiet (on_registry_get f).
Proof. intros Hf l. unfold on_registry_get. specialize (Hf (lv_registry l)). destruct (f (lv_registry l)). destruct l. cbn in *. by constructor. Qed.

Lemma quiet_on_protocol {A} i (m : SE (Admin St) A) : quiet (on_protocol i m).
Proof.
  unfold on_protocol. apply quiet_bind; [quiet|]. intros c. destruct (m _) as [p r]. apply quiet_bind; [|quiet]. apply quiet_upd_connection. intros [? [] ? ? ? ? ? ?]. done.
Qed.
#[local] Hint Resolve quiet_on_protocol : quiet.

Lemma publish_active (n : SessionNotification MessageView) r : active_session_ids_ (PublishNotification n r) = active_session_ids_ r.
Proof.
  unfold PublishNotification. assert (Hp : forall ids r0, active_session_ids_ (fold_left (push_stream n) ids r0) = active_session_ids_ r0) by (intros ids; induction ids as [|id ids IH]; intros r0; [done|]; cbn [fold_left]; by rewrite IH).
  unfold publish_locked. cbv zeta. destruct (subscribers_ r !! _); by rewrite Hp.
Qed.
Lemma has_subscribers_active id (r : LiveSessionRegistry MessageView) : active_session_ids_ (fst (HasSubscribers id r)) = active_session_ids_ r.
Proof. unfold HasSubscribers. destruct (subscribers_ r !! id); [|done]. by destruct (skip_expired r _). Qed.
Lemma terminal_active st (r : LiveSessionRegistry MessageView) : active_session_ids_ (SetTerminalStatus st r) = active_session_ids_ r.
Proof. unfold SetTerminalStatus. by destruct (terminal_status_ r). Qed.

Lemma quiet_publish n : quiet (on_registry (PublishNotification n)).
Proof. apply quiet_on_registry, publish_active. Qed.
Lemma quiet_has_subscribers id : quiet (on_registry_get (HasSubscribers id)).
Proof. apply quiet_on_registry_get, has_subscribers_active. Qed.
Lemma quiet_snapshot s : quiet (UpdateSessionSnapshot s).
Proof. by apply quiet_on_registry. Qed.
Lemma quiet_terminal st : quiet (terminal st).
Proof. apply quiet_on_registry, terminal_active. Qed.
Lemma quiet_clear_terminal : quiet (on_registry ClearTerminalStatus).
Proof. by apply quiet_on_registry. Qed.
#[local] Hint Resolve quiet_publish quiet_has_subscribers quiet_snapshot quiet_terminal quiet_clear_terminal : quiet.

Lemma quiet_callback f : quiet (callback f).
Proof. intros l. unfold callback. destruct (f (lv_world l)) as [[st cmds] w]. destruct l as [o s ? ? ? ? ? ? ? ? ?]. by destruct s. Qed.
Lemma quiet_set_commands x : quiet (on_shard (set_commands x)).
Proof. apply quiet_on_shard. by intros []. Qed.
Lemma quiet_timers (f : _ -> _) : quiet (on_shard (fun s => set_timer_wheel (f s) s)).
Proof. apply quiet_on_shard. by intros []. Qed.
Lemma quiet_with_progress i t : quiet (upd_connection i (cn_with_progress t)).
Proof. apply quiet_upd_connection. by intros []. Qed.
Lemma quiet_with_pending i x : quiet (upd_connection i (cn_with_pending x)).
Proof. apply quiet_upd_connection. by intros []. Qed.
Lemma quiet_mark i reason b : quiet (MarkConnectionForClose i reason b).
Proof. apply quiet_upd_connection. by intros []. Qed.
#[local] Hint Resolve quiet_callback quiet_set_commands quiet_timers quiet_with_progress quiet_with_pending quiet_mark : quiet.

Lemma quiet_snapshot_at i : quiet (UpdateSessionSnapshot_at i).
Proof. unfold UpdateSessionSnapshot_at. quiet. Qed.
Lemma quiet_attempt_ns cp a b c : quiet (ComputeScheduledAttemptNs cp a b c).
Proof. unfold ComputeScheduledAttemptNs. quiet. Qed.
Lemma quiet_send_bytes id segs t : quiet (send_bytes id segs t).
Proof. unfold send_bytes. quiet. Qed.
#[local] Hint Resolve quiet_snapshot_at quiet_attempt_ns quiet_send_bytes : quiet.
Lemma quiet_SendFrame i f t : quiet (SendFrame i f t).
Proof. unfold SendFrame. quiet. Qed.
Lemma quiet_send_frames id fs t : quiet (send_frames id fs t).
Proof. induction fs; cbn; quiet. Qed.
#[local] Hint Resolve quiet_SendFrame quiet_send_frames : quiet.
Lemma quiet_SendFrames i fs t : quiet (SendFrames i fs t).
Proof. induction fs; cbn; quiet. Qed.
#[local] Hint Resolve quiet_SendFrames : quiet.
Lemma quiet_batch i fs t : quiet (SendFramesBatch i fs t).
Proof. unfold SendFramesBatch. quiet. Qed.
Lemma quiet_refresh i t : quiet (RefreshConnectionTimer i t).
Proof. unfold RefreshConnectionTimer. quiet. Qed.
Lemma quiet_run_command i c t : quiet (run_command i c t).
Proof. unfold run_command. quiet. Qed.
#[local] Hint Resolve quiet_batch quiet_refresh quiet_run_command : quiet.
Lemma quiet_drain_commands cs t : quiet (drain_commands cs t).
Proof. induction cs; cbn; unfold drain_command; quiet. Qed.
#[local] Hint Resolve quiet_drain_commands : quiet.
Lemma quiet_drain t : quiet (DrainWorkerCommands t).
Proof. unfold DrainWorkerCommands. quiet. Qed.
#[local] Hint Resolve quiet_drain : quiet.
Lemma quiet_session_event s k t x b : quiet (DispatchSessionEvent s k t x b).
Proof. unfold DispatchSessionEvent, after_callback. quiet. Qed.
Lemma quiet_admin_message s m t : quiet (DispatchAdminMessage s m t).
Proof. unfold DispatchAdminMessage, after_callback. quiet. Qed.
Lemma quiet_app_message i m t : quiet (DispatchAppMessage i m t).
Proof. unfold DispatchAppMessage, PrepareAppMessageCallback, after_callback. quiet. Qed.
Lemma quiet_retry_app i t : quiet (RetryPendingAppEvent i t).
Proof. unfold RetryPendingAppEvent. quiet. apply quiet_upd_connection. by intros []. Qed.
#[local] Hint Resolve quiet_session_event quiet_admin_message quiet_app_message quiet_retry_app : quiet.
Lemma quiet_dispatch_messages i ms t : quiet (dispatch_messages i ms t).
Proof. induction ms; cbn; quiet. Qed.
#[local] Hint Resolve quiet_dispatch_messages : quiet.
Lemma quiet_protocol_event i e t : quiet (HandleProtocolEvent i e t).
Proof. unfold HandleProtocolEvent. quiet. Qed.
Lemma quiet_strategy ref c : quiet (strategy_disconnected ref c).
Proof.
  intros l. unfold strategy_disconnected. destruct (lv_strategies l !! ref) eqn:E; [|done]. destruct (OnDisconnected _ _ _) as [[d s'] w]. destruct l. constructor; try done. cbn in *. by rewrite dom_insert_lookup_L.
Qed.
Lemma quiet_notify s : quiet (NotifyConnectionStrategyConnected s).
Proof. unfold NotifyConnectionStrategyConnected. destruct (cp_connection_strategy _); [|quiet]. intros l. destruct l. constructor; try done. apply dom_alter_L. Qed.
#[local] Hint Resolve quiet_protocol_event quiet_strategy quiet_notify : quiet.
Lemma quiet_inbound i f h t : quiet (HandleInboundFrame i f h t).
Proof. unfold HandleInboundFrame. quiet. Qed.
#[local] Hint Resolve quiet_inbound : quiet.
Lemma quiet_receive fuel i t : quiet (receive_loop fuel i t).
Proof. induction fuel; cbn; quiet. Qed.
Lemma quiet_service i t : quiet (ServiceTimer i t).
Proof. unfold ServiceTimer. quiet. Qed.
Lemma quiet_poll_sessions indices t : quiet (poll_sessions indices t).
Proof. induction indices; cbn; quiet. Qed.
#[local] Hint Resolve quiet_receive quiet_service quiet_poll_sessions : quiet.
Lemma quiet_poll t : quiet (PollApplicationSessions t).
Proof. unfold PollApplicationSessions. quiet. Qed.
Lemma quiet_decide r d t w : quiet (ApplyConnectionStrategyDecision r d t w).
Proof. unfold ApplyConnectionStrategyDecision. quiet. Qed.
Lemma quiet_forget id : quiet (forget_worker id).
Proof. intros l. by destruct l. Qed.
Lemma quiet_make_session o cp h p : quiet (MakeActiveSession o cp h p).
Proof. unfold MakeActiveSession. quiet. Qed.
#[local] Hint Resolve quiet_poll quiet_decide quiet_forget quiet_make_session : quiet.
Lemma quiet_prepare id h p : quiet (prepare_session id h p).
Proof. unfold prepare_session. quiet. Qed.

(** ** Calls and their outcomes *)

Definition wp {A} (m : SE L A) (Q : Result A -> L -> Prop) (l : L) : Prop := Q (snd (m l)) (fst (m l)).

Lemma wp_bind {A B} (m : SE L A) (k : A -> SE L B) Q l :
  wp m (fun r l' => match r with Value a => wp (k a) Q l' | Error e => Q (Error e) l' end) l -> wp (bind m k) Q l.
Proof. unfold wp, bind. by destruct (m l) as [l' [a|e]]. Qed.
Lemma wp_catch {A} (m : SE L A) Q l : wp m (fun r l' => Q (Value r) l') l -> wp (catch m) Q l.
Proof. unfold wp, catch. by destruct (m l). Qed.
Lemma wp_mono {A} (m : SE L A) (Q Q' : Result A -> L -> Prop) l : (forall r l', Q r l' -> Q' r l') -> wp m Q l -> wp m Q' l.
Proof. unfold wp. auto. Qed.
Lemma wp_quiet {A} (m : SE L A) (Q : Result A -> L -> Prop) l : quiet m -> (forall r l', same_tables l l' -> Q r l') -> wp m Q l.
Proof. intros Hm HQ. apply HQ, Hm. Qed.

(** ** Index maps over a vector *)

Definition indexes (m : gmap Z nat) (keys : list Z) : Prop := forall k i, m !! k = Some i <-> keys !! i = Some k.

Lemma indexes_push m keys x : indexes m keys -> x ∉ keys -> indexes (<[x := length keys]> m) (keys ++ [x]).
Proof.
  intros Hm Hx k i. destruct (decide (k = x)) as [->|Hne].
  - rewrite lookup_insert_eq. split.
    + intros [= <-]. by rewrite lookup_app_r, Nat.sub_diag by lia.
    + intros [Hl|[Hle Hl]]%lookup_app_Some; [by apply list_elem_of_lookup_2 in Hl|]. destruct (i - length keys)%nat eqn:E; [f_equal; lia|done].
  - rewrite lookup_insert_ne by done. rewrite (Hm k i), lookup_app_Some. split; [by left|]. intros [?|[_ Hl]]; [done|]. apply list_lookup_singleton_Some in Hl as [_ ->]. done.
Qed.

(** The element at [i] goes, the last one takes its place. *)
Lemma indexes_swap_remove m keys i n x y : indexes m keys -> NoDup keys -> keys !! i = Some x -> length keys = S n -> keys !! n = Some y ->
  indexes (if (i =? n)%nat then delete x m else <[y := i]> (delete x m)) (take n (if (i =? n)%nat then keys else <[i := y]> keys)) /\
  keys ≡ₚ x :: take n (if (i =? n)%nat then keys else <[i := y]> keys).
Proof.
  intros Hm Hnd Hi Hlen Hn. assert (Hlt : (i < S n)%nat) by (rewrite <- Hlen; by eapply lookup_lt_Some).
  assert (Hsplit : keys = take n keys ++ [y]) by (rewrite <- (take_drop n keys) at 1; f_equal; rewrite (drop_S _ _ _ Hn); f_equal; apply drop_ge; lia).
  destruct (Nat.eqb_spec i n) as [->|Hne].
  - rewrite Hn in Hi. injection Hi as ->. split.
    + intros k j. rewrite lookup_delete_Some, (Hm k j), lookup_take_Some. split.
      * intros [Hk Hj]. split; [done|]. assert (j < length keys)%nat by (by eapply lookup_lt_Some). destruct (decide (j = n)) as [->|]; [|lia]. congruence.
      * intros [Hj Hjn]. split; [|done]. intros ->. assert (j = n) by (by eapply NoDup_lookup). lia.
    + rewrite Hsplit at 1. by rewrite Permutation_app_comm.
  - assert (Hyx : y <> x) by (intros ->; apply Hne; by eapply NoDup_lookup). split.
    + intros k j. destruct (decide (k = y)) as [->|Hky].
      * rewrite lookup_insert_eq, lookup_take_Some. split.
        -- intros [= <-]. split; [apply list_lookup_insert_eq; lia|lia].
        -- intros [Hj Hjn]. f_equal. destruct (decide (j = i)) as [->|Hji]; [done|]. rewrite list_lookup_insert_ne in Hj by done. exfalso. assert (j = n) by (by eapply NoDup_lookup). lia.
      * rewrite lookup_insert_ne by done. rewrite lookup_delete_Some, (Hm k j), lookup_take_Some. split.
        -- intros [Hk Hj]. assert (j <> i) by congruence. rewrite list_lookup_insert_ne by done. split; [done|]. assert (j < length keys)%nat by (by eapply lookup_lt_Some). destruct (decide (j = n)) as [->|]; [congruence|lia].
        -- intros [Hj Hjn]. destruct (decide (j = i)) as [->|Hji]; [rewrite list_lookup_insert_eq in Hj by lia; congruence|]. rewrite list_lookup_insert_ne in Hj by done. split; [|done]. intros ->. apply Hji. by eapply NoDup_lookup.
    + rewrite take_insert_lt by lia. rewrite Hsplit at 1. assert (Hi' : take n keys !! i = Some x) by (rewrite lookup_take_lt by lia; done).
      rewrite (delete_Permutation _ _ _ Hi') at 1. rewrite (delete_Permutation (<[i := y]> (take n keys)) i y) by (apply list_lookup_insert_eq; rewrite length_take; lia).
      assert (Hdel : delete i (<[i := y]> (take n keys)) = delete i (take n keys)).
      { rewrite insert_take_drop by (rewrite length_take; lia). rewrite !delete_take_drop. rewrite take_app_length' by (rewrite !length_take; lia).
        rewrite (cons_middle y), app_assoc, drop_app_length' by (rewrite length_app, !length_take; cbn; lia). done. }
      rewrite Hdel. cbn. by rewrite Permutation_app_comm.
Qed.

(** ** The invariant *)

Definition party_id (cp : Counterparty) : Z := session_id (cp_session cp).

(** A counterparty of a validated configuration: its schedule has windows, its strategy
    exists. *)
Definition party_ok (refs : gset nat) (cp : Counterparty) : Prop :=
  party_id cp <> 0 /\ (forall logon, is_Some (BuildWindowSpecs (cp_session_schedule cp) logon)) /\
  match cp_connection_strategy cp with Some ref => ref ∈ refs | None => True end.

Definition entry_ok (r : PendingReconnect St) : Prop := pr_session_registered r = true /\ pr_session_id r = as_session_id (pr_session r).

Definition parties l : list Counterparty := conn_parties l ++ pend_parties l.
Definition sessions l : list Z := map party_id (parties l).

Definition config_ok l : Prop :=
  forall id cp, lo_find_counterparty (lv_options l) id = Some cp -> party_id cp = id /\ party_ok (dom (lv_strategies l)) cp.

(** The tables of a worker, beside [a] connections and [p] pending reconnects of the
    other workers. *)
Record table_inv (a p : Z) l : Prop := {
  ti_ids : NoDup (conn_ids l);
  ti_fresh : Forall (fun id => id < lv_next_connection_id l) (conn_ids l);
  ti_index : indexes (sh_connection_indices (lv_shard l)) (conn_ids l);
  ti_sessions : NoDup (sessions l);
  ti_session_index : indexes (sh_session_connection_indices (lv_shard l)) (map party_id (conn_parties l));
  ti_inbox : sh_inbox (lv_shard l) = [];
  ti_entries : Forall entry_ok (sh_pending_reconnects (lv_shard l));
  ti_parties : Forall (party_ok (dom (lv_strategies l))) (parties l);
  ti_config : config_ok l;
  ti_active : lv_active_connection_count l = a + Z.of_nat (length (conn_ids l));
  ti_pending : lv_pending_reconnect_count l = p + Z.of_nat (length (sh_pending_reconnects (lv_shard l)));
}.

(** The registry holds the sessions of this worker and the [others], and no session
    has two owners. *)
Record live_inv (others : gset Z) (a p : Z) l : Prop := {
  lw_tables : table_inv a p l;
  lw_registered : active_ids l = others ∪ list_to_set (sessions l);
  lw_disjoint : others ## list_to_set (sessions l);
}.

Lemma same_tables_parties l l' : same_tables l l' -> parties l' = parties l.
Proof. intros []. unfold parties, pend_parties. by rewrite st_parties0, st_pending0. Qed.

Lemma table_inv_same a p l l' : same_tables l l' -> table_inv a p l -> table_inv a p l'.
Proof.
  intros Hs [A1 A2 A3 A4 A5 A6 A7 A8 A9 A10 A11]. pose proof (same_tables_parties _ _ Hs) as Hp. destruct Hs as [B1 B2 B3 B4 B5 B6 B7 B8 B9 B10 B11 B12].
  unfold config_ok in *. constructor; unfold sessions, config_ok in *; rewrite ?B1, ?B2, ?B3, ?B4, ?B5, ?B6, ?B8, ?B9, ?B10, ?B11, ?B12, ?Hp; done.
Qed.

Lemma live_inv_same o a p l l' : same_tables l l' -> live_inv o a p l -> live_inv o a p l'.
Proof.
  intros Hs [A1 A2 A3]. constructor; [by eapply table_inv_same|..]; unfold sessions in *; rewrite (same_tables_parties _ _ Hs); [|done]. by rewrite (st_active _ _ Hs).
Qed.

Lemma wp_quiet_inv {A} (m : SE L A) o a p l : quiet m -> live_inv o a p l -> wp m (fun _ l' => live_inv o a p l') l.
Proof. intros Hm Hl. apply wp_quiet; [done|]. intros r l' Hs. by eapply live_inv_same. Qed.

(** *** Registration *)

Lemma set_release (o s : gset Z) x : x ∉ o -> x ∉ s -> (o ∪ {[x]} ∪ s) ∖ {[x]} = o ∪ s.
Proof. clear. set_solver. Qed.

(** Calls on the registry alone. *)
Lemma inv_registry o o' a p l (f : LiveSessionRegistry MessageView -> LiveSessionRegistry MessageView) : live_inv o a p l ->
  active_session_ids_ (f (lv_registry l)) = o' ∪ list_to_set (sessions l) -> o' ## list_to_set (sessions l) -> live_inv o' a p (set_registry (f (lv_registry l)) l).
Proof. intros [A1 A2 A3] B2 B3. constructor; destruct l; [by destruct A1|done|done]. Qed.

Lemma inv_register o a p l id : live_inv o a p l -> id ∉ active_ids l -> live_inv (o ∪ {[id]}) a p (fst (on_registry_get (RegisterActiveSession id) l)).
Proof.
  intros Hl Hid. pose proof Hl as [_ A2 A3]. apply (inv_registry o _ a p l (fun r => fst (RegisterActiveSession id r)) Hl).
  - change ({[id]} ∪ active_ids l = o ∪ {[id]} ∪ list_to_set (sessions l)). rewrite A2. clear. set_solver.
  - rewrite A2 in Hid. clear -A3 Hid. set_solver.
Qed.

Lemma inv_unregister o a p l id : live_inv (o ∪ {[id]}) a p l -> id ∉ o -> live_inv o a p (fst (unregister id l)).
Proof.
  intros Hl Hid. pose proof Hl as [_ A2 A3]. apply (live_inv_same _ _ _ (set_registry (UnregisterActiveSession id (lv_registry l)) l)); [by destruct l|].
  apply disjoint_union_l in A3 as [A3 A4%disjoint_singleton_l]. apply (inv_registry _ _ a p l (UnregisterActiveSession id) Hl); [|done].
  change (active_ids l ∖ {[id]} = o ∪ list_to_set (sessions l)). rewrite A2. by apply set_release.
Qed.

(** *** Pending reconnects *)

(** The parts of the state a change of the pending reconnects leaves alone. *)
Record same_connections l l' : Prop := {
  sc_ids : conn_ids l' = conn_ids l;
  sc_parties : conn_parties l' = conn_parties l;
  sc_index : sh_connection_indices (lv_shard l') = sh_connection_indices (lv_shard l);
  sc_session_index : sh_session_connection_indices (lv_shard l') = sh_session_connection_indices (lv_shard l);
  sc_inbox : sh_inbox (lv_shard l') = sh_inbox (lv_shard l);
  sc_active : active_ids l' = active_ids l;
  sc_next : lv_next_connection_id l' = lv_next_connection_id l;
  sc_active_count : lv_active_connection_count l' = lv_active_connection_count l;
  sc_options : lv_options l' = lv_options l;
  sc_strategies : dom (lv_strategies l') = dom (lv_strategies l);
}.

Lemma pending_tables a p l l' : same_connections l l' -> table_inv a p l -> NoDup (sessions l') -> Forall entry_ok (sh_pending_reconnects (lv_shard l')) ->
  Forall (party_ok (dom (lv_strategies l))) (pend_parties l') -> lv_pending_reconnect_count l' = p + Z.of_nat (length (sh_pending_reconnects (lv_shard l'))) -> table_inv a p l'.
Proof.
  intros [B1 B2 B3 B4 B5 B6 B7 B8 B9 B10] [A1 A2 A3 A4 A5 A6 A7 A8 A9 A10 A11] C1 C2 C3 C4. unfold parties in A8. apply Forall_app in A8 as [A8 _].
  constructor; unfold config_ok in *; rewrite ?B1, ?B2, ?B3, ?B4, ?B5, ?B7, ?B8, ?B9, ?B10; try done. unfold parties. rewrite B2. by apply Forall_app.
Qed.

Lemma push_pending_same r l : same_connections l (fst (push_pending r l)).
Proof. by destruct l as [? []]. Qed.
Lemma erase_pending_same k l : same_connections l (fst (erase_pending k l)).
Proof. by destruct l as [? []]. Qed.

Lemma inv_push_pending o a p l r : live_inv (o ∪ {[as_session_id (pr_session r)]}) a p l -> as_session_id (pr_session r) ∉ o -> entry_ok r ->
  party_ok (dom (lv_strategies l)) (as_counterparty (pr_session r)) -> live_inv o a p (fst (push_pending r l)).
Proof.
  change (as_session_id (pr_session r)) with (party_id (as_counterparty (pr_session r))). set (cp := as_counterparty (pr_session r)).
  intros [A1 A2 A3] Ho Hr Hp. pose proof (push_pending_same r l) as Hsame. set (l' := fst (push_pending r l)) in *.
  assert (E1 : sh_pending_reconnects (lv_shard l') = sh_pending_reconnects (lv_shard l) ++ [r]) by (by destruct l as [? []]).
  assert (E2 : pend_parties l' = pend_parties l ++ [cp]) by (unfold pend_parties; rewrite E1, map_app; done).
  assert (E3 : sessions l' = sessions l ++ [party_id cp]) by (unfold sessions, parties; rewrite (sc_parties _ _ Hsame), E2, app_assoc, map_app; done).
  apply disjoint_union_l in A3 as [A3 A4%disjoint_singleton_l]. rewrite elem_of_list_to_set in A4.
  constructor; [apply (pending_tables a p l l' Hsame A1)|..].
  - rewrite E3. apply NoDup_app. split_and!; [apply A1| |apply NoDup_singleton]. by intros x Hx ->%list_elem_of_singleton.
  - rewrite E1. apply Forall_app. split; [apply A1|]. by constructor.
  - rewrite E2. apply Forall_app. split; [|by constructor]. pose proof (ti_parties _ _ _ A1) as Hall. by apply Forall_app in Hall as [_ ?].
  - rewrite E1, length_app. cbn [length]. pose proof (ti_pending _ _ _ A1) as Hc. destruct l as [? []]. cbn in *. lia.
  - rewrite (sc_active _ _ Hsame), A2, E3, list_to_set_app_L. cbn. clear. set_solver.
  - rewrite E3, list_to_set_app_L. cbn. clear -A3 Ho. set_solver.
Qed.

Lemma inv_erase_pending o a p l k r : live_inv o a p l -> sh_pending_reconnects (lv_shard l) !! k = Some r ->
  live_inv (o ∪ {[as_session_id (pr_session r)]}) a p (fst (erase_pending k l)) /\ as_session_id (pr_session r) ∉ o.
Proof.
  change (as_session_id (pr_session r)) with (party_id (as_counterparty (pr_session r))). set (cp := as_counterparty (pr_session r)).
  intros [A1 A2 A3] Hk. pose proof (erase_pending_same k l) as Hsame. set (l' := fst (erase_pending k l)) in *. pose proof (delete_Permutation _ _ _ Hk) as Hperm.
  assert (E1 : sh_pending_reconnects (lv_shard l') = delete k (sh_pending_reconnects (lv_shard l))) by (by destruct l as [? []]).
  assert (E2 : pend_parties l ≡ₚ cp :: pend_parties l') by (unfold pend_parties; rewrite E1; by rewrite Hperm at 1).
  assert (E3 : sessions l ≡ₚ party_id cp :: sessions l') by (unfold sessions, parties; rewrite (sc_parties _ _ Hsame), E2, !map_app; cbn; by rewrite <- Permutation_middle).
  pose proof (ti_sessions _ _ _ A1) as Hnd. rewrite E3 in Hnd, A2, A3. apply NoDup_cons in Hnd as [Hn Hnd]. cbn in A2, A3. rewrite <- (elem_of_list_to_set (C := gset Z)) in Hn.
  split; [|clear -A3; set_solver]. constructor; [apply (pending_tables a p l l' Hsame A1)|..]; try done.
  - rewrite E1. apply Forall_delete, A1.
  - pose proof (ti_parties _ _ _ A1) as Hall. apply Forall_app in Hall as [_ Hall]. rewrite E2 in Hall. by apply Forall_cons in Hall as [_ ?].
  - rewrite E1. pose proof (ti_pending _ _ _ A1) as Hc. pose proof (Permutation_length Hperm) as Hlen. cbn in Hlen. destruct l as [? []]. cbn in *. lia.
  - rewrite (sc_active _ _ Hsame), A2. clear. set_solver.
  - clear -A3 Hn. set_solver.
Qed.

(** An entry that keeps its session. *)
Lemma inv_upd_pending o a p l k r r' : live_inv o a p l -> sh_pending_reconnects (lv_shard l) !! k = Some r -> entry_ok r' ->
  as_counterparty (pr_session r') = as_counterparty (pr_session r) -> live_inv o a p (fst (upd_pending k r' l)).
Proof.
  intros [A1 A2 A3] Hk Hr Hcp. assert (Hsame : same_connections l (fst (upd_pending k r' l))) by (by destruct l as [? []]). set (l' := fst (upd_pending k r' l)) in *.
  assert (E1 : sh_pending_reconnects (lv_shard l') = <[k := r']> (sh_pending_reconnects (lv_shard l))) by (by destruct l as [? []]).
  assert (E2 : pend_parties l' = pend_parties l).
  { unfold pend_parties. rewrite E1. change (map ?f ?x) with (f <$> x). rewrite list_fmap_insert. apply list_insert_id. rewrite list_lookup_fmap, Hk. cbn. by rewrite Hcp. }
  assert (E3 : sessions l' = sessions l) by (unfold sessions, parties; by rewrite (sc_parties _ _ Hsame), E2).
  constructor; [apply (pending_tables a p l l' Hsame A1)|..].
  - rewrite E3. apply A1.
  - rewrite E1. apply Forall_insert; [apply A1|done].
  - rewrite E2. pose proof (ti_parties _ _ _ A1) as Hall. by apply Forall_app in Hall as [_ ?].
  - rewrite E1, length_insert. pose proof (ti_pending _ _ _ A1). by destruct l as [? []].
  - by rewrite (sc_active _ _ Hsame), A2, E3.
  - by rewrite E3.
Qed.

Lemma pending_party_ok o a p l k r : live_inv o a p l -> sh_pending_reconnects (lv_shard l) !! k = Some r ->
  entry_ok r /\ party_ok (dom (lv_strategies l)) (as_counterparty (pr_session r)).
Proof.
  intros [A1 _ _] Hk. split; [eapply Forall_lookup_1; [apply (ti_entries _ _ _ A1)|done]|]. pose proof (ti_parties _ _ _ A1) as Hall. apply Forall_app in Hall as [_ Hall].
  unfold pend_parties in Hall. rewrite Forall_map in Hall. by eapply Forall_lookup_1 in Hall.
Qed.

(** *** Connections *)

(** A new connection for a session that is registered and has no owner; the counter
    was raised before. *)
Lemma inv_push_connection o a p l c : live_inv (o ∪ {[as_session_id (cn_session c)]}) (a + 1) p l -> as_session_id (cn_session c) ∉ o ->
  party_ok (dom (lv_strategies l)) (as_counterparty (cn_session c)) -> cn_connection_id c < lv_next_connection_id l -> cn_connection_id c ∉ conn_ids l ->
  live_inv o a p (fst (push_connection c l)).
Proof.
  change (as_session_id (cn_session c)) with (party_id (as_counterparty (cn_session c))). set (cp := as_counterparty (cn_session c)).
  intros [A1 A2 A3] Ho Hcp Hnext Hid. set (l' := fst (push_connection c l)). apply disjoint_union_l in A3 as [A3 A4%disjoint_singleton_l]. rewrite elem_of_list_to_set in A4.
  assert (Hstate : lv_shard l' = (let s := lv_shard l in MkShard (sh_worker_id s) (sh_connections s ++ [c]) (sh_timer_wheel s) (<[cn_connection_id c := length (sh_connections s)]> (sh_connection_indices s))
      (<[party_id cp := length (sh_connections s)]> (sh_session_connection_indices s)) (sh_commands s) (sh_inbox s) (sh_pending_reconnects s)) /\
    lv_next_connection_id l' = lv_next_connection_id l /\ active_ids l' = active_ids l /\ lv_options l' = lv_options l /\ lv_strategies l' = lv_strategies l /\
    lv_active_connection_count l' = lv_active_connection_count l /\ lv_pending_reconnect_count l' = lv_pending_reconnect_count l).
  { subst l'. destruct l as [? [? cs ? ? ? ? ? ?] ? ? ? ? ? ? ? ? ?]. unfold push_connection, IndexConnection, on_shard, bind, modify, get. cbn. rewrite length_app. cbn. rewrite Nat.add_sub.
    rewrite list_lookup_middle by done. done. }
  destruct Hstate as (E & E1 & E2 & E3 & E4 & E5 & E6).
  assert (F1 : conn_ids l' = conn_ids l ++ [cn_connection_id c]) by (unfold conn_ids; rewrite E; cbn; by rewrite map_app).
  assert (F2 : conn_parties l' = conn_parties l ++ [cp]) by (unfold conn_parties; rewrite E; cbn; by rewrite map_app).
  assert (F3 : pend_parties l' = pend_parties l) by (unfold pend_parties; by rewrite E).
  assert (F4 : sessions l' ≡ₚ party_id cp :: sessions l) by (unfold sessions, parties; rewrite F2, F3, !map_app, <- app_assoc; symmetry; apply Permutation_middle).
  assert (G1 : length (sh_connections (lv_shard l)) = length (conn_ids l)) by (unfold conn_ids; by rewrite length_map).
  assert (G2 : length (sh_connections (lv_shard l)) = length (map party_id (conn_parties l))) by (unfold conn_parties; by rewrite !length_map).
  destruct A1 as [B1 B2 B3 B4 B5 B6 B7 B8 B9 B10 B11]. constructor; [constructor|..]; unfold config_ok; rewrite ?E1, ?E2, ?E3, ?E4, ?E5, ?E6, ?F1; try done.
  - apply NoDup_app. split_and!; [done| |apply NoDup_singleton]. by intros x Hx ->%list_elem_of_singleton.
  - apply Forall_app. split; [done|]. by constructor.
  - rewrite E. cbn. rewrite G1. by apply indexes_push.
  - rewrite F4. by constructor.
  - rewrite F2, map_app, E. cbn. rewrite G2. apply indexes_push; [done|]. intros Hin. apply A4. unfold sessions, parties. rewrite map_app. apply elem_of_app. by left.
  - by rewrite E.
  - by rewrite E.
  - unfold parties in *. rewrite F2, F3. apply Forall_app in B8 as [? ?]. rewrite !Forall_app. split_and!; [done| |done]. by constructor.
  - rewrite length_app. cbn. lia.
  - by rewrite E.
  - rewrite A2, F4. cbn. clear. set_solver.
  - rewrite F4. cbn. clear -A3 Ho. set_solver.
Qed.
End Quiet.

#[export] Hint Resolve quiet_the quiet_check quiet_ask quiet_progress quiet_connection_at quiet_on_protocol quiet_publish quiet_has_subscribers quiet_snapshot quiet_terminal quiet_clear_terminal quiet_callback quiet_set_commands quiet_timers quiet_with_progress quiet_with_pending quiet_mark quiet_snapshot_at quiet_attempt_ns quiet_send_bytes quiet_SendFrame quiet_send_frames quiet_SendFrames quiet_batch quiet_refresh quiet_run_command quiet_drain_commands quiet_drain quiet_session_event quiet_admin_message quiet_app_message quiet_retry_app quiet_dispatch_messages quiet_protocol_event quiet_strategy quiet_notify quiet_inbound quiet_receive quiet_service quiet_poll_sessions quiet_poll quiet_decide quiet_forget quiet_make_session quiet_prepare : quiet.
