(* ===== verification/LiveInitiatorProofs.v ===== *)
(** * What a worker of the initiator keeps

    Opening, closing and reconnecting keep the invariant of the tables: no session is
    lost and none has two owners, whatever the network, the clocks and the application
    do; attempts keep to their time, their window and their backoff. *)
From S2P Require Import Calendar Heap TimerWheel Schedule.
From S2P Require Import Prelude Base IntFormat FixTags Wire RawPassThrough Frame Message Validation.
From S2P Require Import TransportProfile SessionCore SessionStore AdminProtocol.
From S2P Require Import Ha ConnectionStrategy SessionRegistry Peek LiveInitiator LiveTables.
From stdpp Require Import gmap pretty.
Open Scope Z_scope.

Section Proofs.
Context {St W Sg : Type} `{SessionStore St} `{Codec} `{HeapAlgorithms HeapEntry deadline_ns} `{LocalTime} `{World St W} `{ConnectionStrategy Sg}.
Notation L := (Live St W Sg).
Implicit Types l : L.
#[local] Notation quiet m := (@quiet St W Sg _ m).

(** ** Closing *)

Lemma detach_state l i c : sh_connections (lv_shard l) !! i = Some c -> as_session_id (cn_session c) <> 0 ->
  let s := lv_shard l in let n := (length (sh_connections s) - 1)%nat in
  exists back w, sh_connections s !! n = Some back /\
    detach_connection i c l =
    (MkLive (lv_options l)
       (MkShard (sh_worker_id s) (take n (if (i =? n)%nat then sh_connections s else <[i := back]> (sh_connections s)))
          (TimerWheel.Cancel (cn_connection_id c) (sh_timer_wheel s))
          (if (i =? n)%nat then delete (cn_connection_id c) (sh_connection_indices s) else <[cn_connection_id back := i]> (delete (cn_connection_id c) (sh_connection_indices s)))
          (if (i =? n)%nat then delete (as_session_id (cn_session c)) (sh_session_connection_indices s)
           else <[as_session_id (cn_session back) := i]> (delete (as_session_id (cn_session c)) (sh_session_connection_indices s)))
          (sh_commands s) (sh_inbox s) (sh_pending_reconnects s))
       (lv_session_worker_ids l) (lv_registry l) (lv_next_connection_id l) (lv_active_connection_count l - 1) (lv_last_progress_ns l) (lv_completed_sessions l)
       (lv_pending_reconnect_count l) (lv_strategies l) w, Value tt).
Proof.
  intros Hi Hid s n. destruct l as [o [wi cs tw ci si cm ib pr] ws rg ni ac lp co pc sg w]. subst s n. cbn [lv_shard sh_connections] in *.
  assert (Hlt : (i < length cs)%nat) by (by eapply lookup_lt_Some). destruct (lookup_lt_is_Some_2 cs (length cs - 1) ltac:(lia)) as [back Hback]. exists back. eexists. split; [exact Hback|].
  unfold detach_connection. cbv zeta. destruct (Z.eqb_spec (as_session_id (cn_session c)) 0) as [E|_]; [done|].
  unfold remove_connection, connection_at, upd_connection, IndexConnection, on_shard, ask, bind, modify, get, the, ret. cbn. rewrite Hback. cbn.
  destruct (Nat.eqb_spec i (length cs - 1)) as [->|Hne]; cbn.
  - done.
  - assert (Halter : alter (fun _ => back) i cs = <[i := back]> cs).
    { clear -Hlt. revert i Hlt. induction cs as [|x cs IH]; intros [|i] Hlt; cbn in *; try lia; [done|]. f_equal. apply IH. lia. }
    rewrite Halter, list_lookup_insert_eq by done. cbn. reflexivity.
Qed.

Lemma connection_party_ok a p l i c : table_inv a p l -> sh_connections (lv_shard l) !! i = Some c -> party_ok (dom (lv_strategies l)) (as_counterparty (cn_session c)).
Proof.
  intros Ht Hi. pose proof (ti_parties _ _ _ Ht) as Hall. apply Forall_app in Hall as [Hall _]. unfold conn_parties in Hall. rewrite Forall_map in Hall. by eapply Forall_lookup_1 in Hall.
Qed.

Lemma map_swap_remove {A B} (f : A -> B) (l : list A) i n back :
  map f (take n (if (i =? n)%nat then l else <[i := back]> l)) = take n (if (i =? n)%nat then map f l else <[i := f back]> (map f l)).
Proof. destruct (i =? n)%nat; [by rewrite firstn_map|]. change (map f ?x) with (f <$> x). rewrite fmap_take. by rewrite list_fmap_insert. Qed.

Lemma detach_inv a p l i c : table_inv a p l -> sh_connections (lv_shard l) !! i = Some c ->
  wp (detach_connection i c) (fun r l' => r = Value tt /\ table_inv a p l' /\ sessions l ≡ₚ as_session_id (cn_session c) :: sessions l' /\
    active_ids l' = active_ids l /\ dom (lv_strategies l') = dom (lv_strategies l)) l.
Proof.
  intros Ht Hi. pose proof (connection_party_ok _ _ _ _ _ Ht Hi) as (Hid & _). destruct (detach_state l i c Hi Hid) as (back & w & Hback & Heq). cbv zeta in *.
  unfold wp. rewrite Heq. cbn [fst snd]. set (n := (length (sh_connections (lv_shard l)) - 1)%nat) in *. set (l' := MkLive _ _ _ _ _ _ _ _ _ _ _).
  assert (Hlen : length (sh_connections (lv_shard l)) = S n) by (apply lookup_lt_Some in Hi; lia). destruct Ht as [B1 B2 B3 B4 B5 B6 B7 B8 B9 B10 B11].
  set (f := fun c : ConnectionState St => party_id (as_counterparty (cn_session c))).
  assert (Hf : forall x, map party_id (map (fun c : ConnectionState St => as_counterparty (cn_session c)) x) = map f x) by (intros x; apply map_map).
  assert (Hcs : NoDup (map f (sh_connections (lv_shard l)))) by (unfold sessions, parties, conn_parties in B4; rewrite map_app, Hf in B4; by apply NoDup_app in B4 as (? & _)).
  unfold conn_parties in B5. rewrite Hf in B5. unfold conn_ids in *.
  destruct (indexes_swap_remove _ _ i n (cn_connection_id c) (cn_connection_id back) B3 B1) as [C1 C2]; [by rewrite list_lookup_fmap, Hi|by rewrite length_map|by rewrite list_lookup_fmap, Hback|].
  destruct (indexes_swap_remove _ _ i n (f c) (f back) B5 Hcs) as [D1 D2]; [by rewrite list_lookup_fmap, Hi|by rewrite length_map|by rewrite list_lookup_fmap, Hback|].
  rewrite <- map_swap_remove in C1, C2, D1, D2.
  assert (E : sessions l ≡ₚ f c :: sessions l').
  { unfold sessions, parties, conn_parties, pend_parties. rewrite !map_app, !Hf. cbn [lv_shard l' sh_connections sh_pending_reconnects]. rewrite D2. done. }
  split; [done|]. split; [|by split_and!]. constructor; unfold conn_ids; cbn [lv_shard l' sh_connections sh_connection_indices sh_session_connection_indices sh_inbox sh_pending_reconnects lv_next_connection_id lv_active_connection_count lv_pending_reconnect_count lv_strategies]; try done.
  - rewrite C2 in B1. by apply NoDup_cons in B1 as [_ ?].
  - rewrite C2 in B2. by apply Forall_cons in B2 as [_ ?].
  - rewrite E in B4. by apply NoDup_cons in B4 as [_ ?].
  - unfold conn_parties. rewrite Hf. exact D1.
  - unfold parties in *. apply Forall_app in B8 as [B8 B8']. apply Forall_app. split; [|done]. unfold conn_parties in *. rewrite Forall_map in B8 |- *. cbn [lv_shard l' sh_connections].
    apply Forall_take. destruct (i =? n)%nat; [done|]. apply Forall_insert; [done|]. by eapply Forall_lookup_1 in B8.
  - apply Permutation_length in C2. cbn in C2. rewrite B10. lia.
Qed.

(** Calls that always return a value. *)
Lemma wp_ret {A} (x : A) (Q : Result A -> L -> Prop) l : Q (Value x) l -> wp (ret x) Q l.
Proof. done. Qed.
Lemma wp_get (Q : Result L -> L -> Prop) l : Q (Value l) l -> wp get Q l.
Proof. done. Qed.
Lemma wp_ask {A} (f : W -> A * W) (Q : Result A -> L -> Prop) l : (forall x l', same_tables l l' -> Q (Value x) l') -> wp (ask f) Q l.
Proof. intros HQ. pose proof (quiet_ask f l) as Hs. unfold wp, ask in *. destruct (f (lv_world l)). by apply HQ. Qed.
Lemma wp_catch_quiet {A} (m : SE L A) (Q : Result (Result A) -> L -> Prop) l : quiet m -> (forall r l', same_tables l l' -> Q (Value r) l') -> wp (catch m) Q l.
Proof. intros Hm HQ. apply wp_catch, wp_quiet; [done|]. intros r l' Hs. by apply HQ. Qed.

Lemma wp_attempt_ns refs cp a b c (Q : Result Z -> L -> Prop) l : party_ok refs cp -> (forall t, Q (Value t) l) -> wp (ComputeScheduledAttemptNs cp a b c) Q l.
Proof.
  intros (_ & Hw & _) HQ. unfold wp, ComputeScheduledAttemptNs, NextLogonWindowStart, bind, the. destruct (Hw true) as [ws ->]. cbn.
  destruct (EarliestWindowStart ws b); [|apply HQ]. destruct (_ <=? _); apply HQ.
Qed.

Lemma wp_strategy ref ctx (Q : Result ConnectionDecision -> L -> Prop) l : ref ∈ dom (lv_strategies l) -> (forall d l', same_tables l l' -> Q (Value d) l') ->
  wp (strategy_disconnected ref ctx) Q l.
Proof.
  intros Hr HQ. pose proof (quiet_strategy ref ctx l) as Hs. unfold wp, strategy_disconnected in *. apply elem_of_dom in Hr as [s Hr]. rewrite Hr in *.
  destruct (OnDisconnected _ _ _) as [[d s'] w]. by apply HQ.
Qed.

Lemma wp_value {A} (m : SE L A) (Q : Result A -> L -> Prop) l l' x : m l = (l', Value x) -> Q (Value x) l' -> wp m Q l.
Proof. intros Hm HQ. unfold wp. by rewrite Hm. Qed.

(** A party stays what it is while the strategies stay. *)
Lemma party_ok_same l l' cp : same_tables l l' -> party_ok (dom (lv_strategies l)) cp -> party_ok (dom (lv_strategies l')) cp.
Proof. intros Hs. by rewrite (st_strategies _ _ Hs). Qed.

Lemma wp_push_pending o a p l r : live_inv (o ∪ {[as_session_id (pr_session r)]}) a p l -> as_session_id (pr_session r) ∉ o -> entry_ok r ->
  party_ok (dom (lv_strategies l)) (as_counterparty (pr_session r)) -> wp (push_pending r) (fun x l' => x = Value tt /\ live_inv o a p l') l.
Proof. intros. split; [done|by apply inv_push_pending]. Qed.

Lemma wp_unregister o a p l id : live_inv (o ∪ {[id]}) a p l -> id ∉ o -> wp (unregister id) (fun x l' => x = Value tt /\ live_inv o a p l') l.
Proof. intros. split; [done|by apply inv_unregister]. Qed.

Lemma wp_total (m : SE L unit) (Q : Result unit -> L -> Prop) l : quiet m -> snd (m l) = Value tt -> (forall l', same_tables l l' -> Q (Value tt) l') -> wp m Q l.
Proof. intros Hm Hv HQ. unfold wp. rewrite Hv. by apply HQ, Hm. Qed.

(** The session of a closed connection is queued again, or let go. *)
Lemma wp_schedule_reconnect o a p l c s t : live_inv (o ∪ {[as_session_id s]}) a p l -> as_session_id s ∉ o -> party_ok (dom (lv_strategies l)) (as_counterparty s) ->
  wp (schedule_reconnect c s t) (fun _ l' => live_inv o a p l') l.
Proof.
  intros Hl Ho Hp. unfold schedule_reconnect. cbv zeta. pose proof Hp as (_ & _ & Hstrat). destruct (cp_connection_strategy (as_counterparty s)) as [ref|] eqn:Es.
  - apply wp_bind. unfold ScheduleStrategyReconnect. rewrite Es. apply wp_bind, wp_strategy; [done|]. intros d l1 S1. destruct (cd_give_up d).
    + apply wp_ret, wp_bind, wp_total; [apply quiet_terminal|done|]. intros l2 S2. eapply wp_mono; [|apply (wp_unregister o a p)]; [by intros ? ? [_ ?]| |done].
      eapply live_inv_same; [|exact Hl]. by etrans.
    + apply wp_bind, wp_ask. intros wall l2 S2. apply wp_bind, (wp_attempt_ns _ _ _ _ _ _ _ Hp). intros next. assert (S : same_tables l l2) by (by etrans).
      apply wp_bind. eapply wp_mono; [|apply (wp_push_pending o a p)]; [|by eapply live_inv_same|done|done|by eapply party_ok_same]. by intros ? l3 [-> ?].
  - apply wp_bind, wp_ask. intros jitter l1 S1. apply wp_bind, wp_ask. intros wall l2 S2. apply wp_bind, (wp_attempt_ns _ _ _ _ _ _ _ Hp). intros next. assert (S : same_tables l l2) by (by etrans).
    eapply wp_mono; [|apply (wp_push_pending o a p)]; [|by eapply live_inv_same|done|done|by eapply party_ok_same]. by intros ? l3 [_ ?].
Qed.

(** Letting go of a session whose tables are still there. *)
Lemma same_but_registry l (f : LiveSessionRegistry MessageView -> LiveSessionRegistry MessageView) a p : table_inv a p l -> table_inv a p (set_registry (f (lv_registry l)) l).
Proof. destruct l. by intros []. Qed.

(** The connection at a position keeps its identity. *)
Lemma same_tables_connection l l' i c : same_tables l l' -> sh_connections (lv_shard l) !! i = Some c ->
  exists c', sh_connections (lv_shard l') !! i = Some c' /\ cn_connection_id c' = cn_connection_id c /\ as_counterparty (cn_session c') = as_counterparty (cn_session c).
Proof.
  intros [S1 S2 _ _ _ _ _ _ _ _ _ _] Hi. unfold conn_ids, conn_parties in *. apply (f_equal (fun x => x !! i)) in S1, S2. cbv beta in S1, S2.
  rewrite !(list_lookup_fmap (fun c => cn_connection_id c)), Hi in S1. rewrite !(list_lookup_fmap (fun c => as_counterparty (cn_session c))), Hi in S2.
  destruct (sh_connections (lv_shard l') !! i) as [c'|]; [|done]. exists c'. injection S1 as S1. injection S2 as S2. by split_and!.
Qed.

Lemma set_detach (o s s' : gset Z) x : s = {[x]} ∪ s' -> o ## s -> x ∉ s' -> (o ∪ s) ∖ {[x]} = o ∪ s' /\ o ∪ s = o ∪ {[x]} ∪ s' /\ o ## s' /\ o ∪ {[x]} ## s' /\ x ∉ o.
Proof. clear. intros -> Hd Hx. split_and!; set_solver. Qed.

(** The tables without the connection at [i], and how they fit the registry. *)
Lemma wp_detach o a p l0 l i c k : table_inv a p l -> sh_connections (lv_shard l0) !! i = Some c -> same_tables l0 l \/ (exists f, same_tables (set_registry (f (lv_registry l0)) l0) l) -> o ## list_to_set (sessions l) ->
  (forall l', table_inv a p l' -> dom (lv_strategies l') = dom (lv_strategies l) ->
     (active_ids l = o ∪ list_to_set (sessions l) -> live_inv (o ∪ {[as_session_id (cn_session c)]}) a p l' /\ as_session_id (cn_session c) ∉ o) ->
     (active_ids l = (o ∪ list_to_set (sessions l)) ∖ {[as_session_id (cn_session c)]} -> live_inv o a p l') -> wp k (fun _ l' => live_inv o a p l') l') ->
  wp (detach_connection i c ;;; k) (fun (_ : Result unit) l' => live_inv o a p l') l.
Proof.
  intros Ht Hi Hsame Hd Hk. assert (Hc : exists c', sh_connections (lv_shard l) !! i = Some c' /\ cn_connection_id c' = cn_connection_id c /\ as_counterparty (cn_session c') = as_counterparty (cn_session c)).
  { destruct Hsame as [Hs|[f Hs]]; (eapply same_tables_connection; [exact Hs|]); [done|by destruct l0]. }
  destruct Hc as (c' & Hi' & Hc1 & Hc2). assert (Hid : as_session_id (cn_session c') = as_session_id (cn_session c)) by (unfold as_session_id; by rewrite Hc2).
  apply wp_bind. assert (Heq : detach_connection (H3 := H3) (Sg := Sg) i c = detach_connection i c') by (unfold detach_connection; by rewrite Hid, Hc1).
  rewrite Heq. eapply wp_mono; [|apply (detach_inv a p l i c' Ht Hi')]. intros r l' (-> & Ht' & Hperm & Hact & Hdom). rewrite Hid in Hperm.
  assert (Hset : list_to_set (C := gset Z) (sessions l) = {[as_session_id (cn_session c)]} ∪ list_to_set (sessions l')) by (by rewrite Hperm).
  pose proof (ti_sessions _ _ _ Ht) as Hnd. rewrite Hperm in Hnd. apply NoDup_cons in Hnd as [Hn _]. rewrite <- (elem_of_list_to_set (C := gset Z)) in Hn.
  destruct (set_detach o _ _ _ Hset Hd Hn) as (G1 & G2 & G3 & G4 & G5). apply Hk; [done|done|..].
  - intros Ha. split; [|done]. constructor; [done| |done]. by rewrite Hact, Ha.
  - intros Ha. constructor; [done| |done]. by rewrite Hact, Ha.
Qed.

Lemma wp_CloseConnection o a p l i t : live_inv o a p l -> wp (CloseConnection i t) (fun _ l' => live_inv o a p l') l.
Proof.
  intros Hl. unfold CloseConnection. apply wp_bind. unfold connection_at. apply wp_bind, wp_get. destruct (sh_connections (lv_shard l) !! i) as [c|] eqn:Ec; [|done]. apply wp_ret.
  set (s := with_protocol _ (cn_session c)). assert (Hs : as_counterparty s = as_counterparty (cn_session c)) by (unfold s; by destruct (cn_session c)).
  assert (Hid : as_session_id s = as_session_id (cn_session c)) by (unfold as_session_id; by rewrite Hs). cbv zeta.
  set (reconnects := negb _ && _ && _).
  apply wp_bind, wp_total; [apply quiet_snapshot|done|]. intros l1 S1. apply wp_bind, wp_catch_quiet; [auto with quiet|]. intros _ l2 S2.
  apply wp_bind, wp_total; [|by destruct (cn_count_completion c); [|destruct reconnects; [|destruct (string_empty _)]]|].
  { destruct (cn_count_completion c); [by intros []|]. destruct reconnects; [auto with quiet|]. destruct (string_empty _); auto with quiet. }
  intros l3 S3. assert (S : same_tables l l3) by (etrans; [exact S1|]; by etrans). pose proof (live_inv_same _ _ _ _ _ S Hl) as Hl3. pose proof Hl3 as [A1 A2 A3]. rewrite Hid. destruct reconnects.
  - apply wp_bind, wp_ret, wp_bind, wp_total; [apply quiet_forget|done|]. intros l4 S4. assert (S' : same_tables l l4) by (by etrans). pose proof (live_inv_same _ _ _ _ _ S' Hl) as [B1 B2 B3].
    apply (wp_detach o a p l l4 i c); [done|done|by left|done|]. intros l5 C1 C2 C3 _. destruct (C3 B2) as [C3' Ho]. apply wp_bind, wp_total; [apply quiet_progress|done|]. intros l6 S6.
    apply wp_schedule_reconnect; rewrite ?Hid; [by eapply live_inv_same|done|]. eapply party_ok_same; [exact S6|]. rewrite C2, (st_strategies _ _ S'), Hs. destruct Hl. by eapply connection_party_ok.
  - apply wp_bind. eapply (wp_value _ _ _ (set_registry (UnregisterActiveSession (as_session_id (cn_session c)) (lv_registry l3)) l3)); [by destruct l3|]. set (l3' := set_registry _ l3).
    assert (T3 : table_inv a p l3') by (by apply same_but_registry). assert (E3 : sessions l3' = sessions l3) by (unfold l3'; by destruct l3).
    apply wp_bind, wp_total; [apply quiet_forget|done|]. intros l4 S4. destruct (same_tables_connection _ _ _ _ S Ec) as (c3 & Hc3 & Hc3a & Hc3b).
    assert (E4 : sessions l4 = sessions l3) by (unfold sessions in *; by rewrite (same_tables_parties _ _ S4)).
    assert (Heq : detach_connection (H3 := H3) (Sg := Sg) i c = detach_connection i c3) by (unfold detach_connection, as_session_id; by rewrite Hc3a, Hc3b).
    rewrite Heq. apply (wp_detach o a p l3 l4 i c3); [by eapply table_inv_same|done|right; by eexists|by rewrite E4|]. intros l5 C1 C2 _ C3.
    assert (Hl5 : live_inv o a p l5). { apply C3. rewrite (st_active _ _ S4), E4. unfold as_session_id. rewrite Hc3b. rewrite <- A2. unfold l3'. by destruct l3. }
    apply wp_bind, wp_total; [apply quiet_progress|done|]. intros l6 S6. apply wp_ret. by eapply live_inv_same.
Qed.

(** ** Calls that keep the invariant *)

Definition keeps {A} (m : SE L A) : Prop := forall o a p l, live_inv o a p l -> live_inv o a p (fst (m l)).

Lemma keeps_quiet {A} (m : SE L A) : quiet m -> keeps m.
Proof. intros Hm o a p l Hl. eapply live_inv_same; [apply Hm|done]. Qed.
Lemma keeps_bind {A B} (m : SE L A) (k : A -> SE L B) : keeps m -> (forall x, keeps (k x)) -> keeps (bind m k).
Proof. intros Hm Hk o a p l Hl. unfold bind. specialize (Hm o a p l Hl). destruct (m l) as [l' [x|e]]; cbn in *; [by apply Hk|done]. Qed.
Lemma keeps_catch {A} (m : SE L A) : keeps m -> keeps (catch m).
Proof. intros Hm o a p l Hl. unfold catch. specialize (Hm o a p l Hl). by destruct (m l). Qed.
Lemma keeps_wp {A} (m : SE L A) : (forall o a p l, live_inv o a p l -> wp m (fun _ l' => live_inv o a p l') l) -> keeps m.
Proof. intros Hm o a p l Hl. exact (Hm o a p l Hl). Qed.

Create HintDb keeps.
Lemma keeps_close i t : keeps (CloseConnection i t).
Proof. apply keeps_wp. intros. by apply wp_CloseConnection. Qed.
#[local] Hint Resolve keeps_close : keeps.

Ltac keeps_step :=
  match goal with
  | |- keeps (bind _ _) => apply keeps_bind; [|intros ?]
  | |- keeps (catch _) => apply keeps_catch
  | |- keeps (if ?b then _ else _) => destruct b
  | |- keeps (match ?x with _ => _ end) => destruct x
  | |- keeps _ => solve [auto with keeps | apply keeps_quiet; auto with quiet]
  end.
Ltac keeps := repeat keeps_step.

Lemma keeps_process fuel i r t : keeps (ProcessConnection fuel i r t).
Proof. unfold ProcessConnection. keeps. Qed.
#[local] Hint Resolve keeps_process : keeps.
Lemma keeps_ready fuel ready t : keeps (process_ready fuel ready t).
Proof. induction ready; cbn; keeps. Qed.
Lemma keeps_due id t : keeps (process_due id t).
Proof. unfold process_due. keeps. Qed.
#[local] Hint Resolve keeps_ready keeps_due : keeps.
Lemma keeps_all_due ids t : keeps (process_all_due ids t).
Proof. induction ids; cbn; keeps. Qed.
#[local] Hint Resolve keeps_all_due : keeps.
Lemma keeps_timers t : keeps (ProcessDueTimers t).
Proof. unfold ProcessDueTimers. apply keeps_bind; [keeps|]. intros l. destruct (PopExpired _ _ _) as [wheel due]. keeps. Qed.
#[local] Hint Resolve keeps_timers : keeps.

(** ** Reconnecting *)

(** An entry at [k] whose session is that of the party [cp]. *)
Definition entry_at l k (cp : Counterparty) : Prop :=
  exists r, sh_pending_reconnects (lv_shard l) !! k = Some r /\ as_counterparty (pr_session r) = cp.

Lemma entry_at_same l l' k cp : same_tables l l' -> entry_at l k cp -> entry_at l' k cp.
Proof. intros Hs (r & Hr & Hcp). exists r. by rewrite (st_pending _ _ Hs). Qed.

Lemma wp_upd_pending o a p l k r' (Q : Result unit -> L -> Prop) : live_inv o a p l -> entry_at l k (as_counterparty (pr_session r')) -> entry_ok r' ->
  (forall l', live_inv o a p l' -> entry_at l' k (as_counterparty (pr_session r')) -> dom (lv_strategies l') = dom (lv_strategies l) -> Q (Value tt) l') -> wp (upd_pending k r') Q l.
Proof.
  intros Hl (r & Hr & Hcp) Hr' HQ. apply HQ; [by eapply inv_upd_pending| |by destruct l as [? []]]. exists r'. split; [|done].
  assert (E : sh_pending_reconnects (lv_shard (fst (upd_pending k r' l))) = <[k := r']> (sh_pending_reconnects (lv_shard l))) by (by destruct l as [? []]).
  rewrite E. apply list_lookup_insert_eq. by eapply lookup_lt_Some.
Qed.

(** The entry goes, and its session is let go. *)
Lemma wp_release_entry o a p l k r : live_inv o a p l -> entry_at l k (as_counterparty (pr_session r)) -> entry_ok r ->
  wp (release_registration r ;;; erase_pending k) (fun x l' => x = Value tt /\ live_inv o a p l') l.
Proof.
  intros Hl (r0 & Hr0 & Hcp) [Hreg Hid]. unfold release_registration. rewrite Hreg, Hid.
  assert (Hid0 : as_session_id (pr_session r0) = as_session_id (pr_session r)) by (unfold as_session_id; by rewrite Hcp).
  destruct (inv_erase_pending o a p l k r0 Hl Hr0) as [Hl1 Ho]. rewrite Hid0 in *. pose proof (inv_unregister o a p _ _ Hl1 Ho) as Hl2.
  assert (Hcomm : (unregister (as_session_id (pr_session r)) ;;; erase_pending k) l = (fst (unregister (as_session_id (pr_session r)) (fst (erase_pending k l))), Value tt)) by (by destruct l as [? []]).
  unfold wp. rewrite Hcomm. by split.
Qed.

Lemma bind_assoc {A B C} (m : SE L A) (f : A -> SE L B) (g : B -> SE L C) l : bind m (fun x => bind (f x) g) l = bind (bind m f) g l.
Proof. unfold bind. by destruct (m l) as [l' [x|e]]. Qed.

Lemma wp_assoc {A B C} (m : SE L A) (f : A -> SE L B) (g : B -> SE L C) Q l : wp (bind (bind m f) g) Q l -> wp (bind m (fun x => bind (f x) g)) Q l.
Proof. unfold wp. by rewrite bind_assoc. Qed.

Lemma wp_abandon o a p l k r report : live_inv o a p l -> entry_at l k (as_counterparty (pr_session r)) -> entry_ok r ->
  wp (abandon k r report) (fun x l' => x = Value false /\ live_inv o a p l') l.
Proof.
  intros Hl Hk Hr. unfold abandon. apply wp_bind, wp_total; [destruct report; auto with quiet|by destruct report|]. intros l1 S1. apply wp_assoc, wp_bind.
  eapply wp_mono; [|apply (wp_release_entry o a p l1 k r)]; [|by eapply live_inv_same|by eapply entry_at_same|done]. intros x l2 [-> Hl2]. by split.
Qed.

Lemma with_retry_entry (r : PendingReconnect St) : entry_ok r -> entry_ok (with_retry r) /\ as_counterparty (pr_session (with_retry r)) = as_counterparty (pr_session r).
Proof. by destruct r. Qed.

Lemma wp_retry_later o a p l k r t wall dial : live_inv o a p l -> entry_at l k (as_counterparty (pr_session r)) -> entry_ok r -> party_ok (dom (lv_strategies l)) (as_counterparty (pr_session r)) ->
  wp (retry_later k r t wall dial) (fun _ l' => live_inv o a p l') l.
Proof.
  intros Hl Hk Hr Hp. unfold retry_later. cbv zeta. destruct (with_retry_entry r Hr) as [Hr1 Hcp1]. set (r1 := with_retry r) in *. rewrite <- Hcp1 in Hk, Hp. pose proof Hp as (_ & _ & Hstrat).
  assert (Hdone : forall l', live_inv o a p l' -> wp ((if dial then progress t else ret tt) ;;; ret true) (fun _ l'' => live_inv o a p l'') l').
  { intros l' Hl'. apply wp_bind, wp_total; [destruct dial; auto with quiet|by destruct dial|]. intros l2 S2. apply wp_ret. by eapply live_inv_same. }
  destruct (cp_connection_strategy (as_counterparty (pr_session r1))) as [ref|] eqn:Es.
  - apply wp_bind, wp_strategy; [done|]. intros d l1 S1. apply wp_bind. unfold ApplyConnectionStrategyDecision. destruct (cd_give_up d).
    + apply wp_ret. eapply wp_mono; [|apply (wp_abandon o a p)]; [by intros ? ? [_ ?]|by eapply live_inv_same|by eapply entry_at_same|done].
    + apply wp_bind, (wp_attempt_ns _ _ _ _ _ _ _ Hp). intros next. apply wp_ret, wp_bind. apply (wp_upd_pending o a p); [by eapply live_inv_same|by eapply entry_at_same|destruct Hr1; by split|].
      intros l2 Hl2 _ _. by apply Hdone.
  - destruct (_ && _).
    + eapply wp_mono; [|apply (wp_abandon o a p)]; [by intros ? ? [_ ?]|done|done|done].
    + apply wp_bind, wp_ask. intros jitter l1 S1. apply wp_bind, (wp_attempt_ns _ _ _ _ _ _ _ Hp). intros next. apply wp_bind.
      apply (wp_upd_pending o a p); [by eapply live_inv_same|by destruct r1; eapply entry_at_same|by destruct r1|]. intros l2 Hl2 _ _. by apply Hdone.
Qed.

(** *** A new connection *)

(** An identifier that was handed out and has no connection. *)
Definition handed_out l (id : Z) : Prop := id < lv_next_connection_id l /\ id ∉ conn_ids l.

Lemma handed_out_same l l' id : conn_ids l' = conn_ids l -> lv_next_connection_id l' = lv_next_connection_id l -> handed_out l id -> handed_out l' id.
Proof. intros E1 E2. unfold handed_out. by rewrite E1, E2. Qed.

Lemma wp_hand_out o a p l (Q : Result unit -> L -> Prop) : live_inv o a p l ->
  (forall l', live_inv o a p l' -> handed_out l' (lv_next_connection_id l) -> lv_shard l' = lv_shard l -> lv_strategies l' = lv_strategies l -> active_ids l' = active_ids l -> Q (Value tt) l') ->
  wp (modify (set_next_connection_id (lv_next_connection_id l + 1))) Q l.
Proof.
  intros [[B1 B2 B3 B4 B5 B6 B7 B8 B9 B10 B11] A2 A3] HQ. assert (Hfresh : lv_next_connection_id l ∉ conn_ids l) by (intros Hin; rewrite Forall_forall in B2; specialize (B2 _ Hin); lia).
  apply HQ; destruct l; try done; [|by split; [cbn; lia|]]. constructor; [constructor|..]; try done. eapply Forall_impl; [exact B2|]. cbn. lia.
Qed.

Lemma wp_count o a p l (Q : Result unit -> L -> Prop) :  live_inv o a p l ->
  (forall l', live_inv o (a + 1) p l' -> lv_shard l' = lv_shard l -> lv_strategies l' = lv_strategies l -> lv_next_connection_id l' = lv_next_connection_id l -> Q (Value tt) l') ->
  wp (modify (fun l => set_active_connection_count (lv_active_connection_count l + 1) l)) Q l.
Proof.
  intros [[B1 B2 B3 B4 B5 B6 B7 B8 B9 B10 B11] A2 A3] HQ. apply HQ; destruct l; try done. constructor; [constructor|..]; try done. unfold conn_ids in *. cbn in *. lia.
Qed.

Lemma wp_erase o a p l k cp (Q : Result unit -> L -> Prop) : live_inv o a p l -> entry_at l k cp ->
  (forall l', live_inv (o ∪ {[party_id cp]}) a p l' -> party_id cp ∉ o -> same_connections l l' -> Q (Value tt) l') -> wp (erase_pending k) Q l.
Proof. intros Hl (r & Hr & <-) HQ. destruct (inv_erase_pending o a p l k r Hl Hr) as [Hl' Ho]. apply HQ; [done|done|apply erase_pending_same]. Qed.

Lemma wp_push_connection o a p l c (Q : Result unit -> L -> Prop) : live_inv (o ∪ {[as_session_id (cn_session c)]}) (a + 1) p l -> as_session_id (cn_session c) ∉ o ->
  party_ok (dom (lv_strategies l)) (as_counterparty (cn_session c)) -> handed_out l (cn_connection_id c) ->
  (forall l', live_inv o a p l' -> Q (Value tt) l') -> wp (push_connection c) Q l.
Proof. intros Hl Ho Hp [Hn Hf] HQ. apply HQ. by apply inv_push_connection. Qed.

(** What follows once the tables are in order. *)
Lemma wp_keeps {A} (m : SE L A) o a p l : keeps m -> live_inv o a p l -> wp m (fun _ l' => live_inv o a p l') l.
Proof. intros Hm Hl. by apply Hm. Qed.

Lemma quiet_set_worker_ids (f : L -> gmap Z Z) : quiet (modify (fun l => set_worker_ids (f l) l)).
Proof. intros l. by destruct l. Qed.
#[local] Hint Resolve quiet_set_worker_ids : quiet.

Lemma keeps_bound session t text : keeps (
  progress t ;;;
  l <- get ;;
  let i := (length (sh_connections (lv_shard l)) - 1)%nat in
  dispatched <- catch (DispatchSessionEvent session SessionEventKind.kBound t text true) ;;
  (match dispatched with Error e => MarkConnectionForClose i (Base.message e) false | Value _ => ret tt end) ;;;
  ret false).
Proof. cbv zeta. keeps. Qed.

Lemma wp_reconnected o a p l k r t wall : live_inv o a p l -> entry_at l k (as_counterparty (pr_session r)) -> entry_ok r -> party_ok (dom (lv_strategies l)) (as_counterparty (pr_session r)) ->
  wp (reconnected k r t wall) (fun _ l' => live_inv o a p l') l.
Proof.
  intros Hl Hk Hr Hp. unfold reconnected. destruct (OnTransportConnected _ _) as [protocol connected]. set (r1 := with_session _ _ r).
  assert (E1 : as_counterparty (pr_session r1) = as_counterparty (pr_session r) /\ entry_ok r1 /\ pr_session_registered r1 = true).
  { destruct r as [? ? ? ? ? ? ? []]. unfold r1. destruct Hr as [Hr1 Hr2]. cbn in *. by split_and!. }
  destruct E1 as (E1 & Hr1 & Hreg). rewrite <- E1 in Hk, Hp. clearbody r1.
  apply wp_bind, (wp_upd_pending o a p); [done|done|done|]. intros l1 Hl1 Hk1 D1. destruct connected as [event|e].
  2: { apply wp_assoc, wp_bind. eapply wp_mono; [|apply (wp_release_entry o a p l1 k r1 Hl1 Hk1 Hr1)]. intros x l2 [-> Hl2]. apply wp_keeps; [keeps|done]. }
  rewrite Hreg. apply wp_bind, wp_ret. cbn [negb]. set (session := with_endpoint _ _ _). set (r2 := with_session true session r1).
  assert (E2 : as_counterparty (pr_session r2) = as_counterparty (pr_session r1) /\ entry_ok r2 /\ as_counterparty session = as_counterparty (pr_session r1)).
  { unfold r2, session. destruct r1 as [? ? ? ? ? ? ? []]. destruct Hr1 as [? Hr2]. cbn in *. by split_and!. }
  destruct E2 as (E2 & Hr2 & Es). rewrite <- D1 in Hp. clear Hr1 Hreg Hl Hk D1 l. rename l1 into l, Hl1 into Hl, Hk1 into Hk.
  apply wp_bind, wp_total; [auto with quiet|done|]. intros l1 S1. apply wp_bind, wp_total; [auto with quiet|done|]. intros l2 S2. assert (S : same_tables l l2) by (by etrans). clear S1 S2 l1.
  apply wp_bind, (wp_upd_pending o a p); [by eapply live_inv_same|rewrite E2; by eapply entry_at_same|done|]. intros l3 Hl3 Hk3 D3.
  apply wp_bind, wp_get. cbv zeta. apply wp_bind, (wp_hand_out o a p); [done|]. intros l4 Hl4 Hout F1 F2 _.
  assert (Hk4 : entry_at l4 k (as_counterparty (pr_session r2))) by (unfold entry_at; by rewrite F1). set (id := lv_next_connection_id l3) in *.
  assert (Hp4 : party_ok (dom (lv_strategies l4)) (as_counterparty (pr_session r1))) by (rewrite F2, D3; by eapply party_ok_same).
  apply wp_bind, wp_catch_quiet; [auto with quiet|]. intros sent l5 S5. pose proof (live_inv_same _ _ _ _ _ S5 Hl4) as Hl5.
  assert (Hk5 : entry_at l5 k (as_counterparty (pr_session r2))) by (by eapply entry_at_same). assert (Hp5 : party_ok (dom (lv_strategies l5)) (as_counterparty (pr_session r1))) by (by eapply party_ok_same).
  assert (Hout5 : handed_out l5 id) by (eapply handed_out_same; [apply S5|apply S5|done]). destruct sent as [_|e].
  - apply wp_bind, wp_total; [auto with quiet|done|]. intros l6 S6. apply wp_bind, (wp_count o a p); [by eapply live_inv_same|]. intros l7 Hl7 G1 G2 G3.
    apply wp_bind, (wp_erase o (a + 1) p _ _ (as_counterparty (pr_session r2))); [done|unfold entry_at; rewrite G1; by eapply entry_at_same|]. intros l8 Hl8 Ho Hsc. rewrite E2 in *.
    assert (Hd : dom (lv_strategies l8) = dom (lv_strategies l5)) by (by rewrite (sc_strategies _ _ Hsc), G2, (st_strategies _ _ S6)).
    apply wp_bind, (wp_push_connection o a p); cbn [cn_session cn_connection_id]; unfold as_session_id; rewrite ?Es; [done|done|by rewrite Hd| |].
    + eapply (handed_out_same l5); [| |done].
      * rewrite (sc_ids _ _ Hsc). unfold conn_ids at 1. rewrite G1. apply (st_ids _ _ S6).
      * by rewrite (sc_next _ _ Hsc), G3, (st_next _ _ S6).
    + intros l9 Hl9. apply wp_keeps; [apply keeps_bound|done].
  - apply wp_bind, wp_ask. intros [] l6 S6. set (r3 := with_session true _ r2).
    assert (E3 : as_counterparty (pr_session r3) = as_counterparty (pr_session r1) /\ entry_ok r3).
    { rewrite <- Es. clearbody session. unfold r3, r2 in *. destruct r1, session. destruct Hr2 as [? Hr2]. cbn in *. by split_and!. }
    destruct E3 as [E3 Hr3]. rewrite E2 in *. rewrite <- E3 in *. clearbody r3. apply wp_bind, (wp_upd_pending o a p); [by eapply live_inv_same|by eapply entry_at_same|done|]. intros l7 Hl7 Hk7 D7.
    apply wp_retry_later; [done|done|done|]. rewrite D7. by eapply party_ok_same.
Qed.

Lemma keeps_attempt k t : keeps (attempt k t).
Proof.
  apply keeps_wp. intros o a p l Hl. unfold attempt, pending_at. apply wp_bind, wp_bind, wp_get. destruct (sh_pending_reconnects (lv_shard l) !! k) as [r|] eqn:Hk; [|done]. apply wp_ret.
  destruct (pending_party_ok _ _ _ _ _ _ Hl Hk) as [Hr Hp]. assert (Ha : entry_at l k (as_counterparty (pr_session r))) by (by exists r).
  destruct (_ <? _); [by apply wp_ret|]. apply wp_bind, wp_ask. intros wall l1 S1. cbv zeta. pose proof (live_inv_same _ _ _ _ _ S1 Hl) as Hl1. pose proof (entry_at_same _ _ _ _ S1 Ha) as Ha1. pose proof (party_ok_same _ _ _ S1 Hp) as Hp1.
  destruct (IsWithinLogonWindow _ _) as [inside|]; [|done]. apply wp_bind, wp_ret. destruct inside; cbn [negb].
  - apply wp_bind, wp_ask. intros dialled l2 S2. destruct (status.ok dialled).
    + apply wp_reconnected; [by eapply live_inv_same|by eapply entry_at_same|done|by eapply party_ok_same].
    + apply wp_retry_later; [by eapply live_inv_same|by eapply entry_at_same|done|by eapply party_ok_same].
  - apply wp_bind, (wp_attempt_ns _ _ _ _ _ _ _ Hp1). intros next. destruct r as [i h pt rc bo na rg s]. apply wp_bind, (wp_upd_pending o a p); [done|done|done|]. intros l2 Hl2 _ _. apply wp_keeps; [keeps|done].
Qed.
#[local] Hint Resolve keeps_attempt : keeps.

Lemma keeps_reconnect_loop turns k t : keeps (reconnect_loop turns k t).
Proof. revert k. induction turns as [|turns IH]; intros k; cbn; [keeps|]. apply keeps_bind; [keeps|]. intros kept. apply IH. Qed.
#[local] Hint Resolve keeps_reconnect_loop : keeps.

Lemma keeps_reconnects t : keeps (ProcessPendingReconnects t).
Proof. unfold ProcessPendingReconnects. keeps. Qed.

(** ** Opening *)

(** A session made from the configuration. *)
Definition made l (s : ActiveSession St) : Prop := party_ok (dom (lv_strategies l)) (as_counterparty s) /\ as_session_id s ∉ active_ids l.

Lemma made_same l l' s : same_tables l l' -> made l s -> made l' s.
Proof. intros Hs [Hp Ha]. split; [by eapply party_ok_same|by rewrite (st_active _ _ Hs)]. Qed.

Lemma wp_make_session opt cp h pt (Q : Result (ActiveSession St) -> L -> Prop) l :
  (forall s l', same_tables l l' -> as_counterparty s = cp -> Q (Value s) l') -> (forall e l', same_tables l l' -> Q (Error e) l') -> wp (MakeActiveSession opt cp h pt) Q l.
Proof. intros HV HE. unfold MakeActiveSession. apply wp_bind, wp_ask. intros [st|e] l' Hs; [by apply HV|by apply HE]. Qed.

Lemma wp_prepare o a p l id h pt (Q : Result (ActiveSession St) -> L -> Prop) : live_inv o a p l ->
  (forall s l', same_tables l l' -> made l' s -> Q (Value s) l') -> (forall e l', same_tables l l' -> Q (Error e) l') -> wp (prepare_session id h pt) Q l.
Proof.
  intros [Ht _ _] HV HE. pose proof (ti_config _ _ _ Ht) as Hc. unfold prepare_session. apply wp_bind, wp_get. cbv zeta.
  destruct (_ || _); [by apply HE|]. destruct (HasActiveSession id (lv_registry l)) eqn:Hact; [by apply HE|]. destruct (lo_threads_running _); [by apply HE|].
  destruct (lo_find_counterparty _ id) as [cp|] eqn:Hcp; [|by apply HE]. destruct (Hc _ _ Hcp) as [Hid Hp]. destruct (negb _); [by apply HE|].
  apply wp_bind, wp_ask. intros loaded l1 S1. unfold check. apply wp_bind. destruct (status.ok loaded); [|by apply HE]. apply wp_ret, wp_bind, wp_make_session.
  2: { intros e l2 S2. apply HE. by etrans. }
  intros s l2 S2 Hs. destruct (RestoreAppliedSequenceState _ _ _) as [core restored]. apply wp_bind. destruct (status.ok restored); [|apply HE; by etrans]. apply wp_ret, wp_ret.
  assert (S : same_tables l l2) by (by etrans). apply HV; [done|]. split; cbn; [by eapply party_ok_same|]. unfold as_session_id. cbn. change (party_id cp ∉ active_ids l2). rewrite Hid, (st_active _ _ S).
  unfold HasActiveSession in Hact. by apply bool_decide_eq_false in Hact.
Qed.

Lemma wp_register o a p l id (Q : Result bool -> L -> Prop) : live_inv o a p l -> id ∉ active_ids l ->
  (forall l', live_inv (o ∪ {[id]}) a p l' -> lv_shard l' = lv_shard l -> lv_strategies l' = lv_strategies l -> lv_next_connection_id l' = lv_next_connection_id l -> Q (Value true) l') ->
  wp (on_registry_get (RegisterActiveSession id)) Q l.
Proof.
  intros Hl Ha HQ. assert (Hin : RegisterActiveSession id (lv_registry l) = (fst (RegisterActiveSession id (lv_registry l)), true)) by (unfold RegisterActiveSession, HasActiveSession, active_ids in *; cbn; by rewrite bool_decide_false).
  pose proof (inv_register o a p l id Hl Ha) as Hl'. unfold wp, on_registry_get in *. rewrite Hin in *. apply HQ; [done|by destruct l..].
Qed.

Lemma made_fresh o a p l s : live_inv o a p l -> made l s -> as_session_id s ∉ o.
Proof. intros [_ Hr _] [_ Ha]. rewrite Hr in Ha. clear -Ha. set_solver. Qed.

Lemma wp_enqueue o a p l s next t : live_inv o a p l -> made l s -> wp (enqueue_session s next t) (fun _ l' => live_inv o a p l') l.
Proof.
  intros Hl Hm. unfold enqueue_session. cbv zeta. pose proof (made_fresh _ _ _ _ _ Hl Hm) as Ho. destruct Hm as [Hp Ha]. apply wp_bind, (wp_register o a p); [done|done|]. intros l1 Hl1 F1 F2 _. cbn [negb].
  rewrite <- F2 in Hp.
  do 3 (apply wp_bind, wp_total; [auto with quiet|done|]; let S := fresh "S" in intros ? S; eapply live_inv_same in Hl1; [|exact S]; eapply party_ok_same in Hp; [|exact S]).
  apply wp_bind. eapply wp_mono; [|apply (wp_push_pending o a p)]; [|done|done|by split|done]. intros x l9 [-> Hl9]. by apply wp_keeps; [keeps|].
Qed.

Lemma keeps_opened i session t text : keeps (
  dispatched <- catch (DispatchSessionEvent session SessionEventKind.kBound t text true) ;;
  match dispatched with
  | Value _ => ret tt
  | Error e => MarkConnectionForClose i (Base.message e) false ;;; CloseConnection i t ;;; fail e
  end).
Proof. keeps. Qed.

Lemma keeps_OpenSession id h pt : keeps (OpenSession id h pt).
Proof.
  apply keeps_wp. intros o a p l Hl. unfold OpenSession. apply wp_bind, (wp_prepare o a p); [done| |]; [|intros e l' Hs; by eapply live_inv_same].
  intros s l1 S1 Hm. eapply live_inv_same in Hl; [|exact S1]. apply wp_bind, wp_ask. intros t l2 S2. apply wp_bind, wp_ask. intros wall l3 S3. assert (S : same_tables l1 l3) by (by etrans).
  eapply live_inv_same in Hl; [|exact S]. eapply made_same in Hm; [|exact S]. clear S S1 S2 S3 l l1 l2. rename l3 into l.
  destruct (IsWithinLogonWindow _ _) as [inside|]; [|done]. apply wp_bind, wp_ret. destruct inside; cbn [negb].
  2: { destruct Hm as [Hp Ha]. apply wp_bind, (wp_attempt_ns _ _ _ _ _ _ _ Hp). intros next. by apply wp_enqueue. }
  apply wp_bind, wp_ask. intros dialled l1 S1. eapply live_inv_same in Hl; [|exact S1]. eapply made_same in Hm; [|exact S1]. unfold check. apply wp_bind. destruct (status.ok dialled); [|done]. apply wp_ret.
  destruct (OnTransportConnected _ _) as [protocol started]. destruct started as [event|e]; [|done]. set (s1 := with_protocol protocol s).
  assert (E : as_counterparty s1 = as_counterparty s) by (unfold s1; by destruct s). assert (Hm1 : made l1 s1) by (unfold made, as_session_id in *; by rewrite E). clearbody s1. clear Hm E s. rename s1 into s, Hm1 into Hm.
  apply wp_bind, wp_get. cbv zeta. apply wp_bind, (wp_hand_out o a p); [done|]. intros l2 Hl2 Hout F1 F2 F3. set (cid := lv_next_connection_id l1) in *.
  assert (Hm2 : made l2 s) by (unfold made in *; by rewrite F2, F3). apply wp_bind, wp_catch_quiet; [auto with quiet|]. intros sent l3 S3.
  assert (Hl3 : live_inv o a p l3) by (by eapply live_inv_same). assert (Hm3 : made l3 s) by (by eapply made_same).
  destruct sent as [[]|e]; [|apply wp_keeps; [keeps|done]]. pose proof (made_fresh _ _ _ _ _ Hl3 Hm3) as Ho. destruct Hm3 as [Hp Ha].
  apply wp_bind, (wp_register o a p); [done|done|]. intros l4 Hl4 G1 G2 G3. cbn [negb].
  assert (Hout4 : handed_out l4 cid). { eapply (handed_out_same l3); [unfold conn_ids; by rewrite G1|done|]. by eapply handed_out_same; [apply S3|apply S3|]. }
  rewrite <- G2 in Hp. do 3 (apply wp_bind, wp_total; [auto with quiet|done|]; let S := fresh "S" in intros ? S; eapply live_inv_same in Hl4; [|exact S]; eapply party_ok_same in Hp; [|exact S]; eapply handed_out_same in Hout4; [|apply S|apply S]).
  apply wp_bind, (wp_count (o ∪ {[as_session_id s]}) a p); [done|]. intros l8 Hl8 I1 I2 I3. apply wp_bind, (wp_push_connection o a p); cbn [cn_session cn_connection_id]; [done|done|by rewrite I2| |].
  - eapply handed_out_same; [|exact I3|done]. unfold conn_ids. by rewrite I1.
  - intros l9 Hl9. apply wp_bind, wp_total; [auto with quiet|done|]. intros l10 S10. eapply live_inv_same in Hl9; [|exact S10]. apply wp_bind, wp_get. by apply wp_keeps; [apply keeps_opened|].
Qed.

Lemma keeps_OpenSessionAsync id h pt : keeps (OpenSessionAsync id h pt).
Proof.
  apply keeps_wp. intros o a p l Hl. unfold OpenSessionAsync. apply wp_bind, (wp_prepare o a p); [done| |]; [|intros e l' Hs; by eapply live_inv_same].
  intros s l1 S1 Hm. eapply live_inv_same in Hl; [|exact S1]. apply wp_bind, wp_ask. intros t l2 S2. apply wp_bind, wp_ask. intros wall l3 S3. assert (S : same_tables l1 l3) by (by etrans).
  eapply live_inv_same in Hl; [|exact S]. eapply made_same in Hm; [|exact S]. destruct (IsWithinLogonWindow _ _) as [inside|]; [|done]. apply wp_bind, wp_ret, wp_bind. destruct inside.
  - apply wp_ret. by apply wp_enqueue.
  - pose proof (proj1 Hm) as Hp. apply (wp_attempt_ns _ _ _ _ _ _ _ Hp). intros next. by apply wp_enqueue.
Qed.

(** ** Polling *)

Lemma keeps_adopt : keeps AdoptPendingConnections.
Proof.
  intros o a p l Hl. pose proof (ti_inbox _ _ _ (lw_tables _ _ _ _ Hl)) as Hin. unfold AdoptPendingConnections, bind, get. rewrite Hin. eapply live_inv_same; [|exact Hl]. destruct l as [? []]. cbn in *. by subst.
Qed.
#[local] Hint Resolve keeps_reconnects keeps_adopt : keeps.

Lemma keeps_PollWorkerOnce fuel ready : keeps (PollWorkerOnce fuel ready).
Proof. unfold PollWorkerOnce. keeps. Qed.
End Proofs.
