(* ===== verification/LiveRuns.v ===== *)
(** * Runs of a worker of the initiator

    Theorems about [runtime/live_initiator.cpp] as a whole: the tables of a worker in
    every state it reaches beside the other workers, the time of the next attempt to
    connect, and the retries of a session whose peer does not answer; with a scripted
    network and application on which they are run. *)
From S2P Require Import Calendar Heap TimerWheel Schedule.
From S2P Require Import Prelude Base StdAlgo IntFormat FixTags Wire RawPassThrough Frame Message Validation.
From S2P Require Import TransportProfile SessionCore SessionStore MemoryStore AdminProtocol AdminDemo.
From S2P Require Import Ha ConnectionStrategy SessionRegistry Peek LiveInitiator LiveTables LiveInitiatorProofs.
From stdpp Require Import gmap pretty.
Open Scope Z_scope.

Section Runs.
Context {St W Sg : Type} `{SessionStore St} `{Codec} `{HeapAlgorithms HeapEntry deadline_ns} `{LocalTime} `{World St W} `{ConnectionStrategy Sg}.
Notation L := (Live St W Sg).
Implicit Types l : L.

(** ** Reachable states *)

(** A worker before its first session; other workers may be at work. *)
Record idle_worker l : Prop := {
  iw_connections : sh_connections (lv_shard l) = [];
  iw_indices : sh_connection_indices (lv_shard l) = ∅;
  iw_session_indices : sh_session_connection_indices (lv_shard l) = ∅;
  iw_inbox : sh_inbox (lv_shard l) = [];
  iw_pending : sh_pending_reconnects (lv_shard l) = [];
  iw_config : config_ok l;
}.

(** What the other workers, their application and the control thread may do: they own
    the sessions [o], hold [a] connections and [p] pending reconnects, and draw
    identifiers from the shared counter. *)
Record others_act (o : gset Z) (a p : Z) l l' : Prop := {
  oa_shard : lv_shard l' = lv_shard l;
  oa_options : lv_options l' = lv_options l;
  oa_strategies : dom (lv_strategies l') = dom (lv_strategies l);
  oa_next : lv_next_connection_id l <= lv_next_connection_id l';
  oa_registered : active_ids l' = o ∪ list_to_set (sessions l);
  oa_disjoint : o ## list_to_set (sessions l);
  oa_active : lv_active_connection_count l' = a + Z.of_nat (length (sh_connections (lv_shard l)));
  oa_pending : lv_pending_reconnect_count l' = p + Z.of_nat (length (sh_pending_reconnects (lv_shard l)));
}.

Inductive reachable : gset Z -> Z -> Z -> L -> Prop :=
  | reach_idle l : idle_worker l -> reachable (active_ids l) (lv_active_connection_count l) (lv_pending_reconnect_count l) l
  | reach_open o a p l id host port : reachable o a p l -> reachable o a p (fst (OpenSession id host port l))
  | reach_open_async o a p l id host port : reachable o a p l -> reachable o a p (fst (OpenSessionAsync id host port l))
  | reach_poll o a p l fuel ready : reachable o a p l -> reachable o a p (fst (PollWorkerOnce fuel ready l))
  | reach_stop o a p l : reachable o a p l -> reachable ∅ 0 0 (fst (Stop l))
  | reach_others o a p l o' a' p' l' : reachable o a p l -> others_act o' a' p' l l' -> reachable o' a' p' l'.

Lemma idle_inv l : idle_worker l -> live_inv (active_ids l) (lv_active_connection_count l) (lv_pending_reconnect_count l) l.
Proof.
  intros [E1 E2 E3 E4 E5 Hc]. assert (Ei : conn_ids l = []) by (unfold conn_ids; by rewrite E1). assert (Ec : conn_parties l = []) by (unfold conn_parties; by rewrite E1).
  assert (Es : sessions l = []) by (unfold sessions, parties, pend_parties; by rewrite Ec, E5).
  assert (Hn : forall m : gmap Z nat, m = ∅ -> indexes m []) by (intros m -> k i; by rewrite lookup_empty, lookup_nil).
  constructor; [constructor|..]; unfold parties, pend_parties; rewrite ?Es, ?Ei, ?Ec, ?E5; try done; try by constructor; try by apply Hn.
  - cbn. lia.
  - cbn. lia.
  - cbn. clear. set_solver.
Qed.


Lemma others_inv o a p o' a' p' l l' : live_inv o a p l -> others_act o' a' p' l l' -> live_inv o' a' p' l'.
Proof.
  intros [[B1 B2 B3 B4 B5 B6 B7 B8 B9 B10 B11] A2 A3] [E1 E2 E3 E4 E5 E6 E7 E8].
  assert (Hs : sessions l' = sessions l) by (unfold sessions, parties, conn_parties, pend_parties; by rewrite E1).
  constructor; [constructor|..]; unfold config_ok, parties, conn_ids, conn_parties, pend_parties in *; rewrite ?Hs, ?E1, ?E2, ?E3; try done.
  - eapply Forall_impl; [exact B2|]. cbn. lia.
  - rewrite length_map. done.
Qed.

Lemma stop_idle l : config_ok l -> idle_worker (fst (Stop l)) /\ active_ids (fst (Stop l)) = ∅ /\ lv_active_connection_count (fst (Stop l)) = 0 /\ lv_pending_reconnect_count (fst (Stop l)) = 0.
Proof. by destruct l. Qed.

Lemma live_reachable_inv o a p l : reachable o a p l -> live_inv o a p l.
Proof.
  induction 1 as [l Hl|o a p l id h pt _ IH|o a p l id h pt _ IH|o a p l fuel ready _ IH|o a p l _ IH|o a p l o' a' p' l' _ IH Ho].
  - by apply idle_inv.
  - by apply keeps_OpenSession.
  - by apply keeps_OpenSessionAsync.
  - by apply keeps_PollWorkerOnce.
  - destruct (stop_idle l (ti_config _ _ _ (lw_tables _ _ _ _ IH))) as (Hi & Ea & Ec & Ep). pose proof (idle_inv _ Hi) as Hl. by rewrite Ea, Ec, Ep in Hl.
  - by eapply others_inv.
Qed.

Lemma find_in_indexes m keys id i : indexes m keys -> find_in m (length keys) id = Some i <-> keys !! i = Some id.
Proof.
  intros Hm. unfold find_in. split.
  - destruct (m !! id) as [j|] eqn:E; [|done]. case_match; [|done]. intros [= <-]. by apply Hm.
  - intros Hi. pose proof (lookup_lt_Some _ _ _ Hi). apply Hm in Hi. rewrite Hi. case_match eqn:E; [done|]. apply Nat.ltb_ge in E. lia.
Qed.

(** C23: in every state a worker reaches by opening sessions, polling, stopping and by
    what the other workers do in between, each session has one owner: it has one
    connection or one pending reconnect of one worker, or it is not registered; what the
    registry calls active is what the workers own, so that a session is neither lost nor
    blocked for ever; both index maps find exactly the connections of the vector; and
    the two shared counters count the connections and the pending reconnects. *)
Theorem live_tables_consistent o a p l : reachable o a p l ->
  NoDup (sessions l) /\ active_ids l = o ∪ list_to_set (sessions l) /\ o ## list_to_set (sessions l) /\
  (forall id i, FindConnectionById id (lv_shard l) = Some i <-> cn_connection_id <$> sh_connections (lv_shard l) !! i = Some id) /\
  (forall id i, FindConnectionBySessionId id (lv_shard l) = Some i <-> (fun c => as_session_id (cn_session c)) <$> sh_connections (lv_shard l) !! i = Some id) /\
  lv_active_connection_count l = a + Z.of_nat (length (sh_connections (lv_shard l))) /\
  lv_pending_reconnect_count l = p + Z.of_nat (length (sh_pending_reconnects (lv_shard l))).
Proof.
  intros Hr. pose proof (live_reachable_inv _ _ _ _ Hr) as [[B1 B2 B3 B4 B5 B6 B7 B8 B9 B10 B11] A2 A3]. split_and!; try done.
  - intros id i. unfold FindConnectionById. rewrite <- (length_map cn_connection_id), find_in_indexes by exact B3. unfold conn_ids. change (map ?f ?x) with (f <$> x). by rewrite list_lookup_fmap.
  - intros id i. unfold FindConnectionBySessionId. unfold conn_parties in B5. rewrite map_map in B5. rewrite <- (length_map (fun c => as_session_id (cn_session c))), find_in_indexes by exact B5.
    change (map ?f ?x) with (f <$> x). by rewrite list_lookup_fmap.
  - unfold conn_ids in B10. by rewrite length_map in B10.
Qed.

(** ** Attempts to connect *)

(** A schedule in UTC that passed its validation. *)
Definition utc_valid (s : SessionScheduleConfig) : Prop := ValidateSessionSchedule s = status.Ok /\ schedule_width s /\ utc_schedule s.

(** A moment the calendar can take apart. *)
Definition wall_ok (wall : Z) : Prop := 0 <= wall /\ fits (wall / kNanosecondsPerSecond).

(** The next logon: the first moment inside the window, which is now when now is inside. *)
Lemma next_logon s wall : utc_valid s -> wall_ok wall ->
  exists n, NextLogonWindowStart s wall = Some (Some n) /\ wall <= n /\ IsWithinLogonWindow s n = Some true /\ (forall u, wall <= u < n -> IsWithinLogonWindow s u = Some false) /\
    (IsWithinLogonWindow s wall = Some true -> n = wall).
Proof.
  intros (Hv & Hw & Hu) [Hpos Hf]. destruct (validated_windows s true Hw Hu Hv) as (ws & Hb & Hg). destruct (earliest_start_exact ws wall Hg Hpos Hf) as (n & Hn & Hle & Hin & Hout).
  unfold NextLogonWindowStart, IsWithinLogonWindow. rewrite Hb. cbn. exists n. rewrite Hn, Hin. split_and!; try done.
  - intros u Hr. by rewrite Hout.
  - intros [= Hi]. destruct (Z.eq_dec wall n) as [|Hne]; [done|]. rewrite (Hout wall) in Hi by lia. done.
Qed.

(** The world after the clock was read. *)
Definition wall_of l : Z := fst (w_wall_now (lv_world l)).
Definition after_wall l : L := set_world (snd (w_wall_now (lv_world l))) l.

Lemma ask_eq {A} (f : W -> A * W) l : ask f l = (set_world (snd (f (lv_world l))) l, Value (fst (f (lv_world l)))).
Proof. unfold ask. by destruct (f (lv_world l)). Qed.

Lemma shard_set_world w l : lv_shard (set_world w l) = lv_shard l.
Proof. by destruct l. Qed.

(** an attempt to connect keeps to its time and its window.  Before the time of the
    entry nothing happens at all.  At its time, outside the logon window of the
    counterparty, the clock is read and nothing is dialled: the attempt moves to the
    very moment the window opens, the first moment that lies inside it, and every other
    entry stays. *)
Theorem attempt_waits_for_window k t l r : sh_pending_reconnects (lv_shard l) !! k = Some r ->
  let schedule := cp_session_schedule (as_counterparty (pr_session r)) in let wall := wall_of l in
  (t < pr_next_attempt_ns r -> attempt k t l = (l, Value true)) /\
  (pr_next_attempt_ns r <= t -> utc_valid schedule -> wall_ok wall -> IsWithinLogonWindow schedule wall = Some false ->
   exists opening, wall < opening /\ IsWithinLogonWindow schedule opening = Some true /\ (forall u, wall <= u < opening -> IsWithinLogonWindow schedule u = Some false) /\
     attempt k t l = (set_last_progress_ns t (fst (upd_pending k (with_next_attempt (t +u64 (opening - wall)) r) (after_wall l))), Value true)).
Proof.
  intros Hk schedule wall. unfold attempt, pending_at, bind, get, the. rewrite Hk. cbn [ret]. split.
  - intros Ht. apply Z.ltb_lt in Ht. by rewrite Ht.
  - intros Ht Hs Hw Hin. apply Z.ltb_ge in Ht. rewrite Ht, ask_eq. fold (wall_of l) wall schedule. rewrite Hin. cbn [negb ret].
    destruct (next_logon schedule wall Hs Hw) as (n & Hn & Hle & Hi & Hout & _). exists n. assert (Hlt : wall < n) by (destruct (Z.eq_dec wall n) as [E|]; [congruence|lia]).
    split_and!; try done. unfold ComputeScheduledAttemptNs, bind, the. fold schedule. rewrite Hn. cbn [ret]. destruct (Z.leb_spec n wall); [lia|]. by unfold after_wall.
Qed.

(** *** Refused dials *)

(** The attempt at [t] on the entry [r] is due, lies in the logon window, and its dial
    fails. *)
Definition refused l (r : PendingReconnect St) (t : Z) : Prop :=
  pr_next_attempt_ns r <= t /\ wall_ok (wall_of l) /\ IsWithinLogonWindow (cp_session_schedule (as_counterparty (pr_session r))) (wall_of l) = Some true /\
  status.ok (fst (w_connect (pr_host r) (pr_port r) (lv_world (after_wall l)))) = false.

Lemma attempt_refused k t l r : sh_pending_reconnects (lv_shard l) !! k = Some r -> refused l r t ->
  attempt k t l = retry_later k r t (wall_of l) true (set_world (snd (w_connect (pr_host r) (pr_port r) (lv_world (after_wall l)))) (after_wall l)).
Proof.
  intros Hk (Ht & Hw & Hin & Hd). unfold attempt, pending_at, bind, get, the. rewrite Hk. cbn [ret]. apply Z.ltb_ge in Ht. rewrite Ht, ask_eq. fold (wall_of l) (after_wall l). rewrite Hin. cbn [negb ret].
  rewrite ask_eq. by rewrite Hd.
Qed.

(** The delay the built-in policy takes behind [backoff]. *)
Definition doubled (cp : Counterparty) (backoff : Z) : Z := Z.min (u32 (backoff * 2)) (cp_reconnect_max_ms cp).

(** A failed attempt of a session without a strategy. *)
Lemma retry_built_in k r t l : let cp := as_counterparty (pr_session r) in let n := pr_retry_count r +u32 1 in
  cp_connection_strategy cp = None -> utc_valid (cp_session_schedule cp) -> refused l r t -> sh_pending_reconnects (lv_shard l) !! k = Some r -> 0 <= pr_current_backoff_ms r -> entry_ok r ->
  let l' := fst (attempt k t l) in
  if (0 <? cp_reconnect_max_retries cp) && (cp_reconnect_max_retries cp <=? n)
  then sh_pending_reconnects (lv_shard l') = delete k (sh_pending_reconnects (lv_shard l)) /\ active_ids l' = active_ids l ∖ {[as_session_id (pr_session r)]} /\ sh_connections (lv_shard l') = sh_connections (lv_shard l)
  else exists jitter, 0 <= jitter <= pr_current_backoff_ms r / 4 /\
    sh_pending_reconnects (lv_shard l') = <[k := with_backoff (doubled cp (pr_current_backoff_ms r)) (t +u64 MillisToNanos (doubled cp (pr_current_backoff_ms r) + jitter)) (with_retry r)]> (sh_pending_reconnects (lv_shard l)) /\
    active_ids l' = active_ids l /\ sh_connections (lv_shard l') = sh_connections (lv_shard l).
Proof.
  intros cp n Hst Hs Href Hk Hb [He1 He2] l'. subst l'. rewrite (attempt_refused k t l r Hk Href). destruct Href as (Ht & Hw & Hin & _). set (w2 := snd (w_connect _ _ _)). set (wall := wall_of l) in *.
  destruct (next_logon _ _ Hs Hw) as (nx & Hn & _ & _ & _ & Hnow). specialize (Hnow Hin). subst nx. unfold retry_later. destruct r as [id h pt rc bo na rg s]. subst cp n. cbn [with_retry pr_session pr_retry_count pr_current_backoff_ms pr_session_registered pr_session_id] in *. cbv zeta. rewrite Hst.
  set (cp := as_counterparty s) in *. destruct (_ && _).
  - unfold abandon, release_registration, terminal. cbn [pr_session_registered pr_session_id]. rewrite He1, He2. unfold after_wall. destruct l as [? [] ? ? ? ? ? ? ? ? ?]. cbn. unfold active_ids, SetTerminalStatus. cbn. destruct (terminal_status_ _); by split_and!.
  - unfold bind. rewrite ask_eq. set (w3 := snd (RandomJitter _ _)). set (jitter := fst (RandomJitter _ _)). exists jitter. split.
    + unfold jitter, RandomJitter, ReconnectJitterLimit. assert (0 <= bo / 4) by (apply Z.div_pos; lia). destruct (_ =? 0); [cbn; lia|]. by apply uniform_range.
    + unfold ComputeScheduledAttemptNs, bind, the. rewrite Hn. cbn [ret]. rewrite Z.leb_refl. unfold after_wall. destruct l as [? [] ? ? ? ? ? ? ? ? ?]. by split_and!.
Qed.

(** [n] refused attempts at the entry [k], the last of them at [t]. *)
Inductive refused_run (k : nat) : nat -> Z -> L -> L -> Prop :=
  | refused_none t l : refused_run k 0 t l l
  | refused_more n t0 l l' r t : refused_run k n t0 l l' -> sh_pending_reconnects (lv_shard l') !! k = Some r -> refused l' r t -> refused_run k (S n) t l (fst (attempt k t l')).

(** The delay behind [n] failures: it doubles up to its limit. *)
Definition backoff_after (cp : Counterparty) (n : nat) : Z := Z.min (cp_reconnect_initial_ms cp * 2 ^ Z.of_nat n) (cp_reconnect_max_ms cp).

Lemma doubled_after cp n : 0 <= cp_reconnect_initial_ms cp <= cp_reconnect_max_ms cp -> 2 * cp_reconnect_max_ms cp <= UINT32_MAX -> doubled cp (backoff_after cp n) = backoff_after cp (S n).
Proof.
  intros Hi Hm. unfold doubled, backoff_after. rewrite Nat2Z.inj_succ, Z.pow_succ_r by lia. assert (0 <= cp_reconnect_initial_ms cp * 2 ^ Z.of_nat n) by (apply Z.mul_nonneg_nonneg; lia).
  rewrite u32_small by ulia. set (x := cp_reconnect_initial_ms cp * 2 ^ Z.of_nat n) in *. replace (cp_reconnect_initial_ms cp * (2 * 2 ^ Z.of_nat n)) with (2 * x) by (unfold x; ring). lia.
Qed.

Lemma backoff_after_pos cp n : 0 <= cp_reconnect_initial_ms cp <= cp_reconnect_max_ms cp -> 0 <= backoff_after cp n.
Proof. intros. unfold backoff_after. apply Z.min_glb; [|lia]. apply Z.mul_nonneg_nonneg; lia. Qed.

(** The entry behind [n] failures; it waits for a time that lies a delay and its jitter
    behind the last of them. *)
Record backs_off (r0 r : PendingReconnect St) (n : nat) (t : Z) : Prop := {
  bo_entry : entry_ok r;
  bo_session : pr_session r = pr_session r0;
  bo_count : pr_retry_count r = Z.of_nat n;
  bo_backoff : pr_current_backoff_ms r = backoff_after (as_counterparty (pr_session r0)) n;
  bo_next : n <> 0%nat -> exists jitter, 0 <= jitter <= backoff_after (as_counterparty (pr_session r0)) (pred n) / 4 /\ pr_next_attempt_ns r = t +u64 MillisToNanos (pr_current_backoff_ms r + jitter);
}.

(** A counterparty with the built-in policy whose delays are ordered and do not wrap
    around when they are doubled in 32 bits, with a valid schedule in UTC. *)
Record built_in (cp : Counterparty) : Prop := {
  bi_strategy : cp_connection_strategy cp = None;
  bi_schedule : utc_valid (cp_session_schedule cp);
  bi_delays : 0 <= cp_reconnect_initial_ms cp <= cp_reconnect_max_ms cp;
  bi_width : 2 * cp_reconnect_max_ms cp <= UINT32_MAX;
  bi_retries : in_u32 (cp_reconnect_max_retries cp);
}.

Lemma refused_step k l l' r0 r n t0 t (cp := as_counterparty (pr_session r0)) (m := cp_reconnect_max_retries cp) : built_in cp -> sh_pending_reconnects (lv_shard l) !! k = Some r -> backs_off r0 r n t0 -> refused l r t ->
  Z.of_nat n < UINT32_MAX -> l' = fst (attempt k t l) ->
  if (0 <? m) && (m <=? Z.of_nat (S n))
  then sh_pending_reconnects (lv_shard l') = delete k (sh_pending_reconnects (lv_shard l)) /\ active_ids l' = active_ids l ∖ {[as_session_id (pr_session r0)]}
  else exists r', sh_pending_reconnects (lv_shard l') = <[k := r']> (sh_pending_reconnects (lv_shard l)) /\ backs_off r0 r' (S n) t /\ active_ids l' = active_ids l.
Proof.
  intros [Hst Hs Hd Hw Hr] Hk [He Hss Hc Hb _] Href Hn ->. pose proof (backoff_after_pos cp n Hd) as Hpos. pose proof (retry_built_in k r t l) as Hstep. cbv zeta in Hstep. rewrite Hss, Hc, Hb in Hstep.
  specialize (Hstep Hst Hs Href Hk Hpos He). fold cp m in Hstep. rewrite doubled_after in Hstep by done. assert (Hu : Z.of_nat n +u32 1 = Z.of_nat (S n)) by (rewrite u32_small by ulia; lia). rewrite Hu in Hstep.
  destruct (_ && _); [by destruct Hstep as (? & ? & _)|]. destruct Hstep as (jitter & Hj & Hp & Ha & _). eexists. split; [exact Hp|]. split; [|done].
  destruct r as [id h pt rc bo na rg s]. cbn in *. subst rc bo s. constructor; cbn; try done. intros _. by exists jitter.
Qed.

Lemma refused_run_backs_off k n t l l' r0 (cp := as_counterparty (pr_session r0)) (m := cp_reconnect_max_retries cp) : built_in cp -> sh_pending_reconnects (lv_shard l) !! k = Some r0 -> entry_ok r0 ->
  pr_retry_count r0 = 0 -> pr_current_backoff_ms r0 = cp_reconnect_initial_ms cp -> refused_run k n t l l' -> Z.of_nat n < m \/ m = 0 /\ Z.of_nat n < UINT32_MAX ->
  exists r, sh_pending_reconnects (lv_shard l') = <[k := r]> (sh_pending_reconnects (lv_shard l)) /\ backs_off r0 r n t /\ active_ids l' = active_ids l.
Proof.
  intros Hb Hk He Hc Hbo Hrun. assert (Hlen : (k < length (sh_pending_reconnects (lv_shard l)))%nat) by (by eapply lookup_lt_Some). pose proof (bi_retries _ Hb) as Hm. fold m in Hm.
  induction Hrun as [t l|n t0 l l' r t Hrun IH Hr Href]; intros Hn.
  - exists r0. split; [by rewrite list_insert_id|]. split; [|done]. constructor; try done. rewrite Hbo. unfold backoff_after. pose proof (bi_delays _ Hb). cbn [Z.of_nat]. rewrite Z.pow_0_r, Z.mul_1_r. fold cp. lia.
  - destruct (IH Hk Hlen) as (r1 & Hp & Hr1 & Ha); [lia|]. rewrite Hp, list_lookup_insert_eq in Hr by done. injection Hr as <-.
    pose proof (refused_step k l' _ r0 r1 n t0 t Hb ltac:(by rewrite Hp, list_lookup_insert_eq) Hr1 Href ltac:(ulia) eq_refl) as Hstep. cbv zeta in Hstep. fold cp m in Hstep.
    destruct (_ && _) eqn:E in Hstep; [bool_to_prop; lia|]. destruct Hstep as (r2 & Hp2 & Hr2 & Ha2). exists r2. split; [by rewrite Hp2, Hp, list_insert_insert_eq|]. split; [done|by rewrite Ha2].
Qed.

(** C24: without a strategy, a session whose peer refuses every dial backs off exactly as
    configured.  A reconnect entry starts with retry count 0 and the initial delay; behind
    its n-th refused attempt it counts n and its delay is the initial value doubled n
    times, at most the maximum (so the wait behind the first refusal is already twice the
    initial value), and the next attempt is due that delay and a jitter of at most a
    quarter of the delay before it after the refused one.  It is given up at exactly the
    attempt that uses up [reconnect_max_retries]: the entry goes and the session is free to
    be opened again; with a maximum of 0 it is retried as long as the 32-bit count lasts.
    Conditions: the initial delay is at most the maximum; twice the maximum fits 32 bits
    (the code doubles before it caps, and beyond that the doubled delay wraps around, see
    [built_in_backoff_wraps]); the session schedule is valid and in UTC, and the attempts
    fall inside its logon window. *)
Theorem built_in_backoff_exact k n t l l' r0 (cp := as_counterparty (pr_session r0)) (m := cp_reconnect_max_retries cp) : built_in cp -> sh_pending_reconnects (lv_shard l) !! k = Some r0 -> entry_ok r0 ->
  pr_retry_count r0 = 0 -> pr_current_backoff_ms r0 = cp_reconnect_initial_ms cp -> refused_run k n t l l' ->
  (Z.of_nat n < m \/ m = 0 /\ Z.of_nat n < UINT32_MAX ->
   exists r, sh_pending_reconnects (lv_shard l') = <[k := r]> (sh_pending_reconnects (lv_shard l)) /\ backs_off r0 r n t /\ active_ids l' = active_ids l) /\
  (0 < m -> Z.of_nat n = m -> sh_pending_reconnects (lv_shard l') = delete k (sh_pending_reconnects (lv_shard l)) /\ active_ids l' = active_ids l ∖ {[as_session_id (pr_session r0)]}).
Proof.
  intros Hb Hk He Hc Hbo Hrun. split; [intros Hn; by eapply refused_run_backs_off|]. intros Hm Hn. assert (Hlen : (k < length (sh_pending_reconnects (lv_shard l)))%nat) by (by eapply lookup_lt_Some). pose proof (bi_retries _ Hb) as Hu. fold m in Hu.
  destruct Hrun as [t l|n t0 l l' r t Hrun Hr Href]; [cbn in Hn; lia|]. destruct (refused_run_backs_off k n t0 l l' r0 Hb Hk He Hc Hbo Hrun) as (r1 & Hp & Hr1 & Ha); [fold cp m; lia|].
  rewrite Hp, list_lookup_insert_eq in Hr by done. injection Hr as <-.
  pose proof (refused_step k l' _ r0 r1 n t0 t Hb ltac:(by rewrite Hp, list_lookup_insert_eq) Hr1 Href ltac:(ulia) eq_refl) as Hstep. cbv zeta in Hstep. fold cp m in Hstep.
  rewrite (proj2 (andb_true_iff _ _)) in Hstep by (split; [apply Z.ltb_lt|apply Z.leb_le]; lia). destruct Hstep as [Hp2 Ha2]. split; [|by rewrite Ha2, Ha].
  rewrite Hp2, Hp, !delete_take_drop, take_insert_ge, drop_insert_lt by lia. done.
Qed.
End Runs.

(** ** A scripted run *)

(** The clocks stand still unless the script moves them; dials and receptions are read
    from lists; what was dialled, sent and dispatched is kept. *)
Record Script := MkScript {
  sc_now : Z;
  sc_wall : Z;
  sc_dials : list Status;
  sc_inbound : list (list Z);
  sc_dialled : list (string * Z);
  sc_sent : list (list (list Z));
  sc_events : list RuntimeEvent;
}.

#[export] Instance script_random : RandomSource Script.
Proof. refine {| uniform m s := (m, s) |}. cbn. lia. Defined.

#[export] Instance script_world : World MemorySessionStore Script := {|
  w_steady_now s := (sc_now s, s);
  w_load_dictionary _ s := (status.Ok, s);
  w_make_store _ s := (Value empty_memory_store, s);
  w_close _ s := s;
  w_connect host port s :=
    let 'MkScript a b dials d e f g := s in
    (match dials with [] => status.IoError "connection refused" | st :: _ => st end, MkScript a b (tail dials) d (e ++ [(host, port)]) f g);
  w_send _ segments s := let 'MkScript a b c d e f g := s in (status.Ok, MkScript a b c d e (f ++ [segments]) g);
  w_receive _ s :=
    let 'MkScript a b c inbound e f g := s in
    (Value (match inbound with [] => None | x :: _ => Some x end), MkScript a b c (tail inbound) e f g);
  w_wall_now s := (sc_wall s, s);
  w_application event s := let 'MkScript a b c d e f g := s in (status.Ok, [], MkScript a b c d e f (g ++ [event]));
  w_session_poll _ _ s := (status.Ok, [], s);
|}.

(** Frames in wire form; the message is known by its header alone. *)
Definition wire_decode (frame : list Z) (verify : bool) : Result DecodedMessageView :=
  match PeekSessionHeaderView false frame kFixSoh verify with
  | Error e => Error e
  | Value h => Value (MkDecoded (MkMessageView (h_msg_type h) (map (fun '(tag, value) => MkFieldView tag kFieldInt "" value 0 0 false) [(tags.kMsgSeqNum, h_msg_seq_num h); (98, 0); (108, 30)]) []) h frame (MkIssue ValidationIssueKind.kNone 0 ""))
  end.

#[export] Instance wire_codec : Codec | 0 := {|
  codec_dictionary := toy_dictionary;
  has_sse2 := false;
  DecodeFixMessageView := wire_decode;
  find_template := fun _ => None;
  EncodeFixMessageToBuffer := toy_encode;
  CurrentUtcTimestamp := fun _ => bytes "20240102-03:04:05";
|}.

Definition wire (msg_type : string) (seq : string) (extra : list (Z * list Z)) : list Z :=
  make_frame (bytes "FIX.4.4") (render ([(35, bytes msg_type); (34, bytes seq); (49, bytes "SERVER"); (56, bytes "CLIENT"); (52, bytes "20240102-03:04:05")] ++ extra) 1) 1.

Definition non_stop : SessionScheduleConfig := MkSchedule (MkSegment false None None None None None None None None) true [].

Definition demo_party (schedule : SessionScheduleConfig) (strategy : option nat) : Counterparty :=
  MkCounterparty toy_session_config toy_config default_day_cut schedule AppDispatchMode.kInline true true 1000 3000 3 strategy [].

Definition demo_options (cp : Counterparty) : LiveOptions :=
  MkLiveOptions true 16 false 1 false (fun id => if id =? 7 then Some cp else None) (fun _ => None) (MkEngine None [] None).

Definition demo_live (cp : Counterparty) (w : Script) : Live MemorySessionStore Script ExponentialBackoffStrategy :=
  MkLive (demo_options cp) (MkShard 0 [] (TimerWheel.NewTimerWheel (TimerWheel.MkWheelOptions 1000000 1024)) ∅ ∅ [] [] []) ∅ NewRegistry 1 0 0 0 0 ∅ w.
#[export] Existing Instance utc_zone | 0.

(** The numbers of the messages an application got. *)
Definition delivered (events : list RuntimeEvent) : list Z :=
  concat (map (fun e => match re_kind e, re_message e with
                        | RuntimeEventKind.kApplicationMessage, Some m => take 1 (map f_int_value (view_fields m))
                        | _, _ => []
                        end) events).

(** A session on line: the Logon and one message, then a message ahead of its turn, the
    missing one sent again, and the next. *)
Definition demo_inbound : list (list Z) :=
  [wire "A" "1" []; wire "D" "2" []; wire "D" "4" []; wire "D" "3" [(43, bytes "Y"); (122, bytes "20240102-03:04:05")]; wire "D" "5" []].

Definition demo_opened (inbound : list (list Z)) : Live MemorySessionStore Script ExponentialBackoffStrategy :=
  fst (OpenSession 7 "peer" 9001 (demo_live (demo_party non_stop None) (MkScript 5 5 [status.Ok] inbound [] [] []))).
Definition demo_polled (inbound : list (list Z)) : Live MemorySessionStore Script ExponentialBackoffStrategy := fst (PollWorkerOnce 10 [0%nat] (demo_opened inbound)).

Lemma demo_idle cp w : party_ok ∅ cp -> party_id cp = 7 -> idle_worker (demo_live cp w).
Proof. intros Hp Hid. constructor; try done. intros id cp' Hf. cbn in Hf. destruct (Z.eqb_spec id 7) as [->|]; [|done]. injection Hf as <-. by split. Qed.

Lemma demo_party_ok : party_ok ∅ (demo_party non_stop None).
Proof. split; [done|]. split; [|done]. intros logon. by exists []. Qed.

Lemma demo_polled_reachable inbound : reachable ∅ 0 0 (demo_polled inbound).
Proof.
  set (w := MkScript 5 5 [status.Ok] inbound [] [] []). pose proof (reach_idle (demo_live (demo_party non_stop None) w) (demo_idle _ w demo_party_ok eq_refl)) as Hi.
  exact (reach_poll ∅ 0 0 _ 10 [0%nat] (reach_open ∅ 0 0 _ 7 "peer" 9001 Hi)).
Qed.

Lemma live_tables_consistent_witness :
  length (sh_connections (lv_shard (demo_polled demo_inbound))) = 1%nat /\ active_ids (demo_polled demo_inbound) = {[7]} /\ FindConnectionBySessionId 7 (lv_shard (demo_polled demo_inbound)) = Some 0%nat.
Proof.
  destruct (live_tables_consistent ∅ 0 0 (demo_polled demo_inbound) (demo_polled_reachable demo_inbound)) as (_ & Ha & _ & _ & Hf & _).
  assert (Hs : sessions (demo_polled demo_inbound) = [7]) by (vm_compute; reflexivity).
  split; [vm_compute; reflexivity|]. split.
  - rewrite Ha, Hs. cbn. clear. set_solver.
  - apply Hf. vm_compute. reflexivity.
Defined.

(** A session that waits for its window. *)
Definition demo_waiting : Live MemorySessionStore Script ExponentialBackoffStrategy :=
  fst (OpenSessionAsync 7 "peer" 9001 (demo_live (demo_party demo_schedule None) (MkScript 5 Schedule.demo_now [] [] [] [] []))).

Lemma attempt_waits_for_window_witness :
  map pr_next_attempt_ns (sh_pending_reconnects (lv_shard demo_waiting)) = [41399500000005] /\ attempt 0 41399500000004 demo_waiting = (demo_waiting, Value true) /\
  exists opening, Schedule.demo_now < opening /\ IsWithinLogonWindow demo_schedule opening = Some true /\ sc_dialled (lv_world (fst (attempt 0 41399500000005 demo_waiting))) = [].
Proof.
  split; [vm_compute; reflexivity|].
  assert (Hk : match sh_pending_reconnects (lv_shard demo_waiting) !! 0%nat with Some r => pr_next_attempt_ns r = 41399500000005 /\ as_counterparty (pr_session r) = demo_party demo_schedule None | None => False end) by (vm_compute; split; reflexivity).
  destruct (sh_pending_reconnects (lv_shard demo_waiting) !! 0%nat) as [r|] eqn:Hr; [|destruct Hk]. destruct Hk as [Hn Hcp]. pose proof (attempt_waits_for_window 0 41399500000004 demo_waiting r Hr) as [H1 _]. pose proof (attempt_waits_for_window 0 41399500000005 demo_waiting r Hr) as [_ H2]. rewrite Hcp in H2.
  split; [apply H1; rewrite Hn; reflexivity|].
  destruct H2 as (n & Hlt & Hi & _ & Hat).
  - rewrite Hn. reflexivity.
  - split; [reflexivity|]. split; [apply demo_schedule_width|apply demo_schedule_utc].
  - split; [vm_compute; intros [=]|apply demo_now_fits].
  - vm_compute. reflexivity.
  - exists n. split; [exact Hlt|]. split; [exact Hi|]. rewrite Hat. vm_compute. reflexivity.
Defined.

(** A session whose peer refuses: two failures are retried, the third is the last. *)
Definition demo_refused : Live MemorySessionStore Script ExponentialBackoffStrategy :=
  fst (OpenSessionAsync 7 "peer" 9001 (demo_live (demo_party non_stop None) (MkScript 5 5 [] [] [] [] []))).

Lemma demo_refuses n t0 t l l' : refused_run 0 n t0 l l' -> match sh_pending_reconnects (lv_shard l') !! 0%nat with Some r => refused l' r t | None => False end ->
  refused_run (Sg := ExponentialBackoffStrategy) 0 (S n) t l (fst (attempt 0 t l')).
Proof. intros Hrun Hr. destruct (sh_pending_reconnects (lv_shard l') !! 0%nat) as [r|] eqn:E; [|destruct Hr]. by eapply refused_more. Qed.

Ltac refused_now := vm_compute; split_and!; first [reflexivity | intros [=]].

Lemma built_in_backoff_exact_witness : exists l, refused_run 0 3 5750000005 demo_refused l /\ sh_pending_reconnects (lv_shard l) = [] /\ active_ids l = ∅.
Proof.
  set (l1 := fst (attempt 0 5 demo_refused)). set (l2 := fst (attempt 0 2250000005 l1)). set (l3 := fst (attempt 0 5750000005 l2)).
  assert (R1 : refused_run 0 1 5 demo_refused l1) by (apply (demo_refuses 0 0); [constructor|refused_now]).
  assert (R2 : refused_run 0 2 2250000005 demo_refused l2) by (apply (demo_refuses 1 5); [exact R1|refused_now]).
  assert (R3 : refused_run 0 3 5750000005 demo_refused l3) by (apply (demo_refuses 2 2250000005); [exact R2|refused_now]).
  exists l3. split; [exact R3|].
  assert (Hk : match sh_pending_reconnects (lv_shard demo_refused) !! 0%nat with
    | Some r => as_counterparty (pr_session r) = demo_party non_stop None /\ entry_ok r /\ pr_retry_count r = 0 /\ pr_current_backoff_ms r = 1000 | None => False end) by (vm_compute; split_and!; reflexivity).
  assert (Hp : length (sh_pending_reconnects (lv_shard demo_refused)) = 1%nat) by (vm_compute; reflexivity).
  destruct (sh_pending_reconnects (lv_shard demo_refused) !! 0%nat) as [r|] eqn:Hr; [|destruct Hk]. destruct Hk as (Hcp & He & Hc & Hb).
  pose proof (built_in_backoff_exact 0 3 5750000005 demo_refused l3 r) as Hthm. cbv zeta in Hthm. rewrite Hcp in Hthm.
  destruct Hthm as [_ Hend]; try assumption.
  - constructor; [reflexivity| |cbn; lia|cbn; ulia|cbn; ulia]. split; [reflexivity|]. split; repeat (split || constructor).
  - destruct Hend as [E1 E2]; [reflexivity|reflexivity|]. split.
    + rewrite E1. destruct (sh_pending_reconnects (lv_shard demo_refused)) as [|? []]; [reflexivity|reflexivity|discriminate].
    + rewrite E2. unfold as_session_id. rewrite Hcp. vm_compute. reflexivity.
Defined.

(** ** Corners *)

(** The numbers of the messages the protocol object itself delivers for these frames. *)
Fixpoint protocol_delivers (frames : list (list Z)) (p : Admin MemorySessionStore) : list Z :=
  match frames with
  | [] => []
  | f :: frames =>
      let '(p, r) := OnInboundSpan f 5 p in
      match r with Value ev => concat (map (fun m => take 1 (map f_int_value (view_fields (ref_view m)))) (application_messages ev)) | Error _ => [] end ++ protocol_delivers frames p
  end.

(** The worker decodes a frame itself and hands it to the overload of [OnInbound] that
    does not drain the frames kept behind a gap: once the missing message was sent again
    the kept one stays where it is, the next one opens a gap of its own, and the session
    asks for the same message once more.  The overloads that take the bytes deliver all
    of them. *)
Theorem live_never_drains_gap :
  let l := demo_polled demo_inbound in
  delivered (sc_events (lv_world l)) = [2; 3] /\
  map (fun c => (state (ap_session (as_protocol (cn_session c))), length (ap_deferred_gap_frames (as_protocol (cn_session c))))) (sh_connections (lv_shard l)) = [(kResendProcessing, 2%nat)] /\
  map (fun c => protocol_delivers demo_inbound (as_protocol (cn_session c))) (sh_connections (lv_shard (demo_opened []))) = [[2; 3; 4; 5]].
Proof. vm_compute. split_and!; reflexivity. Qed.

(** No timer is armed when a session is opened, so that a peer which takes the
    connection and never answers the Logon holds it for ever: the protocol asks to
    disconnect, but it is not asked. *)
Theorem logon_timer_not_armed :
  let later := 1000000000000 in
  let w := MkScript later later [] [] [] [] [] in
  let l := fst (PollWorkerOnce 10 [] (set_world w (demo_opened []))) in
  map (fun c => state (ap_session (as_protocol (cn_session c)))) (sh_connections (lv_shard l)) = [kPendingLogon] /\
  TimerWheel.NextDeadline (sh_timer_wheel (lv_shard l)) = None /\
  map (fun c => match snd (OnTimer later (as_protocol (cn_session c))) with Value ev => disconnect ev | Error _ => false end) (sh_connections (lv_shard l)) = [true].
Proof. vm_compute. split_and!; reflexivity. Qed.

(** The built-in delay is doubled in 32 bits: from 2^31 milliseconds on it wraps around,
    to a delay of nothing; the strategy of the same name saturates. *)
Theorem built_in_backoff_wraps :
  let cp := MkCounterparty toy_session_config toy_config default_day_cut non_stop AppDispatchMode.kInline true true 2147483648 4294967295 0 None [] in
  doubled cp (cp_reconnect_initial_ms cp) = 0 /\
  cd_delay (fst (fst (OnDisconnected (demo_context 1) (MkBackoff 2147483648 4294967295 0 2147483648 1) (MkScript 0 0 [] [] [] [] [])))) >= 4294967295.
Proof. vm_compute. split; [reflexivity|intros [=]]. Qed.
