(* ===== verification/Artifact.v ===== *)
(** * Profile artifacts

    [profile/artifact_builder.cpp], [profile/profile_loader.cpp] and [profile/artifact.h]:
    a dictionary written as a file of sections, the validation of such a file and the
    typed views of its sections, which [NormalizedDictionary] reads.  A record that the
    source copies as bytes is an instance of the class [Pod]: a list of little-endian
    words of given widths, packed. *)
From S2P Require Import Prelude Base StdAlgo SortSearch Wire NormalizedDictionary.
From stdpp Require Import pretty sorting.
Open Scope Z_scope.

(** ** Packed records *)

Fixpoint le_bytes (width : nat) (x : Z) : list Z :=
  match width with O => [] | S width => x mod 256 :: le_bytes width (x / 256) end.

Fixpoint le_value (l : list Z) : Z := match l with [] => 0 | b :: l => b + 256 * le_value l end.

Fixpoint pack (widths : list nat) (words : list Z) : list Z :=
  match widths, words with
  | w :: widths, x :: words => le_bytes w x ++ pack widths words
  | _, _ => []
  end.

Fixpoint unpack (widths : list nat) (l : list Z) : list Z :=
  match widths with [] => [] | w :: widths => le_value (take w l) :: unpack widths (drop w l) end.

(** A type that is trivially copyable: its layout, its words, and back. *)
Class Pod (A : Type) := {
  pod_widths : list nat;
  to_words : A -> list Z;
  of_words : list Z -> A;
}.

Definition pod_size (A : Type) `{Pod A} : nat := sum_list pod_widths.
Definition pod_bytes {A} `{Pod A} (a : A) : list Z := pack pod_widths (to_words a).
Definition pod_read {A} `{Pod A} (l : list Z) : A := of_words (unpack pod_widths l).

Definition word_at (i : nat) (l : list Z) : Z := nth i l 0.

#[export] Instance field_def_pod : Pod FieldDefRecord := {|
  pod_widths := [4; 4; 4; 4; 4; 2; 2]%nat;
  to_words f := [fd_tag f; fd_name_offset f; fd_value_type f; fd_flags f; fd_enum_offset f; fd_enum_count f; 0];
  of_words l := MkFieldDef (word_at 0 l) (word_at 1 l) (word_at 2 l) (word_at 3 l) (word_at 4 l) (word_at 5 l);
|}.

#[export] Instance field_rule_pod : Pod FieldRuleRecord := {|
  pod_widths := [4; 4]%nat;
  to_words r := [fr_tag r; fr_flags r];
  of_words l := MkRule (word_at 0 l) (word_at 1 l);
|}.

#[export] Instance message_def_pod : Pod MessageDefRecord := {|
  pod_widths := [4; 4; 4; 4; 4; 4]%nat;
  to_words m := [msg_type_offset m; md_name_offset m; md_first_field_rule m; md_field_rule_count m; md_flags m; 0];
  of_words l := MkMessageDef (word_at 0 l) (word_at 1 l) (word_at 2 l) (word_at 3 l) (word_at 4 l);
|}.

#[export] Instance group_def_pod : Pod GroupDefRecord := {|
  pod_widths := [4; 4; 4; 4; 4; 4; 8]%nat;
  to_words g := [count_tag g; delimiter_tag g; gd_name_offset g; gd_first_field_rule g; gd_field_rule_count g; gd_flags g; required_field_bitmap g];
  of_words l := MkGroupDef (word_at 0 l) (word_at 1 l) (word_at 2 l) (word_at 3 l) (word_at 4 l) (word_at 5 l) (word_at 6 l);
|}.

#[export] Instance enum_value_pod : Pod EnumValueRecord := {|
  pod_widths := [4; 4; 4]%nat;
  to_words e := [ev_field_tag e; ev_value_offset e; ev_name_offset e];
  of_words l := MkEnumValue (word_at 0 l) (word_at 1 l) (word_at 2 l);
|}.

Record AdminRuleEntry := MkAdminRule { ar_msg_type_offset : Z; ar_flags : Z }.
Record ValidationRuleEntry := MkValidationRule { vr_tag : Z; vr_value_type : Z; vr_flags : Z }.
Record LookupTableEntry := MkLookup { lt_field_index : Z }.
Record TemplateDescriptorEntry := MkDescriptor { td_msg_type_offset : Z; td_field_count : Z; td_first_field_rule_index : Z; td_flags : Z }.

#[export] Instance admin_rule_pod : Pod AdminRuleEntry := {|
  pod_widths := [4; 4]%nat;
  to_words r := [ar_msg_type_offset r; ar_flags r];
  of_words l := MkAdminRule (word_at 0 l) (word_at 1 l);
|}.
#[export] Instance validation_rule_pod : Pod ValidationRuleEntry := {|
  pod_widths := [4; 4; 4]%nat;
  to_words r := [vr_tag r; vr_value_type r; vr_flags r];
  of_words l := MkValidationRule (word_at 0 l) (word_at 1 l) (word_at 2 l);
|}.
#[export] Instance lookup_pod : Pod LookupTableEntry := {|
  pod_widths := [4]%nat;
  to_words r := [lt_field_index r];
  of_words l := MkLookup (word_at 0 l);
|}.
#[export] Instance descriptor_pod : Pod TemplateDescriptorEntry := {|
  pod_widths := [4; 4; 4; 4]%nat;
  to_words r := [td_msg_type_offset r; td_field_count r; td_first_field_rule_index r; td_flags r];
  of_words l := MkDescriptor (word_at 0 l) (word_at 1 l) (word_at 2 l) (word_at 3 l);
|}.

Definition kArtifactMagic : list Z := [78; 70; 80; 70].
Definition kArtifactFormatVersion : Z := 1.
Definition kArtifactEndianLittle : Z := 16909060.

(** [magic] is kept as its four bytes read as one word. *)
Record ArtifactHeader := MkHeader_ {
  ah_magic : Z;
  ah_format_version : Z;
  ah_header_size : Z;
  ah_section_entry_size : Z;
  ah_endian_tag : Z;
  ah_file_size : Z;
  ah_section_table_offset : Z;
  ah_section_count : Z;
  ah_flags : Z;
  ah_schema_hash : Z;
  ah_profile_id : Z;
}.

Record ArtifactSection := MkSection {
  as_kind : Z;
  as_flags : Z;
  as_offset : Z;
  as_size : Z;
  as_entry_count : Z;
  as_entry_size : Z;
}.

#[export] Instance header_pod : Pod ArtifactHeader := {|
  pod_widths := [4; 4; 4; 4; 4; 8; 8; 4; 4; 8; 8; 8; 8]%nat;
  to_words h := [ah_magic h; ah_format_version h; ah_header_size h; ah_section_entry_size h; ah_endian_tag h; ah_file_size h; ah_section_table_offset h;
                 ah_section_count h; ah_flags h; ah_schema_hash h; ah_profile_id h; 0; 0];
  of_words l := MkHeader_ (word_at 0 l) (word_at 1 l) (word_at 2 l) (word_at 3 l) (word_at 4 l) (word_at 5 l) (word_at 6 l) (word_at 7 l) (word_at 8 l) (word_at 9 l) (word_at 10 l);
|}.

#[export] Instance section_pod : Pod ArtifactSection := {|
  pod_widths := [4; 4; 8; 8; 8; 8]%nat;
  to_words s := [as_kind s; as_flags s; as_offset s; as_size s; as_entry_count s; as_entry_size s];
  of_words l := MkSection (word_at 0 l) (word_at 1 l) (word_at 2 l) (word_at 3 l) (word_at 4 l) (word_at 5 l);
|}.

Definition SerializeEntries {A} `{Pod A} (entries : list A) : list Z := concat (map pod_bytes entries).

(** ** Dictionaries *)

Record EnumEntry := MkEnumEntry { ee_value : list Z; ee_name : list Z }.
Record FieldDef := MkField { df_tag : Z; df_name : list Z; df_value_type : Z; df_flags : Z; df_enum_values : list EnumEntry }.
Record FieldRule := MkFieldRule { rule_tag : Z; rule_flags : Z }.
Record MessageDef := MkMessage { dm_msg_type : list Z; dm_name : list Z; dm_field_rules : list FieldRule; dm_flags : Z }.
Record GroupDef := MkGroup { dg_count_tag : Z; dg_delimiter_tag : Z; dg_name : list Z; dg_field_rules : list FieldRule; dg_flags : Z }.

Record NormalizedDictionary := MkNormalized {
  nd_schema_hash : Z;
  nd_profile_id : Z;
  nd_fields : list FieldDef;
  nd_messages : list MessageDef;
  nd_groups : list GroupDef;
  nd_header_fields : list FieldRule;
  nd_trailer_fields : list FieldRule;
}.

Definition kRequired : Z := 1.
Definition kMessageAdmin : Z := 1.
Definition kRequiredBitmapOverflow : Z := 2.

(** ** The string table *)

Record StringTableBuilder := MkStrings { st_bytes : list Z; st_offsets : gmap (list Z) Z }.

Definition NewStringTable : StringTableBuilder := MkStrings [0] {[ [] := 0 ]}.

Definition Intern (value : list Z) (t : StringTableBuilder) : StringTableBuilder * Z :=
  match value with
  | [] => (t, 0)
  | _ =>
      match st_offsets t !! value with
      | Some offset => (t, offset)
      | None =>
          let offset := u32 (Z.of_nat (length (st_bytes t))) in
          (MkStrings (st_bytes t ++ value ++ [0]) (<[value := offset]> (st_offsets t)), offset)
      end
  end.

(** ** The builder *)

(** The first of two equal keys makes [emplace] fail. *)
Fixpoint has_duplicates {K} `{EqDecision K} (l : list K) : bool :=
  match l with [] => false | x :: l => bool_decide (x ∈ l) || has_duplicates l end.

Definition ValidateDictionary (d : NormalizedDictionary) : Status :=
  if has_duplicates (map df_tag (nd_fields d)) then status.InvalidArgument "dictionary contains duplicate field tags"
  else if has_duplicates (map dm_msg_type (nd_messages d)) then status.InvalidArgument "dictionary contains duplicate message types"
  else if has_duplicates (map dg_count_tag (nd_groups d)) then status.InvalidArgument "dictionary contains duplicate group count tags"
  else status.Ok.

Fixpoint required_bitmap (rules : list FieldRule) (index : Z) (bitmap : Z) (overflow : bool) : Z * bool :=
  match rules with
  | [] => (bitmap, overflow)
  | r :: rules =>
      if Z.land (rule_flags r) kRequired =? 0 then required_bitmap rules (index + 1) bitmap overflow
      else if 64 <=? index then required_bitmap rules (index + 1) bitmap true
      else required_bitmap rules (index + 1) (Z.lor bitmap (Z.shiftl 1 index)) overflow
  end.
Definition ComputeRequiredFieldBitmap (rules : list FieldRule) : Z * bool := required_bitmap rules 0 0 false.

Definition rule_record (r : FieldRule) : FieldRuleRecord := MkRule (rule_tag r) (rule_flags r).

(** The loops of [BuildProfileArtifact]: the string table is threaded through them in
    the order of the source. *)
Definition add_enum (tag : Z) (st : StringTableBuilder * list EnumValueRecord) (e : EnumEntry) : StringTableBuilder * list EnumValueRecord :=
  let '(strings, records) := st in
  let '(strings, value) := Intern (ee_value e) strings in
  let '(strings, name) := Intern (ee_name e) strings in
  (strings, records ++ [MkEnumValue tag value name]).

Definition add_field (st : StringTableBuilder * list FieldDefRecord * list EnumValueRecord) (f : FieldDef) : StringTableBuilder * list FieldDefRecord * list EnumValueRecord :=
  let '(strings, defs, enums) := st in
  let enum_offset := u32 (Z.of_nat (length enums)) in
  let enum_count := u16 (Z.of_nat (length (df_enum_values f))) in
  let '(strings, name) := Intern (df_name f) strings in
  let '(strings, enums) := fold_left (add_enum (df_tag f)) (df_enum_values f) (strings, enums) in
  (strings, defs ++ [MkFieldDef (df_tag f) name (df_value_type f) (df_flags f) enum_offset enum_count], enums).

Definition add_message (st : StringTableBuilder * list MessageDefRecord * list FieldRuleRecord) (m : MessageDef) : StringTableBuilder * list MessageDefRecord * list FieldRuleRecord :=
  let '(strings, defs, rules) := st in
  let first_rule := u32 (Z.of_nat (length rules)) in
  let '(strings, msg_type) := Intern (dm_msg_type m) strings in
  let '(strings, name) := Intern (dm_name m) strings in
  (strings, defs ++ [MkMessageDef msg_type name first_rule (u32 (Z.of_nat (length (dm_field_rules m)))) (dm_flags m)], rules ++ map rule_record (dm_field_rules m)).

Definition add_group (st : StringTableBuilder * list GroupDefRecord * list FieldRuleRecord) (g : GroupDef) : StringTableBuilder * list GroupDefRecord * list FieldRuleRecord :=
  let '(strings, defs, rules) := st in
  let first_rule := u32 (Z.of_nat (length rules)) in
  let '(bitmap, overflow) := ComputeRequiredFieldBitmap (dg_field_rules g) in
  let '(strings, name) := Intern (dg_name g) strings in
  (strings, defs ++ [MkGroupDef (dg_count_tag g) (dg_delimiter_tag g) name first_rule (u32 (Z.of_nat (length (dg_field_rules g))))
                       (Z.lor (dg_flags g) (if overflow : bool then kRequiredBitmapOverflow else 0)) bitmap],
   rules ++ map rule_record (dg_field_rules g)).

Definition add_admin_rule (st : StringTableBuilder * list AdminRuleEntry) (m : MessageDef) : StringTableBuilder * list AdminRuleEntry :=
  let '(strings, rules) := st in
  if Z.land (dm_flags m) kMessageAdmin =? 0 then (strings, rules)
  else let '(strings, msg_type) := Intern (dm_msg_type m) strings in (strings, rules ++ [MkAdminRule msg_type (dm_flags m)]).

Definition validation_rule (f : FieldDef) : ValidationRuleEntry := MkValidationRule (df_tag f) (df_value_type f) (df_flags f).

Definition kLookupTableSize : Z := 10000.
Definition kLookupAbsent : Z := 4294967295.
Definition add_lookup (table : list LookupTableEntry) (x : nat * FieldDef) : list LookupTableEntry :=
  let '(i, f) := x in if df_tag f <? kLookupTableSize then <[Z.to_nat (df_tag f) := MkLookup (u32 (Z.of_nat i))]> table else table.
Definition lookup_table (fields : list FieldDef) : list LookupTableEntry :=
  fold_left add_lookup (imap pair fields) (replicate (Z.to_nat kLookupTableSize) (MkLookup kLookupAbsent)).

Definition add_descriptor (st : StringTableBuilder * list TemplateDescriptorEntry * Z) (m : MessageDef) : StringTableBuilder * list TemplateDescriptorEntry * Z :=
  let '(strings, descriptors, rule_offset) := st in
  let '(strings, msg_type) := Intern (dm_msg_type m) strings in
  let count := u32 (Z.of_nat (length (dm_field_rules m))) in
  (strings, descriptors ++ [MkDescriptor msg_type count rule_offset (dm_flags m)], rule_offset +u32 count).

Module SectionKind.
Definition kStringTable : Z := 1.
Definition kFieldDefs : Z := 2.
Definition kMessageDefs : Z := 3.
Definition kGroupDefs : Z := 4.
Definition kAdminRules : Z := 5.
Definition kValidationRules : Z := 6.
Definition kLookupTables : Z := 7.
Definition kTemplateDescriptors : Z := 8.
Definition kMessageFieldRules : Z := 9.
Definition kGroupFieldRules : Z := 10.
Definition kHeaderFieldRules : Z := 11.
Definition kTrailerFieldRules : Z := 12.
Definition kEnumValues : Z := 13.
End SectionKind.

Record PendingSection := MkPendingSection { ps_kind : Z; ps_bytes : list Z; ps_entry_count : Z; ps_entry_size : Z }.

Definition entries_section {A} `{Pod A} (kind : Z) (entries : list A) : PendingSection :=
  MkPendingSection kind (SerializeEntries entries) (Z.of_nat (length entries)) (Z.of_nat (pod_size A)).

Definition kHeaderSize : Z := Z.of_nat (pod_size ArtifactHeader).
Definition kSectionSize : Z := Z.of_nat (pod_size ArtifactSection).

(** Everything the loops compute. *)
Record Collected := MkCollected {
  co_strings : StringTableBuilder;
  co_fields : list FieldDefRecord;
  co_enums : list EnumValueRecord;
  co_messages : list MessageDefRecord;
  co_message_rules : list FieldRuleRecord;
  co_groups : list GroupDefRecord;
  co_group_rules : list FieldRuleRecord;
  co_admin : list AdminRuleEntry;
  co_descriptors : list TemplateDescriptorEntry;
}.

Definition collect (d : NormalizedDictionary) : Collected :=
  let '(strings, fields, enums) := fold_left add_field (nd_fields d) (NewStringTable, [], []) in
  let '(strings, messages, message_rules) := fold_left add_message (nd_messages d) (strings, [], []) in
  let '(strings, groups, group_rules) := fold_left add_group (nd_groups d) (strings, [], []) in
  let '(strings, admin) := fold_left add_admin_rule (nd_messages d) (strings, []) in
  let '(strings, descriptors, _) := fold_left add_descriptor (nd_messages d) (strings, [], 0) in
  MkCollected strings fields enums messages message_rules groups group_rules admin descriptors.

Definition pending_sections (d : NormalizedDictionary) (c : Collected) : list PendingSection :=
  [MkPendingSection SectionKind.kStringTable (st_bytes (co_strings c)) (Z.of_nat (length (st_bytes (co_strings c)))) 1;
   entries_section SectionKind.kFieldDefs (co_fields c);
   entries_section SectionKind.kMessageDefs (co_messages c);
   entries_section SectionKind.kGroupDefs (co_groups c);
   entries_section SectionKind.kMessageFieldRules (co_message_rules c);
   entries_section SectionKind.kGroupFieldRules (co_group_rules c);
   entries_section SectionKind.kAdminRules (co_admin c);
   entries_section SectionKind.kValidationRules (map validation_rule (nd_fields d));
   entries_section SectionKind.kLookupTables (lookup_table (nd_fields d));
   entries_section SectionKind.kTemplateDescriptors (co_descriptors c);
   entries_section SectionKind.kHeaderFieldRules (map rule_record (nd_header_fields d));
   entries_section SectionKind.kTrailerFieldRules (map rule_record (nd_trailer_fields d));
   entries_section SectionKind.kEnumValues (co_enums c)].

(** Sections one behind the other. *)
Fixpoint place_sections (offset : Z) (l : list PendingSection) : list ArtifactSection :=
  match l with
  | [] => []
  | p :: l =>
      let size := Z.of_nat (length (ps_bytes p)) in
      MkSection (ps_kind p) 0 offset size (ps_entry_count p) (ps_entry_size p) :: place_sections (offset + size) l
  end.

Definition artifact_header (d : NormalizedDictionary) (section_count file_size : Z) : ArtifactHeader :=
  MkHeader_ (le_value kArtifactMagic) kArtifactFormatVersion kHeaderSize kSectionSize kArtifactEndianLittle file_size kHeaderSize section_count 0 (nd_schema_hash d) (nd_profile_id d).

(** A profile that is loaded: the bytes, their header and their sections. *)
Record Artifact := MkArtifact { af_data : list Z; af_header : ArtifactHeader; af_sections : list ArtifactSection }.

(** The header, the table of sections and their bytes.  The offsets are numbers of 64
    bits in the source; a file of 2^64 bytes does not exist. *)
Definition assemble (d : NormalizedDictionary) (pending : list PendingSection) : Artifact :=
  let start := kHeaderSize + Z.of_nat (length pending) * kSectionSize in
  let sections := place_sections start pending in
  let file_size := start + Z.of_nat (length (concat (map ps_bytes pending))) in
  let header := artifact_header d (Z.of_nat (length sections)) file_size in
  MkArtifact (pod_bytes header ++ SerializeEntries sections ++ concat (map ps_bytes pending)) header sections.

Definition BuildProfileArtifact (d : NormalizedDictionary) : Result (list Z) :=
  let validation := ValidateDictionary d in
  if negb (status.ok validation) then Error validation else Value (af_data (assemble d (pending_sections d (collect d)))).

(** ** The loader *)

Definition InBounds (offset length total : Z) : bool :=
  if total <? offset then false else if total - offset <? length then false else true.

Definition MultiplyWillOverflow (lhs rhs : Z) : bool :=
  if (lhs =? 0) || (rhs =? 0) then false else UINT64_MAX / rhs <? lhs.

(** [count] records that start at an offset. *)
Fixpoint read_records {A} `{Pod A} (count : nat) (l : list Z) : list A :=
  match count with O => [] | S count => pod_read (take (pod_size A) l) :: read_records count (drop (pod_size A) l) end.
Definition records_at {A} `{Pod A} (bytes : list Z) (offset count : Z) : list A := read_records (Z.to_nat count) (drop (Z.to_nat offset) bytes).

Definition the_artifact (path text : string) : string := "artifact '" +:+ path +:+ "' " +:+ text.

Definition validate_section (path : string) (file_size section_table_end : Z) (s : ArtifactSection) : Status :=
  if negb (InBounds (as_offset s) (as_size s) file_size) then status.FormatError (the_artifact path "has an out-of-bounds section")
  else if as_offset s <? section_table_end then status.FormatError (the_artifact path "has a section overlapping the header or section table")
  else if as_entry_size s =? 0 then
    if negb (as_entry_count s =? 0) || negb (as_size s =? 0) then status.FormatError (the_artifact path "has a malformed zero-sized section entry descriptor") else status.Ok
  else if MultiplyWillOverflow (as_entry_count s) (as_entry_size s) then status.FormatError (the_artifact path "has an overflowing section size declaration")
  else if negb (as_entry_count s * as_entry_size s =? as_size s) then status.FormatError (the_artifact path "has a section whose size does not match entry_count * entry_size")
  else status.Ok.

(** [std::pair] is ordered by its first part, then by its second. *)
Definition range_order_ltb (a b : Z * Z) : bool := (fst a <? fst b) || (negb (fst b <? fst a) && (snd a <? snd b)).
#[export] Instance range_order : KeyOrder (Z * Z).
Proof.
  refine {| key_ltb := range_order_ltb; key_eqb a b := (fst a =? fst b) && (snd a =? snd b) |}; unfold range_order_ltb; intros [a1 a2] [b1 b2]; [..|intros [c1 c2]]; cbn;
    repeat match goal with |- context [?x <? ?y] => destruct (Z.ltb_spec x y) | |- context [?x =? ?y] => destruct (Z.eqb_spec x y) end; cbn; intuition (try congruence; try lia); f_equal; lia.
Defined.

Definition section_range (s : ArtifactSection) : Z * Z := (as_offset s, as_offset s + as_size s).

Fixpoint disjoint_ranges (l : list (Z * Z)) : bool :=
  match l with
  | a :: (b :: _) as l' => negb (fst b <? snd a) && disjoint_ranges l'
  | _ => true
  end.

Section Loader.
Context {S1 : SortAlgorithm (fun r : Z * Z => r)}.

Definition ValidateArtifact (path : string) (data : list Z) : Result Artifact :=
  let size := Z.of_nat (length data) in
  if size <? kHeaderSize then Error (status.FormatError (the_artifact path "is smaller than the header"))
  else
    let header := pod_read (A := ArtifactHeader) (take (Z.to_nat kHeaderSize) data) in
    if negb (ah_magic header =? le_value kArtifactMagic) then Error (status.FormatError (the_artifact path "has an invalid magic"))
    else if negb (ah_format_version header =? kArtifactFormatVersion) then Error (status.VersionMismatch (the_artifact path "has an unsupported format version"))
    else if negb (ah_header_size header =? kHeaderSize) then Error (status.FormatError (the_artifact path "has an unexpected header size"))
    else if negb (ah_section_entry_size header =? kSectionSize) then Error (status.FormatError (the_artifact path "has an unexpected section entry size"))
    else if negb (ah_endian_tag header =? kArtifactEndianLittle) then Error (status.VersionMismatch (the_artifact path "has an unsupported endian tag"))
    else if negb (ah_file_size header =? size) then Error (status.FormatError (the_artifact path "has a mismatched file size"))
    else
      let section_table_bytes := ah_section_count header * kSectionSize in
      if ah_section_table_offset header <? ah_header_size header then Error (status.FormatError (the_artifact path "has a section table overlapping the header"))
      else if negb (InBounds (ah_section_table_offset header) section_table_bytes (ah_file_size header)) then Error (status.FormatError (the_artifact path "has an out-of-bounds section table"))
      else
        let section_table_end := ah_section_table_offset header + section_table_bytes in
        let sections := records_at (A := ArtifactSection) data (ah_section_table_offset header) (ah_section_count header) in
        let st := first_failure (validate_section path (ah_file_size header) section_table_end) sections in
        if negb (status.ok st) then Error st
        else if negb (disjoint_ranges (std_sort (key := fun r : Z * Z => r) (map section_range sections))) then Error (status.FormatError (the_artifact path "has overlapping sections"))
        else Value (MkArtifact data header sections).

Definition LoadProfileFromDictionary (d : NormalizedDictionary) : Result Artifact :=
  match BuildProfileArtifact d with Error e => Error e | Value bytes => ValidateArtifact "<in-memory>" bytes end.
End Loader.

(** *** Typed views *)

Definition find_section_descriptor (a : Artifact) (kind : Z) : option ArtifactSection := List.find (fun s => as_kind s =? kind) (af_sections a).

Definition section_bytes (a : Artifact) (s : ArtifactSection) : list Z := take (Z.to_nat (as_size s)) (drop (Z.to_nat (as_offset s)) (af_data a)).

Definition string_table (a : Artifact) : option (list Z) := section_bytes a <$> find_section_descriptor a SectionKind.kStringTable.

(** Packed records have an alignment of one byte. *)
Definition fixed_section (A : Type) `{Pod A} (a : Artifact) (kind : Z) : option (list A) :=
  match find_section_descriptor a kind with
  | None => None
  | Some s =>
      if negb (as_entry_size s =? Z.of_nat (pod_size A)) then None
      else if as_entry_count s =? 0 then Some []
      else Some (records_at (af_data a) (as_offset s) (as_entry_count s))
  end.

(** What [FromProfile] asks for. *)
Definition profile_sections (a : Artifact) : LoadedProfile :=
  MkProfile (string_table a) (fixed_section FieldDefRecord a SectionKind.kFieldDefs) (fixed_section MessageDefRecord a SectionKind.kMessageDefs)
    (fixed_section GroupDefRecord a SectionKind.kGroupDefs) (fixed_section FieldRuleRecord a SectionKind.kMessageFieldRules)
    (fixed_section FieldRuleRecord a SectionKind.kGroupFieldRules) (fixed_section FieldRuleRecord a SectionKind.kHeaderFieldRules)
    (fixed_section FieldRuleRecord a SectionKind.kTrailerFieldRules) (fixed_section EnumValueRecord a SectionKind.kEnumValues).

(** A profile that was never loaded has no header. *)
Definition ValidateSchemaHash (profile : option Artifact) (expected_hash : Z) : Status :=
  match profile with
  | None => status.InvalidArgument "ValidateSchemaHash: loaded profile is not valid"
  | Some a =>
      let actual_hash := ah_schema_hash (af_header a) in
      if negb (actual_hash =? expected_hash)
      then status.VersionMismatch ("schema_hash mismatch: artifact has " +:+ pretty actual_hash +:+ " but generated code expects " +:+ pretty expected_hash)
      else status.Ok
  end.

(** ** Lemmas: packed records *)

Definition word_fits (width : nat) (x : Z) : Prop := 0 <= x < 256 ^ Z.of_nat width.

Lemma le_value_bytes width : forall x, word_fits width x -> le_value (le_bytes width x) = x.
Proof.
  unfold word_fits. induction width as [|width IH]; intros x Hx; cbn [le_bytes le_value]; [change (256 ^ Z.of_nat 0) with 1 in Hx; lia|].
  rewrite Nat2Z.inj_succ, Z.pow_succ_r in Hx by lia. rewrite IH; [|split; [apply Z.div_pos; lia|apply Z.div_lt_upper_bound; lia]]. pose proof (Z_div_mod_eq_full x 256). lia.
Qed.

Lemma length_le_bytes width x : length (le_bytes width x) = width.
Proof. revert x. induction width as [|width IH]; intros x; cbn; by rewrite ?IH. Qed.

Lemma le_bytes_bytes width x : Forall (fun b => 0 <= b < 256) (le_bytes width x).
Proof. revert x. induction width as [|width IH]; intros x; cbn; constructor; [apply Z.mod_pos_bound; lia|apply IH]. Qed.

Lemma le_value_nonneg l : Forall (fun b => 0 <= b < 256) l -> 0 <= le_value l.
Proof. induction 1; cbn; lia. Qed.

Lemma unpack_pack widths words rest : Forall2 word_fits widths words -> unpack widths (pack widths words ++ rest) = words.
Proof.
  induction 1 as [|w x widths words Hx _ IH]; cbn; [done|]. rewrite <- app_assoc, take_app_length', drop_app_length' by (by rewrite length_le_bytes). by rewrite le_value_bytes, IH.
Qed.

Lemma length_pack widths : forall words, length words = length widths -> length (pack widths words) = sum_list widths.
Proof. induction widths as [|w widths IH]; intros [|x words] Hl; cbn in *; try done. rewrite length_app, length_le_bytes, IH by lia. done. Qed.

(** What a type of records promises: its words, and that they make it again. *)
Class PodSpec (A : Type) `{Pod A} := {
  pod_words (a : A) : length (to_words a) = length (pod_widths (A := A));
  pod_law (a : A) : of_words (to_words a) = a;
  pod_positive : (0 < pod_size A)%nat;
}.

#[export] Instance field_def_spec : PodSpec FieldDefRecord.
Proof. constructor; [done|by intros []|cbn; lia]. Qed.
#[export] Instance field_rule_spec : PodSpec FieldRuleRecord.
Proof. constructor; [done|by intros []|cbn; lia]. Qed.
#[export] Instance message_def_spec : PodSpec MessageDefRecord.
Proof. constructor; [done|by intros []|cbn; lia]. Qed.
#[export] Instance group_def_spec : PodSpec GroupDefRecord.
Proof. constructor; [done|by intros []|cbn; lia]. Qed.
#[export] Instance enum_value_spec : PodSpec EnumValueRecord.
Proof. constructor; [done|by intros []|cbn; lia]. Qed.
#[export] Instance admin_rule_spec : PodSpec AdminRuleEntry.
Proof. constructor; [done|by intros []|cbn; lia]. Qed.
#[export] Instance validation_rule_spec : PodSpec ValidationRuleEntry.
Proof. constructor; [done|by intros []|cbn; lia]. Qed.
#[export] Instance lookup_spec : PodSpec LookupTableEntry.
Proof. constructor; [done|by intros []|cbn; lia]. Qed.
#[export] Instance descriptor_spec : PodSpec TemplateDescriptorEntry.
Proof. constructor; [done|by intros []|cbn; lia]. Qed.
#[export] Instance header_spec : PodSpec ArtifactHeader.
Proof. constructor; [done|by intros []|cbn; lia]. Qed.
#[export] Instance section_spec : PodSpec ArtifactSection.
Proof. constructor; [done|by intros []|cbn; lia]. Qed.

Section Pods.
Context {A : Type} `{PodSpec A}.

Definition pod_fits (a : A) : Prop := Forall2 word_fits pod_widths (to_words a).

Lemma length_pod_bytes (a : A) : length (pod_bytes a) = pod_size A.
Proof. apply length_pack, pod_words. Qed.

Lemma pod_read_bytes a rest : pod_fits a -> pod_read (pod_bytes a ++ rest) = a.
Proof. intros Ha. unfold pod_read, pod_bytes. rewrite unpack_pack by done. apply pod_law. Qed.

Lemma length_serialize (l : list A) : length (SerializeEntries l) = (length l * pod_size A)%nat.
Proof. unfold SerializeEntries. induction l as [|a l IH]; cbn; [done|]. rewrite length_app, length_pod_bytes, IH. lia. Qed.

Lemma read_serialized (l : list A) rest : Forall pod_fits l -> read_records (length l) (SerializeEntries l ++ rest) = l.
Proof.
  unfold SerializeEntries. induction 1 as [|a l Ha _ IH]; cbn; [done|]. rewrite <- app_assoc, take_app_length', drop_app_length' by (by rewrite length_pod_bytes). rewrite IH. f_equal.
  rewrite <- (app_nil_r (pod_bytes a)). by apply pod_read_bytes.
Qed.

Lemma length_read_records count l : length (read_records (A := A) count l) = count.
Proof. revert l. induction count as [|count IH]; intros l; cbn; by rewrite ?IH. Qed.
End Pods.

(** ** Lemmas: the layout of the file *)

Lemma place_sections_at l1 p l2 start : place_sections start (l1 ++ p :: l2) !! length l1 =
  Some (MkSection (ps_kind p) 0 (start + Z.of_nat (length (concat (map ps_bytes l1)))) (Z.of_nat (length (ps_bytes p))) (ps_entry_count p) (ps_entry_size p)).
Proof.
  revert start. induction l1 as [|q l1 IH]; intros start; cbn.
  - by rewrite Z.add_0_r.
  - rewrite IH, length_app. do 2 f_equal. lia.
Qed.

Lemma find_placed kind l1 p l2 start : ps_kind p = kind -> kind ∉ map ps_kind l1 ->
  List.find (fun s => as_kind s =? kind) (place_sections start (l1 ++ p :: l2)) =
  Some (MkSection kind 0 (start + Z.of_nat (length (concat (map ps_bytes l1)))) (Z.of_nat (length (ps_bytes p))) (ps_entry_count p) (ps_entry_size p)).
Proof.
  intros Hk. revert start. induction l1 as [|q l1 IH]; intros start Hn; cbn.
  - rewrite Hk, Z.eqb_refl. by rewrite Z.add_0_r.
  - cbn in Hn. apply not_elem_of_cons in Hn as [Hq Hn]. destruct (Z.eqb_spec (ps_kind q) kind) as [E|_]; [done|]. rewrite IH, length_app by done. do 2 f_equal. lia.
Qed.

(** The bytes of a section are where its descriptor says. *)
Lemma drop_placed pre l1 p l2 : drop (Z.to_nat (Z.of_nat (length pre) + Z.of_nat (length (concat (map ps_bytes l1))))) (pre ++ concat (map ps_bytes (l1 ++ p :: l2))) = ps_bytes p ++ concat (map ps_bytes l2).
Proof. rewrite map_app, concat_app. cbn. rewrite app_assoc, drop_app_length'; [done|]. rewrite length_app. lia. Qed.

Lemma length_place_sections start l : length (place_sections start l) = length l.
Proof. revert start. induction l as [|p l IH]; intros start; cbn; by rewrite ?IH. Qed.

(** Sections that lie one behind the other are sorted and do not overlap. *)
Lemma place_bounds start l s : s ∈ place_sections start l -> start <= as_offset s /\ 0 <= as_size s /\ as_offset s + as_size s <= start + Z.of_nat (length (concat (map ps_bytes l))).
Proof.
  revert start. induction l as [|p l IH]; intros start; cbn; [by intros ?%not_elem_of_nil|]. rewrite length_app. intros [->|Hs]%elem_of_cons; [cbn; lia|]. specialize (IH _ Hs). lia.
Qed.

Lemma place_disjoint start l : disjoint_ranges (map section_range (place_sections start l)) = true.
Proof.
  revert start. induction l as [|p [|q l] IH]; intros start; [done|done|]. specialize (IH (start + Z.of_nat (length (ps_bytes p)))). cbn in IH |- *. rewrite IH, andb_true_r.
  unfold section_range. cbn. rewrite Z.ltb_irrefl. done.
Qed.

Lemma place_sorted start l : sorted_by (fun r : Z * Z => r) (map section_range (place_sections start l)).
Proof.
  revert start. induction l as [|p l IH]; intros start; cbn; constructor; [apply IH|]. apply Forall_forall. intros r Hr. apply list_elem_of_fmap in Hr as (s & -> & Hs). apply place_bounds in Hs as (Hs1 & Hs2 & _).
  unfold section_range. cbn. unfold range_order_ltb. cbn [fst snd]. destruct (Z.ltb_spec (as_offset s) start); [lia|]. cbn [orb]. destruct (Z.ltb_spec start (as_offset s)); [done|]. cbn [negb andb]. apply Z.ltb_ge. lia.
Qed.

Lemma sort_placed {S1 : SortAlgorithm (fun r : Z * Z => r)} start l : std_sort (key := fun r : Z * Z => r) (map section_range (place_sections start l)) = map section_range (place_sections start l).
Proof.
  assert (Hanti : AntiSymm (=) (fun a b : Z * Z => key_ltb b a = false)) by (intros a b H1 H2; symmetry; by apply key_ltb_trichotomy).
  apply (StronglySorted_unique (fun a b : Z * Z => key_ltb b a = false)); [apply std_sort_sorted|apply place_sorted|apply std_sort_perm].
Qed.

Lemma first_failure_all_ok {A} (check : A -> Status) l : Forall (fun x => check x = status.Ok) l -> first_failure check l = status.Ok.
Proof. induction 1 as [|x l Hx _ IH]; cbn; [done|]. by rewrite Hx. Qed.

(** A section of whole entries. *)
Definition whole_section (p : PendingSection) : Prop := 0 < ps_entry_size p <= UINT32_MAX /\ 0 <= ps_entry_count p /\ ps_entry_count p * ps_entry_size p = Z.of_nat (length (ps_bytes p)).

Lemma entries_whole {A} `{PodSpec A} kind (entries : list A) : (pod_size A <= 76)%nat -> whole_section (entries_section kind entries).
Proof. intros Hp. unfold whole_section, entries_section. cbn. pose proof pod_positive. rewrite length_serialize. ulia. Qed.

Lemma place_sections_elem start l s : s ∈ place_sections start l -> exists p, p ∈ l /\ as_size s = Z.of_nat (length (ps_bytes p)) /\ as_entry_count s = ps_entry_count p /\ as_entry_size s = ps_entry_size p /\ as_kind s = ps_kind p /\ as_flags s = 0.
Proof.
  revert start. induction l as [|p l IH]; intros start; cbn; [by intros ?%not_elem_of_nil|]. intros [->|Hs]%elem_of_cons; [exists p; split; [left|done]|]. destruct (IH _ Hs) as (q & Hq & ?). exists q. split; [by right|done].
Qed.

Lemma placed_valid path start l s total : Forall whole_section l -> 0 <= start -> start + Z.of_nat (length (concat (map ps_bytes l))) = total -> total <= UINT64_MAX ->
  s ∈ place_sections start l -> validate_section path total start s = status.Ok.
Proof.
  intros Hw Hs Ht Hu Hin. pose proof (place_bounds _ _ _ Hin) as (B1 & B2 & B3). apply place_sections_elem in Hin as (p & Hp & E1 & E2 & E3 & _). rewrite Forall_forall in Hw. destruct (Hw p Hp) as (W1 & W2 & W3).
  unfold validate_section, InBounds. destruct (Z.ltb_spec total (as_offset s)); [lia|]. destruct (Z.ltb_spec (total - as_offset s) (as_size s)); [lia|]. cbn [negb].
  destruct (Z.ltb_spec (as_offset s) start); [lia|]. destruct (Z.eqb_spec (as_entry_size s) 0); [lia|].
  assert (Hm : MultiplyWillOverflow (as_entry_count s) (as_entry_size s) = false).
  { unfold MultiplyWillOverflow. destruct (_ || _); [done|]. apply Z.ltb_ge. apply Z.div_le_lower_bound; [lia|]. rewrite E2, E3, Z.mul_comm, W3. lia. }
  rewrite Hm, E1, E2, E3, W3, Z.eqb_refl. done.
Qed.

Lemma word_fits_4 x : in_u32 x -> word_fits 4 x.
Proof. unfold in_u32, word_fits. change (256 ^ Z.of_nat 4) with 4294967296. ulia. Qed.
Lemma word_fits_8 x : in_u64 x -> word_fits 8 x.
Proof. unfold in_u64, word_fits. change (256 ^ Z.of_nat 8) with 18446744073709551616. lia. Qed.

(** *** A file of sections is accepted *)

Section Accepts.
Context {S1 : SortAlgorithm (fun r : Z * Z => r)} (path : string) (d : NormalizedDictionary) (pending : list PendingSection).

Let start := kHeaderSize + Z.of_nat (length pending) * kSectionSize.
Let body := concat (map ps_bytes pending).
Let sections := place_sections start pending.
Let file_size := start + Z.of_nat (length body).
Let header := artifact_header d (Z.of_nat (length sections)) file_size.
Let file := pod_bytes header ++ SerializeEntries sections ++ body.

Context (Hwhole : Forall whole_section pending) (Hkinds : Forall (fun p => word_fits 4 (ps_kind p)) pending) (Hcount : Z.of_nat (length pending) <= UINT32_MAX)
  (Hsize : file_size <= UINT64_MAX) (Hhash : in_u64 (nd_schema_hash d)) (Hid : in_u64 (nd_profile_id d)).

Lemma header_fits : pod_fits header.
Proof.
  assert (0 <= file_size) by (unfold file_size, start, kHeaderSize, kSectionSize; lia). unfold pod_fits, header, artifact_header, sections. cbn [to_words header_pod pod_widths ah_magic ah_format_version ah_header_size ah_section_entry_size ah_endian_tag ah_file_size ah_section_table_offset ah_section_count ah_flags ah_schema_hash ah_profile_id].
  rewrite length_place_sections. repeat first [apply List.Forall2_nil | apply List.Forall2_cons]; first [apply word_fits_4; ulia | apply word_fits_8; ulia | by vm_compute | idtac].
Qed.

Lemma start_size : start = Z.of_nat (length (pod_bytes header ++ SerializeEntries sections)).
Proof. rewrite length_app, length_pod_bytes, length_serialize. unfold sections. rewrite length_place_sections. unfold start, kHeaderSize, kSectionSize. lia. Qed.

Lemma sections_fit : Forall pod_fits sections.
Proof.
  apply Forall_forall. intros s Hs. pose proof (place_bounds _ _ _ Hs) as (B1 & B2 & B3). apply place_sections_elem in Hs as (p & Hp & E1 & E2 & E3 & E4 & E5).
  rewrite Forall_forall in Hwhole, Hkinds. destruct (Hwhole p Hp) as (W1 & W2 & W3). specialize (Hkinds p Hp). fold body in B3. fold file_size in B3. assert (Hstart : 0 <= start) by (rewrite start_size; lia).
  unfold pod_fits. destruct s as [kind flags off size count esize]. cbn in *. subst kind flags count esize. repeat first [apply List.Forall2_nil | apply List.Forall2_cons].
  - exact Hkinds.
  - by vm_compute.
  - apply word_fits_8. ulia.
  - apply word_fits_8. ulia.
  - apply word_fits_8. assert (ps_entry_count p <= ps_entry_count p * ps_entry_size p) by nia. ulia.
  - apply word_fits_8. ulia.
Qed.

Lemma length_file : Z.of_nat (length file) = file_size.
Proof. unfold file. rewrite app_assoc, length_app. unfold file_size. rewrite start_size. fold body. lia. Qed.

Lemma validate_built : ValidateArtifact path (af_data (assemble d pending)) = Value (assemble d pending).
Proof.
  change (assemble d pending) with (MkArtifact file header sections). cbn [af_data]. unfold ValidateArtifact. rewrite length_file. assert (Hstart : kHeaderSize <= start) by (unfold start, kSectionSize; lia).
  destruct (Z.ltb_spec file_size kHeaderSize); [unfold file_size in *; lia|].
  assert (Hh : pod_read (take (Z.to_nat kHeaderSize) file) = header).
  { unfold file. rewrite take_app_length' by (by rewrite length_pod_bytes). rewrite <- (app_nil_r (pod_bytes header)). apply pod_read_bytes, header_fits. }
  assert (Hs : records_at (A := ArtifactSection) file kHeaderSize (Z.of_nat (length sections)) = sections).
  { unfold records_at, file. rewrite drop_app_length' by (by rewrite length_pod_bytes). rewrite Nat2Z.id. apply read_serialized, sections_fit. }
  cbv zeta. rewrite Hh. unfold header, artifact_header. cbn [ah_magic ah_format_version ah_header_size ah_section_entry_size ah_endian_tag ah_file_size ah_section_table_offset ah_section_count].
  rewrite !Z.eqb_refl, Z.ltb_irrefl. cbn [negb]. assert (Htable : kHeaderSize + Z.of_nat (length sections) * kSectionSize = start) by (unfold sections; by rewrite length_place_sections).
  rewrite Htable, Hs. assert (Hin : InBounds kHeaderSize (Z.of_nat (length sections) * kSectionSize) file_size = true).
  { unfold InBounds. destruct (Z.ltb_spec file_size kHeaderSize); [lia|]. destruct (Z.ltb_spec (file_size - kHeaderSize) (Z.of_nat (length sections) * kSectionSize)); [|done]. unfold file_size in *. lia. }
  rewrite Hin. cbn [negb]. rewrite first_failure_all_ok.
  - cbn [status.ok negb status.Ok]. unfold sections. rewrite sort_placed, place_disjoint. done.
  - apply Forall_forall. intros s Hx. eapply placed_valid; [exact Hwhole| |reflexivity|exact Hsize|exact Hx]. unfold kHeaderSize in *. lia.
Qed.

Context (l1 l2 : list PendingSection) (p : PendingSection) (Hp : pending = l1 ++ p :: l2) (Hfirst : ps_kind p ∉ map ps_kind l1).

Lemma find_built : find_section_descriptor (assemble d pending) (ps_kind p) =
  Some (MkSection (ps_kind p) 0 (start + Z.of_nat (length (concat (map ps_bytes l1)))) (Z.of_nat (length (ps_bytes p))) (ps_entry_count p) (ps_entry_size p)).
Proof. change (assemble d pending) with (MkArtifact file header sections). unfold find_section_descriptor, sections. cbn [af_sections]. rewrite Hp. by apply find_placed. Qed.

Lemma drop_built : drop (Z.to_nat (start + Z.of_nat (length (concat (map ps_bytes l1))))) file = ps_bytes p ++ concat (map ps_bytes l2).
Proof. unfold file, body. rewrite app_assoc. rewrite start_size, Hp. apply drop_placed. Qed.

Lemma bytes_built kind : kind = ps_kind p -> section_bytes (assemble d pending) <$> find_section_descriptor (assemble d pending) kind = Some (ps_bytes p).
Proof. intros ->. rewrite find_built. cbn [fmap option_fmap option_map]. change (assemble d pending) with (MkArtifact file header sections). unfold section_bytes. cbn [as_size as_offset af_data]. rewrite drop_built, take_app_length'; [done|lia]. Qed.

Lemma fixed_built {A} `{PodSpec A} kind (entries : list A) : p = entries_section kind entries -> Forall pod_fits entries -> fixed_section A (assemble d pending) kind = Some entries.
Proof.
  intros Hpe Hf. unfold fixed_section. assert (Hk : kind = ps_kind p) by (by rewrite Hpe). rewrite Hk, find_built. change (assemble d pending) with (MkArtifact file header sections). cbn [as_entry_size as_entry_count as_offset af_data].
  rewrite Hpe at 1. cbn [ps_entry_size entries_section]. rewrite Z.eqb_refl. cbn [negb]. unfold records_at. rewrite drop_built, Hpe. cbn [ps_entry_count ps_bytes entries_section]. rewrite Nat2Z.id, read_serialized by done.
  destruct entries; [done|]. by destruct (Z.eqb_spec (Z.of_nat (length (a :: entries))) 0).
Qed.
End Accepts.
