(* ===== verification/ArtifactProofs.v ===== *)
(** * Profile artifacts: round trip and safety

    What a dictionary view loaded from a built artifact shows is the dictionary; a file
    that passes validation has its sections apart from each other and inside the file. *)
From S2P Require Import Prelude Base StdAlgo SortSearch Wire NormalizedDictionary Artifact.
From stdpp Require Import pretty sorting.
Open Scope Z_scope.

(** ** The string table *)

(** A text that can be stored: bytes, none of them zero. *)
Definition text_ok (s : list Z) : Prop := Forall (fun b => 0 < b < 256) s.

Record strings_ok (t : StringTableBuilder) : Prop := {
  so_bytes : Forall (fun b => 0 <= b < 256) (st_bytes t);
  so_empty : string_at (st_bytes t) 0 = Some [];
  so_offsets : forall s offset, st_offsets t !! s = Some offset -> string_at (st_bytes t) offset = Some s /\ in_u32 offset;
}.

Definition extends (t t' : StringTableBuilder) : Prop := exists more, st_bytes t' = st_bytes t ++ more.

#[global] Instance extends_refl : Reflexive extends.
Proof. intros t. exists []. by rewrite app_nil_r. Qed.
#[global] Instance extends_trans : Transitive extends.
Proof. intros t1 t2 t3 [m1 H1] [m2 H2]. exists (m1 ++ m2). by rewrite H2, H1, app_assoc. Qed.

Lemma until_zero_app l s more : until_zero l = Some s -> until_zero (l ++ more) = Some s.
Proof.
  revert s. induction l as [|c l IH]; intros s; cbn; [done|]. destruct (c =? 0); [done|]. destruct (until_zero l) as [s'|]; [|done]. cbn. intros [= <-]. by rewrite (IH s').
Qed.

Lemma until_zero_text s rest : text_ok s -> until_zero (s ++ 0 :: rest) = Some s.
Proof. induction 1 as [|b s Hb _ IH]; cbn; [done|]. destruct (Z.eqb_spec b 0); [lia|]. by rewrite IH. Qed.

Lemma string_at_extends t t' offset s : extends t t' -> 0 <= offset -> string_at (st_bytes t) offset = Some s -> string_at (st_bytes t') offset = Some s.
Proof.
  intros [more ->] Ho. unfold string_at. rewrite length_app. destruct (Z.leb_spec (Z.of_nat (length (st_bytes t))) offset); [done|]. destruct (Z.leb_spec (Z.of_nat (length (st_bytes t) + length more)) offset); [lia|].
  rewrite drop_app_le by lia. apply until_zero_app.
Qed.

Lemma intern_extends s t : extends t (fst (Intern s t)).
Proof. unfold Intern. destruct s; [done|]. destruct (_ !! _); [done|]. eexists. done. Qed.

(** The table a build ends with: every table before it is a prefix. *)
Definition within (T t : StringTableBuilder) : Prop := extends t T /\ Z.of_nat (length (st_bytes T)) <= UINT32_MAX.

Lemma within_trans T t t' : extends t t' -> within T t' -> within T t.
Proof. intros He [Ht Hl]. split; [by etrans|done]. Qed.

(** An offset under which the final table shows a text. *)
Definition shown (T : StringTableBuilder) (offset : Z) (s : list Z) : Prop := string_at (st_bytes T) offset = Some s /\ in_u32 offset.

Lemma shown_extends t t' offset s : extends t t' -> shown t offset s -> shown t' offset s.
Proof. intros He [Hs Hu]. split; [|done]. eapply string_at_extends; [done| |done]. ulia. Qed.

Lemma intern_spec T s t t' offset : strings_ok t -> text_ok s -> Intern s t = (t', offset) -> within T t' -> strings_ok t' /\ extends t t' /\ shown T offset s.
Proof.
  intros Ht Hs Hi [He Hl]. unfold Intern in Hi. pose proof Ht as [Hb H0 Ho]. destruct s as [|b s]; [|destruct (st_offsets t !! (b :: s)) as [x|] eqn:E].
  - injection Hi as <- <-. split_and!; [done|done|]. eapply shown_extends; [done|]. by split; [|ulia].
  - injection Hi as <- <-. split_and!; [done|done|]. eapply shown_extends; [done|]. by apply Ho.
  - injection Hi as <- <-. set (s' := b :: s) in *. set (t' := MkStrings _ _) in *.
    assert (Hx : extends t t') by (by eexists). assert (Hlen : Z.of_nat (length (st_bytes t)) < UINT32_MAX).
    { destruct He as [more He]. rewrite He, length_app in Hl. cbn in Hl. rewrite length_app in Hl. cbn in Hl. rewrite length_app in Hl. cbn in Hl. lia. }
    assert (Hu : u32 (Z.of_nat (length (st_bytes t))) = Z.of_nat (length (st_bytes t))) by (apply u32_small; ulia).
    assert (Hnew : shown t' (u32 (Z.of_nat (length (st_bytes t)))) s').
    { rewrite Hu. split; [|ulia]. unfold string_at. cbn [st_bytes t']. change (b :: s ++ [0]) with (s' ++ [0]). rewrite (proj2 (Z.leb_gt _ _)) by (rewrite !length_app; cbn; lia).
      rewrite Nat2Z.id, drop_app_length. by apply until_zero_text. }
    split_and!; [|done|by eapply shown_extends]. constructor.
    + cbn. apply Forall_app. split; [done|]. apply (Forall_app _ s' [0]). split; [|by repeat constructor]. eapply Forall_impl; [exact Hs|]. cbn. lia.
    + eapply string_at_extends; [done|lia|done].
    + intros s0 o0. cbn [st_offsets t']. destruct (decide (s0 = s')) as [->|Hne]; [rewrite lookup_insert_eq; by intros [= <-]|]. rewrite lookup_insert_ne by done. intros Hx0. apply (shown_extends t); [done|]. by apply Ho.
Qed.

Lemma new_strings_ok : strings_ok NewStringTable.
Proof.
  constructor; [by repeat constructor|done|]. intros s offset. unfold NewStringTable. cbn. rewrite lookup_singleton_Some. intros [<- <-]. by split.
Qed.

(** ** What the loops collect *)

Lemma fold_extends {S X} (tab : S -> StringTableBuilder) (step : S -> X -> S) xs s : (forall s x, extends (tab s) (tab (step s x))) -> extends (tab s) (tab (fold_left step xs s)).
Proof. intros Hstep. revert s. induction xs as [|x xs IH]; intros s; cbn; [done|]. etrans; [apply Hstep|apply IH]. Qed.

Lemma add_enum_extends tag st e : extends (fst st) (fst (add_enum tag st e)).
Proof.
  destruct st as [t recs]. unfold add_enum. pose proof (intern_extends (ee_value e) t) as H1. destruct (Intern (ee_value e) t) as [t1 v]. pose proof (intern_extends (ee_name e) t1) as H2. destruct (Intern (ee_name e) t1) as [t2 n]. by etrans.
Qed.
Lemma add_field_extends st f : extends (fst (fst st)) (fst (fst (add_field st f))).
Proof.
  destruct st as [[t defs] enums]. unfold add_field. pose proof (intern_extends (df_name f) t) as H1. destruct (Intern (df_name f) t) as [t1 n].
  pose proof (fold_extends fst (add_enum (df_tag f)) (df_enum_values f) (t1, enums) (add_enum_extends _)) as H2. destruct (fold_left _ _ _) as [t2 enums2]. by etrans.
Qed.
Lemma add_message_extends st m : extends (fst (fst st)) (fst (fst (add_message st m))).
Proof.
  destruct st as [[t defs] rules]. unfold add_message. pose proof (intern_extends (dm_msg_type m) t) as H1. destruct (Intern (dm_msg_type m) t) as [t1 n]. pose proof (intern_extends (dm_name m) t1) as H2. destruct (Intern (dm_name m) t1). by etrans.
Qed.
Lemma add_group_extends st g : extends (fst (fst st)) (fst (fst (add_group st g))).
Proof. destruct st as [[t defs] rules]. unfold add_group. destruct (ComputeRequiredFieldBitmap _). pose proof (intern_extends (dg_name g) t) as H1. by destruct (Intern (dg_name g) t). Qed.
Lemma add_admin_extends st m : extends (fst st) (fst (add_admin_rule st m)).
Proof. destruct st as [t rules]. unfold add_admin_rule. destruct (_ =? 0); [done|]. pose proof (intern_extends (dm_msg_type m) t) as H1. by destruct (Intern (dm_msg_type m) t). Qed.
Lemma add_descriptor_extends st m : extends (fst (fst st)) (fst (fst (add_descriptor st m))).
Proof. destruct st as [[t ds] o]. unfold add_descriptor. pose proof (intern_extends (dm_msg_type m) t) as H1. by destruct (Intern (dm_msg_type m) t). Qed.

Lemma word_fits_2 x : in_u16 x -> word_fits 2 x.
Proof. unfold in_u16, word_fits. change (256 ^ Z.of_nat 2) with 65536. lia. Qed.

Lemma word_fits_0 w : word_fits w 0.
Proof. unfold word_fits. split; [lia|]. apply Z.pow_pos_nonneg; lia. Qed.

Ltac words := repeat first [apply List.Forall2_nil | apply List.Forall2_cons]; first [apply word_fits_4; assumption | apply word_fits_0 | idtac].

Section Collected.
Context (T : StringTableBuilder).

Definition enum_ok (e : EnumEntry) : Prop := text_ok (ee_value e) /\ text_ok (ee_name e).
Definition enum_shown (tag : Z) (e : EnumEntry) (r : EnumValueRecord) : Prop :=
  ev_field_tag r = tag /\ shown T (ev_value_offset r) (ee_value e) /\ shown T (ev_name_offset r) (ee_name e).

Lemma enums_fit tag es rs : in_u32 tag -> Forall2 (enum_shown tag) es rs -> Forall pod_fits rs.
Proof. intros Ht. induction 1 as [|e r es rs (E1 & [_ E2] & [_ E3]) _ IH]; constructor; [|done]. subst tag. unfold pod_fits. destruct r. cbn in *. words. Qed.

Lemma enums_collected tag es t recs t' recs' : fold_left (add_enum tag) es (t, recs) = (t', recs') -> strings_ok t -> Forall enum_ok es -> within T t' ->
  strings_ok t' /\ exists new, recs' = recs ++ new /\ Forall2 (enum_shown tag) es new.
Proof.
  intros Hf Ht Hes Hw. revert t recs Ht Hf. induction Hes as [|e es [Hv Hn] Hes IH]; intros t recs Ht Hf.
  - injection Hf as <- <-. split; [done|]. exists []. by rewrite app_nil_r.
  - cbn [fold_left] in Hf. unfold add_enum at 2 in Hf. destruct (Intern (ee_value e) t) as [t1 v] eqn:E1. destruct (Intern (ee_name e) t1) as [t2 n] eqn:E2.
    pose proof (fold_extends fst (add_enum tag) es (t2, recs ++ [MkEnumValue tag v n]) (add_enum_extends tag)) as Hx. rewrite Hf in Hx. cbn in Hx. pose proof (within_trans _ _ _ Hx Hw) as Hw2.
    pose proof (intern_extends (ee_name e) t1) as Hx1. rewrite E2 in Hx1. cbn in Hx1.
    destruct (intern_spec T _ _ _ _ Ht Hv E1 (within_trans _ _ _ Hx1 Hw2)) as (Ht1 & _ & S1). destruct (intern_spec T _ _ _ _ Ht1 Hn E2 Hw2) as (Ht2 & _ & S2).
    destruct (IH t2 _ Ht2 Hf) as (Ht' & new & -> & Hnew). split; [done|]. exists (MkEnumValue tag v n :: new). rewrite <- app_assoc. split; [done|]. by constructor.
Qed.

(** A field and its record; its values are the records from its offset on. *)
Definition field_ok (f : FieldDef) : Prop := text_ok (df_name f) /\ Forall enum_ok (df_enum_values f) /\ Z.of_nat (length (df_enum_values f)) <= UINT16_MAX.
Definition field_shown (f : FieldDef) (r : FieldDefRecord) : Prop :=
  fd_tag r = df_tag f /\ shown T (fd_name_offset r) (df_name f) /\ fd_value_type r = df_value_type f /\ fd_flags r = df_flags f /\ fd_enum_count r = Z.of_nat (length (df_enum_values f)) /\
  fd_enum_count r <= UINT16_MAX /\ in_u32 (fd_enum_offset r).
Definition values_shown (enums : list EnumValueRecord) (f : FieldDef) (r : FieldDefRecord) : Prop :=
  0 <= fd_enum_offset r /\ Forall2 (enum_shown (df_tag f)) (df_enum_values f) (slice enums (Z.to_nat (fd_enum_offset r)) (length (df_enum_values f))).

Lemma fields_collected fs t defs enums t' defs' enums' : fold_left add_field fs (t, defs, enums) = (t', defs', enums') -> strings_ok t -> Forall field_ok fs -> within T t' ->
  Z.of_nat (length enums') <= UINT32_MAX ->
  strings_ok t' /\ exists new more, defs' = defs ++ new /\ enums' = enums ++ more /\ Forall2 field_shown fs new /\ Forall2 (values_shown enums') fs new /\
    (Forall (fun f => in_u32 (df_tag f)) fs -> Forall pod_fits more).
Proof.
  intros Hf Ht Hfs Hw Hlen. revert t defs enums Ht Hf. induction Hfs as [|f fs (Hn & Hv & Hc) Hfs IH]; intros t defs enums Ht Hf.
  - injection Hf as <- <- <-. split; [done|]. exists [], []. by rewrite !app_nil_r.
  - cbn [fold_left] in Hf. unfold add_field at 2 in Hf. destruct (Intern (df_name f) t) as [t1 n] eqn:E1. destruct (fold_left (add_enum (df_tag f)) (df_enum_values f) (t1, enums)) as [t2 enums2] eqn:E2. set (r := MkFieldDef _ _ _ _ _ _) in Hf.
    pose proof (fold_extends (fun s => fst (fst s)) add_field fs (t2, defs ++ [r], enums2) add_field_extends) as Hx. rewrite Hf in Hx. cbn in Hx. pose proof (within_trans _ _ _ Hx Hw) as Hw2.
    pose proof (fold_extends fst (add_enum (df_tag f)) (df_enum_values f) (t1, enums) (add_enum_extends _)) as Hx1. rewrite E2 in Hx1. cbn in Hx1.
    destruct (intern_spec T _ _ _ _ Ht Hn E1 (within_trans _ _ _ Hx1 Hw2)) as (Ht1 & _ & S1). destruct (enums_collected _ _ _ _ _ _ E2 Ht1 Hv Hw2) as (Ht2 & en & -> & Hen).
    destruct (IH t2 _ _ Ht2 Hf) as (Ht' & new & more & -> & He & Hnew & Hvals & Hfit). split; [done|]. exists (r :: new), (en ++ more). rewrite <- !app_assoc. rewrite <- !app_assoc in He. split_and!; [done|done|..].
    + constructor; [|done]. unfold field_shown, r. cbn -[u16 u32]. rewrite u16_small by ulia. split_and!; try done. apply u32_range.
    + constructor; [|done]. pose proof (Forall2_length _ _ _ Hen) as Hl. rewrite He in Hlen. rewrite !length_app in Hlen. unfold values_shown, r. cbn [fd_enum_offset]. rewrite u32_small by ulia. split; [lia|]. rewrite Nat2Z.id, He. unfold slice.
      rewrite drop_app_length, Hl, take_app_length. done.
    + intros [Htag Htags]%Forall_cons. apply Forall_app. split; [by eapply enums_fit|by apply Hfit].
Qed.

Definition message_ok (m : MessageDef) : Prop := text_ok (dm_msg_type m) /\ text_ok (dm_name m).
Definition message_shown (m : MessageDef) (r : MessageDefRecord) : Prop :=
  shown T (msg_type_offset r) (dm_msg_type m) /\ shown T (md_name_offset r) (dm_name m) /\ md_flags r = dm_flags m /\ md_field_rule_count r = Z.of_nat (length (dm_field_rules m)).

(** The range of a definition lies in the rules. *)
Definition range_in {R} (first count : R -> Z) (rules : list FieldRuleRecord) (r : R) : Prop := 0 <= first r /\ 0 <= count r /\ first r + count r <= Z.of_nat (length rules).

(** All rules, one behind the other. *)
Definition all_rules {A} (rules_of : A -> list FieldRule) (l : list A) : list FieldRuleRecord := map rule_record (concat (map rules_of l)).
Lemma all_rules_cons {A} (rules_of : A -> list FieldRule) x l : all_rules rules_of (x :: l) = map rule_record (rules_of x) ++ all_rules rules_of l.
Proof. unfold all_rules. cbn. by rewrite map_app. Qed.

(** The rules of a definition are the records from its first one on. *)
Definition rules_shown {A R} (rules_of : A -> list FieldRule) (first : R -> Z) (rules : list FieldRuleRecord) (a : A) (r : R) : Prop :=
  slice rules (Z.to_nat (first r)) (length (rules_of a)) = map rule_record (rules_of a).

Lemma rules_shown_app {A R} (rules_of : A -> list FieldRule) (first : R -> Z) (before after : list FieldRuleRecord) a r : first r = Z.of_nat (length before) ->
  rules_shown rules_of first (before ++ map rule_record (rules_of a) ++ after) a r.
Proof. intros E. unfold rules_shown, slice. rewrite E, Nat2Z.id, drop_app_length, take_app_length'; [done|]. by rewrite length_map. Qed.

Lemma messages_collected ms t defs rules t' defs' rules' : fold_left add_message ms (t, defs, rules) = (t', defs', rules') -> strings_ok t -> Forall message_ok ms -> within T t' ->
  Z.of_nat (length rules') <= UINT32_MAX ->
  strings_ok t' /\ exists new, defs' = defs ++ new /\ rules' = rules ++ all_rules dm_field_rules ms /\ Forall2 message_shown ms new /\
    consecutive md_first_field_rule md_field_rule_count (Z.of_nat (length rules)) new /\ Forall2 (rules_shown dm_field_rules md_first_field_rule rules') ms new /\ Forall (range_in md_first_field_rule md_field_rule_count rules') new.
Proof.
  intros Hf Ht Hms Hw Hlen. revert t defs rules Ht Hf. induction Hms as [|m ms (Hn & Hv) Hms IH]; intros t defs rules Ht Hf.
  - injection Hf as <- <- <-. split; [done|]. exists []. unfold all_rules. cbn. by rewrite !app_nil_r.
  - cbn [fold_left] in Hf. unfold add_message at 2 in Hf. destruct (Intern (dm_msg_type m) t) as [t1 n] eqn:E1. destruct (Intern (dm_name m) t1) as [t2 n2] eqn:E2. set (r := MkMessageDef _ _ _ _ _) in Hf.
    pose proof (fold_extends (fun s => fst (fst s)) add_message ms (t2, defs ++ [r], rules ++ map rule_record (dm_field_rules m)) add_message_extends) as Hx. rewrite Hf in Hx. cbn in Hx. pose proof (within_trans _ _ _ Hx Hw) as Hw2.
    pose proof (intern_extends (dm_name m) t1) as Hx1. rewrite E2 in Hx1. cbn in Hx1.
    destruct (intern_spec T _ _ _ _ Ht Hn E1 (within_trans _ _ _ Hx1 Hw2)) as (Ht1 & _ & S1). destruct (intern_spec T _ _ _ _ Ht1 Hv E2 Hw2) as (Ht2 & _ & S2).
    destruct (IH t2 _ _ Ht2 Hf) as (Ht' & new & -> & He & Hnew & Hc & Hr & Hin). split; [done|]. exists (r :: new). rewrite all_rules_cons. rewrite <- !app_assoc. rewrite <- app_assoc in He.
    pose proof (f_equal length He) as Hl. rewrite !length_app, length_map in Hl. rewrite length_app, length_map, Nat2Z.inj_add in Hc.
    assert (R1 : md_first_field_rule r = Z.of_nat (length rules)) by (unfold r; cbn; apply u32_small; ulia). assert (R2 : md_field_rule_count r = Z.of_nat (length (dm_field_rules m))) by (unfold r; cbn; apply u32_small; ulia).
    split_and!; [done|done|..].
    + constructor; [|done]. by split_and!.
    + cbn [consecutive]. rewrite R1, R2. split_and!; [done|lia|done].
    + constructor; [|done]. rewrite He. by apply rules_shown_app.
    + constructor; [|done]. unfold range_in. rewrite R1, R2. lia.
Qed.

Definition group_shown (g : GroupDef) (r : GroupDefRecord) : Prop :=
  count_tag r = dg_count_tag g /\ delimiter_tag r = dg_delimiter_tag g /\ shown T (gd_name_offset r) (dg_name g) /\
  gd_flags r = Z.lor (dg_flags g) (if snd (ComputeRequiredFieldBitmap (dg_field_rules g)) then kRequiredBitmapOverflow else 0) /\
  required_field_bitmap r = fst (ComputeRequiredFieldBitmap (dg_field_rules g)) /\ gd_field_rule_count r = Z.of_nat (length (dg_field_rules g)).

Lemma groups_collected gs t defs rules t' defs' rules' : fold_left add_group gs (t, defs, rules) = (t', defs', rules') -> strings_ok t -> Forall (fun g => text_ok (dg_name g)) gs -> within T t' ->
  Z.of_nat (length rules') <= UINT32_MAX ->
  strings_ok t' /\ exists new, defs' = defs ++ new /\ rules' = rules ++ all_rules dg_field_rules gs /\ Forall2 group_shown gs new /\
    consecutive gd_first_field_rule gd_field_rule_count (Z.of_nat (length rules)) new /\ Forall2 (rules_shown dg_field_rules gd_first_field_rule rules') gs new /\ Forall (range_in gd_first_field_rule gd_field_rule_count rules') new.
Proof.
  intros Hf Ht Hgs Hw Hlen. revert t defs rules Ht Hf. induction Hgs as [|g gs Hn Hgs IH]; intros t defs rules Ht Hf.
  - injection Hf as <- <- <-. split; [done|]. exists []. unfold all_rules. cbn. by rewrite !app_nil_r.
  - cbn [fold_left] in Hf. unfold add_group at 2 in Hf. destruct (ComputeRequiredFieldBitmap (dg_field_rules g)) as [bm ov] eqn:Eb. destruct (Intern (dg_name g) t) as [t1 n] eqn:E1. set (r := MkGroupDef _ _ _ _ _ _ _) in Hf.
    pose proof (fold_extends (fun s => fst (fst s)) add_group gs (t1, defs ++ [r], rules ++ map rule_record (dg_field_rules g)) add_group_extends) as Hx. rewrite Hf in Hx. cbn in Hx. pose proof (within_trans _ _ _ Hx Hw) as Hw1.
    destruct (intern_spec T _ _ _ _ Ht Hn E1 Hw1) as (Ht1 & _ & S1).
    destruct (IH t1 _ _ Ht1 Hf) as (Ht' & new & -> & He & Hnew & Hc & Hr & Hin). split; [done|]. exists (r :: new). rewrite all_rules_cons. rewrite <- !app_assoc. rewrite <- app_assoc in He.
    pose proof (f_equal length He) as Hl. rewrite !length_app, length_map in Hl. rewrite length_app, length_map, Nat2Z.inj_add in Hc.
    assert (R1 : gd_first_field_rule r = Z.of_nat (length rules)) by (unfold r; cbn; apply u32_small; ulia). assert (R2 : gd_field_rule_count r = Z.of_nat (length (dg_field_rules g))) by (unfold r; cbn; apply u32_small; ulia).
    split_and!; [done|done|..].
    + constructor; [|done]. unfold group_shown. rewrite Eb. by split_and!.
    + cbn [consecutive]. rewrite R1, R2. split_and!; [done|lia|done].
    + constructor; [|done]. rewrite He. by apply rules_shown_app.
    + constructor; [|done]. unfold range_in. rewrite R1, R2. lia.
Qed.

(** The two loops that only intern message types that are in the table. *)
Lemma strings_kept {S X} (tab : S -> StringTableBuilder) (step : S -> X -> S) xs s (name : X -> list Z) : strings_ok (tab s) -> Forall (fun x => text_ok (name x)) xs ->
  (forall s x, extends (tab s) (tab (step s x))) -> (forall s x, tab (step s x) = tab s \/ tab (step s x) = fst (Intern (name x) (tab s))) -> within T (tab (fold_left step xs s)) -> strings_ok (tab (fold_left step xs s)).
Proof.
  intros Hs Hxs Hext Hstep. revert s Hs. induction Hxs as [|x xs Hx Hxs IH]; intros s Hs Hw; cbn in *; [done|]. apply IH; [|done]. destruct (Hstep s x) as [E|E]; [by rewrite E|]. rewrite E.
  pose proof (fold_extends tab step xs (step s x) Hext) as He. pose proof (within_trans _ _ _ He Hw) as Hw1. rewrite E in Hw1. destruct (Intern (name x) (tab s)) as [t' off] eqn:Ei. by destruct (intern_spec T _ _ _ _ Hs Hx Ei Hw1).
Qed.
End Collected.

(** ** The dictionary comes back *)

Definition rule_ok (r : FieldRule) : Prop := in_u32 (rule_tag r) /\ in_u32 (rule_flags r).

(** A dictionary an artifact can hold: it passes the validation of the builder, its
    texts have no zero byte, its numbers have their widths, no list of rules names a tag
    twice, and what it is made of fits the offsets and counts of the format. *)
Record dictionary_ok (d : NormalizedDictionary) : Prop := {
  dok_valid : ValidateDictionary d = status.Ok;
  dok_fields : Forall (fun f => field_ok f /\ in_u32 (df_tag f) /\ in_u32 (df_value_type f) /\ in_u32 (df_flags f)) (nd_fields d);
  dok_messages : Forall (fun m => message_ok m /\ in_u32 (dm_flags m) /\ NoDup (map rule_tag (dm_field_rules m))) (nd_messages d);
  dok_groups : Forall (fun g => text_ok (dg_name g) /\ in_u32 (dg_count_tag g) /\ in_u32 (dg_delimiter_tag g) /\ in_u32 (dg_flags g) /\ NoDup (map rule_tag (dg_field_rules g))) (nd_groups d);
  dok_rules : Forall rule_ok (concat (map dm_field_rules (nd_messages d)) ++ concat (map dg_field_rules (nd_groups d)) ++ nd_header_fields d ++ nd_trailer_fields d);
  dok_words : in_u64 (nd_schema_hash d) /\ in_u64 (nd_profile_id d);
  dok_field_count : Z.of_nat (length (nd_fields d)) <= kNoEntry;
  dok_strings : Z.of_nat (length (st_bytes (co_strings (collect d)))) <= UINT32_MAX;
  dok_enums : Z.of_nat (length (co_enums (collect d))) <= UINT32_MAX;
  dok_message_rules : Z.of_nat (length (co_message_rules (collect d))) <= UINT32_MAX;
  dok_group_rules : Z.of_nat (length (co_group_rules (collect d))) <= UINT32_MAX;
  dok_size : kHeaderSize + 13 * kSectionSize + Z.of_nat (length (concat (map ps_bytes (pending_sections d (collect d))))) <= UINT64_MAX;
}.

Lemma has_duplicates_false {K} `{EqDecision K} (l : list K) : has_duplicates l = false -> NoDup l.
Proof. induction l as [|x l IH]; cbn; [constructor|]. intros [Hx Hl]%orb_false_iff. apply bool_decide_eq_false in Hx. constructor; auto. Qed.

Lemma validate_unique d : ValidateDictionary d = status.Ok -> NoDup (map df_tag (nd_fields d)) /\ NoDup (map dm_msg_type (nd_messages d)) /\ NoDup (map dg_count_tag (nd_groups d)).
Proof. unfold ValidateDictionary. destruct (has_duplicates _) eqn:E1; [done|]. destruct (has_duplicates (map dm_msg_type _)) eqn:E2; [done|]. destruct (has_duplicates (map dg_count_tag _)) eqn:E3; [done|]. intros _. by split_and!; apply has_duplicates_false. Qed.

Lemma lor_range n a b : 0 < n -> 0 <= a < 2 ^ n -> 0 <= b < 2 ^ n -> 0 <= Z.lor a b < 2 ^ n.
Proof.
  intros Hn Ha Hb. assert (Hpos : 0 <= Z.lor a b) by (apply Z.lor_nonneg; lia). split; [done|]. destruct (Z.eq_dec (Z.lor a b) 0) as [->|Hne]; [apply Z.pow_pos_nonneg; lia|].
  assert (Hl : forall x, 0 <= x < 2 ^ n -> Z.log2 x < n) by (intros x Hx; destruct (Z.eq_dec x 0) as [->|]; [done|apply Z.log2_lt_pow2; lia]).
  apply Z.log2_lt_pow2; [lia|]. rewrite Z.log2_lor by lia. apply Z.max_lub_lt; auto.
Qed.

Lemma bitmap_range rules : forall i b o, 0 <= i -> 0 <= b < 2 ^ 64 -> 0 <= fst (required_bitmap rules i b o) < 2 ^ 64.
Proof.
  induction rules as [|r rules IH]; intros i b o Hi Hb; cbn [required_bitmap]; [done|]. destruct (_ =? 0); [apply IH; lia|]. destruct (Z.leb_spec 64 i); [apply IH; lia|]. apply IH; [lia|].
  apply lor_range; [lia|done|]. rewrite Z.shiftl_1_l. split; [apply Z.pow_nonneg; lia|apply Z.pow_lt_mono_r; lia].
Qed.

Lemma u32_lor a b : in_u32 a -> 0 <= b <= 2 -> in_u32 (Z.lor a b).
Proof. intros Ha Hb. pose proof (lor_range 32 a b). change (2 ^ 32) with 4294967296 in *. ulia. Qed.

Lemma rules_fit rs : Forall rule_ok rs -> Forall pod_fits (map rule_record rs).
Proof. intros Hr. rewrite Forall_map. eapply Forall_impl; [exact Hr|]. intros r [H1 H2]. unfold pod_fits. cbn. words. Qed.

Section Shown.
Context (T : StringTableBuilder).

Lemma fields_fit fs rs : Forall2 (field_shown T) fs rs -> Forall (fun f => field_ok f /\ in_u32 (df_tag f) /\ in_u32 (df_value_type f) /\ in_u32 (df_flags f)) fs -> Forall pod_fits rs.
Proof.
  induction 1 as [|f r fs rs (E1 & [_ E2] & E3 & E4 & E5 & E6 & E7) _ IH]; intros Hf; constructor; apply Forall_cons in Hf as [(_ & F1 & F2 & F3) Hf]; [|by apply IH].
  rewrite <- E1 in F1. rewrite <- E3 in F2. rewrite <- E4 in F3. unfold pod_fits. destruct r. cbn in *. words. apply word_fits_2. ulia.
Qed.

Lemma messages_fit ms rs rules : Forall2 (message_shown T) ms rs -> Forall (fun m => message_ok m /\ in_u32 (dm_flags m) /\ NoDup (map rule_tag (dm_field_rules m))) ms ->
  Forall (range_in md_first_field_rule md_field_rule_count rules) rs -> Z.of_nat (length rules) <= UINT32_MAX -> Forall pod_fits rs.
Proof.
  intros Hs Hm Hr Hl. induction Hs as [|m r ms rs ([_ E1] & [_ E2] & E3 & E4) _ IH]; constructor; apply Forall_cons in Hm as [(_ & F1 & _) Hm]; apply Forall_cons in Hr as [(G1 & G2 & G3) Hr]; [|by apply IH].
  rewrite <- E3 in F1. unfold pod_fits. destruct r. cbn in *. words; apply word_fits_4; ulia.
Qed.

Lemma groups_fit gs rs rules : Forall2 (group_shown T) gs rs ->
  Forall (fun g => text_ok (dg_name g) /\ in_u32 (dg_count_tag g) /\ in_u32 (dg_delimiter_tag g) /\ in_u32 (dg_flags g) /\ NoDup (map rule_tag (dg_field_rules g))) gs ->
  Forall (range_in gd_first_field_rule gd_field_rule_count rules) rs -> Z.of_nat (length rules) <= UINT32_MAX -> Forall pod_fits rs.
Proof.
  intros Hs Hg Hr Hl. induction Hs as [|g r gs rs (E1 & E2 & [_ E3] & E4 & E5 & E6) _ IH]; constructor; apply Forall_cons in Hg as [(_ & F1 & F2 & F3 & _) Hg]; apply Forall_cons in Hr as [(G1 & G2 & G3) Hr]; [|by apply IH].
  pose proof (bitmap_range (dg_field_rules g) 0 0 false ltac:(lia) ltac:(lia)) as Hb. fold (ComputeRequiredFieldBitmap (dg_field_rules g)) in Hb. rewrite <- E5 in Hb. rewrite <- E1 in F1. rewrite <- E2 in F2.
  assert (F4 : in_u32 (gd_flags r)) by (rewrite E4; apply u32_lor; [done|]; destruct (snd _); unfold kRequiredBitmapOverflow; lia). unfold pod_fits. destruct r. cbn in *. words; first [apply word_fits_4; ulia|apply word_fits_8; ulia|idtac].
Qed.
End Shown.

(** What is collected from a dictionary, in terms of the final string table. *)
Record collected_ok (d : NormalizedDictionary) (c : Collected) : Prop := {
  cok_strings : strings_ok (co_strings c);
  cok_fields : Forall2 (field_shown (co_strings c)) (nd_fields d) (co_fields c);
  cok_values : Forall2 (values_shown (co_strings c) (co_enums c)) (nd_fields d) (co_fields c);
  cok_enums : Forall pod_fits (co_enums c);
  cok_messages : Forall2 (message_shown (co_strings c)) (nd_messages d) (co_messages c);
  cok_message_ranges : consecutive md_first_field_rule md_field_rule_count 0 (co_messages c);
  cok_message_rules : Forall2 (rules_shown dm_field_rules md_first_field_rule (co_message_rules c)) (nd_messages d) (co_messages c);
  cok_message_rule_list : co_message_rules c = all_rules dm_field_rules (nd_messages d);
  cok_messages_in : Forall (range_in md_first_field_rule md_field_rule_count (co_message_rules c)) (co_messages c);
  cok_groups : Forall2 (group_shown (co_strings c)) (nd_groups d) (co_groups c);
  cok_group_ranges : consecutive gd_first_field_rule gd_field_rule_count 0 (co_groups c);
  cok_group_rules : Forall2 (rules_shown dg_field_rules gd_first_field_rule (co_group_rules c)) (nd_groups d) (co_groups c);
  cok_group_rule_list : co_group_rules c = all_rules dg_field_rules (nd_groups d);
  cok_groups_in : Forall (range_in gd_first_field_rule gd_field_rule_count (co_group_rules c)) (co_groups c);
}.

Lemma Forall_first {A} (P Q : A -> Prop) l : Forall (fun x => P x /\ Q x) l -> Forall P l.
Proof. intros Hl. eapply Forall_impl; [exact Hl|]. by intros x [? _]. Qed.

Lemma collected d : dictionary_ok d -> collected_ok d (collect d).
Proof.
  intros Hd. pose proof (dok_strings d Hd) as HT. pose proof (dok_enums d Hd) as HE. pose proof (dok_message_rules d Hd) as HM. pose proof (dok_group_rules d Hd) as HG. unfold collect in *.
  destruct (fold_left add_field (nd_fields d) _) as [[t1 fields] enums] eqn:E1. destruct (fold_left add_message (nd_messages d) _) as [[t2 messages] mrules] eqn:E2.
  destruct (fold_left add_group (nd_groups d) _) as [[t3 groups] grules] eqn:E3. destruct (fold_left add_admin_rule (nd_messages d) _) as [t4 admin] eqn:E4.
  destruct (fold_left add_descriptor (nd_messages d) _) as [[T descriptors] off] eqn:E5. cbn [co_strings co_enums co_message_rules co_group_rules] in *.
  pose proof (fold_extends (fun s => fst (fst s)) add_descriptor (nd_messages d) (t4, [], 0) add_descriptor_extends) as X5. rewrite E5 in X5. cbn in X5.
  pose proof (fold_extends fst add_admin_rule (nd_messages d) (t3, []) add_admin_extends) as X4. rewrite E4 in X4. cbn in X4.
  pose proof (fold_extends (fun s => fst (fst s)) add_group (nd_groups d) (t2, [], []) add_group_extends) as X3. rewrite E3 in X3. cbn in X3.
  pose proof (fold_extends (fun s => fst (fst s)) add_message (nd_messages d) (t1, [], []) add_message_extends) as X2. rewrite E2 in X2. cbn in X2.
  assert (W5 : within T T) by (by split). pose proof (within_trans _ _ _ X5 W5) as W4. pose proof (within_trans _ _ _ X4 W4) as W3. pose proof (within_trans _ _ _ X3 W3) as W2. pose proof (within_trans _ _ _ X2 W2) as W1.
  pose proof (Forall_first _ _ _ (dok_fields d Hd)) as Hf. pose proof (Forall_first _ _ _ (dok_messages d Hd)) as Hm. pose proof (Forall_first _ _ _ (dok_groups d Hd)) as Hg.
  assert (Ht : Forall (fun m => text_ok (dm_msg_type m)) (nd_messages d)) by (eapply Forall_first; exact Hm).
  destruct (fields_collected T _ _ _ _ _ _ _ E1 new_strings_ok Hf W1 HE) as (S1 & fnew & fmore & -> & Ee & F1 & F2 & F3).
  destruct (messages_collected T _ _ _ _ _ _ _ E2 S1 Hm W2 HM) as (S2 & mnew & -> & Em & M1 & M2 & M3 & M4).
  destruct (groups_collected T _ _ _ _ _ _ _ E3 S2 Hg W3 HG) as (S3 & gnew & -> & Eg & G1 & G2 & G3 & G4).
  assert (S4 : strings_ok t4).
  { change t4 with (fst (t4, admin)). rewrite <- E4. apply (strings_kept T fst add_admin_rule (nd_messages d) (t3, []) dm_msg_type); [done|done|apply add_admin_extends| |by rewrite E4].
    intros [t r] m. unfold add_admin_rule. destruct (_ =? 0); [by left|right]. cbn. by destruct (Intern _ _). }
  assert (S5 : strings_ok T).
  { change T with (fst (fst (T, descriptors, off))). rewrite <- E5. apply (strings_kept T (fun s => fst (fst s)) add_descriptor (nd_messages d) (t4, [], 0) dm_msg_type); [done|done|apply add_descriptor_extends| |by rewrite E5].
    intros [[t r] o] m. right. cbn. by destruct (Intern _ _). }
  constructor; cbn; try done. rewrite Ee. apply F3. eapply Forall_impl; [exact (dok_fields d Hd)|]. by intros f (_ & ? & _).
Qed.

Section Loaded.
Context {S0 : SortAlgorithm (fun r : Z * Z => r)} (d : NormalizedDictionary) (Hd : dictionary_ok d).

Lemma loads : LoadProfileFromDictionary d = Value (assemble d (pending_sections d (collect d))).
Proof.
  unfold LoadProfileFromDictionary, BuildProfileArtifact. rewrite (dok_valid d Hd). cbn [status.ok negb status.Ok]. destruct (dok_words d Hd) as [Hh Hi].
  apply validate_built; [| |cbn; ulia|exact (dok_size d Hd)|done|done].
  - unfold pending_sections. constructor; [|repeat (constructor; [apply entries_whole; cbn; lia|]); constructor]. unfold whole_section. cbn. ulia.
  - repeat constructor; cbn; unfold word_fits; vm_compute; done.
Qed.

Lemma sections_loaded c : collected_ok d c -> Z.of_nat (length (co_message_rules c)) <= UINT32_MAX -> Z.of_nat (length (co_group_rules c)) <= UINT32_MAX ->
  profile_sections (assemble d (pending_sections d c)) =
  MkProfile (Some (st_bytes (co_strings c))) (Some (co_fields c)) (Some (co_messages c)) (Some (co_groups c)) (Some (co_message_rules c)) (Some (co_group_rules c))
    (Some (map rule_record (nd_header_fields d))) (Some (map rule_record (nd_trailer_fields d))) (Some (co_enums c)).
Proof.
  intros [] HM HG. pose proof (dok_rules d Hd) as Hr. apply Forall_app in Hr as [R1 Hr]. apply Forall_app in Hr as [R2 Hr]. apply Forall_app in Hr as [R3 R4].
  assert (Hfixed : forall A (P : Pod A) (PS : PodSpec A) kind (entries : list A) i, pending_sections d c !! i = Some (entries_section kind entries) -> kind ∉ map ps_kind (take i (pending_sections d c)) ->
    Forall pod_fits entries -> fixed_section A (assemble d (pending_sections d c)) kind = Some entries).
  { intros A P PS kind entries i Hi Hk Hf. exact (fixed_built d _ _ _ _ (eq_sym (take_drop_middle _ _ _ Hi)) Hk kind entries eq_refl Hf). }
  unfold profile_sections. f_equal.
  - apply (bytes_built d (pending_sections d c) [] (drop 1 (pending_sections d c)) (MkPendingSection SectionKind.kStringTable (st_bytes (co_strings c)) (Z.of_nat (length (st_bytes (co_strings c)))) 1)); [done|apply not_elem_of_nil|done].
  - apply (Hfixed _ _ _ _ _ 1%nat); [done|by apply (bool_decide_unpack _)|by eapply fields_fit; [|apply Hd]].
  - apply (Hfixed _ _ _ _ _ 2%nat); [done|by apply (bool_decide_unpack _)|by eapply messages_fit; [|apply Hd|..]].
  - apply (Hfixed _ _ _ _ _ 3%nat); [done|by apply (bool_decide_unpack _)|by eapply groups_fit; [|apply Hd|..]].
  - apply (Hfixed _ _ _ _ _ 4%nat); [done|by apply (bool_decide_unpack _)|]. rewrite cok_message_rule_list0. by apply rules_fit.
  - apply (Hfixed _ _ _ _ _ 5%nat); [done|by apply (bool_decide_unpack _)|]. rewrite cok_group_rule_list0. by apply rules_fit.
  - apply (Hfixed _ _ _ _ _ 10%nat); [done|by apply (bool_decide_unpack _)|]. by apply rules_fit.
  - apply (Hfixed _ _ _ _ _ 11%nat); [done|by apply (bool_decide_unpack _)|]. by apply rules_fit.
  - apply (Hfixed _ _ _ _ _ 12%nat); [done|by apply (bool_decide_unpack _)|done].
Qed.

(** *** The dictionary view *)

Definition loaded_profile (c : Collected) : LoadedProfile :=
  MkProfile (Some (st_bytes (co_strings c))) (Some (co_fields c)) (Some (co_messages c)) (Some (co_groups c)) (Some (co_message_rules c)) (Some (co_group_rules c))
    (Some (map rule_record (nd_header_fields d))) (Some (map rule_record (nd_trailer_fields d))) (Some (co_enums c)).

Lemma Forall2_map_eq {A B K} (f : A -> K) (g : B -> K) l l' : Forall2 (fun a b => g b = f a) l l' -> map g l' = map f l.
Proof. induction 1; cbn; congruence. Qed.

Lemma Forall2_right {A B} (P : B -> Prop) (R : A -> B -> Prop) l l' : Forall2 R l l' -> (forall a b, a ∈ l -> R a b -> P b) -> Forall P l'.
Proof.
  induction 1 as [|a b l l' Hab Hl IH]; intros Hp; constructor; [eapply Hp; [by left|done]|]. apply IH. intros a' b' Ha. apply Hp. by right.
Qed.

Lemma Forall2_source {A B} (R : A -> B -> Prop) l l' b : Forall2 R l l' -> b ∈ l' -> exists a, a ∈ l /\ R a b.
Proof.
  induction 1 as [|x y l l' Hxy Hl IH]; [by intros ?%not_elem_of_nil|]. intros [->|Hb]%elem_of_cons; [exists x; split; [left|done]|]. destruct (IH Hb) as (a & Ha & ?). exists a. split; [by right|done].
Qed.

Lemma shown_valid T offset s label : shown T offset s -> ValidateStringOffset (st_bytes T) offset label = status.Ok.
Proof. intros [E _]. unfold ValidateStringOffset. by rewrite E. Qed.

Lemma rule_range_valid {R} (first count : R -> Z) rules r label : range_in first count rules r -> ValidateFieldRuleRange (first r) (count r) (Z.of_nat (length rules)) label = status.Ok.
Proof. intros (R1 & R2 & R3). unfold ValidateFieldRuleRange. rewrite !Z.gtb_ltb. destruct (Z.ltb_spec (Z.of_nat (length rules)) (first r)); [lia|]. destruct (Z.ltb_spec (Z.of_nat (length rules) - first r) (count r)); [lia|done]. Qed.

Lemma profile_loaded_ok c : collected_ok d c -> profile_ok (loaded_profile c).
Proof.
  intros []. destruct (validate_unique d (dok_valid d Hd)) as (U1 & U2 & U3). constructor; cbn [from_option id loaded_profile p_field_defs p_group_defs p_message_defs p_string_table p_message_field_rules p_group_field_rules]; try done.
  - change (fmap ?f ?l) with (map f l). rewrite (Forall2_map_eq df_tag fd_tag (nd_fields d)); [done|]. eapply Forall2_impl; [exact cok_fields0|]. by intros f r (-> & _).
  - eapply (Forall2_right _ _ _ _ cok_fields0). intros f r Hf (-> & _). pose proof (dok_fields d Hd) as Hall. rewrite Forall_forall in Hall. destruct (Hall f Hf) as (_ & Ht & _). ulia.
  - rewrite <- (Forall2_length _ _ _ cok_fields0). apply Hd.
  - change (fmap ?f ?l) with (map f l). rewrite (Forall2_map_eq dg_count_tag count_tag (nd_groups d)); [done|]. eapply Forall2_impl; [exact cok_groups0|]. by intros f r (-> & _).
  - eapply (Forall2_right _ _ _ _ cok_groups0). intros f r Hf (-> & _). pose proof (dok_groups d Hd) as Hall. rewrite Forall_forall in Hall. destruct (Hall f Hf) as (_ & Ht & _). ulia.
  - assert (E : omap (fun m => string_at (st_bytes (co_strings c)) (msg_type_offset m)) (co_messages c) = map dm_msg_type (nd_messages d)); [|by rewrite E].
    clear -cok_messages0. induction cok_messages0 as [|m r ms rs ([E _] & _) _ IH]; cbn; [done|]. rewrite E. cbn. by rewrite IH.
  - clear -Hd cok_messages0 cok_message_rules0. pose proof (dok_messages d Hd) as Hall. revert Hall. generalize dependent (co_messages c). induction (nd_messages d) as [|m ms IH]; intros rs H1 H2 Hall; inversion H1 as [|? r ? rs' (_ & _ & _ & E) H1']; subst; constructor; inversion H2 as [|? ? ? ? E2 H2']; subst; apply Forall_cons in Hall as [(_ & _ & Hn) Hall]; [|by apply IH].
    rewrite E, Nat2Z.id. rewrite E2. change (fmap ?f ?l) with (map f l). by rewrite map_map.
  - clear -Hd cok_groups0 cok_group_rules0. pose proof (dok_groups d Hd) as Hall. revert Hall. generalize dependent (co_groups c). induction (nd_groups d) as [|m ms IH]; intros rs H1 H2 Hall; inversion H1 as [|? r ? rs' (_ & _ & _ & _ & _ & E) H1']; subst; constructor; inversion H2 as [|? ? ? ? E2 H2']; subst; apply Forall_cons in Hall as [(_ & _ & _ & _ & Hn) Hall]; [|by apply IH].
    rewrite E, Nat2Z.id. rewrite E2. change (fmap ?f ?l) with (map f l). by rewrite map_map.
  - eapply (Forall2_right _ _ _ _ cok_fields0). intros f r _ (_ & _ & _ & _ & -> & _ & Ho). split; ulia.
  - apply cok_strings0.
Qed.

Context {S1 : SortAlgorithm ti_key} {S2 : SortAlgorithm mi_msg_type} {S3 : SortAlgorithm tr_tag}.

Lemma view_loaded c : collected_ok d c -> exists v, FromProfile (loaded_profile c) = Value v /\ string_table_ v = st_bytes (co_strings c) /\ field_defs_ v = co_fields c /\ message_defs_ v = co_messages c /\
  group_defs_ v = co_groups c /\ message_field_rules_ v = co_message_rules c /\ group_field_rules_ v = co_group_rules c /\
  header_field_rules_ v = map rule_record (nd_header_fields d) /\ trailer_field_rules_ v = map rule_record (nd_trailer_fields d) /\ enum_values_ v = co_enums c.
Proof.
  intros []. unfold FromProfile. cbn [loaded_profile p_string_table p_field_defs p_message_defs p_group_defs p_message_field_rules p_group_field_rules p_enum_values p_header_field_rules p_trailer_field_rules from_option id].
  rewrite !bool_decide_false, !andb_false_r by done. rewrite first_failure_all_ok.
  - unfold and_then at 1. cbn [status.ok status.Ok]. rewrite first_failure_all_ok.
    + unfold and_then at 1. cbn [status.ok status.Ok]. rewrite first_failure_all_ok.
      * cbn [status.ok status.Ok negb]. eexists. by split_and!.
      * apply Forall_forall. intros r Hr. unfold validate_group_def, and_then. rewrite Forall_forall in cok_groups_in0. specialize (cok_groups_in0 r Hr).
        destruct (Forall2_source _ _ _ _ cok_groups0 Hr) as (g & _ & (_ & _ & Hs & _)). rewrite (shown_valid _ _ _ _ Hs). cbn. by apply rule_range_valid.
    + apply Forall_forall. intros r Hr. unfold validate_message_def, and_then. rewrite Forall_forall in cok_messages_in0. specialize (cok_messages_in0 r Hr).
      destruct (Forall2_source _ _ _ _ cok_messages0 Hr) as (m & _ & (Ht & Hs & _)). rewrite (shown_valid _ _ _ _ Hs), (shown_valid _ _ _ _ Ht). cbn. by apply rule_range_valid.
  - apply Forall_forall. intros r Hr. destruct (Forall2_source _ _ _ _ cok_fields0 Hr) as (f & _ & (_ & Hs & _)). by apply (shown_valid _ _ _ _ Hs).
Qed.
End Loaded.

(** A search by key in records that show a list without duplicate keys. *)
Lemma find_record_shown {X R K} (rel : X -> R -> Prop) (key : X -> K) (pred : K -> R -> bool) l l' : Forall2 rel l l' -> (forall x r k, rel x r -> pred k r = true <-> key x = k) -> NoDup (map key l) ->
  (forall x, x ∈ l -> exists r, List.find (pred (key x)) l' = Some r /\ rel x r) /\ (forall k, k ∉ map key l -> List.find (pred k) l' = None).
Proof.
  intros Hall Hpred. induction Hall as [|x r l l' Hxr Hall IH]; intros Hnd; [split; [by intros ? ?%not_elem_of_nil|done]|]. cbn in Hnd. apply NoDup_cons in Hnd as [Hx Hnd]. destruct (IH Hnd) as [IH1 IH2]. cbn. split.
  - intros y [->|Hy]%elem_of_cons.
    + rewrite (proj2 (Hpred x r (key x) Hxr) eq_refl). by exists r.
    + destruct (pred (key y) r) eqn:E; [|by apply IH1]. apply (Hpred _ _ _ Hxr) in E. exfalso. apply Hx. rewrite E. by apply (list_elem_of_fmap_2 key).
  - intros k [Hk Hks]%not_elem_of_cons. destruct (pred k r) eqn:E; [|by apply IH2]. apply (Hpred _ _ _ Hxr) in E. congruence.
Qed.

Lemma Forall2_both {A B} (P Q : A -> B -> Prop) l l' : Forall2 P l l' -> Forall2 Q l l' -> Forall2 (fun a b => P a b /\ Q a b) l l'.
Proof. induction 1; inversion 1; subst; constructor; auto. Qed.

(** What the view shows of a field, a message and a group of the dictionary. *)
Definition view_text (v : NormalizedDictionaryView) (offset : Z) : option (list Z) := string_at (string_table_ v) offset.

Definition views_field (v : NormalizedDictionaryView) (f : FieldDef) : Prop :=
  exists r, find_field v (df_tag f) = Some r /\ fd_tag r = df_tag f /\ view_text v (fd_name_offset r) = Some (df_name f) /\ fd_value_type r = df_value_type f /\ fd_flags r = df_flags f /\
    Forall2 (fun e x => view_text v (ev_value_offset x) = Some (ee_value e) /\ view_text v (ev_name_offset x) = Some (ee_name e)) (df_enum_values f) (enum_range (enum_values_ v) r).

Definition views_message (v : NormalizedDictionaryView) (m : MessageDef) : Prop :=
  exists r, find_message v (dm_msg_type m) = Some r /\ view_text v (md_name_offset r) = Some (dm_name m) /\ md_flags r = dm_flags m /\ message_field_rules v r = map rule_record (dm_field_rules m).

Definition views_group (v : NormalizedDictionaryView) (g : GroupDef) : Prop :=
  exists r, find_group v (dg_count_tag g) = Some r /\ count_tag r = dg_count_tag g /\ delimiter_tag r = dg_delimiter_tag g /\ view_text v (gd_name_offset r) = Some (dg_name g) /\
    gd_flags r = Z.lor (dg_flags g) (if snd (ComputeRequiredFieldBitmap (dg_field_rules g)) then kRequiredBitmapOverflow else 0) /\
    required_field_bitmap r = fst (ComputeRequiredFieldBitmap (dg_field_rules g)) /\ group_field_rules v r = map rule_record (dg_field_rules g).

Section RoundTrip.
Context {S0 : SortAlgorithm (fun r : Z * Z => r)} {S1 : SortAlgorithm ti_key} {S2 : SortAlgorithm mi_msg_type} {S3 : SortAlgorithm tr_tag}.

Lemma view_fields d c v : dictionary_ok d -> collected_ok d c -> string_table_ v = st_bytes (co_strings c) -> field_defs_ v = co_fields c -> enum_values_ v = co_enums c -> (forall tag, find_field v tag = scan_field v tag) ->
  Forall (views_field v) (nd_fields d) /\ forall tag, tag ∉ map df_tag (nd_fields d) -> find_field v tag = None.
Proof.
  intros Hd [] E1 E2 E3 Hfind. destruct (validate_unique d (dok_valid d Hd)) as (U1 & _).
  destruct (find_record_shown _ df_tag (fun k r => fd_tag r =? k) _ _ (Forall2_both _ _ _ _ cok_fields0 cok_values0)) as [F1 F2]; [|done|].
  { intros f r k [(E & _) _]. rewrite Z.eqb_eq, E. done. }
  split; [|intros tag Ht; rewrite Hfind; unfold scan_field; rewrite E2; by apply F2]. apply Forall_forall. intros f Hf. destruct (F1 f Hf) as (r & Hr & (A1 & [A2 _] & A3 & A4 & A5 & _ & _) & [_ A6]). exists r. unfold view_text. rewrite E1.
  split_and!; try done; [rewrite Hfind; unfold scan_field; by rewrite E2|]. unfold enum_range. rewrite E3, A5, Nat2Z.id. eapply Forall2_impl; [exact A6|]. by intros e x (_ & [X1 _] & [X2 _]).
Qed.

Lemma view_messages d c v : dictionary_ok d -> collected_ok d c -> string_table_ v = st_bytes (co_strings c) -> message_defs_ v = co_messages c -> message_field_rules_ v = co_message_rules c -> (forall t, find_message v t = scan_message v t) ->
  Forall (views_message v) (nd_messages d) /\ forall t, t ∉ map dm_msg_type (nd_messages d) -> find_message v t = None.
Proof.
  intros Hd [] E1 E2 E3 Hfind. destruct (validate_unique d (dok_valid d Hd)) as (_ & U2 & _).
  destruct (find_record_shown _ dm_msg_type (fun k r => match string_at (string_table_ v) (msg_type_offset r) with Some t => bool_decide (t = k) | None => false end) _ _ (Forall2_both _ _ _ _ cok_messages0 cok_message_rules0)) as [F1 F2]; [|done|].
  { intros m r k [([E _] & _) _]. rewrite E1, E. by rewrite bool_decide_eq_true. }
  split; [|intros t Ht; rewrite Hfind; unfold scan_message; rewrite E2; by apply F2]. apply Forall_forall. intros m Hm. destruct (F1 m Hm) as (r & Hr & (_ & [A2 _] & A3 & A4) & A5). exists r. unfold view_text. rewrite E1.
  split_and!; try done; [rewrite Hfind; unfold scan_message; by rewrite E2|]. unfold message_field_rules. by rewrite E3, A4, Nat2Z.id.
Qed.

Lemma view_groups d c v : dictionary_ok d -> collected_ok d c -> string_table_ v = st_bytes (co_strings c) -> group_defs_ v = co_groups c -> group_field_rules_ v = co_group_rules c -> (forall t, find_group v t = scan_group v t) ->
  Forall (views_group v) (nd_groups d) /\ forall t, t ∉ map dg_count_tag (nd_groups d) -> find_group v t = None.
Proof.
  intros Hd [] E1 E2 E3 Hfind. destruct (validate_unique d (dok_valid d Hd)) as (_ & _ & U3).
  destruct (find_record_shown _ dg_count_tag (fun k r => count_tag r =? k) _ _ (Forall2_both _ _ _ _ cok_groups0 cok_group_rules0)) as [F1 F2]; [|done|].
  { intros g r k [(E & _) _]. rewrite Z.eqb_eq, E. done. }
  split; [|intros t Ht; rewrite Hfind; unfold scan_group; rewrite E2; by apply F2]. apply Forall_forall. intros g Hg. destruct (F1 g Hg) as (r & Hr & (A1 & A2 & [A3 _] & A4 & A5 & A6) & A7). exists r. unfold view_text. rewrite E1.
  split_and!; try done; [rewrite Hfind; unfold scan_group; by rewrite E2|]. unfold group_field_rules. by rewrite E3, A6, Nat2Z.id.
Qed.

(** C19: a dictionary comes back from its artifact.  For a dictionary within the limits of
    the format, the artifact that is built passes the validation of the loader, and the
    view made from its sections shows the dictionary: every field, message and group is
    found by its key, with its name, type, flags, delimiter, enum values in order and
    rules in order, the bitmap of required rules is the one of the group, nothing else is
    found, and the rules of header and trailer, the hash and the profile id are those of
    the dictionary. *)
Theorem artifact_roundtrip d : dictionary_ok d ->
  exists a v, LoadProfileFromDictionary d = Value a /\ FromProfile (profile_sections a) = Value v /\
    Forall (views_field v) (nd_fields d) /\ Forall (views_message v) (nd_messages d) /\ Forall (views_group v) (nd_groups d) /\
    (forall tag, tag ∉ map df_tag (nd_fields d) -> find_field v tag = None) /\
    (forall t, t ∉ map dm_msg_type (nd_messages d) -> find_message v t = None) /\
    (forall tag, tag ∉ map dg_count_tag (nd_groups d) -> find_group v tag = None) /\
    header_field_rules_ v = map rule_record (nd_header_fields d) /\ trailer_field_rules_ v = map rule_record (nd_trailer_fields d) /\
    ah_schema_hash (af_header a) = nd_schema_hash d /\ ah_profile_id (af_header a) = nd_profile_id d.
Proof.
  intros Hd. pose proof (collected d Hd) as Hc. exists (assemble d (pending_sections d (collect d))). destruct (view_loaded d (collect d) Hc) as (v & Hv & E1 & E2 & E3 & E4 & E5 & E6 & E7 & E8 & E9). pose proof (profile_loaded_ok d Hd (collect d) Hc) as Hok.
  destruct (view_fields d _ v Hd Hc E1 E2 E9 (find_field_exact _ _ Hv Hok)) as [F1 F2]. destruct (view_messages d _ v Hd Hc E1 E3 E5 (find_message_exact _ _ Hv Hok)) as [M1 M2].
  destruct (view_groups d _ v Hd Hc E1 E4 E6 (find_group_exact _ _ Hv Hok)) as [G1 G2]. exists v.
  split; [by apply loads|]. split; [rewrite (sections_loaded d Hd (collect d)); [done|done|apply Hd|apply Hd]|]. by split_and!.
Qed.
End RoundTrip.

(** ** Validation makes a file safe to read *)

Definition is_data (l : list Z) : Prop := Forall (fun b => 0 <= b < 256) l.

Lemma unpack_nonneg widths : forall l, is_data l -> Forall (fun x => 0 <= x) (unpack widths l).
Proof.
  induction widths as [|w widths IH]; intros l Hl; cbn; constructor; [apply le_value_nonneg; by apply Forall_take|]. apply IH. by apply Forall_drop.
Qed.

Lemma word_at_nonneg i l : Forall (fun x => 0 <= x) l -> 0 <= word_at i l.
Proof. intros Hl. unfold word_at. destruct (nth_in_or_default i l 0) as [Hi| ->]; [|lia]. rewrite List.Forall_forall in Hl. by apply Hl. Qed.

Lemma read_section_nonneg count l s : is_data l -> s ∈ read_records (A := ArtifactSection) count l -> 0 <= as_offset s /\ 0 <= as_size s /\ 0 <= as_entry_count s /\ 0 <= as_entry_size s.
Proof.
  revert l. induction count as [|count IH]; intros l Hl; cbn [read_records]; [by intros ?%not_elem_of_nil|]. intros [->|Hs]%elem_of_cons; [|eapply IH; [|exact Hs]; by apply Forall_drop].
  pose proof (unpack_nonneg (pod_widths (A := ArtifactSection)) (take (pod_size ArtifactSection) l) (Forall_take _ _ _ Hl)) as Hw. unfold pod_read. cbn [of_words section_pod as_offset as_size as_entry_count as_entry_size]. split_and!; by apply word_at_nonneg.
Qed.

Lemma first_failure_inv {A} (check : A -> Status) l : status.ok (first_failure check l) = true -> Forall (fun x => status.ok (check x) = true) l.
Proof. induction l as [|x l IH]; cbn; [constructor|]. destruct (status.ok (check x)) eqn:E; intros H; [constructor; auto|congruence]. Qed.

Lemma in_bounds_spec offset length total : InBounds offset length total = true <-> offset <= total /\ length <= total - offset.
Proof. unfold InBounds. destruct (Z.ltb_spec total offset); [split; [done|lia]|]. destruct (Z.ltb_spec (total - offset) length); split; try done; lia. Qed.

(** Sorted ranges that do not reach into their neighbour are apart from all others. *)
Lemma sorted_ranges_apart l : sorted_by (fun r : Z * Z => r) l -> disjoint_ranges l = true -> Forall (fun r => fst r <= snd r) l -> ForallOrdPairs (fun a b => snd a <= fst b) l.
Proof.
  intros Hs Hd Hw. induction l as [|a l IH]; [constructor|]. inversion Hs as [|? ? Hs' Ha]; subst. apply Forall_cons in Hw as [Hwa Hw]. destruct l as [|b l]; [repeat constructor|].
  cbn [disjoint_ranges] in Hd. apply andb_true_iff in Hd as [Hab Hd]. apply negb_true_iff, Z.ltb_ge in Hab. specialize (IH Hs' Hd Hw). constructor; [|done].
  inversion IH as [|? ? Hb _]; subst. apply Forall_cons in Hw as [Hwb _]. constructor; [done|]. eapply Forall_impl; [exact Hb|]. cbn. lia.
Qed.

Lemma validate_section_spec path total table_end s : status.ok (validate_section path total table_end s) = true ->
  table_end <= as_offset s /\ as_offset s + as_size s <= total /\ (as_entry_size s = 0 -> as_entry_count s = 0) /\ (as_entry_size s <> 0 -> as_entry_count s * as_entry_size s = as_size s).
Proof.
  unfold validate_section. destruct (InBounds _ _ _) eqn:Hin; [|done]. apply in_bounds_spec in Hin as [B1 B2]. cbn [negb]. destruct (Z.ltb_spec (as_offset s) table_end); [done|].
  destruct (Z.eqb_spec (as_entry_size s) 0) as [E|E].
  - destruct (Z.eqb_spec (as_entry_count s) 0) as [E2|]; [|done]. intros _. split_and!; [lia|lia|done|done].
  - destruct (MultiplyWillOverflow _ _); [done|]. destruct (Z.eqb_spec (as_entry_count s * as_entry_size s) (as_size s)); [|done]. intros _. split_and!; [lia|lia|done|done].
Qed.

Section Safety.
Context {S0 : SortAlgorithm (fun r : Z * Z => r)}.

(** Two sections of different position do not share a byte. *)
Definition apart (s t : ArtifactSection) : Prop := as_offset s + as_size s <= as_offset t \/ as_offset t + as_size t <= as_offset s.

Lemma ranges_apart (l : list ArtifactSection) : Forall (fun s => 0 <= as_size s) l -> disjoint_ranges (std_sort (key := fun r : Z * Z => r) (map section_range l)) = true ->
  forall i j s t, l !! i = Some s -> l !! j = Some t -> i <> j -> apart s t.
Proof.
  intros Hw Hd i j s t Hi Hj Hij. set (rs := std_sort (map section_range l)) in *.
  assert (Hp : rs ≡ₚ map section_range l) by apply std_sort_perm. assert (Hord : ForallOrdPairs (fun a b : Z * Z => snd a <= fst b) rs).
  { apply sorted_ranges_apart; [apply std_sort_sorted|done|]. rewrite Hp. rewrite Forall_map. eapply Forall_impl; [exact Hw|]. cbn. lia. }
  assert (Hsym : ForallOrdPairs (fun a b : Z * Z => snd a <= fst b \/ snd b <= fst a) rs) by (clear -Hord; induction Hord as [|a l0 Ha _ IH]; constructor; [eapply Forall_impl; [exact Ha|]; cbn; lia|done]).
  assert (Hl : ForallOrdPairs (fun a b : Z * Z => snd a <= fst b \/ snd b <= fst a) (map section_range l)).
  { clear -Hsym Hp. revert Hsym. induction Hp as [|x l1 l2 Hp IH|x y l1|l1 l2 l3 _ IH1 _ IH2]; intros Hs; [done|..|by auto].
    - inversion Hs; subst. constructor; [by rewrite <- Hp|by apply IH].
    - inversion Hs as [|? ? Hy Hs']; subst. inversion Hs' as [|? ? Hx Hs'']; subst. apply Forall_cons in Hy as [Hxy Hy]. constructor; [constructor; [tauto|done]|]. by constructor. }
  clear -Hl Hi Hj Hij. unfold apart. assert (Hlt : forall i j s t, (i < j)%nat -> l !! i = Some s -> l !! j = Some t -> snd (section_range s) <= fst (section_range t) \/ snd (section_range t) <= fst (section_range s)).
  { clear i j s t Hi Hj Hij. induction l as [|x l' IH]; [done|]. inversion Hl as [|? ? Hx Hl']; subst. intros [|i] [|j] s t Hij Hi Hj; try lia; cbn in Hi, Hj.
    - injection Hi as <-. rewrite Forall_map in Hx. by eapply (Forall_lookup_1 _ _ _ _ Hx).
    - apply (IH Hl' i j); [lia|done|done]. }
  destruct (Nat.lt_total i j) as [H|[H|H]]; [exact (Hlt i j s t H Hi Hj)|lia|]. destruct (Hlt j i t s H Hj Hi); [by right|by left].
Qed.

(** C20: whatever the bytes of a file are, if they pass the validation of the loader then
    reading it is safe: each section lies behind the table of sections and inside the
    file, no two sections share a byte, and every typed view, whatever type it is asked
    for, covers no byte outside its section. *)
Theorem validated_artifact_safe path data a : is_data data -> ValidateArtifact path data = Value a ->
  af_data a = data /\
  (forall i s, af_sections a !! i = Some s -> kHeaderSize + Z.of_nat (length (af_sections a)) * kSectionSize <= as_offset s /\ 0 <= as_size s /\ as_offset s + as_size s <= Z.of_nat (length data)) /\
  (forall i j s t, af_sections a !! i = Some s -> af_sections a !! j = Some t -> i <> j -> apart s t) /\
  (forall A (P : Pod A) kind (entries : list A), fixed_section A a kind = Some entries ->
     exists s, find_section_descriptor a kind = Some s /\ Z.of_nat (length entries) * Z.of_nat (pod_size A) <= as_size s).
Proof.
  intros Hb. unfold ValidateArtifact. cbv zeta. destruct (_ <? kHeaderSize); [done|]. set (h := pod_read _). do 5 (case_match; [done|]). destruct (Z.eqb_spec (ah_file_size h) (Z.of_nat (length data))) as [Hfs|]; [|done]. cbn [negb].
  destruct (Z.ltb_spec (ah_section_table_offset h) (ah_header_size h)) as [|Hto]; [done|]. destruct (InBounds _ _ _) eqn:Hin; [|done]. cbn [negb]. set (sections := records_at _ _ _). destruct (status.ok _) eqn:Hst; [|done]. cbn [negb]. destruct (disjoint_ranges _) eqn:Hdis; [|done]. cbn [negb]. intros [= <-]. cbn [af_data af_sections].
  apply first_failure_inv in Hst. rewrite Forall_forall in Hst.
  assert (Hh : ah_header_size h = kHeaderSize) by (repeat match goal with E : negb (_ =? _) = false |- _ => apply negb_false_iff, Z.eqb_eq in E end; done).
  assert (Hn : Forall (fun s => 0 <= as_offset s /\ 0 <= as_size s /\ 0 <= as_entry_count s /\ 0 <= as_entry_size s) sections).
  { apply Forall_forall. intros s Hs. unfold sections, records_at in Hs. eapply read_section_nonneg; [|exact Hs]. by apply Forall_drop. }
  assert (Hcount : Z.of_nat (length sections) = ah_section_count h).
  { unfold sections, records_at. rewrite length_read_records. rewrite Z2Nat.id; [done|]. unfold h, pod_read. cbn [of_words header_pod ah_section_count]. apply word_at_nonneg, unpack_nonneg. by apply Forall_take. }
  split_and!; [done|..].
  - intros i s Hi. apply list_elem_of_lookup_2 in Hi. rewrite Forall_forall in Hn. destruct (Hn s Hi) as (N1 & N2 & _). destruct (validate_section_spec _ _ _ _ (Hst s Hi)) as (V1 & V2 & _). rewrite Hcount. lia.
  - apply ranges_apart; [|done]. eapply Forall_impl; [exact Hn|]. by intros s (_ & ? & _).
  - intros A P kind entries. unfold fixed_section. destruct (find_section_descriptor _ kind) as [s|] eqn:Ef; [|done]. destruct (Z.eqb_spec (as_entry_size s) (Z.of_nat (pod_size A))) as [Es|]; [|done]. cbn [negb].
    apply List.find_some in Ef as [Hs%list_elem_of_In _]. cbn [af_sections] in Hs. rewrite Forall_forall in Hn. destruct (Hn s Hs) as (N1 & N2 & N3 & N4). destruct (validate_section_spec _ _ _ _ (Hst s Hs)) as (_ & _ & V3 & V4).
    intros He. exists s. split; [done|]. destruct (Z.eqb_spec (as_entry_count s) 0) as [Ez|Ez]; injection He as <-; [cbn; lia|]. unfold records_at. rewrite length_read_records, Z2Nat.id by done. rewrite <- Es. destruct (Z.eq_dec (as_entry_size s) 0) as [E0|E0]; [rewrite E0; lia|]. rewrite V4 by done. lia.
Qed.
End Safety.

(** ** A small dictionary *)

Definition demo_normalized : NormalizedDictionary :=
  MkNormalized 81985529216486895 1001
    [MkField 11 (bytes "ClOrdID") 1 0 []; MkField 54 (bytes "Side") 3 0 [MkEnumEntry (bytes "1") (bytes "BUY"); MkEnumEntry (bytes "2") (bytes "SELL")];
     MkField 448 (bytes "PartyID") 1 0 []; MkField 453 (bytes "NoPartyIDs") 2 0 []; MkField 20001 (bytes "Custom") 1 1 []]
    [MkMessage (bytes "D") (bytes "NewOrderSingle") [MkFieldRule 11 1; MkFieldRule 54 1; MkFieldRule 453 0] 0; MkMessage (bytes "0") (bytes "Heartbeat") [] 1]
    [MkGroup 453 448 (bytes "Parties") [MkFieldRule 448 1] 0] [MkFieldRule 35 1; MkFieldRule 49 1] [MkFieldRule 10 1].

Lemma demo_dictionary_ok : dictionary_ok demo_normalized.
Proof.
  assert (Ht : forall s, forallb (fun b => (0 <? b) && (b <? 256)) (bytes s) = true -> text_ok (bytes s)).
  { intros s Hs. unfold text_ok. apply Forall_forall. intros b Hb. rewrite forallb_forall in Hs. specialize (Hs b (proj1 (list_elem_of_In _ _) Hb)). apply andb_true_iff in Hs. lia. }
  constructor.
  - reflexivity.
  - repeat constructor; cbn; try done; try (by apply Ht); ulia.
  - repeat (apply Forall_cons; split); try apply Forall_nil; try done; (split; [split; by apply Ht|]); (split; [cbn; ulia|]); apply (bool_decide_unpack _); vm_compute; done.
  - repeat (apply Forall_cons; split); try apply Forall_nil; try done. split_and!; [by apply Ht|cbn; ulia..|]. apply (bool_decide_unpack _). vm_compute. done.
  - repeat constructor; cbn; ulia.
  - split; cbn; ulia.
  - vm_compute. intros [=].
  - vm_compute. intros [=].
  - vm_compute. intros [=].
  - vm_compute. intros [=].
  - vm_compute. intros [=].
  - vm_compute. intros [=].
Qed.

Lemma artifact_roundtrip_witness : exists a v, LoadProfileFromDictionary demo_normalized = Value a /\ FromProfile (profile_sections a) = Value v /\
  (exists r, find_field v 54 = Some r /\ view_text v (fd_name_offset r) = Some (bytes "Side")) /\ find_group v 454 = None.
Proof.
  destruct (artifact_roundtrip demo_normalized demo_dictionary_ok) as (a & v & Ha & Hv & Hf & _ & _ & _ & _ & Hg & _). exists a, v. split; [exact Ha|]. split; [exact Hv|]. split.
  - rewrite Forall_forall in Hf. destruct (Hf (MkField 54 (bytes "Side") 3 0 [MkEnumEntry (bytes "1") (bytes "BUY"); MkEnumEntry (bytes "2") (bytes "SELL")])) as (r & H1 & _ & H2 & _); [right; left|]. exists r. split; [exact H1|exact H2].
  - apply Hg. apply (bool_decide_unpack _). vm_compute. exact I.
Defined.

Lemma validated_artifact_safe_witness : exists data a, ValidateArtifact "demo" data = Value a /\ length (af_sections a) = 2%nat /\
  forall i s, af_sections a !! i = Some s -> as_offset s + as_size s <= Z.of_nat (length data).
Proof.
  set (a := assemble demo_normalized [MkPendingSection SectionKind.kStringTable [0; 68; 0] 3 1; entries_section SectionKind.kHeaderFieldRules [MkRule 35 1; MkRule 49 1]]). assert (Hv : ValidateArtifact "demo" (af_data a) = Value a) by (vm_compute; reflexivity).
  assert (Hb : is_data (af_data a)) by (apply (bool_decide_unpack _); vm_compute; exact I). exists (af_data a), a. split; [exact Hv|]. split; [reflexivity|].
  destruct (validated_artifact_safe "demo" (af_data a) a Hb Hv) as (_ & Hs & _). intros i s Hi. exact (proj2 (proj2 (Hs i s Hi))).
Defined.

(** ** Corners *)

(** The number of enum values of a field is kept in sixteen bits: a field with 65536 of
    them is written as one that allows every value. *)
Theorem enum_count_wraps f : length (df_enum_values f) = Z.to_nat 65536 ->
  exists r, snd (fst (add_field (NewStringTable, [], []) f)) = [r] /\ fd_enum_count r = 0 /\ forall v i value, is_enum_value_allowed v i r value = true.
Proof.
  intros Hl. unfold add_field. destruct (Intern _ _) as [t n]. rewrite Hl. destruct (fold_left _ _ _) as [t2 enums]. eexists. split; [reflexivity|]. split; [vm_compute; reflexivity|]. intros v i value. unfold is_enum_value_allowed. cbn [fd_enum_count].
  rewrite Z2Nat.id by lia. done.
Qed.
