(* ===== verification/Overlay.v ===== *)
(** * Dictionary overlays

    [profile/overlay.cpp]: a dictionary that is extended and overridden by another one.
    The theorems say what the merged dictionary holds under each key, that it keeps the
    order of the baseline's rules, and that it can be built as an artifact again. *)
From S2P Require Import Prelude Base StdAlgo SortSearch Wire NormalizedDictionary Artifact.
From stdpp Require Import pretty sorting.
Open Scope Z_scope.

Definition kCoreSessionTags : list Z := [8; 9; 10; 34; 35; 49; 56].
Definition IsCoreSessionTag (tag : Z) : bool := existsb (fun core => tag =? core) kCoreSessionTags.

Definition kAllowTypeOverride : Z := 2.
Definition kAllowDelimiterOverride : Z := 1.
Definition kUnknownType : Z := 0.

(** ** Rules *)

(** The position of the first rule of a tag. *)
Fixpoint FindFieldRule (rules : list FieldRule) (tag : Z) : option nat :=
  match rules with
  | [] => None
  | r :: rules => if rule_tag r =? tag then Some O else S <$> FindFieldRule rules tag
  end.

(** The first of some rules that is there. *)
Fixpoint anchor (rules : list FieldRule) (candidates : list FieldRule) : option nat :=
  match candidates with
  | [] => None
  | c :: candidates => match FindFieldRule rules (rule_tag c) with Some i => Some i | None => anchor rules candidates end
  end.

Definition insert_rule (i : nat) (r : FieldRule) (rules : list FieldRule) : list FieldRule := take i rules ++ r :: drop i rules.

(** One overlay rule: [later] are the rules behind it, [earlier] the ones before it, the
    nearest first. *)
Definition merge_rule (earlier later : list FieldRule) (rule : FieldRule) (rules : list FieldRule) : list FieldRule :=
  match FindFieldRule rules (rule_tag rule) with
  | Some i => alter (fun r => MkFieldRule (rule_tag r) (rule_flags rule)) i rules
  | None =>
      match anchor rules later with
      | Some i => insert_rule i rule rules
      | None =>
          match anchor rules earlier with
          | Some i => insert_rule (S i) rule rules
          | None => rules ++ [rule]
          end
      end
  end.

Fixpoint merge_rules (earlier overlay_rules : list FieldRule) (rules : list FieldRule) : list FieldRule :=
  match overlay_rules with
  | [] => rules
  | r :: later => merge_rules (r :: earlier) later (merge_rule earlier later r rules)
  end.

Definition MergeFieldRules (rules overlay_rules : list FieldRule) : list FieldRule := merge_rules [] overlay_rules rules.

(** ** Definitions *)

(** [find_if] by key and an update in place, or a new element at the end. *)
Fixpoint update_or_add {A K} `{EqDecision K} (key : A -> K) (merge : A -> A -> Result A) (o : A) (l : list A) : Result (list A) :=
  match l with
  | [] => Value [o]
  | x :: l =>
      if bool_decide (key x = key o) then match merge o x with Value x => Value (x :: l) | Error e => Error e end
      else match update_or_add key merge o l with Value l => Value (x :: l) | Error e => Error e end
  end.

Fixpoint merge_all {A K} `{EqDecision K} (key : A -> K) (merge : A -> A -> Result A) (overlay : list A) (l : list A) : Result (list A) :=
  match overlay with
  | [] => Value l
  | o :: overlay => match update_or_add key merge o l with Value l => merge_all key merge overlay l | Error e => Error e end
  end.

Definition override (name overlay_name : list Z) : list Z := match overlay_name with [] => name | _ => overlay_name end.

Definition merge_field (o f : FieldDef) : Result FieldDef :=
  Value (MkField (df_tag f) (override (df_name f) (df_name o))
    (if negb (df_value_type o =? kUnknownType) && negb (Z.land (df_flags f) kAllowTypeOverride =? 0) then df_value_type o else df_value_type f)
    (Z.lor (df_flags f) (df_flags o)) (df_enum_values f)).

Definition merge_message (o m : MessageDef) : Result MessageDef :=
  Value (MkMessage (dm_msg_type m) (override (dm_name m) (dm_name o)) (MergeFieldRules (dm_field_rules m) (dm_field_rules o)) (Z.lor (dm_flags m) (dm_flags o))).

Definition merge_group (o g : GroupDef) : Result GroupDef :=
  if negb (dg_delimiter_tag o =? 0) && negb (dg_delimiter_tag g =? 0) && negb (dg_delimiter_tag o =? dg_delimiter_tag g) && (Z.land (dg_flags o) kAllowDelimiterOverride =? 0)
  then Error (status.InvalidArgument "group overlay delimiter change requires explicit allow-delimiter-override flag")
  else Value (MkGroup (dg_count_tag g) (if dg_delimiter_tag o =? 0 then dg_delimiter_tag g else dg_delimiter_tag o) (override (dg_name g) (dg_name o))
         (MergeFieldRules (dg_field_rules g) (dg_field_rules o)) (Z.lor (dg_flags g) (dg_flags o))).

(** The first core session tag among some rules. *)
Definition core_rule (rules : list FieldRule) : option FieldRule := List.find (fun r => IsCoreSessionTag (rule_tag r)) rules.
Definition core_error (r : FieldRule) (place : string) : Status := status.InvalidArgument ("overlay may not add core session tag " +:+ pretty (rule_tag r) +:+ " to " +:+ place).

Section Apply.
Context {S1 : SortAlgorithm df_tag} {S2 : SortAlgorithm dm_msg_type} {S3 : SortAlgorithm dg_count_tag} {S4 : SortAlgorithm (fun r : Z * Z => r)}.

Definition ApplyOverlay (baseline overlay : NormalizedDictionary) : Result NormalizedDictionary :=
  match merge_all df_tag merge_field (nd_fields overlay) (nd_fields baseline) with
  | Error e => Error e
  | Value fields =>
      match merge_all dm_msg_type merge_message (nd_messages overlay) (nd_messages baseline) with
      | Error e => Error e
      | Value messages =>
          match merge_all dg_count_tag merge_group (nd_groups overlay) (nd_groups baseline) with
          | Error e => Error e
          | Value groups =>
              match core_rule (nd_header_fields overlay), core_rule (nd_trailer_fields overlay) with
              | Some r, _ => Error (core_error r "header")
              | None, Some r => Error (core_error r "trailer")
              | None, None =>
                  Value (MkNormalized (nd_schema_hash baseline) (nd_profile_id baseline) (std_sort (key := df_tag) fields) (std_sort (key := dm_msg_type) messages) (std_sort (key := dg_count_tag) groups)
                    (MergeFieldRules (nd_header_fields baseline) (nd_header_fields overlay)) (MergeFieldRules (nd_trailer_fields baseline) (nd_trailer_fields overlay)))
              end
          end
      end
  end.

(** The files behind the first one, each as the reading of it gave it. *)
Fixpoint apply_overlays (merged : NormalizedDictionary) (files : list (Result NormalizedDictionary)) : Result NormalizedDictionary :=
  match files with
  | [] => Value merged
  | Error e :: _ => Error e
  | Value additional :: files => match ApplyOverlay merged additional with Value merged => apply_overlays merged files | Error e => Error e end
  end.

Definition MergeDictionaries (files : list (Result NormalizedDictionary)) : Result NormalizedDictionary :=
  match files with
  | [] => Error (status.InvalidArgument "no dictionary files provided")
  | Error e :: _ => Error e
  | Value baseline :: overlays => if nd_profile_id baseline =? 0 then Error (status.InvalidArgument "baseline dictionary is missing profile_id") else apply_overlays baseline overlays
  end.

Definition LoadProfileFromDictionaryFiles (files : list (Result NormalizedDictionary)) : Result Artifact :=
  match MergeDictionaries files with Error e => Error e | Value merged => LoadProfileFromDictionary merged end.
End Apply.

(** ** Lemmas: rules *)

Lemma find_rule_some rules tag i : FindFieldRule rules tag = Some i -> exists r, rules !! i = Some r /\ rule_tag r = tag.
Proof.
  revert i. induction rules as [|r rules IH]; intros i; cbn; [done|]. destruct (Z.eqb_spec (rule_tag r) tag) as [E|_]; [intros [= <-]; by exists r|]. destruct (FindFieldRule rules tag) as [j|]; [|done]. intros [= <-]. by apply IH.
Qed.

Lemma find_rule_none rules tag : FindFieldRule rules tag = None <-> tag ∉ map rule_tag rules.
Proof.
  induction rules as [|r rules IH]; cbn; [split; [intros _; apply not_elem_of_nil|done]|]. rewrite not_elem_of_cons. destruct (Z.eqb_spec (rule_tag r) tag) as [E|Hne]; [split; [done|intros [? _]; congruence]|].
  rewrite <- IH. destruct (FindFieldRule rules tag); cbn; (split; [|by intros [_ ?]]); [done|]. intros _. split; [congruence|done].
Qed.

Lemma insert_rule_perm i r rules : insert_rule i r rules ≡ₚ r :: rules.
Proof. unfold insert_rule. rewrite <- Permutation_middle, take_drop. done. Qed.

Lemma insert_rule_order i r rules : map rule_tag rules `sublist_of` map rule_tag (insert_rule i r rules).
Proof.
  unfold insert_rule. rewrite <- (take_drop i rules) at 1. rewrite !map_app. apply sublist_app; [done|]. cbn. by apply sublist_cons.
Qed.

(** What a rule does to the rules before it: it sets the flags of its tag, or comes in
    anywhere. *)
Lemma merge_rule_spec earlier later rule rules : NoDup (map rule_tag rules) -> let rules' := merge_rule earlier later rule rules in
  NoDup (map rule_tag rules') /\ map rule_tag rules `sublist_of` map rule_tag rules' /\
  (forall r, r ∈ rules' <-> r = rule \/ r ∈ rules /\ rule_tag r <> rule_tag rule).
Proof.
  intros Hnd rules'. subst rules'. unfold merge_rule. destruct (FindFieldRule rules (rule_tag rule)) as [i|] eqn:Ef.
  - apply find_rule_some in Ef as (r0 & Hi & Ht). assert (E : alter (fun r => MkFieldRule (rule_tag r) (rule_flags rule)) i rules = <[i := rule]> rules).
    { apply list_eq. intros j. destruct (decide (i = j)) as [<-|Hne]; [|by rewrite list_lookup_alter_ne, list_lookup_insert_ne]. rewrite list_lookup_alter_eq, list_lookup_insert_eq by (by eapply lookup_lt_Some). rewrite Hi. cbn. rewrite Ht. by destruct rule. }
    assert (Etags : map rule_tag (<[i := rule]> rules) = map rule_tag rules) by (change (rule_tag <$> <[i := rule]> rules = rule_tag <$> rules); rewrite list_fmap_insert; apply list_insert_id; rewrite list_lookup_fmap, Hi; cbn; by rewrite Ht).
    rewrite E, Etags. split_and!; [done|done|]. intros r. split.
    + intros (j & Hj)%list_elem_of_lookup. destruct (decide (i = j)) as [<-|Hne].
      * rewrite list_lookup_insert_eq in Hj by (by eapply lookup_lt_Some). injection Hj as <-. by left.
      * rewrite list_lookup_insert_ne in Hj by done. right. split; [by eapply list_elem_of_lookup_2|]. intros Heq. apply Hne. apply (NoDup_lookup (rule_tag <$> rules) i j (rule_tag r0) Hnd); rewrite list_lookup_fmap; [by rewrite Hi|rewrite Hj; cbn; congruence].
    + intros [->|[(j & Hj)%list_elem_of_lookup Hne]]; [eapply list_elem_of_lookup_2, list_lookup_insert_eq; by eapply lookup_lt_Some|].
      eapply (list_elem_of_lookup_2 _ j). rewrite list_lookup_insert_ne; [done|]. intros <-. congruence.
  - apply find_rule_none in Ef. assert (Hins : exists i, (match anchor rules later with Some i => insert_rule i rule rules | None => match anchor rules earlier with Some i => insert_rule (S i) rule rules | None => rules ++ [rule] end end) = insert_rule i rule rules).
    { destruct (anchor rules later) as [i|]; [by exists i|]. destruct (anchor rules earlier) as [i|]; [by exists (S i)|]. exists (length rules). unfold insert_rule. by rewrite take_ge, drop_ge by lia. }
    destruct Hins as [i ->]. pose proof (insert_rule_perm i rule rules) as Hp. split_and!.
    + rewrite Hp. cbn. by constructor.
    + apply insert_rule_order.
    + intros r. rewrite Hp, elem_of_cons. split; [|tauto]. intros [?|Hr]; [by left|right]. split; [done|]. intros E. apply Ef. rewrite <- E. by apply (list_elem_of_fmap_2 rule_tag).
Qed.

(** The last rule an overlay has for a tag. *)
Definition last_rule (overlay : list FieldRule) (tag : Z) : option FieldRule := List.find (fun r => rule_tag r =? tag) (rev overlay).

(** Rules merged with an overlay: in the order of the baseline, each tag once, with the
    flags of the overlay where it has the tag. *)
Record rules_merged (base overlay merged : list FieldRule) : Prop := {
  rm_once : NoDup (map rule_tag merged);
  rm_order : map rule_tag base `sublist_of` map rule_tag merged;
  rm_rules : forall r, r ∈ merged <-> last_rule overlay (rule_tag r) = Some r \/ rule_tag r ∉ map rule_tag overlay /\ r ∈ base;
}.

Lemma last_rule_cons r overlay tag : last_rule (r :: overlay) tag = match last_rule overlay tag with Some x => Some x | None => if rule_tag r =? tag then Some r else None end.
Proof. unfold last_rule. cbn [rev]. induction (rev overlay) as [|x l IH]; cbn; [done|]. destruct (rule_tag x =? tag); [done|exact IH]. Qed.

Lemma last_rule_none overlay tag : last_rule overlay tag = None <-> tag ∉ map rule_tag overlay.
Proof.
  induction overlay as [|r overlay IH]; [split; [intros _; apply not_elem_of_nil|done]|]. rewrite last_rule_cons. cbn. rewrite not_elem_of_cons, <- IH. destruct (last_rule overlay tag); [split; [done|intros [_ ?]; done]|].
  destruct (Z.eqb_spec (rule_tag r) tag); [split; [done|intros [? _]; congruence]|]. split; [|done]. intros _. split; [congruence|done].
Qed.

Lemma last_rule_tag overlay tag r : last_rule overlay tag = Some r -> rule_tag r = tag.
Proof. intros [_ E]%List.find_some. by apply Z.eqb_eq. Qed.

Lemma merge_rules_spec earlier overlay rules : NoDup (map rule_tag rules) -> rules_merged rules overlay (merge_rules earlier overlay rules).
Proof.
  revert earlier rules. induction overlay as [|o overlay IH]; intros earlier rules Hnd; cbn.
  - constructor; [done|done|]. intros r. split; [intros Hr; right; split; [apply not_elem_of_nil|done]|]. intros [?|[_ ?]]; done.
  - destruct (merge_rule_spec earlier overlay o rules Hnd) as (N1 & O1 & M1). destruct (IH (o :: earlier) _ N1) as [N2 O2 M2]. constructor; [done|by etrans|]. intros r. rewrite M2, M1, last_rule_cons. cbn. rewrite not_elem_of_cons, <- last_rule_none.
    destruct (last_rule overlay (rule_tag r)) as [x|] eqn:El; [split; [intros [?|[? _]]; [by left|done]|intros [?|[[_ ?] _]]; [by left|done]]|].
    destruct (Z.eqb_spec (rule_tag o) (rule_tag r)) as [Eo|Eo]; split.
    + intros [?|[_ [->|[_ ?]]]]; [done|by left|congruence].
    + intros [[= ->]|[[? _] _]]; [right; split; [done|by left]|congruence].
    + intros [?|[_ [->|[? ?]]]]; [done|done|]. right. split; [by split|done].
    + intros [?|[[? _] ?]]; [done|]. right. split; [done|]. right. by split.
Qed.

(** ** Lemmas: definitions *)

Section ByKey.
Context {A K : Type} `{EqDecision K} (key : A -> K).

Definition get (k : K) (l : list A) : option A := List.find (fun x => bool_decide (key x = k)) l.

Lemma get_some k l x : get k l = Some x -> x ∈ l /\ key x = k.
Proof. intros [Hin Hk]%List.find_some. split; [by apply list_elem_of_In|]. by apply bool_decide_eq_true in Hk. Qed.

Lemma get_none k l : get k l = None <-> k ∉ map key l.
Proof.
  induction l as [|x l IH]; cbn; [split; [intros _; apply not_elem_of_nil|done]|]. rewrite not_elem_of_cons, <- IH. case_bool_decide; [split; [done|intros [? _]; congruence]|]. split; [intros E; split; [congruence|done]|by intros [_ ?]].
Qed.

Lemma get_elem l x : NoDup (map key l) -> x ∈ l -> get (key x) l = Some x.
Proof.
  induction l as [|y l IH]; [by intros _ ?%not_elem_of_nil|]. cbn. intros [Hy Hnd]%NoDup_cons [->|Hx]%elem_of_cons; [by rewrite bool_decide_true|]. rewrite bool_decide_false; [by apply IH|]. intros E. apply Hy. rewrite E. by apply (list_elem_of_fmap_2 key).
Qed.

(** With keys of their own, the elements determine what is found. *)
Lemma get_perm l l' k : NoDup (map key l) -> l ≡ₚ l' -> get k l' = get k l.
Proof.
  intros Hnd Hp. assert (Hnd' : NoDup (map key l')) by (by rewrite <- Hp). destruct (get k l) as [x|] eqn:E.
  - apply get_some in E as [Hx <-]. apply get_elem; [done|]. by rewrite <- Hp.
  - apply get_none. apply get_none in E. by rewrite <- Hp.
Qed.

Context (merge : A -> A -> Result A) (Hkey : forall o x x', merge o x = Value x' -> key x' = key x).

(** What is under a key: the overlay's element, the baseline's, or the two merged. *)
Definition merged_at (old overlay result : option A) : Prop :=
  match old, overlay with
  | None, o => result = o
  | Some x, None => result = Some x
  | Some x, Some o => exists x', merge o x = Value x' /\ result = Some x'
  end.

Lemma update_spec o l l' : update_or_add key merge o l = Value l' -> NoDup (map key l) ->
  NoDup (map key l') /\ (forall k, k ∈ map key l' <-> k = key o \/ k ∈ map key l) /\ merged_at (get (key o) l) (Some o) (get (key o) l') /\ forall k, k <> key o -> get k l' = get k l.
Proof.
  revert l'. induction l as [|x l IH]; intros l'; cbn.
  - intros [= <-] _. cbn. split_and!; [apply NoDup_singleton|intros k; rewrite elem_of_cons; split; (intros [?|?]; [by left|by right])|by rewrite bool_decide_true|]. intros k Hk. cbn. by rewrite bool_decide_false.
  - case_bool_decide as Hx.
    + destruct (merge o x) as [x'|e] eqn:Em; [|done]. intros [= <-] Hnd. pose proof (Hkey _ _ _ Em) as Hk. cbn. rewrite Hk. split_and!; [done| |rewrite bool_decide_true by done; by exists x'|].
      * intros k. rewrite elem_of_cons, <- Hx. split; [by right|]. intros [->|?]; [by left|done].
      * intros k Hne. rewrite !bool_decide_false by congruence. done.
    + destruct (update_or_add key merge o l) as [l1|e] eqn:Eu; [|done]. intros [= <-] [Hnx Hnd]%NoDup_cons. destruct (IH l1 eq_refl Hnd) as (N1 & M1 & G1 & G2). cbn. split_and!.
      * constructor; [|done]. rewrite M1. intros [?|?]; done.
      * intros k. rewrite !elem_of_cons, M1. tauto.
      * by rewrite bool_decide_false.
      * intros k Hne. case_bool_decide; [done|]. by apply G2.
Qed.

Lemma merge_all_spec overlay l l' : merge_all key merge overlay l = Value l' -> NoDup (map key l) -> NoDup (map key overlay) ->
  NoDup (map key l') /\ forall k, merged_at (get k l) (get k overlay) (get k l').
Proof.
  revert l. induction overlay as [|o overlay IH]; intros l; cbn.
  - intros [= <-] Hnd _. split; [done|]. intros k. by destruct (get k l).
  - destruct (update_or_add key merge o l) as [l1|e] eqn:Eu; [|done]. intros Hm Hnd [Ho Hov]%NoDup_cons. destruct (update_spec o l l1 Eu Hnd) as (N1 & _ & G1 & G2). destruct (IH l1 Hm N1 Hov) as [N2 G3]. split; [done|].
    intros k. specialize (G3 k). case_bool_decide as Hk.
    + subst k. apply get_none in Ho. rewrite Ho in G3. destruct (get (key o) l) as [x|]; cbn in G1 |- *.
      * destruct G1 as (x' & Hx & E). rewrite E in G3. cbn in G3. by exists x'.
      * rewrite G1 in G3. done.
    + by rewrite G2 in G3 by congruence.
Qed.

(** The merge fails only where two elements do not merge. *)
Lemma merge_all_error overlay l e : merge_all key merge overlay l = Error e -> NoDup (map key l) -> NoDup (map key overlay) -> exists o x, o ∈ overlay /\ x ∈ l /\ key x = key o /\ merge o x = Error e.
Proof.
  revert l. induction overlay as [|o overlay IH]; intros l; cbn; [done|]. destruct (update_or_add key merge o l) as [l1|e1] eqn:Eu.
  - intros Hm Hnd [Ho Hov]%NoDup_cons. destruct (update_spec o l l1 Eu Hnd) as (N1 & _ & _ & G2). destruct (IH l1 Hm N1 Hov) as (o' & x & H1 & H2 & H3 & H4). exists o', x. split; [by right|].
    assert (Hne : key x <> key o) by (rewrite H3; intros E; apply Ho; rewrite <- E; by apply (list_elem_of_fmap_2 key)). split; [|done]. apply (get_elem l1 x N1) in H2. rewrite G2 in H2 by done. by apply get_some in H2 as [? _].
  - intros [= ->] Hnd _. clear -Eu. exists o. revert Eu. induction l as [|x l IH]; cbn; [done|]. case_bool_decide as Hx.
    + destruct (merge o x) as [x'|e2] eqn:Em; [done|]. intros [= ->]. exists x. split_and!; [left|left|done|done].
    + destruct (update_or_add key merge o l); [done|]. intros [= ->]. destruct (IH eq_refl) as (y & H1 & H2 & H3 & H4). exists y. split_and!; [done|by right|done|done].
Qed.
End ByKey.

(** ** What an overlay does *)

Lemma no_duplicates {K} `{EqDecision K} (l : list K) : has_duplicates l = false <-> NoDup l.
Proof.
  induction l as [|x l IH]; cbn; [split; [constructor|done]|]. rewrite NoDup_cons, orb_false_iff, IH, bool_decide_eq_false. done.
Qed.

(** A dictionary without duplicates: keys of its own, and each list of rules with each
    tag once. *)
Record mergeable (d : NormalizedDictionary) : Prop := {
  mg_fields : NoDup (map df_tag (nd_fields d));
  mg_messages : NoDup (map dm_msg_type (nd_messages d));
  mg_groups : NoDup (map dg_count_tag (nd_groups d));
  mg_message_rules : Forall (fun m => NoDup (map rule_tag (dm_field_rules m))) (nd_messages d);
  mg_group_rules : Forall (fun g => NoDup (map rule_tag (dg_field_rules g))) (nd_groups d);
  mg_header : NoDup (map rule_tag (nd_header_fields d));
  mg_trailer : NoDup (map rule_tag (nd_trailer_fields d));
}.

Lemma mergeable_valid d : mergeable d -> ValidateDictionary d = status.Ok.
Proof. intros []. unfold ValidateDictionary. by rewrite !(proj2 (no_duplicates _)). Qed.

(** The merge of two definitions of one key.  Nothing is said of the enum values of a
    field for which the overlay gives values: the code drops them. *)
Definition field_merged (o f f' : FieldDef) : Prop :=
  df_tag f' = df_tag f /\ df_name f' = override (df_name f) (df_name o) /\ df_flags f' = Z.lor (df_flags f) (df_flags o) /\ (df_enum_values o = [] -> df_enum_values f' = df_enum_values f) /\
  df_value_type f' = if negb (df_value_type o =? kUnknownType) && negb (Z.land (df_flags f) kAllowTypeOverride =? 0) then df_value_type o else df_value_type f.
Definition message_merged (o m m' : MessageDef) : Prop :=
  dm_msg_type m' = dm_msg_type m /\ dm_name m' = override (dm_name m) (dm_name o) /\ dm_flags m' = Z.lor (dm_flags m) (dm_flags o) /\ rules_merged (dm_field_rules m) (dm_field_rules o) (dm_field_rules m').
Definition group_merged (o g g' : GroupDef) : Prop :=
  dg_count_tag g' = dg_count_tag g /\ dg_delimiter_tag g' = (if dg_delimiter_tag o =? 0 then dg_delimiter_tag g else dg_delimiter_tag o) /\ dg_name g' = override (dg_name g) (dg_name o) /\
  dg_flags g' = Z.lor (dg_flags g) (dg_flags o) /\ rules_merged (dg_field_rules g) (dg_field_rules o) (dg_field_rules g').

(** Under each key: the overlay's definition, the baseline's, or the merge of the two. *)
Definition merges {A K} `{EqDecision K} (key : A -> K) (rel : A -> A -> A -> Prop) (base overlay merged : list A) : Prop :=
  forall k, match get key k base, get key k overlay with
            | None, o => get key k merged = o
            | Some x, None => get key k merged = Some x
            | Some x, Some o => exists x', get key k merged = Some x' /\ rel o x x'
            end.

(** A change of the delimiter the overlay does not ask for. *)
Definition delimiter_conflict (o g : GroupDef) : Prop :=
  dg_count_tag g = dg_count_tag o /\ dg_delimiter_tag o <> 0 /\ dg_delimiter_tag g <> 0 /\ dg_delimiter_tag o <> dg_delimiter_tag g /\ Z.land (dg_flags o) kAllowDelimiterOverride = 0.

Lemma merge_group_error o g e : merge_group o g = Error e -> dg_delimiter_tag o <> 0 /\ dg_delimiter_tag g <> 0 /\ dg_delimiter_tag o <> dg_delimiter_tag g /\ Z.land (dg_flags o) kAllowDelimiterOverride = 0.
Proof.
  unfold merge_group. destruct (Z.eqb_spec (dg_delimiter_tag o) 0); [done|]. destruct (Z.eqb_spec (dg_delimiter_tag g) 0); [done|]. destruct (Z.eqb_spec (dg_delimiter_tag o) (dg_delimiter_tag g)); [done|]. cbn [negb andb].
  destruct (Z.eqb_spec (Z.land (dg_flags o) kAllowDelimiterOverride) 0); [|done]. intros _. by split_and!.
Qed.

(** A merge that never fails merges everything. *)
Lemma merge_all_total {A K} `{EqDecision K} (key : A -> K) (merge : A -> A -> Result A) overlay l : (forall o x, exists x', merge o x = Value x') -> exists l', merge_all key merge overlay l = Value l'.
Proof.
  intros Hm. assert (Hu : forall o l, exists l', update_or_add key merge o l = Value l').
  { clear l. intros o l. induction l as [|x l [l' IH]]; cbn; [by eexists|]. case_bool_decide; [|rewrite IH; by eexists]. destruct (Hm o x) as [x' ->]. by eexists. }
  revert l. induction overlay as [|o overlay IH]; intros l; cbn; [by eexists|]. destruct (Hu o l) as [l' ->]. apply IH.
Qed.

Lemma core_rule_none rules : core_rule rules = None -> forall r, r ∈ rules -> IsCoreSessionTag (rule_tag r) = false.
Proof. intros Hn r Hr. by apply (List.find_none _ _ Hn), list_elem_of_In. Qed.

Lemma core_rule_some rules r : core_rule rules = Some r -> r ∈ rules /\ IsCoreSessionTag (rule_tag r) = true.
Proof. intros [Hin Hc]%List.find_some. split; [by apply list_elem_of_In|done]. Qed.

Lemma merge_group_conflict o g x : delimiter_conflict o g -> merge_group o g <> Value x.
Proof.
  intros (_ & H1 & H2 & H3 & H4). unfold merge_group. rewrite (proj2 (Z.eqb_neq _ _) H1), (proj2 (Z.eqb_neq _ _) H2), (proj2 (Z.eqb_neq _ _) H3), H4. done.
Qed.

Lemma merge_group_key o g x : merge_group o g = Value x -> dg_count_tag x = dg_count_tag g.
Proof. unfold merge_group. destruct (_ && _); [done|by intros [= <-]]. Qed.

(** The groups merge exactly when no delimiter is changed without the flag. *)
Lemma groups_refused base overlay : NoDup (map dg_count_tag base) -> NoDup (map dg_count_tag overlay) ->
  (exists e, merge_all dg_count_tag merge_group overlay base = Error e) <-> exists o g, o ∈ overlay /\ g ∈ base /\ delimiter_conflict o g.
Proof.
  intros Hb Ho. split.
  - intros [e He]. destruct (merge_all_error dg_count_tag merge_group merge_group_key overlay base e He Hb Ho) as (o & g & H1 & H2 & H3 & H4). exists o, g. split; [done|]. split; [done|]. split; [done|by eapply merge_group_error].
  - intros (o & g & H1 & H2 & Hc). destruct (merge_all dg_count_tag merge_group overlay base) as [l|e] eqn:E; [|by eexists]. exfalso.
    destruct (merge_all_spec dg_count_tag merge_group merge_group_key overlay base l E Hb Ho) as [_ Hat]. specialize (Hat (dg_count_tag o)). rewrite (get_elem _ overlay o) in Hat by done.
    rewrite <- (proj1 Hc) in Hat at 1. rewrite (get_elem _ base g) in Hat by done. destruct Hat as (x & Hx & _). by eapply merge_group_conflict.
Qed.

Section Theorems.
Context {S1 : SortAlgorithm df_tag} {S2 : SortAlgorithm dm_msg_type} {S3 : SortAlgorithm dg_count_tag}.

(** One kind of definition, merged and sorted. *)
Lemma merge_sorted {A K} `{EqDecision K} `{!KeyOrder K} (key : A -> K) {SA : SortAlgorithm key} (merge : A -> A -> Result A) (rel : A -> A -> A -> Prop) (good : A -> Prop) base overlay l :
  (forall o x x', merge o x = Value x' -> key x' = key x) -> (forall o x x', good x -> merge o x = Value x' -> rel o x x' /\ good x') ->
  merge_all key merge overlay base = Value l -> NoDup (map key base) -> NoDup (map key overlay) -> Forall good base -> Forall good overlay ->
  NoDup (map key (std_sort (key := key) l)) /\ merges key rel base overlay (std_sort (key := key) l) /\ Forall good (std_sort (key := key) l).
Proof.
  intros Hkey Hrel Hm Hb Ho Gb Go. destruct (merge_all_spec key merge Hkey overlay base l Hm Hb Ho) as [Hnd Hat]. pose proof (std_sort_perm (key := key) l) as Hp. rewrite Forall_forall in Gb, Go.
  assert (Hget : forall k, get key k (std_sort (key := key) l) = get key k l) by (intros k; by apply get_perm). split_and!; [by rewrite Hp| |].
  - intros k. specialize (Hat k). rewrite Hget. unfold merged_at in Hat. destruct (get key k base) as [x|] eqn:Ex; [|done]. destruct (get key k overlay) as [o|]; [|done]. destruct Hat as (x' & Hx & E). exists x'. split; [done|]. apply Hrel; [|done]. apply Gb. by apply get_some in Ex as [? _].
  - rewrite Hp. apply Forall_forall. intros x Hx. pose proof (get_elem key l x Hnd Hx) as E. specialize (Hat (key x)). rewrite E in Hat. unfold merged_at in Hat. destruct (get key (key x) base) as [y|] eqn:Ey.
    + apply get_some in Ey as [Hy _]. destruct (get key (key x) overlay) as [o|]; [|injection Hat as ->; by apply Gb]. destruct Hat as (x' & Hx' & [= ->]). eapply Hrel; [by apply Gb|done].
    + symmetry in Hat. apply get_some in Hat as [? _]. by apply Go.
Qed.

(** C21: an overlay extends and overrides a dictionary.  Whenever [ApplyOverlay] succeeds
    on two dictionaries that define nothing twice, the merged dictionary defines nothing
    twice, so it can be built and merged again; under each key it has the baseline's
    definition, the overlay's, or their merge: the overlay's name and delimiter where it
    gives them, the union of the flags, the overlay's value type only where the field of
    the baseline allows a type override; and the rules of a merged message, group, header
    or trailer have every tag once, keep the order of the baseline, and have the
    overlay's flags wherever the overlay names the tag.  The enum values of a field are
    covered where only one of the two dictionaries gives the field, or the overlay gives
    no values for it; where both do, the documentation has the overlay override them and
    the code keeps the baseline's, which is reported as a divergence and not claimed
    here. *)
Theorem overlay_merges base overlay m : mergeable base -> mergeable overlay -> ApplyOverlay base overlay = Value m ->
  mergeable m /\ ValidateDictionary m = status.Ok /\ nd_profile_id m = nd_profile_id base /\ nd_schema_hash m = nd_schema_hash base /\
  merges df_tag field_merged (nd_fields base) (nd_fields overlay) (nd_fields m) /\
  merges dm_msg_type message_merged (nd_messages base) (nd_messages overlay) (nd_messages m) /\
  merges dg_count_tag group_merged (nd_groups base) (nd_groups overlay) (nd_groups m) /\
  rules_merged (nd_header_fields base) (nd_header_fields overlay) (nd_header_fields m) /\
  rules_merged (nd_trailer_fields base) (nd_trailer_fields overlay) (nd_trailer_fields m).
Proof.
  intros Hb Ho. unfold ApplyOverlay. destruct (merge_all df_tag _ _ _) as [fields|e] eqn:E1; [|done]. destruct (merge_all dm_msg_type _ _ _) as [messages|e] eqn:E2; [|done]. destruct (merge_all dg_count_tag _ _ _) as [groups|e] eqn:E3; [|done].
  destruct (core_rule (nd_header_fields overlay)); [done|]. destruct (core_rule (nd_trailer_fields overlay)); [done|]. intros [= <-]. cbn.
  destruct (merge_sorted df_tag merge_field field_merged (fun _ => True) _ _ _ ltac:(by intros o x x' [= <-]) ltac:(intros o x x' _ [= <-]; by split_and!) E1) as (F1 & F2 & _); [apply Hb|apply Ho|by apply Forall_true|by apply Forall_true|].
  destruct (merge_sorted dm_msg_type merge_message message_merged (fun m => NoDup (map rule_tag (dm_field_rules m))) _ _ _ ltac:(by intros o x x' [= <-])
    ltac:(intros o x x' Hx [= <-]; pose proof (merge_rules_spec [] (dm_field_rules o) _ Hx) as Hr; split; [by split_and!|apply Hr]) E2) as (M1 & M2 & M3); [apply Hb|apply Ho|apply Hb|apply Ho|].
  assert (Hg : forall o x x', merge_group o x = Value x' -> dg_count_tag x' = dg_count_tag x) by (intros o x x'; unfold merge_group; destruct (_ && _); [done|by intros [= <-]]).
  assert (Hg2 : forall o x x', NoDup (map rule_tag (dg_field_rules x)) -> merge_group o x = Value x' -> group_merged o x x' /\ NoDup (map rule_tag (dg_field_rules x'))).
  { intros o x x' Hx. unfold merge_group. destruct (_ && _); [done|]. intros [= <-]. pose proof (merge_rules_spec [] (dg_field_rules o) _ Hx) as Hr. split; [by split_and!|apply Hr]. }
  destruct (merge_sorted dg_count_tag merge_group group_merged _ _ _ _ Hg Hg2 E3) as (G1 & G2 & G3); [apply Hb|apply Ho|apply Hb|apply Ho|].
  pose proof (merge_rules_spec [] (nd_header_fields overlay) _ (mg_header _ Hb)) as H1. pose proof (merge_rules_spec [] (nd_trailer_fields overlay) _ (mg_trailer _ Hb)) as H2.
  set (m := MkNormalized _ _ _ _ _ _ _). assert (Hm : mergeable m) by (constructor; cbn; [done|done|done|done|done|apply H1|apply H2]). pose proof (mergeable_valid m Hm). by split_and!.
Qed.

(** C22: when neither the baseline nor the overlay defines a field, a message, a group or
    a tag within a list of rules twice (which [ApplyOverlay] does not check), an overlay is
    refused for two reasons only, and always for them: it changes the delimiter of a group
    of the baseline without the flag that allows it, or it has a core session tag in its
    header or trailer. *)
Theorem overlay_refused base overlay : mergeable base -> mergeable overlay ->
  (exists e, ApplyOverlay base overlay = Error e) <->
  (exists o g, o ∈ nd_groups overlay /\ g ∈ nd_groups base /\ delimiter_conflict o g) \/ (exists r, r ∈ nd_header_fields overlay ++ nd_trailer_fields overlay /\ IsCoreSessionTag (rule_tag r) = true).
Proof.
  intros Hb Ho. rewrite <- (groups_refused _ _ (mg_groups _ Hb) (mg_groups _ Ho)). unfold ApplyOverlay.
  destruct (merge_all_total df_tag merge_field (nd_fields overlay) (nd_fields base) ltac:(intros; by eexists)) as [fields ->].
  destruct (merge_all_total dm_msg_type merge_message (nd_messages overlay) (nd_messages base) ltac:(intros; by eexists)) as [messages ->].
  destruct (merge_all dg_count_tag merge_group _ _) as [groups|e]; [|split; intros _; [left|]; by eexists].
  destruct (core_rule (nd_header_fields overlay)) as [r|] eqn:Eh; [|destruct (core_rule (nd_trailer_fields overlay)) as [r|] eqn:Et].
  - apply core_rule_some in Eh as [Hr Hc]. split; intros _; [|by eexists]. right. exists r. rewrite elem_of_app. by split; [left|].
  - apply core_rule_some in Et as [Hr Hc]. split; intros _; [|by eexists]. right. exists r. rewrite elem_of_app. by split; [right|].
  - split; [by intros [e He]|]. intros [[e He]|(r & Hr & Hc)]; [done|]. apply elem_of_app in Hr as [Hr|Hr]; [rewrite (core_rule_none _ Eh r Hr) in Hc|rewrite (core_rule_none _ Et r Hr) in Hc]; done.
Qed.
End Theorems.

(** ** A small overlay *)

Definition demo_baseline : NormalizedDictionary :=
  MkNormalized 7 1001
    [MkField 11 (bytes "ClOrdID") 1 0 []; MkField 54 (bytes "Side") 3 2 [MkEnumEntry (bytes "1") (bytes "BUY")]; MkField 448 (bytes "PartyID") 1 0 []]
    [MkMessage (bytes "D") (bytes "NewOrderSingle") [MkFieldRule 11 1; MkFieldRule 54 1] 0]
    [MkGroup 453 448 (bytes "Parties") [MkFieldRule 448 1] 0] [MkFieldRule 35 1] [MkFieldRule 10 1].

(** A venue field between the two of the order, and a value of Side. *)
Definition demo_overlay : NormalizedDictionary :=
  MkNormalized 0 0
    [MkField 20001 (bytes "Venue") 1 1 []; MkField 54 [] 1 0 [MkEnumEntry (bytes "5") (bytes "SELL_SHORT")]]
    [MkMessage (bytes "D") [] [MkFieldRule 20001 0; MkFieldRule 54 0] 0] [] [MkFieldRule 50 0] [].

(** A new delimiter without the flag. *)
Definition demo_conflict : NormalizedDictionary := MkNormalized 0 0 [] [] [MkGroup 453 447 [] [] 0] [] [].

Ltac decide_mergeable := constructor; apply (bool_decide_unpack _); vm_compute; exact I.

Lemma demo_baseline_mergeable : mergeable demo_baseline.
Proof. decide_mergeable. Qed.

Lemma demo_overlay_mergeable : mergeable demo_overlay.
Proof. decide_mergeable. Qed.

Lemma demo_conflict_mergeable : mergeable demo_conflict.
Proof. decide_mergeable. Qed.

Lemma overlay_merges_witness : exists m, ApplyOverlay demo_baseline demo_overlay = Value m /\ mergeable m /\
  (exists d, get dm_msg_type (bytes "D") (nd_messages m) = Some d /\ dm_name d = bytes "NewOrderSingle" /\ MkFieldRule 54 0 ∈ dm_field_rules d /\ map rule_tag (dm_field_rules d) = [11; 20001; 54]).
Proof.
  destruct (ApplyOverlay demo_baseline demo_overlay) as [m|e] eqn:E; [|vm_compute in E; discriminate]. exists m. split; [reflexivity|].
  destruct (overlay_merges demo_baseline demo_overlay m demo_baseline_mergeable demo_overlay_mergeable E) as (Hm & _ & _ & _ & _ & Hd & _). split; [exact Hm|].
  specialize (Hd (bytes "D")). cbn in Hd. destruct Hd as (d & Hd & _ & Hn & _ & Hr). exists d. split; [exact Hd|]. split; [exact Hn|]. split; [apply (rm_rules _ _ _ Hr); left; reflexivity|].
  vm_compute in E. injection E as <-. vm_compute in Hd. injection Hd as <-. reflexivity.
Defined.

Lemma overlay_refused_witness : (exists e, ApplyOverlay demo_baseline demo_conflict = Error e) /\ ~ exists e, ApplyOverlay demo_baseline demo_overlay = Error e.
Proof.
  split.
  - apply (proj2 (overlay_refused demo_baseline demo_conflict demo_baseline_mergeable demo_conflict_mergeable)). left. exists (MkGroup 453 447 [] [] 0), (MkGroup 453 448 (bytes "Parties") [MkFieldRule 448 1] 0). split; [left|]. split; [left|]. repeat split; discriminate.
  - intros [e He]. vm_compute in He. discriminate.
Defined.

(** The values an overlay gives for a field of the baseline are dropped: the merge keeps
    the baseline's values, and reports nothing. *)
Theorem overlay_drops_enum_values : exists m f, ApplyOverlay demo_baseline demo_overlay = Value m /\ get df_tag 54 (nd_fields m) = Some f /\
  df_value_type f = 1 /\ df_enum_values f = [MkEnumEntry (bytes "1") (bytes "BUY")] /\ get df_tag 54 (nd_fields demo_overlay) <> None /\
  forall o, get df_tag 54 (nd_fields demo_overlay) = Some o -> MkEnumEntry (bytes "5") (bytes "SELL_SHORT") ∈ df_enum_values o.
Proof.
  destruct (ApplyOverlay demo_baseline demo_overlay) as [m|e] eqn:E; [|vm_compute in E; discriminate]. vm_compute in E. injection E as <-. do 2 eexists. split; [reflexivity|]. split; [reflexivity|]. split; [reflexivity|]. split; [reflexivity|]. split; [discriminate|].
  intros o [= <-]. left.
Qed.
