(* ===== verification/Disk.v ===== *)
(** * Files and their failures

    What [store/durable_batch_store.cpp] uses of the operating system: files under a
    directory, positioned reads and writes that may be short, interrupted or fail,
    [fdatasync], renaming and removal.  The outcomes of the calls to come are a script in
    the world; every change of a file is kept in a trace, so that a loss of power at any
    moment can be stated. *)
From S2P Require Import Prelude Base StdAlgo Wire.
Open Scope Z_scope.

(** The directory of the store or the temporary one beside it ([true]), the directory
    itself or the [archive] in it ([true]), and a name. *)
Notation Path := (bool * bool * list Z)%type.

(** What the next call does.  [Partial n] moves at most [n] bytes; calls that move no
    bytes treat everything but a failure as success. *)
Inductive Outcome := Done | Partial (n : nat) | Interrupted | Failed (text : string).

(** [Replace] moves the temporary directory to the place of the store's, which
    [RemoveAll] has removed before. *)
Inductive DiskOp :=
| Create (p : Path)
| WriteAt (p : Path) (offset : nat) (data : list Z)
| Resize (p : Path) (size : nat)
| Sync (p : Path)
| Rename (p q : Path)
| Remove (p : Path)
| RemoveAll (home : bool)
| Replace.

(** Bytes behind the end of the file become zero. *)
Definition pad (size : nat) (content : list Z) : list Z := content ++ replicate (size - length content) 0.
Definition write_at (offset : nat) (data content : list Z) : list Z := take offset (pad offset content) ++ data ++ drop (offset + length data) content.
Definition resize (size : nat) (content : list Z) : list Z := take size (pad size content).

Notation Files := (gmap Path (list Z)).

Definition other_home (p : Path) : Path := (negb (fst (fst p)), snd (fst p), snd p).

Definition apply_op (op : DiskOp) (f : Files) : Files :=
  match op with
  | Create p => match f !! p with Some _ => f | None => <[p := []]> f end
  | WriteAt p offset data => alter (write_at offset data) p f
  | Resize p size => alter (resize size) p f
  | Sync _ => f
  | Rename p q => match f !! p with Some content => <[q := content]> (delete p f) | None => f end
  | Remove p => delete p f
  | RemoveAll home => filter (fun x => fst (fst (fst x)) <> home) f
  | Replace => kmap other_home (filter (fun x => fst (fst (fst x)) = true) f)
  end.

Record World := MkWorld {
  w_files : Files;
  w_script : list Outcome;
  w_errno : string;
  w_trace : list DiskOp;
}.

Definition fresh_world (f : Files) : World := MkWorld f [] "" [].

Definition emit (op : DiskOp) (w : World) : World := MkWorld (apply_op op (w_files w)) (w_script w) (w_errno w) (w_trace w ++ [op]).
Definition with_script (s : list Outcome) (w : World) : World := MkWorld (w_files w) s (w_errno w) (w_trace w).
Definition with_errno (text : string) (w : World) : World := MkWorld (w_files w) (w_script w) text (w_trace w).
Definition content (w : World) (p : Path) : list Z := default [] (w_files w !! p).

(** ** Calls *)

(** A call that moves no bytes. *)
Definition attempt (w : World) : World * bool :=
  match w_script w with
  | [] => (w, true)
  | Failed text :: s => (with_errno text (with_script s w), false)
  | _ :: s => (with_script s w, true)
  end.

Definition call (op : DiskOp) (w : World) : World * bool :=
  let '(w, done) := attempt w in if done then (emit op w, true) else (w, false).

Definition rename_file (p q : Path) (w : World) : World * bool :=
  let '(w, done) := attempt w in
  if negb done then (w, false)
  else match w_files w !! p with None => (with_errno "No such file or directory" w, false) | Some _ => (emit (Rename p q) w, true) end.

(** A descriptor is the file it was opened for; -1 is none. *)
Definition fd : Type := option Path.

Definition open_file (p : Path) (w : World) : World * fd :=
  let '(w, done) := attempt w in if done then (emit (Create p) w, Some p) else (w, None).

Definition fdatasync (f : fd) (w : World) : World * bool :=
  match f with None => (with_errno "Bad file descriptor" w, false) | Some p => call (Sync p) w end.

Definition ftruncate (p : Path) (size : Z) (w : World) : World * bool := call (Resize p (Z.to_nat size)) w.

Fixpoint write_loop (s : list Outcome) (p : Path) (offset : nat) (data : list Z) (w : World) : World * bool :=
  match data with
  | [] => (with_script s w, true)
  | _ =>
      match s with
      | [] => (emit (WriteAt p offset data) (with_script [] w), true)
      | Done :: s => (emit (WriteAt p offset data) (with_script s w), true)
      | Partial 0 :: s => (with_script s w, false)
      | Partial n :: s => let part := take n data in write_loop s p (offset + length part) (drop (length part) data) (emit (WriteAt p offset part) w)
      | Interrupted :: s => write_loop s p offset data w
      | Failed text :: s => (with_errno text (with_script s w), false)
      end
  end.

Definition WriteExact (f : fd) (data : list Z) (offset : Z) (w : World) : World * bool :=
  match f with
  | None => match data with [] => (w, true) | _ => (with_errno "Bad file descriptor" w, false) end
  | Some p => write_loop (w_script w) p (Z.to_nat offset) data w
  end.

(** At the end of the file a read moves nothing, which ends the loop. *)
Fixpoint read_loop (s : list Outcome) (bytes : list Z) (offset size : nat) (w : World) : World * option (list Z) :=
  match size with
  | O => (with_script s w, Some [])
  | S _ =>
      let chunk := slice bytes offset size in
      let again s n :=
        match take n chunk with
        | [] => (with_script s w, None)
        | part => let '(w, rest) := read_loop s bytes (offset + length part) (size - length part) w in (w, app part <$> rest)
        end in
      match s with
      | [] => (with_script [] w, if (length chunk =? size)%nat then Some chunk else None)
      | Done :: s => again s size
      | Partial n :: s => again s n
      | Interrupted :: s => read_loop s bytes offset size w
      | Failed text :: s => (with_errno text (with_script s w), None)
      end
  end.

(** [off_t] has 63 bits. *)
Definition ReadExact (f : fd) (size : nat) (offset : Z) (w : World) : World * option (list Z) :=
  match f with
  | None => match size with O => (w, Some []) | _ => (with_errno "Bad file descriptor" w, None) end
  | Some p =>
      if 9223372036854775808 <=? offset then match size with O => (w, Some []) | _ => (with_errno "Invalid argument" w, None) end
      else read_loop (w_script w) (content w p) (Z.to_nat offset) size w
  end.

(** ** Loss of power *)

(** What a file holds behind a loss of power, when its durable bytes were [c] and these
    writes to it were not synchronised: each of them is lost, or kept, or, behind the
    first [atomic] bytes, torn to arbitrary bytes that are no more than it wrote. *)
Inductive survives (atomic : nat) : list Z -> list (nat * list Z) -> list Z -> Prop :=
| survives_none c : survives atomic c [] c
| survives_lost c w ws c' : survives atomic c ws c' -> survives atomic c (w :: ws) c'
| survives_kept c offset data ws c' : survives atomic (write_at offset data c) ws c' -> survives atomic c ((offset, data) :: ws) c'
| survives_torn c offset data part ws c' : (atomic <= offset)%nat -> (length part <= length data)%nat ->
    survives atomic (write_at offset part c) ws c' -> survives atomic c ((offset, data) :: ws) c'.

(** The durable bytes of a file and the writes to it behind its last synchronisation. *)
Definition buffer_op (p : Path) (st : list Z * list (nat * list Z)) (op : DiskOp) : list Z * list (nat * list Z) :=
  match op with
  | WriteAt q offset data => if bool_decide (q = p) then (fst st, snd st ++ [(offset, data)]) else st
  | Sync q => if bool_decide (q = p) then (fold_left (fun c w => write_at (fst w) (snd w) c) (snd st) (fst st), []) else st
  | _ => st
  end.

(** [c'] can be what a file holds when the power fails behind these operations, which
    neither resize nor move it. *)
Definition crash_image (atomic : nat) (p : Path) (c : list Z) (ops : list DiskOp) (c' : list Z) : Prop :=
  let '(durable, writes) := fold_left (buffer_op p) ops (c, []) in survives atomic durable writes c'.

(** ** Lemmas: bytes *)

Lemma length_pad size c : length (pad size c) = Nat.max size (length c).
Proof. unfold pad. rewrite length_app, length_replicate. lia. Qed.

Lemma write_at_end c data : write_at (length c) data c = c ++ data.
Proof. unfold write_at, pad. rewrite Nat.sub_diag, app_nil_r, take_ge, drop_ge by lia. by rewrite app_nil_r. Qed.

Lemma write_at_nil offset c : (offset <= length c)%nat -> write_at offset [] c = c.
Proof. intros Hl. unfold write_at, pad. replace (offset - length c)%nat with O by lia. by rewrite app_nil_r, app_nil_l, Nat.add_0_r, take_drop. Qed.

(** A write behind a prefix keeps it. *)
Lemma write_at_prefix n offset data c : (n <= offset)%nat -> (n <= length c)%nat -> take n (write_at offset data c) = take n c.
Proof.
  intros Ho Hl. unfold write_at, pad. rewrite take_app_le by (rewrite length_take, length_app, length_replicate; lia). rewrite take_take, Nat.min_l by lia. by rewrite take_app_le by lia.
Qed.

Lemma length_write_at offset data c : length (write_at offset data c) = Nat.max (length c) (offset + length data).
Proof. unfold write_at. rewrite !length_app, length_take, length_pad, length_drop. lia. Qed.

(** A write at the start that is no longer than the file. *)
Lemma write_at_start data c : write_at 0 data c = data ++ drop (length data) c.
Proof. unfold write_at. by rewrite take_0. Qed.

(** Two writes side by side. *)
Lemma write_at_app offset a b c : write_at (offset + length a) b (write_at offset a c) = write_at offset (a ++ b) c.
Proof.
  unfold write_at at 1 3. rewrite length_app. unfold pad at 1. rewrite length_write_at. replace (offset + length a - Nat.max (length c) (offset + length a))%nat with O by lia. cbn [replicate]. rewrite app_nil_r.
  assert (Hl : length (take offset (pad offset c)) = offset) by (rewrite length_take, length_pad; lia).
  assert (Ht : take (offset + length a) (write_at offset a c) = take offset (pad offset c) ++ a).
  { unfold write_at. rewrite app_assoc. rewrite take_app_length'; [done|]. rewrite length_app. lia. }
  rewrite Ht, <- !app_assoc. f_equal. f_equal. f_equal. unfold write_at. rewrite app_assoc, drop_app_ge by (rewrite length_app, Hl; lia). rewrite drop_drop, length_app, Hl. f_equal. lia.
Qed.

(** ** Lemmas: calls that succeed *)

Lemma content_emit_write w p offset data c : w_files w !! p = Some c -> w_files (emit (WriteAt p offset data) w) !! p = Some (write_at offset data c).
Proof. intros Hp. cbn [emit w_files apply_op]. by rewrite lookup_alter_eq, Hp. Qed.

Lemma slice_all offset size (l : list Z) : length (slice l offset size) = size -> (offset + size <= length l)%nat \/ size = O.
Proof. unfold slice. rewrite length_take, length_drop. lia. Qed.

(** ** Lemmas: writes under any script *)

(** The parts in which a piece of data is written. *)
Fixpoint parts (offset : nat) (l : list (list Z)) : list (nat * list Z) :=
  match l with [] => [] | d :: l => (offset, d) :: parts (offset + length d) l end.

(** Whatever the script, a write emits the data in parts one behind the other: all of
    them when it succeeds, a prefix when it fails. *)
Lemma write_loop_parts p : forall s offset data w w' b, write_loop s p offset data w = (w', b) ->
  exists l rest, data = concat l ++ rest /\ (b = true -> rest = []) /\ Forall (fun d => d <> []) l /\ w_trace w' = w_trace w ++ map (fun x => WriteAt p (fst x) (snd x)) (parts offset l) /\
    w_files w' = fold_left (fun f x => alter (write_at (fst x) (snd x)) p f) (parts offset l) (w_files w).
Proof.
  induction s as [|o s IH]; intros offset data w w' b.
  - destruct data as [|x data]; cbn; intros [= <- <-]; [exists [], []; cbn; rewrite app_nil_r; done|]. exists [x :: data], []. cbn. rewrite !app_nil_r. split_and!; try done. by repeat constructor.
  - destruct data as [|x data]; [cbn; intros [= <- <-]; exists [], []; cbn; rewrite app_nil_r; done|]. set (d := x :: data). cbn [write_loop]. fold d. change (match d with [] => (with_script (o :: s) w, true) | _ :: _ => ?r end) with r.
    destruct o as [|[|n]| |text].
    + intros [= <- <-]. exists [d], []. cbn. rewrite !app_nil_r. split_and!; try done. by repeat constructor.
    + intros [= <- <-]. exists [], d. cbn. rewrite app_nil_r. done.
    + cbv zeta. intros Hw. apply IH in Hw as (l & rest & Hd & Hr & Hnz & Ht & Hf). exists (take (S n) d :: l), rest. cbn [concat parts map fst snd fold_left].
      split; [rewrite <- app_assoc, <- Hd, <- (take_drop (S n) d) at 1; f_equal; rewrite length_take; destruct (decide (S n <= length d)%nat); [by rewrite Nat.min_l by lia|rewrite !drop_ge by lia; done]|].
      split; [exact Hr|]. split; [by constructor|]. split; [rewrite Ht; cbn [w_trace emit]; by rewrite <- app_assoc|exact Hf].
    + intros Hw. apply IH in Hw. exact Hw.
    + intros [= <- <-]. exists [], d. cbn. rewrite app_nil_r. done.
Qed.
