(* ===== verification/DurableStore.v ===== *)
(** * The durable batch store

    [store/durable_batch_store.cpp]: records queued in memory and appended in batches to
    the log of the active segment, an index of the outbound records beside each log, a
    log of recovery states, rollover into archived segments, pruning, and the rebuilding
    of everything from the files.  A file commits its size in its header. *)
From S2P Require Import Prelude Base StdAlgo IntFormat Wire SessionStore Artifact Disk.
Open Scope Z_scope.

Definition kStoreVersion : Z := 1.
Definition kNanosPerDay : Z := 86400 * 1000000000.
Definition kLogMagic : list Z := bytes "NFDBLOG1".
Definition kIndexMagic : list Z := bytes "NFDBIDX1".
Definition kRecoveryMagic : list Z := bytes "NFDBREC1".

Module StoreRecordType.
Definition kOutbound : Z := 1.
Definition kInbound : Z := 2.
End StoreRecordType.

Inductive PendingEntryKind := PendingOutbound | PendingInbound | PendingRecovery.

(** The magic is kept as its eight bytes read as one word. *)
Record StoreFileHeader := MkFileHeader { fh_magic : Z; fh_version : Z; fh_header_size : Z; fh_file_size : Z; fh_segment_id : Z }.
#[export] Instance file_header_pod : Pod StoreFileHeader := {|
  pod_widths := [8; 4; 4; 8; 8]%nat;
  to_words h := [fh_magic h; fh_version h; fh_header_size h; fh_file_size h; fh_segment_id h];
  of_words l := MkFileHeader (word_at 0 l) (word_at 1 l) (word_at 2 l) (word_at 3 l) (word_at 4 l);
|}.

(** [rh_body_start_offset] is the member [reserved0]; the other reserved ones are zero. *)
Record StoreRecordHeader := MkRecordHeader {
  rh_record_type : Z;
  rh_header_size : Z;
  rh_flags : Z;
  rh_session_id : Z;
  rh_seq_num : Z;
  rh_payload_size : Z;
  rh_timestamp_ns : Z;
  rh_body_start_offset : Z;
}.
#[export] Instance record_header_pod : Pod StoreRecordHeader := {|
  pod_widths := [4; 2; 2; 8; 4; 4; 8; 4; 4; 8; 8; 8]%nat;
  to_words h := [rh_record_type h; rh_header_size h; rh_flags h; rh_session_id h; rh_seq_num h; rh_payload_size h; rh_timestamp_ns h; rh_body_start_offset h; 0; 0; 0; 0];
  of_words l := MkRecordHeader (word_at 0 l) (word_at 1 l) (word_at 2 l) (word_at 3 l) (word_at 4 l) (word_at 5 l) (word_at 6 l) (word_at 7 l);
|}.

(** [ix_body_start_offset] is the member [reserved1]. *)
Record OutboundIndexEntry := MkIndexEntry {
  ix_session_id : Z;
  ix_seq_num : Z;
  ix_flags : Z;
  ix_timestamp_ns : Z;
  ix_log_offset : Z;
  ix_payload_size : Z;
  ix_body_start_offset : Z;
}.
#[export] Instance index_entry_pod : Pod OutboundIndexEntry := {|
  pod_widths := [8; 4; 2; 2; 8; 8; 4; 4]%nat;
  to_words e := [ix_session_id e; ix_seq_num e; ix_flags e; 0; ix_timestamp_ns e; ix_log_offset e; ix_payload_size e; ix_body_start_offset e];
  of_words l := MkIndexEntry (word_at 0 l) (word_at 1 l) (word_at 2 l) (word_at 4 l) (word_at 5 l) (word_at 6 l) (word_at 7 l);
|}.

Record RecoveryRecord := MkRecoveryRecord { rr_session_id : Z; rr_next_in_seq : Z; rr_next_out_seq : Z; rr_last_inbound_ns : Z; rr_last_outbound_ns : Z; rr_active : Z }.
#[export] Instance recovery_record_pod : Pod RecoveryRecord := {|
  pod_widths := [8; 4; 4; 8; 8; 1; 7]%nat;
  to_words r := [rr_session_id r; rr_next_in_seq r; rr_next_out_seq r; rr_last_inbound_ns r; rr_last_outbound_ns r; rr_active r; 0];
  of_words l := MkRecoveryRecord (word_at 0 l) (word_at 1 l) (word_at 2 l) (word_at 3 l) (word_at 4 l) (word_at 5 l);
|}.

Definition kFileHeaderSize : Z := Z.of_nat (pod_size StoreFileHeader).
Definition kRecordHeaderSize : Z := Z.of_nat (pod_size StoreRecordHeader).
Definition kIndexEntrySize : Z := Z.of_nat (pod_size OutboundIndexEntry).
Definition kRecoveryRecordSize : Z := Z.of_nat (pod_size RecoveryRecord).

Record OpenedStoreFile := MkOpened { of_fd : fd; of_size : Z; of_header : StoreFileHeader }.

Record OutboundLocation := MkLocation {
  ol_segment_id : Z;
  ol_log_offset : Z;
  ol_payload_size : Z;
  ol_body_start_offset : Z;
  ol_flags : Z;
  ol_timestamp_ns : Z;
}.

Record SegmentHandle := MkHandle {
  sg_segment_id : Z;
  sg_log_path : Path;
  sg_index_path : Path;
  sg_log_fd : fd;
  sg_index_fd : fd;
  sg_log_size : Z;
  sg_index_size : Z;
  sg_has_records : bool;
}.
Definition no_path : Path := (false, false, []).
Definition no_segment : SegmentHandle := MkHandle 0 no_path no_path None None 0 0 false.

Record PendingEntry := MkPending {
  pe_kind : PendingEntryKind;
  pe_session_id : Z;
  pe_seq_num : Z;
  pe_timestamp_ns : Z;
  pe_flags : Z;
  pe_payload_offset : Z;
  pe_payload_size : Z;
  pe_body_start_offset : Z;
  pe_recovery_state : SessionRecoveryState;
}.

Inductive DurableStoreRolloverMode := kDisabled | kUtcDay | kExternal | kLocalTime.

Record DurableBatchStoreOptions := MkOptions {
  flush_threshold : Z;
  rollover_mode : DurableStoreRolloverMode;
  max_archived_segments : Z;
  local_utc_offset_seconds : Z;
  use_system_timezone : bool;
}.

(** The constructor. *)
Definition normalize_options (o : DurableBatchStoreOptions) : DurableBatchStoreOptions :=
  MkOptions (if flush_threshold o =? 0 then 1 else flush_threshold o) (rollover_mode o) (max_archived_segments o) (local_utc_offset_seconds o) (use_system_timezone o).

(** [std::map] and [std::unordered_map] are finite maps; [in_order] is the order in which
    the first one is walked. *)
Notation OutboundIndex := (gmap Z (gmap Z OutboundLocation)).
Definition in_order {A} (m : gmap Z A) : list (Z * A) := stable_sort fst (map_to_list m).

Record Impl := MkImpl {
  im_active_segment : SegmentHandle;
  im_archived_segments : gmap Z SegmentHandle;
  im_recovery_fd : fd;
  im_recovery_size : Z;
  im_outbound_index : OutboundIndex;
  im_recovery_states : gmap Z SessionRecoveryState;
  im_pending_entries : list PendingEntry;
  im_pending_payload_arena : list Z;
  im_active_utc_day : option Z;
  im_effective_utc_offset_seconds : Z;
}.
Definition NewImpl : Impl := MkImpl no_segment ∅ None 0 ∅ ∅ [] [] None 0.

Definition with_active (g : SegmentHandle) (i : Impl) : Impl := MkImpl g (im_archived_segments i) (im_recovery_fd i) (im_recovery_size i) (im_outbound_index i) (im_recovery_states i) (im_pending_entries i) (im_pending_payload_arena i) (im_active_utc_day i) (im_effective_utc_offset_seconds i).
Definition with_archived (a : gmap Z SegmentHandle) (i : Impl) : Impl := MkImpl (im_active_segment i) a (im_recovery_fd i) (im_recovery_size i) (im_outbound_index i) (im_recovery_states i) (im_pending_entries i) (im_pending_payload_arena i) (im_active_utc_day i) (im_effective_utc_offset_seconds i).
Definition with_recovery (f : fd) (size : Z) (i : Impl) : Impl := MkImpl (im_active_segment i) (im_archived_segments i) f size (im_outbound_index i) (im_recovery_states i) (im_pending_entries i) (im_pending_payload_arena i) (im_active_utc_day i) (im_effective_utc_offset_seconds i).
Definition with_index (m : OutboundIndex) (i : Impl) : Impl := MkImpl (im_active_segment i) (im_archived_segments i) (im_recovery_fd i) (im_recovery_size i) m (im_recovery_states i) (im_pending_entries i) (im_pending_payload_arena i) (im_active_utc_day i) (im_effective_utc_offset_seconds i).
Definition with_states (m : gmap Z SessionRecoveryState) (i : Impl) : Impl := MkImpl (im_active_segment i) (im_archived_segments i) (im_recovery_fd i) (im_recovery_size i) (im_outbound_index i) m (im_pending_entries i) (im_pending_payload_arena i) (im_active_utc_day i) (im_effective_utc_offset_seconds i).
Definition with_pending (l : list PendingEntry) (arena : list Z) (i : Impl) : Impl := MkImpl (im_active_segment i) (im_archived_segments i) (im_recovery_fd i) (im_recovery_size i) (im_outbound_index i) (im_recovery_states i) l arena (im_active_utc_day i) (im_effective_utc_offset_seconds i).
Definition with_day (d : option Z) (i : Impl) : Impl := MkImpl (im_active_segment i) (im_archived_segments i) (im_recovery_fd i) (im_recovery_size i) (im_outbound_index i) (im_recovery_states i) (im_pending_entries i) (im_pending_payload_arena i) d (im_effective_utc_offset_seconds i).
Definition with_offset (n : Z) (i : Impl) : Impl := MkImpl (im_active_segment i) (im_archived_segments i) (im_recovery_fd i) (im_recovery_size i) (im_outbound_index i) (im_recovery_states i) (im_pending_entries i) (im_pending_payload_arena i) (im_active_utc_day i) n.

Definition CloseSegment (g : SegmentHandle) : SegmentHandle :=
  MkHandle (sg_segment_id g) (sg_log_path g) (sg_index_path g) None None (sg_log_size g) (sg_index_size g) (sg_has_records g).

(** ** Checks *)

Definition ValidateRecordView (v : MessageRecordView) : Status :=
  if v_session_id v =? 0 then status.InvalidArgument "message record is missing session_id"
  else if v_seq_num v =? 0 then status.InvalidArgument "message record is missing seq_num"
  else if UINT32_MAX <? Z.of_nat (length (v_payload v)) then status.InvalidArgument "message payload exceeds durable store limits"
  else if Z.of_nat (length (v_payload v)) <? v_body_start_offset v then status.InvalidArgument "message record body_start_offset exceeds payload size"
  else status.Ok.

Definition ValidateRecord (r : MessageRecord) : Status :=
  if rec_session_id r =? 0 then status.InvalidArgument "message record is missing session_id"
  else if rec_seq_num r =? 0 then status.InvalidArgument "message record is missing seq_num"
  else if UINT32_MAX <? Z.of_nat (length (rec_payload r)) then status.InvalidArgument "message payload exceeds durable store limits"
  else if Z.of_nat (length (rec_payload r)) <? rec_body_start_offset r then status.InvalidArgument "message record body_start_offset exceeds payload size"
  else status.Ok.

Definition ValidateRecoveryState (r : SessionRecoveryState) : Status :=
  if r_session_id r =? 0 then status.InvalidArgument "recovery state is missing session_id" else status.Ok.

(** A status as the outcome of a call. *)
Definition expect {S} (st : Status) : SE S unit := if status.ok st then ret tt else fail st.

(** ** Segment names *)

Definition kSegmentFilePrefix : list Z := bytes "segment-".
Definition kSegmentIdWidth : nat := 16.
Definition kSegmentLogSuffix : list Z := bytes ".log".
Definition kSegmentIndexSuffix : list Z := bytes ".out.idx".

(** A number put into a stream. *)
Definition decimal (n : Z) : list Z := if n =? 0 then [48] else digits_loop 20 n [].

Definition MakeSegmentFileName (segment_id : Z) (suffix : list Z) : list Z :=
  kSegmentFilePrefix ++ replicate (kSegmentIdWidth - length (decimal segment_id)) 48 ++ decimal segment_id ++ suffix.

(** [std::stoull] in base 10: blanks, a sign, digits; text behind them is ignored. *)
Definition is_space (c : Z) : bool := (c =? 32) || ((9 <=? c) && (c <=? 13)).
Fixpoint skip_spaces (l : list Z) : list Z := match l with c :: rest => if is_space c then skip_spaces rest else l | [] => [] end.
Definition stoull (text : list Z) : option Z :=
  let text := skip_spaces text in
  let '(negative, digits) := match text with 45 :: rest => (true, rest) | 43 :: rest => (false, rest) | _ => (false, text) end in
  match digit_prefix digits with
  | [] => None
  | ds => if UINT64_MAX <? numeral_value ds then None else Some (if negative : bool then u64 (- numeral_value ds) else numeral_value ds)
  end.

Definition starts_with (prefix l : list Z) : bool := bool_decide (take (length prefix) l = prefix).
Definition ends_with (suffix l : list Z) : bool := (length suffix <=? length l)%nat && bool_decide (drop (length l - length suffix) l = suffix).

Definition ParseSegmentId (filename : list Z) : option Z :=
  if negb (starts_with kSegmentFilePrefix filename) || negb (ends_with kSegmentLogSuffix filename) then None
  else stoull (slice filename (length kSegmentFilePrefix) (length filename - length kSegmentFilePrefix - length kSegmentLogSuffix)).

(** Sorted, each once. *)
Fixpoint unique (l : list Z) : list Z :=
  match l with
  | a :: (b :: _) as l' => if a =? b then unique l' else a :: unique l'
  | _ => l
  end.

(** ** Files *)

Definition os {X} (f : World -> World * X) : SE World X := fun w => let '(w, x) := f w in (w, Value x).
Definition disk {A X} (m : SE World X) : SE (World * A) X := fun s => let '(w, r) := m (fst s) in ((w, snd s), r).
Definition private {A} (f : A -> A) : SE (World * A) unit := modify (fun s => (fst s, f (snd s))).

Definition BuildFileHeader (magic : list Z) (segment_id : Z) : StoreFileHeader := MkFileHeader (le_value magic) kStoreVersion kFileHeaderSize kFileHeaderSize segment_id.
Definition with_file_size (size : Z) (h : StoreFileHeader) : StoreFileHeader := MkFileHeader (fh_magic h) (fh_version h) (fh_header_size h) size (fh_segment_id h).

Definition HasMagic (h : StoreFileHeader) (expected : list Z) : bool := fh_magic h =? le_value expected.

Definition SyncFileHeader (f : fd) (h : StoreFileHeader) (size : Z) : SE World bool := os (WriteExact f (pod_bytes (with_file_size size h)) 0).

Section Root.
Context (root : string).

Definition home_text (home : bool) : string := if home then root +:+ ".reset.tmp" else root.
Definition path_text (p : Path) : string := home_text (fst (fst p)) +:+ "/" +:+ (if snd (fst p) then "archive/" else "") +:+ text_of (snd p).

Definition IoErrorMessage (p : Path) (action : string) (w : World) : string := action +:+ " '" +:+ path_text p +:+ "': " +:+ w_errno w.
Definition io_error {X} (p : Path) (action : string) : SE World X := fun w => (w, Error (status.IoError (IoErrorMessage p action w))).

Definition SyncDataFile (f : fd) : SE World unit :=
  ok <- os (fdatasync f) ;; if ok : bool then ret tt else fun w => (w, Error (status.IoError ("fdatasync failed: " +:+ w_errno w))).

Definition EnsureDirectory (text : string) : SE World unit :=
  if bool_decide (text = "") then fail (status.InvalidArgument "durable batch store requires a root directory")
  else
    created <- os attempt ;;
    if negb created then fun w => (w, Error (status.IoError ("unable to create durable batch store directory '" +:+ text +:+ "': " +:+ w_errno w)))
    else
      directory <- os attempt ;;
      if negb directory then fail (status.InvalidArgument "durable batch store root must be a directory") else ret tt.

Definition file_size (p : Path) (w : World) : Z := Z.of_nat (length (content w p)).

(** The header of a new file. *)
Definition initialize_file (p : Path) (f : fd) (magic : list Z) (segment_id : Z) : SE World unit :=
  truncated <- os (ftruncate p kFileHeaderSize) ;;
  written <- (if truncated : bool then os (WriteExact f (pod_bytes (BuildFileHeader magic segment_id)) 0) else ret false) ;;
  if written : bool then ret tt else io_error p "unable to initialize durable batch store file".

Definition check_file (p : Path) (f : fd) (magic : list Z) (expected : option Z) : SE World OpenedStoreFile :=
  w <- get ;;
  let size := file_size p w in
  if size <? kFileHeaderSize then fail (status.FormatError "durable batch store file is smaller than its header")
  else
    read <- os (ReadExact f (pod_size StoreFileHeader) 0) ;;
    match read with
    | None => io_error p "unable to read durable batch store header"
    | Some data =>
        let header := pod_read (A := StoreFileHeader) data in
        if negb (HasMagic header magic) || negb (fh_version header =? kStoreVersion) || negb (fh_header_size header =? kFileHeaderSize) then fail (status.FormatError "durable batch store file has an invalid header")
        else if match expected with Some id => negb (fh_segment_id header =? id) | None => false end then fail (status.FormatError "durable batch store file segment id does not match its companion file")
        else if fh_file_size header <? kFileHeaderSize then fail (status.FormatError "durable batch store file header commits an invalid size")
        else if size <? fh_file_size header then fail (status.FormatError "durable batch store file is truncated below its committed size")
        else if fh_file_size header <? size then
          truncated <- os (ftruncate p (fh_file_size header)) ;;
          if truncated : bool then ret (MkOpened f (fh_file_size header) header) else io_error p "unable to truncate durable batch store tail"
        else ret (MkOpened f size header)
    end.

Definition OpenStoreFile (p : Path) (magic : list Z) (default_segment_id : Z) (expected : option Z) : SE World OpenedStoreFile :=
  f <- os (open_file p) ;;
  match f with
  | None => io_error p "unable to open durable batch store file"
  | Some _ =>
      stat <- os attempt ;;
      if negb stat then io_error p "unable to stat durable batch store file"
      else
        w <- get ;;
        (if file_size p w =? 0 then initialize_file p f magic default_segment_id else ret tt) ;;;
        check_file p f magic expected
  end.

Definition OpenSegmentHandle (log_path index_path : Path) (default_segment_id : Z) (expected : option Z) : SE World SegmentHandle :=
  log <- OpenStoreFile log_path kLogMagic default_segment_id expected ;;
  let id := fh_segment_id (of_header log) in
  index <- OpenStoreFile index_path kIndexMagic id (Some id) ;;
  ret (MkHandle id log_path index_path (of_fd log) (of_fd index) (of_size log) (of_size index) (kFileHeaderSize <? of_size log)).

(** ** Loading *)

Definition set_location (session_id seq_num : Z) (l : OutboundLocation) (m : OutboundIndex) : OutboundIndex := <[session_id := <[seq_num := l]> (default ∅ (m !! session_id))]> m.

Definition location_of (segment_id : Z) (e : OutboundIndexEntry) : OutboundLocation :=
  MkLocation segment_id (ix_log_offset e) (ix_payload_size e) (ix_body_start_offset e) (ix_flags e) (ix_timestamp_ns e).

Fixpoint load_index_loop (fuel : nat) (g : SegmentHandle) (offset : Z) : SE (World * Impl) unit :=
  if sg_index_size g <=? offset then ret tt
  else match fuel with
  | O => fail diverges
  | S fuel =>
      if sg_index_size g <? offset + kIndexEntrySize then fail (status.FormatError "durable batch store index contains a truncated entry")
      else
        read <- disk (os (ReadExact (sg_index_fd g) (pod_size OutboundIndexEntry) offset)) ;;
        match read with
        | None => disk (io_error (sg_index_path g) "unable to read durable batch index entry")
        | Some data =>
            let entry := pod_read (A := OutboundIndexEntry) data in
            if sg_log_size g <? u64 (ix_log_offset entry + kRecordHeaderSize + ix_payload_size entry) then fail (status.FormatError "durable batch store index points past the end of the log")
            else if ix_payload_size entry <? ix_body_start_offset entry then fail (status.FormatError "durable batch store index entry has an invalid body_start_offset")
            else
              private (fun i => with_index (set_location (ix_session_id entry) (ix_seq_num entry) (location_of (sg_segment_id g) entry) (im_outbound_index i)) i) ;;;
              load_index_loop fuel g (offset + kIndexEntrySize)
        end
  end.
Definition LoadSegmentIndex (g : SegmentHandle) : SE (World * Impl) unit := load_index_loop (Z.to_nat (sg_index_size g)) g kFileHeaderSize.

Definition state_of (r : RecoveryRecord) : SessionRecoveryState :=
  MkRecovery (rr_session_id r) (rr_next_in_seq r) (rr_next_out_seq r) (rr_last_inbound_ns r) (rr_last_outbound_ns r) (negb (rr_active r =? 0)).

Fixpoint load_recovery_loop (fuel : nat) (f : fd) (size : Z) (p : Path) (offset : Z) : SE (World * Impl) unit :=
  if size <=? offset then ret tt
  else match fuel with
  | O => fail diverges
  | S fuel =>
      if size <? offset + kRecoveryRecordSize then fail (status.FormatError "durable batch store recovery log contains a truncated entry")
      else
        read <- disk (os (ReadExact f (pod_size RecoveryRecord) offset)) ;;
        match read with
        | None => disk (io_error p "unable to read durable recovery record")
        | Some data =>
            let record := pod_read (A := RecoveryRecord) data in
            private (fun i => with_states (<[rr_session_id record := state_of record]> (im_recovery_states i)) i) ;;;
            load_recovery_loop fuel f size p (offset + kRecoveryRecordSize)
        end
  end.
Definition LoadRecoveryLog (f : fd) (size : Z) (p : Path) : SE (World * Impl) unit := load_recovery_loop (Z.to_nat size) f size p kFileHeaderSize.

Definition local_day (timestamp_ns offset_ns : Z) : Z := Z.quot (i64 timestamp_ns + offset_ns) kNanosPerDay.

Fixpoint detect_day_loop (fuel : nat) (g : SegmentHandle) (offset_ns offset : Z) (day : option Z) : SE World (option Z) :=
  if sg_log_size g <=? offset then ret day
  else match fuel with
  | O => fail diverges
  | S fuel =>
      if sg_log_size g <? offset + kRecordHeaderSize then fail (status.FormatError "durable batch store log contains a truncated record header")
      else
        read <- os (ReadExact (sg_log_fd g) (pod_size StoreRecordHeader) offset) ;;
        match read with
        | None => io_error (sg_log_path g) "unable to read durable log record"
        | Some data =>
            let header := pod_read (A := StoreRecordHeader) data in
            let record_end := offset + kRecordHeaderSize + rh_payload_size header in
            if negb (rh_header_size header =? kRecordHeaderSize) then fail (status.FormatError "durable batch store log contains a record with an unexpected header size")
            else if sg_log_size g <? record_end then fail (status.FormatError "durable batch store log contains a truncated payload")
            else
              detect_day_loop fuel g offset_ns record_end
                (if ((rh_record_type header =? StoreRecordType.kOutbound) || (rh_record_type header =? StoreRecordType.kInbound)) && negb (rh_timestamp_ns header =? 0)
                 then Some (local_day (rh_timestamp_ns header) offset_ns) else day)
        end
  end.
Definition DetectActiveUtcDay (g : SegmentHandle) (offset_ns : Z) : SE World (option Z) := detect_day_loop (Z.to_nat (sg_log_size g)) g offset_ns kFileHeaderSize None.

Definition RemoveSegmentEntries (segment_id : Z) (m : OutboundIndex) : OutboundIndex :=
  filter (fun x => snd x <> ∅) ((fun ranges => filter (fun x => ol_segment_id (snd x) <> segment_id) ranges) <$> m).

Definition ResolveSegmentHandle (i : Impl) (segment_id : Z) : option SegmentHandle :=
  if sg_segment_id (im_active_segment i) =? segment_id then Some (im_active_segment i) else im_archived_segments i !! segment_id.

Fixpoint visit_loop {A} (fuel : nat) (g : SegmentHandle) (fn : StoreRecordHeader -> list Z -> SE (World * A) unit) (offset : Z) : SE (World * A) unit :=
  if sg_log_size g <=? offset then ret tt
  else match fuel with
  | O => fail diverges
  | S fuel =>
      if sg_log_size g <? offset + kRecordHeaderSize then fail (status.FormatError "durable batch store log contains a truncated record header")
      else
        read <- disk (os (ReadExact (sg_log_fd g) (pod_size StoreRecordHeader) offset)) ;;
        match read with
        | None => disk (io_error (sg_log_path g) "unable to read durable log record")
        | Some data =>
            let header := pod_read (A := StoreRecordHeader) data in
            let record_end := offset + kRecordHeaderSize + rh_payload_size header in
            if negb (rh_header_size header =? kRecordHeaderSize) then fail (status.FormatError "durable batch store log contains a record with an unexpected header size")
            else if rh_payload_size header <? rh_body_start_offset header then fail (status.FormatError "durable batch store log contains an invalid body_start_offset")
            else if sg_log_size g <? record_end then fail (status.FormatError "durable batch store log contains a truncated payload")
            else
              payload <- disk (os (ReadExact (sg_log_fd g) (Z.to_nat (rh_payload_size header)) (offset + kRecordHeaderSize))) ;;
              match payload with
              | None => disk (io_error (sg_log_path g) "unable to read durable log payload")
              | Some payload => fn header payload ;;; visit_loop fuel g fn record_end
              end
        end
  end.
Definition VisitSegmentRecords {A} (g : SegmentHandle) (fn : StoreRecordHeader -> list Z -> SE (World * A) unit) : SE (World * A) unit :=
  visit_loop (Z.to_nat (sg_log_size g)) g fn kFileHeaderSize.

(** ** The store *)

(** [home] tells the store from the temporary one that a reset builds; [tm_gmtoff] is what
    the time zone of the system gives. *)
Section Store.
Context (options : DurableBatchStoreOptions) (tm_gmtoff : Z).

Section Home.
Context (home : bool).

Definition in_root (name : string) : Path := (home, false, bytes name).
Definition in_archive (name : list Z) : Path := (home, true, name).
Definition log_name (id : Z) : Path := in_archive (MakeSegmentFileName id kSegmentLogSuffix).
Definition index_name (id : Z) : Path := in_archive (MakeSegmentFileName id kSegmentIndexSuffix).
Definition active_log : Path := in_root "active.log".
Definition active_index : Path := in_root "active.out.idx".
Definition recovery_log : Path := in_root "recovery.log".
Definition archive_text : string := home_text home +:+ "/archive".

(** The names in the archive.  An error of the iterator is looked at inside the loop
    only, which is not entered then. *)
Definition archive_names (w : World) : list (list Z) := map snd (filter (fun p : Path => fst p = (home, true)) (map fst (map_to_list (w_files w)))).
Definition list_archive : SE World (list (list Z)) :=
  listed <- os attempt ;; w <- get ;; ret (if listed : bool then archive_names w else []).

Definition file_exists (p : Path) (what : string) : SE World bool :=
  known <- os attempt ;;
  w <- get ;;
  if known : bool then ret (bool_decide (is_Some (w_files w !! p)))
  else fail (status.IoError ("unable to inspect durable batch active " +:+ what +:+ " path '" +:+ path_text p +:+ "': " +:+ w_errno w)).

Definition remove_file (p : Path) (what : string) : SE World unit :=
  removed <- os (call (Remove p)) ;;
  if removed : bool then ret tt else fun w => (w, Error (status.IoError ("unable to prune archived durable store " +:+ what +:+ " '" +:+ path_text p +:+ "': " +:+ w_errno w))).

(** The oldest segments, as long as there are too many. *)
Fixpoint prune (oldest : list (Z * SegmentHandle)) : SE (World * Impl) unit :=
  match oldest with
  | [] => ret tt
  | (id, g) :: oldest =>
      s <- get ;;
      if Z.of_nat (size (im_archived_segments (snd s))) <=? max_archived_segments options then ret tt
      else
        private (fun i => with_archived (<[id := CloseSegment g]> (im_archived_segments i)) (with_index (RemoveSegmentEntries id (im_outbound_index i)) i)) ;;;
        disk (remove_file (sg_log_path g) "log") ;;;
        disk (remove_file (sg_index_path g) "index") ;;;
        private (fun i => with_archived (delete id (im_archived_segments i)) i) ;;;
        prune oldest
  end.
Definition prune_archive : SE (World * Impl) unit :=
  if max_archived_segments options =? 0 then ret tt else s <- get ;; prune (in_order (im_archived_segments (snd s))).

Definition open_archived (id : Z) : SE (World * Impl) unit :=
  g <- disk (OpenSegmentHandle (log_name id) (index_name id) id (Some id)) ;;
  LoadSegmentIndex g ;;;
  private (fun i => with_archived (<[id := g]> (im_archived_segments i)) i).

Fixpoint open_all (ids : list Z) : SE (World * Impl) unit :=
  match ids with [] => ret tt | id :: ids => open_archived id ;;; open_all ids end.

Definition open_active (archive_ids : list Z) : SE (World * Impl) unit :=
  log_exists <- disk (file_exists active_log "log") ;;
  index_exists <- disk (file_exists active_index "index") ;;
  if negb (eqb log_exists index_exists) then fail (status.FormatError "durable batch store active segment is missing a companion file")
  else
    let default_segment_id := match last archive_ids with None => 1 | Some id => id +u64 1 end in
    g <- disk (OpenSegmentHandle active_log active_index default_segment_id (if log_exists : bool then None else Some default_segment_id)) ;;
    LoadSegmentIndex g ;;;
    private (with_active g).

Definition local_offset_ns (i : Impl) : Z := match rollover_mode options with kLocalTime => im_effective_utc_offset_seconds i * 1000000000 | _ => 0 end.

Definition open_day : SE (World * Impl) unit :=
  private (fun i => match rollover_mode options with
                    | kLocalTime => with_offset (if use_system_timezone options then tm_gmtoff else local_utc_offset_seconds options) i
                    | _ => i
                    end) ;;;
  s <- get ;;
  day <- disk (DetectActiveUtcDay (im_active_segment (snd s)) (local_offset_ns (snd s))) ;;
  private (with_day day).

Definition open_recovery : SE (World * Impl) unit :=
  file <- disk (OpenStoreFile recovery_log kRecoveryMagic 0 (Some 0)) ;;
  private (with_recovery (of_fd file) (of_size file)) ;;;
  LoadRecoveryLog (of_fd file) (of_size file) recovery_log.

Definition is_open (i : Impl) : bool :=
  bool_decide (is_Some (sg_log_fd (im_active_segment i))) && bool_decide (is_Some (sg_index_fd (im_active_segment i))) && bool_decide (is_Some (im_recovery_fd i)).

(** Everything that is kept of the files is dropped. *)
Definition close_all (i : Impl) : Impl :=
  with_active (CloseSegment (im_active_segment i)) (with_archived ∅ (with_index ∅ (with_states ∅ (with_recovery None 0 (with_day None i))))).

Definition Open : SE (World * Impl) unit :=
  s <- get ;;
  if is_open (snd s) then ret tt
  else
    disk (EnsureDirectory (home_text home)) ;;;
    disk (EnsureDirectory archive_text) ;;;
    private close_all ;;;
    names <- disk list_archive ;;
    let archive_ids := unique (stable_sort (fun id => id) (omap ParseSegmentId names)) in
    open_all archive_ids ;;;
    open_active archive_ids ;;;
    open_day ;;;
    open_recovery ;;;
    prune_archive.

(** *** Writing *)

Definition recovery_record (r : SessionRecoveryState) : RecoveryRecord :=
  MkRecoveryRecord (r_session_id r) (r_next_in_seq r) (r_next_out_seq r) (r_last_inbound_ns r) (r_last_outbound_ns r) (if r_active r then 1 else 0).

Definition flush_recovery (e : PendingEntry) : SE (World * Impl) unit :=
  s <- get ;;
  let i := snd s in
  let record := recovery_record (pe_recovery_state e) in
  written <- disk (os (WriteExact (im_recovery_fd i) (pod_bytes record) (im_recovery_size i))) ;;
  if negb written then disk (io_error recovery_log "unable to append durable recovery record")
  else private (fun i => with_states (<[rr_session_id record := pe_recovery_state e]> (im_recovery_states i)) (with_recovery (im_recovery_fd i) (im_recovery_size i + kRecoveryRecordSize) i)).

Definition is_outbound (e : PendingEntry) : bool := match pe_kind e with PendingOutbound => true | _ => false end.
Definition is_recovery (e : PendingEntry) : bool := match pe_kind e with PendingRecovery => true | _ => false end.

Definition record_header (e : PendingEntry) : StoreRecordHeader :=
  MkRecordHeader (if is_outbound e then StoreRecordType.kOutbound else StoreRecordType.kInbound) kRecordHeaderSize (pe_flags e) (pe_session_id e) (pe_seq_num e) (pe_payload_size e) (pe_timestamp_ns e) (pe_body_start_offset e).

Definition index_entry (e : PendingEntry) (log_offset : Z) : OutboundIndexEntry :=
  MkIndexEntry (pe_session_id e) (pe_seq_num e) (pe_flags e) (pe_timestamp_ns e) log_offset (pe_payload_size e) (pe_body_start_offset e).

Definition grow_log (n : Z) (g : SegmentHandle) : SegmentHandle := MkHandle (sg_segment_id g) (sg_log_path g) (sg_index_path g) (sg_log_fd g) (sg_index_fd g) (sg_log_size g + n) (sg_index_size g) true.
Definition grow_index (n : Z) (g : SegmentHandle) : SegmentHandle := MkHandle (sg_segment_id g) (sg_log_path g) (sg_index_path g) (sg_log_fd g) (sg_index_fd g) (sg_log_size g) (sg_index_size g + n) (sg_has_records g).

Definition pending_payload (i : Impl) (e : PendingEntry) : list Z := slice (im_pending_payload_arena i) (Z.to_nat (pe_payload_offset e)) (Z.to_nat (pe_payload_size e)).

Definition flush_index (e : PendingEntry) (log_offset : Z) : SE (World * Impl) unit :=
  s <- get ;;
  let g := im_active_segment (snd s) in
  let entry := index_entry e log_offset in
  written <- disk (os (WriteExact (sg_index_fd g) (pod_bytes entry) (sg_index_size g))) ;;
  if negb written then disk (io_error (sg_index_path g) "unable to append durable index entry")
  else private (fun i => with_index (set_location (ix_session_id entry) (ix_seq_num entry) (location_of (sg_segment_id g) entry) (im_outbound_index i)) (with_active (grow_index kIndexEntrySize (im_active_segment i)) i)).

Definition flush_message (e : PendingEntry) : SE (World * Impl) unit :=
  s <- get ;;
  let i := snd s in
  let g := im_active_segment i in
  let log_offset := sg_log_size g in
  header_written <- disk (os (WriteExact (sg_log_fd g) (pod_bytes (record_header e)) log_offset)) ;;
  if negb header_written then disk (io_error (sg_log_path g) "unable to append durable log header")
  else
    payload_written <- disk (os (WriteExact (sg_log_fd g) (pending_payload i e) (log_offset + kRecordHeaderSize))) ;;
    if negb payload_written then disk (io_error (sg_log_path g) "unable to append durable log payload")
    else
      private (fun i => with_active (grow_log (kRecordHeaderSize + pe_payload_size e) (im_active_segment i)) i) ;;;
      if is_outbound e then flush_index e log_offset else ret tt.

Fixpoint flush_entries (l : list PendingEntry) : SE (World * Impl) unit :=
  match l with [] => ret tt | e :: l => (if is_recovery e then flush_recovery e else flush_message e) ;;; flush_entries l end.

Definition read_header (f : fd) (p : Path) (what : string) : SE World StoreFileHeader :=
  read <- os (ReadExact f (pod_size StoreFileHeader) 0) ;;
  match read with None => io_error p ("unable to read durable batch " +:+ what +:+ " header") | Some data => ret (pod_read data) end.

Definition commit_header (wrote : bool) (f : fd) (p : Path) (h : StoreFileHeader) (size : Z) (what : string) : SE World unit :=
  if wrote then ok <- SyncFileHeader f h size ;; if ok : bool then ret tt else io_error p ("unable to update durable " +:+ what +:+ " header") else ret tt.

Definition sync_if (wrote : bool) (f : fd) : SE World unit := if wrote then SyncDataFile f else ret tt.

Definition Flush : SE (World * Impl) unit :=
  Open ;;;
  s <- get ;;
  let entries := im_pending_entries (snd s) in
  match entries with
  | [] => ret tt
  | _ =>
      let g := im_active_segment (snd s) in
      log_header <- disk (read_header (sg_log_fd g) (sg_log_path g) "log") ;;
      index_header <- disk (read_header (sg_index_fd g) (sg_index_path g) "index") ;;
      recovery_header <- disk (read_header (im_recovery_fd (snd s)) recovery_log "recovery") ;;
      flush_entries entries ;;;
      s <- get ;;
      let i := snd s in
      let g := im_active_segment i in
      let wrote_log := existsb (fun e => negb (is_recovery e)) entries in
      let wrote_index := existsb is_outbound entries in
      let wrote_recovery := existsb is_recovery entries in
      disk (sync_if wrote_log (sg_log_fd g)) ;;;
      disk (sync_if wrote_index (sg_index_fd g)) ;;;
      disk (sync_if wrote_recovery (im_recovery_fd i)) ;;;
      disk (commit_header wrote_log (sg_log_fd g) (sg_log_path g) log_header (sg_log_size g) "batch log") ;;;
      disk (commit_header wrote_index (sg_index_fd g) (sg_index_path g) index_header (sg_index_size g) "batch index") ;;;
      disk (commit_header wrote_recovery (im_recovery_fd i) recovery_log recovery_header (im_recovery_size i) "recovery") ;;;
      disk (sync_if wrote_log (sg_log_fd g)) ;;;
      disk (sync_if wrote_index (sg_index_fd g)) ;;;
      disk (sync_if wrote_recovery (im_recovery_fd i)) ;;;
      private (with_pending [] [])
  end.

(** *** Rollover *)

Fixpoint write_states (f : fd) (l : list SessionRecoveryState) (offset : Z) : SE World Z :=
  match l with
  | [] => ret offset
  | r :: l =>
      written <- os (WriteExact f (pod_bytes (recovery_record r)) offset) ;;
      if negb written then io_error recovery_log "unable to write compacted recovery record" else write_states f l (offset + kRecoveryRecordSize)
  end.

(** [O_TRUNC] without [O_CREAT]. *)
Definition truncate_recovery (w : World) : World * fd :=
  let '(w, done) := attempt w in
  if negb done then (w, None)
  else match w_files w !! recovery_log with
       | None => (with_errno "No such file or directory" w, None)
       | Some _ => (emit (Resize recovery_log 0) w, Some recovery_log)
       end.

Definition compact_recovery (states : list SessionRecoveryState) : SE World Z :=
  f <- os truncate_recovery ;;
  match f with
  | None => io_error recovery_log "unable to truncate recovery log"
  | Some _ =>
      let header := BuildFileHeader kRecoveryMagic 0 in
      written <- os (WriteExact f (pod_bytes header) 0) ;;
      if negb written then io_error recovery_log "unable to write recovery log header"
      else
        offset <- write_states f states kFileHeaderSize ;;
        updated <- SyncFileHeader f header offset ;;
        if negb updated then io_error recovery_log "unable to update compacted recovery header"
        else SyncDataFile f ;;; ret offset
  end.

Definition archive_error {X} (what : string) (p : Path) : SE World X := fun w => (w, Error (status.IoError ("unable to archive durable batch " +:+ what +:+ " '" +:+ path_text p +:+ "': " +:+ w_errno w))).

(** The files of the active segment move to the archive. *)
Definition archive_segment (g : SegmentHandle) : SE World SegmentHandle :=
  let id := sg_segment_id g in
  log_moved <- os (rename_file (sg_log_path g) (log_name id)) ;;
  if negb log_moved then archive_error "log" (sg_log_path g)
  else
    index_moved <- os (rename_file (sg_index_path g) (index_name id)) ;;
    if negb index_moved then
      w <- get ;;
      os (rename_file (log_name id) (sg_log_path g)) ;;;
      fun w' => (w', Error (status.IoError ("unable to archive durable batch index '" +:+ path_text (sg_index_path g) +:+ "': " +:+ w_errno w)))
    else OpenSegmentHandle (log_name id) (index_name id) id (Some id).

Definition Rollover : SE (World * Impl) unit :=
  Flush ;;;
  s <- get ;;
  let archived := im_active_segment (snd s) in
  if negb (sg_has_records archived) then ret tt
  else
    disk (EnsureDirectory archive_text) ;;;
    private (fun i => with_active (CloseSegment (im_active_segment i)) i) ;;;
    reopened <- disk (archive_segment archived) ;;
    private (fun i => with_day None (with_active no_segment (with_archived (<[sg_segment_id archived := reopened]> (im_archived_segments i)) i))) ;;;
    let next_segment_id := sg_segment_id archived +u64 1 in
    active <- disk (OpenSegmentHandle active_log active_index next_segment_id (Some next_segment_id)) ;;
    private (with_active active) ;;;
    prune_archive ;;;
    s <- get ;;
    let i := snd s in
    if bool_decide (is_Some (im_recovery_fd i)) && negb (bool_decide (im_recovery_states i = ∅)) then
      private (with_recovery None 0) ;;;
      offset <- disk (compact_recovery (map snd (map_to_list (im_recovery_states i)))) ;;
      private (with_recovery (Some recovery_log) offset)
    else ret tt.

(** *** Operations *)

Definition flush_when_full : SE (World * Impl) unit :=
  s <- get ;; if flush_threshold options <=? Z.of_nat (length (im_pending_entries (snd s))) then Flush else ret tt.

(** The day of a record, in the modes that roll over by day. *)
Definition record_day (i : Impl) (v : MessageRecordView) : option Z :=
  match rollover_mode options with
  | kUtcDay => Some (v_timestamp_ns v / kNanosPerDay)
  | kLocalTime => Some (local_day (v_timestamp_ns v) (im_effective_utc_offset_seconds i * 1000000000))
  | _ => None
  end.

Definition active_has_messages (i : Impl) : bool := sg_has_records (im_active_segment i) || existsb (fun e => negb (is_recovery e)) (im_pending_entries i).

Definition roll_day (day : Z) : SE (World * Impl) unit :=
  s <- get ;;
  let i := snd s in
  (if active_has_messages i && match im_active_utc_day i with Some active => negb (active =? day) | None => false end then Rollover else ret tt) ;;;
  private (fun i => match im_active_utc_day i with None => with_day (Some day) i | Some _ => i end).

Definition no_state : SessionRecoveryState := MkRecovery 0 1 1 0 0 false.

Definition queue_message (outbound : bool) (v : MessageRecordView) (i : Impl) : Impl :=
  let e := MkPending (if outbound then PendingOutbound else PendingInbound) (v_session_id v) (v_seq_num v) (v_timestamp_ns v) (v_flags v) (u32 (Z.of_nat (length (im_pending_payload_arena i)))) (u32 (Z.of_nat (length (v_payload v)))) (v_body_start_offset v) no_state in
  with_pending (im_pending_entries i ++ [e]) (im_pending_payload_arena i ++ v_payload v) i.

Definition AppendMessageView (outbound : bool) (v : MessageRecordView) : SE (World * Impl) unit :=
  expect (ValidateRecordView v) ;;;
  Open ;;;
  s <- get ;;
  match record_day (snd s) v with Some day => roll_day day | None => ret tt end ;;;
  private (queue_message outbound v) ;;;
  flush_when_full.

Definition AppendMessage (outbound : bool) (r : MessageRecord) : SE (World * Impl) unit := expect (ValidateRecord r) ;;; AppendMessageView outbound (record_view r).

Definition QueueRecoveryState (r : SessionRecoveryState) : SE (World * Impl) unit :=
  expect (ValidateRecoveryState r) ;;;
  Open ;;;
  private (fun i => with_pending (im_pending_entries i ++ [MkPending PendingRecovery 0 0 0 0 0 0 0 r]) (im_pending_payload_arena i) i) ;;;
  flush_when_full.

Definition flush_pending : SE (World * Impl) unit := s <- get ;; match im_pending_entries (snd s) with [] => ret tt | _ => Flush end.

(** The locations of a session between two sequence numbers. *)
Definition locations (i : Impl) (session_id begin_seq end_seq : Z) : list (Z * OutboundLocation) :=
  filter (fun x => begin_seq <= fst x <= end_seq) (in_order (default ∅ (im_outbound_index i !! session_id))).

Definition bad_range (begin_seq end_seq : Z) : bool := (begin_seq =? 0) || (end_seq =? 0) || (end_seq <? begin_seq).

Definition load_outbound (g : SegmentHandle) (l : OutboundLocation) : SE World MessageRecord :=
  read <- os (ReadExact (sg_log_fd g) (pod_size StoreRecordHeader) (ol_log_offset l)) ;;
  match read with
  | None => io_error (sg_log_path g) "unable to read durable outbound record"
  | Some data =>
      let header := pod_read (A := StoreRecordHeader) data in
      if negb (rh_record_type header =? StoreRecordType.kOutbound) || negb (rh_header_size header =? kRecordHeaderSize) then fail (status.FormatError "durable batch store outbound index points to an invalid log record")
      else if rh_payload_size header <? rh_body_start_offset header then fail (status.FormatError "durable batch store outbound record has an invalid body_start_offset")
      else
        payload <- os (ReadExact (sg_log_fd g) (Z.to_nat (rh_payload_size header)) (u64 (ol_log_offset l + kRecordHeaderSize))) ;;
        match payload with
        | None => io_error (sg_log_path g) "unable to read durable outbound payload"
        | Some payload => ret (MkRecord (rh_session_id header) (rh_seq_num header) (rh_timestamp_ns header) (rh_flags header) payload (rh_body_start_offset header))
        end
  end.

Fixpoint load_outbound_all (i : Impl) (l : list (Z * OutboundLocation)) : SE World (list MessageRecord) :=
  match l with
  | [] => ret []
  | (_, x) :: l =>
      match ResolveSegmentHandle i (ol_segment_id x) with
      | None => load_outbound_all i l
      | Some g => r <- load_outbound g x ;; rest <- load_outbound_all i l ;; ret (r :: rest)
      end
  end.

Definition LoadOutboundRange (session_id begin_seq end_seq : Z) : SE (World * Impl) (list MessageRecord) :=
  if bad_range begin_seq end_seq then fail (status.InvalidArgument "invalid outbound load range")
  else flush_pending ;;; s <- get ;; disk (load_outbound_all (snd s) (locations (snd s) session_id begin_seq end_seq)).

(** The views show the metadata of the index; their payloads are copied. *)
Fixpoint load_views (session_id : Z) (l : list (Z * OutboundLocation * SegmentHandle)) : SE World (list MessageRecordView) :=
  match l with
  | [] => ret []
  | (seq_num, x, g) :: l =>
      payload <- os (ReadExact (sg_log_fd g) (Z.to_nat (ol_payload_size x)) (u64 (ol_log_offset x + kRecordHeaderSize))) ;;
      match payload with
      | None => io_error (sg_log_path g) "unable to read durable outbound payload"
      | Some payload => rest <- load_views session_id l ;; ret (MkView session_id seq_num (ol_timestamp_ns x) (ol_flags x) payload (ol_body_start_offset x) :: rest)
      end
  end.
Definition resolved (i : Impl) (l : list (Z * OutboundLocation)) : list (Z * OutboundLocation * SegmentHandle) :=
  omap (fun x => (fun g => (x, g)) <$> ResolveSegmentHandle i (ol_segment_id (snd x))) l.

Definition LoadOutboundRangeViews (session_id begin_seq end_seq : Z) : SE (World * Impl) (list MessageRecordView) :=
  if bad_range begin_seq end_seq then fail (status.InvalidArgument "invalid outbound load range")
  else flush_pending ;;; s <- get ;; disk (load_views session_id (resolved (snd s) (locations (snd s) session_id begin_seq end_seq))).

Definition collect_inbound (session_id begin_seq end_seq : Z) (h : StoreRecordHeader) (payload : list Z) : SE (World * list MessageRecord) unit :=
  if negb (rh_record_type h =? StoreRecordType.kInbound) || negb (rh_session_id h =? session_id) || (rh_seq_num h <? begin_seq) || (end_seq <? rh_seq_num h) then ret tt
  else private (fun records => records ++ [MkRecord (rh_session_id h) (rh_seq_num h) (rh_timestamp_ns h) (rh_flags h) payload (rh_body_start_offset h)]).

Fixpoint visit_all {A} (l : list SegmentHandle) (fn : StoreRecordHeader -> list Z -> SE (World * A) unit) : SE (World * A) unit :=
  match l with [] => ret tt | g :: l => VisitSegmentRecords g fn ;;; visit_all l fn end.

Definition all_segments (i : Impl) : list SegmentHandle := map snd (in_order (im_archived_segments i)) ++ [im_active_segment i].

(** A walk over the segments with an accumulator of its own. *)
Definition collecting {A X} (acc : A) (m : SE (World * A) X) : SE World A :=
  fun w => let '((w, acc), r) := m (w, acc) in match r with Value _ => (w, Value acc) | Error e => (w, Error e) end.

Definition LoadInboundRange (session_id begin_seq end_seq : Z) : SE (World * Impl) (list MessageRecord) :=
  if bad_range begin_seq end_seq then fail (status.InvalidArgument "invalid inbound load range")
  else
    Open ;;;
    flush_pending ;;;
    s <- get ;;
    records <- disk (collecting [] (visit_all (all_segments (snd s)) (collect_inbound session_id begin_seq end_seq))) ;;
    ret (stable_sort rec_seq_num records).

Definition LoadRecoveryState (session_id : Z) : SE (World * Impl) SessionRecoveryState :=
  flush_pending ;;;
  s <- get ;;
  match im_recovery_states (snd s) !! session_id with None => fail (status.NotFound "recovery state not found") | Some r => ret r end.

Definition forget (i : Impl) : Impl := MkImpl no_segment ∅ None 0 ∅ ∅ [] [] None (im_effective_utc_offset_seconds i).
Definition Refresh : SE (World * Impl) unit := private forget ;;; Open.
End Home.

(** ** Reset *)

(** A record that is not of the session is saved again in the temporary store. *)
Definition resave (session_id : Z) (h : StoreRecordHeader) (payload : list Z) : SE (World * Impl) unit :=
  if rh_session_id h =? session_id then ret tt
  else
    let v := MkView (rh_session_id h) (rh_seq_num h) (rh_timestamp_ns h) (rh_flags h) payload (rh_body_start_offset h) in
    if rh_record_type h =? StoreRecordType.kOutbound then AppendMessageView true true v
    else if rh_record_type h =? StoreRecordType.kInbound then AppendMessageView true false v
    else fail (status.FormatError "durable batch store log contains an unknown record type").

Fixpoint resave_states (session_id : Z) (l : list (Z * SessionRecoveryState)) : SE (World * Impl) unit :=
  match l with [] => ret tt | (id, r) :: l => (if id =? session_id then ret tt else QueueRecoveryState true r) ;;; resave_states session_id l end.

(** The temporary store; its destructor flushes whatever the outcome. *)
Definition rebuild (session_id : Z) (old : Impl) : SE World unit :=
  fun w =>
    let '(s, r) := (Open true ;;; visit_all (all_segments old) (resave session_id) ;;; resave_states session_id (map_to_list (im_recovery_states old)) ;;; Flush true) (w, NewImpl) in
    let '(s, _) := Flush true s in
    (fst s, r).

Definition directory_error {X} (text : string) : SE World X := fun w => (w, Error (status.IoError (text +:+ w_errno w))).

Definition ResetSession (session_id : Z) : SE (World * Impl) unit :=
  if session_id =? 0 then fail (status.InvalidArgument "session reset requires a valid session id")
  else
    Flush false ;;;
    Open false ;;;
    cleared <- disk (os (call (RemoveAll true))) ;;
    if negb cleared then disk (directory_error ("unable to prepare temporary durable batch store root '" +:+ home_text true +:+ "': "))
    else
      s <- get ;;
      disk (rebuild session_id (snd s)) ;;;
      private (fun i => with_archived ∅ (with_recovery None 0 (with_active no_segment i))) ;;;
      removed <- disk (os (call (RemoveAll false))) ;;
      if negb removed then disk (directory_error ("unable to reset durable batch store root '" +:+ root +:+ "': "))
      else
        replaced <- disk (os (call Replace)) ;;
        if negb replaced then disk (directory_error ("unable to replace durable batch store root '" +:+ root +:+ "': "))
        else
          private (fun i => with_day None (with_pending [] [] (with_states ∅ (with_index ∅ i)))) ;;;
          Open false.
End Store.
End Root.
