(* ===== verification/DurableProofs.v ===== *)
(** * The durable batch store: what it keeps

    The store beside an abstract one: a list of flushed entries and a list of queued
    ones.  The files of the store are determined by the messages of each segment and the
    recovery states written since the last compaction; every operation keeps that form,
    and what is loaded is what the abstract store holds. *)
From S2P Require Import Prelude Base StdAlgo IntFormat Wire SessionStore Artifact Disk DurableStore.
Open Scope Z_scope.

#[export] Instance file_header_spec : PodSpec StoreFileHeader.
Proof. constructor; [done|by intros []|cbn; lia]. Qed.
#[export] Instance record_header_spec : PodSpec StoreRecordHeader.
Proof. constructor; [done|by intros []|cbn; lia]. Qed.
#[export] Instance index_entry_spec : PodSpec OutboundIndexEntry.
Proof. constructor; [done|by intros []|cbn; lia]. Qed.
#[export] Instance recovery_record_spec : PodSpec RecoveryRecord.
Proof. constructor; [done|by intros []|cbn; lia]. Qed.

(** ** Segment names *)

Lemma decimal_digits n : 0 <= n <= UINT64_MAX -> Forall is_digit (decimal n) /\ numeral_value (decimal n) = n /\ decimal n <> [].
Proof.
  intros Hn. unfold decimal. destruct (Z.eqb_spec n 0) as [->|Hz]; [split; [repeat constructor; unfold is_digit; lia|done]|].
  destruct (digits_loop_canonical 20 n ltac:(ulia)) as (H1 & H2 & H3). split; [done|]. split; [done|]. intros E. rewrite E in H2. unfold numeral_value in H2. cbn in H2. lia.
Qed.

Lemma numeral_zeros k l : numeral_value (replicate k 48 ++ l) = numeral_value l.
Proof. unfold numeral_value. induction k as [|k IH]; cbn [replicate app fold_left]; [done|exact IH]. Qed.

Lemma digit_no_space c : is_digit c -> is_space c = false /\ c <> 45 /\ c <> 43.
Proof. unfold is_digit, is_space. intros Hc. split; [|lia]. destruct (Z.eqb_spec c 32); [lia|]. destruct (Z.leb_spec 9 c), (Z.leb_spec c 13); cbn; lia || done. Qed.

Lemma stoull_digits l : Forall is_digit l -> l <> [] -> numeral_value l <= UINT64_MAX -> stoull l = Some (numeral_value l).
Proof.
  intros Hd Hne Hv. destruct l as [|c l]; [done|]. assert (Hc := Forall_inv Hd). destruct (digit_no_space c Hc) as (Hs & H1 & H2). unfold stoull. cbn [skip_spaces]. rewrite Hs.
  assert (E : (match c with 45 => (true, l) | 43 => (false, l) | _ => (false, c :: l) end) = (false, c :: l)).
  { unfold is_digit in Hc. assert (c = 48 \/ c = 49 \/ c = 50 \/ c = 51 \/ c = 52 \/ c = 53 \/ c = 54 \/ c = 55 \/ c = 56 \/ c = 57) as Hcs by lia. repeat destruct Hcs as [->|Hcs]; try done. by subst. }
  rewrite E. rewrite digit_prefix_all by done. destruct (Z.ltb_spec UINT64_MAX (numeral_value (c :: l))); [lia|done].
Qed.

Lemma suffix_drop {A} (a b : list A) : drop (length (a ++ b) - length b) (a ++ b) = b.
Proof. rewrite length_app, Nat.add_sub. apply drop_app_length. Qed.

(** The number of a segment is read back from the name of its log, and from no other
    file. *)
Lemma parse_log_name id : 0 <= id <= UINT64_MAX -> ParseSegmentId (MakeSegmentFileName id kSegmentLogSuffix) = Some id.
Proof.
  intros Hid. destruct (decimal_digits id Hid) as (Hd & Hv & Hne). unfold ParseSegmentId, MakeSegmentFileName. set (ds := replicate (kSegmentIdWidth - length (decimal id)) 48 ++ decimal id).
  assert (Eall : kSegmentFilePrefix ++ replicate (kSegmentIdWidth - length (decimal id)) 48 ++ decimal id ++ kSegmentLogSuffix = (kSegmentFilePrefix ++ ds) ++ kSegmentLogSuffix) by (unfold ds; by rewrite <- !app_assoc).
  assert (E1 : starts_with kSegmentFilePrefix ((kSegmentFilePrefix ++ ds) ++ kSegmentLogSuffix) = true) by (unfold starts_with; apply bool_decide_eq_true; rewrite <- app_assoc; apply take_app_length).
  assert (E2 : ends_with kSegmentLogSuffix ((kSegmentFilePrefix ++ ds) ++ kSegmentLogSuffix) = true) by (unfold ends_with; apply andb_true_iff; split; [apply Nat.leb_le; rewrite length_app; lia|apply bool_decide_eq_true, suffix_drop]).
  rewrite Eall, E1, E2. cbn [negb orb].
  assert (Es : slice ((kSegmentFilePrefix ++ ds) ++ kSegmentLogSuffix) (length kSegmentFilePrefix) (length ((kSegmentFilePrefix ++ ds) ++ kSegmentLogSuffix) - length kSegmentFilePrefix - length kSegmentLogSuffix) = ds).
  { unfold slice. rewrite <- app_assoc, drop_app_length. rewrite !length_app. replace (length kSegmentFilePrefix + (length ds + length kSegmentLogSuffix) - length kSegmentFilePrefix - length kSegmentLogSuffix)%nat with (length ds) by lia. apply take_app_length. }
  rewrite Es. rewrite stoull_digits; [f_equal; unfold ds; by rewrite numeral_zeros| | |].
  - unfold ds. apply Forall_app_2; [|done]. apply Forall_replicate. unfold is_digit. lia.
  - unfold ds. intros E. apply app_nil in E as [_ E]. done.
  - unfold ds. rewrite numeral_zeros, Hv. lia.
Qed.

Lemma parse_index_name id : ParseSegmentId (MakeSegmentFileName id kSegmentIndexSuffix) = None.
Proof.
  unfold ParseSegmentId, MakeSegmentFileName. assert (E : ends_with kSegmentLogSuffix (kSegmentFilePrefix ++ replicate (kSegmentIdWidth - length (decimal id)) 48 ++ decimal id ++ kSegmentIndexSuffix) = false).
  { unfold ends_with. rewrite !app_assoc. apply andb_false_iff. right. apply bool_decide_eq_false. generalize ((kSegmentFilePrefix ++ replicate (kSegmentIdWidth - length (decimal id)) 48) ++ decimal id). intros a.
    rewrite length_app. change (length kSegmentIndexSuffix) with 8%nat. change (length kSegmentLogSuffix) with 4%nat. replace (length a + 8 - 4)%nat with (length a + 4)%nat by lia. rewrite drop_app_add. done. }
  rewrite E. by rewrite orb_true_r.
Qed.

Lemma segment_name_inj a b suffix : 0 <= a <= UINT64_MAX -> 0 <= b <= UINT64_MAX -> MakeSegmentFileName a suffix = MakeSegmentFileName b suffix -> a = b.
Proof.
  unfold MakeSegmentFileName. intros Ha Hb E. apply app_inv_head in E. rewrite !app_assoc in E. apply app_inv_tail in E. apply (f_equal numeral_value) in E. rewrite !numeral_zeros in E.
  destruct (decimal_digits a Ha) as (_ & <- & _). destruct (decimal_digits b Hb) as (_ & <- & _). exact E.
Qed.

(** ** Worlds in which nothing fails *)

Definition at_rest (f : Files) (w : World) : Prop := w_files w = f /\ w_script w = [].

(** The call succeeds and leaves these files. *)
Definition does {X} (m : SE World X) (f f' : Files) (x : X) : Prop := forall w, at_rest f w -> exists w', m w = (w', Value x) /\ at_rest f' w'.
(** The same with an object beside the world. *)
Definition yields {A X} (m : SE (World * A) X) (f : Files) (a : A) (f' : Files) (a' : A) (x : X) : Prop :=
  forall w, at_rest f w -> exists w', m (w, a) = ((w', a'), Value x) /\ at_rest f' w'.

Lemma does_ret {X} (x : X) f : does (ret x) f f x.
Proof. intros w Hw. by exists w. Qed.

Lemma does_bind {X Y} (m : SE World X) (k : X -> SE World Y) f f1 f2 x y : does m f f1 x -> does (k x) f1 f2 y -> does (bind m k) f f2 y.
Proof. intros Hm Hk w Hw. destruct (Hm w Hw) as (w1 & E1 & H1). destruct (Hk w1 H1) as (w2 & E2 & H2). exists w2. unfold bind. by rewrite E1. Qed.

Lemma does_get {Y} (k : World -> SE World Y) f f' y : (forall w, at_rest f w -> does (k w) f f' y) -> does (bind get k) f f' y.
Proof. intros Hk w Hw. exact (Hk w Hw w Hw). Qed.

Lemma yields_ret {A X} (x : X) f (a : A) : yields (ret x) f a f a x.
Proof. intros w Hw. by exists w. Qed.

Lemma yields_bind {A X Y} (m : SE (World * A) X) (k : X -> SE (World * A) Y) f a f1 a1 f2 a2 x y : yields m f a f1 a1 x -> yields (k x) f1 a1 f2 a2 y -> yields (bind m k) f a f2 a2 y.
Proof. intros Hm Hk w Hw. destruct (Hm w Hw) as (w1 & E1 & H1). destruct (Hk w1 H1) as (w2 & E2 & H2). exists w2. unfold bind. by rewrite E1. Qed.

Lemma yields_get {A Y} (k : World * A -> SE (World * A) Y) f a f' a' y : (forall w, at_rest f w -> yields (k (w, a)) f a f' a' y) -> yields (bind get k) f a f' a' y.
Proof. intros Hk w Hw. exact (Hk w Hw w Hw). Qed.

Lemma yields_disk {A X} (m : SE World X) f f' (a : A) x : does m f f' x -> yields (disk m) f a f' a x.
Proof. intros Hm w Hw. destruct (Hm w Hw) as (w' & E & H'). exists w'. unfold disk. cbn [fst snd]. by rewrite E. Qed.

Lemma yields_private {A} (g : A -> A) f a : yields (private g) f a f (g a) tt.
Proof. intros w Hw. by exists w. Qed.

Lemma does_attempt f : does (os attempt) f f true.
Proof. intros w [Hf Hs]. exists w. unfold os, attempt. rewrite Hs. by split. Qed.

Lemma does_call op f : does (os (call op)) f (apply_op op f) true.
Proof. intros w [Hf Hs]. exists (emit op w). unfold os, call, attempt. rewrite Hs. split; [done|]. split; [cbn; by rewrite Hf|done]. Qed.

Lemma does_open_file p f : does (os (open_file p)) f (apply_op (Create p) f) (Some p).
Proof. intros w [Hf Hs]. exists (emit (Create p) w). unfold os, open_file, attempt. rewrite Hs. split; [done|]. split; [cbn [emit w_files]; by rewrite Hf|done]. Qed.

Lemma does_rename p q c f : f !! p = Some c -> does (os (rename_file p q)) f (<[q := c]> (delete p f)) true.
Proof.
  intros Hp w [Hf Hs]. exists (emit (Rename p q) w). unfold os, rename_file, attempt. rewrite Hs. cbn [negb]. rewrite Hf, Hp. split; [done|]. split; [|done]. cbn [emit w_files apply_op]. by rewrite Hf, Hp.
Qed.

Lemma write_calm p offset data w : w_script w = [] -> exists w', write_loop (w_script w) p offset data w = (w', true) /\ w_script w' = [] /\ w_files w' = match data with [] => w_files w | _ => alter (write_at offset data) p (w_files w) end.
Proof. intros Hs. rewrite Hs. destruct data as [|x data]; cbn [write_loop]; eexists; (split; [reflexivity|]); done. Qed.

Lemma does_write p data (offset : Z) c f : f !! p = Some c -> 0 <= offset <= Z.of_nat (length c) -> does (os (WriteExact (Some p) data offset)) f (<[p := write_at (Z.to_nat offset) data c]> f) true.
Proof.
  intros Hp Ho w [Hf Hs]. unfold os, WriteExact. destruct (write_calm p (Z.to_nat offset) data w Hs) as (w' & E & Hs' & Hf'). exists w'. rewrite E. split; [done|]. split; [|done]. rewrite Hf', Hf. destruct data as [|x data].
  - rewrite write_at_nil by lia. by rewrite insert_id.
  - apply map_eq. intros q. destruct (decide (p = q)) as [<-|Hne]; [by rewrite lookup_alter_eq, lookup_insert_eq, Hp|by rewrite lookup_alter_ne, lookup_insert_ne].
Qed.

Lemma does_append p data (offset : Z) c f : f !! p = Some c -> offset = Z.of_nat (length c) -> does (os (WriteExact (Some p) data offset)) f (<[p := c ++ data]> f) true.
Proof. intros Hp ->. rewrite <- write_at_end. rewrite <- (Nat2Z.id (length c)) at 2. apply does_write; [done|lia]. Qed.

Lemma does_read p size (offset : Z) c f : f !! p = Some c -> 0 <= offset -> (Z.to_nat offset + size <= length c)%nat -> Z.of_nat (length c) < 9223372036854775808 ->
  does (os (ReadExact (Some p) size offset)) f f (Some (slice c (Z.to_nat offset) size)).
Proof.
  intros Hp Ho Hl Hb w [Hf Hs]. exists w. unfold os, ReadExact, content. rewrite Hs, Hf, Hp. cbn [default].
  destruct size as [|size]; [destruct (Z.leb_spec 9223372036854775808 offset); cbn [read_loop]; rewrite ?Hs; unfold slice; rewrite take_0; (split; [destruct w; cbn in *; subst; done|done])|].
  destruct (Z.leb_spec 9223372036854775808 offset); [lia|]. cbn [read_loop]. rewrite length_slice, Nat.eqb_refl by done. split; [|done]. destruct w; cbn in *; by subst.
Qed.

Lemma does_sync p f : does (SyncDataFile (Some p)) f f tt.
Proof. unfold SyncDataFile. eapply does_bind; [apply (does_call (Sync p))|]. apply does_ret. Qed.

Lemma does_directory text f : text <> "" -> does (EnsureDirectory text) f f tt.
Proof.
  intros Ht. unfold EnsureDirectory. rewrite bool_decide_false by done. eapply does_bind; [apply does_attempt|]. cbn [negb]. eapply does_bind; [apply does_attempt|]. apply does_ret.
Qed.

(** ** Store files *)

Definition kLimit : Z := 9223372036854775808.

Definition file_header (magic : list Z) (id size : Z) : StoreFileHeader := MkFileHeader (le_value magic) kStoreVersion kFileHeaderSize size id.
Definition body_size (body : list Z) : Z := kFileHeaderSize + Z.of_nat (length body).
Definition store_file (magic : list Z) (id : Z) (body : list Z) : list Z := pod_bytes (file_header magic id (body_size body)) ++ body.

Definition kMagics : list (list Z) := [kLogMagic; kIndexMagic; kRecoveryMagic].

Lemma magic_fits magic : magic ∈ kMagics -> word_fits 8 (le_value magic).
Proof. unfold kMagics. rewrite !elem_of_cons, elem_of_nil. intros [->|[->|[->|[]]]]; apply word_fits_8; split; apply Z.leb_le; reflexivity. Qed.

(** The words of a record, one by one. *)
Ltac pod_words := unfold pod_fits; repeat (apply Forall2_cons_2; [|]); [..|apply Forall2_nil_2].

Lemma file_header_fits magic id size : magic ∈ kMagics -> in_u64 id -> in_u64 size -> pod_fits (file_header magic id size).
Proof.
  intros Hm Hi Hs. pod_words; cbn; [by apply magic_fits|apply word_fits_4; unfold kStoreVersion; ulia|apply word_fits_4; split; apply Z.leb_le; reflexivity|by apply word_fits_8|by apply word_fits_8].
Qed.

Lemma length_store_file magic id body : length (store_file magic id body) = (pod_size StoreFileHeader + length body)%nat.
Proof. unfold store_file. by rewrite length_app, length_pod_bytes. Qed.

Lemma store_file_size magic id body : Z.of_nat (length (store_file magic id body)) = body_size body.
Proof. rewrite length_store_file. unfold body_size, kFileHeaderSize. lia. Qed.

Lemma store_file_head magic id body : slice (store_file magic id body) 0 (pod_size StoreFileHeader) = pod_bytes (file_header magic id (body_size body)).
Proof. unfold slice, store_file. rewrite drop_0. apply take_app_length'. by rewrite length_pod_bytes. Qed.

Lemma store_file_body magic id body offset size : slice (store_file magic id body) (pod_size StoreFileHeader + offset) size = slice body offset size.
Proof. unfold slice, store_file. rewrite <- (length_pod_bytes (file_header magic id (body_size body))) at 1. by rewrite drop_app_add. Qed.

Lemma pod_read_alone {A} `{PodSpec A} (a : A) : pod_fits a -> pod_read (pod_bytes a) = a.
Proof. intros Ha. rewrite <- (app_nil_r (pod_bytes a)). by apply pod_read_bytes. Qed.

(** A file of the store can be addressed. *)
Definition fits_disk (body : list Z) : Prop := body_size body < kLimit.

Lemma fits_disk_u64 body : fits_disk body -> in_u64 (body_size body).
Proof. unfold fits_disk, kLimit, body_size, kFileHeaderSize. intros Hf. ulia. Qed.

Lemma content_at w f p c : w_files w = f -> f !! p = Some c -> content w p = c.
Proof. unfold content. intros -> ->. done. Qed.

Section Root.
Context (root : string).

Lemma does_check p f magic id body expected : magic ∈ kMagics -> in_u64 id -> fits_disk body -> f !! p = Some (store_file magic id body) -> (expected = None \/ expected = Some id) ->
  does (check_file root p (Some p) magic expected) f f (MkOpened (Some p) (body_size body) (file_header magic id (body_size body))).
Proof.
  intros Hm Hi Hb Hp He. unfold check_file. apply does_get. intros w [Hf Hs]. unfold file_size. rewrite (content_at _ _ _ _ Hf Hp), store_file_size.
  destruct (Z.ltb_spec (body_size body) kFileHeaderSize) as [Hlt|_]; [unfold body_size in Hlt; lia|].
  eapply does_bind; [apply does_read; [exact Hp|lia|rewrite length_store_file; lia|rewrite store_file_size; exact Hb]|]. rewrite Z2Nat.inj_0, store_file_head. cbv beta.
  rewrite pod_read_alone by (apply file_header_fits; [done|done|by apply fits_disk_u64]). unfold HasMagic. cbn [file_header fh_magic fh_version fh_header_size fh_file_size fh_segment_id]. rewrite !Z.eqb_refl. cbn [negb orb].
  assert (E : match expected with Some id' => negb (id =? id') | None => false end = false) by (destruct He as [->| ->]; [done|by rewrite Z.eqb_refl]). rewrite E, Z.ltb_irrefl.
  destruct (Z.ltb_spec (body_size body) kFileHeaderSize) as [Hlt|_]; [unfold body_size in Hlt; lia|]. apply does_ret.
Qed.

Lemma does_open p f magic id body default expected : magic ∈ kMagics -> in_u64 id -> fits_disk body -> f !! p = Some (store_file magic id body) -> (expected = None \/ expected = Some id) ->
  does (OpenStoreFile root p magic default expected) f f (MkOpened (Some p) (body_size body) (file_header magic id (body_size body))).
Proof.
  intros Hm Hi Hb Hp He. unfold OpenStoreFile. eapply does_bind; [apply does_open_file|]. cbn [apply_op]. rewrite Hp. eapply does_bind; [apply does_attempt|]. cbn [negb]. apply does_get. intros w [Hf Hs].
  unfold file_size. rewrite (content_at _ _ _ _ Hf Hp), store_file_size. destruct (Z.eqb_spec (body_size body) 0) as [E|_]; [unfold body_size, kFileHeaderSize in E; cbn in E; lia|].
  eapply does_bind; [apply does_ret|]. by apply does_check.
Qed.

Lemma does_create p f magic id expected : magic ∈ kMagics -> in_u64 id -> f !! p = None -> (expected = None \/ expected = Some id) ->
  does (OpenStoreFile root p magic id expected) f (<[p := store_file magic id []]> f) (MkOpened (Some p) kFileHeaderSize (file_header magic id kFileHeaderSize)).
Proof.
  intros Hm Hi Hp He. unfold OpenStoreFile. eapply does_bind; [apply does_open_file|]. cbn [apply_op]. rewrite Hp. eapply does_bind; [apply does_attempt|]. cbn [negb]. apply does_get. intros w [Hf Hs].
  unfold file_size. rewrite (content_at _ _ _ _ Hf (lookup_insert_eq _ _ _)). change (length []) with O. change (Z.of_nat 0 =? 0) with true. cbv iota.
  assert (Hinit : does (initialize_file root p (Some p) magic id) (<[p:=[]]> f) (<[p := store_file magic id []]> f) tt).
  { unfold initialize_file, ftruncate. eapply does_bind; [apply does_call|]. cbv beta iota. cbn [apply_op].
    assert (Ea : alter (resize (Z.to_nat kFileHeaderSize)) p (<[p:=[]]> f) = <[p := replicate (pod_size StoreFileHeader) 0]> f).
    { apply map_eq. intros q. destruct (decide (p = q)) as [<-|Hne]; [rewrite lookup_alter_eq, !lookup_insert_eq; done|by rewrite lookup_alter_ne, !lookup_insert_ne]. }
    rewrite Ea. eapply does_bind; [apply does_write; [apply lookup_insert_eq|split; [lia|apply Nat2Z.is_nonneg]]|]. cbv iota. rewrite insert_insert_eq.
    rewrite Z2Nat.inj_0, write_at_start, drop_ge by (rewrite length_replicate, length_pod_bytes; lia). apply does_ret. }
  eapply does_bind; [exact Hinit|]. assert (Hsz : kFileHeaderSize = body_size []) by done. rewrite Hsz. apply does_check; [done|done|by vm_compute|apply lookup_insert_eq|done].
Qed.
End Root.

(** ** Messages in a log *)

(** A message of a segment: whether it went out, and the record. *)
Notation Msg := (bool * MessageRecordView)%type.

Definition payload_size (m : Msg) : Z := Z.of_nat (length (v_payload (snd m))).
Definition msg_header (m : Msg) : StoreRecordHeader :=
  let v := snd m in MkRecordHeader (if fst m then StoreRecordType.kOutbound else StoreRecordType.kInbound) kRecordHeaderSize (v_flags v) (v_session_id v) (v_seq_num v) (payload_size m) (v_timestamp_ns v) (v_body_start_offset v).
Definition msg_bytes (m : Msg) : list Z := pod_bytes (msg_header m) ++ v_payload (snd m).
Definition msg_size (m : Msg) : Z := kRecordHeaderSize + payload_size m.
Definition log_body (l : list Msg) : list Z := concat (map msg_bytes l).

Definition msg_entry (offset : Z) (m : Msg) : OutboundIndexEntry :=
  let v := snd m in MkIndexEntry (v_session_id v) (v_seq_num v) (v_flags v) (v_timestamp_ns v) offset (payload_size m) (v_body_start_offset v).
Fixpoint index_entries (offset : Z) (l : list Msg) : list OutboundIndexEntry :=
  match l with [] => [] | m :: l => (if fst m then [msg_entry offset m] else []) ++ index_entries (offset + msg_size m) l end.
Definition index_body (l : list Msg) : list Z := SerializeEntries (index_entries kFileHeaderSize l).
Definition states_body (l : list SessionRecoveryState) : list Z := SerializeEntries (map recovery_record l).

Definition add_entries (id : Z) (es : list OutboundIndexEntry) (m : OutboundIndex) : OutboundIndex :=
  fold_left (fun m e => set_location (ix_session_id e) (ix_seq_num e) (location_of id e) m) es m.
Definition add_states (l : list SessionRecoveryState) (m : gmap Z SessionRecoveryState) : gmap Z SessionRecoveryState := fold_left (fun m r => <[r_session_id r := r]> m) l m.

(** Records as the types of the source have them, and accepted. *)
Record msg_ok (m : Msg) : Prop := {
  mo_session : 0 < v_session_id (snd m) <= UINT64_MAX;
  mo_seq : 0 < v_seq_num (snd m) <= UINT32_MAX;
  mo_time : in_u64 (v_timestamp_ns (snd m));
  mo_flags : in_u16 (v_flags (snd m));
  mo_payload : payload_size m <= UINT32_MAX;
  mo_body : 0 <= v_body_start_offset (snd m) <= payload_size m;
}.
Record state_ok (r : SessionRecoveryState) : Prop := {
  so_session : 0 < r_session_id r <= UINT64_MAX;
  so_in : in_u32 (r_next_in_seq r);
  so_out : in_u32 (r_next_out_seq r);
  so_in_ns : in_u64 (r_last_inbound_ns r);
  so_out_ns : in_u64 (r_last_outbound_ns r);
}.

Lemma word_fits_16 x : in_u16 x -> word_fits 2 x.
Proof. unfold in_u16, word_fits. change (256 ^ Z.of_nat 2) with 65536. lia. Qed.

Lemma zero_fits n : word_fits n 0.
Proof. unfold word_fits. split; [lia|apply Z.pow_pos_nonneg; lia]. Qed.

Lemma msg_header_fits m : msg_ok m -> pod_fits (msg_header m).
Proof.
  intros []. unfold payload_size in *. pod_words; cbn; try apply zero_fits; try (apply word_fits_4; destruct (fst m); unfold payload_size, StoreRecordType.kOutbound, StoreRecordType.kInbound in *; ulia); try (by apply word_fits_16); try (apply word_fits_8; ulia).
Qed.

Lemma msg_entry_fits offset m : msg_ok m -> in_u64 offset -> pod_fits (msg_entry offset m).
Proof.
  intros [] Ho. unfold payload_size in *. pod_words; cbn; try apply zero_fits; try (apply word_fits_4; unfold payload_size in *; ulia); try (by apply word_fits_16); try (apply word_fits_8; ulia).
Qed.

Lemma recovery_record_fits r : state_ok r -> pod_fits (recovery_record r).
Proof.
  intros []. pod_words; cbn; try apply zero_fits; try (apply word_fits_8; ulia); try (by apply word_fits_4). unfold word_fits. destruct (r_active r); change (256 ^ Z.of_nat 1) with 256; lia.
Qed.

Lemma state_of_record r : state_of (recovery_record r) = r.
Proof. destruct r as [? ? ? ? ? []]; done. Qed.

Lemma length_msg_bytes m : Z.of_nat (length (msg_bytes m)) = msg_size m.
Proof. unfold msg_bytes, msg_size, payload_size, kRecordHeaderSize. rewrite length_app, length_pod_bytes. lia. Qed.

Lemma msg_size_pos m : 0 < kRecordHeaderSize <= msg_size m.
Proof. unfold msg_size, payload_size. change kRecordHeaderSize with 64. lia. Qed.

Lemma log_body_app l l' : log_body (l ++ l') = log_body l ++ log_body l'.
Proof. unfold log_body. by rewrite map_app, concat_app. Qed.

Definition log_end (l : list Msg) : Z := body_size (log_body l).

Lemma log_end_app l l' : log_end (l ++ l') = log_end l + Z.of_nat (length (log_body l')).
Proof. unfold log_end, body_size. rewrite log_body_app, length_app. lia. Qed.

Lemma log_end_snoc l m : log_end (l ++ [m]) = log_end l + msg_size m.
Proof. rewrite log_end_app. unfold log_body. cbn [map concat]. rewrite app_nil_r, length_msg_bytes. done. Qed.

Lemma index_entries_app offset l l' : index_entries offset (l ++ l') = index_entries offset l ++ index_entries (offset + Z.of_nat (length (log_body l))) l'.
Proof.
  revert offset. induction l as [|m l IH]; intros offset; [cbn; by rewrite Z.add_0_r|]. cbn [app index_entries]. rewrite IH, <- app_assoc. f_equal. f_equal. f_equal. unfold log_body. cbn [map concat]. rewrite length_app, <- length_msg_bytes. lia.
Qed.

Lemma index_entries_snoc l m : index_entries kFileHeaderSize (l ++ [m]) = index_entries kFileHeaderSize l ++ (if fst m then [msg_entry (log_end l) m] else []).
Proof. rewrite index_entries_app. cbn. by rewrite app_nil_r. Qed.

Lemma serialize_app {A} `{Pod A} (l l' : list A) : SerializeEntries (l ++ l') = SerializeEntries l ++ SerializeEntries l'.
Proof. unfold SerializeEntries. by rewrite map_app, concat_app. Qed.

Lemma index_body_snoc l m : index_body (l ++ [m]) = index_body l ++ (if fst m then pod_bytes (msg_entry (log_end l) m) else []).
Proof. unfold index_body. rewrite index_entries_snoc, serialize_app. destruct (fst m); [|done]. f_equal. Qed.

(** Reading one of the serialized records. *)
Lemma slice_serialized {A} `{PodSpec A} (l l' : list A) a : slice (SerializeEntries (l ++ a :: l')) (length l * pod_size A) (pod_size A) = pod_bytes a.
Proof.
  rewrite serialize_app, <- length_serialize. unfold slice. rewrite drop_app_length. unfold SerializeEntries. cbn. apply take_app_length'. by rewrite length_pod_bytes.
Qed.

(** ** Loading a segment *)

(** The handle of a segment that is open. *)
Definition handle_of (log_path index_path : Path) (id : Z) (l : list Msg) : SegmentHandle :=
  MkHandle id log_path index_path (Some log_path) (Some index_path) (log_end l) (body_size (index_body l)) (kFileHeaderSize <? log_end l).

(** An entry that the loader accepts. *)
Definition entry_ok (limit : Z) (e : OutboundIndexEntry) : Prop :=
  pod_fits e /\ 0 <= ix_log_offset e /\ 0 <= ix_payload_size e /\ ix_log_offset e + kRecordHeaderSize + ix_payload_size e <= limit /\ ix_body_start_offset e <= ix_payload_size e.

Lemma msg_entry_ok offset m : msg_ok m -> 0 <= offset -> offset + msg_size m < kLimit -> entry_ok (offset + msg_size m) (msg_entry offset m).
Proof.
  intros Hm Ho Hl. pose proof (msg_size_pos m). destruct (Hm). unfold entry_ok. split; [apply msg_entry_fits; [done|unfold kLimit in Hl; ulia]|]. cbn. unfold msg_size in *. lia.
Qed.

Lemma entry_ok_le a b e : entry_ok a e -> a <= b -> entry_ok b e.
Proof. unfold entry_ok. intros (? & ? & ? & ? & ?) ?. split; [done|]. lia. Qed.

Lemma index_entries_ok l offset : Forall msg_ok l -> 0 <= offset -> offset + Z.of_nat (length (log_body l)) < kLimit -> Forall (entry_ok (offset + Z.of_nat (length (log_body l)))) (index_entries offset l).
Proof.
  intros Hl. revert offset. induction Hl as [|m l Hm Hl IH]; intros offset Ho Hb; [constructor|]. unfold log_body in *. cbn [map concat index_entries] in *. rewrite length_app, Nat2Z.inj_add, length_msg_bytes in *. pose proof (msg_size_pos m).
  apply Forall_app. split.
  - destruct (fst m); constructor; [|constructor]. eapply entry_ok_le; [apply msg_entry_ok; [done|lia|lia]|lia].
  - rewrite Z.add_assoc in *. apply IH; lia.
Qed.

Section Loading.
Context (root : string).

Lemma with_index_id i : with_index (im_outbound_index i) i = i.
Proof. by destruct i. Qed.
Lemma with_states_id i : with_states (im_recovery_states i) i = i.
Proof. by destruct i. Qed.

Lemma load_index_entries g p id f es : forall fuel done i,
  sg_index_fd g = Some p -> sg_segment_id g = id -> sg_index_size g = body_size (SerializeEntries (done ++ es)) -> f !! p = Some (store_file kIndexMagic id (SerializeEntries (done ++ es))) ->
  fits_disk (SerializeEntries (done ++ es)) -> Forall (entry_ok (sg_log_size g)) es -> sg_log_size g < kLimit -> (length es <= fuel)%nat ->
  yields (load_index_loop root fuel g (kFileHeaderSize + Z.of_nat (length done) * kIndexEntrySize)) f i f (with_index (add_entries id es (im_outbound_index i)) i) tt.
Proof.
  induction es as [|e es IH]; intros fuel done i Hfd Hid Hsz Hp Hb He Hlim Hfuel.
  - assert (E : sg_index_size g <=? kFileHeaderSize + Z.of_nat (length done) * kIndexEntrySize = true) by (apply Z.leb_le; rewrite Hsz, app_nil_r; unfold body_size, kIndexEntrySize; rewrite length_serialize; lia).
    destruct fuel; cbn [load_index_loop]; rewrite E; cbn [add_entries fold_left]; rewrite with_index_id; apply yields_ret.
  - destruct fuel as [|fuel]; [cbn in Hfuel; lia|]. apply Forall_cons in He as [(Hf & H1 & H2 & H3 & H4) He].
    assert (Hlen : body_size (SerializeEntries (done ++ e :: es)) = kFileHeaderSize + Z.of_nat (length done) * kIndexEntrySize + kIndexEntrySize + Z.of_nat (length es) * kIndexEntrySize).
    { unfold body_size, kIndexEntrySize. rewrite length_serialize, length_app. cbn [length]. lia. }
    assert (Hpos : 0 < kIndexEntrySize) by done. cbn [load_index_loop]. rewrite Hsz.
    destruct (Z.leb_spec (body_size (SerializeEntries (done ++ e :: es))) (kFileHeaderSize + Z.of_nat (length done) * kIndexEntrySize)) as [Hle|_]; [lia|].
    destruct (Z.ltb_spec (body_size (SerializeEntries (done ++ e :: es))) (kFileHeaderSize + Z.of_nat (length done) * kIndexEntrySize + kIndexEntrySize)) as [Hlt|_]; [lia|].
    assert (Eo : Z.to_nat (kFileHeaderSize + Z.of_nat (length done) * kIndexEntrySize) = (pod_size StoreFileHeader + length done * pod_size OutboundIndexEntry)%nat) by (unfold kFileHeaderSize, kIndexEntrySize; lia).
    rewrite Hfd. eapply yields_bind.
    { apply yields_disk, (does_read p (pod_size OutboundIndexEntry) _ _ f Hp); [unfold kFileHeaderSize, kIndexEntrySize; lia| |rewrite store_file_size; exact Hb].
      rewrite Eo, length_store_file, length_serialize, length_app. cbn [length]. lia. }
    rewrite Eo, store_file_body, slice_serialized. cbv beta iota zeta. rewrite pod_read_alone by done. rewrite u64_small by (unfold kLimit in Hlim; change kRecordHeaderSize with 64 in *; ulia).
    destruct (Z.ltb_spec (sg_log_size g) (ix_log_offset e + kRecordHeaderSize + ix_payload_size e)); [lia|]. destruct (Z.ltb_spec (ix_payload_size e) (ix_body_start_offset e)); [lia|].
    eapply yields_bind; [apply yields_private|]. cbv beta. rewrite Hid.
    replace (kFileHeaderSize + Z.of_nat (length done) * kIndexEntrySize + kIndexEntrySize) with (kFileHeaderSize + Z.of_nat (length (done ++ [e])) * kIndexEntrySize) by (rewrite length_app; cbn [length]; lia).
    assert (Eapp : (done ++ [e]) ++ es = done ++ e :: es) by (by rewrite <- app_assoc). cbn [length] in Hfuel. specialize (IH fuel (done ++ [e])). rewrite Eapp in IH.
    apply (IH (with_index (set_location (ix_session_id e) (ix_seq_num e) (location_of id e) (im_outbound_index i)) i)); try done. lia.
Qed.

Lemma load_segment lp ip id l f i : Forall msg_ok l -> log_end l < kLimit -> fits_disk (index_body l) -> f !! ip = Some (store_file kIndexMagic id (index_body l)) ->
  yields (LoadSegmentIndex root (handle_of lp ip id l)) f i f (with_index (add_entries id (index_entries kFileHeaderSize l) (im_outbound_index i)) i) tt.
Proof.
  intros Hl Hlim Hb Hp. unfold LoadSegmentIndex. pose proof (load_index_entries (handle_of lp ip id l) ip id f (index_entries kFileHeaderSize l) (Z.to_nat (sg_index_size (handle_of lp ip id l))) [] i) as H.
  cbn [length Z.of_nat Z.mul] in H. rewrite Z.add_0_r in H. apply H; try done.
  - cbn. apply index_entries_ok; [done|done|exact Hlim].
  - cbn. unfold body_size, index_body. rewrite length_serialize. change (pod_size OutboundIndexEntry) with 40%nat. change kFileHeaderSize with 32. lia.
Qed.

Lemma load_states p f l : forall fuel done i,
  f !! p = Some (store_file kRecoveryMagic 0 (states_body (done ++ l))) -> fits_disk (states_body (done ++ l)) -> Forall state_ok l -> (length l <= fuel)%nat ->
  yields (load_recovery_loop root fuel (Some p) (body_size (states_body (done ++ l))) p (kFileHeaderSize + Z.of_nat (length done) * kRecoveryRecordSize)) f i f (with_states (add_states l (im_recovery_states i)) i) tt.
Proof.
  unfold states_body. induction l as [|r l IH]; intros fuel done i Hp Hb Hl Hfuel.
  - assert (E : body_size (SerializeEntries (map recovery_record (done ++ []))) <=? kFileHeaderSize + Z.of_nat (length done) * kRecoveryRecordSize = true) by (apply Z.leb_le; rewrite app_nil_r; unfold body_size, kRecoveryRecordSize; rewrite length_serialize, length_map; lia).
    destruct fuel; cbn [load_recovery_loop]; rewrite E; cbn [add_states fold_left]; rewrite with_states_id; apply yields_ret.
  - destruct fuel as [|fuel]; [cbn in Hfuel; lia|]. apply Forall_cons in Hl as [Hr Hl].
    assert (Hlen : body_size (SerializeEntries (map recovery_record (done ++ r :: l))) = kFileHeaderSize + Z.of_nat (length done) * kRecoveryRecordSize + kRecoveryRecordSize + Z.of_nat (length l) * kRecoveryRecordSize).
    { unfold body_size, kRecoveryRecordSize. rewrite length_serialize, length_map, length_app. cbn [length]. lia. }
    assert (Hpos : 0 < kRecoveryRecordSize) by done. cbn [load_recovery_loop].
    destruct (Z.leb_spec (body_size (SerializeEntries (map recovery_record (done ++ r :: l)))) (kFileHeaderSize + Z.of_nat (length done) * kRecoveryRecordSize)) as [Hle|_]; [lia|].
    destruct (Z.ltb_spec (body_size (SerializeEntries (map recovery_record (done ++ r :: l)))) (kFileHeaderSize + Z.of_nat (length done) * kRecoveryRecordSize + kRecoveryRecordSize)) as [Hlt|_]; [lia|].
    assert (Eo : Z.to_nat (kFileHeaderSize + Z.of_nat (length done) * kRecoveryRecordSize) = (pod_size StoreFileHeader + length (map recovery_record done) * pod_size RecoveryRecord)%nat) by (rewrite length_map; unfold kFileHeaderSize, kRecoveryRecordSize; lia).
    eapply yields_bind.
    { apply yields_disk, (does_read p (pod_size RecoveryRecord) _ _ f Hp); [unfold kFileHeaderSize, kRecoveryRecordSize; lia| |rewrite store_file_size; exact Hb].
      rewrite Eo, length_store_file, length_serialize, !length_map, length_app. cbn [length]. lia. }
    assert (Es : slice (SerializeEntries (map recovery_record (done ++ r :: l))) (length (map recovery_record done) * pod_size RecoveryRecord) (pod_size RecoveryRecord) = pod_bytes (recovery_record r)) by (rewrite map_app; apply slice_serialized).
    rewrite Eo, store_file_body, Es. cbv beta iota zeta. rewrite pod_read_alone by (by apply recovery_record_fits). rewrite state_of_record.
    eapply yields_bind; [apply yields_private|]. cbv beta.
    replace (kFileHeaderSize + Z.of_nat (length done) * kRecoveryRecordSize + kRecoveryRecordSize) with (kFileHeaderSize + Z.of_nat (length (done ++ [r])) * kRecoveryRecordSize) by (rewrite length_app; cbn [length]; lia).
    assert (Eapp : (done ++ [r]) ++ l = done ++ r :: l) by (by rewrite <- app_assoc). cbn [length] in Hfuel. specialize (IH fuel (done ++ [r])). rewrite Eapp in IH.
    apply (IH (with_states (<[r_session_id r := r]> (im_recovery_states i)) i)); try done. lia.
Qed.

Lemma load_recovery p f l i : f !! p = Some (store_file kRecoveryMagic 0 (states_body l)) -> fits_disk (states_body l) -> Forall state_ok l ->
  yields (LoadRecoveryLog root (Some p) (body_size (states_body l)) p) f i f (with_states (add_states l (im_recovery_states i)) i) tt.
Proof.
  intros Hp Hb Hl. unfold LoadRecoveryLog. pose proof (load_states p f l (Z.to_nat (body_size (states_body l))) [] i) as H. cbn [length Z.of_nat Z.mul app] in H. rewrite Z.add_0_r in H. apply H; try done.
  unfold body_size, states_body. rewrite length_serialize, length_map. change (pod_size RecoveryRecord) with 40%nat. change kFileHeaderSize with 32. lia.
Qed.

(** Reading a message of a log. *)
Section ReadMessage.
Context (p : Path) (f : Files) (id : Z) (done l : list Msg) (m : Msg).
Context (Hp : f !! p = Some (store_file kLogMagic id (log_body (done ++ m :: l)))) (Hm : msg_ok m) (Hb : log_end (done ++ m :: l) < kLimit).

Lemma split_log : log_body (done ++ m :: l) = log_body done ++ pod_bytes (msg_header m) ++ v_payload (snd m) ++ log_body l.
Proof. rewrite log_body_app. change (log_body (m :: l)) with ((pod_bytes (msg_header m) ++ v_payload (snd m)) ++ log_body l). by rewrite <- app_assoc. Qed.

Lemma log_end_split : log_end (done ++ m :: l) = log_end done + msg_size m + Z.of_nat (length (log_body l)).
Proof. unfold log_end, body_size, msg_size, payload_size, kRecordHeaderSize. rewrite split_log, !length_app, length_pod_bytes. lia. Qed.

Lemma log_offset_nat : Z.to_nat (log_end done) = (pod_size StoreFileHeader + length (log_body done))%nat.
Proof. unfold log_end, body_size, kFileHeaderSize. lia. Qed.

Lemma read_msg_header : does (os (ReadExact (Some p) (pod_size StoreRecordHeader) (log_end done))) f f (Some (pod_bytes (msg_header m))).
Proof.
  assert (E : pod_bytes (msg_header m) = slice (store_file kLogMagic id (log_body (done ++ m :: l))) (Z.to_nat (log_end done)) (pod_size StoreRecordHeader)).
  { rewrite log_offset_nat, store_file_body, split_log. unfold slice. rewrite drop_app_length. symmetry. apply take_app_length'. by rewrite length_pod_bytes. }
  rewrite E. apply does_read; [done|unfold log_end, body_size, kFileHeaderSize; lia| |rewrite store_file_size; exact Hb].
  rewrite log_offset_nat, length_store_file, split_log, !length_app, length_pod_bytes. lia.
Qed.

Lemma read_msg_payload offset : offset = log_end done + kRecordHeaderSize -> does (os (ReadExact (Some p) (Z.to_nat (payload_size m)) offset)) f f (Some (v_payload (snd m))).
Proof.
  intros ->. assert (Eo : Z.to_nat (log_end done + kRecordHeaderSize) = (pod_size StoreFileHeader + (length (log_body done) + pod_size StoreRecordHeader))%nat) by (unfold log_end, body_size, kFileHeaderSize, kRecordHeaderSize; lia).
  assert (E : v_payload (snd m) = slice (store_file kLogMagic id (log_body (done ++ m :: l))) (Z.to_nat (log_end done + kRecordHeaderSize)) (Z.to_nat (payload_size m))).
  { rewrite Eo, store_file_body, split_log. unfold slice, payload_size. rewrite Nat2Z.id, drop_app_add, <- (length_pod_bytes (msg_header m)), drop_app_length. symmetry. apply take_app_length. }
  rewrite E at 1. apply does_read; [done|unfold log_end, body_size, kFileHeaderSize, kRecordHeaderSize; lia| |rewrite store_file_size; exact Hb].
  rewrite Eo, length_store_file, split_log, !length_app, length_pod_bytes. unfold payload_size. lia.
Qed.
End ReadMessage.

(** A walk over a log: [P] says what holds behind the messages that were visited. *)
Lemma visit_messages {A} (g : SegmentHandle) (p : Path) (id : Z) (all : list Msg) (fn : StoreRecordHeader -> list Z -> SE (World * A) unit) (P : list Msg -> Files -> A -> Prop) :
  sg_log_fd g = Some p -> sg_log_size g = log_end all -> Forall msg_ok all -> log_end all < kLimit ->
  (forall done f a, P done f a -> f !! p = Some (store_file kLogMagic id (log_body all))) ->
  (forall done m l f a, all = done ++ m :: l -> P done f a -> exists f' a', yields (fn (msg_header m) (v_payload (snd m))) f a f' a' tt /\ P (done ++ [m]) f' a') ->
  forall l done fuel f a, all = done ++ l -> (length l <= fuel)%nat -> P done f a -> exists f' a', yields (visit_loop root fuel g fn (log_end done)) f a f' a' tt /\ P all f' a'.
Proof.
  intros Hfd Hsz Hok Hlim Hfile Hfn. induction l as [|m l IH]; intros done fuel f a Hall Hfuel HP.
  - rewrite app_nil_r in Hall. subst done. exists f, a. split; [|done]. destruct fuel; cbn [visit_loop]; rewrite Hsz, Z.leb_refl; apply yields_ret.
  - destruct fuel as [|fuel]; [cbn in Hfuel; lia|]. assert (Hm : msg_ok m) by (rewrite Hall in Hok; apply Forall_app in Hok as [_ [? _]%Forall_cons]; done). pose proof (Hfile _ _ _ HP) as Hp. rewrite Hall in Hp.
    assert (Hb : log_end (done ++ m :: l) < kLimit) by (by rewrite <- Hall). pose proof (log_end_split done l m) as Hend. pose proof (msg_size_pos m) as Hpos.
    destruct (Hfn done m l f a Hall HP) as (f1 & a1 & Hy & HP1). destruct (IH (done ++ [m]) fuel f1 a1) as (f2 & a2 & Hy2 & HP2); [by rewrite <- app_assoc|cbn in Hfuel; lia|done|]. exists f2, a2. split; [|done].
    cbn [visit_loop]. rewrite Hsz, Hall. destruct (Z.leb_spec (log_end (done ++ m :: l)) (log_end done)) as [?|_]; [lia|]. destruct (Z.ltb_spec (log_end (done ++ m :: l)) (log_end done + kRecordHeaderSize)) as [?|_]; [lia|].
    rewrite Hfd. eapply yields_bind; [apply yields_disk; by eapply read_msg_header|]. cbv beta iota zeta. rewrite pod_read_alone by (by apply msg_header_fits). cbn [msg_header rh_header_size rh_payload_size rh_body_start_offset]. rewrite Z.eqb_refl. cbn [negb].
    destruct Hm as [H1 H2 H3 H4 H5 H6] eqn:EHm. clear EHm. destruct (Z.ltb_spec (payload_size m) (v_body_start_offset (snd m))) as [?|_]; [lia|]. unfold msg_size in *.
    destruct (Z.ltb_spec (log_end (done ++ m :: l)) (log_end done + kRecordHeaderSize + payload_size m)) as [?|_]; [lia|].
    eapply yields_bind; [apply yields_disk; eapply read_msg_payload; [done|done|done]|]. cbv beta iota. eapply yields_bind; [exact Hy|]. cbv beta.
    replace (log_end done + kRecordHeaderSize + payload_size m) with (log_end (done ++ [m])) by (rewrite log_end_snoc; unfold msg_size; lia). exact Hy2.
Qed.

Lemma length_log_body l : (length l <= length (log_body l))%nat.
Proof.
  induction l as [|m l IH]; [cbn; lia|]. unfold log_body in *. cbn [map concat length]. rewrite length_app. pose proof (length_msg_bytes m). pose proof (msg_size_pos m). lia.
Qed.

Lemma visit_segment {A} (g : SegmentHandle) (p : Path) (id : Z) (all : list Msg) (fn : StoreRecordHeader -> list Z -> SE (World * A) unit) (P : list Msg -> Files -> A -> Prop) f a :
  sg_log_fd g = Some p -> sg_log_size g = log_end all -> Forall msg_ok all -> log_end all < kLimit ->
  (forall done f a, P done f a -> f !! p = Some (store_file kLogMagic id (log_body all))) ->
  (forall done m l f a, all = done ++ m :: l -> P done f a -> exists f' a', yields (fn (msg_header m) (v_payload (snd m))) f a f' a' tt /\ P (done ++ [m]) f' a') ->
  P [] f a -> exists f' a', yields (VisitSegmentRecords root g fn) f a f' a' tt /\ P all f' a'.
Proof.
  intros Hfd Hsz Hok Hlim Hfile Hfn HP. unfold VisitSegmentRecords. change kFileHeaderSize with (log_end []). eapply (visit_messages g p id all fn P Hfd Hsz Hok Hlim Hfile Hfn all [] _ f a eq_refl); [|done].
  rewrite Hsz. pose proof (length_log_body all). unfold log_end, body_size. change kFileHeaderSize with 32. lia.
Qed.

Lemma detect_day_messages (g : SegmentHandle) (p : Path) (id : Z) (f : Files) (all : list Msg) offset_ns : sg_log_fd g = Some p -> sg_log_size g = log_end all -> Forall msg_ok all -> log_end all < kLimit -> f !! p = Some (store_file kLogMagic id (log_body all)) ->
  forall l done fuel day, all = done ++ l -> (length l <= fuel)%nat -> exists day', does (detect_day_loop root fuel g offset_ns (log_end done) day) f f day'.
Proof.
  intros Hfd Hsz Hok Hlim Hp. induction l as [|m l IH]; intros done fuel day Hall Hfuel.
  - rewrite app_nil_r in Hall. subst done. exists day. destruct fuel; cbn [detect_day_loop]; rewrite Hsz, Z.leb_refl; apply does_ret.
  - destruct fuel as [|fuel]; [cbn in Hfuel; lia|]. assert (Hm : msg_ok m) by (rewrite Hall in Hok; apply Forall_app in Hok as [_ [? _]%Forall_cons]; done). rewrite Hall in Hp.
    assert (Hb : log_end (done ++ m :: l) < kLimit) by (by rewrite <- Hall). pose proof (log_end_split done l m) as Hend. pose proof (msg_size_pos m) as Hpos.
    cbn [detect_day_loop]. rewrite Hsz, Hall. destruct (Z.leb_spec (log_end (done ++ m :: l)) (log_end done)) as [?|_]; [lia|]. destruct (Z.ltb_spec (log_end (done ++ m :: l)) (log_end done + kRecordHeaderSize)) as [?|_]; [lia|]. rewrite Hfd.
    set (day1 := if ((rh_record_type (msg_header m) =? StoreRecordType.kOutbound) || (rh_record_type (msg_header m) =? StoreRecordType.kInbound)) && negb (rh_timestamp_ns (msg_header m) =? 0) then Some (local_day (rh_timestamp_ns (msg_header m)) offset_ns) else day).
    destruct (IH (done ++ [m]) fuel day1) as [day' Hd]; [by rewrite <- app_assoc|cbn in Hfuel; lia|]. exists day'. eapply does_bind; [by eapply read_msg_header|]. cbv beta iota zeta. rewrite pod_read_alone by (by apply msg_header_fits).
    fold day1. cbn [msg_header rh_header_size rh_payload_size]. rewrite Z.eqb_refl. cbn [negb]. unfold msg_size in *. destruct (Z.ltb_spec (log_end (done ++ m :: l)) (log_end done + kRecordHeaderSize + payload_size m)) as [?|_]; [lia|].
    replace (log_end done + kRecordHeaderSize + payload_size m) with (log_end (done ++ [m])) by (rewrite log_end_snoc; unfold msg_size; lia). exact Hd.
Qed.

Lemma detect_day lp ip id l f offset_ns : Forall msg_ok l -> log_end l < kLimit -> f !! lp = Some (store_file kLogMagic id (log_body l)) -> exists day, does (DetectActiveUtcDay root (handle_of lp ip id l) offset_ns) f f day.
Proof.
  intros Hl Hlim Hp. unfold DetectActiveUtcDay. change kFileHeaderSize with (log_end []). eapply (detect_day_messages (handle_of lp ip id l) lp id f l offset_ns eq_refl eq_refl Hl Hlim Hp l [] _ None eq_refl).
  cbn. pose proof (length_log_body l). unfold log_end, body_size. change kFileHeaderSize with 32. lia.
Qed.
End Loading.
