(* ===== verification/DurableRep.v ===== *)
(** * The durable batch store: the form of its files

    The files and the object of a store are determined by the messages of its segments
    and the recovery states since the last compaction.  [Open], [Flush], [Rollover] and
    the saves keep that form. *)
From S2P Require Import Prelude Base StdAlgo IntFormat Wire SessionStore Artifact Disk DurableStore DurableProofs.
Open Scope Z_scope.

(** ** Ordered walks *)

Lemma increasing_perm {A} (key : A -> Z) (l l' : list A) : increasing key l -> increasing key l' -> l ≡ₚ l' -> l = l'.
Proof.
  intros H1 H2 Hp. revert l' H2 Hp. induction H1 as [|x l Hl IH Hx]; intros l' H2 Hp; [by apply Permutation_nil_l in Hp|].
  destruct H2 as [|y l' Hl' Hy]; [by apply Permutation_nil_r in Hp|]. rewrite Forall_forall in Hx, Hy.
  assert (x = y) as ->. { assert (Hxin : x ∈ y :: l') by (rewrite <- Hp; left). assert (Hyin : y ∈ x :: l) by (rewrite Hp; left). apply elem_of_cons in Hxin as [->|Hxin]; [done|]. apply elem_of_cons in Hyin as [->|Hyin]; [done|]. specialize (Hx y Hyin). specialize (Hy x Hxin). lia. }
  f_equal. apply IH; [done|]. by eapply Permutation_cons_inv.
Qed.

Lemma increasing_elements {A} (key : A -> Z) (l l' : list A) : increasing key l -> increasing key l' -> (forall x, x ∈ l <-> x ∈ l') -> l = l'.
Proof.
  intros H1 H2 He. apply (increasing_perm key); [done|done|]. apply NoDup_Permutation; [| |done].
  - apply (NoDup_fmap_1 key), (increasing_nodup key l H1).
  - apply (NoDup_fmap_1 key), (increasing_nodup key l' H2).
Qed.

Lemma nondecreasing_nodup {A} (key : A -> Z) l : nondecreasing key l -> NoDup (map key l) -> increasing key l.
Proof.
  induction 1 as [|x l Hl IH Hx]; intros Hnd; [constructor|]. cbn in Hnd. apply NoDup_cons in Hnd as [Hn Hnd]. constructor; [by apply IH|]. rewrite Forall_forall in Hx |- *. intros y Hy. specialize (Hx y Hy).
  assert (key x <> key y) by (intros E; apply Hn; rewrite E; by apply (list_elem_of_fmap_2 key)). lia.
Qed.

Lemma in_order_increasing {A} (m : gmap Z A) : increasing fst (in_order m).
Proof.
  unfold in_order. apply nondecreasing_nodup; [apply stable_sort_sorted|]. rewrite stable_sort_perm. apply NoDup_fst_map_to_list.
Qed.

Lemma elem_of_in_order {A} (m : gmap Z A) k x : (k, x) ∈ in_order m <-> m !! k = Some x.
Proof. unfold in_order. rewrite stable_sort_perm. apply elem_of_map_to_list. Qed.

(** The walk of a map is the increasing list of its elements. *)
Lemma in_order_eq {A} (m : gmap Z A) l : increasing fst l -> (forall k x, (k, x) ∈ l <-> m !! k = Some x) -> in_order m = l.
Proof. intros Hl He. apply (increasing_elements fst); [apply in_order_increasing|done|]. intros [k x]. by rewrite elem_of_in_order, He. Qed.

Lemma in_order_fmap {A B} (g : A -> B) (m : gmap Z A) : in_order (g <$> m) = map (fun x => (fst x, g (snd x))) (in_order m).
Proof.
  apply in_order_eq.
  - pose proof (in_order_increasing m) as H. induction H as [|x l Hl IH Hx]; cbn; constructor; [done|]. rewrite Forall_map. exact Hx.
  - intros k y. rewrite lookup_fmap_Some, list_elem_of_fmap. split.
    + intros ([k' x] & [= -> ->] & Hx). exists x. split; [done|]. by apply elem_of_in_order.
    + intros (x & <- & Hx). exists (k, x). split; [done|]. by apply elem_of_in_order.
Qed.

Lemma zseq_increasing b n : increasing (fun x => x) (zseq b n).
Proof. revert b. induction n as [|n IH]; intros b; [constructor|]. rewrite zseq_S. constructor; [apply IH|]. apply Forall_forall. intros x Hx. apply elem_of_zseq in Hx. lia. Qed.

Lemma unique_spec l : nondecreasing (fun x : Z => x) l -> increasing (fun x => x) (unique l) /\ forall x, x ∈ unique l <-> x ∈ l.
Proof.
  induction 1 as [|a l Hl [IH1 IH2] Ha]; [split; [constructor|done]|]. destruct l as [|b l]; [split; [repeat constructor|done]|]. cbn [unique]. destruct (Z.eqb_spec a b) as [->|Hne].
  - split; [done|]. intros x. rewrite IH2, (elem_of_cons (b :: l)). split; [by right|]. intros [->|?]; [left|done].
  - split.
    + constructor; [done|]. rewrite Forall_forall in Ha. apply Forall_forall. intros x Hx%IH2. pose proof (Ha x Hx). pose proof (Ha b ltac:(left)). apply elem_of_cons in Hx as [->|Hx]; [lia|]. inversion Hl as [|? ? ? Hb]; subst. rewrite Forall_forall in Hb. specialize (Hb x Hx). lia.
    + intros x. rewrite !(elem_of_cons _ x a), IH2. done.
Qed.

(** ** The form of a store *)

(** The messages of the archived segments, which are numbered from 1, those of the
    active one, and the recovery states in the file. *)
Record Ideal := MkIdeal { sd_archived : list (list Msg); sd_active : list Msg; sd_states : list SessionRecoveryState }.

Definition all_msgs (d : Ideal) : list Msg := concat (sd_archived d) ++ sd_active d.
Definition active_id (d : Ideal) : Z := Z.of_nat (length (sd_archived d)) + 1.

Definition msgs_weight (l : list Msg) : Z := Z.of_nat (length (log_body l)) + kIndexEntrySize * Z.of_nat (length l).
Definition weight (d : Ideal) : Z := msgs_weight (all_msgs d) + kRecoveryRecordSize * Z.of_nat (length (sd_states d)).

(** Accepted records, archived segments that have messages, and files that fit a disk. *)
Record sound (d : Ideal) : Prop := {
  sn_msgs : Forall msg_ok (all_msgs d);
  sn_states : Forall state_ok (sd_states d);
  sn_archived : Forall (fun l => l <> []) (sd_archived d);
  sn_weight : weight d + 1000 < kLimit;
}.

Lemma msgs_weight_app l l' : msgs_weight (l ++ l') = msgs_weight l + msgs_weight l'.
Proof. unfold msgs_weight. rewrite log_body_app, !length_app. lia. Qed.

Lemma msgs_weight_nonneg l : Z.of_nat (length l) <= msgs_weight l.
Proof. unfold msgs_weight. change kIndexEntrySize with 40. lia. Qed.

Lemma index_entries_length offset l : (length (index_entries offset l) <= length l)%nat.
Proof. revert offset. induction l as [|m l IH]; intros offset; cbn; [lia|]. rewrite length_app. specialize (IH (offset + msg_size m)). destruct (fst m); cbn; lia. Qed.

Lemma light_segment l : msgs_weight l + 1000 < kLimit -> log_end l < kLimit /\ fits_disk (index_body l).
Proof.
  unfold msgs_weight, fits_disk, log_end, body_size, index_body. rewrite length_serialize. pose proof (index_entries_length kFileHeaderSize l). change (pod_size OutboundIndexEntry) with 40%nat. change kIndexEntrySize with 40. change kFileHeaderSize with 32 in *. lia.
Qed.

Lemma segment_weight l segs : l ∈ segs -> msgs_weight l <= msgs_weight (concat segs).
Proof. intros (a & b & ->)%list_elem_of_split. rewrite concat_app. cbn. rewrite !msgs_weight_app. pose proof (msgs_weight_nonneg (concat a)). pose proof (msgs_weight_nonneg (concat b)). lia. Qed.

Lemma segments_count segs : Forall (fun l : list Msg => l <> []) segs -> Z.of_nat (length segs) <= msgs_weight (concat segs).
Proof. induction 1 as [|l segs Hl _ IH]; cbn [length concat]; [exact (msgs_weight_nonneg [])|]. rewrite msgs_weight_app. pose proof (msgs_weight_nonneg l). destruct l; [done|]. cbn [length] in *. lia. Qed.

Section Sound.
Context (d : Ideal) (Hd : sound d).

Lemma archived_light l : l ∈ sd_archived d -> Forall msg_ok l /\ log_end l < kLimit /\ fits_disk (index_body l).
Proof.
  intros Hl. destruct Hd as [H1 H2 H3 H4]. unfold all_msgs, weight in *. rewrite msgs_weight_app in H4 || idtac. split.
  - apply Forall_app in H1 as [H1 _]. apply Forall_concat in H1. rewrite Forall_forall in H1. by apply H1.
  - apply light_segment. unfold all_msgs in H4. rewrite msgs_weight_app in H4. pose proof (segment_weight l _ Hl). pose proof (msgs_weight_nonneg (sd_active d)). change kRecoveryRecordSize with 40 in *. lia.
Qed.

Lemma active_light : Forall msg_ok (sd_active d) /\ log_end (sd_active d) < kLimit /\ fits_disk (index_body (sd_active d)).
Proof.
  destruct Hd as [H1 H2 H3 H4]. unfold weight, all_msgs in *. split; [by apply Forall_app in H1 as [_ ?]|]. apply light_segment. rewrite msgs_weight_app in H4. pose proof (msgs_weight_nonneg (concat (sd_archived d))). change kRecoveryRecordSize with 40 in *. lia.
Qed.

Lemma states_light : fits_disk (states_body (sd_states d)).
Proof.
  destruct Hd as [H1 H2 H3 H4]. unfold weight, fits_disk, body_size, states_body in *. rewrite length_serialize, length_map. pose proof (msgs_weight_nonneg (all_msgs d)). change (pod_size RecoveryRecord) with 40%nat. change kRecoveryRecordSize with 40 in *. change kFileHeaderSize with 32. lia.
Qed.

Lemma active_id_fits : 1 <= active_id d < kLimit - 900.
Proof.
  destruct Hd as [H1 H2 H3 H4]. unfold weight, all_msgs, active_id in *. rewrite msgs_weight_app in H4. pose proof (segments_count _ H3). pose proof (msgs_weight_nonneg (sd_active d)). change kRecoveryRecordSize with 40 in *. lia.
Qed.
End Sound.

(** *** Queued entries *)

Inductive Entry := EMessage (m : Msg) | EState (r : SessionRecoveryState).

Definition entry_payload (e : Entry) : list Z := match e with EMessage m => v_payload (snd m) | EState _ => [] end.
Definition queue_entry (offset : Z) (e : Entry) : PendingEntry :=
  match e with
  | EMessage m => let v := snd m in MkPending (if fst m then PendingOutbound else PendingInbound) (v_session_id v) (v_seq_num v) (v_timestamp_ns v) (v_flags v) offset (payload_size m) (v_body_start_offset v) no_state
  | EState r => MkPending PendingRecovery 0 0 0 0 0 0 0 r
  end.
Fixpoint queue_entries (offset : Z) (q : list Entry) : list PendingEntry :=
  match q with [] => [] | e :: q => queue_entry offset e :: queue_entries (offset + Z.of_nat (length (entry_payload e))) q end.
Definition queue_arena (q : list Entry) : list Z := concat (map entry_payload q).
Definition queued (q : list Entry) (i : Impl) : Prop := im_pending_entries i = queue_entries 0 q /\ im_pending_payload_arena i = queue_arena q.

Definition push (d : Ideal) (e : Entry) : Ideal :=
  match e with
  | EMessage m => MkIdeal (sd_archived d) (sd_active d ++ [m]) (sd_states d)
  | EState r => MkIdeal (sd_archived d) (sd_active d) (sd_states d ++ [r])
  end.
Definition push_all (d : Ideal) (q : list Entry) : Ideal := fold_left push q d.

Lemma queue_arena_snoc q e : queue_arena (q ++ [e]) = queue_arena q ++ entry_payload e.
Proof. unfold queue_arena. rewrite map_app, concat_app. cbn. by rewrite app_nil_r. Qed.

Lemma queue_entries_snoc q e : forall offset, queue_entries offset (q ++ [e]) = queue_entries offset q ++ [queue_entry (offset + Z.of_nat (length (queue_arena q))) e].
Proof.
  induction q as [|x q IH]; intros offset; [cbn; by rewrite Z.add_0_r|]. cbn [app queue_entries]. rewrite IH. cbn [app]. f_equal. f_equal. f_equal. f_equal. unfold queue_arena. cbn [map concat]. rewrite length_app. lia.
Qed.

(** *** Files *)

(** A file whose header commits another size than the one it has. *)
Definition raw_file (magic : list Z) (id size : Z) (body : list Z) : list Z := pod_bytes (file_header magic id size) ++ body.

Section Form.
Context (root : string) (options : DurableBatchStoreOptions) (tm_gmtoff : Z) (home : bool).

Record stored_with (log_size index_size states_size : Z) (d : Ideal) (f : Files) : Prop := {
  fs_log : forall j l, sd_archived d !! j = Some l -> f !! log_name home (Z.of_nat j + 1) = Some (store_file kLogMagic (Z.of_nat j + 1) (log_body l));
  fs_index : forall j l, sd_archived d !! j = Some l -> f !! index_name home (Z.of_nat j + 1) = Some (store_file kIndexMagic (Z.of_nat j + 1) (index_body l));
  fs_names : forall name, is_Some (f !! (home, true, name)) -> exists id, 1 <= id < active_id d /\ (name = MakeSegmentFileName id kSegmentLogSuffix \/ name = MakeSegmentFileName id kSegmentIndexSuffix);
  fs_active_log : f !! active_log home = Some (raw_file kLogMagic (active_id d) log_size (log_body (sd_active d)));
  fs_active_index : f !! active_index home = Some (raw_file kIndexMagic (active_id d) index_size (index_body (sd_active d)));
  fs_recovery : f !! recovery_log home = Some (raw_file kRecoveryMagic 0 states_size (states_body (sd_states d)));
}.

(** Every header commits what is there. *)
Definition stored (d : Ideal) (f : Files) : Prop := stored_with (log_end (sd_active d)) (body_size (index_body (sd_active d))) (body_size (states_body (sd_states d))) d f.

(** *** The object *)

Fixpoint add_handles (id : Z) (segs : list (list Msg)) (m : gmap Z SegmentHandle) : gmap Z SegmentHandle :=
  match segs with [] => m | l :: segs => add_handles (id + 1) segs (<[id := handle_of (log_name home id) (index_name home id) id l]> m) end.
Fixpoint add_segments (id : Z) (segs : list (list Msg)) (m : OutboundIndex) : OutboundIndex :=
  match segs with [] => m | l :: segs => add_segments (id + 1) segs (add_entries id (index_entries kFileHeaderSize l) m) end.

Definition active_handle (d : Ideal) : SegmentHandle := handle_of (active_log home) (active_index home) (active_id d) (sd_active d).
Definition full_index (d : Ideal) : OutboundIndex := add_entries (active_id d) (index_entries kFileHeaderSize (sd_active d)) (add_segments 1 (sd_archived d) ∅).

Record opened (d : Ideal) (i : Impl) : Prop := {
  op_active : im_active_segment i = active_handle d;
  op_archived : im_archived_segments i = add_handles 1 (sd_archived d) ∅;
  op_recovery : im_recovery_fd i = Some (recovery_log home);
  op_size : im_recovery_size i = body_size (states_body (sd_states d));
  op_index : im_outbound_index i = full_index d;
  op_states : im_recovery_states i = add_states (sd_states d) ∅;
}.

Lemma opened_is_open d i : opened d i -> is_open i = true.
Proof. intros [H1 _ H3 _ _ _]. unfold is_open. rewrite H1, H3. done. Qed.

Lemma open_now d w i : opened d i -> Open root options tm_gmtoff home (w, i) = ((w, i), Value tt).
Proof. intros Ho. unfold Open, bind, get. cbn [snd]. by rewrite (opened_is_open d i Ho). Qed.

Lemma open_again d f i : opened d i -> yields (Open root options tm_gmtoff home) f i f i tt.
Proof. intros Ho. unfold Open. apply yields_get. intros w Hw. cbn [snd]. rewrite (opened_is_open d i Ho). apply yields_ret. Qed.

(** ** Opening *)

Lemma log_index_names a b : in_u64 a -> MakeSegmentFileName a kSegmentLogSuffix <> MakeSegmentFileName b kSegmentIndexSuffix.
Proof. intros Ha E. pose proof (parse_log_name a ltac:(ulia)) as H. rewrite E, parse_index_name in H. done. Qed.

Lemma log_path_index a b : in_u64 a -> log_name home a <> index_name home b.
Proof. intros Ha E. apply (f_equal snd) in E. revert E. by apply log_index_names. Qed.

Lemma does_open_segment lp ip id l default expected f : lp <> ip -> in_u64 id -> log_end l < kLimit -> fits_disk (index_body l) -> f !! lp = Some (store_file kLogMagic id (log_body l)) -> f !! ip = Some (store_file kIndexMagic id (index_body l)) -> (expected = None \/ expected = Some id) ->
  does (OpenSegmentHandle root lp ip default expected) f f (handle_of lp ip id l).
Proof.
  intros Hne Hid Hl Hi Hlp Hip He. unfold OpenSegmentHandle. eapply does_bind; [eapply does_open; [unfold kMagics; set_solver|done|exact Hl|exact Hlp|exact He]|]. cbv beta zeta. cbn [of_header file_header fh_segment_id].
  eapply does_bind; [eapply does_open; [unfold kMagics; set_solver|done|exact Hi|exact Hip|by right]|]. apply does_ret.
Qed.

Lemma does_create_segment lp ip id expected f : lp <> ip -> in_u64 id -> f !! lp = None -> f !! ip = None -> (expected = None \/ expected = Some id) ->
  does (OpenSegmentHandle root lp ip id expected) f (<[ip := store_file kIndexMagic id []]> (<[lp := store_file kLogMagic id []]> f)) (handle_of lp ip id []).
Proof.
  intros Hne Hid Hlp Hip He. unfold OpenSegmentHandle. eapply does_bind; [eapply does_create; [unfold kMagics; set_solver|done|exact Hlp|exact He]|]. cbv beta zeta. cbn [of_header file_header fh_segment_id].
  eapply does_bind; [eapply does_create; [unfold kMagics; set_solver|done|by rewrite lookup_insert_ne|by right]|]. apply does_ret.
Qed.

Lemma with_archived_id i : with_archived (im_archived_segments i) i = i.
Proof. by destruct i. Qed.

Lemma open_archived_all segs : forall id f i, 1 <= id -> id + Z.of_nat (length segs) < kLimit ->
  (forall j l, segs !! j = Some l -> f !! log_name home (id + Z.of_nat j) = Some (store_file kLogMagic (id + Z.of_nat j) (log_body l)) /\ f !! index_name home (id + Z.of_nat j) = Some (store_file kIndexMagic (id + Z.of_nat j) (index_body l))) ->
  Forall (fun l => Forall msg_ok l /\ log_end l < kLimit /\ fits_disk (index_body l)) segs ->
  yields (open_all root home (zseq id (length segs))) f i f (with_archived (add_handles id segs (im_archived_segments i)) (with_index (add_segments id segs (im_outbound_index i)) i)) tt.
Proof.
  induction segs as [|l segs IH]; intros id f i Hid Hb Hf Hok.
  - cbn. rewrite with_index_id, with_archived_id. apply yields_ret.
  - apply Forall_cons in Hok as [(Hl1 & Hl2 & Hl3) Hok]. cbn [length] in *. rewrite zseq_S. cbn [open_all]. destruct (Hf O l eq_refl) as [Hlog Hidx]. rewrite Z.add_0_r in Hlog, Hidx. assert (Hu : in_u64 id) by (unfold kLimit in Hb; ulia).
    eapply yields_bind.
    { unfold open_archived. eapply yields_bind; [apply yields_disk; eapply does_open_segment; [by apply log_path_index|exact Hu|exact Hl2|exact Hl3|exact Hlog|exact Hidx|by right]|].
      cbv beta. eapply yields_bind; [eapply load_segment; [exact Hl1|exact Hl2|exact Hl3|exact Hidx]|]. cbv beta. apply yields_private. }
    cbv beta. cbn [add_handles add_segments].
    assert (Hrest : forall j l', segs !! j = Some l' -> f !! log_name home (id + 1 + Z.of_nat j) = Some (store_file kLogMagic (id + 1 + Z.of_nat j) (log_body l')) /\ f !! index_name home (id + 1 + Z.of_nat j) = Some (store_file kIndexMagic (id + 1 + Z.of_nat j) (index_body l'))).
    { intros j l' Hj. specialize (Hf (S j) l' Hj). replace (id + 1 + Z.of_nat j) with (id + Z.of_nat (S j)) by lia. exact Hf. }
    exact (IH (id + 1) f (with_archived (<[id:=handle_of (log_name home id) (index_name home id) id l]> (im_archived_segments i)) (with_index (add_entries id (index_entries kFileHeaderSize l) (im_outbound_index i)) i)) ltac:(lia) ltac:(lia) Hrest Hok).
Qed.

Context (Hroot : root <> "") (Hmax : max_archived_segments options = 0).

Lemma home_text_nonempty : home_text root home <> "".
Proof. unfold home_text. destruct home; [|done]. destruct root; done. Qed.

Lemma archive_text_nonempty : archive_text root home <> "".
Proof. unfold archive_text. pose proof home_text_nonempty. by destruct (home_text root home). Qed.

Lemma elem_of_archive_names f name : name ∈ archive_names home (fresh_world f) <-> is_Some (f !! (home, true, name)).
Proof.
  unfold archive_names. cbn [w_files fresh_world]. rewrite list_elem_of_fmap. split.
  - intros ([h n] & -> & Hp). apply list_elem_of_filter in Hp as [Hh Hp]. cbn in *. subst h. apply list_elem_of_fmap in Hp as ([p c] & Ep & Hc). cbn in Ep. subst p. apply elem_of_map_to_list in Hc. by exists c.
  - intros [c Hc]. exists (home, true, name). split; [done|]. apply list_elem_of_filter. split; [done|]. apply list_elem_of_fmap. exists ((home, true, name), c). split; [done|]. by apply elem_of_map_to_list.
Qed.

Lemma does_list f : does (list_archive home) f f (archive_names home (fresh_world f)).
Proof.
  unfold list_archive. eapply does_bind; [apply does_attempt|]. apply does_get. intros w [Hf Hs]. assert (E : archive_names home w = archive_names home (fresh_world f)) by (unfold archive_names; by rewrite Hf). rewrite E. apply does_ret.
Qed.

Definition archive_ids (f : Files) : list Z := unique (stable_sort (fun id => id) (omap ParseSegmentId (archive_names home (fresh_world f)))).

Lemma archive_ids_stored a b c d f : stored_with a b c d f -> sound d -> archive_ids f = zseq 1 (length (sd_archived d)).
Proof.
  intros Hs Hd. destruct (unique_spec _ (stable_sort_sorted (fun id : Z => id) (omap ParseSegmentId (archive_names home (fresh_world f))))) as [H1 H2]. apply (increasing_elements (fun x => x)); [exact H1|apply zseq_increasing|].
  intros x. unfold archive_ids. rewrite H2, stable_sort_perm, list_elem_of_omap, elem_of_zseq. pose proof (active_id_fits d Hd) as Hid. split.
  - intros (name & Hn & Hx). apply elem_of_archive_names in Hn. destruct (fs_names _ _ _ _ _ Hs name Hn) as (id & Hr & [->| ->]); [|by rewrite parse_index_name in Hx].
    rewrite parse_log_name in Hx by (unfold kLimit in *; ulia). injection Hx as <-. unfold active_id in Hr. lia.
  - intros Hx. exists (MakeSegmentFileName x kSegmentLogSuffix). split; [|apply parse_log_name; unfold active_id, kLimit in *; ulia]. apply elem_of_archive_names.
    destruct (lookup_lt_is_Some_2 (sd_archived d) (Z.to_nat (x - 1))) as [l Hl]; [lia|]. pose proof (fs_log _ _ _ _ _ Hs _ _ Hl) as E. replace (Z.of_nat (Z.to_nat (x - 1)) + 1) with x in E by lia. by exists (store_file kLogMagic x (log_body l)).
Qed.

Lemma does_exists p what f : does (file_exists root p what) f f (bool_decide (is_Some (f !! p))).
Proof.
  unfold file_exists. eapply does_bind; [apply does_attempt|]. apply does_get. intros w [Hf Hs]. rewrite Hf. apply does_ret.
Qed.

Lemma active_paths : active_log home <> active_index home.
Proof. done. Qed.

(** The steps of [Open] behind the archive, on files that are there. *)
Lemma open_rest d f i : sound d -> stored d f -> im_archived_segments i = add_handles 1 (sd_archived d) ∅ -> im_outbound_index i = add_segments 1 (sd_archived d) ∅ -> im_recovery_states i = ∅ ->
  exists i', yields (open_active root home (zseq 1 (length (sd_archived d))) ;;; open_day root options tm_gmtoff ;;; open_recovery root home ;;; prune_archive root options) f i f i' tt /\ opened d i' /\ im_pending_entries i' = im_pending_entries i /\ im_pending_payload_arena i' = im_pending_payload_arena i.
Proof.
  intros Hd Hs Ha Hi Hst. destruct (active_light d Hd) as (Hl1 & Hl2 & Hl3). pose proof (active_id_fits d Hd) as Hid. destruct Hs as [F1 F2 F3 F4 F5 F6].
  assert (Hu : in_u64 (active_id d)) by (unfold kLimit in Hid; ulia).
  set (i1 := with_active (active_handle d) (with_index (full_index d) i)).
  set (i2 := match rollover_mode options with kLocalTime => with_offset (if use_system_timezone options then tm_gmtoff else local_utc_offset_seconds options) i1 | _ => i1 end).
  destruct (detect_day root (active_log home) (active_index home) (active_id d) (sd_active d) f (local_offset_ns options i2) Hl1 Hl2 F4) as [day Hday].
  set (i3 := with_states (add_states (sd_states d) ∅) (with_recovery (Some (recovery_log home)) (body_size (states_body (sd_states d))) (with_day day i2))).
  assert (E2 : im_active_segment i2 = active_handle d /\ im_archived_segments i2 = im_archived_segments i /\ im_outbound_index i2 = full_index d /\ im_recovery_states i2 = im_recovery_states i /\ im_pending_entries i2 = im_pending_entries i /\ im_pending_payload_arena i2 = im_pending_payload_arena i) by (unfold i2; by destruct (rollover_mode options)).
  destruct E2 as (A1 & A2 & A3 & A4 & A5 & A6). exists i3. split.
  - eapply (yields_bind _ _ f i f i1 f i3 tt tt).
    { unfold open_active. eapply yields_bind; [apply yields_disk, does_exists|]. eapply yields_bind; [apply yields_disk, does_exists|]. rewrite F4, F5. cbn [bool_decide]. rewrite !bool_decide_true by done. cbn [eqb negb].
      eapply yields_bind; [apply yields_disk; eapply (does_open_segment _ _ (active_id d) (sd_active d)); [exact active_paths|exact Hu|exact Hl2|exact Hl3|exact F4|exact F5|by left]|]. cbv beta.
      eapply yields_bind; [eapply load_segment; [exact Hl1|exact Hl2|exact Hl3|exact F5]|]. cbv beta.
      assert (E1 : i1 = with_active (active_handle d) (with_index (add_entries (active_id d) (index_entries kFileHeaderSize (sd_active d)) (im_outbound_index i)) i)) by (unfold i1, full_index; by rewrite Hi). rewrite E1. apply yields_private. }
    cbv beta. eapply (yields_bind _ _ f i1 f (with_day day i2) f i3 tt tt).
    { unfold open_day. eapply (yields_bind _ _ f i1 f i2 f _ tt tt); [apply yields_private|]. cbv beta. apply yields_get. intros w Hw. cbn [snd]. rewrite A1. eapply yields_bind; [apply yields_disk; exact Hday|]. cbv beta. apply yields_private. }
    cbv beta. eapply (yields_bind _ _ f (with_day day i2) f i3 f i3 tt tt).
    { unfold open_recovery. eapply yields_bind; [apply yields_disk; eapply (does_open root (recovery_log home) f kRecoveryMagic 0 (states_body (sd_states d))); [unfold kMagics; set_solver|split; [lia|apply Z.leb_le; reflexivity]|apply (states_light d Hd)|exact F6|by right]|]. cbv beta. cbn [of_fd of_size].
      eapply yields_bind; [apply yields_private|]. cbv beta. pose proof (load_recovery root (recovery_log home) f (sd_states d) (with_recovery (Some (recovery_log home)) (body_size (states_body (sd_states d))) (with_day day i2)) F6 (states_light d Hd) (sn_states d Hd)) as H.
      cbn [im_recovery_states with_recovery with_day] in H. rewrite A4, Hst in H. exact H. }
    cbv beta. unfold prune_archive. rewrite Hmax. apply yields_ret.
  - split; [|by split]. constructor; cbn; [exact A1|by rewrite A2|done|done|exact A3|done].
Qed.

(** A store that is closed finds everything again. *)
Lemma open_stored d f i : sound d -> stored d f -> is_open i = false ->
  exists i', yields (Open root options tm_gmtoff home) f i f i' tt /\ opened d i' /\ im_pending_entries i' = im_pending_entries i /\ im_pending_payload_arena i' = im_pending_payload_arena i.
Proof.
  intros Hd Hs Hclosed. pose proof (active_id_fits d Hd) as Hid. set (i1 := with_archived (add_handles 1 (sd_archived d) ∅) (with_index (add_segments 1 (sd_archived d) ∅) (close_all i))).
  destruct (open_rest d f i1 Hd Hs eq_refl eq_refl eq_refl) as (i' & Hy & Ho & Hp1 & Hp2). exists i'. split; [|done]. unfold Open. apply yields_get. intros w Hw. cbn [snd]. rewrite Hclosed.
  eapply yields_bind; [apply yields_disk, does_directory, home_text_nonempty|]. eapply yields_bind; [apply yields_disk, does_directory, archive_text_nonempty|]. eapply yields_bind; [apply yields_private|]. cbv beta.
  eapply yields_bind; [apply yields_disk, does_list|]. cbv beta zeta. fold (archive_ids f). rewrite (archive_ids_stored _ _ _ d f Hs Hd). eapply yields_bind; [|exact Hy].
  pose proof (open_archived_all (sd_archived d) 1 f (close_all i)) as H. apply H; [lia|unfold active_id in Hid; lia| |].
  - intros j l Hj. replace (1 + Z.of_nat j) with (Z.of_nat j + 1) by lia. split; [by apply (fs_log _ _ _ _ _ Hs)|by apply (fs_index _ _ _ _ _ Hs)].
  - apply Forall_forall. intros l Hl. by apply (archived_light d Hd).
Qed.

(** The files of the other directory stay as they are. *)
Definition beside (f f' : Files) : Prop := forall p, fst (fst p) <> home -> f' !! p = f !! p.

Lemma beside_refl f : beside f f.
Proof. done. Qed.
Lemma beside_trans f f1 f2 : beside f f1 -> beside f1 f2 -> beside f f2.
Proof. intros H1 H2 p Hp. by rewrite H2, H1. Qed.
Lemma beside_insert f p c : fst (fst p) = home -> beside f (<[p := c]> f).
Proof. intros Hp q Hq. rewrite lookup_insert_ne; [done|]. intros <-. done. Qed.
Lemma beside_delete f p : fst (fst p) = home -> beside f (delete p f).
Proof. intros Hp q Hq. rewrite lookup_delete_ne; [done|]. intros <-. done. Qed.

Definition empty_ideal : Ideal := MkIdeal [] [] [].

Lemma empty_sound : sound empty_ideal.
Proof. constructor; cbn; [constructor|constructor|constructor|done]. Qed.

(** An empty directory becomes an empty store. *)
Lemma open_fresh f i : (forall p, fst (fst p) = home -> f !! p = None) -> is_open i = false ->
  exists f' i', yields (Open root options tm_gmtoff home) f i f' i' tt /\ stored empty_ideal f' /\ opened empty_ideal i' /\ beside f f' /\ im_pending_entries i' = im_pending_entries i /\ im_pending_payload_arena i' = im_pending_payload_arena i.
Proof.
  intros Hf Hclosed. set (f1 := <[active_index home := store_file kIndexMagic 1 []]> (<[active_log home := store_file kLogMagic 1 []]> f)). set (f2 := <[recovery_log home := store_file kRecoveryMagic 0 []]> f1).
  set (i1 := with_active (active_handle empty_ideal) (close_all i)).
  set (i2 := match rollover_mode options with kLocalTime => with_offset (if use_system_timezone options then tm_gmtoff else local_utc_offset_seconds options) i1 | _ => i1 end).
  assert (Hlog : f1 !! active_log home = Some (store_file kLogMagic 1 (log_body []))) by (unfold f1; rewrite lookup_insert_ne by done; apply lookup_insert_eq).
  destruct (detect_day root (active_log home) (active_index home) 1 [] f1 (local_offset_ns options i2) (Forall_nil_2 _) ltac:(done) Hlog) as [day Hday].
  set (i3 := with_recovery (Some (recovery_log home)) kFileHeaderSize (with_day day i2)).
  assert (Hids : archive_ids f = []).
  { destruct (unique_spec _ (stable_sort_sorted (fun id : Z => id) (omap ParseSegmentId (archive_names home (fresh_world f))))) as [_ H2]. apply (elem_of_nil_inv (archive_ids f)). intros x Hx. apply H2 in Hx. rewrite stable_sort_perm, list_elem_of_omap in Hx. destruct Hx as (name & Hn & _). apply elem_of_archive_names in Hn as [c Hc]. by rewrite Hf in Hc. }
  assert (E2 : im_active_segment i2 = active_handle empty_ideal /\ im_archived_segments i2 = ∅ /\ im_outbound_index i2 = ∅ /\ im_recovery_states i2 = ∅ /\ im_pending_entries i2 = im_pending_entries i /\ im_pending_payload_arena i2 = im_pending_payload_arena i) by (unfold i2; by destruct (rollover_mode options)).
  destruct E2 as (A1 & A2 & A3 & A4 & A5 & A6). exists f2, i3. split_and!.
  - unfold Open. apply yields_get. intros w Hw. cbn [snd]. rewrite Hclosed.
    eapply yields_bind; [apply yields_disk, does_directory, home_text_nonempty|]. eapply yields_bind; [apply yields_disk, does_directory, archive_text_nonempty|]. eapply yields_bind; [apply yields_private|]. cbv beta.
    eapply yields_bind; [apply yields_disk, does_list|]. cbv beta zeta. fold (archive_ids f). rewrite Hids. cbn [open_all]. eapply yields_bind; [apply yields_ret|]. cbv beta.
    eapply (yields_bind _ _ f (close_all i) f1 i1 f2 i3 tt tt).
    { unfold open_active. eapply yields_bind; [apply yields_disk, does_exists|]. eapply yields_bind; [apply yields_disk, does_exists|]. rewrite !Hf by done. rewrite !bool_decide_false by (by intros []). cbn [eqb negb last].
      eapply yields_bind; [apply yields_disk; eapply does_create_segment; [exact active_paths|split; [lia|apply Z.leb_le; reflexivity]|by apply Hf|by apply Hf|by right]|]. cbv beta. fold f1.
      eapply yields_bind; [apply load_segment; [constructor|done|done|unfold f1; apply lookup_insert_eq]|]. cbv beta. cbn [index_entries add_entries fold_left]. rewrite with_index_id. apply yields_private. }
    cbv beta. eapply (yields_bind _ _ f1 i1 f1 (with_day day i2) f2 i3 tt tt).
    { unfold open_day. eapply (yields_bind _ _ f1 i1 f1 i2 f1 _ tt tt); [apply yields_private|]. cbv beta. apply yields_get. intros w' Hw'. cbn [snd]. rewrite A1. eapply yields_bind; [apply yields_disk; exact Hday|]. cbv beta. apply yields_private. }
    cbv beta. eapply (yields_bind _ _ f1 (with_day day i2) f2 i3 f2 i3 tt tt).
    { unfold open_recovery. eapply yields_bind; [apply yields_disk; eapply (does_create root (recovery_log home) f1 kRecoveryMagic 0); [unfold kMagics; set_solver|split; [lia|apply Z.leb_le; reflexivity]|unfold f1; rewrite !lookup_insert_ne by done; by apply Hf|by right]|]. cbv beta. cbn [of_fd of_size]. fold f2.
      eapply yields_bind; [apply yields_private|]. cbv beta. fold i3. pose proof (load_recovery root (recovery_log home) f2 [] i3) as H. cbn [add_states fold_left] in H. rewrite with_states_id in H. apply H; [unfold f2; apply lookup_insert_eq|done|constructor]. }
    cbv beta. unfold prune_archive. rewrite Hmax. apply yields_ret.
  - constructor; cbn [sd_archived sd_active sd_states empty_ideal].
    + intros j l Hj. by rewrite lookup_nil in Hj.
    + intros j l Hj. by rewrite lookup_nil in Hj.
    + intros name [c Hc]. unfold f2, f1 in Hc. rewrite !lookup_insert_ne in Hc by done. by rewrite Hf in Hc.
    + unfold f2. rewrite lookup_insert_ne by done. exact Hlog.
    + unfold f2, f1. rewrite lookup_insert_ne by done. apply lookup_insert_eq.
    + unfold f2. apply lookup_insert_eq.
  - constructor; cbn; [exact A1|by rewrite A2|done|done|exact A3|exact A4].
  - unfold f2, f1. eapply beside_trans; [apply (beside_insert f (active_log home)); done|]. eapply beside_trans; [apply (beside_insert _ (active_index home)); done|]. apply (beside_insert _ (recovery_log home)); done.
  - exact A5.
  - exact A6.
Qed.

(** ** Flushing *)

Lemma add_entries_app id a b m : add_entries id (a ++ b) m = add_entries id b (add_entries id a m).
Proof. unfold add_entries. apply fold_left_app. Qed.

Lemma length_raw magic id size body : Z.of_nat (length (raw_file magic id size body)) = body_size body.
Proof. unfold raw_file, body_size, kFileHeaderSize. rewrite length_app, length_pod_bytes. lia. Qed.

Lemma raw_append magic id size body more : raw_file magic id size body ++ more = raw_file magic id size (body ++ more).
Proof. unfold raw_file. by rewrite <- app_assoc. Qed.

(** Three files of the store that are written. *)
Lemma stored_log a b c d f m body : stored_with a b c d f -> body = log_body (sd_active d ++ [m]) -> index_body (sd_active d ++ [m]) = index_body (sd_active d) ->
  stored_with a b c (push d (EMessage m)) (<[active_log home := raw_file kLogMagic (active_id d) a body]> f).
Proof.
  intros [F1 F2 F3 F4 F5 F6] -> Hi. constructor; cbn [push sd_archived sd_active sd_states].
  - intros j l Hj. rewrite lookup_insert_ne by done. by apply F1.
  - intros j l Hj. rewrite lookup_insert_ne by done. by apply F2.
  - intros name. rewrite lookup_insert_ne by done. apply F3.
  - apply lookup_insert_eq.
  - rewrite lookup_insert_ne by done. rewrite Hi. exact F5.
  - rewrite lookup_insert_ne by done. exact F6.
Qed.

Lemma stored_log_index a b c d f m : stored_with a b c d f ->
  stored_with a b c (push d (EMessage m)) (<[active_index home := raw_file kIndexMagic (active_id d) b (index_body (sd_active d ++ [m]))]> (<[active_log home := raw_file kLogMagic (active_id d) a (log_body (sd_active d ++ [m]))]> f)).
Proof.
  intros [F1 F2 F3 F4 F5 F6]. constructor; cbn [push sd_archived sd_active sd_states].
  - intros j l Hj. rewrite !lookup_insert_ne by done. by apply F1.
  - intros j l Hj. rewrite !lookup_insert_ne by done. by apply F2.
  - intros name. rewrite !lookup_insert_ne by done. apply F3.
  - rewrite lookup_insert_ne by done. apply lookup_insert_eq.
  - apply lookup_insert_eq.
  - rewrite !lookup_insert_ne by done. exact F6.
Qed.

Lemma stored_states a b c d f r : stored_with a b c d f -> stored_with a b c (push d (EState r)) (<[recovery_log home := raw_file kRecoveryMagic 0 c (states_body (sd_states d ++ [r]))]> f).
Proof.
  intros [F1 F2 F3 F4 F5 F6]. constructor; cbn [push sd_archived sd_active sd_states].
  - intros j l Hj. rewrite lookup_insert_ne by done. by apply F1.
  - intros j l Hj. rewrite lookup_insert_ne by done. by apply F2.
  - intros name. rewrite lookup_insert_ne by done. apply F3.
  - rewrite lookup_insert_ne by done. exact F4.
  - rewrite lookup_insert_ne by done. exact F5.
  - apply lookup_insert_eq.
Qed.

Lemma flush_one_state a b c d f i r offset : stored_with a b c d f -> opened d i ->
  let f' := <[recovery_log home := raw_file kRecoveryMagic 0 c (states_body (sd_states d ++ [r]))]> f in
  let i' := with_states (<[r_session_id r := r]> (im_recovery_states i)) (with_recovery (im_recovery_fd i) (im_recovery_size i + kRecoveryRecordSize) i) in
  yields (flush_recovery root home (queue_entry offset (EState r))) f i f' i' tt /\ opened (push d (EState r)) i'.
Proof.
  intros Hs [O1 O2 O3 O4 O5 O6] f' i'. split.
  - unfold flush_recovery. apply yields_get. intros w Hw. cbn [snd queue_entry pe_recovery_state]. rewrite O3.
    eapply yields_bind; [apply yields_disk; eapply does_append; [apply (fs_recovery _ _ _ _ _ Hs)|rewrite O4; symmetry; apply length_raw]|]. cbv beta. cbn [negb]. rewrite raw_append.
    assert (E : states_body (sd_states d) ++ pod_bytes (recovery_record r) = states_body (sd_states d ++ [r])) by (unfold states_body; rewrite map_app, serialize_app; done). rewrite E. apply yields_private.
  - constructor; cbn [push sd_archived sd_active sd_states]; [exact O1|exact O2|exact O3| |exact O5|].
    + cbn [i' with_states with_recovery im_recovery_size]. rewrite O4. unfold body_size, states_body. rewrite !length_serialize, !length_map, length_app. unfold kRecoveryRecordSize. cbn [length]. lia.
    + cbn [i' with_states im_recovery_states]. rewrite O6. unfold add_states. by rewrite fold_left_app.
Qed.

Lemma has_records_snoc l m : kFileHeaderSize <? log_end (l ++ [m]) = true.
Proof. apply Z.ltb_lt. rewrite log_end_snoc. pose proof (msg_size_pos m). unfold log_end, body_size. lia. Qed.

Lemma yields_private_eq (g : Impl -> Impl) f i i' : i' = g i -> yields (private g) f i f i' tt.
Proof. intros ->. apply yields_private. Qed.

Lemma flush_one_message a b c d f i m offset : stored_with a b c d f -> opened d i -> pending_payload i (queue_entry offset (EMessage m)) = v_payload (snd m) ->
  exists f' i', yields (flush_message root (queue_entry offset (EMessage m))) f i f' i' tt /\ stored_with a b c (push d (EMessage m)) f' /\ opened (push d (EMessage m)) i' /\ beside f f' /\
    im_pending_entries i' = im_pending_entries i /\ im_pending_payload_arena i' = im_pending_payload_arena i.
Proof.
  intros Hs Ho Hpay. destruct Ho as [O1 O2 O3 O4 O5 O6]. pose proof (fs_active_log _ _ _ _ _ Hs) as Hlog. pose proof (fs_active_index _ _ _ _ _ Hs) as Hidx.
  set (f1 := <[active_log home := raw_file kLogMagic (active_id d) a (log_body (sd_active d ++ [m]))]> f). set (i1 := with_active (grow_log (kRecordHeaderSize + payload_size m) (active_handle d)) i).
  assert (Ehdr : record_header (queue_entry offset (EMessage m)) = msg_header m) by (unfold record_header, msg_header, is_outbound; cbn; by destruct (fst m)).
  assert (Ebody : (log_body (sd_active d) ++ pod_bytes (msg_header m)) ++ v_payload (snd m) = log_body (sd_active d ++ [m])) by (rewrite log_body_app, <- app_assoc; unfold log_body at 3; cbn [map concat]; by rewrite app_nil_r).
  assert (Hprefix : yields (disk (os (WriteExact (sg_log_fd (active_handle d)) (pod_bytes (msg_header m)) (log_end (sd_active d))))) f i (<[active_log home := raw_file kLogMagic (active_id d) a (log_body (sd_active d) ++ pod_bytes (msg_header m))]> f) i true).
  { rewrite <- raw_append. apply yields_disk, does_append; [exact Hlog|]. symmetry. apply length_raw. }
  assert (Hwrite : yields (disk (os (WriteExact (sg_log_fd (active_handle d)) (v_payload (snd m)) (log_end (sd_active d) + kRecordHeaderSize)))) (<[active_log home := raw_file kLogMagic (active_id d) a (log_body (sd_active d) ++ pod_bytes (msg_header m))]> f) i f1 i true).
  { assert (E : f1 = <[active_log home := raw_file kLogMagic (active_id d) a (log_body (sd_active d) ++ pod_bytes (msg_header m)) ++ v_payload (snd m)]> (<[active_log home := raw_file kLogMagic (active_id d) a (log_body (sd_active d) ++ pod_bytes (msg_header m))]> f)) by (rewrite insert_insert_eq, raw_append, Ebody; done).
    rewrite E. apply yields_disk, does_append; [apply lookup_insert_eq|]. rewrite length_raw. unfold log_end, body_size, kRecordHeaderSize. rewrite length_app, length_pod_bytes. lia. }
  assert (Hgrow : opened (MkIdeal (sd_archived d) (sd_active d ++ [m]) (sd_states d)) (with_index (full_index (MkIdeal (sd_archived d) (sd_active d ++ [m]) (sd_states d))) (with_active (active_handle (MkIdeal (sd_archived d) (sd_active d ++ [m]) (sd_states d))) i))) by (by constructor).
  assert (Eidx : full_index (push d (EMessage m)) = if fst m then set_location (v_session_id (snd m)) (v_seq_num (snd m)) (location_of (active_id d) (msg_entry (log_end (sd_active d)) m)) (full_index d) else full_index d).
  { unfold full_index. cbn [push sd_archived sd_active active_id]. rewrite index_entries_snoc, add_entries_app. change (active_id (MkIdeal (sd_archived d) (sd_active d ++ [m]) (sd_states d))) with (active_id d). by destruct (fst m). }
  assert (Estart : forall f' i', yields (if fst m then flush_index root (queue_entry offset (EMessage m)) (log_end (sd_active d)) else ret tt) f1 i1 f' i' tt -> yields (flush_message root (queue_entry offset (EMessage m))) f i f' i' tt).
  { intros f' i' Hk. unfold flush_message. apply yields_get. intros w Hw. cbn [snd]. rewrite O1, Ehdr, Hpay. cbv zeta. eapply yields_bind; [exact Hprefix|]. cbn [negb]. eapply yields_bind; [exact Hwrite|]. cbn [negb].
    eapply yields_bind; [apply yields_private|]. cbv beta. rewrite O1. unfold is_outbound. cbn [queue_entry pe_kind]. destruct (fst m); exact Hk. }
  destruct m as [[] v]; cbn [fst snd] in *.
  - set (i2 := with_index (full_index (push d (EMessage (true, v)))) (with_active (active_handle (push d (EMessage (true, v)))) i)).
    set (f2 := <[active_index home := raw_file kIndexMagic (active_id d) b (index_body (sd_active d ++ [(true, v)]))]> f1). exists f2, i2. split_and!.
    + apply Estart. unfold flush_index. apply yields_get. intros w Hw. cbn [snd i1 with_active im_active_segment grow_log sg_index_fd sg_index_size]. change (active_handle d) with (handle_of (active_log home) (active_index home) (active_id d) (sd_active d)). cbn [handle_of sg_index_fd sg_index_size].
      change (index_entry (queue_entry offset (EMessage (true, v))) (log_end (sd_active d))) with (msg_entry (log_end (sd_active d)) (true, v)).
      eapply yields_bind; [apply yields_disk; eapply does_append; [unfold f1; rewrite lookup_insert_ne by done; exact Hidx|symmetry; apply length_raw]|]. cbv beta. cbn [negb]. rewrite raw_append.
      assert (E : index_body (sd_active d) ++ pod_bytes (msg_entry (log_end (sd_active d)) (true, v)) = index_body (sd_active d ++ [(true, v)])) by (by rewrite index_body_snoc). rewrite E. fold f2.
      apply yields_private_eq.
      unfold i2, i1. rewrite Eidx. cbv beta. cbn [with_active im_outbound_index im_active_segment]. rewrite O5. unfold with_index, with_active. cbn. f_equal. unfold active_handle, handle_of, grow_index, grow_log. cbn [push sd_active sg_segment_id sg_log_path sg_index_path sg_log_fd sg_index_fd sg_log_size sg_index_size sg_has_records]. rewrite has_records_snoc, log_end_snoc. f_equal.
        unfold body_size. rewrite index_body_snoc. cbn [fst]. rewrite length_app, length_pod_bytes. unfold kIndexEntrySize. lia.
    + apply stored_log_index. exact Hs.
    + exact Hgrow.
    + unfold f2, f1. eapply beside_trans; [apply (beside_insert f (active_log home)); done|]. apply (beside_insert _ (active_index home)); done.
    + done.
    + done.
  - assert (Eb : index_body (sd_active d ++ [(false, v)]) = index_body (sd_active d)) by (rewrite index_body_snoc; cbn; by rewrite app_nil_r).
    exists f1, i1. split_and!.
    + apply Estart. apply yields_ret.
    + unfold f1. by apply stored_log.
    + constructor; cbn [push sd_archived sd_active sd_states]; [|exact O2|exact O3|exact O4| |exact O6].
      * cbn [i1 with_active im_active_segment]. unfold active_handle, handle_of, grow_log. cbn [push sd_active sg_segment_id sg_log_path sg_index_path sg_log_fd sg_index_fd sg_log_size sg_index_size sg_has_records]. rewrite has_records_snoc, log_end_snoc, Eb. done.
      * cbn [i1 with_active im_outbound_index]. rewrite O5. symmetry. exact Eidx.
    + unfold f1. apply (beside_insert f (active_log home)); done.
    + done.
    + done.
Qed.

Lemma push_all_cons d e q : push_all d (e :: q) = push_all (push d e) q.
Proof. done. Qed.

Lemma flush_all q : forall pre a b c d f i, stored_with a b c d f -> opened d i -> im_pending_payload_arena i = queue_arena (pre ++ q) ->
  exists f' i', yields (flush_entries root home (queue_entries (Z.of_nat (length (queue_arena pre))) q)) f i f' i' tt /\ stored_with a b c (push_all d q) f' /\ opened (push_all d q) i' /\ beside f f' /\
    im_pending_entries i' = im_pending_entries i /\ im_pending_payload_arena i' = im_pending_payload_arena i.
Proof.
  induction q as [|e q IH]; intros pre a b c d f i Hs Ho Ha; [exists f, i; split; [apply yields_ret|]; split; [exact Hs|]; split; [exact Ho|done]|].
  assert (Hone : exists f1 i1, yields (if is_recovery (queue_entry (Z.of_nat (length (queue_arena pre))) e) then flush_recovery root home (queue_entry (Z.of_nat (length (queue_arena pre))) e) else flush_message root (queue_entry (Z.of_nat (length (queue_arena pre))) e)) f i f1 i1 tt /\
    stored_with a b c (push d e) f1 /\ opened (push d e) i1 /\ beside f f1 /\ im_pending_entries i1 = im_pending_entries i /\ im_pending_payload_arena i1 = im_pending_payload_arena i).
  { destruct e as [m|r].
    - assert (Hr : is_recovery (queue_entry (Z.of_nat (length (queue_arena pre))) (EMessage m)) = false) by (unfold is_recovery; cbn; by destruct (fst m)). rewrite Hr. apply flush_one_message; [done|done|].
      unfold pending_payload. rewrite Ha. cbn [queue_entry pe_payload_offset pe_payload_size]. unfold payload_size. rewrite !Nat2Z.id. unfold queue_arena, slice. rewrite map_app, concat_app. cbn [map concat entry_payload]. rewrite drop_app_length. apply take_app_length.
    - destruct (flush_one_state a b c d f i r (Z.of_nat (length (queue_arena pre))) Hs Ho) as [Hy Hop]. do 2 eexists. split; [exact Hy|]. split; [by apply stored_states|]. split; [exact Hop|]. split; [apply (beside_insert f (recovery_log home)); done|done]. }
  destruct Hone as (f1 & i1 & Hy & Hs1 & Ho1 & Hb1 & Hp1 & Hp2). destruct (IH (pre ++ [e]) a b c (push d e) f1 i1 Hs1 Ho1) as (f2 & i2 & Hy2 & Hs2 & Ho2 & Hb2 & Hp3 & Hp4); [rewrite Hp2, Ha; by rewrite <- app_assoc|].
  exists f2, i2. rewrite push_all_cons. split; [|split; [exact Hs2|split; [exact Ho2|split; [by eapply beside_trans|by rewrite Hp3, Hp4]]]]. cbn [queue_entries flush_entries]. eapply yields_bind; [exact Hy|]. cbv beta.
  rewrite queue_arena_snoc, length_app, Nat2Z.inj_add in Hy2. exact Hy2.
Qed.

Lemma does_read_header p magic id size body what f : magic ∈ kMagics -> in_u64 id -> in_u64 size -> fits_disk body -> f !! p = Some (raw_file magic id size body) -> does (read_header root (Some p) p what) f f (file_header magic id size).
Proof.
  intros Hm Hi Hsz Hb Hp. unfold read_header. eapply does_bind; [eapply does_read; [exact Hp|lia| |rewrite length_raw; exact Hb]|].
  - unfold raw_file. rewrite length_app, length_pod_bytes. lia.
  - cbv beta. assert (E : slice (raw_file magic id size body) (Z.to_nat 0) (pod_size StoreFileHeader) = pod_bytes (file_header magic id size)) by (unfold slice, raw_file; rewrite drop_0; apply take_app_length'; by rewrite length_pod_bytes).
    rewrite E, pod_read_alone by (by apply file_header_fits). apply does_ret.
Qed.

Lemma does_sync_if wrote p f : does (sync_if wrote (Some p)) f f tt.
Proof. unfold sync_if. destruct wrote; [apply does_sync|apply does_ret]. Qed.

Lemma does_commit (wrote : bool) p magic id old size body what f : f !! p = Some (raw_file magic id old body) ->
  does (commit_header root wrote (Some p) p (file_header magic id old) size what) f (<[p := raw_file magic id (if wrote then size else old) body]> f) tt.
Proof.
  intros Hp. unfold commit_header. destruct wrote; [|rewrite insert_id by done; apply does_ret]. eapply does_bind; [eapply does_write; [exact Hp|lia]|]. cbv beta iota.
  assert (E : write_at (Z.to_nat 0) (pod_bytes (with_file_size size (file_header magic id old))) (raw_file magic id old body) = raw_file magic id size body).
  { rewrite Z2Nat.inj_0, write_at_start. unfold raw_file at 1. rewrite length_pod_bytes, <- (length_pod_bytes (file_header magic id old)), drop_app_length. done. }
  rewrite E. apply does_ret.
Qed.

Lemma stored_commit a b c a' b' c' d f : stored_with a b c d f ->
  stored_with a' b' c' d (<[recovery_log home := raw_file kRecoveryMagic 0 c' (states_body (sd_states d))]> (<[active_index home := raw_file kIndexMagic (active_id d) b' (index_body (sd_active d))]> (<[active_log home := raw_file kLogMagic (active_id d) a' (log_body (sd_active d))]> f))).
Proof.
  intros [F1 F2 F3 F4 F5 F6]. constructor.
  - intros j l Hj. rewrite !lookup_insert_ne by done. by apply F1.
  - intros j l Hj. rewrite !lookup_insert_ne by done. by apply F2.
  - intros name. rewrite !lookup_insert_ne by done. apply F3.
  - rewrite !lookup_insert_ne by done. apply lookup_insert_eq.
  - rewrite lookup_insert_ne by done. apply lookup_insert_eq.
  - apply lookup_insert_eq.
Qed.

(** What a queue that has no message, no outbound message or no state leaves alone. *)
Lemma push_all_same q : forall offset d,
  (existsb (fun e => negb (is_recovery e)) (queue_entries offset q) = false -> sd_active (push_all d q) = sd_active d) /\
  (existsb is_outbound (queue_entries offset q) = false -> index_body (sd_active (push_all d q)) = index_body (sd_active d)) /\
  (existsb is_recovery (queue_entries offset q) = false -> sd_states (push_all d q) = sd_states d) /\ sd_archived (push_all d q) = sd_archived d.
Proof.
  induction q as [|e q IH]; intros offset d; [done|]. rewrite push_all_cons. destruct (IH (offset + Z.of_nat (length (entry_payload e))) (push d e)) as (H1 & H2 & H3 & H4). cbn [queue_entries existsb].
  split_and!; [| | |by rewrite H4; destruct e].
  - intros [E1 E2]%orb_false_iff. rewrite H1 by done. destruct e as [m|r]; [|done]. unfold is_recovery in E1. cbn in E1. by destruct (fst m).
  - intros [E1 E2]%orb_false_iff. rewrite H2 by done. destruct e as [m|r]; [|done]. cbn [push sd_active]. rewrite index_body_snoc. unfold is_outbound in E1. cbn in E1. destruct (fst m); [done|]. apply app_nil_r.
  - intros [E1 E2]%orb_false_iff. rewrite H3 by done. destruct e as [m|r]; [done|]. done.
Qed.

Lemma with_pending_opened d i l arena : opened d i -> opened d (with_pending l arena i).
Proof. intros []. by constructor. Qed.

Lemma queue_entries_nil offset q : queue_entries offset q = [] -> q = [].
Proof. by destruct q. Qed.

(** Everything that is queued goes to the files, and the headers commit it. *)
Lemma flush_stored d q f i : sound d -> sound (push_all d q) -> stored d f -> opened d i -> queued q i ->
  exists f' i', yields (Flush root options tm_gmtoff home) f i f' i' tt /\ stored (push_all d q) f' /\ opened (push_all d q) i' /\ queued [] i' /\ beside f f'.
Proof.
  intros Hd Hd' Hs Ho [Hq Ha]. destruct (decide (q = [])) as [->|Hne].
  { exists f, i. split_and!; try done. unfold Flush. eapply yields_bind; [by eapply open_again|]. apply yields_get. intros w Hw. cbn [snd]. rewrite Hq. apply yields_ret. }
  destruct (flush_all q [] _ _ _ d f i Hs Ho Ha) as (f1 & i1 & Hy & Hs1 & Ho1 & Hb1 & Hp1 & Hp2). cbn [queue_arena map concat length Z.of_nat] in Hy.
  destruct (push_all_same q 0 d) as (S1 & S2 & S3 & S4). rewrite <- Hq in S1, S2, S3. set (entries := im_pending_entries i) in *.
  set (wl := existsb (fun e => negb (is_recovery e)) entries). set (wi := existsb is_outbound entries). set (wr := existsb is_recovery entries). fold wl in S1. fold wi in S2. fold wr in S3. set (d' := push_all d q) in *.
  set (a := log_end (sd_active d)) in *. set (b := body_size (index_body (sd_active d))) in *. set (c := body_size (states_body (sd_states d))) in *.
  set (fl := <[active_log home := raw_file kLogMagic (active_id d') (if wl then log_end (sd_active d') else a) (log_body (sd_active d'))]> f1).
  set (fi := <[active_index home := raw_file kIndexMagic (active_id d') (if wi then body_size (index_body (sd_active d')) else b) (index_body (sd_active d'))]> fl).
  set (fr := <[recovery_log home := raw_file kRecoveryMagic 0 (if wr then body_size (states_body (sd_states d')) else c) (states_body (sd_states d'))]> fi).
  assert (Eid : active_id d' = active_id d) by (unfold active_id; by rewrite S4). pose proof (active_id_fits d Hd) as Hid. destruct (active_light d Hd) as (_ & Hl2 & Hl3). pose proof (states_light d Hd) as Hst. destruct Hs as [F1 F2 F3 F4 F5 F6]. destruct Ho as [O1 O2 O3 O4 O5 O6] eqn:EO. clear EO. pose proof Ho1 as [P1 P2 P3 P4 P5 P6].
  assert (Hu : in_u64 (active_id d)) by (unfold kLimit in Hid; ulia). assert (Hz : in_u64 0) by (split; [lia|apply Z.leb_le; reflexivity]).
  exists fr, (with_pending [] [] i1). split_and!.
  - unfold Flush. eapply yields_bind; [by eapply (open_again d)|]. cbv beta. apply yields_get. intros w Hw. cbn [snd]. fold entries. assert (Hen : entries <> []) by (rewrite Hq; intros E; by apply queue_entries_nil in E).
    assert (Hmatch : forall (x : SE (World * Impl) unit), yields x f i fr (with_pending [] [] i1) tt -> yields (match entries with [] => ret tt | _ :: _ => x end) f i fr (with_pending [] [] i1) tt) by (intros x Hx; by destruct entries). apply Hmatch. clear Hmatch. cbv zeta. rewrite O1, O3. cbn [active_handle handle_of sg_log_fd sg_index_fd sg_log_path sg_index_path].
    eapply yields_bind; [apply yields_disk; eapply (does_read_header (active_log home) kLogMagic (active_id d) (log_end (sd_active d)) (log_body (sd_active d))); [unfold kMagics; set_solver|exact Hu|by apply fits_disk_u64|exact Hl2|exact F4]|]. cbv beta.
    eapply yields_bind; [apply yields_disk; eapply (does_read_header (active_index home) kIndexMagic (active_id d) (body_size (index_body (sd_active d))) (index_body (sd_active d))); [unfold kMagics; set_solver|exact Hu|by apply fits_disk_u64|exact Hl3|exact F5]|]. cbv beta.
    eapply yields_bind; [apply yields_disk; eapply (does_read_header (recovery_log home) kRecoveryMagic 0 (body_size (states_body (sd_states d))) (states_body (sd_states d))); [unfold kMagics; set_solver|exact Hz|by apply fits_disk_u64|exact Hst|exact F6]|]. cbv beta.
    eapply yields_bind; [rewrite Hq; exact Hy|]. cbv beta. apply yields_get. intros w1 Hw1. cbn [snd]. rewrite P1, P3, P4. fold wl wi wr. cbn [active_handle handle_of sg_log_fd sg_index_fd sg_log_path sg_index_path sg_log_size sg_index_size].
    do 3 (eapply yields_bind; [apply yields_disk, does_sync_if|]; cbv beta). fold a b c. rewrite <- Eid.
    eapply yields_bind; [apply yields_disk, does_commit; apply (fs_active_log _ _ _ _ _ Hs1)|]. cbv beta. fold fl.
    eapply yields_bind; [apply yields_disk, does_commit; unfold fl; rewrite lookup_insert_ne by done; apply (fs_active_index _ _ _ _ _ Hs1)|]. cbv beta. fold fi.
    eapply yields_bind; [apply yields_disk, does_commit; unfold fi, fl; rewrite !lookup_insert_ne by done; apply (fs_recovery _ _ _ _ _ Hs1)|]. cbv beta. fold fr.
    do 3 (eapply yields_bind; [apply yields_disk, does_sync_if|]; cbv beta). apply yields_private.
  - pose proof (stored_commit a b c (if wl then log_end (sd_active d') else a) (if wi then body_size (index_body (sd_active d')) else b) (if wr then body_size (states_body (sd_states d')) else c) d' f1 Hs1) as H. fold fl fi fr in H. unfold stored.
    destruct wl; [|rewrite (S1 eq_refl)]; (destruct wi; [|rewrite ?(S2 eq_refl)]); (destruct wr; [|rewrite ?(S3 eq_refl)]); try exact H; rewrite ?(S1 eq_refl) in *; exact H.
  - by apply with_pending_opened.
  - by split.
  - eapply beside_trans; [exact Hb1|]. unfold fr, fi, fl. eapply beside_trans; [apply (beside_insert f1 (active_log home)); done|]. eapply beside_trans; [apply (beside_insert _ (active_index home)); done|]. apply (beside_insert _ (recovery_log home)); done.
Qed.

(** ** Rollover *)

Lemma add_handles_snoc segs l : forall id m, add_handles id (segs ++ [l]) m = <[id + Z.of_nat (length segs) := handle_of (log_name home (id + Z.of_nat (length segs))) (index_name home (id + Z.of_nat (length segs))) (id + Z.of_nat (length segs)) l]> (add_handles id segs m).
Proof. induction segs as [|x segs IH]; intros id m; cbn [app add_handles length Z.of_nat]; [by rewrite Z.add_0_r|]. rewrite IH. by replace (id + 1 + Z.of_nat (length segs)) with (id + Z.of_nat (S (length segs))) by lia. Qed.

Lemma add_segments_snoc segs l : forall id m, add_segments id (segs ++ [l]) m = add_entries (id + Z.of_nat (length segs)) (index_entries kFileHeaderSize l) (add_segments id segs m).
Proof. induction segs as [|x segs IH]; intros id m; cbn [app add_segments length Z.of_nat]; [by rewrite Z.add_0_r|]. rewrite IH. by replace (id + 1 + Z.of_nat (length segs)) with (id + Z.of_nat (S (length segs))) by lia. Qed.

(** The last state of each session. *)
Definition latest (l : list SessionRecoveryState) : list SessionRecoveryState := map snd (map_to_list (add_states l ∅)).

Lemma add_states_list l : add_states l ∅ = list_to_map (map (fun r => (r_session_id r, r)) (rev l)).
Proof.
  unfold add_states. rewrite <- (fold_left_rev_right (fun r (m : gmap Z SessionRecoveryState) => <[r_session_id r := r]> m)). induction (rev l) as [|r l' IH]; cbn; [done|]. by rewrite IH.
Qed.

Lemma add_states_lookup l k r : add_states l ∅ !! k = Some r -> r ∈ l /\ r_session_id r = k.
Proof.
  rewrite add_states_list. intros Hr. apply elem_of_list_to_map_2 in Hr. apply list_elem_of_fmap in Hr as (x & [= -> ->] & Hx). split; [|done]. by rewrite <- (Permutation_rev l) in Hx.
Qed.

Lemma latest_states l : add_states (latest l) ∅ = add_states l ∅.
Proof.
  rewrite add_states_list at 1. unfold latest. set (m := add_states l ∅). assert (E : map (fun r => (r_session_id r, r)) (map snd (map_to_list m)) = map_to_list m).
  { rewrite map_map. rewrite <- (map_id (map_to_list m)) at 2. apply map_ext_in. intros [k r] Hin. cbn. apply list_elem_of_In, elem_of_map_to_list, add_states_lookup in Hin as [_ ->]. done. }
  rewrite map_rev, E. rewrite <- (list_to_map_to_list m) at 2. symmetry. apply list_to_map_proper; [apply NoDup_fst_map_to_list|]. apply Permutation_rev.
Qed.

Lemma latest_ok l : Forall state_ok l -> Forall state_ok (latest l).
Proof.
  rewrite !Forall_forall. intros Hl r Hr. unfold latest in Hr. apply list_elem_of_fmap in Hr as ([k x] & -> & Hx). apply elem_of_map_to_list, add_states_lookup in Hx as [Hx _]. by apply Hl.
Qed.

Lemma latest_length l : (length (latest l) <= length l)%nat.
Proof.
  unfold latest. rewrite length_map, length_map_to_list. assert (H : forall m, (size (add_states l m) <= size m + length l)%nat); [|specialize (H ∅); by rewrite map_size_empty in H].
  induction l as [|r l IH]; intros m; cbn; [lia|]. etrans; [apply IH|]. rewrite map_size_insert. destruct (m !! r_session_id r); cbn; lia.
Qed.

(** The states that are written behind a new header. *)
Lemma write_latest l : forall pre f size, f !! recovery_log home = Some (raw_file kRecoveryMagic 0 size (states_body pre)) ->
  does (write_states root home (Some (recovery_log home)) l (body_size (states_body pre))) f (<[recovery_log home := raw_file kRecoveryMagic 0 size (states_body (pre ++ l))]> f) (body_size (states_body (pre ++ l))).
Proof.
  induction l as [|r l IH]; intros pre f size Hf; cbn [write_states]; [rewrite app_nil_r, insert_id by done; apply does_ret|].
  eapply does_bind; [eapply does_append; [exact Hf|symmetry; apply length_raw]|]. cbv beta. cbn [negb]. rewrite raw_append.
  assert (E : states_body pre ++ pod_bytes (recovery_record r) = states_body (pre ++ [r])) by (unfold states_body; rewrite map_app, serialize_app; done). rewrite E.
  assert (Esz : body_size (states_body pre) + kRecoveryRecordSize = body_size (states_body (pre ++ [r]))) by (rewrite <- E; unfold body_size, kRecoveryRecordSize; rewrite length_app, length_pod_bytes; lia). rewrite Esz.
  specialize (IH (pre ++ [r]) (<[recovery_log home := raw_file kRecoveryMagic 0 size (states_body (pre ++ [r]))]> f) size (lookup_insert_eq _ _ _)). rewrite insert_insert_eq, <- app_assoc in IH. exact IH.
Qed.

Lemma does_compact c f l : f !! recovery_log home = Some c -> does (compact_recovery root home l) f (<[recovery_log home := raw_file kRecoveryMagic 0 (body_size (states_body l)) (states_body l)]> f) (body_size (states_body l)).
Proof.
  intros Hf. unfold compact_recovery. set (f1 := <[recovery_log home := []]> f).
  assert (Ht : does (os (truncate_recovery home)) f f1 (Some (recovery_log home))).
  { intros w [Hw Hs]. exists (emit (Resize (recovery_log home) 0) w). unfold os, truncate_recovery, attempt. rewrite Hs. cbn [negb]. rewrite Hw, Hf. split; [done|]. split; [|done]. cbn [emit w_files apply_op]. rewrite Hw. unfold f1. apply map_eq. intros p.
    destruct (decide (recovery_log home = p)) as [<-|Hne]; [rewrite lookup_alter_eq, lookup_insert_eq, Hf; done|by rewrite lookup_alter_ne, lookup_insert_ne]. }
  eapply does_bind; [exact Ht|]. cbv beta iota zeta. eapply does_bind; [eapply does_append; [apply lookup_insert_eq|done]|]. cbv beta. cbn [negb app]. unfold f1. rewrite insert_insert_eq.
  change (pod_bytes (BuildFileHeader kRecoveryMagic 0)) with (raw_file kRecoveryMagic 0 kFileHeaderSize (states_body [])).
  eapply does_bind; [exact (write_latest l [] _ kFileHeaderSize (lookup_insert_eq _ _ _))|]. cbv beta. cbn [app]. rewrite insert_insert_eq. unfold SyncFileHeader.
  eapply does_bind; [eapply does_write; [apply lookup_insert_eq|lia]|]. cbv beta. cbn [negb]. rewrite insert_insert_eq.
  assert (E : write_at (Z.to_nat 0) (pod_bytes (with_file_size (body_size (states_body l)) (BuildFileHeader kRecoveryMagic 0))) (raw_file kRecoveryMagic 0 kFileHeaderSize (states_body l)) = raw_file kRecoveryMagic 0 (body_size (states_body l)) (states_body l)).
  { rewrite Z2Nat.inj_0, write_at_start. unfold raw_file at 1. rewrite length_pod_bytes, <- (length_pod_bytes (file_header kRecoveryMagic 0 kFileHeaderSize)), drop_app_length. done. }
  rewrite E. eapply does_bind; [apply does_sync|]. cbv beta. apply does_ret.
Qed.

Definition rolled (d : Ideal) : Ideal := match sd_active d with [] => d | _ => MkIdeal (sd_archived d ++ [sd_active d]) [] (latest (sd_states d)) end.

Lemma rolled_msgs d : all_msgs (rolled d) = all_msgs d.
Proof. unfold rolled, all_msgs. destruct (sd_active d) as [|m l] eqn:E; [by rewrite E|]. cbn [sd_archived sd_active]. rewrite concat_app. cbn. by rewrite !app_nil_r. Qed.

Lemma rolled_states d : add_states (sd_states (rolled d)) ∅ = add_states (sd_states d) ∅.
Proof. unfold rolled. destruct (sd_active d); [done|]. cbn. apply latest_states. Qed.

Lemma rolled_weight d : weight (rolled d) <= weight d.
Proof.
  unfold weight. rewrite rolled_msgs. assert (length (sd_states (rolled d)) <= length (sd_states d))%nat by (unfold rolled; destruct (sd_active d); [done|apply latest_length]). change kRecoveryRecordSize with 40. lia.
Qed.

Lemma rolled_sound d : sound d -> sound (rolled d).
Proof.
  intros Hd. pose proof (rolled_weight d). destruct Hd as [H1 H2 H3 H4]. constructor; [by rewrite rolled_msgs| | |lia].
  - unfold rolled. destruct (sd_active d); [done|]. cbn. by apply latest_ok.
  - unfold rolled. destruct (sd_active d); [done|]. cbn. apply Forall_app. split; [done|]. by constructor.
Qed.

Lemma log_path_inj a b : in_u64 a -> in_u64 b -> log_name home a = log_name home b -> a = b.
Proof. intros Ha Hb E. apply (f_equal snd) in E. cbn in E. eapply segment_name_inj; [| |exact E]; ulia. Qed.
Lemma index_path_inj a b : in_u64 a -> in_u64 b -> index_name home a = index_name home b -> a = b.
Proof. intros Ha Hb E. apply (f_equal snd) in E. cbn in E. eapply segment_name_inj; [| |exact E]; ulia. Qed.

(** The files behind the two renames and the new active segment. *)
Definition rolled_files (d : Ideal) (f : Files) : Files :=
  let id := active_id d in
  <[active_index home := store_file kIndexMagic (id + 1) []]> (<[active_log home := store_file kLogMagic (id + 1) []]>
    (<[index_name home id := store_file kIndexMagic id (index_body (sd_active d))]> (delete (active_index home) (<[log_name home id := store_file kLogMagic id (log_body (sd_active d))]> (delete (active_log home) f))))).

Lemma rolled_stored d f m l : sound d -> stored d f -> sd_active d = m :: l ->
  stored (rolled d) (<[recovery_log home := store_file kRecoveryMagic 0 (states_body (latest (sd_states d)))]> (rolled_files d f)).
Proof.
  intros Hd [F1 F2 F3 F4 F5 F6] Hact. pose proof (active_id_fits d Hd) as Hid. assert (Hu : forall x, 1 <= x <= active_id d -> in_u64 x) by (intros x Hx; unfold kLimit in Hid; ulia).
  assert (Er : rolled d = MkIdeal (sd_archived d ++ [sd_active d]) [] (latest (sd_states d))) by (unfold rolled; by rewrite Hact). rewrite Er. unfold rolled_files.
  assert (Eid : active_id (MkIdeal (sd_archived d ++ [sd_active d]) [] (latest (sd_states d))) = active_id d + 1) by (unfold active_id; cbn [sd_archived]; rewrite length_app; cbn [length]; lia).
  constructor; rewrite ?Eid; cbn [sd_archived sd_active sd_states].
  - intros j x Hj. rewrite !(lookup_insert_ne _ (recovery_log home)), !(lookup_insert_ne _ (active_index home)), !(lookup_insert_ne _ (active_log home)) by done.
    apply lookup_snoc_Some in Hj as [[Hlt Hj]|[-> ->]].
    + rewrite lookup_insert_ne by (intros E; symmetry in E; revert E; apply log_path_index; apply Hu; unfold active_id; lia). rewrite lookup_delete_ne by done.
      rewrite lookup_insert_ne; [rewrite lookup_delete_ne by done; by apply F1|]. intros E. apply log_path_inj in E; [unfold active_id in E; lia|apply Hu; unfold active_id; lia|apply Hu; unfold active_id; lia].
    + fold (active_id d). rewrite lookup_insert_ne by (intros E; symmetry in E; revert E; apply log_path_index; apply Hu; lia). rewrite lookup_delete_ne by done. apply lookup_insert_eq.
  - intros j x Hj. rewrite !(lookup_insert_ne _ (recovery_log home)), !(lookup_insert_ne _ (active_index home)), !(lookup_insert_ne _ (active_log home)) by done.
    apply lookup_snoc_Some in Hj as [[Hlt Hj]|[-> ->]].
    + rewrite lookup_insert_ne; [|intros E; apply index_path_inj in E; [unfold active_id in E; lia|apply Hu; unfold active_id; lia|apply Hu; unfold active_id; lia]]. rewrite lookup_delete_ne by done.
      rewrite lookup_insert_ne by (apply log_path_index; apply Hu; lia). rewrite lookup_delete_ne by done. by apply F2.
    + fold (active_id d). apply lookup_insert_eq.
  - intros name. rewrite !(lookup_insert_ne _ (recovery_log home)), !(lookup_insert_ne _ (active_index home)), !(lookup_insert_ne _ (active_log home)) by done.
    destruct (decide (name = MakeSegmentFileName (active_id d) kSegmentIndexSuffix)) as [->|N1]; [intros _; exists (active_id d); split; [lia|by right]|]. rewrite lookup_insert_ne by (intros E; apply N1; by apply (f_equal snd) in E). rewrite lookup_delete_ne by done.
    destruct (decide (name = MakeSegmentFileName (active_id d) kSegmentLogSuffix)) as [->|N2]; [intros _; exists (active_id d); split; [lia|by left]|]. rewrite lookup_insert_ne by (intros E; apply N2; by apply (f_equal snd) in E). rewrite lookup_delete_ne by done.
    intros Hn. destruct (F3 name Hn) as (id & Hr & Hname). exists id. split; [lia|done].
  - rewrite !lookup_insert_ne by done. apply lookup_insert_eq.
  - rewrite lookup_insert_ne by done. apply lookup_insert_eq.
  - apply lookup_insert_eq.
Qed.

Lemma rolled_index d : full_index (MkIdeal (sd_archived d ++ [sd_active d]) [] (latest (sd_states d))) = full_index d.
Proof. unfold full_index. cbn [sd_archived sd_active index_entries]. rewrite add_segments_snoc. unfold active_id. by rewrite (Z.add_comm 1). Qed.

Lemma has_records_cons m l : kFileHeaderSize <? log_end (m :: l) = true.
Proof. apply Z.ltb_lt. change (m :: l) with ([m] ++ l). rewrite log_end_app. pose proof (log_end_snoc [] m) as H. cbn in H. rewrite H. pose proof (msg_size_pos m). change (log_end []) with kFileHeaderSize. lia. Qed.

Lemma rolled_beside d f : beside f (rolled_files d f).
Proof.
  unfold rolled_files. eapply beside_trans; [apply (beside_delete f (active_log home)); done|]. eapply beside_trans; [apply (beside_insert _ (log_name home (active_id d))); done|]. eapply beside_trans; [apply (beside_delete _ (active_index home)); done|].
  eapply beside_trans; [apply (beside_insert _ (index_name home (active_id d))); done|]. eapply beside_trans; [apply (beside_insert _ (active_log home)); done|]. apply (beside_insert _ (active_index home)); done.
Qed.

Lemma archive_stored d f : sound d -> stored d f ->
  does (archive_segment root home (active_handle d)) f (<[index_name home (active_id d) := store_file kIndexMagic (active_id d) (index_body (sd_active d))]> (delete (active_index home) (<[log_name home (active_id d) := store_file kLogMagic (active_id d) (log_body (sd_active d))]> (delete (active_log home) f))))
    (handle_of (log_name home (active_id d)) (index_name home (active_id d)) (active_id d) (sd_active d)).
Proof.
  intros Hd [F1 F2 F3 F4 F5 F6]. pose proof (active_id_fits d Hd) as Hid. assert (Hu : in_u64 (active_id d)) by (unfold kLimit in Hid; ulia). destruct (active_light d Hd) as (_ & Hl2 & Hl3).
  unfold archive_segment. cbn [active_handle handle_of sg_segment_id sg_log_path sg_index_path]. eapply does_bind; [eapply does_rename; exact F4|]. cbv beta. cbn [negb].
  eapply does_bind; [eapply does_rename; rewrite lookup_insert_ne, lookup_delete_ne by done; exact F5|]. cbv beta. cbn [negb].
  apply does_open_segment; [by apply log_path_index|done|done|done| |apply lookup_insert_eq|by right]. rewrite lookup_insert_ne by (intros E; symmetry in E; revert E; by apply log_path_index). rewrite lookup_delete_ne by done. apply lookup_insert_eq.
Qed.

(** The active segment is archived, a new one is opened and the states are compacted. *)
Lemma rollover_stored d q f i : sound d -> sound (push_all d q) -> stored d f -> opened d i -> queued q i ->
  exists f' i', yields (Rollover root options tm_gmtoff home) f i f' i' tt /\ stored (rolled (push_all d q)) f' /\ opened (rolled (push_all d q)) i' /\ queued [] i' /\ beside f f'.
Proof.
  intros Hd Hd1 Hs Ho Hq. destruct (flush_stored d q f i Hd Hd1 Hs Ho Hq) as (f1 & i1 & Hy & Hs1 & Ho1 & Hq1 & Hb1). set (d1 := push_all d q) in *. clearbody d1. clear Hd Hs Ho Hq d q.
  destruct (sd_active d1) as [|m l] eqn:Hact.
  { exists f1, i1. assert (E : rolled d1 = d1) by (unfold rolled; by rewrite Hact). rewrite E. split; [|done]. unfold Rollover. eapply yields_bind; [exact Hy|]. cbv beta. apply yields_get. intros w Hw. cbn [snd]. rewrite (op_active _ _ Ho1). unfold active_handle. rewrite Hact. apply yields_ret. }
  pose proof (rolled_stored d1 f1 m l Hd1 Hs1 Hact) as Hs2. pose proof Ho1 as [O1 O2 O3 O4 O5 O6]. pose proof (active_id_fits d1 Hd1) as Hid. assert (Hu : in_u64 (active_id d1 + 1)) by (unfold kLimit in Hid; ulia).
  assert (Er : rolled d1 = MkIdeal (sd_archived d1 ++ [sd_active d1]) [] (latest (sd_states d1))) by (unfold rolled; by rewrite Hact).
  set (f2 := rolled_files d1 f1) in *. set (h := handle_of (log_name home (active_id d1)) (index_name home (active_id d1)) (active_id d1) (sd_active d1)).
  set (i2 := with_active (handle_of (active_log home) (active_index home) (active_id d1 + 1) []) (with_day None (with_active no_segment (with_archived (<[active_id d1 := h]> (im_archived_segments i1)) (with_active (CloseSegment (im_active_segment i1)) i1))))).
  assert (Hstart : forall f' i', yields (s <- get ;; let i := snd s in if bool_decide (is_Some (im_recovery_fd i)) && negb (bool_decide (im_recovery_states i = ∅)) then private (with_recovery None 0) ;;; offset <- disk (compact_recovery root home (map snd (map_to_list (im_recovery_states i)))) ;; private (with_recovery (Some (recovery_log home)) offset) else ret tt) f2 i2 f' i' tt -> yields (Rollover root options tm_gmtoff home) f i f' i' tt).
  { intros f' i' Hk. unfold Rollover. eapply yields_bind; [exact Hy|]. cbv beta. apply yields_get. intros w Hw. cbn [snd]. rewrite O1. cbn [active_handle handle_of sg_has_records sg_segment_id]. rewrite Hact, has_records_cons. cbn [negb].
    eapply yields_bind; [apply yields_disk, does_directory, archive_text_nonempty|]. cbv beta. eapply yields_bind; [apply yields_private|]. cbv beta.
    eapply yields_bind; [apply yields_disk, archive_stored; [exact Hd1|exact Hs1]|]. cbv beta. fold h. eapply yields_bind; [apply yields_private|]. cbv beta zeta. rewrite u64_small by done.
    eapply yields_bind; [apply yields_disk, does_create_segment; [exact active_paths|done| | |by right]|].
    - rewrite lookup_insert_ne, lookup_delete_ne, lookup_insert_ne by done. apply lookup_delete_eq.
    - rewrite lookup_insert_ne by done. apply lookup_delete_eq.
    - cbv beta. eapply yields_bind; [apply yields_private|]. cbv beta. unfold prune_archive. rewrite Hmax. cbn [Z.eqb]. eapply yields_bind; [apply yields_ret|]. cbv beta. exact Hk. }
  assert (Hstates : im_recovery_states i2 = add_states (sd_states d1) ∅) by exact O6. assert (Hfd : im_recovery_fd i2 = Some (recovery_log home)) by exact O3.
  assert (Harch : im_archived_segments i2 = add_handles 1 (sd_archived d1 ++ [sd_active d1]) ∅) by (rewrite add_handles_snoc; cbn [i2 with_active with_day with_archived im_archived_segments]; rewrite O2; unfold h, active_id; by rewrite (Z.add_comm 1)).
  assert (Hidx : im_outbound_index i2 = full_index (rolled d1)) by (rewrite Er, rolled_index; exact O5).
  assert (Hid2 : active_id (rolled d1) = active_id d1 + 1) by (rewrite Er; unfold active_id; cbn [sd_archived]; rewrite length_app; cbn [length]; lia).
  assert (Hrec : f2 !! recovery_log home = Some (store_file kRecoveryMagic 0 (states_body (sd_states d1)))).
  { unfold f2, rolled_files. rewrite !lookup_insert_ne by done. rewrite lookup_delete_ne, lookup_insert_ne, lookup_delete_ne by done. apply (fs_recovery _ _ _ _ _ Hs1). }
  destruct (decide (add_states (sd_states d1) ∅ = ∅)) as [He|He].
  - exists f2, i2. assert (Hl : latest (sd_states d1) = []) by (unfold latest; by rewrite He, map_to_list_empty). assert (Hn : sd_states d1 = []).
    { destruct (sd_states d1) as [|r rs] eqn:Er2; [done|]. exfalso. rewrite add_states_list in He. apply (f_equal (fun mm => mm !! r_session_id r)) in He. rewrite lookup_empty in He. apply not_elem_of_list_to_map in He. apply He. apply list_elem_of_fmap. exists (r_session_id r, r). split; [done|]. apply list_elem_of_fmap. exists r. split; [done|]. rewrite <- Permutation_rev. left. }
    split_and!; [|rewrite <- (insert_id f2 (recovery_log home) (store_file kRecoveryMagic 0 (states_body (latest (sd_states d1))))); [exact Hs2|rewrite Hl, <- Hn; exact Hrec]| |by destruct Hq1|by eapply beside_trans; [|apply rolled_beside]].
    + apply Hstart. apply yields_get. intros w Hw. cbn [snd]. rewrite Hstates, He, bool_decide_true by done. rewrite (bool_decide_true (∅ = ∅)) by done. rewrite andb_false_r. apply yields_ret.
    + rewrite Er. constructor; cbn [sd_archived sd_active sd_states]; [|exact Harch|exact O3| |rewrite <- Er; exact Hidx|].
      * cbn [i2 with_active im_active_segment]. unfold active_handle. rewrite <- Hid2, Er. done.
      * rewrite Hl, <- Hn. exact O4.
      * rewrite Hl, <- Hn. exact O6.
  - set (i3 := with_recovery (Some (recovery_log home)) (body_size (states_body (latest (sd_states d1)))) i2). exists (<[recovery_log home := store_file kRecoveryMagic 0 (states_body (latest (sd_states d1)))]> f2), i3.
    split_and!; [|exact Hs2| |by destruct Hq1|eapply beside_trans; [exact Hb1|]; eapply beside_trans; [apply rolled_beside|apply (beside_insert _ (recovery_log home)); done]].
    + apply Hstart. apply yields_get. intros w Hw. cbn [snd]. rewrite Hfd, Hstates, bool_decide_true by done. rewrite bool_decide_false by done. cbn [negb andb]. eapply yields_bind; [apply yields_private|]. cbv beta.
      eapply yields_bind; [apply yields_disk, (does_compact _ _ _ Hrec)|]. cbv beta. apply yields_private.
    + rewrite Er. constructor; cbn [sd_archived sd_active sd_states]; [|exact Harch|done|done|rewrite <- Er; exact Hidx|].
      * cbn [i3 i2 with_recovery with_active im_active_segment]. unfold active_handle. rewrite <- Hid2, Er. done.
      * rewrite latest_states. exact O6.
Qed.

(** ** Saving *)

Definition msgs_of (l : list Entry) : list Msg := omap (fun e => match e with EMessage m => Some m | EState _ => None end) l.
Definition states_of (l : list Entry) : list SessionRecoveryState := omap (fun e => match e with EMessage _ => None | EState r => Some r end) l.
Definition entries_weight (l : list Entry) : Z := msgs_weight (msgs_of l) + kRecoveryRecordSize * Z.of_nat (length (states_of l)).

Lemma msgs_of_app l l' : msgs_of (l ++ l') = msgs_of l ++ msgs_of l'.
Proof. apply omap_app. Qed.
Lemma states_of_app l l' : states_of (l ++ l') = states_of l ++ states_of l'.
Proof. apply omap_app. Qed.
Lemma entries_weight_app l l' : entries_weight (l ++ l') = entries_weight l + entries_weight l'.
Proof. unfold entries_weight. rewrite msgs_of_app, states_of_app, msgs_weight_app, length_app. lia. Qed.
Lemma entries_weight_nonneg l : 0 <= entries_weight l.
Proof. unfold entries_weight. pose proof (msgs_weight_nonneg (msgs_of l)). change kRecoveryRecordSize with 40. lia. Qed.

(** No batch has more payload than an offset in the arena can address. *)
Context (limit : Z) (Hthreshold : 1 <= flush_threshold options) (Hlimit : flush_threshold options * limit <= UINT32_MAX).

Definition entry_fits (e : Entry) : Prop := match e with EMessage m => msg_ok m /\ payload_size m <= limit | EState r => state_ok r end.

Lemma push_all_spec q : forall d, all_msgs (push_all d q) = all_msgs d ++ msgs_of q /\ sd_states (push_all d q) = sd_states d ++ states_of q /\ sd_archived (push_all d q) = sd_archived d.
Proof.
  induction q as [|e q IH]; intros d; [cbn; by rewrite !app_nil_r|]. rewrite push_all_cons. destruct (IH (push d e)) as (H1 & H2 & H3). rewrite H1, H2, H3. destruct e as [m|r]; cbn; unfold all_msgs; cbn; rewrite <- ?app_assoc; done.
Qed.

Lemma entries_ok q : Forall entry_fits q -> Forall msg_ok (msgs_of q) /\ Forall state_ok (states_of q).
Proof. induction 1 as [|e q He _ [IH1 IH2]]; [split; constructor|]. destruct e as [m|r]; cbn in *; split; try done; constructor; try done. by destruct He. Qed.

Lemma push_all_weight d q : weight (push_all d q) = weight d + entries_weight q.
Proof. destruct (push_all_spec q d) as (H1 & H2 & _). unfold weight, entries_weight. rewrite H1, H2, msgs_weight_app, length_app. lia. Qed.

Lemma push_all_sound d q : sound d -> Forall entry_fits q -> weight d + entries_weight q + 1000 < kLimit -> sound (push_all d q).
Proof.
  intros Hd Hq Hw. destruct (push_all_spec q d) as (H1 & H2 & H3). destruct (entries_ok q Hq) as [Q1 Q2]. destruct Hd as [D1 D2 D3 D4]. constructor; [rewrite H1; by apply Forall_app|rewrite H2; by apply Forall_app|by rewrite H3|]. rewrite push_all_weight. lia.
Qed.

(** A form that holds these entries. *)
Record holds (d : Ideal) (l : list Entry) : Prop := {
  hd_sound : sound d;
  hd_msgs : all_msgs d = msgs_of l;
  hd_states : add_states (sd_states d) ∅ = add_states (states_of l) ∅;
  hd_weight : weight d <= entries_weight l;
}.

Lemma add_states_app l l' m : add_states (l ++ l') m = add_states l' (add_states l m).
Proof. apply fold_left_app. Qed.

Lemma holds_push d l q : holds d l -> Forall entry_fits q -> entries_weight (l ++ q) + 1000 < kLimit -> holds (push_all d q) (l ++ q).
Proof.
  intros [H1 H2 H3 H4] Hq Hw. destruct (push_all_spec q d) as (P1 & P2 & P3). rewrite entries_weight_app in Hw. constructor.
  - apply push_all_sound; [done|done|lia].
  - by rewrite P1, msgs_of_app, H2.
  - by rewrite P2, states_of_app, !add_states_app, H3.
  - rewrite push_all_weight, entries_weight_app. lia.
Qed.

Lemma holds_rolled d l : holds d l -> holds (rolled d) l.
Proof. intros [H1 H2 H3 H4]. constructor; [by apply rolled_sound|by rewrite rolled_msgs|by rewrite rolled_states|]. pose proof (rolled_weight d). lia. Qed.

(** The store holds the flushed entries in its files and the others in its queue. *)
Record represents (flushed queue : list Entry) (f : Files) (i : Impl) : Prop := {
  rp_form : exists d, holds d flushed /\ stored d f /\ opened d i;
  rp_queue : queued queue i;
  rp_fits : Forall entry_fits (flushed ++ queue);
  rp_short : Z.of_nat (length queue) < flush_threshold options;
}.

Lemma represents_day flushed queue f i day : represents flushed queue f i -> represents flushed queue f (with_day day i).
Proof. intros [(d & H1 & H2 & []) H4 H5 H6]. constructor; [|done|done|done]. exists d. split; [done|]. split; [done|]. by constructor. Qed.

Lemma flush_represents flushed queue f i : represents flushed queue f i -> entries_weight (flushed ++ queue) + 1000 < kLimit ->
  exists f' i', yields (Flush root options tm_gmtoff home) f i f' i' tt /\ represents (flushed ++ queue) [] f' i' /\ beside f f'.
Proof.
  intros [(d & Hh & Hs & Ho) Hq Hall Hl] Hw. pose proof Hall as [_ Hf]%Forall_app. pose proof (holds_push d flushed queue Hh Hf Hw) as Hh'. destruct (flush_stored d queue f i (hd_sound _ _ Hh) (hd_sound _ _ Hh') Hs Ho Hq) as (f' & i' & Hy & Hs' & Ho' & Hq' & Hb).
  exists f', i'. split; [exact Hy|]. split; [|exact Hb]. constructor; [by exists (push_all d queue)|exact Hq'|by rewrite app_nil_r|cbn; lia].
Qed.

Lemma rollover_represents flushed queue f i : represents flushed queue f i -> entries_weight (flushed ++ queue) + 1000 < kLimit ->
  exists f' i', yields (Rollover root options tm_gmtoff home) f i f' i' tt /\ represents (flushed ++ queue) [] f' i' /\ beside f f'.
Proof.
  intros [(d & Hh & Hs & Ho) Hq Hall Hl] Hw. pose proof Hall as [_ Hf]%Forall_app. pose proof (holds_push d flushed queue Hh Hf Hw) as Hh'. destruct (rollover_stored d queue f i (hd_sound _ _ Hh) (hd_sound _ _ Hh') Hs Ho Hq) as (f' & i' & Hy & Hs' & Ho' & Hq' & Hb).
  exists f', i'. split; [exact Hy|]. split; [|exact Hb]. constructor; [|exact Hq'|by rewrite app_nil_r|cbn; lia]. exists (rolled (push_all d queue)). split; [by apply holds_rolled|done].
Qed.

Lemma length_queue_entries q offset : length (queue_entries offset q) = length q.
Proof. revert offset. induction q as [|e q IH]; intros offset; cbn; [done|]. by rewrite IH. Qed.

Lemma queue_arena_bound q : Forall entry_fits q -> 0 <= limit -> Z.of_nat (length (queue_arena q)) <= Z.of_nat (length q) * limit.
Proof.
  intros Hq Hl. induction Hq as [|e q He _ IH]; [cbn; lia|]. unfold queue_arena in *. cbn [map concat length]. rewrite length_app. destruct e as [m|r]; cbn [entry_payload entry_fits length] in *; [unfold payload_size in He|]; lia.
Qed.

(** The queue with one more entry, flushed when it is full. *)
Lemma queue_represents flushed queue f i i1 e : represents flushed queue f i -> entry_fits e -> entries_weight (flushed ++ queue ++ [e]) + 1000 < kLimit ->
  (forall d, opened d i -> opened d i1) -> queued (queue ++ [e]) i1 ->
  exists flushed' queue' f' i', yields (flush_when_full root options tm_gmtoff home) f i1 f' i' tt /\ represents flushed' queue' f' i' /\ flushed' ++ queue' = flushed ++ queue ++ [e] /\ flushed `prefix_of` flushed' /\ beside f f'.
Proof.
  intros [(d & Hh & Hs & Ho) Hq [Hfl Hf]%Forall_app Hl] He Hw Hop Hq1. assert (Hfits : Forall entry_fits (queue ++ [e])) by (apply Forall_app; split; [done|by constructor]). assert (Hall : Forall entry_fits (flushed ++ queue ++ [e])) by (by apply Forall_app).
  assert (Hlen : length (im_pending_entries i1) = S (length queue)) by (destruct Hq1 as [-> _]; rewrite length_queue_entries, length_app; cbn; lia).
  destruct (Z.leb_spec (flush_threshold options) (Z.of_nat (length (im_pending_entries i1)))) as [Hfull|Hroom].
  - pose proof (holds_push d flushed (queue ++ [e]) Hh Hfits Hw) as Hh'. destruct (flush_stored d (queue ++ [e]) f i1 (hd_sound _ _ Hh) (hd_sound _ _ Hh') Hs (Hop d Ho) Hq1) as (f' & i' & Hy & Hs' & Ho' & Hq' & Hb).
    exists (flushed ++ queue ++ [e]), [], f', i'. split_and!; [|constructor; [by exists (push_all d (queue ++ [e]))|exact Hq'|by rewrite app_nil_r|cbn; lia]|by rewrite app_nil_r|by apply prefix_app_r|exact Hb].
    unfold flush_when_full. apply yields_get. intros w Hw'. cbn [snd]. rewrite (proj2 (Z.leb_le _ _) Hfull). exact Hy.
  - exists flushed, (queue ++ [e]), f, i1. split_and!; [|constructor; [exists d; split; [done|split; [done|by apply Hop]]|exact Hq1|exact Hall|rewrite length_app; cbn; lia]|done|done|done].
    unfold flush_when_full. apply yields_get. intros w Hw'. cbn [snd]. rewrite (proj2 (Z.leb_gt _ _) Hroom). apply yields_ret.
Qed.

Definition save (e : Entry) : SE (World * Impl) unit :=
  match e with EMessage m => AppendMessageView root options tm_gmtoff home (fst m) (snd m) | EState r => QueueRecoveryState root options tm_gmtoff home r end.

Lemma view_validates m : msg_ok m -> ValidateRecordView (snd m) = status.Ok.
Proof.
  intros []. unfold ValidateRecordView, payload_size in *. destruct (Z.eqb_spec (v_session_id (snd m)) 0); [lia|]. destruct (Z.eqb_spec (v_seq_num (snd m)) 0); [lia|]. destruct (Z.ltb_spec UINT32_MAX (Z.of_nat (length (v_payload (snd m))))); [lia|]. destruct (Z.ltb_spec (Z.of_nat (length (v_payload (snd m)))) (v_body_start_offset (snd m))); [lia|done].
Qed.

Lemma queue_message_queued flushed queue f i m : represents flushed queue f i -> msg_ok m -> payload_size m <= limit -> queued (queue ++ [EMessage m]) (queue_message (fst m) (snd m) i).
Proof.
  intros [_ [Hq Ha] [_ Hf]%Forall_app Hl] Hm Hp. assert (0 <= limit) by (unfold payload_size in Hp; lia). pose proof (queue_arena_bound queue Hf ltac:(lia)) as Hb. unfold queue_message, queued. cbn [with_pending im_pending_entries im_pending_payload_arena]. split.
  - rewrite Hq, queue_entries_snoc. f_equal. cbn [queue_entry]. rewrite Ha. rewrite !u32_small; [done| |].
    + destruct Hm. unfold payload_size in *. ulia.
    + ulia || (unfold in_u32; split; [lia|]; etrans; [exact Hb|]; etrans; [|exact Hlimit]; nia).
  - by rewrite Ha, queue_arena_snoc.
Qed.

(** A save puts the entry behind the others; the files grow by whole entries. *)
Lemma save_represents flushed queue f i e : represents flushed queue f i -> entry_fits e -> entries_weight (flushed ++ queue ++ [e]) + 1000 < kLimit ->
  exists flushed' queue' f' i', yields (save e) f i f' i' tt /\ represents flushed' queue' f' i' /\ flushed' ++ queue' = flushed ++ queue ++ [e] /\ flushed `prefix_of` flushed' /\ beside f f'.
Proof.
  intros Hr He Hw. assert (Hopen : yields (Open root options tm_gmtoff home) f i f i tt) by (destruct Hr as [(d & _ & _ & Ho) _ _ _]; by eapply open_again).
  destruct e as [m|r]; cbn [save].
  - destruct He as [Hm Hp].
    assert (Hday : exists flushed1 queue1 f1 i1, yields (match record_day options i (snd m) with Some day => roll_day root options tm_gmtoff home day | None => ret tt end) f i f1 i1 tt /\ represents flushed1 queue1 f1 i1 /\ flushed1 ++ queue1 = flushed ++ queue /\ flushed `prefix_of` flushed1 /\ beside f f1).
    { destruct (record_day options i (snd m)) as [day|]; [|exists flushed, queue, f, i; split; [apply yields_ret|done]].
      assert (Hroll : exists flushed1 queue1 f1 i1, yields (if active_has_messages i && match im_active_utc_day i with Some active => negb (active =? day) | None => false end then Rollover root options tm_gmtoff home else ret tt) f i f1 i1 tt /\ represents flushed1 queue1 f1 i1 /\ flushed1 ++ queue1 = flushed ++ queue /\ flushed `prefix_of` flushed1 /\ beside f f1).
      { destruct (_ && _); [|exists flushed, queue, f, i; split; [apply yields_ret|done]]. destruct (rollover_represents flushed queue f i Hr) as (f1 & i1 & Hy & Hr1 & Hb1); [rewrite app_assoc, entries_weight_app in Hw; pose proof (entries_weight_nonneg [EMessage m]); lia|].
        exists (flushed ++ queue), [], f1, i1. split; [exact Hy|]. split; [exact Hr1|]. split; [apply app_nil_r|]. split; [by apply prefix_app_r|exact Hb1]. }
      destruct Hroll as (flushed1 & queue1 & f1 & i1 & Hy & Hr1 & E1 & Hpre & Hb1). exists flushed1, queue1, f1, (match im_active_utc_day i1 with None => with_day (Some day) i1 | Some _ => i1 end). split.
      - unfold roll_day. apply yields_get. intros w Hw'. cbn [snd]. eapply yields_bind; [exact Hy|]. cbv beta. apply yields_private.
      - split; [|done]. destruct (im_active_utc_day i1); [done|]. by apply represents_day. }
    destruct Hday as (flushed1 & queue1 & f1 & i1 & Hy1 & Hr1 & E1 & Hpre1 & Hb1).
    destruct (queue_represents flushed1 queue1 f1 i1 (queue_message (fst m) (snd m) i1) (EMessage m) Hr1 (conj Hm Hp)) as (flushed' & queue' & f' & i' & Hy' & Hr' & E' & Hpre' & Hb').
    + rewrite app_assoc, E1, <- app_assoc. exact Hw.
    + intros d Ho. by apply with_pending_opened.
    + by eapply queue_message_queued.
    + exists flushed', queue', f', i'. split; [|split; [exact Hr'|split; [rewrite E', app_assoc, E1, <- app_assoc; done|split; [by etrans|by eapply beside_trans]]]].
      unfold AppendMessageView. rewrite view_validates by done. eapply yields_bind; [apply yields_ret|]. cbv beta. eapply yields_bind; [exact Hopen|]. cbv beta. apply yields_get. intros w Hw'. cbn [snd]. eapply yields_bind; [exact Hy1|]. cbv beta. eapply yields_bind; [apply yields_private|]. exact Hy'.
  - destruct (queue_represents flushed queue f i (with_pending (im_pending_entries i ++ [MkPending PendingRecovery 0 0 0 0 0 0 0 r]) (im_pending_payload_arena i) i) (EState r) Hr He Hw) as (flushed' & queue' & f' & i' & Hy' & Hr' & E' & Hpre' & Hb').
    + intros d Ho. by apply with_pending_opened.
    + destruct Hr as [_ [Hq Ha] _ _]. split; cbn; [rewrite Hq, queue_entries_snoc; done|rewrite Ha, queue_arena_snoc; cbn; by rewrite app_nil_r].
    + exists flushed', queue', f', i'. split; [|done]. unfold QueueRecoveryState. assert (Ev : ValidateRecoveryState r = status.Ok) by (unfold ValidateRecoveryState; destruct He; destruct (Z.eqb_spec (r_session_id r) 0); [lia|done]). rewrite Ev.
      eapply yields_bind; [apply yields_ret|]. cbv beta. eapply yields_bind; [exact Hopen|]. cbv beta. eapply yields_bind; [apply yields_private|]. exact Hy'.
Qed.

(** What is in the files is found again by another process. *)
Lemma reopen_represents flushed queue f i i0 : represents flushed queue f i -> is_open i0 = false -> queued [] i0 ->
  exists i', yields (Open root options tm_gmtoff home) f i0 f i' tt /\ represents flushed [] f i'.
Proof.
  intros [(d & Hh & Hs & Ho) _ [Hfl _]%Forall_app _] Hc [Hq Ha]. destruct (open_stored d f i0 (hd_sound _ _ Hh) Hs Hc) as (i' & Hy & Ho' & Hp1 & Hp2). exists i'. split; [exact Hy|]. constructor; [by exists d|split; congruence|by rewrite app_nil_r|cbn; lia].
Qed.

Lemma start_represents f : (forall p, fst (fst p) = home -> f !! p = None) -> exists f' i', yields (Open root options tm_gmtoff home) f NewImpl f' i' tt /\ represents [] [] f' i' /\ beside f f'.
Proof.
  intros Hf. destruct (open_fresh f NewImpl Hf eq_refl) as (f' & i' & Hy & Hs & Ho & Hb & Hp1 & Hp2). exists f', i'. split; [exact Hy|]. split; [|exact Hb]. constructor; [|by split|constructor|cbn; lia].
  exists empty_ideal. split; [|done]. constructor; [apply empty_sound|done|done|done].
Qed.

(** ** Loading *)

(** Where an outbound message is: its segment, its offset in the log, and the record. *)
Notation Located := (Z * Z * MessageRecordView)%type.

Fixpoint located_in (id offset : Z) (l : list Msg) : list Located :=
  match l with [] => [] | m :: l => (if fst m then [(id, offset, snd m)] else []) ++ located_in id (offset + msg_size m) l end.
Fixpoint located_from (id : Z) (segs : list (list Msg)) : list Located :=
  match segs with [] => [] | l :: segs => located_in id kFileHeaderSize l ++ located_from (id + 1) segs end.
Definition all_located (d : Ideal) : list Located := located_from 1 (sd_archived d) ++ located_in (active_id d) kFileHeaderSize (sd_active d).

Definition location_at (x : Located) : OutboundLocation := let '(id, offset, v) := x in location_of id (msg_entry offset (true, v)).

(** The last one under each sequence number of a session. *)
Definition put_located (session_id : Z) (m : gmap Z Located) (x : Located) : gmap Z Located := if v_session_id (snd x) =? session_id then <[v_seq_num (snd x) := x]> m else m.
Definition located_map (session_id : Z) (l : list Located) : gmap Z Located := fold_left (put_located session_id) l ∅.

Lemma set_location_session a b loc m session_id : default ∅ (set_location a b loc m !! session_id) = if a =? session_id then <[b := loc]> (default ∅ (m !! session_id)) else default ∅ (m !! session_id).
Proof. unfold set_location. destruct (Z.eqb_spec a session_id) as [->|Hne]; [by rewrite lookup_insert_eq|by rewrite lookup_insert_ne]. Qed.

Lemma index_located id l session_id : forall offset m (mm : gmap Z Located), default ∅ (m !! session_id) = location_at <$> mm ->
  default ∅ (add_entries id (index_entries offset l) m !! session_id) = location_at <$> fold_left (put_located session_id) (located_in id offset l) mm.
Proof.
  induction l as [|[[] v] l IH]; intros offset m mm Hm; cbn [index_entries located_in fst app]; [done| |by apply IH]. cbn [add_entries fold_left]. apply IH. rewrite set_location_session. unfold put_located. cbn [snd msg_entry ix_session_id ix_seq_num]. destruct (_ =? _); [|done]. by rewrite fmap_insert, Hm.
Qed.

Lemma segments_located segs session_id : forall id m (mm : gmap Z Located), default ∅ (m !! session_id) = location_at <$> mm -> default ∅ (add_segments id segs m !! session_id) = location_at <$> fold_left (put_located session_id) (located_from id segs) mm.
Proof. induction segs as [|l segs IH]; intros id m mm Hm; cbn [add_segments located_from]; [done|]. rewrite fold_left_app. apply IH. by apply index_located. Qed.

Lemma full_index_located d session_id : default ∅ (full_index d !! session_id) = location_at <$> located_map session_id (all_located d).
Proof. unfold full_index, located_map, all_located. rewrite fold_left_app. apply index_located, segments_located. by rewrite lookup_empty, fmap_empty. Qed.

(** Every located message is where it is said to be. *)
Lemma located_in_spec id l : forall pre x, x ∈ located_in id (log_end pre) l -> exists a b, l = a ++ (true, snd x) :: b /\ fst x = (id, log_end (pre ++ a)).
Proof.
  induction l as [|m l IH]; intros pre x; cbn [located_in]; [by intros ?%not_elem_of_nil|]. rewrite <- log_end_snoc. intros [Hx|Hx]%elem_of_app.
  - destruct m as [[] v]; cbn in Hx; [|by apply not_elem_of_nil in Hx]. apply list_elem_of_singleton in Hx as ->. exists [], l. by rewrite app_nil_r.
  - destruct (IH (pre ++ [m]) x Hx) as (a & b & -> & E). exists (m :: a), b. split; [done|]. rewrite E. by rewrite <- app_assoc.
Qed.

Lemma located_from_spec segs : forall id x, x ∈ located_from id segs -> exists j l a b, segs !! j = Some l /\ l = a ++ (true, snd x) :: b /\ fst x = (id + Z.of_nat j, log_end a).
Proof.
  induction segs as [|l segs IH]; intros id x; cbn [located_from]; [by intros ?%not_elem_of_nil|]. intros [Hx|Hx]%elem_of_app.
  - destruct (located_in_spec id l [] x Hx) as (a & b & E1 & E2). exists O, l, a, b. split; [done|]. split; [done|]. by rewrite Z.add_0_r.
  - destruct (IH (id + 1) x Hx) as (j & l' & a & b & E1 & E2 & E3). exists (S j), l', a, b. split; [done|]. split; [done|]. rewrite E3. f_equal. lia.
Qed.

Lemma add_handles_below segs : forall id m k, k < id -> add_handles id segs m !! k = m !! k.
Proof. induction segs as [|l segs IH]; intros id m k Hk; cbn [add_handles]; [done|]. rewrite IH by lia. by rewrite lookup_insert_ne by lia. Qed.

Lemma add_handles_lookup segs : forall id m j l, segs !! j = Some l -> add_handles id segs m !! (id + Z.of_nat j) = Some (handle_of (log_name home (id + Z.of_nat j)) (index_name home (id + Z.of_nat j)) (id + Z.of_nat j) l).
Proof.
  induction segs as [|x segs IH]; intros id m j l Hj; [by rewrite lookup_nil in Hj|]. cbn [add_handles]. destruct j as [|j].
  - cbn in Hj. injection Hj as ->. rewrite Z.add_0_r, add_handles_below by lia. apply lookup_insert_eq.
  - cbn in Hj. replace (id + Z.of_nat (S j)) with (id + 1 + Z.of_nat j) by lia. by apply IH.
Qed.

(** Resolving and reading the record of a location. *)
Lemma locate d f i x : sound d -> stored d f -> opened d i -> x ∈ all_located d ->
  exists lp ip l a b, ResolveSegmentHandle i (ol_segment_id (location_at x)) = Some (handle_of lp ip (fst (fst x)) l) /\ f !! lp = Some (store_file kLogMagic (fst (fst x)) (log_body l)) /\ l = a ++ (true, snd x) :: b /\ snd (fst x) = log_end a /\ Forall msg_ok l /\ log_end l < kLimit.
Proof.
  intros Hd Hs Ho Hx. destruct x as [[id offset] v]. cbn [fst snd location_at location_of ol_segment_id]. unfold ResolveSegmentHandle. rewrite (op_active _ _ Ho), (op_archived _ _ Ho). cbn [active_handle handle_of sg_segment_id]. unfold all_located in Hx. apply elem_of_app in Hx as [Hx|Hx].
  - destruct (located_from_spec _ _ _ Hx) as (j & l & a & b & E1 & E2 & E3). cbn in E2, E3. injection E3 as -> ->. pose proof (lookup_lt_Some _ _ _ E1) as Hj. destruct (Z.eqb_spec (active_id d) (1 + Z.of_nat j)) as [E|_]; [unfold active_id in E; lia|].
    destruct (archived_light d Hd l) as (L1 & L2 & L3); [by eapply list_elem_of_lookup_2|]. exists (log_name home (1 + Z.of_nat j)), (index_name home (1 + Z.of_nat j)), l, a, b. split; [by apply add_handles_lookup|]. split; [|done]. rewrite (Z.add_comm 1). by apply (fs_log _ _ _ _ _ Hs).
  - destruct (located_in_spec _ _ [] _ Hx) as (a & b & E1 & E2). cbn in E1, E2. injection E2 as -> ->. rewrite Z.eqb_refl. destruct (active_light d Hd) as (L1 & L2 & L3). exists (active_log home), (active_index home), (sd_active d), a, b. split; [done|]. split; [apply (fs_active_log _ _ _ _ _ Hs)|done].
Qed.

Lemma load_located lp ip id l a b v f : f !! lp = Some (store_file kLogMagic id (log_body l)) -> l = a ++ (true, v) :: b -> Forall msg_ok l -> log_end l < kLimit ->
  does (load_outbound root (handle_of lp ip id l) (location_at (id, log_end a, v))) f f (ToOwned v) /\
  does (os (ReadExact (Some lp) (Z.to_nat (payload_size (true, v))) (u64 (log_end a + kRecordHeaderSize)))) f f (Some v.(v_payload)).
Proof.
  intros Hf -> Hok Hl. assert (Hm : msg_ok (true, v)) by (apply Forall_app in Hok as [_ [? _]%Forall_cons]; done). pose proof (log_end_split a b (true, v)) as He. pose proof (msg_size_pos (true, v)). assert (Hu : u64 (log_end a + kRecordHeaderSize) = log_end a + kRecordHeaderSize).
  { apply u64_small. unfold msg_size, kLimit, log_end, body_size in *. change kFileHeaderSize with 32 in *. change kRecordHeaderSize with 64 in *. ulia. }
  assert (Hpay : does (os (ReadExact (Some lp) (Z.to_nat (payload_size (true, v))) (u64 (log_end a + kRecordHeaderSize)))) f f (Some (v_payload v))) by (rewrite Hu; eapply (read_msg_payload lp f id a b (true, v)); [exact Hf|exact Hl|done]).
  split; [|exact Hpay]. unfold load_outbound. cbn [location_at location_of msg_entry ol_log_offset ix_log_offset handle_of sg_log_fd]. eapply does_bind; [eapply (read_msg_header lp f id a b (true, v)); [exact Hf|exact Hl]|]. cbv beta iota zeta.
  rewrite pod_read_alone by (by apply msg_header_fits). cbn [msg_header fst snd rh_record_type rh_header_size rh_payload_size rh_body_start_offset rh_session_id rh_seq_num rh_timestamp_ns rh_flags]. rewrite !Z.eqb_refl. cbn [negb orb].
  destruct (Z.ltb_spec (payload_size (true, v)) (v_body_start_offset v)) as [Hlt|_]; [destruct Hm; cbn in *; lia|]. eapply does_bind; [exact Hpay|]. cbv beta iota. apply does_ret.
Qed.

(** The records of some located messages. *)
Lemma load_all_located d f i L : sound d -> stored d f -> opened d i -> Forall (fun x => snd x ∈ all_located d) L ->
  does (load_outbound_all root i (map (fun x : Z * Located => (fst x, location_at (snd x))) L)) f f (map (fun x => ToOwned (snd (snd x))) L).
Proof.
  intros Hd Hs Ho. induction 1 as [|[k x] L Hx _ IH]; cbn [map load_outbound_all]; [apply does_ret|]. cbn [fst snd] in *. destruct (locate d f i x Hd Hs Ho Hx) as (lp & ip & l & a & b & E1 & E2 & E3 & E4 & E5 & E6). rewrite E1. destruct x as [[id offset] v]. cbn [fst snd] in *. subst offset.
  eapply does_bind; [eapply load_located; [exact E2|exact E3|exact E5|exact E6]|]. cbv beta. eapply does_bind; [exact IH|]. cbv beta. apply does_ret.
Qed.

Lemma load_all_views d f i session_id L : sound d -> stored d f -> opened d i -> Forall (fun x => snd x ∈ all_located d /\ fst x = v_seq_num (snd (snd x)) /\ v_session_id (snd (snd x)) = session_id) L ->
  does (load_views root session_id (resolved i (map (fun x : Z * Located => (fst x, location_at (snd x))) L))) f f (map (fun x => snd (snd x)) L).
Proof.
  intros Hd Hs Ho. induction 1 as [|[k x] L (Hx & Hk & Hsid) _ IH]; [apply does_ret|]. cbn [map fst snd] in *. unfold resolved. cbn [omap list_omap snd]. destruct (locate d f i x Hd Hs Ho Hx) as (lp & ip & l & a & b & E1 & E2 & E3 & E4 & E5 & E6). rewrite E1. cbn [fmap option_fmap option_map]. destruct x as [[id offset] v]. cbn [fst snd] in *. subst offset k session_id.
  cbn [load_views]. cbn [location_at location_of msg_entry ol_payload_size ol_log_offset ix_payload_size ix_log_offset handle_of sg_log_fd snd ol_timestamp_ns ol_flags ol_body_start_offset ix_timestamp_ns ix_flags ix_body_start_offset].
  destruct (load_located lp ip id l a b v f E2 E3 E5 E6) as [_ Hr]. eapply does_bind; [exact Hr|]. cbv beta iota. eapply does_bind; [exact IH|]. cbv beta. destruct v. apply does_ret.
Qed.

Lemma located_map_spec session_id l : forall mm k x, fold_left (put_located session_id) l mm !! k = Some x -> mm !! k = Some x \/ x ∈ l /\ v_session_id (snd x) = session_id /\ v_seq_num (snd x) = k.
Proof.
  induction l as [|y l IH]; intros mm k x; cbn [fold_left]; [by left|]. intros [Hx|(Hx & H1 & H2)]%IH; [|right; split; [by right|done]]. unfold put_located in Hx. destruct (Z.eqb_spec (v_session_id (snd y)) session_id) as [E|_]; [|by left].
  apply lookup_insert_Some in Hx as [[<- <-]|[_ Hx]]; [right; split; [left|done]|by left].
Qed.

Lemma elem_of_located session_id l k x : (k, x) ∈ in_order (located_map session_id l) -> x ∈ l /\ k = v_seq_num (snd x) /\ v_session_id (snd x) = session_id.
Proof. intros Hx%elem_of_in_order. apply located_map_spec in Hx as [Hx|(H1 & H2 & H3)]; [by rewrite lookup_empty in Hx|done]. Qed.

(** *** The abstract store *)

Definition hist_step (f : Z -> AbsSession) (e : Entry) : Z -> AbsSession :=
  match e with
  | EMessage (true, v) => upd f (v_session_id v) (abs_save_outbound v (f (v_session_id v)))
  | EMessage (false, v) => upd f (v_session_id v) (abs_save_inbound v (f (v_session_id v)))
  | EState r => upd f (r_session_id r) (abs_save_recovery r (f (r_session_id r)))
  end.
(** What was saved, for each session. *)
Definition history (l : list Entry) : Z -> AbsSession := fold_left hist_step l (fun _ => abs_empty).

Definition put_record (session_id : Z) (m : gmap Z MessageRecord) (x : Msg) : gmap Z MessageRecord := if fst x && (v_session_id (snd x) =? session_id) then <[v_seq_num (snd x) := ToOwned (snd x)]> m else m.
Definition inbound_of (session_id : Z) (l : list Msg) : list MessageRecord := map (fun x => ToOwned (snd x)) (filter (fun x => fst x = false /\ v_session_id (snd x) = session_id) l).

Lemma history_spec session_id l : forall g,
  a_outbound (fold_left hist_step l g session_id) = fold_left (put_record session_id) (msgs_of l) (a_outbound (g session_id)) /\
  a_inbound (fold_left hist_step l g session_id) = a_inbound (g session_id) ++ inbound_of session_id (msgs_of l) /\
  a_recovery (fold_left hist_step l g session_id) = match add_states (states_of l) ∅ !! session_id with Some r => Some r | None => a_recovery (g session_id) end.
Proof.
  induction l as [|e l IH] using rev_ind; intros g; [cbn; by rewrite app_nil_r, lookup_empty|]. rewrite fold_left_app, msgs_of_app, states_of_app. destruct (IH g) as (H1 & H2 & H3). destruct e as [[ob v]|r]; cbn [fold_left].
  - assert (Em : msgs_of [EMessage (ob, v)] = [(ob, v)]) by done. assert (Es : states_of [EMessage (ob, v)] = []) by done. rewrite Em, Es, app_nil_r, fold_left_app. cbn [fold_left]. rewrite <- H1. unfold put_record at 1, inbound_of. cbn [fst snd]. rewrite filter_app, map_app, app_assoc. fold (inbound_of session_id (msgs_of l)). rewrite <- H2, filter_cons, filter_nil. cbn [fst snd].
    destruct ob; cbn [hist_step andb]; unfold upd; destruct (Z.eqb_spec (v_session_id v) session_id) as [<-|Hne].
    + rewrite decide_True by done. cbn [abs_save_outbound a_outbound a_inbound a_recovery]. rewrite decide_False by (by intros []). cbn. by rewrite app_nil_r.
    + rewrite decide_False by done. rewrite decide_False by (by intros []). cbn. by rewrite app_nil_r.
    + rewrite decide_True by done. cbn [abs_save_inbound a_outbound a_inbound a_recovery]. by rewrite decide_True by done.
    + rewrite decide_False by done. rewrite decide_False by (by intros []). cbn. by rewrite app_nil_r.
  - assert (Em : msgs_of [EState r] = []) by done. assert (Es : states_of [EState r] = [r]) by done. rewrite Em, Es, app_nil_r, add_states_app. cbn [hist_step add_states fold_left]. unfold upd. case_decide as Hs.
    + subst session_id. cbn [abs_save_recovery a_outbound a_inbound a_recovery]. by rewrite lookup_insert_eq.
    + by rewrite lookup_insert_ne.
Qed.

Lemma located_records session_id id l : forall offset mm, (fun x : Located => ToOwned (snd x)) <$> fold_left (put_located session_id) (located_in id offset l) mm = fold_left (put_record session_id) l ((fun x : Located => ToOwned (snd x)) <$> mm).
Proof.
  induction l as [|[[] v] l IH]; intros offset mm; cbn [located_in app fold_left fst]; [done| |apply IH]. rewrite IH. f_equal. unfold put_located, put_record. cbn [fst snd andb]. destruct (_ =? _); [|done]. by rewrite fmap_insert.
Qed.

Lemma located_segments session_id segs : forall id mm, (fun x : Located => ToOwned (snd x)) <$> fold_left (put_located session_id) (located_from id segs) mm = fold_left (put_record session_id) (concat segs) ((fun x : Located => ToOwned (snd x)) <$> mm).
Proof. induction segs as [|l segs IH]; intros id mm; cbn [located_from concat]; [done|]. rewrite !fold_left_app, IH. f_equal. apply located_records. Qed.

Lemma located_all session_id d : (fun x : Located => ToOwned (snd x)) <$> located_map session_id (all_located d) = fold_left (put_record session_id) (all_msgs d) ∅.
Proof. unfold located_map, all_located, all_msgs. rewrite !fold_left_app, located_records, located_segments, fmap_empty. done. Qed.

(** A range of a map, by number and by walk. *)
Lemma range_walk {A} (m : gmap Z A) b e : b <= e -> omap (fun q => m !! q) (zseq b (Z.to_nat (e - b + 1))) = map snd (filter (fun x => b <= fst x <= e) (in_order m)).
Proof.
  intros Hbe. set (n := Z.to_nat (e - b + 1)). assert (E : filter (fun x : Z * A => b <= fst x <= e) (in_order m) = omap (fun q => (fun x => (q, x)) <$> m !! q) (zseq b n)).
  { apply (increasing_elements fst).
    - pose proof (in_order_increasing m) as H. induction H as [|x l Hl IH Hx]; [constructor|]. rewrite filter_cons. case_decide; [|done]. constructor; [done|]. rewrite Forall_forall in Hx |- *. intros y Hy. apply list_elem_of_filter in Hy as [_ Hy]. by apply Hx.
    - pose proof (zseq_increasing b n) as H. induction H as [|q l Hl IH Hq]; cbn [omap list_omap]; [constructor|]. destruct (m !! q) as [x|]; cbn; [|done]. constructor; [done|]. rewrite Forall_forall in Hq. rewrite Forall_forall. intros y Hy. apply list_elem_of_omap in Hy as (q' & Hq' & Ey). destruct (m !! q'); [|done]. injection Ey as <-. cbn. by apply Hq.
    - intros [k x]. rewrite list_elem_of_filter, elem_of_in_order, list_elem_of_omap. cbn [fst]. split.
      + intros [Hr Hx]. exists k. split; [apply elem_of_zseq; lia|]. by rewrite Hx.
      + intros (q & Hq & Ex). apply elem_of_zseq in Hq. destruct (m !! q) as [y|] eqn:Ey; [|done]. injection Ex as -> ->. split; [lia|done]. }
  rewrite E. clear E. induction (zseq b n) as [|q l IH]; cbn [omap list_omap]; [done|]. destruct (m !! q); cbn; by rewrite IH.
Qed.

Lemma range_ok b e : range_valid b e = true -> bad_range b e = false /\ b <= e.
Proof. unfold range_valid, bad_range. rewrite negb_true_iff, !orb_false_iff. intros [[-> ->] H]. destruct (Z.gtb_spec b e); [done|]. split; [|lia]. split; [done|]. apply Z.ltb_ge. lia. Qed.

Lemma filter_map_keys {A B} (g : A -> B) b e (l : list (Z * A)) : filter (fun x => b <= fst x <= e) (map (fun x => (fst x, g (snd x))) l) = map (fun x => (fst x, g (snd x))) (filter (fun x => b <= fst x <= e) l).
Proof. induction l as [|x l IH]; [done|]. cbn [map]. rewrite !filter_cons. cbn [fst]. case_decide; cbn; by rewrite IH. Qed.

Lemma history_located d l session_id : holds d l -> a_outbound (history l session_id) = (fun x : Located => ToOwned (snd x)) <$> located_map session_id (all_located d).
Proof. intros Hh. destruct (history_spec session_id l (fun _ => abs_empty)) as (H & _ & _). unfold history. rewrite H, located_all, (hd_msgs _ _ Hh). done. Qed.

(** The locations that are loaded. *)
Lemma locations_located d i session_id b e : opened d i -> locations i session_id b e = map (fun x : Z * Located => (fst x, location_at (snd x))) (filter (fun x => b <= fst x <= e) (in_order (located_map session_id (all_located d)))).
Proof. intros Ho. unfold locations. rewrite (op_index _ _ Ho), full_index_located, in_order_fmap. apply filter_map_keys. Qed.

Lemma range_located d l session_id b e : holds d l -> b <= e -> abs_outbound_range (history l session_id) b e = map (fun x => ToOwned (snd (snd x))) (filter (fun x => b <= fst x <= e) (in_order (located_map session_id (all_located d)))).
Proof. intros Hh Hbe. unfold abs_outbound_range. rewrite (history_located d l session_id Hh), range_walk by done. rewrite in_order_fmap. etrans; [apply (f_equal (map snd)), (filter_map_keys (fun x : Located => ToOwned (snd x)))|]. by rewrite map_map. Qed.

Lemma flush_pending_represents flushed queue f i : represents flushed queue f i -> entries_weight (flushed ++ queue) + 1000 < kLimit ->
  exists f' i', yields (flush_pending root options tm_gmtoff home) f i f' i' tt /\ represents (flushed ++ queue) [] f' i' /\ beside f f'.
Proof.
  intros Hr Hw. destruct (im_pending_entries i) as [|e l] eqn:E.
  - assert (queue = []) as ->. { destruct Hr as [_ [Hq _] _ _]. rewrite E in Hq. symmetry in Hq. by apply queue_entries_nil in Hq. } exists f, i. rewrite app_nil_r. split; [|done]. unfold flush_pending. apply yields_get. intros w Hw'. cbn [snd]. rewrite E. apply yields_ret.
  - destruct (flush_represents flushed queue f i Hr Hw) as (f' & i' & Hy & Hrest). exists f', i'. split; [|done]. unfold flush_pending. apply yields_get. intros w Hw'. cbn [snd]. rewrite E. exact Hy.
Qed.

Section Loads.
Context (flushed queue : list Entry) (f : Files) (i : Impl).
Context (Hr : represents flushed queue f i) (Hw : entries_weight (flushed ++ queue) + 1000 < kLimit).

Lemma load_outbound_range session_id b e : range_valid b e = true -> exists f' i', yields (LoadOutboundRange root options tm_gmtoff home session_id b e) f i f' i' (abs_outbound_range (history (flushed ++ queue) session_id) b e) /\ represents (flushed ++ queue) [] f' i'.
Proof.
  intros [Hbad Hbe]%range_ok. destruct (flush_pending_represents flushed queue f i Hr Hw) as (f' & i' & Hy & Hr' & _). exists f', i'. split; [|done]. unfold LoadOutboundRange. rewrite Hbad. eapply yields_bind; [exact Hy|]. cbv beta. apply yields_get. intros w Hw'. cbn [snd].
  destruct Hr' as [(d & Hh & Hs & Ho) _ _ _]. apply yields_disk. rewrite (locations_located d i' session_id b e Ho), (range_located d _ session_id b e Hh Hbe). apply (load_all_located d); [apply Hh|done|done|]. apply Forall_forall. intros [k x] Hx. apply list_elem_of_filter in Hx as [_ Hx]. by apply elem_of_located in Hx as [? _].
Qed.

Lemma load_outbound_views session_id b e : range_valid b e = true -> exists f' i', yields (LoadOutboundRangeViews root options tm_gmtoff home session_id b e) f i f' i' (map record_view (abs_outbound_range (history (flushed ++ queue) session_id) b e)) /\ represents (flushed ++ queue) [] f' i'.
Proof.
  intros [Hbad Hbe]%range_ok. destruct (flush_pending_represents flushed queue f i Hr Hw) as (f' & i' & Hy & Hr' & _). exists f', i'. split; [|done]. unfold LoadOutboundRangeViews. rewrite Hbad. eapply yields_bind; [exact Hy|]. cbv beta. apply yields_get. intros w Hw'. cbn [snd].
  destruct Hr' as [(d & Hh & Hs & Ho) _ _ _]. apply yields_disk. rewrite (locations_located d i' session_id b e Ho), (range_located d _ session_id b e Hh Hbe), map_map. assert (E : forall L : list (Z * Located), map (fun x => record_view (ToOwned (snd (snd x)))) L = map (fun x => snd (snd x)) L) by (intros L; apply map_ext; intros [? [? []]]; done). rewrite E.
  apply (load_all_views d); [apply Hh|done|done|]. apply Forall_forall. intros [k x] Hx. apply list_elem_of_filter in Hx as [_ Hx]. by apply elem_of_located in Hx.
Qed.

Lemma load_recovery_state session_id : exists f' i', represents (flushed ++ queue) [] f' i' /\
  match a_recovery (history (flushed ++ queue) session_id) with
  | Some r => yields (LoadRecoveryState root options tm_gmtoff home session_id) f i f' i' r
  | None => forall w, at_rest f w -> exists w', LoadRecoveryState root options tm_gmtoff home session_id (w, i) = ((w', i'), Error (status.NotFound "recovery state not found")) /\ at_rest f' w'
  end.
Proof.
  destruct (flush_pending_represents flushed queue f i Hr Hw) as (f' & i' & Hy & Hr' & _). exists f', i'. split; [done|]. destruct Hr' as [(d & Hh & Hs & Ho) _ _ _]. destruct (history_spec session_id (flushed ++ queue) (fun _ => abs_empty)) as (_ & _ & E). unfold history. rewrite E. cbn [abs_empty a_recovery].
  assert (Est : im_recovery_states i' !! session_id = add_states (states_of (flushed ++ queue)) ∅ !! session_id) by (by rewrite (op_states _ _ Ho), (hd_states _ _ Hh)). destruct (add_states (states_of (flushed ++ queue)) ∅ !! session_id) as [r|].
  - unfold LoadRecoveryState. eapply yields_bind; [exact Hy|]. cbv beta. apply yields_get. intros w Hw'. cbn [snd]. rewrite Est. apply yields_ret.
  - intros w Hw'. destruct (Hy w Hw') as (w' & Ey & Hw''). exists w'. split; [|done]. unfold LoadRecoveryState, bind, get. rewrite Ey. cbn [snd]. rewrite Est. done.
Qed.


Lemma collect_step session_id b e m f0 acc : yields (collect_inbound session_id b e (msg_header m) (v_payload (snd m))) f0 acc f0 (acc ++ filter (fun r => b <= rec_seq_num r <= e) (inbound_of session_id [m])) tt.
Proof.
  unfold collect_inbound, inbound_of. rewrite filter_cons, filter_nil. cbn [msg_header rh_record_type rh_session_id rh_seq_num rh_timestamp_ns rh_flags rh_body_start_offset]. assert (Hskip : yields (ret tt) f0 acc f0 (acc ++ []) tt) by (rewrite app_nil_r; apply yields_ret). destruct m as [[] v]; cbn [fst snd].
  - change (StoreRecordType.kOutbound =? StoreRecordType.kInbound) with false. cbn [negb orb]. rewrite decide_False by (by intros []). exact Hskip.
  - rewrite Z.eqb_refl. cbn [negb orb]. destruct (Z.eqb_spec (v_session_id v) session_id) as [Es|Es]; cbn [negb orb]; [|rewrite decide_False by (by intros []); exact Hskip].
    rewrite decide_True by done. cbn [map snd]. rewrite filter_cons, filter_nil. cbn [rec_seq_num ToOwned]. destruct (Z.ltb_spec (v_seq_num v) b) as [Hb|Hb]; cbn [orb]; [rewrite decide_False by lia; exact Hskip|].
    destruct (Z.ltb_spec e (v_seq_num v)) as [He|He]; [rewrite decide_False by lia; exact Hskip|]. rewrite decide_True by lia. exact (yields_private (fun records => records ++ [ToOwned v]) f0 acc).
Qed.
End Loads.

(** ** Walking all segments *)

Fixpoint seg_handles (id : Z) (segs : list (list Msg)) : list (Z * SegmentHandle) :=
  match segs with [] => [] | l :: segs => (id, handle_of (log_name home id) (index_name home id) id l) :: seg_handles (id + 1) segs end.

Lemma seg_handles_above segs : forall id k h, (k, h) ∈ seg_handles id segs -> id <= k.
Proof. induction segs as [|l segs IH]; intros id k h; cbn; [by intros ?%not_elem_of_nil|]. intros [[= -> ->]|Hk]%elem_of_cons; [lia|]. specialize (IH _ _ _ Hk). lia. Qed.

Lemma handles_in_order segs : in_order (add_handles 1 segs ∅) = seg_handles 1 segs.
Proof.
  apply in_order_eq.
  - generalize 1. induction segs as [|l segs IH]; intros id; cbn; constructor; [apply IH|]. apply Forall_forall. intros [k h] Hk. apply seg_handles_above in Hk. cbn. lia.
  - assert (H : forall id m k h, (forall x, id <= x -> m !! x = None) -> add_handles id segs m !! k = Some h <-> (k, h) ∈ seg_handles id segs \/ m !! k = Some h); [|intros k h; rewrite (H 1 ∅ k h) by (intros; apply lookup_empty); rewrite lookup_empty; split; [by left|by intros [?|?]]].
    induction segs as [|l segs IH]; intros id m k h Hm; cbn [add_handles seg_handles]; [split; [by right|intros [?%not_elem_of_nil|?]; done]|]. rewrite IH by (intros x Hx; rewrite lookup_insert_ne by lia; apply Hm; lia). rewrite elem_of_cons, lookup_insert_Some. split.
    + intros [Hk|[[<- <-]|[_ Hk]]]; [left; by right|left; by left|by right].
    + intros [[[= -> ->]|Hk]|Hk]; [right; by left|by left|right; right]. split; [|done]. intros <-. rewrite Hm in Hk by lia. done.
Qed.

Lemma visit_all_app {A} (fn : StoreRecordHeader -> list Z -> SE (World * A) unit) l1 l2 s : visit_all root (l1 ++ l2) fn s = (visit_all root l1 fn ;;; visit_all root l2 fn) s.
Proof. revert s. induction l1 as [|g l1 IH]; intros s; [done|]. cbn [app visit_all]. rewrite bind_bind. unfold bind at 1 2. destruct (VisitSegmentRecords root g fn s) as [s1 [u|e]]; [apply IH|done]. Qed.

Lemma yields_ext {A X} (m m' : SE (World * A) X) f a f' a' x : (forall s, m s = m' s) -> yields m' f a f' a' x -> yields m f a f' a' x.
Proof. intros E Hy w Hw. rewrite E. by apply Hy. Qed.

Lemma visit_segments {A} (fn : StoreRecordHeader -> list Z -> SE (World * A) unit) (P : list Msg -> Files -> A -> Prop) d : sound d ->
  (forall pre f a, P pre f a -> stored d f) ->
  (forall pre m rest f a, all_msgs d = pre ++ m :: rest -> msg_ok m -> P pre f a -> exists f' a', yields (fn (msg_header m) (v_payload (snd m))) f a f' a' tt /\ P (pre ++ [m]) f' a') ->
  forall i f a, opened d i -> P [] f a -> exists f' a', yields (visit_all root (all_segments i) fn) f a f' a' tt /\ P (all_msgs d) f' a'.
Proof.
  intros Hd Hfile Hstep. assert (Hone : forall lp ip id l pre rest f a, all_msgs d = pre ++ l ++ rest -> Forall msg_ok l -> log_end l < kLimit -> (forall f, stored d f -> f !! lp = Some (store_file kLogMagic id (log_body l))) -> P pre f a -> exists f' a', yields (VisitSegmentRecords root (handle_of lp ip id l) fn) f a f' a' tt /\ P (pre ++ l) f' a').
  { intros lp ip id l pre rest f a Hall Hok Hlim Hlp HP. apply (visit_segment root (handle_of lp ip id l) lp id l fn (fun x f a => P (pre ++ x) f a)); [done|done|done|done| | |by rewrite app_nil_r].
    - intros x f1 a1 HP1. by apply Hlp, (Hfile _ _ _ HP1).
    - intros x m y f1 a1 -> HP1. destruct (Hstep (pre ++ x) m (y ++ rest) f1 a1) as (f2 & a2 & H1 & H2); [rewrite Hall, <- !app_assoc; done|by apply Forall_app in Hok as [_ [? _]%Forall_cons]|done|]. exists f2, a2. split; [done|]. by rewrite <- app_assoc in H2. }
  assert (Hsegs : forall segs id pre f a, (exists before, sd_archived d = before ++ segs /\ concat before = pre /\ id = Z.of_nat (length before) + 1) -> P pre f a -> exists f' a', yields (visit_all root (map snd (seg_handles id segs)) fn) f a f' a' tt /\ P (pre ++ concat segs) f' a').
  { induction segs as [|l segs IH]; intros id pre f a (before & E1 & E2 & E3) HP; [exists f, a; cbn; rewrite app_nil_r; split; [apply yields_ret|done]|]. cbn [seg_handles map visit_all concat].
    assert (Hl : sd_archived d !! length before = Some l) by (rewrite E1; by rewrite list_lookup_middle). destruct (archived_light d Hd l) as (L1 & L2 & L3); [by eapply list_elem_of_lookup_2|].
    destruct (Hone (log_name home id) (index_name home id) id l pre (concat segs ++ sd_active d) f a) as (f1 & a1 & Y1 & P1); [unfold all_msgs; rewrite E1, concat_app, E2; cbn; by rewrite <- !app_assoc|done|done|intros f1 Hs; rewrite E3; by apply (fs_log _ _ _ _ _ Hs)|done|].
    destruct (IH (id + 1) (pre ++ l) f1 a1) as (f2 & a2 & Y2 & P2); [exists (before ++ [l]); rewrite <- app_assoc, concat_app, E2, length_app, E3; cbn; rewrite app_nil_r; split; [done|]; split; [done|lia]|done|].
    exists f2, a2. rewrite app_assoc. split; [|done]. eapply yields_bind; [exact Y1|]. exact Y2. }
  intros i f a Ho HP. unfold all_segments. rewrite (op_archived _ _ Ho), (op_active _ _ Ho), handles_in_order. destruct (Hsegs (sd_archived d) 1 [] f a) as (f1 & a1 & Y1 & P1); [by exists []|done|]. cbn [app] in P1.
  destruct (active_light d Hd) as (L1 & L2 & L3). destruct (Hone (active_log home) (active_index home) (active_id d) (sd_active d) (concat (sd_archived d)) [] f1 a1) as (f2 & a2 & Y2 & P2); [unfold all_msgs; by rewrite app_nil_r|done|done|intros f2 Hs; apply (fs_active_log _ _ _ _ _ Hs)|done|].
  exists f2, a2. split; [|done].
  apply (yields_ext _ (visit_all root (map snd (seg_handles 1 (sd_archived d))) fn ;;; visit_all root [active_handle d] fn)); [apply visit_all_app|].
  eapply yields_bind; [exact Y1|]. cbv beta. cbn [visit_all]. eapply yields_bind; [exact Y2|]. apply yields_ret.
Qed.

Lemma load_inbound_range flushed queue f i session_id b e : represents flushed queue f i -> entries_weight (flushed ++ queue) + 1000 < kLimit -> SessionStore.range_valid b e = true ->
  exists f' i', yields (LoadInboundRange root options tm_gmtoff home session_id b e) f i f' i' (abs_inbound_range (history (flushed ++ queue) session_id) b e) /\ represents (flushed ++ queue) [] f' i'.
Proof.
  intros Hr Hw [Hbad Hbe]%range_ok. destruct (flush_pending_represents flushed queue f i Hr Hw) as (f' & i' & Hy & Hr' & _). exists f', i'. split; [|done]. unfold LoadInboundRange. rewrite Hbad.
  eapply yields_bind; [destruct Hr as [(d & _ & _ & Ho) _ _ _]; by eapply open_again|]. cbv beta. eapply yields_bind; [exact Hy|]. cbv beta. apply yields_get. intros w Hw'. cbn [snd]. destruct Hr' as [(d & Hh & Hs & Ho) _ _ _].
  destruct (visit_segments (collect_inbound session_id b e) (fun pre g a => g = f' /\ a = filter (fun r => b <= rec_seq_num r <= e) (inbound_of session_id pre)) d (hd_sound _ _ Hh)) with (i := i') (f := f') (a := @nil MessageRecord) as (f2 & a2 & Y & -> & ->); [by intros pre g a [-> _]| |exact Ho|done|].
  - intros pre m rest g a _ _ [-> ->]. exists f'. eexists. split; [apply collect_step|]. split; [done|]. unfold inbound_of. by rewrite !filter_app, map_app, filter_app.
  - eapply yields_bind; [apply yields_disk|].
    + intros w1 Hw1. destruct (Y w1 Hw1) as (w2 & E & Hw2). exists w2. unfold collecting. rewrite E. by split.
    + cbv beta. unfold abs_inbound_range. destruct (history_spec session_id (flushed ++ queue) (fun _ => abs_empty)) as (_ & E & _). unfold history. rewrite E, (hd_msgs _ _ Hh). apply yields_ret.
Qed.
End Form.
