(* ===== verification/DurableRefines.v ===== *)
(** * The durable batch store: refinement

    The store beside the abstract one: whatever is saved, flushed, rolled over, reset,
    refreshed or reopened, what is loaded is what the abstract store holds. *)
From S2P Require Import Prelude Base StdAlgo Wire SessionStore Artifact Disk DurableStore DurableProofs DurableRep.
Open Scope Z_scope.

(** ** The temporary directory *)

Lemma stored_beside home a b c d f f' : stored_with home a b c d f -> beside (negb home) f f' -> stored_with home a b c d f'.
Proof.
  intros [F1 F2 F3 F4 F5 F6] Hb. assert (E : forall x n, f' !! (home, x, n) = f !! (home, x, n)) by (intros x n; apply Hb; by destruct home).
  constructor; unfold log_name, index_name, in_archive, active_log, active_index, recovery_log, in_root in *.
  - intros j l Hj. rewrite E. by apply F1.
  - intros j l Hj. rewrite E. by apply F2.
  - intros name. rewrite E. apply F3.
  - by rewrite E.
  - by rewrite E.
  - by rewrite E.
Qed.

#[local] Instance other_home_inj : Inj (=) (=) other_home.
Proof. intros [[h a] n] [[h' a'] n']. unfold other_home. cbn. intros [= E -> ->]. by destruct h, h'. Qed.

Lemma lookup_replaced f a n : apply_op Replace (apply_op (RemoveAll false) f) !! (false, a, n) = f !! (true, a, n).
Proof.
  cbn [apply_op]. change (false, a, n) with (other_home (true, a, n)). rewrite lookup_kmap by apply _. destruct (f !! (true, a, n)) as [c|] eqn:E.
  - apply map_lookup_filter_Some. split; [|done]. apply map_lookup_filter_Some. by split.
  - apply map_lookup_filter_None. left. apply map_lookup_filter_None. by left.
Qed.

Lemma stored_replaced a b c d f : stored_with true a b c d f -> stored_with false a b c d (apply_op Replace (apply_op (RemoveAll false) f)).
Proof.
  intros [F1 F2 F3 F4 F5 F6]. constructor; unfold log_name, index_name, in_archive, active_log, active_index, recovery_log, in_root in *.
  - intros j l Hj. rewrite lookup_replaced. by apply F1.
  - intros j l Hj. rewrite lookup_replaced. by apply F2.
  - intros name. rewrite lookup_replaced. apply F3.
  - by rewrite lookup_replaced.
  - by rewrite lookup_replaced.
  - by rewrite lookup_replaced.
Qed.

Lemma removed_home f : (forall p, fst (fst p) = true -> apply_op (RemoveAll true) f !! p = None) /\ beside true f (apply_op (RemoveAll true) f).
Proof.
  cbn [apply_op]. split.
  - intros p Hp. apply map_lookup_filter_None. right. intros c _. cbn. by intros [].
  - intros p Hp. destruct (f !! p) as [c|] eqn:E; [by apply map_lookup_filter_Some|]. apply map_lookup_filter_None. by left.
Qed.

(** ** What a reset keeps *)

Definition kept (session_id : Z) (l : list Msg) : list Msg := filter (fun m => v_session_id (snd m) <> session_id) l.
Definition kept_states (session_id : Z) (l : list SessionRecoveryState) : list SessionRecoveryState := filter (fun r => r_session_id r <> session_id) l.

Lemma msgs_of_messages l : msgs_of (map EMessage l) = l /\ states_of (map EMessage l) = [].
Proof. unfold msgs_of, states_of. induction l as [|m l [IH1 IH2]]; cbn; [done|]. by rewrite IH1. Qed.
Lemma states_of_states l : states_of (map EState l) = l /\ msgs_of (map EState l) = [].
Proof. unfold msgs_of, states_of. induction l as [|m l [IH1 IH2]]; cbn; [done|]. by rewrite IH1. Qed.

Lemma kept_weight session_id l : msgs_weight (kept session_id l) <= msgs_weight l.
Proof.
  induction l as [|m l IH]; [done|]. unfold kept in *. rewrite filter_cons. assert (Hc : forall x, msgs_weight (m :: x) = msgs_weight [m] + msgs_weight x) by (intros x; apply (msgs_weight_app [m] x)). pose proof (msgs_weight_nonneg [m]). rewrite (Hc l). case_decide; [rewrite Hc; lia|cbn [length] in *; lia].
Qed.

Lemma put_record_kept session_id id l : forall m, id <> session_id -> fold_left (put_record id) (kept session_id l) m = fold_left (put_record id) l m.
Proof.
  induction l as [|x l IH]; intros m Hne; [done|]. unfold kept in *. rewrite filter_cons. cbn [fold_left]. case_decide as Hx; [apply (IH _ Hne)|]. rewrite (IH m Hne). f_equal. unfold put_record. assert (v_session_id (snd x) = session_id) as -> by (destruct (Z.eq_dec (v_session_id (snd x)) session_id); [done|by destruct Hx]).
  destruct (Z.eqb_spec session_id id); [congruence|]. by rewrite andb_false_r.
Qed.

Lemma put_record_none id l : forall m, Forall (fun x : Msg => v_session_id (snd x) <> id) l -> fold_left (put_record id) l m = m.
Proof. induction l as [|x l IH]; intros m Hl; [done|]. apply Forall_cons in Hl as [Hx Hl]. cbn [fold_left]. rewrite (IH _ Hl). unfold put_record. destruct (Z.eqb_spec (v_session_id (snd x)) id); [done|]. by rewrite andb_false_r. Qed.

Lemma kept_none session_id l : Forall (fun x : Msg => v_session_id (snd x) <> session_id) (kept session_id l).
Proof. apply Forall_forall. intros x Hx. by apply list_elem_of_filter in Hx as [? _]. Qed.

Lemma inbound_kept session_id id l : inbound_of id (kept session_id l) = if decide (id = session_id) then [] else inbound_of id l.
Proof.
  unfold inbound_of, kept. induction l as [|x l IH]; [by destruct (decide _)|]. rewrite filter_cons. destruct (decide (v_session_id (snd x) <> session_id)) as [Hx|Hx].
  - rewrite filter_cons. rewrite (filter_cons _ x l). destruct (decide (fst x = false /\ v_session_id (snd x) = id)) as [[Hy Hz]|Hy]; [|exact IH]. cbn [map]. rewrite IH. destruct (decide (id = session_id)); [congruence|done].
  - rewrite IH. destruct (decide (id = session_id)) as [E|E]; [done|]. rewrite (filter_cons _ x l). rewrite decide_False; [done|]. intros [_ H]. apply Hx. congruence.
Qed.

Lemma states_kept session_id id l : forall m, id <> session_id -> add_states (kept_states session_id l) m !! id = add_states l m !! id.
Proof.
  intros m Hne. assert (E : forall m1 m2, m1 !! id = m2 !! id -> add_states (kept_states session_id l) m1 !! id = add_states l m2 !! id); [|by apply E]. unfold kept_states. induction l as [|r l IH]; intros m1 m2 Hm; [done|]. rewrite filter_cons. cbn [add_states fold_left]. case_decide as Hr.
  - apply IH. destruct (decide (r_session_id r = id)) as [->|?]; [by rewrite !lookup_insert_eq|by rewrite !lookup_insert_ne].
  - apply IH. rewrite lookup_insert_ne; [done|]. congruence.
Qed.

Lemma states_gone session_id l : add_states (kept_states session_id l) ∅ !! session_id = None.
Proof. destruct (add_states _ ∅ !! session_id) as [r|] eqn:E; [|done]. apply add_states_lookup in E as [Hr Hs]. by apply list_elem_of_filter in Hr as [? _]. Qed.

Lemma abs_eq a b : a_outbound a = a_outbound b -> a_inbound a = a_inbound b -> a_recovery a = a_recovery b -> a = b.
Proof. destruct a, b. cbn. by intros -> -> ->. Qed.

(** The entries that a reset saves again, as the abstract store sees them. *)
Lemma history_reset session_id l msgs states : msgs_of l = msgs -> add_states (states_of l) ∅ = add_states states ∅ ->
  forall id, history (map EMessage (kept session_id msgs) ++ map EState (kept_states session_id states)) id = upd (history l) session_id abs_empty id.
Proof.
  intros <- Hs id. destruct (history_spec id l (fun _ => abs_empty)) as (L1 & L2 & L3). destruct (history_spec id (map EMessage (kept session_id (msgs_of l)) ++ map EState (kept_states session_id states)) (fun _ => abs_empty)) as (R1 & R2 & R3). unfold history.
  rewrite msgs_of_app, (proj1 (msgs_of_messages _)), (proj2 (states_of_states _)), app_nil_r in R1, R2. rewrite states_of_app, (proj2 (msgs_of_messages _)), (proj1 (states_of_states _)) in R3. cbn [app abs_empty a_outbound a_inbound a_recovery] in *. unfold upd. destruct (decide (id = session_id)) as [->|Hne]; apply abs_eq; rewrite ?R1, ?R2, ?R3, ?L1, ?L2, ?L3.
  - cbn. apply put_record_none, kept_none.
  - rewrite inbound_kept, decide_True by done. done.
  - by rewrite states_gone.
  - by apply put_record_kept.
  - rewrite inbound_kept, decide_False by done. done.
  - by rewrite states_kept, Hs.
Qed.

Section Refines.
Context (root : string) (options : DurableBatchStoreOptions) (tm_gmtoff limit : Z).
Context (Hroot : root <> "") (Hmax : max_archived_segments options = 0) (Hthreshold : 1 <= flush_threshold options) (Hlimit : flush_threshold options * limit <= UINT32_MAX).

Notation keeps := (represents options false limit).
Notation builds := (represents options true limit).

(** ** Reset *)

Lemma entries_weight_messages l : entries_weight (map EMessage l) = msgs_weight l.
Proof. unfold entries_weight. destruct (msgs_of_messages l) as [-> ->]. change (length (@nil SessionRecoveryState)) with O. lia. Qed.
Lemma entries_weight_states l : entries_weight (map EState l) = kRecoveryRecordSize * Z.of_nat (length l).
Proof. unfold entries_weight. destruct (states_of_states l) as [-> ->]. by change (msgs_weight []) with 0. Qed.

(** A message of another session is saved again. *)
Lemma resave_message session_id m f a flushed queue : builds flushed queue f a -> msg_ok m -> payload_size m <= limit -> entries_weight (flushed ++ queue ++ [EMessage m]) + 1000 < kLimit ->
  exists flushed' queue' f' a', yields (resave root options tm_gmtoff session_id (msg_header m) (v_payload (snd m))) f a f' a' tt /\ builds flushed' queue' f' a' /\ flushed' ++ queue' = flushed ++ queue ++ map EMessage (kept session_id [m]) /\ beside true f f'.
Proof.
  intros Hb Hm Hp Hw. unfold resave, kept. rewrite filter_cons, filter_nil. cbn [msg_header rh_session_id rh_seq_num rh_timestamp_ns rh_flags rh_body_start_offset rh_record_type]. destruct (Z.eqb_spec (v_session_id (snd m)) session_id) as [E|E].
  - rewrite decide_False by (intros H; by apply H). exists flushed, queue, f, a. cbn [map]. rewrite app_nil_r. split; [apply yields_ret|done].
  - rewrite decide_True by done. destruct (save_represents root options tm_gmtoff true Hroot Hmax limit Hthreshold Hlimit flushed queue f a (EMessage m) Hb (conj Hm Hp) Hw) as (fl & q & f' & a' & Hy & Hr & Ea & _ & Hbe). exists fl, q, f', a'. split; [|done].
    cbn [save] in Hy. destruct m as [[] []]; exact Hy.
Qed.

Lemma resave_all_states session_id l : forall f a flushed queue, builds flushed queue f a -> Forall (fun x => snd (A := Z) (B := SessionRecoveryState) x = snd x /\ fst x = r_session_id (snd x) /\ state_ok (snd x)) l -> entries_weight (flushed ++ queue ++ map EState (kept_states session_id (map snd l))) + 1000 < kLimit ->
  exists flushed' queue' f' a', yields (resave_states root options tm_gmtoff session_id l) f a f' a' tt /\ builds flushed' queue' f' a' /\ flushed' ++ queue' = flushed ++ queue ++ map EState (kept_states session_id (map snd l)) /\ beside true f f'.
Proof.
  induction l as [|[k r] l IH]; intros f a flushed queue Hb Hl Hw; [exists flushed, queue, f, a; cbn; rewrite app_nil_r; split; [apply yields_ret|done]|]. apply Forall_cons in Hl as [(_ & Hk & Hok) Hl]. cbn [fst snd] in *. subst k. cbn [resave_states map snd] in *. unfold kept_states in *. rewrite filter_cons in *. destruct (Z.eqb_spec (r_session_id r) session_id) as [E|E].
  - rewrite decide_False in * by (intros H; by apply H). destruct (IH f a flushed queue Hb Hl Hw) as (fl & q & f' & a' & Hy & Hrest). exists fl, q, f', a'. split; [|done]. eapply yields_bind; [apply yields_ret|]. exact Hy.
  - rewrite decide_True in * by done. cbn [map] in *. set (rest := map EState (filter (fun r => r_session_id r <> session_id) (map snd l))) in *.
    assert (Hw1 : entries_weight (flushed ++ queue ++ [EState r]) + 1000 < kLimit). { change (EState r :: rest) with ([EState r] ++ rest) in Hw. rewrite !app_assoc, entries_weight_app in Hw. pose proof (entries_weight_nonneg rest). rewrite app_assoc. lia. }
    destruct (save_represents root options tm_gmtoff true Hroot Hmax limit Hthreshold Hlimit flushed queue f a (EState r) Hb Hok Hw1) as (fl & q & f1 & a1 & Hy & Hr & Ea & _ & Hbe). destruct (IH f1 a1 fl q Hr Hl) as (fl' & q' & f' & a' & Hy' & Hr' & Ea' & Hbe').
    + rewrite app_assoc, Ea, <- !app_assoc. exact Hw.
    + exists fl', q', f', a'. split; [eapply yields_bind; [exact Hy|exact Hy']|]. split; [done|]. split; [rewrite Ea', app_assoc, Ea, <- !app_assoc; done|by eapply beside_trans].
Qed.

Lemma fits_of_msgs l : Forall (entry_fits limit) l -> Forall (fun m => payload_size m <= limit) (msgs_of l).
Proof. induction 1 as [|e l He _ IH]; [constructor|]. destruct e as [m|r]; cbn; [constructor; [by destruct He|done]|done]. Qed.

Lemma replaced_opens d f i l : stored true d f -> holds d l -> Forall (entry_fits limit) l -> is_open i = false -> queued [] i ->
  exists i', yields (Open root options tm_gmtoff false) (apply_op Replace (apply_op (RemoveAll false) f)) i (apply_op Replace (apply_op (RemoveAll false) f)) i' tt /\ keeps l [] (apply_op Replace (apply_op (RemoveAll false) f)) i'.
Proof.
  intros Hs Hh Hf Hc [Hq Ha]. pose proof (stored_replaced _ _ _ d f Hs) as Hs'. destruct (open_stored root options tm_gmtoff false Hroot Hmax d _ i (hd_sound _ _ Hh) Hs' Hc) as (i' & Hy & Ho & Hp1 & Hp2). exists i'. split; [exact Hy|]. constructor; [by exists d|split; congruence|by rewrite app_nil_r|cbn; lia].
Qed.

(** The temporary store: everything but the session. *)
Lemma rebuild_builds session_id flushed f i d : keeps flushed [] f i -> holds d flushed -> stored false d f -> opened false d i -> entries_weight flushed + 1000 < kLimit ->
  let kept_entries := map EMessage (kept session_id (all_msgs d)) ++ map EState (kept_states session_id (latest (sd_states d))) in
  exists f' a', does (rebuild root options tm_gmtoff session_id i) (apply_op (RemoveAll true) f) f' tt /\ builds kept_entries [] f' a' /\ entries_weight kept_entries <= entries_weight flushed.
Proof.
  intros Hk Hh Hs Ho Hw kept_entries. destruct (removed_home f) as [Hempty Hbe0]. set (f0 := apply_op (RemoveAll true) f) in *.
  pose proof (hd_weight _ _ Hh) as Hwd. unfold weight in Hwd. pose proof (kept_weight session_id (all_msgs d)) as Hkw. assert (Hlen : (length (kept_states session_id (latest (sd_states d))) <= length (sd_states d))%nat) by (etrans; [apply length_filter|apply latest_length]).
  assert (Hke : entries_weight kept_entries <= entries_weight flushed) by (unfold kept_entries; rewrite entries_weight_app, entries_weight_messages, entries_weight_states; change kRecoveryRecordSize with 40 in *; lia).
  assert (Hpay : Forall (fun m => payload_size m <= limit) (all_msgs d)) by (rewrite (hd_msgs _ _ Hh); apply fits_of_msgs; destruct Hk as [_ _ Hf _]; by rewrite app_nil_r in Hf).
  destruct (start_represents root options tm_gmtoff true Hroot Hmax limit Hthreshold f0 Hempty) as (f1 & a1 & Y1 & R1 & B1).
  set (P := fun (pre : list Msg) (g : Files) (a : Impl) => stored false d g /\ exists fl q, builds fl q g a /\ fl ++ q = map EMessage (kept session_id pre)).
  assert (HP : P [] f1 a1). { split; [|by exists [], []]. eapply stored_beside; [eapply stored_beside; [exact Hs|exact Hbe0]|exact B1]. }
  destruct (visit_segments root false (resave root options tm_gmtoff session_id) P d (hd_sound _ _ Hh)) with (i := i) (f := f1) (a := a1) as (f2 & a2 & Y2 & Hs2 & fl2 & q2 & R2 & E2); [by intros pre g a [? _]| |exact Ho|exact HP|].
  { intros pre m rest g a Hall Hm (Hsg & fl & q & Rg & Eg). assert (Hpm : payload_size m <= limit) by (rewrite Hall in Hpay; by apply Forall_app in Hpay as [_ [? _]%Forall_cons]).
    destruct (resave_message session_id m g a fl q Rg Hm Hpm) as (fl' & q' & g' & a' & Yg & Rg' & Eg' & Bg).
    - rewrite app_assoc, Eg, entries_weight_app, entries_weight_messages. change [EMessage m] with (map EMessage [m]). rewrite entries_weight_messages. pose proof (kept_weight session_id pre). rewrite Hall, !msgs_weight_app in Hwd. change (m :: rest) with ([m] ++ rest) in Hwd. rewrite msgs_weight_app in Hwd. pose proof (msgs_weight_nonneg rest). change kRecoveryRecordSize with 40 in *. lia.
    - exists g', a'. split; [exact Yg|]. split; [by eapply stored_beside|]. exists fl', q'. split; [done|]. rewrite Eg', app_assoc, Eg, <- map_app. unfold kept. by rewrite filter_app. }
  assert (Hst : map snd (map_to_list (im_recovery_states i)) = latest (sd_states d)) by (unfold latest; by rewrite (op_states _ _ _ Ho)).
  destruct (resave_all_states session_id (map_to_list (im_recovery_states i)) f2 a2 fl2 q2 R2) as (fl3 & q3 & f3 & a3 & Y3 & R3 & E3 & B3).
  { rewrite (op_states _ _ _ Ho). apply Forall_forall. intros [k r] Hr. apply elem_of_map_to_list, add_states_lookup in Hr as [Hr Hkey]. split; [done|]. split; [done|]. pose proof (sn_states d (hd_sound _ _ Hh)) as Hok. rewrite Forall_forall in Hok. by apply Hok. }
  { rewrite Hst, app_assoc, E2. fold kept_entries. lia. }
  rewrite Hst, app_assoc, E2 in E3. fold kept_entries in E3.
  destruct (flush_represents root options tm_gmtoff true Hroot Hmax limit Hthreshold fl3 q3 f3 a3 R3) as (f4 & a4 & Y4 & R4 & B4); [rewrite E3; lia|]. rewrite E3 in R4.
  destruct (flush_represents root options tm_gmtoff true Hroot Hmax limit Hthreshold kept_entries [] f4 a4 R4) as (f5 & a5 & Y5 & R5 & B5); [rewrite app_nil_r; lia|]. rewrite app_nil_r in R5. exists f5, a5. split; [|done].
  intros w Hw0. unfold rebuild. assert (Yall : yields (Open root options tm_gmtoff true ;;; visit_all root (all_segments i) (resave root options tm_gmtoff session_id) ;;; resave_states root options tm_gmtoff session_id (map_to_list (im_recovery_states i)) ;;; Flush root options tm_gmtoff true) f0 NewImpl f4 a4 tt).
  { eapply yields_bind; [exact Y1|]. cbv beta. eapply yields_bind; [exact Y2|]. cbv beta. eapply yields_bind; [exact Y3|]. cbv beta. exact Y4. }
  destruct (Yall w Hw0) as (w4 & E4 & Hw4). rewrite E4. destruct (Y5 w4 Hw4) as (w5 & E5 & Hw5). rewrite E5. by exists w5.
Qed.

Lemma reset_keeps session_id flushed queue f i : keeps flushed queue f i -> session_id <> 0 -> entries_weight (flushed ++ queue) + 1000 < kLimit ->
  exists flushed' f' i', yields (ResetSession root options tm_gmtoff session_id) f i f' i' tt /\ keeps flushed' [] f' i' /\ entries_weight flushed' <= entries_weight (flushed ++ queue) /\ forall id, history flushed' id = upd (history (flushed ++ queue)) session_id abs_empty id.
Proof.
  intros Hk Hid Hw. destruct (flush_represents root options tm_gmtoff false Hroot Hmax limit Hthreshold flushed queue f i Hk Hw) as (f1 & i1 & Y1 & K1 & _). set (all := flushed ++ queue) in *. pose proof K1 as [(d & Hh & Hs & Ho) Hq _ _].
  destruct (rebuild_builds session_id all f1 i1 d K1 Hh Hs Ho Hw) as (f2 & a2 & Y2 & R2 & Hke). set (kept_entries := map EMessage (kept session_id (all_msgs d)) ++ map EState (kept_states session_id (latest (sd_states d)))) in *.
  pose proof R2 as [(d2 & Hh2 & Hs2 & _) _ Hf2 _]. rewrite app_nil_r in Hf2. set (i2 := with_day None (with_pending [] [] (with_states ∅ (with_index ∅ (with_archived ∅ (with_recovery None 0 (with_active no_segment i1))))))).
  destruct (replaced_opens d2 f2 i2 kept_entries Hs2 Hh2 Hf2 eq_refl (conj eq_refl eq_refl)) as (i3 & Y3 & K3). eexists kept_entries, _, i3. split; [|split; [exact K3|split; [exact Hke|]]].
  - unfold ResetSession. destruct (Z.eqb_spec session_id 0) as [?|_]; [done|]. eapply yields_bind; [exact Y1|]. cbv beta. eapply yields_bind; [by eapply open_again|]. cbv beta. eapply yields_bind; [apply yields_disk, does_call|]. cbv beta. cbn [negb]. apply yields_get. intros w Hw0. cbn [snd].
    eapply yields_bind; [apply yields_disk; exact Y2|]. cbv beta. eapply yields_bind; [apply yields_private|]. cbv beta. eapply yields_bind; [apply yields_disk, does_call|]. cbv beta. cbn [negb]. eapply yields_bind; [apply yields_disk, does_call|]. cbv beta. cbn [negb]. eapply yields_bind; [apply yields_private|]. exact Y3.
  - intros id. unfold kept_entries. apply history_reset; [by rewrite (hd_msgs _ _ Hh)|]. rewrite latest_states. symmetry. apply (hd_states _ _ Hh).
Qed.

(** ** The store beside its specification *)

Inductive StoreCall :=
| Save (e : Entry) | DoFlush | DoRollover | DoRefresh | DoReset (session_id : Z) | Restart
| GetOutbound (session_id b e : Z) | GetViews (session_id b e : Z) | GetInbound (session_id b e : Z) | GetRecovery (session_id : Z).

Inductive Answer :=
| Acted (r : Result unit) | Records (r : Result (list MessageRecord)) | Views (r : Result (list MessageRecordView)) | Recovered (r : Result SessionRecoveryState).

Definition answered {I X} (mk : Result X -> Answer) (m : SE (World * I) X) (s : World * I) : (World * I) * Answer := let '(s', r) := m s in (s', mk r).

(** A restart is another object that opens the directory; what was queued is gone. *)
Definition call_store (c : StoreCall) : World * Impl -> (World * Impl) * Answer :=
  match c with
  | Save e => answered Acted (save root options tm_gmtoff false e)
  | DoFlush => answered Acted (Flush root options tm_gmtoff false)
  | DoRollover => answered Acted (Rollover root options tm_gmtoff false)
  | DoRefresh => answered Acted (Refresh root options tm_gmtoff false)
  | DoReset session_id => answered Acted (ResetSession root options tm_gmtoff session_id)
  | Restart => answered Acted (private (fun _ => NewImpl) ;;; Open root options tm_gmtoff false)
  | GetOutbound session_id b e => answered Records (LoadOutboundRange root options tm_gmtoff false session_id b e)
  | GetViews session_id b e => answered Views (LoadOutboundRangeViews root options tm_gmtoff false session_id b e)
  | GetInbound session_id b e => answered Records (LoadInboundRange root options tm_gmtoff false session_id b e)
  | GetRecovery session_id => answered Recovered (LoadRecoveryState root options tm_gmtoff false session_id)
  end.

Fixpoint call_all (l : list StoreCall) (s : World * Impl) : (World * Impl) * list Answer :=
  match l with
  | [] => (s, [])
  | c :: l => let '(s1, a) := call_store c s in let '(s2, rest) := call_all l s1 in (s2, a :: rest)
  end.

(** What the store promises, of the entries that are safe and the entries that wait. *)
Definition Promise : Type := list Entry * list Entry.
Definition entries (p : Promise) : list Entry := fst p ++ snd p.
Definition range_answer {X} (text : string) (b e : Z) (x : X) : Result X := if range_valid b e then Value x else Error (status.InvalidArgument text).
Definition recovery_answer (o : option SessionRecoveryState) : Result SessionRecoveryState := match o with Some r => Value r | None => Error (status.NotFound "recovery state not found") end.
(** A load with a valid range makes everything safe first. *)
Definition loaded (b e : Z) (p : Promise) : Promise := if range_valid b e then (entries p, []) else p.

Inductive promised (p : Promise) : StoreCall -> Promise -> Answer -> Prop :=
| promised_save e p' : entries p' = entries p ++ [e] -> fst p `prefix_of` fst p' -> Z.of_nat (length (snd p')) < flush_threshold options -> promised p (Save e) p' (Acted (Value tt))
| promised_flush : promised p DoFlush (entries p, []) (Acted (Value tt))
| promised_rollover : promised p DoRollover (entries p, []) (Acted (Value tt))
| promised_refresh : promised p DoRefresh (fst p, []) (Acted (Value tt))
| promised_restart : promised p Restart (fst p, []) (Acted (Value tt))
| promised_reset session_id kept_entries : session_id <> 0 -> (forall id, history kept_entries id = upd (history (entries p)) session_id abs_empty id) -> promised p (DoReset session_id) (kept_entries, []) (Acted (Value tt))
| promised_no_reset : promised p (DoReset 0) p (Acted (Error (status.InvalidArgument "session reset requires a valid session id")))
| promised_outbound session_id b e : promised p (GetOutbound session_id b e) (loaded b e p) (Records (range_answer "invalid outbound load range" b e (abs_outbound_range (history (entries p) session_id) b e)))
| promised_views session_id b e : promised p (GetViews session_id b e) (loaded b e p) (Views (range_answer "invalid outbound load range" b e (map record_view (abs_outbound_range (history (entries p) session_id) b e))))
| promised_inbound session_id b e : promised p (GetInbound session_id b e) (loaded b e p) (Records (range_answer "invalid inbound load range" b e (abs_inbound_range (history (entries p) session_id) b e)))
| promised_recovery session_id : promised p (GetRecovery session_id) (entries p, []) (Recovered (recovery_answer (a_recovery (history (entries p) session_id)))).

Inductive promises : Promise -> list StoreCall -> Promise -> list Answer -> Prop :=
| promises_nil p : promises p [] p []
| promises_cons p c p1 a l p2 answers : promised p c p1 a -> promises p1 l p2 answers -> promises p (c :: l) p2 (a :: answers).

Definition saved (c : StoreCall) : list Entry := match c with Save e => [e] | _ => [] end.
Definition all_saved (l : list StoreCall) : list Entry := concat (map saved l).

(** ** One call *)

Lemma answered_yields {I X} (mk : Result X -> Answer) (m : SE (World * I) X) f i f' i' x w : yields m f i f' i' x -> at_rest f w -> exists w', answered mk m (w, i) = ((w', i'), mk (Value x)) /\ at_rest f' w'.
Proof. intros Hy Hw. destruct (Hy w Hw) as (w' & E & Hw'). exists w'. unfold answered. by rewrite E. Qed.

Definition simulated (p : Promise) (c : StoreCall) (w : World) (i : Impl) : Prop :=
  exists p' a f' w' i', call_store c (w, i) = ((w', i'), a) /\ at_rest f' w' /\ keeps (fst p') (snd p') f' i' /\ promised p c p' a /\ entries_weight (entries p') <= entries_weight (entries p ++ saved c).

Lemma simulate_yields {X} (mk : Result X -> Answer) (m : SE (World * Impl) X) p p' c f w i f' i' x : call_store c = answered mk m -> at_rest f w -> yields m f i f' i' x -> keeps (fst p') (snd p') f' i' -> promised p c p' (mk (Value x)) -> entries_weight (entries p') <= entries_weight (entries p ++ saved c) -> simulated p c w i.
Proof. intros Ec Hw Hy Hk Hp Hle. destruct (answered_yields mk m f i f' i' x w Hy Hw) as (w' & E & Hw'). exists p', (mk (Value x)), f', w', i'. by rewrite Ec. Qed.

Lemma simulate_refused {X} (mk : Result X -> Answer) (m : SE (World * Impl) X) p c f w i x : call_store c = answered mk m -> at_rest f w -> m (w, i) = ((w, i), Error x) -> keeps (fst p) (snd p) f i -> promised p c p (mk (Error x)) -> saved c = [] -> simulated p c w i.
Proof. intros Ec Hw E Hk Hp Hs. exists p, (mk (Error x)), f, w, i. rewrite Ec. unfold answered. rewrite E, Hs, app_nil_r. done. Qed.

Lemma range_refused b e : range_valid b e = false -> bad_range b e = true.
Proof. unfold range_valid, bad_range. rewrite Z.gtb_ltb. by intros ->%negb_false_iff. Qed.

Lemma entries_safe p : entries (entries p, []) = entries p.
Proof. unfold entries. cbn. by rewrite app_nil_r. Qed.

Lemma entries_shrink p q : entries (fst p, []) = fst p /\ entries_weight (fst p) <= entries_weight (entries p ++ q).
Proof. unfold entries. cbn. rewrite app_nil_r, !entries_weight_app. pose proof (entries_weight_nonneg (snd p)). pose proof (entries_weight_nonneg q). split; [done|lia]. Qed.

(** A load: a valid range flushes and reads, an invalid one is refused at once. *)
Lemma simulate_load {X} (mk : Result X -> Answer) (m : SE (World * Impl) X) text b e x p c f w i : call_store c = answered mk m -> at_rest f w -> keeps (fst p) (snd p) f i -> saved c = [] ->
  (range_valid b e = false -> m (w, i) = ((w, i), Error (status.InvalidArgument text))) -> (range_valid b e = true -> exists f' i', yields m f i f' i' x /\ keeps (entries p) [] f' i') ->
  promised p c (loaded b e p) (mk (range_answer text b e x)) -> simulated p c w i.
Proof.
  unfold loaded, range_answer. intros Ec Hw Hk Hs Hbad Hgood Hp. destruct (range_valid b e).
  - destruct (Hgood eq_refl) as (f' & i' & Hy & Hk'). eapply (simulate_yields mk m p (entries p, [])); [done|done|exact Hy|done|done|]. by rewrite entries_safe, Hs, app_nil_r.
  - eapply (simulate_refused mk m); [done|done|by apply Hbad|done|done|done].
Qed.

Lemma refused_bind {A X} (cond : bool) (x : Status) (m : SE (World * A) X) s : cond = true -> (if cond then fail x else m) s = (s, Error x).
Proof. by intros ->. Qed.

Lemma simulate_call p c f w i : keeps (fst p) (snd p) f i -> at_rest f w -> Forall (entry_fits limit) (saved c) -> entries_weight (entries p ++ saved c) + 1000 < kLimit -> simulated p c w i.
Proof.
  intros Hk Hw Hfit Hweight. assert (Hweight0 : entries_weight (fst p ++ snd p) + 1000 < kLimit) by (rewrite entries_weight_app in Hweight; pose proof (entries_weight_nonneg (saved c)); unfold entries in Hweight; lia).
  destruct c as [e| | | |session_id| |session_id b e|session_id b e|session_id b e|session_id]; cbn [saved] in *.
  - apply Forall_cons in Hfit as [Hfit _]. unfold entries in Hweight. rewrite <- app_assoc in Hweight. destruct (save_represents root options tm_gmtoff false Hroot Hmax limit Hthreshold Hlimit _ _ f i e Hk Hfit Hweight) as (fl & q & f' & i' & Hy & Hr & Ea & Hpre & _). pose proof (rp_short _ _ _ _ _ _ _ Hr) as Hshort.
    eapply (simulate_yields Acted _ p (fl, q)); [reflexivity|done|exact Hy|done| |]; unfold entries; cbn [fst snd saved]; [|by rewrite Ea, <- app_assoc].
    apply promised_save; [|done|done]. unfold entries. cbn [fst snd]. by rewrite Ea, <- app_assoc.
  - destruct (flush_represents root options tm_gmtoff false Hroot Hmax limit Hthreshold _ _ f i Hk Hweight0) as (f' & i' & Hy & Hr & _). eapply (simulate_yields Acted _ p (entries p, [])); [reflexivity|done|exact Hy|done|constructor|]. by rewrite entries_safe, app_nil_r.
  - destruct (rollover_represents root options tm_gmtoff false Hroot Hmax limit Hthreshold _ _ f i Hk Hweight0) as (f' & i' & Hy & Hr & _). eapply (simulate_yields Acted _ p (entries p, [])); [reflexivity|done|exact Hy|done|constructor|]. by rewrite entries_safe, app_nil_r.
  - destruct (reopen_represents root options tm_gmtoff false Hroot Hmax limit Hthreshold _ _ f i (forget i) Hk eq_refl (conj eq_refl eq_refl)) as (i' & Hy & Hr). destruct (entries_shrink p []) as [E Hle]. eapply (simulate_yields Acted _ p (fst p, [])); [reflexivity|done| |exact Hr|constructor|by rewrite E]. eapply yields_bind; [apply yields_private|exact Hy].
  - destruct (decide (session_id = 0)) as [->|Hne].
    + eapply (simulate_refused Acted); [reflexivity|done|done|done|constructor|done].
    + destruct (reset_keeps session_id _ _ f i Hk Hne Hweight0) as (kept_entries & f' & i' & Hy & Hr & Hle & Hh). eapply (simulate_yields Acted _ p (kept_entries, [])); [reflexivity|done|exact Hy|done|by constructor|]. unfold entries. cbn [fst snd saved]. by rewrite !app_nil_r.
  - destruct (reopen_represents root options tm_gmtoff false Hroot Hmax limit Hthreshold _ _ f i NewImpl Hk eq_refl (conj eq_refl eq_refl)) as (i' & Hy & Hr). destruct (entries_shrink p []) as [E Hle]. eapply (simulate_yields Acted _ p (fst p, [])); [reflexivity|done| |exact Hr|constructor|by rewrite E]. eapply yields_bind; [exact (yields_private (fun _ => NewImpl) f i)|exact Hy].
  - eapply (simulate_load Records); [reflexivity|exact Hw|exact Hk|done| | |constructor]; intros Hr; [by apply refused_bind, range_refused|]. apply (load_outbound_range root options tm_gmtoff false Hroot Hmax limit Hthreshold _ _ f i Hk Hweight0 session_id b e Hr).
  - eapply (simulate_load Views); [reflexivity|exact Hw|exact Hk|done| | |constructor]; intros Hr; [by apply refused_bind, range_refused|]. apply (load_outbound_views root options tm_gmtoff false Hroot Hmax limit Hthreshold _ _ f i Hk Hweight0 session_id b e Hr).
  - eapply (simulate_load Records); [reflexivity|exact Hw|exact Hk|done| | |constructor]; intros Hr; [by apply refused_bind, range_refused|]. apply (load_inbound_range root options tm_gmtoff false Hroot Hmax limit Hthreshold _ _ f i session_id b e Hk Hweight0 Hr).
  - destruct (load_recovery_state root options tm_gmtoff false Hroot Hmax limit Hthreshold _ _ f i Hk Hweight0 session_id) as (f' & i' & Hr & Hans). pose proof (promised_recovery p session_id) as Hp. unfold entries in Hp at 2. destruct (a_recovery (history (fst p ++ snd p) session_id)) as [r|].
    + eapply (simulate_yields Recovered _ p (entries p, [])); [reflexivity|done|exact Hans|done|exact Hp|]. by rewrite entries_safe, app_nil_r.
    + destruct (Hans w Hw) as (w' & E & Hw'). eexists (entries p, []), _, f', w', i'. split; [unfold call_store, answered; rewrite E; reflexivity|]. split; [done|]. split; [done|]. split; [exact Hp|]. by rewrite entries_safe, app_nil_r.
Qed.

Lemma simulate_calls l : forall p f w i, keeps (fst p) (snd p) f i -> at_rest f w -> Forall (entry_fits limit) (all_saved l) -> entries_weight (entries p ++ all_saved l) + 1000 < kLimit ->
  exists p' answers s', call_all l (w, i) = (s', answers) /\ promises p l p' answers.
Proof.
  induction l as [|c l IH]; intros p f w i Hk Hw Hfit Hweight; [exists p, [], (w, i); split; [done|constructor]|]. unfold all_saved in *. cbn [map concat] in *. apply Forall_app in Hfit as [Hfit Hfits]. rewrite app_assoc, entries_weight_app in Hweight. pose proof (entries_weight_nonneg (concat (map saved l))).
  destruct (simulate_call p c f w i Hk Hw Hfit ltac:(lia)) as (p1 & a & f1 & w1 & i1 & E & Hw1 & Hk1 & Hp1 & Hle). destruct (IH p1 f1 w1 i1 Hk1 Hw1 Hfits) as (p2 & answers & s2 & E2 & Hp2).
  - rewrite entries_weight_app. lia.
  - exists p2, (a :: answers), s2. cbn [call_all]. rewrite E, E2. split; [done|by econstructor].
Qed.

End Refines.

(** C7: the durable store keeps its promises while no limit on archived segments is
    set and no system call fails.  Started on an empty directory, any sequence of
    saves, flushes, rollovers, refreshes, resets, restarts and loads succeeds, and
    its answers are those of the specification: a load returns exactly the history
    of everything that is safe or still queued, a refresh or a restart loses at
    most the queue, which is shorter than the threshold, a reset empties one
    session and leaves every other one as it was, and invalid ranges are refused.
    Conditions: [max_archived_segments] is 0, its default, which keeps every
    archived segment (with a limit a rollover deletes the oldest ones, and their
    messages with them); the file operations of the model do not fail, so nothing
    is said of a full disk or an interrupted write; the root path is not empty; the
    flush threshold is at least 1; the saved records are valid and fit the fields
    of the format, their payloads a bound whose product with the threshold fits 32
    bits; and everything saved stays below the 63-bit limit of a file. *)
Theorem durable_store_refines root options tm_gmtoff limit l :
  root <> "" -> max_archived_segments options = 0 -> 1 <= flush_threshold options -> flush_threshold options * limit <= UINT32_MAX ->
  Forall (entry_fits limit) (all_saved l) -> entries_weight (all_saved l) + 1000 < kLimit ->
  exists p answers s, call_all root options tm_gmtoff (Restart :: l) (fresh_world ∅, NewImpl) = (s, Acted (Value tt) :: answers) /\ promises options ([], []) l p answers.
Proof.
  intros Hroot Hmax Hthreshold Hlimit Hfit Hweight. destruct (start_represents root options tm_gmtoff false Hroot Hmax limit Hthreshold ∅) as (f & i & Hy & Hr & _); [done|].
  assert (Hs : yields (private (fun _ => NewImpl) ;;; Open root options tm_gmtoff false) ∅ NewImpl f i tt) by (eapply yields_bind; [exact (yields_private (fun _ => NewImpl) ∅ NewImpl)|exact Hy]).
  destruct (answered_yields Acted _ _ _ _ _ _ (fresh_world ∅) Hs) as (w & E & Hw); [done|]. destruct (simulate_calls root options tm_gmtoff limit Hroot Hmax Hthreshold Hlimit l ([], []) f w i Hr Hw Hfit Hweight) as (p & answers & s & E2 & Hp). exists p, answers, s. split; [|exact Hp].
  cbn [call_all call_store]. by rewrite E, E2.
Qed.

(** Two sessions, an automatic flush, a rollover, a reset and a restart. *)
Definition demo_options : DurableBatchStoreOptions := MkOptions 2 kUtcDay 0 0 false.
Definition demo_message (session_id seq_num ns : Z) (text : string) : MessageRecordView := MkView session_id seq_num ns 0 (bytes text) 0.
Definition demo_calls : list StoreCall :=
  [Save (EMessage (true, demo_message 7 1 5 "hello")); Save (EMessage (false, demo_message 7 1 6 "in")); Save (EState (MkRecovery 7 2 2 6 5 true)); DoRollover; Save (EMessage (true, demo_message 8 1 9 "other"));
   GetOutbound 7 1 10; GetInbound 7 1 10; DoReset 7; GetOutbound 7 1 10; GetViews 8 1 1; Save (EState (MkRecovery 8 2 2 6 5 true)); Restart; GetRecovery 8; GetInbound 7 3 1].

Definition demo_answers : list Answer := Eval vm_compute in snd (call_all "store" demo_options 0 (Restart :: demo_calls) (fresh_world ∅, NewImpl)).

Lemma demo_entry_fits : Forall (entry_fits 10) (all_saved demo_calls).
Proof. repeat constructor; cbn; try done; by vm_compute. Qed.

Lemma durable_store_refines_witness :
  Forall (entry_fits 10) (all_saved demo_calls) /\
  (exists p answers s, call_all "store" demo_options 0 (Restart :: demo_calls) (fresh_world ∅, NewImpl) = (s, Acted (Value tt) :: answers) /\ promises demo_options ([], []) demo_calls p answers) /\
  nth 6 demo_answers (Acted (Value tt)) = Records (Value [ToOwned (demo_message 7 1 5 "hello")]) /\ nth 9 demo_answers (Acted (Value tt)) = Records (Value []) /\ nth 10 demo_answers (Acted (Value tt)) = Views (Value [demo_message 8 1 9 "other"]) /\ nth 13 demo_answers (Acted (Value tt)) = Recovered (Error (status.NotFound "recovery state not found")).
Proof. split; [exact demo_entry_fits|]. split; [|repeat split; reflexivity]. apply (durable_store_refines "store" demo_options 0 10); [done|done|done|done|exact demo_entry_fits|by vm_compute]. Defined.
