(* ===== verification/DurableCrash.v ===== *)
(** * The durable batch store: loss of power

    A flush under any script of outcomes of the system calls, cut off at any moment: each
    file reopens to what it committed before the flush or to what the flush commits.
    Behind it, concrete runs of what the order of the operations does not protect. *)
From S2P Require Import Prelude Base StdAlgo Wire SessionStore Artifact Disk DurableStore DurableProofs DurableRep DurableRefines.
Open Scope Z_scope.

(** ** What survives *)

Lemma write_at_keeps c0 offset data c : c0 `prefix_of` c -> (length c0 <= offset)%nat -> c0 `prefix_of` write_at offset data c.
Proof.
  intros [rest ->] Ho. exists (drop (length c0) (write_at offset data (c0 ++ rest))). rewrite <- (take_drop (length c0) (write_at offset data (c0 ++ rest))) at 1. f_equal. rewrite write_at_prefix by (rewrite ?length_app; lia). apply take_app_length.
Qed.

Definition behind (c0 : list Z) (writes : list (nat * list Z)) : Prop := Forall (fun x => length c0 <= fst x)%nat writes.

Lemma survives_behind atomic c0 c writes c' : survives atomic c writes c' -> c0 `prefix_of` c -> behind c0 writes -> c0 `prefix_of` c'.
Proof.
  unfold behind. induction 1 as [c|c w ws c' _ IH|c offset data ws c' _ IH|c offset data part ws c' _ _ _ IH]; intros Hp Hb; [done|..]; apply Forall_cons in Hb as [Hw Hb]; apply IH; try done; by apply write_at_keeps.
Qed.

Lemma survives_nothing atomic c c' : survives atomic c [] c' -> c' = c.
Proof. by inversion 1. Qed.

Lemma survives_header atomic c data c' : (0 < atomic)%nat -> survives atomic c [(0%nat, data)] c' -> c' = c \/ c' = write_at 0 data c.
Proof. intros Ha. inversion 1; subst; try lia; [left|right]; by eapply survives_nothing. Qed.

Definition applied (writes : list (nat * list Z)) (c : list Z) : list Z := fold_left (fun c w => write_at (fst w) (snd w) c) writes c.

Lemma applied_keeps c0 writes : forall c, c0 `prefix_of` c -> behind c0 writes -> c0 `prefix_of` applied writes c.
Proof. induction writes as [|[offset data] writes IH]; intros c Hp Hb; [done|]. apply Forall_cons in Hb as [Hw Hb]. apply IH; [by apply write_at_keeps|done]. Qed.

(** ** Files under watch *)

(** A header of this many bytes reaches the disk as a whole or not at all. *)
Definition kAtomic : nat := pod_size StoreFileHeader.

(** A file before the flush, with its new records behind it, and the header that commits
    them. *)
Record Watched := MkWatched { wd_path : Path; wd_before : list Z; wd_mid : list Z; wd_header : list Z }.
Definition wd_after (F : Watched) : list Z := write_at 0 (wd_header F) (wd_mid F).

Record watchable (F : Watched) : Prop := {
  wa_mid : wd_before F `prefix_of` wd_mid F;
  wa_header : length (wd_header F) = kAtomic;
}.

(** What the file may hold: one of the two, and bytes behind it that nothing commits. *)
Definition intact (F : Watched) (c : list Z) : Prop := wd_before F `prefix_of` c \/ wd_after F `prefix_of` c.

(** The power may fail behind any of the operations. *)
Definition safe_ops (F : Watched) (ops : list DiskOp) : Prop := forall k c, crash_image kAtomic (wd_path F) (wd_before F) (take k ops) c -> intact F c.

Lemma safe_snoc F ops op : safe_ops F ops -> (forall c, crash_image kAtomic (wd_path F) (wd_before F) (ops ++ [op]) c -> intact F c) -> safe_ops F (ops ++ [op]).
Proof.
  intros Hs Hop k c. destruct (decide (k <= length ops)%nat) as [Hk|Hk]; [rewrite take_app_le by done; apply Hs|]. rewrite take_ge by (rewrite length_app; cbn; lia). apply Hop.
Qed.

Record status_of (F : Watched) (durable : list Z) (writes : list (nat * list Z)) (w : World) : Prop := {
  st_safe : safe_ops F (w_trace w);
  st_buffer : fold_left (buffer_op (wd_path F)) (w_trace w) (wd_before F, []) = (durable, writes);
  st_file : w_files w !! wd_path F = Some (applied writes durable);
}.

Lemma status_disk F durable writes w w' : w_trace w' = w_trace w -> w_files w' = w_files w -> status_of F durable writes w -> status_of F durable writes w'.
Proof. intros Ht Hf [H1 H2 H3]. constructor; by rewrite ?Ht, ?Hf. Qed.

Lemma buffer_snoc F ops op : fold_left (buffer_op (wd_path F)) (ops ++ [op]) (wd_before F, []) = buffer_op (wd_path F) (fold_left (buffer_op (wd_path F)) ops (wd_before F, [])) op.
Proof. by rewrite fold_left_app. Qed.

Definition touches (p : Path) (op : DiskOp) : Prop := match op with WriteAt q _ _ | Sync q => q = p | _ => False end.

Lemma status_elsewhere F durable writes w op q : touches q op -> q <> wd_path F -> status_of F durable writes w -> status_of F durable writes (emit op w).
Proof.
  intros Ht Hq [H1 H2 H3]. assert (Hb : forall st, buffer_op (wd_path F) st op = st) by (intros st; destruct op; cbn in *; try done; subst; by rewrite bool_decide_eq_false_2).
  constructor; cbn [emit w_trace w_files].
  - apply safe_snoc; [done|]. intros c. unfold crash_image. rewrite buffer_snoc, Hb. intros Hc. apply (H1 (length (w_trace w)) c). unfold crash_image. by rewrite firstn_all.
  - by rewrite buffer_snoc, Hb.
  - destruct op; cbn in *; try done; subst. by rewrite lookup_alter_ne.
Qed.

Lemma status_write F durable writes w offset data : status_of F durable writes w -> (forall c, survives kAtomic durable (writes ++ [(offset, data)]) c -> intact F c) -> status_of F durable (writes ++ [(offset, data)]) (emit (WriteAt (wd_path F) offset data) w).
Proof.
  intros [H1 H2 H3] Hc. constructor; cbn [emit w_trace w_files].
  - apply safe_snoc; [done|]. intros c. unfold crash_image. rewrite buffer_snoc, H2. cbn [buffer_op fst snd]. rewrite bool_decide_eq_true_2 by done. apply Hc.
  - rewrite buffer_snoc, H2. cbn [buffer_op fst snd]. by rewrite bool_decide_eq_true_2.
  - cbn [apply_op]. rewrite lookup_alter_eq, H3. cbn. unfold applied. by rewrite fold_left_app.
Qed.

Lemma status_sync F durable writes w : status_of F durable writes w -> intact F (applied writes durable) -> status_of F (applied writes durable) [] (emit (Sync (wd_path F)) w).
Proof.
  intros [H1 H2 H3] Hc. constructor; cbn [emit w_trace w_files].
  - apply safe_snoc; [done|]. intros c. unfold crash_image. rewrite buffer_snoc, H2. cbn [buffer_op fst snd]. rewrite bool_decide_eq_true_2 by done. by intros ->%survives_nothing.
  - rewrite buffer_snoc, H2. cbn [buffer_op fst snd]. by rewrite bool_decide_eq_true_2.
  - done.
Qed.

(** ** The stages of a commit *)

Inductive Stage := Growing | Synced | Headed | Committed.

Definition at_stage (F : Watched) (s : Stage) (w : World) : Prop :=
  match s with
  | Growing => exists writes, status_of F (wd_before F) writes w /\ behind (wd_before F) writes
  | Synced => status_of F (wd_mid F) [] w
  | Headed => status_of F (wd_mid F) [(0%nat, wd_header F)] w
  | Committed => status_of F (wd_after F) [] w
  end.

Lemma stage_safe F s w : at_stage F s w -> safe_ops F (w_trace w).
Proof. destruct s; cbn; [intros (ws & H & _)|intros H..]; by apply H. Qed.

Lemma stage_disk F s w w' : w_trace w' = w_trace w -> w_files w' = w_files w -> at_stage F s w -> at_stage F s w'.
Proof. intros Ht Hf. destruct s; cbn; [intros (ws & H & Hb); exists ws; split; [|done]; revert H|..]; by apply status_disk. Qed.

Lemma stage_elsewhere F s w op q : touches q op -> q <> wd_path F -> at_stage F s w -> at_stage F s (emit op w).
Proof. intros Ht Hq. destruct s; cbn; [intros (ws & H & Hb); exists ws; split; [|done]; revert H|..]; by eapply status_elsewhere. Qed.

Lemma grow F w offset data : at_stage F Growing w -> (length (wd_before F) <= offset)%nat -> at_stage F Growing (emit (WriteAt (wd_path F) offset data) w).
Proof.
  intros (ws & H & Hb) Ho. exists (ws ++ [(offset, data)]). assert (Hb' : behind (wd_before F) (ws ++ [(offset, data)])) by (apply Forall_app; split; [done|by constructor]).
  split; [|done]. apply status_write; [done|]. intros c Hc. left. by eapply survives_behind.
Qed.

Lemma grown_sync F w : watchable F -> at_stage F Growing w -> w_files w !! wd_path F = Some (wd_mid F) -> at_stage F Synced (emit (Sync (wd_path F)) w).
Proof.
  intros [Hm _] (ws & H & Hb) Hf. pose proof (st_file _ _ _ _ H) as E. rewrite Hf in E. injection E as E. cbn. rewrite E. apply status_sync; [done|]. rewrite <- E. by left.
Qed.

Lemma synced_head F w : watchable F -> at_stage F Synced w -> at_stage F Headed (emit (WriteAt (wd_path F) 0 (wd_header F)) w).
Proof.
  intros [Hm _] H. apply (status_write F (wd_mid F) [] w 0 (wd_header F) H). intros c [->| ->]%survives_header; [by left|by right|apply Nat.ltb_lt; reflexivity].
Qed.

Lemma headed_sync F w : at_stage F Headed w -> at_stage F Committed (emit (Sync (wd_path F)) w).
Proof. intros H. apply (status_sync F (wd_mid F) [(0%nat, wd_header F)] w H). by right. Qed.

(** ** Calls under any script *)

(** A call that writes part of what it is given writes at least a header. *)
Definition whole (o : Outcome) : Prop := match o with Partial n => n = 0%nat \/ (kAtomic <= n)%nat | _ => True end.

Lemma attempt_any w w' b : attempt w = (w', b) -> w_trace w' = w_trace w /\ w_files w' = w_files w /\ (Forall whole (w_script w) -> Forall whole (w_script w')).
Proof. unfold attempt. destruct (w_script w) as [|[| | |] s] eqn:E; intros [= <- <-]; cbn; (split; [done|]; split; [done|]); rewrite ?E; try done; by intros [_ H]%Forall_cons. Qed.

(** What every single write keeps is kept by the loop. *)
Lemma write_loop_keeps (I : World -> Prop) p (start : nat) : (forall w w', w_trace w' = w_trace w -> w_files w' = w_files w -> I w -> I w') -> (forall w offset data, (start <= offset)%nat -> I w -> I (emit (WriteAt p offset data) w)) ->
  forall s offset data w w' b, write_loop s p offset data w = (w', b) -> (start <= offset)%nat -> I w -> I w' /\ (Forall whole s -> Forall whole (w_script w')).
Proof.
  intros Hd He. induction s as [|o s IH]; intros offset data w w' b.
  - destruct data as [|x data]; cbn; intros [= <- <-] Ho HI; (split; [|done]); [by apply (Hd w)|]. apply He; [done|]. by apply (Hd w).
  - destruct data as [|x data]; [cbn; intros [= <- <-] Ho HI; split; [by apply (Hd w)|done]|]. set (d := x :: data). cbn [write_loop]. fold d. change (match d with [] => (with_script (o :: s) w, true) | _ :: _ => ?r end) with r.
    destruct o as [|[|n]| |text].
    + intros [= <- <-] Ho HI. split; [apply He; [done|by apply (Hd w)]|]. by intros [_ H]%Forall_cons.
    + intros [= <- <-] Ho HI. split; [by apply (Hd w)|]. by intros [_ H]%Forall_cons.
    + cbv zeta. intros E Ho HI. eapply IH in E as [E1 E2]; [|lia|by apply He]. split; [done|]. intros [_ H]%Forall_cons. by apply E2.
    + intros E Ho HI. eapply IH in E as [E1 E2]; [|done|done]. split; [done|]. intros [_ H]%Forall_cons. by apply E2.
    + intros [= <- <-] Ho HI. split; [by apply (Hd w)|]. by intros [_ H]%Forall_cons.
Qed.

(** A header is written by one call or not at all. *)
Lemma write_loop_once p offset data : data <> [] -> (length data <= kAtomic)%nat -> forall s w w' b, write_loop s p offset data w = (w', b) -> Forall whole s ->
  Forall whole (w_script w') /\ (if b then w_trace w' = w_trace w ++ [WriteAt p offset data] /\ w_files w' = apply_op (WriteAt p offset data) (w_files w) else w_trace w' = w_trace w /\ w_files w' = w_files w).
Proof.
  intros Hne Hl. destruct data as [|x data]; [done|]. set (d := x :: data) in *. induction s as [|o s IH]; intros w w' b; [cbn; intros [= <- <-] _; done|]. cbn [write_loop]. fold d. change (match d with [] => (with_script (o :: s) w, true) | _ :: _ => ?r end) with r.
  intros E [Ho Hs]%Forall_cons. destruct o as [|[|n]| |text].
  - injection E as <- <-. done.
  - injection E as <- <-. done.
  - cbv zeta in E. destruct Ho as [?|Ho]; [done|]. rewrite take_ge in E by lia. rewrite drop_ge in E by lia. destruct s; cbn [write_loop] in E; injection E as <- <-; done.
  - by apply IH.
  - injection E as <- <-. done.
Qed.

(** What a write does when it succeeds does not depend on the script. *)
Lemma write_parts_one p l : forall offset (f : Files), fold_left (fun f x => alter (write_at (fst x) (snd x)) p f) (parts offset l) f = match l with [] => f | _ => alter (write_at offset (concat l)) p f end.
Proof.
  induction l as [|d l IH]; intros offset f; [done|]. cbn [parts fold_left fst snd]. rewrite IH. cbn [concat]. destruct l as [|d' l]; [cbn; by rewrite app_nil_r|]. apply map_eq. intros k. destruct (decide (k = p)) as [->|Hk]; [|by rewrite !lookup_alter_ne by done]. rewrite !lookup_alter_eq. destruct (f !! p); [|done]. cbn. f_equal. apply write_at_app.
Qed.

Lemma slice_add (l : list Z) offset a b : slice l offset (a + b) = slice l offset a ++ slice l (offset + a) b.
Proof. unfold slice. by rewrite <- take_take_drop, drop_drop. Qed.

Lemma read_loop_any bytes : forall s offset size w w' r, read_loop s bytes offset size w = (w', r) -> w_trace w' = w_trace w /\ w_files w' = w_files w /\ (Forall whole s -> Forall whole (w_script w')) /\ (forall data, r = Some data -> data = slice bytes offset size).
Proof.
  induction s as [|o s IH]; intros offset size w w' r.
  - destruct size as [|size]; [cbn; intros [= <- <-]; split_and!; try done; by intros ? [= <-]|]. cbn [read_loop]. intros [= <- <-]. split_and!; try done. intros data. destruct (_ =? _)%nat; [by intros [= <-]|done].
  - destruct size as [|size]; [cbn; intros [= <- <-]; split_and!; try done; by intros ? [= <-]|]. cbn [read_loop]. set (chunk := slice bytes offset (S size)).
    assert (Hagain : forall n, match take n chunk with [] => (with_script s w, None) | part => let '(w1, rest) := read_loop s bytes (offset + length part) (S size - length part) w in (w1, app part <$> rest) end = (w', r) -> w_trace w' = w_trace w /\ w_files w' = w_files w /\ (Forall whole s -> Forall whole (w_script w')) /\ (forall data, r = Some data -> data = chunk)).
    { intros n. destruct (take n chunk) as [|y part'] eqn:Ep; [intros [= <- <-]; done|]. set (part := y :: part') in *. cbv zeta. destruct (read_loop s bytes (offset + length part) (S size - length part) w) as [w1 rest] eqn:E. intros [= <- <-]. apply IH in E as (E1 & E2 & E3 & E4). split_and!; try done. intros data Hd. destruct rest as [rest|]; [|done]. injection Hd as <-. rewrite (E4 rest eq_refl).
      assert (Hlen : (length part <= S size)%nat) by (rewrite <- Ep; unfold chunk, slice; rewrite !length_take; lia). assert (Hpart : part = take (length part) chunk) by (rewrite <- Ep, length_take; destruct (decide (n <= length chunk)%nat); [by rewrite Nat.min_l by lia|by rewrite Nat.min_r, !take_ge by lia]).
      assert (Hc : chunk = slice bytes offset (length part) ++ slice bytes (offset + length part) (S size - length part)) by (unfold chunk; rewrite <- slice_add; f_equal; lia). rewrite Hc. transitivity (part ++ slice bytes (offset + length part) (S size - length part)); [done|]. clearbody part. f_equal. etrans; [exact Hpart|]. unfold chunk, slice. rewrite take_take. f_equal. lia. }
    intros E. destruct o as [|n| |text]; cbv zeta in E.
    + apply Hagain in E as (E1 & E2 & E3 & E4). split_and!; try done. by intros [_ H]%Forall_cons; apply E3.
    + apply Hagain in E as (E1 & E2 & E3 & E4). split_and!; try done. by intros [_ H]%Forall_cons; apply E3.
    + apply IH in E as (E1 & E2 & E3 & E4). split_and!; try done. by intros [_ H]%Forall_cons; apply E3.
    + injection E as <- <-. split_and!; try done. by intros [_ H]%Forall_cons.
Qed.

(** ** Programs that are safe whatever the calls do *)

Section Guarded.
Context (Safe : World -> Prop).

(** Whatever happens, [Safe] holds; when nothing fails, [Q] holds. *)
Definition guarded {A X} (m : SE (World * A) X) (P : World -> A -> Prop) (Q : X -> World -> A -> Prop) : Prop :=
  forall w a, P w a -> match m (w, a) with ((w', a'), Value x) => Q x w' a' | ((w', _), Error _) => Safe w' end.

Lemma guarded_bind {A X Y} (m : SE (World * A) X) (k : X -> SE (World * A) Y) P R Q : guarded m P R -> (forall x, guarded (k x) (R x) Q) -> guarded (bind m k) P Q.
Proof. intros Hm Hk w a Hp. specialize (Hm w a Hp). unfold bind. destruct (m (w, a)) as [[w1 a1] [x|e]]; [by apply Hk|done]. Qed.

Lemma guarded_get {A Y} (k : World * A -> SE (World * A) Y) P Q : (forall s, guarded (k s) (fun w a => s = (w, a) /\ P w a) Q) -> guarded (bind get k) P Q.
Proof. intros Hk w a Hp. by apply (Hk (w, a) w a). Qed.

Lemma guarded_weaken {A X} (m : SE (World * A) X) (P P' : World -> A -> Prop) Q : guarded m P' Q -> (forall w a, P w a -> P' w a) -> guarded m P Q.
Proof. intros Hm Hp w a H. by apply Hm, Hp. Qed.

(** What the precondition says anyway. *)
Lemma guarded_assume (phi : Prop) {A X} (m : SE (World * A) X) P Q : (forall w a, P w a -> phi) -> (phi -> guarded m P Q) -> guarded m P Q.
Proof. intros Hphi Hm w a Hp. exact (Hm (Hphi w a Hp) w a Hp). Qed.

Lemma guarded_ret {A X} (x : X) (P : World -> A -> Prop) : guarded (ret x) P (fun _ => P).
Proof. by intros w a Hp. Qed.

Lemma guarded_end {A X} (m : SE (World * A) X) P w a : guarded m P (fun _ w _ => Safe w) -> P w a -> Safe (fst (fst (m (w, a)))).
Proof. intros Hm Hp. specialize (Hm w a Hp). by destruct (m (w, a)) as [[w1 a1] [x|e]]. Qed.
End Guarded.

(** ** All the files *)

Section Watch.
Context (T : list Watched) (HT : Forall watchable T) (Hpaths : NoDup (map wd_path T)).

Lemma same_path F G : F ∈ T -> G ∈ T -> wd_path F = wd_path G -> F = G.
Proof.
  intros [a HF]%list_elem_of_lookup [b HG]%list_elem_of_lookup E. assert (a = b) as -> by (eapply (NoDup_lookup (map wd_path T)); [exact Hpaths|rewrite list_lookup_fmap, HF; reflexivity|rewrite list_lookup_fmap, HG, E; reflexivity]). congruence.
Qed.

Definition set_stage (stages : Path -> Stage) (p : Path) (s : Stage) : Path -> Stage := fun q => if decide (q = p) then s else stages q.

Record staged (stages : Path -> Stage) (w : World) : Prop := {
  sd_script : Forall whole (w_script w);
  sd_all : forall F, F ∈ T -> at_stage F (stages (wd_path F)) w;
}.

Definition secure (w : World) : Prop := forall F, F ∈ T -> safe_ops F (w_trace w).

Lemma staged_secure stages w : staged stages w -> secure w.
Proof. intros [_ H] F HF. by eapply stage_safe, H. Qed.

Lemma staged_disk stages w w' : w_trace w' = w_trace w -> w_files w' = w_files w -> Forall whole (w_script w') -> staged stages w -> staged stages w'.
Proof. intros Ht Hf Hs [_ H]. constructor; [done|]. intros F HF. eapply stage_disk; [done|done|by apply H]. Qed.

Lemma staged_op stages w op F s : F ∈ T -> touches (wd_path F) op -> at_stage F s (emit op w) -> staged stages w -> staged (set_stage stages (wd_path F) s) (emit op w).
Proof.
  intros HF Ht Hs [H1 H2]. constructor; [done|]. intros G HG. unfold set_stage. destruct (decide (wd_path G = wd_path F)) as [E|E].
  - by rewrite (same_path G F HG HF E).
  - eapply stage_elsewhere; [exact Ht|congruence|by apply H2].
Qed.

Definition all_growing : Path -> Stage := fun _ => Growing.

Lemma grow_write F w data offset w' b : F ∈ T -> WriteExact (Some (wd_path F)) data offset w = (w', b) -> (length (wd_before F) <= Z.to_nat offset)%nat -> staged all_growing w -> staged all_growing w'.
Proof.
  intros HF E Ho [H1 H2]. edestruct (write_loop_keeps (fun w => forall G, G ∈ T -> at_stage G Growing w) (wd_path F) (length (wd_before F))) as [K1 K2]; [| |exact E|exact Ho|exact H2|].
  - intros w1 w2 Ht Hf H G HG. eapply stage_disk; [done|done|by apply H].
  - intros w1 off d Hle H G HG. destruct (decide (wd_path G = wd_path F)) as [E'|E']; [rewrite (same_path G F HG HF E'); apply grow; [by apply H|done]|]. eapply stage_elsewhere; [done|congruence|by apply H].
  - constructor; [by apply K2|exact K1].
Qed.

Lemma guarded_sync (stages : Path -> Stage) (F : Watched) (s : Stage) (wrote : bool) (P : Files -> Impl -> Prop) : F ∈ T -> (wrote = true -> forall w a, staged stages w -> P (w_files w) a -> at_stage F s (emit (Sync (wd_path F)) w)) ->
  guarded secure (disk (sync_if wrote (Some (wd_path F)))) (fun w a => staged stages w /\ P (w_files w) a) (fun _ w a => staged (if wrote then set_stage stages (wd_path F) s else stages) w /\ P (w_files w) a).
Proof.
  intros HF Hs w a [Hst HP]. unfold disk, sync_if. destruct wrote; [|done]. cbn [fst snd]. unfold SyncDataFile, bind, os, fdatasync, call. destruct (attempt w) as [w1 b] eqn:E. apply attempt_any in E as (E1 & E2 & E3). assert (Hst1 : staged stages w1) by (eapply staged_disk; [done|done|apply E3, Hst|exact Hst]).
  destruct b; cbn; [|by eapply staged_secure]. rewrite E2. split; [|done]. eapply staged_op; [done|done|eapply Hs; [done|done|by rewrite E2]|done].
Qed.

Lemma stage_set (b : bool) stages p s r : (if b then set_stage stages p s else stages) r = if b && bool_decide (r = p) then s else stages r.
Proof. destruct b; [|done]. unfold set_stage. by destruct (decide (r = p)); [rewrite bool_decide_eq_true_2|rewrite bool_decide_eq_false_2]. Qed.

Lemma guarded_commit root stages F (wrote : bool) p h size what (P : Impl -> Prop) : F ∈ T -> p = wd_path F -> pod_bytes (with_file_size size h) = wd_header F -> (wrote = true -> stages p = Synced) ->
  guarded secure (disk (commit_header root wrote (Some p) p h size what)) (fun w a => staged stages w /\ P a) (fun _ w a => staged (if wrote then set_stage stages p Headed else stages) w /\ P a).
Proof.
  intros HF -> Hh Hs w a [Hst HP]. unfold disk, commit_header. destruct wrote; [|done]. specialize (Hs eq_refl). cbn [fst snd]. unfold SyncFileHeader, bind, os, WriteExact. rewrite Hh. destruct (write_loop _ _ _ _ w) as [w1 b] eqn:E.
  assert (HWF : watchable F) by (rewrite Forall_forall in HT; by apply HT). pose proof (wa_header F HWF) as Hl. assert (Hne : wd_header F <> []) by (intros E0; rewrite E0 in Hl; by vm_compute in Hl).
  destruct (write_loop_once _ _ _ Hne ltac:(rewrite Hl; done) _ _ _ _ E (sd_script _ _ Hst)) as [Hsc Hb]. destruct b; destruct Hb as [Ht Hf]; cbn.
  - split; [|done]. eapply (staged_disk _ (emit (WriteAt (wd_path F) (Z.to_nat 0) (wd_header F)) w)); [done|done|done|]. eapply staged_op; [done|done| |done]. rewrite Z2Nat.inj_0. apply synced_head; [done|]. rewrite <- Hs. by apply (sd_all _ _ Hst).
  - eapply staged_secure, staged_disk; [done|done|done|exact Hst].
Qed.

Context (root : string) (home : bool) (FL FI FR : Watched) (HL : FL ∈ T) (HI : FI ∈ T) (HR : FR ∈ T).

(** The object appends behind what the files had. *)
Record ready (i : Impl) : Prop := {
  rd_log : sg_log_fd (im_active_segment i) = Some (wd_path FL);
  rd_index : sg_index_fd (im_active_segment i) = Some (wd_path FI);
  rd_recovery : im_recovery_fd i = Some (wd_path FR);
  rd_log_size : Z.of_nat (length (wd_before FL)) <= sg_log_size (im_active_segment i);
  rd_index_size : Z.of_nat (length (wd_before FI)) <= sg_index_size (im_active_segment i);
  rd_recovery_size : Z.of_nat (length (wd_before FR)) <= im_recovery_size i;
}.
Definition growing (w : World) (i : Impl) : Prop := staged all_growing w /\ ready i.

Lemma guarded_recovery e : guarded secure (flush_recovery root home e) growing (fun _ => growing).
Proof.
  intros w i [Hst [R1 R2 R3 R4 R5 R6]]. unfold flush_recovery, bind, get, disk, os. cbn [fst snd]. rewrite R3. destruct (WriteExact _ _ _ w) as [w1 b] eqn:E. apply (grow_write FR) in E; [|done|lia|done]. destruct b; cbn; [|by eapply staged_secure]. split; [done|]. constructor; try done. cbn. unfold kRecoveryRecordSize. lia.
Qed.

Lemma guarded_index e log_offset : guarded secure (flush_index root e log_offset) growing (fun _ => growing).
Proof.
  intros w i [Hst [R1 R2 R3 R4 R5 R6]]. unfold flush_index, bind, get, disk, os. cbn [fst snd]. rewrite R2. destruct (WriteExact _ _ _ w) as [w1 b] eqn:E. apply (grow_write FI) in E; [|done|lia|done]. destruct b; cbn; [|by eapply staged_secure]. split; [done|]. constructor; try done. cbn. unfold kIndexEntrySize. lia.
Qed.

Lemma guarded_message e : 0 <= pe_payload_size e -> guarded secure (flush_message root e) growing (fun _ => growing).
Proof.
  intros Hsz w i [Hst [R1 R2 R3 R4 R5 R6]]. unfold flush_message, bind at 1, get at 1. cbn [fst snd]. rewrite R1. unfold bind at 1, disk at 1, os at 1. cbn [fst snd]. destruct (WriteExact _ (pod_bytes (record_header e)) _ w) as [w1 b] eqn:E. apply (grow_write FL) in E; [|done|lia|done]. destruct b; cbn [negb]; [|by eapply staged_secure].
  unfold bind at 1, disk at 1, os at 1. cbn [fst snd]. destruct (WriteExact _ _ _ w1) as [w2 b] eqn:E2. apply (grow_write FL) in E2; [|done|unfold kRecordHeaderSize; lia|done]. destruct b; cbn [negb]; [|by eapply staged_secure]. unfold bind at 1, private at 1, modify at 1. cbn [fst snd].
  assert (Hg : growing w2 (with_active (grow_log (kRecordHeaderSize + pe_payload_size e) (im_active_segment i)) i)) by (split; [done|]; constructor; try done; cbn; unfold kRecordHeaderSize; lia). destruct (is_outbound e); [by apply guarded_index|exact Hg].
Qed.

Lemma guarded_entries l : Forall (fun e => 0 <= pe_payload_size e) l -> guarded secure (flush_entries root home l) growing (fun _ => growing).
Proof.
  induction 1 as [|e l He _ IH]; [by intros w i H|]. cbn [flush_entries]. eapply guarded_bind; [|intros x; exact IH]. destruct (is_recovery e); [apply guarded_recovery|by apply guarded_message].
Qed.
End Watch.

(** ** A run that succeeds does what the calm run does *)

Definition steady {A X} (m : SE (World * A) X) : Prop := forall w v a w' a' x, m (w, a) = ((w', a'), Value x) -> w_files v = w_files w -> w_script v = [] -> exists v', m (v, a) = ((v', a'), Value x) /\ w_files v' = w_files w' /\ w_script v' = [].

Lemma steady_ret {A X} (x : X) : steady (A := A) (ret x).
Proof. intros w v a w' a' y [= <- <- <-] Hf Hs. by exists v. Qed.

Lemma steady_private {A} (g : A -> A) : steady (private g).
Proof. intros w v a w' a' y [= <- <- <-] Hf Hs. by exists v. Qed.

Lemma steady_bind {A X Y} (m : SE (World * A) X) (k : X -> SE (World * A) Y) : steady m -> (forall x, steady (k x)) -> steady (bind m k).
Proof.
  intros Hm Hk w v a w' a' y. unfold bind. destruct (m (w, a)) as [[w1 a1] [x|e]] eqn:E; [|done]. intros E2 Hf Hs. destruct (Hm _ v _ _ _ _ E Hf Hs) as (v1 & -> & Hf1 & Hs1). by eapply Hk.
Qed.

Lemma steady_get {A Y} (k : World * A -> SE (World * A) Y) : (forall w v a, k (w, a) = k (v, a)) -> (forall s, steady (k s)) -> steady (bind get k).
Proof. intros He Hk w v a w' a' y E Hf Hs. unfold bind, get in *. rewrite (He w v a) in E. by eapply Hk. Qed.

Lemma steady_write {A X} root f data offset p text (k : SE (World * A) X) : steady k -> steady (written <- disk (os (WriteExact f data offset)) ;; if negb written then disk (io_error root p text) else k).
Proof.
  intros Hk w v a w' a' x. unfold bind, disk, os. cbn [fst snd]. destruct f as [q|]; cbn [WriteExact].
  - destruct (write_loop (w_script w) q (Z.to_nat offset) data w) as [w1 b] eqn:E. destruct b; [|done]. cbn [negb]. intros E2 Hf Hs. apply write_loop_parts in E as (l & rest & Hd & Hr & Hnz & _ & Hfw). rewrite (Hr eq_refl), app_nil_r in Hd. subst data. rewrite write_parts_one in Hfw.
    destruct (write_calm q (Z.to_nat offset) (concat l) v Hs) as (v1 & -> & Hs1 & Hfv). apply (Hk w1 v1 a w' a' x E2); [|done]. rewrite Hfv, Hfw, Hf. destruct l as [|d l]; [done|]. apply Forall_cons in Hnz as [Hd _]. by destruct d.
  - destruct data as [|y data]; cbn [negb]; [|done]. intros E2 Hf Hs. by apply (Hk w v a w' a' x).
Qed.

Lemma steady_entries root home l : steady (flush_entries root home l).
Proof.
  induction l as [|e l IH]; [apply steady_ret|]. cbn [flush_entries]. apply steady_bind; [|intros x; exact IH]. destruct (is_recovery e).
  - apply steady_get; [done|]. intros s. apply steady_write, steady_private.
  - apply steady_get; [done|]. intros s. apply steady_write, steady_write, steady_bind; [apply steady_private|]. intros x. destruct (is_outbound e); [|apply steady_ret]. apply steady_get; [done|]. intros s'. apply steady_write, steady_private.
Qed.

Lemma steady_yields {A X} (m : SE (World * A) X) f a f' a' x w w' a1 y : steady m -> yields m f a f' a' x -> m (w, a) = ((w', a1), Value y) -> w_files w = f -> w_files w' = f' /\ a1 = a' /\ y = x.
Proof.
  intros Hm Hy E Hf. destruct (Hm w (fresh_world f) a w' a1 y E ltac:(done) eq_refl) as (v & Ev & Hfv & _). destruct (Hy (fresh_world f)) as (v' & Ev' & [Hr _]); [done|]. rewrite Ev in Ev'. injection Ev' as <- <- <-. by rewrite <- Hfv.
Qed.

Lemma read_header_any root p magic id size body what w w' h : magic ∈ kMagics -> in_u64 id -> in_u64 size -> w_files w !! p = Some (raw_file magic id size body) -> read_header root (Some p) p what w = (w', h) ->
  w_trace w' = w_trace w /\ w_files w' = w_files w /\ (Forall whole (w_script w) -> Forall whole (w_script w')) /\ (forall x, h = Value x -> x = file_header magic id size).
Proof.
  intros Hm Hi Hs Hp. unfold read_header, bind, os, ReadExact. change (9223372036854775808 <=? 0) with false. cbv iota. assert (Hc : content w p = raw_file magic id size body) by (unfold content; by rewrite Hp). rewrite Hc. destruct (read_loop _ _ _ _ w) as [w1 r] eqn:E. apply read_loop_any in E as (E1 & E2 & E3 & E4). destruct r as [data|]; intros [= <- <-]; split_and!; try done. intros x [= <-]. rewrite (E4 data eq_refl), Z2Nat.inj_0.
  assert (E : slice (raw_file magic id size body) 0 (pod_size StoreFileHeader) = pod_bytes (file_header magic id size)) by (unfold slice, raw_file; rewrite drop_0; apply take_app_length'; by rewrite length_pod_bytes). rewrite E. exact (pod_read_alone (file_header magic id size) (file_header_fits _ _ _ Hm Hi Hs)).
Qed.

Lemma head_raw magic id old size body : write_at 0 (pod_bytes (file_header magic id size)) (raw_file magic id old body) = raw_file magic id size body.
Proof. rewrite write_at_start. unfold raw_file at 1. rewrite length_pod_bytes, <- (length_pod_bytes (file_header magic id old)), drop_app_length. done. Qed.

Lemma with_size magic id a b : with_file_size b (file_header magic id a) = file_header magic id b.
Proof. reflexivity. Qed.

Lemma sizes_nonneg l : forall offset, Forall (fun e => 0 <= pe_payload_size e) (queue_entries offset l).
Proof. induction l as [|e l IH]; intros offset; constructor; [|apply IH]. destruct e; cbn; unfold payload_size; lia. Qed.

(** ** Flush *)

Section Flush.
Context (root : string) (options : DurableBatchStoreOptions) (tm_gmtoff : Z) (home : bool).
Context (d : Ideal) (q : list Entry) (f : Files) (i : Impl).
Context (Hd : sound d) (Hd' : sound (push_all d q)) (Hs : stored home d f) (Ho : opened home d i) (Hq : queued q i).

Let d' : Ideal := push_all d q.

Definition watched_log : Watched := MkWatched (active_log home) (store_file kLogMagic (active_id d) (log_body (sd_active d))) (raw_file kLogMagic (active_id d) (log_end (sd_active d)) (log_body (sd_active d'))) (pod_bytes (file_header kLogMagic (active_id d) (log_end (sd_active d')))).
Definition watched_index : Watched := MkWatched (active_index home) (store_file kIndexMagic (active_id d) (index_body (sd_active d))) (raw_file kIndexMagic (active_id d) (body_size (index_body (sd_active d))) (index_body (sd_active d'))) (pod_bytes (file_header kIndexMagic (active_id d) (body_size (index_body (sd_active d'))))).
Definition watched_recovery : Watched := MkWatched (recovery_log home) (store_file kRecoveryMagic 0 (states_body (sd_states d))) (raw_file kRecoveryMagic 0 (body_size (states_body (sd_states d))) (states_body (sd_states d'))) (pod_bytes (file_header kRecoveryMagic 0 (body_size (states_body (sd_states d'))))).
Definition watched : list Watched := [watched_log; watched_index; watched_recovery].

Lemma push_all_appends : exists l, sd_active d' = sd_active d ++ l /\ sd_archived d' = sd_archived d /\ exists r, sd_states d' = sd_states d ++ r.
Proof.
  destruct (push_all_spec q d) as (E1 & E2 & E3). fold d' in E1, E2, E3. exists (msgs_of q). split; [|split; [done|by exists (states_of q)]]. unfold all_msgs in E1. rewrite E3, <- app_assoc in E1. by apply app_inv_head in E1.
Qed.

Lemma watched_watchable : Forall watchable watched.
Proof.
  destruct push_all_appends as (l & El & _ & r & Er). repeat constructor; cbn [watched_log watched_index watched_recovery wd_before wd_mid wd_header]; try apply length_pod_bytes; apply prefix_app.
  - rewrite El, log_body_app. by eexists.
  - rewrite El. unfold index_body. rewrite index_entries_app, serialize_app. by eexists.
  - rewrite Er. unfold states_body. rewrite map_app, serialize_app. by eexists.
Qed.

Lemma watched_paths : NoDup (map wd_path watched).
Proof. cbn. repeat (apply NoDup_cons; split; [set_solver|]). apply NoDup_nil_2. Qed.

Lemma watched_log_in : watched_log ∈ watched.
Proof. unfold watched. rewrite !elem_of_cons. tauto. Qed.
Lemma watched_index_in : watched_index ∈ watched.
Proof. unfold watched. rewrite !elem_of_cons. tauto. Qed.
Lemma watched_recovery_in : watched_recovery ∈ watched.
Proof. unfold watched. rewrite !elem_of_cons. tauto. Qed.

Ltac stage_at Hwrote := cbn [wd_path watched_log watched_index watched_recovery]; rewrite !stage_set; repeat match goal with E : bool_decide _ = _ |- _ => rewrite E; clear E end; rewrite ?Hwrote, ?andb_false_r; reflexivity.

(** The second half of a flush: the data is synchronised, the headers are written, the
    headers are synchronised. *)
Lemma commit_guarded (wl wi wr : bool) f1 i1 (what1 what2 what3 : string) sl si sr : f1 !! active_log home = Some (wd_mid watched_log) -> f1 !! active_index home = Some (wd_mid watched_index) -> f1 !! recovery_log home = Some (wd_mid watched_recovery) ->
  sl = log_end (sd_active d') -> si = body_size (index_body (sd_active d')) -> sr = body_size (states_body (sd_states d')) ->
  guarded (secure watched) (disk (sync_if wl (Some (active_log home))) ;;; disk (sync_if wi (Some (active_index home))) ;;; disk (sync_if wr (Some (recovery_log home))) ;;;
    disk (commit_header root wl (Some (active_log home)) (active_log home) (file_header kLogMagic (active_id d) (log_end (sd_active d))) sl what1) ;;;
    disk (commit_header root wi (Some (active_index home)) (active_index home) (file_header kIndexMagic (active_id d) (body_size (index_body (sd_active d)))) si what2) ;;;
    disk (commit_header root wr (Some (recovery_log home)) (recovery_log home) (file_header kRecoveryMagic 0 (body_size (states_body (sd_states d)))) sr what3) ;;;
    disk (sync_if wl (Some (active_log home))) ;;; disk (sync_if wi (Some (active_index home))) ;;; disk (sync_if wr (Some (recovery_log home))) ;;; private (with_pending [] []))
    (fun w a => staged watched all_growing w /\ w_files w = f1 /\ a = i1) (fun _ w _ => secure watched w).
Proof.
  intros F1 F2 F3 -> -> ->. pose proof watched_paths as Hnd. pose proof watched_watchable as Hwa. pose proof watched_log_in as IL. pose proof watched_index_in as II. pose proof watched_recovery_in as IR. pose proof (proj1 (Forall_forall _ _) Hwa) as Hw1.
  assert (N1 : active_log home <> active_index home) by done. assert (N2 : active_log home <> recovery_log home) by done. assert (N3 : active_index home <> recovery_log home) by done.
  assert (Hgrown : forall F stages, F ∈ watched -> stages (wd_path F) = Growing -> f1 !! wd_path F = Some (wd_mid F) -> forall w a, staged watched stages w -> (w_files w = f1 /\ a = i1) -> at_stage F Synced (emit (Sync (wd_path F)) w)).
  { intros F stages HF Hg Hf w a Hst [Hfw _]. apply grown_sync; [by apply Hw1| |by rewrite Hfw]. rewrite <- Hg. by apply (sd_all _ _ _ Hst). }
  assert (Hheaded : forall F stages, F ∈ watched -> stages (wd_path F) = Headed -> forall w (a : Impl), staged watched stages w -> True -> at_stage F Committed (emit (Sync (wd_path F)) w)).
  { intros F stages HF Hg w a Hst _. apply headed_sync. rewrite <- Hg. by apply (sd_all _ _ _ Hst). }
  eapply guarded_bind; [apply (guarded_sync watched Hnd all_growing watched_log Synced wl (fun f0 a => f0 = f1 /\ a = i1) IL); intros _; by eapply Hgrown|]. intros [].
  eapply guarded_bind; [apply (guarded_sync watched Hnd _ watched_index Synced wi (fun f0 a => f0 = f1 /\ a = i1) II); intros _; eapply Hgrown; [done|rewrite stage_set, bool_decide_eq_false_2 by done; by rewrite andb_false_r|done]|]. intros [].
  eapply guarded_bind; [apply (guarded_sync watched Hnd _ watched_recovery Synced wr (fun f0 a => f0 = f1 /\ a = i1) IR); intros _; eapply Hgrown; [done|rewrite !stage_set, !bool_decide_eq_false_2 by done; by rewrite !andb_false_r|done]|]. intros [].
  assert (B : forall p r : Path, p <> r -> bool_decide (p = r) = false /\ bool_decide (r = p) = false) by (intros p r Hpr; split; apply bool_decide_eq_false_2; congruence).
  destruct (B _ _ N1) as [L1 L2]. destruct (B _ _ N2) as [L3 L4]. destruct (B _ _ N3) as [L5 L6]. assert (T1 := bool_decide_eq_true_2 (active_log home = active_log home) eq_refl). assert (T2 := bool_decide_eq_true_2 (active_index home = active_index home) eq_refl). assert (T3 := bool_decide_eq_true_2 (recovery_log home = recovery_log home) eq_refl).
  eapply guarded_bind; [eapply guarded_weaken; [|intros w a [Hst _]; exact (conj Hst I)]; eapply (guarded_commit watched Hwa Hnd root _ watched_log wl _ _ _ _ (fun _ => True) IL); [reflexivity|apply (f_equal pod_bytes), with_size|]; intros Hwrote; stage_at Hwrote|]. intros [].
  eapply guarded_bind; [eapply (guarded_commit watched Hwa Hnd root _ watched_index wi _ _ _ _ (fun _ => True) II); [reflexivity|apply (f_equal pod_bytes), with_size|]; intros Hwrote; stage_at Hwrote|]. intros [].
  eapply guarded_bind; [eapply (guarded_commit watched Hwa Hnd root _ watched_recovery wr _ _ _ _ (fun _ => True) IR); [reflexivity|apply (f_equal pod_bytes), with_size|]; intros Hwrote; stage_at Hwrote|]. intros [].
  eapply guarded_bind; [eapply (guarded_sync watched Hnd _ watched_log Committed wl (fun _ _ => True) IL); intros Hwrote; eapply Hheaded; [done|stage_at Hwrote]|]. intros [].
  eapply guarded_bind; [eapply (guarded_sync watched Hnd _ watched_index Committed wi (fun _ _ => True) II); intros Hwrote; eapply Hheaded; [done|stage_at Hwrote]|]. intros [].
  eapply guarded_bind; [eapply (guarded_sync watched Hnd _ watched_recovery Committed wr (fun _ _ => True) IR); intros Hwrote; eapply Hheaded; [done|stage_at Hwrote]|]. intros [].
  intros w a [Hst _]. by eapply staged_secure.
Qed.

Lemma start_staged w : w_files w = f -> w_trace w = [] -> Forall whole (w_script w) -> staged watched all_growing w.
Proof.
  intros Hf Ht Hsc. destruct Hs as [_ _ _ S1 S2 S3]. constructor; [done|]. assert (H : forall F, f !! wd_path F = Some (wd_before F) -> at_stage F Growing w).
  { intros F HF. exists []. split; [|constructor]. constructor; rewrite ?Ht, ?Hf; [|done|done]. intros k c. rewrite take_nil. by intros ->%survives_nothing; left. }
  intros F. unfold watched. rewrite !elem_of_cons, elem_of_nil. intros [->|[->|[->|[]]]]; apply H; [exact S1|exact S2|exact S3].
Qed.

Lemma read_step {X} magic id size body p what (k : StoreFileHeader -> SE (World * Impl) X) w : magic ∈ kMagics -> in_u64 id -> in_u64 size -> f !! p = Some (raw_file magic id size body) -> staged watched all_growing w -> w_files w = f ->
  (forall w', staged watched all_growing w' -> w_files w' = f -> secure watched (fst (fst (k (file_header magic id size) (w', i))))) -> secure watched (fst (fst (bind (disk (read_header root (Some p) p what)) k (w, i)))).
Proof.
  intros Hm Hi Hz Hp Hst Hf Hk. unfold bind at 1, disk at 1. cbn [fst snd]. destruct (read_header root (Some p) p what w) as [w1 h] eqn:E. apply (read_header_any root p magic id size body) in E as (E1 & E2 & E3 & E4); [|done|done|done|by rewrite Hf]. assert (Hst1 : staged watched all_growing w1) by (eapply staged_disk; [done|done|apply E3, Hst|exact Hst]).
  destruct h as [x|e]; [rewrite (E4 x eq_refl); apply Hk; [done|congruence]|by eapply staged_secure].
Qed.

Lemma flush_secure w : w_files w = f -> w_trace w = [] -> Forall whole (w_script w) -> secure watched (fst (fst (Flush root options tm_gmtoff home (w, i)))).
Proof.
  intros Hf Ht Hsc. pose proof (start_staged w Hf Ht Hsc) as Hst. pose proof Hs as [_ _ _ S1 S2 S3]. pose proof Ho as [O1 _ O3 O4 _ _]. destruct Hq as [Hq1 Hq2]. pose proof (active_id_fits d Hd) as Hid. destruct (active_light d Hd) as (_ & Hl2 & Hl3). pose proof (states_light d Hd) as Hl4.
  assert (Hu : in_u64 (active_id d)) by (unfold kLimit in Hid; ulia). assert (Hz : in_u64 0) by (split; [lia|apply Z.leb_le; reflexivity]).
  destruct (flush_all root home q [] _ _ _ d f i Hs Ho Hq2) as (f1 & i1 & Hy & Hs1 & Ho1 & _). fold d' in Hs1, Ho1. assert (Hy' : yields (flush_entries root home (im_pending_entries i)) f i f1 i1 tt) by (rewrite Hq1; exact Hy). pose proof Ho1 as [P1 _ P3 P4 _ _]. assert (Eid : active_id d' = active_id d) by (destruct push_all_appends as (_ & _ & E & _); unfold active_id; by rewrite E).
  unfold Flush. unfold bind at 1. rewrite (open_now root options tm_gmtoff home d w i Ho). unfold bind at 1, get at 1. cbn [snd fst]. set (entries := im_pending_entries i) in *. assert (Hm : forall m : SE (World * Impl) unit, secure watched (fst (fst (m (w, i)))) -> secure watched (fst (fst (match entries with [] => ret tt | _ :: _ => m end (w, i))))) by (intros m Hm; destruct entries; [by eapply staged_secure|done]). apply Hm. clear Hm. cbv zeta. rewrite O1, O3. cbn [active_handle handle_of sg_log_fd sg_index_fd sg_log_path sg_index_path].
  eapply (read_step kLogMagic (active_id d) (log_end (sd_active d))); [unfold kMagics; set_solver|exact Hu|by apply fits_disk_u64|exact S1|exact Hst|exact Hf|]. clear w Hf Ht Hsc Hst. intros w Hst Hf.
  eapply (read_step kIndexMagic (active_id d) (body_size (index_body (sd_active d)))); [unfold kMagics; set_solver|exact Hu|by apply fits_disk_u64|exact S2|exact Hst|exact Hf|]. clear w Hf Hst. intros w Hst Hf.
  eapply (read_step kRecoveryMagic 0 (body_size (states_body (sd_states d)))); [unfold kMagics; set_solver|exact Hz|by apply fits_disk_u64|exact S3|exact Hst|exact Hf|]. clear w Hf Hst. intros w Hst Hf.
  assert (Hg : growing watched watched_log watched_index watched_recovery w i) by (split; [done|]; constructor; cbn [watched_log watched_index watched_recovery wd_path wd_before]; rewrite ?O1, ?O3, ?O4, ?store_file_size; done).
  assert (Hsz : Forall (fun e => 0 <= pe_payload_size e) entries) by (rewrite Hq1; apply sizes_nonneg).
  pose proof (guarded_entries watched watched_paths root home watched_log watched_index watched_recovery watched_log_in watched_index_in watched_recovery_in entries Hsz w i Hg) as He.
  unfold bind at 1. destruct (flush_entries root home entries (w, i)) as [[w1 i2] [x|e]] eqn:E; [|exact He]. destruct (steady_yields _ _ _ _ _ _ _ _ _ _ (steady_entries root home entries) Hy' E Hf) as (Hf1 & -> & _). destruct He as [Hst1 _].
  unfold bind at 1, get at 1. cbn [snd fst]. rewrite P1, P3, P4. cbn [active_handle handle_of sg_log_fd sg_index_fd sg_log_path sg_index_path sg_log_size sg_index_size]. destruct Hs1 as [_ _ _ Q1 Q2 Q3]. rewrite Eid in Q1, Q2.
  eapply guarded_end; [eapply (commit_guarded _ _ _ f1 i1); [exact Q1|exact Q2|exact Q3|reflexivity..]|by split].
Qed.
End Flush.

(** ** Reopening *)

(** A file that begins with what a header commits opens, and what is behind is cut off. *)
Lemma does_reopen root p f magic id body c default : magic ∈ kMagics -> in_u64 id -> fits_disk body -> f !! p = Some c -> store_file magic id body `prefix_of` c -> Z.of_nat (length c) < 9223372036854775808 ->
  does (OpenStoreFile root p magic default (Some id)) f (<[p := store_file magic id body]> f) (MkOpened (Some p) (body_size body) (file_header magic id (body_size body))).
Proof.
  intros Hm Hi Hb Hp [tail ->] Hc. destruct (decide (tail = [])) as [->|Hne]; [rewrite app_nil_r in Hp; rewrite (insert_id f p _ Hp); apply does_open; try done; by right|].
  assert (Htail : 0 < Z.of_nat (length tail)) by (destruct tail; [done|cbn; lia]). assert (Hlen : Z.of_nat (length (store_file magic id body ++ tail)) = body_size body + Z.of_nat (length tail)) by (rewrite length_app, Nat2Z.inj_add, store_file_size; done). assert (Hbs : kFileHeaderSize <= body_size body) by (unfold body_size; lia). assert (Hk : 0 < kFileHeaderSize) by (vm_compute; done).
  unfold OpenStoreFile. eapply does_bind; [apply does_open_file|]. cbn [apply_op]. rewrite Hp. eapply does_bind; [apply does_attempt|]. cbn [negb]. apply does_get. intros w [Hf Hs]. unfold file_size. rewrite (content_at _ _ _ _ Hf Hp), Hlen.
  destruct (Z.eqb_spec (body_size body + Z.of_nat (length tail)) 0) as [E|_]; [lia|]. eapply does_bind; [apply does_ret|]. cbv beta. unfold check_file. apply does_get. clear w Hf Hs. intros w [Hf Hs]. unfold file_size. rewrite (content_at _ _ _ _ Hf Hp), Hlen.
  destruct (Z.ltb_spec (body_size body + Z.of_nat (length tail)) kFileHeaderSize) as [?|_]; [lia|].
  eapply does_bind; [apply does_read; [exact Hp|lia|rewrite length_app, length_store_file; lia|exact Hc]|]. assert (Eh : slice (store_file magic id body ++ tail) (Z.to_nat 0) (pod_size StoreFileHeader) = pod_bytes (file_header magic id (body_size body))).
  { rewrite <- store_file_head, Z2Nat.inj_0. unfold slice. rewrite !drop_0. apply take_app_le. rewrite length_store_file. lia. }
  rewrite Eh. cbv beta. rewrite pod_read_alone by (apply file_header_fits; [done|done|by apply fits_disk_u64]). unfold HasMagic. cbn [file_header fh_magic fh_version fh_header_size fh_file_size fh_segment_id]. rewrite !Z.eqb_refl. cbn [negb orb].
  destruct (Z.ltb_spec (body_size body) kFileHeaderSize) as [?|_]; [lia|]. destruct (Z.ltb_spec (body_size body + Z.of_nat (length tail)) (body_size body)) as [?|_]; [lia|]. destruct (Z.ltb_spec (body_size body) (body_size body + Z.of_nat (length tail))) as [_|?]; [|lia].
  eapply does_bind; [unfold ftruncate; apply does_call|]. cbv beta iota. cbn [apply_op]. assert (Ea : alter (resize (Z.to_nat (body_size body))) p f = <[p := store_file magic id body]> f); [|rewrite Ea; apply does_ret].
  apply map_eq. intros r. destruct (decide (p = r)) as [<-|Hr]; [|by rewrite lookup_alter_ne, lookup_insert_ne]. rewrite lookup_alter_eq, lookup_insert_eq, Hp. apply (f_equal Some). unfold resize, pad. rewrite <- (store_file_size magic id body), Nat2Z.id. rewrite take_app_le by (rewrite length_app; lia). apply take_app_length.
Qed.

(** The files that a flush writes: path, magic, segment, committed records before and
    behind it. *)
Definition flushed_files (home : bool) (d : Ideal) (q : list Entry) : list (Path * list Z * Z * list Z * list Z) :=
  let d' := push_all d q in
  [(active_log home, kLogMagic, active_id d, log_body (sd_active d), log_body (sd_active d'));
   (active_index home, kIndexMagic, active_id d, index_body (sd_active d), index_body (sd_active d'));
   (recovery_log home, kRecoveryMagic, 0, states_body (sd_states d), states_body (sd_states d'))].

Lemma flushed_watched home d q p magic id old new : sound d -> sound (push_all d q) -> (p, magic, id, old, new) ∈ flushed_files home d q ->
  exists F, F ∈ watched home d q /\ wd_path F = p /\ wd_before F = store_file magic id old /\ wd_after F = store_file magic id new /\ magic ∈ kMagics /\ in_u64 id /\ fits_disk old /\ fits_disk new.
Proof.
  intros Hd Hd' Hp. destruct (active_light d Hd) as (_ & L1 & L2). destruct (active_light _ Hd') as (_ & L1' & L2'). pose proof (states_light d Hd) as L3. pose proof (states_light _ Hd') as L3'. pose proof (active_id_fits d Hd) as Hid.
  assert (Hu : in_u64 (active_id d)) by (unfold kLimit in Hid; ulia). assert (Hz : in_u64 0) by (split; [lia|apply Z.leb_le; reflexivity]).
  unfold flushed_files in Hp. rewrite !elem_of_cons, elem_of_nil in Hp. destruct Hp as [[= -> -> -> -> ->]|[[= -> -> -> -> ->]|[[= -> -> -> -> ->]|[]]]].
  - exists (watched_log home d q). split_and!; first [done|apply watched_log_in|apply head_raw|unfold kMagics; set_solver].
  - exists (watched_index home d q). split_and!; first [done|apply watched_index_in|apply head_raw|unfold kMagics; set_solver].
  - exists (watched_recovery home d q). split_and!; first [done|apply watched_recovery_in|apply head_raw|unfold kMagics; set_solver].
Qed.

(** C8: a flush survives a loss of power: whatever the system calls do (short writes,
    interruptions, errors), and at whatever moment the power fails, each of the three files
    reopens without an error to exactly the records it had committed before the flush or
    exactly those the flush commits, as long as a header reaches the disk as a whole or
    not at all; bytes behind them are cut off. *)
Theorem flush_crash_safe root options tm_gmtoff d q f i script errno k p magic id old new c g :
  sound d -> sound (push_all d q) -> stored false d f -> opened false d i -> queued q i -> Forall whole script ->
  (p, magic, id, old, new) ∈ flushed_files false d q ->
  crash_image kAtomic p (store_file magic id old) (take k (w_trace (fst (fst (Flush root options tm_gmtoff false (MkWorld f script errno [], i)))))) c ->
  g !! p = Some c -> Z.of_nat (length c) < 9223372036854775808 ->
  exists body, (body = old \/ body = new) /\ does (OpenStoreFile root p magic 0 (Some id)) g (<[p := store_file magic id body]> g) (MkOpened (Some p) (body_size body) (file_header magic id (body_size body))).
Proof.
  intros Hd Hd' Hs Ho Hq Hsc Hp Hc Hg Hlen. destruct (flushed_watched false d q p magic id old new Hd Hd' Hp) as (F & HF & EP & EB & EA & Hm & Hi & Hold & Hnew).
  pose proof (flush_secure root options tm_gmtoff false d q f i Hd Hd' Hs Ho Hq (MkWorld f script errno []) eq_refl eq_refl Hsc F HF k c) as Hsafe. unfold intact in Hsafe. rewrite EP, EB, EA in Hsafe.
  destruct (Hsafe Hc) as [Hpre|Hpre]; [exists old|exists new]; (split; [tauto|by eapply does_reopen]).
Qed.

(** ** A small store *)

Definition demo_queue : list Entry := [EMessage (true, demo_message 7 1 5 "hello"); EState (MkRecovery 7 2 2 6 5 true)].
Definition demo_files : Files := <[active_log false := store_file kLogMagic 1 []]> (<[active_index false := store_file kIndexMagic 1 []]> (<[recovery_log false := store_file kRecoveryMagic 0 []]> ∅)).
Definition demo_impl : Impl := MkImpl (handle_of (active_log false) (active_index false) 1 []) ∅ (Some (recovery_log false)) kFileHeaderSize ∅ ∅ (queue_entries 0 demo_queue) (queue_arena demo_queue) None 0.
(** The payload is written in two parts, behind an interruption. *)
Definition demo_script : list Outcome := [Done; Done; Done; Partial 40; Interrupted; Done].
Definition demo_trace : list DiskOp := Eval vm_compute in w_trace (fst (fst (Flush "store" demo_options 0 false (MkWorld demo_files demo_script "" [], demo_impl)))).

Lemma demo_queue_fits : Forall (entry_fits 10) demo_queue.
Proof. repeat constructor; cbn; try done; by vm_compute. Qed.

Lemma demo_sound : sound (push_all empty_ideal demo_queue).
Proof. apply (push_all_sound 10); [apply empty_sound|exact demo_queue_fits|by vm_compute]. Qed.

Lemma demo_stored : stored false empty_ideal demo_files.
Proof. constructor; [done|done|intros name [c Hc]; unfold demo_files in Hc; rewrite !lookup_insert_ne in Hc by done; by rewrite lookup_empty in Hc|done..]. Qed.

Lemma demo_opened : opened false empty_ideal demo_impl.
Proof. by constructor. Qed.

(** Behind the first write of a header, which the loss of power keeps. *)
Definition demo_log : list Z := Eval vm_compute in applied [(0%nat, pod_bytes (file_header kLogMagic 1 (log_end (msgs_of demo_queue))))] (raw_file kLogMagic 1 kFileHeaderSize (log_body (msgs_of demo_queue))).

Lemma flush_crash_safe_witness : exists body, (body = [] \/ body = log_body (msgs_of demo_queue)) /\
  does (OpenStoreFile "store" (active_log false) kLogMagic 0 (Some 1)) (<[active_log false := demo_log]> ∅) (<[active_log false := store_file kLogMagic 1 body]> (<[active_log false := demo_log]> ∅)) (MkOpened (Some (active_log false)) (body_size body) (file_header kLogMagic 1 (body_size body))).
Proof.
  apply (flush_crash_safe "store" demo_options 0 empty_ideal demo_queue demo_files demo_impl demo_script "" 9 (active_log false) kLogMagic 1 [] (log_body (msgs_of demo_queue)) demo_log);
    [apply empty_sound|exact demo_sound|exact demo_stored|exact demo_opened|done|repeat constructor; right; vm_compute; lia| | |apply lookup_insert_eq|vm_compute; reflexivity].
  - unfold flushed_files. apply list_elem_of_here.
  - vm_compute. apply survives_kept, survives_none.
Defined.

(** ** What the order does not protect *)

(** The headers of the log and the index are not committed together: when the power fails
    between their writing and their synchronisation, the index may commit what the log does
    not, and the store does not open. *)
Definition torn_files (w : World) : Files := <[active_log false := raw_file kLogMagic 1 kFileHeaderSize (log_body (msgs_of demo_queue))]> (w_files w).
Theorem headers_not_atomic :
  let ops := take 11 demo_trace in
  let done := fst (fst (Flush "store" demo_options 0 false (MkWorld demo_files demo_script "" [], demo_impl))) in
  (forall p c, p ∈ [active_log false; active_index false; recovery_log false] -> demo_files !! p = Some c -> exists c', torn_files done !! p = Some c' /\ crash_image kAtomic p c ops c') /\
  snd (Open "store" demo_options 0 false (fresh_world (torn_files done), NewImpl)) = Error (status.FormatError "durable batch store index points past the end of the log").
Proof.
  cbv zeta. split; [|vm_compute; reflexivity]. intros p c Hp Hc. rewrite !elem_of_cons, elem_of_nil in Hp. destruct Hp as [->|[->|[->|[]]]]; vm_compute in Hc; injection Hc as <-; (eexists; split; [vm_compute; reflexivity|]); vm_compute.
  - apply survives_lost, survives_none.
  - apply survives_kept, survives_none.
  - apply survives_kept, survives_none.
Qed.

(** A rollover moves the log and the index one behind the other: between the two the
    active segment has no log, and the store does not open. *)
Definition demo_flushed : World * Impl := Eval vm_compute in fst (Flush "store" demo_options 0 false (fresh_world demo_files, demo_impl)).
Definition rollover_trace : list DiskOp := Eval vm_compute in w_trace (fst (fst (Rollover "store" demo_options 0 false (fresh_world (w_files (fst demo_flushed)), snd demo_flushed)))).
Definition after_ops (ops : list DiskOp) : Files := fold_left (fun f op => apply_op op f) ops (w_files (fst demo_flushed)).

Theorem rollover_not_atomic :
  exists k, snd (Open "store" demo_options 0 false (fresh_world (after_ops (take k rollover_trace)), NewImpl)) = Error (status.FormatError "durable batch store active segment is missing a companion file").
Proof. exists 1%nat. vm_compute. reflexivity. Qed.

(** The compaction of the recovery log empties the file before it writes it again. *)
Theorem compaction_loses_states :
  snd (LoadRecoveryState "store" demo_options 0 false 7 demo_flushed) = Value (MkRecovery 7 2 2 6 5 true) /\
  exists k, snd ((Open "store" demo_options 0 false ;;; LoadRecoveryState "store" demo_options 0 false 7) (fresh_world (after_ops (take k rollover_trace)), NewImpl)) = Error (status.NotFound "recovery state not found").
Proof. split; [vm_compute; reflexivity|]. exists 11%nat. vm_compute. reflexivity. Qed.

(** A flush that fails keeps its queue and the records it appended: the next one appends
    them again, and an inbound message is stored twice. *)
Definition inbound_impl : Impl := MkImpl (handle_of (active_log false) (active_index false) 1 []) ∅ (Some (recovery_log false)) kFileHeaderSize ∅ ∅ (queue_entries 0 [EMessage (false, demo_message 7 1 5 "in")]) (bytes "in") None 0.

Theorem failed_flush_duplicates :
  let first := Flush "store" demo_options 0 false (MkWorld demo_files [Done; Done; Done; Done; Done; Failed "No space left on device"] "" [], inbound_impl) in
  snd first = Error (status.IoError "fdatasync failed: No space left on device") /\
  snd ((Flush "store" demo_options 0 false ;;; LoadInboundRange "store" demo_options 0 false 7 1 1) (fst first)) = Value [ToOwned (demo_message 7 1 5 "in"); ToOwned (demo_message 7 1 5 "in")].
Proof. vm_compute. split; reflexivity. Qed.

(** A refresh closes and reopens the store without a flush: what was accepted and waits in
    the queue is gone, in the same process. *)
Theorem refresh_drops_queue :
  snd (LoadInboundRange "store" demo_options 0 false 7 1 1 (fresh_world demo_files, inbound_impl)) = Value [ToOwned (demo_message 7 1 5 "in")] /\
  snd ((Refresh "store" demo_options 0 false ;;; LoadInboundRange "store" demo_options 0 false 7 1 1) (fresh_world demo_files, inbound_impl)) = Value [].
Proof. split; vm_compute; reflexivity. Qed.

(** An error of the enumeration of the archive is not seen, because it is tested inside
    the loop that it prevents: the store opens without its archived segments. *)
Definition archived_files : Files := Eval vm_compute in w_files (fst (fst (Rollover "store" demo_options 0 false demo_flushed))).
Theorem unread_archive_forgotten :
  snd ((Open "store" demo_options 0 false ;;; LoadOutboundRange "store" demo_options 0 false 7 1 1) (fresh_world archived_files, NewImpl)) = Value [ToOwned (demo_message 7 1 5 "hello")] /\
  snd ((Open "store" demo_options 0 false ;;; LoadOutboundRange "store" demo_options 0 false 7 1 1) (MkWorld archived_files [Done; Done; Done; Done; Failed "Input/output error"] "" [], NewImpl)) = Value [].
Proof. split; vm_compute; reflexivity. Qed.
