(* ===== verification/MmapStore.v ===== *)
(** * The mmap store

    [store/mmap_store.cpp]: one file of records behind a header that commits its size,
    written with positioned writes and read through a shared mapping.  Opening scans the
    records, drops what is behind the last whole one and rebuilds the indices.

    A mapping is shared with the file, so its bytes are the first ones of the file at the
    moment they are read; bytes behind the end of the file are zero up to the end of its
    page, as [pod_read] reads them. *)
From S2P Require Import Prelude Base StdAlgo Wire SessionStore Artifact Disk DurableStore.
Open Scope Z_scope.

Module Mmap.
Definition kStoreMagic : list Z := bytes "NFSTORE1".
Definition kStoreVersion : Z := 1.
Definition kActiveRecoveryStateValue : Z := 1.

Module StoreRecordType.
Definition kOutbound : Z := 1.
Definition kInbound : Z := 2.
Definition kRecoveryState : Z := 3.
End StoreRecordType.

Inductive SyncPolicy := kNone | kEveryWrite | kBatchFlush.
Definition every_write (p : SyncPolicy) : bool := match p with kEveryWrite => true | _ => false end.

Record StoreFileHeader := MkFileHeader { fh_magic : Z; fh_version : Z; fh_header_size : Z; fh_file_size : Z; fh_reserved0 : Z }.
#[export] Instance file_header_pod : Pod StoreFileHeader := {|
  pod_widths := [8; 4; 4; 8; 8]%nat;
  to_words h := [fh_magic h; fh_version h; fh_header_size h; fh_file_size h; fh_reserved0 h];
  of_words l := MkFileHeader (word_at 0 l) (word_at 1 l) (word_at 2 l) (word_at 3 l) (word_at 4 l);
|}.

(** The three bytes of padding are written as zero and never read. *)
Record StoreRecordHeader := MkRecordHeader {
  rh_record_type : Z;
  rh_header_size : Z;
  rh_flags : Z;
  rh_session_id : Z;
  rh_seq_num : Z;
  rh_payload_size : Z;
  rh_timestamp_ns : Z;
  rh_next_in_seq : Z;
  rh_next_out_seq : Z;
  rh_last_inbound_ns : Z;
  rh_last_outbound_ns : Z;
  rh_active : Z;
  rh_body_start_offset : Z;
}.
#[export] Instance record_header_pod : Pod StoreRecordHeader := {|
  pod_widths := [4; 2; 2; 8; 4; 4; 8; 4; 4; 8; 8; 1; 3; 4]%nat;
  to_words h := [rh_record_type h; rh_header_size h; rh_flags h; rh_session_id h; rh_seq_num h; rh_payload_size h; rh_timestamp_ns h; rh_next_in_seq h; rh_next_out_seq h; rh_last_inbound_ns h; rh_last_outbound_ns h; rh_active h; 0; rh_body_start_offset h];
  of_words l := MkRecordHeader (word_at 0 l) (word_at 1 l) (word_at 2 l) (word_at 3 l) (word_at 4 l) (word_at 5 l) (word_at 6 l) (word_at 7 l) (word_at 8 l) (word_at 9 l) (word_at 10 l) (word_at 11 l) (word_at 13 l);
|}.

Definition kStoreFileHeaderSize : Z := Z.of_nat (pod_size StoreFileHeader).
Definition kStoreRecordHeaderSize : Z := Z.of_nat (pod_size StoreRecordHeader).

Definition ValidateRecord (r : MessageRecord) : Status :=
  if rec_session_id r =? 0 then status.InvalidArgument "message record is missing session_id"
  else if rec_seq_num r =? 0 then status.InvalidArgument "message record is missing seq_num"
  else if Z.of_nat (length (rec_payload r)) <? rec_body_start_offset r then status.InvalidArgument "message record body_start_offset exceeds payload size"
  else status.Ok.

Definition ValidateRecordView (v : MessageRecordView) : Status :=
  if v_session_id v =? 0 then status.InvalidArgument "message record is missing session_id"
  else if v_seq_num v =? 0 then status.InvalidArgument "message record is missing seq_num"
  else if UINT32_MAX <? Z.of_nat (length (v_payload v)) then status.InvalidArgument "message payload exceeds mmap store limits"
  else if Z.of_nat (length (v_payload v)) <? v_body_start_offset v then status.InvalidArgument "message record body_start_offset exceeds payload size"
  else status.Ok.

Definition HasStoreMagic (h : StoreFileHeader) : bool := fh_magic h =? le_value kStoreMagic.

(** ** Scanning *)

Notation Offsets := (gmap Z (gmap Z Z)).

Record ScanState := MkScan {
  ss_committed_size : Z;
  ss_truncated_tail : bool;
  ss_outbound_offsets : Offsets;
  ss_recovery_states : gmap Z SessionRecoveryState;
}.

Definition BuildFileHeader (file_size : Z) : StoreFileHeader := MkFileHeader (le_value kStoreMagic) kStoreVersion kStoreFileHeaderSize file_size 0.

Definition Header (mapping : list Z) : StoreFileHeader := pod_read (slice mapping 0 (pod_size StoreFileHeader)).
Definition RecordAt (mapping : list Z) (offset : Z) : StoreRecordHeader := pod_read (slice mapping (Z.to_nat offset) (pod_size StoreRecordHeader)).
Definition PayloadAt (mapping : list Z) (offset size : Z) : list Z := slice mapping (Z.to_nat (offset + kStoreRecordHeaderSize)) (Z.to_nat size).

Definition set_offset (session_id seq_num offset : Z) (m : Offsets) : Offsets := <[session_id := <[seq_num := offset]> (default ∅ (m !! session_id))]> m.

Definition state_of (h : StoreRecordHeader) : SessionRecoveryState :=
  MkRecovery (rh_session_id h) (rh_next_in_seq h) (rh_next_out_seq h) (rh_last_inbound_ns h) (rh_last_outbound_ns h) (negb (rh_active h =? 0)).

Definition cut (s : ScanState) : ScanState := MkScan (ss_committed_size s) true (ss_outbound_offsets s) (ss_recovery_states s).

(** Every turn moves the offset by a header at least. *)
Fixpoint scan_loop (fuel : nat) (mapping : list Z) (scan_end offset : Z) (s : ScanState) : ScanState :=
  match fuel with
  | O => s
  | S fuel =>
      if scan_end <=? offset then s
      else if scan_end <? u64 (offset + kStoreRecordHeaderSize) then cut s
      else
        let record := RecordAt mapping offset in
        if negb (rh_header_size record =? kStoreRecordHeaderSize) then cut s
        else if rh_payload_size record <? rh_body_start_offset record then cut s
        else
          let record_end := u64 (offset + kStoreRecordHeaderSize + rh_payload_size record) in
          if scan_end <? record_end then cut s
          else
            let next offsets states := scan_loop fuel mapping scan_end record_end (MkScan record_end false offsets states) in
            let ty := rh_record_type record in
            if ty =? StoreRecordType.kOutbound then next (set_offset (rh_session_id record) (rh_seq_num record) offset (ss_outbound_offsets s)) (ss_recovery_states s)
            else if ty =? StoreRecordType.kRecoveryState then next (ss_outbound_offsets s) (<[rh_session_id record := state_of record]> (ss_recovery_states s))
            else if ty =? StoreRecordType.kInbound then next (ss_outbound_offsets s) (ss_recovery_states s)
            else cut s
  end.
Definition ScanMapping (mapping : list Z) (scan_end : Z) : ScanState := scan_loop (Z.to_nat scan_end) mapping scan_end kStoreFileHeaderSize (MkScan kStoreFileHeaderSize false ∅ ∅).

(** ** The object *)

(** A mapping is the number of bytes it maps. *)
Record Impl := MkImpl {
  im_fd : fd;
  im_mapping : option Z;
  im_outbound_offsets : Offsets;
  im_recovery_states : gmap Z SessionRecoveryState;
}.
Definition NewImpl : Impl := MkImpl None None ∅ ∅.
Definition with_fd (f : fd) (i : Impl) : Impl := MkImpl f (im_mapping i) (im_outbound_offsets i) (im_recovery_states i).
Definition with_mapping (m : option Z) (i : Impl) : Impl := MkImpl (im_fd i) m (im_outbound_offsets i) (im_recovery_states i).
Definition with_offsets (o : Offsets) (i : Impl) : Impl := MkImpl (im_fd i) (im_mapping i) o (im_recovery_states i).
Definition with_states (s : gmap Z SessionRecoveryState) (i : Impl) : Impl := MkImpl (im_fd i) (im_mapping i) (im_outbound_offsets i) s.

Section Store.
Context (path : string) (policy : SyncPolicy).

Section File.
Context (home : bool).

(** The file of the store, and the one that a reset builds beside it ([true]). *)
Definition self : Path := (home, false, bytes path).
Definition self_text : string := if home then path +:+ ".reset.tmp" else path.

Definition io_error {X} (action : string) : SE World X := fun w => (w, Error (status.IoError (action +:+ " '" +:+ self_text +:+ "': " +:+ w_errno w))).

Definition stat_size : SE World Z :=
  known <- os attempt ;; w <- get ;; if known : bool then ret (Z.of_nat (length (content w self))) else io_error "unable to stat mmap store".

Definition MapFile (size : Z) : SE World Z :=
  ok <- os attempt ;; if ok : bool then ret size else fun w => (w, Error (status.IoError ("unable to mmap store file: " +:+ w_errno w))).

(** The bytes a mapping of this size shows. *)
Definition mapped (size : Z) (w : World) : list Z := take (Z.to_nat size) (content w self).

Definition sync_every_write (f : fd) : SE World unit :=
  if every_write policy then ok <- os (fdatasync f) ;; if ok : bool then ret tt else io_error "unable to fdatasync mmap store" else ret tt.

Definition resize_file (size : Z) (action : string) : SE World unit := ok <- os (ftruncate self size) ;; if ok : bool then ret tt else io_error action.
Definition write_file (f : fd) (data : list Z) (offset : Z) (action : string) : SE World unit := ok <- os (WriteExact f data offset) ;; if ok : bool then ret tt else io_error action.

Definition open_fd : SE (World * Impl) unit :=
  s <- get ;;
  match im_fd (snd s) with
  | Some _ => ret tt
  | None => f <- disk (os (open_file self)) ;; match f with None => disk (io_error "unable to open mmap store") | Some _ => private (with_fd f) end
  end.

Definition initialize (f : fd) : SE World unit :=
  resize_file kStoreFileHeaderSize "unable to size mmap store" ;;;
  write_file f (pod_bytes (BuildFileHeader kStoreFileHeaderSize)) 0 "unable to initialize mmap store" ;;;
  sync_every_write f.

Definition bad_header (h : StoreFileHeader) : bool :=
  negb (HasStoreMagic h) || negb (fh_version h =? kStoreVersion) || negb (fh_header_size h =? kStoreFileHeaderSize) || (fh_file_size h <? kStoreFileHeaderSize).

(** The size the file should have. *)
Definition desired_size (h : StoreFileHeader) (scan : ScanState) (size : Z) : Z :=
  if negb (ss_truncated_tail scan) && (fh_file_size h <=? size) then fh_file_size h else Z.max kStoreFileHeaderSize (ss_committed_size scan).

Definition repair (f : fd) (desired : Z) : SE World Z :=
  resize_file desired "unable to repair mmap store size" ;;;
  write_file f (pod_bytes (BuildFileHeader desired)) 0 "unable to repair mmap store header" ;;;
  sync_every_write f ;;;
  MapFile desired.

Definition adopt (size : Z) (scan : ScanState) (i : Impl) : Impl := MkImpl (im_fd i) (Some size) (ss_outbound_offsets scan) (ss_recovery_states scan).

(** The mapping, the scan and the repair. *)
Definition map_and_scan (f : fd) : SE (World * Impl) unit :=
  size <- disk stat_size ;;
  disk (MapFile size) ;;;
  s <- get ;;
  let mapping := mapped size (fst s) in
  let header := Header mapping in
  if bad_header header then fail (status.FormatError "mmap store has an invalid header")
  else
    let scan := ScanMapping mapping (Z.min (fh_file_size header) size) in
    let desired := desired_size header scan size in
    if ss_truncated_tail scan || negb (fh_file_size header =? desired) || negb (size =? desired) then
      disk (repair f desired) ;;;
      s <- get ;;
      private (adopt desired (ScanMapping (mapped desired (fst s)) desired))
    else private (adopt size scan).

Definition Open : SE (World * Impl) unit :=
  open_fd ;;;
  s <- get ;;
  let f := im_fd (snd s) in
  first_size <- disk stat_size ;;
  (if first_size =? 0 then disk (initialize f) else ret tt) ;;;
  map_and_scan f.

(** ** Writing *)

Definition RemapFile (new_size : Z) : SE (World * Impl) unit :=
  s <- get ;;
  match im_mapping (snd s) with
  | None => Open
  | Some _ => disk (MapFile new_size) ;;; private (with_mapping (Some new_size))
  end.

(** The header of the store's own mapping. *)
Definition mapping_header (s : World * Impl) : StoreFileHeader := Header (mapped (default 0 (im_mapping (snd s))) (fst s)).
Definition with_file_size (size : Z) (h : StoreFileHeader) : StoreFileHeader := MkFileHeader (fh_magic h) (fh_version h) (fh_header_size h) size (fh_reserved0 h).

Definition commit_size (f : fd) (new_size : Z) : SE (World * Impl) unit :=
  s <- get ;;
  disk (write_file f (pod_bytes (with_file_size new_size (mapping_header s))) 0 "unable to update mmap store header") ;;;
  disk (sync_every_write f) ;;;
  RemapFile new_size.

Definition AppendOutboundLikeView (record_type : Z) (v : MessageRecordView) : SE (World * Impl) unit :=
  expect (ValidateRecordView v) ;;;
  Open ;;;
  s <- get ;;
  let f := im_fd (snd s) in
  let old_size := fh_file_size (mapping_header s) in
  let new_size := u64 (old_size + (kStoreRecordHeaderSize + Z.of_nat (length (v_payload v)))) in
  disk (resize_file new_size "unable to extend mmap store") ;;;
  let header := MkRecordHeader record_type kStoreRecordHeaderSize (v_flags v) (v_session_id v) (v_seq_num v) (Z.of_nat (length (v_payload v))) (v_timestamp_ns v) 0 0 0 0 0 (v_body_start_offset v) in
  disk (write_file f (v_payload v) (u64 (old_size + kStoreRecordHeaderSize)) "unable to append mmap record payload") ;;;
  disk (write_file f (pod_bytes header) old_size "unable to append mmap record header") ;;;
  commit_size f new_size ;;;
  if record_type =? StoreRecordType.kOutbound then private (fun i => with_offsets (set_offset (v_session_id v) (v_seq_num v) old_size (im_outbound_offsets i)) i) else ret tt.

Definition AppendOutboundLike (record_type : Z) (r : MessageRecord) : SE (World * Impl) unit := expect (ValidateRecord r) ;;; AppendOutboundLikeView record_type (record_view r).

Definition AppendRecoveryState (r : SessionRecoveryState) : SE (World * Impl) unit :=
  if r_session_id r =? 0 then fail (status.InvalidArgument "recovery state is missing session_id")
  else
    Open ;;;
    s <- get ;;
    let f := im_fd (snd s) in
    let old_size := fh_file_size (mapping_header s) in
    let new_size := u64 (old_size + kStoreRecordHeaderSize) in
    disk (resize_file new_size "unable to extend mmap store") ;;;
    let header := MkRecordHeader StoreRecordType.kRecoveryState kStoreRecordHeaderSize 0 (r_session_id r) 0 0 0 (r_next_in_seq r) (r_next_out_seq r) (r_last_inbound_ns r) (r_last_outbound_ns r) (if r_active r then kActiveRecoveryStateValue else 0) 0 in
    disk (write_file f (pod_bytes header) old_size "unable to append mmap recovery state") ;;;
    commit_size f new_size ;;;
    private (fun i => with_states (<[r_session_id r := r]> (im_recovery_states i)) i).

Definition SaveOutbound (r : MessageRecord) : SE (World * Impl) unit := AppendOutboundLike StoreRecordType.kOutbound r.
Definition SaveInbound (r : MessageRecord) : SE (World * Impl) unit := AppendOutboundLike StoreRecordType.kInbound r.
Definition SaveOutboundView (v : MessageRecordView) : SE (World * Impl) unit := AppendOutboundLikeView StoreRecordType.kOutbound v.
Definition SaveInboundView (v : MessageRecordView) : SE (World * Impl) unit := AppendOutboundLikeView StoreRecordType.kInbound v.
Definition SaveRecoveryState (r : SessionRecoveryState) : SE (World * Impl) unit := AppendRecoveryState r.

(** ** Loading *)

Definition EnsureMapping : SE (World * Impl) unit :=
  s <- get ;;
  match im_fd (snd s), im_mapping (snd s) with
  | Some _, Some size => file_size <- disk stat_size ;; if file_size =? size then ret tt else Open
  | _, _ => Open
  end.

Definition offsets_of (i : Impl) (session_id begin_seq end_seq : Z) : list (Z * Z) :=
  filter (fun x => begin_seq <= fst x <= end_seq) (in_order (default ∅ (im_outbound_offsets i !! session_id))).

Definition record_of (mapping : list Z) (offset : Z) : MessageRecord :=
  let h := RecordAt mapping offset in
  MkRecord (rh_session_id h) (rh_seq_num h) (rh_timestamp_ns h) (rh_flags h) (PayloadAt mapping offset (rh_payload_size h)) (rh_body_start_offset h).

(** The store's own mapping. *)
Definition mapping_bytes (s : World * Impl) : list Z := mapped (default 0 (im_mapping (snd s))) (fst s).

Definition LoadOutboundRange (session_id begin_seq end_seq : Z) : SE (World * Impl) (list MessageRecord) :=
  if bad_range begin_seq end_seq then fail (status.InvalidArgument "invalid outbound load range")
  else EnsureMapping ;;; s <- get ;; ret (map (fun x => record_of (mapping_bytes s) (snd x)) (offsets_of (snd s) session_id begin_seq end_seq)).

(** The views borrow the mapping, which the range keeps; a committed record is not written
    again. *)
Definition LoadOutboundRangeViews (session_id begin_seq end_seq : Z) : SE (World * Impl) (list MessageRecordView) :=
  if bad_range begin_seq end_seq then fail (status.InvalidArgument "invalid outbound load range")
  else EnsureMapping ;;; s <- get ;; ret (map (fun x => record_view (record_of (mapping_bytes s) (snd x))) (offsets_of (snd s) session_id begin_seq end_seq)).

Fixpoint inbound_loop (fuel : nat) (mapping : list Z) (session_id begin_seq end_seq scan_end offset : Z) (records : list MessageRecord) : Result (list MessageRecord) :=
  match fuel with
  | O => Error diverges
  | S fuel =>
      if scan_end <=? offset then Value records
      else if scan_end <? u64 (offset + kStoreRecordHeaderSize) then Error (status.FormatError "mmap store contains a truncated record header")
      else
        let h := RecordAt mapping offset in
        if negb (rh_header_size h =? kStoreRecordHeaderSize) then Error (status.FormatError "mmap store contains a record with an unexpected header size")
        else if rh_payload_size h <? rh_body_start_offset h then Error (status.FormatError "mmap store contains an invalid body_start_offset")
        else
          let record_end := u64 (offset + kStoreRecordHeaderSize + rh_payload_size h) in
          if scan_end <? record_end then Error (status.FormatError "mmap store contains a truncated record payload")
          else
            let ty := rh_record_type h in
            if ty =? StoreRecordType.kInbound then
              let wanted := (rh_session_id h =? session_id) && (begin_seq <=? rh_seq_num h) && (rh_seq_num h <=? end_seq) in
              inbound_loop fuel mapping session_id begin_seq end_seq scan_end record_end (if wanted then records ++ [record_of mapping offset] else records)
            else if (ty =? StoreRecordType.kOutbound) || (ty =? StoreRecordType.kRecoveryState) then inbound_loop fuel mapping session_id begin_seq end_seq scan_end record_end records
            else Error (status.FormatError "mmap store contains an unknown record type")
  end.

Definition LoadInboundRange (session_id begin_seq end_seq : Z) : SE (World * Impl) (list MessageRecord) :=
  if bad_range begin_seq end_seq then fail (status.InvalidArgument "invalid inbound load range")
  else
    EnsureMapping ;;;
    s <- get ;;
    let mapping := mapping_bytes s in
    let scan_end := Z.min (fh_file_size (Header mapping)) (default 0 (im_mapping (snd s))) in
    match inbound_loop (S (Z.to_nat scan_end)) mapping session_id begin_seq end_seq scan_end kStoreFileHeaderSize [] with
    | Value records => ret (stable_sort rec_seq_num records)
    | Error e => fail e
    end.

Definition LoadRecoveryState (session_id : Z) : SE (World * Impl) SessionRecoveryState :=
  Open ;;;
  s <- get ;;
  match im_recovery_states (snd s) !! session_id with Some r => ret r | None => fail (status.NotFound "recovery state not found") end.

(** ** Closing and flushing *)

Definition CloseResources (i : Impl) : Impl := NewImpl.

Definition Flush : SE (World * Impl) unit :=
  s <- get ;;
  match im_fd (snd s) with
  | None => fail (status.IoError "mmap store is not open")
  | f => ok <- disk (os (fdatasync f)) ;; if ok : bool then ret tt else disk (io_error "unable to fdatasync mmap store")
  end.

Definition Refresh : SE (World * Impl) unit := private CloseResources ;;; Open.
End File.

(** ** Reset *)

(** [std::filesystem::path::parent_path] of a path with a separator: what is before the
    last one, without the separators at its end unless nothing else is left. *)
Fixpoint drop_separators (reversed : list Z) : list Z := match reversed with 47 :: l => drop_separators l | _ => reversed end.
Fixpoint behind_separator (reversed : list Z) : option (list Z) := match reversed with [] => None | 47 :: l => Some l | _ :: l => behind_separator l end.
Definition parent_path : option (list Z) :=
  match behind_separator (rev (bytes path)) with
  | None => None
  | Some l => Some (match drop_separators l with [] => [47] | l => rev l end)
  end.

Definition prepare_parent : SE World unit :=
  match parent_path with
  | None => ret tt
  | Some parent => made <- os attempt ;; if made : bool then ret tt else fun w => (w, Error (status.IoError ("unable to prepare mmap store directory '" +:+ text_of parent +:+ "': " +:+ w_errno w)))
  end.

Definition remove_rebuilt : SE World unit :=
  removed <- os (call (Remove (self true))) ;;
  if removed : bool then ret tt else fun w => (w, Error (status.IoError ("unable to prepare temporary mmap store '" +:+ self_text true +:+ "': " +:+ w_errno w))).

(** A record of another session is saved in the file beside. *)
Definition resave (session_id : Z) (mapping : list Z) (offset : Z) : SE (World * Impl) unit :=
  let h := RecordAt mapping offset in
  if rh_session_id h =? session_id then ret tt
  else
    let v := MkView (rh_session_id h) (rh_seq_num h) (rh_timestamp_ns h) (rh_flags h) (PayloadAt mapping offset (rh_payload_size h)) (rh_body_start_offset h) in
    let ty := rh_record_type h in
    if ty =? StoreRecordType.kOutbound then SaveOutboundView true v
    else if ty =? StoreRecordType.kInbound then SaveInboundView true v
    else if ty =? StoreRecordType.kRecoveryState then SaveRecoveryState true (state_of h)
    else fail (status.FormatError "mmap store contains an unknown record type").

Fixpoint rebuild_loop (fuel : nat) (session_id : Z) (mapping : list Z) (committed_size offset : Z) : SE (World * Impl) unit :=
  match fuel with
  | O => fail diverges
  | S fuel =>
      if committed_size <=? offset then ret tt
      else
        resave session_id mapping offset ;;;
        rebuild_loop fuel session_id mapping committed_size (u64 (offset + kStoreRecordHeaderSize + rh_payload_size (RecordAt mapping offset)))
  end.

(** The other object, from its construction to its flush. *)
Definition rebuild (session_id : Z) (mapping : list Z) : SE World unit :=
  let scan := ScanMapping mapping (fh_file_size (Header mapping)) in
  fun w =>
    let '(s, r) := (Open true ;;; rebuild_loop (S (Z.to_nat (ss_committed_size scan))) session_id mapping (ss_committed_size scan) kStoreFileHeaderSize ;;; Flush true) (w, NewImpl) in
    (fst s, r).

Definition replace_store : SE World unit :=
  replaced <- os (rename_file (self true) (self false)) ;;
  if replaced : bool then ret tt else fun w => (w, Error (status.IoError ("unable to replace mmap store '" +:+ path +:+ "': " +:+ w_errno w))).

Definition ResetSession (session_id : Z) : SE (World * Impl) unit :=
  if session_id =? 0 then fail (status.InvalidArgument "session reset requires a valid session id")
  else
    Open false ;;;
    disk prepare_parent ;;;
    disk remove_rebuilt ;;;
    s <- get ;;
    disk (rebuild session_id (mapping_bytes false s)) ;;;
    private CloseResources ;;;
    disk replace_store ;;;
    Open false.
End Store.
End Mmap.
