(* ===== verification/MmapProofs.v ===== *)
(** * The mmap store: refinement and atomic appends

    The file of a store that holds a list of entries, the scan that reads it, every
    operation on it, the store beside the abstract one, and appends that are cut off. *)
From S2P Require Import Prelude Base StdAlgo Wire SessionStore Artifact Disk DurableStore DurableProofs DurableRep DurableRefines DurableCrash MmapStore.
Import Mmap.
Open Scope Z_scope.

#[export] Instance mmap_file_header_spec : PodSpec StoreFileHeader.
Proof. constructor; [done|by intros []|cbn; lia]. Qed.
#[export] Instance mmap_record_header_spec : PodSpec StoreRecordHeader.
Proof. constructor; [done|by intros []|cbn; lia]. Qed.

(** ** The file of a list of entries *)

Definition entry_header (e : Entry) : StoreRecordHeader :=
  match e with
  | EMessage m => let v := snd m in MkRecordHeader (if fst m then StoreRecordType.kOutbound else StoreRecordType.kInbound) kStoreRecordHeaderSize (v_flags v) (v_session_id v) (v_seq_num v) (payload_size m) (v_timestamp_ns v) 0 0 0 0 0 (v_body_start_offset v)
  | EState r => MkRecordHeader StoreRecordType.kRecoveryState kStoreRecordHeaderSize 0 (r_session_id r) 0 0 0 (r_next_in_seq r) (r_next_out_seq r) (r_last_inbound_ns r) (r_last_outbound_ns r) (if r_active r then kActiveRecoveryStateValue else 0) 0
  end.
Definition entry_bytes (e : Entry) : list Z := pod_bytes (entry_header e) ++ entry_payload e.
Definition entry_size (e : Entry) : Z := kStoreRecordHeaderSize + Z.of_nat (length (entry_payload e)).
Definition body_of (l : list Entry) : list Z := concat (map entry_bytes l).
Definition end_of (l : list Entry) : Z := kStoreFileHeaderSize + Z.of_nat (length (body_of l)).
Definition mmap_file (l : list Entry) : list Z := pod_bytes (BuildFileHeader (end_of l)) ++ body_of l.

Definition entry_ok (e : Entry) : Prop := match e with EMessage m => msg_ok m | EState r => state_ok r end.
(** What is in the file, as the types of the source have it, within [off_t]. *)
Definition file_ok (l : list Entry) : Prop := Forall entry_ok l /\ end_of l < kLimit.

Lemma entry_header_fits e : entry_ok e -> pod_fits (entry_header e).
Proof.
  destruct e as [m|r]; intros []; unfold payload_size in *; pod_words; cbn; try apply zero_fits; try (apply word_fits_4; destruct (fst m); unfold payload_size, StoreRecordType.kOutbound, StoreRecordType.kInbound in *; ulia); try (by apply word_fits_16); try (apply word_fits_8; ulia); try (by apply word_fits_4).
  unfold word_fits. destruct (r_active r); change (256 ^ Z.of_nat 1) with 256; unfold kActiveRecoveryStateValue; lia.
Qed.

Lemma file_size_fits size : in_u64 size -> pod_fits (BuildFileHeader size).
Proof. intros Hs. pod_words; cbn [BuildFileHeader fh_magic fh_version fh_header_size fh_file_size fh_reserved0]; [split; [by apply Z.leb_le|by apply Z.ltb_lt]..|by apply word_fits_8|apply zero_fits]. Qed.

Lemma entry_payload_size e : rh_payload_size (entry_header e) = Z.of_nat (length (entry_payload e)).
Proof. by destruct e. Qed.

Lemma length_entry_bytes e : Z.of_nat (length (entry_bytes e)) = entry_size e.
Proof. unfold entry_bytes, entry_size, kStoreRecordHeaderSize. rewrite length_app, length_pod_bytes. lia. Qed.

Lemma entry_size_pos e : 64 <= entry_size e.
Proof. unfold entry_size. change kStoreRecordHeaderSize with 64. lia. Qed.

Lemma body_of_app l l' : body_of (l ++ l') = body_of l ++ body_of l'.
Proof. unfold body_of. by rewrite map_app, concat_app. Qed.

Lemma end_of_snoc l e : end_of (l ++ [e]) = end_of l + entry_size e.
Proof. unfold end_of. rewrite body_of_app, length_app. cbn [body_of map concat]. unfold body_of. cbn [map concat]. rewrite app_nil_r, <- (length_entry_bytes e). lia. Qed.

Lemma end_of_app l l' : end_of (l ++ l') = end_of l + Z.of_nat (length (body_of l')).
Proof. unfold end_of. rewrite body_of_app, length_app. lia. Qed.

Lemma end_of_min l : kStoreFileHeaderSize <= end_of l.
Proof. unfold end_of. lia. Qed.

Lemma length_mmap_file l : Z.of_nat (length (mmap_file l)) = end_of l.
Proof. unfold mmap_file, end_of, kStoreFileHeaderSize. rewrite length_app, length_pod_bytes. lia. Qed.

Lemma length_body_of l : 64 * Z.of_nat (length l) <= Z.of_nat (length (body_of l)).
Proof. induction l as [|e l IH]; [done|]. unfold body_of in *. cbn [map concat length]. rewrite length_app, Nat2Z.inj_add, length_entry_bytes. pose proof (entry_size_pos e). lia. Qed.

Lemma file_header_of l tail : end_of l < kLimit -> Header (mmap_file l ++ tail) = BuildFileHeader (end_of l).
Proof.
  intros Hl. unfold Header, mmap_file, slice. rewrite drop_0, <- app_assoc, take_app_length' by (by rewrite length_pod_bytes). rewrite <- (app_nil_r (pod_bytes (BuildFileHeader (end_of l)))). apply pod_read_bytes, file_size_fits. pose proof (end_of_min l). change kStoreFileHeaderSize with 32 in *. unfold kLimit in Hl. ulia.
Qed.

(** ** Records in a mapping *)

(** A mapping that shows these records behind the header. *)
Definition shows (l : list Entry) (mapping : list Z) : Prop := exists header tail, length header = pod_size StoreFileHeader /\ mapping = header ++ body_of l ++ tail.

Lemma file_shows l tail : shows l (mmap_file l ++ tail).
Proof. exists (pod_bytes (BuildFileHeader (end_of l))), tail. split; [apply length_pod_bytes|]. unfold mmap_file. by rewrite <- app_assoc. Qed.

Lemma shows_split pre e l mapping : shows (pre ++ e :: l) mapping -> exists header tail, length header = Z.to_nat (end_of pre) /\ mapping = header ++ entry_bytes e ++ tail.
Proof.
  intros (header & tail & Hh & ->). exists (header ++ body_of pre), (body_of l ++ tail). split; [unfold end_of, kStoreFileHeaderSize; rewrite length_app, Hh; lia|]. rewrite body_of_app, <- !app_assoc. f_equal. f_equal. unfold body_of. cbn [map concat]. by rewrite <- app_assoc.
Qed.

Lemma record_at pre e l mapping : shows (pre ++ e :: l) mapping -> entry_ok e -> RecordAt mapping (end_of pre) = entry_header e.
Proof.
  intros (header & tail & Hh & ->)%shows_split He. unfold RecordAt, slice, entry_bytes. rewrite <- Hh, drop_app_length, <- !app_assoc, take_app_length' by (by rewrite length_pod_bytes). rewrite <- (app_nil_r (pod_bytes (entry_header e))). by apply pod_read_bytes, entry_header_fits.
Qed.

Lemma payload_at pre e l mapping : shows (pre ++ e :: l) mapping -> PayloadAt mapping (end_of pre) (Z.of_nat (length (entry_payload e))) = entry_payload e.
Proof.
  intros (header & tail & Hh & ->)%shows_split. unfold PayloadAt, slice, entry_bytes. pose proof (end_of_min pre). change kStoreFileHeaderSize with 32 in *. rewrite Z2Nat.inj_add, <- Hh by (unfold kStoreRecordHeaderSize; lia). unfold kStoreRecordHeaderSize. rewrite !Nat2Z.id, drop_app_add, <- !app_assoc, <- (length_pod_bytes (entry_header e)), drop_app_length. apply take_app_length.
Qed.

(** ** Scanning *)

Definition scan_entry (x : Z * Offsets * gmap Z SessionRecoveryState) (e : Entry) : Z * Offsets * gmap Z SessionRecoveryState :=
  let '(offset, offsets, states) := x in
  (offset + entry_size e,
   match e with EMessage (true, v) => set_offset (v_session_id v) (v_seq_num v) offset offsets | _ => offsets end,
   match e with EState r => <[r_session_id r := r]> states | _ => states end).
Definition scanned (l : list Entry) : Z * Offsets * gmap Z SessionRecoveryState := fold_left scan_entry l (kStoreFileHeaderSize, ∅, ∅).
Definition offsets (l : list Entry) : Offsets := snd (fst (scanned l)).

Lemma scanned_snoc l e : scanned (l ++ [e]) = scan_entry (scanned l) e.
Proof. unfold scanned. by rewrite fold_left_app. Qed.

Lemma scanned_end l : fst (fst (scanned l)) = end_of l.
Proof. induction l as [|e l IH] using rev_ind; [done|]. rewrite scanned_snoc, end_of_snoc, <- IH. by destruct (scanned l) as [[o m] s]. Qed.

Lemma scanned_states l : snd (scanned l) = add_states (states_of l) ∅.
Proof.
  induction l as [|e l IH] using rev_ind; [done|]. rewrite scanned_snoc, states_of_app, add_states_app, <- IH. destruct (scanned l) as [[o m] s]. by destruct e as [[]|].
Qed.

Lemma state_of_entry r : state_of (entry_header (EState r)) = r.
Proof. destruct r as [? ? ? ? ? []]; done. Qed.

Lemma scan_step mapping pre e l scan_end : shows (pre ++ e :: l) mapping -> entry_ok e -> end_of (pre ++ [e]) <= scan_end < kLimit ->
  let h := entry_header e in
  (scan_end <=? end_of pre) = false /\ (scan_end <? u64 (end_of pre + kStoreRecordHeaderSize)) = false /\ (rh_header_size h =? kStoreRecordHeaderSize) = true /\ (rh_payload_size h <? rh_body_start_offset h) = false /\
  u64 (end_of pre + kStoreRecordHeaderSize + rh_payload_size h) = end_of (pre ++ [e]) /\ (scan_end <? end_of (pre ++ [e])) = false.
Proof.
  intros Hs He Hb h. rewrite end_of_snoc in *. pose proof (end_of_min pre). pose proof (entry_size_pos e). unfold h. rewrite entry_payload_size. unfold entry_size in *. change kStoreFileHeaderSize with 32 in *. change kStoreRecordHeaderSize with 64 in *. unfold kLimit in Hb. rewrite !u64_small by ulia. split_and!; try (apply Z.leb_gt; lia); try (apply Z.ltb_ge; lia); [destruct e; done| |lia].
  apply Z.ltb_ge. destruct e as [m|r]; cbn; [destruct He as [_ _ _ _ _ Hbo]; unfold payload_size in Hbo; lia|lia].
Qed.

Lemma scan_entries mapping : forall l pre fuel scan_end, shows (pre ++ l) mapping -> Forall entry_ok l -> end_of (pre ++ l) < kLimit -> scan_end = end_of (pre ++ l) -> (length l < fuel)%nat ->
  forall s, s = MkScan (end_of pre) false (offsets pre) (snd (scanned pre)) -> scan_loop fuel mapping scan_end (end_of pre) s = MkScan (end_of (pre ++ l)) false (offsets (pre ++ l)) (snd (scanned (pre ++ l))).
Proof.
  induction l as [|e l IH]; intros pre fuel scan_end Hs Hl Hb -> Hf s ->; (destruct fuel as [|fuel]; [cbn in Hf; lia|]); cbn [scan_loop].
  - rewrite app_nil_r, Z.leb_refl. done.
  - apply Forall_cons in Hl as [He Hl]. assert (Happ : (pre ++ [e]) ++ l = pre ++ e :: l) by (by rewrite <- app_assoc). assert (Hend : end_of (pre ++ [e]) <= end_of (pre ++ e :: l)) by (rewrite <- Happ, (end_of_app (pre ++ [e]) l); lia).
    destruct (scan_step mapping pre e l (end_of (pre ++ e :: l)) Hs He (conj Hend Hb)) as (E1 & E2 & E3 & E4 & E5 & E6). rewrite E1, E2, (record_at pre e l mapping Hs He), E3, E4, E5, E6. cbn [negb]. cbn [ss_outbound_offsets ss_recovery_states].
    rewrite <- Happ in *. assert (Hgo : forall o st, o = offsets (pre ++ [e]) -> st = snd (scanned (pre ++ [e])) -> scan_loop fuel mapping (end_of ((pre ++ [e]) ++ l)) (end_of (pre ++ [e])) (MkScan (end_of (pre ++ [e])) false o st) = MkScan (end_of ((pre ++ [e]) ++ l)) false (offsets ((pre ++ [e]) ++ l)) (snd (scanned ((pre ++ [e]) ++ l)))).
    { intros o st -> ->. apply (IH (pre ++ [e])); try done. cbn in Hf. lia. }
    pose proof (scanned_end pre) as Hse. unfold offsets in Hgo at 1. unfold offsets at 1 2 3. rewrite scanned_snoc in Hgo. destruct (scanned pre) as [[o m] st]. cbn in Hse. subst o. cbn [scan_entry fst snd] in *.
    destruct e as [[[] v]|r]; cbn [entry_header fst snd rh_record_type rh_session_id rh_seq_num Z.eqb Pos.eqb StoreRecordType.kOutbound StoreRecordType.kInbound StoreRecordType.kRecoveryState]; apply Hgo; try done. f_equal. exact (state_of_entry r).
Qed.

Lemma scan_file l tail : file_ok l -> ScanMapping (mmap_file l ++ tail) (end_of l) = MkScan (end_of l) false (offsets l) (add_states (states_of l) ∅).
Proof.
  intros [Hl Hb]. unfold ScanMapping. rewrite <- scanned_states. apply (scan_entries _ l []); try done; [apply file_shows|].
  pose proof (length_body_of l). unfold end_of. change kStoreFileHeaderSize with 32. lia.
Qed.

(** ** The store *)

Section Store.
Context (path : string) (policy : SyncPolicy) (home : bool).

Definition mmap_stored (l : list Entry) (f : Files) : Prop := f !! self path home = Some (mmap_file l).
Record mmap_opened (l : list Entry) (i : Impl) : Prop := {
  mo_fd : im_fd i = Some (self path home);
  mo_mapping : im_mapping i = Some (end_of l);
  mo_offsets : im_outbound_offsets i = offsets l;
  mo_states : im_recovery_states i = add_states (states_of l) ∅;
}.

Lemma does_stat f c : f !! self path home = Some c -> does (stat_size path home) f f (Z.of_nat (length c)).
Proof. intros Hc. unfold stat_size. eapply does_bind; [apply does_attempt|]. cbv beta. apply does_get. intros w [Hf _]. rewrite (content_at _ _ _ _ Hf Hc). apply does_ret. Qed.

Lemma does_map size f : does (MapFile size) f f size.
Proof. unfold MapFile. eapply does_bind; [apply does_attempt|]. apply does_ret. Qed.

Lemma does_sync_every f : does (sync_every_write path policy home (Some (self path home))) f f tt.
Proof. unfold sync_every_write. destruct (every_write policy); [|apply does_ret]. eapply does_bind; [exact (does_call (Sync (self path home)) f)|apply does_ret]. Qed.

Lemma does_resize size what f c : f !! self path home = Some c -> does (resize_file path home size what) f (<[self path home := resize (Z.to_nat size) c]> f) tt.
Proof.
  intros Hc. unfold resize_file, ftruncate. eapply does_bind; [apply does_call|]. cbv beta iota. cbn [apply_op]. assert (E : alter (resize (Z.to_nat size)) (self path home) f = <[self path home := resize (Z.to_nat size) c]> f); [|rewrite E; apply does_ret].
  apply map_eq. intros r. destruct (decide (self path home = r)) as [<-|Hr]; [by rewrite lookup_alter_eq, lookup_insert_eq, Hc|by rewrite lookup_alter_ne, lookup_insert_ne].
Qed.

Lemma does_write_file data offset what f c : f !! self path home = Some c -> 0 <= offset <= Z.of_nat (length c) -> does (write_file path home (Some (self path home)) data offset what) f (<[self path home := write_at (Z.to_nat offset) data c]> f) tt.
Proof. intros Hc Ho. unfold write_file. eapply does_bind; [by apply does_write|]. apply does_ret. Qed.

Lemma resize_prefix n a tail : length a = n -> resize n (a ++ tail) = a.
Proof. intros <-. unfold resize, pad. rewrite take_app_le by (rewrite length_app; lia). apply take_app_length. Qed.

Definition after_open (l : list Entry) (i : Impl) : Impl := adopt (end_of l) (MkScan (end_of l) false (offsets l) (add_states (states_of l) ∅)) i.

Lemma after_open_opened l i : im_fd i = Some (self path home) -> mmap_opened l (after_open l i).
Proof. by constructor. Qed.

(** A file that begins with these entries: what is behind them is cut off. *)
Lemma scan_prefix l tail f i : file_ok l -> f !! self path home = Some (mmap_file l ++ tail) ->
  yields (map_and_scan path policy home (Some (self path home))) f i (<[self path home := mmap_file l]> f) (after_open l i) tt.
Proof.
  intros Hok Hf. pose proof Hok as [Hl Hb]. pose proof (end_of_min l) as Hmin. change kStoreFileHeaderSize with 32 in Hmin.
  assert (Hsz : Z.of_nat (length (mmap_file l ++ tail)) = end_of l + Z.of_nat (length tail)) by (rewrite length_app, Nat2Z.inj_add, length_mmap_file; done).
  unfold map_and_scan. eapply yields_bind; [by eapply yields_disk, does_stat|]. cbv beta. rewrite Hsz. eapply yields_bind; [apply yields_disk, does_map|]. cbv beta.
  apply yields_get. intros w [Hfw Hsw]. cbn [fst]. assert (Em : mapped path home (end_of l + Z.of_nat (length tail)) w = mmap_file l ++ tail) by (unfold mapped; rewrite (content_at _ _ _ _ Hfw Hf); apply take_ge; lia).
  rewrite Em, (file_header_of l tail Hb). assert (Hbad : bad_header (BuildFileHeader (end_of l)) = false) by (unfold bad_header, HasStoreMagic; cbn [BuildFileHeader fh_magic fh_version fh_header_size fh_file_size]; rewrite !Z.eqb_refl; cbn [negb orb]; apply Z.ltb_ge; change kStoreFileHeaderSize with 32; lia). rewrite Hbad.
  cbn [BuildFileHeader fh_file_size]. rewrite Z.min_l by lia. rewrite (scan_file l tail Hok). unfold desired_size. cbn [ss_truncated_tail negb andb BuildFileHeader fh_file_size orb]. destruct (Z.leb_spec (end_of l) (end_of l + Z.of_nat (length tail))) as [_|?]; [|lia]. rewrite Z.eqb_refl. cbn [negb orb].
  destruct (Z.eqb_spec (end_of l + Z.of_nat (length tail)) (end_of l)) as [E|E]; cbn [negb].
  - assert (tail = []) as -> by (destruct tail; [done|cbn in E; lia]). rewrite app_nil_r in *. rewrite (insert_id f _ _ Hf). rewrite E. exact (yields_private _ _ _).
  - eapply yields_bind.
    + apply yields_disk. unfold repair. eapply does_bind; [eapply does_resize; exact Hf|]. cbv beta. rewrite resize_prefix by (rewrite <- (Nat2Z.id (length (mmap_file l))), length_mmap_file; done).
      eapply does_bind; [eapply does_write_file; [apply lookup_insert_eq|rewrite length_mmap_file; lia]|]. cbv beta. rewrite insert_insert_eq. assert (Ew : write_at (Z.to_nat 0) (pod_bytes (BuildFileHeader (end_of l))) (mmap_file l) = mmap_file l) by (rewrite Z2Nat.inj_0, write_at_start; unfold mmap_file; by rewrite drop_app_length). rewrite Ew.
      eapply does_bind; [apply does_sync_every|]. apply does_map.
    + cbv beta. apply yields_get. intros w1 [Hfw1 _]. cbn [fst]. assert (Em1 : mapped path home (end_of l) w1 = mmap_file l ++ []) by (unfold mapped; rewrite (content_at _ _ _ _ Hfw1 (lookup_insert_eq _ _ _)), app_nil_r; apply take_ge; pose proof (length_mmap_file l); lia). rewrite Em1, (scan_file l [] Hok). exact (yields_private _ _ _).
Qed.

Lemma open_prefix l tail f i : file_ok l -> f !! self path home = Some (mmap_file l ++ tail) -> (im_fd i = None \/ im_fd i = Some (self path home)) ->
  yields (Open path policy home) f i (<[self path home := mmap_file l]> f) (after_open l (with_fd (Some (self path home)) i)) tt.
Proof.
  intros Hok Hf Hfd. set (i1 := with_fd (Some (self path home)) i). unfold Open. eapply yields_bind with (a1 := i1) (f1 := f).
  { unfold open_fd. apply yields_get. intros w Hw. cbn [snd]. destruct Hfd as [E|E]; rewrite E.
    - eapply yields_bind; [apply yields_disk, does_open_file|]. cbn [apply_op]. rewrite Hf. exact (yields_private _ _ _).
    - assert (Ei : i = i1) by (unfold i1; destruct i; cbn in E; by subst). rewrite <- Ei. apply yields_ret. }
  cbv beta. apply yields_get. intros w0 Hw0. cbn [snd]. cbn [i1 with_fd im_fd]. eapply yields_bind; [by eapply yields_disk, does_stat|]. cbv beta.
  destruct (Z.eqb_spec (Z.of_nat (length (mmap_file l ++ tail))) 0) as [E|_]; [rewrite length_app, Nat2Z.inj_add, length_mmap_file in E; pose proof (end_of_min l); change kStoreFileHeaderSize with 32 in *; lia|]. eapply yields_bind; [apply yields_ret|]. cbv beta. by apply (scan_prefix l tail).
Qed.

Lemma empty_ok : file_ok [].
Proof. split; [constructor|by apply Z.ltb_lt]. Qed.

Lemma open_new f i : f !! self path home = None -> im_fd i = None -> yields (Open path policy home) f i (<[self path home := mmap_file []]> f) (after_open [] (with_fd (Some (self path home)) i)) tt.
Proof.
  intros Hf Hfd. set (i1 := with_fd (Some (self path home)) i). unfold Open. eapply yields_bind with (a1 := i1) (f1 := <[self path home := []]> f).
  { unfold open_fd. apply yields_get. intros w Hw. cbn [snd]. rewrite Hfd. eapply yields_bind; [apply yields_disk, does_open_file|]. cbn [apply_op]. rewrite Hf. exact (yields_private _ _ _). }
  cbv beta. apply yields_get. intros w0 Hw0. cbn [snd]. cbn [i1 with_fd im_fd]. eapply yields_bind; [eapply yields_disk, does_stat, lookup_insert_eq|]. cbv beta. change (Z.of_nat (length (@nil Z)) =? 0) with true. cbv iota.
  eapply yields_bind with (a1 := i1) (f1 := <[self path home := mmap_file []]> f).
  - apply yields_disk. unfold initialize. eapply does_bind; [eapply does_resize, lookup_insert_eq|]. cbv beta. rewrite insert_insert_eq. eapply does_bind; [eapply does_write_file; [apply lookup_insert_eq|split; [lia|apply Nat2Z.is_nonneg]]|]. cbv beta. rewrite insert_insert_eq.
    assert (E : write_at (Z.to_nat 0) (pod_bytes (BuildFileHeader kStoreFileHeaderSize)) (resize (Z.to_nat kStoreFileHeaderSize) []) = mmap_file []) by (vm_compute; reflexivity). rewrite E. apply does_sync_every.
  - cbv beta. pose proof (scan_prefix [] [] (<[self path home := mmap_file []]> f) i1 empty_ok) as H. rewrite insert_insert_eq in H. apply H; rewrite app_nil_r; apply lookup_insert_eq.
Qed.

Lemma open_stored_again l f i : file_ok l -> mmap_stored l f -> mmap_opened l i -> yields (Open path policy home) f i f i tt.
Proof.
  intros Hok Hs [O1 O2 O3 O4]. pose proof (open_prefix l [] f i) as H. rewrite app_nil_r, (insert_id f _ _ Hs) in H. assert (E : after_open l (with_fd (Some (self path home)) i) = i) by (destruct i; cbn in *; by subst). rewrite E in H. apply H; [done|done|by right].
Qed.

(** *** Saving *)

Definition mmap_save (e : Entry) : SE (World * Impl) unit :=
  match e with
  | EMessage m => if fst m then SaveOutboundView path policy home (snd m) else SaveInboundView path policy home (snd m)
  | EState r => SaveRecoveryState path policy home r
  end.

Lemma mmap_view_validates m : msg_ok m -> ValidateRecordView (snd m) = status.Ok.
Proof.
  intros [H1 H2 _ _ H5 H6]. unfold payload_size in *. unfold ValidateRecordView. destruct (Z.eqb_spec (v_session_id (snd m)) 0) as [?|_]; [lia|]. destruct (Z.eqb_spec (v_seq_num (snd m)) 0) as [?|_]; [lia|]. destruct (Z.ltb_spec UINT32_MAX (Z.of_nat (length (v_payload (snd m))))) as [?|_]; [lia|]. by destruct (Z.ltb_spec (Z.of_nat (length (v_payload (snd m)))) (v_body_start_offset (snd m))) as [?|_]; [lia|].
Qed.

(** What the file holds between the extension and the new header. *)
Lemma resize_more n c : (length c <= n)%nat -> resize n c = c ++ replicate (n - length c) 0.
Proof. intros Hn. unfold resize, pad. apply take_ge. rewrite length_app, length_replicate. lia. Qed.

Lemma write_behind a b data : length b = length data -> write_at (length a) data (a ++ b) = a ++ data.
Proof.
  intros Hb. unfold write_at, pad. rewrite length_app. replace (length a - (length a + length b))%nat with O by lia. cbn [replicate]. rewrite app_nil_r, take_app_length, drop_ge by (rewrite length_app; lia). by rewrite app_nil_r.
Qed.

(** The records of a file with the header of the entries before. *)
Definition uncommitted (l : list Entry) (e : Entry) : list Z := mmap_file l ++ entry_bytes e.

Lemma append_bytes l e : let blank := mmap_file l ++ replicate (Z.to_nat (entry_size e)) 0 in
  write_at (Z.to_nat (end_of l)) (pod_bytes (entry_header e)) (write_at (Z.to_nat (end_of l + kStoreRecordHeaderSize)) (entry_payload e) blank) = uncommitted l e.
Proof.
  intros blank. pose proof (length_mmap_file l) as Hl. set (h := pod_bytes (entry_header e)). assert (Hh : length h = pod_size StoreRecordHeader) by apply length_pod_bytes.
  assert (Eb : blank = mmap_file l ++ replicate (length h) 0 ++ replicate (length (entry_payload e)) 0) by (unfold blank; rewrite <- replicate_add; do 2 f_equal; unfold entry_size, kStoreRecordHeaderSize; rewrite Hh; lia). rewrite Eb, app_assoc.
  assert (Eo : Z.to_nat (end_of l + kStoreRecordHeaderSize) = length (mmap_file l ++ replicate (length h) 0)) by (rewrite length_app, length_replicate, Hh; unfold kStoreRecordHeaderSize; lia). rewrite Eo, write_behind by (by rewrite length_replicate).
  assert (Eo2 : Z.to_nat (end_of l) = length (mmap_file l)) by lia. rewrite Eo2. unfold write_at, pad, uncommitted, entry_bytes. fold h. rewrite !length_app, length_replicate. replace (length (mmap_file l) - (length (mmap_file l) + length h + length (entry_payload e)))%nat with O by lia. cbn [replicate]. rewrite app_nil_r, <- !app_assoc, take_app_length. f_equal. f_equal.
  rewrite drop_app_add, drop_app_length'; [done|by rewrite length_replicate].
Qed.

Lemma commit_bytes l e : write_at 0 (pod_bytes (BuildFileHeader (end_of (l ++ [e])))) (uncommitted l e) = mmap_file (l ++ [e]).
Proof.
  rewrite write_at_start. unfold uncommitted, mmap_file. rewrite <- app_assoc, length_pod_bytes, <- (length_pod_bytes (BuildFileHeader (end_of l))), drop_app_length. f_equal. rewrite body_of_app. unfold body_of at 3. cbn [map concat]. by rewrite app_nil_r.
Qed.

Lemma length_uncommitted l e : Z.of_nat (length (uncommitted l e)) = end_of (l ++ [e]).
Proof. unfold uncommitted. rewrite length_app, Nat2Z.inj_add, length_mmap_file, length_entry_bytes, end_of_snoc. done. Qed.

Lemma file_ok_snoc l e : file_ok (l ++ [e]) -> file_ok l /\ entry_ok e /\ end_of l + entry_size e < kLimit.
Proof. intros [[Hl [He _]%Forall_cons]%Forall_app Hb]. rewrite end_of_snoc in Hb. pose proof (entry_size_pos e). split; [split; [done|lia]|done]. Qed.

(** The header that the mapping of a store shows. *)
Lemma mapping_header_of l tail w i : end_of l < kLimit -> content w (self path home) = mmap_file l ++ tail -> im_mapping i = Some (end_of l) -> mapping_header path home (w, i) = BuildFileHeader (end_of l).
Proof.
  intros Hb Hc Hm. unfold mapping_header, mapped. cbn [fst snd]. rewrite Hm, Hc. cbn [default from_option id]. assert (E : Z.to_nat (end_of l) = length (mmap_file l)) by (pose proof (length_mmap_file l); lia). rewrite E, take_app_length, <- (app_nil_r (mmap_file l)). by apply file_header_of.
Qed.

Lemma commit_yields l e f i : file_ok (l ++ [e]) -> f !! self path home = Some (uncommitted l e) -> im_mapping i = Some (end_of l) ->
  yields (commit_size path policy home (Some (self path home)) (end_of (l ++ [e]))) f i (<[self path home := mmap_file (l ++ [e])]> f) (with_mapping (Some (end_of (l ++ [e]))) i) tt.
Proof.
  intros Hok Hf Hm. destruct (file_ok_snoc l e Hok) as ([_ Hb] & _ & _). unfold commit_size. apply yields_get. intros w [Hfw _]. rewrite (mapping_header_of l (entry_bytes e) w i Hb (content_at _ _ _ _ Hfw Hf) Hm). change (with_file_size (end_of (l ++ [e])) (BuildFileHeader (end_of l))) with (BuildFileHeader (end_of (l ++ [e]))).
  eapply yields_bind; [apply yields_disk; eapply does_write_file; [exact Hf|lia]|]. cbv beta. rewrite Z2Nat.inj_0, commit_bytes. eapply yields_bind; [apply yields_disk, does_sync_every|]. cbv beta. unfold RemapFile. apply yields_get. intros w1 _. cbn [snd]. rewrite Hm. eapply yields_bind; [apply yields_disk, does_map|]. exact (yields_private _ _ _).
Qed.

Lemma blank_bytes l e : resize (Z.to_nat (end_of (l ++ [e]))) (mmap_file l) = mmap_file l ++ replicate (Z.to_nat (entry_size e)) 0.
Proof. pose proof (length_mmap_file l). pose proof (entry_size_pos e). pose proof (end_of_snoc l e). rewrite resize_more by lia. do 2 f_equal. lia. Qed.

Lemma new_size_small l e : end_of l + entry_size e < kLimit -> u64 (end_of l + entry_size e) = end_of (l ++ [e]) /\ u64 (end_of l + kStoreRecordHeaderSize) = end_of l + kStoreRecordHeaderSize.
Proof. intros Hb. pose proof (end_of_min l). pose proof (entry_size_pos e). unfold entry_size in *. change kStoreFileHeaderSize with 32 in *. change kStoreRecordHeaderSize with 64 in *. unfold kLimit in Hb. rewrite !u64_small by ulia. by rewrite end_of_snoc. Qed.

Lemma offsets_snoc l e : offsets (l ++ [e]) = match e with EMessage (true, v) => set_offset (v_session_id v) (v_seq_num v) (end_of l) (offsets l) | _ => offsets l end.
Proof. unfold offsets. rewrite scanned_snoc, <- scanned_end. by destruct (scanned l) as [[o m] s]. Qed.

Lemma states_snoc l e : add_states (states_of (l ++ [e])) ∅ = match e with EState r => <[r_session_id r := r]> (add_states (states_of l) ∅) | _ => add_states (states_of l) ∅ end.
Proof. rewrite states_of_app, add_states_app. by destruct e. Qed.

Lemma save_message l f i m : file_ok (l ++ [EMessage m]) -> mmap_stored l f -> mmap_opened l i ->
  exists i', yields (AppendOutboundLikeView path policy home (if fst m then StoreRecordType.kOutbound else StoreRecordType.kInbound) (snd m)) f i (<[self path home := mmap_file (l ++ [EMessage m])]> f) i' tt /\ mmap_opened (l ++ [EMessage m]) i'.
Proof.
  intros Hok Hs Ho. destruct (file_ok_snoc l _ Hok) as (Hl & Hm & Hb). pose proof Ho as [O1 O2 O3 O4]. destruct (new_size_small l _ Hb) as [Hn1 Hn2]. set (e := EMessage m) in *.
  exists (if fst m then with_offsets (set_offset (v_session_id (snd m)) (v_seq_num (snd m)) (end_of l) (im_outbound_offsets i)) (with_mapping (Some (end_of (l ++ [e]))) i) else with_mapping (Some (end_of (l ++ [e]))) i). split.
  - unfold AppendOutboundLikeView, expect. rewrite (mmap_view_validates m Hm). eapply yields_bind; [apply yields_ret|]. cbv beta. eapply yields_bind; [by eapply open_stored_again|]. cbv beta. apply yields_get. intros w [Hfw _]. cbn [snd].
    rewrite (mapping_header_of l [] w i (proj2 Hl) (eq_trans (content_at _ _ _ _ Hfw Hs) (eq_sym (app_nil_r _))) O2), O1. cbn [BuildFileHeader fh_file_size]. change (kStoreRecordHeaderSize + Z.of_nat (length (v_payload (snd m)))) with (entry_size e). rewrite Hn1, Hn2.
    eapply yields_bind; [apply yields_disk; eapply does_resize; exact Hs|]. cbv beta. rewrite blank_bytes. pose proof (length_mmap_file l) as Hlen. pose proof (end_of_min l) as Hmin. change kStoreFileHeaderSize with 32 in Hmin.
    eapply yields_bind; [apply yields_disk; eapply does_write_file; [apply lookup_insert_eq|rewrite length_app, length_replicate; unfold entry_size; change kStoreRecordHeaderSize with 64; lia]|]. cbv beta. rewrite insert_insert_eq.
    eapply yields_bind; [apply yields_disk; eapply does_write_file; [apply lookup_insert_eq|rewrite length_write_at, length_app; lia]|]. cbv beta. rewrite insert_insert_eq. change (MkRecordHeader _ _ _ _ _ _ _ _ _ _ _ _ _) with (entry_header e). change (v_payload (snd m)) with (entry_payload e). rewrite append_bytes.
    eapply yields_bind; [apply commit_yields; [done|apply lookup_insert_eq|done]|]. cbv beta. rewrite insert_insert_eq. destruct (fst m); cbn [StoreRecordType.kOutbound StoreRecordType.kInbound Z.eqb Pos.eqb]; [exact (yields_private _ _ _)|apply yields_ret].
  - destruct m as [[] v]; cbn [fst snd] in *; constructor; cbn; try done; unfold e; rewrite ?offsets_snoc, ?states_snoc, ?O3; done.
Qed.

Lemma save_state l f i r : file_ok (l ++ [EState r]) -> mmap_stored l f -> mmap_opened l i ->
  exists i', yields (AppendRecoveryState path policy home r) f i (<[self path home := mmap_file (l ++ [EState r])]> f) i' tt /\ mmap_opened (l ++ [EState r]) i'.
Proof.
  intros Hok Hs Ho. destruct (file_ok_snoc l _ Hok) as (Hl & Hm & Hb). pose proof Ho as [O1 O2 O3 O4]. destruct (new_size_small l _ Hb) as [Hn1 Hn2]. set (e := EState r) in *.
  exists (with_states (<[r_session_id r := r]> (im_recovery_states i)) (with_mapping (Some (end_of (l ++ [e]))) i)). split.
  - unfold AppendRecoveryState. destruct (Z.eqb_spec (r_session_id r) 0) as [E|_]; [destruct Hm; lia|]. eapply yields_bind; [by eapply open_stored_again|]. cbv beta. apply yields_get. intros w [Hfw _]. cbn [snd].
    rewrite (mapping_header_of l [] w i (proj2 Hl) (eq_trans (content_at _ _ _ _ Hfw Hs) (eq_sym (app_nil_r _))) O2), O1. cbn [BuildFileHeader fh_file_size]. assert (Hn0 : u64 (end_of l + kStoreRecordHeaderSize) = end_of (l ++ [e])) by (rewrite Hn2, end_of_snoc; unfold entry_size; change (length (entry_payload e)) with O; lia). rewrite Hn0.
    eapply yields_bind; [apply yields_disk; eapply does_resize; exact Hs|]. cbv beta. rewrite blank_bytes. pose proof (length_mmap_file l) as Hlen. pose proof (end_of_min l) as Hmin. change kStoreFileHeaderSize with 32 in Hmin.
    eapply yields_bind; [apply yields_disk; eapply does_write_file; [apply lookup_insert_eq|rewrite length_app; lia]|]. cbv beta. rewrite insert_insert_eq. change (MkRecordHeader _ _ _ _ _ _ _ _ _ _ _ _ _) with (entry_header e). pose proof (append_bytes l e) as Ha. cbn zeta in Ha. rewrite write_at_nil in Ha by (rewrite length_app, length_replicate; unfold entry_size; change kStoreRecordHeaderSize with 64; lia). rewrite Ha.
    eapply yields_bind; [apply commit_yields; [done|apply lookup_insert_eq|done]|]. cbv beta. rewrite insert_insert_eq. exact (yields_private _ _ _).
  - constructor; cbn; try done; unfold e; rewrite ?offsets_snoc, ?states_snoc, ?O4; done.
Qed.

Lemma save_yields l f i e : file_ok (l ++ [e]) -> mmap_stored l f -> mmap_opened l i -> exists i', yields (mmap_save e) f i (<[self path home := mmap_file (l ++ [e])]> f) i' tt /\ mmap_opened (l ++ [e]) i'.
Proof. intros Hok Hs Ho. destruct e as [m|r]; [|by apply save_state]. destruct (save_message l f i m Hok Hs Ho) as (i' & Hy & Ho'). exists i'. split; [|done]. destruct m as [[] v]; exact Hy. Qed.

Lemma flush_yields l f i : mmap_opened l i -> yields (Flush path home) f i f i tt.
Proof. intros [O1 _ _ _]. unfold Flush. apply yields_get. intros w _. cbn [snd]. rewrite O1. eapply yields_bind; [apply yields_disk; exact (does_call (Sync (self path home)) f)|]. apply yields_ret. Qed.

(** *** Loading *)

(** Where the latest outbound record of each number is. *)
Definition put_position (session_id : Z) (x : Z * gmap Z (Z * MessageRecordView)) (e : Entry) : Z * gmap Z (Z * MessageRecordView) :=
  (fst x + entry_size e, match e with EMessage (true, v) => if v_session_id v =? session_id then <[v_seq_num v := (fst x, v)]> (snd x) else snd x | _ => snd x end).
Definition positions (session_id : Z) (l : list Entry) : gmap Z (Z * MessageRecordView) := snd (fold_left (put_position session_id) l (kStoreFileHeaderSize, ∅)).

Lemma positions_end session_id l : fst (fold_left (put_position session_id) l (kStoreFileHeaderSize, ∅)) = end_of l.
Proof. induction l as [|e l IH] using rev_ind; [done|]. rewrite fold_left_app, end_of_snoc, <- IH. done. Qed.

Lemma put_positions_snoc session_id l e : positions session_id (l ++ [e]) = match e with EMessage (true, v) => if v_session_id v =? session_id then <[v_seq_num v := (end_of l, v)]> (positions session_id l) else positions session_id l | _ => positions session_id l end.
Proof. unfold positions. rewrite fold_left_app. cbn [fold_left put_position snd]. by rewrite positions_end. Qed.

Lemma offsets_positions session_id l : default ∅ (offsets l !! session_id) = fst <$> positions session_id l.
Proof.
  induction l as [|e l IH] using rev_ind; [unfold offsets, scanned, positions; cbn; by rewrite lookup_empty, fmap_empty|]. rewrite offsets_snoc, put_positions_snoc. destruct e as [[[] v]|r]; try done. unfold set_offset. destruct (Z.eqb_spec (v_session_id v) session_id) as [->|Hne].
  - rewrite lookup_insert_eq. cbn [default from_option id]. by rewrite fmap_insert, IH.
  - by rewrite lookup_insert_ne.
Qed.

Lemma saved_history_snoc l e : history (l ++ [e]) = hist_step (history l) e.
Proof. unfold history. by rewrite fold_left_app. Qed.

Lemma records_positions session_id l : (fun x : Z * MessageRecordView => ToOwned (snd x)) <$> positions session_id l = a_outbound (history l session_id).
Proof.
  induction l as [|e l IH] using rev_ind; [unfold positions; cbn; by rewrite fmap_empty|]. rewrite put_positions_snoc, saved_history_snoc. destruct e as [[[] v]|r]; cbn [hist_step]; unfold upd.
  - destruct (Z.eqb_spec (v_session_id v) session_id) as [->|Hne]; [rewrite decide_True by done; by rewrite fmap_insert, IH|by rewrite decide_False by done].
  - case_decide as E; [subst; by rewrite IH|done].
  - case_decide as E; [subst; by rewrite IH|done].
Qed.

Lemma positions_at session_id l q offset v : positions session_id l !! q = Some (offset, v) -> exists a b, l = a ++ EMessage (true, v) :: b /\ offset = end_of a.
Proof.
  revert offset v. induction l as [|e l IH] using rev_ind; intros offset v; [unfold positions; cbn; by rewrite lookup_empty|]. rewrite put_positions_snoc. assert (Hstep : positions session_id l !! q = Some (offset, v) -> exists a b, l ++ [e] = a ++ EMessage (true, v) :: b /\ offset = end_of a).
  { intros (a & b & -> & ->)%IH. exists a, (b ++ [e]). by rewrite <- app_assoc. }
  destruct e as [[[] u]|r]; try exact Hstep. destruct (v_session_id u =? session_id); [|exact Hstep]. intros [[_ [= <- <-]]|[_ H]]%lookup_insert_Some; [by exists l, []|by apply Hstep].
Qed.

Lemma record_of_at mapping a v b : shows (a ++ EMessage (true, v) :: b) mapping -> msg_ok (true, v) -> record_of mapping (end_of a) = ToOwned v.
Proof.
  intros Hs Hm. unfold record_of. rewrite (record_at a _ b mapping Hs Hm). cbn [entry_header snd rh_session_id rh_seq_num rh_timestamp_ns rh_flags rh_payload_size rh_body_start_offset]. unfold payload_size. cbn [snd]. change (v_payload v) with (entry_payload (EMessage (true, v))) at 1. by rewrite (payload_at a _ b mapping Hs).
Qed.

Lemma loaded_records l mapping session_id b e (i : Impl) : Forall entry_ok l -> shows l mapping -> im_outbound_offsets i = offsets l -> b <= e ->
  map (fun x => record_of mapping (snd x)) (offsets_of i session_id b e) = abs_outbound_range (history l session_id) b e.
Proof.
  intros Hl Hs Ho Hbe. unfold offsets_of. rewrite Ho, offsets_positions, in_order_fmap, filter_map_keys, map_map. unfold abs_outbound_range. rewrite range_walk by done. rewrite <- records_positions, in_order_fmap, (filter_map_keys (fun x : Z * MessageRecordView => ToOwned (snd x))), map_map. apply map_ext_in. intros [q [offset v]] Hx%list_elem_of_In. apply list_elem_of_filter in Hx as [_ Hx]. apply elem_of_in_order, positions_at in Hx as (a & c & -> & ->). cbn [fst snd].
  apply (record_of_at _ a v c Hs). apply Forall_app in Hl as [_ [Hm _]%Forall_cons]. exact Hm.
Qed.

Lemma mapping_shows l w i : content w (self path home) = mmap_file l -> im_mapping i = Some (end_of l) -> mapping_bytes path home (w, i) = mmap_file l.
Proof. intros Hc Hm. unfold mapping_bytes, mapped. cbn [fst snd]. rewrite Hm, Hc. cbn [default from_option id]. apply take_ge. pose proof (length_mmap_file l). lia. Qed.

Lemma shows_file l : shows l (mmap_file l).
Proof. rewrite <- (app_nil_r (mmap_file l)). apply file_shows. Qed.

Lemma ensure_yields l f i : mmap_stored l f -> mmap_opened l i -> yields (EnsureMapping path policy home) f i f i tt.
Proof.
  intros Hs [O1 O2 _ _]. unfold EnsureMapping. apply yields_get. intros w Hw. cbn [snd]. rewrite O1, O2. eapply yields_bind; [eapply yields_disk, does_stat; exact Hs|]. cbv beta. rewrite length_mmap_file, Z.eqb_refl. apply yields_ret.
Qed.

Section Loads.
Context (l : list Entry) (f : Files) (i : Impl) (Hok : file_ok l) (Hs : mmap_stored l f) (Ho : mmap_opened l i).

Lemma outbound_yields session_id b e : range_valid b e = true -> yields (LoadOutboundRange path policy home session_id b e) f i f i (abs_outbound_range (history l session_id) b e).
Proof.
  intros [Hbad Hbe]%range_ok. pose proof Ho as [O1 O2 O3 O4]. unfold LoadOutboundRange. rewrite Hbad. eapply yields_bind; [by apply (ensure_yields l)|]. cbv beta. apply yields_get. intros w [Hfw _]. rewrite (mapping_shows l w i (content_at _ _ _ _ Hfw Hs) O2). cbn [snd]. rewrite (loaded_records l _ session_id b e i (proj1 Hok) (shows_file l) O3 Hbe). apply yields_ret.
Qed.

Lemma views_yields session_id b e : range_valid b e = true -> yields (LoadOutboundRangeViews path policy home session_id b e) f i f i (map record_view (abs_outbound_range (history l session_id) b e)).
Proof.
  intros [Hbad Hbe]%range_ok. pose proof Ho as [O1 O2 O3 O4]. unfold LoadOutboundRangeViews. rewrite Hbad. eapply yields_bind; [by apply (ensure_yields l)|]. cbv beta. apply yields_get. intros w [Hfw _]. rewrite (mapping_shows l w i (content_at _ _ _ _ Hfw Hs) O2). cbn [snd]. rewrite <- (loaded_records l _ session_id b e i (proj1 Hok) (shows_file l) O3 Hbe), map_map. apply yields_ret.
Qed.

Lemma recovery_yields session_id :
  match a_recovery (history l session_id) with
  | Some r => yields (LoadRecoveryState path policy home session_id) f i f i r
  | None => forall w, at_rest f w -> exists w', LoadRecoveryState path policy home session_id (w, i) = ((w', i), Error (status.NotFound "recovery state not found")) /\ at_rest f w'
  end.
Proof.
  pose proof Ho as [O1 O2 O3 O4]. pose proof (open_stored_again l f i Hok Hs Ho) as Hy. destruct (history_spec session_id l (fun _ => abs_empty)) as (_ & _ & E). unfold history. rewrite E. cbn [abs_empty a_recovery].
  destruct (add_states (states_of l) ∅ !! session_id) as [r|] eqn:Er.
  - unfold LoadRecoveryState. eapply yields_bind; [exact Hy|]. cbv beta. apply yields_get. intros w Hw. cbn [snd]. rewrite O4, Er. apply yields_ret.
  - intros w Hw. destruct (Hy w Hw) as (w' & Ey & Hw'). exists w'. split; [|done]. unfold LoadRecoveryState, bind, get. rewrite Ey. cbn [snd]. by rewrite O4, Er.
Qed.

Lemma inbound_entries mapping session_id b e : shows l mapping -> forall rest pre fuel records, l = pre ++ rest -> (length rest < fuel)%nat ->
  inbound_loop fuel mapping session_id b e (end_of l) (end_of pre) records = Value (records ++ filter (fun r => b <= rec_seq_num r <= e) (inbound_of session_id (msgs_of rest))).
Proof.
  intros Hsh. induction rest as [|x rest IH]; intros pre fuel records El Hf; (destruct fuel as [|fuel]; [cbn in Hf; lia|]); cbn [inbound_loop].
  - rewrite El, app_nil_r, Z.leb_refl. cbn. by rewrite app_nil_r.
  - destruct Hok as [Hall Hb]. assert (Hx : entry_ok x) by (rewrite El in Hall; by apply Forall_app in Hall as [_ [? _]%Forall_cons]). assert (Happ : (pre ++ [x]) ++ rest = l) by (by rewrite <- app_assoc). assert (Hend : end_of (pre ++ [x]) <= end_of l) by (rewrite <- Happ, (end_of_app (pre ++ [x]) rest); lia).
    assert (Hsx : shows (pre ++ x :: rest) mapping) by (by rewrite <- El). destruct (scan_step mapping pre x rest (end_of l) Hsx Hx (conj Hend Hb)) as (E1 & E2 & E3 & E4 & E5 & E6). rewrite E1, E2, (record_at pre x rest mapping Hsx Hx), E3, E4, E5, E6. cbn [negb]. cbn in Hf.
    assert (Hgo : forall acc, inbound_loop fuel mapping session_id b e (end_of l) (end_of (pre ++ [x])) acc = Value (acc ++ filter (fun r => b <= rec_seq_num r <= e) (inbound_of session_id (msgs_of rest)))) by (intros acc; apply IH; [by rewrite <- Happ|lia]).
    destruct x as [[[] v]|r]; cbn [entry_header fst snd rh_record_type rh_session_id rh_seq_num Z.eqb Pos.eqb StoreRecordType.kOutbound StoreRecordType.kInbound StoreRecordType.kRecoveryState orb]; rewrite Hgo; [done| |done]. f_equal.
    change (msgs_of (EMessage (false, v) :: rest)) with ((false, v) :: msgs_of rest). unfold inbound_of. rewrite (filter_cons _ (false, v)). cbn [fst snd]. destruct (Z.eqb_spec (v_session_id v) session_id) as [Hid|Hid]; [rewrite decide_True by done|rewrite decide_False by (by intros []); done]. cbn [map snd]. rewrite filter_cons. cbn [ToOwned rec_seq_num].
    assert (Erec : record_of mapping (end_of pre) = ToOwned v) by (unfold record_of; rewrite (record_at pre _ rest mapping Hsx Hx); cbn [entry_header snd rh_session_id rh_seq_num rh_timestamp_ns rh_flags rh_payload_size rh_body_start_offset]; unfold payload_size; cbn [snd]; change (v_payload v) with (entry_payload (EMessage (false, v))) at 1; by rewrite (payload_at pre _ rest mapping Hsx)). rewrite Erec.
    destruct (Z.leb_spec b (v_seq_num v)); destruct (Z.leb_spec (v_seq_num v) e); cbn [andb]; [rewrite decide_True by lia; by rewrite <- app_assoc|rewrite decide_False by lia; done..].
Qed.

Lemma inbound_yields session_id b e : range_valid b e = true -> yields (LoadInboundRange path policy home session_id b e) f i f i (abs_inbound_range (history l session_id) b e).
Proof.
  intros [Hbad Hbe]%range_ok. pose proof Ho as [O1 O2 O3 O4]. unfold LoadInboundRange. rewrite Hbad. eapply yields_bind; [by apply (ensure_yields l)|]. cbv beta. apply yields_get. intros w [Hfw _]. rewrite (mapping_shows l w i (content_at _ _ _ _ Hfw Hs) O2). cbn [snd]. rewrite O2. cbn [default from_option id].
  assert (Eh : Header (mmap_file l) = BuildFileHeader (end_of l)) by (rewrite <- (app_nil_r (mmap_file l)); apply file_header_of, Hok). rewrite Eh. cbn [BuildFileHeader fh_file_size]. rewrite Z.min_id.
  pose proof (inbound_entries (mmap_file l) session_id b e (shows_file l) l [] (S (Z.to_nat (end_of l))) [] eq_refl) as E. change (end_of []) with kStoreFileHeaderSize in E. rewrite E by (pose proof (length_body_of l); unfold end_of; change kStoreFileHeaderSize with 32; lia). cbn [app].
  unfold abs_inbound_range. destruct (history_spec session_id l (fun _ => abs_empty)) as (_ & Ei & _). unfold history. rewrite Ei. apply yields_ret.
Qed.
End Loads.
End Store.

(** ** Reset *)

Definition entry_session (e : Entry) : Z := match e with EMessage m => v_session_id (snd m) | EState r => r_session_id r end.
Definition others (session_id : Z) (l : list Entry) : list Entry := filter (fun e => entry_session e <> session_id) l.

Lemma history_others session_id l id : history (others session_id l) id = upd (history l) session_id abs_empty id.
Proof.
  induction l as [|e l IH] using rev_ind; [cbn; unfold upd; by case_decide|]. unfold others in *. rewrite filter_app, filter_cons, filter_nil, saved_history_snoc. case_decide as He.
  - rewrite saved_history_snoc. destruct e as [[[] v]|r]; cbn [hist_step entry_session snd] in *; unfold upd in *; (repeat case_decide; subst; try done; try congruence); rewrite IH; try done; by rewrite decide_False.
  - rewrite app_nil_r, IH. unfold upd. destruct e as [[[] v]|r]; cbn [hist_step entry_session snd] in *; unfold upd; repeat case_decide; subst; done.
Qed.

Lemma others_end session_id l : end_of (others session_id l) <= end_of l.
Proof.
  induction l as [|e l IH] using rev_ind; [done|]. unfold others in *. rewrite filter_app, filter_cons, filter_nil, end_of_snoc. pose proof (entry_size_pos e). case_decide; [rewrite end_of_snoc; lia|rewrite app_nil_r; lia].
Qed.

Lemma others_ok session_id l : file_ok l -> file_ok (others session_id l).
Proof. intros [Hl Hb]. split; [apply Forall_forall; intros x [_ Hx]%list_elem_of_filter; by apply (proj1 (Forall_forall _ _) Hl)|]. pose proof (others_end session_id l). lia. Qed.

Section Reset.
Context (path : string) (policy : SyncPolicy).

Lemma resave_yields session_id mapping pre e rest q f i : shows (pre ++ e :: rest) mapping -> entry_ok e -> file_ok (q ++ others session_id [e]) -> mmap_stored path true q f -> mmap_opened path true q i ->
  exists i', yields (resave path policy session_id mapping (end_of pre)) f i (<[self path true := mmap_file (q ++ others session_id [e])]> f) i' tt /\ mmap_opened path true (q ++ others session_id [e]) i'.
Proof.
  intros Hsh He Hok Hs Ho. unfold others in *. rewrite filter_cons, filter_nil in *. unfold resave. rewrite (record_at pre e rest mapping Hsh He), entry_payload_size, (payload_at pre e rest mapping Hsh). assert (Ei : rh_session_id (entry_header e) = entry_session e) by (by destruct e). rewrite Ei. destruct (Z.eqb_spec (entry_session e) session_id) as [Hid|Hid].
  - rewrite decide_False in * by (by intros H). rewrite app_nil_r in *. rewrite (insert_id f _ _ Hs). exists i. split; [apply yields_ret|done].
  - rewrite decide_True in * by done. destruct (save_yields path policy true q f i e Hok Hs Ho) as (i' & Hy & Ho'). exists i'. split; [|done]. destruct e as [[[] []]|r]; [exact Hy|exact Hy|]. cbn [entry_header rh_record_type Z.eqb Pos.eqb StoreRecordType.kOutbound StoreRecordType.kInbound StoreRecordType.kRecoveryState]. pose proof (state_of_entry r) as Es. cbn [entry_header] in Es. rewrite Es. exact Hy.
Qed.

Lemma rebuild_entries session_id mapping all : shows all mapping -> file_ok all -> forall l pre fuel q f i, all = pre ++ l -> (length l < fuel)%nat -> file_ok (q ++ others session_id l) -> mmap_stored path true q f -> mmap_opened path true q i ->
  exists i', yields (rebuild_loop path policy fuel session_id mapping (end_of all) (end_of pre)) f i (<[self path true := mmap_file (q ++ others session_id l)]> f) i' tt /\ mmap_opened path true (q ++ others session_id l) i'.
Proof.
  intros Hsh [Hall Hb]. induction l as [|e l IH]; intros pre fuel q f i El Hf Hok Hs Ho; (destruct fuel as [|fuel]; [cbn in Hf; lia|]); cbn [rebuild_loop].
  - rewrite El, app_nil_r, Z.leb_refl. cbn. rewrite app_nil_r, (insert_id f _ _ Hs). exists i. split; [apply yields_ret|done].
  - assert (He : entry_ok e) by (rewrite El in Hall; by apply Forall_app in Hall as [_ [? _]%Forall_cons]). assert (Happ : (pre ++ [e]) ++ l = all) by (by rewrite <- app_assoc). assert (Hend : end_of (pre ++ [e]) <= end_of all) by (rewrite <- Happ, (end_of_app (pre ++ [e]) l); lia). assert (Hsx : shows (pre ++ e :: l) mapping) by (by rewrite <- El).
    destruct (scan_step mapping pre e l (end_of all) Hsx He (conj Hend Hb)) as (E1 & _ & _ & _ & E5 & _). rewrite E1, (record_at pre e l mapping Hsx He), E5.
    assert (Eo : others session_id (e :: l) = others session_id [e] ++ others session_id l) by (unfold others; by rewrite <- (filter_app _ [e] l)). rewrite Eo, app_assoc in *. assert (Hok1 : file_ok (q ++ others session_id [e])) by (destruct Hok as [Ha Hc]; rewrite end_of_app in Hc; split; [by apply Forall_app in Ha as [? _]|lia]).
    destruct (resave_yields session_id mapping pre e l q f i Hsx He Hok1 Hs Ho) as (i1 & Hy1 & Ho1). destruct (IH (pre ++ [e]) fuel (q ++ others session_id [e]) (<[self path true := mmap_file (q ++ others session_id [e])]> f) i1) as (i2 & Hy2 & Ho2); [by rewrite Happ|cbn in Hf; lia|done|apply lookup_insert_eq|done|].
    exists i2. rewrite insert_insert_eq in Hy2. split; [|done]. eapply yields_bind; [exact Hy1|exact Hy2].
Qed.

Lemma does_prepare f : does (prepare_parent path) f f tt.
Proof. unfold prepare_parent. destruct (parent_path path); [|apply does_ret]. eapply does_bind; [apply does_attempt|]. apply does_ret. Qed.

Lemma rebuild_does session_id l f : file_ok l -> f !! self path true = None -> does (rebuild path policy session_id (mmap_file l)) f (<[self path true := mmap_file (others session_id l)]> f) tt.
Proof.
  intros Hok Hf. pose proof Hok as [_ Hb]. unfold rebuild. assert (Eh : Header (mmap_file l) = BuildFileHeader (end_of l)) by (rewrite <- (app_nil_r (mmap_file l)); by apply file_header_of). rewrite Eh. cbn [BuildFileHeader fh_file_size]. pose proof (scan_file l [] Hok) as Es. rewrite app_nil_r in Es. rewrite Es. cbn [ss_committed_size].
  assert (En : file_ok ([] ++ others session_id l)) by (by apply others_ok).
  destruct (rebuild_entries session_id (mmap_file l) l (shows_file l) Hok l [] (S (Z.to_nat (end_of l))) [] (<[self path true := mmap_file []]> f) (after_open [] (with_fd (Some (self path true)) NewImpl)) eq_refl) as (i' & Hy & Ho); [pose proof (length_body_of l); unfold end_of; change kStoreFileHeaderSize with 32; lia|done|apply lookup_insert_eq|by apply after_open_opened|].
  rewrite insert_insert_eq in Hy. cbn [app] in Hy, Ho. change (end_of []) with kStoreFileHeaderSize in Hy.
  assert (Yall : yields (Open path policy true ;;; rebuild_loop path policy (S (Z.to_nat (end_of l))) session_id (mmap_file l) (end_of l) kStoreFileHeaderSize ;;; Flush path true) f NewImpl (<[self path true := mmap_file (others session_id l)]> f) i' tt).
  { eapply yields_bind; [by apply open_new|]. cbv beta. eapply yields_bind; [exact Hy|]. cbv beta. by apply (flush_yields path true (others session_id l)). }
  intros w Hw. destruct (Yall w Hw) as (w' & E & Hw'). rewrite E. by exists w'.
Qed.

Lemma reset_yields session_id l f i : session_id <> 0 -> file_ok l -> mmap_stored path false l f -> mmap_opened path false l i ->
  exists f' i', yields (ResetSession path policy session_id) f i f' i' tt /\ mmap_stored path false (others session_id l) f' /\ mmap_opened path false (others session_id l) i'.
Proof.
  intros Hid Hok Hs Ho. pose proof Ho as [O1 O2 O3 O4]. pose proof (others_ok session_id l Hok) as Hok'. assert (Hne : self path true <> self path false) by done.
  set (g := delete (self path true) f). assert (Hg : g !! self path true = None) by apply lookup_delete_eq. assert (Hgs : g !! self path false = Some (mmap_file l)) by (unfold g; by rewrite lookup_delete_ne).
  set (g1 := <[self path true := mmap_file (others session_id l)]> g). set (g2 := <[self path false := mmap_file (others session_id l)]> (delete (self path true) g1)). assert (Hs2 : mmap_stored path false (others session_id l) g2) by apply lookup_insert_eq.
  exists g2, (after_open (others session_id l) (with_fd (Some (self path false)) NewImpl)). split; [|split; [done|by apply after_open_opened]].
  unfold ResetSession. destruct (Z.eqb_spec session_id 0) as [?|_]; [done|]. eapply yields_bind; [by apply (open_stored_again path policy false l)|]. cbv beta. eapply yields_bind; [apply yields_disk, does_prepare|]. cbv beta.
  eapply yields_bind; [apply yields_disk; unfold remove_rebuilt; eapply does_bind; [apply does_call|apply does_ret]|]. cbv beta. cbn [apply_op]. fold g. apply yields_get. intros w [Hfw _]. rewrite (mapping_shows path false l w i (content_at _ _ _ _ Hfw Hgs) O2).
  eapply yields_bind; [apply yields_disk, rebuild_does; done|]. cbv beta. fold g1. eapply yields_bind; [exact (yields_private _ _ _)|]. cbv beta. unfold CloseResources. eapply yields_bind; [apply yields_disk; unfold replace_store; eapply does_bind; [eapply does_rename; apply lookup_insert_eq|apply does_ret]|]. cbv beta. fold g2.
  pose proof (open_prefix path policy false (others session_id l) [] g2 NewImpl Hok') as H. rewrite app_nil_r, (insert_id g2 _ _ Hs2) in H. apply H; [done|by left].
Qed.
End Reset.
