(* ===== verification/MmapRefines.v ===== *)
(** * The mmap store beside the abstract one

    Every sequence of calls is answered as the abstract store answers it, and an append
    that is cut off leaves the store with or without its record. *)
From S2P Require Import Prelude Base StdAlgo Wire SessionStore Artifact Disk DurableStore DurableProofs DurableRep DurableRefines DurableCrash MmapStore MmapProofs.
Import Mmap.
Open Scope Z_scope.

(** ** The abstract store *)

Definition abs_call (c : StoreCall) (a : Z -> AbsSession) : (Z -> AbsSession) * Answer :=
  match c with
  | Save e => (hist_step a e, Acted (Value tt))
  | DoFlush | DoRollover | DoRefresh | Restart => (a, Acted (Value tt))
  | DoReset session_id => if session_id =? 0 then (a, Acted (Error (status.InvalidArgument "session reset requires a valid session id"))) else (upd a session_id abs_empty, Acted (Value tt))
  | GetOutbound session_id b e => (a, Records (range_answer "invalid outbound load range" b e (abs_outbound_range (a session_id) b e)))
  | GetViews session_id b e => (a, Views (range_answer "invalid outbound load range" b e (map record_view (abs_outbound_range (a session_id) b e))))
  | GetInbound session_id b e => (a, Records (range_answer "invalid inbound load range" b e (abs_inbound_range (a session_id) b e)))
  | GetRecovery session_id => (a, Recovered (recovery_answer (a_recovery (a session_id))))
  end.
Fixpoint abs_calls (l : list StoreCall) (a : Z -> AbsSession) : list Answer :=
  match l with [] => [] | c :: l => let '(a, answer) := abs_call c a in answer :: abs_calls l a end.

(** ** The store *)

Section Refines.
Context (path : string) (policy : SyncPolicy).

(** [Rollover] is the one of the base class. *)
Definition mmap_call (c : StoreCall) : World * Impl -> (World * Impl) * Answer :=
  match c with
  | Save e => answered Acted (mmap_save path policy false e)
  | DoFlush => answered Acted (Flush path false)
  | DoRollover => fun s => (s, Acted (Value tt))
  | DoRefresh => answered Acted (Refresh path policy false)
  | DoReset session_id => answered Acted (ResetSession path policy session_id)
  | Restart => answered Acted (private (fun _ => NewImpl) ;;; Open path policy false)
  | GetOutbound session_id b e => answered Records (LoadOutboundRange path policy false session_id b e)
  | GetViews session_id b e => answered Views (LoadOutboundRangeViews path policy false session_id b e)
  | GetInbound session_id b e => answered Records (LoadInboundRange path policy false session_id b e)
  | GetRecovery session_id => answered Recovered (LoadRecoveryState path policy false session_id)
  end.
Fixpoint mmap_calls (l : list StoreCall) (s : World * Impl) : list Answer :=
  match l with [] => [] | c :: l => let '(s, a) := mmap_call c s in a :: mmap_calls l s end.

(** The store holds these entries. *)
Record keeps (l : list Entry) (a : Z -> AbsSession) (w : World) (i : Impl) : Prop := {
  kp_ok : file_ok l;
  kp_rest : w_script w = [];
  kp_stored : mmap_stored path false l (w_files w);
  kp_opened : mmap_opened path false l i;
  kp_history : forall id, history l id = a id;
}.

Definition simulates (l : list Entry) (a : Z -> AbsSession) (c : StoreCall) (w : World) (i : Impl) : Prop :=
  exists l' w' i', mmap_call c (w, i) = ((w', i'), snd (abs_call c a)) /\ keeps l' (fst (abs_call c a)) w' i' /\ end_of l' <= end_of (l ++ saved c).

Lemma hist_step_ext a b e : (forall id, a id = b id) -> forall id, hist_step a e id = hist_step b e id.
Proof. intros H id. destruct e as [[[] v]|r]; cbn [hist_step]; unfold upd; case_decide; by rewrite H. Qed.

Lemma simulate_mmap {X} (mk : Result X -> Answer) (m : SE (World * Impl) X) l l' a c w i f' i' x : mmap_call c = answered mk m -> w_script w = [] -> yields m (w_files w) i f' i' x -> snd (abs_call c a) = mk (Value x) ->
  file_ok l' -> mmap_stored path false l' f' -> mmap_opened path false l' i' -> (forall id, history l' id = fst (abs_call c a) id) -> end_of l' <= end_of (l ++ saved c) -> simulates l a c w i.
Proof.
  intros Ec Hw Hy Ea Hok Hs Ho Hh Hle. destruct (answered_yields mk m (w_files w) i f' i' x w Hy (conj eq_refl Hw)) as (w' & E & [Hf' Hw']). exists l', w', i'. rewrite Ec, E, Ea. split; [done|]. split; [|done]. constructor; try done. by rewrite Hf'.
Qed.

Lemma refused_mmap {X} (mk : Result X -> Answer) (m : SE (World * Impl) X) l a c w i x : mmap_call c = answered mk m -> keeps l a w i -> m (w, i) = ((w, i), Error x) -> abs_call c a = (a, mk (Error x)) -> saved c = [] -> simulates l a c w i.
Proof. intros Ec Hk E Ea Hs. exists l, w, i. rewrite Ec, Ea, Hs, app_nil_r. unfold answered. rewrite E. done. Qed.

Lemma mmap_load {X} (mk : Result X -> Answer) (m : SE (World * Impl) X) text b e x l a c w i : mmap_call c = answered mk m -> keeps l a w i -> saved c = [] -> abs_call c a = (a, mk (range_answer text b e x)) ->
  (range_valid b e = false -> m (w, i) = ((w, i), Error (status.InvalidArgument text))) -> (range_valid b e = true -> yields m (w_files w) i (w_files w) i x) -> simulates l a c w i.
Proof.
  intros Ec Hk Hs Ea Hbad Hgood. unfold range_answer in Ea. destruct (range_valid b e).
  - destruct Hk as [K1 K2 K3 K4 K5]. eapply (simulate_mmap mk m l l); [done|done|by apply Hgood|by rewrite Ea|done|done|done|by rewrite Ea|by rewrite Hs, app_nil_r].
  - eapply (refused_mmap mk m); [done|done|by apply Hbad|done|done].
Qed.

Lemma reopened l f : file_ok l -> mmap_stored path false l f -> forall i, im_fd i = None -> yields (Open path policy false) f i f (after_open l (with_fd (Some (self path false)) i)) tt.
Proof. intros Hok Hs i Hi. pose proof (open_prefix path policy false l [] f i Hok) as H. rewrite app_nil_r, (insert_id f _ _ Hs) in H. apply H; [done|by left]. Qed.

Lemma simulate_mmap_call l a c w i : keeps l a w i -> file_ok (l ++ saved c) -> simulates l a c w i.
Proof.
  intros Hk Hok. pose proof Hk as [K1 K2 K3 K4 K5]. assert (Hsame : forall c', saved c' = [] -> end_of l <= end_of (l ++ saved c')) by (intros c' ->; by rewrite app_nil_r).
  destruct c as [e| | | |session_id| |session_id b e|session_id b e|session_id b e|session_id].
  - destruct (save_yields path policy false l (w_files w) i e Hok K3 K4) as (i' & Hy & Ho). eapply (simulate_mmap Acted _ l (l ++ [e])); [reflexivity|done|exact Hy|done|done|apply lookup_insert_eq|done| |done]. intros id. rewrite saved_history_snoc. by apply hist_step_ext.
  - eapply (simulate_mmap Acted _ l l); [reflexivity|done|by eapply flush_yields|done..|by apply Hsame].
  - exists l, w, i. split; [done|]. split; [done|by apply Hsame].
  - eapply (simulate_mmap Acted _ l l); [reflexivity|done|eapply yields_bind; [exact (yields_private _ _ _)|by apply reopened]|done|done|done|by apply after_open_opened|done|by apply Hsame].
  - destruct (decide (session_id = 0)) as [->|Hne].
    + eapply (refused_mmap Acted); [reflexivity|done|done|done|done].
    + destruct (reset_yields path policy session_id l (w_files w) i Hne K1 K3 K4) as (f' & i' & Hy & Hs & Ho). assert (Ez : (session_id =? 0) = false) by (by apply Z.eqb_neq). eapply (simulate_mmap Acted _ l (others session_id l)); [reflexivity|done|exact Hy|cbn; by rewrite Ez|by apply others_ok|done|done| |cbn [saved]; rewrite app_nil_r; apply others_end].
      intros id. rewrite history_others. cbn [abs_call]. rewrite Ez. cbn [fst]. unfold upd. case_decide; [done|apply K5].
  - eapply (simulate_mmap Acted _ l l); [reflexivity|done|eapply yields_bind; [exact (yields_private (fun _ => NewImpl) _ _)|by apply reopened]|done|done|done|by apply after_open_opened|done|by apply Hsame].
  - eapply (mmap_load Records); [reflexivity|exact Hk|done|cbn [abs_call]; by rewrite <- K5| |]; intros Hr; [by apply refused_bind, range_refused|by apply outbound_yields].
  - eapply (mmap_load Views); [reflexivity|exact Hk|done|cbn [abs_call]; by rewrite <- K5| |]; intros Hr; [by apply refused_bind, range_refused|by apply views_yields].
  - eapply (mmap_load Records); [reflexivity|exact Hk|done|cbn [abs_call]; by rewrite <- K5| |]; intros Hr; [by apply refused_bind, range_refused|by apply inbound_yields].
  - pose proof (recovery_yields path policy false l (w_files w) i K1 K3 K4 session_id) as H. rewrite K5 in H. destruct (a_recovery (a session_id)) as [r|] eqn:Er.
    + eapply (simulate_mmap Recovered _ l l); [reflexivity|done|exact H|cbn [abs_call snd]; by rewrite Er|done..|by apply Hsame].
    + destruct (H w (conj eq_refl K2)) as (w' & E & [Hf' Hw']). exists l, w', i. split; [cbn [mmap_call abs_call snd]; unfold answered; by rewrite E, Er|]. split; [|by apply Hsame]. constructor; try done. by rewrite Hf'.
Qed.

Lemma simulate_mmap_calls calls : forall l a w i, keeps l a w i -> Forall entry_ok (all_saved calls) -> end_of (l ++ all_saved calls) < kLimit -> mmap_calls calls (w, i) = abs_calls calls a.
Proof.
  induction calls as [|c calls IH]; intros l a w i Hk Hs Hb; [done|]. unfold all_saved in *. cbn [map concat] in *. apply Forall_app in Hs as [Hs Hss]. rewrite app_assoc, end_of_app in Hb.
  destruct (simulate_mmap_call l a c w i Hk) as (l' & w' & i' & E & Hk' & Hle); [split; [apply Forall_app; split; [apply (kp_ok _ _ _ _ Hk)|done]|lia]|]. cbn [mmap_calls abs_calls]. rewrite E. destruct (abs_call c a) as [a' answer]. cbn [fst snd] in *. f_equal. apply (IH l'); [done|done|]. rewrite end_of_app. lia.
Qed.
End Refines.

(** C9: the mmap store is the abstract store: started on a path without a file, any
    sequence of saves, flushes, refreshes, resets, restarts and loads is answered exactly
    as the abstract store answers it, whatever the sync policy; nothing is lost by a
    restart, and a reset empties one session and leaves every other one as it was. *)
Theorem mmap_store_refines path policy calls : Forall entry_ok (all_saved calls) -> end_of (all_saved calls) < kLimit ->
  mmap_calls path policy (Restart :: calls) (fresh_world ∅, NewImpl) = abs_calls (Restart :: calls) (fun _ => abs_empty).
Proof.
  intros Hs Hb. set (i := after_open [] (with_fd (Some (self path false)) NewImpl)). assert (Hy : yields (private (fun _ => NewImpl) ;;; Open path policy false) ∅ NewImpl (<[self path false := mmap_file []]> ∅) i tt) by (eapply yields_bind; [exact (yields_private (fun _ => NewImpl) _ _)|by apply open_new]).
  destruct (answered_yields Acted _ _ _ _ _ _ (fresh_world ∅) Hy) as (w & E & [Hf Hw]); [done|]. cbn [mmap_calls mmap_call abs_calls abs_call]. rewrite E. f_equal. apply (simulate_mmap_calls path policy calls []); [|done|done].
  constructor; [apply empty_ok|done|unfold mmap_stored; rewrite Hf; apply lookup_insert_eq|by apply after_open_opened|done].
Qed.

(** ** An append that is cut off *)

Definition replay (f : Files) (ops : list DiskOp) : Files := fold_left (fun f op => apply_op op f) ops f.

Section Append.
Context (path : string) (policy : SyncPolicy) (l : list Entry) (e : Entry) (f : Files).
Context (Hok : file_ok (l ++ [e])) (Hs : mmap_stored path false l f).

Let p : Path := self path false.

(** The file begins with the entries, with or without the new one. *)
Definition good (g : Files) : Prop := exists l' tail, (l' = l \/ l' = l ++ [e]) /\ g !! p = Some (mmap_file l' ++ tail).

Record unbroken (w : World) : Prop := {
  ub_all : forall k, good (replay f (take k (w_trace w)));
  ub_now : replay f (w_trace w) = w_files w;
}.

Lemma unbroken_disk w w' : w_trace w' = w_trace w -> w_files w' = w_files w -> unbroken w -> unbroken w'.
Proof. intros Ht Hf [H1 H2]. constructor; by rewrite ?Ht, ?Hf. Qed.

Lemma unbroken_emit op w : unbroken w -> good (apply_op op (w_files w)) -> unbroken (emit op w).
Proof.
  intros [H1 H2] Hg. assert (E : replay f (w_trace w ++ [op]) = apply_op op (w_files w)) by (unfold replay in *; by rewrite fold_left_app, H2). constructor; cbn [emit w_trace w_files]; [|done]. intros k. destruct (decide (k <= length (w_trace w))%nat) as [Hk|Hk]; [rewrite take_app_le by done; apply H1|]. rewrite take_ge by (rewrite length_app; cbn; lia). by rewrite E.
Qed.

Lemma unbroken_same op w : apply_op op (w_files w) = w_files w -> unbroken w -> unbroken (emit op w).
Proof. intros E Hw. apply unbroken_emit; [done|]. rewrite E. destruct Hw as [H1 H2]. rewrite <- H2, <- (firstn_all (w_trace w)). apply H1. Qed.

(** The state between two calls: what the file holds now. *)
Definition holding (c : list Z) (w : World) : Prop := unbroken w /\ Forall whole (w_script w) /\ w_files w !! p = Some c.

Lemma holding_disk c w w' : w_trace w' = w_trace w -> w_files w' = w_files w -> (Forall whole (w_script w) -> Forall whole (w_script w')) -> holding c w -> holding c w'.
Proof. intros Ht Hf Hsc (H1 & H2 & H3). split; [by eapply unbroken_disk|]. split; [by apply Hsc|by rewrite Hf]. Qed.

Lemma guarded_stat c R : guarded unbroken (disk (A := Impl) (stat_size path false)) (fun w i => holding c w /\ R i) (fun x w i => x = Z.of_nat (length c) /\ holding c w /\ R i).
Proof.
  intros w i [Hh HR]. unfold disk, stat_size, bind, os. cbn [fst snd]. destruct (attempt w) as [w1 b] eqn:E. apply attempt_any in E as (E1 & E2 & E3). assert (Hh1 : holding c w1) by (by eapply holding_disk). unfold get. destruct b; cbn; [|apply Hh1]. unfold content. destruct Hh1 as (U & S & Hc). fold p. rewrite Hc. done.
Qed.

Lemma guarded_map c size R : guarded unbroken (disk (A := Impl) (MapFile size)) (fun w i => holding c w /\ R i) (fun _ w i => holding c w /\ R i).
Proof. intros w i [Hh HR]. unfold disk, MapFile, bind, os. cbn [fst snd]. destruct (attempt w) as [w1 b] eqn:E. apply attempt_any in E as (E1 & E2 & E3). assert (Hh1 : holding c w1) by (by eapply holding_disk). destruct b; cbn; [done|apply Hh1]. Qed.

Lemma guarded_sync_every c R : guarded unbroken (disk (A := Impl) (sync_every_write path policy false (Some p))) (fun w i => holding c w /\ R i) (fun _ w i => holding c w /\ R i).
Proof.
  intros w i [Hh HR]. unfold disk, sync_every_write. cbn [fst snd]. destruct (every_write policy); [|done]. unfold bind, os, fdatasync, call. destruct (attempt w) as [w1 b] eqn:E. apply attempt_any in E as (E1 & E2 & E3). assert (Hh1 : holding c w1) by (by eapply holding_disk). destruct b; cbn; [|apply Hh1]. destruct Hh1 as (U & S & Hc). split; [|done]. split; [by apply unbroken_same|done].
Qed.

Lemma guarded_resize size what c R : good (<[p := resize (Z.to_nat size) c]> ∅) -> guarded unbroken (disk (A := Impl) (resize_file path false size what)) (fun w i => holding c w /\ R i) (fun _ w i => holding (resize (Z.to_nat size) c) w /\ R i).
Proof.
  intros (l' & tail & Hl' & Hg) w i [Hh HR]. rewrite lookup_insert_eq in Hg. assert (Hg' : resize (Z.to_nat size) c = mmap_file l' ++ tail) by congruence. unfold disk, resize_file, bind, os, ftruncate, call. cbn [fst snd]. destruct (attempt w) as [w1 b] eqn:E. apply attempt_any in E as (E1 & E2 & E3). assert (Hh1 : holding c w1) by (by eapply holding_disk). destruct b; cbn [fst snd]; [|apply Hh1]. destruct Hh1 as (U & S & Hc).
  assert (Ec : apply_op (Resize p (Z.to_nat size)) (w_files w1) !! p = Some (resize (Z.to_nat size) c)) by (cbn [apply_op]; by rewrite lookup_alter_eq, Hc). split; [|done]. split; [apply unbroken_emit; [done|]; exists l', tail; rewrite <- Hg'; by split|by split].
Qed.

(** Data behind the entries, in as many parts as the calls make of it. *)
Lemma guarded_write data offset what tail R : end_of l <= offset <= Z.of_nat (length (mmap_file l ++ tail)) ->
  guarded unbroken (disk (A := Impl) (write_file path false (Some p) data offset what)) (fun w i => holding (mmap_file l ++ tail) w /\ R i) (fun _ w i => holding (write_at (Z.to_nat offset) data (mmap_file l ++ tail)) w /\ R i).
Proof.
  intros Ho w i [(U & S & Hc) HR]. unfold disk, write_file, bind, os, WriteExact. cbn [fst snd]. destruct (write_loop (w_script w) p (Z.to_nat offset) data w) as [w1 b] eqn:E. pose proof (length_mmap_file l) as Hlen. assert (Hnat : (Z.to_nat offset <= length (mmap_file l ++ tail))%nat) by lia.
  edestruct (write_loop_keeps (fun w => unbroken w /\ exists tail, w_files w !! p = Some (mmap_file l ++ tail)) p (length (mmap_file l))) as [[U1 _] S1]; [| |exact E|lia|by split; [|eexists]|].
  - intros w2 w3 Ht Hf [U2 Ht2]. split; [by eapply unbroken_disk|by rewrite Hf].
  - intros w2 off d Hoff [U2 [t Ht2]]. destruct (write_at_keeps (mmap_file l) off d (mmap_file l ++ t)) as [t' Et']; [by apply prefix_app_r|done|]. assert (Ec : apply_op (WriteAt p off d) (w_files w2) !! p = Some (mmap_file l ++ t')) by (cbn [apply_op]; rewrite lookup_alter_eq, Ht2; exact (f_equal Some Et')). split; [|by exists t']. apply unbroken_emit; [done|]. exists l, t'. split; [by left|done].
  - destruct b; [|exact U1]. split; [|exact HR]. split; [exact U1|]. split; [by apply S1|]. apply write_loop_parts in E as (ps & rest & Hd & Hr & Hnz & _ & Hf). rewrite (Hr eq_refl), app_nil_r in Hd. subst data. rewrite Hf, write_parts_one. destruct ps as [|d ps]; [cbn [concat]; by rewrite (write_at_nil _ _ Hnat)|]. by rewrite lookup_alter_eq, Hc.
Qed.

Lemma guarded_header what (R : Impl -> Prop) : guarded unbroken (disk (write_file path false (Some p) (pod_bytes (BuildFileHeader (end_of (l ++ [e])))) 0 what)) (fun w i => holding (uncommitted l e) w /\ R i) (fun _ w i => holding (mmap_file (l ++ [e])) w /\ R i).
Proof.
  intros w i [(U & S & Hc) HR]. unfold disk, write_file, bind, os, WriteExact. cbn [fst snd]. set (h := pod_bytes (BuildFileHeader (end_of (l ++ [e])))). assert (Hh : length h = kAtomic) by (unfold h; by rewrite length_pod_bytes). destruct (write_loop (w_script w) p (Z.to_nat 0) h w) as [w1 b] eqn:E.
  assert (Hne : h <> []) by (intros E0; rewrite E0 in Hh; by vm_compute in Hh). destruct (write_loop_once p (Z.to_nat 0) h Hne ltac:(rewrite Hh; done) _ _ _ _ E S) as [S1 Hb]. destruct b; destruct Hb as [Ht Hf]; cbn.
  - assert (Ec : apply_op (WriteAt p (Z.to_nat 0) h) (w_files w) !! p = Some (mmap_file (l ++ [e]))) by (cbn [apply_op]; rewrite lookup_alter_eq, Hc, Z2Nat.inj_0; exact (f_equal Some (commit_bytes l e))). split; [|done]. split; [|split; [done|by rewrite Hf]]. apply (unbroken_disk (emit (WriteAt p (Z.to_nat 0) h) w)); [done|done|]. apply unbroken_emit; [done|]. exists (l ++ [e]), []. rewrite app_nil_r. split; [by right|done].
  - by apply (unbroken_disk w).
Qed.

Lemma holding_content c w : holding c w -> content w p = c.
Proof. intros (_ & _ & Hc). unfold content. by rewrite Hc. Qed.

Context (i : Impl) (Ho : mmap_opened path false l i).

(** Opening a store that is open changes nothing. *)
Lemma guarded_open : guarded unbroken (Open path policy false) (fun w a => holding (mmap_file l) w /\ a = i) (fun _ w a => holding (mmap_file l) w /\ a = i).
Proof.
  destruct (file_ok_snoc l e Hok) as (Hl & _ & _). pose proof Hl as [_ Hb]. pose proof Ho as [O1 O2 O3 O4]. pose proof (length_mmap_file l) as Hlen. pose proof (end_of_min l) as Hmin. change kStoreFileHeaderSize with 32 in Hmin. unfold Open.
  eapply guarded_bind with (R := fun _ w a => holding (mmap_file l) w /\ a = i); [intros w a [Hw ->]; unfold open_fd, bind, get; cbn [snd]; rewrite O1; exact (conj Hw eq_refl)|]. intros []. apply guarded_get. intros [w0 i0]. cbn [snd]. apply (guarded_assume _ (i0 = i)); [by intros w a [[= _ <-] [_ ->]]|]. intros ->. rewrite O1.
  eapply guarded_bind; [eapply guarded_weaken; [apply (guarded_stat (mmap_file l) (fun a => a = i))|by intros w a [_ H]]|]. intros size0. apply (guarded_assume _ (size0 = end_of l)); [by intros w a [-> _]|]. intros ->. destruct (Z.eqb_spec (end_of l) 0) as [?|_]; [lia|].
  eapply guarded_bind; [apply guarded_ret|]. intros []. unfold map_and_scan. eapply guarded_bind; [eapply guarded_weaken; [apply (guarded_stat (mmap_file l) (fun a => a = i))|by intros w a [_ H]]|]. intros size. apply (guarded_assume _ (size = end_of l)); [by intros w a [-> _]|]. intros ->.
  eapply guarded_bind; [eapply guarded_weaken; [apply (guarded_map (mmap_file l) (end_of l) (fun a => a = i))|by intros w a [_ H]]|]. intros size. apply guarded_get. intros [w1 i1]. cbn [fst]. apply (guarded_assume _ (content w1 p = mmap_file l)); [intros w a [[= <- _] [H _]]; by apply holding_content|]. intros Hc.
  assert (Em : mapped path false (end_of l) w1 = mmap_file l ++ []) by (unfold mapped; fold p; rewrite Hc, app_nil_r; apply take_ge; lia). rewrite Em, (file_header_of l [] Hb). assert (Hbad : bad_header (BuildFileHeader (end_of l)) = false) by (unfold bad_header, HasStoreMagic; cbn [BuildFileHeader fh_magic fh_version fh_header_size fh_file_size]; rewrite !Z.eqb_refl; cbn [negb orb]; apply Z.ltb_ge; change kStoreFileHeaderSize with 32; lia). rewrite Hbad.
  cbn [BuildFileHeader fh_file_size]. rewrite Z.min_id, (scan_file l [] Hl). unfold desired_size. cbn [ss_truncated_tail negb andb BuildFileHeader fh_file_size orb]. rewrite Z.leb_refl, !Z.eqb_refl. cbn [negb orb]. intros w a [_ [Hw ->]]. split; [done|]. destruct i. cbn in *. by subst.
Qed.

Lemma guarded_commit_size : guarded unbroken (commit_size path policy false (Some p) (end_of (l ++ [e]))) (fun w a => holding (uncommitted l e) w /\ a = i) (fun _ w _ => holding (mmap_file (l ++ [e])) w).
Proof.
  destruct (file_ok_snoc l e Hok) as (Hl & _ & _). pose proof Ho as [O1 O2 O3 O4]. unfold commit_size. apply guarded_get. intros [w0 i0]. apply (guarded_assume _ (mapping_header path false (w0, i0) = BuildFileHeader (end_of l))); [intros w a [[= -> ->] [H ->]]; apply (mapping_header_of path false l (entry_bytes e)); [apply Hl|by apply holding_content|done]|]. intros ->.
  change (with_file_size (end_of (l ++ [e])) (BuildFileHeader (end_of l))) with (BuildFileHeader (end_of (l ++ [e]))). eapply guarded_bind; [eapply guarded_weaken; [apply (guarded_header _ (fun a => a = i))|by intros w a [_ H]]|]. intros []. eapply guarded_bind; [apply (guarded_sync_every (mmap_file (l ++ [e])) (fun a => a = i))|]. intros [].
  unfold RemapFile. apply guarded_get. intros [w1 i1]. cbn [snd]. apply (guarded_assume _ (i1 = i)); [by intros w a [[= _ <-] [_ ->]]|]. intros ->. rewrite O2. eapply guarded_bind; [eapply guarded_weaken; [apply (guarded_map (mmap_file (l ++ [e])) _ (fun a => a = i))|by intros w a [_ H]]|]. intros ?. by intros w a [H _].
Qed.

Let blank : list Z := mmap_file l ++ replicate (Z.to_nat (entry_size e)) 0.

Lemma guarded_extend what : guarded unbroken (disk (resize_file path false (end_of (l ++ [e])) what)) (fun w a => holding (mmap_file l) w /\ a = i) (fun _ w a => holding blank w /\ a = i).
Proof.
  unfold blank. rewrite <- blank_bytes. apply (guarded_resize (end_of (l ++ [e])) what (mmap_file l) (fun a => a = i)). rewrite blank_bytes. exists l. eexists. split; [by left|apply lookup_insert_eq].
Qed.

Lemma length_blank : Z.of_nat (length blank) = end_of l + entry_size e.
Proof. unfold blank. rewrite length_app, length_replicate, Nat2Z.inj_add, length_mmap_file. pose proof (entry_size_pos e). lia. Qed.

End Append.

Section Save.
Context (path : string) (policy : SyncPolicy) (l : list Entry) (f : Files) (i : Impl).
Context (Hs : mmap_stored path false l f) (Ho : mmap_opened path false l i).

Let p : Path := self path false.

Lemma header_now e w0 i0 (Hok : file_ok (l ++ [e])) : (exists w a, (w0, i0) = (w, a) /\ holding path l e f (mmap_file l) w /\ a = i) -> i0 = i /\ mapping_header path false (w0, i0) = BuildFileHeader (end_of l).
Proof.
  intros (w & a & [= -> ->] & Hw & ->). split; [done|]. destruct (file_ok_snoc l e Hok) as (Hl & _ & _). apply (mapping_header_of path false l []); [apply Hl|rewrite app_nil_r; by eapply holding_content|apply Ho].
Qed.

Lemma guarded_message_save m (e := EMessage m) (Hok : file_ok (l ++ [e])) : guarded (unbroken path l e f) (AppendOutboundLikeView path policy false (if fst m then StoreRecordType.kOutbound else StoreRecordType.kInbound) (snd m)) (fun w a => holding path l e f (mmap_file l) w /\ a = i) (fun _ w _ => holding path l e f (mmap_file (l ++ [e])) w).
Proof.
  destruct (file_ok_snoc l e Hok) as (Hl & He & Hb). pose proof Ho as [O1 O2 O3 O4]. destruct (new_size_small l e Hb) as [Hn1 Hn2]. pose proof (append_bytes l e) as Happ. cbn zeta in Happ. pose proof (length_blank l e) as Hlb. pose proof (length_mmap_file l) as Hlen. pose proof (end_of_min l) as Hmin. change kStoreFileHeaderSize with 32 in Hmin.
  unfold AppendOutboundLikeView, expect. rewrite (mmap_view_validates m He). eapply guarded_bind; [apply guarded_ret|]. intros []. eapply guarded_bind; [by apply guarded_open|]. intros []. apply guarded_get. intros [w0 i0]. cbn [snd].
  apply (guarded_assume _ (i0 = i /\ mapping_header path false (w0, i0) = BuildFileHeader (end_of l))); [intros w a H; apply (header_now e w0 i0 Hok); by exists w, a|]. intros [-> ->]. rewrite O1. cbn [BuildFileHeader fh_file_size]. change (kStoreRecordHeaderSize + Z.of_nat (length (v_payload (snd m)))) with (entry_size e). rewrite Hn1, Hn2.
  eapply guarded_bind; [eapply guarded_weaken; [apply (guarded_extend path l e f i)|by intros w a [_ H]]|]. intros []. change (MkRecordHeader _ _ _ _ _ _ _ _ _ _ _ _ _) with (entry_header e). change (v_payload (snd m)) with (entry_payload e).
  eapply guarded_bind; [eapply (guarded_write path l e f (entry_payload e) _ _ _ (fun a => a = i)); unfold entry_size in *; change kStoreRecordHeaderSize with 64 in *; lia|]. intros [].
  destruct (write_at_keeps (mmap_file l) (Z.to_nat (end_of l + kStoreRecordHeaderSize)) (entry_payload e) (mmap_file l ++ replicate (Z.to_nat (entry_size e)) 0)) as [t Et]; [by apply prefix_app_r|change kStoreRecordHeaderSize with 64; lia|]. rewrite Et in *.
  eapply guarded_bind; [eapply (guarded_write path l e f (pod_bytes (entry_header e)) _ _ _ (fun a => a = i)); rewrite length_app; lia|]. intros []. rewrite Happ.
  eapply guarded_bind; [by apply guarded_commit_size|]. intros []. destruct (_ =? _); by intros w a Hw.
Qed.

Lemma guarded_state_save r (e := EState r) (Hok : file_ok (l ++ [e])) : guarded (unbroken path l e f) (AppendRecoveryState path policy false r) (fun w a => holding path l e f (mmap_file l) w /\ a = i) (fun _ w _ => holding path l e f (mmap_file (l ++ [e])) w).
Proof.
  destruct (file_ok_snoc l e Hok) as (Hl & He & Hb). pose proof Ho as [O1 O2 O3 O4]. destruct (new_size_small l e Hb) as [Hn1 Hn2]. pose proof (append_bytes l e) as Happ. cbn zeta in Happ. pose proof (length_blank l e) as Hlb. pose proof (length_mmap_file l) as Hlen. pose proof (end_of_min l) as Hmin. change kStoreFileHeaderSize with 32 in Hmin.
  unfold AppendRecoveryState. destruct (Z.eqb_spec (r_session_id r) 0) as [E|_]; [destruct He; lia|]. eapply guarded_bind; [by apply guarded_open|]. intros []. apply guarded_get. intros [w0 i0]. cbn [snd].
  apply (guarded_assume _ (i0 = i /\ mapping_header path false (w0, i0) = BuildFileHeader (end_of l))); [intros w a H; apply (header_now e w0 i0 Hok); by exists w, a|]. intros [-> ->]. rewrite O1. cbn [BuildFileHeader fh_file_size]. assert (Hn0 : u64 (end_of l + kStoreRecordHeaderSize) = end_of (l ++ [e])) by (rewrite Hn2, end_of_snoc; unfold entry_size; change (length (entry_payload e)) with O; lia). rewrite Hn0.
  eapply guarded_bind; [eapply guarded_weaken; [apply (guarded_extend path l e f i)|by intros w a [_ H]]|]. intros []. change (MkRecordHeader _ _ _ _ _ _ _ _ _ _ _ _ _) with (entry_header e).
  assert (Hnat : (Z.to_nat (end_of l + kStoreRecordHeaderSize) <= length (mmap_file l ++ replicate (Z.to_nat (entry_size e)) 0%Z))%nat) by (rewrite length_app, length_replicate; unfold entry_size; change kStoreRecordHeaderSize with 64; lia). change (entry_payload e) with (@nil Z) in Happ. rewrite (write_at_nil _ _ Hnat) in Happ. eapply guarded_bind; [eapply (guarded_write path l e f (pod_bytes (entry_header e)) _ _ _ (fun a => a = i)); pose proof (entry_size_pos e); lia|]. intros []. rewrite Happ.
  eapply guarded_bind; [by apply guarded_commit_size|]. intros []. by intros w a Hw.
Qed.

Lemma guarded_save e (Hok : file_ok (l ++ [e])) : guarded (unbroken path l e f) (mmap_save path policy false e) (fun w a => holding path l e f (mmap_file l) w /\ a = i) (fun _ w _ => holding path l e f (mmap_file (l ++ [e])) w).
Proof. destruct e as [m|r]; [|by apply guarded_state_save]. pose proof (guarded_message_save m Hok) as H. destruct m as [[] v]; exact H. Qed.
End Save.

(** C10: an append of the mmap store is atomic: whatever the system calls do (short writes
    that move at least a header, interruptions, errors), and behind whatever operation the
    process ends, the file opens again without an error and the store then holds what it
    held before or that and the new record; it holds the record when the save succeeded
    and all of it was done. *)
Theorem append_is_atomic path policy l e f i script errno k :
  file_ok (l ++ [e]) -> mmap_stored path false l f -> mmap_opened path false l i -> Forall whole script ->
  let r := mmap_save path policy false e (MkWorld f script errno [], i) in
  let ops := w_trace (fst (fst r)) in
  exists l' w' i', (l' = l \/ l' = l ++ [e]) /\ (snd r = Value tt -> (length ops <= k)%nat -> l' = l ++ [e]) /\
    Open path policy false (fresh_world (replay f (take k ops)), NewImpl) = ((w', i'), Value tt) /\ keeps path l' (history l') w' i'.
Proof.
  intros Hok Hs Ho Hsc r ops. assert (Hstart : holding path l e f (mmap_file l) (MkWorld f script errno [])).
  { split; [|done]. constructor; [|done]. intros k'. cbn [w_trace]. rewrite take_nil. exists l, []. rewrite app_nil_r. split; [by left|exact Hs]. }
  pose proof (guarded_save path policy l f i Ho e Hok (MkWorld f script errno []) i (conj Hstart eq_refl)) as Hg. unfold ops. fold r in Hg.
  assert (Hopen : forall l' tail g, file_ok l' -> g !! self path false = Some (mmap_file l' ++ tail) -> exists w' i', Open path policy false (fresh_world g, NewImpl) = ((w', i'), Value tt) /\ keeps path l' (history l') w' i').
  { intros l' tail g Hl' Hg'. destruct (open_prefix path policy false l' tail g NewImpl Hl' Hg' (or_introl eq_refl) (fresh_world g)) as (w' & E & [Hf' Hw']); [done|]. eexists w', _. split; [exact E|]. constructor; [done|done|unfold mmap_stored; rewrite Hf'; apply lookup_insert_eq|by apply after_open_opened|done]. }
  destruct (file_ok_snoc l e Hok) as (Hl & _ & _). destruct r as [[w1 i1] [x|err]]; cbn [fst snd] in *.
  - destruct Hg as ([Ua Un] & _ & Hc). destruct (decide (length (w_trace w1) <= k)%nat) as [Hk|Hk].
    + exists (l ++ [e]). destruct (Hopen (l ++ [e]) [] (replay f (take k (w_trace w1))) Hok) as (w' & i' & E & Hkeep); [rewrite take_ge by done; by rewrite Un, app_nil_r|]. exists w', i'. split; [by right|]. done.
    + destruct (Ua k) as (l' & tail & Hl' & Hg'). destruct (Hopen l' tail _ ltac:(by destruct Hl' as [->| ->]) Hg') as (w' & i' & E & Hkeep). exists l', w', i'. split; [done|]. split; [intros _ ?; lia|done].
  - destruct Hg as [Ua Un]. destruct (Ua k) as (l' & tail & Hl' & Hg'). destruct (Hopen l' tail _ ltac:(by destruct Hl' as [->| ->]) Hg') as (w' & i' & E & Hkeep). exists l', w', i'. split; [done|]. split; [done|done].
Qed.

(** ** A small store *)

Definition mmap_demo_calls : list StoreCall :=
  [Save (EMessage (true, demo_message 7 1 5 "hello")); Save (EMessage (false, demo_message 7 1 6 "in")); Save (EState (MkRecovery 7 2 2 6 5 true)); Save (EMessage (true, demo_message 8 1 9 "other")); DoRollover;
   GetOutbound 7 1 10; GetInbound 7 1 10; DoReset 7; GetOutbound 7 1 10; GetViews 8 1 1; Restart; GetRecovery 7; GetInbound 7 3 1].

Lemma mmap_demo_ok : Forall entry_ok (all_saved mmap_demo_calls).
Proof. repeat constructor; cbn; try done; by vm_compute. Qed.

Lemma mmap_store_refines_witness : Forall entry_ok (all_saved mmap_demo_calls) /\
  mmap_calls "dir/store" kEveryWrite (Restart :: mmap_demo_calls) (fresh_world ∅, NewImpl) = abs_calls (Restart :: mmap_demo_calls) (fun _ => abs_empty) /\
  nth 6 (abs_calls (Restart :: mmap_demo_calls) (fun _ => abs_empty)) (Acted (Value tt)) = Records (Value [ToOwned (demo_message 7 1 5 "hello")]).
Proof. split; [exact mmap_demo_ok|]. split; [|vm_compute; reflexivity]. apply mmap_store_refines; [exact mmap_demo_ok|by vm_compute]. Defined.

Definition one_message : list Entry := [EMessage (true, demo_message 7 1 5 "hello")].
Definition next_message : Entry := EMessage (true, demo_message 7 2 6 "world").
Definition one_file : Files := <[self "store" false := mmap_file one_message]> ∅.
Definition one_impl : Impl := after_open one_message (with_fd (Some (self "store" false)) NewImpl).

Lemma append_is_atomic_witness :
  let r := mmap_save "store" kNone false next_message (MkWorld one_file [Done; Done; Done; Interrupted; Partial 0] "" [], one_impl) in
  snd r <> Value tt /\
  exists l' w' i', (l' = one_message \/ l' = one_message ++ [next_message]) /\ (snd r = Value tt -> (length (w_trace (fst (fst r))) <= 2)%nat -> l' = one_message ++ [next_message]) /\
    Open "store" kNone false (fresh_world (replay one_file (take 2 (w_trace (fst (fst r))))), NewImpl) = ((w', i'), Value tt) /\ keeps "store" l' (history l') w' i'.
Proof.
  split; [vm_compute; discriminate|]. apply (append_is_atomic "store" kNone one_message next_message one_file one_impl); [split; [repeat constructor; cbn; try done; by vm_compute|by vm_compute]|apply lookup_insert_eq|by apply after_open_opened|repeat constructor].
Defined.

(** With the policy that synchronises every write there is one synchronisation behind the
    three writes of an append: when the power fails before it, the headers may be durable
    and the payload not, and the store loads a message of zeros. *)
Theorem payload_not_synchronised :
  let ops := w_trace (fst (fst (mmap_save "store" kEveryWrite false next_message (fresh_world one_file, one_impl)))) in
  exists c, crash_image kAtomic (self "store" false) (resize (Z.to_nat (end_of (one_message ++ [next_message]))) (mmap_file one_message)) (take 3 (drop 1 ops)) c /\
    snd ((Open "store" kEveryWrite false ;;; LoadOutboundRange "store" kEveryWrite false 7 2 2) (fresh_world (<[self "store" false := c]> ∅), NewImpl)) = Value [MkRecord 7 2 6 0 [0; 0; 0; 0; 0] 0].
Proof.
  cbv zeta. eexists. split; [vm_compute; apply survives_lost, survives_kept, survives_kept, survives_none|]. vm_compute. reflexivity.
Qed.
